(* ===== verification/_CoqProject ===== *)
-Q . S2P
Prelude.v
GoStr.v
GoTime.v
Version.v
Inventory.v
KB.v
Findings.v
APIUse.v
Calls.v
AddOns.v
Skew.v
Gaps.v
Helm.v
Crd.v
Volumes.v
Support.v
Evaluate.v
Limit.v
Plan.v
Glob.v
TextSafe.v
Suppress.v
Baseline.v
GoUtf8.v
Admit.v
Conform.v
GoSha.v
Heads.v
Notify.v
Db.v
Store.v
StoreInv.v
Prune.v
StoreSpec.v
Outbox.v
Delivery.v
Delta.v
Merge.v
Passes.v
Background.v
PassSpec.v
Views.v
Scope.v
Tokens.v
GoNet.v
Auth.v
Gate.v
Body.v
Ingest.v
Reads.v
Rollup.v
Status.v
Agent.v
Push.v
Tick.v
GoRegexp.v
Registry.v
Detect.v
ClaimSpec.v
DetectSpec.v
Tally.v
PodPass.v
PodPassSpec.v
ControlPlane.v
Usage.v
HelmStore.v
HelmStoreSpec.v
Collector.v
CollectorSpec.v
GitOps.v
GitOpsSpec.v
Render.v
Junit.v
Sarif.v
CodeQuality.v
Scan.v
FormatSpec.v
FreshSpec.v
ScanSpec.v
GateFormats.v
