(* ===== verification/Prelude.v ===== *)
(** * upgradescope: a verification of its engine, collector, agent, server and CI outputs

    upgradescope says whether a Kubernetes cluster, or a set of manifests,
    is ready for an upgrade to a target minor version. A collector reads an
    inventory; the engine judges it against a knowledge base and a time and
    returns a report with findings, gaps, a score and a verdict; ignore rules
    and a baseline then say which findings count. A scan does this once and
    tells by its exit code and document. An agent does it on every tick,
    pushes its inventories to a server and keeps a status in the cluster. The
    server admits inventories, evaluates each against its targets, stores
    snapshots, evaluations and queued notifications in one transaction,
    re-evaluates what has gone stale, delivers the notifications, answers
    reads within the scope of a token, gates manifests in CI, and prunes old
    rows. This library models those parts: definitions with the names of the
    Go code, executable, and theorems about them.

    ** The parts and their files

    A file holds a part's data and operations and, where it is not too long,
    its theorems after them; a file named [...Spec] holds theorems alone.

    Shared:
    - Prelude: notation, the hint database, 64-bit integers with their
      wrap-around, insertion sort standing for Go's sorts, results.
      GoStr, GoTime, GoSha, GoUtf8, GoNet, GoRegexp, Glob: the parts of
      strings, strconv, fmt, time, crypto/sha256, unicode/utf8, net/netip,
      net/url, regexp and path the code uses, on byte strings and on
      nanoseconds since the epoch.
    - Version: internal/inventory/version.go. Inventory: types.go, what a
      collector reports. [Semver] and [KubeAware] stand for Masterminds/semver
      and the version comparison of apimachinery, which are not part of the
      repository; a theorem that needs their order says so ([SemverOrder]).
    - KB: internal/kb/apilifecycle.go, skew.go, registry/types.go and
      support.go. The lifecycle index and the searches that recommend a
      replacement. A replacement chain is followed with as much fuel as the
      index has entries, which is always enough ([chain_total]).

    The engine (internal/engine):
    - Findings: findings.go, score.go, teamscore.go, budget.go and the helpers
      at the top of engine.go. Categories, keys, gaps, verdict, score,
      sorting, team scores and the report budget.
    - APIUse, Calls, AddOns, Skew, Gaps, Helm: the checks of engine.go and
      runtimes.go, one file per group, each with every title, detail,
      remediation and citation it writes. Crd, Volumes, Support:
      crdversions.go, volumes.go (with the validation of the plugin dataset,
      kb/volumeplugins.go) and support.go.
    - Evaluate: evaluate, Evaluate and EvaluateWithin. The checks run in the
      order of the code with the budget as state; [None] is a panic, which
      only the volume check could raise and a validated dataset rules out.
      Limit: what an evaluation charges its budget against what its report
      holds. FreshSpec: the engine sets no baseline state.
    - Plan: plan.go. The hop loop carries as fuel the number of minors to the
      target, which is enough ([HopTargets_reach]).
    - Suppress: internal/suppress/suppress.go and internal/crd/apigroup.
      Rules, annotations, and Apply. Its queue carries as fuel the number of
      findings and of folded callers, which is enough ([Apply_total]).
      Baseline: internal/suppress/baseline.go.

    Collection (internal/collect) and the registry:
    - GoRegexp, Registry: registry/validate.go, claims.go, providers.go,
      extra.go, load.go. Entries, the images they claim, and the conflicts
      between claims. ClaimSpec: their theorems.
    - Detect: addons.go. Evidence, matching, release lines and instances.
      DetectSpec: the theorems. Tally: volumes.go. PodPass: the pages of the
      pods and podpass_cache.go, whose pass is reused while nothing that it
      read has changed. PodPassSpec: the theorems.
    - ControlPlane: versions.go and provider.go. Usage: apiusage.go, crds.go
      and deprecatedcalls.go. HelmStore: helm.go and helm_cache.go.
      HelmStoreSpec: its theorems. Collector: collector.go, the steps in
      order, the time each is given, and the capability each leaves.
      CollectorSpec: from the answers of an apiserver to the verdict.
      GitOps: gitops.go and gitops_cache.go, the charts of Argo CD and Flux
      and the URLs that are recorded of them. GitOpsSpec: their theorems.
      A paged list takes as fuel a bound on its pages; [None] is a list that
      does not end within it, of which nothing is said.
    - Admit, Conform: internal/inventory/limits.go, validate.go, volumes.go,
      admit.go and conform.go. What an inventory must satisfy, and the repair
      a collector runs first; the walk by reflection is over a tree of what
      reflection shows of an inventory. [Content] stands for the identifier
      rules of apimachinery and [Unicode] for the tables of the toolchain.
      The loop of single drops has the bound of the code, 256.

    The scan and its outputs:
    - TextSafe: internal/textsafe/textsafe.go; its loops take the bytes left
      as fuel, as a character takes one at least.
    - Render, Junit, Sarif, CodeQuality: internal/junit, sarif and
      codequality, up to the value that is encoded; FormatSpec: what SARIF
      and Code Quality promise.
    - Scan: internal/cli/scan.go from the flags to the exit code, with the
      answers of files, cluster, clock and terminal in [scanWorld]. ScanSpec:
      its theorems. GateFormats: the same of the server's gate.

    The agent (internal/agent) and the status (internal/crd):
    - Status: types.go and what of apply.go builds a status from reports.
      Agent: configuration and targets; Push: the push gate and its retries;
      Tick: a tick against any answers of an apiserver, as a monad over the
      calls it makes.

    The server (internal/server):
    - Db: tables with sequences and transactions over them, what the store
      uses of SQL. Heads, Notify: what the server keeps of a report, and the
      notifications (notify_delta.go, notify/notify.go). Store: store/store.go
      and sqlite.go, every operation of the Store interface on the tables of
      the migrations, each statement of a transaction in turn. Prune:
      store/prune.go, whose batched loops carry as fuel the number of rows
      plus one, which is enough, as each full batch deletes a row. StoreInv,
      StoreSpec: the invariant of the tables, the step relation of the
      operations (a direct [InsertEvaluation], which only tests make, with a
      snapshot of the cluster it names, which the schema does not check), and
      what a commit promises.
    - Outbox: outbox.go and notify_retry.go. One delivery is a verdict and
      what settles it, with a clock reading per call to the clock; the passes
      run against any sequence of clock readings and sink answers. Delivery:
      its theorems, those on a message's lifetime over the steps of any
      number of workers, which may crash between any two ([event]).
    - Delta, Merge: the notification delta of a target and the merge of a
      pass's changes into one notification (notify_delta.go).
    - Passes: evaluate.go, teammap.go. A push and a re-evaluation, from what
      they read to what they commit; the engine, the size of an encoded
      report and the inventory of a stored snapshot are fields of [Server].
      Background: the pass over every cluster, its marks (passmarks.go),
      staleness (stale.go) and retention (retention.go). PassSpec: their
      theorems.
    - Views: legacy.go, kbskew.go and envelope.go. Scope: scope.go and
      teams.go. Tokens: internal/secretfile and tokens.go. Auth: the
      authorization of a read, proxies, the open mode and the host check.
    - Gate: gate.go, gate_merge.go, gate_suppress.go, gate_volumes.go.
      Body: request bodies under their budgets. Ingest: the push handler.
      Reads, Rollup: the read API and the fleet's teams (api.go, fleet.go,
      whatif.go, fleet_teams_cache.go).

    ** How the code is read

    A Go [int] is a [Z]; where a sum can leave 64 bits it is wrapped
    ([wrap64]). A nil pointer is [None]; a string-keyed map is a [gmap]; a
    loop over a Go map, whose order is random, is taken over any order and
    shown not to depend on it ([assessmentGaps_order_independent]), or, where
    only the choice among several errors depends on it, over one. A check
    that stops once the budget is spent is a check with the budget as state:
    it returns the findings it appended and what is left. An error is an
    [Err] with its text; a store's error carries its sentinel. Strings are
    byte strings; case mapping is that of ASCII, and quoting that of strconv
    on ASCII text. A database is a value: what other writers do between two
    transactions is a function on it, or a step of the relation [step]. An
    apiserver is the answers it gives, page by page; a clock is a sequence of
    readings.

    ** What is shown

    - The verdict: READY rests on evidence that was collected and covers the
      target and on nothing the upgrade breaks ([ready_sound]); a removed API
      in use always blocks ([removed_api_blocks]); every validated knowledge
      base gives a report, well formed ([Evaluate_well_formed]), that does not
      depend on the order of caller rows ([Evaluate_calls_order]); a size
      limit bounds the report and changes nothing else
      ([EvaluateWithin_limit]); what could not be assessed is a required gap
      ([assessmentGaps_required]).
    - The same end to end: a removed API in use fails a scan in every format
      ([scan_removed_api_fails]) and a gate ([gate_removed_api_blocks]), and a
      cluster that still uses one, or whose versions could not be read, is
      never READY whatever the apiserver answers
      ([collect_removal_never_ready], [collect_unread_never_ready]).
    - The outputs: exit code, JUnit, SARIF, Code Quality and JSON tell the
      same ([scan_formats_agree], [scan_junit_agrees], [gate_junit_agrees]);
      SARIF drops nothing in silence ([sarif_accounts]); entries keep their
      fingerprints ([fingerprints_identify]); text for a terminal cannot
      drive it ([Escape_safe]).
    - The checks: for API usage, kubelets, the control plane, add-ons, Helm
      manifests, CRDs, volume plugins and provider support, exactly which
      inputs give a blocker; that grouping add-on installs and folding caller
      rows lose nothing; that the keys of an add-on's findings are distinct.
    - The recommendations: replacement chains end, a recommended replacement
      is served and no less mature, the alternative is the best one, and the
      order of the dataset does not matter.
    - Plans: hops reach the target, and each finding is listed in full once.
    - Suppression: it conserves objects and callers
      ([applyFinding_conserves]), always terminates ([Apply_total]), never
      acts without a rule in force or a reasoned annotation
      ([Apply_justified]), and keeps an unmatched blocker. Baselines never
      hide an escalation or a new object ([Mark_unchanged_recorded]).
    - Collection: no two registry entries claim an image
      ([registry_claims_unique]); every piece of evidence is in an instance
      ([matchAddOns_complete]); a reused pod pass gives what a fresh one
      would ([reuse_exact]); a Helm release is judged by the revision that
      runs ([installedRevision_runs]) and its manifest parsed a bounded piece
      at a time, with no document lost in silence ([splitRuns_packs]); no
      listed release is left out in silence, whatever the apiserver answers
      ([helm_releases_accounted]), and the cache of decoded releases changes
      which payloads are downloaded, not what is recorded
      ([helm_cache_transparent]); charts that GitOps deploys and that were
      not read are a gap ([collect_charts_gap]), and no credential of a
      repository URL is recorded ([redactRepoURL_forgets]).
    - Admission: a repaired inventory is admitted as it is
      ([Conform_admits]), an admitted one needs no repair
      ([Admit_needs_no_repair]), a repair counts what it leaves out
      ([conformUsages_conserves]), and cuts keep to their limits and to whole
      characters ([AppendReason_fits]).
    - The agent: a snapshot is delivered ([push_delivers]) and a status never
      claims more than was judged ([tick_status_honest]), within its bounds
      ([status_bounded]).
    - The store: every reachable database is well formed
      ([reachable_db_ok]); a commit reads back column by column and message
      by message ([commit_reads_back]), checks
      what it was computed from ([commit_compare_and_swap]), never moves a
      cluster's UID ([cluster_uid_bound]) and refuses a revoked token
      ([revoked_token_refused]); retention refines one declarative deletion
      ([Prune_refines]) that no read of the current state sees
      ([Prune_keeps_reads]).
    - Ingest: what is accepted was allowed and admitted and is current
      ([ingest_accepted]); what is refused changed nothing
      ([ingest_refused_untouched]).
    - Scopes: a scoped report holds nothing of other teams
      ([scopeReport_confined]), the gate's answer does not depend on them
      ([gate_noninterference]), a scope is granted only to who may have it
      ([readScope_authorized]), and the three tokens in service stay apart
      ([tokens_stay_apart]).
    - Notifications: a finding is announced when it is new and once
      ([computeDelta_announces], [computeDelta_once]); the index of carried
      findings is exact unless a kind is itself called "unserved"
      ([carriedFolds_exact]); a
      pass's notification is the whole merge, capped
      ([buildNotification_merges]); deltas are computed from the baselines
      that are current at the commit ([ingest_against_current]), and
      retention does not change them when nothing is written while it reads
      what to keep ([retention_keeps_deltas]); a caller
      missing from a scrape is held a bounded time ([hold_bounded]).
    - Delivery: a message is claimed by one worker at a time
      ([claim_exclusive]), sinks may be served in any interleaving
      ([deliverBatch_interleaving]), a pass ends ([deliverOutbox_drains]) and
      a message past its lifetime is given up by the first pass that no
      lease keeps it from ([message_given_up]).
    - Passes: a re-evaluation run alone leaves every target current
      ([reevaluate_settles]).

    ** What is not modelled

    Reading manifests from files (YAML streams) and the inflating of Helm
    payloads: what they yield is an input. The HTTP
    listener, routing, slots and metrics; exports; the cost of YAML; the
    commands other than scan, the MCP server, and the table and Markdown
    texts. JSON, XML, YAML and SQL text are outside: the model starts from
    decoded values and typed tables and ends at the value that is encoded.
    The Postgres store runs the same statements in another dialect and is not
    modelled apart. Loading the datasets from disk, the generators and the
    web interface are outside. *)

From stdpp Require Import base list gmap strings sorting.
From Stdlib Require Import ZArith Lia.

#[global] Set Default Proof Using "Type".
#[global] Open Scope Z_scope.

(** ** Notation and automation *)

Declare Scope go_scope.
Delimit Scope go_scope with go.
Infix "=s" := String.eqb (at level 70, no associativity) : go_scope.
Infix "<s" := String.ltb (at level 70, no associativity) : go_scope.
#[global] Open Scope go_scope.

(** The hint database of the facts every component uses. *)
Create HintDb go.

(** Turns boolean guards of the source into propositions. *)
Ltac to_prop :=
  repeat match goal with
  | H : (_ && _) = true |- _ => apply andb_true_iff in H; destruct H
  | H : (_ || _) = false |- _ => apply orb_false_iff in H; destruct H
  | H : negb _ = true |- _ => apply negb_true_iff in H
  | H : negb _ = false |- _ => apply negb_false_iff in H
  | H : (_ =s _) = true |- _ => apply String.eqb_eq in H
  | H : (_ =s _) = false |- _ => apply String.eqb_neq in H
  | H : (_ <=? _) = true |- _ => apply Z.leb_le in H
  | H : (_ <=? _) = false |- _ => apply Z.leb_gt in H
  | H : (_ <? _) = true |- _ => apply Z.ltb_lt in H
  | H : (_ <? _) = false |- _ => apply Z.ltb_ge in H
  | H : (_ =? _) = true |- _ => apply Z.eqb_eq in H
  | H : (_ =? _) = false |- _ => apply Z.eqb_neq in H
  end.

(** Case analysis on the innermost conditional or match of the goal. *)
Ltac split_ifs := repeat (case_match; simplify_eq/=); to_prop.

(** ** Machine integers

    A Go [int] is 64 bits wide here (amd64, arm64): sums and products wrap
    around in two's complement. *)

Definition maxInt : Z := 2 ^ 63 - 1.
Definition minInt : Z := - 2 ^ 63.

Definition wrap64 (z : Z) : Z := (z + 2 ^ 63) mod 2 ^ 64 - 2 ^ 63.

Definition in_int64 (z : Z) : Prop := minInt <= z <= maxInt.

Lemma wrap64_id z : in_int64 z -> wrap64 z = z.
Proof.
  unfold in_int64, minInt, maxInt, wrap64. intros H.
  rewrite Z.mod_small; lia.
Qed.

Lemma wrap64_range z : in_int64 (wrap64 z).
Proof.
  unfold in_int64, minInt, maxInt, wrap64.
  pose proof (Z.mod_pos_bound (z + 2 ^ 63) (2 ^ 64) ltac:(lia)). lia.
Qed.
#[export] Hint Resolve wrap64_range : go.

(** ** Stable sorting

    Go's sorts, as insertion sort: it is what [slices.Sort*] and
    [sort.Slice] run on up to twelve elements, and for the comparisons that
    only relate equal values (strings, total orders) every sort gives the
    same list ([isort_perm_eq]). *)

Section Isort.
Context {A : Type} (leb : A -> A -> bool).

Fixpoint insert_sorted (x : A) (l : list A) : list A :=
  match l with
  | [] => [x]
  | y :: ys => if leb x y then x :: y :: ys else y :: insert_sorted x ys
  end.

Definition isort (l : list A) : list A := foldr insert_sorted [] l.

Lemma insert_sorted_perm x l : insert_sorted x l ≡ₚ x :: l.
Proof.
  induction l as [|y ys IH]; simpl; [done|].
  destruct (leb x y); [done|]. rewrite IH. apply Permutation_swap.
Qed.

Lemma isort_perm l : isort l ≡ₚ l.
Proof.
  induction l as [|x l IH]; simpl; [done|].
  rewrite insert_sorted_perm. by rewrite IH.
Qed.

Context (leb_total : forall x y, leb x y = true \/ leb y x = true).
Context (leb_trans : forall x y z, leb x y = true -> leb y z = true -> leb x z = true).

Lemma insert_sorted_sorted x l :
  StronglySorted (fun a b => leb a b = true) l ->
  StronglySorted (fun a b => leb a b = true) (insert_sorted x l).
Proof using leb_total leb_trans.
  induction 1 as [|y ys Hs IH Hy]; simpl; [repeat constructor|].
  destruct (leb x y) eqn:E.
  - constructor; [by constructor|]. constructor; [done|].
    eapply Forall_impl; [exact Hy|]. simpl. eauto.
  - constructor; [done|]. rewrite insert_sorted_perm.
    constructor; [|done]. destruct (leb_total x y); congruence.
Qed.

Lemma isort_sorted l : StronglySorted (fun a b => leb a b = true) (isort l).
Proof using leb_total leb_trans.
  induction l; simpl; [constructor|]. by apply insert_sorted_sorted.
Qed.

(** A sorted list is its own sort. *)
Lemma isort_id l : StronglySorted (fun a b => leb a b = true) l -> isort l = l.
Proof.
  induction 1 as [|x l _ IH Hx]; [done|]. unfold isort in *. cbn [foldr]. rewrite IH.
  destruct Hx as [|y l Hy _]; [done|]. cbn. by rewrite Hy.
Qed.

(** A sort does not depend on the order of its input when no two of its
    elements are tied. *)
Lemma isort_perm_eq_in l1 l2 :
  (forall x y, x ∈ l1 -> y ∈ l1 -> leb x y = true -> leb y x = true -> x = y) ->
  l1 ≡ₚ l2 -> isort l1 = isort l2.
Proof using leb_total leb_trans.
  intros Hanti Hp.
  apply (StronglySorted_unique_strong (fun a b => leb a b = true)); [|apply isort_sorted..|].
  - intros x y. rewrite !isort_perm. rewrite <- Hp. apply Hanti.
  - by rewrite !isort_perm.
Qed.

(** A sort by a total order does not depend on the order of its input. *)
Lemma isort_perm_eq l1 l2 :
  (forall x y, leb x y = true -> leb y x = true -> x = y) ->
  l1 ≡ₚ l2 -> isort l1 = isort l2.
Proof using leb_total leb_trans.
  intros Hanti. apply isort_perm_eq_in. eauto.
Qed.
End Isort.

(** Strings sort bytewise. *)
Definition sort_strings (l : list string) : list string := isort String.leb l.

Lemma string_leb_trans x y z :
  String.leb x y = true -> String.leb y z = true -> String.leb x z = true.
Proof.
  intros H1 H2. apply Is_true_true. apply Is_true_true in H1, H2.
  by apply (transitivity (R := String.le) (y := y)).
Qed.

Lemma sort_strings_perm l : sort_strings l ≡ₚ l.
Proof. apply isort_perm. Qed.

Lemma sort_strings_perm_eq l1 l2 : l1 ≡ₚ l2 -> sort_strings l1 = sort_strings l2.
Proof.
  apply isort_perm_eq.
  - apply String.leb_total.
  - apply string_leb_trans.
  - apply String.leb_antisym.
Qed.

(** ** Lists *)

(** [slices.Contains] on strings. *)
Definition mem_str (s : string) (l : list string) : bool := existsb (String.eqb s) l.

Lemma mem_str_spec s l : mem_str s l = true <-> s ∈ l.
Proof.
  unfold mem_str. rewrite existsb_exists. split.
  - intros (x & Hx & He). apply String.eqb_eq in He. subst. by apply list_elem_of_In.
  - intros H. exists s. split; [by apply list_elem_of_In|apply String.eqb_refl].
Qed.

(** [slices.Compact]: drops adjacent duplicates. *)
Fixpoint compact (l : list string) : list string :=
  match l with
  | x :: ((y :: _) as l') => if x =s y then compact l' else x :: compact l'
  | _ => l
  end.

Lemma compact_in s l : s ∈ compact l <-> s ∈ l.
Proof.
  induction l as [|x l IH]; [done|]. cbn [compact]. destruct l as [|y l]; [done|].
  destruct (x =s y) eqn:E.
  - apply String.eqb_eq in E as <-. rewrite IH, !elem_of_cons. tauto.
  - by rewrite elem_of_cons, IH, (elem_of_cons (y :: l)).
Qed.

(** The length of a slice, as Go's [len] gives it. *)
Definition zlen {A} (l : list A) : Z := Z.of_nat (length l).

(** [cmp.Compare] on strings and on integers, and [cmp.Or]. *)
Definition cmpZ (a b : Z) : Z := if a <? b then -1 else if b <? a then 1 else 0.
Definition cmpStr (a b : string) : Z := if a <s b then -1 else if b <s a then 1 else 0.
Definition cmpOr (a b : Z) : Z := if a =? 0 then b else a.

(** ** Errors

    A Go function returning [(T, error)]: a value, or the text of its
    error. *)

Inductive res (A : Type) : Type :=
| Ok (a : A)
| Err (msg : string).
Arguments Ok {A} a.
Arguments Err {A} msg.

Definition res_bind {A B} (r : res A) (k : A -> res B) : res B :=
  match r with Ok a => k a | Err m => Err m end.

(** [if err != nil { return ..., fmt.Errorf(prefix+"%w", err) }]. *)
Definition res_wrap {A} (prefix : string) (r : res A) : res A :=
  match r with Ok a => Ok a | Err m => Err (prefix +:+ m) end.

Definition to_option {A} (r : res A) : option A :=
  match r with Ok a => Some a | Err _ => None end.

Notation "'let?' x ':=' r 'in' k" := (res_bind r (fun x => k))
  (at level 10, x pattern, r at level 100, k at level 200) : go_scope.

Lemma to_option_Some {A} (r : res A) a : to_option r = Some a <-> r = Ok a.
Proof. destruct r; simpl; split; congruence. Qed.

(** ** Optional results over a list *)

Lemma omap_omap {A B C} (f : A -> option B) (g : B -> option C) (l : list A) : omap g (omap f l) = omap (fun x => f x ≫= g) l.
Proof. induction l as [|x l IH]; [done|]. simpl. destruct (f x) as [y|]; simpl; [|exact IH]. destruct (g y); [f_equal|]; exact IH. Qed.

Lemma omap_ext_l {A B} (f g : A -> option B) (l : list A) : (forall x, f x = g x) -> omap f l = omap g l.
Proof. intros H. induction l as [|x l IH]; [done|]. simpl. rewrite (H x). destruct (g x); [f_equal|]; exact IH. Qed.
