(* ===== verification/GoStr.v ===== *)
(** * Go's string library, as the program uses it

    A Go string is a sequence of bytes, here a [string] of [ascii]s.
    Lengths are [Z]. [ToLower], [ToUpper] and [%q] are exact on ASCII;
    bytes from 0x80 on are copied unchanged (Go's Unicode tables are not
    modelled). [TrimSpace] trims every Unicode space. *)

From stdpp Require Import base list strings.
From Stdlib Require Import ZArith Lia Ascii.
From S2P Require Import Prelude.

Definition slen (s : string) : Z := Z.of_nat (String.length s).

(** ** Prefixes, suffixes, cutting *)

Fixpoint HasPrefix (s p : string) {struct p} : bool :=
  match p, s with
  | "", _ => true
  | String a p', String b s' => Ascii.eqb a b && HasPrefix s' p'
  | String _ _, "" => false
  end%string.

(** What is left of [s] after a prefix as long as [p]. *)
Fixpoint drop_len (s p : string) {struct p} : string :=
  match p, s with
  | "", _ => s
  | String _ p', String _ s' => drop_len s' p'
  | String _ _, "" => ""
  end%string.

Definition CutPrefix (s p : string) : option string :=
  if HasPrefix s p then Some (drop_len s p) else None.

Definition TrimPrefix (s p : string) : string :=
  if HasPrefix s p then drop_len s p else s.

(** [strings.CutSuffix]: the part of [s] before its last occurrence of [p]
    as a suffix. *)
Fixpoint CutSuffix (s p : string) : option string :=
  if s =s p then Some "" else
  match s with
  | "" => None
  | String c s' => match CutSuffix s' p with Some b => Some (String c b) | None => None end
  end%string.

Definition HasSuffix (s p : string) : bool :=
  match CutSuffix s p with Some _ => true | None => false end.

Definition TrimSuffix (s p : string) : string :=
  match CutSuffix s p with Some b => b | None => s end.

(** [strings.Cut] when the separator is found. *)
Fixpoint cut_opt (s sep : string) : option (string * string) :=
  if HasPrefix s sep then Some ("", drop_len s sep) else
  match s with
  | "" => None
  | String c s' =>
      match cut_opt s' sep with Some (b, a) => Some (String c b, a) | None => None end
  end%string.

(** [strings.Cut]: before, after, found. *)
Definition Cut (s sep : string) : string * string * bool :=
  match cut_opt s sep with
  | Some (b, a) => (b, a, true)
  | None => (s, ""%string, false)
  end.

Definition Contains (s sub : string) : bool :=
  match cut_opt s sub with Some _ => true | None => false end.

(** [strings.Replace(s, old, new, 1)] for a non-empty [old]. *)
Definition Replace1 (s old new : string) : string :=
  match cut_opt s old with
  | Some (b, a) => b +:+ new +:+ a
  | None => s
  end.

(** [strings.Split] at a one-byte separator. *)
Fixpoint Split (s : string) (c : ascii) : list string :=
  match s with
  | "" => [""]
  | String a s' =>
      if Ascii.eqb a c then "" :: Split s' c
      else match Split s' c with
           | x :: xs => String a x :: xs
           | [] => [String a ""]
           end
  end%string.

(** [strings.SplitN] at a one-byte separator: at most [n] parts. *)
Fixpoint SplitN (s : string) (c : ascii) (n : nat) : list string :=
  match n with
  | O => []
  | S O => [s]
  | S n' =>
      match cut_opt s (String c "") with
      | Some (b, a) => b :: SplitN a c n'
      | None => [s]
      end
  end.

(** [strings.Count] of a one-byte substring. *)
Fixpoint Count (s : string) (c : ascii) : Z :=
  match s with
  | ""%string => 0
  | String a s' => (if Ascii.eqb a c then 1 else 0) + Count s' c
  end.

(** [strings.Join]. *)
Fixpoint Join (l : list string) (sep : string) : string :=
  match l with
  | [] => ""
  | [x] => x
  | x :: l' => x +:+ sep +:+ Join l' sep
  end%string.

(** The split of [s] at its first byte that satisfies [p]: [s[:i]] and
    [s[i:]] for [i] the index [strings.IndexAny] or [IndexByte] finds. *)
Fixpoint split_at (p : ascii -> bool) (s : string) : string * string :=
  match s with
  | ""%string => (""%string, ""%string)
  | String a s' => if p a then (""%string, s) else let '(b, r) := split_at p s' in (String a b, r)
  end.

(** The split of [s] at the last [c], [strings.LastIndex] of a byte: what
    precedes it and what follows it. *)
Fixpoint cut_last (s : string) (c : ascii) : option (string * string) :=
  match s with
  | ""%string => None
  | String a s' =>
      match cut_last s' c with
      | Some (b, r) => Some (String a b, r)
      | None => if Ascii.eqb a c then Some (""%string, s') else None
      end
  end.

(** ** Case and space *)

Definition ascii_between (lo hi a : ascii) : bool :=
  (N.leb (N_of_ascii lo) (N_of_ascii a) && N.leb (N_of_ascii a) (N_of_ascii hi))%bool.

Definition lower_ascii (a : ascii) : ascii :=
  if ascii_between "A" "Z" a then ascii_of_N (N_of_ascii a + 32) else a.

Definition upper_ascii (a : ascii) : ascii :=
  if ascii_between "a" "z" a then ascii_of_N (N_of_ascii a - 32) else a.

Fixpoint map_string (f : ascii -> ascii) (s : string) : string :=
  match s with
  | ""%string => ""%string
  | String a s' => String (f a) (map_string f s')
  end.

Definition ToLower (s : string) : string := map_string lower_ascii s.
Definition ToUpper (s : string) : string := map_string upper_ascii s.

Definition bytes (l : list N) : string := foldr (fun n s => String (ascii_of_N n) s) ""%string l.

(** The UTF-8 encodings of the runes [unicode.IsSpace] accepts. *)
Definition spaces : list string :=
  map bytes
    ([[9]; [10]; [11]; [12]; [13]; [32]; [194; 133]; [194; 160]; [225; 154; 128];
      [226; 128; 168]; [226; 128; 169]; [226; 128; 175]; [226; 129; 159]; [227; 128; 128]]
     ++ map (fun n => [226; 128; n]) [128; 129; 130; 131; 132; 133; 134; 135; 136; 137; 138])%N.

Definition cut_first (cut : string -> string -> option string) (s : string) : option string :=
  foldr (fun p r => match cut s p with Some x => Some x | None => r end) None spaces.

Fixpoint trim_fuel (cut : string -> string -> option string) (n : nat) (s : string) : string :=
  match n with
  | O => s
  | S n' => match cut_first cut s with Some s' => trim_fuel cut n' s' | None => s end
  end.

(** Every round removes at least one byte, so the length is fuel enough. *)
Definition TrimSpace (s : string) : string :=
  let l := trim_fuel CutPrefix (String.length s) s in
  trim_fuel CutSuffix (String.length l) l.

(** ** Numbers *)

Definition digit (n : Z) : ascii := ascii_of_N (Z.to_N (n + 48)).
Definition is_digit (a : ascii) : bool := ascii_between "0" "9" a.
Definition digit_val (a : ascii) : Z := Z.of_N (N_of_ascii a) - 48.

Fixpoint itoa_go (fuel : nat) (n : Z) (acc : string) : string :=
  let acc' := String (digit (n mod 10)) acc in
  match fuel with
  | O => acc'
  | S f => if n <? 10 then acc' else itoa_go f (n / 10) acc'
  end.

(** [%d] and [strconv.Itoa]. A number has at most as many decimal digits as
    binary ones. *)
Definition itoa (z : Z) : string :=
  if z <? 0 then "-" +:+ itoa_go (Z.to_nat (Z.log2 (- z))) (- z) ""
  else itoa_go (Z.to_nat (Z.log2 z)) z "".

(** [%02d] of a number between 0 and 99; a wider number is printed whole. *)
Definition itoa02 (z : Z) : string :=
  if (0 <=? z) && (z <? 10) then "0" +:+ itoa z else itoa z.

Fixpoint all_digits (s : string) : bool :=
  match s with
  | ""%string => true
  | String a s' => is_digit a && all_digits s'
  end.

Fixpoint digits_val (acc : Z) (s : string) : Z :=
  match s with
  | ""%string => acc
  | String a s' => digits_val (acc * 10 + digit_val a) s'
  end.

(** [strconv.Atoi]: an optional sign and at least one digit, refusing what
    does not fit an [int]. *)
Definition Atoi (s : string) : option Z :=
  let '(neg, ds) :=
    match s with
    | String "-" r => (true, r)
    | String "+" r => (false, r)
    | _ => (false, s)
    end in
  if (negb (ds =s "") && all_digits ds)%bool then
    let n := if neg then - digits_val 0 ds else digits_val 0 ds in
    if (minInt <=? n) && (n <=? maxInt) then Some n else None
  else None.

(** ** Quoting: [%q], that is [strconv.Quote] *)

Definition dquote : ascii := "034".

Definition hex (n : N) : ascii :=
  if N.ltb n 10 then ascii_of_N (n + 48) else ascii_of_N (n + 87).

Definition quote_byte (a : ascii) : string :=
  let n := N_of_ascii a in
  if Ascii.eqb a dquote then String "\" (String dquote "")
  else if Ascii.eqb a "\" then "\\"
  else match n with
       | 7%N => "\a" | 8%N => "\b" | 12%N => "\f" | 10%N => "\n"
       | 13%N => "\r" | 9%N => "\t" | 11%N => "\v"
       | _ => if (N.ltb n 32 || N.eqb n 127)%bool
              then "\x" +:+ String (hex (N.div n 16)) (String (hex (N.modulo n 16)) "")
              else String a ""
       end.

Fixpoint quote_body (s : string) : string :=
  match s with
  | ""%string => ""%string
  | String a s' => quote_byte a +:+ quote_body s'
  end.

Definition quote (s : string) : string :=
  String dquote (quote_body s) +:+ String dquote "".

(** ** Lemmas *)

#[local] Arguments String.append : simpl nomatch.

Lemma app_nil_r_s (s : string) : s +:+ "" = s.
Proof. induction s as [|a s IH]; simpl; [done|]. by rewrite IH. Qed.

Lemma app_assoc_s (s t u : string) : (s +:+ t) +:+ u = s +:+ t +:+ u.
Proof. induction s as [|a s IH]; simpl; [done|]. by rewrite IH. Qed.

Lemma slen_app s t : slen (s +:+ t) = slen s + slen t.
Proof. unfold slen. induction s as [|a s IH]; simpl; [done|]. rewrite !Nat2Z.inj_succ. lia. Qed.

Lemma slen_nonneg s : 0 <= slen s.
Proof. unfold slen. lia. Qed.
#[export] Hint Resolve slen_nonneg : go.

Lemma HasPrefix_app p s : HasPrefix (p +:+ s) p = true.
Proof. induction p as [|a p IH]; simpl; [by destruct s|]. by rewrite Ascii.eqb_refl, IH. Qed.

Lemma drop_len_app p s : drop_len (p +:+ s) p = s.
Proof. induction p as [|a p IH]; simpl; [by destruct s|]. done. Qed.

Lemma HasPrefix_split p s : HasPrefix s p = true -> s = p +:+ drop_len s p.
Proof.
  revert s. induction p as [|a p IH]; intros s; [by destruct s|].
  destruct s as [|b s]; simpl; [done|]. intros H. to_prop.
  apply Ascii.eqb_eq in H as ->. by rewrite <- IH.
Qed.

Lemma HasPrefix_app_app p s q : HasPrefix (p +:+ s) (p +:+ q) = HasPrefix s q.
Proof. induction p as [|a p IH]; simpl; [done|]. by rewrite Ascii.eqb_refl, IH. Qed.

Lemma CutPrefix_app p s : CutPrefix (p +:+ s) p = Some s.
Proof. unfold CutPrefix. by rewrite HasPrefix_app, drop_len_app. Qed.

Lemma CutSuffix_app s p : CutSuffix (s +:+ p) p = Some s.
Proof.
  induction s as [|a s IH].
  - simpl. destruct p; simpl; [done|]. by rewrite Ascii.eqb_refl, String.eqb_refl.
  - assert (Hne : (String a s +:+ p =s p) = false).
    { apply String.eqb_neq. intros He. apply (f_equal slen) in He.
      rewrite slen_app in He. unfold slen in He. simpl in He. lia. }
    change (String a s +:+ p) with (String a (s +:+ p)) in *. cbn [CutSuffix].
    rewrite Hne. by rewrite IH.
Qed.

Lemma CutSuffix_Some s p b : CutSuffix s p = Some b -> s = b +:+ p.
Proof.
  revert b. induction s as [|a s IH]; intros b; cbn [CutSuffix].
  - case_match; intros; simplify_eq. by to_prop.
  - case_match eqn:E; [intros; simplify_eq; by to_prop|].
    destruct (CutSuffix s p) eqn:E'; intros; simplify_eq. simpl. f_equal. by apply IH.
Qed.

Lemma cut_opt_Some s sep b a : cut_opt s sep = Some (b, a) -> s = b +:+ sep +:+ a.
Proof.
  revert b a. induction s as [|c s IH]; intros b a; cbn [cut_opt].
  - destruct (HasPrefix "" sep) eqn:E; intros; simplify_eq.
    destruct sep; done.
  - destruct (HasPrefix (String c s) sep) eqn:E.
    + intros; simplify_eq. simpl. by apply HasPrefix_split.
    + destruct (cut_opt s sep) as [[b' a']|] eqn:E'; intros; simplify_eq.
      simpl. f_equal. by apply IH.
Qed.

(** [+:+] is opaque to [simpl]. *)
Lemma app_cons_s a s t : String a s +:+ t = String a (s +:+ t).
Proof. done. Qed.

Lemma app_nil_s t : ""%string +:+ t = t.
Proof. done. Qed.

(** A byte does not occur in a string. *)
Definition no_byte (c : ascii) (s : string) : Prop := cut_opt s (String c "") = None.

Lemma no_byte_cons c a s : no_byte c (String a s) <-> a <> c /\ no_byte c s.
Proof.
  unfold no_byte. cbn [cut_opt HasPrefix]. destruct (Ascii.eqb c a) eqn:E.
  - apply Ascii.eqb_eq in E as ->. simpl. split; [done|]. intros []; done.
  - apply Ascii.eqb_neq in E. simpl.
    destruct (cut_opt s (String c "")) as [[]|]; naive_solver.
Qed.

Lemma no_byte_nil c : no_byte c "".
Proof. done. Qed.
#[export] Hint Resolve no_byte_nil : go.

Lemma no_byte_app c s t : no_byte c (s +:+ t) <-> no_byte c s /\ no_byte c t.
Proof.
  induction s as [|a s IH]; [naive_solver|].
  change (String a s +:+ t) with (String a (s +:+ t)). rewrite !no_byte_cons. naive_solver.
Qed.

Lemma cut_opt_app c s t : no_byte c s -> cut_opt (s +:+ String c t) (String c "") = Some (s, t).
Proof.
  induction s as [|a s IH]; intros H.
  - simpl. rewrite Ascii.eqb_refl. by destruct t.
  - apply no_byte_cons in H as [Hne H].
    change (String a s +:+ String c t) with (String a (s +:+ String c t)). cbn [cut_opt HasPrefix].
    destruct (Ascii.eqb c a) eqn:E; [apply Ascii.eqb_eq in E; congruence|]. simpl.
    by rewrite IH.
Qed.

Lemma Split_no_byte c s : no_byte c s -> Split s c = [s].
Proof.
  induction s as [|a s IH]; intros H; [done|].
  apply no_byte_cons in H as [Hne H]. simpl.
  destruct (Ascii.eqb a c) eqn:E; [apply Ascii.eqb_eq in E; congruence|]. by rewrite IH.
Qed.

Lemma Split_app c s t : no_byte c s -> Split (s +:+ String c t) c = s :: Split t c.
Proof.
  induction s as [|a s IH]; intros H.
  - simpl. by rewrite Ascii.eqb_refl.
  - apply no_byte_cons in H as [Hne H]. simpl.
    destruct (Ascii.eqb a c) eqn:E; [apply Ascii.eqb_eq in E; congruence|]. by rewrite IH.
Qed.

Lemma Split_Join c l : l <> [] -> Forall (no_byte c) l -> Split (Join l (String c "")) c = l.
Proof.
  induction l as [|s l IH]; intros Hne Hl; [done|]. apply Forall_cons in Hl as [Hs Hl]. destruct l as [|t l].
  - cbn. by apply Split_no_byte.
  - change (Join (s :: t :: l) (String c "")) with (s +:+ String c "" +:+ Join (t :: l) (String c "")).
    change (String c "" +:+ Join (t :: l) (String c "")) with (String c (Join (t :: l) (String c ""))).
    rewrite Split_app by done. f_equal. by apply IH.
Qed.

Lemma cut_last_no_byte c s : no_byte c s -> cut_last s c = None.
Proof.
  induction s as [|a s IH]; intros H; [done|].
  apply no_byte_cons in H as [Hne H]. simpl. rewrite IH by done.
  destruct (Ascii.eqb a c) eqn:E; [apply Ascii.eqb_eq in E; congruence|done].
Qed.

Lemma cut_last_app c s t : no_byte c t -> cut_last (s +:+ String c t) c = Some (s, t).
Proof.
  intros Ht. induction s as [|a s IH]; simpl.
  - by rewrite cut_last_no_byte, Ascii.eqb_refl.
  - by rewrite IH.
Qed.

(** *** Digits *)

Lemma digit_is_digit n : 0 <= n < 10 -> is_digit (digit n) = true /\ digit_val (digit n) = n.
Proof.
  intros H.
  assert (Hall : forallb (fun k => is_digit (digit k) && (digit_val (digit k) =? k)) (seqZ 0 10) = true)
    by reflexivity.
  rewrite forallb_forall in Hall. specialize (Hall n). rewrite <- list_elem_of_In, elem_of_seqZ in Hall.
  destruct (proj1 (andb_true_iff _ _) (Hall ltac:(lia))) as [Hd Hv%Z.eqb_eq]. done.
Qed.

Lemma is_digit_range a : is_digit a = true -> 0 <= digit_val a <= 9.
Proof.
  unfold is_digit, ascii_between, digit_val. intros H. to_prop.
  apply N.leb_le in H, H0. simpl in H, H0. lia.
Qed.

Lemma itoa_go_digits f n acc :
  0 <= n -> all_digits (itoa_go f n acc) = all_digits acc.
Proof.
  revert n acc. induction f as [|f IH]; intros n acc Hn; simpl;
    destruct (digit_is_digit (n mod 10)) as [Hd _]; try (apply Z.mod_pos_bound; lia).
  - by rewrite Hd.
  - case_match; simpl; [by rewrite Hd|]. rewrite IH by (apply Z.div_pos; lia). simpl. by rewrite Hd.
Qed.

Lemma itoa_go_val f n acc :
  0 <= n < 2 ^ Z.of_nat (S f) -> digits_val 0 (itoa_go f n acc) = digits_val n acc.
Proof.
  revert n acc. induction f as [|f IH]; intros n acc Hn; simpl;
    (destruct (digit_is_digit (n mod 10)) as [_ Hv]; [apply Z.mod_pos_bound; lia|]).
  - simpl in Hn. rewrite Hv. rewrite Z.mod_small by lia. done.
  - case_match eqn:E; to_prop; simpl.
    + rewrite Hv. by rewrite Z.mod_small by lia.
    + rewrite IH.
      * simpl. rewrite Hv. f_equal. pose proof (Z.div_mod n 10). lia.
      * replace (Z.of_nat (S (S f))) with (Z.of_nat (S f) + 1) in Hn by lia.
        rewrite Z.pow_add_r in Hn by lia. split; [apply Z.div_pos; lia|].
        apply Z.div_lt_upper_bound; lia.
Qed.

Lemma itoa_go_nonempty f n acc : itoa_go f n acc <> "".
Proof.
  revert n acc. induction f as [|f IH]; intros n acc; simpl; [done|]. case_match; [done|apply IH].
Qed.

Lemma itoa_nonneg n :
  0 <= n -> all_digits (itoa n) = true /\ digits_val 0 (itoa n) = n /\ itoa n <> "".
Proof.
  intros Hn. unfold itoa. destruct (n <? 0) eqn:E; to_prop; [lia|].
  split_and!; [by rewrite itoa_go_digits| |apply itoa_go_nonempty].
  rewrite itoa_go_val; [done|]. split; [done|].
  rewrite Nat2Z.inj_succ, Z2Nat.id by apply Z.log2_nonneg.
  destruct (Z.eq_dec n 0) as [->|]; [done|]. apply Z.log2_spec. lia.
Qed.

Lemma digits_val_nonneg acc s : 0 <= acc -> all_digits s = true -> 0 <= digits_val acc s.
Proof.
  revert acc. induction s as [|a s IH]; intros acc Ha; simpl; [done|].
  intros H. to_prop. apply IH; [|done]. pose proof (is_digit_range _ H). lia.
Qed.

Lemma all_digits_sign s : all_digits s = true ->
  match s with String "-" _ | String "+" _ => False | _ => True end.
Proof. destruct s as [|a s]; [done|]. by destruct a as [[] [] [] [] [] [] [] []]. Qed.

(** On a string of digits [Atoi] is the number they write, when it fits. *)
Lemma Atoi_digits s :
  s <> "" -> all_digits s = true ->
  Atoi s = if digits_val 0 s <=? maxInt then Some (digits_val 0 s) else None.
Proof.
  intros Hne Hd. unfold Atoi.
  assert (Hs : (match s with
                | String "-" r => (true, r) | String "+" r => (false, r)
                | _ => (false, s) end) = (false, s)).
  { pose proof (all_digits_sign s Hd). destruct s as [|a s]; [done|].
    by destruct a as [[] [] [] [] [] [] [] []]. }
  rewrite Hs. destruct (s =s "") eqn:E; to_prop; [done|]. rewrite Hd. simpl.
  pose proof (digits_val_nonneg 0 s ltac:(lia) Hd).
  destruct (minInt <=? digits_val 0 s) eqn:E2; to_prop; [done|unfold minInt in *; lia].
Qed.

Lemma Atoi_itoa n : 0 <= n <= maxInt -> Atoi (itoa n) = Some n.
Proof.
  intros Hn. destruct (itoa_nonneg n) as (Hd & Hv & Hne); [lia|].
  rewrite Atoi_digits, Hv by done. by destruct (n <=? maxInt) eqn:E; to_prop; [|lia].
Qed.

Lemma all_digits_no_byte c s : is_digit c = false -> all_digits s = true -> no_byte c s.
Proof.
  intros Hc. induction s as [|a s IH]; simpl; intros H; [done|]. to_prop.
  apply no_byte_cons. split; [congruence|auto].
Qed.

Lemma split_at_digits p s t :
  (forall a, is_digit a = true -> p a = false) -> all_digits s = true ->
  split_at p (s +:+ t) = let '(b, r) := split_at p t in (s +:+ b, r).
Proof.
  intros Hp. induction s as [|a s IH]; simpl; intros H; [by destruct (split_at p t)|].
  to_prop. rewrite Hp, IH by done. by destruct (split_at p t).
Qed.
