(* ===== verification/GoTime.v ===== *)
(** * Days and instants

    A [time.Time] is the number of nanoseconds since the Unix epoch, in
    UTC. [ParseDate] is [time.Parse] at the layout ["2006-01-02"], the only
    one the program parses with: four, two and two digits with dashes
    between, month and day in range, midnight UTC. *)

From stdpp Require Import base list strings.
From Stdlib Require Import ZArith Lia Ascii.
From S2P Require Import Prelude GoStr.

Abbreviation Time := Z (only parsing).

Definition second : Z := 1000000000.
Definition day : Z := 86400 * second.

Definition leap (y : Z) : bool :=
  (y mod 4 =? 0) && (negb (y mod 100 =? 0) || (y mod 400 =? 0)).

Definition daysIn (y m : Z) : Z :=
  if m =? 2 then (if leap y then 29 else 28)
  else if (m =? 4) || (m =? 6) || (m =? 9) || (m =? 11) then 30 else 31.

(** Days since 1970-01-01 of a date of the proleptic Gregorian calendar:
    whole years, whole months of the year, days of the month. *)
Definition days_before_year (y : Z) : Z :=
  365 * y + (y + 3) / 4 - (y + 99) / 100 + (y + 399) / 400.

Fixpoint days_before_month (y : Z) (n : nat) : Z :=
  match n with
  | O => 0
  | S n' => days_before_month y n' + daysIn y (Z.of_nat n)
  end.

Definition civil (y m d : Z) : Z :=
  days_before_year y + days_before_month y (Z.to_nat (m - 1)) + (d - 1) - 719528.

Definition ParseDate (s : string) : option Time :=
  match s with
  | String a (String b (String c (String d (String "-" (String e (String f
      (String "-" (String g (String h "")))))))))%string =>
      if forallb is_digit [a; b; c; d; e; f; g; h] then
        let y := digits_val 0 (String a (String b (String c (String d "")))) in
        let m := digits_val 0 (String e (String f "")) in
        let dd := digits_val 0 (String g (String h "")) in
        if (1 <=? m) && (m <=? 12) && (1 <=? dd) && (dd <=? daysIn y m)
        then Some (civil y m dd * day) else None
      else None
  | _ => None
  end.

(** The zero [time.Time], midnight of January 1, year 1, and [IsZero]. *)
Definition zeroTime : Time := - 719162 * day.
Definition IsZero (t : Time) : bool := t =? zeroTime.

(** [time.Duration]s are nanoseconds. *)
Definition minute : Z := 60 * second.
Definition hour : Z := 60 * minute.

(** [t.Truncate(24 * time.Hour)] of a UTC time: the start of its day, since
    the zero time starts one. *)
Definition truncateDay (t : Time) : Time := t - t mod day.

(** [t.Sub(u)]: saturates at the ends of a 64-bit duration. *)
Definition Sub (t u : Time) : Z := Z.max minInt (Z.min maxInt (t - u)).

(** [t.After(u)] and [t.Before(u)]. *)
Definition After (t u : Time) : bool := u <? t.
Definition Before (t u : Time) : bool := t <? u.

Example epoch : ParseDate "1970-01-01" = Some 0.
Proof. reflexivity. Qed.
Example after_leap : ParseDate "2024-03-01" = Some (19783 * day).
Proof. reflexivity. Qed.
Example zero_is_year_one : civil 1 1 1 * day = zeroTime.
Proof. reflexivity. Qed.
Example no_leap : ParseDate "2023-02-29" = None.
Proof. reflexivity. Qed.
