(* ===== verification/Version.v ===== *)
(** * Kubernetes versions: internal/inventory/version.go

    Parsing, printing and ordering of the minor versions every check
    compares, with the error of each refusal. *)

From stdpp Require Import base list strings.
From Stdlib Require Import ZArith Lia Ascii.
From S2P Require Import Prelude GoStr.

Record Version := mkVersion { Major : Z; Minor : Z }.

#[global] Instance Version_eq_dec : EqDecision Version.
Proof. solve_decision. Defined.

#[global] Instance Version_inhabited : Inhabited Version := populate (mkVersion 0 0).

Definition version_eqb (a b : Version) : bool :=
  (Major a =? Major b) && (Minor a =? Minor b).

(** The error text every refusal of a version starts with. *)
Definition invalid (s : string) : string := "invalid kubernetes version " +:+ quote s +:+ ": ".

Definition parseComponent (p : string) : res Z :=
  if p =s "" then Err "empty component"
  else if negb (all_digits p) then Err ("component " +:+ quote p +:+ " is not a non-negative integer")
  else match Atoi p with
       | Some n => Ok n
       | None => Err ("component " +:+ quote p +:+ " out of range")
       end.

Definition is_identifier_byte (a : ascii) : bool :=
  is_digit a || ascii_between "a" "z" a || ascii_between "A" "Z" a || Ascii.eqb a "-".

Fixpoint forall_bytes (p : ascii -> bool) (s : string) : bool :=
  match s with
  | ""%string => true
  | String a s' => p a && forall_bytes p s'
  end.

Definition validIdentifiers (s : string) : bool :=
  negb (s =s "") &&
  forallb (fun id => negb (id =s "") && forall_bytes is_identifier_byte id) (Split s ".").

Definition validSuffix (s : string) : bool :=
  match CutPrefix s "-" with
  | Some rest =>
      let '(pre, build, hasBuild) := Cut rest "+" in
      validIdentifiers pre && (negb hasBuild || validIdentifiers build)
  | None => validIdentifiers (TrimPrefix s "+")
  end.

Definition is_suffix_start (a : ascii) : bool := Ascii.eqb a "-" || Ascii.eqb a "+".

Fixpoint parseComponents (ps : list string) : res (list Z) :=
  match ps with
  | [] => Ok []
  | p :: ps' =>
      let? n := parseComponent p in
      let? ns := parseComponents ps' in
      Ok (n :: ns)
  end.

Definition ParseVersion (s : string) : res Version :=
  let trimmed := TrimPrefix s "v" in
  if trimmed =s "" then Err (invalid s +:+ "empty") else
  let '(core, suffix) := split_at is_suffix_start trimmed in
  let parts := Split core "." in
  if negb (zlen parts =? 2) && negb (zlen parts =? 3)
  then Err (invalid s +:+ "want MAJOR.MINOR or MAJOR.MINOR.PATCH") else
  let? nums := res_wrap (invalid s) (parseComponents parts) in
  if negb (suffix =s "") && negb (zlen parts =? 3)
  then Err (invalid s +:+ "a pre-release or build suffix needs MAJOR.MINOR.PATCH")
  else if negb (suffix =s "") && negb (validSuffix suffix)
  then Err (invalid s +:+ "malformed pre-release or build suffix " +:+ quote suffix)
  else Ok (mkVersion (nth 0 nums 0) (nth 1 nums 0)).

(** [Version.String]. *)
Definition VString (v : Version) : string := itoa (Major v) +:+ "." +:+ itoa (Minor v).

(** [Version.Compare]. *)
Definition Compare (v o : Version) : Z :=
  let c := cmpZ (Major v) (Major o) in
  if negb (c =? 0) then c else cmpZ (Minor v) (Minor o).

(** [Version.Next]. *)
Definition Next (v : Version) : Version := mkVersion (Major v) (wrap64 (Minor v + 1)).

Definition oldestCoveredMinor : Z := 16.

Definition OldestCovered : Version := mkVersion 1 oldestCoveredMinor.

Definition parseMajorOne (s : string) : res Version :=
  let? v := ParseVersion s in
  if negb (Major v =? 1) then Err (invalid s +:+ "major version must be 1") else Ok v.

Definition ParseTarget (s : string) : res Version :=
  let? v := parseMajorOne s in
  let floor := OldestCovered in
  if Compare v floor <? 0 then
    let hint :=
      if (1 <=? Minor v) && (Minor v <? 10) then
        let n := itoa (Major v) +:+ "." +:+ itoa (Minor v) +:+ "0" in
        "is this " +:+ n +:+ " written as a YAML number? quote it (" +:+
        String dquote n +:+ String dquote "); "
      else "" in
    Err (invalid s +:+ hint +:+ "the oldest minor the knowledge base covers is " +:+
         VString floor +:+ ", and a target below it would judge nothing")
  else Ok v.

Definition ParseClusterVersion (s : string) : res Version := parseMajorOne s.

Example parse_eks : ParseVersion "v1.30.2-eks-1234abc" = Ok (mkVersion 1 30).
Proof. reflexivity. Qed.
Example parse_k3s : ParseVersion "v1.28.5+k3s1" = Ok (mkVersion 1 28).
Proof. reflexivity. Qed.
Example parse_short_suffix : to_option (ParseVersion "1.30-rc") = None.
Proof. reflexivity. Qed.

(** ** Order *)

(** The order of releases: by major, then by minor. *)
Definition vlt (v o : Version) : Prop :=
  Major v < Major o \/ (Major v = Major o /\ Minor v < Minor o).
Definition vle (v o : Version) : Prop := vlt v o \/ v = o.

Ltac vcmp :=
  unfold Compare, cmpZ in *; repeat case_match; to_prop; simpl in *; try lia.

Lemma Compare_lt v o : Compare v o < 0 <-> vlt v o.
Proof. unfold vlt. vcmp. Qed.
Lemma Compare_gt v o : Compare v o > 0 <-> vlt o v.
Proof. unfold vlt. vcmp. Qed.
Lemma Compare_eq v o : Compare v o = 0 <-> v = o.
Proof.
  destruct v as [a b], o as [c d]. unfold Compare, cmpZ. simpl.
  split; [|intros [= -> ->]; by rewrite !Z.ltb_irrefl].
  repeat case_match; to_prop; try lia; intros; f_equal; lia.
Qed.
Lemma Compare_le v o : Compare v o <= 0 <-> vle v o.
Proof. unfold vle. rewrite <- Compare_lt, <- Compare_eq. lia. Qed.

#[global] Instance vlt_strict : StrictOrder vlt.
Proof.
  split; [intros v [|[]]; lia|]. unfold vlt. intros a b c; lia.
Qed.
#[global] Instance vle_po : PartialOrder vle.
Proof.
  split; [split; [by right|]|].
  - intros a b c [H1| ->] [H2| ->]; [left; by etrans|by left|by left|by right].
  - intros a b [H1|] [H2|]; try done. by destruct (irreflexivity vlt a); etrans.
Qed.
Lemma vle_total a b : vle a b \/ vlt b a.
Proof. rewrite <- Compare_le, <- Compare_gt. lia. Qed.

Lemma vlt_not_vle a b : vlt a b -> ~ vle b a.
Proof.
  intros H1 [H2| ->]; [|by apply (irreflexivity vlt a)].
  apply (irreflexivity vlt a). by etrans.
Qed.

Lemma vlt_le_trans a b c : vlt a b -> vle b c -> vlt a c.
Proof. intros H [H2| <-]; [by etrans|done]. Qed.

(** A version the parser can give, or the knowledge base holds. *)
Definition version_ok (v : Version) : Prop := 0 <= Major v <= maxInt /\ 0 <= Minor v <= maxInt.

(** The next minor is the least version above one of its major line. *)
Lemma Next_lt v o :
  version_ok v -> Minor v < maxInt -> Major v = Major o -> (vlt v o <-> vle (Next v) o).
Proof.
  intros [HM Hm] Hlt He. unfold Next, vle, vlt. simpl.
  rewrite wrap64_id by (unfold in_int64, minInt, maxInt in *; lia).
  destruct v as [a b], o as [c d]; simpl in *. subst.
  split; [intros; destruct (Z.eq_dec (b + 1) d); subst; [by right|left; lia]|].
  intros [|[= <-]]; lia.
Qed.

(** ** Parsing and printing *)

Lemma parseComponent_itoa n : 0 <= n <= maxInt -> parseComponent (itoa n) = Ok n.
Proof.
  intros Hn. destruct (itoa_nonneg n) as (Hd & Hv & Hne); [lia|].
  unfold parseComponent. destruct (itoa n =s "") eqn:E; to_prop; [done|].
  rewrite Hd. simpl. by rewrite Atoi_itoa.
Qed.

Lemma is_suffix_start_digit a : is_digit a = true -> is_suffix_start a = false.
Proof. by destruct a as [[] [] [] [] [] [] [] []]. Qed.

(** What may follow MAJOR.MINOR.PATCH: nothing, or a valid suffix. *)
Definition suffix_ok (s : string) : Prop :=
  s = ""%string \/ (validSuffix s = true /\ exists a r, s = String a r /\ is_suffix_start a = true).

Lemma split_suffix core s :
  all_digits core = true -> suffix_ok s ->
  split_at is_suffix_start (core +:+ s) = (core, s).
Proof.
  intros Hc Hs. rewrite split_at_digits by (done || apply is_suffix_start_digit).
  destruct Hs as [->|(_ & a & r & -> & Ha)]; simpl; [|rewrite Ha]; by rewrite app_nil_r_s.
Qed.

Lemma split_at_cons p a s :
  p a = false -> split_at p (String a s) = let '(b, r) := split_at p s in (String a b, r).
Proof. intros H. simpl. by rewrite H. Qed.

Lemma TrimPrefix_digits s t : s <> "" -> all_digits s = true -> TrimPrefix (s +:+ t) "v" = s +:+ t.
Proof.
  destruct s as [|a s]; [done|]. intros _. simpl. unfold TrimPrefix.
  intros H. to_prop. change (String a s +:+ t) with (String a (s +:+ t)). cbn [HasPrefix].
  destruct (Ascii.eqb "v" a) eqn:E; [|done]. apply Ascii.eqb_eq in E. by subst.
Qed.

Lemma no_dot_itoa n : 0 <= n -> no_byte "." (itoa n).
Proof. intros. apply all_digits_no_byte; [done|]. by apply itoa_nonneg. Qed.
#[local] Hint Resolve no_dot_itoa : core.

Lemma Split_dot s t : no_byte "." s -> Split (s +:+ "." +:+ t) "." = s :: Split t ".".
Proof. apply (Split_app "."). Qed.

Lemma ParseVersion_digits (s M : string) (parts : list string) (core suf : string) nums v :
  TrimPrefix s "v" = M -> M <> "" -> split_at is_suffix_start M = (core, suf) ->
  Split core "." = parts -> (zlen parts =? 2) || (zlen parts =? 3) = true ->
  parseComponents parts = Ok nums ->
  (suf = "" \/ zlen parts = 3 /\ validSuffix suf = true) ->
  v = mkVersion (nth 0 nums 0) (nth 1 nums 0) -> ParseVersion s = Ok v.
Proof.
  intros HM Hne Hs Hp Hl Hc Hsuf ->. unfold ParseVersion. rewrite HM.
  destruct (M =s "") eqn:E; to_prop; [done|]. rewrite Hs, Hp, Hc. simpl.
  destruct Hsuf as [->|[H3 ->]]; simpl; destruct (zlen parts =? 2) eqn:E2, (zlen parts =? 3) eqn:E3;
    to_prop; simpl in *; try done; try congruence; rewrite ?andb_false_r; done.
Qed.

(** C40 A version survives printing and parsing: [ParseVersion] reads back
    what [Version.String] prints, and reads the same minor from the form a
    cluster reports it in, ["v" MAJOR.MINOR.PATCH] with any vendor suffix
    ("-eks-1234abc", "+k3s1"). *)
Theorem ParseVersion_roundtrip (v : Version) (patch : Z) (suffix : string) :
  version_ok v -> 0 <= patch <= maxInt -> suffix_ok suffix ->
  ParseVersion (VString v) = Ok v /\
  ParseVersion ("v" +:+ VString v +:+ "." +:+ itoa patch +:+ suffix) = Ok v.
Proof.
  intros [HM Hm] Hp Hs. destruct v as [a b]; simpl in *.
  destruct (itoa_nonneg a) as (Ha & _ & Hna), (itoa_nonneg b) as (Hb & _ & _),
    (itoa_nonneg patch) as (Hpd & _ & _); try lia.
  assert (Hdot : forall s t b r, all_digits s = true -> split_at is_suffix_start t = (b, r) ->
    split_at is_suffix_start (s +:+ "." +:+ t) = (s +:+ "." +:+ b, r)).
  { intros s t b' r Hsd Ht. rewrite split_at_digits by (done || apply is_suffix_start_digit).
    change ("." +:+ t) with (String "." t). rewrite split_at_cons, Ht by done. done. }
  split.
  - eapply (ParseVersion_digits _ (VString (mkVersion a b)) [itoa a; itoa b] _ ""); unfold VString; simpl.
    + by apply TrimPrefix_digits.
    + by destruct (itoa a).
    + apply Hdot; [done|]. rewrite <- (app_nil_r_s (itoa b)) at 1.
      apply split_suffix; [done|by left].
    + by rewrite Split_dot, Split_no_byte by (apply no_dot_itoa; lia).
    + done.
    + by rewrite !parseComponent_itoa by lia.
    + by left.
    + done.
  - eapply (ParseVersion_digits _ (VString (mkVersion a b) +:+ "." +:+ itoa patch +:+ suffix)
             [itoa a; itoa b; itoa patch] _ suffix); unfold VString; simpl.
    + done.
    + by destruct (itoa a).
    + rewrite app_assoc_s. apply Hdot; [done|]. rewrite ?app_assoc_s. apply Hdot; [done|].
      by apply split_suffix.
    + by rewrite !Split_dot, Split_no_byte by (apply no_dot_itoa; lia).
    + done.
    + by rewrite !parseComponent_itoa by lia.
    + destruct Hs as [->|[? _]]; [by left|by right].
    + done.
Qed.

Lemma ParseVersion_roundtrip_witness :
  ParseVersion (VString (mkVersion 1 34)) = Ok (mkVersion 1 34) /\
  ParseVersion "v1.34.2-gke.100" = Ok (mkVersion 1 34).
Proof.
  apply (ParseVersion_roundtrip (mkVersion 1 34) 2 "-gke.100");
    [unfold version_ok, maxInt; simpl; lia|unfold maxInt; lia|].
  right. split; [reflexivity|]. exists "-"%char, "gke.100"%string. split; reflexivity.
Defined.

Lemma parseComponents_ok ps ns :
  parseComponents ps = Ok ns -> length ns = length ps /\ Forall (fun n => 0 <= n <= maxInt) ns.
Proof.
  revert ns. induction ps as [|p ps IH]; intros ns; simpl; [intros; simplify_eq; by split|].
  destruct (parseComponent p) as [n|] eqn:E; simpl; [|done].
  destruct (parseComponents ps) as [ns'|]; simpl; [|done]. intros; simplify_eq.
  destruct (IH ns') as [Hl Hf]; [done|]. split; [simpl; lia|]. constructor; [|done].
  unfold parseComponent in E. repeat case_match; simplify_eq; to_prop.
  rewrite Atoi_digits in * by done. case_match; simplify_eq; to_prop.
  split; [by apply digits_val_nonneg; [lia|]|done].
Qed.

Lemma ParseVersion_ok s v : ParseVersion s = Ok v -> version_ok v.
Proof.
  unfold ParseVersion. case_match; [done|]. destruct (split_at _ _) as [core suf].
  case_match eqn:Hl; [done|]. destruct (parseComponents _) as [ns|] eqn:E; simpl; [|done].
  repeat case_match; intros; simplify_eq. apply parseComponents_ok in E as [Hn Hf].
  unfold zlen in Hl. rewrite <- Hn in Hl.
  destruct ns as [|a [|b ns]]; simpl in *; try done.
  apply Forall_cons in Hf as [? Hf]. apply Forall_cons in Hf as [? _]. done.
Qed.
#[export] Hint Resolve ParseVersion_ok : go.

(** Targets are exactly the versions of major 1 from the oldest minor
    the knowledge base covers: [ParseTarget] accepts a string iff
    [ParseVersion] does and its minor is at least 1.16, and an accepted
    target fits the machine integers. *)
Lemma ParseTarget_spec (s : string) (v : Version) :
  ParseTarget s = Ok v <->
  ParseVersion s = Ok v /\ version_ok v /\ Major v = 1 /\ 16 <= Minor v.
Proof.
  unfold ParseTarget, parseMajorOne. split.
  - destruct (ParseVersion s) as [w|] eqn:E; simpl; [|done].
    destruct (negb (Major w =? 1)) eqn:E1; simpl; [done|].
    destruct (Compare w OldestCovered <? 0) eqn:E2; [done|]. intros; simplify_eq; to_prop.
    split_and!; [done|by eapply ParseVersion_ok|done|].
    unfold Compare, OldestCovered, cmpZ, oldestCoveredMinor in *. simpl in *.
    rewrite E1 in E2. simpl in E2. repeat case_match; to_prop; lia.
  - intros (E & _ & H1 & H16). rewrite E. simpl. rewrite H1. simpl.
    unfold Compare, OldestCovered, cmpZ, oldestCoveredMinor. rewrite H1. simpl.
    repeat case_match; to_prop; try done; lia.
Qed.
