(* ===== verification/Inventory.v ===== *)
(** * The inventory: internal/inventory/types.go

    What a collector read from a cluster or from manifests. Maps keyed by
    strings are [gmap]s; an absent optional field is the Go zero value, as
    the JSON decoder leaves it. *)

From stdpp Require Import base list strings gmap.
From Stdlib Require Import ZArith Lia.
From S2P Require Import Prelude GoStr GoTime Version.

(** ** Capabilities *)

Definition CapAPIUsage : string := "api-usage".
Definition CapDeprecatedCalls : string := "deprecated-calls".
Definition CapHelm : string := "helm".
Definition CapAddOns : string := "addons".
Definition CapVersions : string := "versions".
Definition CapCRDs : string := "crds".
Definition CapVolumes : string := "volumes".

Definition SkippedNewerKB : string := "knowledge base differs from the agent's".
Definition SkippedPods : string := "v1 pods".
Definition SkippedPersistentVolumes : string := "v1 persistentvolumes".
Definition SkippedStorageClasses : string := "storage.k8s.io/v1 storageclasses".

Record CapabilityStatus := mkCapabilityStatus {
  cs_Available : bool;
  cs_Reason : string;
  cs_Partial : bool;
  cs_Skipped : list string;
}.

(** The zero value a missing key of the capabilities map reads as. *)
Definition noStatus : CapabilityStatus := mkCapabilityStatus false "" false [].

Definition SourceCluster : string := "cluster".
Definition SourceFiles : string := "files".

Definition LabelVersionCollectorSchema : Z := 1.
Definition MaxUnrecognizedImages : Z := 200.
Definition MaxObjectRefs : Z := 100.

(** ** Objects and API usage *)

Record ObjectRef := mkObjectRef {
  o_Namespace : string;
  o_Name : string;
  o_File : string;
  o_Line : Z;
  o_RenderedFrom : string;
  o_Manager : string;
  o_Ignore : string;
  o_IgnoreReason : string;
  o_IgnoreLegacyKey : bool;
  o_IgnoreReasonLegacyKey : bool;
}.

#[global] Instance ObjectRef_eq_dec : EqDecision ObjectRef.
Proof. solve_decision. Defined.

Definition LegacyIgnore (r : ObjectRef) : bool := o_IgnoreLegacyKey r || o_IgnoreReasonLegacyKey r.

Record APIUsage := mkAPIUsage {
  u_Group : string;
  u_Version : string;
  u_Kind : string;
  u_Count : Z;
  u_Namespaces : gmap string Z;
  u_Objects : list ObjectRef;
  u_ObjectsOmitted : Z;
}.

Record DeprecatedCall := mkDeprecatedCall {
  d_Group : string;
  d_Version : string;
  d_Resource : string;
  d_Subresource : string;
  d_RemovedRelease : string;
}.

Record HelmRelease := mkHelmRelease {
  h_Name : string;
  h_Namespace : string;
  h_ChartName : string;
  h_ChartVersion : string;
  h_AppVersion : string;
  h_KubeVersion : string;
  h_Status : string;
  h_Revision : Z;
  h_ManifestAPIs : list APIUsage;
}.

Record GitOpsChart := mkGitOpsChart {
  g_Tool : string;
  g_Name : string;
  g_Namespace : string;
  g_Target : string;
  g_Chart : string;
  g_Version : string;
  g_Repo : string;
}.

Record AddOnInstance := mkAddOnInstance {
  ai_ID : string;
  ai_Version : string;
  ai_ChartVersion : string;
  ai_Namespaces : list string;
  ai_Source : string;
}.

Record ComponentVersion := mkComponentVersion {
  cv_Component : string;
  cv_Version : string;
  cv_Node : string;
}.

Record NodeInfo := mkNodeInfo {
  n_Name : string;
  n_KubeletVersion : string;
  n_ContainerRuntime : string;
}.

Record NamespaceInfo := mkNamespaceInfo { ns_Name : string; ns_Team : string }.

(** ** CustomResourceDefinitions *)

Record CRDVersion := mkCRDVersion {
  c_Name : string;
  c_Served : bool;
  c_Storage : bool;
  c_Deprecated : bool;
  c_DeprecationWarning : string;
}.

Record CRD := mkCRD {
  crd_Group : string;
  crd_Kind : string;
  crd_Plural : string;
  crd_Versions : list CRDVersion;
  crd_StoredVersions : list string;
  crd_Usage : list APIUsage;
}.

Record VolumePluginUse := mkVolumePluginUse {
  vu_Plugin : string;
  vu_Count : Z;
  vu_Namespaces : gmap string Z;
  vu_Objects : list ObjectRef;
  vu_ObjectsOmitted : Z;
}.

(** ** The inventory *)

Record Inventory := mkInventory {
  SchemaVersion : Z;
  ClusterID : string;
  CollectorSchema : Z;
  Source : string;
  CollectedAt : Time;
  ServerVersion : string;
  Provider : string;
  Capabilities : gmap string CapabilityStatus;
  APIUsages : list APIUsage;
  DeprecatedCalls : list DeprecatedCall;
  HelmReleases : list HelmRelease;
  GitOpsCharts : list GitOpsChart;
  AddOns : list AddOnInstance;
  Nodes : list NodeInfo;
  ControlPlane : list ComponentVersion;
  Namespaces : list NamespaceInfo;
  UnrecognizedImages : list string;
  UnrecognizedImagesOmitted : Z;
  CRDs : list CRD;
  APIAuthorshipUnknown : list APIUsage;
  APIServerStartTime : Time;
  AddOnEvidenceAgeSeconds : Z;
  VolumePlugins : list VolumePluginUse;
}.

(** [inv.Capabilities[c]]: the zero status for an absent key. *)
Definition capability (inv : Inventory) (c : string) : CapabilityStatus :=
  default noStatus (Capabilities inv !! c).

(** The inventory [Evaluate] judges after it replaced the caller rows. *)
Definition with_DeprecatedCalls (inv : Inventory) (cs : list DeprecatedCall) : Inventory :=
  mkInventory (SchemaVersion inv) (ClusterID inv) (CollectorSchema inv) (Source inv)
    (CollectedAt inv) (ServerVersion inv) (Provider inv) (Capabilities inv) (APIUsages inv)
    cs (HelmReleases inv) (GitOpsCharts inv) (AddOns inv) (Nodes inv) (ControlPlane inv) (Namespaces inv)
    (UnrecognizedImages inv) (UnrecognizedImagesOmitted inv) (CRDs inv)
    (APIAuthorshipUnknown inv) (APIServerStartTime inv) (AddOnEvidenceAgeSeconds inv)
    (VolumePlugins inv).

(** Assignments to one field of an inventory. *)

Definition with_Provider (x : string) (inv : Inventory) : Inventory :=
  mkInventory (SchemaVersion inv) (ClusterID inv) (CollectorSchema inv) (Source inv) (CollectedAt inv) (ServerVersion inv) x
    (Capabilities inv) (APIUsages inv) (DeprecatedCalls inv) (HelmReleases inv) (GitOpsCharts inv) (AddOns inv)
    (Nodes inv) (ControlPlane inv) (Namespaces inv) (UnrecognizedImages inv) (UnrecognizedImagesOmitted inv)
    (CRDs inv) (APIAuthorshipUnknown inv) (APIServerStartTime inv) (AddOnEvidenceAgeSeconds inv) (VolumePlugins inv).

Definition with_Capabilities (x : gmap string CapabilityStatus) (inv : Inventory) : Inventory :=
  mkInventory (SchemaVersion inv) (ClusterID inv) (CollectorSchema inv) (Source inv) (CollectedAt inv) (ServerVersion inv)
    (Provider inv) x (APIUsages inv) (DeprecatedCalls inv) (HelmReleases inv) (GitOpsCharts inv) (AddOns inv)
    (Nodes inv) (ControlPlane inv) (Namespaces inv) (UnrecognizedImages inv) (UnrecognizedImagesOmitted inv)
    (CRDs inv) (APIAuthorshipUnknown inv) (APIServerStartTime inv) (AddOnEvidenceAgeSeconds inv) (VolumePlugins inv).

Definition with_APIUsages (x : list APIUsage) (inv : Inventory) : Inventory :=
  mkInventory (SchemaVersion inv) (ClusterID inv) (CollectorSchema inv) (Source inv) (CollectedAt inv) (ServerVersion inv)
    (Provider inv) (Capabilities inv) x (DeprecatedCalls inv) (HelmReleases inv) (GitOpsCharts inv) (AddOns inv)
    (Nodes inv) (ControlPlane inv) (Namespaces inv) (UnrecognizedImages inv) (UnrecognizedImagesOmitted inv)
    (CRDs inv) (APIAuthorshipUnknown inv) (APIServerStartTime inv) (AddOnEvidenceAgeSeconds inv) (VolumePlugins inv).

Definition with_HelmReleases (x : list HelmRelease) (inv : Inventory) : Inventory :=
  mkInventory (SchemaVersion inv) (ClusterID inv) (CollectorSchema inv) (Source inv) (CollectedAt inv) (ServerVersion inv)
    (Provider inv) (Capabilities inv) (APIUsages inv) (DeprecatedCalls inv) x (GitOpsCharts inv) (AddOns inv)
    (Nodes inv) (ControlPlane inv) (Namespaces inv) (UnrecognizedImages inv) (UnrecognizedImagesOmitted inv)
    (CRDs inv) (APIAuthorshipUnknown inv) (APIServerStartTime inv) (AddOnEvidenceAgeSeconds inv) (VolumePlugins inv).

Definition with_GitOpsCharts (x : list GitOpsChart) (inv : Inventory) : Inventory :=
  mkInventory (SchemaVersion inv) (ClusterID inv) (CollectorSchema inv) (Source inv) (CollectedAt inv) (ServerVersion inv)
    (Provider inv) (Capabilities inv) (APIUsages inv) (DeprecatedCalls inv) (HelmReleases inv) x (AddOns inv)
    (Nodes inv) (ControlPlane inv) (Namespaces inv) (UnrecognizedImages inv) (UnrecognizedImagesOmitted inv)
    (CRDs inv) (APIAuthorshipUnknown inv) (APIServerStartTime inv) (AddOnEvidenceAgeSeconds inv) (VolumePlugins inv).

Definition with_AddOns (x : list AddOnInstance) (inv : Inventory) : Inventory :=
  mkInventory (SchemaVersion inv) (ClusterID inv) (CollectorSchema inv) (Source inv) (CollectedAt inv) (ServerVersion inv)
    (Provider inv) (Capabilities inv) (APIUsages inv) (DeprecatedCalls inv) (HelmReleases inv) (GitOpsCharts inv) x
    (Nodes inv) (ControlPlane inv) (Namespaces inv) (UnrecognizedImages inv) (UnrecognizedImagesOmitted inv)
    (CRDs inv) (APIAuthorshipUnknown inv) (APIServerStartTime inv) (AddOnEvidenceAgeSeconds inv) (VolumePlugins inv).

Definition with_Nodes (x : list NodeInfo) (inv : Inventory) : Inventory :=
  mkInventory (SchemaVersion inv) (ClusterID inv) (CollectorSchema inv) (Source inv) (CollectedAt inv) (ServerVersion inv)
    (Provider inv) (Capabilities inv) (APIUsages inv) (DeprecatedCalls inv) (HelmReleases inv) (GitOpsCharts inv)
    (AddOns inv) x (ControlPlane inv) (Namespaces inv) (UnrecognizedImages inv) (UnrecognizedImagesOmitted inv)
    (CRDs inv) (APIAuthorshipUnknown inv) (APIServerStartTime inv) (AddOnEvidenceAgeSeconds inv) (VolumePlugins inv).

Definition with_ControlPlane (x : list ComponentVersion) (inv : Inventory) : Inventory :=
  mkInventory (SchemaVersion inv) (ClusterID inv) (CollectorSchema inv) (Source inv) (CollectedAt inv) (ServerVersion inv)
    (Provider inv) (Capabilities inv) (APIUsages inv) (DeprecatedCalls inv) (HelmReleases inv) (GitOpsCharts inv)
    (AddOns inv) (Nodes inv) x (Namespaces inv) (UnrecognizedImages inv) (UnrecognizedImagesOmitted inv) (CRDs inv)
    (APIAuthorshipUnknown inv) (APIServerStartTime inv) (AddOnEvidenceAgeSeconds inv) (VolumePlugins inv).

Definition with_Namespaces (x : list NamespaceInfo) (inv : Inventory) : Inventory :=
  mkInventory (SchemaVersion inv) (ClusterID inv) (CollectorSchema inv) (Source inv) (CollectedAt inv) (ServerVersion inv)
    (Provider inv) (Capabilities inv) (APIUsages inv) (DeprecatedCalls inv) (HelmReleases inv) (GitOpsCharts inv)
    (AddOns inv) (Nodes inv) (ControlPlane inv) x (UnrecognizedImages inv) (UnrecognizedImagesOmitted inv)
    (CRDs inv) (APIAuthorshipUnknown inv) (APIServerStartTime inv) (AddOnEvidenceAgeSeconds inv) (VolumePlugins inv).

Definition with_CRDs (x : list CRD) (inv : Inventory) : Inventory :=
  mkInventory (SchemaVersion inv) (ClusterID inv) (CollectorSchema inv) (Source inv) (CollectedAt inv) (ServerVersion inv)
    (Provider inv) (Capabilities inv) (APIUsages inv) (DeprecatedCalls inv) (HelmReleases inv) (GitOpsCharts inv)
    (AddOns inv) (Nodes inv) (ControlPlane inv) (Namespaces inv) (UnrecognizedImages inv)
    (UnrecognizedImagesOmitted inv) x (APIAuthorshipUnknown inv) (APIServerStartTime inv)
    (AddOnEvidenceAgeSeconds inv) (VolumePlugins inv).

Definition with_APIAuthorshipUnknown (x : list APIUsage) (inv : Inventory) : Inventory :=
  mkInventory (SchemaVersion inv) (ClusterID inv) (CollectorSchema inv) (Source inv) (CollectedAt inv) (ServerVersion inv)
    (Provider inv) (Capabilities inv) (APIUsages inv) (DeprecatedCalls inv) (HelmReleases inv) (GitOpsCharts inv)
    (AddOns inv) (Nodes inv) (ControlPlane inv) (Namespaces inv) (UnrecognizedImages inv)
    (UnrecognizedImagesOmitted inv) (CRDs inv) x (APIServerStartTime inv) (AddOnEvidenceAgeSeconds inv)
    (VolumePlugins inv).

Definition with_VolumePlugins (x : list VolumePluginUse) (inv : Inventory) : Inventory :=
  mkInventory (SchemaVersion inv) (ClusterID inv) (CollectorSchema inv) (Source inv) (CollectedAt inv) (ServerVersion inv)
    (Provider inv) (Capabilities inv) (APIUsages inv) (DeprecatedCalls inv) (HelmReleases inv) (GitOpsCharts inv)
    (AddOns inv) (Nodes inv) (ControlPlane inv) (Namespaces inv) (UnrecognizedImages inv)
    (UnrecognizedImagesOmitted inv) (CRDs inv) (APIAuthorshipUnknown inv) (APIServerStartTime inv)
    (AddOnEvidenceAgeSeconds inv) x.

Definition with_UnrecognizedImages (x : list string) (omitted : Z) (inv : Inventory) : Inventory :=
  mkInventory (SchemaVersion inv) (ClusterID inv) (CollectorSchema inv) (Source inv) (CollectedAt inv) (ServerVersion inv)
    (Provider inv) (Capabilities inv) (APIUsages inv) (DeprecatedCalls inv) (HelmReleases inv) (GitOpsCharts inv)
    (AddOns inv) (Nodes inv) (ControlPlane inv) (Namespaces inv) x omitted (CRDs inv) (APIAuthorshipUnknown inv)
    (APIServerStartTime inv) (AddOnEvidenceAgeSeconds inv) (VolumePlugins inv).

(** ** Third-party code

    The constraint checks of Masterminds' semver and the version order of
    k8s.io/apimachinery are not part of the repository: the model takes
    them as parameters. *)

Class Semver := {
  Constraint : Type;
  SemVersion : Type;
  NewConstraint : string -> option Constraint;
  NewVersion : string -> option SemVersion;
  Prerelease : SemVersion -> string;
  Metadata : SemVersion -> string;
  SetPrerelease : SemVersion -> string -> option SemVersion;
  SetMetadata : SemVersion -> string -> option SemVersion;
  (** [semver.New(major, minor, 0, "", "")] *)
  NewMinor : Z -> Z -> SemVersion;
  Check : Constraint -> SemVersion -> bool;
}.

Class KubeAware := { CompareKubeAwareVersionStrings : string -> string -> Z }.

(** [CRD.PreferredVersion]: the loop returns at the first served, not
    deprecated storage version, and otherwise keeps the highest-priority
    served one. *)
Fixpoint preferredFrom `{KubeAware} (best : string) (vs : list CRDVersion) : string :=
  match vs with
  | [] => best
  | v :: vs' =>
      if negb (c_Served v) || c_Deprecated v then preferredFrom best vs'
      else if c_Storage v then c_Name v
      else if (best =s "") || (0 <? CompareKubeAwareVersionStrings (c_Name v) best)
           then preferredFrom (c_Name v) vs' else preferredFrom best vs'
  end.

Definition PreferredVersion `{KubeAware} (c : CRD) : string := preferredFrom "" (crd_Versions c).
