(* ===== verification/KB.v ===== *)
(** * The knowledge base: internal/kb, registry

    The lifecycle entries and their index (apilifecycle.go), the skew
    policy (skew.go), the volume plugins (volumeplugins.go) and the types of
    the add-on registry and the provider calendars (registry/types.go,
    registry/support.go), with the replacement search every remediation
    rests on. *)

From stdpp Require Import base list strings gmap.
From Stdlib Require Import ZArith Lia Floats.SpecFloat.
From S2P Require Import Prelude GoStr GoTime Version Inventory.

(** ** Registry types *)

Record ComponentLine := mkComponentLine { l_Component : string; l_Product : string }.

Record ComponentImage := mkComponentImage {
  ci_Image : string;
  ci_Lines : list ComponentLine;
  ci_Citations : list string;
}.

Record Matchers := mkMatchers {
  m_Images : list string;
  m_Charts : list string;
  m_Runtimes : list string;
  m_Components : list ComponentImage;
}.

(** [ComponentImage.ProductLine]. *)
Definition ProductLine (c : ComponentImage) (version : string) : string :=
  let '(major, rest, ok) := Cut version "." in
  if negb ok || (major =s "") then "" else
  let '(minor, _, _) := Cut rest "." in
  let '(minor, _, _) := Cut minor "-" in
  match find (fun l => l_Component l =s (major +:+ "." +:+ minor)) (ci_Lines c) with
  | Some l => l_Product l
  | None => ""
  end.

Record Support := mkSupport {
  s_Status : string;
  s_EOLDate : string;
  s_ExtendedEOLDate : string;
  s_ExtendedSupportCondition : string;
  s_Citations : list string;
}.

Record CycleEOL := mkCycleEOL { eol_Date : string; eol_Ended : bool }.

Record Cycle := mkCycle {
  cy_Cycle : string;
  cy_EOL : option CycleEOL;
  cy_K8sMin : string;
  cy_K8sMax : string;
  cy_Citations : list string;
}.

Record Compat := mkCompat {
  co_Range : string;
  co_K8sMin : string;
  co_K8sMax : string;
  co_Citations : list string;
}.

Record AddOn := mkAddOn {
  a_SchemaVersion : Z;
  a_ID : string;
  a_DisplayName : string;
  a_Matchers : Matchers;
  a_Support : Support;
  a_Cycles : list Cycle;
  a_Compat : list Compat;
  a_Recommendation : string;
  a_EndoflifeProduct : string;
}.

(** A [float64]: the IEEE 754 binary64 numbers of [SpecFloat]. *)
Abbreviation float64 := spec_float (only parsing).

Record Pricing := mkPricing {
  pr_Currency : string;
  pr_StandardPerClusterHour : float64;
  pr_ExtendedPerClusterHour : float64;
  pr_AsOf : string;
  pr_Note : string;
  pr_Citations : list string;
}.

Record SupportWindow := mkSupportWindow {
  w_Minor : string;
  w_StandardEnd : string;
  w_ExtendedEnd : string;
}.

Record ProviderSupport := mkProviderSupport {
  p_SchemaVersion : Z;
  p_ID : string;
  p_DisplayName : string;
  p_EndoflifeProduct : string;
  p_ExtendedSupportNote : string;
  p_ExtendedSupportCondition : string;
  p_Citations : list string;
  p_Versions : list SupportWindow;
  p_Pricing : option Pricing;
}.

(** ** Lifecycle entries *)

Record GVK := mkGVK { gvk_Group : string; gvk_Version : string; gvk_Kind : string }.

#[global] Instance GVK_eq_dec : EqDecision GVK.
Proof. solve_decision. Defined.
#[global] Instance GVK_countable : Countable GVK.
Proof.
  apply (inj_countable' (fun g => (gvk_Group g, gvk_Version g, gvk_Kind g))
           (fun '(g, v, k) => mkGVK g v k)).
  by intros [].
Defined.

Record Migration := mkMigration { mg_Note : string; mg_Citations : list string }.

Record APILifecycleEntry := mkEntry {
  e_Group : string;
  e_Version : string;
  e_Kind : string;
  e_Introduced : Version;
  e_Deprecated : option Version;
  e_Removed : option Version;
  e_Replacement : option GVK;
  e_RemovedInferred : bool;
  e_ReplacementDefaulted : bool;
  e_Migration : option Migration;
}.

(** The zero entry a failed lookup yields. *)
Definition noEntry : APILifecycleEntry :=
  mkEntry "" "" "" (mkVersion 0 0) None None None false false None.

Record BuiltinGroup := mkBuiltinGroup { bg_Group : string; bg_Versions : list string }.

Record SkewPolicy := mkSkewPolicy {
  KubeletMaxBehind : Z;
  KubectlMaxSkew : Z;
  APIServerHASpread : Z;
  KubeProxyMaxBehind : Z;
  CtrlMgrMaxBehind : Z;
}.

Definition DefaultSkewPolicy : SkewPolicy := mkSkewPolicy 3 1 1 3 1.

Definition VolumeRemoved : string := "removed".
Definition VolumeCSIMigration : string := "csi-migration".
Definition VolumeDeprecated : string := "deprecated".

Record VolumePlugin := mkVolumePlugin {
  vp_Plugin : string;
  vp_Classification : string;
  vp_Deprecated : option Version;
  vp_Removed : option Version;
  vp_CSIDriver : string;
  vp_Provisioner : string;
  vp_ProvisionerCitation : string;
  vp_Note : string;
  vp_Replacement : string;
  vp_Citations : list string;
}.

Record UpgradeStep := mkUpgradeStep { us_From : Version; us_To : Version; us_Citation : string }.

Record KB := mkKB {
  k_Version : string;
  k_APILifecycle : list APILifecycleEntry;
  k_BuiltinGroups : list BuiltinGroup;
  k_AddOns : list AddOn;
  k_Providers : list ProviderSupport;
  k_Skew : SkewPolicy;
  k_MaxKnownK8s : Version;
  k_UpgradeSteps : list UpgradeStep;
  k_VolumePlugins : list VolumePlugin;
}.

(** [KB.Provider]. *)
Fixpoint findProvider (ps : list ProviderSupport) (id : string) : option ProviderSupport :=
  match ps with
  | [] => None
  | p :: ps' => if p_ID p =s id then Some p else findProvider ps' id
  end.

Definition KBProvider (k : KB) (id : string) : option ProviderSupport := findProvider (k_Providers k) id.

(** ** The index *)

Definition gvk_of (e : APILifecycleEntry) : GVK := mkGVK (e_Group e) (e_Version e) (e_Kind e).
Definition gk_of (e : APILifecycleEntry) : GVK := mkGVK (e_Group e) "" (e_Kind e).

Record Index := mkIndex {
  byGVK : gmap GVK APILifecycleEntry;
  byKind : gmap GVK (list APILifecycleEntry);
}.

Definition indexEntry (i : Index) (e : APILifecycleEntry) : Index :=
  mkIndex (<[gvk_of e := e]> (byGVK i))
    (<[gk_of e := default [] (byKind i !! gk_of e) ++ [e]]> (byKind i)).

Definition NewIndex (entries : list APILifecycleEntry) : Index :=
  foldl indexEntry (mkIndex ∅ ∅) entries.

Definition Lookup (i : Index) (group version kind : string) : option APILifecycleEntry :=
  byGVK i !! mkGVK group version kind.

(** [i.byKind[GVK{Group: group, Kind: kind}]] *)
Definition ofKind (i : Index) (group kind : string) : list APILifecycleEntry :=
  default [] (byKind i !! mkGVK group "" kind).

Definition servedAt (e : APILifecycleEntry) (target : Version) : bool :=
  (Compare (e_Introduced e) target <=? 0) &&
  match e_Removed e with None => true | Some r => 0 <? Compare r target end.

Definition Serves (e : APILifecycleEntry) (target : Version) : bool := servedAt e target.

Definition stability (version : string) : Z :=
  if Contains version "alpha" then 0
  else if Contains version "beta" then 1
  else 2.

Definition PreGA (version : string) : bool := stability version <? 2.

Definition preferVersion (a b : string) : bool :=
  let sa := stability a in let sb := stability b in
  if negb (sa =? sb) then sb <? sa else b <s a.

Definition ChangelogURL (v : Version) : string :=
  "https://github.com/kubernetes/kubernetes/blob/master/CHANGELOG/CHANGELOG-" +:+
  itoa (Major v) +:+ "." +:+ itoa (Minor v) +:+ ".md".

(** *** Replacement chains *)

Inductive chainResult :=
| ChainEnd                                              (* ok = false *)
| ChainHop (g : GVK) (r : option APILifecycleEntry)     (* ok; [r] when known *)
| ChainOutOfFuel.

Fixpoint chainFrom (fuel : nat) (i : Index) (target : Version)
    (seen : gset GVK) (next : option GVK) : chainResult :=
  match next with
  | None => ChainEnd
  | Some g =>
      match fuel with
      | O => ChainOutOfFuel
      | S fuel' =>
          if decide (g ∈ seen) then ChainEnd else
          match byGVK i !! g with
          | None => ChainHop g None
          | Some r =>
              match e_Removed r with
              | None => ChainHop g (Some r)
              | Some rm =>
                  if 0 <? Compare rm target then ChainHop g (Some r)
                  else chainFrom fuel' i target ({[g]} ∪ seen) (e_Replacement r)
              end
          end
      end
  end.

(** Every hop the loop passes is a known one it had not seen, so the
    number of known versions, and one, is fuel enough ([chain_total]). *)
Definition chain (i : Index) (e : APILifecycleEntry) (target : Version) : chainResult :=
  chainFrom (S (size (byGVK i))) i target {[gvk_of e]} (e_Replacement e).

(** *** The newest entry that passes a test

    The loop every recommendation runs: [best] is replaced by a later entry
    [c] that passes and is [better] than it. *)
Definition keepBest (ok : APILifecycleEntry -> bool)
    (better : APILifecycleEntry -> APILifecycleEntry -> bool)
    (best : option APILifecycleEntry) (c : APILifecycleEntry) : option APILifecycleEntry :=
  if negb (ok c) then best else
  match best with
  | None => Some c
  | Some b => if better c b then Some c else best
  end.

Definition bestOf ok better (l : list APILifecycleEntry) : option APILifecycleEntry :=
  foldl (keepBest ok better) None l.

Definition laterIntroduced (c b : APILifecycleEntry) : bool :=
  0 <? Compare (e_Introduced c) (e_Introduced b).

Definition laterOrPreferred (c b : APILifecycleEntry) : bool :=
  let cmpIntro := Compare (e_Introduced c) (e_Introduced b) in
  (0 <? cmpIntro) || ((cmpIntro =? 0) && preferVersion (e_Version c) (e_Version b)).

Definition notLessMature (c e : APILifecycleEntry) : bool :=
  negb (stability (e_Version c) <? stability (e_Version e)).

Definition ResolveReplacement (i : Index) (e : APILifecycleEntry) (target : Version) : option GVK :=
  match chain i e target with
  | ChainEnd | ChainOutOfFuel => None
  | ChainHop g r =>
      if match r with None => true | Some r => servedAt r target end then
        if stability (gvk_Version g) <? stability (e_Version e) then None else Some g
      else
        gvk_of <$> bestOf
          (fun c => negb ((e_Version c =s e_Version e) && (e_Group c =s e_Group e)) &&
                    servedAt c target &&
                    (0 <? Compare (e_Introduced c) (e_Introduced e)) &&
                    notLessMature c e)
          laterIntroduced (ofKind i (gvk_Group g) (gvk_Kind g))
  end.

Definition ServedAlternative (i : Index) (e : APILifecycleEntry) (target : Version) : option GVK :=
  gvk_of <$> bestOf
    (fun c => negb (e_Version c =s e_Version e) && servedAt c target && notLessMature c e)
    laterOrPreferred (ofKind i (e_Group e) (e_Kind e)).

Definition ServedSuccessor (i : Index) (e : APILifecycleEntry) (target : Version)
    : option APILifecycleEntry :=
  bestOf
    (fun c => negb (e_Version c =s e_Version e) && servedAt c target &&
              (0 <? Compare (e_Introduced c) (e_Introduced e)) && notLessMature c e)
    laterOrPreferred (ofKind i (e_Group e) (e_Kind e)).

Definition LaterReplacement (i : Index) (e : APILifecycleEntry) (target : Version)
    : option (GVK * Version) :=
  match ResolveReplacement i e target with
  | Some _ => None
  | None =>
      match chain i e target with
      | ChainHop g (Some r) =>
          if Compare (e_Introduced r) target <=? 0 then None else Some (g, e_Introduced r)
      | _ => None
      end
  end.

(** ** Facts about the index *)

Lemma gvk_gk e e' : gvk_of e = gvk_of e' -> gk_of e = gk_of e'.
Proof. unfold gvk_of, gk_of. congruence. Qed.

Definition same_kind (group kind : string) (e : APILifecycleEntry) : Prop :=
  e_Group e = group /\ e_Kind e = kind.
#[global] Instance same_kind_dec g k e : Decision (same_kind g k e).
Proof. unfold same_kind. apply _. Defined.

(** An index represents the entries it was built from. *)
Record index_of (entries : list APILifecycleEntry) (i : Index) : Prop := {
  index_sound g e : byGVK i !! g = Some e -> e ∈ entries /\ gvk_of e = g;
  index_complete e : e ∈ entries -> is_Some (byGVK i !! gvk_of e);
  index_kind g k : ofKind i g k = filter (same_kind g k) entries;
}.

Lemma NewIndex_snoc l e : NewIndex (l ++ [e]) = indexEntry (NewIndex l) e.
Proof. unfold NewIndex. by rewrite foldl_app. Qed.

Lemma NewIndex_spec entries : index_of entries (NewIndex entries).
Proof.
  induction entries as [|e l IH] using rev_ind.
  { split; [done|by intros ? ?%elem_of_nil|done]. }
  rewrite NewIndex_snoc. destruct IH as [Hs Hc Hk]. split; simpl.
  - intros g e'. rewrite lookup_insert. case_decide as Hg.
    + intros; simplify_eq. split; [set_solver|done].
    + intros [? ?]%Hs. set_solver.
  - intros e' [?| ->%list_elem_of_singleton]%elem_of_app; rewrite lookup_insert; case_decide;
      subst; eauto; done.
  - intros g k. unfold ofKind in *. simpl. rewrite lookup_insert, filter_app.
    specialize (Hk g k). rewrite <- Hk. unfold gk_of. rewrite filter_cons, filter_nil.
    unfold same_kind at 1. repeat case_decide; simplify_eq/=; try naive_solver; by rewrite ?app_nil_r.
Qed.

Lemma Lookup_sound entries g v k e :
  Lookup (NewIndex entries) g v k = Some e ->
  e ∈ entries /\ e_Group e = g /\ e_Version e = v /\ e_Kind e = k.
Proof.
  intros H. apply (index_sound _ _ (NewIndex_spec entries)) in H as [He Hg].
  split; [done|]. unfold gvk_of in Hg. by simplify_eq.
Qed.

(** With one entry per group, version and kind, a lookup finds it. *)
Lemma Lookup_complete entries e :
  NoDup (gvk_of <$> entries) -> e ∈ entries ->
  Lookup (NewIndex entries) (e_Group e) (e_Version e) (e_Kind e) = Some e.
Proof.
  intros Hn He. destruct (index_complete _ _ (NewIndex_spec entries) e He) as [e' He'].
  unfold Lookup. change (mkGVK _ _ _) with (gvk_of e). rewrite He'. f_equal.
  apply (index_sound _ _ (NewIndex_spec entries)) in He' as [Hin Hg].
  apply list_elem_of_lookup in Hin as [a Ha], He as [b Hb].
  assert (a = b) as ->; [|congruence].
  eapply NoDup_lookup; [exact Hn|by rewrite list_lookup_fmap, Ha|].
  rewrite list_lookup_fmap, Hb. simpl. by rewrite Hg.
Qed.

Lemma servedAt_spec e t :
  servedAt e t = true <->
  vle (e_Introduced e) t /\ (forall r, e_Removed e = Some r -> vlt t r).
Proof.
  unfold servedAt. rewrite andb_true_iff, Z.leb_le, Compare_le.
  apply and_iff_compat_l. destruct (e_Removed e); [rewrite Z.ltb_lt|naive_solver].
  rewrite <- Z.gt_lt_iff, Compare_gt. naive_solver.
Qed.

(** ** The replacement chain *)

Lemma chainFrom_total fuel i t seen next :
  (size (dom (byGVK i) ∖ seen) < fuel)%nat -> chainFrom fuel i t seen next <> ChainOutOfFuel.
Proof.
  revert seen next. induction fuel as [|fuel IH]; intros seen next Hf; [lia|].
  destruct next as [g|]; simpl; [|done]. case_decide as Hg; [done|].
  destruct (byGVK i !! g) as [r|] eqn:Hr; [|done].
  destruct (e_Removed r); [|done]. case_match; [done|]. apply IH.
  assert (g ∈ dom (byGVK i)) by (apply elem_of_dom; eauto).
  assert (Hlt : (size (dom (byGVK i) ∖ ({[g]} ∪ seen)) < size (dom (byGVK i) ∖ seen))%nat).
  { apply subset_size. set_solver. }
  lia.
Qed.

(** Following a replacement chain always ends, whatever the dataset:
    a loop or a long chain in it cannot hang a scan. The loop passes only
    known versions it has not seen, so it stops within as many rounds as
    the index has entries. *)
Lemma chain_total (i : Index) (e : APILifecycleEntry) (target : Version) :
  chain i e target <> ChainOutOfFuel.
Proof.
  apply chainFrom_total. rewrite <- size_dom.
  assert (size (dom (byGVK i) ∖ {[gvk_of e]}) <= size (dom (byGVK i)))%nat; [|lia].
  apply subseteq_size. set_solver.
Qed.

Lemma chainFrom_hop fuel i t seen next g r :
  chainFrom fuel i t seen next = ChainHop g r ->
  byGVK i !! g = r /\ g ∉ seen /\
  (forall e, r = Some e -> forall rm, e_Removed e = Some rm -> vlt t rm).
Proof.
  revert seen next. induction fuel as [|fuel IH]; intros seen [g'|]; simpl; try done.
  case_decide as Hg; [done|]. destruct (byGVK i !! g') as [e|] eqn:He.
  - destruct (e_Removed e) as [rm|] eqn:Hrm.
    + case_match; to_prop.
      * intros; simplify_eq. split_and!; [done|done|]. intros; simplify_eq.
        apply Compare_gt. lia.
      * intros H'%IH. set_solver.
    + intros; simplify_eq. split_and!; [done|done|]. intros; simplify_eq.
  - intros; simplify_eq. done.
Qed.

Section Best.
Context (ok : APILifecycleEntry -> bool) (better : APILifecycleEntry -> APILifecycleEntry -> bool).
Context (better_trans : forall a b c, better a b = true -> better b c = true -> better a c = true).
Context (better_irrefl : forall a, better a a = false).

(** [best] is an entry of [l] that passes and that no other beats. *)
Definition is_best (l : list APILifecycleEntry) (best : option APILifecycleEntry) : Prop :=
  match best with
  | None => forall c, c ∈ l -> ok c = false
  | Some b => b ∈ l /\ ok b = true /\ (forall c, c ∈ l -> ok c = true -> better c b = false)
  end.

Lemma bestOf_spec l : is_best l (bestOf ok better l).
Proof using better_irrefl better_trans.
  induction l as [|c l IH] using rev_ind; [by intros c ?%elem_of_nil|].
  unfold bestOf in *. rewrite foldl_app. simpl. set (best := foldl _ _ _) in *.
  unfold keepBest. destruct (ok c) eqn:Hc; simpl.
  - destruct best as [b|]; simpl in *.
    + destruct IH as (Hb & Hokb & Hbest). destruct (better c b) eqn:Hcb; simpl.
      * split_and!; [set_solver|done|].
        intros d [Hd| ->%list_elem_of_singleton]%elem_of_app Hokd; [|done].
        destruct (better d c) eqn:E; [|done].
        pose proof (Hbest d Hd Hokd). pose proof (better_trans _ _ _ E Hcb). congruence.
      * split_and!; [set_solver|done|].
        intros d [Hd| ->%list_elem_of_singleton]%elem_of_app Hokd; eauto.
    + split_and!; [set_solver|done|].
      intros d [Hd| ->%list_elem_of_singleton]%elem_of_app Hokd; [|done].
      rewrite IH in Hokd; done.
  - destruct best as [b|]; simpl in *.
    + destruct IH as (Hb & Hokb & Hbest). split_and!; [set_solver|done|].
      intros d [Hd| ->%list_elem_of_singleton]%elem_of_app Hokd; [eauto|congruence].
    + intros d [Hd| ->%list_elem_of_singleton]%elem_of_app; eauto.
Qed.

Lemma bestOf_Some l b :
  bestOf ok better l = Some b ->
  b ∈ l /\ ok b = true /\ (forall c, c ∈ l -> ok c = true -> better c b = false).
Proof using better_irrefl better_trans.
  intros H. pose proof (bestOf_spec l) as Hs. by rewrite H in Hs.
Qed.

(** When every two different passing entries are ordered, the best one
    does not depend on the order they are listed in. *)
Lemma bestOf_perm l l' :
  (forall a b, a ∈ l -> b ∈ l -> better a b = false -> better b a = false -> a = b) ->
  l ≡ₚ l' -> bestOf ok better l = bestOf ok better l'.
Proof using better_irrefl better_trans.
  intros Htot Hp. pose proof (bestOf_spec l) as H. pose proof (bestOf_spec l') as H'.
  unfold is_best in *.
  destruct (bestOf ok better l) as [a|], (bestOf ok better l') as [b|]; try done.
  - destruct H as (Ha & Hoka & Hmax), H' as (Hb & Hokb & Hmax').
    rewrite <- Hp in Hb. setoid_rewrite <- Hp in Hmax'. f_equal. apply Htot; auto.
  - destruct H as (Ha & Hoka & _). rewrite Hp in Ha. rewrite H' in Hoka; done.
  - destruct H' as (Hb & Hokb & _). rewrite <- Hp in Hb. rewrite H in Hokb; done.
Qed.
End Best.

Lemma laterIntroduced_trans a b c :
  laterIntroduced a b = true -> laterIntroduced b c = true -> laterIntroduced a c = true.
Proof.
  unfold laterIntroduced. rewrite !Z.ltb_lt, <- !Z.gt_lt_iff, !Compare_gt. intros; by etrans.
Qed.
Lemma laterIntroduced_irrefl a : laterIntroduced a a = false.
Proof. unfold laterIntroduced. vcmp. Qed.

Lemma string_ltb_spec a b : (a <s b) = true <-> String.le a b /\ a <> b.
Proof.
  unfold String.le. rewrite Is_true_true. unfold String.ltb, String.leb.
  destruct (String.compare a b) eqn:E; simpl.
  - apply String.compare_eq_iff in E. naive_solver.
  - split; [|done]. split; [done|]. intros ->.
    pose proof (String.compare_antisym b b) as Ha. rewrite E in Ha. done.
  - naive_solver.
Qed.

Lemma string_ltb_trans a b c : (a <s b) = true -> (b <s c) = true -> (a <s c) = true.
Proof.
  rewrite !string_ltb_spec. intros [H1 N1] [H2 N2]. split; [by etrans|]. intros ->.
  apply N1. by apply (anti_symm String.le).
Qed.
Lemma string_ltb_irrefl a : (a <s a) = false.
Proof. destruct (a <s a) eqn:E; [|done]. apply string_ltb_spec in E as []. done. Qed.
Lemma string_ltb_total a b : (a <s b) = false -> (b <s a) = false -> a = b.
Proof.
  intros H1 H2. destruct (decide (a = b)) as [|Hne]; [done|].
  destruct (total String.le a b) as [H|H].
  - assert ((a <s b) = true) by by apply string_ltb_spec. congruence.
  - assert ((b <s a) = true) by (apply string_ltb_spec; split; congruence). congruence.
Qed.

Lemma preferVersion_spec a b :
  preferVersion a b = true <->
  stability b < stability a \/ (stability a = stability b /\ (b <s a) = true).
Proof. unfold preferVersion. split_ifs; rewrite ?Z.ltb_lt in *; naive_solver lia. Qed.

Lemma laterOrPreferred_spec c b :
  laterOrPreferred c b = true <->
  vlt (e_Introduced b) (e_Introduced c) \/
  (e_Introduced c = e_Introduced b /\ preferVersion (e_Version c) (e_Version b) = true).
Proof.
  unfold laterOrPreferred.
  by rewrite orb_true_iff, andb_true_iff, Z.ltb_lt, Z.eqb_eq, Compare_eq, <- Z.gt_lt_iff, Compare_gt.
Qed.

Lemma laterOrPreferred_trans a b c :
  laterOrPreferred a b = true -> laterOrPreferred b c = true -> laterOrPreferred a c = true.
Proof.
  rewrite !laterOrPreferred_spec, !preferVersion_spec.
  intros [H1|[E1 H1]] [H2|[E2 H2]].
  - left. by etrans.
  - left. by rewrite <- E2.
  - left. by rewrite E1.
  - right. split; [congruence|]. destruct H1 as [|[]], H2 as [|[]]; [left; lia..|].
    right. split; [lia|]. by eapply string_ltb_trans.
Qed.
Lemma laterOrPreferred_irrefl a : laterOrPreferred a a = false.
Proof.
  destruct (laterOrPreferred a a) eqn:E; [|done].
  apply laterOrPreferred_spec in E as [E|[_ E]]; [by apply (irreflexivity vlt) in E|].
  apply preferVersion_spec in E as [E|[_ E]]; [lia|]. by rewrite string_ltb_irrefl in E.
Qed.
Lemma laterOrPreferred_total a b :
  laterOrPreferred a b = false -> laterOrPreferred b a = false -> e_Version a = e_Version b.
Proof.
  rewrite <- !not_true_iff_false, !laterOrPreferred_spec, !preferVersion_spec.
  intros Ha Hb. assert (e_Introduced a = e_Introduced b) as Hi.
  { destruct (vle_total (e_Introduced a) (e_Introduced b)) as [[|]|]; naive_solver. }
  assert (~ stability (e_Version b) < stability (e_Version a)) by naive_solver.
  assert (~ stability (e_Version a) < stability (e_Version b)) by naive_solver.
  assert (stability (e_Version a) = stability (e_Version b)) by lia.
  apply string_ltb_total; apply not_true_iff_false; naive_solver.
Qed.

Lemma ofKind_spec entries g k c :
  c ∈ ofKind (NewIndex entries) g k <-> c ∈ entries /\ e_Group c = g /\ e_Kind c = k.
Proof.
  rewrite (index_kind _ _ (NewIndex_spec entries)), list_elem_of_filter. unfold same_kind. naive_solver.
Qed.

Lemma notLessMature_spec c e :
  notLessMature c e = true <-> stability (e_Version e) <= stability (e_Version c).
Proof. unfold notLessMature. rewrite negb_true_iff, Z.ltb_ge. done. Qed.

Lemma laterThan_spec c e :
  (0 <? Compare (e_Introduced c) (e_Introduced e)) = true <-> vlt (e_Introduced e) (e_Introduced c).
Proof. by rewrite Z.ltb_lt, <- Z.gt_lt_iff, Compare_gt. Qed.

(** ** Recommendations

    What the knowledge base [entries] tells about migrating entry [e] for
    an upgrade to [target]. *)

Section Recommend.
Context (entries : list APILifecycleEntry) (e : APILifecycleEntry) (target : Version).
#[local] Notation i := (NewIndex entries).

(** [c] is an entry of the knowledge base that [target] serves, at least
    as mature as [e]. *)
Definition servable (c : APILifecycleEntry) : Prop :=
  c ∈ entries /\ servedAt c target = true /\ stability (e_Version e) <= stability (e_Version c).


(** The alternative recommended for an API the target does not serve
    yet is the best the knowledge base has: another served version of the
    same group and kind, at least as mature, and none such was introduced
    later, or with it and preferred (more stable, then the greater name). *)
Lemma ServedAlternative_best (g : GVK) :
  ServedAlternative i e target = Some g ->
  exists b, gvk_of b = g /\ servable b /\
    gk_of b = gk_of e /\ e_Version b <> e_Version e /\
    forall c, servable c -> gk_of c = gk_of e -> e_Version c <> e_Version e ->
      laterOrPreferred c b = false.
Proof.
  unfold ServedAlternative. intros Hb. apply fmap_Some in Hb as (b & Hb & ->).
  apply (bestOf_Some _ _ laterOrPreferred_trans laterOrPreferred_irrefl) in Hb
    as (Hin & Hok & Hmax).
  apply ofKind_spec in Hin as (Hin & Hg & Hk).
  rewrite !andb_true_iff, notLessMature_spec, negb_true_iff, String.eqb_neq in Hok.
  destruct Hok as [[Hne Hsb] Hm]. exists b. unfold servable, gk_of. split_and!; try done; [by rewrite Hg, Hk|].
  intros c (Hc & Hsc & Hmc) Hgk Hnc. injection Hgk as Hgc Hkc. apply Hmax.
  - by apply ofKind_spec.
  - by rewrite !andb_true_iff, notLessMature_spec, negb_true_iff, String.eqb_neq.
Qed.

(** The successor recommended when a replacement chain names nothing
    served is the newest of the same group and kind: served by the
    target, introduced after the API in use, at least as mature, and none
    such was introduced later, or with it and preferred. *)
Lemma ServedSuccessor_best (b : APILifecycleEntry) :
  ServedSuccessor i e target = Some b ->
  servable b /\ gk_of b = gk_of e /\ e_Version b <> e_Version e /\
  vlt (e_Introduced e) (e_Introduced b) /\
  forall c, servable c -> gk_of c = gk_of e -> e_Version c <> e_Version e ->
    vlt (e_Introduced e) (e_Introduced c) -> laterOrPreferred c b = false.
Proof.
  unfold ServedSuccessor. intros Hb.
  apply (bestOf_Some _ _ laterOrPreferred_trans laterOrPreferred_irrefl) in Hb
    as (Hin & Hok & Hmax).
  apply ofKind_spec in Hin as (Hin & Hg & Hk).
  rewrite !andb_true_iff, laterThan_spec, notLessMature_spec, negb_true_iff, String.eqb_neq in Hok.
  destruct Hok as [[[Hne Hsb] Hl] Hm].
  unfold servable, gk_of. split_and!; try done; [by rewrite Hg, Hk|].
  intros c (Hc & Hsc & Hmc) Hgk Hnc Hlt. injection Hgk as Hgc Hkc. apply Hmax.
  - by apply ofKind_spec.
  - rewrite !andb_true_iff, laterThan_spec, notLessMature_spec, negb_true_iff, String.eqb_neq. done.
Qed.

(** A replacement named as served later is introduced after the target,
    and only when no served one is known. *)
Lemma LaterReplacement_later g from :
  LaterReplacement i e target = Some (g, from) ->
  ResolveReplacement i e target = None /\ vlt target from /\
  exists c, c ∈ entries /\ gvk_of c = g /\ e_Introduced c = from.
Proof.
  unfold LaterReplacement. destruct (ResolveReplacement i e target); [done|].
  destruct (chain i e target) as [|g' [r|]|] eqn:Hc; try done. case_match; [done|].
  intros; simplify_eq. to_prop. unfold chain in Hc. apply chainFrom_hop in Hc as (Hr & _).
  apply (index_sound _ _ (NewIndex_spec entries)) in Hr as [Hin Hg].
  split_and!; [done| |by exists r]. apply Compare_gt. lia.
Qed.
End Recommend.

(** The recommendations do not depend on the order the dataset lists its
    entries in: two knowledge bases with the same entries, each group,
    version and kind once, name the same alternative and the same
    successor. *)
Lemma recommendations_order_independent (l l' : list APILifecycleEntry)
    (e : APILifecycleEntry) (target : Version) :
  NoDup (gvk_of <$> l) -> l ≡ₚ l' ->
  ServedAlternative (NewIndex l) e target = ServedAlternative (NewIndex l') e target /\
  ServedSuccessor (NewIndex l) e target = ServedSuccessor (NewIndex l') e target.
Proof.
  intros Hn Hp. unfold ServedAlternative, ServedSuccessor.
  rewrite !(index_kind _ _ (NewIndex_spec _)).
  set (f := filter (same_kind (e_Group e) (e_Kind e))).
  assert (Hf : f l ≡ₚ f l') by (unfold f; by rewrite Hp).
  assert (Htot : forall a b, a ∈ f l -> b ∈ f l -> laterOrPreferred a b = false ->
    laterOrPreferred b a = false -> a = b).
  { intros a b [[Hga Hka] Ha]%list_elem_of_filter [[Hgb Hkb] Hb]%list_elem_of_filter H1 H2.
    pose proof (laterOrPreferred_total a b H1 H2) as Hv.
    assert (gvk_of a = gvk_of b) as Hg by (unfold gvk_of; congruence).
    pose proof (Lookup_complete _ _ Hn Ha) as La. pose proof (Lookup_complete _ _ Hn Hb) as Lb.
    unfold Lookup in *. change (mkGVK (e_Group a) _ _) with (gvk_of a) in La.
    change (mkGVK (e_Group b) _ _) with (gvk_of b) in Lb. congruence. }
  split; [f_equal|]; apply bestOf_perm; try done;
    apply laterOrPreferred_trans || apply laterOrPreferred_irrefl.
Qed.

(** ** Witnesses

    VolumeAttributesClass of storage.k8s.io: an alpha whose replacement is
    the GA version, with a beta in between. *)

Definition vac (version : string) (introduced removed : Z) : APILifecycleEntry :=
  mkEntry "storage.k8s.io" version "VolumeAttributesClass" (mkVersion 1 introduced)
    (Some (mkVersion 1 introduced)) (Some (mkVersion 1 removed))
    (Some (mkGVK "storage.k8s.io" "v1" "VolumeAttributesClass")) false false None.

Definition vacs : list APILifecycleEntry :=
  [vac "v1" 34 99; vac "v1alpha1" 29 35; vac "v1beta1" 31 37].


Lemma ServedAlternative_best_witness :
  exists b, gvk_of b = mkGVK "storage.k8s.io" "v1beta1" "VolumeAttributesClass" /\
    servable vacs (vac "v1alpha1" 29 35) (mkVersion 1 33) b.
Proof.
  destruct (ServedAlternative_best vacs (vac "v1alpha1" 29 35) (mkVersion 1 33)
    (mkGVK "storage.k8s.io" "v1beta1" "VolumeAttributesClass")) as (b & H1 & H2 & _);
    [vm_compute; reflexivity|]. exists b. exact (conj H1 H2).
Defined.


Lemma recommendations_order_independent_witness :
  ServedSuccessor (NewIndex vacs) (vac "v1alpha1" 29 35) (mkVersion 1 33) =
  ServedSuccessor (NewIndex (reverse vacs)) (vac "v1alpha1" 29 35) (mkVersion 1 33).
Proof.
  apply (recommendations_order_independent vacs (reverse vacs)).
  - apply (bool_decide_unpack _). vm_compute. exact I.
  - symmetry. apply reverse_Permutation.
Defined.
