(* ===== verification/Findings.v ===== *)
(** * Findings, gaps, verdict, score and the report budget

    internal/engine/findings.go, score.go, teamscore.go and budget.go: the
    data of a report and the operations every check builds it with. *)

From stdpp Require Import base list strings gmap sorting.
From Stdlib Require Import ZArith Lia Ascii.
From S2P Require Import Prelude GoStr GoTime Version Inventory KB.

(** ** Categories and severities

    Both are string types in Go, and a report read back from JSON may hold
    any string. *)

Definition CatRemovedAPI : string := "removed-api".
Definition CatDeprecatedAPI : string := "deprecated-api".
Definition CatDeprecatedAPIInUse : string := "deprecated-api-in-use".
Definition CatEOLAddon : string := "eol-addon".
Definition CatEOLApproaching : string := "eol-approaching".
Definition CatVersionSkew : string := "version-skew".
Definition CatChartIncompat : string := "chart-incompat".
Definition CatKBStale : string := "kb-stale".
Definition CatAddOnNoData : string := "addon-no-data".
Definition CatUnknownAPI : string := "unknown-api".
Definition CatCRDVersion : string := "crd-version".
Definition CatSupportLifecycle : string := "support-lifecycle".
Definition CatVolumePlugin : string := "volume-plugin".

Definition SevBlocker : string := "blocker".
Definition SevWarning : string := "warning".
Definition SevInfo : string := "info".

(** The severities a check gives its findings. *)
Definition severity_ok (s : string) : Prop := s = SevBlocker \/ s = SevWarning \/ s = SevInfo.

Definition BaselineNew : string := "new".
Definition BaselineUnchanged : string := "unchanged".

Definition deprecationGuideURL : string :=
  "https://kubernetes.io/docs/reference/using-api/deprecation-guide/".
Definition skewPolicyURL : string := "https://kubernetes.io/releases/version-skew-policy/".
Definition helmChartYAMLURL : string := "https://helm.sh/docs/topics/charts/#the-chartyaml-file".
Definition helmKubernetesAPIsURL : string := "https://helm.sh/docs/topics/kubernetes_apis/".
Definition apiVersioningURL : string :=
  "https://kubernetes.io/docs/reference/using-api/#api-versioning".

(** ** Findings *)

Record Caller := mkCaller {
  ca_Group : string;
  ca_Version : string;
  ca_Resource : string;
  ca_Subresource : string;
  ca_Key : string;
  ca_Severity : string;
  ca_Title : string;
  ca_Detail : string;
}.

Record Finding := mkFinding {
  f_Category : string;
  f_Severity : string;
  f_Key : string;
  f_Title : string;
  f_Detail : string;
  f_Teams : list string;
  f_Namespaces : list string;
  f_NamespacesOmitted : Z;
  f_Unnamespaced : bool;
  f_Remediation : string;
  f_Citations : list string;
  f_Objects : list ObjectRef;
  f_ObjectsOmitted : Z;
  f_BaselineState : string;
  f_Callers : list Caller;
}.

(** A finding with the fields every check sets; the others are unset. *)
Definition newFinding (category severity key title detail : string) (citations : list string)
    : Finding :=
  mkFinding category severity key title detail [] [] 0 false "" citations [] 0 "" [].

(** Assignments to one field or two. *)
Definition set_Severity (s : string) (f : Finding) : Finding :=
  mkFinding (f_Category f) s (f_Key f) (f_Title f) (f_Detail f) (f_Teams f) (f_Namespaces f)
    (f_NamespacesOmitted f) (f_Unnamespaced f) (f_Remediation f) (f_Citations f) (f_Objects f)
    (f_ObjectsOmitted f) (f_BaselineState f) (f_Callers f).
Definition set_Key (k : string) (f : Finding) : Finding :=
  mkFinding (f_Category f) (f_Severity f) k (f_Title f) (f_Detail f) (f_Teams f) (f_Namespaces f)
    (f_NamespacesOmitted f) (f_Unnamespaced f) (f_Remediation f) (f_Citations f) (f_Objects f)
    (f_ObjectsOmitted f) (f_BaselineState f) (f_Callers f).
Definition set_Detail (d : string) (f : Finding) : Finding :=
  mkFinding (f_Category f) (f_Severity f) (f_Key f) (f_Title f) d (f_Teams f) (f_Namespaces f)
    (f_NamespacesOmitted f) (f_Unnamespaced f) (f_Remediation f) (f_Citations f) (f_Objects f)
    (f_ObjectsOmitted f) (f_BaselineState f) (f_Callers f).
Definition set_Remediation (r : string) (f : Finding) : Finding :=
  mkFinding (f_Category f) (f_Severity f) (f_Key f) (f_Title f) (f_Detail f) (f_Teams f)
    (f_Namespaces f) (f_NamespacesOmitted f) (f_Unnamespaced f) r (f_Citations f) (f_Objects f)
    (f_ObjectsOmitted f) (f_BaselineState f) (f_Callers f).
Definition set_Where (teams namespaces : list string) (unnamespaced : bool) (f : Finding) : Finding :=
  mkFinding (f_Category f) (f_Severity f) (f_Key f) (f_Title f) (f_Detail f) teams
    namespaces (f_NamespacesOmitted f) unnamespaced (f_Remediation f) (f_Citations f)
    (f_Objects f) (f_ObjectsOmitted f) (f_BaselineState f) (f_Callers f).
Definition set_Namespaces (ns : list string) (omitted : Z) (f : Finding) : Finding :=
  mkFinding (f_Category f) (f_Severity f) (f_Key f) (f_Title f) (f_Detail f) (f_Teams f)
    ns omitted (f_Unnamespaced f) (f_Remediation f) (f_Citations f)
    (f_Objects f) (f_ObjectsOmitted f) (f_BaselineState f) (f_Callers f).
Definition set_Objects (os : list ObjectRef) (omitted : Z) (f : Finding) : Finding :=
  mkFinding (f_Category f) (f_Severity f) (f_Key f) (f_Title f) (f_Detail f) (f_Teams f)
    (f_Namespaces f) (f_NamespacesOmitted f) (f_Unnamespaced f) (f_Remediation f) (f_Citations f)
    os omitted (f_BaselineState f) (f_Callers f).
Definition set_BaselineState (st : string) (f : Finding) : Finding :=
  mkFinding (f_Category f) (f_Severity f) (f_Key f) (f_Title f) (f_Detail f) (f_Teams f)
    (f_Namespaces f) (f_NamespacesOmitted f) (f_Unnamespaced f) (f_Remediation f) (f_Citations f)
    (f_Objects f) (f_ObjectsOmitted f) st (f_Callers f).
Definition set_Callers (cs : list Caller) (f : Finding) : Finding :=
  mkFinding (f_Category f) (f_Severity f) (f_Key f) (f_Title f) (f_Detail f) (f_Teams f)
    (f_Namespaces f) (f_NamespacesOmitted f) (f_Unnamespaced f) (f_Remediation f) (f_Citations f)
    (f_Objects f) (f_ObjectsOmitted f) (f_BaselineState f) cs.

(** [Caller.Finding]. *)
Definition CallerFinding (c : Caller) : Finding :=
  newFinding CatDeprecatedAPIInUse (ca_Severity c) (ca_Key c) (ca_Title c) (ca_Detail c)
    [deprecationGuideURL].

(** ** Text helpers of engine.go *)

Definition pluralObjects (n : Z) : string :=
  if n =? 1 then "1 object" else itoa n +:+ " objects".

Definition gvString (group version : string) : string :=
  if group =s "" then version else group +:+ "/" +:+ version.

Definition keyGroup (group : string) : string := if group =s "" then "core" else group.

Definition apiKey (group version kind : string) : string :=
  keyGroup group +:+ "/" +:+ version +:+ "/" +:+ kind.

Definition MaxFindingNamespaces : Z := 100.

(** [capNamespaces]: lists at most [MaxFindingNamespaces] namespaces. *)
Definition capNamespaces (f : Finding) : Finding :=
  let n := zlen (f_Namespaces f) - MaxFindingNamespaces in
  if 0 <? n then
    set_Namespaces (take (Z.to_nat MaxFindingNamespaces) (f_Namespaces f))
      (wrap64 (f_NamespacesOmitted f + n)) f
  else f.

(** The parts and the named namespaces [namespaceBreakdown]'s loop gathers:
    the label of a named namespace past the cap is left out. *)
Fixpoint breakdownParts (counts : gmap string Z) (emptyLabel : string) (named : Z)
    (keys : list string) : list string * list string :=
  match keys with
  | [] => ([], [])
  | ns :: keys' =>
      let part label := label +:+ " (" +:+ itoa (default 0 (counts !! ns)) +:+ ")" in
      if ns =s "" then
        let '(ps, ns') := breakdownParts counts emptyLabel named keys' in
        (part emptyLabel :: ps, ns')
      else
        let '(ps, ns') := breakdownParts counts emptyLabel (named + 1) keys' in
        if MaxFindingNamespaces <? named + 1 then (ps, ns :: ns') else (part ns :: ps, ns :: ns')
  end.

Definition namespaceBreakdown (counts : gmap string Z) (emptyLabel : string)
    : string * list string :=
  let keys := sort_strings (map fst (map_to_list counts)) in
  let '(parts, names) := breakdownParts counts emptyLabel 0 keys in
  let n := zlen names - MaxFindingNamespaces in
  let detail := Join parts ", " in
  (if 0 <? n then detail +:+ ", and " +:+ itoa n +:+ " more namespace(s)" else detail, names).

(** [newTeamLookup]: the last row of a namespace counts. *)
Definition newTeamLookup (nsInfo : list NamespaceInfo) : gmap string string :=
  foldl (fun m n => <[ns_Name n := ns_Team n]> m) ∅ nsInfo.

(** The distinct strings of [l] other than "", in first-occurrence order. *)
Definition firstSeen (seen : list string) (t : string) : list string :=
  if (t =s "") || mem_str t seen then seen else seen ++ [t].

(** [teamLookup.teamsFor]. *)
Definition teamsFor (l : gmap string string) (namespaces : list string) : list string :=
  sort_strings (foldl firstSeen [] (map (fun ns => default "" (l !! ns)) namespaces)).

(** [objectManagers]. *)
Definition objectManagers (refs : list ObjectRef) : list string :=
  sort_strings (foldl firstSeen [] (map o_Manager refs)).

Definition compareObjects (a b : ObjectRef) : Z :=
  cmpOr (cmpStr (o_File a) (o_File b))
    (cmpOr (cmpZ (o_Line a) (o_Line b))
      (cmpOr (cmpStr (o_Namespace a) (o_Namespace b)) (cmpStr (o_Name a) (o_Name b)))).

(** [sortedObjects]. *)
Definition sortedObjects (refs : list ObjectRef) : list ObjectRef :=
  isort (fun a b => compareObjects a b <=? 0) refs.

(** [sortedSet]. *)
Definition sortedSet (s : list string) : list string := compact (sort_strings s).

(** [appendNew]. *)
Definition appendNew (dst add : list string) : list string :=
  foldl (fun d a => if mem_str a d then d else d ++ [a]) dst add.

(** ** Gaps and verdict *)

Record CapabilityGap := mkGap {
  g_Capability : string;
  g_Reason : string;
  g_Partial : bool;
  g_Skipped : list string;
  g_Required : bool;
}.

Definition GapKBCoverage : string := "kb-coverage".
Definition GapTarget : string := "target".

(** [CapabilityGap.Label]. *)
Definition Label (g : CapabilityGap) : string :=
  let marks := (if g_Partial g
                then ["partial"%string] else []) ++
               (if g_Required g then ["required"%string] else []) in
  match marks with
  | [] => g_Capability g
  | _ => g_Capability g +:+ " (" +:+ Join marks ", " +:+ ")"
  end.

Definition VerdictReady : string := "ready".
Definition VerdictBlocked : string := "blocked".
Definition VerdictUnknown : string := "unknown".

Definition isBlocker (f : Finding) : bool := f_Severity f =s SevBlocker.
Definition isWarning (f : Finding) : bool := f_Severity f =s SevWarning.

Definition verdictFor (findings : list Finding) (gaps : list CapabilityGap) : string :=
  if existsb isBlocker findings then VerdictBlocked
  else if existsb g_Required gaps then VerdictUnknown
  else VerdictReady.

Definition StoredVerdict (ready : bool) (blockers : Z) : string :=
  if ready then VerdictReady else if 0 <? blockers then VerdictBlocked else VerdictUnknown.

Definition countIf (p : Finding -> bool) (fs : list Finding) : Z :=
  zlen (filter (fun f => p f = true) fs).

(** [Score]: the score, and whether there is no blocker. *)
Definition Score (findings : list Finding) : Z * bool :=
  let blockers := countIf isBlocker findings in
  let warnings := countIf isWarning findings in
  (100 - Z.min 75 (25 * blockers) - Z.min 20 (5 * warnings), blockers =? 0).

(** [severityRank], 0 for a severity the map does not have. *)
Definition severityRank (s : string) : Z :=
  if s =s SevBlocker then 0 else if s =s SevWarning then 1 else if s =s SevInfo then 2 else 0.

(** The [less] function of [sortFindings]. *)
Definition findingLess (a b : Finding) : bool :=
  if negb (severityRank (f_Severity a) =? severityRank (f_Severity b))
  then severityRank (f_Severity a) <? severityRank (f_Severity b)
  else if negb (f_Category a =s f_Category b) then f_Category a <s f_Category b
  else if negb (f_Title a =s f_Title b) then f_Title a <s f_Title b
  else f_Key a <s f_Key b.

Definition sortFindings (fs : list Finding) : list Finding :=
  isort (fun a b => negb (findingLess b a)) fs.

(** ** Keys *)

Definition unservedKeyPhase : string := "unserved".

Definition UnservedKey (removalKey : string) : string := removalKey +:+ "/" +:+ unservedKeyPhase.

Definition BaseOfUnservedKey (key : string) : option string :=
  match CutSuffix key ("/" +:+ unservedKeyPhase) with
  | None => None
  | Some base =>
      if negb (HasPrefix base (CatRemovedAPI +:+ "/")) ||
         HasPrefix base (CatRemovedAPI +:+ "/helm-release/") then None else Some base
  end.

Definition keyAPI (key : string) : string :=
  let key := match BaseOfUnservedKey key with Some base => base | None => key end in
  let '(_, api, _) := Cut key "/" in api.

Definition splitAPI (api : string) : option (string * string * string) :=
  match cut_opt api " " with
  | None => None
  | Some (gv, name) =>
      match cut_last gv "/" with
      | Some (group, version) => Some (group, version, name)
      | None => Some (""%string, gv, name)
      end
  end.

Fixpoint last_byte (s : string) : option ascii :=
  match s with
  | ""%string => None
  | String a ""%string => Some a
  | String _ s' => last_byte s'
  end.

Definition is_vowel (a : ascii) : bool := existsb (Ascii.eqb a) ["a"; "e"; "i"; "o"; "u"]%char.

Definition resourceNames (kind : string) : string * string :=
  let k := ToLower kind in
  if HasSuffix k "s" then (k, k +:+ "es")
  else match CutSuffix k "y" with
       | Some b =>
           match last_byte b with
           | Some a => if negb (is_vowel a) then (k, b +:+ "ies") else (k, k +:+ "s")
           | None => (k, k +:+ "s")
           end
       | None => (k, k +:+ "s")
       end.

Definition kindMatchesResource (kind resource : string) : bool :=
  if kind =s "" then false
  else let '(lower, plural) := resourceNames kind in (resource =s lower) || (resource =s plural).

(** [FoldsInto]. *)
Definition FoldsInto (call usage : string) : bool :=
  let '(cat, _, _) := Cut usage "/" in
  if negb (mem_str cat [CatRemovedAPI; CatDeprecatedAPI; CatUnknownAPI]) then false else
  let u := Split (keyAPI usage) "/" in
  let '(cat, tail, _) := Cut call "/" in
  let c := SplitN tail "/" 4 in
  match u, c with
  | [u0; u1; u2], c0 :: c1 :: c2 :: _ =>
      (cat =s CatDeprecatedAPIInUse) && negb (u0 =s "helm-release") &&
      (c0 =s u0) && (c1 =s u1) && kindMatchesResource u2 c2
  | _, _ => false
  end.

(** [RemovalOfCall]: the first lifecycle entry with a removal for the
    requested group, version and resource. *)
Fixpoint removalOf (entries : list APILifecycleEntry) (group version resource : string)
    : option Version :=
  match entries with
  | [] => None
  | e :: es =>
      match e_Removed e with
      | Some r =>
          if (e_Group e =s group) && (e_Version e =s version) && kindMatchesResource (e_Kind e) resource
          then Some r else removalOf es group version resource
      | None => removalOf es group version resource
      end
  end.

Definition RemovalOfCall (k : KB) (key : string) : option Version :=
  let '(cat, tail, _) := Cut key "/" in
  match SplitN tail "/" 4 with
  | c0 :: c1 :: c2 :: _ =>
      if negb (cat =s CatDeprecatedAPIInUse) then None
      else removalOf (k_APILifecycle k) (if c0 =s "core" then "" else c0) c1 c2
  | _ => None
  end.

(** ** What a finding was built from *)

(** [categorySources]; [None] for a category the map does not have. *)
Definition categorySources (c : string) : option (list string) :=
  if mem_str c [CatRemovedAPI; CatDeprecatedAPI; CatUnknownAPI] then Some [CapAPIUsage]
  else if c =s CatDeprecatedAPIInUse then Some [CapDeprecatedCalls]
  else if mem_str c [CatEOLAddon; CatEOLApproaching; CatAddOnNoData; CatChartIncompat]
  then Some [CapAddOns; CapVersions; CapHelm]
  else if c =s CatVersionSkew then Some [CapVersions]
  else if c =s CatCRDVersion then Some [CapCRDs]
  else if c =s CatVolumePlugin then Some [CapVolumes]
  else if c =s CatSupportLifecycle then Some [CapVersions]
  else if c =s CatKBStale then Some []
  else None.

Definition Sources (c key : string) : option (list string) :=
  if HasPrefix key (c +:+ "/helm-release/") then Some [CapHelm] else categorySources c.

(** [CapabilityGap.skips]. *)
Definition skips (g : CapabilityGap) (key : string) : bool :=
  if (g_Capability g =s CapAPIUsage) || (g_Capability g =s CapDeprecatedCalls) then
    let tail := keyAPI key in
    if mem_str SkippedNewerKB (g_Skipped g) then true
    else existsb (fun s => match splitAPI s with
                           | Some (group, version, name) => apiKey group version name =s tail
                           | None => false
                           end) (g_Skipped g)
  else if g_Capability g =s CapHelm then
    if negb (Contains key "/helm-release/") then 0 <? zlen (g_Skipped g)
    else existsb (fun s => negb (Contains s "/") || HasSuffix key ("/helm-release/" +:+ s)) (g_Skipped g)
  else 0 <? zlen (g_Skipped g).

(** [HiddenBy]. *)
Definition HiddenBy (gaps : list CapabilityGap) (c key : string) : list string :=
  let sources := Sources c key in
  foldl (fun out g =>
    let hides := match sources with
                 | None => true
                 | Some ss => mem_str (g_Capability g) ss && (negb (g_Partial g) || skips g key)
                 end in
    if hides && negb (mem_str (g_Capability g) out) then out ++ [g_Capability g] else out) [] gaps.

(** ** Reports *)

Record SupportStatus := mkSupportStatus {
  st_Provider : string;
  st_Minor : string;
  st_Phase : string;
  st_ExtendedSupportFrom : string;
  st_ExtendedSupportEnds : string;
  st_AnnualCostDelta : string;
  st_Currency : string;
  st_PriceAsOf : string;
  st_AnnualCostNote : string;
  st_ExtendedSupportCondition : string;
}.

Record SuppressedFinding := mkSuppressed {
  sf_Finding : Finding;
  sf_Reason : string;
  sf_Source : string;
  sf_Expires : string;
}.

Record FindingRef := mkFindingRef {
  fr_Key : string;
  fr_Severity : string;
  fr_Was : string;
  fr_Title : string;
  fr_Since : Version;
}.

Record Hop := mkHop {
  hop_From : Version;
  hop_To : Version;
  hop_Score : Z;
  hop_Verdict : string;
  hop_Findings : list Finding;
  hop_Changed : list FindingRef;
  hop_Carried : list FindingRef;
  hop_NotAssessed : list CapabilityGap;
}.

Record Report := mkReport {
  r_ClusterID : string;
  r_Target : Version;
  r_ServerVersion : string;
  r_KubeContext : string;
  r_APIServer : string;
  r_KBVersion : string;
  r_Score : Z;
  r_Ready : bool;
  r_Verdict : string;
  r_Findings : list Finding;
  r_NotAssessed : list CapabilityGap;
  r_Support : option SupportStatus;
  r_Suppressed : list SuppressedFinding;
  r_UnrecognizedImages : list string;
  r_UnrecognizedImagesOmitted : Z;
  r_AddOnEvidenceAgeSeconds : Z;
  r_Hops : list Hop;
}.

(** [r.Findings, r.Suppressed = ...] and then [Report.Rescore]. *)
Definition with_Findings (fs : list Finding) (sup : list SuppressedFinding) (r : Report) : Report :=
  mkReport (r_ClusterID r) (r_Target r) (r_ServerVersion r) (r_KubeContext r) (r_APIServer r)
    (r_KBVersion r) (r_Score r) (r_Ready r) (r_Verdict r) fs (r_NotAssessed r) (r_Support r) sup
    (r_UnrecognizedImages r) (r_UnrecognizedImagesOmitted r) (r_AddOnEvidenceAgeSeconds r) (r_Hops r).

Definition Rescore (r : Report) : Report :=
  let '(score, _) := Score (r_Findings r) in
  let verdict := verdictFor (r_Findings r) (r_NotAssessed r) in
  mkReport (r_ClusterID r) (r_Target r) (r_ServerVersion r) (r_KubeContext r) (r_APIServer r)
    (r_KBVersion r) score (verdict =s VerdictReady) verdict (r_Findings r) (r_NotAssessed r)
    (r_Support r) (r_Suppressed r)
    (r_UnrecognizedImages r) (r_UnrecognizedImagesOmitted r) (r_AddOnEvidenceAgeSeconds r) (r_Hops r).

(** ** Team scores *)

Record TeamScore := mkTeamScore {
  ts_Score : Z;
  ts_Ready : bool;
  ts_Verdict : string;
  ts_Blockers : Z;
  ts_Warnings : Z;
}.

(** The teams a finding counts for: [""] when it names none. *)
Definition teamsOf (f : Finding) : list string :=
  match f_Teams f with [] => [""%string] | ts => ts end.

Definition addToTeam (f : Finding) (m : gmap string (list Finding)) (team : string)
    : gmap string (list Finding) :=
  <[team := default [] (m !! team) ++ [f]]> m.

Definition groupByTeam (fs : list Finding) : gmap string (list Finding) :=
  foldl (fun m f => foldl (addToTeam f) m (teamsOf f)) ∅ fs.

Definition unattributedBlocker (fs : list Finding) : bool :=
  existsb (fun f => match f_Teams f with [] => isBlocker f | _ => false end) fs.

Definition teamScore (r : Report) (fs : list Finding) : TeamScore :=
  let '(score, _) := Score fs in
  let verdict := if unattributedBlocker (r_Findings r) then VerdictBlocked
                 else verdictFor fs (r_NotAssessed r) in
  mkTeamScore score (verdict =s VerdictReady) verdict (countIf isBlocker fs) (countIf isWarning fs).

Definition TeamScores (r : Report) : gmap string TeamScore :=
  teamScore r <$> groupByTeam (r_Findings r).

(** ** The report budget

    [None] is the nil budget, no limit. *)

Record budget := mkBudget { b_left : Z; b_over : bool }.

Definition charge (n : Z) (b : option budget) : bool * option budget :=
  match b with
  | None => (true, None)
  | Some b =>
      let l := wrap64 (b_left b - n) in
      let o := b_over b || (l <? 0) in
      (negb o, Some (mkBudget l o))
  end.

Definition exceeded (b : option budget) : bool :=
  match b with None => false | Some b => b_over b end.

Definition fieldOverhead : Z := 16.

Definition sumZ (l : list Z) : Z := foldr Z.add 0 l.

Definition callerSize (c : Caller) : Z :=
  8 * fieldOverhead + slen (ca_Group c) + slen (ca_Version c) + slen (ca_Resource c) +
  slen (ca_Subresource c) + slen (ca_Key c) + slen (ca_Severity c) + slen (ca_Title c) +
  slen (ca_Detail c).

Definition objectSize (o : ObjectRef) : Z :=
  8 * fieldOverhead + slen (o_Namespace o) + slen (o_Name o) + slen (o_File o) +
  slen (o_RenderedFrom o) + slen (o_Manager o) + slen (o_Ignore o) + slen (o_IgnoreReason o).

Definition findingSize (f : Finding) : Z :=
  8 * fieldOverhead +
  sumZ (map slen [f_Category f; f_Severity f; f_Key f; f_Title f; f_Detail f; f_Remediation f]) +
  sumZ (map (fun s => slen s + 3) (f_Teams f ++ f_Namespaces f ++ f_Citations f)) +
  sumZ (map objectSize (f_Objects f)) +
  sumZ (map callerSize (f_Callers f)).

Definition reportBaseSize (inv : Inventory) (k : KB) : Z :=
  12 * fieldOverhead + slen (ClusterID inv) + slen (ServerVersion inv) + slen (k_Version k).

Definition gapSize (g : CapabilityGap) : Z :=
  4 * fieldOverhead + slen (g_Capability g) + slen (g_Reason g) +
  sumZ (map (fun s => slen s + 3) (g_Skipped g)).

(** [budget.add]: appends [f] with its namespaces capped and charges it;
    [false], with nothing appended, once the budget is spent. *)
Definition add (b : option budget) (out : list Finding) (f : Finding)
    : bool * list Finding * option budget :=
  let f := capNamespaces f in
  let '(ok, b) := charge (findingSize f) b in
  if ok then (true, out ++ [f], b) else (false, out, b).

(** [budget.addAll], and the loop [for each f: if !b.add(&out, f) { return
    out }] the checks that charge as they build end with. *)
Fixpoint addAll (b : option budget) (out : list Finding) (fs : list Finding)
    : list Finding * option budget :=
  match fs with
  | [] => (out, b)
  | f :: fs' =>
      let '(ok, out, b) := add b out f in
      if ok then addAll b out fs' else (out, b)
  end.

(** ** Score and verdict *)

Lemma countIf_pos p fs : 0 < countIf p fs <-> existsb p fs = true.
Proof.
  unfold countIf, zlen. rewrite existsb_exists. split.
  - destruct (filter _ fs) as [|f l] eqn:E; [simpl; lia|]. intros _. exists f.
    assert (Hf : f ∈ filter (fun f => p f = true) fs) by (rewrite E; set_solver).
    apply list_elem_of_filter in Hf as [Hp Hin]. split; [by apply list_elem_of_In|done].
  - intros (f & Hin & Hp). apply list_elem_of_In in Hin.
    assert (Hf : f ∈ filter (fun f => p f = true) fs) by (apply list_elem_of_filter; done).
    destruct (filter _ fs); [by apply elem_of_nil in Hf|]. simpl. lia.
Qed.

Lemma countIf_nonneg p fs : 0 <= countIf p fs.
Proof. unfold countIf, zlen. lia. Qed.

Lemma countIf_perm p fs fs' : fs ≡ₚ fs' -> countIf p fs = countIf p fs'.
Proof. intros H. unfold countIf, zlen. by rewrite H. Qed.

Lemma existsb_perm {A} (p : A -> bool) l l' : l ≡ₚ l' -> existsb p l = existsb p l'.
Proof.
  intros H. apply eq_true_iff_eq. rewrite !existsb_exists.
  by setoid_rewrite <- list_elem_of_In; setoid_rewrite H.
Qed.

Lemma verdictFor_perm fs fs' gs : fs ≡ₚ fs' -> verdictFor fs gs = verdictFor fs' gs.
Proof. intros H. unfold verdictFor. by rewrite (existsb_perm isBlocker _ _ H). Qed.

Lemma Score_perm fs fs' : fs ≡ₚ fs' -> Score fs = Score fs'.
Proof. intros H. unfold Score. by rewrite !(countIf_perm _ _ _ H). Qed.

Lemma verdictFor_blocked fs gs :
  verdictFor fs gs = VerdictBlocked <-> exists f, f ∈ fs /\ f_Severity f = SevBlocker.
Proof.
  unfold verdictFor. destruct (existsb isBlocker fs) eqn:E.
  - split; [|done]. intros _. apply existsb_exists in E as (f & Hin & Hs).
    exists f. split; [by apply list_elem_of_In|]. by apply String.eqb_eq.
  - split; [by case_match|]. intros (f & Hin & Hs).
    assert (existsb isBlocker fs = true); [|congruence].
    apply existsb_exists. exists f. split; [by apply list_elem_of_In|]. by apply String.eqb_eq.
Qed.

Lemma verdictFor_ready fs gs :
  verdictFor fs gs = VerdictReady <->
  (forall f, f ∈ fs -> f_Severity f <> SevBlocker) /\ (forall g, g ∈ gs -> g_Required g = false).
Proof.
  unfold verdictFor. destruct (existsb isBlocker fs) eqn:E.
  - split; [done|]. intros [Hf _]. apply existsb_exists in E as (f & Hin & Hs).
    apply list_elem_of_In in Hin. apply String.eqb_eq in Hs. by destruct (Hf f).
  - assert (Hf : forall f, f ∈ fs -> f_Severity f <> SevBlocker).
    { intros f Hin Hs. assert (existsb isBlocker fs = true); [|congruence].
      apply existsb_exists. exists f. split; [by apply list_elem_of_In|]. by apply String.eqb_eq. }
    destruct (existsb g_Required gs) eqn:E2.
    + split; [done|]. intros [_ Hg]. apply existsb_exists in E2 as (g & Hin & Hr). apply list_elem_of_In in Hin.
      by rewrite Hg in Hr.
    + split; [|done]. intros _. split; [done|]. intros g Hin. destruct (g_Required g) eqn:Hr; [|done].
      assert (existsb g_Required gs = true); [|congruence].
      apply existsb_exists. exists g. split; [by apply list_elem_of_In|done].
Qed.

(** The score is between 5 and 100, is 100 exactly when nothing but info
    was found, never rises when a finding is added, and its ready flag says
    that there is no blocker. *)
Lemma Score_spec (fs : list Finding) (f : Finding) :
  5 <= (Score fs).1 <= 100 /\
  ((Score fs).1 = 100 <-> forall g, g ∈ fs -> isBlocker g = false /\ isWarning g = false) /\
  (Score (f :: fs)).1 <= (Score fs).1 /\
  ((Score fs).2 = true <-> forall g, g ∈ fs -> isBlocker g = false).
Proof.
  assert (Hz : forall p, countIf p fs = 0 <-> forall g, g ∈ fs -> p g = false).
  { intros p. pose proof (countIf_nonneg p fs). split.
    - intros H0 g Hg. destruct (p g) eqn:E; [|done]. assert (0 < countIf p fs); [|lia].
      apply countIf_pos, existsb_exists. exists g. by rewrite <- list_elem_of_In.
    - intros Hg. destruct (decide (0 < countIf p fs)) as [Hp|]; [|lia].
      apply countIf_pos, existsb_exists in Hp as (g & Hin & Hp). apply list_elem_of_In in Hin.
      by rewrite Hg in Hp. }
  assert (Hc : forall p, countIf p fs <= countIf p (f :: fs)).
  { intros p. unfold countIf, zlen. rewrite filter_cons. case_decide; simpl; lia. }
  pose proof (countIf_nonneg isBlocker fs). pose proof (countIf_nonneg isWarning fs).
  pose proof (Hc isBlocker). pose proof (Hc isWarning).
  unfold Score. simpl. split_and!; [lia|lia| |lia|].
  - split; [intros|intros Hall].
    + split; [apply Hz|apply Hz]; lia || done.
    + assert (countIf isBlocker fs = 0) by (apply Hz; naive_solver).
      assert (countIf isWarning fs = 0) by (apply Hz; naive_solver). lia.
  - rewrite Z.eqb_eq. apply Hz.
Qed.

(** A stored evaluation gives back its verdict: the ready flag and the
    blocker count kept beside a report determine the verdict the report
    was given. *)
Lemma StoredVerdict_roundtrip (fs : list Finding) (gs : list CapabilityGap) :
  StoredVerdict (verdictFor fs gs =s VerdictReady) (countIf isBlocker fs) = verdictFor fs gs.
Proof.
  unfold StoredVerdict, verdictFor. pose proof (countIf_pos isBlocker fs) as Hp.
  destruct (existsb isBlocker fs); simpl.
  - destruct (0 <? _) eqn:E; [done|]. to_prop. destruct Hp as [_ Hp]. specialize (Hp eq_refl). lia.
  - destruct (existsb g_Required gs); simpl; [|done].
    destruct (0 <? _) eqn:E; [|done]. to_prop. destruct Hp as [Hp _]. by specialize (Hp E).
Qed.

(** ** The order of findings *)

Definition findingLeb (a b : Finding) : bool := negb (findingLess b a).

(** The chain of comparisons [findingLess] makes, one per field. *)
Lemma findingLess_spec a b :
  findingLess a b = true <->
  severityRank (f_Severity a) < severityRank (f_Severity b) \/
  (severityRank (f_Severity a) = severityRank (f_Severity b) /\
   ((f_Category a <s f_Category b) = true \/
    (f_Category a = f_Category b /\
     ((f_Title a <s f_Title b) = true \/
      (f_Title a = f_Title b /\ (f_Key a <s f_Key b) = true))))).
Proof.
  unfold findingLess.
  repeat match goal with |- context [negb (?x =? ?y)] => destruct (x =? y) eqn:?; simpl; to_prop end;
  repeat match goal with |- context [negb (?x =s ?y)] => destruct (x =s y) eqn:?; simpl; to_prop end;
  rewrite ?Z.ltb_lt.
  - rewrite Heqb1, Heqb2, !string_ltb_irrefl. naive_solver lia.
  - rewrite Heqb1, !string_ltb_irrefl. naive_solver lia.
  - naive_solver lia.
  - naive_solver lia.
Qed.

Lemma string_lt_cases a b : (a <s b) = true \/ a = b \/ (b <s a) = true.
Proof.
  destruct (a <s b) eqn:E1; [by left|]. destruct (b <s a) eqn:E2; [by auto|].
  right; left. by apply string_ltb_total.
Qed.

Lemma findingLess_trans a b c :
  findingLess a b = true -> findingLess b c = true -> findingLess a c = true.
Proof.
  rewrite !findingLess_spec. intros [H1|[E1 H1]] [H2|[E2 H2]]; [left; lia..|].
  right. split; [lia|]. destruct H1 as [H1|[F1 H1]], H2 as [H2|[F2 H2]].
  - left. by eapply string_ltb_trans.
  - left. by rewrite <- F2.
  - left. by rewrite F1.
  - right. split; [congruence|]. destruct H1 as [H1|[G1 H1]], H2 as [H2|[G2 H2]].
    + left. by eapply string_ltb_trans.
    + left. by rewrite <- G2.
    + left. by rewrite G1.
    + right. split; [congruence|]. by eapply string_ltb_trans.
Qed.

Lemma findingLess_irrefl a : findingLess a a = false.
Proof.
  destruct (findingLess a a) eqn:E; [|done]. apply findingLess_spec in E.
  rewrite !string_ltb_irrefl in E. naive_solver lia.
Qed.

(** Two findings neither of which comes first agree on every field sorted
    by. *)
Lemma findingLess_tied a b :
  findingLess a b = false -> findingLess b a = false ->
  severityRank (f_Severity a) = severityRank (f_Severity b) /\ f_Category a = f_Category b /\
  f_Title a = f_Title b /\ f_Key a = f_Key b.
Proof.
  rewrite <- !not_true_iff_false, !findingLess_spec. intros Ha Hb.
  assert (severityRank (f_Severity a) = severityRank (f_Severity b)) as Er.
  { destruct (Ztrichotomy (severityRank (f_Severity a)) (severityRank (f_Severity b)))
      as [|[|]]; [naive_solver|done|]. naive_solver lia. }
  assert (f_Category a = f_Category b) as Ec.
  { destruct (string_lt_cases (f_Category a) (f_Category b)) as [|[|]]; naive_solver. }
  assert (f_Title a = f_Title b) as Et.
  { destruct (string_lt_cases (f_Title a) (f_Title b)) as [|[|]]; naive_solver. }
  split_and!; [done..|].
  destruct (string_lt_cases (f_Key a) (f_Key b)) as [|[|]]; naive_solver.
Qed.

Lemma findingLeb_total a b : findingLeb a b = true \/ findingLeb b a = true.
Proof.
  unfold findingLeb. destruct (findingLess b a) eqn:E1, (findingLess a b) eqn:E2; auto.
  pose proof (findingLess_trans _ _ _ E1 E2). by rewrite findingLess_irrefl in *.
Qed.

Lemma findingLeb_trans a b c :
  findingLeb a b = true -> findingLeb b c = true -> findingLeb a c = true.
Proof.
  unfold findingLeb. rewrite !negb_true_iff. intros H1 H2.
  destruct (findingLess c a) eqn:E; [|done].
  destruct (findingLess a b) eqn:E1; [by rewrite (findingLess_trans c a b) in H2|].
  destruct (findingLess_tied a b E1 H1) as (Er & Ec & Et & Ek).
  assert (findingLess c b = true); [|congruence].
  apply findingLess_spec. apply findingLess_spec in E. by rewrite <- Er, <- Ec, <- Et, <- Ek.
Qed.

(** Sorting loses and invents nothing, puts the more severe findings
    first, and is deterministic: the same findings in any other order sort
    to the same list when no two of them share severity, category, title
    and key. *)
Lemma sortFindings_spec (fs fs' : list Finding) :
  sortFindings fs ≡ₚ fs /\
  StronglySorted (fun a b => severityRank (f_Severity a) <= severityRank (f_Severity b)) (sortFindings fs) /\
  (fs ≡ₚ fs' ->
   (forall a b, a ∈ fs -> b ∈ fs -> f_Severity a = f_Severity b -> f_Category a = f_Category b ->
      f_Title a = f_Title b -> f_Key a = f_Key b -> a = b) ->
   (forall a, a ∈ fs -> severity_ok (f_Severity a)) ->
   sortFindings fs = sortFindings fs').
Proof.
  split_and!; [apply isort_perm| |].
  - pose proof (isort_sorted findingLeb findingLeb_total findingLeb_trans fs) as Hs.
    unfold sortFindings. change (fun a b => negb _) with findingLeb.
    induction Hs as [|f l Hs IH Hf]; constructor; [done|].
    eapply Forall_impl; [exact Hf|]. intros g Hg. unfold findingLeb in Hg. apply negb_true_iff in Hg.
    destruct (decide (severityRank (f_Severity g) < severityRank (f_Severity f))); [|lia].
    rewrite (proj2 (findingLess_spec g f)) in Hg; [done|by left].
  - intros Hp Hinj Hsev. unfold sortFindings. change (fun a b => negb _) with findingLeb.
    apply isort_perm_eq_in; [apply findingLeb_total|apply findingLeb_trans| |done].
    intros a b Ha Hb H1 H2. unfold findingLeb in *. apply negb_true_iff in H1, H2.
    destruct (findingLess_tied a b H2 H1) as (Er & Ec & Et & Ek). apply Hinj; try done.
    pose proof (Hsev a Ha) as Sa. pose proof (Hsev b Hb) as Sb.
    destruct Sa as [Sa|[Sa|Sa]], Sb as [Sb|[Sb|Sb]]; rewrite Sa, Sb in *; done.
Qed.

(** ** Team scores *)

Lemma groupByTeam_spec fs team :
  (forall f, f ∈ fs -> NoDup (f_Teams f)) ->
  default [] (groupByTeam fs !! team) = filter (fun f => team ∈ teamsOf f) fs.
Proof.
  assert (Hone : forall f ts m, NoDup ts ->
    default [] (foldl (addToTeam f) m ts !! team) =
    default [] (m !! team) ++ (if decide (team ∈ ts) then [f] else [])).
  { intros f ts. induction ts as [|t ts IH]; intros m Hn; cbn [foldl].
    - rewrite decide_False by apply not_elem_of_nil. by rewrite app_nil_r.
    - apply NoDup_cons in Hn as [Hnt Hn]. rewrite IH by done. unfold addToTeam.
      rewrite lookup_insert. destruct (decide (t = team)) as [Et|Et],
        (decide (team ∈ ts)), (decide (team ∈ t :: ts)); subst; try set_solver;
        by rewrite ?app_nil_r. }
  induction fs as [|f l IH] using rev_ind; intros Hn; [done|].
  unfold groupByTeam in *. rewrite foldl_app, filter_app. simpl.
  rewrite Hone, IH; [done|intros; apply Hn; set_solver|].
  unfold teamsOf. destruct (f_Teams f) eqn:E; [apply NoDup_singleton|].
  rewrite <- E. apply Hn. set_solver.
Qed.

Lemma groupByTeam_nonempty fs team l : groupByTeam fs !! team = Some l -> l <> [].
Proof.
  assert (Hone : forall f ts (m : gmap string (list Finding)),
    (forall t l, m !! t = Some l -> l <> []) ->
    forall t l, foldl (addToTeam f) m ts !! t = Some l -> l <> []).
  { intros f ts. induction ts as [|t ts IH]; intros m Hm; simpl; [done|]. apply IH.
    intros t' l'. unfold addToTeam. rewrite lookup_insert. case_decide; [|apply Hm].
    intros [= <-]. by destruct (default [] _). }
  revert team l. unfold groupByTeam. induction fs as [|f fs IH] using rev_ind; [done|].
  rewrite foldl_app. simpl. by apply Hone.
Qed.

(** A team is blocked exactly by a blocker of its own or one no team is
    attributed; otherwise a required gap makes it unknown, and otherwise it
    is ready: another team's blocker never blocks it. Its counts and score
    are those of its own findings. *)
Lemma TeamScores_verdict (r : Report) (team : string) (ts : TeamScore) :
  (forall f, f ∈ r_Findings r -> NoDup (f_Teams f)) ->
  TeamScores r !! team = Some ts ->
  (ts_Verdict ts = VerdictBlocked <->
     exists f, f ∈ r_Findings r /\ f_Severity f = SevBlocker /\ (team ∈ f_Teams f \/ f_Teams f = [])) /\
  (ts_Verdict ts = VerdictReady -> forall g, g ∈ r_NotAssessed r -> g_Required g = false) /\
  ts_Ready ts = (ts_Verdict ts =s VerdictReady) /\
  ts_Blockers ts = countIf isBlocker (filter (fun f => team ∈ teamsOf f) (r_Findings r)).
Proof.
  intros Hn Hts. unfold TeamScores in Hts. apply lookup_fmap_Some in Hts as (fs & <- & Hfs).
  assert (Hd : fs = filter (fun f => team ∈ teamsOf f) (r_Findings r)).
  { rewrite <- (groupByTeam_spec _ team Hn). by rewrite Hfs. }
  pose proof (groupByTeam_nonempty _ _ _ Hfs) as Hne.
  assert (Hu : unattributedBlocker (r_Findings r) = true <->
    exists f, f ∈ r_Findings r /\ f_Severity f = SevBlocker /\ f_Teams f = []).
  { unfold unattributedBlocker. rewrite existsb_exists. split.
    - intros (f & Hin & Hf). exists f. rewrite list_elem_of_In.
      destruct (f_Teams f) eqn:E; [|done]. by apply String.eqb_eq in Hf.
    - intros (f & Hin & Hf & E). exists f. rewrite <- list_elem_of_In, E. split; [done|].
      by apply String.eqb_eq. }
  unfold teamScore. simpl. split_and!; [| |done|by rewrite Hd].
  - destruct (unattributedBlocker _) eqn:E.
    + split; [|done]. intros _. destruct Hu as [Hu _]. destruct (Hu eq_refl) as (f & ? & ? & ?). eauto.
    + rewrite verdictFor_blocked. split.
      * intros (f & Hin & Hs). rewrite Hd in Hin. apply list_elem_of_filter in Hin as [Ht Hin].
        exists f. split_and!; [done|done|]. unfold teamsOf in Ht. destruct (f_Teams f); [by right|by left].
      * intros (f & Hin & Hs & [Ht|Ht]).
        -- exists f. split; [|done]. rewrite Hd. apply list_elem_of_filter. split; [|done].
           unfold teamsOf. destruct (f_Teams f); [by apply elem_of_nil in Ht|done].
        -- assert (false = true); [apply Hu; eauto|done].
  - destruct (unattributedBlocker _); [done|]. rewrite verdictFor_ready. naive_solver.
Qed.

(** A report with one team's blocker and another team's warning. *)
Definition teamFinding (sev team : string) : Finding :=
  set_Where [team] [team] false (newFinding CatRemovedAPI sev "k" "t" "d" []).

Definition teamReport : Report :=
  mkReport "c" (mkVersion 1 33) "" "" "" "" 70 false VerdictBlocked
    [teamFinding SevBlocker "red"; teamFinding SevWarning "blue"] [] None [] [] 0 0 [].

Lemma TeamScores_verdict_witness :
  TeamScores teamReport !! "blue"%string = Some (mkTeamScore 95 true VerdictReady 0 1) /\
  ~ (exists f, f ∈ r_Findings teamReport /\ f_Severity f = SevBlocker /\
       ("blue"%string ∈ f_Teams f \/ f_Teams f = [])).
Proof.
  split; [vm_compute; reflexivity|].
  destruct (TeamScores_verdict teamReport "blue" (mkTeamScore 95 true VerdictReady 0 1)) as [H _].
  - intros f Hf. apply elem_of_cons in Hf as [->|Hf];
      [|apply list_elem_of_singleton in Hf as ->]; apply NoDup_singleton.
  - vm_compute. reflexivity.
  - rewrite <- H. discriminate.
Defined.

(** ** The budget *)

Lemma addAll_None out fs : addAll None out fs = (out ++ map capNamespaces fs, None).
Proof.
  revert out. induction fs as [|f fs IH]; intros out; simpl; [by rewrite app_nil_r|].
  rewrite IH. by rewrite <- app_assoc.
Qed.

(** Once spent, a budget stays spent. *)
Lemma charge_over n b : exceeded b = true -> exceeded (charge n b).2 = true.
Proof. destruct b as [b|]; simpl; [|done]. intros ->. done. Qed.

Lemma charge_ok n b : (charge n b).1 = negb (exceeded (charge n b).2).
Proof. by destruct b. Qed.

Lemma addAll_over fs b out : exceeded b = true -> exceeded (addAll b out fs).2 = true.
Proof.
  revert b out. induction fs as [|f fs IH]; intros b out Hb; simpl; [done|].
  unfold add. pose proof (charge_over (findingSize (capNamespaces f)) b Hb) as Hc.
  pose proof (charge_ok (findingSize (capNamespaces f)) b) as Hok.
  destruct (charge _ b) as [ok b'] eqn:E. simpl in *. rewrite Hc in Hok. subst ok. done.
Qed.

(** Within the budget a check appends exactly what it appends without one. *)
Lemma addAll_within fs b out :
  exceeded (addAll b out fs).2 = false -> (addAll b out fs).1 = out ++ map capNamespaces fs.
Proof.
  revert b out. induction fs as [|f fs IH]; intros b out; simpl; [by rewrite app_nil_r|].
  unfold add. pose proof (charge_ok (findingSize (capNamespaces f)) b) as Hok.
  destruct (charge _ b) as [ok b'] eqn:E. simpl in *. destruct ok; simpl.
  - intros H. rewrite IH by done. by rewrite <- app_assoc.
  - intros H. by rewrite H in Hok.
Qed.

Lemma capNamespaces_idem f : capNamespaces (capNamespaces f) = capNamespaces f.
Proof.
  unfold capNamespaces at 1. case_match eqn:E; [|done]. to_prop. exfalso.
  unfold capNamespaces, MaxFindingNamespaces, zlen in E.
  case_match; to_prop; simpl in *; unfold zlen, MaxFindingNamespaces in *;
    rewrite ?length_take in E; lia.
Qed.

Lemma capNamespaces_length f : zlen (f_Namespaces (capNamespaces f)) <= MaxFindingNamespaces.
Proof.
  unfold capNamespaces. case_match; to_prop; simpl; [|lia].
  unfold zlen, MaxFindingNamespaces. rewrite length_take. lia.
Qed.

(** Capping namespaces changes nothing else. *)
Lemma capNamespaces_fields f :
  f_Category (capNamespaces f) = f_Category f /\ f_Severity (capNamespaces f) = f_Severity f /\
  f_Key (capNamespaces f) = f_Key f /\ f_Title (capNamespaces f) = f_Title f /\
  f_Detail (capNamespaces f) = f_Detail f /\ f_Teams (capNamespaces f) = f_Teams f /\
  f_Callers (capNamespaces f) = f_Callers f /\ f_Objects (capNamespaces f) = f_Objects f.
Proof. unfold capNamespaces. by case_match. Qed.

Lemma capNamespaces_severity f : f_Severity (capNamespaces f) = f_Severity f.
Proof. apply capNamespaces_fields. Qed.
Lemma capNamespaces_key f : f_Key (capNamespaces f) = f_Key f.
Proof. apply capNamespaces_fields. Qed.

(** ** Keys *)

(** The key of the removal of an API. *)
Definition removalKey (group version kind : string) : string :=
  CatRemovedAPI +:+ "/" +:+ apiKey group version kind.

Lemma HasSuffix_no_byte c s t p :
  no_byte c p -> no_byte c t -> CutSuffix (s +:+ String c t) (String c p) <> None -> t = p.
Proof.
  intros Hp Ht. destruct (CutSuffix _ _) as [b|] eqn:E; [|done]. intros _.
  apply CutSuffix_Some in E.
  assert (H : cut_last (s +:+ String c t) c = cut_last (b +:+ String c p) c) by congruence.
  rewrite !cut_last_app in H by done. by simplify_eq.
Qed.

(** The two phases of an API never share a finding key: the key of a
    removal is recovered from the key of its not-served-yet form, and no
    removal key is ever read as a not-served-yet one, so an ignore rule or a
    baseline for one phase cannot accept the other. *)
Lemma unserved_key_phases (group version kind : string) :
  group <> "helm-release"%string -> no_byte "/" kind -> kind <> unservedKeyPhase ->
  no_byte "/" group ->
  BaseOfUnservedKey (UnservedKey (removalKey group version kind)) =
    Some (removalKey group version kind) /\
  BaseOfUnservedKey (removalKey group version kind) = None.
Proof.
  intros Hg Hk Hne Hgs. unfold BaseOfUnservedKey, UnservedKey.
  change ("/" +:+ unservedKeyPhase) with (String "/" unservedKeyPhase). split.
  - rewrite CutSuffix_app. unfold removalKey.
    change (CatRemovedAPI +:+ "/" +:+ apiKey group version kind)
      with ("removed-api/" +:+ apiKey group version kind).
    change (CatRemovedAPI +:+ "/helm-release/") with ("removed-api/" +:+ "helm-release/").
    change (CatRemovedAPI +:+ "/") with "removed-api/"%string.
    rewrite HasPrefix_app, HasPrefix_app_app. simpl negb.
    destruct (HasPrefix _ "helm-release/") eqn:E; [|done]. exfalso. apply HasPrefix_split in E.
    unfold apiKey in E.
    assert (Hkg : no_byte "/" (keyGroup group)).
    { unfold keyGroup. case_match; [done|exact Hgs]. }
    pose proof (cut_opt_app "/" (keyGroup group) (version +:+ "/" +:+ kind) Hkg) as H1.
    change (String "/" (version +:+ "/" +:+ kind)) with ("/" +:+ version +:+ "/" +:+ kind) in H1.
    rewrite E in H1. set (rest := drop_len _ _) in H1.
    pose proof (cut_opt_app "/" "helm-release" rest eq_refl) as H2.
    change ("helm-release" +:+ String "/" rest) with ("helm-release/" +:+ rest) in H2.
    rewrite H2 in H1. injection H1 as H1 _. unfold keyGroup in H1.
    case_match; to_prop; congruence.
  - unfold removalKey, apiKey.
    assert (E : CutSuffix (CatRemovedAPI +:+ "/" +:+ keyGroup group +:+ "/" +:+ version +:+ "/" +:+ kind)
                  (String "/" unservedKeyPhase) = None); [|by rewrite E].
    destruct (CutSuffix _ _) eqn:E; [|done]. exfalso. apply Hne.
    apply (HasSuffix_no_byte "/" (CatRemovedAPI +:+ "/" +:+ keyGroup group +:+ "/" +:+ version));
      [done|done|].
    rewrite !app_assoc_s. change (String "/" kind) with ("/" +:+ kind). by rewrite E.
Qed.


(** An API a partial capability names as skipped is read back whole:
    [splitAPI] inverts the ["group/version Kind"] form collectors write,
    the core group included. *)
Lemma splitAPI_roundtrip (group version name : string) :
  no_byte " " group -> no_byte " " version -> no_byte "/" version ->
  splitAPI (gvString group version +:+ " " +:+ name) = Some (group, version, name).
Proof.
  intros Hg Hv Hs. unfold splitAPI, gvString. destruct (group =s "") eqn:E; to_prop.
  - subst. change (" " +:+ name) with (String " " name).
    rewrite cut_opt_app by done. by rewrite cut_last_no_byte.
  - change (" " +:+ name) with (String " " name). rewrite cut_opt_app.
    + change ("/" +:+ version) with (String "/" version). by rewrite cut_last_app.
    + apply no_byte_app. split; [done|]. apply (no_byte_app " " "/"). split; [done|]. done.
Qed.

