(* ===== verification/APIUse.v ===== *)
(** * API usage: evalAPIUsage and evalAuthorshipUnknown (internal/engine/engine.go)

    One finding per API in use that the target removes, deprecates, does
    not serve yet, or that the knowledge base does not know. *)

From stdpp Require Import base list strings gmap sorting.
From Stdlib Require Import ZArith Lia Ascii.
From S2P Require Import Prelude GoStr GoTime Version Inventory KB Findings.

(** ** What the listed objects of a row are *)

Inductive objectsListed := storedObjects | manifestObjects | mixedObjects.

Definition listedObjects (src : string) (u : APIUsage) : objectsListed :=
  match u_Objects u with
  | [] => storedObjects
  | o :: _ =>
      if o_Line o =? 0 then storedObjects
      else if (src =s SourceFiles) || (u_Count u <=? zlen (u_Objects u)) then manifestObjects
      else mixedObjects
  end.

Definition emptyNamespace (l : objectsListed) : string :=
  match l with
  | manifestObjects => "no namespace set"
  | mixedObjects => "cluster-scoped or no namespace set"
  | storedObjects => "cluster-scoped"
  end.

(** ** Text *)

Definition writtenBy (u : APIUsage) : string :=
  match objectManagers (u_Objects u) with
  | [] => ""
  | managers =>
      let by_ :=
        if 0 <? u_ObjectsOmitted u
        then " Written by (of " +:+ itoa (wrap64 (zlen (u_Objects u) + u_ObjectsOmitted u)) +:+
             " objects, not all identified): "
        else " Written by: " in
      by_ +:+ Join managers ", " +:+ "."
  end.

Definition withMigration (hint : string) (m : Migration) : string :=
  if hint =s "" then mg_Note m else hint +:+ "; " +:+ mg_Note m.

(** [successorRemedy]. *)
Definition successorRemedy (succ : APILifecycleEntry) (maxKnown : Version) (inList : bool) : string :=
  let out := gvString (e_Group succ) (e_Version succ) +:+ " " +:+ e_Kind succ in
  if negb (PreGA (e_Version succ)) then out else
  let alpha := Contains (e_Version succ) "alpha" in
  let note := if alpha then "alpha; must be enabled" else "beta; may need enabling" in
  let later :=
    match (if alpha then e_Removed succ else None) with
    | None => ""
    | Some r =>
        if 0 <? Compare r maxKnown then
          if inList then "itself removed in the projected " +:+ VString r
          else "itself removed in " +:+ VString r +:+ " (projected)"
        else "itself removed in " +:+ VString r
    end in
  if inList then
    out +:+ " - " +:+ (if later =s "" then note else note +:+ "; " +:+ later)
  else
    let out := out +:+ " (" +:+ note +:+ ")" in
    if later =s "" then out else out +:+ ", " +:+ later.

(** ** evalAPIUsage *)

(** The groups k8s.io/api registers: those of the entries and the listed
    ones. *)
Definition builtinGroups (k : KB) : list string :=
  map e_Group (k_APILifecycle k) ++ map bg_Group (k_BuiltinGroups k).

(** Whether a row is proposed state at a version the target does not serve
    yet. *)
Definition unservedAt (inv : Inventory) (target : Version) (u : APIUsage)
    (e : option APILifecycleEntry) : bool :=
  match e with
  | None => false
  | Some e =>
      (0 <? Compare (e_Introduced e) target) &&
      ((Source inv =s SourceFiles) ||
       match listedObjects (Source inv) u with storedObjects => false | _ => true end)
  end.

(** The remediation and the citations after the deprecation guide. *)
Definition usageRemediation (idx : Index) (maxKnown target : Version) (u : APIUsage)
    (e : APILifecycleEntry) (unserved : bool) : string * list string :=
  let gvk g := gvString (gvk_Group g) (gvk_Version g) +:+ " " +:+ gvk_Kind g in
  if unserved then
    (match ServedAlternative idx e target with
     | Some alt =>
         "write it as " +:+ gvk alt +:+ ", the newest version Kubernetes " +:+ VString target +:+
         " can serve" +:+
         (if PreGA (gvk_Version alt) then " (alpha and beta APIs may need enabling)" else "") +:+
         ", or upgrade the cluster to Kubernetes " +:+ VString (e_Introduced e) +:+ " before applying it"
     | None =>
         "Kubernetes " +:+ VString target +:+ " serves no version of " +:+ u_Kind u +:+
         " as mature as " +:+ u_Version u +:+
         " that the knowledge base knows: upgrade the cluster to Kubernetes " +:+
         VString (e_Introduced e) +:+ " before applying it"
     end, [apiVersioningURL])
  else match ResolveReplacement idx e target with
  | Some r =>
      ("migrate to " +:+ gvk r,
       match Lookup idx (gvk_Group r) (gvk_Version r) (gvk_Kind r) with
       | Some re => if e_ReplacementDefaulted e then [ChangelogURL (e_Introduced re)] else []
       | None => []
       end)
  | None =>
      match LaterReplacement idx e target with
      | Some (later, from) =>
          ("no replacement Kubernetes " +:+ VString target +:+ " serves is known; " +:+ gvk later +:+
           " is served from " +:+ VString from +:+
           (if Serves e target
            then "; " +:+ gvString (u_Group u) (u_Version u) +:+ " is the right version for Kubernetes " +:+
                 VString target +:+ " until then"
            else ""), [])
      | None =>
          match ServedSuccessor idx e target with
          | Some succ => ("migrate to " +:+ successorRemedy succ maxKnown false, [])
          | None =>
              match e_Replacement e with
              | Some _ => ("no replacement Kubernetes " +:+ VString target +:+ " serves is known", [])
              | None => (""%string, [])
              end
          end
      end
  end.

(** Category, severity and title of a row; [None] for a known API neither
    deprecated nor removed. *)
Definition usageVerdict (maxKnown target : Version) (u : APIUsage)
    (known : option APILifecycleEntry) (unserved : bool) : option (string * string * string) :=
  let gv := gvString (u_Group u) (u_Version u) in
  let head := gv +:+ " " +:+ u_Kind u in
  let objects := " (" +:+ pluralObjects (u_Count u) +:+ ")" in
  match known with
  | None => Some (CatUnknownAPI, SevInfo, head +:+ " is not in the knowledge base" +:+ objects)
  | Some e =>
      let projectedRemoval :=
        match e_Removed e with
        | Some r => if 0 <? Compare r maxKnown then " (projected)" else ""
        | None => ""
        end in
      let removedTitle r := head +:+ " removed in " +:+ VString r +:+ projectedRemoval +:+ objects in
      let deprecated :=
        match e_Deprecated e with
        | Some d =>
            Some (CatDeprecatedAPI, SevInfo,
              if 0 <? Compare d target then
                head +:+ " deprecated in " +:+ VString d +:+
                (if 0 <? Compare d maxKnown then " (projected)" else "") +:+
                ", after target " +:+ VString target +:+ objects
              else head +:+ " deprecated since " +:+ VString d +:+ objects)
        | None => None
        end in
      if unserved then
        Some (CatRemovedAPI, SevBlocker,
          head +:+ " is not served until " +:+ VString (e_Introduced e) +:+ ", after target " +:+
          VString target +:+ objects)
      else match e_Removed e with
      | Some r =>
          if Compare r target <=? 0 then Some (CatRemovedAPI, SevBlocker, removedTitle r)
          else if Compare r (Next target) =? 0 then Some (CatRemovedAPI, SevWarning, removedTitle r)
          else deprecated
      | None => deprecated
      end
  end.

(** The detail sentences. *)
Definition usageDetail (maxKnown target : Version) (listed : objectsListed) (u : APIUsage)
    (known : option APILifecycleEntry) (unserved : bool) (category nsDetail : string) : string :=
  let what :=
    match listed with
    | manifestObjects => " manifest object(s) use this API"
    | mixedObjects => " object(s) use this API"
    | storedObjects =>
        match objectManagers (u_Objects u) with
        | [] => " object(s) still stored/served at this version"
        | _ => " object(s) written through this API version"
        end
    end in
  let head := itoa (u_Count u) +:+ what +:+ (if nsDetail =s "" then "." else ": " +:+ nsDetail +:+ ".") in
  let head := head +:+ writtenBy u in
  match known with
  | None =>
      head +:+ " The knowledge base has no lifecycle data for this built-in API: it may have been removed, so check that Kubernetes " +:+
      VString target +:+ " serves it."
  | Some e =>
      let head :=
        if unserved
        then head +:+ " Kubernetes " +:+ VString target +:+ " does not serve it yet (introduced in " +:+
             VString (e_Introduced e) +:+ "), so applying these objects to it fails with " +:+
             quote "no matches for kind" +:+ "."
        else head in
      match e_Removed e with
      | Some r =>
          if (category =s CatRemovedAPI) && (0 <? Compare r maxKnown) && negb unserved
          then head +:+ " The removal in " +:+ VString r +:+
            " is projected: it is a default of k8s.io/api's lifecycle markers, not a shipped release (the newest the knowledge base covers is " +:+
            VString maxKnown +:+ "), and may change before it ships."
          else head
      | None => head
      end
  end.

Definition usageFinding (inv : Inventory) (k : KB) (idx : Index) (teams : gmap string string)
    (target : Version) (u : APIUsage) : option Finding :=
  let known := Lookup idx (u_Group u) (u_Version u) (u_Kind u) in
  if match known with None => negb (mem_str (u_Group u) (builtinGroups k)) | Some _ => false end
  then None else
  let e := default noEntry known in
  let listed := listedObjects (Source inv) u in
  let '(nsDetail, nsNames) := namespaceBreakdown (u_Namespaces u) (emptyNamespace listed) in
  let unserved := unservedAt inv target u known in
  let '(remediation, cites) := usageRemediation idx (k_MaxKnownK8s k) target u e unserved in
  let citations := deprecationGuideURL :: cites in
  let '(remediation, citations) :=
    match (if unserved then None else e_Migration e) with
    | Some m => (withMigration remediation m, appendNew citations (mg_Citations m))
    | None => (remediation, citations)
    end in
  match usageVerdict (k_MaxKnownK8s k) target u known unserved with
  | None => None
  | Some (category, severity, title) =>
      let key := category +:+ "/" +:+ apiKey (u_Group u) (u_Version u) (u_Kind u) in
      Some (mkFinding category severity
              (if unserved then UnservedKey key else key)
              title
              (usageDetail (k_MaxKnownK8s k) target listed u known unserved category nsDetail)
              (teamsFor teams nsNames) nsNames 0 false remediation citations
              (sortedObjects (u_Objects u)) (u_ObjectsOmitted u) "" [])
  end.

Definition evalAPIUsage (inv : Inventory) (k : KB) (target : Version) (b : option budget)
    : list Finding * option budget :=
  let teams := newTeamLookup (Namespaces inv) in
  let idx := NewIndex (k_APILifecycle k) in
  addAll b [] (omap (usageFinding inv k idx teams target) (APIUsages inv)).

(** ** evalAuthorshipUnknown *)

Definition authorshipUnknownKey : string := "authorship-unknown".

Definition authorshipFinding (idx : Index) (teams : gmap string string) (u : APIUsage)
    : option Finding :=
  match Lookup idx (u_Group u) (u_Version u) (u_Kind u) with
  | None => None
  | Some e =>
      match e_Deprecated e, e_Removed e with
      | None, None => None
      | _, _ =>
          let '(nsDetail, nsNames) := namespaceBreakdown (u_Namespaces u) "cluster-scoped" in
          let gv := gvString (u_Group u) (u_Version u) in
          let detail :=
            itoa (u_Count u) +:+
            " object(s) have no managedFields entry to attribute them by (none outside the status subresource and the control plane) and no usable last-applied annotation, which is what creating one with an empty spec leaves, so who writes them, and through which API version, cannot be told. They are stored the same through every served version of " +:+
            u_Kind u +:+ ": not counted as use of " +:+ gv +:+ ", no effect on the verdict or score." in
          Some (mkFinding CatDeprecatedAPI SevInfo
                  (CatDeprecatedAPI +:+ "/" +:+ apiKey (u_Group u) (u_Version u) (u_Kind u) +:+ "/" +:+
                   authorshipUnknownKey)
                  (gv +:+ " " +:+ u_Kind u +:+ ": authorship unknown (" +:+ pluralObjects (u_Count u) +:+ ")")
                  (if nsDetail =s "" then detail else detail +:+ " Namespaces: " +:+ nsDetail +:+ ".")
                  (teamsFor teams nsNames) nsNames 0 false "" [deprecationGuideURL]
                  (sortedObjects (u_Objects u)) (u_ObjectsOmitted u) "" [])
      end
  end.

Definition evalAuthorshipUnknown (inv : Inventory) (k : KB) (b : option budget)
    : list Finding * option budget :=
  let teams := newTeamLookup (Namespaces inv) in
  let idx := NewIndex (k_APILifecycle k) in
  addAll b [] (omap (authorshipFinding idx teams) (APIAuthorshipUnknown inv)).

(** ** What the findings of a row are *)

Section Usage.
Context (inv : Inventory) (k : KB) (idx : Index) (teams : gmap string string) (target : Version).
Context (u : APIUsage).
#[local] Notation known := (Lookup idx (u_Group u) (u_Version u) (u_Kind u)).
#[local] Notation unserved := (unservedAt inv target u known).
#[local] Notation found := (usageFinding inv k idx teams target u).

(** A row of a group outside Kubernetes' own that the knowledge base does
    not know is not judged. *)
Definition foreign : bool :=
  match known with None => negb (mem_str (u_Group u) (builtinGroups k)) | Some _ => false end.

Lemma usageFinding_verdict :
  (fun f => (f_Category f, f_Severity f, f_Title f)) <$> found =
  if foreign then None else usageVerdict (k_MaxKnownK8s k) target u known unserved.
Proof.
  unfold usageFinding, foreign.
  destruct (match known with None => _ | Some _ => _ end); [done|].
  destruct (namespaceBreakdown _ _) as [nsd nsn], (usageRemediation _ _ _ _ _ _) as [rem cites].
  destruct (match (if unserved then None else _) with Some m => _ | None => _ end) as [rem' cit'].
  by destruct (usageVerdict _ _ _ _ _) as [[[cat sev] title]|].
Qed.

Lemma usageFinding_key f :
  found = Some f ->
  let key := f_Category f +:+ "/" +:+ apiKey (u_Group u) (u_Version u) (u_Kind u) in
  f_Key f = (if unserved then UnservedKey key else key) /\
  f_Objects f = sortedObjects (u_Objects u) /\ f_ObjectsOmitted f = u_ObjectsOmitted u /\
  f_Callers f = [].
Proof.
  unfold usageFinding. intros H.
  destruct (match known with None => _ | Some _ => _ end); [discriminate|].
  destruct (namespaceBreakdown _ _) as [nsd nsn], (usageRemediation _ _ _ _ _ _) as [rem cites].
  destruct (match (if unserved then None else _) with Some m => _ | None => _ end) as [rem' cit'].
  destruct (usageVerdict _ _ _ _ _) as [[[cat sev] title]|]; [|discriminate].
  injection H as <-. done.
Qed.

Lemma usageVerdict_blocker cat sev title :
  usageVerdict (k_MaxKnownK8s k) target u known unserved = Some (cat, sev, title) ->
  severity_ok sev /\
  (sev = SevBlocker <-> exists e, known = Some e /\
     (unserved = true \/ exists r, e_Removed e = Some r /\ vle r target)) /\
  (sev = SevBlocker -> cat = CatRemovedAPI).
Proof.
  assert (Hno : forall (s : string) (P : Prop), s <> SevBlocker -> ~ P -> (s = SevBlocker <-> P))
    by (intros s P Hs HP; split; contradiction).
  unfold severity_ok, usageVerdict. destruct known as [e|] eqn:Hk; cycle 1.
  { intros; simplify_eq. split_and!; [by auto| |done]. apply Hno; [discriminate|]. intros (e & He & _). discriminate He. }
  destruct (unservedAt inv target u (Some e)) eqn:Hu.
  { intros; simplify_eq. split_and!; [by auto| |done]. split; [eauto|done]. }
  destruct (e_Removed e) as [r|] eqn:Hr.
  - destruct (Compare r target <=? 0) eqn:Hc; to_prop.
    + rewrite Compare_le in Hc. intros; simplify_eq. split_and!; [by auto| |done].
      split; [|done]. intros _. exists e. split; [done|]. right. eauto.
    + assert (~ vle r target) by (rewrite <- Compare_le; lia).
      assert (~ exists e', Some e = Some e' /\
        (false = true \/ exists r', e_Removed e' = Some r' /\ vle r' target)).
      { intros (e' & He' & [|(r' & Hr' & ?)]); [done|]. congruence. }
      case_match; [|case_match]; intros; simplify_eq;
        (split_and!; [by auto|by apply Hno|discriminate]).
  - case_match; intros; simplify_eq. split_and!; [by auto| |discriminate].
    apply Hno; [discriminate|].
    intros (e' & He' & [|(r' & Hr' & ?)]); [done|]. congruence.
Qed.

Lemma usageFinding_blocked e r :
  known = Some e -> e_Removed e = Some r -> vle r target ->
  exists f, found = Some f /\ f_Severity f = SevBlocker /\ f_Category f = CatRemovedAPI.
Proof.
  intros Hk Hr Hv. pose proof usageFinding_verdict as Hf. unfold foreign in Hf. rewrite Hk in Hf.
  assert (Hs : exists title, usageVerdict (k_MaxKnownK8s k) target u (Some e) (unservedAt inv target u (Some e))
            = Some (CatRemovedAPI, SevBlocker, title)).
  { unfold usageVerdict. case_match; [eauto|]. rewrite Hr. rewrite <- Compare_le, <- Z.leb_le in Hv.
    rewrite Hv. eauto. }
  destruct Hs as [title Hs]. rewrite Hs in Hf. destruct found as [f|]; simplify_eq/=. eauto.
Qed.

(** An API in use is a blocker exactly when the upgrade breaks it: a
    row of the inventory gives a blocker finding iff the knowledge base
    knows its API and the target has removed it, or it is proposed state
    at an API the target does not serve yet. Every finding of a row has
    one of the three severities. *)
Lemma usageFinding_blocker_iff :
  ((exists f, found = Some f /\ f_Severity f = SevBlocker) <->
   exists e, known = Some e /\
     ((exists r, e_Removed e = Some r /\ vle r target) \/
      (vlt target (e_Introduced e) /\
       (Source inv = SourceFiles \/ listedObjects (Source inv) u <> storedObjects)))) /\
  (forall f, found = Some f -> severity_ok (f_Severity f)).
Proof.
  assert (Hun : forall e, known = Some e -> (unserved = true <->
    vlt target (e_Introduced e) /\
    (Source inv = SourceFiles \/ listedObjects (Source inv) u <> storedObjects))).
  { intros e He. unfold unservedAt. rewrite He.
    rewrite andb_true_iff, orb_true_iff, String.eqb_eq, Z.ltb_lt, <- Z.gt_lt_iff, Compare_gt.
    destruct (listedObjects (Source inv) u); naive_solver. }
  pose proof usageFinding_verdict as Hf. split; [split|].
  - intros (f & Hfound & Hsev). rewrite Hfound in Hf. simpl in Hf.
    destruct foreign; [done|]. symmetry in Hf. apply usageVerdict_blocker in Hf as (_ & Hb & _).
    rewrite Hsev in Hb. destruct (proj1 Hb eq_refl) as (e & He & [Hu|Hr]); eauto.
    exists e. split; [done|]. right. by apply Hun.
  - intros (e & He & [(r & Hr & Hv)|Hu]).
    + destruct (usageFinding_blocked e r) as (f & ? & ? & _); eauto.
    + apply (Hun e He) in Hu. unfold foreign in Hf. rewrite He in Hf, Hu. rewrite Hu in Hf.
      simpl in Hf. destruct found as [f|]; simplify_eq/=. eauto.
  - intros f Hfound. rewrite Hfound in Hf. simpl in Hf. destruct foreign; [done|].
    symmetry in Hf. by apply usageVerdict_blocker in Hf as (? & _).
Qed.
End Usage.

(** The findings of a check without a budget. *)
Lemma evalAPIUsage_None inv k target :
  evalAPIUsage inv k target None =
  (map capNamespaces (omap (usageFinding inv k (NewIndex (k_APILifecycle k))
     (newTeamLookup (Namespaces inv)) target) (APIUsages inv)), None).
Proof. unfold evalAPIUsage. by rewrite addAll_None. Qed.

(** Authorship-unknown findings never change verdict or score. *)
Lemma authorshipFinding_info idx teams u f :
  authorshipFinding idx teams u = Some f -> f_Severity f = SevInfo.
Proof.
  unfold authorshipFinding. destruct (Lookup _ _ _ _) as [e|]; [|done].
  destruct (e_Deprecated e), (e_Removed e); try done;
    destruct (namespaceBreakdown _ _); intros; simplify_eq; done.
Qed.
