(* ===== verification/Calls.v ===== *)
(** * Deprecated-API callers: evalDeprecatedCalls, otherCallers and
    foldDeprecatedCalls (internal/engine/engine.go)

    The rows of apiserver_requested_deprecated_apis: each is a finding of
    its own, or evidence folded into the usage finding of its API. *)

From stdpp Require Import base list strings gmap sorting.
From Stdlib Require Import ZArith Lia Ascii.
From S2P Require Import Prelude GoStr GoTime Version Inventory KB Findings APIUse.

(** ** Removals by REST resource *)

(** [resourceKey]: the parts joined by NUL bytes. *)
Definition resourceKey (group version resource : string) : string :=
  group +:+ String "000" (version +:+ String "000" resource).

(** [if !hasKey(m, key) { m[key] = v }] *)
Definition insertNew {V} (v : V) (m : gmap string V) (key : string) : gmap string V :=
  match m !! key with Some _ => m | None => <[key := v]> m end.

Definition kbRemovals (k : KB) : gmap string Version :=
  foldl (fun m e =>
    match e_Removed e with
    | None => m
    | Some r =>
        if e_Kind e =s "" then m else
        let '(lower, plural) := resourceNames (e_Kind e) in
        foldl (insertNew r) m [resourceKey (e_Group e) (e_Version e) lower;
                               resourceKey (e_Group e) (e_Version e) plural]
    end) ∅ (k_APILifecycle k).

(** ** otherCallers *)

Definition ownCall (self : list string) (c : DeprecatedCall) : bool :=
  (d_Subresource c =s "") &&
  mem_str (gvString (d_Group c) (d_Version c) +:+ " " +:+ d_Resource c) self.

Definition otherCallers (inv : Inventory) : list DeprecatedCall :=
  let self := cs_Skipped (capability inv CapDeprecatedCalls) in
  match self with
  | [] => DeprecatedCalls inv
  | _ => filter (fun c => ownCall self c = false) (DeprecatedCalls inv)
  end.

(** ** evalDeprecatedCalls *)

Definition requested (c : DeprecatedCall) : string :=
  if d_Subresource c =s "" then d_Resource c else d_Resource c +:+ "/" +:+ d_Subresource c.

Definition metric : string :=
  "apiserver_requested_deprecated_apis records requests to this API since the last apiserver restart; ".
Definition anonymous : string :=
  " The metric does not identify the client; apiserver audit logs do.".

(** The removal a row is judged by, with the sentence that states it: the
    knowledge base's when it has one, else the metric's own label. *)
Definition callRemoval (removals : gmap string Version) (c : DeprecatedCall)
    : option (Version * string) :=
  let label := if d_RemovedRelease c =s "" then None else to_option (ParseVersion (d_RemovedRelease c)) in
  match removals !! resourceKey (d_Group c) (d_Version c) (d_Resource c), label with
  | Some removed, Some label =>
      if Compare label removed =? 0
      then Some (removed, "it is removed in " +:+ VString removed +:+ ".")
      else Some (removed, "it is removed in " +:+ VString removed +:+
             " per the knowledge base; the apiserver reports " +:+ VString label +:+ ".")
  | Some removed, None =>
      if d_RemovedRelease c =s ""
      then Some (removed, "it is removed in " +:+ VString removed +:+
             " per the knowledge base; the apiserver records no removal release.")
      else Some (removed, "it is removed in " +:+ VString removed +:+
             " per the knowledge base; the apiserver's removal release " +:+
             quote (d_RemovedRelease c) +:+ " could not be parsed.")
  | None, Some label => Some (label, "it is removed in " +:+ VString label +:+ ".")
  | None, None => None
  end.

Definition callSeverity (target : Version) (removed : option Version) : string :=
  match removed with
  | None => SevInfo
  | Some r =>
      if Compare r target <=? 0 then SevBlocker
      else if Compare r (Next target) =? 0 then SevWarning
      else SevInfo
  end.

Definition callFinding (removals : gmap string Version) (target : Version) (c : DeprecatedCall)
    : Finding :=
  let res := requested c in
  let gv := gvString (d_Group c) (d_Version c) in
  let key := CatDeprecatedAPIInUse +:+ "/" +:+ keyGroup (d_Group c) +:+ "/" +:+ d_Version c +:+ "/" +:+ res in
  match callRemoval removals c with
  | None =>
      newFinding CatDeprecatedAPIInUse (callSeverity target None) key
        ("clients still requesting " +:+ gv +:+ " " +:+ res +:+ " (deprecated)")
        (if d_RemovedRelease c =s ""
         then metric +:+ "no removal release is recorded." +:+ anonymous
         else metric +:+ "removal release " +:+ quote (d_RemovedRelease c) +:+
              " could not be parsed." +:+ anonymous)
        [deprecationGuideURL]
  | Some (removed, when_) =>
      newFinding CatDeprecatedAPIInUse (callSeverity target (Some removed)) key
        ("clients still requesting " +:+ gv +:+ " " +:+ res +:+ " (removed in " +:+ VString removed +:+ ")")
        (metric +:+ when_ +:+ anonymous)
        [deprecationGuideURL]
  end.

Definition evalDeprecatedCalls (inv : Inventory) (k : KB) (target : Version) (b : option budget)
    : list Finding * option budget :=
  let removals := kbRemovals k in
  addAll b [] (map (callFinding removals target) (DeprecatedCalls inv)).

(** ** foldDeprecatedCalls *)

(** [byAPI]: apiKey to the last usage finding of that API. *)
Definition indexByAPI (usage : list Finding) : gmap string nat :=
  foldl (fun m p => <[keyAPI (f_Key p.2) := p.1]> m) ∅ (imap pair usage).

(** [byResource]: resourceKey to the first usage row whose kind has it. *)
Definition indexByResource (us : list APIUsage) : gmap string nat :=
  foldl (fun m p =>
    let '(i, u) := p in
    if u_Kind u =s "" then m else
    let '(lower, plural) := resourceNames (u_Kind u) in
    foldl (insertNew i) m [resourceKey (u_Group u) (u_Version u) lower;
                           resourceKey (u_Group u) (u_Version u) plural]) ∅ (imap pair us).

(** The usage finding a row belongs to, if its API has one. *)
Definition usageOf (us : list APIUsage) (byAPI byResource : gmap string nat) (c : DeprecatedCall)
    : option nat :=
  match byResource !! resourceKey (d_Group c) (d_Version c) (d_Resource c) with
  | None => None
  | Some ui =>
      match us !! ui with
      | None => None
      | Some u => byAPI !! apiKey (u_Group u) (u_Version u) (u_Kind u)
      end
  end.

Definition callerOf (c : DeprecatedCall) (f : Finding) : Caller :=
  mkCaller (d_Group c) (d_Version c) (d_Resource c) (d_Subresource c)
    (f_Key f) (f_Severity f) (f_Title f) (f_Detail f).

(** The fold's variables: the usage findings it updates in place, the
    evidence per usage index with its first-row order, and the standalone
    rows. *)
Record foldState := mkFoldState {
  fs_usage : list Finding;
  fs_evidence : gmap nat (list string);
  fs_order : list nat;
  fs_standalone : list Finding;
}.

(** One row; [None] when the charge of a folded row spends the budget, on
    which the function returns nil. *)
Definition foldRow (us : list APIUsage) (byAPI byResource : gmap string nat)
    (st : foldState) (c : DeprecatedCall) (call : Finding) (b : option budget)
    : option foldState * option budget :=
  match usageOf us byAPI byResource c with
  | None => (Some (mkFoldState (fs_usage st) (fs_evidence st) (fs_order st)
                     (fs_standalone st ++ [call])), b)
  | Some j =>
      match fs_usage st !! j with
      | None => (* no such index: byAPI indexes the usage findings *) (Some st, b)
      | Some f =>
          if severityRank (f_Severity call) <? severityRank (f_Severity f) then
            (Some (mkFoldState (fs_usage st) (fs_evidence st) (fs_order st)
                     (fs_standalone st ++ [call])), b)
          else
            let ev := default [] (fs_evidence st !! j) in
            let '(res, order) :=
              match ev with
              | [] => (gvString (d_Group c) (d_Version c) +:+ " " +:+ requested c, fs_order st ++ [j])
              | _ => (requested c, fs_order st)
              end in
            let st' := mkFoldState
              (<[j := set_Callers (f_Callers f ++ [callerOf c call]) f]> (fs_usage st))
              (<[j := ev ++ [res]]> (fs_evidence st)) order (fs_standalone st) in
            let '(ok, b) := charge (slen (d_Group c) + slen (d_Version c) + slen (d_Resource c) +
                                    slen (d_Subresource c)) b in
            (if ok then Some st' else None, b)
      end
  end.

Fixpoint foldRows (us : list APIUsage) (byAPI byResource : gmap string nat)
    (st : foldState) (rows : list (DeprecatedCall * Finding)) (b : option budget)
    : option foldState * option budget :=
  match rows with
  | [] => (Some st, b)
  | (c, call) :: rows' =>
      match foldRow us byAPI byResource st c call b with
      | (Some st', b) => foldRows us byAPI byResource st' rows' b
      | (None, b) => (None, b)
      end
  end.

Definition evidenceSentence (ev : list string) : string :=
  " apiserver_requested_deprecated_apis also records requests to " +:+ Join ev ", " +:+
  " since the last apiserver restart; the metric does not identify the client.".

(** The second loop: the sentence of each finding with evidence. *)
Fixpoint foldDetails (evidence : gmap nat (list string)) (usage : list Finding) (order : list nat)
    (b : option budget) : option (list Finding) * option budget :=
  match order with
  | [] => (Some usage, b)
  | j :: order' =>
      let more := evidenceSentence (default [] (evidence !! j)) in
      let usage := alter (fun f => set_Detail (f_Detail f +:+ more) f) j usage in
      let '(ok, b) := charge (slen more) b in
      if ok then foldDetails evidence usage order' b else (None, b)
  end.

Definition foldDeprecatedCalls (inv : Inventory) (usage calls : list Finding) (b : option budget)
    : list Finding * option budget :=
  let byAPI := indexByAPI usage in
  let byResource := indexByResource (APIUsages inv) in
  match foldRows (APIUsages inv) byAPI byResource (mkFoldState usage ∅ [] [])
          (zip (DeprecatedCalls inv) calls) b with
  | (None, b) => ([], b)
  | (Some st, b) =>
      match foldDetails (fs_evidence st) (fs_usage st) (fs_order st) b with
      | (None, b) => ([], b)
      | (Some usage, b) => (usage ++ fs_standalone st, b)
      end
  end.

(** ** The indexes are first-match searches *)

Section InsertNew.
Context {X V : Type} (keys : X -> list string) (val : X -> V).

Definition indexFirst (m : gmap string V) (l : list X) : gmap string V :=
  foldl (fun m x => foldl (insertNew (val x)) m (keys x)) m l.

Lemma insertNew_keys (v : V) (ks : list string) (m : gmap string V) key :
  foldl (insertNew v) m ks !! key =
  match m !! key with Some w => Some w | None => if mem_str key ks then Some v else None end.
Proof using.
  clear keys val. revert m. induction ks as [|k ks IH]; intros m; cbn [foldl]; [by destruct (m !! key)|].
  rewrite IH. unfold insertNew. unfold mem_str. cbn [existsb].
  destruct (m !! k) eqn:Ek; [|rewrite lookup_insert; case_decide as Hk].
  - destruct (key =s k) eqn:E; to_prop; [subst; by rewrite Ek|]. done.
  - subst. by rewrite Ek, String.eqb_refl.
  - destruct (key =s k) eqn:E; to_prop; [congruence|]. done.
Qed.

Lemma indexFirst_lookup l m key :
  indexFirst m l !! key =
  match m !! key with
  | Some w => Some w
  | None => val <$> find (fun x => mem_str key (keys x)) l
  end.
Proof using.
  unfold indexFirst. revert m. induction l as [|x l IH]; intros m; cbn [find foldl];
    [by destruct (m !! key)|].
  rewrite IH, insertNew_keys.
  destruct (m !! key); [done|]. by destruct (mem_str key (keys x)).
Qed.
End InsertNew.

(** A name without NUL bytes, as every API group and version is. *)
Definition nul_free (s : string) : Prop := no_byte "000" s.

Lemma resourceKey_inj g v r g' v' r' :
  nul_free g -> nul_free v -> nul_free g' -> nul_free v' ->
  resourceKey g v r = resourceKey g' v' r' -> g = g' /\ v = v' /\ r = r'.
Proof.
  unfold resourceKey. intros Hg Hv Hg' Hv' E.
  pose proof (cut_opt_app "000" g (v +:+ String "000" r) Hg) as H.
  rewrite E, cut_opt_app in H by done. injection H as <- H.
  pose proof (cut_opt_app "000" v r Hv) as H2.
  rewrite <- H, cut_opt_app in H2 by done. by injection H2 as <- <-.
Qed.

(** The REST resources of a kind, as resource keys; none for no kind. *)
Definition kindKeys (group version kind : string) : list string :=
  if kind =s "" then [] else
  [resourceKey group version (resourceNames kind).1; resourceKey group version (resourceNames kind).2].

Lemma kindKeys_spec g v kind g' v' r :
  nul_free g -> nul_free v -> nul_free g' -> nul_free v' ->
  mem_str (resourceKey g' v' r) (kindKeys g v kind) =
  (g =s g') && (v =s v') && kindMatchesResource kind r.
Proof.
  intros Hg Hv Hg' Hv'. apply eq_true_iff_eq.
  rewrite mem_str_spec, !andb_true_iff, !String.eqb_eq.
  unfold kindKeys, kindMatchesResource. destruct (kind =s "");
    [split; [by intros ?%elem_of_nil|naive_solver]|].
  destruct (resourceNames kind) as [lo pl]. simpl.
  rewrite orb_true_iff, !String.eqb_eq, elem_of_cons, list_elem_of_singleton. split.
  - intros [E|E]; apply resourceKey_inj in E as (-> & -> & ->); auto.
  - intros ([-> ->] & [->| ->]); auto.
Qed.

Lemma kbRemovals_eq k :
  kbRemovals k =
  indexFirst (fun e => match e_Removed e with
                       | None => [] | Some _ => kindKeys (e_Group e) (e_Version e) (e_Kind e) end)
    (fun e => default (mkVersion 0 0) (e_Removed e)) ∅ (k_APILifecycle k).
Proof.
  unfold kbRemovals, indexFirst. generalize (∅ : gmap string Version) as m.
  induction (k_APILifecycle k) as [|e l IH]; intros m; [done|]. cbn [foldl]. rewrite IH. f_equal.
  destruct (e_Removed e) as [r|]; [|done]. unfold kindKeys. case_match; [done|].
  by destruct (resourceNames (e_Kind e)).
Qed.

Lemma kbRemovals_removalOf k g v r :
  (forall e, e ∈ k_APILifecycle k -> nul_free (e_Group e) /\ nul_free (e_Version e)) ->
  nul_free g -> nul_free v ->
  kbRemovals k !! resourceKey g v r = removalOf (k_APILifecycle k) g v r.
Proof.
  intros Hk Hg Hv. rewrite kbRemovals_eq, indexFirst_lookup, lookup_empty.
  induction (k_APILifecycle k) as [|e l IH]; [done|]. cbn [find removalOf].
  destruct (Hk e) as [He1 He2]; [set_solver|].
  rewrite <- IH by (intros; apply Hk; set_solver).
  destruct (e_Removed e) as [rm|] eqn:Hr; [|done].
  rewrite kindKeys_spec by done. case_match; [simpl; by rewrite Hr|done].
Qed.

Definition slash_free (s : string) : Prop := no_byte "/" s.

Lemma RemovalOfCall_key k removals target c :
  slash_free (d_Group c) -> slash_free (d_Version c) -> slash_free (d_Resource c) ->
  d_Group c <> "core"%string ->
  RemovalOfCall k (f_Key (callFinding removals target c)) =
  removalOf (k_APILifecycle k) (d_Group c) (d_Version c) (d_Resource c).
Proof.
  intros Hg Hv Hr Hcore.
  assert (Hkg : slash_free (keyGroup (d_Group c))) by (unfold keyGroup; by case_match).
  assert (Hkey : f_Key (callFinding removals target c) =
    CatDeprecatedAPIInUse +:+ String "/" (keyGroup (d_Group c) +:+ String "/"
      (d_Version c +:+ String "/" (requested c)))).
  { unfold callFinding. by repeat case_match. }
  assert (Hres : exists rest, SplitN (requested c) "/" 2 = d_Resource c :: rest).
  { unfold requested. destruct (d_Subresource c =s "").
    - cbn [SplitN]. rewrite (Hr : cut_opt _ _ = None). eauto.
    - change ("/" +:+ d_Subresource c) with (String "/" (d_Subresource c)).
      cbn [SplitN]. rewrite cut_opt_app by done. eauto. }
  destruct Hres as [rest Hres]. unfold RemovalOfCall, Cut. rewrite Hkey, cut_opt_app by done.
  change (SplitN ?s "/" 4) with
    (match cut_opt s "/" with Some (b, a) => b :: SplitN a "/" 3 | None => [s] end).
  rewrite cut_opt_app by done.
  change (SplitN ?s "/" 3) with
    (match cut_opt s "/" with Some (b, a) => b :: SplitN a "/" 2 | None => [s] end).
  rewrite cut_opt_app, Hres by done. simpl negb.
  f_equal. unfold keyGroup. destruct (d_Group c =s "") eqn:E; to_prop; [by rewrite E|].
  by destruct (d_Group c =s "core") eqn:E2; to_prop.
Qed.

(** The two ways to find the removal of a requested API agree: the
    removal [evalDeprecatedCalls] judges a row by, from the index
    [kbRemovals] builds, is the one [RemovalOfCall] recovers from the key
    of the row's finding, the first lifecycle entry with that group,
    version and REST resource. *)
Lemma kbRemovals_RemovalOfCall (k : KB) (removals : gmap string Version) (target : Version)
    (c : DeprecatedCall) :
  (forall e, e ∈ k_APILifecycle k -> nul_free (e_Group e) /\ nul_free (e_Version e)) ->
  nul_free (d_Group c) -> nul_free (d_Version c) ->
  slash_free (d_Group c) -> slash_free (d_Version c) -> slash_free (d_Resource c) ->
  d_Group c <> "core"%string ->
  kbRemovals k !! resourceKey (d_Group c) (d_Version c) (d_Resource c) =
  RemovalOfCall k (f_Key (callFinding removals target c)).
Proof.
  intros. rewrite RemovalOfCall_key by done. by apply kbRemovals_removalOf.
Qed.

(** Requests to the Ingress API removed in 1.22. *)
Definition ingressEntry : APILifecycleEntry :=
  mkEntry "extensions" "v1beta1" "Ingress" (mkVersion 1 1) (Some (mkVersion 1 14))
    (Some (mkVersion 1 22)) None false false None.
Definition ingressKB : KB :=
  mkKB "test" [ingressEntry] [] [] [] DefaultSkewPolicy (mkVersion 1 33) [] [].
Definition ingressCall : DeprecatedCall :=
  mkDeprecatedCall "extensions" "v1beta1" "ingresses" "status" "1.22".
Definition ingressFinding : Finding :=
  callFinding (kbRemovals ingressKB) (mkVersion 1 22) ingressCall.

Lemma kbRemovals_RemovalOfCall_witness :
  RemovalOfCall ingressKB (f_Key ingressFinding) = Some (mkVersion 1 22).
Proof.
  unfold ingressFinding. rewrite <- (kbRemovals_RemovalOfCall ingressKB (kbRemovals ingressKB) (mkVersion 1 22) ingressCall);
    [vm_compute; reflexivity| |by vm_compute..].
  intros e He. apply list_elem_of_singleton in He as ->. by vm_compute.
Defined.

(** The row a call belongs to: the first usage row of its group and version
    whose kind has the requested resource. *)
Lemma indexByResource_first us g v r :
  (forall u, u ∈ us -> nul_free (u_Group u) /\ nul_free (u_Version u)) -> nul_free g -> nul_free v ->
  indexByResource us !! resourceKey g v r =
  fst <$> find (fun p => (u_Group p.2 =s g) && (u_Version p.2 =s v) &&
                         kindMatchesResource (u_Kind p.2) r) (imap pair us).
Proof.
  intros Hus Hg Hv.
  assert (E : indexByResource us = indexFirst
    (fun p : nat * APIUsage => kindKeys (u_Group p.2) (u_Version p.2) (u_Kind p.2)) fst ∅ (imap pair us)).
  { unfold indexByResource, indexFirst. generalize (∅ : gmap string nat) as m.
    induction (imap pair us) as [|[i u] l IH]; intros m; [done|]. cbn [foldl]. rewrite IH. f_equal.
    unfold kindKeys. simpl. case_match; [done|]. by destruct (resourceNames (u_Kind u)). }
  rewrite E, indexFirst_lookup, lookup_empty. f_equal. clear E.
  assert (Hl : forall p, p ∈ imap pair us -> p.2 ∈ us).
  { intros p Hp. apply list_elem_of_lookup in Hp as [i Hp]. apply list_lookup_imap_Some in Hp as (u & Hu & ->).
    by eapply list_elem_of_lookup_2. }
  induction (imap pair us) as [|p l IH]; [done|]. cbn [find].
  destruct (Hus p.2) as [H1 H2]; [apply Hl; set_solver|].
  rewrite kindKeys_spec, IH by (done || (intros; apply Hl; set_solver)). done.
Qed.

(** ** What folding keeps *)

(** Everything of a finding but its detail and callers. *)
Definition same_core (f f' : Finding) : Prop :=
  f_Category f = f_Category f' /\ f_Severity f = f_Severity f' /\ f_Key f = f_Key f' /\
  f_Title f = f_Title f' /\ f_Teams f = f_Teams f' /\ f_Namespaces f = f_Namespaces f' /\
  f_NamespacesOmitted f = f_NamespacesOmitted f' /\ f_Unnamespaced f = f_Unnamespaced f' /\
  f_Remediation f = f_Remediation f' /\ f_Citations f = f_Citations f' /\
  f_Objects f = f_Objects f' /\ f_ObjectsOmitted f = f_ObjectsOmitted f' /\
  f_BaselineState f = f_BaselineState f'.

#[global] Instance same_core_equiv : Equivalence same_core.
Proof.
  unfold same_core. split.
  - intros f. done.
  - intros f g H. destruct_and! H. split_and!; congruence.
  - intros f g h H1 H2. destruct_and! H1. destruct_and! H2. split_and!; congruence.
Qed.

Lemma Forall2_same_core_insert us us' j f f' :
  Forall2 same_core us us' -> us' !! j = Some f -> same_core f f' ->
  Forall2 same_core us (<[j := f']> us').
Proof.
  intros HF Hj Hs. apply Forall2_lookup. intros i.
  pose proof (proj1 (Forall2_lookup _ _ _) HF i) as Hi.
  destruct (decide (i = j)) as [->|Hne].
  - rewrite list_lookup_insert_eq by by eapply lookup_lt_Some. rewrite Hj in Hi.
    inversion Hi; subst. constructor. by etrans.
  - by rewrite list_lookup_insert_ne.
Qed.

Lemma indexByAPI_lt usage key j : indexByAPI usage !! key = Some j -> (j < length usage)%nat.
Proof.
  unfold indexByAPI.
  assert (Hl : forall p, p ∈ imap pair usage -> (p.1 < length usage)%nat).
  { intros p Hp. apply list_elem_of_lookup in Hp as [i Hp].
    apply list_lookup_imap_Some in Hp as (f & Hf & ->). by apply lookup_lt_Some in Hf. }
  assert (Hm : forall key j, (∅ : gmap string nat) !! key = Some j -> (j < length usage)%nat) by done.
  revert Hm. generalize (∅ : gmap string nat). revert key j.
  induction (imap pair usage) as [|p l IH]; intros key j m Hm; [apply Hm|]. cbn [foldl].
  apply IH; [intros; apply Hl; set_solver|].
  intros key' j'. rewrite lookup_insert. case_decide; [|apply Hm].
  intros [= <-]. apply Hl. set_solver.
Qed.

Lemma usageOf_lt us usage byRes c j :
  usageOf us (indexByAPI usage) byRes c = Some j -> (j < length usage)%nat.
Proof.
  unfold usageOf. destruct (byRes !! _) as [ui|]; [|done]. destruct (us !! ui) as [u|]; [|done].
  apply indexByAPI_lt.
Qed.

(** A row is accounted for: it stands on its own, or it is a caller of a
    usage finding at least as severe. *)
Definition accounted (usage standalone : list Finding) (row : DeprecatedCall * Finding) : Prop :=
  row.2 ∈ standalone \/
  exists f, f ∈ usage /\ callerOf row.1 row.2 ∈ f_Callers f /\
    severityRank (f_Severity f) <= severityRank (f_Severity row.2).

(** The invariant of the first loop over the rows [done_]. *)
Record fold_inv (usage : list Finding) (done_ : list (DeprecatedCall * Finding)) (st : foldState)
    : Prop := {
  inv_core : Forall2 same_core usage (fs_usage st);
  inv_rows row : row ∈ done_ -> accounted (fs_usage st) (fs_standalone st) row;
  inv_standalone f : f ∈ fs_standalone st -> f ∈ map snd done_;
}.

Lemma foldRow_inv us usage byRes done_ st c call b st' b' :
  fold_inv usage done_ st ->
  foldRow us (indexByAPI usage) byRes st c call b = (Some st', b') ->
  fold_inv usage (done_ ++ [(c, call)]) st'.
Proof.
  intros [Hc Hr Hs] Hrow. unfold foldRow in Hrow.
  assert (Hstand : fold_inv usage (done_ ++ [(c, call)])
    (mkFoldState (fs_usage st) (fs_evidence st) (fs_order st) (fs_standalone st ++ [call]))).
  { split; simpl; [done| |].
    - intros row [Hin| ->%list_elem_of_singleton]%elem_of_app.
      + destruct (Hr row Hin) as [?|?]; [left|right]; set_solver.
      + left. set_solver.
    - intros f. rewrite map_app. set_solver. }
  destruct (usageOf _ _ _ _) as [j|] eqn:Hj; [|by injection Hrow as <- <-].
  assert (Hlt : (j < length (fs_usage st))%nat).
  { rewrite <- (Forall2_length _ _ _ Hc). by eapply usageOf_lt. }
  destruct (fs_usage st !! j) as [f|] eqn:Hf; [|by apply lookup_ge_None in Hf; lia].
  destruct (Z.ltb_spec (severityRank (f_Severity call)) (severityRank (f_Severity f)))
    as [|Hsev]; [by injection Hrow as <- <-|].
  cbv zeta in Hrow. revert Hrow.
  destruct (match default [] _ with [] => _ | _ => _ end) as [res order].
  destruct (charge _ b) as [ok b1]. destruct ok; [|done]. intros [= <- <-].
  set (f' := set_Callers (f_Callers f ++ [callerOf c call]) f).
  assert (Hin' : f' ∈ <[j := f']> (fs_usage st)).
  { eapply list_elem_of_lookup_2. by apply list_lookup_insert_eq. }
  split; simpl.
  - by eapply Forall2_same_core_insert.
  - intros row [Hin| ->%list_elem_of_singleton]%elem_of_app.
    + destruct (Hr row Hin) as [?|(g & Hg & Hcall & Hrank)]; [by left|]. right.
      apply list_elem_of_lookup in Hg as [i Hg]. destruct (decide (i = j)) as [->|Hne].
      * assert (g = f) as -> by congruence. exists f'. split_and!; [done| |done].
        simpl. set_solver.
      * exists g. split_and!; [|done|done]. eapply list_elem_of_lookup_2.
        by rewrite list_lookup_insert_ne.
    + right. exists f'. split_and!; [done|simpl; set_solver|done].
  - intros g Hg. rewrite map_app. set_solver.
Qed.

Lemma foldRows_inv us usage byRes rows done_ st b st' b' :
  fold_inv usage done_ st ->
  foldRows us (indexByAPI usage) byRes st rows b = (Some st', b') ->
  fold_inv usage (done_ ++ rows) st'.
Proof.
  revert done_ st b. induction rows as [|[c call] rows IH]; intros done_ st b Hi; simpl.
  - intros; simplify_eq. by rewrite app_nil_r.
  - destruct (foldRow _ _ _ _ _ _ _) as [[st1|] b1] eqn:E; [|done].
    intros H. rewrite (cons_middle (c, call)), app_assoc. eapply IH; [|exact H]. by eapply foldRow_inv.
Qed.

(** Detail sentences change no other field. *)
Lemma foldDetails_core ev usage order b usage' b' :
  foldDetails ev usage order b = (Some usage', b') ->
  Forall2 (fun f f' => same_core f f' /\ f_Callers f = f_Callers f') usage usage'.
Proof.
  revert usage b. induction order as [|j order IH]; intros usage b; simpl.
  - intros; simplify_eq. apply Forall_Forall2_diag, Forall_true. done.
  - destruct (charge _ b) as [[] b1]; [|done]. intros H%IH.
    set (g := fun f => set_Detail _ f) in *.
    apply Forall2_lookup. intros i. pose proof (proj1 (Forall2_lookup _ _ _) H i) as Hi.
    destruct (decide (i = j)) as [->|Hne].
    + rewrite list_lookup_alter_eq in Hi. destruct (usage !! j); inversion Hi; subst; constructor.
      done.
    + by rewrite list_lookup_alter_ne in Hi.
Qed.

Lemma fold_conserves (inv : Inventory) (usage calls : list Finding)
    (b : option budget) :
  exceeded (foldDeprecatedCalls inv usage calls b).2 = false ->
  exists usage' standalone,
    (foldDeprecatedCalls inv usage calls b).1 = usage' ++ standalone /\
    Forall2 same_core usage usage' /\
    (forall f, f ∈ standalone -> f ∈ calls) /\
    (forall c call, (c, call) ∈ zip (DeprecatedCalls inv) calls ->
       call ∈ standalone \/
       exists f, f ∈ usage' /\ callerOf c call ∈ f_Callers f /\
         severityRank (f_Severity f) <= severityRank (f_Severity call)).
Proof.
  intros Hb. unfold foldDeprecatedCalls in *.
  destruct (foldRows _ _ _ _ _ _) as [[st|] b1] eqn:Hrows.
  - apply (foldRows_inv _ _ _ _ []) in Hrows as [Hc Hr Hs]; cycle 1.
    { split; simpl; [apply Forall_Forall2_diag, Forall_true; done| |]; by intros ? ?%elem_of_nil. }
    destruct (foldDetails _ _ _ _) as [[usage'|] b2] eqn:Hd.
    + apply foldDetails_core in Hd. exists usage', (fs_standalone st). split_and!; [done| | |].
      * transitivity (fs_usage st); [exact Hc|]. eapply Forall2_impl; [exact Hd|by intros ? ? []].
      * intros f Hf. apply Hs in Hf. simpl in Hf. apply list_elem_of_In, in_map_iff in Hf as ([c f'] & <- & Hin).
        apply in_combine_r in Hin. by apply list_elem_of_In.
      * intros c call Hin. destruct (Hr _ Hin) as [|(f & Hf & Hcall & Hrank)]; [by left|right].
        apply list_elem_of_lookup in Hf as [i Hf].
        destruct (Forall2_lookup_l _ _ _ _ _ Hd Hf) as (f' & Hf' & Hsc & Hcs).
        exists f'. split_and!; [by eapply list_elem_of_lookup_2|by rewrite <- Hcs|].
        destruct Hsc as (_ & <- & _). done.
    + exfalso. simpl in Hb. clear -Hd Hb. revert Hd. generalize (fs_usage st) b1.
      induction (fs_order st) as [|j order IH]; intros usage0 b0; simpl; [done|].
      pose proof (charge_ok (slen (evidenceSentence (default [] (fs_evidence st !! j)))) b0) as Hok.
      destruct (charge _ b0) as [[] b'] eqn:E; [apply IH|]. intros; simplify_eq/=. by rewrite Hb in Hok.
  - exfalso. simpl in Hb. clear -Hrows Hb. revert Hrows. generalize (mkFoldState usage ∅ [] []) b.
    induction (zip (DeprecatedCalls inv) calls) as [|[c call] rows IH]; intros st b0; simpl; [done|].
    destruct (foldRow _ _ _ _ _ _ _) as [[st1|] b'] eqn:E; [apply IH|].
    intros; simplify_eq. unfold foldRow in E. repeat case_match; simplify_eq;
      match goal with H : charge ?n ?b = (false, _) |- _ =>
        pose proof (charge_ok n b) as Hok; rewrite H in Hok; simpl in Hok; by rewrite Hb in Hok end.
Qed.

(** C19 Folding caller rows into usage findings loses nothing: within the
    budget the result is the usage findings, unchanged but for details and
    callers, followed by standalone rows; and every row is there, either
    standing on its own or as a caller of a usage finding at least as
    severe as the row's own finding would be. *)
Theorem foldDeprecatedCalls_conserves (inv : Inventory) (usage calls : list Finding)
    (b : option budget) :
  exceeded (foldDeprecatedCalls inv usage calls b).2 = false ->
  exists usage' standalone,
    (foldDeprecatedCalls inv usage calls b).1 = usage' ++ standalone /\
    Forall2 same_core usage usage' /\
    (forall f, f ∈ standalone -> f ∈ calls) /\
    (forall c call, (c, call) ∈ zip (DeprecatedCalls inv) calls ->
       call ∈ standalone \/
       exists f, f ∈ usage' /\ callerOf c call ∈ f_Callers f /\
         severityRank (f_Severity f) <= severityRank (f_Severity call)).
Proof. apply fold_conserves. Qed.

(** An inventory that uses the Ingress API it is also asked for. *)
Definition ingressInventory : Inventory :=
  mkInventory 1 "c" 1 SourceCluster 0 "v1.21.0" "" ∅
    [mkAPIUsage "extensions" "v1beta1" "Ingress" 1 ∅ [] 0] [ingressCall] [] [] [] [] [] [] [] 0 [] []
    0 0 [].
Definition ingressUsage : list Finding :=
  (evalAPIUsage ingressInventory ingressKB (mkVersion 1 22) None).1.

Lemma foldDeprecatedCalls_conserves_witness :
  length (foldDeprecatedCalls ingressInventory ingressUsage [ingressFinding] None).1 = 1%nat /\
  exists usage' standalone,
    (foldDeprecatedCalls ingressInventory ingressUsage [ingressFinding] None).1 = usage' ++ standalone /\
    Forall2 same_core ingressUsage usage'.
Proof.
  split; [vm_compute; reflexivity|].
  destruct (foldDeprecatedCalls_conserves ingressInventory ingressUsage [ingressFinding] None)
    as (u & s & H1 & H2 & _); [vm_compute; reflexivity|].
  exists u, s. exact (conj H1 H2).
Defined.
