(* ===== verification/AddOns.v ===== *)
(** * Add-ons and container runtimes (internal/engine/engine.go, runtimes.go)

    Every detected add-on, and every node's container runtime, is judged
    against the registry: end of life of the product and of its release
    line, and compatibility of the installed version with the target. *)

From stdpp Require Import base list strings gmap sorting.
From Stdlib Require Import ZArith Lia Ascii.
From S2P Require Import Prelude GoStr GoTime Version Inventory KB Findings.

(** ** Version numbers of add-ons *)

Fixpoint atoiAll (fs : list string) : option (list Z) :=
  match fs with
  | [] => Some []
  | f :: fs' =>
      match Atoi f with
      | None => None
      | Some n => match atoiAll fs' with Some ns => Some (n :: ns) | None => None end
      end
  end.

(** [versionParts]: "1.31.0-rc.0" is [1; 31; 0]. *)
Definition versionParts (s : string) : option (list Z) :=
  let s := (split_at is_suffix_start s).1 in
  if s =s "" then None else atoiAll (Split s ".").

(** [slices.Compare] on ints. *)
Fixpoint compareInts (a b : list Z) : Z :=
  match a, b with
  | [], [] => 0
  | [], _ => -1
  | _, [] => 1
  | x :: a', y :: b' => if x =? y then compareInts a' b' else cmpZ x y
  end.

Definition versionBefore (a b : string) : bool :=
  match versionParts a, versionParts b with
  | Some pa, Some pb => compareInts pa pb <? 0
  | _, _ => a <s b
  end.

(** ** Release lines *)

(** [slices.Equal(v[:len(p)], p)], with [len(p) <= len(v)]. *)
Fixpoint leads (p v : list Z) : bool :=
  match p, v with
  | [], _ => true
  | x :: p', y :: v' => (x =? y) && leads p' v'
  | _, [] => false
  end.

(** The loop of [cycleFor]: the best cycle so far and its length. *)
Definition moreSpecific (v : list Z) (best : option Cycle * nat) (c : Cycle) : option Cycle * nat :=
  match versionParts (cy_Cycle c) with
  | None => best
  | Some p =>
      if (length v <? length p)%nat || (length p <=? best.2)%nat || negb (leads p v) then best
      else (Some c, length p)
  end.

Definition cycleFor (version : string) (cycles : list Cycle) : option Cycle :=
  match versionParts version with
  | None => None
  | Some v => (foldl (moreSpecific v) (None, O) cycles).1
  end.

Definition cycleEnded (c : Cycle) (now : Time) : bool :=
  match cy_EOL c with
  | None => false
  | Some e =>
      if eol_Date e =s "" then eol_Ended e
      else match ParseDate (eol_Date e) with
           | Some d => negb (After d now)
           | None => false
           end
  end.

(** The loop of [predatesCycles]: the oldest line and its parts. *)
Definition olderLine (oldest : option (Cycle * list Z)) (c : Cycle) : option (Cycle * list Z) :=
  match versionParts (cy_Cycle c) with
  | None => oldest
  | Some p =>
      match oldest with
      | None => Some (c, p)
      | Some (_, o) => if compareInts p o <? 0 then Some (c, p) else oldest
      end
  end.

Definition predatesCycles (version : string) (cycles : list Cycle) (now : Time) : option Cycle :=
  match versionParts version with
  | None => None
  | Some v =>
      match foldl olderLine None cycles with
      | None => None
      | Some (c, o) =>
          if (length v <? length o)%nat || (0 <=? compareInts (take (length o) v) o) then None
          else if negb (cycleEnded c now) then None
          else Some c
      end
  end.

(** The loop of [newestSupportedCycle]: the best parts and their name. *)
Definition newerLine (now : Time) (best : list Z * string) (c : Cycle) : list Z * string :=
  match cy_EOL c with
  | None => best
  | Some e =>
      if eol_Ended e then best
      else if negb (eol_Date e =s "") &&
              match ParseDate (eol_Date e) with None => true | Some d => negb (After d now) end
      then best
      else match versionParts (cy_Cycle c) with
           | Some p => if 0 <? compareInts p best.1 then (p, cy_Cycle c) else best
           | None => best
           end
  end.

Definition newestSupportedCycle (cycles : list Cycle) (now : Time) : string :=
  (foldl (newerLine now) ([], ""%string) cycles).2.

(** ** Installs and subjects *)

Record addOnInstall := mkInstall {
  in_version : string;
  in_via : string;
  in_where : list string;
  in_teams : list string;
}.

Definition noInstall : addOnInstall := mkInstall "" "" [] [].

Record addOnSubject := mkSubject {
  s_version : string;
  s_located : string;
  s_namespaces : list string;
  s_teams : list string;
  s_unnamespaced : bool;
  s_installs : list addOnInstall;
  s_node : bool;
}.

Definition unnamespaced (i : addOnInstall) : bool :=
  match in_where i with [] => true | w => mem_str "" w end.

(** [cmp.Or] on strings. *)
Definition orStr (a b : string) : string := if a =s "" then b else a.

Definition nsLabel (ns : string) : string := orStr ns "no namespace set".

Definition namedNamespaces (ns : list string) : list string :=
  match ns with
  | x :: ns' => if x =s "" then ns' else ns
  | [] => []
  end.

Definition addOnLocatedLimit : Z := 10.

Definition located (names : list string) : string :=
  if zlen names <=? addOnLocatedLimit then Join names ", "
  else Join (take (Z.to_nat addOnLocatedLimit) names) ", " +:+ ", and " +:+
       itoa (zlen names - addOnLocatedLimit) +:+ " more".

(** The oldest known version of a set of installs. *)
Definition olderVersion (v : string) (i : addOnInstall) : string :=
  if negb (in_version i =s "") && ((v =s "") || versionBefore (in_version i) v)
  then in_version i else v.

Definition oldestVersion (ins : list addOnInstall) : string := foldl olderVersion ""%string ins.

(** [newAddOnSubject]. Its callers give at least one install, and a node's
    install has one place: the reads [ins[0]] and [in.where[0]] are in
    range. *)
Definition newAddOnSubject (name : string) (ins : list addOnInstall) (line node : bool) : addOnSubject :=
  let version := oldestVersion ins in
  if node then
    let names := sort_strings (map (fun i =>
      let n := hd "" (in_where i) in
      if line then n else n +:+ " (" +:+ orStr (in_version i) "version unknown" +:+ ")") ins) in
    let loc :=
      if line then "Detected " +:+ name +:+ " version " +:+ version +:+ " on node(s): " +:+ located names +:+ "."
      else "Detected " +:+ name +:+ " on node(s): " +:+ located names +:+ "." in
    mkSubject version loc [] [] false ins true
  else
    let first := hd noInstall ins in
    let same := forallb (fun i => (in_version i =s in_version first) && (in_via i =s in_via first)) ins in
    let parts := flat_map (fun i =>
      map (fun ns => nsLabel ns +:+ " (" +:+ orStr (in_version i) "version unknown" +:+ " via " +:+
                     in_via i +:+ ")")
        (match in_where i with [] => ["cluster-scoped"%string] | w => w end)) ins in
    let namespaces := sortedSet (flat_map in_where ins) in
    let teams := sortedSet (flat_map in_teams ins) in
    let labels := map nsLabel namespaces in
    let loc :=
      if same && match namespaces with [] => true | _ => false end then
        "Detected " +:+ name +:+ " version " +:+ orStr (in_version first) "(unknown)" +:+ " via " +:+
        in_via first +:+ " (cluster-scoped)."
      else if same then
        "Detected " +:+ name +:+ " version " +:+ orStr (in_version first) "(unknown)" +:+ " via " +:+
        in_via first +:+ " in namespace(s): " +:+ located labels +:+ "."
      else "Detected " +:+ name +:+ " in namespace(s): " +:+ located (sort_strings parts) +:+ "." in
    mkSubject version loc (namedNamespaces namespaces) teams (existsb unnamespaced ins) ins false.

Definition belowPrefix : string := "below-".

(** The group of an install: its release line, the installs below every
    line, or "". *)
Definition groupKey (a : AddOn) (now : Time) (i : addOnInstall) : string :=
  match cycleFor (in_version i) (a_Cycles a) with
  | Some c => cy_Cycle c
  | None =>
      match predatesCycles (in_version i) (a_Cycles a) now with
      | Some oldest => belowPrefix +:+ cy_Cycle oldest
      | None => ""
      end
  end.

(** [m[key] = append(m[key], x)] *)
Definition appendAt {V} (m : gmap string (list V)) (key : string) (x : V) : gmap string (list V) :=
  <[key := default [] (m !! key) ++ [x]]> m.

Definition sortedKeys {V} (m : gmap string V) : list string := sort_strings (map fst (map_to_list m)).

Definition byCycle (a : AddOn) (now : Time) (ins : list addOnInstall) : gmap string (list addOnInstall) :=
  foldl (fun m i => appendAt m (groupKey a now i) i) ∅ ins.

Definition groupInstalls (a : AddOn) (ins : list addOnInstall) (node : bool) (now : Time)
    : addOnSubject * list addOnSubject :=
  let m := byCycle a now ins in
  let groups := map (fun key =>
    let line := negb (key =s "") && negb (HasPrefix key belowPrefix) in
    newAddOnSubject (a_DisplayName a) (default [] (m !! key)) line node) (sortedKeys m) in
  match groups with
  | [g] => (g, groups)
  | _ => (newAddOnSubject (a_DisplayName a) ins false node, groups)
  end.

(** ** noVersionReason *)

Definition unread : string :=
  " The collecting agent predates reading a pod's app.kubernetes.io/version label for an image without a tag, so such a label may carry the version; upgrade the agent.".

(** The sentence for one install. *)
Definition installReason (node labelsConsulted : bool) (i : addOnInstall) : string :=
  let '(via, _, _) := Cut (in_via i) "," in
  let '(via, _, _) := Cut via " " in
  if node then "The node reports no container runtime version."
  else if (via =s "image") && labelsConsulted then
    "No version was read from the image: either its tag names no version (a digest, :latest) and no pod running it whose labels name this add-on gives a usable app.kubernetes.io/version, or it is a component image whose release line the registry does not map yet."
  else if via =s "image" then
    "No version was read from the image: either its tag names no version (a digest, :latest) or it is a component image whose release line the registry does not map yet." +:+ unread
  else if via =s "labels" then
    "The pod labels name it, but no app.kubernetes.io/version label gives a version that applies to it."
  else if (via =s "chart") && labelsConsulted then
    "The Helm release records no appVersion, and no pod image tag or app.kubernetes.io/version label gives a version."
  else if via =s "chart" then
    "No app version was read from the Helm release or from a pod image tag: either the release records none, or the collecting agent did not collect it (a v0.1.x agent reported only the chart version)." +:+ unread
  else if (via =s "gitops") && labelsConsulted then
    "The GitOps chart reference gives no app version, and no running pod's image tag or app.kubernetes.io/version label does."
  else if via =s "gitops" then
    "The GitOps chart reference gives no app version, and no running pod's image tag does." +:+ unread
  else if via =s "ingressclass" then "An IngressClass names it but carries no version."
  else "No version was recorded for this add-on.".

Definition noVersionReason (ins : list addOnInstall) (node labelsConsulted : bool) : string :=
  let parts := appendNew [] (map (installReason node labelsConsulted) ins) in
  " " +:+ Join parts " " +:+ " Its end of life and Kubernetes compatibility were not assessed.".

(** ** Compatibility with the target *)

Definition k8sRangeText (k8sMin k8sMax : string) : string :=
  if k8sMin =s "" then "up to " +:+ k8sMax
  else if k8sMax =s "" then k8sMin +:+ " and newer"
  else k8sMin +:+ " through " +:+ k8sMax.

(** [k8sOutOfRange]: the title when [target] is outside. *)
Definition k8sOutOfRange (name version k8sMin k8sMax : string) (target : Version) : option string :=
  let above := match to_option (ParseVersion k8sMax) with
               | Some kmax => negb (k8sMax =s "") && (Compare kmax target <? 0)
               | None => false
               end in
  let below := match to_option (ParseVersion k8sMin) with
               | Some kmin => negb (k8sMin =s "") && (Compare target kmin <? 0)
               | None => false
               end in
  if above then
    Some (name +:+ " " +:+ version +:+ " supports Kubernetes up to " +:+ k8sMax +:+ " (target " +:+
          VString target +:+ ")")
  else if below then
    Some (name +:+ " " +:+ version +:+ " requires Kubernetes " +:+ k8sMin +:+ " or newer (target " +:+
          VString target +:+ ")")
  else None.

Section Compat.
Context `{Semver}.

Definition matchesRange (version constraint : string) : bool :=
  match NewConstraint constraint with
  | None => false
  | Some c =>
      match NewVersion (TrimSpace version) with
      | None => false
      | Some v =>
          if negb (Prerelease v =s "") || negb (Metadata v =s "") then
            match SetPrerelease v "" with
            | None => false
            | Some stripped =>
                match SetMetadata stripped "" with
                | None => false
                | Some stripped => Check c stripped
                end
            end
          else Check c v
      end
  end.

(** The loop over the compat rows: the first matching row decides. *)
Definition compatRow (a : AddOn) (version : string) (target : Version)
    : option (string * string * list string) :=
  match find (fun c => matchesRange version (co_Range c)) (a_Compat a) with
  | None => None
  | Some c =>
      match k8sOutOfRange (a_DisplayName a) version (co_K8sMin c) (co_K8sMax c) target with
      | None => None
      | Some title =>
          Some (title, "Installed version " +:+ version +:+ " matches compatibility range " +:+
                       quote (co_Range c) +:+ ", which supports Kubernetes " +:+
                       k8sRangeText (co_K8sMin c) (co_K8sMax c) +:+ ".", co_Citations c)
      end
  end.

Definition compatFor (a : AddOn) (version : string) (target : Version)
    : option (string * string * list string) :=
  match cycleFor version (a_Cycles a) with
  | None => compatRow a version target
  | Some cycle =>
      match k8sOutOfRange (a_DisplayName a) version (cy_K8sMin cycle) (cy_K8sMax cycle) target with
      | Some title =>
          Some (title, "Installed version " +:+ version +:+ " is in the " +:+ cy_Cycle cycle +:+
                       " release line, which supports Kubernetes " +:+
                       k8sRangeText (cy_K8sMin cycle) (cy_K8sMax cycle) +:+ ".", cy_Citations cycle)
      | None => compatRow a version target
      end
  end.

(** An install and the title, detail and citations of its incompatibility. *)
#[local] Notation incompat := (addOnInstall * (string * string * list string))%type.

(** The installs that cannot run [target], with what [compatFor] says. *)
Definition badInstalls (a : AddOn) (target : Version) (ins : list addOnInstall)
    : list incompat :=
  omap (fun i => if in_version i =s "" then None
                 else match compatFor a (in_version i) target with
                      | Some why => Some (i, why)
                      | None => None
                      end) ins.

(** The oldest of them, which titles the finding. *)
Definition olderBad (best : option incompat)
    (x : incompat)
    : option incompat :=
  match best with
  | None => Some x
  | Some b => if versionBefore (in_version x.1) (in_version b.1) then Some x else best
  end.

Definition evalAddOnCompat (a : AddOn) (s : addOnSubject) (target : Version) : option Finding :=
  let bad := badInstalls a target (s_installs s) in
  match foldl olderBad None bad with
  | None => None
  | Some (_, (title, detail, citations)) =>
      let named := sort_strings (flat_map (fun x : incompat =>
        map (fun w => nsLabel w +:+ " (" +:+ in_version x.1 +:+ ")") (in_where x.1)) bad) in
      let versions := sortedSet (map (fun x : incompat => in_version x.1) bad) in
      let namespaces := if s_node s then [] else flat_map (fun x : incompat => in_where x.1) bad in
      let teams := if s_node s then [] else flat_map (fun x : incompat => in_teams x.1) bad in
      let unns := negb (s_node s) && existsb (fun x : incompat => unnamespaced x.1) bad in
      let detail :=
        if s_node s then detail +:+ " Incompatible nodes: " +:+ located named +:+ "."
        else if 1 <? zlen versions then detail +:+ " Incompatible installs: " +:+ located named +:+ "."
        else detail in
      Some (mkFinding CatChartIncompat SevBlocker "" title detail (sortedSet teams)
              (namedNamespaces (sortedSet namespaces)) 0 unns (a_Recommendation a) citations [] 0 "" [])
  end.
End Compat.

(** ** End of life *)

(** [lineFinding]: category, severity, title and detail are left to the
    caller. *)
Definition lineFinding (a : AddOn) (c : Cycle) (now : Time) (category severity title detail : string)
    : Finding :=
  let citations := appendNew [] (cy_Citations c ++ s_Citations (a_Support a)) in
  let newest := newestSupportedCycle (a_Cycles a) now in
  let remediation :=
    if (a_Recommendation a =s "") && negb (newest =s "")
    then "Upgrade " +:+ a_DisplayName a +:+ " to a supported release line (newest: " +:+ newest +:+ ")."
    else a_Recommendation a in
  set_Remediation remediation (newFinding category severity "" title detail citations).

Definition cycleEOL (a : AddOn) (c : Cycle) (s : addOnSubject) (now window : Time) : option Finding :=
  match cy_EOL c with
  | None => None
  | Some e =>
      let head := a_DisplayName a +:+ " " +:+ cy_Cycle c in
      let line := s_located s +:+ " Upstream support for the " +:+ cy_Cycle c +:+ " release line " in
      if (eol_Date e =s "") && eol_Ended e then
        Some (lineFinding a c now CatEOLAddon SevBlocker (head +:+ " is end-of-life") (line +:+ "has ended."))
      else match ParseDate (eol_Date e) with
      | None => None
      | Some d =>
          if negb (After d now) then
            Some (lineFinding a c now CatEOLAddon SevBlocker
              (head +:+ " is end-of-life since " +:+ eol_Date e)
              (line +:+ "ended on " +:+ eol_Date e +:+ "."))
          else if negb (After d window) then
            Some (lineFinding a c now CatEOLApproaching SevWarning
              (head +:+ " reaches end-of-life on " +:+ eol_Date e)
              (line +:+ "ends on " +:+ eol_Date e +:+ "."))
          else None
      end
  end.

Definition predatesEOL (a : AddOn) (oldest : Cycle) (s : addOnSubject) (now : Time) : Finding :=
  let date := match cy_EOL oldest with Some e => eol_Date e | None => "" end in
  let ended :=
    if date =s "" then "support for " +:+ cy_Cycle oldest +:+ " has ended"
    else "support for " +:+ cy_Cycle oldest +:+ " ended on " +:+ date in
  lineFinding a oldest now CatEOLAddon SevBlocker
    (a_DisplayName a +:+ " " +:+ s_version s +:+ " is end-of-life (older than the " +:+
     cy_Cycle oldest +:+ " release line)")
    (s_located s +:+ " Versions older than the " +:+ cy_Cycle oldest +:+
     " release line, the oldest one upstream still documents, are past end of life: " +:+ ended +:+ ".").

(** [splitSupportFinding]: category, severity, title and detail. *)
Definition splitSupportFinding (a : AddOn) (all : addOnSubject) (end_ ext now window : Time)
    : option (string * string * string * string) :=
  let s := a_Support a in
  let cond := s_ExtendedSupportCondition s in
  if negb (After ext now) then
    Some (CatEOLAddon, SevBlocker,
      a_DisplayName a +:+ " is end-of-life since " +:+ s_ExtendedEOLDate s,
      s_located all +:+ " Support ended on " +:+ s_EOLDate s +:+ ", and support that applied only if " +:+
      cond +:+ " ended on " +:+ s_ExtendedEOLDate s +:+ ".")
  else if negb (After ext window) then
    Some (CatEOLApproaching, SevWarning,
      a_DisplayName a +:+ " reaches end-of-life on " +:+ s_ExtendedEOLDate s,
      s_located all +:+ " Support until then applies only if " +:+ cond +:+
      "; without it, support ended on " +:+ s_EOLDate s +:+ ".")
  else if negb (After end_ now) then
    Some (CatEOLApproaching, SevWarning,
      a_DisplayName a +:+ " is supported until " +:+ s_ExtendedEOLDate s +:+ " only if " +:+ cond,
      s_located all +:+ " Support without that condition ended on " +:+ s_EOLDate s +:+
      "; upgradescope cannot see whether this cluster meets it.")
  else if negb (After end_ window) then
    Some (CatEOLApproaching, SevWarning,
      a_DisplayName a +:+ " reaches end-of-life on " +:+ s_EOLDate s,
      s_located all +:+ " Support ends on " +:+ s_EOLDate s +:+ "; after that it continues until " +:+
      s_ExtendedEOLDate s +:+ " only if " +:+ cond +:+ ", which upgradescope cannot see.")
  else None.

(** ** evalAddOn *)

Definition subjectFinding (a : AddOn) (s : addOnSubject) (cat sev key title detail : string)
    (citations : list string) : Finding :=
  mkFinding cat sev key title detail (s_teams s) (s_namespaces s) 0 (s_unnamespaced s)
    (a_Recommendation a) citations [] 0 "" [].

(** The product's own end-of-life date, and the extended one when it
    counts. *)
Definition eolDate (a : AddOn) : option Time :=
  if s_EOLDate (a_Support a) =s "" then None else ParseDate (s_EOLDate (a_Support a)).

Definition extDate (a : AddOn) : option Time :=
  if negb (s_ExtendedEOLDate (a_Support a) =s "") && negb (s_Status (a_Support a) =s "eol")
  then match eolDate a with
       | Some _ => ParseDate (s_ExtendedEOLDate (a_Support a))
       | None => None
       end
  else None.

Definition productDated (a : AddOn) : bool :=
  (s_Status (a_Support a) =s "eol") || match eolDate a with Some _ => true | None => false end.

Definition eolWindow (now : Time) : Time := now + 90 * day.

(** The product-level finding. *)
Definition productFinding (a : AddOn) (all : addOnSubject) (now : Time) : option Finding :=
  let s := a_Support a in
  let window := eolWindow now in
  match eolDate a, extDate a with
  | Some end_, Some ext =>
      match splitSupportFinding a all end_ ext now window with
      | Some (cat, sev, title, detail) =>
          Some (subjectFinding a all cat sev (cat +:+ "/" +:+ a_ID a) title detail (s_Citations s))
      | None => None
      end
  | date, _ =>
      if (s_Status s =s "eol") || match date with Some d => negb (After d now) | None => false end then
        let '(title, detail) :=
          if match date with Some d => After d now | None => false end then
            (a_DisplayName a +:+ " is end-of-life on " +:+ s_EOLDate s,
             s_located all +:+ " Upstream support ends on " +:+ s_EOLDate s +:+ ".")
          else if negb (s_EOLDate s =s "") then
            (a_DisplayName a +:+ " is end-of-life since " +:+ s_EOLDate s,
             s_located all +:+ " Upstream support has ended.")
          else (a_DisplayName a +:+ " is end-of-life", s_located all +:+ " Upstream support has ended.") in
        Some (subjectFinding a all CatEOLAddon SevBlocker (CatEOLAddon +:+ "/" +:+ a_ID a) title detail
                (s_Citations s))
      else if match date with Some d => negb (After d window) | None => false end then
        Some (subjectFinding a all CatEOLApproaching SevWarning (CatEOLApproaching +:+ "/" +:+ a_ID a)
                (a_DisplayName a +:+ " reaches end-of-life on " +:+ s_EOLDate s)
                (s_located all +:+ " Upstream support ends on " +:+ s_EOLDate s +:+ ".")
                (s_Citations s))
      else None
  end.

(** The key of a finding about a group. *)
Definition lineSuffix (a : AddOn) (s : addOnSubject) (now : Time) : string :=
  match cycleFor (s_version s) (a_Cycles a) with
  | Some cycle => "/" +:+ cy_Cycle cycle
  | None =>
      match predatesCycles (s_version s) (a_Cycles a) now with
      | Some oldest => "/" +:+ belowPrefix +:+ cy_Cycle oldest
      | None => ""
      end
  end.

Definition groupFindingKey (a : AddOn) (s : addOnSubject) (now : Time) (cat : string) : string :=
  cat +:+ "/" +:+ a_ID a +:+ lineSuffix a s now.

(** The release-line finding of a group, before the product's own dates
    are considered. *)
Definition lineEOL (a : AddOn) (s : addOnSubject) (now : Time) : option Finding :=
  match cycleFor (s_version s) (a_Cycles a) with
  | Some cycle => cycleEOL a cycle s now (eolWindow now)
  | None =>
      match predatesCycles (s_version s) (a_Cycles a) now with
      | Some oldest => Some (predatesEOL a oldest s now)
      | None => None
      end
  end.

Definition located_line (a : AddOn) (s : addOnSubject) (now : Time) (f : Finding) : Finding :=
  let f := set_Where (s_teams s) (s_namespaces s) (s_unnamespaced s)
             (set_Key (groupFindingKey a s now (f_Category f)) f) in
  if s_node s && (f_Severity f =s SevBlocker) then
    set_Detail (f_Detail f +:+
      " The runtime comes with the node image or OS, not with the Kubernetes version, so this does not block the upgrade by itself.")
      (set_Severity SevWarning f)
  else f.

(** The addon-no-data finding of a group on no line. *)
Definition noDataFinding (a : AddOn) (s : addOnSubject) (labelsConsulted : bool) : Finding :=
  let '(ver, reason) :=
    if s_version s =s "" then
      ("(version unknown)"%string, noVersionReason (s_installs s) (s_node s) labelsConsulted)
    else (s_version s, " The registry has no release-line data for this version, so its end of life was not assessed."%string) in
  set_Remediation ""
    (subjectFinding a s CatAddOnNoData SevInfo (CatAddOnNoData +:+ "/" +:+ a_ID a)
       ("no lifecycle data for " +:+ a_DisplayName a +:+ " " +:+ ver) (s_located s +:+ reason)
       (s_Citations (a_Support a))).

(** [inCycle || below]. *)
Definition onLine (a : AddOn) (now : Time) (s : addOnSubject) : bool :=
  match cycleFor (s_version s) (a_Cycles a), predatesCycles (s_version s) (a_Cycles a) now with
  | None, None => false
  | _, _ => true
  end.

Section Eval.
Context `{Semver}.

(** The release-line finding of a group, unless the product carries a
    date or EOL status. *)
Definition groupLine (a : AddOn) (now : Time) (s : addOnSubject) : list Finding :=
  if onLine a now s && negb (productDated a)
  then match lineEOL a s now with Some f => [located_line a s now f] | None => [] end else [].

Definition groupCompat (a : AddOn) (target : Version) (now : Time) (s : addOnSubject) : list Finding :=
  match evalAddOnCompat a s target with
  | Some f => [set_Key (groupFindingKey a s now CatChartIncompat) f]
  | None => []
  end.

Definition groupNoData (a : AddOn) (now : Time) (labelsConsulted : bool) (s : addOnSubject)
    : list Finding :=
  if negb (productDated a) && negb (onLine a now s) then [noDataFinding a s labelsConsulted] else [].

(** The body of the loop over the groups. *)
Definition evalGroup (a : AddOn) (target : Version) (now : Time) (labelsConsulted : bool)
    (s : addOnSubject) : list Finding :=
  groupLine a now s ++ groupCompat a target now s ++ groupNoData a now labelsConsulted s.

Definition evalAddOn (a : AddOn) (all : addOnSubject) (groups : list addOnSubject)
    (target : Version) (now : Time) (labelsConsulted : bool) : list Finding :=
  (match productFinding a all now with Some f => [f] | None => [] end) ++
  flat_map (evalGroup a target now labelsConsulted) groups.

Definition evalInstalls (a : AddOn) (ins : list addOnInstall) (node : bool) (target : Version)
    (now : Time) (labelsConsulted : bool) : list Finding :=
  let '(all, groups) := groupInstalls a ins node now in
  evalAddOn a all groups target now labelsConsulted.

(** ** evalNodeRuntimes and evalAddOns *)

(** The installs of a node whose runtime [covers]. *)
Definition runtimeInstall (covers : string -> bool) (n : NodeInfo) : option (string * addOnInstall) :=
  let '(runtime, ver, ok) := Cut (n_ContainerRuntime n) "://" in
  if negb ok || negb (covers runtime) then None
  else Some (runtime, mkInstall (TrimPrefix ver "v") "" [n_Name n] []).

Definition evalNodeRuntimes (inv : Inventory) (addons : list AddOn) (target : Version) (now : Time)
    : list Finding :=
  flat_map (fun a =>
    match m_Runtimes (a_Matchers a) with
    | [] => []
    | runtimes =>
        match map snd (omap (runtimeInstall (fun r => mem_str r runtimes)) (Nodes inv)) with
        | [] => []
        | ins => evalInstalls a ins true target now true
        end
    end) addons.

Definition installVia (i : AddOnInstance) : string :=
  if ai_ChartVersion i =s "" then ai_Source i
  else if ai_Source i =s "chart" then ai_Source i +:+ " " +:+ ai_ChartVersion i
  else ai_Source i +:+ ", chart " +:+ ai_ChartVersion i.

Definition installOf (teams : gmap string string) (i : AddOnInstance) : addOnInstall :=
  let ns := sort_strings (ai_Namespaces i) in
  mkInstall (ai_Version i) (installVia i) ns (teamsFor teams ns).

(** [byID]: the last add-on of an ID counts. *)
Definition addOnsByID (addons : list AddOn) : gmap string AddOn :=
  foldl (fun m a => <[a_ID a := a]> m) ∅ addons.

(** [ids] and [installs]: the detected IDs the registry has, in inventory
    order, and their installs. *)
Definition collectInstalls (byID : gmap string AddOn) (teams : gmap string string)
    (insts : list AddOnInstance) : list string * gmap string (list addOnInstall) :=
  foldl (fun st i =>
    let '(ids, installs) := st in
    match byID !! ai_ID i with
    | None => st
    | Some _ =>
        (match installs !! ai_ID i with Some _ => ids | None => ids ++ [ai_ID i] end,
         appendAt installs (ai_ID i) (installOf teams i))
    end) ([], ∅) insts.

Definition evalAddOns (inv : Inventory) (k : KB) (target : Version) (now : Time) : list Finding :=
  let teams := newTeamLookup (Namespaces inv) in
  let byID := addOnsByID (k_AddOns k) in
  let '(ids, installs) := collectInstalls byID teams (AddOns inv) in
  let labelsConsulted := LabelVersionCollectorSchema <=? CollectorSchema inv in
  flat_map (fun id =>
    match byID !! id with
    | Some a => evalInstalls a (default [] (installs !! id)) false target now labelsConsulted
    | None => []
    end) ids ++
  evalNodeRuntimes inv (k_AddOns k) target now.
End Eval.

(** ** evalUncoveredRuntimes (runtimes.go) *)

Definition coveredRuntimes (addons : list AddOn) : list string :=
  flat_map (fun a => m_Runtimes (a_Matchers a)) addons.

Definition uncoveredRuntimes (inv : Inventory) (addons : list AddOn) : gmap string (list addOnInstall) :=
  foldl (fun m p => appendAt m p.1 p.2) ∅
    (omap (runtimeInstall (fun rt => negb (rt =s "") && negb (mem_str rt (coveredRuntimes addons))))
       (Nodes inv)).

Definition uncoveredFinding (rt : string) (ins : list addOnInstall) : Finding :=
  let v := in_version (hd noInstall ins) in
  let same := negb (v =s "") && forallb (fun i => in_version i =s v) ins in
  let s := newAddOnSubject rt ins same true in
  newFinding CatAddOnNoData SevInfo (CatAddOnNoData +:+ "/" +:+ rt)
    ("no lifecycle data for container runtime " +:+ rt)
    (s_located s +:+ " The registry has no entry for this container runtime," +:+
     " so its end of life and Kubernetes compatibility were not assessed.") [].

Definition evalUncoveredRuntimes (inv : Inventory) (addons : list AddOn) (b : option budget)
    : list Finding * option budget :=
  match addons with
  | [] => ([], b)
  | _ =>
      let m := uncoveredRuntimes inv addons in
      addAll b [] (map (fun rt => uncoveredFinding rt (default [] (m !! rt))) (sortedKeys m))
  end.

(** ** Ordering of version numbers *)

Lemma cmpZ_lt x y : cmpZ x y < 0 <-> x < y.
Proof. unfold cmpZ. split_ifs; lia. Qed.

Lemma compareInts_lt a b :
  compareInts a b < 0 <->
  exists k, (k < length b)%nat /\ take k a = take k b /\
    match a !! k with Some x => exists y, b !! k = Some y /\ x < y | None => True end.
Proof.
  revert b. induction a as [|x a IH]; intros [|y b]; cbn [compareInts].
  - split; [lia|]. intros (k & ? & _). simpl in *. lia.
  - split; [|lia]. intros _. exists 0%nat. simpl. split_and!; [lia|done|done].
  - split; [lia|]. intros (k & ? & _). simpl in *. lia.
  - destruct (Z.eqb_spec x y) as [->|Hne].
    + rewrite IH. split.
      * intros (k & Hk & Ht & Hm). exists (S k). simpl. split_and!; [lia|by rewrite Ht|done].
      * intros ([|k] & Hk & Ht & Hm); simpl in *.
        -- destruct Hm as (? & ? & ?). simplify_eq. lia.
        -- exists k. split_and!; [lia|by simplify_eq|done].
    + rewrite cmpZ_lt. split.
      * intros Hlt. exists 0%nat. simpl. split_and!; [lia|done|eauto].
      * intros ([|k] & Hk & Ht & Hm); simpl in *; [|by simplify_eq].
        destruct Hm as (? & ? & ?). by simplify_eq.
Qed.

Lemma compareInts_lt_trans a b c :
  compareInts a b < 0 -> compareInts b c < 0 -> compareInts a c < 0.
Proof.
  revert b c. induction a as [|x a IH]; intros [|y b] [|z c]; cbn [compareInts]; try lia.
  destruct (Z.eqb_spec x y), (Z.eqb_spec y z), (Z.eqb_spec x z); subst;
    rewrite ?cmpZ_lt; try lia. apply IH.
Qed.

Lemma compareInts_eq a b : compareInts a b = 0 <-> a = b.
Proof.
  revert b. induction a as [|x a IH]; intros [|y b]; cbn [compareInts]; try (split; [lia|done]).
  - done.
  - destruct (Z.eqb_spec x y) as [->|Hne].
    + rewrite IH. split; [by intros ->|by intros [= ->]].
    + unfold cmpZ. split; [|by intros [= ? ?]]. intros. exfalso. revert H. split_ifs; lia.
Qed.

Lemma compareInts_antisym a b : compareInts b a = - compareInts a b.
Proof.
  revert b. induction a as [|x a IH]; intros [|y b]; cbn [compareInts]; try lia.
  rewrite (Z.eqb_sym y x), IH. unfold cmpZ. split_ifs; lia.
Qed.

Lemma compareInts_le_lt_trans a b c :
  compareInts a b < 0 -> compareInts b c <= 0 -> compareInts a c < 0.
Proof.
  intros H1 H2. destruct (Z.eq_dec (compareInts b c) 0) as [->%compareInts_eq|]; [done|].
  eapply compareInts_lt_trans; [exact H1|lia].
Qed.

(** A list is before another when a part of it, as long, is. *)
Lemma compareInts_take v o :
  (length o <= length v)%nat -> compareInts (take (length o) v) o < 0 -> compareInts v o < 0.
Proof.
  revert o. induction v as [|x v IH]; intros [|y o]; cbn [length take compareInts]; try lia.
  destruct (Z.eqb_spec x y); [|done]. intros. apply IH; [lia|done].
Qed.

(** A prefix is not after the list it starts. *)
Lemma compareInts_prefix p v o :
  p `prefix_of` v -> (length o <= length v)%nat -> compareInts (take (length o) v) o < 0 ->
  compareInts p o < 0.
Proof.
  intros [t ->]. revert o. induction p as [|x p IH]; intros [|y o]; simpl; [done|lia|done|].
  destruct (Z.eqb_spec x y); [|done]. intros. apply IH; [lia|done].
Qed.

Lemma leads_prefix p v : leads p v = true <-> p `prefix_of` v.
Proof.
  revert v. induction p as [|x p IH]; intros v; simpl.
  - split; [|done]. intros _. by eexists.
  - destruct v as [|y v]; [split; [done|]; by intros [? ?]|].
    rewrite andb_true_iff, Z.eqb_eq, IH. split.
    + intros [-> [t ->]]. by exists t.
    + intros [t Ht]. simpl in Ht. simplify_eq. split; [done|by exists t].
Qed.

Lemma atoiAll_length fs ns : atoiAll fs = Some ns -> length ns = length fs.
Proof.
  revert ns. induction fs as [|f fs IH]; intros ns; simpl; [by intros [= <-]|].
  destruct (Atoi f); [|done]. destruct (atoiAll fs) as [ms|]; [|done]. intros [= <-]. simpl. by rewrite (IH ms).
Qed.

Lemma versionParts_nonempty s p : versionParts s = Some p -> p <> [] /\ s <> ""%string.
Proof.
  unfold versionParts. intros H. split.
  - revert H. destruct (_ =s _); [done|]. intros H ->. apply atoiAll_length in H.
    destruct (split_at _ _).1 as [|a r] in H; simpl in H; [done|].
    destruct (Ascii.eqb a "."); [done|]. by destruct (Split r ".").
  - by intros ->.
Qed.

(** ** Release lines *)

(** What the loop of [cycleFor] keeps. *)
Definition cycle_best (v : list Z) (cycles : list Cycle) (best : option Cycle * nat) : Prop :=
  match best.1 with
  | None => best.2 = O /\
      forall c p, c ∈ cycles -> versionParts (cy_Cycle c) = Some p -> ~ p `prefix_of` v
  | Some b => b ∈ cycles /\ exists p, versionParts (cy_Cycle b) = Some p /\ p `prefix_of` v /\ length p = best.2 /\
      forall c' p', c' ∈ cycles -> versionParts (cy_Cycle c') = Some p' -> p' `prefix_of` v ->
        (length p' <= length p)%nat
  end.

Lemma cycle_best_snoc v cycles best c :
  cycle_best v cycles best -> cycle_best v (cycles ++ [c]) (moreSpecific v best c).
Proof.
  unfold moreSpecific. intros Hb. destruct (versionParts (cy_Cycle c)) as [p|] eqn:Hp; cycle 1.
  { unfold cycle_best in *. destruct (best.1) as [b|].
    - destruct Hb as (Hin & q & Hq & Hpre & Hl & Hmax). split; [set_solver|]. exists q. split_and!; [done..|].
      intros c' p' [?| ->%list_elem_of_singleton]%elem_of_app; [by eauto|congruence].
    - destruct Hb as [Hl Hno]. split; [done|].
      intros c' p' [?| ->%list_elem_of_singleton]%elem_of_app; [by eauto|congruence]. }
  pose proof (versionParts_nonempty _ _ Hp) as [Hne _].
  destruct ((length v <? length p)%nat || (length p <=? best.2)%nat || negb (leads p v)) eqn:E.
  - assert (Hc : p `prefix_of` v -> (length p <= best.2)%nat).
    { intros Hpre. rewrite !orb_true_iff, Nat.ltb_lt, Nat.leb_le, negb_true_iff in E.
      destruct E as [[E|E]|E]; [|done|].
      - apply prefix_length in Hpre. lia.
      - apply leads_prefix in Hpre. congruence. }
    unfold cycle_best in *. destruct (best.1) as [b|].
    + destruct Hb as (Hin & q & Hq & Hpre & Hl & Hmax). split; [set_solver|]. exists q. split_and!; [done..|].
      intros c' p' [?| ->%list_elem_of_singleton]%elem_of_app Hp' Hpre'; [by eauto|].
      rewrite Hp in Hp'. injection Hp' as <-. rewrite Hl. auto.
    + destruct Hb as [Hl Hno]. split; [done|].
      intros c' p' [?| ->%list_elem_of_singleton]%elem_of_app Hp'; [by eauto|].
      rewrite Hp in Hp'. injection Hp' as <-. intros Hpre. destruct p; [done|]. apply Hc in Hpre.
      simpl in Hpre. lia.
  - rewrite !orb_false_iff, Nat.ltb_ge, Nat.leb_gt, negb_false_iff, leads_prefix in E.
    destruct E as [[E1 E2] E3]. unfold cycle_best. simpl. split; [set_solver|].
    exists p. split_and!; [done..|].
    intros c' p' [Hin| ->%list_elem_of_singleton]%elem_of_app Hp' Hpre'; [|by simplify_eq].
    unfold cycle_best in Hb. destruct (best.1) as [b|].
    + destruct Hb as (_ & q & Hq & _ & Hl & Hmax). specialize (Hmax c' p' Hin Hp' Hpre'). lia.
    + destruct Hb as [_ Hno]. by destruct (Hno c' p').
Qed.

Lemma cycle_best_fold v cycles : cycle_best v cycles (foldl (moreSpecific v) (None, O) cycles).
Proof.
  induction cycles as [|c cycles IH] using rev_ind.
  - split; [done|]. by intros ? ? ?%elem_of_nil.
  - rewrite foldl_snoc. by apply cycle_best_snoc.
Qed.

(** A version is put on the most specific release line: the line
    [cycleFor] returns is tracked, its components lead the version's, and
    no tracked line with that property has more components; it returns none
    only when no tracked line leads the version. *)
Lemma cycleFor_most_specific (version : string) (v : list Z) (cycles : list Cycle) :
  versionParts version = Some v ->
  match cycleFor version cycles with
  | Some c => c ∈ cycles /\ exists p, versionParts (cy_Cycle c) = Some p /\ p `prefix_of` v /\
      forall c' p', c' ∈ cycles -> versionParts (cy_Cycle c') = Some p' -> p' `prefix_of` v ->
        (length p' <= length p)%nat
  | None => forall c p, c ∈ cycles -> versionParts (cy_Cycle c) = Some p -> ~ p `prefix_of` v
  end.
Proof.
  intros Hv. unfold cycleFor. rewrite Hv. pose proof (cycle_best_fold v cycles) as Hb.
  unfold cycle_best in Hb. destruct (foldl _ _ _).1 as [b|]; [|by destruct Hb].
  destruct Hb as (? & p & ? & ? & _ & ?). eauto.
Qed.

Lemma olderLine_fold cycles :
  match foldl olderLine None cycles with
  | None => forall c, c ∈ cycles -> versionParts (cy_Cycle c) = None
  | Some (c, o) => c ∈ cycles /\ versionParts (cy_Cycle c) = Some o /\
      forall c' p, c' ∈ cycles -> versionParts (cy_Cycle c') = Some p -> compareInts o p <= 0
  end.
Proof.
  induction cycles as [|c cycles IH] using rev_ind; [by intros ? ?%elem_of_nil|].
  rewrite foldl_snoc. unfold olderLine at 1. destruct (versionParts (cy_Cycle c)) as [p|] eqn:Hp.
  - destruct (foldl olderLine None cycles) as [[b o]|].
    + destruct IH as (Hin & Ho & Hmin).
      destruct (Z.ltb_spec (compareInts p o) 0) as [Hlt|Hge].
      * split_and!; [set_solver|done|].
        intros c' q [Hc| ->%list_elem_of_singleton]%elem_of_app Hq.
        -- apply Z.lt_le_incl. eapply compareInts_le_lt_trans; [exact Hlt|by eauto].
        -- rewrite Hp in Hq. injection Hq as <-. by rewrite (proj2 (compareInts_eq p p)).
      * split_and!; [set_solver|done|].
        intros c' q [Hc| ->%list_elem_of_singleton]%elem_of_app Hq; [by eauto|].
        rewrite Hp in Hq. injection Hq as <-. rewrite compareInts_antisym. lia.
    + split_and!; [set_solver|done|].
      intros c' q [Hc| ->%list_elem_of_singleton]%elem_of_app Hq; [by rewrite IH in Hq|].
      rewrite Hp in Hq. injection Hq as <-. by rewrite (proj2 (compareInts_eq p p)).
  - destruct (foldl olderLine None cycles) as [[b o]|].
    + destruct IH as (Hin & Ho & Hmin). split_and!; [set_solver|done|].
      intros c' q [Hc| ->%list_elem_of_singleton]%elem_of_app Hq; [by eauto|congruence].
    + intros c' [Hc| ->%list_elem_of_singleton]%elem_of_app; [by auto|done].
Qed.

(** A version called past end of life for being older than every
    tracked line is so: the line returned is tracked and has ended, the
    version is before every tracked line in the order of version numbers,
    and it is on none of them, so that no install is judged both ways. *)
Lemma predatesCycles_sound (version : string) (cycles : list Cycle) (now : Time) (c : Cycle) :
  predatesCycles version cycles now = Some c ->
  c ∈ cycles /\ cycleEnded c now = true /\ cycleFor version cycles = None /\
  exists v, versionParts version = Some v /\
    forall c' p, c' ∈ cycles -> versionParts (cy_Cycle c') = Some p -> compareInts v p < 0.
Proof.
  unfold predatesCycles. destruct (versionParts version) as [v|] eqn:Hv; [|done].
  pose proof (olderLine_fold cycles) as Ho. destruct (foldl olderLine None cycles) as [[b o]|]; [|done].
  destruct Ho as (Hin & Hbo & Hmin).
  destruct ((length v <? length o)%nat || _) eqn:E; [done|].
  rewrite orb_false_iff, Nat.ltb_ge, Z.leb_gt in E. destruct E as [Hl Hlt].
  destruct (cycleEnded b now) eqn:He; [|done]. simpl. intros [= <-].
  split_and!; [done|done| |].
  - destruct (cycleFor version cycles) as [c|] eqn:Hc; [|done]. exfalso.
    unfold cycleFor in Hc. rewrite Hv in Hc. pose proof (cycle_best_fold v cycles) as Hb.
    unfold cycle_best in Hb. rewrite Hc in Hb. destruct Hb as (Hcin & p & Hp & Hpre & _).
    specialize (Hmin _ _ Hcin Hp). pose proof (compareInts_prefix _ _ _ Hpre Hl Hlt).
    rewrite compareInts_antisym in Hmin. lia.
  - exists v. split; [done|]. intros c' p Hc' Hp.
    eapply compareInts_le_lt_trans; [by apply compareInts_take|by eauto].
Qed.

Lemma cycleEOL_cases (a : AddOn) (c : Cycle) (s : addOnSubject) (now window : Time) :
  ((exists f, cycleEOL a c s now window = Some f /\ f_Severity f = SevBlocker) <-> cycleEnded c now = true) /\
  ((exists f, cycleEOL a c s now window = Some f /\ f_Severity f = SevWarning) <->
     exists e d, cy_EOL c = Some e /\ ParseDate (eol_Date e) = Some d /\ now < d <= window) /\
  (forall f, cycleEOL a c s now window = Some f ->
     (f_Severity f = SevBlocker /\ f_Category f = CatEOLAddon) \/
     (f_Severity f = SevWarning /\ f_Category f = CatEOLApproaching)).
Proof.
  unfold cycleEOL, cycleEnded, After. destruct (cy_EOL c) as [e|]; cycle 1.
  { split_and!; [split; [by intros (? & ? & _)|done]|split; [by intros (? & ? & _)|by intros (? & ? & ? & _)]|done]. }
  destruct (String.eqb_spec (eol_Date e) "") as [Hd|Hd].
  - rewrite Hd. change (ParseDate "") with (@None Time). destruct (eol_Ended e); simpl.
    + split_and!; [split; [done|by eauto]| |by intros f [= <-]; left].
      split; [by intros (? & [= <-] & ?)|by intros (? & ? & [= <-] & H & _); rewrite Hd in H].
    + split_and!; [split; [by intros (? & ? & _)|done]| |done].
      split; [by intros (? & ? & _)|by intros (? & ? & [= <-] & H & _); rewrite Hd in H].
  - rewrite andb_false_l. destruct (ParseDate (eol_Date e)) as [d|] eqn:Hp; cycle 1.
    { split_and!; [split; [by intros (? & ? & _)|done]| |done].
      split; [by intros (? & ? & _)|by intros (? & ? & [= <-] & H & _); rewrite Hp in H]. }
    destruct (Z.ltb_spec now d); simpl; [destruct (Z.ltb_spec window d); simpl|]; split_and!.
    + split; [by intros (? & ? & _)|done].
    + split; [by intros (? & ? & _)|]. intros (? & d' & [= <-] & H' & ?). rewrite Hp in H'. injection H' as <-. lia.
    + done.
    + split; [by intros (? & [= <-] & ?)|done].
    + split; [|by eauto]. intros _. exists e, d. split_and!; done || lia.
    + intros f [= <-]. by right.
    + split; [done|by eauto].
    + split; [by intros (? & [= <-] & ?)|].
      intros (? & d' & [= <-] & H' & ?). rewrite Hp in H'. injection H' as <-. lia.
    + intros f [= <-]. by left.
Qed.

(** The two routines that judge the end of a release line agree:
    [cycleEOL] reports a blocker exactly when [cycleEnded] holds, and a
    warning exactly when the line ends after now but by the end of the
    window. *)
Lemma cycleEOL_spec (a : AddOn) (c : Cycle) (s : addOnSubject) (now window : Time) :
  ((exists f, cycleEOL a c s now window = Some f /\ f_Severity f = SevBlocker) <-> cycleEnded c now = true) /\
  ((exists f, cycleEOL a c s now window = Some f /\ f_Severity f = SevWarning) <->
     exists e d, cy_EOL c = Some e /\ ParseDate (eol_Date e) = Some d /\ now < d <= window) /\
  (forall f, cycleEOL a c s now window = Some f ->
     (f_Severity f = SevBlocker /\ f_Category f = CatEOLAddon) \/
     (f_Severity f = SevWarning /\ f_Category f = CatEOLApproaching)).
Proof. apply cycleEOL_cases. Qed.

(** ** Grouping *)

Section Grouping.
Context {A : Type} (g : A -> string).

Definition groupOn (l : list A) : gmap string (list A) := foldl (fun m i => appendAt m (g i) i) ∅ l.

Lemma groupOn_lookup l key :
  groupOn l !! key = match filter (fun i => g i = key) l with [] => None | gs => Some gs end.
Proof.
  unfold groupOn. induction l as [|x l IH] using rev_ind; [done|].
  rewrite foldl_snoc, filter_app. unfold appendAt at 1. rewrite lookup_insert. case_decide as E.
  - rewrite filter_cons_True, filter_nil by done. subst key. rewrite IH.
    by destruct (filter _ l).
  - rewrite filter_cons_False, filter_nil, app_nil_r by done. apply IH.
Qed.

Lemma groupOn_in l key i : i ∈ default [] (groupOn l !! key) <-> i ∈ l /\ g i = key.
Proof.
  rewrite groupOn_lookup.
  transitivity (i ∈ filter (fun i => g i = key) l); [by destruct (filter _ l)|].
  rewrite list_elem_of_filter. naive_solver.
Qed.

Lemma sortedKeys_spec (l : list A) :
  NoDup (sortedKeys (groupOn l)) /\ forall key, key ∈ sortedKeys (groupOn l) <-> exists i, i ∈ l /\ g i = key.
Proof.
  unfold sortedKeys. rewrite sort_strings_perm. split; [apply NoDup_fst_map_to_list|].
  intros key. rewrite sort_strings_perm. rewrite list_elem_of_fmap. split.
  - intros ([k gs] & -> & Hin%elem_of_map_to_list). simpl. rewrite groupOn_lookup in Hin.
    destruct (filter _ l) as [|i is0] eqn:E; [done|]. exists i.
    assert (Hi : i ∈ filter (fun i => g i = k) l) by (rewrite E; by left).
    apply list_elem_of_filter in Hi. naive_solver.
  - intros (i & Hi & <-). destruct (groupOn l !! g i) as [gs|] eqn:E.
    + exists (g i, gs). split; [done|]. by apply elem_of_map_to_list.
    + assert (Hin : i ∈ default [] (groupOn l !! g i)) by by apply groupOn_in.
      rewrite E in Hin. by apply elem_of_nil in Hin.
Qed.
End Grouping.

(** The key of a version, as [groupKey] gives it. *)
Definition versionKey (a : AddOn) (now : Time) (version : string) : string :=
  groupKey a now (mkInstall version "" [] []).

Lemma cycleFor_named version cycles c : cycleFor version cycles = Some c -> cy_Cycle c <> ""%string.
Proof.
  unfold cycleFor. destruct (versionParts version) as [v|]; [|done]. intros Hc.
  pose proof (cycle_best_fold v cycles) as Hb. unfold cycle_best in Hb. rewrite Hc in Hb.
  destruct Hb as (_ & p & Hp & _). by eapply versionParts_nonempty.
Qed.

Lemma versionKey_empty a now version :
  versionKey a now version = ""%string <->
  cycleFor version (a_Cycles a) = None /\ predatesCycles version (a_Cycles a) now = None.
Proof.
  unfold versionKey, groupKey. simpl. destruct (cycleFor _ _) as [c|] eqn:Hc.
  - apply cycleFor_named in Hc. split; [done|]. by intros [? _].
  - destruct (predatesCycles _ _ _); [|done]. split; [done|]. by intros [_ ?].
Qed.

Lemma lineSuffix_key a s now :
  lineSuffix a s now =
  (let key := versionKey a now (s_version s) in if key =s "" then "" else "/" +:+ key)%string.
Proof.
  pose proof (versionKey_empty a now (s_version s)) as He. unfold versionKey, groupKey, lineSuffix in *. simpl in *.
  destruct (cycleFor _ _) as [c|] eqn:Hc.
  - apply cycleFor_named in Hc. rewrite (proj2 (String.eqb_neq _ _)); done.
  - by destruct (predatesCycles _ _ _).
Qed.

Lemma oldestVersion_in ins :
  (oldestVersion ins = ""%string /\ forall i, i ∈ ins -> in_version i = ""%string) \/
  exists i, i ∈ ins /\ in_version i = oldestVersion ins.
Proof.
  unfold oldestVersion. induction ins as [|i ins IH] using rev_ind; [left; by split; [|intros ? ?%elem_of_nil]|].
  rewrite foldl_snoc. unfold olderVersion at 1 3.
  destruct (String.eqb_spec (in_version i) "") as [He|Hne]; simpl.
  - destruct IH as [[E Hall]|(j & Hj & E)].
    + left. split; [done|]. intros j [?| ->%list_elem_of_singleton]%elem_of_app; auto.
    + right. exists j. set_solver.
  - destruct (_ || _) eqn:E; [right; exists i; set_solver|]. to_prop.
    destruct IH as [[E' _]|(j & Hj & E')]; [done|]. right. exists j. set_solver.
Qed.

Lemma newAddOnSubject_version name ins line node :
  s_version (newAddOnSubject name ins line node) = oldestVersion ins.
Proof. unfold newAddOnSubject. by destruct node. Qed.

(** A group is judged on the line its installs are on. *)
Lemma group_versionKey a now ins key :
  key ∈ sortedKeys (byCycle a now ins) ->
  versionKey a now (oldestVersion (default [] (byCycle a now ins !! key))) = key.
Proof.
  change (byCycle a now ins) with (groupOn (groupKey a now) ins). intros Hkey.
  apply sortedKeys_spec in Hkey as (i & Hi & Hk).
  destruct (oldestVersion_in (default [] (groupOn (groupKey a now) ins !! key))) as [[-> Hall]|(j & Hj & <-)].
  - rewrite <- (Hall i) by by apply groupOn_in. done.
  - by apply groupOn_in in Hj as [_ <-].
Qed.

Lemma groupInstalls_parts (a : AddOn) (ins : list addOnInstall) (node : bool) (now : Time) :
  flat_map s_installs (groupInstalls a ins node now).2 ≡ₚ ins /\
  forall s, s ∈ (groupInstalls a ins node now).2 -> s_installs s <> [] /\
    forall i, i ∈ s_installs s -> groupKey a now i = versionKey a now (s_version s).
Proof.
  assert (E : (groupInstalls a ins node now).2 =
    map (fun key => newAddOnSubject (a_DisplayName a) (default [] (byCycle a now ins !! key))
      (negb (key =s "") && negb (HasPrefix key belowPrefix)) node) (sortedKeys (byCycle a now ins))).
  { unfold groupInstalls. destruct (map _ _) as [|x [|y l]]; done. }
  assert (Hs : forall name l line, s_installs (newAddOnSubject name l line node) = l)
    by (intros; unfold newAddOnSubject; by destruct node).
  rewrite E. split.
  - rewrite flat_map_concat_map, map_map.
    rewrite (map_ext _ (fun key => filter (fun i => groupKey a now i = key) ins)).
    + destruct (sortedKeys_spec (groupKey a now) ins) as [Hn Hk].
      change (groupOn (groupKey a now) ins) with (byCycle a now ins) in *. revert Hn Hk.
      generalize (sortedKeys (byCycle a now ins)) as keys. intros keys Hn Hk.
      assert (Hall : Forall (fun i => groupKey a now i ∈ keys) ins).
      { apply Forall_forall. intros i Hi. apply Hk. eauto. }
      clear Hk E. revert ins Hall. induction Hn as [|key keys Hnot Hn IH]; intros ins Hall; simpl.
      { destruct ins as [|i ins]; [done|]. apply Forall_cons_1 in Hall as [H _]. by apply elem_of_nil in H. }
      rewrite <- (filter_app_complement (fun i => groupKey a now i = key) ins) at 2. f_equiv.
      rewrite <- (IH (filter (fun i => ~ groupKey a now i = key) ins)).
      * apply reflexive_eq. f_equal. apply map_ext_in. intros k' Hk'%list_elem_of_In.
        rewrite list_filter_filter. apply list_filter_iff. intros i. split; [|naive_solver].
        intros <-. split; [done|]. intros <-. done.
      * apply Forall_forall. intros i [Hne Hi]%list_elem_of_filter.
        rewrite Forall_forall in Hall. specialize (Hall i Hi). apply elem_of_cons in Hall as [|]; done.
    + intros key. rewrite Hs. change (byCycle a now ins) with (groupOn (groupKey a now) ins).
      rewrite groupOn_lookup. by destruct (filter _ ins).
  - intros s Hin%list_elem_of_In. apply in_map_iff in Hin as (key & <- & Hkey%list_elem_of_In).
    rewrite Hs, newAddOnSubject_version, group_versionKey by done.
    change (byCycle a now ins) with (groupOn (groupKey a now) ins) in *. split.
    + apply sortedKeys_spec in Hkey as (i & Hi & Hk). intros Hnil.
      assert (Hin : i ∈ default [] (groupOn (groupKey a now) ins !! key)) by by apply groupOn_in.
      rewrite Hnil in Hin. by apply elem_of_nil in Hin.
    + intros i Hi. by apply groupOn_in in Hi as [_ <-].
Qed.

(** Grouping the installs of an add-on by release line loses and
    repeats none: the installs of the groups, together, are the installs;
    no group is empty; and every install of a group is on the line the
    group is judged on. *)
Lemma groupInstalls_partition (a : AddOn) (ins : list addOnInstall) (node : bool) (now : Time) :
  flat_map s_installs (groupInstalls a ins node now).2 ≡ₚ ins /\
  forall s, s ∈ (groupInstalls a ins node now).2 -> s_installs s <> [] /\
    forall i, i ∈ s_installs s -> groupKey a now i = versionKey a now (s_version s).
Proof. apply groupInstalls_parts. Qed.

(** ** Keys of add-on findings *)

Definition addOnCategories : list string := [CatEOLAddon; CatEOLApproaching; CatChartIncompat; CatAddOnNoData].

(** The key of a finding of category [cat] about the group [key]. *)
Definition addOnKey (a : AddOn) (p : string * string) : string :=
  (p.1 +:+ "/" +:+ a_ID a +:+ (if p.2 =s "" then "" else "/" +:+ p.2))%string.

Lemma app_inj_s (s t u : string) : s +:+ t = s +:+ u -> t = u.
Proof. intros H. rewrite <- (drop_len_app s t), H. apply drop_len_app. Qed.

Lemma slash_app (s : string) : "/" +:+ s = String "/" s.
Proof. done. Qed.

Lemma addOnKey_inj a p q :
  p.1 ∈ addOnCategories -> q.1 ∈ addOnCategories -> addOnKey a p = addOnKey a q -> p = q.
Proof.
  destruct p as [c k], q as [c' k']. unfold addOnKey. simpl. intros Hc Hc' H.
  assert (Hno : forall x, x ∈ addOnCategories -> no_byte "/" x).
  { intros x Hx. unfold addOnCategories in Hx. rewrite !elem_of_cons, elem_of_nil in Hx.
    destruct Hx as [->|[->|[->|[->|[]]]]]; by vm_compute. }
  rewrite !slash_app in H.
  apply (f_equal (fun s => cut_opt s "/")) in H. rewrite !cut_opt_app in H by by apply Hno.
  injection H as <- H. apply app_inj_s in H.
  destruct (String.eqb_spec k ""), (String.eqb_spec k' ""); subst; try done.
  by injection H as <-.
Qed.

Section Keys.
Context `{Semver} (a : AddOn) (target : Version) (now : Time) (labelsConsulted : bool).

Lemma lineEOL_categories s f :
  lineEOL a s now = Some f -> f_Category f = CatEOLAddon \/ f_Category f = CatEOLApproaching.
Proof.
  unfold lineEOL. destruct (cycleFor _ _) as [c|].
  - unfold cycleEOL. destruct (cy_EOL c) as [e|]; [|done].
    destruct (_ && _); [intros [= <-]; by left|]. destruct (ParseDate _); [|done].
    destruct (negb _); [intros [= <-]; by left|]. destruct (negb _); [|done]. intros [= <-]; by right.
  - destruct (predatesCycles _ _ _); [|done]. intros [= <-]. by left.
Qed.

Lemma evalAddOnCompat_shape s f :
  evalAddOnCompat a s target = Some f -> f_Category f = CatChartIncompat /\ f_Severity f = SevBlocker.
Proof.
  unfold evalAddOnCompat. destruct (foldl _ _ _) as [[? [[? ?] ?]]|]; [|done]. by intros [= <-].
Qed.

Lemma located_line_category s f : f_Category (located_line a s now f) = f_Category f.
Proof. unfold located_line. by destruct (_ && _). Qed.

Lemma located_line_key s f : f_Key (located_line a s now f) = groupFindingKey a s now (f_Category f).
Proof. unfold located_line. by destruct (_ && _). Qed.

Lemma onLine_key s : onLine a now s = negb (versionKey a now (s_version s) =s "").
Proof.
  pose proof (versionKey_empty a now (s_version s)) as He. unfold onLine.
  destruct (String.eqb_spec (versionKey a now (s_version s)) "") as [E|E].
  - by apply He in E as [-> ->].
  - destruct (cycleFor _ _); [done|]. destruct (predatesCycles _ _ _); [done|]. by destruct E; apply He.
Qed.

Lemma groupFindingKey_addOnKey s c :
  groupFindingKey a s now c = addOnKey a (c, versionKey a now (s_version s)).
Proof. unfold groupFindingKey, addOnKey. simpl. by rewrite lineSuffix_key. Qed.

(** A part of a group's findings: none, or one of one of the categories
    [cs], keyed by it and by the group [key]. *)
Definition part (cs : list string) (key : string) (fs : list Finding) : Prop :=
  fs = [] \/ exists f, fs = [f] /\ f_Category f ∈ cs /\ f_Key f = addOnKey a (f_Category f, key).

Lemma groupLine_part s key :
  versionKey a now (s_version s) = key ->
  part (if key =s "" then [] else [CatEOLAddon; CatEOLApproaching]) key (groupLine a now s).
Proof.
  intros Hk. unfold groupLine. rewrite onLine_key, Hk. destruct (key =s ""); [by left|]. simpl.
  destruct (negb _); [|by left]. destruct (lineEOL a s now) as [f|] eqn:E; [|by left].
  right. eexists. split; [done|].
  rewrite located_line_category, located_line_key, groupFindingKey_addOnKey, Hk. split; [|done].
  apply lineEOL_categories in E. set_solver.
Qed.

Lemma groupCompat_part s key :
  versionKey a now (s_version s) = key -> part [CatChartIncompat] key (groupCompat a target now s).
Proof.
  intros Hk. unfold groupCompat. destruct (evalAddOnCompat a s target) as [f|] eqn:E; [|by left].
  apply evalAddOnCompat_shape in E as [E _]. right. eexists. split; [done|].
  simpl. rewrite E, groupFindingKey_addOnKey, Hk. split; [set_solver|done].
Qed.

Lemma groupNoData_part s key :
  versionKey a now (s_version s) = key ->
  part (if key =s "" then [CatAddOnNoData] else []) key (groupNoData a now labelsConsulted s).
Proof.
  intros Hk. unfold groupNoData. rewrite onLine_key, Hk.
  destruct (String.eqb_spec key "") as [->|]; [|left; by rewrite andb_false_r].
  destruct (negb _); [|by left]. right. eexists. split; [done|]. unfold noDataFinding.
  destruct (if s_version s =s "" then _ else _). simpl. split; [set_solver|].
  unfold addOnKey. simpl. by rewrite app_nil_r_s.
Qed.

Lemma evalGroup_keys s key :
  versionKey a now (s_version s) = key ->
  exists cats, map f_Key (evalGroup a target now labelsConsulted s) = map (fun c => addOnKey a (c, key)) cats /\
    NoDup cats /\ cats ⊆ addOnCategories /\
    (key = ""%string -> CatEOLAddon ∉ cats /\ CatEOLApproaching ∉ cats).
Proof.
  intros Hk. unfold evalGroup. exists (map f_Category (evalGroup a target now labelsConsulted s)).
  unfold evalGroup. rewrite !map_app.
  destruct (groupLine_part s key Hk) as [->|(f1 & -> & Hc1 & Hk1)],
    (groupCompat_part s key Hk) as [->|(f2 & -> & Hc2 & Hk2)],
    (groupNoData_part s key Hk) as [->|(f3 & -> & Hc3 & Hk3)];
  destruct (String.eqb_spec key ""); cbn [map app]; rewrite ?NoDup_cons, ?Hk1, ?Hk2, ?Hk3;
  (split; [done|]); (split; [|split]); unfold addOnCategories;
    repeat match goal with
    | H : _ ∈ [] |- _ => by apply elem_of_nil in H
    | H : _ ∈ [_] |- _ => apply list_elem_of_singleton in H; rewrite H
    | H : _ ∈ [_; _] |- _ => apply elem_of_cons in H as [H|H]; try rewrite H
    end; rewrite ?NoDup_nil; set_solver.
Qed.
End Keys.

Lemma productFinding_key a all now f :
  productFinding a all now = Some f ->
  f_Key f = addOnKey a (f_Category f, ""%string) /\
  (f_Category f = CatEOLAddon \/ f_Category f = CatEOLApproaching).
Proof.
  assert (Hkey : forall c, (c +:+ "/" +:+ a_ID a)%string = addOnKey a (c, ""%string)).
  { intros c. unfold addOnKey. simpl. by rewrite app_nil_r_s. }
  assert (Hsplit : forall e x w c sv t d, splitSupportFinding a all e x now w = Some (c, sv, t, d) ->
    c = CatEOLAddon \/ c = CatEOLApproaching).
  { intros e x w c sv t d. unfold splitSupportFinding.
    repeat (destruct (negb _); [intros [= <- _ _ _]; auto|]). done. }
  unfold productFinding. destruct (eolDate a) as [e|], (extDate a) as [x|].
  1: destruct (splitSupportFinding _ _ _ _ _ _) as [[[[c sv] t] d]|] eqn:E; [|done];
     intros [= <-]; simpl; split; [by rewrite Hkey|by eapply Hsplit].
  all: destruct (_ || _);
    [match goal with |- context [let '(_, _) := ?x in _] => destruct x as [t d] end;
     intros [= <-]; simpl; rewrite Hkey; split; [done|by left]|].
  all: first [done | destruct (negb _); [|done]; intros [= <-]; simpl; rewrite Hkey; split; [done|by right]].
Qed.

(** The groups of an add-on's installs, one per release line. *)
Definition lineGroups (a : AddOn) (ins : list addOnInstall) (node : bool) (now : Time) : list addOnSubject :=
  map (fun key => newAddOnSubject (a_DisplayName a) (default [] (byCycle a now ins !! key))
    (negb (key =s "") && negb (HasPrefix key belowPrefix)) node) (sortedKeys (byCycle a now ins)).

Lemma lineGroups_keys `{Semver} a ins node target now labelsConsulted :
  exists pairs,
    map f_Key (flat_map (evalGroup a target now labelsConsulted) (lineGroups a ins node now)) = map (addOnKey a) pairs /\
    NoDup pairs /\
    (forall p, p ∈ pairs -> p.1 ∈ addOnCategories /\ p.2 ∈ sortedKeys (byCycle a now ins)) /\
    (CatEOLAddon, ""%string) ∉ pairs /\ (CatEOLApproaching, ""%string) ∉ pairs.
Proof.
  unfold lineGroups. destruct (sortedKeys_spec (groupKey a now) ins) as [Hn _].
  change (groupOn (groupKey a now) ins) with (byCycle a now ins) in Hn.
  pose proof (group_versionKey a now ins) as Hv. revert Hv Hn.
  generalize (sortedKeys (byCycle a now ins)) as keys. intros keys Hv Hn.
  induction Hn as [|key keys Hnot Hn IH]; cbn [map flat_map].
  { exists (@nil (string * string)). split_and!; [done|apply NoDup_nil_2|by intros ? ?%elem_of_nil|apply not_elem_of_nil..]. }
  destruct IH as (pairs & Hp & Hnd & Hin & Hno); [set_solver|].
  destruct (evalGroup_keys a target now labelsConsulted
    (newAddOnSubject (a_DisplayName a) (default [] (byCycle a now ins !! key))
       (negb (key =s "") && negb (HasPrefix key belowPrefix)) node) key) as (cats & Hc & Hcn & Hsub & Hempty).
  { rewrite newAddOnSubject_version. apply Hv. by left. }
  exists (map (fun c : string => (c, key)) cats ++ pairs).
  rewrite !map_app, Hc, Hp, map_map. split; [done|].
  assert (Hm : forall p, p ∈ map (fun c : string => (c, key)) cats -> p.1 ∈ cats /\ p.2 = key).
  { intros p Hp'%list_elem_of_In. apply in_map_iff in Hp' as (c & <- & Hc'%list_elem_of_In). done. }
  split_and!.
  - apply NoDup_app. split_and!; [|intros p Hp' Hin'; apply Hm in Hp' as [_ ?]; apply Hin in Hin' as [_ ?]; congruence|done].
    apply (NoDup_fmap_2_strong (fun c : string => (c, key))); [by intros ? ? _ _ [= ->]|done].
  - intros p [Hp'|Hp']%elem_of_app.
    + apply Hm in Hp' as [? ->]. split; [by apply Hsub|by left].
    + apply Hin in Hp' as [? ?]. split; [done|by right].
  - intros [Hp'|Hp']%elem_of_app; [|by destruct Hno]. apply Hm in Hp' as [? Hk]. simpl in *.
    by destruct (Hempty (eq_sym Hk)).
  - intros [Hp'|Hp']%elem_of_app; [|by destruct Hno]. apply Hm in Hp' as [? Hk]. simpl in *.
    by destruct (Hempty (eq_sym Hk)).
Qed.

(** Each key of an add-on's findings is one finding: judging the
    installs of an add-on never gives two findings with the same key,
    whatever the installs, the registry's data and the target. *)
Lemma evalInstalls_keys_unique `{Semver} (a : AddOn) (ins : list addOnInstall) (node : bool)
    (target : Version) (now : Time) (labelsConsulted : bool) :
  NoDup (map f_Key (evalInstalls a ins node target now labelsConsulted)).
Proof.
  unfold evalInstalls. destruct (groupInstalls a ins node now) as [all groups] eqn:Hg. unfold evalAddOn.
  assert (Hgroups : groups = lineGroups a ins node now).
  { unfold groupInstalls in Hg. fold (lineGroups a ins node now) in Hg.
    destruct (lineGroups a ins node now) as [|x [|y l]]; by injection Hg. }
  subst groups.
  destruct (lineGroups_keys a ins node target now labelsConsulted) as (pairs & Hp & Hnd & Hin & Hno1 & Hno2).
  assert (Hinj : forall l, (forall p, p ∈ l -> p.1 ∈ addOnCategories) -> NoDup l -> NoDup (map (addOnKey a) l)).
  { intros l Hl Hdl. apply (NoDup_fmap_2_strong (addOnKey a)); [|done].
    intros p q Hp1 Hq1 E. eapply addOnKey_inj; [by apply Hl|by apply Hl|done]. }
  rewrite map_app, Hp. destruct (productFinding a all now) as [f|] eqn:Hf; [|by apply Hinj; [intros ? [? _]%Hin|]].
  apply productFinding_key in Hf as [Hk Hcat]. simpl. rewrite Hk.
  apply (Hinj ((f_Category f, ""%string) :: pairs)).
  - intros p [->|?]%elem_of_cons; [|by apply Hin]. simpl. unfold addOnCategories.
    rewrite !elem_of_cons. tauto.
  - apply NoDup_cons. split; [|done]. by destruct Hcat as [->| ->].
Qed.

(** ** What the findings of an add-on say *)

Section Reports.
Context `{Semver} (a : AddOn) (ins : list addOnInstall) (node : bool) (target : Version) (now : Time)
  (labelsConsulted : bool).
#[local] Notation findings := (evalInstalls a ins node target now labelsConsulted).

(** A range of Kubernetes versions that excludes [target]: its maximum is
    older, or its minimum is newer; a bound that is no version is none. *)
Definition excludes (k8sMin k8sMax : string) : Prop :=
  (exists v, ParseVersion k8sMax = Ok v /\ vlt v target) \/ (exists v, ParseVersion k8sMin = Ok v /\ vlt target v).

(** The row of a list of compat rows that decides for a version: the first
    whose range the version is in. *)
Definition decidingRow (version : string) (rows : list Compat) (c : Compat) : Prop :=
  exists before after, rows = before ++ c :: after /\ matchesRange version (co_Range c) = true /\
    Forall (fun b => matchesRange version (co_Range b) = false) before.

(** An install known by its version that cannot run [target]: its release
    line excludes it, or the compat row that decides for it does. *)
Definition cannotRun (i : addOnInstall) : Prop :=
  in_version i <> ""%string /\
  ((exists cy, cycleFor (in_version i) (a_Cycles a) = Some cy /\ excludes (cy_K8sMin cy) (cy_K8sMax cy)) \/
   (exists c, decidingRow (in_version i) (a_Compat a) c /\ excludes (co_K8sMin c) (co_K8sMax c))).

Lemma k8sOutOfRange_spec name version k8sMin k8sMax : is_Some (k8sOutOfRange name version k8sMin k8sMax target) <-> excludes k8sMin k8sMax.
Proof.
  assert (Hne : forall s v, ParseVersion s = Ok v -> (s =s "") = false) by (intros s v E; apply String.eqb_neq; intros ->; vm_compute in E; discriminate E).
  assert (Hb : forall s (f : Version -> bool), match to_option (ParseVersion s) with Some v => negb (s =s "") && f v | None => false end = true <->
    exists v, ParseVersion s = Ok v /\ f v = true).
  { intros s f. destruct (ParseVersion s) as [v|e] eqn:E; cbn [to_option].
    - rewrite (Hne s v E). cbn [negb andb]. split; [eauto|]. by intros (w & [= ->] & Hf).
    - split; [done|]. by intros (w & ? & _). }
  unfold k8sOutOfRange, excludes. cbv zeta.
  pose proof (Hb k8sMax (fun v => Compare v target <? 0)) as Hmax. pose proof (Hb k8sMin (fun v => Compare target v <? 0)) as Hmin.
  setoid_rewrite Z.ltb_lt in Hmax. setoid_rewrite Z.ltb_lt in Hmin. setoid_rewrite Compare_lt in Hmax. setoid_rewrite Compare_lt in Hmin.
  rewrite <- Hmax, <- Hmin. destruct (match to_option (ParseVersion k8sMax) with Some _ => _ | None => _ end); [by split; [left|eauto]|].
  destruct (match to_option (ParseVersion k8sMin) with Some _ => _ | None => _ end); [by split; [right|eauto]|].
  split; [by intros [? ?]|by intros [?|?]].
Qed.

Lemma find_deciding version rows c : find (fun c => matchesRange version (co_Range c)) rows = Some c <-> decidingRow version rows c.
Proof.
  unfold decidingRow. induction rows as [|r rows IH]; cbn [find].
  - split; [done|]. by intros ([|] & ? & ? & _).
  - destruct (matchesRange version (co_Range r)) eqn:E.
    + split; [intros [= ->]; exists [], rows; done|]. intros ([|b before] & after & [= <- ->] & Hm & Hf); [done|].
      apply Forall_cons in Hf as [? _]. congruence.
    + rewrite IH. split.
      * intros (before & after & -> & Hm & Hf). exists (r :: before), after. split_and!; [done|done|by constructor].
      * intros ([|b before] & after & [= <- ->] & Hm & Hf); [congruence|]. apply Forall_cons in Hf as [_ Hf]. by exists before, after.
Qed.

Lemma compatRow_spec version :
  is_Some (compatRow a version target) <-> exists c, decidingRow version (a_Compat a) c /\ excludes (co_K8sMin c) (co_K8sMax c).
Proof.
  unfold compatRow. setoid_rewrite <- find_deciding. destruct (find _ (a_Compat a)) as [c|].
  - setoid_rewrite <- (k8sOutOfRange_spec (a_DisplayName a) version). split.
    + intros H'. exists c. split; [done|]. by destruct (k8sOutOfRange _ _ _ _ _).
    + intros (c' & [= <-] & [t ->]). eauto.
  - split; [by intros [? ?]|by intros (? & ? & _)].
Qed.

Lemma compatFor_spec version :
  is_Some (compatFor a version target) <->
  (exists cy, cycleFor version (a_Cycles a) = Some cy /\ excludes (cy_K8sMin cy) (cy_K8sMax cy)) \/
  (exists c, decidingRow version (a_Compat a) c /\ excludes (co_K8sMin c) (co_K8sMax c)).
Proof.
  rewrite <- compatRow_spec. unfold compatFor. destruct (cycleFor version (a_Cycles a)) as [cy|].
  - pose proof (k8sOutOfRange_spec (a_DisplayName a) version (cy_K8sMin cy) (cy_K8sMax cy)) as Hs.
    destruct (k8sOutOfRange _ _ _ _ _) as [t|].
    + split; [|eauto]. intros _. left. exists cy. split; [done|]. apply Hs. eauto.
    + split; [by right|]. intros [(cy' & [= <-] & He)|Hr]; [|done]. apply Hs in He as [? ?]. done.
  - split; [by right|]. by intros [(? & ? & _)|?].
Qed.

Lemma badInstalls_in l x :
  x ∈ badInstalls a target l -> x.1 ∈ l /\ cannotRun x.1.
Proof.
  unfold badInstalls. rewrite list_elem_of_omap. intros (i & Hi & E).
  destruct (String.eqb_spec (in_version i) ""); [done|].
  destruct (compatFor _ _ _) eqn:Ec; [|done]. injection E as <-. split; [done|]. split; [done|]. apply compatFor_spec. eauto.
Qed.

Lemma badInstalls_complete l i : i ∈ l -> cannotRun i -> exists why, (i, why) ∈ badInstalls a target l.
Proof.
  intros Hi [Hv [why Hw]%compatFor_spec]. exists why. unfold badInstalls. rewrite list_elem_of_omap. exists i.
  split; [done|]. rewrite (proj2 (String.eqb_neq _ _)) by done. by rewrite Hw.
Qed.

Lemma olderBad_Some l x : exists y, foldl olderBad (Some x) l = Some y.
Proof.
  revert x. induction l as [|z l IH]; intros x; simpl; [by eauto|]. destruct (versionBefore _ _); apply IH.
Qed.

Lemma evalAddOnCompat_iff s :
  is_Some (evalAddOnCompat a s target) <-> exists i, i ∈ s_installs s /\ cannotRun i.
Proof.
  unfold evalAddOnCompat. destruct (badInstalls a target (s_installs s)) as [|x l] eqn:E; simpl.
  - split; [by intros [? ?]|]. intros (i & Hi & Hc). destruct (badInstalls_complete _ _ Hi Hc) as [why Hw].
    rewrite E in Hw. by apply elem_of_nil in Hw.
  - destruct (olderBad_Some l x) as [[? [[? ?] ?]] ->]. split; [|by eauto]. intros _.
    exists x.1. apply badInstalls_in. rewrite E. by left.
Qed.

Lemma evalInstalls_in f :
  f ∈ findings <->
  productFinding a (groupInstalls a ins node now).1 now = Some f \/
  exists s, s ∈ (groupInstalls a ins node now).2 /\ f ∈ evalGroup a target now labelsConsulted s.
Proof.
  unfold evalInstalls, evalAddOn. destruct (groupInstalls a ins node now) as [all groups]. simpl.
  assert (Hg : f ∈ flat_map (evalGroup a target now labelsConsulted) groups <->
    exists s, s ∈ groups /\ f ∈ evalGroup a target now labelsConsulted s).
  { rewrite list_elem_of_In, in_flat_map. by setoid_rewrite <- list_elem_of_In. }
  rewrite elem_of_app, Hg. destruct (productFinding a all now) as [g|].
  - rewrite list_elem_of_singleton. split; intros [E|?]; auto; left; congruence.
  - rewrite elem_of_nil. split; intros [E|?]; auto; done.
Qed.

Lemma groups_node s : s ∈ (groupInstalls a ins node now).2 -> s_node s = node.
Proof.
  unfold groupInstalls. set (groups := map _ _).
  replace ((match groups with [g] => (g, groups) | _ => (_, groups) end).2) with groups
    by (destruct groups as [|? [|? ?]]; done).
  intros Hin%list_elem_of_In. apply in_map_iff in Hin as (key & <- & _).
  unfold newAddOnSubject. by destruct node.
Qed.

Lemma compat_reported :
  ((exists f, f ∈ findings /\ f_Category f = CatChartIncompat) <-> exists i, i ∈ ins /\ cannotRun i) /\
  (forall f, f ∈ findings -> f_Category f = CatChartIncompat -> f_Severity f = SevBlocker).
Proof using Type.
  destruct (groupInstalls_parts a ins node now) as [Hperm _].
  assert (Hgroup : forall s f, f ∈ evalGroup a target now labelsConsulted s -> f_Category f = CatChartIncompat ->
    exists g, evalAddOnCompat a s target = Some g /\ f_Severity f = f_Severity g).
  { intros s f Hf Hcat. unfold evalGroup in Hf. rewrite !elem_of_app in Hf. destruct Hf as [Hf|[Hf|Hf]].
    - destruct (groupLine_part a now s _ eq_refl) as [E|(g & E & Hc & _)]; rewrite E in Hf.
      + by apply elem_of_nil in Hf.
      + apply list_elem_of_singleton in Hf as ->. rewrite Hcat in Hc. destruct (_ =s _); set_solver.
    - unfold groupCompat in Hf. destruct (evalAddOnCompat a s target) as [g|] eqn:E; [|by apply elem_of_nil in Hf].
      apply list_elem_of_singleton in Hf as ->. exists g. done.
    - destruct (groupNoData_part a now labelsConsulted s _ eq_refl) as [E|(g & E & Hc & _)]; rewrite E in Hf.
      + by apply elem_of_nil in Hf.
      + apply list_elem_of_singleton in Hf as ->. rewrite Hcat in Hc. destruct (_ =s _); set_solver. }
  assert (Hproduct : forall f, productFinding a (groupInstalls a ins node now).1 now = Some f ->
    f_Category f = CatChartIncompat -> False).
  { intros f Hf Hcat. apply productFinding_key in Hf as [_ [E|E]]; by rewrite Hcat in E. }
  split; [split|].
  - intros (f & Hf & Hcat). apply evalInstalls_in in Hf as [Hf|(s & Hs & Hf)]; [by destruct (Hproduct f)|].
    destruct (Hgroup s f Hf Hcat) as (g & Hg & _).
    destruct (proj1 (evalAddOnCompat_iff s)) as (i & Hi & Hc); [by eauto|]. exists i. split; [|done].
    rewrite <- Hperm. apply list_elem_of_In, in_flat_map. exists s. by rewrite <- !list_elem_of_In.
  - intros (i & Hi & Hc). rewrite <- Hperm in Hi. apply list_elem_of_In, in_flat_map in Hi as (s & Hs & Hi).
    apply list_elem_of_In in Hs, Hi. destruct (proj2 (evalAddOnCompat_iff s)) as [f Hf]; [by eauto|].
    exists (set_Key (groupFindingKey a s now CatChartIncompat) f).
    split; [|by apply evalAddOnCompat_shape in Hf as [? _]].
    apply evalInstalls_in. right. exists s. split; [done|]. unfold evalGroup, groupCompat. rewrite Hf.
    rewrite !elem_of_app. right; left. by left.
  - intros f Hf Hcat. apply evalInstalls_in in Hf as [Hf|(s & Hs & Hf)]; [by destruct (Hproduct f)|].
    destruct (Hgroup s f Hf Hcat) as (g & Hg & ->). by apply evalAddOnCompat_shape in Hg as [_ ?].
Qed.

(** An add-on is reported as incompatible exactly when an install is:
    judging an add-on gives a chart-incompat finding iff some install of
    known version is excluded by its release line's or its compat row's
    Kubernetes range, and such a finding is a blocker. *)
Lemma evalInstalls_compat :
  ((exists f, f ∈ findings /\ f_Category f = CatChartIncompat) <-> exists i, i ∈ ins /\ cannotRun i) /\
  (forall f, f ∈ findings -> f_Category f = CatChartIncompat -> f_Severity f = SevBlocker).
Proof. apply compat_reported. Qed.

(** The finding of a group on an ended line. *)
Lemma groupLine_ended s c :
  productDated a = false -> s ∈ (groupInstalls a ins node now).2 ->
  cycleFor (s_version s) (a_Cycles a) = Some c -> cycleEnded c now = true ->
  exists f, f ∈ findings /\ f_Category f = CatEOLAddon /\ f_Severity f = if node then SevWarning else SevBlocker.
Proof.
  intros Hp Hs Hc He.
  destruct (cycleEOL_cases a c s now (eolWindow now)) as (Hb & _ & Hcat).
  destruct (proj2 Hb He) as (f & Hf & Hsev). destruct (Hcat f Hf) as [[_ Hcf]|[E _]]; [|by rewrite Hsev in E].
  exists (located_line a s now f). split_and!.
  - apply evalInstalls_in. right. exists s. split; [done|]. unfold evalGroup, groupLine, onLine, lineEOL.
    rewrite Hc, Hp, Hf. simpl. by left.
  - by rewrite located_line_category.
  - unfold located_line. rewrite (groups_node s Hs). simpl. rewrite Hsev. by destruct node.
Qed.

(** An install on an ended release line is reported: unless the
    product itself carries a date, it gives an end-of-life finding, a
    blocker for an add-on and a warning for a node's container runtime,
    which the node image brings. *)
Lemma ended_line_reported (i : addOnInstall) (c : Cycle) :
  (forall c1 c2, c1 ∈ a_Cycles a -> c2 ∈ a_Cycles a -> cy_Cycle c1 = cy_Cycle c2 -> c1 = c2) ->
  productDated a = false -> i ∈ ins -> cycleFor (in_version i) (a_Cycles a) = Some c ->
  cycleEnded c now = true ->
  exists f, f ∈ findings /\ f_Category f = CatEOLAddon /\
    f_Severity f = if node then SevWarning else SevBlocker.
Proof using Type.
  intros Hu Hp Hi Hc He. destruct (groupInstalls_parts a ins node now) as [Hperm Hpart].
  rewrite <- Hperm in Hi. apply list_elem_of_In, in_flat_map in Hi as (s & Hs & Hi).
  apply list_elem_of_In in Hs, Hi. destruct (Hpart s Hs) as [_ Hkey]. specialize (Hkey i Hi).
  apply (groupLine_ended s c); [done..| |done].
  assert (Hcin : forall v c, cycleFor v (a_Cycles a) = Some c -> c ∈ a_Cycles a).
  { intros v c0. unfold cycleFor. destruct (versionParts v) as [p|]; [|done]. intros E.
    pose proof (cycle_best_fold p (a_Cycles a)) as Hb. unfold cycle_best in Hb. rewrite E in Hb. by destruct Hb. }
  assert (Hnb : forall v c0, cycleFor v (a_Cycles a) = Some c0 -> HasPrefix (cy_Cycle c0) belowPrefix = false).
  { intros v c0 E. unfold cycleFor in E. destruct (versionParts v) as [p|]; [|done].
    pose proof (cycle_best_fold p (a_Cycles a)) as Hb. unfold cycle_best in Hb. rewrite E in Hb.
    destruct Hb as (_ & q & Hq & _). destruct (HasPrefix (cy_Cycle c0) belowPrefix) eqn:Hpre; [|done]. exfalso.
    rewrite (HasPrefix_split _ _ Hpre) in Hq. by vm_compute in Hq. }
  unfold versionKey, groupKey in Hkey. simpl in Hkey. rewrite Hc in Hkey.
  destruct (cycleFor (s_version s) (a_Cycles a)) as [c'|] eqn:Hc'.
  - f_equal. symmetry. apply Hu; eauto.
  - exfalso. destruct (predatesCycles _ _ _).
    + specialize (Hnb _ _ Hc). rewrite Hkey, HasPrefix_app in Hnb. done.
    + by apply cycleFor_named in Hc.
Qed.
End Reports.

(** ** A small registry *)

(** Constraints that accept exactly their own text. *)
Definition exactSemver : Semver := {|
  Constraint := string; SemVersion := string;
  NewConstraint s := if s =s "" then None else Some s;
  NewVersion s := if s =s "" then None else Some s;
  Prerelease _ := ""%string; Metadata _ := ""%string;
  SetPrerelease v _ := Some v; SetMetadata v _ := Some v;
  NewMinor x y := itoa x +:+ "." +:+ itoa y;
  Check c v := c =s v
|}.

Definition certCycle (name date : string) : Cycle :=
  mkCycle name (Some (mkCycleEOL date false)) "1.20" "1.27" [].

Definition certManager : AddOn :=
  mkAddOn 1 "cert-manager" "cert-manager" (mkMatchers [] [] [] []) (mkSupport "supported" "" "" "" [])
    [certCycle "1.11" "2023-09-12"; certCycle "1" "2030-01-01"; certCycle "1.10" "2023-05-19"] [] "" "".

(** 1 January 2026. *)
Definition newYear2026 : Time := civil 2026 1 1 * day.

Lemma cycleFor_most_specific_witness :
  cycleFor "1.11.3" (a_Cycles certManager) = Some (certCycle "1.11" "2023-09-12") /\
  certCycle "1.11" "2023-09-12" ∈ a_Cycles certManager.
Proof.
  split; [vm_compute; reflexivity|].
  pose proof (cycleFor_most_specific "1.11.3" [1; 11; 3] (a_Cycles certManager)) as Hc.
  replace (cycleFor "1.11.3" (a_Cycles certManager)) with (Some (certCycle "1.11" "2023-09-12")) in Hc
    by (vm_compute; reflexivity).
  apply Hc. vm_compute. reflexivity.
Defined.


Lemma ended_line_reported_witness :
  exists f, f ∈ @evalInstalls exactSemver certManager [mkInstall "1.11.3" "image" ["cm"%string] []] false
                  (mkVersion 1 27) newYear2026 true /\
    f_Category f = CatEOLAddon /\ f_Severity f = SevBlocker.
Proof.
  apply (@ended_line_reported exactSemver certManager [mkInstall "1.11.3" "image" ["cm"%string] []] false
    (mkVersion 1 27) newYear2026 true (mkInstall "1.11.3" "image" ["cm"%string] [])
    (certCycle "1.11" "2023-09-12")).
  - intros c1 c2 H1 H2 E. unfold certManager in H1, H2. simpl in H1, H2.
    rewrite !elem_of_cons, elem_of_nil in H1, H2.
    destruct H1 as [->|[->|[->|[]]]], H2 as [->|[->|[->|[]]]]; reflexivity || discriminate E.
  - vm_compute. reflexivity.
  - by left.
  - vm_compute. reflexivity.
  - vm_compute. reflexivity.
Defined.

(** A container runtime whose product is retired, on one node. *)
Definition retiredRuntime : AddOn :=
  mkAddOn 2 "dockershim" "Dockershim" (mkMatchers [] [] ["docker"%string] []) (mkSupport "eol" "2022-05-03" "" "" [])
    [] [] "" "".

Definition dockerInventory : Inventory :=
  mkInventory 1 "c" 1 SourceCluster 0 "v1.23.4" "" ∅ [] [] [] [] []
    [mkNodeInfo "n1" "v1.23.4" "docker://20.10.7"] [] [] [] 0 [] [] 0 0 [].

(** The retirement of a runtime's product blocks like that of any add-on:
    the exception for node runtimes covers release lines only, though the
    comment on [addOnSubject.node] says that nothing but a compatibility row
    blocks. *)
Lemma retired_runtime_blocks :
  exists f, f ∈ @evalNodeRuntimes exactSemver dockerInventory [retiredRuntime] (mkVersion 1 24) newYear2026 /\
    f_Category f = CatEOLAddon /\ f_Severity f = SevBlocker.
Proof. eexists. split; [left|vm_compute; auto]. Qed.
