(* ===== verification/Skew.v ===== *)
(** * Version skew, knowledge-base coverage and the upgrade path
    (internal/engine/engine.go)

    The rules of the upstream version-skew policy over the observed
    kube-apiserver, control-plane, kubelet and kube-proxy versions. *)

From stdpp Require Import base list strings gmap sorting.
From Stdlib Require Import ZArith Lia.
From S2P Require Import Prelude GoStr GoTime Version Inventory KB Findings.

(** ** Versions observed *)

Definition containsVersion (vs : list Version) (v : Version) : bool :=
  existsb (version_eqb v) vs.

(** [if v, err := ParseVersion(raw); err == nil && !slices.Contains(vs, v) {
    vs = append(vs, v) }] *)
Definition addVersion (vs : list Version) (raw : string) : list Version :=
  match ParseVersion raw with
  | Ok v => if containsVersion vs v then vs else vs ++ [v]
  | Err _ => vs
  end.

Definition sortVersions (vs : list Version) : list Version := isort (fun a b => Compare a b <=? 0) vs.

Definition componentRaw (inv : Inventory) (component : string) : list string :=
  map cv_Version (filter (fun cv => cv_Component cv = component) (ControlPlane inv)).

Definition apiserverVersions (inv : Inventory) : list Version :=
  sortVersions (foldl addVersion [] (ServerVersion inv :: componentRaw inv "kube-apiserver")).

(** [byComp[component]] of [evalControlPlaneSkew]. *)
Definition byComp (inv : Inventory) (component : string) : list Version :=
  sortVersions (foldl addVersion [] (componentRaw inv component)).

(** ** Limits *)

Definition legacyMaxBehind (limit : Z) (v : Version) : Z :=
  if (Major v =? 1) && (Minor v <? 25) then Z.min limit 2 else limit.

Definition legacyNote (components : string) (applied : bool) : string :=
  if negb applied then "" else " " +:+ components +:+ " older than 1.25 may be at most 2 minor versions behind.".

(** [minorsBehind], in 64-bit arithmetic. *)
Definition flatMinor (v : Version) : Z := wrap64 (wrap64 (Major v * 1000) + Minor v).
Definition minorsBehind (ctrl kubelet : Version) : Z := wrap64 (flatMinor ctrl - flatMinor kubelet).

Definition maxListedNodes : Z := 100.

Definition listedNodes (entries : list string) : string :=
  if zlen entries <=? maxListedNodes then Join entries ", "
  else Join (take (Z.to_nat maxListedNodes) entries) ", " +:+ ", and " +:+
       itoa (zlen entries - maxListedNodes) +:+ " more".

(** A finding with one citation, present when [entries] is not empty. *)
Definition skewFinding (severity name title detail citation : string) : Finding :=
  newFinding CatVersionSkew severity (CatVersionSkew +:+ "/" +:+ name) title detail [citation].

Definition when_some {A} (l : list A) (f : Finding) : list Finding :=
  match l with [] => [] | _ => [f] end.

(** ** evalSkew *)

(** A node whose kubelet version parses, and one whose does not. *)
Definition kubeletOf (n : NodeInfo) : option Version := to_option (ParseVersion (n_KubeletVersion n)).

Definition nodeEntry (n : NodeInfo) : string := n_Name n +:+ " (" +:+ n_KubeletVersion n +:+ ")".

(** Whether the kubelet of [n] is further behind [ctrl] than its limit. *)
Definition kubeletBehind (maxBehind : Z) (ctrl : Version) (n : NodeInfo) : bool :=
  match kubeletOf n with
  | Some kv => legacyMaxBehind maxBehind kv <? minorsBehind ctrl kv
  | None => false
  end.

(** Whether the narrower limit applied to it. *)
Definition kubeletLegacy (maxBehind : Z) (n : NodeInfo) : bool :=
  match kubeletOf n with
  | Some kv => legacyMaxBehind maxBehind kv <? maxBehind
  | None => false
  end.

Definition evalSkew (inv : Inventory) (k : KB) (target : Version) : list Finding :=
  match apiserverVersions inv with
  | [] => []
  | oldest :: rest =>
      let newest := List.last rest oldest in
      let maxBehind := KubeletMaxBehind (k_Skew k) in
      let nodes := Nodes inv in
      let nowNodes := filter (fun n => kubeletBehind maxBehind newest n = true) nodes in
      let postNodes := filter (fun n => kubeletBehind maxBehind target n = true) nodes in
      let newerNodes := filter (fun n => match kubeletOf n with
                                         | Some kv => 0 <? Compare kv oldest | None => false end = true) nodes in
      let badNodes := filter (fun n => match kubeletOf n with Some _ => false | None => true end = true) nodes in
      let nowBad := sort_strings (map nodeEntry nowNodes) in
      let postBad := sort_strings (map nodeEntry postNodes) in
      let newer := sort_strings (map nodeEntry newerNodes) in
      let unparseable := sort_strings (map (fun n => n_Name n +:+ " (" +:+ quote (n_KubeletVersion n) +:+ ")") badNodes) in
      when_some postBad
        (skewFinding SevBlocker "kubelet-post-upgrade"
           (itoa (zlen postBad) +:+ " node(s) would exceed kubelet version skew after upgrading to " +:+ VString target)
           ("After upgrading the control plane to " +:+ VString target +:+ " these nodes would be more than " +:+
            itoa maxBehind +:+ " minor versions behind: " +:+ listedNodes postBad +:+ "." +:+
            legacyNote "Kubelets" (existsb (kubeletLegacy maxBehind) postNodes))
           skewPolicyURL) ++
      when_some nowBad
        (skewFinding SevWarning "kubelet-current"
           (itoa (zlen nowBad) +:+ " node(s) exceed kubelet version skew vs control plane " +:+ VString newest)
           ("Nodes more than " +:+ itoa maxBehind +:+ " minor versions behind: " +:+ listedNodes nowBad +:+ "." +:+
            legacyNote "Kubelets" (existsb (kubeletLegacy maxBehind) nowNodes))
           skewPolicyURL) ++
      when_some newer
        (skewFinding SevWarning "kubelet-newer-than-apiserver"
           (itoa (zlen newer) +:+ " node(s) run a kubelet newer than kube-apiserver " +:+ VString oldest)
           ("kubelet must not be newer than kube-apiserver; when kube-apiserver versions differ, the oldest one (" +:+
            VString oldest +:+ ") bounds the allowed kubelet versions. Newer nodes: " +:+ listedNodes newer +:+ ".")
           skewPolicyURL) ++
      when_some unparseable
        (skewFinding SevInfo "kubelet-unparseable"
           (itoa (zlen unparseable) +:+ " node(s) have unparseable kubelet versions")
           ("These nodes could not be evaluated against the kubelet skew policy: " +:+ listedNodes unparseable +:+ ".")
           skewPolicyURL)
  end.

(** ** evalControlPlaneSkew *)

Record skewRule := mkRule {
  ru_component : string;
  ru_maxBehind : Z;
  ru_legacy : bool;
  ru_newerSev : string;
  ru_newerDetail : string;
}.

Definition controlPlaneDetail : string :=
  "control-plane components must not be newer than the apiservers they talk to".

Definition skewRules (p : SkewPolicy) : list skewRule := [
  mkRule "kube-controller-manager" (CtrlMgrMaxBehind p) false SevBlocker controlPlaneDetail;
  mkRule "kube-scheduler" (CtrlMgrMaxBehind p) false SevBlocker controlPlaneDetail;
  mkRule "kube-proxy" (KubeProxyMaxBehind p) true SevWarning "kube-proxy must not be newer than kube-apiserver"
].

Definition ruleLimit (r : skewRule) (v : Version) : Z :=
  if ru_legacy r then legacyMaxBehind (ru_maxBehind r) v else ru_maxBehind r.

(** The findings of one rule for the versions [vs] of its component. *)
Definition ruleFindings (r : skewRule) (oldest newest : Version) (vs : list Version) : list Finding :=
  let newer := filter (fun v => (0 <? Compare v oldest) = true) vs in
  let behind := filter (fun v => negb (0 <? Compare v oldest) && (ruleLimit r v <? minorsBehind newest v) = true) vs in
  when_some newer
    (skewFinding (ru_newerSev r) (ru_component r +:+ "-newer")
       (ru_component r +:+ " is newer than kube-apiserver")
       (ru_component r +:+ " " +:+ Join (map VString newer) ", " +:+ " is newer than the oldest kube-apiserver (" +:+
        VString oldest +:+ "); " +:+ ru_newerDetail r +:+ ".") skewPolicyURL) ++
  when_some behind
    (skewFinding SevWarning (ru_component r +:+ "-behind")
       (ru_component r +:+ " exceeds version skew vs kube-apiserver")
       (ru_component r +:+ " " +:+ Join (map VString behind) ", " +:+ " is more than " +:+ itoa (ru_maxBehind r) +:+
        " minor version(s) behind the newest kube-apiserver (" +:+ VString newest +:+ ")." +:+
        legacyNote "kube-proxy versions" (existsb (fun v => ruleLimit r v <? ru_maxBehind r) behind))
       skewPolicyURL).

Definition proxyPostFindings (k : KB) (target : Version) (vs : list Version) : list Finding :=
  let limit := KubeProxyMaxBehind (k_Skew k) in
  let post := filter (fun v => (legacyMaxBehind limit v <? minorsBehind target v) = true) vs in
  when_some post
    (skewFinding SevBlocker "kube-proxy-post-upgrade"
       ("kube-proxy would exceed version skew after upgrading to " +:+ VString target)
       ("After upgrading the control plane to " +:+ VString target +:+ ", kube-proxy " +:+
        Join (map VString post) ", " +:+ " would be more than " +:+ itoa limit +:+
        " minor versions behind kube-apiserver; upgrade kube-proxy first." +:+
        legacyNote "kube-proxy versions" (existsb (fun v => legacyMaxBehind limit v <? limit) post))
       skewPolicyURL).

Definition spreadFindings (k : KB) (api : list Version) : list Finding :=
  match api with
  | oldest :: ((_ :: _) as rest) =>
      let newest := List.last rest oldest in
      let spread := minorsBehind newest oldest in
      if APIServerHASpread (k_Skew k) <? spread then
        [skewFinding SevWarning "apiserver-ha-spread"
           ("HA kube-apiserver replicas span " +:+ itoa spread +:+ " minor versions")
           ("Observed kube-apiserver versions: " +:+ Join (map VString api) ", " +:+
            ". The version-skew policy requires HA kube-apiserver instances to be within " +:+
            itoa (APIServerHASpread (k_Skew k)) +:+ " minor version of each other.") skewPolicyURL]
      else []
  | _ => []
  end.

(** The versions components are compared with: those of the apiserver pods,
    or the reported server version when no pod was seen. *)
Definition referenceVersions (inv : Inventory) : list Version :=
  match byComp inv "kube-apiserver" with
  | [] => match ParseVersion (ServerVersion inv) with Ok sv => [sv] | Err _ => [] end
  | pods => pods
  end.

Definition evalControlPlaneSkew (inv : Inventory) (k : KB) (target : Version) : list Finding :=
  match ControlPlane inv with
  | [] => []
  | _ =>
      let pods := byComp inv "kube-apiserver" in
      let out := proxyPostFindings k target (byComp inv "kube-proxy") ++ spreadFindings k pods in
      match referenceVersions inv with
      | [] => out
      | oldest :: rest =>
          let newest := List.last rest oldest in
          out ++ flat_map (fun r => ruleFindings r oldest newest (byComp inv (ru_component r)))
                   (skewRules (k_Skew k))
      end
  end.

(** ** evalKubeProxyKubeletSkew *)

(** The kubelet version of a node, as parsed and as written: the last row
    of the node that parses counts. *)
Definition kubelets (nodes : list NodeInfo) : gmap string (Version * string) :=
  foldl (fun m n => match kubeletOf n with
                    | Some kv => <[n_Name n := (kv, n_KubeletVersion n)]> m
                    | None => m
                    end) ∅ nodes.

Record badProxy := mkBad { bad_kubelet : string; bad_proxies : list string; bad_legacy : bool }.

Definition proxyRow (limit : Z) (ks : gmap string (Version * string)) (m : gmap string badProxy)
    (cv : ComponentVersion) : gmap string badProxy :=
  if negb (cv_Component cv =s "kube-proxy") || (cv_Node cv =s "") then m else
  match ks !! cv_Node cv, ParseVersion (cv_Version cv) with
  | Some (kv, raw), Ok pv =>
      let lim := legacyMaxBehind limit pv in
      if (minorsBehind kv pv <=? lim) && (minorsBehind pv kv <=? lim) then m else
      let b := default (mkBad raw [] false) (m !! cv_Node cv) in
      <[cv_Node cv := mkBad (bad_kubelet b) (bad_proxies b ++ [cv_Version cv]) (bad_legacy b || (lim <? limit))]> m
  | _, _ => m
  end.

Definition evalKubeProxyKubeletSkew (inv : Inventory) (k : KB) : list Finding :=
  let limit := KubeProxyMaxBehind (k_Skew k) in
  let byNode := foldl (proxyRow limit (kubelets (Nodes inv))) ∅ (ControlPlane inv) in
  map (fun node =>
    let b := default (mkBad "" [] false) (byNode !! node) in
    skewFinding SevWarning ("kube-proxy-kubelet/" +:+ node)
      ("kube-proxy on node " +:+ node +:+ " exceeds version skew vs its kubelet")
      ("kube-proxy " +:+ Join (sort_strings (bad_proxies b)) ", " +:+ " on node " +:+ node +:+ " is more than " +:+
       itoa limit +:+ " minor version(s) older or newer than the kubelet on that node (" +:+ bad_kubelet b +:+ ")." +:+
       legacyNote "kube-proxy versions" (bad_legacy b))
      (skewPolicyURL +:+ "#kube-proxy"))
    (sort_strings (map fst (map_to_list byNode))).

(** ** evalKBStale *)

Definition evalKBStale (inv : Inventory) (k : KB) (target : Version) : list Finding :=
  let newest := match ParseVersion (ServerVersion inv) with
                | Ok server => if 0 <? Compare server target then server else target
                | Err _ => target
                end in
  if Compare newest (k_MaxKnownK8s k) <=? 0 then [] else
  [newFinding CatKBStale SevWarning CatKBStale
     ("knowledge base does not cover Kubernetes " +:+ VString newest +:+ " (newest known: " +:+
      VString (k_MaxKnownK8s k) +:+ ")")
     ("Findings may be incomplete; regenerate the knowledge base (kb version " +:+ k_Version k +:+ ").") []].

(** ** upgradeFrom and evalUpgradePath *)

Definition upgradeFrom (inv : Inventory) : option Version :=
  if Source inv =s SourceFiles then None else hd_error (apiserverVersions inv).

Definition maxSpelledHops : Z := 3.

(** [for v := from.Next(); v.Compare(target) <= 0; v = v.Next()]: the
    versions visited. *)
Fixpoint spelledHops (fuel : nat) (v target : Version) : list Version :=
  match fuel with
  | O => []
  | S n => if Compare v target <=? 0 then v :: spelledHops n (Next v) target else []
  end.

Definition evalUpgradePath (inv : Inventory) (target : Version) : list Finding :=
  match upgradeFrom inv with
  | None => []
  | Some from =>
      let hops := wrap64 (Minor target - Minor from) in
      if negb (Major target =? Major from) || (hops <? 2) then [] else
      let path :=
        if hops <=? maxSpelledHops then
          (* one step more than the hops the loop can make *)
          ": " +:+ Join (map VString (spelledHops (S (Z.to_nat hops)) (Next from) target)) ", "
        else " (" +:+ VString from +:+ " → " +:+ VString (Next from) +:+ " → … → " +:+ VString target +:+ ")" in
      [skewFinding SevInfo "upgrade-path"
         ("upgrading from " +:+ VString from +:+ " to " +:+ VString target +:+ " takes " +:+ itoa hops +:+
          " minor-version upgrades" +:+ path)
         ("The control plane is upgraded one minor version at a time. This report judges the cluster as it is against " +:+
          VString target +:+ "; add-ons, charts and nodes may need upgrading at each step in between.")
         skewPolicyURL]
  end.

(** ** Observed versions *)

Lemma version_eqb_spec a b : version_eqb a b = true <-> a = b.
Proof.
  unfold version_eqb. destruct a, b. simpl. rewrite andb_true_iff, !Z.eqb_eq. split; [by intros [-> ->]|by intros [= -> ->]].
Qed.

Lemma containsVersion_spec vs v : containsVersion vs v = true <-> v ∈ vs.
Proof.
  unfold containsVersion. rewrite existsb_exists. split.
  - intros (w & Hw & ->%version_eqb_spec). by apply list_elem_of_In.
  - intros H. exists v. split; [by apply list_elem_of_In|by apply version_eqb_spec].
Qed.

Lemma addVersion_fold raws v :
  v ∈ foldl addVersion [] raws <-> exists raw, raw ∈ raws /\ ParseVersion raw = Ok v.
Proof.
  induction raws as [|r raws IH] using rev_ind.
  { simpl. split; [by intros ?%elem_of_nil|by intros (? & ?%elem_of_nil & _)]. }
  rewrite foldl_snoc. setoid_rewrite elem_of_app. setoid_rewrite list_elem_of_singleton.
  unfold addVersion at 1. destruct (ParseVersion r) as [w|] eqn:Er.
  - destruct (containsVersion _ w) eqn:Ec.
    + apply containsVersion_spec in Ec. rewrite IH. split; [naive_solver|].
      intros (raw & [?| ->] & Hr); [by eauto|]. rewrite Er in Hr. injection Hr as ->. by apply IH.
    + rewrite elem_of_app, IH, list_elem_of_singleton. split; [naive_solver|].
      intros (raw & [?| ->] & Hr); [by eauto|]. rewrite Er in Hr. injection Hr as ->. by right.
  - rewrite IH. split; [naive_solver|]. intros (raw & [?| ->] & Hr); [by eauto|congruence].
Qed.

Lemma sortVersions_perm vs : sortVersions vs ≡ₚ vs.
Proof. apply isort_perm. Qed.

Lemma StronglySorted_weaken {A} (R R' : A -> A -> Prop) l :
  (forall a b, R a b -> R' a b) -> StronglySorted R l -> StronglySorted R' l.
Proof. intros H. induction 1; constructor; [done|]. eapply Forall_impl; eauto. Qed.

Lemma sortVersions_sorted vs : StronglySorted vle (sortVersions vs).
Proof.
  eapply StronglySorted_weaken; [|apply isort_sorted].
  - intros a b H%Z.leb_le. by apply Compare_le.
  - intros a b. rewrite !Z.leb_le, !Compare_le. destruct (vle_total a b) as [|H]; [by left|]. right. by left.
  - intros a b c. rewrite !Z.leb_le, !Compare_le. intros [H1| ->] H2; [|done]. left. by eapply vlt_le_trans.
Qed.

(** A kube-apiserver of the cluster was seen at minor [v]. *)
Definition observedApiserver (inv : Inventory) (v : Version) : Prop :=
  ParseVersion (ServerVersion inv) = Ok v \/
  exists cv, cv ∈ ControlPlane inv /\ cv_Component cv = "kube-apiserver"%string /\ ParseVersion (cv_Version cv) = Ok v.

Lemma apiserverVersions_in inv v : v ∈ apiserverVersions inv <-> observedApiserver inv v.
Proof.
  unfold observedApiserver.
  unfold apiserverVersions. rewrite sortVersions_perm, addVersion_fold. unfold componentRaw.
  setoid_rewrite elem_of_cons. setoid_rewrite list_elem_of_fmap. setoid_rewrite list_elem_of_filter. naive_solver.
Qed.

Lemma apiserverVersions_sorted inv : StronglySorted vle (apiserverVersions inv).
Proof. apply sortVersions_sorted. Qed.

(** A live cluster upgrades from its oldest kube-apiserver: the version
    [upgradeFrom] returns was observed on a kube-apiserver, no observed one
    is older, and there is none exactly when the inventory is of files or
    no kube-apiserver version parses. *)
Lemma upgradeFrom_oldest (inv : Inventory) :
  match upgradeFrom inv with
  | Some v => Source inv <> SourceFiles /\ observedApiserver inv v /\
      forall w, observedApiserver inv w -> vle v w
  | None => Source inv = SourceFiles \/ forall w, ~ observedApiserver inv w
  end.
Proof.
  unfold upgradeFrom. destruct (String.eqb_spec (Source inv) SourceFiles); [by left|].
  pose proof (apiserverVersions_sorted inv) as Hs. pose proof (apiserverVersions_in inv) as Hin.
  destruct (apiserverVersions inv) as [|v vs]; simpl; [right; intros w; rewrite <- Hin; apply not_elem_of_nil|].
  split_and!; [done|apply Hin; by left|]. intros w. rewrite <- Hin. intros [->|Hw]%elem_of_cons; [by right|].
  apply StronglySorted_inv in Hs as [_ Hs]. rewrite Forall_forall in Hs. auto.
Qed.

(** ** Limits *)

(** Versions for which [minorsBehind] does not overflow: any a release can
    have. *)
Definition small_version (v : Version) : Prop := 0 <= Major v <= 2 ^ 50 /\ 0 <= Minor v <= 2 ^ 61.

Lemma minorsBehind_exact ctrl kubelet :
  small_version ctrl -> small_version kubelet ->
  minorsBehind ctrl kubelet = 1000 * (Major ctrl - Major kubelet) + (Minor ctrl - Minor kubelet).
Proof.
  intros [] []. unfold minorsBehind, flatMinor.
  rewrite !(wrap64_id (Major _ * 1000)) by (unfold in_int64, minInt, maxInt; lia).
  rewrite !(wrap64_id (Major _ * 1000 + _)) by (unfold in_int64, minInt, maxInt; lia).
  rewrite wrap64_id by (unfold in_int64, minInt, maxInt; lia). lia.
Qed.

Lemma when_some_in {A} (l : list A) f g : f ∈ when_some l g <-> f = g /\ l <> [].
Proof. destruct l; simpl; [rewrite elem_of_nil|rewrite list_elem_of_singleton]; naive_solver. Qed.

Lemma sort_strings_nil l : sort_strings l <> [] <-> l <> [].
Proof.
  split; intros H E; apply H.
  - by subst.
  - apply Permutation_nil_r. by rewrite <- (sort_strings_perm l), E.
Qed.

Lemma map_nil {A B} (f : A -> B) l : map f l <> [] <-> l <> [].
Proof. by destruct l. Qed.

Lemma filter_not_nil {A} (p : A -> bool) (l : list A) :
  filter (fun x => p x = true) l <> [] <-> exists x, x ∈ l /\ p x = true.
Proof.
  split.
  - destruct (filter _ l) as [|x l'] eqn:E; [done|]. intros _. exists x.
    assert (Hx : x ∈ filter (fun x => p x = true) l) by (rewrite E; by left).
    apply list_elem_of_filter in Hx as [? ?]. done.
  - intros (x & Hx & Hp) E. assert (H : x ∈ filter (fun x => p x = true) l) by by apply list_elem_of_filter.
    rewrite E in H. by apply elem_of_nil in H.
Qed.

(** A kubelet the policy would leave behind the target blocks. *)
Lemma kubelet_blocks inv k target :
  apiserverVersions inv <> [] ->
  (exists f, f ∈ evalSkew inv k target /\ f_Severity f = SevBlocker) <->
  exists n, n ∈ Nodes inv /\ kubeletBehind (KubeletMaxBehind (k_Skew k)) target n = true.
Proof.
  intros Hapi. unfold evalSkew. destruct (apiserverVersions inv) as [|oldest rest]; [done|].
  cbv zeta. rewrite <- filter_not_nil. split.
  - intros (f & Hf & Hs). rewrite !elem_of_app, !when_some_in in Hf.
    destruct Hf as [[-> Hf]|[[-> _]|[[-> _]|[-> _]]]]; try done.
    by rewrite sort_strings_nil, map_nil in Hf.
  - intros Hf. eexists. rewrite elem_of_app, when_some_in. split; [left; split; [reflexivity|]|done].
    by rewrite sort_strings_nil, map_nil.
Qed.

Lemma skew_blocks (inv : Inventory) (k : KB) (target : Version) :
  apiserverVersions inv <> [] -> small_version target -> Major target = 1 ->
  (forall n kv, n ∈ Nodes inv -> kubeletOf n = Some kv -> small_version kv /\ Major kv = 1) ->
  ((exists f, f ∈ evalSkew inv k target /\ f_Severity f = SevBlocker) <->
   exists n kv, n ∈ Nodes inv /\ kubeletOf n = Some kv /\
     let limit := KubeletMaxBehind (k_Skew k) in
     (if Minor kv <? 25 then Z.min limit 2 else limit) < Minor target - Minor kv).
Proof.
  intros Hapi Ht Hm Hn. rewrite kubelet_blocks by done. unfold kubeletBehind. cbv zeta. split.
  - intros (n & Hin & Hb). destruct (kubeletOf n) as [kv|] eqn:E; [|done]. exists n, kv.
    destruct (Hn n kv Hin E) as [Hs H1]. apply Z.ltb_lt in Hb. rewrite minorsBehind_exact in Hb by done.
    unfold legacyMaxBehind in Hb. rewrite H1 in Hb. simpl in Hb. split_and!; [done..|]. case_match; lia.
  - intros (n & kv & Hin & E & Hb). exists n. split; [done|]. rewrite E.
    destruct (Hn n kv Hin E) as [Hs H1]. apply Z.ltb_lt. rewrite minorsBehind_exact by done.
    unfold legacyMaxBehind. rewrite H1. simpl. case_match; lia.
Qed.

(** The kubelet rule: with a kube-apiserver version to compare with, the
    upgrade is blocked by kubelet skew exactly when some node's kubelet
    would be more minors behind the target than the policy allows, two for
    a kubelet older than 1.25; kubelet findings about today's skew are
    never blockers. *)
Lemma evalSkew_blocker (inv : Inventory) (k : KB) (target : Version) :
  apiserverVersions inv <> [] -> small_version target -> Major target = 1 ->
  (forall n kv, n ∈ Nodes inv -> kubeletOf n = Some kv -> small_version kv /\ Major kv = 1) ->
  ((exists f, f ∈ evalSkew inv k target /\ f_Severity f = SevBlocker) <->
   exists n kv, n ∈ Nodes inv /\ kubeletOf n = Some kv /\
     let limit := KubeletMaxBehind (k_Skew k) in
     (if Minor kv <? 25 then Z.min limit 2 else limit) < Minor target - Minor kv).
Proof. apply skew_blocks. Qed.

(** ** The control plane *)

Lemma spreadFindings_warning k api f : f ∈ spreadFindings k api -> f_Severity f = SevWarning.
Proof.
  unfold spreadFindings. destruct api as [|o [|v rest]]; try by intros ?%elem_of_nil.
  destruct (_ <? _); [by intros ->%list_elem_of_singleton|by intros ?%elem_of_nil].
Qed.

Lemma ruleFindings_blocker r oldest newest vs :
  (exists f, f ∈ ruleFindings r oldest newest vs /\ f_Severity f = SevBlocker) <->
  ru_newerSev r = SevBlocker /\ exists v, v ∈ vs /\ vlt oldest v.
Proof.
  unfold ruleFindings. split.
  - intros (f & Hf & Hs). rewrite elem_of_app, !when_some_in in Hf. destruct Hf as [[-> Hf]|[-> _]]; [|done].
    split; [done|]. apply filter_not_nil in Hf as (v & Hv & Hc). exists v. split; [done|].
    apply Z.ltb_lt in Hc. apply Compare_gt. lia.
  - intros [Hs (v & Hv & Hc)]. eexists. rewrite elem_of_app, when_some_in.
    split; [left; split; [reflexivity|]|done]. apply filter_not_nil. exists v. split; [done|].
    apply Compare_gt in Hc. apply Z.ltb_lt. lia.
Qed.

(** The control plane blocks an upgrade exactly when a kube-proxy would
    be out of policy against the target, or a kube-controller-manager or
    kube-scheduler is newer than the oldest kube-apiserver it can talk to. *)
Lemma evalControlPlaneSkew_blocker (inv : Inventory) (k : KB) (target : Version) :
  (exists f, f ∈ evalControlPlaneSkew inv k target /\ f_Severity f = SevBlocker) <->
  (exists v, v ∈ byComp inv "kube-proxy" /\
     legacyMaxBehind (KubeProxyMaxBehind (k_Skew k)) v < minorsBehind target v) \/
  (exists oldest c v, hd_error (referenceVersions inv) = Some oldest /\
     (c = "kube-controller-manager"%string \/ c = "kube-scheduler"%string) /\
     v ∈ byComp inv c /\ vlt oldest v).
Proof.
  assert (Hpost : (exists f, f ∈ proxyPostFindings k target (byComp inv "kube-proxy") /\ f_Severity f = SevBlocker) <->
    exists v, v ∈ byComp inv "kube-proxy" /\
      legacyMaxBehind (KubeProxyMaxBehind (k_Skew k)) v < minorsBehind target v).
  { unfold proxyPostFindings. cbv zeta.
    transitivity (exists v, v ∈ byComp inv "kube-proxy" /\
      (legacyMaxBehind (KubeProxyMaxBehind (k_Skew k)) v <? minorsBehind target v) = true).
    - rewrite <- filter_not_nil. split; [by intros (? & [_ ?]%when_some_in & _)|].
      intros Hne. eexists. rewrite when_some_in. split; [split; [reflexivity|done]|done].
    - by setoid_rewrite Z.ltb_lt. }
  unfold evalControlPlaneSkew. destruct (ControlPlane inv) as [|cv cvs] eqn:Hcp.
  { assert (Hnil : forall c, byComp inv c = []) by (intros c; unfold byComp, componentRaw; by rewrite Hcp).
    split; [by intros (? & ?%elem_of_nil & _)|].
    intros [(v & Hv & _)|(o & c & v & _ & _ & Hv & _)]; rewrite Hnil in Hv; by apply elem_of_nil in Hv. }
  clear Hcp. cbv zeta. destruct (referenceVersions inv) as [|oldest rest]; simpl hd_error.
  - split.
    + intros (f & [Hf|Hf]%elem_of_app & Hs); [left; apply Hpost; eauto|].
      apply spreadFindings_warning in Hf. by rewrite Hs in Hf.
    + intros [H|(? & ? & ? & ? & _)]; [|done]. apply Hpost in H as (f & ? & ?). exists f.
      rewrite elem_of_app. auto.
  - assert (Hr : forall f, f ∈ flat_map (fun r => ruleFindings r oldest (List.last rest oldest) (byComp inv (ru_component r)))
        (skewRules (k_Skew k)) <-> exists r, r ∈ skewRules (k_Skew k) /\
        f ∈ ruleFindings r oldest (List.last rest oldest) (byComp inv (ru_component r))).
    { intros f. rewrite list_elem_of_In, in_flat_map. by setoid_rewrite <- list_elem_of_In. }
    split.
    + intros (f & Hf & Hs). rewrite !elem_of_app in Hf.
      destruct Hf as [[Hf|Hf]|Hf]; [left; apply Hpost; eauto| |].
      * apply spreadFindings_warning in Hf. by rewrite Hs in Hf.
      * right. apply Hr in Hf as (r & Hin & Hf).
        destruct (proj1 (ruleFindings_blocker r oldest (List.last rest oldest) (byComp inv (ru_component r))))
          as (Hsev & v & Hv & Hlt); [by eauto|]. exists oldest, (ru_component r), v. split_and!; [done| |done|done].
        unfold skewRules in Hin. rewrite !elem_of_cons, elem_of_nil in Hin.
        destruct Hin as [->|[->|[->|[]]]]; [by left|by right|done].
    + intros [H|(o & c & v & [= <-] & Hc & Hv & Hlt)]; [apply Hpost in H as (f & ? & ?); exists f; rewrite !elem_of_app; auto|].
      assert (exists r, r ∈ skewRules (k_Skew k) /\ ru_component r = c /\ ru_newerSev r = SevBlocker) as (r & Hin & <- & Hsev).
      { unfold skewRules. setoid_rewrite elem_of_cons.
        destruct Hc as [->| ->]; eexists; (split; [|split]); [by left|done|done|right; by left|done|done]. }
      destruct (proj2 (ruleFindings_blocker r oldest (List.last rest oldest) (byComp inv (ru_component r))))
        as (f & Hf & Hs); [by eauto|]. exists f. split; [|done]. rewrite elem_of_app. right. apply Hr. eauto.
Qed.

(** ** The upgrade path *)

Lemma spelledHops_run fuel M m d :
  0 <= m -> m + Z.of_nat d <= maxInt - 1 -> (d < fuel)%nat ->
  spelledHops fuel (mkVersion M (m + 1)) (mkVersion M (m + Z.of_nat d)) =
  map (fun i => mkVersion M (m + Z.of_nat i)) (seq 1 d).
Proof.
  revert m d. induction fuel as [|fuel IH]; intros m d Hm Hd Hf; [lia|].
  cbn [spelledHops]. destruct d as [|d].
  - replace (Compare _ _ <=? 0) with false; [done|]. symmetry. apply Z.leb_gt.
    apply Z.gt_lt, Compare_gt. right. simpl. lia.
  - replace (Compare _ _ <=? 0) with true.
    2:{ symmetry. apply Z.leb_le, Compare_le. destruct (Z.eq_dec (m + 1) (m + Z.of_nat (S d))) as [->|]; [by right|].
        left. right. simpl. lia. }
    cbn [seq map]. f_equal.
    unfold Next. simpl Minor. simpl Major. rewrite wrap64_id by (unfold in_int64, minInt, maxInt in *; lia).
    replace (m + Z.of_nat (S d)) with ((m + 1) + Z.of_nat d) by lia.
    rewrite IH by lia. rewrite <- (seq_shift d 1), map_map. apply map_ext. intros i. f_equal. lia.
Qed.

(** The upgrade-path finding spells every hop: for a target two or three
    minors ahead of the cluster its loop ends by itself, within the bound of
    the model, and its title names each minor after the cluster's up to the
    target, once and in order. *)
Lemma evalUpgradePath_spelled (inv : Inventory) (from target : Version) :
  upgradeFrom inv = Some from -> 0 <= Minor from -> Minor target <= maxInt - 1 ->
  Major target = Major from -> 2 <= Minor target - Minor from <= maxSpelledHops ->
  let steps := map (fun i => mkVersion (Major from) (Minor from + Z.of_nat i))
                 (seq 1 (Z.to_nat (Minor target - Minor from))) in
  (forall fuel, (Z.to_nat (Minor target - Minor from) < fuel)%nat -> spelledHops fuel (Next from) target = steps) /\
  last steps = Some target /\
  map f_Title (evalUpgradePath inv target) =
    ["upgrading from " +:+ VString from +:+ " to " +:+ VString target +:+ " takes " +:+
     itoa (Minor target - Minor from) +:+ " minor-version upgrades: " +:+ Join (map VString steps) ", "].
Proof.
  intros Hfrom Hm Ht HM Hh. cbv zeta. unfold maxSpelledHops in Hh.
  assert (Hrun : forall fuel, (Z.to_nat (Minor target - Minor from) < fuel)%nat ->
    spelledHops fuel (Next from) target = map (fun i => mkVersion (Major from) (Minor from + Z.of_nat i))
                 (seq 1 (Z.to_nat (Minor target - Minor from)))).
  { intros fuel Hf. rewrite <- (spelledHops_run fuel) by lia. unfold Next.
    rewrite wrap64_id by (unfold in_int64, minInt, maxInt in *; lia). f_equal.
    destruct target as [TM Tm]. simpl in *. f_equal; [done|lia]. }
  split_and!; [done| |].
  - destruct (Z.to_nat (Minor target - Minor from)) as [|d] eqn:E; [lia|].
    rewrite seq_S, map_app. simpl map at 2. rewrite last_snoc. destruct target as [TM Tm]. simpl in *.
    do 2 f_equal; [done|lia].
  - unfold evalUpgradePath. rewrite Hfrom. cbv zeta. rewrite HM, Z.eqb_refl.
    rewrite !wrap64_id by (unfold in_int64, minInt, maxInt in *; lia).
    rewrite (proj2 (Z.ltb_ge _ _)) by lia. simpl negb. cbv iota. rewrite orb_false_l.
    rewrite (proj2 (Z.leb_le _ maxSpelledHops)) by (unfold maxSpelledHops; lia).
    rewrite Hrun by lia. simpl map at 1. done.
Qed.

(** ** A cluster at 1.29 with a node at 1.26 *)

Definition skewInventory : Inventory :=
  mkInventory 1 "c" 1 SourceCluster 0 "v1.29.4" "" ∅ [] [] [] [] []
    [mkNodeInfo "n1" "v1.26.1" "containerd://1.7.2"] [] [] [] 0 [] [] 0 0 [].

Definition emptyKB : KB := mkKB "test" [] [] [] [] DefaultSkewPolicy (mkVersion 1 33) [] [].

Lemma evalSkew_blocker_witness :
  exists f, f ∈ evalSkew skewInventory emptyKB (mkVersion 1 30) /\ f_Severity f = SevBlocker.
Proof.
  apply (evalSkew_blocker skewInventory emptyKB (mkVersion 1 30)).
  - vm_compute. discriminate.
  - unfold small_version. simpl. lia.
  - reflexivity.
  - intros n kv Hn Hk. apply list_elem_of_singleton in Hn as ->. vm_compute in Hk.
    injection Hk as <-. unfold small_version. simpl. lia.
  - exists (mkNodeInfo "n1" "v1.26.1" "containerd://1.7.2"), (mkVersion 1 26).
    split; [by left|]. split; [vm_compute; reflexivity|simpl; lia].
Defined.

(** Outside of [small_version] the flattening overflows: a control plane
    whose major version is this large parses, and counts as behind. *)
Lemma minorsBehind_overflow :
  ParseVersion "9223372036854777.0" = Ok (mkVersion 9223372036854777 0) /\
  minorsBehind (mkVersion 9223372036854777 0) (mkVersion 1 30) < 0.
Proof. split; vm_compute; reflexivity. Qed.
