(* ===== verification/Gaps.v ===== *)
(** * What an evaluation could not assess: assessmentGaps
    (internal/engine/engine.go, volumes.go)

    Go ranges over the capabilities map in an unspecified order; the model
    takes the order as an argument, a list of the map's entries, and the
    theorems hold for every such list. *)

From stdpp Require Import base list strings gmap sorting.
From Stdlib Require Import ZArith Lia.
From S2P Require Import Prelude GoStr GoTime Version Inventory KB Findings Skew.

(** ** Volumes (volumes.go) *)

Definition volumesNotReported : string :=
  "not reported by the collector, which predates in-tree volume plugin checks; upgrade it to assess volume plugins".

Definition hasCapability (inv : Inventory) (c : string) : bool :=
  match Capabilities inv !! c with Some _ => true | None => false end.

Definition volumesGap (inv : Inventory) : list CapabilityGap :=
  if hasCapability inv CapVolumes then [] else [mkGap CapVolumes volumesNotReported false [] false].

Definition pvSourcePlugins : list string := [
  "awsElasticBlockStore"; "azureDisk"; "azureFile"; "cephfs";
  "cinder"; "csi"; "fc"; "flexVolume"; "flocker";
  "gcePersistentDisk"; "glusterfs"; "hostPath"; "iscsi";
  "local"; "nfs"; "photonPersistentDisk"; "portworxVolume";
  "quobyte"; "rbd"; "scaleIO"; "storageos"; "vsphereVolume"]%string.

Definition volumesPartialRequired (k : KB) (skipped : list string) (target : Version) : bool :=
  let pvs := mem_str SkippedPersistentVolumes skipped in
  let classes := mem_str SkippedStorageClasses skipped in
  if negb pvs && negb classes then false else
  existsb (fun p =>
    (vp_Classification p =s VolumeRemoved) &&
    match vp_Removed p with Some r => Compare r target <=? 0 | None => false end &&
    ((pvs && mem_str (vp_Plugin p) pvSourcePlugins) || (classes && negb (vp_Provisioner p =s ""))))
    (k_VolumePlugins k).

(** ** assessmentGaps *)

Definition removedBy (idx : Index) (api : string) (target : Version) : bool :=
  match splitAPI api with
  | None => false
  | Some (group, version, kind) =>
      match Lookup idx group version kind with
      | Some e => match e_Removed e with Some r => Compare r target <=? 0 | None => false end
      | None => false
      end
  end.

Definition isCluster (inv : Inventory) : bool := negb (Source inv =s SourceFiles).

(** [required[c]]. *)
Definition requiredCap (inv : Inventory) (k : KB) (c : string) : bool :=
  (c =s CapAPIUsage) || (c =s GapKBCoverage) ||
  (isCluster inv && ((c =s CapVersions) ||
     ((c =s CapAddOns) && match k_AddOns k with [] => false | _ => true end))).

(** The gap of one entry of the capabilities map. *)
Definition capabilityGap (inv : Inventory) (k : KB) (target : Version) (e : string * CapabilityStatus)
    : option CapabilityGap :=
  let '(c, st) := e in
  if negb (cs_Available st) then
    Some (mkGap c (cs_Reason st) false [] (requiredCap inv k c))
  else if cs_Partial st then
    let skipped := cs_Skipped st in
    let required :=
      if c =s CapAPIUsage then
        mem_str SkippedNewerKB skipped ||
        existsb (fun api => removedBy (NewIndex (k_APILifecycle k)) api target) skipped
      else if c =s CapVersions then
        requiredCap inv k c && match skipped with [] => false | _ => true end
      else if c =s CapAddOns then
        requiredCap inv k c && (mem_str SkippedPods skipped || mem_str SkippedNewerKB skipped)
      else if c =s CapVolumes then isCluster inv && volumesPartialRequired k skipped target
      else false in
    Some (mkGap c (cs_Reason st) true (sort_strings skipped) required)
  else None.

(** The gaps of required capabilities the inventory does not report. *)
Definition absentGaps (inv : Inventory) (k : KB) : list CapabilityGap :=
  map (fun c => mkGap c "not reported in the inventory, so nothing it covers was assessed" false [] true)
    (filter (fun c => negb (hasCapability inv c) && requiredCap inv k c = true)
       [CapAPIUsage; CapVersions; CapAddOns]).

Definition crdsGap (inv : Inventory) : list CapabilityGap :=
  if hasCapability inv CapCRDs then [] else
  [mkGap CapCRDs "not reported by the collector, which predates CRD checks; upgrade it to assess CRD versions"
     false [] false].

Definition notEvaluated : string := "kubelet and control-plane skew were not evaluated".

Definition serverVersionGap (inv : Inventory) (k : KB) : list CapabilityGap :=
  let reported := match Capabilities inv !! CapVersions with
                  | None => negb (isCluster inv)
                  | Some st => cs_Available st
                  end in
  if negb reported then [] else
  if ServerVersion inv =s "" then
    [mkGap CapVersions ("server version not reported; " +:+ notEvaluated) false [] (requiredCap inv k CapVersions)]
  else match ParseVersion (ServerVersion inv) with
  | Ok _ => []
  | Err _ => [mkGap CapVersions ("server version " +:+ quote (ServerVersion inv) +:+ " could not be parsed; " +:+
                                 notEvaluated) false [] (requiredCap inv k CapVersions)]
  end.

Definition coverageGap (k : KB) (target : Version) : list CapabilityGap :=
  if 0 <? Compare target (k_MaxKnownK8s k) then
    [mkGap GapKBCoverage
       ("knowledge base covers Kubernetes up to " +:+ VString (k_MaxKnownK8s k) +:+ "; target " +:+ VString target +:+
        " cannot be assessed (API removals after " +:+ VString (k_MaxKnownK8s k) +:+
        " are projected from k8s.io/api lifecycle markers, not shipped releases)") false [] true]
  else [].

Definition targetGap (inv : Inventory) (target : Version) : list CapabilityGap :=
  match upgradeFrom inv with
  | Some from =>
      if Compare target from <=? 0 then
        [mkGap GapTarget
           ("target " +:+ VString target +:+ " is not an upgrade: kube-apiserver already runs " +:+ VString from +:+
            ", and every check judges a newer minor") false [] true]
      else []
  | None => []
  end.

(** The gaps before they are sorted, for the iteration order [caps]. *)
Definition unsortedGaps (caps : list (string * CapabilityStatus)) (inv : Inventory) (k : KB) (target : Version)
    : list CapabilityGap :=
  absentGaps inv k ++ omap (capabilityGap inv k target) caps ++
  crdsGap inv ++ volumesGap inv ++ serverVersionGap inv k ++ coverageGap k target ++ targetGap inv target.

Definition gapLeb (a b : CapabilityGap) : bool := String.leb (g_Capability a) (g_Capability b).

Definition gapsInOrder (caps : list (string * CapabilityStatus)) (inv : Inventory) (k : KB) (target : Version)
    : list CapabilityGap :=
  isort gapLeb (unsortedGaps caps inv k target).

(** [assessmentGaps], with one order of the map. *)
Definition assessmentGaps (inv : Inventory) (k : KB) (target : Version) : list CapabilityGap :=
  gapsInOrder (map_to_list (Capabilities inv)) inv k target.

(** ** A stable sort by a key *)

Section StableSort.
Context {A : Type} (key : A -> string).
#[local] Notation leb := (fun a b => String.leb (key a) (key b)).
#[local] Notation class c := (filter (fun a => key a = c)).

Lemma insert_sorted_class x l c :
  class c (insert_sorted leb x l) = class c (x :: l).
Proof.
  induction l as [|y l IH]; simpl; [done|]. destruct (String.leb (key x) (key y)) eqn:E; [done|].
  rewrite filter_cons, IH, !filter_cons. repeat case_decide; try done. subst c.
  assert (Hk : key x = key y) by done. rewrite Hk in E. exfalso.
  destruct (String.leb_total (key y) (key y)); congruence.
Qed.

Lemma isort_class l c : class c (isort leb l) = class c l.
Proof.
  induction l as [|x l IH]; [done|]. cbn [isort foldr]. rewrite insert_sorted_class, !filter_cons.
  by rewrite <- IH.
Qed.

Lemma sorted_class_ext l1 l2 :
  StronglySorted (fun a b => leb a b = true) l1 -> StronglySorted (fun a b => leb a b = true) l2 ->
  (forall c, class c l1 = class c l2) -> l1 = l2.
Proof.
  intros H1. revert l2. induction H1 as [|x l1 H1 IH Hx]; intros l2 H2 Hc.
  { destruct l2 as [|y l2]; [done|]. specialize (Hc (key y)). by rewrite filter_cons_True in Hc. }
  destruct l2 as [|y l2]; [specialize (Hc (key x)); by rewrite filter_cons_True in Hc|].
  apply StronglySorted_inv in H2 as [H2 Hy].
  assert (Hkey : key x = key y).
  { apply String.leb_antisym.
    - assert (Hin : y ∈ class (key y) (x :: l1)) by (rewrite Hc; apply list_elem_of_filter; split; [done|by left]).
      apply list_elem_of_filter in Hin as [_ [->|Hin]%elem_of_cons].
      + by destruct (String.leb_total (key x) (key x)).
      + rewrite Forall_forall in Hx. by apply Hx.
    - assert (Hin : x ∈ class (key x) (y :: l2)) by (rewrite <- Hc; apply list_elem_of_filter; split; [done|by left]).
      apply list_elem_of_filter in Hin as [_ [->|Hin]%elem_of_cons].
      + by destruct (String.leb_total (key y) (key y)).
      + rewrite Forall_forall in Hy. by apply Hy. }
  assert (x = y /\ forall c, class c l1 = class c l2) as [-> Hc'].
  { assert (E : x = y); [specialize (Hc (key x)); rewrite !filter_cons_True in Hc by done; congruence|].
    split; [done|]. subst y. intros c. specialize (Hc c). rewrite !filter_cons in Hc. case_decide; congruence. }
  f_equal. by apply IH.
Qed.

(** A stable sort is determined by the order of the elements of each
    key. *)
Lemma isort_class_eq l1 l2 : (forall c, class c l1 = class c l2) -> isort leb l1 = isort leb l2.
Proof.
  intros Hc. apply sorted_class_ext; [apply isort_sorted..|].
  1, 3: intros; apply String.leb_total.
  1, 2: intros ? ? ?; apply string_leb_trans.
  intros c. by rewrite !isort_class.
Qed.

(** Lists with one element per key, in any order. *)
Lemma class_perm l1 l2 c : NoDup (map key l1) -> l1 ≡ₚ l2 -> class c l1 = class c l2.
Proof.
  intros Hn Hp. assert (Hlen : (length (class c l1) <= 1)%nat).
  { clear Hp. induction l1 as [|x l1 IH]; simpl in *; [lia|]. apply NoDup_cons in Hn as [Hx Hn].
    rewrite filter_cons. case_decide; [|by apply IH]. simpl.
    destruct (class c l1) as [|y ys] eqn:E; [simpl; lia|]. exfalso. apply Hx.
    assert (Hy : y ∈ class c l1) by (rewrite E; by left). apply list_elem_of_filter in Hy as [Hky Hy].
    apply list_elem_of_In, in_map_iff. exists y. split; [congruence|by apply list_elem_of_In]. }
  assert (Hp' : class c l1 ≡ₚ class c l2) by by rewrite Hp.
  destruct (class c l1) as [|x [|]]; simpl in Hlen; try lia.
  - by apply Permutation_nil_l in Hp'.
  - by apply Permutation_singleton_l in Hp'.
Qed.
End StableSort.

(** The gaps of a report do not depend on the order in which Go's map
    iteration yields the capabilities: every order gives the same list,
    ordered by capability. *)
Lemma assessmentGaps_order_independent (caps : list (string * CapabilityStatus)) (inv : Inventory) (k : KB)
    (target : Version) :
  caps ≡ₚ map_to_list (Capabilities inv) -> gapsInOrder caps inv k target = assessmentGaps inv k target.
Proof.
  intros Hp. unfold assessmentGaps, gapsInOrder. apply (isort_class_eq g_Capability). intros c.
  unfold unsortedGaps. rewrite !filter_app. do 2 f_equal. apply class_perm; [|by rewrite Hp].
  assert (Hsub : forall l, NoDup (map fst l) -> NoDup (map g_Capability (omap (capabilityGap inv k target) l)) /\
    forall x, x ∈ map g_Capability (omap (capabilityGap inv k target) l) -> x ∈ map fst l).
  { clear Hp. induction l as [|[d st] l IH]; simpl; [done|]. intros [Hd Hl]%NoDup_cons.
    destruct (IH Hl) as [IH1 IH2]. destruct (negb (cs_Available st)); [|destruct (cs_Partial st)]; simpl.
    1, 2: split; [apply NoDup_cons; auto|]; intros x [->|Hx]%elem_of_cons; [by left|right; auto].
    split; [done|]. intros x Hx. right. auto. }
  apply Hsub. rewrite Hp. apply NoDup_fst_map_to_list.
Qed.

Lemma assessmentGaps_in g inv k target :
  g ∈ assessmentGaps inv k target <-> g ∈ unsortedGaps (map_to_list (Capabilities inv)) inv k target.
Proof. unfold assessmentGaps, gapsInOrder. by rewrite isort_perm. Qed.

(** A capability the verdict rests on: absent, or reported unavailable. *)
Definition notCollected (inv : Inventory) (c : string) : Prop :=
  match Capabilities inv !! c with Some st => cs_Available st = false | None => True end.

Lemma required_not_collected inv k target c :
  requiredCap inv k c = true -> c ∈ [CapAPIUsage; CapVersions; CapAddOns] -> notCollected inv c ->
  exists g, g ∈ assessmentGaps inv k target /\ g_Capability g = c /\ g_Required g = true.
Proof.
  intros Hr Hc Hn. unfold notCollected in Hn. setoid_rewrite assessmentGaps_in. unfold unsortedGaps.
  destruct (Capabilities inv !! c) as [st|] eqn:E.
  - exists (mkGap c (cs_Reason st) false [] (requiredCap inv k c)). split; [|by rewrite Hr].
    rewrite !elem_of_app. right; left. apply list_elem_of_omap. exists (c, st).
    split; [by apply elem_of_map_to_list|]. simpl. by rewrite Hn.
  - exists (mkGap c "not reported in the inventory, so nothing it covers was assessed" false [] true).
    split; [|done]. rewrite elem_of_app. left. apply list_elem_of_In, in_map_iff. exists c. split; [done|].
    apply list_elem_of_In, list_elem_of_filter. split; [|done]. unfold hasCapability. by rewrite E, Hr.
Qed.

(** A capability that was read in part. *)
Definition partly (inv : Inventory) (c : string) (st : CapabilityStatus) : Prop :=
  Capabilities inv !! c = Some st /\ cs_Available st = true /\ cs_Partial st = true.

(** Whether what was collected cannot support a ready verdict at
    [target]. *)
Inductive unassessable (inv : Inventory) (k : KB) (target : Version) : Prop :=
| no_api_usage : notCollected inv CapAPIUsage -> unassessable inv k target
| no_versions : Source inv <> SourceFiles -> notCollected inv CapVersions -> unassessable inv k target
| no_addons : Source inv <> SourceFiles -> k_AddOns k <> [] -> notCollected inv CapAddOns ->
    unassessable inv k target
| beyond_horizon : vlt (k_MaxKnownK8s k) target -> unassessable inv k target
| not_an_upgrade from : upgradeFrom inv = Some from -> vle target from -> unassessable inv k target
| skipped_removed st api e r : Capabilities inv !! CapAPIUsage = Some st -> cs_Available st = true ->
    cs_Partial st = true -> api ∈ cs_Skipped st ->
    (exists g v kd, splitAPI api = Some (g, v, kd) /\ Lookup (NewIndex (k_APILifecycle k)) g v kd = Some e) ->
    e_Removed e = Some r -> vle r target -> unassessable inv k target
| other_lifecycle st : partly inv CapAPIUsage st -> SkippedNewerKB ∈ cs_Skipped st -> unassessable inv k target
| some_versions st : Source inv <> SourceFiles -> partly inv CapVersions st -> cs_Skipped st <> [] ->
    unassessable inv k target
| some_addons st : Source inv <> SourceFiles -> k_AddOns k <> [] -> partly inv CapAddOns st ->
    SkippedPods ∈ cs_Skipped st \/ SkippedNewerKB ∈ cs_Skipped st -> unassessable inv k target
| no_server_version : Source inv <> SourceFiles -> to_option (ParseVersion (ServerVersion inv)) = None -> unassessable inv k target
| some_volumes st p r : Source inv <> SourceFiles -> partly inv CapVolumes st ->
    p ∈ k_VolumePlugins k -> vp_Classification p = VolumeRemoved -> vp_Removed p = Some r -> vle r target ->
    (SkippedPersistentVolumes ∈ cs_Skipped st /\ vp_Plugin p ∈ pvSourcePlugins) \/
    (SkippedStorageClasses ∈ cs_Skipped st /\ vp_Provisioner p <> ""%string) -> unassessable inv k target.

(** A partial capability the check decides to be required. *)
Lemma partly_required inv k target c st :
  partly inv c st -> (forall r, capabilityGap inv k target (c, st) = Some r -> g_Required r = true) ->
  exists g, g ∈ assessmentGaps inv k target /\ g_Required g = true.
Proof.
  intros (Hst & Ha & Hp) Hr. destruct (capabilityGap inv k target (c, st)) as [g|] eqn:E.
  - exists g. split; [|by apply Hr]. rewrite assessmentGaps_in. unfold unsortedGaps. rewrite !elem_of_app.
    right; left. apply list_elem_of_omap. exists (c, st). split; [by apply elem_of_map_to_list|done].
  - unfold capabilityGap in E. by rewrite Ha, Hp in E.
Qed.

(** A cluster whose server version is not known. *)
Lemma server_version_required inv k target :
  isCluster inv = true -> to_option (ParseVersion (ServerVersion inv)) = None ->
  exists g, g ∈ assessmentGaps inv k target /\ g_Required g = true.
Proof.
  intros Hc Hv. assert (Hr : requiredCap inv k CapVersions = true) by (unfold requiredCap; by rewrite Hc).
  assert (Hn : notCollected inv CapVersions \/ exists st, Capabilities inv !! CapVersions = Some st /\ cs_Available st = true).
  { unfold notCollected. destruct (Capabilities inv !! CapVersions) as [st|]; [|by left]. destruct (cs_Available st) eqn:E; eauto. }
  destruct Hn as [Hn|(st & Hst & Ha)].
  { destruct (required_not_collected inv k target CapVersions Hr ltac:(right; by left) Hn) as (g & ? & _ & ?). eauto. }
  assert (Hg : exists g, g ∈ serverVersionGap inv k /\ g_Required g = true).
  { unfold serverVersionGap. rewrite Hst, Ha. cbn [negb]. cbv zeta. destruct (ServerVersion inv =s ""); [|destruct (ParseVersion (ServerVersion inv)); [done|]];
      (eexists; split; [by left|done]). }
  destruct Hg as (g & Hg & Hreq). exists g. split; [|done]. rewrite assessmentGaps_in. unfold unsortedGaps. rewrite !elem_of_app. auto 6.
Qed.

Lemma volumes_required k skipped target p r :
  p ∈ k_VolumePlugins k -> vp_Classification p = VolumeRemoved -> vp_Removed p = Some r -> vle r target ->
  (SkippedPersistentVolumes ∈ skipped /\ vp_Plugin p ∈ pvSourcePlugins) \/ (SkippedStorageClasses ∈ skipped /\ vp_Provisioner p <> ""%string) ->
  volumesPartialRequired k skipped target = true.
Proof.
  assert (Hmem : forall s l, s ∈ l -> mem_str s l = true) by (intros; by apply mem_str_spec).
  intros Hin Hc Hr Hv Hsk. unfold volumesPartialRequired. cbv zeta.
  assert (Hx : (mem_str SkippedPersistentVolumes skipped && mem_str (vp_Plugin p) pvSourcePlugins)
    || (mem_str SkippedStorageClasses skipped && negb (vp_Provisioner p =s "")) = true).
  { destruct Hsk as [[H1 H2]|[H1 H2]]; [by rewrite (Hmem _ _ H1), (Hmem _ _ H2)|]. rewrite (Hmem _ _ H1), (proj2 (String.eqb_neq _ _) H2). apply orb_true_r. }
  destruct (negb (mem_str SkippedPersistentVolumes skipped) && negb (mem_str SkippedStorageClasses skipped)) eqn:E.
  { apply andb_true_iff in E as [E1 E2]. apply negb_true_iff in E1, E2. by rewrite E1, E2 in Hx. }
  apply existsb_exists. exists p. split; [by apply list_elem_of_In|]. rewrite Hc, Hr, Hx, andb_true_r. change (VolumeRemoved =s VolumeRemoved) with true.
  by apply Z.leb_le, Compare_le.
Qed.

Lemma gaps_required (inv : Inventory) (k : KB) (target : Version) :
  unassessable inv k target -> exists g, g ∈ assessmentGaps inv k target /\ g_Required g = true.
Proof.
  assert (Hcl : Source inv <> SourceFiles -> isCluster inv = true).
  { intros H. unfold isCluster. by rewrite (proj2 (String.eqb_neq _ _) H). }
  assert (Hn : forall c, requiredCap inv k c = true -> c ∈ [CapAPIUsage; CapVersions; CapAddOns] ->
    notCollected inv c -> exists g, g ∈ assessmentGaps inv k target /\ g_Required g = true).
  { intros c H1 H2 H3. destruct (required_not_collected inv k target c H1 H2 H3) as (g & ? & _ & ?). eauto. }
  assert (Hmem : forall s l, s ∈ l -> mem_str s l = true) by (intros; by apply mem_str_spec).
  destruct 1 as [Ha|Hs Ha|Hs Hk Ha|Hv|from Hf Hv|st api e r Hst Hav Hpa Hin (g & v & kd & Hsp & Hl) Hr Hv
                |st Hp Hin|st Hs Hp Hne|st Hs Hk Hp Hin|Hs Hv|st p r Hs Hp Hin Hc Hr Hv Hsk].
  - by apply (Hn CapAPIUsage); [|left|].
  - apply (Hn CapVersions); [|right; by left|done]. unfold requiredCap. by rewrite (Hcl Hs).
  - apply (Hn CapAddOns); [|do 2 right; by left|done]. unfold requiredCap. rewrite (Hcl Hs).
    by destruct (k_AddOns k).
  - eexists. rewrite assessmentGaps_in. unfold unsortedGaps, coverageGap.
    rewrite (proj2 (Z.ltb_lt _ _)) by (apply Compare_gt in Hv; lia). rewrite !elem_of_app.
    split; [do 5 right; left; by left|done].
  - eexists. rewrite assessmentGaps_in. unfold unsortedGaps, targetGap. rewrite Hf.
    rewrite (proj2 (Z.leb_le _ _)) by (by apply Compare_le). rewrite !elem_of_app.
    split; [do 6 right; by left|done].
  - exists (mkGap CapAPIUsage (cs_Reason st) true (sort_strings (cs_Skipped st)) true). split; [|done].
    rewrite assessmentGaps_in. unfold unsortedGaps. rewrite !elem_of_app. right; left.
    apply list_elem_of_omap. exists (CapAPIUsage, st). split; [by apply elem_of_map_to_list|].
    unfold capabilityGap. rewrite Hav, Hpa. simpl negb. cbv iota. do 2 f_equal.
    replace (existsb _ _) with true; [by rewrite orb_true_r|]. symmetry. apply existsb_exists. exists api.
    split; [by apply list_elem_of_In|]. unfold removedBy. rewrite Hsp, Hl, Hr. by apply Z.leb_le, Compare_le.
  - apply (partly_required inv k target CapAPIUsage st Hp). destruct Hp as (_ & Ha & Hp). intros g.
    unfold capabilityGap. rewrite Ha, Hp. intros [= <-]. cbn [g_Required]. by rewrite (Hmem _ _ Hin).
  - apply (partly_required inv k target CapVersions st Hp). destruct Hp as (_ & Ha & Hp). intros g.
    unfold capabilityGap. rewrite Ha, Hp. intros [= <-]. cbn [g_Required]. unfold requiredCap.
    rewrite (Hcl Hs). by destruct (cs_Skipped st).
  - apply (partly_required inv k target CapAddOns st Hp). destruct Hp as (_ & Ha & Hp). intros g.
    unfold capabilityGap. rewrite Ha, Hp. intros [= <-]. cbn [g_Required]. unfold requiredCap.
    rewrite (Hcl Hs). destruct (k_AddOns k); [done|]. destruct Hin as [Hin|Hin]; rewrite (Hmem _ _ Hin); [done|].
    by destruct (mem_str SkippedPods (cs_Skipped st)).
  - by apply server_version_required; [apply Hcl|].
  - apply (partly_required inv k target CapVolumes st Hp). destruct Hp as (_ & Ha & Hp). intros g.
    unfold capabilityGap. rewrite Ha, Hp. intros [= <-]. cbn [g_Required]. rewrite (Hcl Hs). by eapply volumes_required.
Qed.

(** C16 An evaluation that may have missed a blocker says so: when a
    required capability is missing or unavailable, the target is beyond the
    knowledge base or no upgrade of the cluster, an API the target removes
    could not be listed, the collector's knowledge base was another, the
    server version is not known, part of the versions or of the pods was
    not read, or part of the volumes where the target removes a plugin that
    could be in it, the report has a required gap. *)
Theorem assessmentGaps_required (inv : Inventory) (k : KB) (target : Version) :
  unassessable inv k target -> exists g, g ∈ assessmentGaps inv k target /\ g_Required g = true.
Proof. apply gaps_required. Qed.

(** A cluster at 1.29 without an api-usage capability. *)
Lemma assessmentGaps_required_witness :
  exists g, g ∈ assessmentGaps skewInventory emptyKB (mkVersion 1 30) /\ g_Required g = true.
Proof.
  apply (assessmentGaps_required skewInventory emptyKB (mkVersion 1 30)).
  apply no_api_usage. vm_compute. exact I.
Defined.

Definition gapCaps : list (string * CapabilityStatus) :=
  [(CapVolumes, mkCapabilityStatus false "forbidden" false []);
   (CapAPIUsage, mkCapabilityStatus true "" true ["policy/v1beta1 PodSecurityPolicy"%string])].

Definition gapInventory : Inventory :=
  mkInventory 1 "c" 1 SourceCluster 0 "v1.29.4" "" (list_to_map gapCaps) [] [] [] [] [] [] [] [] [] 0 [] [] 0 0 [].

Lemma assessmentGaps_order_independent_witness :
  gapsInOrder (reverse gapCaps) gapInventory emptyKB (mkVersion 1 30) =
  assessmentGaps gapInventory emptyKB (mkVersion 1 30).
Proof.
  apply (assessmentGaps_order_independent (reverse gapCaps) gapInventory emptyKB (mkVersion 1 30)).
  rewrite reverse_Permutation. symmetry. apply map_to_list_to_map.
  apply (bool_decide_unpack _). vm_compute. exact I.
Defined.
