(* ===== verification/Helm.v ===== *)
(** * Helm releases: evalHelmReleases (internal/engine/engine.go)

    Each installed release's chart kubeVersion and stored manifest, judged
    against the target. *)

From stdpp Require Import base list strings gmap sorting.
From Stdlib Require Import ZArith Lia Ascii.
From S2P Require Import Prelude GoStr GoTime Version Inventory KB Findings APIUse.

Definition helmInstalled (rel : HelmRelease) : bool :=
  negb (h_Status rel =s "uninstalled") && negb (h_Status rel =s "uninstalling").

Definition helmReleaseRef (rel : HelmRelease) : string :=
  let name := "Helm release " +:+ h_Namespace rel +:+ "/" +:+ h_Name rel in
  if 0 <? h_Revision rel then "revision " +:+ itoa (h_Revision rel) +:+ " of " +:+ name else name.

Definition helmKey (category : string) (rel : HelmRelease) : string :=
  category +:+ "/helm-release/" +:+ h_Namespace rel +:+ "/" +:+ h_Name rel.

(** ** evalChartKubeVersion *)

Definition evalChartKubeVersion `{Semver} (rel : HelmRelease) (target : Version) : option Finding :=
  if TrimSpace (h_KubeVersion rel) =s "" then None else
  let name := "Helm release " +:+ h_Namespace rel +:+ "/" +:+ h_Name rel in
  let declares := "Chart " +:+ h_ChartName rel +:+ " " +:+ h_ChartVersion rel +:+ " (" +:+ helmReleaseRef rel +:+
    ") declares kubeVersion " +:+ quote (h_KubeVersion rel) +:+ " in Chart.yaml" in
  let finding sev title detail := newFinding CatChartIncompat sev (helmKey CatChartIncompat rel) title detail
                                    [helmChartYAMLURL] in
  match NewConstraint (h_KubeVersion rel) with
  | None =>
      Some (finding SevInfo (name +:+ ": chart kubeVersion " +:+ quote (h_KubeVersion rel) +:+ " could not be parsed")
        (declares +:+ ", which is not a valid semver constraint, so the chart's Kubernetes compatibility was not assessed."))
  | Some c =>
      if Check c (NewMinor (Major target) (Minor target)) then None else
      let t := VString target in
      Some (set_Remediation
        ("upgrade the release to a chart version whose kubeVersion includes " +:+ t +:+ " before upgrading the cluster")
        (finding SevBlocker
          (name +:+ ": chart " +:+ h_ChartName rel +:+ " " +:+ h_ChartVersion rel +:+ " requires Kubernetes " +:+
           quote (h_KubeVersion rel) +:+ " (target " +:+ t +:+ ")")
          (declares +:+ ", which Kubernetes " +:+ t +:+
           " does not satisfy. Helm refuses to install or upgrade a chart whose kubeVersion excludes the cluster version, so once the cluster runs " +:+
           t +:+ " every helm upgrade of this release fails until it moves to a chart version that supports " +:+ t +:+ ".")))
  end.

(** ** evalHelmManifest *)

Record bucket := mkBucket {
  bk_apis : list string;
  bk_entries : list string;
  bk_replacements : list string;
  bk_unserved : list string;
  bk_projected : list string;
  bk_objects : list ObjectRef;
  bk_count : Z;
  bk_omitted : Z;
}.

Definition emptyBucket : bucket := mkBucket [] [] [] [] [] [] 0 0.

Definition compareRows (a b : APIUsage) : Z :=
  cmpOr (cmpStr (u_Group a) (u_Group b))
    (cmpOr (cmpStr (u_Version a) (u_Version b)) (cmpStr (u_Kind a) (u_Kind b))).

Definition sortRows (us : list APIUsage) : list APIUsage := isort (fun a b => compareRows a b <=? 0) us.

(** The object [o] of a release in namespace [ns] is the live object [l]. *)
Definition sameObject (ns : string) (o l : ObjectRef) : bool :=
  (o_Name l =s o_Name o) &&
  ((o_Namespace l =s o_Namespace o) || ((o_Namespace o =s "") && (o_Namespace l =s ns))).

(** Whether the entry's removal puts the row in the [removed] bucket. *)
Definition removedAt (e : APILifecycleEntry) (target : Version) : bool :=
  match e_Removed e with Some r => Compare r target <=? 0 | None => false end.

Definition liveAsSevere (e : APILifecycleEntry) (target : Version) : bool :=
  removedAt e target ||
  match e_Removed e with Some r => Compare r (Next target) =? 0 | None => false end.

(** The objects of a row the live finding does not take. *)
Definition manifestObjs (ns : string) (live : gmap string (list ObjectRef)) (target : Version) (e : APILifecycleEntry)
    (u : APIUsage) : list ObjectRef :=
  if liveAsSevere e target then
    let flagged := default [] (live !! apiKey (u_Group u) (u_Version u) (u_Kind u)) in
    filter (fun o => existsb (sameObject ns o) flagged = false) (u_Objects u)
  else u_Objects u.

(** What is left of a row's count. *)
Definition manifestCount (ns : string) (live : gmap string (list ObjectRef)) (target : Version) (e : APILifecycleEntry)
    (u : APIUsage) : Z :=
  wrap64 (u_Count u - (zlen (u_Objects u) - zlen (manifestObjs ns live target e u))).

(** The row added to its bucket. *)
Definition addRow (ns : string) (idx : Index) (live : gmap string (list ObjectRef)) (target maxKnown : Version)
    (e : APILifecycleEntry) (u : APIUsage) (b : bucket) : bucket :=
  let count := manifestCount ns live target e u in
  let deprecatedIn :=
    if removedAt e target then [] else
    match e_Deprecated e with Some d => ["deprecated in " +:+ VString d] | None => [] end in
  let '(removedIn, projected) :=
    match e_Removed e with
    | Some r =>
        if 0 <? Compare r maxKnown
        then (["removed in " +:+ VString r +:+ " (projected)"], appendNew (bk_projected b) [VString r])
        else (["removed in " +:+ VString r], bk_projected b)
    | None => ([], bk_projected b)
    end in
  let api := gvString (u_Group u) (u_Version u) +:+ " " +:+ u_Kind u in
  let gvk g := gvString (gvk_Group g) (gvk_Version g) +:+ " " +:+ gvk_Kind g in
  let '(replacements, unserved) :=
    match ResolveReplacement idx e target with
    | Some r => ([gvk r], [])
    | None =>
        match LaterReplacement idx e target with
        | Some (later, from) => ([], [api +:+ " (" +:+ gvk later +:+ " is served from " +:+ VString from +:+ ")"])
        | None =>
            match ServedSuccessor idx e target with
            | Some succ => ([successorRemedy succ maxKnown true], [])
            | None => match e_Replacement e with Some _ => ([], [api]) | None => ([], []) end
            end
        end
    end in
  mkBucket (bk_apis b ++ [api])
    (bk_entries b ++ [api +:+ " (" +:+ Join (deprecatedIn ++ removedIn) ", " +:+ "; " +:+ pluralObjects count +:+ ")"])
    (bk_replacements b ++ replacements) (bk_unserved b ++ unserved) projected
    (bk_objects b ++ manifestObjs ns live target e u) (wrap64 (bk_count b + count))
    (wrap64 (bk_omitted b + u_ObjectsOmitted u)).

(** One turn of the loop over the rows: the buckets of removed and of
    deprecated APIs. *)
Definition manifestRow (ns : string) (idx : Index) (live : gmap string (list ObjectRef)) (target maxKnown : Version)
    (bs : bucket * bucket) (u : APIUsage) : bucket * bucket :=
  match Lookup idx (u_Group u) (u_Version u) (u_Kind u) with
  | None => bs
  | Some e =>
      match e_Deprecated e, e_Removed e with
      | None, None => bs
      | _, _ =>
          if manifestCount ns live target e u <=? 0 then bs
          else if removedAt e target then (addRow ns idx live target maxKnown e u bs.1, bs.2)
          else (bs.1, addRow ns idx live target maxKnown e u bs.2)
      end
  end.

Definition upperFirst (s : string) : string :=
  match s with ""%string => ""%string | String a r => String (upper_ascii a) r end.

(** The finding of a bucket, none for an empty one. *)
Definition bucketFinding (rel : HelmRelease) (target maxKnown : Version) (cat sev : string) (b : bucket)
    : list Finding :=
  match bk_apis b with
  | [] => []
  | _ =>
      let t := VString target in
      let name := h_Namespace rel +:+ "/" +:+ h_Name rel in
      let stores := upperFirst (helmReleaseRef rel) +:+ " (chart " +:+ h_ChartName rel +:+ " " +:+
        h_ChartVersion rel +:+ ") stores a manifest with" in
      let projection :=
        match bk_projected b with
        | [] => ""
        | ps => " The removal in " +:+ Join (sort_strings ps) ", " +:+
            " is projected: it is a default of k8s.io/api's lifecycle markers, not a shipped release (the newest the knowledge base covers is " +:+
            VString maxKnown +:+ "), and may change before it ships."
        end in
      let fix_ := "upgrade the release to a chart version that renders supported APIs" +:+
        match bk_replacements b with [] => "" | rs => " (" +:+ Join rs ", " +:+ ")" end in
      let apis := Join (bk_apis b) ", " in
      let entries := Join (bk_entries b) ", " in
      let '(title, detail, remediation) :=
        if sev =s SevBlocker then
          ("helm upgrade of release " +:+ name +:+ " will fail: its manifest uses " +:+ apis,
           stores +:+ " " +:+ pluralObjects (bk_count b) +:+ " at APIs Kubernetes " +:+ t +:+ " " +:+
           match bk_projected b with [] => "does not serve" | _ => "is projected not to serve" end +:+ ": " +:+ entries +:+
           ". Helm refuses to upgrade a release whose stored manifest uses APIs the cluster no longer serves." +:+
           projection,
           fix_ +:+ " before upgrading the cluster; if the cluster already stopped serving them, rewrite the stored manifest with the helm-mapkubeapis plugin first")
        else
          ("Helm release " +:+ name +:+ " manifest uses deprecated " +:+ apis,
           stores +:+ " " +:+ pluralObjects (bk_count b) +:+ " at deprecated APIs: " +:+ entries +:+ "." +:+ projection,
           fix_) in
      let remediation := remediation +:+
        match bk_unserved b with
        | [] => ""
        | us => "; no replacement Kubernetes " +:+ t +:+ " serves is known for " +:+ Join us ", "
        end in
      [set_Remediation remediation
         (set_Objects (sortedObjects (bk_objects b)) (bk_omitted b)
            (newFinding cat sev (helmKey cat rel) title detail [helmKubernetesAPIsURL; deprecationGuideURL]))]
  end.

Definition evalHelmManifest (rel : HelmRelease) (idx : Index) (live : gmap string (list ObjectRef))
    (target maxKnown : Version) : list Finding :=
  let '(removed, deprecated) :=
    foldl (manifestRow (h_Namespace rel) idx live target maxKnown) (emptyBucket, emptyBucket)
      (sortRows (h_ManifestAPIs rel)) in
  bucketFinding rel target maxKnown CatRemovedAPI SevBlocker removed ++
  bucketFinding rel target maxKnown CatDeprecatedAPI SevWarning deprecated.

(** ** evalHelmReleases *)

(** [live]: the objects of the usage rows by API. *)
Definition liveObjects (us : list APIUsage) : gmap string (list ObjectRef) :=
  foldl (fun m u =>
    let key := apiKey (u_Group u) (u_Version u) (u_Kind u) in
    <[key := default [] (m !! key) ++ u_Objects u]> m) ∅ us.

Section Releases.
Context `{Semver}.

Definition releaseFindings (teams : gmap string string) (idx : Index) (live : gmap string (list ObjectRef))
    (target maxKnown : Version) (rel : HelmRelease) : list Finding :=
  if negb (helmInstalled rel) then [] else
  let ns := [h_Namespace rel] in
  map (set_Where (teamsFor teams ns) ns false)
    (match evalChartKubeVersion rel target with Some f => [f] | None => [] end ++
     evalHelmManifest rel idx live target maxKnown).

Definition evalHelmReleases (inv : Inventory) (k : KB) (target : Version) (b : option budget)
    : list Finding * option budget :=
  let teams := newTeamLookup (Namespaces inv) in
  let idx := NewIndex (k_APILifecycle k) in
  let live := liveObjects (APIUsages inv) in
  addAll b [] (flat_map (releaseFindings teams idx live target (k_MaxKnownK8s k)) (HelmReleases inv)).
End Releases.

(** ** Properties *)

Section Manifest.
Context (rel : HelmRelease) (idx : Index) (live : gmap string (list ObjectRef)) (target maxKnown : Version).
#[local] Notation ns := (h_Namespace rel).

(** A row at an API the target removed, some of which the live finding
    does not take. *)
Definition brokenRow (u : APIUsage) : Prop :=
  exists e r, Lookup idx (u_Group u) (u_Version u) (u_Kind u) = Some e /\ e_Removed e = Some r /\ vle r target /\
    0 < manifestCount ns live target e u.

Lemma addRow_apis e u b : bk_apis (addRow ns idx live target maxKnown e u b) <> [].
Proof.
  unfold addRow. destruct (match e_Removed e with Some r => _ | None => _ end).
  destruct (match ResolveReplacement idx e target with Some r => _ | None => _ end). simpl. by destruct (bk_apis b).
Qed.

Lemma manifestRow_removed bs u :
  bk_apis (manifestRow ns idx live target maxKnown bs u).1 <> [] <-> bk_apis bs.1 <> [] \/ brokenRow u.
Proof.
  unfold manifestRow, brokenRow.
  destruct (Lookup idx (u_Group u) (u_Version u) (u_Kind u)) as [e|] eqn:El; [|naive_solver].
  assert (Hb : (exists e' r, Some e = Some e' /\ e_Removed e' = Some r /\ vle r target /\
     0 < manifestCount ns live target e' u) <-> removedAt e target = true /\ 0 < manifestCount ns live target e u).
  { unfold removedAt. split.
    - intros (e' & r & [= <-] & -> & Hv & Hc). split; [|done]. by apply Z.leb_le, Compare_le.
    - intros [Hr Hc]. destruct (e_Removed e) as [r|] eqn:Er; [|done]. exists e, r.
      split_and!; [done|done| |done]. by apply Compare_le, Z.leb_le. }
  rewrite Hb. clear Hb.
  assert (Hrest : bk_apis (if manifestCount ns live target e u <=? 0 then bs
     else if removedAt e target then (addRow ns idx live target maxKnown e u bs.1, bs.2)
     else (bs.1, addRow ns idx live target maxKnown e u bs.2)).1 <> [] <->
    bk_apis bs.1 <> [] \/ (removedAt e target = true /\ 0 < manifestCount ns live target e u)).
  { destruct (Z.leb_spec (manifestCount ns live target e u) 0); [naive_solver lia|].
    destruct (removedAt e target); simpl; [|naive_solver].
    split; [auto|]. intros _. apply addRow_apis. }
  unfold removedAt in *. destruct (e_Deprecated e), (e_Removed e); try done. naive_solver.
Qed.

Lemma manifestRow_fold bs us :
  bk_apis (foldl (manifestRow ns idx live target maxKnown) bs us).1 <> [] <->
  bk_apis bs.1 <> [] \/ exists u, u ∈ us /\ brokenRow u.
Proof.
  revert bs. induction us as [|u us IH]; intros bs; cbn [foldl].
  - split; [auto|]. intros [?|(? & ?%elem_of_nil & _)]; done.
  - rewrite IH, manifestRow_removed. setoid_rewrite elem_of_cons. naive_solver.
Qed.

Lemma bucketFinding_shape cat sev b f :
  f ∈ bucketFinding rel target maxKnown cat sev b -> f_Category f = cat /\ f_Severity f = sev.
Proof.
  unfold bucketFinding. destruct (bk_apis b); [by intros ?%elem_of_nil|].
  destruct (if sev =s SevBlocker then _ else _) as [[? ?] ?]. by intros ->%list_elem_of_singleton.
Qed.

Lemma bucketFinding_nil cat sev b : bucketFinding rel target maxKnown cat sev b = [] <-> bk_apis b = [].
Proof.
  unfold bucketFinding. destruct (bk_apis b); [done|].
  by destruct (if sev =s SevBlocker then _ else _) as [[? ?] ?].
Qed.

Lemma manifest_blocks :
  ((exists f, f ∈ evalHelmManifest rel idx live target maxKnown /\ f_Severity f = SevBlocker) <->
   exists u, u ∈ h_ManifestAPIs rel /\ brokenRow u) /\
  (forall f, f ∈ evalHelmManifest rel idx live target maxKnown ->
     (f_Category f = CatRemovedAPI /\ f_Severity f = SevBlocker) \/
     (f_Category f = CatDeprecatedAPI /\ f_Severity f = SevWarning)).
Proof.
  unfold evalHelmManifest.
  pose proof (manifestRow_fold (emptyBucket, emptyBucket) (sortRows (h_ManifestAPIs rel))) as Hf.
  assert (Hp : forall u, u ∈ sortRows (h_ManifestAPIs rel) <-> u ∈ h_ManifestAPIs rel)
    by (intros u; unfold sortRows; by rewrite isort_perm).
  setoid_rewrite Hp in Hf. clear Hp.
  destruct (foldl _ _ _) as [removed deprecated]. simpl in Hf. split; [split|].
  - intros (f & [Hin|Hin]%elem_of_app & Hs); [|by apply bucketFinding_shape in Hin as [_ Hin]; rewrite Hs in Hin].
    destruct (proj1 Hf) as [[]|]; [|done|done]. intros E.
    apply (bucketFinding_nil CatRemovedAPI SevBlocker) in E. rewrite E in Hin. by apply elem_of_nil in Hin.
  - intros Hu. destruct (bucketFinding rel target maxKnown CatRemovedAPI SevBlocker removed) as [|f l] eqn:E.
    + apply bucketFinding_nil in E. destruct (proj2 Hf); auto.
    + exists f. split; [by left|]. apply (bucketFinding_shape CatRemovedAPI SevBlocker removed f). rewrite E. by left.
  - intros f [Hin|Hin]%elem_of_app; apply bucketFinding_shape in Hin; auto.
Qed.

(** A release's stored manifest blocks the upgrade exactly when it
    holds an object at an API the target has removed that no live finding
    already takes; its other findings are deprecated-api warnings. *)
Lemma evalHelmManifest_blocker :
  ((exists f, f ∈ evalHelmManifest rel idx live target maxKnown /\ f_Severity f = SevBlocker) <->
   exists u, u ∈ h_ManifestAPIs rel /\ brokenRow u) /\
  (forall f, f ∈ evalHelmManifest rel idx live target maxKnown ->
     (f_Category f = CatRemovedAPI /\ f_Severity f = SevBlocker) \/
     (f_Category f = CatDeprecatedAPI /\ f_Severity f = SevWarning)).
Proof. apply manifest_blocks. Qed.
End Manifest.

Lemma liveObjects_in us key l :
  l ∈ default [] (liveObjects us !! key) <->
  exists u, u ∈ us /\ apiKey (u_Group u) (u_Version u) (u_Kind u) = key /\ l ∈ u_Objects u.
Proof.
  unfold liveObjects. induction us as [|u us IH] using rev_ind.
  { simpl. rewrite lookup_empty. simpl. rewrite elem_of_nil. split; [done|]. by intros (? & ?%elem_of_nil & _). }
  rewrite foldl_snoc. cbv zeta. rewrite lookup_insert. case_decide as E.
  - subst key. simpl. rewrite elem_of_app, IH. setoid_rewrite elem_of_app. setoid_rewrite list_elem_of_singleton.
    naive_solver.
  - rewrite IH. setoid_rewrite elem_of_app. setoid_rewrite list_elem_of_singleton. naive_solver.
Qed.

Lemma filter_length_lt {A} (p : A -> bool) (l : list A) :
  (length (filter (fun x => p x = false) l) < length l)%nat -> exists x, x ∈ l /\ p x = true.
Proof.
  induction l as [|x l IH]; simpl; [lia|]. destruct (p x) eqn:E.
  - intros _. exists x. split; [by left|done].
  - rewrite filter_cons_True by done. simpl. intros H. destruct IH as (y & ? & ?); [lia|]. exists y. split; [by right|done].
Qed.

(** An object of a stored manifest is judged one way or the other: by the
    manifest's finding, or by a live row of the same API. *)
Lemma manifest_row_judged rel idx us target u e r :
  Lookup idx (u_Group u) (u_Version u) (u_Kind u) = Some e -> e_Removed e = Some r -> vle r target ->
  0 < u_Count u <= maxInt -> zlen (u_Objects u) <= maxInt ->
  brokenRow rel idx (liveObjects us) target u \/
  exists u', u' ∈ us /\
    apiKey (u_Group u') (u_Version u') (u_Kind u') = apiKey (u_Group u) (u_Version u) (u_Kind u).
Proof.
  intros Hl Hr Hv Hc Hlen.
  destruct (Z.lt_ge_cases 0 (manifestCount (h_Namespace rel) (liveObjects us) target e u)) as [Hpos|Hneg].
  { left. exists e, r. done. }
  right. unfold manifestCount, manifestObjs in Hneg.
  assert (Hsev : liveAsSevere e target = true).
  { unfold liveAsSevere, removedAt. rewrite Hr. by rewrite (proj2 (Z.leb_le _ _)) by (by apply Compare_le). }
  rewrite Hsev in Hneg. set (p := fun o => existsb (sameObject (h_Namespace rel) o)
    (default [] (liveObjects us !! apiKey (u_Group u) (u_Version u) (u_Kind u)))).
  change (zlen (filter _ _)) with (zlen (filter (fun o => p o = false) (u_Objects u))) in Hneg.
  pose proof (length_filter (fun o => p o = false) (u_Objects u)) as Hle.
  unfold zlen in *. rewrite wrap64_id in Hneg by (unfold in_int64, minInt, maxInt in *; lia).
  destruct (filter_length_lt p (u_Objects u)) as (o & Ho & Hp); [lia|].
  unfold p in Hp. apply existsb_exists in Hp as (l & Hin & _). apply list_elem_of_In in Hin.
  apply liveObjects_in in Hin as (u' & ? & ? & _). eauto.
Qed.
