(* ===== verification/Crd.v ===== *)
(** * CRD versions: evalCRDVersions (internal/engine/crdversions.go)

    Each CustomResourceDefinition's own versions: objects at a version it
    does not serve, deprecated versions, and stored versions it no longer
    serves. *)

From stdpp Require Import base list strings gmap sorting.
From Stdlib Require Import ZArith Lia.
From S2P Require Import Prelude GoStr GoTime Version Inventory KB Findings APIUse.

Definition crdVersioningURL : string :=
  "https://kubernetes.io/docs/tasks/extend-kubernetes/custom-resources/custom-resource-definition-versioning/".
Definition storageMigrationURL : string :=
  crdVersioningURL +:+ "#upgrade-existing-objects-to-a-new-stored-version".

Definition independent (target : Version) : string :=
  " CRD versions are set by the add-on that ships the CRD, independent of Kubernetes " +:+ VString target +:+ ".".

(** [crdUsage]: the detail sentences, and the fields it fills. *)
Definition usageText (inv : Inventory) (u : APIUsage) : string :=
  let listed := listedObjects (Source inv) u in
  let detail := itoa (u_Count u) +:+
    match listed with
    | manifestObjects => " manifest object(s) use this version"
    | mixedObjects => " object(s) use this version"
    | storedObjects => " object(s) written through this version"
    end in
  let nsDetail := (namespaceBreakdown (u_Namespaces u) (emptyNamespace listed)).1 in
  (if nsDetail =s "" then detail +:+ "." else detail +:+ ": " +:+ nsDetail +:+ ".") +:+ writtenBy u.

Definition crdUsage (inv : Inventory) (teams : gmap string string) (u : APIUsage) (f : Finding) : Finding :=
  let nsNames := (namespaceBreakdown (u_Namespaces u) (emptyNamespace (listedObjects (Source inv) u))).2 in
  set_Objects (sortedObjects (u_Objects u)) (u_ObjectsOmitted u)
    (set_Where (teamsFor teams nsNames) nsNames (f_Unnamespaced f) f).

(** [listed]: the last row of a version's name. *)
Definition listedVersions (c : CRD) : gmap string CRDVersion :=
  foldl (fun m v => <[c_Name v := v]> m) ∅ (crd_Versions c).

Definition servedVersion (c : CRD) (name : string) : bool :=
  match listedVersions c !! name with Some v => c_Served v | None => false end.

(** The storage version, the last one marked. *)
Definition storageVersion (c : CRD) : string :=
  foldl (fun s v => if c_Storage v then c_Name v else s) ""%string (crd_Versions c).

Definition servedText (c : CRD) : string :=
  match map c_Name (filter (fun v => c_Served v = true) (crd_Versions c)) with
  | [] => "no version"
  | served => Join (sort_strings served) ", "
  end.

(** [used]: the last row of a version with objects. *)
Definition usedVersions (c : CRD) : gmap string APIUsage :=
  foldl (fun m u => if 0 <? u_Count u then <[u_Version u := u]> m else m) ∅ (crd_Usage c).

Definition crdName (c : CRD) : string := crd_Plural c +:+ "." +:+ crd_Group c.

Section Crd.
Context `{KubeAware}.
Context (inv : Inventory) (target : Version) (teams : gmap string string).

Definition deprecatedVersion (c : CRD) (v : CRDVersion) : option Finding :=
  if negb (c_Served v) || negb (c_Deprecated v) then None else
  let gv := gvString (crd_Group c) (c_Name v) in
  let to := PreferredVersion c in
  let title := gv +:+ " " +:+ crd_Kind c +:+ " is a deprecated CRD version" in
  let use := usedVersions c !! c_Name v in
  let unchecked := mem_str (gv +:+ " " +:+ crd_Kind c) (cs_Skipped (capability inv CapCRDs)) in
  let used := match use with
              | Some u => usageText inv u
              | None => if unchecked
                        then "Custom resources written through this version were not checked (see the crds gap)."
                        else "No custom resource was found written through this version."
              end in
  let w := TrimSpace (c_DeprecationWarning v) in
  let detail := used +:+ " CRD " +:+ crdName c +:+ " marks " +:+ c_Name v +:+ " deprecated." +:+
    (if w =s "" then "" else " The CRD says: " +:+ quote (TrimSuffix w ".") +:+ ".") +:+
    (if negb (c_Name v =s storageVersion c) && mem_str (c_Name v) (crd_StoredVersions c)
     then " Objects may still be stored at " +:+ c_Name v +:+ " (status.storedVersions)." else "") +:+
    independent target in
  let remediation :=
    if to =s "" then
      "check the add-on's upgrade notes for the version that replaces " +:+ c_Name v +:+
      ": the CRD serves none that is not deprecated"
    else match use with
    | Some _ => "move these objects to " +:+ gvString (crd_Group c) to +:+ " before an add-on upgrade stops serving " +:+ c_Name v
    | None => "use " +:+ gvString (crd_Group c) to +:+ "; an add-on upgrade may stop serving " +:+ c_Name v
    end in
  let f sev title := set_Remediation remediation
    (newFinding CatCRDVersion sev
       (CatCRDVersion +:+ "/deprecated/" +:+ apiKey (crd_Group c) (c_Name v) (crd_Kind c)) title detail
       [crdVersioningURL +:+ "#version-deprecation"]) in
  Some (match use with
        | Some u => crdUsage inv teams u (f SevWarning (title +:+ " (" +:+ pluralObjects (u_Count u) +:+ ")"))
        | None => f SevInfo title
        end).

Definition unservedUse (c : CRD) (u : APIUsage) : option Finding :=
  let v := listedVersions c !! u_Version u in
  if (u_Count u =? 0) || servedVersion c (u_Version u) then None else
  let to := PreferredVersion c in
  let detail := usageText inv u +:+
    match v with
    | Some _ => " CRD " +:+ crdName c +:+ " marks " +:+ u_Version u +:+ " served: false (it serves " +:+ servedText c +:+
        "), so the apiserver rejects these objects at " +:+ u_Version u +:+ "."
    | None => " CRD " +:+ crdName c +:+ " does not list " +:+ u_Version u +:+ " (it serves " +:+ servedText c +:+
        "), so the apiserver rejects these objects at " +:+ u_Version u +:+ "."
    end +:+ independent target in
  let remediation :=
    (if to =s "" then "move these objects to a version the CRD serves; the apiserver rejects writes at " +:+ u_Version u
     else "move these objects to " +:+ gvString (crd_Group c) to +:+ "; the apiserver rejects writes at " +:+ u_Version u) +:+
    match objectManagers (u_Objects u) with
    | [] => ""
    | _ => ". A named manager that no longer writes them keeps them listed through its managedFields entry until another manager takes over its fields or the entry is removed"
    end in
  Some (crdUsage inv teams u
    (set_Remediation remediation
       (newFinding CatCRDVersion SevBlocker
          (CatCRDVersion +:+ "/unserved/" +:+ apiKey (crd_Group c) (u_Version u) (crd_Kind c))
          (gvString (crd_Group c) (u_Version u) +:+ " " +:+ crd_Kind c +:+ " is not served by its CRD (" +:+
           pluralObjects (u_Count u) +:+ ")")
          detail [crdVersioningURL]))).

Definition storedUnserved (c : CRD) (s : string) : option Finding :=
  let storage := storageVersion c in
  if (s =s storage) || servedVersion c s then None else
  Some (set_Remediation
    ("migrate every stored " +:+ crd_Kind c +:+ " to the storage version " +:+ storage +:+
     " (kube-storage-version-migrator, the add-on's own tool such as cert-manager's cmctl upgrade migrate-api-version, or a no-op update of each object), then remove " +:+
     s +:+ " from status.storedVersions (kubectl patch crd " +:+ crdName c +:+ " --subresource=status)")
    (newFinding CatCRDVersion SevWarning
       (CatCRDVersion +:+ "/stored-unserved/" +:+ apiKey (crd_Group c) s (crd_Kind c))
       ("CRD " +:+ crdName c +:+ " lists unserved version " +:+ s +:+ " in status.storedVersions")
       ("Objects may still be persisted at " +:+ s +:+ ", which CRD " +:+ crdName c +:+
        " no longer serves (storage version: " +:+ storage +:+ "). A CRD update that drops " +:+ s +:+
        " from spec.versions is rejected while status.storedVersions lists it, so the add-on upgrade that drops it fails." +:+
        independent target)
       [storageMigrationURL])).

Definition crdFindings (c : CRD) : list Finding :=
  omap (deprecatedVersion c) (crd_Versions c) ++
  omap (unservedUse c) (crd_Usage c) ++
  omap (storedUnserved c) (crd_StoredVersions c).
End Crd.

Definition evalCRDVersions `{KubeAware} (inv : Inventory) (target : Version) (b : option budget)
    : list Finding * option budget :=
  let teams := newTeamLookup (Namespaces inv) in
  addAll b [] (flat_map (crdFindings inv target teams) (CRDs inv)).

(** ** Properties *)

(** A version is served when the CRD's last row of its name says so. *)
Lemma servedVersion_spec c name :
  NoDup (map c_Name (crd_Versions c)) ->
  servedVersion c name = true <-> exists v, v ∈ crd_Versions c /\ c_Name v = name /\ c_Served v = true.
Proof.
  intros Hn. unfold servedVersion, listedVersions. revert Hn.
  induction (crd_Versions c) as [|v vs IH] using rev_ind; intros Hn.
  { simpl. rewrite lookup_empty. split; [done|]. by intros (? & ?%elem_of_nil & _). }
  rewrite map_app in Hn. simpl in Hn. apply NoDup_app in Hn as (Hn & Hd & _).
  rewrite foldl_snoc, lookup_insert. setoid_rewrite elem_of_app. setoid_rewrite list_elem_of_singleton.
  case_decide as E.
  - subst name. split; [eauto|]. intros (w & [Hw| ->] & Hk & Hs); [|done]. exfalso. apply (Hd (c_Name w)).
    + apply list_elem_of_In, in_map, list_elem_of_In, Hw.
    + rewrite Hk. by left.
  - rewrite (IH Hn). naive_solver.
Qed.

Lemma crd_blocks `{KubeAware} (inv : Inventory) (target : Version) (teams : gmap string string) (c : CRD) :
  NoDup (map c_Name (crd_Versions c)) ->
  (exists f, f ∈ crdFindings inv target teams c /\ f_Severity f = SevBlocker) <->
  exists u, u ∈ crd_Usage c /\ u_Count u <> 0 /\
    ~ exists v, v ∈ crd_Versions c /\ c_Name v = u_Version u /\ c_Served v = true.
Proof.
  intros Hn. unfold crdFindings. split.
  - intros (f & Hf & Hs). rewrite !elem_of_app, !list_elem_of_omap in Hf.
    destruct Hf as [(v & _ & Hv)|[(u & Hu & Hf)|(s & _ & Hf)]].
    + unfold deprecatedVersion in Hv. destruct (negb _ || negb _); [done|]. cbv zeta in Hv. injection Hv as <-.
      by destruct (usedVersions c !! c_Name v).
    + exists u. unfold unservedUse in Hf. destruct (_ || _) eqn:E; [done|]. to_prop.
      split_and!; [done|done|]. rewrite <- servedVersion_spec by done. congruence.
    + unfold storedUnserved in Hf. destruct (_ || _); [done|]. cbv zeta in Hf. by injection Hf as <-.
  - intros (u & Hu & Hc & Hv). rewrite <- servedVersion_spec in Hv by done. apply not_true_is_false in Hv.
    destruct (unservedUse inv target teams c u) as [f|] eqn:E.
    + exists f. split; [rewrite !elem_of_app, !list_elem_of_omap; right; left; eauto|].
      unfold unservedUse in E. destruct (_ || _); [done|]. cbv zeta in E. by injection E as <-.
    + exfalso. unfold unservedUse in E. rewrite Hv, orb_false_r in E. destruct (u_Count u =? 0) eqn:E0; [|done].
      by apply Z.eqb_eq in E0.
Qed.

(** A CRD blocks the upgrade exactly when objects use a version it does
    not serve: the findings of a CRD contain a blocker iff a usage row with
    objects names a version that no version row of the CRD serves. *)
Lemma crdFindings_blocker `{KubeAware} (inv : Inventory) (target : Version) (teams : gmap string string) (c : CRD) :
  NoDup (map c_Name (crd_Versions c)) ->
  (exists f, f ∈ crdFindings inv target teams c /\ f_Severity f = SevBlocker) <->
  exists u, u ∈ crd_Usage c /\ u_Count u <> 0 /\
    ~ exists v, v ∈ crd_Versions c /\ c_Name v = u_Version u /\ c_Served v = true.
Proof. apply crd_blocks. Qed.

(** The default order: by name. *)
Definition byName : KubeAware := {| CompareKubeAwareVersionStrings a b := cmpStr a b |}.

Definition certCRD : CRD :=
  mkCRD "cert-manager.io" "Certificate" "certificates"
    [mkCRDVersion "v1alpha2" false false false ""; mkCRDVersion "v1" true true false ""] ["v1"%string]
    [mkAPIUsage "cert-manager.io" "v1alpha2" "Certificate" 2 ∅ [] 0].

Lemma crdFindings_blocker_witness :
  exists f, f ∈ @crdFindings byName (mkInventory 1 "c" 1 SourceCluster 0 "v1.29.4" "" ∅ [] [] [] [] [] [] [] [] [] 0
                  [certCRD] [] 0 0 []) (mkVersion 1 30) ∅ certCRD /\ f_Severity f = SevBlocker.
Proof.
  apply (@crdFindings_blocker byName _ _ _ certCRD).
  - apply (bool_decide_unpack _). vm_compute. exact I.
  - exists (mkAPIUsage "cert-manager.io" "v1alpha2" "Certificate" 2 ∅ [] 0). split; [by left|]. split; [done|].
    intros (v & Hv & Hk & Hs). simpl in Hv. rewrite !elem_of_cons, elem_of_nil in Hv.
    destruct Hv as [->|[->|[]]]; done.
Defined.
