(* ===== verification/Volumes.v ===== *)
(** * In-tree volume plugins (internal/engine/volumes.go, internal/kb/volumeplugins.go)

    [evalVolumePlugins] reads the plugin's removal and deprecation through
    pointers the dataset's validation guarantees. [None] is the panic of a
    nil dereference; [evalVolumePlugins_total] shows a validated dataset
    never causes one. *)

From stdpp Require Import base list strings gmap sorting.
From Stdlib Require Import ZArith Lia Ascii.
From S2P Require Import Prelude GoStr GoTime Version Inventory KB Findings APIUse.

(** ** The dataset: parseVolumePlugins *)

Section Dataset.
(** [httpsURL], on net/url. *)
Context (httpsURL : string -> bool).

Definition badPlugin {A} (p : VolumePlugin) (why : string) : res A :=
  Err ("kb: volumeplugins.json: plugin " +:+ quote (vp_Plugin p) +:+ ": " +:+ why).

Definition isSome {A} (o : option A) : bool := match o with Some _ => true | None => false end.

(** The classification's rules on the removal and deprecation minors. *)
Definition checkClassification (p : VolumePlugin) : res unit :=
  let c := vp_Classification p in
  if (c =s VolumeRemoved) || (c =s VolumeCSIMigration) then
    if isSome (vp_Removed p) then Ok tt else badPlugin p ("classification " +:+ c +:+ " needs a removed minor")
  else if c =s VolumeDeprecated then
    if isSome (vp_Removed p) || negb (isSome (vp_Deprecated p))
    then badPlugin p "classification deprecated takes a deprecated minor and no removed one" else Ok tt
  else badPlugin p ("unknown classification " +:+ quote c).

Definition checkProvisioner (provisioners : list string) (p : VolumePlugin) : res unit :=
  let v := vp_Provisioner p in
  if (v =s "") && negb (vp_ProvisionerCitation p =s "") then badPlugin p "a provisioner citation without a provisioner"
  else if v =s "" then Ok tt
  else if negb (HasPrefix v "kubernetes.io/") || (slen v =? slen "kubernetes.io/") then
    badPlugin p ("provisioner " +:+ quote v +:+ " is not an in-tree one (kubernetes.io/<name>)")
  else if mem_str v provisioners then badPlugin p ("provisioner " +:+ quote v +:+ " is another plugin's too")
  else if negb (httpsURL (vp_ProvisionerCitation p)) then
    badPlugin p ("provisioner " +:+ quote v +:+ " needs an https citation")
  else Ok tt.

(** One turn of the loop. *)
Definition checkPlugin (seen provisioners : list string) (p : VolumePlugin) : res unit :=
  if vp_Plugin p =s "" then badPlugin p "no plugin name"
  else if mem_str (vp_Plugin p) seen then badPlugin p "listed twice"
  else if vp_Replacement p =s "" then badPlugin p "no replacement"
  else match vp_Citations p with
  | [] => badPlugin p "no citation"
  | cites =>
      let? _ := checkClassification p in
      if negb (Bool.eqb (vp_Classification p =s VolumeCSIMigration) (negb (vp_CSIDriver p =s "")))
      then badPlugin p "a CSI driver is named exactly for classification csi-migration"
      else if match vp_Deprecated p, vp_Removed p with
              | Some d, Some r => 0 <? Compare d r
              | _, _ => false
              end then badPlugin p "deprecated after it was removed"
      else match find (fun c => negb (httpsURL c)) cites with
      | Some c => badPlugin p ("citation " +:+ quote c +:+ " is not an https URL")
      | None => checkProvisioner provisioners p
      end
  end.

Fixpoint checkPlugins (seen provisioners : list string) (ps : list VolumePlugin) : res unit :=
  match ps with
  | [] => Ok tt
  | p :: ps' =>
      let? _ := checkPlugin seen provisioners p in
      checkPlugins (vp_Plugin p :: seen) (vp_Provisioner p :: provisioners) ps'
  end.

(** [parseVolumePlugins] after the JSON is decoded. *)
Definition parseVolumePlugins (ps : list VolumePlugin) : res (list VolumePlugin) :=
  match ps with
  | [] => Err "kb: volumeplugins.json lists no plugins"
  | _ => let? _ := checkPlugins [] [] ps in Ok (isort (fun a b => String.leb (vp_Plugin a) (vp_Plugin b)) ps)
  end.
End Dataset.

(** ** Text *)

Definition pluralVolumeObjects (n : Z) : string :=
  if n =? 1 then "1 PersistentVolume or StorageClass" else itoa n +:+ " PersistentVolumes or StorageClasses".

Definition volumeObjectsListed (src : string) (refs : list ObjectRef) : objectsListed :=
  if src =s SourceFiles then manifestObjects else
  match refs with
  | [] => storedObjects
  | r :: _ =>
      if 0 <? o_Line r then manifestObjects
      else if existsb (fun r => 0 <? o_Line r) refs then mixedObjects
      else storedObjects
  end.

Definition deprecatedWhen (deprecated target : Version) : string :=
  if 0 <? Compare deprecated target then "deprecated in " +:+ VString deprecated
  else "deprecated since " +:+ VString deprecated.

(** ** evalVolumePlugins *)

(** [refs]: what the row names, saturated. *)
Definition volumeRefs (u : VolumePluginUse) : Z :=
  zlen (vu_Objects u) + Z.min (Z.max (vu_ObjectsOmitted u) 0) (maxInt - zlen (vu_Objects u)).

(** What the row counts but names no object of. *)
Definition volumeUnlisted (u : VolumePluginUse) : Z :=
  if 0 <? volumeRefs u then Z.max 0 (wrap64 (vu_Count u - volumeRefs u)) else 0.

(** [count], [subject] and [total]. *)
Definition volumeSubject (listed : objectsListed) (u : VolumePluginUse) : string * string * Z :=
  let named := 0 <? volumeRefs u in
  let pods n := Replace1 (pluralObjects n) "object" "pod" in
  match listed with
  | storedObjects =>
      if negb named then (pods (vu_Count u), pods (vu_Count u), vu_Count u)
      else
        let objects := pluralVolumeObjects (volumeRefs u) in
        (pluralObjects (vu_Count u),
         if 0 <? volumeUnlisted u then pods (volumeUnlisted u) +:+ " and " +:+ objects else objects,
         wrap64 (volumeUnlisted u + volumeRefs u))
  | _ => (pluralObjects (vu_Count u), pluralObjects (vu_Count u), vu_Count u)
  end.

(** Severity, title and consequence; [None] for a nil dereference. *)
Definition volumeVerdict (p : VolumePlugin) (target : Version) (plugin count : string) (named : bool)
    : option (string * string * string) :=
  let head := "In-tree volume plugin " +:+ plugin +:+ " " in
  if vp_Classification p =s VolumeRemoved then
    match vp_Removed p with
    | None => None
    | Some r =>
        let title := head +:+ "removed in " +:+ VString r +:+ " (" +:+ count +:+ ")" in
        let consequence :=
          "From " +:+ VString r +:+
          " a pod that names it, or that mounts a claim bound to a PersistentVolume that does, does not start." +:+
          (if negb (vp_Provisioner p =s "") && named then
             " A StorageClass with provisioner " +:+ vp_Provisioner p +:+
             " has its new claims provisioned by the in-tree plugin, so from " +:+ VString r +:+ " they are not provisioned."
           else "") in
        Some (if Compare r target <=? 0 then (SevBlocker, title, consequence)
              else if Compare r (Next target) =? 0 then (SevWarning, title, consequence)
              else (SevInfo,
                    match vp_Deprecated p with
                    | Some d => head +:+ deprecatedWhen d target +:+ ", removed in " +:+ VString r +:+ " (" +:+ count +:+ ")"
                    | None => title
                    end, consequence))
    end
  else if vp_Classification p =s VolumeCSIMigration then
    match vp_Removed p with
    | None => None
    | Some r =>
        Some (if Compare r target <=? 0 then SevWarning else SevInfo,
          head +:+ "needs CSI driver " +:+ vp_CSIDriver p +:+ " from " +:+ VString r +:+ " (" +:+ count +:+ ")",
          "From " +:+ VString r +:+ " the " +:+ vp_CSIDriver p +:+
          " CSI driver serves every operation on these volumes: a cluster without it installed cannot mount them, one with it is fine." +:+
          (if negb (vp_Provisioner p =s "") && named then
             " A StorageClass with provisioner " +:+ vp_Provisioner p +:+
             " has its new claims provisioned by the in-tree plugin, so from " +:+ VString r +:+ " by that CSI driver."
           else ""))
    end
  else
    match vp_Deprecated p with
    | None => None
    | Some d => Some (SevInfo, head +:+ deprecatedWhen d target +:+ " (" +:+ count +:+ ")",
                      "It still works; upstream has not scheduled its removal."%string)
    end.

(** [byName]: the last plugin of a name. *)
Definition pluginsByName (ps : list VolumePlugin) : gmap string VolumePlugin :=
  foldl (fun m p => <[vp_Plugin p := p]> m) ∅ ps.

(** One row: [Some None] when it is not judged. *)
Definition volumeFinding (inv : Inventory) (teams : gmap string string) (byName : gmap string VolumePlugin)
    (target : Version) (u : VolumePluginUse) : option (option Finding) :=
  match byName !! vu_Plugin u with
  | None => Some None
  | Some p =>
      if vu_Count u <=? 0 then Some None else
      let listed := volumeObjectsListed (Source inv) (vu_Objects u) in
      let '(count, subject, total) := volumeSubject listed u in
      match volumeVerdict p target (vu_Plugin u) count (0 <? volumeRefs u) with
      | None => None
      | Some (sev, title, consequence) =>
          let '(where_, names) := namespaceBreakdown (vu_Namespaces u) (emptyNamespace listed) in
          let detail := subject +:+ " " +:+ (if total =? 1 then "names" else "name") +:+ " it, in: " +:+ where_ +:+ ". " +:+
            consequence +:+ (if vp_Note p =s "" then "" else " Upstream: " +:+ vp_Note p +:+ ".") in
          Some (Some (mkFinding CatVolumePlugin sev (CatVolumePlugin +:+ "/" +:+ vu_Plugin u) title detail
            (teamsFor teams names) names 0 false (vp_Replacement p) (vp_Citations p) (sortedObjects (vu_Objects u))
            (wrap64 (vu_ObjectsOmitted u + volumeUnlisted u)) "" []))
      end
  end.

Fixpoint volumeRows (row : VolumePluginUse -> option (option Finding)) (b : option budget) (out : list Finding)
    (us : list VolumePluginUse) : option (list Finding * option budget) :=
  match us with
  | [] => Some (out, b)
  | u :: us' =>
      match row u with
      | None => None
      | Some None => volumeRows row b out us'
      | Some (Some f) =>
          let '(ok, out, b) := add b out f in
          if ok then volumeRows row b out us' else Some (out, b)
      end
  end.

Definition evalVolumePlugins (inv : Inventory) (k : KB) (target : Version) (b : option budget)
    : option (list Finding * option budget) :=
  let byName := pluginsByName (k_VolumePlugins k) in
  let teams := newTeamLookup (Namespaces inv) in
  volumeRows (volumeFinding inv teams byName target) b [] (VolumePlugins inv).

(** ** A validated dataset *)

(** What the engine relies on. *)
Definition plugin_ok (p : VolumePlugin) : Prop :=
  ((vp_Classification p = VolumeRemoved \/ vp_Classification p = VolumeCSIMigration) /\ is_Some (vp_Removed p)) \/
  (vp_Classification p = VolumeDeprecated /\ is_Some (vp_Deprecated p)).

Lemma checkClassification_ok p : checkClassification p = Ok tt -> plugin_ok p.
Proof.
  unfold checkClassification, plugin_ok.
  destruct (String.eqb_spec (vp_Classification p) VolumeRemoved) as [E|];
    [|destruct (String.eqb_spec (vp_Classification p) VolumeCSIMigration) as [E|]]; simpl.
  1, 2: destruct (vp_Removed p); [left; eauto|done].
  destruct (String.eqb_spec (vp_Classification p) VolumeDeprecated); [|done].
  destruct (vp_Removed p), (vp_Deprecated p); try done. right. eauto.
Qed.

Lemma checkPlugins_ok httpsURL ps : forall seen provs, checkPlugins httpsURL seen provs ps = Ok tt ->
  Forall plugin_ok ps /\ NoDup (map vp_Plugin ps) /\ (forall p, p ∈ ps -> vp_Plugin p ∉ seen).
Proof.
  induction ps as [|p ps IH]; intros seen provs; simpl; [intros _; split_and!; [done|apply NoDup_nil_2|by intros ? ?%elem_of_nil]|].
  destruct (checkPlugin httpsURL seen provs p) as [[]|] eqn:E; simpl; [|done].
  intros (Hf & Hn & Hs)%IH. unfold checkPlugin in E.
  destruct (vp_Plugin p =s ""); [done|]. destruct (mem_str (vp_Plugin p) seen) eqn:Em; [done|].
  destruct (vp_Replacement p =s ""); [done|]. destruct (vp_Citations p); [done|].
  destruct (checkClassification p) as [[]|] eqn:Ec; simpl in E; [|done].
  apply not_true_iff_false in Em. rewrite mem_str_spec in Em.
  split_and!.
  - constructor; [by apply checkClassification_ok|done].
  - apply NoDup_cons. split; [|done]. intros Hin%list_elem_of_In. apply in_map_iff in Hin as (q & Hq & Hin).
    apply list_elem_of_In in Hin. apply (Hs q Hin). rewrite Hq. by left.
  - intros q [->|Hq]%elem_of_cons; [done|]. intros Hin. apply (Hs q Hq). by right.
Qed.

Lemma pluginsByName_in ps name p : pluginsByName ps !! name = Some p -> p ∈ ps /\ vp_Plugin p = name.
Proof.
  unfold pluginsByName. induction ps as [|q ps IH] using rev_ind; [done|].
  rewrite foldl_snoc, lookup_insert, elem_of_app, list_elem_of_singleton. case_decide.
  - intros [= <-]. auto.
  - intros [? ?]%IH. auto.
Qed.

Lemma pluginsByName_lookup ps p :
  NoDup (map vp_Plugin ps) -> p ∈ ps -> pluginsByName ps !! vp_Plugin p = Some p.
Proof.
  unfold pluginsByName. induction ps as [|q ps IH] using rev_ind; [by intros _ ?%elem_of_nil|].
  rewrite map_app. intros (Hn & Hd & _)%NoDup_app. rewrite foldl_snoc, lookup_insert.
  intros [Hp| ->%list_elem_of_singleton]%elem_of_app; [|by rewrite decide_True].
  case_decide as E; [|by apply IH]. exfalso. apply (Hd (vp_Plugin p)).
  - by apply list_elem_of_In, in_map, list_elem_of_In.
  - rewrite <- E. by left.
Qed.

Lemma parseVolumePlugins_ok httpsURL raw ps :
  parseVolumePlugins httpsURL raw = Ok ps -> Forall plugin_ok ps /\ NoDup (map vp_Plugin ps).
Proof.
  unfold parseVolumePlugins. destruct raw as [|q raw']; [done|].
  destruct (checkPlugins httpsURL [] [] (q :: raw')) as [[]|] eqn:E; [|done].
  apply checkPlugins_ok in E as (Hf & Hn & _). cbn [res_bind]. intros [= <-].
  pose proof (isort_perm (fun a b => String.leb (vp_Plugin a) (vp_Plugin b)) (q :: raw')) as Hp.
  split; [by rewrite Hp|].
  change (NoDup (vp_Plugin <$> isort (fun a b => String.leb (vp_Plugin a) (vp_Plugin b)) (q :: raw'))).
  by rewrite Hp.
Qed.

Lemma volumeVerdict_ok p target plugin count named :
  plugin_ok p -> is_Some (volumeVerdict p target plugin count named).
Proof.
  unfold volumeVerdict. intros [[[->| ->] [r ->]]|[-> [d ->]]]; simpl; eauto.
Qed.

Lemma volumeFinding_ok inv teams ps target u :
  Forall plugin_ok ps -> is_Some (volumeFinding inv teams (pluginsByName ps) target u).
Proof.
  intros Hps. unfold volumeFinding. destruct (pluginsByName ps !! vu_Plugin u) as [p|] eqn:Ep; [|by eauto].
  destruct (vu_Count u <=? 0); [by eauto|]. destruct (volumeSubject _ u) as [[count subject] total].
  apply pluginsByName_in in Ep as [Hin _]. rewrite Forall_forall in Hps.
  destruct (volumeVerdict_ok p target (vu_Plugin u) count (0 <? volumeRefs u) (Hps p Hin)) as [[[sev title] cons] ->].
  destruct (namespaceBreakdown _ _). eauto.
Qed.

(** The rows a check judges, once no row panics. *)
Definition volumeFindings (inv : Inventory) (k : KB) (target : Version) : list Finding :=
  omap (fun u => mjoin (volumeFinding inv (newTeamLookup (Namespaces inv)) (pluginsByName (k_VolumePlugins k)) target u))
    (VolumePlugins inv).

Lemma volumeRows_total row us b out :
  (forall u, u ∈ us -> is_Some (row u)) ->
  volumeRows row b out us = Some (addAll b out (omap (fun u => mjoin (row u)) us)).
Proof.
  revert b out. induction us as [|u us IH]; intros b out Hr; simpl; [done|].
  destruct (Hr u (list_elem_of_here _ _)) as [[f|] ->]; simpl.
  - destruct (add b out f) as [[[] out'] b']; [|done]. apply IH. intros. apply Hr. by right.
  - apply IH. intros. apply Hr. by right.
Qed.

(** A plugin in use that the target has removed blocks. *)
Lemma volume_removed_blocks inv k target u p r :
  Forall plugin_ok (k_VolumePlugins k) ->
  u ∈ VolumePlugins inv -> 0 < vu_Count u -> pluginsByName (k_VolumePlugins k) !! vu_Plugin u = Some p ->
  vp_Classification p = VolumeRemoved -> vp_Removed p = Some r -> vle r target ->
  exists f, f ∈ volumeFindings inv k target /\ f_Severity f = SevBlocker.
Proof.
  intros Hok Hu Hc Ep Hcl Hr Hv. unfold volumeFindings.
  destruct (volumeFinding_ok inv (newTeamLookup (Namespaces inv)) _ target u Hok) as [o Ho].
  unfold volumeFinding in Ho. rewrite Ep in Ho.
  rewrite (proj2 (Z.leb_gt _ _)) in Ho by done. destruct (volumeSubject _ u) as [[count subject] total] eqn:Es.
  destruct (volumeVerdict p target (vu_Plugin u) count (0 <? volumeRefs u)) as [[[sev title] cons]|] eqn:Ev; [|done].
  destruct (namespaceBreakdown _ _) as [w names] eqn:En. injection Ho as <-. eexists. rewrite list_elem_of_omap. split.
  - exists u. split; [done|]. unfold volumeFinding. rewrite Ep, (proj2 (Z.leb_gt _ _)), Es, Ev, En by done. reflexivity.
  - simpl. unfold volumeVerdict in Ev. rewrite Hcl, Hr in Ev. simpl in Ev.
    rewrite (proj2 (Z.leb_le _ _)) in Ev by (by apply Compare_le). by injection Ev as <- _ _.
Qed.

(** C36 The volume check never panics on a dataset that passes validation,
    and its blockers are exact: with it, a plugin in use blocks the upgrade
    iff it is classified as removed at or before the target. *)
Theorem evalVolumePlugins_total (httpsURL : string -> bool) (raw : list VolumePlugin) (inv : Inventory) (k : KB)
    (target : Version) :
  parseVolumePlugins httpsURL raw = Ok (k_VolumePlugins k) ->
  (forall b, evalVolumePlugins inv k target b = Some (addAll b [] (volumeFindings inv k target))) /\
  ((exists f, f ∈ volumeFindings inv k target /\ f_Severity f = SevBlocker) <->
   exists u p r, u ∈ VolumePlugins inv /\ 0 < vu_Count u /\ p ∈ k_VolumePlugins k /\ vp_Plugin p = vu_Plugin u /\
     vp_Classification p = VolumeRemoved /\ vp_Removed p = Some r /\ vle r target).
Proof.
  intros Hparse.
  apply parseVolumePlugins_ok in Hparse as [Hok Hnd]. split.
  { intros b. apply volumeRows_total. intros u _. by apply volumeFinding_ok. }
  split.
  - intros (f & Hf & Hs). unfold volumeFindings in Hf. apply list_elem_of_omap in Hf as (u & Hu & Hf). unfold volumeFinding in Hf.
    destruct (pluginsByName _ !! _) as [p|] eqn:Ep; [|done].
    destruct (Z.leb_spec (vu_Count u) 0); [done|]. destruct (volumeSubject _ u) as [[count subject] total].
    destruct (volumeVerdict _ _ _ _ _) as [[[sev title] cons]|] eqn:Ev; [|done].
    destruct (namespaceBreakdown _ _). injection Hf as <-. simpl in Hs. subst sev.
    apply pluginsByName_in in Ep as [Hp Hname]. exists u, p.
    unfold volumeVerdict in Ev. destruct (String.eqb_spec (vp_Classification p) VolumeRemoved).
    + destruct (vp_Removed p) as [r|]; [|done]. exists r. split_and!; try done.
      destruct (Z.leb_spec (Compare r target) 0); [by apply Compare_le|]. by destruct (_ =? _).
    + destruct (_ =s _); [destruct (vp_Removed p); [by destruct (_ <=? _)|done]|by destruct (vp_Deprecated p)].
  - intros (u & p & r & Hu & Hc & Hp & Hname & Hcl & Hr & Hv). eapply volume_removed_blocks; try done.
    rewrite <- Hname. by apply pluginsByName_lookup.
Qed.

(** A dataset of one removed plugin, in use. *)
Definition glusterfs : VolumePlugin :=
  mkVolumePlugin "glusterfs" VolumeRemoved (Some (mkVersion 1 25)) (Some (mkVersion 1 26)) "" "" "" ""
    "migrate the data to another storage backend" ["https://kubernetes.io/blog/"%string].

Definition glusterKB : KB := mkKB "test" [] [] [] [] DefaultSkewPolicy (mkVersion 1 33) [] [glusterfs].

Definition glusterUse : VolumePluginUse := mkVolumePluginUse "glusterfs" 2 {["shop"%string := 2]} [] 0.

Definition glusterInventory : Inventory :=
  mkInventory 1 "c" 1 SourceCluster 0 "v1.25.4" "" ∅ [] [] [] [] [] [] [] [] [] 0 [] [] 0 0 [glusterUse].

Lemma evalVolumePlugins_total_witness :
  exists f, f ∈ volumeFindings glusterInventory glusterKB (mkVersion 1 26) /\ f_Severity f = SevBlocker.
Proof.
  apply (evalVolumePlugins_total (fun s => HasPrefix s "https://") [glusterfs] glusterInventory glusterKB (mkVersion 1 26)).
  - vm_compute. reflexivity.
  - exists glusterUse, glusterfs, (mkVersion 1 26). split; [by left|]. split; [reflexivity|]. split; [by left|].
    split; [reflexivity|]. split; [reflexivity|]. split; [reflexivity|]. by right.
Defined.
