(* ===== verification/Support.v ===== *)
(** * Provider support calendars (internal/engine/support.go)

    Where a managed cluster's minor stands in its provider's calendar, what
    extended support costs, and the finding once standard support is ending
    or over. *)

From stdpp Require Import base list strings gmap sorting.
From Stdlib Require Import ZArith Lia Ascii Floats.SpecFloat.
From S2P Require Import Prelude GoStr GoTime Version Inventory KB Findings.

Definition SupportStandard : string := "standard".
Definition SupportEnding : string := "ending".
Definition SupportExtended : string := "extended".
Definition SupportEnded : string := "ended".

Definition supportWarnDays : Z := 90.
Definition hoursPerYear : Z := 8760.

(** ** Numbers: math.Round, int64 and strconv.FormatFloat *)

Definition prec : Z := 53.
Definition emax : Z := 1024.

(** A [float64] equal to the integer [z], rounded if it must be. *)
Definition float_of (z : Z) : float64 :=
  binary_normalize prec emax z 0 false.

(** [int64(math.Round(x))]: halves away from zero. A value that is not a
    number or does not fit gives the smallest integer, as on amd64. *)
Definition roundToInt (x : float64) : Z :=
  match x with
  | S754_zero _ => 0
  | S754_finite s m e =>
      let n := if 0 <=? e then Zpos m * 2 ^ e else (Zpos m + 2 ^ (- e - 1)) / 2 ^ (- e) in
      let n := if s then - n else n in
      if (minInt <=? n) && (n <=? maxInt) then n else minInt
  | _ => minInt
  end.

(** The integer nearest to [x * 10^q], for a positive [x]. *)
Definition scaled (m : positive) (e q : Z) : Z :=
  let n := Zpos m * 10 ^ q in
  if 0 <=? e then n * 2 ^ e else (n + 2 ^ (- e - 1)) / 2 ^ (- e).

(** The fewest decimals, from [q] on, that read back as [x]; doubles below
    2^53 need at most 22 when they have 15 significant digits or less, as a
    price has. *)
Fixpoint decimals (fuel : nat) (m : positive) (e q : Z) : option (Z * Z) :=
  match fuel with
  | O => None
  | S n =>
      let d := scaled m e q in
      if SFeqb (SFdiv prec emax (float_of d) (float_of (10 ^ q))) (S754_finite false m e)
      then Some (d, q) else decimals n m e (q + 1)
  end.

Fixpoint zeros (n : nat) : string := match n with O => "" | S n' => String "0" (zeros n') end.

(** [d / 10^q] with [q] decimals. *)
Definition pointed (d q : Z) : string :=
  if q =? 0 then itoa d else
  let frac := itoa (d mod 10 ^ q) in
  itoa (d / 10 ^ q) +:+ "." +:+ zeros (Z.to_nat (q - slen frac)) +:+ frac.

(** [strconv.FormatFloat(v, 'f', -1, 64)]. *)
Definition FormatFloat (v : float64) : string :=
  match v with
  | S754_zero s => if s then "-0" else "0"
  | S754_infinity s => if s then "-Inf" else "+Inf"
  | S754_nan => "NaN"
  | S754_finite s m e =>
      let body := match decimals 23 m e 0 with Some (d, q) => pointed d q | None => pointed (scaled m e 22) 22 end in
      if s then "-" +:+ body else body
  end.

Definition priceText (v : float64) : string :=
  let s := FormatFloat v in
  match cut_opt s "." with
  | None => s +:+ ".00"
  | Some (_, frac) => if slen frac <? 2 then s +:+ "0" else s
  end.

(** ** Money *)

(** A comma before every group of three from the right. *)
Fixpoint grouped (first : bool) (digits : string) : string :=
  match digits with
  | ""%string => ""%string
  | String c rest =>
      let rest' := String c (grouped false rest) in
      if negb first && (slen digits mod 3 =? 0) then String "," rest' else rest'
  end.

Definition formatUSD (cents : Z) : string :=
  let dollars := grouped true (itoa (Z.quot cents 100)) in
  let rem := Z.rem cents 100 in
  if rem =? 0 then "$" +:+ dollars else "$" +:+ dollars +:+ "." +:+ itoa02 rem.

(** [fmt.Sprintf("%d.%02d", cents/100, cents%100)]. *)
Definition costDecimal (cents : Z) : string := itoa (Z.quot cents 100) +:+ "." +:+ itoa02 (Z.rem cents 100).

Definition annualCents (pr : Pricing) : Z :=
  roundToInt (SFmul prec emax (SFmul prec emax
    (SFsub prec emax (pr_ExtendedPerClusterHour pr) (pr_StandardPerClusterHour pr)) (float_of hoursPerYear)) (float_of 100)).

Definition costSentence (pr : Pricing) (cents : Z) : string :=
  " Extended support costs " +:+ formatUSD cents +:+ " more per cluster per year at list price ($" +:+
  priceText (pr_ExtendedPerClusterHour pr) +:+ " against $" +:+ priceText (pr_StandardPerClusterHour pr) +:+
  " per cluster-hour, over 8,760 hours; list price as of " +:+ pr_AsOf pr +:+ ", not your bill)." +:+
  (if pr_Note pr =s "" then "" else " It is " +:+ pr_Note pr +:+ ".").

(** ** Summary *)

Definition Summary (s : SupportStatus) : string :=
  let head := ToUpper (st_Provider s) +:+ " " +:+ st_Minor s +:+ ": " in
  let cost :=
    if st_AnnualCostDelta s =s "" then ""
    else match Atoi (Replace1 (st_AnnualCostDelta s) "." "") with
         | Some cents =>
             " " +:+ formatUSD cents +:+ "/yr per cluster (list price as of " +:+ st_PriceAsOf s +:+
             (if st_AnnualCostNote s =s "" then "" else ", " +:+ st_AnnualCostNote s) +:+ ")"
         | None => ""
         end in
  let only := if st_ExtendedSupportCondition s =s "" then ""
              else " (only if " +:+ st_ExtendedSupportCondition s +:+ ")" in
  let adds prefix := if cost =s "" then "" else prefix +:+ cost in
  if st_Phase s =s SupportExtended then
    if st_ExtendedSupportCondition s =s "" then
      head +:+ "in extended support since " +:+ st_ExtendedSupportFrom s +:+ " (until " +:+ st_ExtendedSupportEnds s +:+ ")" +:+
      adds "; adds"
    else
      head +:+ "past standard support since " +:+ st_ExtendedSupportFrom s +:+ "; extended support until " +:+
      st_ExtendedSupportEnds s +:+ only +:+ adds "; adds"
  else if st_Phase s =s SupportEnded then
    if st_ExtendedSupportEnds s =s "" then
      head +:+ "out of support (standard support ended " +:+ st_ExtendedSupportFrom s +:+ ")"
    else head +:+ "out of support (extended support ended " +:+ st_ExtendedSupportEnds s +:+ ")"
  else if st_ExtendedSupportEnds s =s "" then
    head +:+ "standard support ends " +:+ st_ExtendedSupportFrom s +:+ ", no extended support offered"
  else
    head +:+ "standard support ends " +:+ st_ExtendedSupportFrom s +:+ ", extended support until " +:+
    st_ExtendedSupportEnds s +:+ only +:+ adds "; extended support adds".

Definition SupportKey (provider minor phase : string) : string :=
  CatSupportLifecycle +:+ "/" +:+ provider +:+ "/" +:+ minor +:+ "/" +:+ phase.

(** ** supportRemediation *)

(** The nearest and the newest minor in standard support so far, with the
    text each was written as. *)
Definition remediationRow (current : Version) (now : Time) (st : option ((Version * string) * (Version * string)))
    (w : SupportWindow) : option ((Version * string) * (Version * string)) :=
  match ParseVersion (w_Minor w), ParseDate (w_StandardEnd w) with
  | Ok v, Some end_ =>
      if (Compare v current <=? 0) || negb (Before now end_) then st else
      match st with
      | None => Some ((v, w_Minor w), (v, w_Minor w))
      | Some (nearest, newest) =>
          Some (if Compare v nearest.1 <? 0 then (v, w_Minor w) else nearest,
                if 0 <? Compare v newest.1 then (v, w_Minor w) else newest)
      end
  | _, _ => st
  end.

Definition supportRemediation (p : ProviderSupport) (current : Version) (now : Time) : string :=
  match foldl (remediationRow current now) None (p_Versions p) with
  | None => "Upgrade the control plane to a Kubernetes minor that is still in standard support."
  | Some ((_, nearest), (_, newest)) =>
      let base := "Upgrade the control plane, one minor at a time. The nearest minor in standard support is " +:+ nearest in
      if nearest =s newest then base +:+ "." else base +:+ "; the newest known is " +:+ newest +:+ "."
  end.

(** ** evalSupport *)

(** The phase of a minor whose standard support ends at [from] and whose
    extended support ends at [ends], if it has any. *)
Definition supportPhase (now from : Time) (ends : option Time) : string :=
  if Before now (from - supportWarnDays * day) then SupportStandard
  else if Before now from then SupportEnding
  else match ends with
       | None => SupportEnded
       | Some e => if negb (Before now e) then SupportEnded else SupportExtended
       end.

(** The dates of a window; [None] when one does not parse. *)
Definition windowDates (w : SupportWindow) : option (Time * option Time) :=
  match ParseDate (w_StandardEnd w) with
  | None => None
  | Some from =>
      if w_ExtendedEnd w =s "" then Some (from, None)
      else match ParseDate (w_ExtendedEnd w) with Some e => Some (from, Some e) | None => None end
  end.

(** The finding's severity, title and detail. *)
Definition supportText (p : ProviderSupport) (w : SupportWindow) (minor phase condition cost : string)
    : string * string * string :=
  let name := p_DisplayName p in
  let std := w_StandardEnd w in
  let ext := w_ExtendedEnd w in
  let extNote := if p_ExtendedSupportNote p =s "" then "" else " " +:+ p_ExtendedSupportNote p in
  if phase =s SupportEnding then
    let after :=
      if ext =s "" then name +:+ " offers no extended support for it"
      else if negb (condition =s "") then
        "extended support, which applies only if " +:+ condition +:+ ", then runs until " +:+ ext
      else "extended support then runs until " +:+ ext +:+ ", when " +:+ name +:+ " stops supporting it" in
    (SevWarning, "Kubernetes " +:+ minor +:+ " leaves " +:+ name +:+ " standard support on " +:+ std,
     name +:+ " ends standard support for Kubernetes " +:+ minor +:+ " on " +:+ std +:+ "; " +:+ after +:+ "." +:+
     cost +:+ extNote)
  else if phase =s SupportExtended then
    let window :=
      if condition =s "" then "the cluster is in extended support until " +:+ ext +:+ ", when " +:+ name +:+ " stops supporting it"
      else "extended support, which applies only if " +:+ condition +:+ ", runs until " +:+ ext +:+
           "; upgradescope cannot see whether this cluster is enrolled" in
    (SevBlocker, "Kubernetes " +:+ minor +:+ " is past " +:+ name +:+ " standard support (ended " +:+ std +:+ ")",
     name +:+ " ended standard support for Kubernetes " +:+ minor +:+ " on " +:+ std +:+ "; " +:+ window +:+ "." +:+
     cost +:+ extNote)
  else if ext =s "" then
    (SevBlocker, "Kubernetes " +:+ minor +:+ " is out of " +:+ name +:+ " support (standard support ended " +:+ std +:+ ")",
     name +:+ " ended standard support for Kubernetes " +:+ minor +:+ " on " +:+ std +:+
     " and offered no extended support for it." +:+ extNote)
  else
    (SevBlocker, "Kubernetes " +:+ minor +:+ " is out of " +:+ name +:+ " support (extended support ended " +:+ ext +:+ ")",
     name +:+ " ended standard support for Kubernetes " +:+ minor +:+ " on " +:+ std +:+ " and " +:+
     (if condition =s "" then "extended support" else "extended support, which applied only if " +:+ condition +:+ ",") +:+
     " on " +:+ ext +:+ "." +:+ extNote).

(** The provider's window of the cluster's minor, with the server version
    and the dates. *)
Definition supportWindow (inv : Inventory) (k : KB)
    : option (ProviderSupport * Version * SupportWindow * (Time * option Time)) :=
  if Source inv =s SourceFiles then None else
  match KBProvider k (Provider inv), ParseVersion (ServerVersion inv) with
  | Some p, Ok server =>
      match find (fun w => w_Minor w =s VString server) (p_Versions p) with
      | Some w => match windowDates w with Some d => Some (p, server, w, d) | None => None end
      | None => None
      end
  | _, _ => None
  end.

Definition evalSupport (inv : Inventory) (k : KB) (now : Time) : option SupportStatus * list Finding :=
  match supportWindow inv k with
  | None => (None, [])
  | Some (p, server, w, (from, ends)) =>
      let minor := VString server in
      let condition := if w_ExtendedEnd w =s "" then "" else p_ExtendedSupportCondition p in
      let phase := supportPhase now from ends in
      let priced := match p_Pricing p with
                    | Some pr => if negb (w_ExtendedEnd w =s "") && negb (phase =s SupportEnded) then Some pr else None
                    | None => None
                    end in
      let st := match priced with
        | Some pr => mkSupportStatus (p_ID p) minor phase (w_StandardEnd w) (w_ExtendedEnd w)
            (costDecimal (annualCents pr)) (pr_Currency pr) (pr_AsOf pr) (pr_Note pr) condition
        | None => mkSupportStatus (p_ID p) minor phase (w_StandardEnd w) (w_ExtendedEnd w) "" "" "" "" condition
        end in
      let cost := match priced with Some pr => costSentence pr (annualCents pr) | None => "" end in
      if phase =s SupportStandard then (Some st, []) else
      let '(sev, title, detail) := supportText p w minor phase condition cost in
      let citations := p_Citations p ++
        (if st_AnnualCostDelta st =s "" then [] else match p_Pricing p with Some pr => pr_Citations pr | None => [] end) in
      (Some st,
       [set_Remediation (supportRemediation p server now)
          (newFinding CatSupportLifecycle sev (SupportKey (p_ID p) minor phase) title detail citations)])
  end.

(** ** Money, read back *)

Section Money.
#[local] Arguments String.append : simpl nomatch.

Lemma digits_val_app acc s t : digits_val acc (s +:+ t) = digits_val (digits_val acc s) t.
Proof. revert acc. induction s as [|a s IH]; intros acc; simpl; [done|]. apply IH. Qed.

Lemma all_digits_app s t : all_digits (s +:+ t) = all_digits s && all_digits t.
Proof. induction s as [|a s IH]; simpl; [done|]. by rewrite IH, andb_assoc. Qed.

Lemma itoa02_spec r :
  0 <= r < 100 -> exists a b, itoa02 r = String a (String b "") /\ is_digit a = true /\ is_digit b = true /\
    digit_val a * 10 + digit_val b = r.
Proof.
  intros Hr.
  assert (Hall : forallb (fun n => match itoa02 (Z.of_nat n) with
      | String a (String b ""%string) => is_digit a && is_digit b && (digit_val a * 10 + digit_val b =? Z.of_nat n)
      | _ => false end) (seq 0 100) = true) by (vm_compute; reflexivity).
  rewrite forallb_forall in Hall. specialize (Hall (Z.to_nat r)). rewrite Z2Nat.id in Hall by lia.
  specialize (Hall ltac:(apply in_seq; lia)).
  destruct (itoa02 r) as [|a [|b [|]]]; try done. to_prop. eauto 10.
Qed.

(** The text without a byte. *)
Fixpoint without (c : ascii) (s : string) : string :=
  match s with
  | ""%string => ""%string
  | String a s' => if Ascii.eqb a c then without c s' else String a (without c s')
  end.

Lemma without_grouped first s : no_byte "," s -> without "," (grouped first s) = s.
Proof.
  revert first. induction s as [|a s IH]; intros first Hs; [done|]. apply no_byte_cons in Hs as [Ha Hs].
  cbn [grouped]. cbv zeta. assert (E : Ascii.eqb a "," = false) by by apply Ascii.eqb_neq.
  destruct (_ && _); cbn [without]; rewrite ?Ascii.eqb_refl, E, IH; done.
Qed.

Lemma without_app c s t : without c (s +:+ t) = without c s +:+ without c t.
Proof. induction s as [|a s IH]; simpl; [done|]. rewrite IH. by destruct (Ascii.eqb a c). Qed.

(** The amounts a report shows agree: the annual cost stored as a
    decimal string is read back by the one-line summary as the same number
    of cents, and the dollar text of an amount, its thousands separators
    apart, is its dollars and, when it has any, its cents. *)
Lemma cost_roundtrip (cents : Z) :
  0 <= cents <= maxInt ->
  Atoi (Replace1 (costDecimal cents) "." "") = Some cents /\
  without "," (formatUSD cents) =
    if Z.rem cents 100 =? 0 then "$" +:+ itoa (cents / 100) else "$" +:+ costDecimal cents.
Proof.
  intros Hc. unfold costDecimal, formatUSD.
  rewrite Z.quot_div_nonneg, Z.rem_mod_nonneg by lia.
  assert (Hq : 0 <= cents / 100) by (apply Z.div_pos; lia).
  pose proof (Z.mod_pos_bound cents 100 ltac:(lia)) as Hr. pose proof (Z.div_mod cents 100 ltac:(lia)) as Hdm.
  destruct (itoa_nonneg _ Hq) as (Hd & Hv & Hne).
  destruct (itoa02_spec _ Hr) as (a & b & E & Ha & Hb & Hab). rewrite E. split.
  - unfold Replace1. change ("." +:+ String a (String b "")) with (String "." (String a (String b ""))).
    rewrite cut_opt_app by by apply all_digits_no_byte. change ("" +:+ ?x) with x.
    rewrite Atoi_digits; cycle 1.
    { by destruct (itoa (cents / 100)). }
    { rewrite all_digits_app, Hd. simpl. by rewrite Ha, Hb. }
    assert (Hval : digits_val 0 (itoa (cents / 100) +:+ String a (String b "")) = cents).
    { rewrite digits_val_app, Hv. cbn [digits_val]. lia. }
    rewrite Hval. by rewrite (proj2 (Z.leb_le _ _)) by lia.
  - assert (Hg : without "," (grouped true (itoa (cents / 100))) = itoa (cents / 100))
      by (apply without_grouped; by apply all_digits_no_byte).
    assert (Hab' : Ascii.eqb a "," = false /\ Ascii.eqb b "," = false).
    { split; apply Ascii.eqb_neq; intros ->; done. }
    destruct Hab' as [Ea Eb].
    destruct (cents mod 100 =? 0); rewrite !without_app, Hg; [done|].
    do 2 f_equal. cbn [without]. by rewrite Ea, Eb.
Qed.
End Money.

Lemma cost_roundtrip_witness : Atoi (Replace1 (costDecimal 438050) "." "") = Some 438050.
Proof. apply (cost_roundtrip 438050). unfold maxInt. lia. Defined.

(** ** Phases *)

Definition phaseRank (phase : string) : Z :=
  if phase =s SupportStandard then 0 else if phase =s SupportEnding then 1
  else if phase =s SupportExtended then 2 else 3.

(** Support only runs out: as time passes the phase of a cluster never
    goes back, from 90 days before the end of standard support there is one
    finding and before that none, and the finding is a blocker from the day
    standard support ends on and a warning until then. *)
Lemma evalSupport_phases (inv : Inventory) (k : KB) (p : ProviderSupport) (server : Version) (w : SupportWindow)
    (from : Time) (ends : option Time) (now later : Time) :
  supportWindow inv k = Some (p, server, w, (from, ends)) ->
  (forall e, ends = Some e -> from <= e) -> now <= later ->
  phaseRank (supportPhase now from ends) <= phaseRank (supportPhase later from ends) /\
  match (evalSupport inv k now).2 with
  | [] => now < from - supportWarnDays * day
  | [f] => from - supportWarnDays * day <= now /\ f_Key f = SupportKey (p_ID p) (VString server) (supportPhase now from ends) /\
      f_Severity f = if from <=? now then SevBlocker else SevWarning
  | _ => False
  end.
Proof.
  intros Hw He Hl. assert (Hday : 0 < supportWarnDays * day) by done. split.
  - unfold supportPhase, Before. destruct ends as [e|].
    + specialize (He e eq_refl).
      destruct (Z.ltb_spec now (from - supportWarnDays * day)), (Z.ltb_spec later (from - supportWarnDays * day)),
        (Z.ltb_spec now from), (Z.ltb_spec later from), (Z.ltb_spec now e), (Z.ltb_spec later e);
        cbv -[Z.le]; lia.
    + destruct (Z.ltb_spec now (from - supportWarnDays * day)), (Z.ltb_spec later (from - supportWarnDays * day)),
        (Z.ltb_spec now from), (Z.ltb_spec later from); cbv -[Z.le]; lia.
  - unfold evalSupport. rewrite Hw. cbv zeta.
    assert (Hp : (supportPhase now from ends =s SupportStandard) = (now <? from - supportWarnDays * day) /\
      ((supportPhase now from ends =s SupportEnding) = negb (now <? from - supportWarnDays * day) && (now <? from))).
    { unfold supportPhase, Before. destruct (now <? from - supportWarnDays * day); [done|].
      destruct (now <? from); [done|]. destruct ends as [e|]; [|done]. by destruct (now <? e). }
    destruct Hp as [Hp1 Hp2]. rewrite Hp1.
    destruct (Z.ltb_spec now (from - supportWarnDays * day)); [done|]. simpl negb in Hp2. rewrite andb_true_l in Hp2.
    assert (Hs : forall c cost, (supportText p w (VString server) (supportPhase now from ends) c cost).1.1 =
      if from <=? now then SevBlocker else SevWarning).
    { intros c cost. unfold supportText. rewrite Hp2. destruct (Z.ltb_spec now from).
      - rewrite (proj2 (Z.leb_gt _ _)) by done. done.
      - rewrite (proj2 (Z.leb_le _ _)) by done. destruct (_ =s SupportExtended); [done|].
        by destruct (w_ExtendedEnd w =s ""). }
    specialize (Hs (if w_ExtendedEnd w =s "" then "" else p_ExtendedSupportCondition p)%string).
    match goal with |- context [supportText p w ?m ?ph ?c ?cost] => specialize (Hs cost);
      destruct (supportText p w m ph c cost) as [[sev title] detail] end.
    simpl. split_and!; [lia|done|done].
Qed.

(** Kubernetes 1.29 on EKS, and the day its standard support ended. *)
Definition eks : ProviderSupport :=
  mkProviderSupport 1 "eks" "Amazon EKS" "amazon-eks" "" "" [] [mkSupportWindow "1.29" "2025-03-23" "2026-03-23"] None.

Definition eksKB : KB := mkKB "test" [] [] [] [eks] DefaultSkewPolicy (mkVersion 1 33) [] [].

Definition eksInventory : Inventory :=
  mkInventory 1 "c" 1 SourceCluster 0 "v1.29.4-eks-1" "eks" ∅ [] [] [] [] [] [] [] [] [] 0 [] [] 0 0 [].

Definition eksEnd : Time := civil 2025 3 23 * day.
Definition eksExtendedEnd : Time := civil 2026 3 23 * day.

Lemma evalSupport_phases_witness :
  map f_Severity (evalSupport eksInventory eksKB eksEnd).2 = [SevBlocker] /\
  phaseRank (supportPhase eksEnd eksEnd (Some eksExtendedEnd)) <=
    phaseRank (supportPhase eksExtendedEnd eksEnd (Some eksExtendedEnd)).
Proof.
  split; [vm_compute; reflexivity|].
  refine (proj1 (evalSupport_phases eksInventory eksKB eks (mkVersion 1 29)
    (mkSupportWindow "1.29" "2025-03-23" "2026-03-23") eksEnd (Some eksExtendedEnd) eksEnd eksExtendedEnd _ _ _)).
  - vm_compute. reflexivity.
  - intros e [= <-]. vm_compute. discriminate.
  - vm_compute. discriminate.
Defined.
