(* ===== verification/Evaluate.v ===== *)
(** * Evaluate and EvaluateWithin (internal/engine/engine.go, budget.go)

    The whole evaluation: every check in order within the budget, the
    score, the gaps and the verdict. [None] is a panic of the volume check,
    which a validated dataset rules out ([evalVolumePlugins_total]). *)

From stdpp Require Import base list strings gmap sorting.
From Stdlib Require Import ZArith Lia.
From S2P Require Import Prelude GoStr GoTime Version Inventory KB Findings APIUse Calls AddOns Skew Gaps Helm Crd Volumes Support.

(** ** Caller rows *)

Definition compareCalls (x y : DeprecatedCall) : Z :=
  cmpOr (cmpStr (d_Group x) (d_Group y))
    (cmpOr (cmpStr (d_Version x) (d_Version y))
      (cmpOr (cmpStr (d_Resource x) (d_Resource y))
        (cmpOr (cmpStr (d_Subresource x) (d_Subresource y)) (cmpStr (d_RemovedRelease x) (d_RemovedRelease y))))).

Definition sortCalls (cs : list DeprecatedCall) : list DeprecatedCall :=
  isort (fun a b => compareCalls a b <=? 0) cs.

(** The inventory the checks judge: without the agent's own requests, and
    with the caller rows in one order. *)
Definition judged (inv : Inventory) : Inventory := with_DeprecatedCalls inv (sortCalls (otherCallers inv)).

(** ** Steps *)

Definition state : Type := list Finding * option budget.

Definition ErrReportTooLarge : string := "the report would be over its size limit".

(** [findings = append(findings, check(b)...)] *)
Definition appendCheck (check : option budget -> list Finding * option budget) (st : state) : option state :=
  let '(out, b) := check st.2 in Some (st.1 ++ out, b).

(** [b.addAll(&findings, fs)] *)
Definition addCheck (fs : list Finding) (st : state) : option state := Some (addAll st.2 st.1 fs).

Fixpoint runSteps (steps : list (state -> option state)) (st : state) : option (res state) :=
  match steps with
  | [] => Some (Ok st)
  | step :: steps' =>
      if exceeded st.2 then Some (Err ErrReportTooLarge)
      else match step st with
           | None => None
           | Some st' => runSteps steps' st'
           end
  end.

Section Evaluate.
Context `{Semver} `{KubeAware}.

(** The API findings: usage, then callers folded into it. *)
Definition apiFindings (inv : Inventory) (k : KB) (target : Version) (b : option budget) : state :=
  let '(usage, b) := evalAPIUsage inv k target b in
  let '(calls, b) := if exceeded b then ([], b) else evalDeprecatedCalls inv k target b in
  if exceeded b then ([], b) else foldDeprecatedCalls inv usage calls b.

Definition evalSteps (inv : Inventory) (k : KB) (target : Version) (now : Time) : list (state -> option state) := [
  appendCheck (evalAuthorshipUnknown inv k);
  addCheck (evalAddOns inv k target now);
  appendCheck (evalUncoveredRuntimes inv (k_AddOns k));
  appendCheck (evalHelmReleases inv k target);
  addCheck (evalSkew inv k target);
  addCheck (evalControlPlaneSkew inv k target);
  addCheck (evalKubeProxyKubeletSkew inv k);
  addCheck (evalKBStale inv k target);
  addCheck (evalUpgradePath inv target);
  addCheck (evalSupport inv k now).2;
  appendCheck (evalCRDVersions inv target);
  fun st => match evalVolumePlugins inv k target st.2 with
            | None => None
            | Some (out, b) => Some (st.1 ++ out, b)
            end
].

(** The unrecognized images a report lists, and how many it omits. *)
Definition listedImages (inv : Inventory) : list string * Z :=
  let images := sortedSet (UnrecognizedImages inv) in
  let n := zlen images - MaxUnrecognizedImages in
  if 0 <? n then (take (Z.to_nat MaxUnrecognizedImages) images, wrap64 (UnrecognizedImagesOmitted inv + n))
  else (images, UnrecognizedImagesOmitted inv).

Definition charges (ns : list Z) (b : option budget) : option budget := foldl (fun b n => (charge n b).2) b ns.

Definition report (inv : Inventory) (k : KB) (target : Version) (now : Time) (findings : list Finding) : Report :=
  let gaps := assessmentGaps inv k target in
  let verdict := verdictFor findings gaps in
  mkReport (ClusterID inv) target (ServerVersion inv) "" "" (k_Version k) (Score findings).1
    (verdict =s VerdictReady) verdict findings gaps (evalSupport inv k now).1 []
    (listedImages inv).1 (listedImages inv).2 (Z.max 0 (AddOnEvidenceAgeSeconds inv)) [].

Definition evaluate (inv : Inventory) (k : KB) (target : Version) (now : Time) (b : option budget)
    : option (res Report) :=
  let inv := judged inv in
  let b := (charge (reportBaseSize inv k) b).2 in
  match runSteps (evalSteps inv k target now) (apiFindings inv k target b) with
  | None => None
  | Some (Err e) => Some (Err e)
  | Some (Ok (findings, b)) =>
      let findings := sortFindings findings in
      let b := charges (map gapSize (assessmentGaps inv k target)) b in
      let b := charges (map (fun img => slen img + 3) (listedImages inv).1) b in
      if exceeded b then Some (Err ErrReportTooLarge) else Some (Ok (report inv k target now findings))
  end.

Definition Evaluate (inv : Inventory) (k : KB) (target : Version) (now : Time) : option Report :=
  match evaluate inv k target now None with
  | Some (Ok r) => Some r
  | _ => None
  end.

Definition EvaluateWithin (inv : Inventory) (k : KB) (target : Version) (now : Time) (maxBytes : Z)
    : option (res Report) :=
  evaluate inv k target now (Some (mkBudget maxBytes false)).
End Evaluate.

(** ** Checks within a budget

    A check is budgeted when a spent budget stays spent, and when its
    findings, if the budget lasts, are those it gives without one. *)

Record budgeted (check : option budget -> list Finding * option budget) : Prop := {
  budgeted_over b : exceeded b = true -> exceeded (check b).2 = true;
  budgeted_within b : exceeded (check b).2 = false -> (check b).1 = (check None).1;
  budgeted_None : (check None).2 = None;
}.

Lemma addAll_budgeted fs : budgeted (fun b => addAll b [] fs).
Proof.
  split.
  - intros b. apply addAll_over.
  - intros b Hb. rewrite addAll_within by done. by rewrite addAll_None.
  - by rewrite addAll_None.
Qed.

Lemma charge_None n : charge n None = (true, None).
Proof. done. Qed.

Lemma foldRow_budget us byAPI byRes st c call b :
  (exceeded b = true -> exceeded (foldRow us byAPI byRes st c call b).2 = true) /\
  (exceeded (foldRow us byAPI byRes st c call b).2 = false ->
     (foldRow us byAPI byRes st c call b).1 = (foldRow us byAPI byRes st c call None).1) /\
  (exists st', foldRow us byAPI byRes st c call None = (Some st', None)).
Proof.
  unfold foldRow. destruct (usageOf us byAPI byRes c) as [j|]; [|by split_and!; eauto].
  destruct (fs_usage st !! j) as [f|]; [|by split_and!; eauto].
  destruct (_ <? _); [by split_and!; eauto|]. cbv zeta.
  destruct (match default [] _ with [] => _ | _ => _ end) as [rs order].
  set (n := slen _ + slen _ + slen _ + slen _).
  pose proof (charge_over n b) as Ho. pose proof (charge_ok n b) as Hok.
  rewrite charge_None. destruct (charge n b) as [ok b']. simpl in *. split_and!; [done| |by eauto].
  intros Hb. rewrite Hb in Hok. by subst ok.
Qed.

Lemma foldRows_budget us byAPI byRes rows st b :
  (exceeded b = true -> exceeded (foldRows us byAPI byRes st rows b).2 = true) /\
  (exceeded (foldRows us byAPI byRes st rows b).2 = false ->
     (foldRows us byAPI byRes st rows b).1 = (foldRows us byAPI byRes st rows None).1) /\
  (exists st', foldRows us byAPI byRes st rows None = (Some st', None)).
Proof.
  revert st b. induction rows as [|[c call] rows IH]; intros st b; cbn [foldRows]; [by split_and!; eauto|].
  destruct (foldRow_budget us byAPI byRes st c call b) as (Ho & Hw & st1 & Hn). rewrite Hn in Hw |- *.
  destruct (foldRow us byAPI byRes st c call b) as [[st2|] b2]; simpl in *.
  - destruct (IH st2 b2) as (IHo & IHw & _). destruct (IH st1 None) as (_ & _ & IHn).
    split_and!; [auto| |done]. intros Hb. rewrite IHw by done.
    assert (Hb2 : exceeded b2 = false) by (apply not_true_is_false; intros E; by rewrite (IHo E) in Hb).
    specialize (Hw Hb2). by injection Hw as ->.
  - destruct (IH st1 None) as (_ & _ & IHn). split_and!; [auto| |done].
    intros Hb. specialize (Hw Hb). discriminate Hw.
Qed.

Lemma foldDetails_budget ev usage order b :
  (exceeded b = true -> exceeded (foldDetails ev usage order b).2 = true) /\
  (exceeded (foldDetails ev usage order b).2 = false ->
     (foldDetails ev usage order b).1 = (foldDetails ev usage order None).1) /\
  (exists usage', foldDetails ev usage order None = (Some usage', None)).
Proof.
  revert usage b. induction order as [|j order IH]; intros usage b; cbn [foldDetails]; [by split_and!; eauto|].
  set (n := slen _). pose proof (charge_over n b) as Ho. pose proof (charge_ok n b) as Hok.
  rewrite charge_None. destruct (charge n b) as [[] b1]; simpl in *.
  - destruct (IH (alter (fun f => set_Detail (f_Detail f +:+ evidenceSentence (default [] (ev !! j))) f) j usage) b1)
      as (IHo & IHw & IHn). split_and!; auto.
  - destruct (IH (alter (fun f => set_Detail (f_Detail f +:+ evidenceSentence (default [] (ev !! j))) f) j usage) None)
      as (_ & _ & IHn). split_and!; [auto| |done]. intros Hb. by rewrite Hb in Hok.
Qed.

Lemma foldDeprecatedCalls_budgeted inv usage calls : budgeted (foldDeprecatedCalls inv usage calls).
Proof.
  unfold foldDeprecatedCalls.
  set (rows := foldRows _ _ _ _ _). 
  assert (Hr : forall b, (exceeded b = true -> exceeded (rows b).2 = true) /\
    (exceeded (rows b).2 = false -> (rows b).1 = (rows None).1) /\ (exists st', rows None = (Some st', None)))
    by (intros b; apply foldRows_budget).
  clearbody rows. destruct (Hr None) as (_ & _ & st & Hst). rewrite Hst in *.
  pose proof (foldDetails_budget (fs_evidence st) (fs_usage st) (fs_order st)) as Hd.
  split.
  - intros b Hb. destruct (Hr b) as (Ho & _). specialize (Ho Hb). destruct (rows b) as [[st'|] b1]; simpl in *; [|done].
    destruct (foldDetails_budget (fs_evidence st') (fs_usage st') (fs_order st') b1) as (Hdo & _).
    destruct (foldDetails _ _ _ b1) as [[u|] b2]; auto.
  - intros b. destruct (Hr b) as (Ho & Hw & _). destruct (rows b) as [[st'|] b1] eqn:E; simpl in *.
    + destruct (foldDetails_budget (fs_evidence st') (fs_usage st') (fs_order st') b1) as (Hdo & Hdw & _).
      destruct (foldDetails (fs_evidence st') _ _ b1) as [u b2] eqn:E2.
      intros Hb. assert (Hb2 : exceeded b2 = false) by (destruct u; done).
      assert (Hb1 : exceeded b1 = false).
      { apply not_true_is_false. intros E'. simpl in Hdo. by rewrite (Hdo E') in Hb2. }
      specialize (Hw Hb1). injection Hw as ->. specialize (Hdw Hb2).
      destruct (Hd None) as (_ & _ & u' & Hu'). rewrite Hst. cbv beta iota. rewrite Hu' in Hdw |- *.
      simpl in Hdw. by subst u.
    + intros Hb. by specialize (Hw Hb).
  - rewrite Hst. cbv beta iota. destruct (Hd None) as (_ & _ & u & ->). done.
Qed.

Section Refine.
Context `{Semver} `{KubeAware}.
Context (inv : Inventory) (k : KB) (target : Version) (now : Time).

Lemma apiFindings_budgeted : budgeted (apiFindings inv k target).
Proof.
  unfold apiFindings, evalAPIUsage, evalDeprecatedCalls.
  set (us := omap _ _). set (cs := map _ _).
  destruct (addAll_budgeted us) as [Huo Huw Hun], (addAll_budgeted cs) as [Hco Hcw Hcn].
  split.
  - intros b Hb. specialize (Huo b Hb). destruct (addAll b [] us) as [u b1]. simpl in Huo. rewrite Huo. by rewrite Huo.
  - intros b. rewrite (addAll_None [] us), (addAll_None [] cs). simpl exceeded. cbv iota.
    specialize (Huw b). destruct (addAll b [] us) as [u b1]. simpl in Huw.
    destruct (exceeded b1) eqn:E1; [cbn; rewrite ?E1; cbn; rewrite ?E1; done|]. rewrite Huw, addAll_None by done.
    specialize (Hcw b1). destruct (addAll b1 [] cs) as [c b2]. simpl in Hcw.
    destruct (exceeded b2) eqn:E2; [cbn; rewrite ?E2; done|]. rewrite Hcw, addAll_None by done. simpl.
    apply budgeted_within, foldDeprecatedCalls_budgeted.
  - rewrite (addAll_None [] us), (addAll_None [] cs). simpl. apply budgeted_None, foldDeprecatedCalls_budgeted.
Qed.

(** A step within a budget: it refines the step without one. *)
Definition step_ok (step : state -> option state) : Prop :=
  forall fs b st', step (fs, b) = Some st' ->
    (exceeded b = true -> exceeded st'.2 = true) /\
    (exceeded st'.2 = false -> step (fs, None) = Some (st'.1, None)).

Lemma appendCheck_ok check : budgeted check -> step_ok (appendCheck check).
Proof.
  intros [Ho Hw Hn] fs b st'. unfold appendCheck. simpl. specialize (Ho b). specialize (Hw b).
  destruct (check b) as [out b1]. intros [= <-]. simpl in *. split; [done|]. intros Hb.
  destruct (check None) as [out' b2]. simpl in *. subst b2. by rewrite Hw.
Qed.

Lemma addCheck_ok l : step_ok (addCheck l).
Proof.
  intros fs b st'. unfold addCheck. simpl. intros [= <-]. split; [apply addAll_over|]. intros Hb.
  by rewrite addAll_None, addAll_within.
Qed.

Lemma runSteps_ok steps fs b st :
  Forall step_ok steps -> runSteps steps (fs, b) = Some (Ok st) ->
  (exceeded b = true -> steps <> [] -> False) /\
  (exceeded st.2 = false -> exceeded b = false /\ runSteps steps (fs, None) = Some (Ok (st.1, None))).
Proof.
  revert fs b. induction steps as [|step steps IH]; intros fs b Hs; cbn [runSteps].
  { intros [= <-]. split; [done|]. done. }
  apply Forall_cons_1 in Hs as [Hstep Hs]. simpl exceeded. destruct (exceeded b) eqn:Eb; [done|].
  destruct (step (fs, b)) as [[fs1 b1]|] eqn:E; [|done]. intros Hrun. split; [done|]. intros Hex. split; [done|].
  destruct (IH fs1 b1 Hs Hrun) as [_ Hr]. destruct (Hr Hex) as [Hb1 Hn].
  destruct (Hstep fs b (fs1, b1) E) as [_ Hst]. rewrite (Hst Hb1). exact Hn.
Qed.

Lemma evalSteps_ok : Forall step_ok (evalSteps inv k target now).
Proof.
  assert (Hvol : step_ok (fun st => match evalVolumePlugins inv k target st.2 with
            | None => None | Some (out, b) => Some (st.1 ++ out, b) end)).
  { intros fs b st'. simpl. unfold evalVolumePlugins. cbv zeta.
    set (row := volumeFinding _ _ _ _).
    assert (Hrows : forall us b out st, volumeRows row b out us = Some st ->
      (exceeded b = true -> exceeded st.2 = true) /\
      (exceeded st.2 = false -> volumeRows row None out us = Some (st.1, None))).
    { clear. induction us as [|u us IH]; intros b out st; cbn [volumeRows]; [by intros [= <-]|].
      destruct (row u) as [[f|]|]; [|apply IH|done].
      unfold add. rewrite charge_None. simpl. pose proof (charge_over (findingSize (capNamespaces f)) b) as Ho.
      pose proof (charge_ok (findingSize (capNamespaces f)) b) as Hok.
      destruct (charge _ b) as [[] b1]; simpl in *.
      - intros [IHo IHw]%IH. auto.
      - intros [= <-]. simpl. split; [done|]. intros Hb. by rewrite Hb in Hok. }
    destruct (volumeRows row b [] (VolumePlugins inv)) as [[out b1]|] eqn:E; [|done].
    intros [= <-]. destruct (Hrows _ _ _ _ E) as [Ho Hw]. split; [exact Ho|]. intros Hb.
    by rewrite Hw. }
  unfold evalSteps. repeat apply Forall_cons_2; try apply addCheck_ok; [..|exact Hvol|apply Forall_nil_2];
    apply appendCheck_ok.
  - apply addAll_budgeted.
  - unfold evalUncoveredRuntimes. destruct (k_AddOns k); [by split|]. apply addAll_budgeted.
  - apply addAll_budgeted.
  - apply addAll_budgeted.
Qed.
End Refine.

Lemma charges_over ns b : exceeded b = true -> exceeded (charges ns b) = true.
Proof.
  unfold charges. revert b. induction ns as [|n ns IH]; intros b Hb; simpl; [done|]. apply IH. by apply charge_over.
Qed.

Lemma charges_None ns : charges ns None = None.
Proof. unfold charges. by induction ns. Qed.

Lemma runSteps_Err steps st e : runSteps steps st = Some (Err e) -> e = ErrReportTooLarge.
Proof.
  revert st. induction steps as [|step steps IH]; intros st; cbn [runSteps]; [done|].
  destruct (exceeded st.2); [by intros [= <-]|]. destruct (step st); [apply IH|done].
Qed.

(** [EvaluateWithin] fails only because the report would be too large, and
    otherwise returns exactly the report [Evaluate] returns. *)
Lemma EvaluateWithin_refines `{Semver} `{KubeAware} (inv : Inventory) (k : KB) (target : Version) (now : Time)
    (maxBytes : Z) :
  match EvaluateWithin inv k target now maxBytes with
  | Some (Ok r) => Evaluate inv k target now = Some r
  | Some (Err e) => e = ErrReportTooLarge
  | None => True
  end.
Proof.
  unfold EvaluateWithin, Evaluate, evaluate. cbv zeta. rewrite charge_None. cbn [snd].
  set (j := judged inv). set (b0 := (charge (reportBaseSize j k) (Some (mkBudget maxBytes false))).2).
  pose proof (apiFindings_budgeted j k target) as [_ Hw Hn].
  destruct (apiFindings j k target b0) as [fs0 b1] eqn:E0.
  destruct (runSteps (evalSteps j k target now) (fs0, b1)) as [[[fs b2]|e]|] eqn:Hrun; [|revert Hrun|done].
  - destruct (exceeded _) eqn:Hex; [done|].
    assert (Hb2 : exceeded b2 = false).
    { apply not_true_is_false. intros E. rewrite charges_over in Hex; [done|]. by apply charges_over. }
    destruct (runSteps_ok _ _ _ _ (evalSteps_ok j k target now) Hrun) as [_ Hr]. destruct (Hr Hb2) as [Hb1 Hrun'].
    specialize (Hw b0). rewrite E0 in Hw. simpl in Hw. specialize (Hw Hb1).
    destruct (apiFindings j k target None) as [fs0' b3]. simpl in Hw, Hn. subst fs0' b3.
    rewrite Hrun'. simpl. by rewrite !charges_None.
  - apply runSteps_Err.
Qed.

(** ** What a report holds *)

(** A knowledge base whose volume dataset passed validation. *)
Definition kb_ok (k : KB) : Prop := Forall plugin_ok (k_VolumePlugins k).

Section Holds.
Context `{Semver} `{KubeAware}.

(** The findings of every check after the API findings, in order. *)
Definition checkFindings (inv : Inventory) (k : KB) (target : Version) (now : Time) : list (list Finding) :=
  let idx := NewIndex (k_APILifecycle k) in
  let teams := newTeamLookup (Namespaces inv) in
  let runtimes := uncoveredRuntimes inv (k_AddOns k) in
  [ omap (authorshipFinding idx teams) (APIAuthorshipUnknown inv);
    evalAddOns inv k target now;
    match k_AddOns k with
    | [] => []
    | _ => map (fun rt => uncoveredFinding rt (default [] (runtimes !! rt))) (sortedKeys runtimes)
    end;
    flat_map (releaseFindings teams idx (liveObjects (APIUsages inv)) target (k_MaxKnownK8s k)) (HelmReleases inv);
    evalSkew inv k target;
    evalControlPlaneSkew inv k target;
    evalKubeProxyKubeletSkew inv k;
    evalKBStale inv k target;
    evalUpgradePath inv target;
    (evalSupport inv k now).2;
    flat_map (crdFindings inv target teams) (CRDs inv);
    volumeFindings inv k target ].

Definition step_adds (step : state -> option state) (l : list Finding) : Prop :=
  forall fs, step (fs, None) = Some (fs ++ map capNamespaces l, None).

Lemma runSteps_adds steps ls fs :
  Forall2 step_adds steps ls -> runSteps steps (fs, None) = Some (Ok (fs ++ map capNamespaces (concat ls), None)).
Proof.
  intros Hs. revert fs. induction Hs as [|step l steps ls Hstep Hs IH]; intros fs; cbn [runSteps concat].
  - by rewrite app_nil_r.
  - simpl. rewrite Hstep, IH, map_app. by rewrite app_assoc.
Qed.

Lemma addAll_adds l : step_adds (appendCheck (fun b => addAll b [] l)) l.
Proof. intros fs. unfold appendCheck. simpl. by rewrite addAll_None. Qed.

Lemma addCheck_adds l : step_adds (addCheck l) l.
Proof. intros fs. unfold addCheck. simpl. by rewrite addAll_None. Qed.

Lemma evalSteps_adds inv k target now :
  kb_ok k -> Forall2 step_adds (evalSteps inv k target now) (checkFindings inv k target now).
Proof.
  intros Hk. unfold evalSteps, checkFindings. cbv zeta.
  assert (Hv : step_adds (fun st => match evalVolumePlugins inv k target st.2 with
      | None => None | Some (out, b) => Some (st.1 ++ out, b) end) (volumeFindings inv k target)).
  { intros fs. simpl. unfold evalVolumePlugins. cbv zeta.
    rewrite volumeRows_total by (intros u _; by apply volumeFinding_ok). rewrite addAll_None. done. }
  repeat apply Forall2_cons_2; try apply addCheck_adds; try apply addAll_adds; [|exact Hv|apply Forall2_nil_2].
  intros fs. unfold appendCheck, evalUncoveredRuntimes. simpl. destruct (k_AddOns k); [done|].
  by rewrite addAll_None.
Qed.

(** The findings of a report before they are sorted. *)
Definition allFindings (inv : Inventory) (k : KB) (target : Version) (now : Time) : list Finding :=
  (apiFindings inv k target None).1 ++ map capNamespaces (concat (checkFindings inv k target now)).

Lemma Evaluate_eq inv k target now :
  kb_ok k ->
  Evaluate inv k target now =
  Some (report (judged inv) k target now (sortFindings (allFindings (judged inv) k target now))).
Proof.
  intros Hk. unfold Evaluate, evaluate. cbv zeta. rewrite charge_None. cbn [snd].
  pose proof (budgeted_None _ (apiFindings_budgeted (judged inv) k target)) as Hn.
  rewrite (surjective_pairing (apiFindings (judged inv) k target None)), Hn.
  rewrite (runSteps_adds _ _ _ (evalSteps_adds (judged inv) k target now Hk)).
  cbv beta iota. rewrite !charges_None. done.
Qed.

Lemma checkFindings_in inv k target now l f :
  l ∈ checkFindings inv k target now -> f ∈ l -> capNamespaces f ∈ allFindings inv k target now.
Proof.
  intros Hl Hf. unfold allFindings. rewrite elem_of_app. right.
  apply list_elem_of_In, in_map, in_concat. exists l. by rewrite <- !list_elem_of_In.
Qed.

(** A blocker of any check blocks. *)
Lemma blocked_by inv k target now r f :
  kb_ok k -> Evaluate inv k target now = Some r -> f ∈ allFindings (judged inv) k target now ->
  f_Severity f = SevBlocker -> r_Verdict r = VerdictBlocked /\ r_Ready r = false.
Proof.
  intros Hk He Hf Hs. rewrite Evaluate_eq in He by done. injection He as <-. unfold report. simpl.
  replace (verdictFor _ _) with VerdictBlocked; [done|]. symmetry. apply verdictFor_blocked.
  exists f. split; [|done]. unfold sortFindings. by rewrite isort_perm.
Qed.

Lemma check_blocks inv k target now r l f :
  kb_ok k -> Evaluate inv k target now = Some r -> l ∈ checkFindings (judged inv) k target now -> f ∈ l ->
  f_Severity f = SevBlocker -> r_Verdict r = VerdictBlocked /\ r_Ready r = false.
Proof.
  intros Hk He Hl Hf Hs. apply (blocked_by inv k target now r (capNamespaces f)); [done..| |by rewrite capNamespaces_severity].
  by eapply checkFindings_in.
Qed.
End Holds.

(** ** Which inputs block *)

Definition usageFindings (inv : Inventory) (k : KB) (target : Version) : list Finding :=
  omap (usageFinding inv k (NewIndex (k_APILifecycle k)) (newTeamLookup (Namespaces inv)) target) (APIUsages inv).

Definition callFindings (inv : Inventory) (k : KB) (target : Version) : list Finding :=
  map (callFinding (kbRemovals k) target) (DeprecatedCalls inv).

(** The API findings hold every usage finding and account for every caller
    row. *)
Lemma apiFindings_holds inv k target :
  exists usage standalone,
    (apiFindings inv k target None).1 = usage ++ standalone /\
    Forall2 same_core (map capNamespaces (usageFindings inv k target)) usage /\
    (forall f, f ∈ standalone -> f ∈ map capNamespaces (callFindings inv k target)) /\
    (forall c call, (c, call) ∈ zip (DeprecatedCalls inv) (map capNamespaces (callFindings inv k target)) ->
       call ∈ standalone \/ exists f, f ∈ usage /\ callerOf c call ∈ f_Callers f /\
         severityRank (f_Severity f) <= severityRank (f_Severity call)).
Proof.
  assert (E : (apiFindings inv k target None).1 =
    (foldDeprecatedCalls inv (map capNamespaces (usageFindings inv k target))
       (map capNamespaces (callFindings inv k target)) None).1).
  { unfold apiFindings. rewrite evalAPIUsage_None. unfold evalDeprecatedCalls. by rewrite addAll_None. }
  rewrite E. apply fold_conserves.
  by rewrite (budgeted_None _ (foldDeprecatedCalls_budgeted inv _ _)).
Qed.

Lemma apiFindings_usage inv k target f :
  f ∈ usageFindings inv k target ->
  exists f', f' ∈ (apiFindings inv k target None).1 /\ f_Severity f' = f_Severity f /\
    f_Category f' = f_Category f /\ f_Key f' = f_Key f /\ f_Objects f' = f_Objects f.
Proof.
  intros Hf. destruct (apiFindings_holds inv k target) as (us & st & -> & Hu & _).
  assert (Hin : capNamespaces f ∈ map capNamespaces (usageFindings inv k target))
    by by apply list_elem_of_In, in_map, list_elem_of_In.
  apply list_elem_of_lookup in Hin as [i Hi]. destruct (Forall2_lookup_l _ _ _ _ _ Hu Hi) as (f' & Hf' & Hc).
  exists f'. rewrite elem_of_app. split; [left; by eapply list_elem_of_lookup_2|].
  destruct Hc as (Hcat & Hsev & Hkey & _ & _ & _ & _ & _ & _ & _ & Hobj & _).
  rewrite <- Hcat, <- Hsev, <- Hkey, <- Hobj.
  destruct (capNamespaces_fields f) as (-> & -> & -> & _ & _ & _ & _ & ->). done.
Qed.

Lemma severityRank_0 s : severity_ok s -> severityRank s <= 0 -> s = SevBlocker.
Proof. intros [->|[->| ->]]; [done|vm_compute; by intros []|vm_compute; by intros []]. Qed.

(** A usage finding has one of the three severities. *)
Lemma usageFindings_severity inv k target f : f ∈ usageFindings inv k target -> severity_ok (f_Severity f).
Proof.
  unfold usageFindings. rewrite list_elem_of_omap. intros (u & _ & Hf).
  pose proof (usageFinding_verdict inv k (NewIndex (k_APILifecycle k)) (newTeamLookup (Namespaces inv)) target u) as Hv.
  rewrite Hf in Hv. simpl in Hv. destruct (foreign _ _ _); [done|]. symmetry in Hv.
  by apply usageVerdict_blocker in Hv as [? _].
Qed.

Lemma callFinding_severity removals target c :
  f_Severity (callFinding removals target c) = callSeverity target (fst <$> callRemoval removals c).
Proof. unfold callFinding. by destruct (callRemoval removals c) as [[? ?]|]. Qed.

(** A caller row at a removed API leaves a blocker, wherever it is folded. *)
Lemma apiFindings_call inv k target c r why :
  c ∈ DeprecatedCalls inv -> callRemoval (kbRemovals k) c = Some (r, why) -> vle r target ->
  exists f, f ∈ (apiFindings inv k target None).1 /\ f_Severity f = SevBlocker.
Proof.
  intros Hc Hr Hv. destruct (apiFindings_holds inv k target) as (us & st & -> & Hu & _ & Hrows).
  set (call := capNamespaces (callFinding (kbRemovals k) target c)).
  assert (Hs : f_Severity call = SevBlocker).
  { unfold call. rewrite capNamespaces_severity, callFinding_severity, Hr. simpl.
    by rewrite (proj2 (Z.leb_le _ _)) by (by apply Compare_le). }
  assert (Hz : (c, call) ∈ zip (DeprecatedCalls inv) (map capNamespaces (callFindings inv k target))).
  { unfold callFindings. rewrite map_map. apply list_elem_of_lookup in Hc as [i Hi].
    apply (list_elem_of_lookup_2 _ i). rewrite lookup_zip_with, Hi. simpl.
    change (map ?g ?l) with (g <$> l). rewrite list_lookup_fmap, Hi. done. }
  setoid_rewrite elem_of_app. destruct (Hrows c call Hz) as [Hst|(f & Hf & _ & Hrank)]; [by eauto|].
  exists f. split; [by left|]. apply severityRank_0; [|by rewrite Hs in Hrank].
  apply list_elem_of_lookup in Hf as [i Hi]. destruct (Forall2_lookup_r _ _ _ _ _ Hu Hi) as (g & Hg & _ & <- & _).
  apply list_elem_of_lookup_2, list_elem_of_In, in_map_iff in Hg as (g' & <- & Hg%list_elem_of_In).
  rewrite capNamespaces_severity. by eapply usageFindings_severity.
Qed.

(** ** Add-ons of the inventory *)

Lemma collectInstalls_spec byID teams insts :
  (forall id, is_Some ((collectInstalls byID teams insts).2 !! id) -> id ∈ (collectInstalls byID teams insts).1) /\
  (forall inst, inst ∈ insts -> is_Some (byID !! ai_ID inst) ->
     exists l, (collectInstalls byID teams insts).2 !! ai_ID inst = Some l /\ installOf teams inst ∈ l).
Proof.
  unfold collectInstalls. induction insts as [|i insts [IHk IHi]] using rev_ind.
  { simpl. split; [by intros id [? ?]|by intros ? ?%elem_of_nil]. }
  rewrite foldl_snoc. destruct (foldl _ _ insts) as [ids installs]. simpl in IHk, IHi.
  destruct (byID !! ai_ID i) as [a|] eqn:Ea; cbn [fst snd]; cycle 1.
  { split; [done|]. intros inst [Hin| ->%list_elem_of_singleton]%elem_of_app [b Hb]; [by eauto|congruence]. }
  unfold appendAt. split.
  - intros id. rewrite lookup_insert. case_decide as E.
    + intros _. subst id. destruct (installs !! ai_ID i) eqn:El; [by apply IHk|].
      rewrite elem_of_app. right. by left.
    + intros Hs%IHk. destruct (installs !! ai_ID i); [done|]. rewrite elem_of_app. by left.
  - intros inst Hin Hb. rewrite lookup_insert. case_decide as E.
    + eexists. split; [done|]. rewrite elem_of_app. apply elem_of_app in Hin as [Hin| ->%list_elem_of_singleton].
      * left. destruct (IHi inst Hin Hb) as (l & Hl & ?). by rewrite E, Hl.
      * right. by left.
    + apply elem_of_app in Hin as [Hin| ->%list_elem_of_singleton]; [by eauto|done].
Qed.

(** An install the target cannot run gives a blocker. *)
Lemma evalAddOns_blocks `{Semver} inv k target now inst a :
  inst ∈ AddOns inv -> addOnsByID (k_AddOns k) !! ai_ID inst = Some a ->
  cannotRun a target (installOf (newTeamLookup (Namespaces inv)) inst) ->
  exists f, f ∈ evalAddOns inv k target now /\ f_Severity f = SevBlocker.
Proof.
  intros Hin Ha Hc. unfold evalAddOns. cbv zeta.
  destruct (collectInstalls_spec (addOnsByID (k_AddOns k)) (newTeamLookup (Namespaces inv)) (AddOns inv)) as [Hk Hi].
  destruct (Hi inst Hin) as (l & Hl & Hil); [by eauto|].
  destruct (collectInstalls _ _ _) as [ids installs]. simpl in Hk, Hl.
  destruct (compat_reported a l false target now (LabelVersionCollectorSchema <=? CollectorSchema inv)) as [Hiff Hsev].
  destruct (proj2 Hiff) as (f & Hf & Hcat); [by eauto|]. exists f. split; [|by apply Hsev].
  rewrite elem_of_app. left. apply list_elem_of_In, in_flat_map. exists (ai_ID inst).
  rewrite <- !list_elem_of_In. split; [by apply Hk; eauto|]. by rewrite Ha, Hl.
Qed.

Lemma releaseFindings_blocks `{Semver} teams idx live target maxKnown rel f :
  helmInstalled rel = true -> f ∈ evalHelmManifest rel idx live target maxKnown -> f_Severity f = SevBlocker ->
  exists g, g ∈ releaseFindings teams idx live target maxKnown rel /\ f_Severity g = SevBlocker.
Proof.
  intros Hi Hf Hs. exists (set_Where (teamsFor teams [h_Namespace rel]) [h_Namespace rel] false f). split; [|done].
  unfold releaseFindings. rewrite Hi. simpl negb. cbv iota zeta. apply list_elem_of_In, in_map, list_elem_of_In.
  rewrite elem_of_app. by right.
Qed.

Lemma checkFindings_blocks `{Semver} `{KubeAware} inv k target now r l :
  kb_ok k -> Evaluate inv k target now = Some r -> r_Ready r = true -> l ∈ checkFindings (judged inv) k target now ->
  (exists f, f ∈ l /\ f_Severity f = SevBlocker) -> False.
Proof.
  intros Hk He Hr Hl (f & Hf & Hs). destruct (check_blocks inv k target now r l f Hk He Hl Hf Hs) as [_ H']. congruence.
Qed.

Section Headline.
Context `{Semver} `{KubeAware}.
Context (inv : Inventory) (k : KB) (target : Version) (now : Time) (r : Report).
#[local] Notation idx := (NewIndex (k_APILifecycle k)).

(** C2 An API in use that the target removes blocks the upgrade: the
    report of such an inventory is blocked, not ready, and lists a
    removed-api blocker, whatever else the inventory holds. *)
Theorem removed_api_blocks (u : APIUsage) (e : APILifecycleEntry) (rv : Version) :
  kb_ok k -> Evaluate inv k target now = Some r ->
  u ∈ APIUsages inv -> Lookup idx (u_Group u) (u_Version u) (u_Kind u) = Some e ->
  e_Removed e = Some rv -> vle rv target ->
  r_Verdict r = VerdictBlocked /\ r_Ready r = false /\
  exists f, f ∈ r_Findings r /\ f_Severity f = SevBlocker /\ f_Category f = CatRemovedAPI.
Proof using Type.
  intros Hk He Hu Hl Hr Hv.
  destruct (usageFinding_blocked (judged inv) k idx (newTeamLookup (Namespaces inv)) target u e rv Hl Hr Hv)
    as (f & Hf & Hs & Hc).
  destruct (apiFindings_usage (judged inv) k target f) as (f' & Hf' & Hs' & Hc' & _).
  { unfold usageFindings. apply list_elem_of_omap. eauto. }
  assert (Hin : f' ∈ allFindings (judged inv) k target now) by (unfold allFindings; rewrite elem_of_app; by left).
  destruct (blocked_by inv k target now r f' Hk He Hin) as [Hb Hr']; [congruence|].
  split_and!; [done|done|]. exists f'. rewrite Evaluate_eq in He by done. injection He as <-.
  split_and!; [|congruence..]. simpl. unfold sortFindings. by rewrite isort_perm.
Qed.

(** The finding of an API in use that the target removes: its key names the
    API and its objects are the row's. *)
Lemma removed_api_finding (u : APIUsage) (e : APILifecycleEntry) (rv : Version) :
  kb_ok k -> Evaluate inv k target now = Some r ->
  u ∈ APIUsages inv -> Lookup idx (u_Group u) (u_Version u) (u_Kind u) = Some e ->
  e_Removed e = Some rv -> vle rv target -> vle (e_Introduced e) target ->
  exists f, f ∈ r_Findings r /\ f_Severity f = SevBlocker /\ f_Category f = CatRemovedAPI /\
    f_Key f = CatRemovedAPI +:+ "/" +:+ apiKey (u_Group u) (u_Version u) (u_Kind u) /\
    f_Objects f = sortedObjects (u_Objects u).
Proof using Type.
  intros Hk He Hu Hl Hr Hv Hi.
  destruct (usageFinding_blocked (judged inv) k idx (newTeamLookup (Namespaces inv)) target u e rv Hl Hr Hv)
    as (f & Hf & Hs & Hc).
  destruct (usageFinding_key (judged inv) k idx _ target u f Hf) as (Hkey & Hobj & _).
  destruct (apiFindings_usage (judged inv) k target f) as (f' & Hf' & Hs' & Hc' & Hk' & Ho').
  { unfold usageFindings. apply list_elem_of_omap. eauto. }
  exists f'. rewrite Evaluate_eq in He by done. injection He as <-. split_and!; [|congruence..| |congruence].
  - simpl. unfold sortFindings. rewrite isort_perm. unfold allFindings. rewrite elem_of_app. by left.
  - rewrite Hk', Hkey, Hc. unfold unservedAt. rewrite Hl.
    by rewrite (proj2 (Z.ltb_ge _ _)) by (by apply Compare_le).
Qed.

(** A ready report has no blocker among its API findings. *)
Lemma ready_apis :
  kb_ok k -> Evaluate inv k target now = Some r -> r_Ready r = true ->
  (forall u e rv, u ∈ APIUsages inv -> Lookup idx (u_Group u) (u_Version u) (u_Kind u) = Some e ->
     e_Removed e = Some rv -> vlt target rv) /\
  (forall c rv why, c ∈ otherCallers inv -> callRemoval (kbRemovals k) c = Some (rv, why) -> vlt target rv).
Proof using Type.
  intros Hk He Hr.
  assert (Hapi : forall f, f ∈ (apiFindings (judged inv) k target None).1 -> f_Severity f = SevBlocker -> False).
  { intros f Hf Hs. destruct (blocked_by inv k target now r f Hk He) as [_ H']; [|done|congruence].
    unfold allFindings. rewrite elem_of_app. by left. }
  split.
  - intros u e rv Hu Hl Hrv. destruct (vle_total rv target) as [Hv|Hv]; [|done]. exfalso.
    destruct (usageFinding_blocked (judged inv) k idx (newTeamLookup (Namespaces inv)) target u e rv Hl Hrv Hv)
      as (f & Hf & Hs & _).
    destruct (apiFindings_usage (judged inv) k target f) as (f' & Hf' & Hs' & _).
    { unfold usageFindings. apply list_elem_of_omap. eauto. }
    apply (Hapi f' Hf'). congruence.
  - intros c rv why Hc Hrm. destruct (vle_total rv target) as [Hv|Hv]; [|done]. exfalso.
    destruct (apiFindings_call (judged inv) k target c rv why) as (f & Hf & Hs); [|done|done|by eapply Hapi].
    simpl. unfold sortCalls. by rewrite isort_perm.
Qed.

(** A ready report rests on evidence that can support it. *)
Lemma ready_assessed :
  kb_ok k -> Evaluate inv k target now = Some r -> r_Ready r = true -> ~ unassessable inv k target.
Proof using Type.
  intros Hk He Hr Hu. rewrite Evaluate_eq in He by done. injection He as <-. simpl in Hr. apply String.eqb_eq in Hr.
  apply verdictFor_ready in Hr as [_ Hg]. destruct (gaps_required (judged inv) k target) as (g & Hin & Hreq).
  { destruct Hu; [by apply no_api_usage|by apply no_versions|by apply no_addons|by apply beyond_horizon|
      by eapply not_an_upgrade|by eapply skipped_removed|by eapply other_lifecycle|by eapply some_versions|
      by eapply some_addons|by apply no_server_version|by eapply some_volumes]. }
  rewrite Hg in Hreq; done.
Qed.

(** A caller row that is not the scanner's own request. *)
Definition otherRequest (c : DeprecatedCall) : Prop :=
  c ∈ DeprecatedCalls inv /\
  ~ (d_Subresource c = ""%string /\
     gvString (d_Group c) (d_Version c) +:+ " " +:+ d_Resource c ∈ cs_Skipped (capability inv CapDeprecatedCalls)).

(** The release that removes what a caller asks for: the knowledge base's,
    or else the one the apiserver reports. *)
Definition callRemovedAt (c : DeprecatedCall) (rv : Version) : Prop :=
  match kbRemovals k !! resourceKey (d_Group c) (d_Version c) (d_Resource c) with
  | Some r => r = rv
  | None => ParseVersion (d_RemovedRelease c) = Ok rv
  end.

Lemma otherRequest_in c : otherRequest c -> c ∈ otherCallers inv.
Proof using Type.
  intros [Hc Hn]. unfold otherCallers. cbv zeta. destruct (cs_Skipped _) as [|s self] eqn:E; [done|]. apply list_elem_of_filter. split; [|done].
  unfold ownCall. destruct (String.eqb_spec (d_Subresource c) ""); [|done]. cbn [andb]. apply not_true_iff_false. rewrite mem_str_spec. auto.
Qed.

Lemma callRemovedAt_removal c rv : callRemovedAt c rv -> exists why, callRemoval (kbRemovals k) c = Some (rv, why).
Proof using Type.
  unfold callRemovedAt, callRemoval. cbv zeta. destruct (kbRemovals k !! _) as [rr|].
  - intros ->. destruct (if d_RemovedRelease c =s "" then None else _); [destruct (_ =? 0); eauto|]. destruct (_ =s ""); eauto.
  - intros E. destruct (String.eqb_spec (d_RemovedRelease c) "") as [E0|_]; [rewrite E0 in E; vm_compute in E; discriminate E|].
    rewrite E. cbn [to_option]. eauto.
Qed.

End Headline.

(** ** The shape of a report *)

Lemma capNamespaces_list_length (l : list Finding) f :
  f ∈ map capNamespaces l -> zlen (f_Namespaces f) <= MaxFindingNamespaces.
Proof.
  intros Hf%list_elem_of_In. apply in_map_iff in Hf as (g & <- & _). apply capNamespaces_length.
Qed.

Lemma allFindings_namespaces `{Semver} `{KubeAware} inv k target now f :
  f ∈ allFindings inv k target now -> zlen (f_Namespaces f) <= MaxFindingNamespaces.
Proof.
  unfold allFindings. destruct (apiFindings_holds inv k target) as (us & st & -> & Hu & Hst & _).
  intros [[Hf|Hf]%elem_of_app|Hf]%elem_of_app; [|by eapply capNamespaces_list_length, Hst|by eapply capNamespaces_list_length].
  apply list_elem_of_lookup in Hf as [i Hi]. destruct (Forall2_lookup_r _ _ _ _ _ Hu Hi) as (g & Hg & Hc).
  destruct Hc as (_ & _ & _ & _ & _ & <- & _). eapply capNamespaces_list_length. by eapply list_elem_of_lookup_2.
Qed.

Lemma sortFindings_by_rank fs :
  StronglySorted (fun a b => severityRank (f_Severity a) <= severityRank (f_Severity b)) (sortFindings fs).
Proof.
  eapply StronglySorted_weaken; [|apply (isort_sorted findingLeb findingLeb_total findingLeb_trans)].
  intros a b Hab. unfold findingLeb in Hab. apply negb_true_iff in Hab.
  destruct (Z.le_gt_cases (severityRank (f_Severity a)) (severityRank (f_Severity b))) as [|Hlt]; [done|].
  rewrite (proj2 (findingLess_spec b a)) in Hab; [done|left; lia].
Qed.

(** C33 Every evaluation gives a well-formed report: with a validated
    knowledge base it returns one, ordered by severity, whose score, verdict
    and ready flag are those of its findings and gaps, so rescoring it
    changes nothing, and whose lists of namespaces and of unrecognized images
    keep within their caps. *)
Theorem Evaluate_well_formed `{Semver} `{KubeAware} (inv : Inventory) (k : KB) (target : Version) (now : Time) :
  kb_ok k ->
  exists r, Evaluate inv k target now = Some r /\
    Rescore r = r /\ r_Ready r = (r_Verdict r =s VerdictReady) /\
    StronglySorted (fun a b => severityRank (f_Severity a) <= severityRank (f_Severity b)) (r_Findings r) /\
    (forall f, f ∈ r_Findings r -> zlen (f_Namespaces f) <= MaxFindingNamespaces) /\
    zlen (r_UnrecognizedImages r) <= MaxUnrecognizedImages /\ 0 <= r_AddOnEvidenceAgeSeconds r.
Proof.
  intros Hk. eexists. split; [by apply Evaluate_eq|]. split_and!; simpl.
  - done.
  - done.
  - apply sortFindings_by_rank.
  - intros f Hf. apply (allFindings_namespaces (judged inv) k target now). unfold sortFindings in Hf.
    by rewrite isort_perm in Hf.
  - unfold listedImages. generalize (sortedSet (UnrecognizedImages (judged inv))) as images. intros images.
    cbv zeta. destruct (Z.ltb_spec 0 (zlen images - MaxUnrecognizedImages)); simpl; [|lia].
    unfold zlen. rewrite length_take. unfold MaxUnrecognizedImages. lia.
  - lia.
Qed.

(** ** The order of caller rows *)

Lemma cmpStr_spec a b : (cmpStr a b = 0 <-> a = b) /\ cmpStr b a = - cmpStr a b.
Proof.
  unfold cmpStr. destruct (a <s b) eqn:E1, (b <s a) eqn:E2; try lia.
  - pose proof (string_ltb_trans a b a E1 E2) as E. by rewrite string_ltb_irrefl in E.
  - split; [|lia]. split; [lia|]. intros ->. by rewrite string_ltb_irrefl in E1.
  - split; [|lia]. split; [lia|]. intros ->. by rewrite string_ltb_irrefl in E2.
  - split; [|lia]. split; [|done]. intros _. by apply string_ltb_total.
Qed.

Lemma cmpStr_lt a b : cmpStr a b < 0 <-> (a <s b) = true.
Proof.
  unfold cmpStr. destruct (a <s b); [split; [done|lia]|]. destruct (b <s a); split; done || lia.
Qed.

(** Comparators that order a key's fields one after the other. *)
Record comparator {A} (cmp : A -> A -> Z) : Prop := {
  cmp_sym x y : cmp y x = - cmp x y;
  cmp_lt_trans x y z : cmp x y < 0 -> cmp y z < 0 -> cmp x z < 0;
  cmp_eq_l x y z : cmp x y = 0 -> cmp x z = cmp y z;
}.

Lemma cmpStr_comparator {A} (f : A -> string) : comparator (fun x y => cmpStr (f x) (f y)).
Proof.
  split.
  - intros x y. apply cmpStr_spec.
  - intros x y z. rewrite !cmpStr_lt. apply string_ltb_trans.
  - intros x y z E. apply cmpStr_spec in E. by rewrite E.
Qed.

Lemma cmpOr_comparator {A} (c d : A -> A -> Z) : comparator c -> comparator d -> comparator (fun x y => cmpOr (c x y) (d x y)).
Proof.
  intros [Cs Ct Ce] [Ds Dt De]. unfold cmpOr. split.
  - intros x y. rewrite Cs, Ds. destruct (Z.eqb_spec (c x y) 0) as [->|]; [done|].
    rewrite (proj2 (Z.eqb_neq _ _)); lia.
  - intros x y z. destruct (Z.eqb_spec (c x y) 0) as [E1|E1].
    + rewrite (Ce x y z E1). destruct (Z.eqb_spec (c y z) 0); [apply Dt|done].
    + destruct (Z.eqb_spec (c y z) 0) as [E2|E2].
      * assert (E : c x z = c x y) by (rewrite <- (Z.opp_involutive (c x z)), <- Cs, <- (Ce y z x E2), Cs; lia).
        rewrite E. rewrite (proj2 (Z.eqb_neq _ _) E1). done.
      * intros H1 H2. pose proof (Ct x y z H1 H2). rewrite (proj2 (Z.eqb_neq _ _)); lia.
  - intros x y z. destruct (Z.eqb_spec (c x y) 0) as [E1|E1]; [|done]. intros E2.
    rewrite (Ce x y z E1), (De x y z E2). done.
Qed.

Lemma compareCalls_comparator : comparator compareCalls.
Proof. repeat apply cmpOr_comparator; apply cmpStr_comparator. Qed.

Lemma compareCalls_eq x y : compareCalls x y = 0 -> x = y.
Proof.
  unfold compareCalls, cmpOr. destruct x, y; simpl.
  repeat match goal with |- context [?a =? 0] => destruct (Z.eqb_spec a 0); [|intros; lia] end. intros.
  repeat match goal with H : cmpStr _ _ = 0 |- _ => apply cmpStr_spec in H end. by subst.
Qed.

Lemma sortCalls_perm cs cs' : cs ≡ₚ cs' -> sortCalls cs = sortCalls cs'.
Proof.
  destruct compareCalls_comparator as [Hs Ht He]. apply isort_perm_eq.
  - intros x y. rewrite !Z.leb_le, (Hs x y). lia.
  - intros x y z. rewrite !Z.leb_le. intros H1 H2.
    destruct (Z.eq_dec (compareCalls x y) 0) as [E|E]; [by rewrite (He x y z E)|].
    destruct (Z.eq_dec (compareCalls y z) 0) as [E2|E2]; [apply compareCalls_eq in E2; by subst|].
    apply Z.lt_le_incl, (Ht x y z); lia.
  - intros x y. rewrite !Z.leb_le, (Hs x y). intros. apply compareCalls_eq. lia.
Qed.

(** The report does not depend on the order in which a collector lists
    the deprecated-API callers: the same rows in another order give the
    same report. *)
Lemma Evaluate_calls_order `{Semver} `{KubeAware} (inv : Inventory) (k : KB) (target : Version) (now : Time)
    (calls : list DeprecatedCall) (b : option budget) :
  calls ≡ₚ DeprecatedCalls inv ->
  evaluate (with_DeprecatedCalls inv calls) k target now b = evaluate inv k target now b.
Proof.
  intros Hp. unfold evaluate. replace (judged (with_DeprecatedCalls inv calls)) with (judged inv); [done|].
  unfold judged. replace (sortCalls (otherCallers (with_DeprecatedCalls inv calls))) with (sortCalls (otherCallers inv)); [done|].
  apply sortCalls_perm. unfold otherCallers, capability. simpl.
  destruct (cs_Skipped _); [done|]. by rewrite Hp.
Qed.

(** ** A cluster that still uses a removed API *)

#[local] Existing Instance exactSemver.
#[local] Existing Instance byName.

Definition cleanInventory : Inventory :=
  mkInventory 1 "c" 1 SourceCluster 0 "v1.29.4" ""
    (list_to_map (map (fun c => (c, mkCapabilityStatus true "" false []))
       [CapAPIUsage; CapDeprecatedCalls; CapVersions; CapHelm; CapAddOns; CapCRDs; CapVolumes]))
    [] [] [] [] [] [mkNodeInfo "n1" "v1.29.1" "containerd://1.7.2"] [] [] [] 0 [] [] 0 0 [].

Lemma removed_api_blocks_witness :
  exists r, Evaluate ingressInventory ingressKB (mkVersion 1 22) 0 = Some r /\ r_Verdict r = VerdictBlocked.
Proof.
  eexists. split; [apply Evaluate_eq; apply Forall_nil_2|].
  refine (proj1 (removed_api_blocks ingressInventory ingressKB (mkVersion 1 22) 0 _
    (mkAPIUsage "extensions" "v1beta1" "Ingress" 1 ∅ [] 0) ingressEntry (mkVersion 1 22) _ _ _ _ _ _)).
  - apply Forall_nil_2.
  - apply Evaluate_eq. apply Forall_nil_2.
  - by left.
  - vm_compute. reflexivity.
  - reflexivity.
  - by right.
Defined.


Lemma Evaluate_well_formed_witness :
  exists r, Evaluate cleanInventory emptyKB (mkVersion 1 30) 0 = Some r /\ Rescore r = r.
Proof.
  destruct (Evaluate_well_formed cleanInventory emptyKB (mkVersion 1 30) 0) as (r & H1 & H2 & _);
    [apply Forall_nil_2|]. exists r. exact (conj H1 H2).
Defined.

Lemma Evaluate_calls_order_witness :
  evaluate (with_DeprecatedCalls (with_DeprecatedCalls ingressInventory
      [ingressCall; mkDeprecatedCall "policy" "v1beta1" "podsecuritypolicies" "" "1.25"])
      [mkDeprecatedCall "policy" "v1beta1" "podsecuritypolicies" "" "1.25"; ingressCall]) ingressKB (mkVersion 1 22) 0 None =
  evaluate (with_DeprecatedCalls ingressInventory
      [ingressCall; mkDeprecatedCall "policy" "v1beta1" "podsecuritypolicies" "" "1.25"]) ingressKB (mkVersion 1 22) 0 None.
Proof. apply Evaluate_calls_order. apply perm_swap. Defined.
