(* ===== verification/Limit.v ===== *)
(** * The size limit of a report (internal/engine/budget.go)

    What an evaluation charges its budget, against what the report it
    builds holds: the limit of [EvaluateWithin] is a limit on the report. *)

From stdpp Require Import base list strings gmap sorting.
From Stdlib Require Import ZArith Lia.
From S2P Require Import Prelude GoStr GoTime Version Inventory KB Findings APIUse Calls AddOns Skew Gaps Helm Crd Volumes Support Evaluate.

(** ** Charges *)

(** Two budgets from which an evaluation goes on the same way: equal, or
    both spent. *)
Definition agree (b1 b2 : option budget) : Prop := b1 = b2 \/ (exceeded b1 = true /\ exceeded b2 = true).

#[global] Instance agree_equiv : Equivalence agree.
Proof.
  unfold agree. split.
  - intros b. by left.
  - intros b1 b2 [->|[]]; [by left|by right].
  - intros b1 b2 b3 [->|[]] [->|[]]; auto.
Qed.

#[global] Instance exceeded_proper : Proper (agree ==> eq) exceeded.
Proof. intros b1 b2 [->|[-> ->]]; done. Qed.

#[global] Instance charges_proper ns : Proper (agree ==> agree) (charges ns).
Proof. intros b1 b2 [->|[]]; [done|]. right. by split; apply charges_over. Qed.

Lemma charges_app ns ms b : charges (ns ++ ms) b = charges ms (charges ns b).
Proof. unfold charges. by rewrite foldl_app. Qed.

Lemma charges_cons n ns b : charges (n :: ns) b = charges ns (charge n b).2.
Proof. done. Qed.

Definition sizes (fs : list Finding) : Z := sumZ (map findingSize fs).

Lemma addAll_charges fs b out : agree (addAll b out fs).2 (charges (map findingSize (map capNamespaces fs)) b).
Proof.
  revert b out. induction fs as [|f fs IH]; intros b out; cbn [addAll map]; [done|]. rewrite charges_cons.
  unfold add. set (n := findingSize (capNamespaces f)). pose proof (charge_ok n b) as Hok.
  destruct (charge n b) as [[] b1]; simpl in *; [apply IH|]. right. split; [by destruct (exceeded b1)|].
  apply charges_over. by destruct (exceeded b1).
Qed.

(** ** Sizes *)

Lemma sumZ_cons z l : sumZ (z :: l) = z + sumZ l.
Proof. done. Qed.

Lemma sumZ_nonneg l : Forall (fun z => 0 <= z) l -> 0 <= sumZ l.
Proof. unfold sumZ. induction 1; simpl; lia. Qed.

Lemma sumZ_append l1 l2 : sumZ (l1 ++ l2) = sumZ l1 + sumZ l2.
Proof. unfold sumZ. induction l1 as [|z l1 IH]; simpl; lia. Qed.

Lemma sumZ_map_nonneg {A} (g : A -> Z) (l : list A) : (forall x, 0 <= g x) -> 0 <= sumZ (map g l).
Proof. intros Hg. unfold sumZ. induction l as [|x l IH]; simpl; [lia|]. specialize (Hg x). lia. Qed.

Lemma sumZ_perm {A} (g : A -> Z) (l l' : list A) : l ≡ₚ l' -> sumZ (map g l) = sumZ (map g l').
Proof. unfold sumZ. induction 1; simpl; lia. Qed.

Lemma callerSize_ge c : 128 <= callerSize c.
Proof.
  unfold callerSize, fieldOverhead. pose proof (slen_nonneg (ca_Group c)). pose proof (slen_nonneg (ca_Version c)).
  pose proof (slen_nonneg (ca_Resource c)). pose proof (slen_nonneg (ca_Subresource c)).
  pose proof (slen_nonneg (ca_Key c)). pose proof (slen_nonneg (ca_Severity c)).
  pose proof (slen_nonneg (ca_Title c)). pose proof (slen_nonneg (ca_Detail c)). lia.
Qed.

Lemma objectSize_nonneg o : 0 <= objectSize o.
Proof.
  unfold objectSize, fieldOverhead. pose proof (slen_nonneg (o_Namespace o)). pose proof (slen_nonneg (o_Name o)).
  pose proof (slen_nonneg (o_File o)). pose proof (slen_nonneg (o_RenderedFrom o)).
  pose proof (slen_nonneg (o_Manager o)). pose proof (slen_nonneg (o_Ignore o)).
  pose proof (slen_nonneg (o_IgnoreReason o)). lia.
Qed.

Lemma gapSize_nonneg g : 0 <= gapSize g.
Proof.
  unfold gapSize, fieldOverhead. pose proof (slen_nonneg (g_Capability g)). pose proof (slen_nonneg (g_Reason g)).
  assert (0 <= sumZ (map (fun s => slen s + 3) (g_Skipped g))).
  { apply sumZ_map_nonneg. intros s. pose proof (slen_nonneg s). lia. }
  lia.
Qed.

Lemma imageSize_nonneg img : 0 <= slen img + 3.
Proof. pose proof (slen_nonneg img). lia. Qed.

Lemma reportBaseSize_nonneg inv k : 0 <= reportBaseSize inv k.
Proof.
  unfold reportBaseSize, fieldOverhead. pose proof (slen_nonneg (ClusterID inv)).
  pose proof (slen_nonneg (ServerVersion inv)). pose proof (slen_nonneg (k_Version k)). lia.
Qed.

Lemma map_nonneg {A} (g : A -> Z) (l : list A) : (forall x, 0 <= g x) -> Forall (fun n => 0 <= n) (map g l).
Proof. intros Hg. apply Forall_forall. intros z Hz. by apply list_elem_of_In, in_map_iff in Hz as (x & <- & _). Qed.

(** A finding's size is that of its strings, its lists and an overhead. *)
Lemma findingSize_ge f :
  128 + slen (f_Key f) + slen (f_Severity f) + slen (f_Title f) + slen (f_Detail f) <= findingSize f.
Proof.
  unfold findingSize, fieldOverhead.
  assert (0 <= sumZ (map (fun s => slen s + 3) (f_Teams f ++ f_Namespaces f ++ f_Citations f))).
  { apply sumZ_map_nonneg. intros s. pose proof (slen_nonneg s). lia. }
  assert (0 <= sumZ (map objectSize (f_Objects f))) by (apply sumZ_map_nonneg, objectSize_nonneg).
  assert (0 <= sumZ (map callerSize (f_Callers f))).
  { apply sumZ_map_nonneg. intros c. pose proof (callerSize_ge c). lia. }
  pose proof (slen_nonneg (f_Category f)). pose proof (slen_nonneg (f_Remediation f)).
  unfold sumZ at 1. simpl. lia.
Qed.

Lemma findingSize_nonneg f : 0 <= findingSize f.
Proof.
  pose proof (findingSize_ge f). pose proof (slen_nonneg (f_Key f)). pose proof (slen_nonneg (f_Severity f)).
  pose proof (slen_nonneg (f_Title f)). pose proof (slen_nonneg (f_Detail f)). lia.
Qed.

Lemma sizes_nonneg fs : 0 <= sizes fs.
Proof. apply sumZ_map_nonneg, findingSize_nonneg. Qed.

Lemma sizes_app fs gs : sizes (fs ++ gs) = sizes fs + sizes gs.
Proof. unfold sizes. by rewrite map_app, sumZ_append. Qed.

Lemma sizes_insert fs j f g : fs !! j = Some f -> sizes (<[j := g]> fs) = sizes fs - findingSize f + findingSize g.
Proof.
  revert j. induction fs as [|h fs IH]; intros [|j] Hj; simpl in Hj; try done.
  - injection Hj as ->. unfold sizes, sumZ. simpl. lia.
  - specialize (IH j Hj). unfold sizes, sumZ in *. simpl. lia.
Qed.

Lemma alter_as_insert {A} (g : A -> A) (l : list A) j x : l !! j = Some x -> alter g j l = <[j := g x]> l.
Proof.
  revert j. induction l as [|y l IH]; intros [|j] Hj; simpl in Hj; try done.
  - by injection Hj as ->.
  - specialize (IH j Hj). change (alter g (S j) (y :: l)) with (y :: alter g j l). by rewrite IH.
Qed.

Lemma set_Callers_size f c : findingSize (set_Callers (f_Callers f ++ [c]) f) = findingSize f + callerSize c.
Proof.
  unfold findingSize. cbn [f_Category f_Severity f_Key f_Title f_Detail f_Remediation f_Teams f_Namespaces
    f_Citations f_Objects f_Callers set_Callers].
  rewrite (map_app callerSize), (sumZ_append (map callerSize _)).
  change (sumZ (map callerSize [c])) with (callerSize c + 0). lia.
Qed.

Lemma set_Detail_size f s : findingSize (set_Detail (f_Detail f +:+ s) f) = findingSize f + slen s.
Proof. unfold findingSize, sumZ. simpl. rewrite slen_app. lia. Qed.

(** ** Folding *)

Definition rowCharge (c : DeprecatedCall) : Z :=
  slen (d_Group c) + slen (d_Version c) + slen (d_Resource c) + slen (d_Subresource c).

(** A caller row's finding and the charge of folding it take at most twice
    what the caller it becomes does. *)
Definition row_fits (row : DeprecatedCall * Finding) : Prop :=
  findingSize row.2 + rowCharge row.1 <= 2 * callerSize (callerOf row.1 row.2).

Lemma callFinding_fits removals target c : row_fits (c, capNamespaces (callFinding removals target c)).
Proof.
  unfold row_fits. simpl.
  assert (H : forall sev key title detail,
    let f := newFinding CatDeprecatedAPIInUse sev key title detail [deprecationGuideURL] in
    findingSize (capNamespaces f) + rowCharge c <= 2 * callerSize (callerOf c (capNamespaces f))).
  { intros sev key title detail f. unfold capNamespaces. simpl.
    unfold findingSize, callerSize, callerOf, rowCharge, fieldOverhead, sumZ. simpl.
    pose proof (slen_nonneg (d_Group c)). pose proof (slen_nonneg (d_Version c)).
    pose proof (slen_nonneg (d_Resource c)). pose proof (slen_nonneg (d_Subresource c)).
    pose proof (slen_nonneg sev). pose proof (slen_nonneg key). pose proof (slen_nonneg title).
    pose proof (slen_nonneg detail).
    change (slen CatDeprecatedAPIInUse) with 21. change (slen "") with 0.
    assert (slen deprecationGuideURL <= 100) by (vm_compute; discriminate). lia. }
  unfold callFinding. destruct (callRemoval removals c) as [[removed when_]|]; apply H.
Qed.

(** What one pass of the fold does, for every budget: it charges [ns], and
    gives [r] or, the budget spent, nothing. *)
Definition passes {A} (pass : option budget -> option A * option budget) (ns : list Z) (r : A) : Prop :=
  Forall (fun n => 0 <= n) ns /\
  forall b, agree (pass b).2 (charges ns b) /\
    ((pass b).1 = Some r \/ (pass b).1 = None /\ exceeded (pass b).2 = true).

Lemma passes_None {A} (pass : option budget -> option A * option budget) ns r :
  passes pass ns r -> pass None = (Some r, None).
Proof.
  intros [_ H]. destruct (H None) as [Ha Hr]. rewrite charges_None in Ha. destruct (pass None) as [o b]. simpl in *.
  destruct Ha as [->|[]]; [|done]. by destruct Hr as [->|[]].
Qed.

Lemma passes_bind {A B} (p : option budget -> option A * option budget) (q : A -> option budget -> option B * option budget)
    ns ms a r :
  passes p ns a -> passes (q a) ms r ->
  passes (fun b => match p b with (Some a, b) => q a b | (None, b) => (None, b) end) (ns ++ ms) r.
Proof.
  intros [Hn Hp] [Hm Hq]. split; [by apply Forall_app|]. intros b. rewrite charges_app.
  destruct (Hp b) as [Ha Hr]. destruct (p b) as [o b1]. simpl in *. destruct Hr as [->|[-> He]].
  - destruct (Hq b1) as [Ha' Hr']. split; [|done]. by rewrite Ha', Ha.
  - simpl. split; [|by right]. right. split; [done|]. apply charges_over. by rewrite <- Ha.
Qed.

Definition stateSize (st : foldState) : Z := sizes (fs_usage st) + sizes (fs_standalone st).

(** The indexes the second loop visits are those of usage findings. *)
Definition order_ok (n : nat) (st : foldState) : Prop :=
  length (fs_usage st) = n /\ Forall (fun j => (j < n)%nat) (fs_order st).

Lemma foldRow_passes us usage byRes st c call :
  order_ok (length usage) st -> row_fits (c, call) ->
  exists ns st', passes (foldRow us (indexByAPI usage) byRes st c call) ns st' /\ order_ok (length usage) st' /\
    stateSize st' <= stateSize st + findingSize call + sumZ ns /\
    findingSize call + sumZ ns <= 2 * (stateSize st' - stateSize st).
Proof.
  intros [Hlen Hord] Hfit. unfold foldRow.
  assert (Hstand : forall st', st' = mkFoldState (fs_usage st) (fs_evidence st) (fs_order st) (fs_standalone st ++ [call]) ->
    exists ns st'', passes (fun b => (Some st', b)) ns st'' /\ order_ok (length usage) st'' /\
      stateSize st'' <= stateSize st + findingSize call + sumZ ns /\
      findingSize call + sumZ ns <= 2 * (stateSize st'' - stateSize st)).
  { intros st' Est'. exists [], st'. split; [split; [done|]; intros b; by split; [|left]|]. subst st'.
    split; [done|]. unfold stateSize. simpl. rewrite sizes_app. pose proof (findingSize_nonneg call).
    change (sizes [call]) with (findingSize call + 0). change (sumZ []) with 0. lia. }
  destruct (usageOf us (indexByAPI usage) byRes c) as [j|] eqn:Hj; [|by apply Hstand].
  apply usageOf_lt in Hj.
  destruct (fs_usage st !! j) as [f|] eqn:Hf; [|apply lookup_ge_None in Hf; lia].
  destruct (_ <? _); [by apply Hstand|]. cbv zeta.
  assert (Hord' : exists rs order, (match default [] (fs_evidence st !! j) with
      | [] => ((gvString (d_Group c) (d_Version c) +:+ " " +:+ requested c)%string, fs_order st ++ [j])
      | _ => (requested c, fs_order st) end) = (rs, order) /\ Forall (fun j => (j < length usage)%nat) order).
  { destruct (default [] _); eexists _, _; (split; [done|]); [|done]. apply Forall_app. by split; [|constructor]. }
  destruct Hord' as (rs & order & -> & Hord').
  set (st' := mkFoldState _ _ order _).
  exists [rowCharge c], st'. split; [|split].
  - split.
    + constructor; [|done]. unfold rowCharge. pose proof (slen_nonneg (d_Group c)). pose proof (slen_nonneg (d_Version c)).
      pose proof (slen_nonneg (d_Resource c)). pose proof (slen_nonneg (d_Subresource c)). lia.
    + intros b. change (charges [rowCharge c] b) with (charge (rowCharge c) b).2. fold (rowCharge c).
      pose proof (charge_ok (rowCharge c) b) as Hok. destruct (charge (rowCharge c) b) as [[] b1]; simpl in *.
      * by split; [|left].
      * split; [done|]. right. split; [done|]. by destruct (exceeded b1).
  - split; [|done]. simpl. by rewrite length_insert.
  - unfold stateSize. simpl. rewrite (sizes_insert _ _ _ _ Hf), set_Callers_size. unfold row_fits in Hfit. simpl in Hfit.
    change (sumZ [rowCharge c]) with (rowCharge c + 0).
    pose proof (findingSize_ge call). unfold callerSize, callerOf, rowCharge, fieldOverhead in *. simpl in *. lia.
Qed.

Lemma foldRows_passes us usage byRes rows st :
  order_ok (length usage) st -> Forall row_fits rows ->
  exists ns st', passes (foldRows us (indexByAPI usage) byRes st rows) ns st' /\ order_ok (length usage) st' /\
    stateSize st' <= stateSize st + sizes (map snd rows) + sumZ ns /\
    sizes (map snd rows) + sumZ ns <= 2 * (stateSize st' - stateSize st).
Proof.
  intros Hok Hrows. revert st Hok. induction Hrows as [|[c call] rows Hrow Hrows IH]; intros st Hok.
  { exists [], st. split; [split; [done|]; intros b; by split; [|left]|]. split; [done|].
    unfold sizes, sumZ. simpl. lia. }
  destruct (foldRow_passes us usage byRes st c call Hok Hrow) as (ns & st1 & Hp & Hok1 & Hle & Hge).
  destruct (IH st1 Hok1) as (ms & st2 & Hq & Hok2 & Hle2 & Hge2).
  exists (ns ++ ms), st2. split; [exact (passes_bind _ (fun st b => foldRows us (indexByAPI usage) byRes st rows b) _ _ _ _ Hp Hq)|].
  split; [done|]. rewrite sumZ_append. cbn [map snd]. change (sizes (call :: map snd rows)) with (findingSize call + sizes (map snd rows)). lia.
Qed.

Lemma foldDetails_passes ev usage order :
  Forall (fun j => (j < length usage)%nat) order ->
  exists ns usage', passes (foldDetails ev usage order) ns usage' /\ sizes usage' = sizes usage + sumZ ns /\
    Forall (fun n => 0 <= n) ns.
Proof.
  intros Hord. revert usage Hord. induction order as [|j order IH]; intros usage Hord.
  { exists [], usage. split; [split; [done|]; intros b; by split; [|left]|]. split; [|done]. unfold sumZ. simpl. lia. }
  apply Forall_cons in Hord as [Hj Hord]. cbn [foldDetails]. set (more := evidenceSentence _).
  set (usage1 := alter _ j usage).
  destruct (lookup_lt_is_Some_2 usage j Hj) as [f Hf].
  assert (E : usage1 = <[j := set_Detail (f_Detail f +:+ more) f]> usage).
  { unfold usage1. by rewrite (alter_as_insert _ _ _ _ Hf). }
  destruct (IH usage1) as (ms & usage2 & Hq & Hs & Hm).
  { rewrite E, length_insert. done. }
  exists (slen more :: ms), usage2. split; [|split].
  - split; [by constructor; [apply slen_nonneg|]|]. intros b. rewrite charges_cons.
    pose proof (charge_ok (slen more) b) as Hok. destruct (charge (slen more) b) as [[] b1]; simpl in *.
    + apply Hq.
    + split; [|right; split; [done|by destruct (exceeded b1)]]. right. split; [by destruct (exceeded b1)|].
      apply charges_over. by destruct (exceeded b1).
  - rewrite Hs, E, (sizes_insert _ _ _ _ Hf), set_Detail_size, sumZ_cons. lia.
  - constructor; [apply slen_nonneg|done].
Qed.

Lemma foldDeprecatedCalls_charges inv usage calls :
  Forall row_fits (zip (DeprecatedCalls inv) calls) ->
  exists ns, Forall (fun n => 0 <= n) ns /\
    (forall b, agree (foldDeprecatedCalls inv usage calls b).2 (charges ns b)) /\
    let out := sizes (foldDeprecatedCalls inv usage calls None).1 in
    let rows := sizes (map snd (zip (DeprecatedCalls inv) calls)) in
    out <= sizes usage + rows + sumZ ns /\ rows + sumZ ns <= 2 * (out - sizes usage).
Proof.
  intros Hfit. unfold foldDeprecatedCalls. cbv zeta.
  set (byRes := indexByResource _). set (st0 := mkFoldState usage ∅ [] []).
  destruct (foldRows_passes (APIUsages inv) usage byRes _ st0 ltac:(done) Hfit) as (ns & st & Hp & Hok & Hle & Hge).
  destruct Hok as [Hlen Hord]. rewrite <- Hlen in Hord.
  destruct (foldDetails_passes (fs_evidence st) (fs_usage st) (fs_order st) Hord) as (ms & usage' & Hq & Hs & Hm).
  exists (ns ++ ms). split; [apply Forall_app; split; [apply Hp|done]|]. split.
  - intros b. rewrite charges_app. destruct Hp as [_ Hp]. destruct (Hp b) as [Ha Hr].
    destruct (foldRows _ _ _ _ _ b) as [o b1]. simpl in *. destruct Hr as [->|[-> He]].
    + destruct Hq as [_ Hq]. destruct (Hq b1) as [Ha' Hr']. rewrite <- Ha, <- Ha'.
      by destruct (foldDetails _ _ _ b1) as [[u|] b2].
    + right. split; [done|]. apply charges_over. by rewrite <- Ha.
  - rewrite (passes_None _ _ _ Hp), (passes_None _ _ _ Hq). cbn [fst]. rewrite sizes_app, sumZ_append.
    unfold stateSize in Hle, Hge. change (fs_usage st0) with usage in *. change (fs_standalone st0) with (@nil Finding) in *.
    change (sizes []) with 0 in *. pose proof (sumZ_nonneg _ Hm). lia.
Qed.

(** ** The API findings *)

Lemma calls_fit inv k target :
  Forall row_fits (zip (DeprecatedCalls inv) (map capNamespaces (callFindings inv k target))) /\
  map snd (zip (DeprecatedCalls inv) (map capNamespaces (callFindings inv k target))) =
  map capNamespaces (callFindings inv k target).
Proof.
  unfold callFindings. induction (DeprecatedCalls inv) as [|c cs [IH1 IH2]]; [done|]. cbn [map zip zip_with snd].
  split; [constructor; [apply callFinding_fits|done]|]. f_equal. exact IH2.
Qed.

Lemma apiFindings_charges inv k target :
  exists ns, Forall (fun n => 0 <= n) ns /\
    (forall b, agree (apiFindings inv k target b).2 (charges ns b)) /\
    sizes (apiFindings inv k target None).1 <= sumZ ns /\
    sumZ ns <= 2 * sizes (apiFindings inv k target None).1.
Proof.
  destruct (calls_fit inv k target) as [Hfit Hsnd].
  set (U := map capNamespaces (usageFindings inv k target)).
  set (C := map capNamespaces (callFindings inv k target)) in *.
  destruct (foldDeprecatedCalls_charges inv U C Hfit) as (ns & Hn & Ha & Hle & Hge). rewrite Hsnd in Hle, Hge.
  exists (map findingSize U ++ map findingSize C ++ ns).
  assert (Hsz : forall l, Forall (fun n => 0 <= n) (map findingSize l)).
  { intros l. apply map_nonneg, findingSize_nonneg. }
  split; [apply Forall_app; split; [done|]; by apply Forall_app; split|].
  assert (EN : (apiFindings inv k target None).1 = (foldDeprecatedCalls inv U C None).1).
  { unfold apiFindings. rewrite evalAPIUsage_None. unfold evalDeprecatedCalls. by rewrite addAll_None. }
  rewrite EN, !sumZ_append. fold (sizes U). fold (sizes C). pose proof (sizes_nonneg U). split; [|lia].
  intros b. rewrite !charges_app. unfold apiFindings, evalAPIUsage, evalDeprecatedCalls.
  fold (usageFindings inv k target). fold (callFindings inv k target).
  pose proof (addAll_charges (usageFindings inv k target) b []) as H1. fold U in H1.
  pose proof (addAll_within (usageFindings inv k target) b []) as W1.
  destruct (addAll b [] (usageFindings inv k target)) as [u b1]. simpl in H1, W1.
  destruct (exceeded b1) eqn:E1.
  { rewrite E1. cbn [snd]. right. split; [done|]. apply charges_over, charges_over. by rewrite <- H1. }
  rewrite (W1 eq_refl). fold U.
  pose proof (addAll_charges (callFindings inv k target) b1 []) as H2. fold C in H2.
  pose proof (addAll_within (callFindings inv k target) b1 []) as W2.
  destruct (addAll b1 [] (callFindings inv k target)) as [cl b2]. simpl in H2, W2. rewrite <- H1.
  destruct (exceeded b2) eqn:E2; cbn [snd].
  { right. split; [done|]. apply charges_over. by rewrite <- H2. }
  rewrite (W2 eq_refl). fold C. rewrite Ha. by rewrite H2.
Qed.

(** ** The steps *)

Definition step_charges (step : state -> option state) (l : list Finding) : Prop :=
  forall fs b, exists st', step (fs, b) = Some st' /\ agree st'.2 (charges (map findingSize (map capNamespaces l)) b).

Lemma addCheck_charges l : step_charges (addCheck l) l.
Proof. intros fs b. eexists. split; [done|]. apply addAll_charges. Qed.

Lemma appendCheck_charges l : step_charges (appendCheck (fun b => addAll b [] l)) l.
Proof.
  intros fs b. unfold appendCheck. simpl. pose proof (addAll_charges l b []) as H.
  destruct (addAll b [] l) as [out b1]. by eexists.
Qed.

Lemma runSteps_charges steps ls fs b :
  Forall2 step_charges steps ls ->
  match runSteps steps (fs, b) with
  | Some (Ok st) => agree st.2 (charges (map findingSize (map capNamespaces (concat ls))) b)
  | Some (Err e) => exceeded (charges (map findingSize (map capNamespaces (concat ls))) b) = true
  | None => False
  end.
Proof.
  intros Hs. revert fs b. induction Hs as [|step l steps ls Hstep Hs IH]; intros fs b; cbn [runSteps concat]; [done|].
  cbn [snd]. destruct (exceeded b) eqn:Eb; [by apply charges_over|].
  destruct (Hstep fs b) as ([fs1 b1] & -> & Ha). specialize (IH fs1 b1). simpl in Ha.
  rewrite !map_app, charges_app. destruct (runSteps steps (fs1, b1)) as [[st|e]|]; [..|done].
  - by rewrite <- Ha.
  - by rewrite <- Ha.
Qed.

Section Limit.
Context `{Semver} `{KubeAware}.

Lemma evalSteps_charges inv k target now :
  kb_ok k -> Forall2 step_charges (evalSteps inv k target now) (checkFindings inv k target now).
Proof.
  intros Hk. unfold evalSteps, checkFindings. cbv zeta.
  assert (Hv : step_charges (fun st => match evalVolumePlugins inv k target st.2 with
      | None => None | Some (out, b) => Some (st.1 ++ out, b) end) (volumeFindings inv k target)).
  { intros fs b. simpl. unfold evalVolumePlugins. cbv zeta.
    rewrite volumeRows_total by (intros u _; by apply volumeFinding_ok).
    pose proof (addAll_charges (volumeFindings inv k target) b []) as Hc. unfold volumeFindings in *.
    destruct (addAll b [] _) as [out b1]. by eexists. }
  repeat apply Forall2_cons_2; try apply addCheck_charges; try apply appendCheck_charges; [|exact Hv|apply Forall2_nil_2].
  unfold evalUncoveredRuntimes. destruct (k_AddOns k); [|apply appendCheck_charges].
  intros fs b. eexists. split; [done|]. done.
Qed.

(** ** The limit *)

(** What a report takes, by the sizes the budget charges with. *)
Definition reportSize (r : Report) : Z :=
  12 * fieldOverhead + slen (r_ClusterID r) + slen (r_ServerVersion r) + slen (r_KBVersion r) +
  sizes (r_Findings r) + sumZ (map gapSize (r_NotAssessed r)) +
  sumZ (map (fun img => slen img + 3) (r_UnrecognizedImages r)).

Lemma charges_sum ns l o :
  Forall (fun n => 0 <= n) ns -> 0 <= l \/ o = true -> l <= maxInt -> minInt <= l - sumZ ns ->
  exceeded (charges ns (Some (mkBudget l o))) = o || (l <? sumZ ns).
Proof.
  intros Hn. revert l o. induction Hn as [|n ns Hn0 Hn IH]; intros l o Hl Hmax Hmin.
  { change (sumZ []) with 0. simpl. destruct o; [done|]. destruct Hl as [Hl|]; [|done]. symmetry. apply Z.ltb_ge. lia. }
  rewrite charges_cons. rewrite sumZ_cons in *. pose proof (sumZ_nonneg ns Hn) as Hs. cbn [charge snd b_left b_over].
  rewrite wrap64_id by (unfold in_int64; lia). rewrite IH; [|destruct (Z.ltb_spec (l - n) 0); [right; by destruct o|by left]|lia|lia].
  destruct o; [done|]. simpl. destruct (Z.ltb_spec (l - n) 0); simpl.
  - symmetry. apply Z.ltb_lt. lia.
  - destruct (Z.ltb_spec (l - n) (sumZ ns)); symmetry; [apply Z.ltb_lt|apply Z.ltb_ge]; lia.
Qed.

(** What an evaluation charges, in order. *)
Lemma evaluate_charges inv k target now :
  kb_ok k ->
  exists ns r, Evaluate inv k target now = Some r /\ Forall (fun n => 0 <= n) ns /\
    (forall b, evaluate inv k target now b =
      Some (if exceeded (charges ns b) then Err ErrReportTooLarge else Ok r)) /\
    reportSize r <= sumZ ns /\ sumZ ns <= 2 * reportSize r.
Proof.
  intros Hk. set (j := judged inv).
  destruct (apiFindings_charges j k target) as (as_ & Hna & Haa & Hal & Hag).
  set (cs := checkFindings j k target now).
  set (steps := map findingSize (map capNamespaces (concat cs))).
  set (gaps := map gapSize (assessmentGaps j k target)).
  set (imgs := map (fun img => slen img + 3) (listedImages j).1).
  exists (reportBaseSize j k :: as_ ++ steps ++ gaps ++ imgs).
  eexists. split; [by apply Evaluate_eq|]. split; [|split; [|]].
  - constructor; [apply reportBaseSize_nonneg|]. rewrite !Forall_app.
    split_and!; [done|..]; apply map_nonneg; [apply findingSize_nonneg|apply gapSize_nonneg|apply imageSize_nonneg].
  - intros b. rewrite charges_cons, !charges_app. unfold evaluate. cbv zeta. fold j.
    set (b0 := (charge (reportBaseSize j k) b).2).
    pose proof (Haa b0) as H1. pose proof (budgeted_within _ (apiFindings_budgeted j k target) b0) as W1.
    pose proof (budgeted_None _ (apiFindings_budgeted j k target)) as N1.
    destruct (apiFindings j k target b0) as [fs0 b1] eqn:E0. simpl in H1, W1.
    pose proof (runSteps_charges _ _ fs0 b1 (evalSteps_charges j k target now Hk)) as H2. fold cs in H2. fold steps in H2.
    destruct (runSteps (evalSteps j k target now) (fs0, b1)) as [[[fs b2]|e]|] eqn:Hrun; [..|done].
    + simpl in H2. rewrite H1 in H2. rewrite <- H2. fold gaps. fold imgs.
      destruct (exceeded (charges imgs (charges gaps b2))) eqn:Hex; [done|].
      assert (Hb2 : exceeded b2 = false).
      { apply not_true_is_false. intros E. rewrite charges_over in Hex; [done|]. by apply charges_over. }
      destruct (runSteps_ok _ _ _ _ (evalSteps_ok j k target now) Hrun) as [_ Hr]. destruct (Hr Hb2) as [Hb1 Hrun'].
      rewrite (runSteps_adds _ _ _ (evalSteps_adds j k target now Hk)) in Hrun'. injection Hrun' as Hfs.
      simpl in Hfs. rewrite <- Hfs, (W1 Hb1). done.
    + rewrite H1 in H2. rewrite charges_over by (by apply charges_over).
      by rewrite (runSteps_Err _ _ _ Hrun).
  - unfold reportSize, report. cbn [r_ClusterID r_ServerVersion r_KBVersion r_Findings r_NotAssessed r_UnrecognizedImages].
    fold j. fold gaps. fold imgs. rewrite sumZ_cons, !sumZ_append.
    assert (E : sizes (sortFindings (allFindings j k target now)) =
      sizes (apiFindings j k target None).1 + sumZ steps).
    { unfold sizes at 1, sortFindings. rewrite (sumZ_perm _ _ _ (isort_perm _ _)). unfold allFindings.
      rewrite map_app, sumZ_append. done. }
    rewrite E. pose proof (reportBaseSize_nonneg j k) as Hbase. unfold reportBaseSize in *.
    assert (0 <= sumZ steps) by apply sumZ_map_nonneg, findingSize_nonneg.
    assert (0 <= sumZ gaps) by apply sumZ_map_nonneg, gapSize_nonneg.
    assert (0 <= sumZ imgs) by apply sumZ_map_nonneg, imageSize_nonneg. lia.
Qed.

(** The report of an evaluation within a limit is the unlimited one's. *)
Lemma EvaluateWithin_report inv k target now maxBytes r :
  kb_ok k -> EvaluateWithin inv k target now maxBytes = Some (Ok r) -> Evaluate inv k target now = Some r.
Proof.
  intros Hk. destruct (evaluate_charges inv k target now Hk) as (ns & r' & He & _ & Hev & _).
  unfold EvaluateWithin. rewrite Hev. by case_match; intros [= <-].
Qed.
End Limit.

(** C11 The limit is a limit on the report: with a validated knowledge base
    an evaluation charges a total of at least the size of the report it
    builds and at most twice that (as long as the machine's integers hold
    it), and under any limit [EvaluateWithin] fails when the total is over
    the limit and otherwise returns exactly the report of [Evaluate]. So no
    report larger than the limit is ever returned, and none of at most half
    of it is refused. *)
Theorem EvaluateWithin_limit `{Semver} `{KubeAware} (inv : Inventory) (k : KB) (target : Version) (now : Time) :
  kb_ok k ->
  exists r total, Evaluate inv k target now = Some r /\
    reportSize r <= total /\ total <= 2 * reportSize r /\
    (total <= maxInt -> forall maxBytes, 0 <= maxBytes <= maxInt ->
       EvaluateWithin inv k target now maxBytes =
       Some (if maxBytes <? total then Err ErrReportTooLarge else Ok r)).
Proof.
  intros Hk. destruct (evaluate_charges inv k target now Hk) as (ns & r & He & Hn & Hev & Hle & Hge).
  exists r, (sumZ ns). split; [done|]. split; [done|]. split; [done|]. intros Htot maxBytes Hm.
  unfold EvaluateWithin. rewrite Hev. pose proof (sumZ_nonneg ns Hn).
  rewrite charges_sum; [done|done|left; lia|lia|unfold minInt, maxInt in *; lia].
Qed.

#[local] Existing Instance exactSemver.
#[local] Existing Instance byName.

Example limit_refuses : EvaluateWithin cleanInventory emptyKB (mkVersion 1 30) 0 100 = Some (Err ErrReportTooLarge).
Proof. vm_compute. reflexivity. Qed.

Lemma EvaluateWithin_limit_witness :
  exists r total, Evaluate cleanInventory emptyKB (mkVersion 1 30) 0 = Some r /\
    reportSize r <= total /\ total <= 2 * reportSize r.
Proof.
  destruct (EvaluateWithin_limit cleanInventory emptyKB (mkVersion 1 30) 0) as (r & total & H1 & H2 & H3 & _);
    [apply Forall_nil_2|]. exists r, total. exact (conj H1 (conj H2 H3)).
Defined.
