(* ===== verification/Plan.v ===== *)
(** * Upgrade plans (internal/engine/plan.go)

    The hops from a cluster's minor to the target, and the reports of the
    hops with each finding listed in full once. *)

From stdpp Require Import base list strings gmap sorting.
From Stdlib Require Import ZArith Lia Ascii.
From S2P Require Import Prelude GoStr GoTime Version Inventory KB Findings Skew Evaluate.

Definition upgradePathKey : string := CatVersionSkew +:+ "/upgrade-path".

(** [findingKey]. *)
Definition findingKey (f : Finding) : string :=
  if f_Key f =s "" then f_Category f +:+ String "000" (f_Title f) else f_Key f.

(** ** Hops *)

(** [Hop.severities]. *)
Definition severities (h : Hop) : gmap string string :=
  let m := foldl (fun m f => <[findingKey f := f_Severity f]> m) ∅ (hop_Findings h) in
  let refs m rs := foldl (fun m r => <[fr_Key r := fr_Severity r]> m) m rs in
  refs (refs m (hop_Changed h)) (hop_Carried h).

(** [Hop.Count]. *)
Definition Count (h : Hop) (sev : string) : Z :=
  zlen (filter (fun kv => kv.2 = sev) (map_to_list (severities h))).

(** ** HopTargets *)

(** One turn: the next minor, or the farthest listed step that does not
    pass [to]. *)
Definition nextHop (steps : list UpgradeStep) (at_ to : Version) : Version :=
  foldl (fun next s =>
    if version_eqb (us_From s) at_ && (0 <? Compare (us_To s) next) && (Compare (us_To s) to <=? 0)
    then us_To s else next) (Next at_) steps.

Fixpoint hopLoop (fuel : nat) (steps : list UpgradeStep) (at_ to : Version) : list Version :=
  match fuel with
  | O => []
  | S n =>
      if Compare at_ to <? 0 then
        let next := nextHop steps at_ to in next :: hopLoop n steps next to
      else []
  end.

(** Each turn moves at least one minor, so the distance in minors bounds
    the turns ([hopLoop_spec]). *)
Definition HopTargets (k : KB) (from to : Version) : list Version :=
  if negb (Major from =? Major to) then []
  else hopLoop (Z.to_nat (Minor to - Minor from)) (k_UpgradeSteps k) from to.

(** ** PlanReports *)

(** [listed]: where a finding was listed in full, and its last severity. *)
Abbreviation listing := (gmap string (Version * string)).

Record hopState := mkHopState {
  hs_findings : list Finding;
  hs_changed : list FindingRef;
  hs_carried : list FindingRef;
  hs_listed : listing;
}.

Definition hopFinding (target : Version) (st : hopState) (f : Finding) : hopState :=
  let key := findingKey f in
  if key =s upgradePathKey then st else
  match hs_listed st !! key with
  | None =>
      mkHopState (hs_findings st ++ [f]) (hs_changed st) (hs_carried st)
        (<[key := (target, f_Severity f)]> (hs_listed st))
  | Some (since, sev) =>
      let listed := <[key := (since, f_Severity f)]> (hs_listed st) in
      if sev =s f_Severity f then
        mkHopState (hs_findings st) (hs_changed st)
          (hs_carried st ++ [mkFindingRef key (f_Severity f) "" (f_Title f) since]) listed
      else
        mkHopState (hs_findings st)
          (hs_changed st ++ [mkFindingRef key (f_Severity f) sev (f_Title f) since]) (hs_carried st) listed
  end.

Definition hopReport (from : Version) (listed : listing) (r : Report) : Hop * listing :=
  let st := foldl (hopFinding (r_Target r)) (mkHopState [] [] [] listed) (r_Findings r) in
  (mkHop from (r_Target r) (r_Score r) (r_Verdict r) (hs_findings st) (hs_changed st) (hs_carried st) (r_NotAssessed r),
   hs_listed st).

Fixpoint planFrom (from : Version) (listed : listing) (reports : list Report) : list Hop :=
  match reports with
  | [] => []
  | r :: rs => let '(h, listed) := hopReport from listed r in h :: planFrom (r_Target r) listed rs
  end.

Definition PlanReports (from : Version) (reports : list Report) : list Hop := planFrom from ∅ reports.

(** ** Plan *)

Section Plan.
Context `{Semver} `{KubeAware}.

(** [None] when an evaluation panics. *)
Definition Plan (inv : Inventory) (k : KB) (from to : Version) (now : Time) : option (list Hop) :=
  PlanReports from <$> mapM (fun t => Evaluate inv k t now) (HopTargets k from to).
End Plan.

Definition PlanFrom (inv : Inventory) : option Version := upgradeFrom inv.

(** ** The hops reach the target *)

Lemma nextHop_cases steps at_ to :
  nextHop steps at_ to = Next at_ \/
  exists s, s ∈ steps /\ us_From s = at_ /\ nextHop steps at_ to = us_To s /\
    vlt (Next at_) (us_To s) /\ vle (us_To s) to.
Proof.
  unfold nextHop. induction steps as [|s steps IH] using rev_ind; [by left|]. rewrite foldl_snoc.
  destruct (_ && _) eqn:E.
  - right. exists s. to_prop. rewrite elem_of_app, list_elem_of_singleton.
    split_and!; [by right|by apply version_eqb_spec|done| |by apply Compare_le].
    match goal with Hc : 0 < Compare (us_To s) _ |- _ => apply Z.lt_gt, Compare_gt in Hc as Hgt end.
    destruct IH as [IH|(s' & _ & _ & IH & Hlt & _)]; rewrite IH in Hgt; [done|]. by etrans.
  - destruct IH as [->|(s' & ? & ? & ? & ?)]; [by left|]. right. exists s'. rewrite elem_of_app. auto.
Qed.

(** A hop moves forward and does not pass the target. *)
Lemma nextHop_step steps at_ to :
  version_ok at_ -> version_ok to -> Major at_ = Major to -> Minor at_ < Minor to ->
  let next := nextHop steps at_ to in
  Major next = Major to /\ Minor at_ < Minor next <= Minor to /\ version_ok next.
Proof.
  intros [HMa Hma] [HMt Hmt] HM Hlt.
  assert (Hn : Next at_ = mkVersion (Major at_) (Minor at_ + 1)).
  { unfold Next. rewrite wrap64_id; [done|]. unfold in_int64, minInt, maxInt in *. lia. }
  destruct (nextHop_cases steps at_ to) as [->|(s & _ & _ & -> & Hgt & Hle)]; cbv zeta.
  - rewrite Hn. simpl. split_and!; [done|lia|lia|]. unfold version_ok. simpl. lia.
  - rewrite Hn in Hgt. destruct (us_To s) as [M m]. unfold vle, vlt, version_ok in *. simpl in *.
    destruct Hle as [Hle|Hle]; [simpl in Hle; lia|]. subst to. simpl in *. lia.
Qed.

(** One hop is a minor, or a step the knowledge base lists. *)
Definition hop_ok (steps : list UpgradeStep) (a b : Version) : Prop :=
  b = Next a \/ exists s, s ∈ steps /\ us_From s = a /\ us_To s = b.

Fixpoint hops_chain (steps : list UpgradeStep) (at_ : Version) (l : list Version) : Prop :=
  match l with
  | [] => True
  | v :: l' => hop_ok steps at_ v /\ vlt at_ v /\ hops_chain steps v l'
  end.

Lemma hopLoop_spec fuel steps at_ to :
  version_ok at_ -> version_ok to -> Major at_ = Major to -> Minor to - Minor at_ <= Z.of_nat fuel ->
  (Minor at_ < Minor to -> last (hopLoop fuel steps at_ to) = Some to) /\
  (Minor to <= Minor at_ -> hopLoop fuel steps at_ to = []) /\
  hops_chain steps at_ (hopLoop fuel steps at_ to) /\
  (forall fuel', (fuel <= fuel')%nat -> hopLoop fuel' steps at_ to = hopLoop fuel steps at_ to).
Proof.
  revert at_. induction fuel as [|fuel IH]; intros at_ Ha Ht HM Hf.
  { assert (Hge : Minor to <= Minor at_) by lia.
    assert (Hc : (Compare at_ to <? 0) = false).
    { apply Z.ltb_ge. apply Z.nlt_ge. rewrite Compare_lt. unfold vlt. lia. }
    split_and!; [lia|done|done|]. intros [|fuel'] _; simpl; [done|]. by rewrite Hc. }
  cbn [hopLoop]. destruct (Z.ltb_spec (Compare at_ to) 0) as [Hlt|Hge].
  - assert (Hm : Minor at_ < Minor to) by (apply Compare_lt in Hlt; unfold vlt in Hlt; lia).
    destruct (nextHop_step steps at_ to Ha Ht HM Hm) as (HM' & Hm' & Hok). cbv zeta.
    destruct (IH (nextHop steps at_ to) Hok Ht HM') as (Hlast & Hnil & Hchain & Hmore); [lia|].
    split_and!; [|lia| |].
    + intros _. destruct (Z.eq_dec (Minor (nextHop steps at_ to)) (Minor to)) as [E|E].
      * rewrite Hnil by lia. simpl. f_equal. destruct (nextHop steps at_ to), to. simpl in *. by subst.
      * rewrite last_cons, Hlast by lia. done.
    + split_and!; [|right; lia|done].
      destruct (nextHop_cases steps at_ to) as [->|(s & ? & ? & -> & _)]; [by left|right; eauto].
    + intros [|fuel'] Hle; [lia|]. cbn [hopLoop]. rewrite (proj2 (Z.ltb_lt _ _)) by done. cbv zeta.
      by rewrite Hmore by lia.
  - assert (Hm : Minor to <= Minor at_).
    { apply Z.nlt_ge. intros Hlt. apply Z.nlt_ge in Hge. apply Hge, Compare_lt. right. done. }
    split_and!; [lia|done|done|]. intros [|fuel'] _; cbn [hopLoop]; [done|]. by rewrite (proj2 (Z.ltb_ge _ _)).
Qed.

(** C32 An upgrade plan reaches its target: the hops from a cluster's minor
    to a newer one of the same major are finitely many, each is the next
    minor or a step the knowledge base lists and moves forward, and the
    last is the target; there are none when the target is not an upgrade. *)
Theorem HopTargets_reach (k : KB) (from to : Version) :
  version_ok from -> version_ok to ->
  hops_chain (k_UpgradeSteps k) from (HopTargets k from to) /\
  (Major from = Major to -> vlt from to -> last (HopTargets k from to) = Some to) /\
  (Major from <> Major to \/ vle to from -> HopTargets k from to = []) /\
  (Major from = Major to -> forall fuel, (Z.to_nat (Minor to - Minor from) <= fuel)%nat ->
     hopLoop fuel (k_UpgradeSteps k) from to = HopTargets k from to).
Proof.
  intros Hf Ht. unfold HopTargets. destruct (Z.eqb_spec (Major from) (Major to)) as [E|E]; simpl.
  - destruct (hopLoop_spec (Z.to_nat (Minor to - Minor from)) (k_UpgradeSteps k) from to Hf Ht E) as (Hl & Hn & Hc & Hm);
      [lia|]. split_and!; [done| | |].
    + intros _ Hlt. apply Hl. unfold vlt in Hlt. lia.
    + intros [?|Hle]; [done|]. apply Hn. destruct Hle as [Hle| ->]; [unfold vlt in Hle|]; lia.
    + intros _. exact Hm.
  - split_and!; done.
Qed.

Lemma HopTargets_reach_witness :
  HopTargets emptyKB (mkVersion 1 29) (mkVersion 1 32) = [mkVersion 1 30; mkVersion 1 31; mkVersion 1 32] /\
  last (HopTargets emptyKB (mkVersion 1 29) (mkVersion 1 32)) = Some (mkVersion 1 32).
Proof.
  split; [vm_compute; reflexivity|].
  apply (HopTargets_reach emptyKB (mkVersion 1 29) (mkVersion 1 32));
    unfold version_ok, maxInt, vlt; simpl; lia.
Defined.

(** ** Each finding is listed once *)

(** The findings of a report a hop accounts for. *)
Definition planned (fs : list Finding) : list Finding := filter (fun f => findingKey f <> upgradePathKey) fs.

Definition hopRefs (h : Hop) : list FindingRef := hop_Changed h ++ hop_Carried h.

(** Where each finding is listed in full, and under which key. *)
Definition listings (hops : list Hop) : list (Version * string) :=
  flat_map (fun h => map (fun f => (hop_To h, findingKey f)) (hop_Findings h)) hops.

(** What the loop over a report's findings has built after [done_], from
    the listing [listed]. *)
Record hop_inv (target : Version) (listed : listing) (done_ : list Finding) (st : hopState) : Prop := {
  hi_keys : map findingKey (planned done_) ≡ₚ
    map findingKey (hs_findings st) ++ map fr_Key (hs_changed st ++ hs_carried st);
  hi_new : NoDup (map findingKey (hs_findings st));
  hi_fresh f : f ∈ hs_findings st -> f ∈ done_ /\ listed !! findingKey f = None;
  hi_listed key since sev : hs_listed st !! key = Some (since, sev) ->
    (exists sev', listed !! key = Some (since, sev')) \/
    (since = target /\ key ∈ map findingKey (hs_findings st));
  hi_kept key : is_Some (listed !! key) \/ key ∈ map findingKey (hs_findings st) -> is_Some (hs_listed st !! key);
  hi_refs ref : ref ∈ hs_changed st ++ hs_carried st ->
    (exists sev, listed !! fr_Key ref = Some (fr_Since ref, sev)) \/
    (fr_Since ref = target /\ fr_Key ref ∈ map findingKey (hs_findings st));
  hi_changed ref : ref ∈ hs_changed st -> fr_Was ref <> fr_Severity ref;
}.

(** A finding seen before becomes a reference. *)
Lemma hop_inv_ref target listed done_ st f since sev (changed carried : list FindingRef) :
  hop_inv target listed done_ st -> findingKey f <> upgradePathKey ->
  hs_listed st !! findingKey f = Some (since, sev) ->
  changed ++ carried ≡ₚ hs_changed st ++ hs_carried st ++
    [mkFindingRef (findingKey f) (f_Severity f) (if sev =s f_Severity f then "" else sev) (f_Title f) since] ->
  (forall ref, ref ∈ changed -> fr_Was ref <> fr_Severity ref) ->
  hop_inv target listed (done_ ++ [f])
    (mkHopState (hs_findings st) changed carried (<[findingKey f := (since, f_Severity f)]> (hs_listed st))).
Proof.
  intros [Hk Hn Hf Hl Hkept Hr Hc] Hp Hs Hperm Hch. split; simpl.
  - unfold planned in *. rewrite filter_app, filter_cons_True, filter_nil, map_app, Hk by done. simpl.
    rewrite <- app_assoc. f_equiv. change (map fr_Key ?l) with (fr_Key <$> l). rewrite Hperm.
    rewrite !fmap_app. simpl. by rewrite app_assoc.
  - done.
  - intros g Hg. apply Hf in Hg as [? ?]. split; [rewrite elem_of_app; by left|done].
  - intros key since' sev'. rewrite lookup_insert. case_decide as E; [|apply Hl].
    intros [= <- _]. subst key. by apply (Hl _ _ sev).
  - intros key Hkey. rewrite lookup_insert. case_decide; [by eauto|]. by apply Hkept.
  - intros ref. rewrite Hperm, app_assoc. intros [Hin| ->%list_elem_of_singleton]%elem_of_app; [by apply Hr|].
    simpl. destruct (Hl _ _ _ Hs) as [?|?]; [left; eauto|by right].
  - done.
Qed.

Lemma hop_inv_step target listed done_ st f :
  hop_inv target listed done_ st -> hop_inv target listed (done_ ++ [f]) (hopFinding target st f).
Proof.
  intros Hinv. unfold hopFinding. cbv zeta.
  destruct (String.eqb_spec (findingKey f) upgradePathKey) as [Hp|Hp].
  { destruct Hinv as [Hk Hn Hf Hl Hkept Hr Hc]. split; try done.
    - unfold planned. rewrite filter_app, filter_cons_False, filter_nil, app_nil_r; [done|]. by intros [].
    - intros g Hg. apply Hf in Hg as [? ?]. split; [rewrite elem_of_app; by left|done]. }
  destruct (hs_listed st !! findingKey f) as [[since sev]|] eqn:Hs.
  - destruct (String.eqb_spec sev (f_Severity f)) as [Esev|Esev].
    + apply (hop_inv_ref target listed done_ st f since sev); try done.
      * rewrite (proj2 (String.eqb_eq _ _) Esev). by rewrite app_assoc.
      * apply (hi_changed _ _ _ _ Hinv).
    + apply (hop_inv_ref target listed done_ st f since sev); try done.
      * rewrite (proj2 (String.eqb_neq _ _) Esev). rewrite <- app_assoc. f_equiv. apply Permutation_app_comm.
      * intros ref [Hin| ->%list_elem_of_singleton]%elem_of_app; [by apply (hi_changed _ _ _ _ Hinv)|done].
  - destruct Hinv as [Hk Hn Hf Hl Hkept Hr Hc].
    assert (Hnew : findingKey f ∉ map findingKey (hs_findings st) /\ listed !! findingKey f = None).
    { split.
      - intros Hin. destruct (Hkept (findingKey f)) as [? ?]; [by right|]. congruence.
      - destruct (listed !! findingKey f) eqn:E; [|done]. destruct (Hkept (findingKey f)) as [? ?]; [left; eauto|]. congruence. }
    destruct Hnew as [Hnew1 Hnew2]. split; simpl.
    + unfold planned in *. rewrite filter_app, filter_cons_True, filter_nil, map_app, Hk by done.
      rewrite (map_app findingKey (hs_findings st)), <- !app_assoc. f_equiv. apply Permutation_app_comm.
    + rewrite map_app. apply NoDup_app. split_and!; [done| |apply NoDup_singleton].
      intros x Hx ->%list_elem_of_singleton. done.
    + intros g [Hg| ->%list_elem_of_singleton]%elem_of_app.
      * apply Hf in Hg as [? ?]. split; [rewrite elem_of_app; by left|done].
      * split; [rewrite elem_of_app; right; by left|done].
    + intros key since sev. rewrite lookup_insert, map_app, elem_of_app. case_decide as E.
      * intros [= <- _]. subst key. right. split; [done|]. right. by left.
      * intros H. apply Hl in H as [?|[? ?]]; auto.
    + intros key. rewrite lookup_insert, map_app, elem_of_app. case_decide as E; [by eauto|].
      intros [?|[?|H%list_elem_of_singleton]]; [by apply Hkept; left|by apply Hkept; right|by subst].
    + intros ref Hin. rewrite map_app, elem_of_app. destruct (Hr ref Hin) as [?|[? ?]]; auto.
    + done.
Qed.

Lemma hop_inv_fold target listed fs :
  hop_inv target listed fs (foldl (hopFinding target) (mkHopState [] [] [] listed) fs).
Proof.
  induction fs as [|f fs IH] using rev_ind; [|rewrite foldl_snoc; by apply hop_inv_step].
  split; simpl; try done.
  - apply NoDup_nil_2.
  - by intros ? ?%elem_of_nil.
  - intros key since sev E. left. eauto.
  - intros key [?|?%elem_of_nil]; done.
  - by intros ? ?%elem_of_nil.
  - by intros ? ?%elem_of_nil.
Qed.

(** What a hop says of its report. *)
Definition hop_of (r : Report) (h : Hop) : Prop :=
  hop_To h = r_Target r /\ hop_Score h = r_Score r /\ hop_Verdict h = r_Verdict r /\
  hop_NotAssessed h = r_NotAssessed r /\
  map findingKey (planned (r_Findings r)) ≡ₚ map findingKey (hop_Findings h) ++ map fr_Key (hopRefs h) /\
  (forall ref, ref ∈ hop_Changed h -> fr_Was ref <> fr_Severity ref).

(** A listing of what earlier hops listed. *)
Definition lists (listed : listing) (acc : list (Version * string)) : Prop :=
  (forall key since sev, listed !! key = Some (since, sev) -> (since, key) ∈ acc) /\
  (forall p, p ∈ acc -> is_Some (listed !! p.2)).

Lemma planFrom_spec reports : forall from listed acc,
  lists listed acc ->
  let hops := planFrom from listed reports in
  Forall2 hop_of reports hops /\
  NoDup (map snd (listings hops)) /\ (forall p, p ∈ listings hops -> listed !! p.2 = None) /\
  (forall h ref, h ∈ hops -> ref ∈ hopRefs h -> (fr_Since ref, fr_Key ref) ∈ acc ++ listings hops).
Proof.
  induction reports as [|r reports IH]; intros from listed acc Hacc; cbn [planFrom].
  { split_and!; [constructor|apply NoDup_nil_2|by intros ? ?%elem_of_nil|by intros ? ? ?%elem_of_nil]. }
  unfold hopReport. cbv zeta. pose proof (hop_inv_fold (r_Target r) listed (r_Findings r)) as Hi.
  set (st := foldl _ _ _) in *. destruct Hi as [Hk Hn Hf Hl Hkept Hr Hc].
  set (h := mkHop _ _ _ _ _ _ _ _).
  assert (Hmap : forall p, p ∈ map (fun f => (r_Target r, findingKey f)) (hs_findings st) ->
    p.1 = r_Target r /\ p.2 ∈ map findingKey (hs_findings st)).
  { intros p Hp%list_elem_of_In. apply in_map_iff in Hp as (f & <- & Hin). split; [done|].
    simpl. by apply list_elem_of_In, in_map. }
  assert (Hpam : forall key, key ∈ map findingKey (hs_findings st) ->
    (r_Target r, key) ∈ map (fun f => (r_Target r, findingKey f)) (hs_findings st)).
  { intros key Hin%list_elem_of_In. apply in_map_iff in Hin as (f & <- & Hin).
    apply list_elem_of_In, in_map_iff. eauto. }
  destruct (IH (r_Target r) (hs_listed st) (acc ++ map (fun f => (r_Target r, findingKey f)) (hs_findings st)))
    as (H2 & Hnd & Hnone & Href).
  { destruct Hacc as [Ha1 Ha2]. split.
    - intros key since sev E. rewrite elem_of_app. destruct (Hl _ _ _ E) as [[sev' E']|[-> Hin]]; [by left; eapply Ha1|].
      right. by apply Hpam.
    - intros p [Hp|Hp]%elem_of_app; apply Hkept; [left; by apply Ha2|right; by apply Hmap]. }
  assert (Hlist : listings (h :: planFrom (r_Target r) (hs_listed st) reports) =
    map (fun f => (r_Target r, findingKey f)) (hs_findings st) ++ listings (planFrom (r_Target r) (hs_listed st) reports)) by done.
  split_and!.
  - constructor; [|done]. by split_and!.
  - rewrite Hlist, map_app, map_map. apply NoDup_app. split_and!; [done| |done].
    intros key Hin Hin'%list_elem_of_In. apply in_map_iff in Hin' as (p & <- & Hp%list_elem_of_In).
    apply Hnone in Hp. destruct (Hkept p.2) as [? ?]; [by right|]. congruence.
  - rewrite Hlist. intros p [Hp|Hp]%elem_of_app.
    + apply Hmap in Hp as [_ Hp%list_elem_of_In]. apply in_map_iff in Hp as (f & <- & Hin%list_elem_of_In). by apply Hf.
    + destruct (listed !! p.2) eqn:E; [|done]. destruct (Hkept p.2) as [? ?]; [left; eauto|].
      apply Hnone in Hp. congruence.
  - intros h' ref Hh Hin. rewrite Hlist, app_assoc. apply elem_of_cons in Hh as [->|Hh]; [|by eapply Href].
    rewrite elem_of_app. left. rewrite elem_of_app. destruct (Hr ref Hin) as [[sev E]|[-> Hin']].
    + left. by eapply (proj1 Hacc).
    + right. by apply Hpam.
Qed.

(** A plan lists each finding in full exactly once: no key is listed by
    two hops; each hop accounts for every finding of its report, the upgrade
    path apart, in full or by reference, with the report's score, verdict
    and gaps; and every reference names the hop that lists its finding. *)
Lemma PlanReports_once (from : Version) (reports : list Report) :
  let hops := PlanReports from reports in
  NoDup (map snd (listings hops)) /\ Forall2 hop_of reports hops /\
  (forall h ref, h ∈ hops -> ref ∈ hopRefs h -> (fr_Since ref, fr_Key ref) ∈ listings hops).
Proof.
  cbv zeta. unfold PlanReports. destruct (planFrom_spec reports from ∅ []) as (H1 & H2 & _ & H3); [|done].
  split; [by intros ? ? ? ?|by intros ? ?%elem_of_nil].
Qed.
