(* ===== verification/Glob.v ===== *)
(** * Globs (path.Match, path.Clean, path.Join of Go's standard library)

    What internal/suppress matches namespaces, names and files with. The
    loops of path.Match consume their pattern, so its length bounds their
    turns; a pattern is refused, not read past its end. *)

From stdpp Require Import base list strings gmap.
From Stdlib Require Import ZArith Lia Ascii.
From S2P Require Import Prelude GoStr.

(** ** Runes *)

Definition code (a : ascii) : Z := Z.of_N (N_of_ascii a).

Definition RuneError : Z := 65533.

Definition within (lo hi z : Z) : bool := (lo <=? z) && (z <=? hi).

Fixpoint dropS (n : nat) (s : string) : string :=
  match n, s with
  | O, _ => s
  | S n', String _ s' => dropS n' s'
  | S _, ""%string => ""%string
  end.

(** [utf8.DecodeRuneInString]: the first rune and its width. *)
Definition DecodeRune (s : string) : Z * nat :=
  match s with
  | ""%string => (RuneError, O)
  | String a r =>
      let b0 := code a in
      let cont (lo hi : Z) (k : Z -> Z * nat) (bs : string) :=
        match bs with
        | String b _ => if within lo hi (code b) then k (code b) else (RuneError, 1%nat)
        | ""%string => (RuneError, 1%nat)
        end in
      let low z := Z.land z 63 in
      if b0 <? 128 then (b0, 1%nat)
      else if within 194 223 b0 then cont 128 191 (fun b1 => (Z.land b0 31 * 64 + low b1, 2%nat)) r
      else if within 224 239 b0 then
        let lo := if b0 =? 224 then 160 else 128 in
        let hi := if b0 =? 237 then 159 else 191 in
        cont lo hi (fun b1 => cont 128 191 (fun b2 =>
          (Z.land b0 15 * 4096 + low b1 * 64 + low b2, 3%nat)) (dropS 1 r)) r
      else if within 240 244 b0 then
        let lo := if b0 =? 240 then 144 else 128 in
        let hi := if b0 =? 244 then 143 else 191 in
        cont lo hi (fun b1 => cont 128 191 (fun b2 => cont 128 191 (fun b3 =>
          (Z.land b0 7 * 262144 + low b1 * 4096 + low b2 * 64 + low b3, 4%nat)) (dropS 2 r)) (dropS 1 r)) r
      else (RuneError, 1%nat)
  end.

(** ** path.Match *)

(** [getEsc]: a rune of a class, escaped or not; [None] is ErrBadPattern. *)
Definition getEsc (chunk : string) : option (Z * string) :=
  let decode chunk :=
    let '(r, n) := DecodeRune chunk in
    let nchunk := dropS n chunk in
    if ((r =? RuneError) && (n =? 1)%nat) || (nchunk =s "") then None else Some (r, nchunk) in
  match chunk with
  | ""%string => None
  | String a rest =>
      if Ascii.eqb a "-" || Ascii.eqb a "]" then None
      else if Ascii.eqb a "\" then (if rest =s "" then None else decode rest)
      else decode chunk
  end.

(** The ranges of a class, up to its "]": whether one holds [r], and what
    follows. *)
Fixpoint matchRanges (fuel : nat) (r : Z) (matched : bool) (nrange : nat) (chunk : string)
    : option (bool * string) :=
  match fuel with
  | O => None
  | S n =>
      match (match chunk with String "]" rest => if (0 <? nrange)%nat then Some rest else None | _ => None end) with
      | Some rest => Some (matched, rest)
      | None =>
          match getEsc chunk with
          | None => None
          | Some (lo, chunk) =>
              match chunk with
              | String "-" rest =>
                  match getEsc rest with
                  | None => None
                  | Some (hi, chunk) => matchRanges n r (matched || within lo hi r) (S nrange) chunk
                  end
              | _ => matchRanges n r (matched || within lo lo r) (S nrange) chunk
              end
          end
      end
  end.

(** [matchChunk]: [None] is ErrBadPattern, [Some None] no match, and
    [Some (Some rest)] a match that leaves [rest]. *)
Fixpoint matchChunk (fuel : nat) (failed : bool) (chunk s : string) : option (option string) :=
  match chunk with
  | ""%string => Some (if failed then None else Some s)
  | String a rest =>
      match fuel with
      | O => None
      | S n =>
          let failed := failed || (s =s "") in
          let literal c rest :=
            let failed' := match s with String b _ => negb (Ascii.eqb c b) | ""%string => false end in
            matchChunk n (failed || failed') rest (if failed then s else dropS 1 s) in
          if Ascii.eqb a "[" then
            let '(r, w) := DecodeRune s in
            let '(r, s) := if failed then (0, s) else (r, dropS w s) in
            let '(negated, rest) := match rest with String "^" rest' => (true, rest') | _ => (false, rest) end in
            match matchRanges n r false O rest with
            | None => None
            | Some (matched, rest) => matchChunk n (failed || Bool.eqb matched negated) rest s
            end
          else if Ascii.eqb a "?" then
            let slash := match s with String "/" _ => true | _ => false end in
            matchChunk n (failed || slash) rest (if failed then s else dropS (DecodeRune s).2 s)
          else if Ascii.eqb a "\" then
            match rest with
            | ""%string => None
            | String c rest => literal c rest
            end
          else literal a rest
      end
  end.

Definition chunkMatch (chunk s : string) : option (option string) :=
  matchChunk (S (String.length chunk)) false chunk s.

(** The chunk up to the next "*" outside a class, and what follows. *)
Fixpoint scanBody (inrange : bool) (pattern : string) : string * string :=
  match pattern with
  | ""%string => (""%string, ""%string)
  | String a rest =>
      if Ascii.eqb a "\" then
        match rest with
        | ""%string => (pattern, ""%string)
        | String b rest' => let '(c, r) := scanBody inrange rest' in (String a (String b c), r)
        end
      else if Ascii.eqb a "*" && negb inrange then (""%string, pattern)
      else
        let inrange := if Ascii.eqb a "[" then true else if Ascii.eqb a "]" then false else inrange in
        let '(c, r) := scanBody inrange rest in (String a c, r)
  end.

Fixpoint dropStars (pattern : string) : bool * string :=
  match pattern with
  | String "*" rest => (true, (dropStars rest).2)
  | _ => (false, pattern)
  end.

(** [scanChunk]: star, chunk, rest. *)
Definition scanChunk (pattern : string) : bool * string * string :=
  let '(star, pattern) := dropStars pattern in
  let '(chunk, rest) := scanBody false pattern in
  (star, chunk, rest).

(** Whether the rest of a pattern is well formed. *)
Fixpoint wellFormed (fuel : nat) (pattern : string) : bool :=
  match pattern, fuel with
  | ""%string, _ => true
  | _, O => false
  | _, S n =>
      let '(_, chunk, rest) := scanChunk pattern in
      match chunkMatch chunk "" with
      | None => false
      | Some _ => wellFormed n rest
      end
  end.

(** The search after a star: the first place, at least one byte on, where
    the chunk matches and the name is used up if the pattern is. *)
Fixpoint skipMatch (chunk : string) (lastChunk : bool) (name : string) : option (option string) :=
  match name with
  | ""%string => Some None
  | String a rest =>
      if Ascii.eqb a "/" then Some None
      else match chunkMatch chunk rest with
           | None => None
           | Some (Some t) => if lastChunk && negb (t =s "") then skipMatch chunk lastChunk rest else Some (Some t)
           | Some None => skipMatch chunk lastChunk rest
           end
  end.

(** [path.Match]: [None] is ErrBadPattern. *)
Fixpoint pathMatch (fuel : nat) (pattern name : string) : option bool :=
  match pattern, fuel with
  | ""%string, _ => Some (name =s "")
  | _, O => None
  | _, S n =>
      let '(star, chunk, rest) := scanChunk pattern in
      let lastChunk := rest =s "" in
      let fail := if wellFormed (S (String.length rest)) rest then Some false else None in
      if star && (chunk =s "") then Some (negb (Contains name "/"))
      else
        match chunkMatch chunk name with
        | None => None
        | Some first =>
            match (match first with
                   | Some t => if (t =s "") || negb lastChunk then Some t else None
                   | None => None
                   end) with
            | Some t => pathMatch n rest t
            | None =>
                if star then
                  match skipMatch chunk lastChunk name with
                  | None => None
                  | Some (Some t) => pathMatch n rest t
                  | Some None => fail
                  end
                else fail
            end
        end
  end.

Definition Match (pattern name : string) : option bool := pathMatch (S (String.length pattern)) pattern name.

(** ** path.Clean and path.Join *)

(** The segments kept, last first. *)
Definition cleanStep (rooted : bool) (acc : list string) (seg : string) : list string :=
  if (seg =s "") || (seg =s ".") then acc
  else if seg =s ".." then
    match acc with
    | [] => if rooted then [] else [".."%string]
    | x :: acc' => if x =s ".." then ".."%string :: acc else acc'
    end
  else seg :: acc.

Definition Clean (p : string) : string :=
  if p =s "" then "." else
  let rooted := HasPrefix p "/" in
  let body := Join (rev (foldl (cleanStep rooted) [] (Split p "/"))) "/" in
  if rooted then "/" +:+ body else if body =s "" then "." else body.

Definition Join2 (a b : string) : string :=
  if a =s "" then (if b =s "" then "" else Clean b)
  else if b =s "" then Clean a else Clean (a +:+ "/" +:+ b).

Example match_star : Match "web-*" "web-7f" = Some true. Proof. reflexivity. Qed.
Example match_slash : Match "a*" "a/b" = Some false. Proof. reflexivity. Qed.
Example match_class : Match "[a-c]?[^x]" "bzy" = Some true. Proof. reflexivity. Qed.
Example match_bad : Match "a[" "b" = None. Proof. reflexivity. Qed.
Example match_mid : Match "a*b*c" "axxbyybzc" = Some true. Proof. reflexivity. Qed.
Example clean_up : Clean "a/../../b//c/." = "../b/c"%string. Proof. reflexivity. Qed.

(** ** Properties *)

(** A byte with no meaning in a pattern. *)
Definition plain_byte (a : ascii) : bool :=
  negb (Ascii.eqb a "*" || Ascii.eqb a "?" || Ascii.eqb a "[" || Ascii.eqb a "\").

Fixpoint plain (s : string) : bool :=
  match s with
  | ""%string => true
  | String a s' => plain_byte a && plain s'
  end.

Lemma plain_byte_spec a : plain_byte a = true ->
  Ascii.eqb a "*" = false /\ Ascii.eqb a "?" = false /\ Ascii.eqb a "[" = false /\ Ascii.eqb a "\" = false.
Proof. unfold plain_byte. intros H. to_prop. auto. Qed.

Lemma scanBody_plain b s : plain s = true -> scanBody b s = (s, ""%string).
Proof.
  revert b. induction s as [|a s IH]; intros b Hs; [done|]. cbn [plain] in Hs. apply andb_true_iff in Hs as [Ha Hs].
  destruct (plain_byte_spec a Ha) as (E1 & E2 & E3 & E4). cbn [scanBody]. rewrite E4, E1, E3. simpl.
  by rewrite IH.
Qed.

Lemma matchChunk_plain fuel chunk s failed :
  plain chunk = true -> (String.length chunk < fuel)%nat ->
  matchChunk fuel failed chunk s =
  Some (if failed then None else if HasPrefix s chunk then Some (drop_len s chunk) else None).
Proof.
  revert fuel s failed. induction chunk as [|a chunk IH]; intros fuel s failed Hp Hf.
  { destruct fuel; simpl; by destruct failed, s. }
  cbn [plain] in Hp. apply andb_true_iff in Hp as [Ha Hp].
  destruct (plain_byte_spec a Ha) as (E1 & E2 & E3 & E4). simpl in Hf. destruct fuel as [|fuel]; [lia|].
  cbn [matchChunk]. rewrite E3, E2, E4, IH by (done || lia).
  destruct s as [|b s]; cbn [HasPrefix drop_len dropS]; destruct failed; simpl; try done.
  by destruct (Ascii.eqb a b).
Qed.

Lemma plain_scan s : plain s = true -> scanChunk s = (false, s, ""%string).
Proof.
  intros Hs. unfold scanChunk.
  assert (E : dropStars s = (false, s)).
  { destruct s as [|a s]; [done|]. cbn [plain] in Hs. apply andb_true_iff in Hs as [Ha _].
    destruct (plain_byte_spec a Ha) as (E & _). cbn [dropStars].
    destruct a as [[] [] [] [] [] [] [] []]; done. }
  rewrite E. by rewrite scanBody_plain.
Qed.

(** A pattern without metacharacters matches its own text and nothing
    else. *)
Lemma Match_plain pattern name :
  plain pattern = true -> Match pattern name = Some (pattern =s name).
Proof.
  intros Hp. unfold Match. destruct pattern as [|a p]; [by destruct name|].
  cbn [pathMatch]. rewrite plain_scan by done. cbv beta iota zeta. simpl andb. cbv iota.
  unfold chunkMatch. rewrite matchChunk_plain by (done || lia). change ("" =s "") with true. cbn [negb].
  destruct (HasPrefix name (String a p)) eqn:Hpre.
  - pose proof (HasPrefix_split _ _ Hpre) as E. rewrite orb_false_r.
    destruct (drop_len name (String a p)) as [|b t] eqn:Et.
    + rewrite app_nil_r_s in E. subst name. by rewrite (String.eqb_refl (String a p)).
    + replace (String a p =s name) with false; [done|]. symmetry. apply String.eqb_neq. intros E'. rewrite <- E' in E.
      apply (f_equal slen) in E. rewrite slen_app in E. unfold slen in E. simpl in E. lia.
  - replace (String a p =s name) with false; [done|]. symmetry. apply String.eqb_neq. intros <-.
    rewrite <- (app_nil_r_s (String a p)), HasPrefix_app in Hpre at 1. done.
Qed.
