(* ===== verification/TextSafe.v ===== *)
(** * Text for a terminal: internal/textsafe/textsafe.go

    What a scanned manifest or cluster controls is printed with its control
    and direction characters written out. *)

From stdpp Require Import base list strings gmap.
From Stdlib Require Import ZArith Lia Ascii.
From S2P Require Import Prelude GoStr Glob.

Definition Unsafe (r : Z) : bool :=
  (r <? 0x20) || (r =? 0x7f) || within 0x80 0x9f r ||
  (r =? 0x061c) || (r =? 0x200e) || (r =? 0x200f) || (r =? 0x2028) || (r =? 0x2029) ||
  within 0x202a 0x202e r || within 0x2066 0x2069 r.

(** [fmt]'s [%02x] of a byte and [%04x] of a rune below 2^16. *)
Definition hexDigits2 (n : Z) : string :=
  String (hex (Z.to_N (n / 16))) (String (hex (Z.to_N (n mod 16))) "").

Definition hexDigits4 (n : Z) : string := hexDigits2 (n / 256) +:+ hexDigits2 (n mod 256).

Definition backslash (s : string) : string := String "092" s.

(** What the loop writes of the rune [r] of [n] bytes at the front of [s]. *)
Definition escapeRune (s : string) : string * nat :=
  let '(r, n) := DecodeRune s in
  let written :=
    if (r =? RuneError) && (n =? 1)%nat then
      backslash ("x" +:+ hexDigits2 (match s with String a _ => code a | ""%string => 0 end))
    else if r =? 10 then backslash "n"
    else if r =? 13 then backslash "r"
    else if r =? 9 then backslash "t"
    else if Unsafe r && (r <? 0x80) then backslash ("x" +:+ hexDigits2 r)
    else if Unsafe r then backslash ("u" +:+ hexDigits4 r)
    else String.substring 0 n s in
  (written, n).

(** The loops; the bytes left bound the turns, as a rune takes one or
    more. *)
Fixpoint escapeFrom (fuel : nat) (s : string) : string :=
  match fuel, s with
  | S fuel', String _ _ => let '(w, n) := escapeRune s in w +:+ escapeFrom fuel' (dropS n s)
  | _, _ => ""
  end.

Fixpoint cleanFrom (fuel : nat) (s : string) : bool :=
  match fuel, s with
  | S fuel', String _ _ =>
      let '(r, n) := DecodeRune s in
      if ((r =? RuneError) && (n =? 1)%nat) || Unsafe r then false else cleanFrom fuel' (dropS n s)
  | _, _ => true
  end.

Definition Escape (s : string) : string :=
  if cleanFrom (String.length s) s then s else escapeFrom (String.length s) s.

Example escape_esc : Escape (String "a" (String "027" "[2Jb")) = "a\x1b[2Jb"%string. Proof. reflexivity. Qed.
Example escape_stray : Escape (bytes [97; 255; 98]%N) = "a\xffb"%string. Proof. reflexivity. Qed.
Example escape_rlo : Escape (bytes [110; 226; 128; 174; 97]%N) = "n\u202ea"%string. Proof. reflexivity. Qed.

(** ** What is printed is safe *)

Lemma decode_bounds s r n : DecodeRune s = (r, n) -> s <> ""%string -> (1 <= n <= String.length s)%nat.
Proof.
  destruct s as [|a [|b [|c [|d s]]]]; [done| | | |]; intros H _; unfold DecodeRune in H; cbn [dropS] in H;
    repeat case_match; simplify_eq; cbn [String.length]; lia.
Qed.

Lemma dropS_length n s : String.length (dropS n s) = (String.length s - n)%nat.
Proof. revert s. induction n as [|n IH]; intros [|a s]; cbn; [done..|apply IH]. Qed.

(** A whole rune reads the same before any text. *)
Lemma decode_app s r n t :
  DecodeRune s = (r, n) -> s <> ""%string -> (r =? RuneError) && (n =? 1)%nat = false ->
  DecodeRune (String.substring 0 n s +:+ t) = (r, n) /\ dropS n (String.substring 0 n s +:+ t) = t.
Proof.
  destruct s as [|a [|b [|c [|d s]]]]; [done| | | |]; intros H _ He; unfold DecodeRune in H; cbn [dropS] in H;
    repeat (case_match; simplify_eq; try done); unfold DecodeRune; cbn [String.substring]; rewrite ?app_cons_s, ?app_nil_s; cbn [dropS];
    repeat match goal with E : ?x = true |- _ => rewrite E | E : ?x = false |- _ => rewrite E end; by try destruct s.
Qed.

Lemma cleanFrom_enough f f' s : (String.length s <= f)%nat -> (String.length s <= f')%nat -> cleanFrom f s = cleanFrom f' s.
Proof.
  revert f' s. induction f as [|f IH]; intros [|f'] [|a s] Hf Hf'; cbn [String.length] in *; try done; try lia.
  cbn [cleanFrom]. destruct (DecodeRune (String a s)) as [r n] eqn:E. case_match; [done|].
  apply decode_bounds in E as [H1 H2]; [|done]. apply IH; rewrite dropS_length; cbn [String.length] in *; lia.
Qed.

Definition clean (s : string) : bool := cleanFrom (String.length s) s.

Definition plainByte (a : ascii) : bool := within 0x20 0x7e (code a).

Fixpoint plainBytes (s : string) : bool :=
  match s with ""%string => true | String a s' => plainByte a && plainBytes s' end.

Lemma clean_plain w t : plainBytes w = true -> clean t = true -> clean (w +:+ t) = true.
Proof.
  intros Hw Ht. induction w as [|a w IH]; [done|]. cbn [plainBytes] in Hw. apply andb_true_iff in Hw as [Ha Hw].
  unfold plainByte, within in Ha. rewrite app_cons_s. unfold clean. cbn [String.length cleanFrom].
  assert (DecodeRune (String a (w +:+ t)) = (code a, 1%nat)) as ->
    by (unfold DecodeRune; by assert (code a <? 128 = true) as -> by lia).
  assert ((code a =? RuneError) && (1 =? 1)%nat || Unsafe (code a) = false) as -> by (unfold Unsafe, within, RuneError; lia).
  by apply IH.
Qed.

Lemma clean_rune s r n t :
  DecodeRune s = (r, n) -> s <> ""%string -> (r =? RuneError) && (n =? 1)%nat = false -> Unsafe r = false ->
  clean t = true -> clean (String.substring 0 n s +:+ t) = true.
Proof.
  intros H Hs He Hu Ht. destruct (decode_app s r n t H Hs He) as [Ed Edrop]. destruct (decode_bounds s r n H Hs) as [H1 H2].
  unfold clean. destruct (String.substring 0 n s +:+ t) as [|a x] eqn:Ex.
  { destruct s; [done|]. destruct n; [lia|done]. }
  cbn [String.length cleanFrom]. rewrite Ed, He, Hu. cbn [orb]. rewrite Edrop.
  rewrite (cleanFrom_enough _ (String.length t)); [done| |done].
  rewrite <- Edrop, dropS_length. cbn [String.length]. lia.
Qed.

Lemma byte_range a : 0 <= code a < 256.
Proof. unfold code. pose proof (N_ascii_bounded a). lia. Qed.

Lemma hexDigits2_plain n : 0 <= n < 256 -> plainBytes (hexDigits2 n) = true.
Proof.
  intros Hn. assert (Hh : forall d, 0 <= d < 16 -> plainByte (hex (Z.to_N d)) = true).
  { intros d Hd. assert (In d (map Z.of_nat (seq 0 16))) as Hin by (apply in_map_iff; exists (Z.to_nat d); split; [lia|apply in_seq; lia]).
    clear Hd. revert d Hin. apply List.Forall_forall. by repeat constructor. }
  unfold hexDigits2. cbn [plainBytes]. rewrite !Hh; [done| |]; [apply Z.mod_pos_bound; lia|].
  split; [apply Z.div_pos; lia|apply Z.div_lt_upper_bound; lia].
Qed.

Lemma plainBytes_app s t : plainBytes (s +:+ t) = plainBytes s && plainBytes t.
Proof. induction s as [|a s IH]; [done|]. rewrite app_cons_s. cbn [plainBytes]. rewrite IH. apply andb_assoc. Qed.

Lemma unsafe_range r : 0 <= r -> Unsafe r = true -> 0 <= r < 65536.
Proof. unfold Unsafe, within. lia. Qed.

Lemma decode_nonneg s r n : DecodeRune s = (r, n) -> 0 <= r.
Proof.
  assert (Hl : forall a m, 0 <= Z.land (code a) m) by (intros; apply Z.land_nonneg; left; apply byte_range).
  destruct s as [|a [|b [|c [|d s]]]]; intros H; unfold DecodeRune in H; cbn [dropS] in H;
    repeat case_match; simplify_eq; unfold RuneError; try (apply byte_range || lia);
    repeat (apply Z.add_nonneg_nonneg || apply Z.mul_nonneg_nonneg); (apply Hl || lia).
Qed.

Lemma escapeRune_clean a s t :
  clean t = true -> clean ((escapeRune (String a s)).1 +:+ t) = true.
Proof.
  intros Ht. unfold escapeRune. destruct (DecodeRune (String a s)) as [r n] eqn:E. cbn [fst].
  destruct ((r =? RuneError) && (n =? 1)%nat) eqn:Ee.
  { apply clean_plain; [|done]. rewrite ?app_cons_s, ?app_nil_s; cbn [plainBytes backslash]. by rewrite hexDigits2_plain by apply byte_range. }
  do 3 (case_match; [by apply clean_plain|]).
  destruct (Unsafe r) eqn:Eu; cbn [andb]; [|by eapply clean_rune].
  apply unsafe_range in Eu; [|by eapply decode_nonneg].
  case_match; apply clean_plain; try done; rewrite ?app_cons_s, ?app_nil_s; cbn [plainBytes backslash].
  - by rewrite hexDigits2_plain by lia.
  - unfold hexDigits4. rewrite plainBytes_app, !hexDigits2_plain; [done| |];
      [apply Z.mod_pos_bound; lia|split; [apply Z.div_pos; lia|apply Z.div_lt_upper_bound; lia]].
Qed.

Lemma escapeFrom_clean f s : clean (escapeFrom f s) = true.
Proof.
  revert s. induction f as [|f IH]; intros [|a s]; try done. cbn [escapeFrom].
  pose proof (escapeRune_clean a s (escapeFrom f (dropS (escapeRune (String a s)).2 (String a s))) (IH _)) as H.
  by destruct (escapeRune (String a s)).
Qed.

(** ** What is safe, by Unicode *)

(** The characters with the Bidi_Control property. *)
Definition bidiControls : list Z :=
  [0x061c; 0x200e; 0x200f; 0x202a; 0x202b; 0x202c; 0x202d; 0x202e; 0x2066; 0x2067; 0x2068; 0x2069].

(** The controls (Cc), the direction controls, and the line and paragraph
    separators (Zl, Zp). *)
Definition drives (r : Z) : Prop := 0 <= r <= 0x1f \/ 0x7f <= r <= 0x9f \/ r ∈ bidiControls \/ r ∈ [0x2028; 0x2029].

(** Valid UTF-8 without such a character. *)
Inductive safeText : string -> Prop :=
  | safe_empty : safeText ""
  | safe_rune s r n : DecodeRune s = (r, n) -> s <> ""%string -> (r, n) <> (RuneError, 1%nat) -> ~ drives r ->
      safeText (dropS n s) -> safeText s.

Lemma Unsafe_drives r : 0 <= r -> Unsafe r = true <-> drives r.
Proof.
  intros Hr. unfold Unsafe, within, drives, bidiControls. repeat setoid_rewrite elem_of_cons. setoid_rewrite elem_of_nil.
  rewrite !orb_true_iff, !andb_true_iff. lia.
Qed.

Lemma undecoded_spec r n : (r =? RuneError) && (n =? 1)%nat = false <-> (r, n) <> (RuneError, 1%nat).
Proof. rewrite <- not_true_iff_false, andb_true_iff, Z.eqb_eq, Nat.eqb_eq. split; intros H E; apply H; [by injection E|by destruct E as [-> ->]]. Qed.

Lemma clean_safe s : clean s = true <-> safeText s.
Proof.
  split.
  - unfold clean. remember (String.length s) as f eqn:Ef. assert (String.length s <= f)%nat as Hf by lia. clear Ef.
    revert s Hf. induction f as [|f IH]; intros [|a s] Hf Hc; try constructor; cbn [String.length] in Hf; [lia|].
    cbn [cleanFrom] in Hc. destruct (DecodeRune (String a s)) as [r n] eqn:E. pose proof (decode_nonneg _ _ _ E) as Hr.
    destruct ((r =? RuneError) && (n =? 1)%nat) eqn:Ee; [done|]. destruct (Unsafe r) eqn:Eu; [done|].
    apply (safe_rune _ r n); [done|done|by apply undecoded_spec|by rewrite <- Unsafe_drives, Eu|].
    apply decode_bounds in E as [H1 H2]; [|done]. apply IH; [rewrite dropS_length; cbn [String.length]; lia|done].
  - induction 1 as [|s r n E Hs He Hd _ IH]; [done|]. pose proof (decode_nonneg _ _ _ E) as Hr.
    destruct s as [|a s]; [done|]. unfold clean. cbn [String.length cleanFrom]. rewrite E.
    apply undecoded_spec in He as ->. rewrite <- Unsafe_drives, not_true_iff_false in Hd by done. rewrite Hd. cbn [orb].
    apply decode_bounds in E as [H1 H2]; [|done]. rewrite <- IH. apply cleanFrom_enough; [rewrite dropS_length; cbn [String.length] in *; lia|done].
Qed.

(** Nothing a manifest or a cluster holds can drive the terminal it is
    printed on: whatever the bytes of a text, its escape is valid UTF-8 in
    which no control character, direction control, or line or paragraph
    separator of Unicode is left; and the texts that are such already, and
    no others, are printed as they are. *)
Lemma Escape_safe (s : string) :
  safeText (Escape s) /\ (Escape s = s <-> safeText s).
Proof.
  assert (H : clean (Escape s) = true) by (unfold Escape; case_match; [done|apply escapeFrom_clean]).
  rewrite <- !clean_safe. split; [done|]. split; [by intros <-|]. intros Hc. unfold Escape. unfold clean in Hc. by rewrite Hc.
Qed.
