(* ===== verification/Suppress.v ===== *)
(** * Ignore rules and annotations (internal/suppress/suppress.go,
    internal/crd/apigroup/legacy.go)

    Rules and object annotations move findings, or single objects of a
    finding, into the report's suppressed list. *)

From stdpp Require Import base list strings gmap sorting.
From Stdlib Require Import ZArith Lia Ascii.
From S2P Require Import Prelude GoStr GoTime Version Inventory KB Findings Glob.

Definition AnnotationSource : string := "annotation".

Definition categories : list string := [
  CatRemovedAPI; CatDeprecatedAPI; CatDeprecatedAPIInUse;
  CatEOLAddon; CatEOLApproaching; CatVersionSkew;
  CatChartIncompat; CatKBStale; CatAddOnNoData;
  CatUnknownAPI; CatCRDVersion; CatSupportLifecycle; CatVolumePlugin].

(** ** Rules *)

Record Rule := mkRule {
  ru_Key : string;
  ru_Category : string;
  ru_Namespace : string;
  ru_Name : string;
  ru_File : string;
  ru_Reason : string;
  ru_Expires : string;
}.

(** The first selector of which a segment is no glob. *)
Definition badGlob (p : string * string) : bool :=
  existsb (fun seg => match Match seg "" with None => true | Some _ => false end) (Split p.2 "/").

Definition Validate (r : Rule) : res unit :=
  if (ru_Key r =s "") && (ru_Category r =s "") then Err "set key or category"
  else if negb (ru_Key r =s "") && negb (ru_Category r =s "") then Err "set only one of key and category"
  else if negb (ru_Category r =s "") && negb (mem_str (ru_Category r) categories) then
    Err ("unknown category " +:+ quote (ru_Category r))
  else
    let '(cat, _, _) := Cut (ru_Key r) "/" in
    if negb (ru_Key r =s "") && negb (mem_str cat categories) then
      Err ("key " +:+ quote (ru_Key r) +:+ " does not start with a finding category")
    else if TrimSpace (ru_Reason r) =s "" then Err "reason is required"
    else if negb (ru_Expires r =s "") && match ParseDate (ru_Expires r) with None => true | Some _ => false end then
      Err ("expires " +:+ quote (ru_Expires r) +:+ " is not a YYYY-MM-DD date")
    else
      match find badGlob [("namespace"%string, ru_Namespace r); ("name"%string, ru_Name r); ("file"%string, ru_File r)] with
      | Some (name, pattern) => Err ("invalid " +:+ name +:+ " glob " +:+ quote pattern)
      | None => Ok tt
      end.

Definition expired (r : Rule) (now : Time) : bool :=
  if ru_Expires r =s "" then false
  else match ParseDate (ru_Expires r) with
       | Some d => negb (Before now (d + day))
       | None => false
       end.

Definition ruleString (r : Rule) : string :=
  if ru_Key r =s "" then "category " +:+ ru_Category r else "key " +:+ ru_Key r.

Definition legacySupportKey (key : string) : bool :=
  match CutPrefix key (CatSupportLifecycle +:+ "/") with
  | None => false
  | Some rest => (Count rest "/" =? 1) && negb (HasPrefix rest "/") && negb (HasSuffix rest "/")
  end.

Record Options := mkOptions { op_Now : Time; op_Source : string; op_FileBase : string }.

(** ** Matching objects *)

Definition globMatch (pattern s : string) : bool := default false (Match pattern s).

Fixpoint suffixes {A} (l : list A) : list (list A) :=
  match l with [] => [[]] | _ :: l' => l :: suffixes l' end.

Fixpoint matchSegments (pattern segs : list string) : bool :=
  match pattern with
  | [] => match segs with [] => true | _ => false end
  | p :: ps =>
      if p =s "**" then existsb (matchSegments ps) (suffixes segs)
      else match segs with
           | [] => false
           | s :: ss => globMatch p s && matchSegments ps ss
           end
  end.

Definition matchFile (pattern name : string) : bool :=
  matchSegments (Split (Clean pattern) "/") (Split (Clean name) "/").

(** [Rule.matches]. *)
Definition ruleMatches (r : Rule) (fileBase : string) (o : ObjectRef) : bool :=
  if negb (ru_Namespace r =s "") && negb (globMatch (ru_Namespace r) (o_Namespace o)) then false
  else if negb (ru_Name r =s "") && negb (globMatch (ru_Name r) (o_Name o)) then false
  else if negb (ru_File r =s "") &&
          ((o_File o =s "") || negb (matchFile (ru_File r) (Join2 fileBase (o_File o)))) then false
  else true.

Definition annotated (o : ObjectRef) (f : Finding) : bool :=
  existsb (fun tok => let tok := TrimSpace tok in
             negb (tok =s "") && ((tok =s f_Category f) || (tok =s f_Key f))) (Split (o_Ignore o) ",").

(** [take]: the objects a predicate accepts, and the rest. *)
Definition takeObjects (objs : list ObjectRef) (p : ObjectRef -> bool) : list ObjectRef * list ObjectRef :=
  (filter (fun o => p o = true) objs, filter (fun o => p o = false) objs).

Definition allMatch (pattern : string) (names : list string) : bool :=
  forallb (globMatch pattern) names && match names with [] => false | _ => true end.

Definition objectName (o : ObjectRef) : string :=
  let name := if o_Name o =s "" then "(unnamed)" else o_Name o in
  let name := if o_Namespace o =s "" then name else o_Namespace o +:+ "/" +:+ name in
  if o_File o =s "" then name else name +:+ " (" +:+ o_File o +:+ ":" +:+ itoa (o_Line o) +:+ ")".

(** ** Annotation keys (internal/crd/apigroup) *)

Definition Group : string := "upgradescope.basit.engineer".
Definition AnnotationPrefix : string := Group +:+ "/".
Definition IgnoreAnnotation : string := AnnotationPrefix +:+ "ignore".
Definition IgnoreReasonAnnotation : string := AnnotationPrefix +:+ "ignore-reason".

Definition LegacyGroup : string := "upgradescope.dev".
Definition LegacyAnnotationPrefix : string := LegacyGroup +:+ "/".
Definition LegacyIgnoreAnnotation : string := LegacyAnnotationPrefix +:+ "ignore".
Definition LegacyIgnoreReasonAnnotation : string := LegacyAnnotationPrefix +:+ "ignore-reason".

(** [read]: the current key wins when present, even empty; [get] returns
    [None] for an absent annotation. *)
Definition readKey (get : string -> option string) (current old : string) : string * bool :=
  match get current with
  | Some v => (v, false)
  | None => match get old with Some v => (v, true) | None => (""%string, false) end
  end.

Definition ReadIgnore (get : string -> option string) : string * string * bool * bool :=
  let '(ignore, ignoreLegacy) := readKey get IgnoreAnnotation LegacyIgnoreAnnotation in
  let '(reason, reasonLegacy) := readKey get IgnoreReasonAnnotation LegacyIgnoreReasonAnnotation in
  (ignore, reason, ignoreLegacy, reasonLegacy).

Definition maxLegacyNamed : Z := 5.

Definition LegacyIgnoreWarning (objects : list string) : string :=
  let '(named, more) :=
    if maxLegacyNamed <? zlen objects
    then (take (Z.to_nat maxLegacyNamed) objects,
          (" and " +:+ itoa (zlen objects - maxLegacyNamed) +:+ " more")%string)
    else (objects, ""%string) in
  let noun := if zlen objects =? 1 then "object"%string else "objects"%string in
  "annotation keys " +:+ LegacyIgnoreAnnotation +:+ " and " +:+ LegacyIgnoreReasonAnnotation +:+
  " are deprecated and read only until v0.3.0: rename them to " +:+ IgnoreAnnotation +:+ " and " +:+
  IgnoreReasonAnnotation +:+ " on " +:+ itoa (zlen objects) +:+ " " +:+ noun +:+ ": " +:+
  Join named ", " +:+ more.

(** ** One finding *)

(** What one rule, or one annotation reason, took. *)
Record group := mkGroup {
  g_reason : string;
  g_source : string;
  g_expires : string;
  g_objects : list ObjectRef;
  g_whole : bool;
  g_all : bool;
}.

(** The rule names the finding, by its key or by its category. *)
Definition ruleFor (r : Rule) (f : Finding) : bool :=
  negb ((negb (ru_Key r =s "") && negb (ru_Key r =s f_Key f)) ||
        (negb (ru_Category r =s "") && negb (ru_Category r =s f_Category f))).

Definition noSelectors (r : Rule) : bool :=
  (ru_Namespace r =s "") && (ru_Name r =s "") && (ru_File r =s "").

Definition unservedWarning (opts : Options) (r : Rule) (f : Finding) : list string :=
  match BaseOfUnservedKey (f_Key f) with
  | Some base =>
      if ru_Key r =s base then
        [op_Source opts +:+ ": ignore rule (" +:+ ruleString r +:+ ") matches nothing for the API of " +:+
         quote (f_Key f) +:+ ": the key of a finding for an API the target does not serve yet ends in /unserved now, so that a rule for it never accepts the removal that follows; write " +:+
         f_Key f +:+ " to accept it (the bare key stays the removal's)"]%string
      else []
  | None => []
  end.

(** What a rule that names the finding takes of the objects left, and
    what is left after it. *)
Definition ruleTakes (opts : Options) (f : Finding) (r : Rule) (remaining : list ObjectRef)
    : group * list ObjectRef :=
  let g := mkGroup (ru_Reason r) (op_Source opts) (ru_Expires r) in
  if noSelectors r then (g remaining true true, [])
  else match f_Objects f with
       | [] =>
           (g [] ((ru_Name r =s "") && (ru_File r =s "") && (f_NamespacesOmitted f =? 0) &&
                  negb (f_Unnamespaced f) && allMatch (ru_Namespace r) (f_Namespaces f)) false,
            remaining)
       | _ =>
           let '(taken, rest) := takeObjects remaining (ruleMatches r (op_FileBase opts)) in
           (g taken false false, rest)
       end.

(** The rule loop: groups, objects left, whether a rule took the finding
    whole, and the warnings. *)
Fixpoint applyRules (opts : Options) (f : Finding) (rules : list Rule) (remaining : list ObjectRef)
    : list group * list ObjectRef * bool * list string :=
  match rules with
  | [] => ([], remaining, false, [])
  | r :: rs =>
      if negb (ruleFor r f) then
        let '(gs, rest, whole, ws) := applyRules opts f rs remaining in
        (gs, rest, whole, unservedWarning opts r f ++ ws)
      else
        let '(g, remaining) := ruleTakes opts f r remaining in
        if g_whole g then ([g], remaining, true, [])
        else
          let '(gs, rest, whole, ws) := applyRules opts f rs remaining in
          (match g_objects g with [] => gs | _ => g :: gs end, rest, whole, ws)
  end.

(** An object joins the group of its reason, made at its first object. *)
Fixpoint joinReason (reason : string) (o : ObjectRef) (gs : list group) : list group :=
  match gs with
  | [] => [mkGroup reason AnnotationSource "" [o] false false]
  | g :: gs' =>
      if g_reason g =s reason
      then mkGroup (g_reason g) (g_source g) (g_expires g) (g_objects g ++ [o]) (g_whole g) (g_all g) :: gs'
      else g :: joinReason reason o gs'
  end.

Definition noReasonWarning (o : ObjectRef) : string :=
  let ignoreKey := if o_IgnoreLegacyKey o then LegacyIgnoreAnnotation else IgnoreAnnotation in
  let reasonKey :=
    if o_IgnoreReasonLegacyKey o || (o_IgnoreLegacyKey o && (o_IgnoreReason o =s ""))
    then LegacyIgnoreReasonAnnotation else IgnoreReasonAnnotation in
  "object " +:+ objectName o +:+ ": " +:+ ignoreKey +:+ " annotation without " +:+ reasonKey +:+ " is not applied".

(** The annotation pass over the objects left: groups by reason, objects
    not taken, warnings, and the names of objects on the old keys. *)
Definition annotationStep (f : Finding) (acc : list group * list ObjectRef * list string * list string)
    (o : ObjectRef) : list group * list ObjectRef * list string * list string :=
  let '(gs, rest, ws, legacy) := acc in
  if negb (annotated o f) then (gs, rest ++ [o], ws, legacy)
  else
    let legacy := if LegacyIgnore o then legacy ++ [objectName o] else legacy in
    let reason := TrimSpace (o_IgnoreReason o) in
    if reason =s "" then (gs, rest ++ [o], ws ++ [noReasonWarning o], legacy)
    else (joinReason reason o gs, rest, ws, legacy).

Definition applyAnnotations (f : Finding) (objs : list ObjectRef)
    : list group * list ObjectRef * list string * list string :=
  fold_left (annotationStep f) objs ([], [], [], []).

(** The suppressed entry of a group. *)
Definition suppressedBy (f : Finding) (g : group) : SuppressedFinding :=
  mkSuppressed
    (set_Callers (if g_all g then f_Callers f else [])
      (set_Objects (g_objects g) (if g_whole g then f_ObjectsOmitted f else 0) f))
    (g_reason g) (g_source g) (g_expires g).

Record applied := mkApplied {
  a_kept : option Finding;
  a_out : list SuppressedFinding;
  a_callers : list Caller;
  a_warnings : list string;
  a_legacy : list string;
}.

(** The first half of [applyFinding]: the groups of the rules and then of
    the annotations, the objects left, whether a rule took the finding
    whole, the warnings, and the names on the old keys. *)
Definition collectGroups (f : Finding) (rules : list Rule) (opts : Options)
    : list group * list ObjectRef * bool * list string * list string :=
  let '(gs, remaining, whole, ws) := applyRules opts f rules (f_Objects f) in
  if whole then (gs, remaining, whole, ws, [])
  else let '(ags, rest, aws, legacy) := applyAnnotations f remaining in
       (gs ++ ags, rest, whole, ws ++ aws, legacy).

Definition applyFinding (f : Finding) (rules : list Rule) (opts : Options) : applied :=
  let '(groups, remaining, whole, warnings, legacy) := collectGroups f rules opts in
  match groups with
  | [] => mkApplied (Some f) [] [] warnings legacy
  | _ =>
      let out := map (suppressedBy f) groups in
      let listed := zlen (concat (map g_objects groups)) in
      if whole || ((zlen remaining =? 0) && (f_ObjectsOmitted f =? 0)) then
        mkApplied None out (if existsb g_all groups then [] else f_Callers f) warnings legacy
      else
        mkApplied
          (Some (set_Detail (TrimSpace (f_Detail f +:+ " " +:+ itoa listed +:+ " object(s) suppressed (see suppressed)."))
                   (set_Objects remaining (f_ObjectsOmitted f) f)))
          out [] warnings legacy
  end.

(** ** A report *)

(** The rules that apply, and the warnings for the others; [i] is the
    index of the first rule. *)
Fixpoint activeRules (opts : Options) (i : Z) (rules : list Rule) : list Rule * list string :=
  match rules with
  | [] => ([], [])
  | r :: rs =>
      let '(active, ws) := activeRules opts (i + 1) rs in
      let at_ := op_Source opts +:+ ": ignore[" +:+ itoa i +:+ "]" in
      match Validate r with
      | Err e => (active, (at_ +:+ ": skipped: " +:+ e) :: ws)
      | Ok _ =>
          if expired r (op_Now opts) then
            (active, (at_ +:+ " (" +:+ ruleString r +:+ ") expired on " +:+ ru_Expires r +:+
                      " and no longer applies") :: ws)
          else
            (r :: active,
             if legacySupportKey (ru_Key r) then
               (at_ +:+ " (" +:+ ruleString r +:+
                ") matches nothing: the key of a support-lifecycle finding names its phase now; write " +:+
                ru_Key r +:+ "/ending, " +:+ ru_Key r +:+ "/extended or " +:+ ru_Key r +:+
                "/ended for the phase you accept (see the support lifecycle page)") :: ws
             else ws)
      end
  end.

(** The kept finding, if one is. *)
Definition kept_list (kept : option Finding) : list Finding :=
  match kept with Some f => [f] | None => [] end.

(** What the queue loop accumulates. *)
Record queueState := mkQueueState {
  q_findings : list Finding;
  q_suppressed : list SuppressedFinding;
  q_warnings : list string;
  q_legacy : list string;
  q_reemitted : bool;
}.

Definition queueStep (st : queueState) (a : applied) : queueState :=
  mkQueueState
    (q_findings st ++ kept_list (a_kept a))
    (q_suppressed st ++ a_out a)
    (appendNew (q_warnings st) (a_warnings a))
    (appendNew (q_legacy st) (a_legacy a))
    (q_reemitted st || negb (zlen (a_callers a) =? 0)).

(** The queue loop: callers that stand on their own are judged in turn.
    [None] is a queue not yet empty when the fuel is. *)
Fixpoint applyQueue (fuel : nat) (active : list Rule) (opts : Options) (queue : list Finding)
    (st : queueState) : option queueState :=
  match queue with
  | [] => Some st
  | f :: rest =>
      match fuel with
      | O => None
      | S fuel =>
          let a := applyFinding f active opts in
          applyQueue fuel active opts (rest ++ map CallerFinding (a_callers a)) (queueStep st a)
      end
  end.

(** Every finding is judged once, and every caller at most once. *)
Definition queueFuel (fs : list Finding) : nat := length fs + length (concat (map f_Callers fs)).

Definition Apply (r : Report) (rules : list Rule) (opts : Options) : option (Report * list string) :=
  let '(active, ruleWarnings) := activeRules opts 0 rules in
  match applyQueue (queueFuel (r_Findings r)) active opts (r_Findings r)
          (mkQueueState [] [] [] [] false) with
  | None => None
  | Some st =>
      let warnings := ruleWarnings ++
        match q_legacy st with [] => [] | names => [LegacyIgnoreWarning names] end ++ q_warnings st in
      match q_suppressed st with
      | [] => Some (r, warnings)
      | _ =>
          let findings := if q_reemitted st then sortFindings (q_findings st) else q_findings st in
          Some (Rescore (with_Findings findings (r_Suppressed r ++ q_suppressed st) r), warnings)
      end
  end.

(** ** File globs *)

(** What a file glob means: [**] spans any number of segments, any other
    segment is matched by [path.Match]. *)
Inductive segments_match : list string -> list string -> Prop :=
| SegNil : segments_match [] []
| SegSpan ps skipped segs :
    segments_match ps segs -> segments_match ("**"%string :: ps) (skipped ++ segs)
| SegOne p s ps segs :
    p <> "**"%string -> Match p s = Some true -> segments_match ps segs ->
    segments_match (p :: ps) (s :: segs).

Lemma suffixes_spec {A} (l t : list A) : In t (suffixes l) <-> exists skipped, l = skipped ++ t.
Proof.
  induction l as [|a l IH]; simpl.
  - split; [intros [<-|[]]; by exists []|]. intros (k & E). symmetry in E. apply app_eq_nil in E as [_ ->]. by left.
  - split.
    + intros [<-|H]; [by exists []|]. apply IH in H as (k & ->). by exists (a :: k).
    + intros ([|b k] & E); [by left|]. injection E as -> ->. right. apply IH. by exists k.
Qed.

Lemma globMatch_true p s : globMatch p s = true <-> Match p s = Some true.
Proof. unfold globMatch. destruct (Match p s) as [[]|]; simpl; split; congruence. Qed.

(** The matcher accepts exactly the paths of [segments_match]. *)
Lemma matchSegments_spec (pattern segs : list string) :
  matchSegments pattern segs = true <-> segments_match pattern segs.
Proof.
  revert segs. induction pattern as [|p ps IH]; intros segs; cbn [matchSegments].
  { destruct segs; split; try done; [constructor|]. inversion 1. }
  destruct (p =s "**") eqn:E.
  - apply String.eqb_eq in E as ->. rewrite existsb_exists. split.
    + intros (t & (k & ->)%suffixes_spec & H%IH). by constructor.
    + inversion 1; subst; [|done]. eexists. rewrite suffixes_spec, IH. eauto.
  - apply String.eqb_neq in E. destruct segs as [|s ss].
    + split; [done|]. inversion 1; congruence.
    + rewrite andb_true_iff, globMatch_true, IH. split; [intros []; by constructor|].
      inversion 1; subst; congruence || done.
Qed.

(** ** Conservation *)

Definition taken (gs : list group) : list ObjectRef := concat (map g_objects gs).

(** A group that took listed objects only. *)
Definition partial (g : group) : Prop := g_whole g = false /\ g_all g = false.

Lemma takeObjects_perm objs p :
  (takeObjects objs p).1 ++ (takeObjects objs p).2 ≡ₚ objs.
Proof.
  unfold takeObjects. simpl. induction objs as [|o objs IH]; [done|].
  rewrite !filter_cons. destruct (p o); simpl; [by rewrite IH|].
  by rewrite <- Permutation_middle, IH.
Qed.

(** What one rule does: the objects it takes leave what remains, and only
    a rule that takes the finding whole is not partial. *)
Lemma ruleTakes_spec opts f r remaining g rest :
  ruleTakes opts f r remaining = (g, rest) -> (f_Objects f = [] -> remaining = []) ->
  remaining ≡ₚ g_objects g ++ rest /\ (f_Objects f = [] -> rest = []) /\
  (g_whole g = true -> rest = []) /\ (g_all g = true -> g_whole g = true).
Proof.
  unfold ruleTakes. intros H Hrem. destruct (noSelectors r).
  { injection H as <- <-. simpl. by rewrite app_nil_r. }
  destruct (f_Objects f) as [|o os].
  { injection H as <- <-. simpl. by rewrite Hrem. }
  pose proof (takeObjects_perm remaining (ruleMatches r (op_FileBase opts))) as Hp.
  destruct (takeObjects remaining _) as [t l]. injection H as <- <-. simpl in *. by rewrite Hp.
Qed.

(** The shape of the rule loop's groups: all partial, but for a last one
    when a rule took the finding whole. *)
Inductive rule_groups : list group -> bool -> Prop :=
| RulesPartial gs : Forall partial gs -> rule_groups gs false
| RulesWhole gs g : Forall partial gs -> g_whole g = true -> rule_groups (gs ++ [g]) true.

Lemma rule_groups_cons g gs whole : partial g -> rule_groups gs whole -> rule_groups (g :: gs) whole.
Proof. intros Hg []; [by constructor; constructor|]. rewrite app_comm_cons. by constructor; [constructor|]. Qed.

Lemma applyRules_spec opts f rules remaining gs rest whole ws :
  applyRules opts f rules remaining = (gs, rest, whole, ws) -> (f_Objects f = [] -> remaining = []) ->
  remaining ≡ₚ taken gs ++ rest /\ rule_groups gs whole /\ (whole = true -> rest = []).
Proof.
  revert remaining gs rest whole ws. induction rules as [|r rs IH]; intros remaining gs rest whole ws H Hrem.
  { injection H as <- <- <- <-. split; [done|]. split; [by constructor|done]. }
  cbn [applyRules] in H. destruct (negb (ruleFor r f)).
  { destruct (applyRules opts f rs remaining) as [[[gs' rest'] w'] ws'] eqn:E. injection H as <- <- <- <-.
    by eapply IH. }
  destruct (ruleTakes opts f r remaining) as [g rem'] eqn:Et.
  destruct (ruleTakes_spec _ _ _ _ _ _ Et Hrem) as (Hp & Hrem' & Hwh & Hall).
  destruct (g_whole g) eqn:Hw.
  { injection H as <- <- <- <-. unfold taken. simpl. rewrite app_nil_r. split; [done|]. split; [|auto].
    by apply (RulesWhole [] g). }
  destruct (applyRules opts f rs rem') as [[[gs' rest'] w'] ws'] eqn:E. injection H as <- <- <- <-.
  destruct (IH _ _ _ _ _ E Hrem') as (Hp' & Hg & Hr).
  assert (Hpart : partial g) by (split; [done|]; destruct (g_all g); [discriminate Hall; reflexivity|done]).
  destruct (g_objects g) as [|o os] eqn:Eo.
  - simpl in Hp. by rewrite Hp.
  - split; [|split; [by apply rule_groups_cons|done]].
    unfold taken in *. cbn [map concat]. rewrite Eo, <- app_assoc, <- Hp'. done.
Qed.

Lemma joinReason_spec reason o gs :
  Forall partial gs ->
  taken (joinReason reason o gs) ≡ₚ taken gs ++ [o] /\ Forall partial (joinReason reason o gs).
Proof.
  unfold taken. induction gs as [|g gs IH]; intros Hp; simpl.
  { split; [done|]. repeat constructor. }
  apply Forall_cons in Hp as [Hg Hp]. destruct (g_reason g =s reason); simpl.
  - split; [|by constructor]. rewrite <- !app_assoc. by rewrite (Permutation_app_comm [o]).
  - destruct (IH Hp) as [E F]. split; [|by constructor]. by rewrite E, app_assoc.
Qed.

Lemma applyAnnotations_spec f objs gs rest ws legacy :
  applyAnnotations f objs = (gs, rest, ws, legacy) ->
  objs ≡ₚ taken gs ++ rest /\ Forall partial gs.
Proof.
  unfold applyAnnotations. revert gs rest ws legacy.
  induction objs as [|o objs IH] using rev_ind; intros gs rest ws legacy H.
  { injection H as <- <- <- <-. done. }
  rewrite fold_left_app in H. cbn [fold_left] in H.
  destruct (fold_left (annotationStep f) objs _) as [[[gs' rest'] ws'] leg'] eqn:E.
  destruct (IH _ _ _ _ eq_refl) as [Hp Hf]. rewrite Hp. unfold annotationStep in H.
  destruct (negb (annotated o f)); [injection H as <- <- <- <-; by rewrite app_assoc|].
  destruct (TrimSpace (o_IgnoreReason o) =s "") eqn:Er; injection H as <- <- <- <-.
  { by rewrite app_assoc. }
  destruct (joinReason_spec (TrimSpace (o_IgnoreReason o)) o gs' Hf) as [Ej Fj].
  split; [|done]. rewrite Ej, <- !app_assoc. by rewrite (Permutation_app_comm [o]).
Qed.

Lemma rule_groups_app gs ags whole :
  rule_groups gs whole -> Forall partial ags -> whole = false -> rule_groups (gs ++ ags) false.
Proof. intros [] Ha; [|done]. intros _. constructor. by apply Forall_app. Qed.

Lemma collectGroups_spec f rules opts groups remaining whole ws legacy :
  collectGroups f rules opts = (groups, remaining, whole, ws, legacy) ->
  f_Objects f ≡ₚ taken groups ++ remaining /\ rule_groups groups whole /\ (whole = true -> remaining = []).
Proof.
  unfold collectGroups. destruct (applyRules opts f rules (f_Objects f)) as [[[gs rem] w] aws] eqn:E.
  destruct (applyRules_spec _ _ _ _ _ _ _ _ E ltac:(done)) as (Hp & Hg & Hr). destruct w; intros H.
  - injection H as <- <- <- <- <-. auto.
  - destruct (applyAnnotations f rem) as [[[ags rest] ws'] leg] eqn:Ea.
    destruct (applyAnnotations_spec _ _ _ _ _ _ Ea) as [Hp' Hf]. injection H as <- <- <- <- <-.
    split; [|split; [by eapply rule_groups_app|done]].
    rewrite Hp, Hp'. unfold taken. by rewrite map_app, concat_app, app_assoc.
Qed.

Lemma suppressedBy_objects f gs : concat (map f_Objects (map sf_Finding (map (suppressedBy f) gs))) = taken gs.
Proof. unfold taken. rewrite !map_map. done. Qed.

Lemma partial_omitted f gs :
  Forall partial gs -> sumZ (map f_ObjectsOmitted (map sf_Finding (map (suppressedBy f) gs))) = 0.
Proof. induction 1 as [|g gs [Hw Ha] _ IH]; [done|]. simpl in *. by rewrite Hw, IH. Qed.

Lemma partial_callers f gs :
  Forall partial gs ->
  concat (map f_Callers (map sf_Finding (map (suppressedBy f) gs))) = [] /\ existsb g_all gs = false.
Proof. induction 1 as [|g gs [Hw Ha] _ [IH1 IH2]]; [done|]. simpl in *. by rewrite Ha, IH1. Qed.

Lemma sumZ_app l1 l2 : sumZ (l1 ++ l2) = sumZ l1 + sumZ l2.
Proof. unfold sumZ. induction l1 as [|z l1 IH]; simpl; lia. Qed.

(** What the entries of the groups hold, together. *)
Lemma rule_groups_entries f gs whole :
  rule_groups gs whole ->
  sumZ (map f_ObjectsOmitted (map sf_Finding (map (suppressedBy f) gs))) = (if whole then f_ObjectsOmitted f else 0) /\
  concat (map f_Callers (map sf_Finding (map (suppressedBy f) gs))) = (if existsb g_all gs then f_Callers f else []) /\
  (whole = false -> existsb g_all gs = false).
Proof.
  intros [gs' Hp|gs' g Hp Hw].
  - destruct (partial_callers f _ Hp) as [-> ->]. by rewrite partial_omitted.
  - destruct (partial_callers f _ Hp) as [E1 E2].
    rewrite !map_app, sumZ_app, concat_app, existsb_app, E1, E2, partial_omitted by done. simpl.
    rewrite Hw, orb_false_r, app_nil_r. split; [lia|]. by destruct (g_all g).
Qed.

(** Everything a finding becomes: what stays of it, and the suppressed
    entries. *)
Definition parts (a : applied) : list Finding := kept_list (a_kept a) ++ map sf_Finding (a_out a).

(** C20 Suppressing a finding loses nothing and invents nothing: over what
    stays and what is suppressed, the listed objects are the finding's own,
    each once; the unlisted objects are counted once; every folded caller is
    with exactly one of the parts or stands on its own; the key, category
    and severity are the finding's. A caller stands on its own only when
    nothing of the finding stays. *)
Theorem applyFinding_conserves (f : Finding) (rules : list Rule) (opts : Options) :
  let a := applyFinding f rules opts in
  concat (map f_Objects (parts a)) ≡ₚ f_Objects f /\
  sumZ (map f_ObjectsOmitted (parts a)) = f_ObjectsOmitted f /\
  concat (map f_Callers (parts a)) ++ a_callers a = f_Callers f /\
  Forall (fun p => f_Key p = f_Key f /\ f_Category p = f_Category f /\ f_Severity p = f_Severity f) (parts a) /\
  (a_callers a <> [] -> a_kept a = None).
Proof.
  unfold applyFinding. destruct (collectGroups f rules opts) as [[[[gs rem] w] ws] leg] eqn:E.
  destruct (collectGroups_spec _ _ _ _ _ _ _ _ E) as (Hp & Hg & Hr). cbv zeta.
  destruct (rule_groups_entries f gs w Hg) as (Ho & Hc & Hall). unfold parts.
  assert (Hsame : Forall (fun p => f_Key p = f_Key f /\ f_Category p = f_Category f /\ f_Severity p = f_Severity f)
                    (map sf_Finding (map (suppressedBy f) gs))).
  { apply Forall_forall. intros p Hin. rewrite map_map in Hin. by apply list_elem_of_In, in_map_iff in Hin as (g & <- & _). }
  destruct gs as [|g gs'].
  { simpl. rewrite !app_nil_r. split; [done|]. split; [lia|]. split; [done|]. by split; [repeat constructor|]. }
  cbv iota beta. set (gs := g :: gs') in *. clearbody gs.
  destruct (w || ((zlen rem =? 0) && (f_ObjectsOmitted f =? 0))) eqn:Ew; cbn [a_kept a_out a_callers kept_list app].
  - rewrite suppressedBy_objects, Ho, Hc, Hp. destruct w.
    + rewrite Hr, app_nil_r by done. split; [done|]. split; [done|]. split; [|done].
      destruct (existsb g_all gs); [by rewrite app_nil_r|done].
    + simpl in Ew. to_prop. unfold zlen in *. destruct rem; [|simpl in *; lia].
      rewrite app_nil_r, Hall by done. split; [done|]. split; [lia|]. done.
  - apply orb_false_iff in Ew as [-> _]. rewrite !map_cons, !concat_cons.
    rewrite suppressedBy_objects, Hc, Hall, !app_nil_r by done. change (sumZ (?a :: ?l)) with (a + sumZ l). rewrite Ho.
    cbn [f_Objects f_ObjectsOmitted f_Callers set_Detail set_Objects].
    split; [by rewrite Hp, Permutation_app_comm|]. split; [lia|]. split; [done|]. split; [by constructor|done].
Qed.

(** ** Justification *)

(** Why a suppressed entry of finding [f] is there: a rule that names [f]
    and whose selectors accept what the entry holds, or the annotations of
    its objects. Only a rule without selectors accepts callers. *)
Inductive justified (opts : Options) (rules : list Rule) (f : Finding) (sf : SuppressedFinding) : Prop :=
| ByRule r :
    r ∈ rules -> ruleFor r f = true ->
    sf_Reason sf = ru_Reason r -> sf_Source sf = op_Source opts -> sf_Expires sf = ru_Expires r ->
    noSelectors r = true ->
    justified opts rules f sf
| ByNamespaces r :
    r ∈ rules -> ruleFor r f = true ->
    sf_Reason sf = ru_Reason r -> sf_Source sf = op_Source opts -> sf_Expires sf = ru_Expires r ->
    ru_Name r = ""%string -> ru_File r = ""%string -> f_Objects f = [] -> f_NamespacesOmitted f = 0 -> f_Unnamespaced f = false ->
    f_Namespaces f <> [] -> (forall n, n ∈ f_Namespaces f -> Match (ru_Namespace r) n = Some true) ->
    f_Callers (sf_Finding sf) = [] ->
    justified opts rules f sf
| ByObjects r :
    r ∈ rules -> ruleFor r f = true ->
    sf_Reason sf = ru_Reason r -> sf_Source sf = op_Source opts -> sf_Expires sf = ru_Expires r ->
    f_ObjectsOmitted (sf_Finding sf) = 0 -> f_Callers (sf_Finding sf) = [] -> f_Objects (sf_Finding sf) <> [] ->
    (forall o, o ∈ f_Objects (sf_Finding sf) -> ruleMatches r (op_FileBase opts) o = true) ->
    justified opts rules f sf
| ByAnnotation :
    sf_Source sf = AnnotationSource -> sf_Reason sf <> ""%string ->
    f_ObjectsOmitted (sf_Finding sf) = 0 -> f_Callers (sf_Finding sf) = [] -> f_Objects (sf_Finding sf) <> [] ->
    (forall o, o ∈ f_Objects (sf_Finding sf) ->
       annotated o f = true /\ TrimSpace (o_IgnoreReason o) = sf_Reason sf) ->
    justified opts rules f sf.

Lemma justified_weaken opts rules rules' f sf :
  (forall r, r ∈ rules -> r ∈ rules') -> justified opts rules f sf -> justified opts rules' f sf.
Proof. intros H []; [eapply ByRule|eapply ByNamespaces|eapply ByObjects|eapply ByAnnotation]; eauto. Qed.

Lemma takeObjects_accepts objs p o : o ∈ (takeObjects objs p).1 -> p o = true.
Proof. unfold takeObjects. simpl. by intros [H _]%list_elem_of_filter. Qed.

Lemma ruleTakes_justified opts f r remaining g rest :
  ruleTakes opts f r remaining = (g, rest) -> ruleFor r f = true ->
  (g_whole g = true \/ g_objects g <> []) -> justified opts [r] f (suppressedBy f g).
Proof.
  unfold ruleTakes. intros H Hfor Hg.
  assert (Hin : r ∈ [r]) by by apply list_elem_of_singleton.
  destruct (noSelectors r) eqn:Hn; [injection H as <- <-; by eapply ByRule|].
  destruct (f_Objects f) as [|o os] eqn:Eo.
  - injection H as <- <-. simpl in Hg. destruct Hg as [Hg|Hg]; [|done].
    rewrite !andb_true_iff in Hg. destruct Hg as ((((Hnm%String.eqb_eq & Hfl%String.eqb_eq) & Hno) & Hun) & Hall).
    unfold allMatch in Hall. apply andb_true_iff in Hall as [Hall Hne].
    eapply ByNamespaces; try done; [by apply Z.eqb_eq|by destruct (f_Unnamespaced f)|by destruct (f_Namespaces f)|].
    intros n Hn'. apply globMatch_true. rewrite forallb_forall in Hall. by apply Hall, list_elem_of_In.
  - pose proof (takeObjects_accepts remaining (ruleMatches r (op_FileBase opts))) as Hacc.
    destruct (takeObjects remaining _) as [t l]. injection H as <- <-. simpl in Hg.
    destruct Hg; [done|]. by eapply ByObjects.
Qed.

Lemma applyRules_justified opts f rules remaining gs rest whole ws g :
  applyRules opts f rules remaining = (gs, rest, whole, ws) -> g ∈ gs ->
  justified opts rules f (suppressedBy f g).
Proof.
  revert remaining gs rest whole ws. induction rules as [|r rs IH]; intros remaining gs rest whole ws H Hin.
  { injection H as <- <- <- <-. by apply elem_of_nil in Hin. }
  assert (Hw : justified opts rs f (suppressedBy f g) -> justified opts (r :: rs) f (suppressedBy f g)).
  { apply justified_weaken. intros r' Hr'. by apply elem_of_cons; right. }
  assert (H1 : justified opts [r] f (suppressedBy f g) -> justified opts (r :: rs) f (suppressedBy f g)).
  { apply justified_weaken. intros r' ->%list_elem_of_singleton. by apply elem_of_cons; left. }
  cbn [applyRules] in H. destruct (ruleFor r f) eqn:Hfor; cbn [negb] in H.
  2:{ destruct (applyRules opts f rs remaining) as [[[gs' rest'] w'] ws'] eqn:E. injection H as <- <- <- <-. eauto. }
  destruct (ruleTakes opts f r remaining) as [g' rem'] eqn:Et.
  pose proof (ruleTakes_justified _ _ _ _ _ _ Et Hfor) as Hj.
  destruct (g_whole g') eqn:Hwh.
  { injection H as <- <- <- <-. apply list_elem_of_singleton in Hin as ->. auto. }
  destruct (applyRules opts f rs rem') as [[[gs' rest'] w'] ws'] eqn:E. injection H as <- <- <- <-.
  destruct (g_objects g') eqn:Eo; [eauto|].
  apply elem_of_cons in Hin as [->|Hin]; [|eauto]. apply H1, Hj. by right.
Qed.

(** What an annotation group holds. *)
Definition annotation_group (f : Finding) (g : group) : Prop :=
  partial g /\ g_source g = AnnotationSource /\ g_reason g <> ""%string /\ g_objects g <> [] /\
  forall o, o ∈ g_objects g -> annotated o f = true /\ TrimSpace (o_IgnoreReason o) = g_reason g.

Lemma joinReason_groups f o gs :
  annotated o f = true -> TrimSpace (o_IgnoreReason o) <> ""%string -> Forall (annotation_group f) gs ->
  Forall (annotation_group f) (joinReason (TrimSpace (o_IgnoreReason o)) o gs).
Proof.
  intros Ha Hr. induction 1 as [|g gs Hg Hgs IH]; cbn [joinReason].
  { constructor; [|done]. split_and!; try done. by intros o' ->%list_elem_of_singleton. }
  destruct (g_reason g =s TrimSpace (o_IgnoreReason o)) eqn:E; [|by constructor].
  apply String.eqb_eq in E. constructor; [|done]. destruct Hg as (Hp & Hs & Hne & Hno & Ho).
  split_and!; try done; [by intros [_ ?]%app_eq_nil|]. intros o' [Hin| ->%list_elem_of_singleton]%elem_of_app; auto.
Qed.

Lemma applyAnnotations_groups f objs : Forall (annotation_group f) (applyAnnotations f objs).1.1.1.
Proof.
  unfold applyAnnotations. induction objs as [|o objs IH] using rev_ind; [done|].
  rewrite fold_left_app. cbn [fold_left].
  destruct (fold_left (annotationStep f) objs _) as [[[gs rest] ws] leg]. simpl in IH. unfold annotationStep.
  destruct (annotated o f) eqn:Ha; [|done]. cbn [negb].
  destruct (TrimSpace (o_IgnoreReason o) =s "") eqn:Er; [done|]. apply String.eqb_neq in Er. by apply joinReason_groups.
Qed.

Lemma annotation_group_justified opts rules f g :
  annotation_group f g -> justified opts rules f (suppressedBy f g).
Proof.
  intros ((Hw & Ha) & Hs & Hr & Hno & Ho). eapply ByAnnotation; try done; simpl; [by rewrite Hw|by rewrite Ha].
Qed.

Lemma collectGroups_justified f rules opts g :
  g ∈ (collectGroups f rules opts).1.1.1.1 -> justified opts rules f (suppressedBy f g).
Proof.
  unfold collectGroups. destruct (applyRules opts f rules (f_Objects f)) as [[[gs rem] w] ws] eqn:E.
  assert (Hr : g ∈ gs -> justified opts rules f (suppressedBy f g)) by by eapply applyRules_justified.
  destruct w; [done|]. pose proof (applyAnnotations_groups f rem) as Ha.
  destruct (applyAnnotations f rem) as [[[ags rest] aws] leg]. simpl in *. rewrite Forall_forall in Ha.
  intros [Hg|Hg]%elem_of_app; [auto|]. by apply annotation_group_justified, Ha.
Qed.

Lemma applyFinding_out f rules opts :
  a_out (applyFinding f rules opts) = map (suppressedBy f) (collectGroups f rules opts).1.1.1.1.
Proof.
  unfold applyFinding. destruct (collectGroups f rules opts) as [[[[gs rem] w] ws] leg].
  destruct gs; [done|]. by destruct (_ || _).
Qed.

(** Every suppressed entry of a finding is justified. *)
Lemma applyFinding_justified f rules opts sf :
  sf ∈ a_out (applyFinding f rules opts) -> justified opts rules f sf.
Proof.
  rewrite applyFinding_out. intros (g & <- & Hg)%list_elem_of_In%in_map_iff.
  by apply collectGroups_justified, list_elem_of_In.
Qed.

(** A suppressed entry is of its finding, and holds objects of it. *)
Definition entry_of (f : Finding) (sf : SuppressedFinding) : Prop :=
  f_Key (sf_Finding sf) = f_Key f /\ f_Category (sf_Finding sf) = f_Category f /\
  f_Severity (sf_Finding sf) = f_Severity f /\
  (forall o, o ∈ f_Objects (sf_Finding sf) -> o ∈ f_Objects f).

Lemma applyFinding_entry f rules opts sf : sf ∈ a_out (applyFinding f rules opts) -> entry_of f sf.
Proof.
  rewrite applyFinding_out. intros (g & <- & Hg)%list_elem_of_In%in_map_iff. split_and!; [done..|].
  destruct (collectGroups f rules opts) as [[[[gs rem] w] ws] leg] eqn:Ec. simpl in Hg.
  destruct (collectGroups_spec _ _ _ _ _ _ _ _ Ec) as (Hp & _). intros o Hin. rewrite Hp.
  apply elem_of_app. left. unfold taken. rewrite list_elem_of_In, in_concat. exists (g_objects g).
  split; [by apply in_map|by apply list_elem_of_In].
Qed.

(** A finding nothing is taken of stays as it is. *)
Lemma applyFinding_untouched f rules opts :
  a_out (applyFinding f rules opts) = [] ->
  a_kept (applyFinding f rules opts) = Some f /\ a_callers (applyFinding f rules opts) = [].
Proof.
  rewrite applyFinding_out. unfold applyFinding. destruct (collectGroups f rules opts) as [[[[gs rem] w] ws] leg].
  by destruct gs.
Qed.

(** ** The queue *)

Lemma applyFinding_callers f rules opts :
  a_callers (applyFinding f rules opts) = f_Callers f \/ a_callers (applyFinding f rules opts) = [].
Proof.
  unfold applyFinding. destruct (collectGroups f rules opts) as [[[[gs rem] w] ws] leg].
  destruct gs; [by right|]. cbv zeta. destruct (w || _); simpl; [|by right].
  destruct (g_all g || existsb g_all gs); auto.
Qed.

(** The findings of the callers that stand on their own. *)
Definition reemitted (active : list Rule) (opts : Options) (fs : list Finding) : list Finding :=
  concat (map (fun f => map CallerFinding (a_callers (applyFinding f active opts))) fs).

(** The queue judges every finding, then every caller on its own, and is
    empty within the fuel: a caller's finding has no callers. *)
Lemma applyQueue_spec fuel active opts fs ts st :
  (length fs + length ts + length (concat (map f_Callers fs)) <= fuel)%nat ->
  Forall (fun f => f_Callers f = []) ts ->
  applyQueue fuel active opts (fs ++ ts) st =
  Some (fold_left queueStep (map (fun f => applyFinding f active opts) (fs ++ ts ++ reemitted active opts fs)) st).
Proof.
  revert fs ts st. induction fuel as [|fuel IH]; intros fs ts st Hf Ht.
  { destruct fs; [|simpl in Hf; lia]. by destruct ts; [|simpl in Hf; lia]. }
  destruct fs as [|f fs].
  - unfold reemitted. simpl. rewrite app_nil_r. destruct ts as [|t ts]; [done|]. cbn [applyQueue].
    apply Forall_cons in Ht as [Ht Hts].
    assert (E : a_callers (applyFinding t active opts) = []).
    { destruct (applyFinding_callers t active opts) as [E|E]; [by rewrite E|done]. }
    rewrite E. simpl. rewrite app_nil_r. rewrite (IH [] ts) by (simpl in *; lia || done).
    unfold reemitted. simpl. by rewrite app_nil_r.
  - cbn [app applyQueue map fold_left]. rewrite <- app_assoc.
    assert (Hlen : (length (a_callers (applyFinding f active opts)) <= length (f_Callers f))%nat).
    { destruct (applyFinding_callers f active opts) as [->| ->]; simpl; lia. }
    rewrite IH.
    + unfold reemitted. cbn [map concat]. by rewrite !app_assoc.
    + simpl in Hf. rewrite length_app in Hf. rewrite length_app, length_map. lia.
    + apply Forall_app. split; [done|]. apply Forall_forall. intros x Hx.
      by apply list_elem_of_In, in_map_iff in Hx as (c & <- & _).
Qed.

Lemma queue_findings l st :
  q_findings (fold_left queueStep l st) = q_findings st ++ concat (map (fun a => kept_list (a_kept a)) l).
Proof. revert st. induction l as [|a l IH]; intros st; simpl; [by rewrite app_nil_r|]. by rewrite IH, app_assoc. Qed.

Lemma queue_suppressed l st :
  q_suppressed (fold_left queueStep l st) = q_suppressed st ++ concat (map a_out l).
Proof. revert st. induction l as [|a l IH]; intros st; simpl; [by rewrite app_nil_r|]. by rewrite IH, app_assoc. Qed.

Lemma activeRules_spec opts i rules r :
  r ∈ (activeRules opts i rules).1 <-> r ∈ rules /\ Validate r = Ok tt /\ expired r (op_Now opts) = false.
Proof.
  revert i. induction rules as [|x rs IH]; intros i.
  { simpl. split; [by intros ?%elem_of_nil|]. by intros (?%elem_of_nil & _). }
  cbn [activeRules]. specialize (IH (i + 1)). destruct (activeRules opts (i + 1) rs) as [active ws]. simpl in IH.
  rewrite elem_of_cons. destruct (Validate x) as [[]|e] eqn:Ev.
  - destruct (expired x (op_Now opts)) eqn:Ex; cbn [fst].
    + rewrite IH. split; [intuition|]. intros ([->|H] & H1 & H2); [congruence|auto].
    + rewrite elem_of_cons, IH. split; [intros [->|H]; intuition|]. intros ([->|H] & H1 & H2); intuition.
  - cbn [fst]. rewrite IH. split; [intuition|]. intros ([->|H] & H1 & H2); [congruence|auto].
Qed.

(** The findings [Apply] judges: those of the report, then the callers
    that stand on their own. *)
Definition judgedFindings (r : Report) (rules : list Rule) (opts : Options) : list Finding :=
  let active := (activeRules opts 0 rules).1 in
  r_Findings r ++ reemitted active opts (r_Findings r).

Lemma untouched_kept active opts fs :
  concat (map (fun f => a_out (applyFinding f active opts)) fs) = [] ->
  concat (map (fun f => kept_list (a_kept (applyFinding f active opts))) fs) = fs /\ reemitted active opts fs = [].
Proof.
  unfold reemitted. induction fs as [|f fs IH]; [done|]. cbn [map concat]. intros [Ho Hr]%app_eq_nil.
  destruct (applyFinding_untouched f active opts Ho) as [-> ->]. destruct (IH Hr) as [-> ->]. done.
Qed.

(** The report [Apply] returns, in terms of the judged findings. *)
Lemma Apply_spec r rules opts :
  let judge f := applyFinding f (activeRules opts 0 rules).1 opts in
  exists r' ws, Apply r rules opts = Some (r', ws) /\
    r_Findings r' ≡ₚ concat (map (fun f => kept_list (a_kept (judge f))) (judgedFindings r rules opts)) /\
    r_Suppressed r' = r_Suppressed r ++ concat (map (fun f => a_out (judge f)) (judgedFindings r rules opts)) /\
    r_NotAssessed r' = r_NotAssessed r /\
    (r' = r \/ r_Verdict r' = verdictFor (r_Findings r') (r_NotAssessed r') /\
               r_Score r' = (Score (r_Findings r')).1 /\ r_Ready r' = (r_Verdict r' =s VerdictReady)).
Proof.
  cbv zeta. unfold Apply, judgedFindings. destruct (activeRules opts 0 rules) as [active rw]. cbn [fst].
  pose proof (applyQueue_spec (queueFuel (r_Findings r)) active opts (r_Findings r) []
    (mkQueueState [] [] [] [] false)) as Hq.
  rewrite app_nil_r in Hq. rewrite Hq by (done || (unfold queueFuel; simpl; lia)). clear Hq. cbn [app].
  set (js := r_Findings r ++ reemitted active opts (r_Findings r)).
  set (st := fold_left _ _ _).
  assert (Ef : q_findings st = concat (map (fun f => kept_list (a_kept (applyFinding f active opts))) js)).
  { unfold st. rewrite queue_findings, map_map. done. }
  assert (Es : q_suppressed st = concat (map (fun f => a_out (applyFinding f active opts)) js)).
  { unfold st. rewrite queue_suppressed, map_map. done. }
  destruct (q_suppressed st) as [|sf sfs] eqn:E.
  - eexists _, _. split; [done|]. rewrite <- Es, app_nil_r. symmetry in Es.
    unfold js in *. rewrite map_app, concat_app in Es. apply app_eq_nil in Es as [Es _].
    destruct (untouched_kept _ _ _ Es) as [E1 E2]. rewrite E2, app_nil_r, E1. auto 6.
  - eexists _, _. split; [done|]. rewrite <- Es, <- Ef. unfold Rescore. cbn [r_Findings with_Findings r_NotAssessed].
    set (fs := if q_reemitted st then _ else _).
    assert (Hfs : fs ≡ₚ q_findings st) by (unfold fs; destruct (q_reemitted st); [apply isort_perm|done]).
    destruct (Score fs) as [sc rd] eqn:Esc. cbn [r_Findings r_Suppressed r_NotAssessed r_Verdict r_Score r_Ready with_Findings].
    split; [done|]. split; [done|]. split; [done|]. right. by rewrite Esc.
Qed.

(** C34 [Apply] always returns: its queue, which callers standing on their
    own join, runs empty. The findings it returns are what stays of the
    judged findings, its suppressed entries are the earlier ones and then
    those of the judged findings in order, and a report it changed has the
    verdict and score of the findings it returns. *)
Theorem Apply_total (r : Report) (rules : list Rule) (opts : Options) :
  let judge f := applyFinding f (activeRules opts 0 rules).1 opts in
  exists r' ws, Apply r rules opts = Some (r', ws) /\
    r_Findings r' ≡ₚ concat (map (fun f => kept_list (a_kept (judge f))) (judgedFindings r rules opts)) /\
    r_Suppressed r' = r_Suppressed r ++ concat (map (fun f => a_out (judge f)) (judgedFindings r rules opts)) /\
    r_NotAssessed r' = r_NotAssessed r /\
    (r' = r \/ r_Verdict r' = verdictFor (r_Findings r') (r_NotAssessed r') /\
               r_Score r' = (Score (r_Findings r')).1 /\ r_Ready r' = (r_Verdict r' =s VerdictReady)).
Proof. apply Apply_spec. Qed.

(** A finding [Apply] may judge: one of the report, or a caller folded into
    one. *)
Definition judgeable (r : Report) (f : Finding) : Prop :=
  f ∈ r_Findings r \/ exists g c, g ∈ r_Findings r /\ c ∈ f_Callers g /\ f = CallerFinding c.

Lemma judged_judgeable r rules opts f : f ∈ judgedFindings r rules opts -> judgeable r f.
Proof.
  unfold judgedFindings, reemitted. intros [H|H]%elem_of_app; [by left|]. right.
  apply list_elem_of_In, in_concat in H as (l & Hl & Hf). apply in_map_iff in Hl as (g & <- & Hg).
  apply in_map_iff in Hf as (c & <- & Hc). exists g, c. rewrite !list_elem_of_In. split; [done|]. split; [|done].
  destruct (applyFinding_callers g (activeRules opts 0 rules).1 opts) as [E|E]; rewrite E in Hc; done.
Qed.

(** A rule in force at [now] that names [f]: by its key or by its category,
    with a reason, and before the end of the day it expires on. *)
Record inForce (now : Time) (r : Rule) (f : Finding) : Prop := {
  force_names : (ru_Category r = "" /\ ru_Key r <> "" /\ ru_Key r = f_Key f) \/
                (ru_Key r = "" /\ ru_Category r <> "" /\ ru_Category r = f_Category f);
  force_reason : TrimSpace (ru_Reason r) <> ""%string;
  force_expires : ru_Expires r = ""%string \/ exists d, ParseDate (ru_Expires r) = Some d /\ now < d + 24 * hour;
}.

(** An object a rule's selectors accept, of a config in the directory
    [base]: every selector that is set does. *)
Record accepts (r : Rule) (base : string) (o : ObjectRef) : Prop := {
  acc_namespace : ru_Namespace r = ""%string \/ Match (ru_Namespace r) (o_Namespace o) = Some true;
  acc_name : ru_Name r = ""%string \/ Match (ru_Name r) (o_Name o) = Some true;
  acc_file : ru_File r = ""%string \/ (o_File o <> ""%string /\ matchFile (ru_File r) (Join2 base (o_File o)) = true);
}.

(** What a rule's selectors accept of a finding: everything, when it has
    none; a finding without objects, when all the namespaces it has are
    listed and the rule names each; otherwise its own objects only, and no
    callers. *)
Inductive selected (r : Rule) (base : string) (f : Finding) (e : Finding) : Prop :=
| sel_all : ru_Namespace r = ""%string -> ru_Name r = ""%string -> ru_File r = ""%string -> selected r base f e
| sel_namespaces : ru_Name r = ""%string -> ru_File r = ""%string -> f_Objects f = [] -> f_NamespacesOmitted f = 0 -> f_Unnamespaced f = false ->
    f_Namespaces f <> [] -> (forall n, n ∈ f_Namespaces f -> Match (ru_Namespace r) n = Some true) -> f_Callers e = [] ->
    selected r base f e
| sel_objects : f_Objects e <> [] -> (forall o, o ∈ f_Objects e -> accepts r base o) -> f_ObjectsOmitted e = 0 -> f_Callers e = [] ->
    selected r base f e.

(** An object whose annotation names the finding's category or its key. *)
Definition names_finding (o : ObjectRef) (f : Finding) : Prop :=
  exists tok, tok ∈ Split (o_Ignore o) "," /\ TrimSpace tok <> ""%string /\ (TrimSpace tok = f_Category f \/ TrimSpace tok = f_Key f).

Lemma Validate_ok r : Validate r = Ok tt ->
  ((ru_Key r <> "" /\ ru_Category r = "") \/ (ru_Key r = "" /\ ru_Category r <> "")) /\ TrimSpace (ru_Reason r) <> ""%string /\
  (ru_Expires r = ""%string \/ is_Some (ParseDate (ru_Expires r))).
Proof.
  unfold Validate. cbv zeta. destruct ((ru_Key r =s "") && (ru_Category r =s "")) eqn:E1; [done|].
  destruct (negb (ru_Key r =s "") && negb (ru_Category r =s "")) eqn:E2; [done|].
  case_match; [done|]. destruct (Cut _ _) as [[cat ?] ?]. case_match; [done|].
  destruct (TrimSpace (ru_Reason r) =s "") eqn:E3; [done|].
  destruct (negb (ru_Expires r =s "") && _) eqn:E4; [done|]. intros _. apply String.eqb_neq in E3. split_and!; [|done|].
  - revert E1 E2. destruct (String.eqb_spec (ru_Key r) ""), (String.eqb_spec (ru_Category r) ""); simpl; intros; auto; discriminate.
  - revert E4. destruct (String.eqb_spec (ru_Expires r) ""); [by left|right]. by destruct (ParseDate (ru_Expires r)).
Qed.

Lemma active_inForce now r f : Validate r = Ok tt -> expired r now = false -> ruleFor r f = true -> inForce now r f.
Proof.
  intros (Hkc & Hre & Hex)%Validate_ok He Hf. unfold ruleFor in Hf. apply negb_true_iff, orb_false_iff in Hf as [Hk Hc]. split.
  - destruct Hkc as [[Hne Hc0]|[Hk0 Hne]]; [left|right]; (split_and!; [done|done|]).
    + apply String.eqb_neq in Hne. rewrite Hne in Hk. apply negb_false_iff in Hk. by apply String.eqb_eq.
    + apply String.eqb_neq in Hne. rewrite Hne in Hc. apply negb_false_iff in Hc. by apply String.eqb_eq.
  - done.
  - destruct Hex as [|[d Hd]]; [by left|]. unfold expired in He. destruct (String.eqb_spec (ru_Expires r) ""); [by left|right].
    rewrite Hd in He. exists d. split; [done|]. apply negb_false_iff in He. unfold Before in He. apply Z.ltb_lt in He. exact He.
Qed.

Lemma ruleMatches_accepts r base o : ruleMatches r base o = true <-> accepts r base o.
Proof.
  assert (Hsel : forall p v, negb (p =s "") && negb (globMatch p v) = false <-> p = ""%string \/ Match p v = Some true).
  { intros p v. rewrite <- globMatch_true. destruct (String.eqb_spec p ""); simpl; [tauto|]. rewrite negb_false_iff. tauto. }
  assert (Hfile : negb (ru_File r =s "") && ((o_File o =s "") || negb (matchFile (ru_File r) (Join2 base (o_File o)))) = false <->
    ru_File r = ""%string \/ (o_File o <> ""%string /\ matchFile (ru_File r) (Join2 base (o_File o)) = true)).
  { destruct (String.eqb_spec (ru_File r) ""); simpl; [tauto|]. rewrite orb_false_iff, negb_false_iff, String.eqb_neq. tauto. }
  unfold ruleMatches. split.
  - destruct (negb (ru_Namespace r =s "") && _) eqn:E1; [done|]. destruct (negb (ru_Name r =s "") && _) eqn:E2; [done|].
    destruct (negb (ru_File r =s "") && _) eqn:E3; [done|]. intros _. split; [by apply Hsel|by apply Hsel|by apply Hfile].
  - intros [->%Hsel ->%Hsel ->%Hfile]. done.
Qed.

Lemma annotated_names o f : annotated o f = true -> names_finding o f.
Proof.
  unfold annotated. rewrite existsb_exists. intros (tok & Hin & Ht). exists tok. split; [by apply list_elem_of_In|]. cbv zeta in Ht.
  apply andb_true_iff in Ht as [Hne Ht]. apply negb_true_iff, String.eqb_neq in Hne. split; [done|].
  apply orb_true_iff in Ht. by rewrite !String.eqb_eq in Ht.
Qed.

(** What no rule in force names and no reasoned annotation accepts. *)
Lemma not_inForce now r f : ~ inForce now r f -> Validate r = Ok tt -> expired r now = false -> ruleFor r f = false.
Proof. intros Hn Hv He. apply not_true_iff_false. intros Hf. by apply Hn, active_inForce. Qed.

Lemma not_annotated o f : ~ (names_finding o f /\ TrimSpace (o_IgnoreReason o) <> ""%string) -> annotated o f = true ->
  TrimSpace (o_IgnoreReason o) = ""%string.
Proof. intros Hn Ha. destruct (decide (TrimSpace (o_IgnoreReason o) = ""%string)) as [|Hne]; [done|]. destruct Hn. split; [by apply annotated_names|done]. Qed.

(** C21 Nothing is suppressed without grounds: every entry [Apply] adds is
    of a finding of the report, or of a caller folded into one, has its key,
    category and severity and only objects of it. It is there by a rule of
    the config, under its reason and expiry: one that has a reason, names
    the finding by its key or its category, is not past the day it expires
    on, and whose selectors (namespace, name and file, each that is set)
    accept what the entry holds; callers go only with a rule without
    selectors. Or it is there by the annotations, naming the finding and
    with the entry's reason, of every object it holds. *)
Theorem Apply_justified (r r' : Report) (rules : list Rule) (opts : Options) (ws : list string)
    (sf : SuppressedFinding) :
  Apply r rules opts = Some (r', ws) -> sf ∈ r_Suppressed r' -> sf ∉ r_Suppressed r ->
  exists f, judgeable r f /\ entry_of f sf /\
    ((exists rule, rule ∈ rules /\ inForce (op_Now opts) rule f /\ selected rule (op_FileBase opts) f (sf_Finding sf) /\
        sf_Reason sf = ru_Reason rule /\ sf_Source sf = op_Source opts /\ sf_Expires sf = ru_Expires rule) \/
     (sf_Source sf = AnnotationSource /\ sf_Reason sf <> ""%string /\ f_Objects (sf_Finding sf) <> [] /\
        f_ObjectsOmitted (sf_Finding sf) = 0 /\ f_Callers (sf_Finding sf) = [] /\
        forall o, o ∈ f_Objects (sf_Finding sf) -> names_finding o f /\ TrimSpace (o_IgnoreReason o) = sf_Reason sf)).
Proof.
  intros HA Hin Hnew. destruct (Apply_spec r rules opts) as (r1 & ws1 & HA1 & _ & Hs & _).
  rewrite HA in HA1. injection HA1 as <- <-. rewrite Hs in Hin. apply elem_of_app in Hin as [Hin|Hin]; [done|].
  apply list_elem_of_In, in_concat in Hin as (l & Hl & Hsf). apply in_map_iff in Hl as (f & <- & Hf).
  exists f. split; [by eapply judged_judgeable, list_elem_of_In|]. apply list_elem_of_In in Hsf.
  split; [by eapply applyFinding_entry|]. apply applyFinding_justified in Hsf.
  assert (Hact : forall x, x ∈ (activeRules opts 0 rules).1 -> ruleFor x f = true -> x ∈ rules /\ inForce (op_Now opts) x f).
  { intros x (Hx & Hv & He)%activeRules_spec Hfor. split; [done|by apply active_inForce]. }
  destruct Hsf as [x Hx Hfor ? ? ? Hns|x Hx Hfor ? ? ?|x Hx Hfor ? ? ? ? ? ? Hm|? ? ? ? ? Hann].
  - left. destruct (Hact x Hx Hfor). exists x. split_and!; try done. unfold noSelectors in Hns.
    rewrite !andb_true_iff, !String.eqb_eq in Hns. destruct Hns as [[] ]. by apply sel_all.
  - left. destruct (Hact x Hx Hfor). exists x. split_and!; try done. by apply sel_namespaces.
  - left. destruct (Hact x Hx Hfor). exists x. split_and!; try done. apply sel_objects; [done| |done|done].
    intros o Ho. by apply ruleMatches_accepts, Hm.
  - right. split_and!; try done. intros o Ho. destruct (Hann o Ho). split; [by apply annotated_names|done].
Qed.

Lemma applyFinding_unmatched f rules opts :
  (forall r, r ∈ rules -> ruleFor r f = false) ->
  (forall o, o ∈ f_Objects f -> annotated o f = true -> TrimSpace (o_IgnoreReason o) = ""%string) ->
  a_kept (applyFinding f rules opts) = Some f.
Proof.
  intros Hr Ho. apply applyFinding_untouched.
  destruct (a_out (applyFinding f rules opts)) as [|sf l] eqn:E; [done|]. exfalso.
  assert (Hsf : sf ∈ a_out (applyFinding f rules opts)) by (rewrite E; by apply elem_of_cons; left).
  destruct (applyFinding_entry _ _ _ _ Hsf) as (_ & _ & _ & Hobj).
  destruct (applyFinding_justified _ _ _ _ Hsf) as [x Hx Hf|x Hx Hf|x Hx Hf|Hs Hre _ _ Hne Hann];
    try (by rewrite (Hr x Hx) in Hf).
  destruct (f_Objects (sf_Finding sf)) as [|o os]; [done|].
  destruct (Hann o) as [Ha Ht]; [by apply elem_of_cons; left|]. apply Hre. rewrite <- Ht. apply Ho; [|done].
  apply Hobj. by apply elem_of_cons; left.
Qed.

(** A finding no valid, unexpired rule names, and none of whose objects
    carries an annotation for it with a reason, stays. *)
Lemma Apply_keeps_finding (r r' : Report) (rules : list Rule) (opts : Options) (ws : list string) (f : Finding) :
  Apply r rules opts = Some (r', ws) -> f ∈ r_Findings r ->
  (forall rule, rule ∈ rules -> Validate rule = Ok tt -> expired rule (op_Now opts) = false -> ruleFor rule f = false) ->
  (forall o, o ∈ f_Objects f -> annotated o f = true -> TrimSpace (o_IgnoreReason o) = ""%string) ->
  f ∈ r_Findings r'.
Proof.
  intros HA Hin Hrules Hobjs. destruct (Apply_spec r rules opts) as (r1 & ws1 & HA1 & Hf & _).
  rewrite HA in HA1. injection HA1 as <- <-.
  assert (Hk : a_kept (applyFinding f (activeRules opts 0 rules).1 opts) = Some f).
  { apply applyFinding_unmatched; [|done]. intros x Hx. apply activeRules_spec in Hx as (? & ? & ?). auto. }
  rewrite Hf, list_elem_of_In, in_concat. exists [f]. split; [|by left]. apply in_map_iff. exists f.
  rewrite Hk. split; [done|]. apply list_elem_of_In. unfold judgedFindings. apply elem_of_app. by left.
Qed.

(** Suppression fails closed: a blocker that no valid, unexpired rule
    names, and none of whose objects carries an annotation for it with a
    reason, is still a finding of the report [Apply] returns, unchanged, and
    the verdict stays blocked, whatever else the rules accept. *)
Lemma Apply_keeps_unmatched (r r' : Report) (rules : list Rule) (opts : Options) (ws : list string) (f : Finding) :
  Apply r rules opts = Some (r', ws) ->
  r_Verdict r = verdictFor (r_Findings r) (r_NotAssessed r) ->
  f ∈ r_Findings r -> f_Severity f = SevBlocker ->
  (forall rule, rule ∈ rules -> Validate rule = Ok tt -> expired rule (op_Now opts) = false -> ruleFor rule f = false) ->
  (forall o, o ∈ f_Objects f -> annotated o f = true -> TrimSpace (o_IgnoreReason o) = ""%string) ->
  f ∈ r_Findings r' /\ r_Verdict r' = VerdictBlocked.
Proof.
  intros HA Hv Hin Hsev Hrules Hobjs. destruct (Apply_spec r rules opts) as (r1 & ws1 & HA1 & Hf & _ & Hna & Hver).
  rewrite HA in HA1. injection HA1 as <- <-.
  pose proof (Apply_keeps_finding r r' rules opts ws f HA Hin Hrules Hobjs) as Hin'.
  split; [done|]. destruct Hver as [->|(-> & _)]; [rewrite Hv|]; apply verdictFor_blocked; eauto.
Qed.

(** A report with two blockers, and a rule that accepts one of them. *)
Definition acceptedBlocker : Finding :=
  newFinding CatEOLAddon SevBlocker "eol-addon/ingress-nginx" "ingress-nginx is end of life" "" [].
Definition keptBlocker : Finding :=
  newFinding CatRemovedAPI SevBlocker "removed-api/batch/v1beta1/CronJob" "CronJob is removed" "" [].
Definition ignoreReport : Report :=
  Rescore (with_Findings [acceptedBlocker; keptBlocker] [] teamReport).
Definition ignoreRule : Rule := mkRule "" CatEOLAddon "" "" "" "replaced next quarter" "".
Definition expiredRule : Rule := mkRule "" CatRemovedAPI "" "" "" "migrating" "1970-01-01".
Definition ignoreOptions : Options := mkOptions (civil 2025 6 1 * day) ".upgradescope.yaml" "".

Definition applied_report : Report :=
  match Apply ignoreReport [ignoreRule; expiredRule] ignoreOptions with Some (r', _) => r' | None => ignoreReport end.
Definition applied_warnings : list string :=
  match Apply ignoreReport [ignoreRule; expiredRule] ignoreOptions with Some (_, ws) => ws | None => [] end.

Example applied_moves :
  r_Findings applied_report = [keptBlocker] /\
  r_Suppressed applied_report =
  [mkSuppressed acceptedBlocker "replaced next quarter" ".upgradescope.yaml" ""].
Proof. vm_compute. done. Qed.

Lemma Apply_justified_witness :
  let sf := mkSuppressed acceptedBlocker "replaced next quarter" ".upgradescope.yaml" "" in
  exists f, judgeable ignoreReport f /\ entry_of f sf /\
    exists rule, rule ∈ [ignoreRule; expiredRule] /\ inForce (op_Now ignoreOptions) rule f.
Proof.
  intros sf.
  destruct (Apply_justified ignoreReport applied_report [ignoreRule; expiredRule] ignoreOptions applied_warnings sf)
    as (f & Hj & He & [(rule & Hr & Hi & _)|(Hs & _)]).
  - vm_compute. reflexivity.
  - rewrite (proj2 applied_moves). by apply list_elem_of_singleton.
  - change (r_Suppressed ignoreReport) with (@nil SuppressedFinding). apply not_elem_of_nil.
  - eauto 7.
  - discriminate Hs.
Defined.

Lemma Apply_keeps_unmatched_witness :
  keptBlocker ∈ r_Findings applied_report /\ r_Verdict applied_report = VerdictBlocked.
Proof.
  apply (Apply_keeps_unmatched ignoreReport applied_report [ignoreRule; expiredRule] ignoreOptions applied_warnings).
  - vm_compute. reflexivity.
  - vm_compute. reflexivity.
  - apply list_elem_of_In. right. left. reflexivity.
  - reflexivity.
  - intros rule Hin Hv He. apply elem_of_cons in Hin as [->|Hin]; [vm_compute; reflexivity|].
    apply list_elem_of_singleton in Hin as ->. vm_compute in He. discriminate He.
  - intros o Hin. apply elem_of_nil in Hin. destruct Hin.
Defined.
