(* ===== verification/Baseline.v ===== *)
(** * Baselines (internal/suppress/baseline.go)

    A baseline is what an earlier report found; [Mark] says of every finding
    of a report whether the baseline had it. The JSON document is taken
    decoded: its decoding error, or the two optional fields the code reads. *)

From stdpp Require Import base list strings gmap.
From Stdlib Require Import ZArith Lia Ascii.
From S2P Require Import Prelude GoStr GoTime Version Inventory KB Findings.

Module Baseline.

(** The struct [objectID]: namespace, name and file. *)
Definition objectID : Type := string * string * string.

Definition objectIDOf (o : ObjectRef) : objectID := (o_Namespace o, o_Name o, o_File o).

Record baselineEntry := mkEntry {
  e_objects : gset objectID;
  e_total : Z;
  e_severity : Z;
}.

(** The field [findings] of the struct [Baseline]. *)
Definition Baseline : Type := gmap string baselineEntry.

(** [severityRank]: a severity the map has not ranks 0. *)
Definition baselineRank (s : string) : Z :=
  if s =s SevInfo then 1 else if s =s SevWarning then 2 else if s =s SevBlocker then 3 else 0.

Definition findingID (f : Finding) : string :=
  if negb (f_Key f =s "") then f_Key f else f_Category f +:+ String "000"%char "" +:+ f_Title f.

Definition legacyUnservedFinding (f : Finding) : bool :=
  if negb (f_Category f =s CatRemovedAPI) || negb (Contains (f_Title f) " is not served until ") then false
  else match BaseOfUnservedKey (f_Key f) with
       | Some _ => false
       | None => negb (HasPrefix (f_Key f) (CatRemovedAPI +:+ "/helm-release/"))
       end.

(** Listed plus omitted objects, in [int]. *)
Definition objectCount (f : Finding) : Z := wrap64 (zlen (f_Objects f) + f_ObjectsOmitted f).

Definition extendEntry (e : baselineEntry) (f : Finding) : baselineEntry :=
  mkEntry
    (fold_left (fun s o => {[objectIDOf o]} ∪ s) (f_Objects f) (e_objects e))
    (wrap64 (e_total e + objectCount f))
    (Z.max (e_severity e) (baselineRank (f_Severity f))).

Definition newEntry : baselineEntry := mkEntry ∅ 0 0.

(** One round of the loop of [ReadBaseline]. *)
Definition addFinding (b : Baseline) (f : Finding) : Baseline :=
  if legacyUnservedFinding f then b
  else <[findingID f := extendEntry (default newEntry (b !! findingID f)) f]> b.

Definition notAReport : string := "baseline is not an upgradescope JSON report".

Definition ReadBaseline (doc : res (option Z * option (list Finding))) (schemaVersion : Z) : res Baseline :=
  match doc with
  | Err e => Err (notAReport +:+ ": " +:+ e)
  | Ok (Some v, Some fs) =>
      if schemaVersion <? v then
        Err ("baseline schemaVersion " +:+ itoa v +:+ " is newer than this upgradescope reads (" +:+
             itoa schemaVersion +:+ ")")
      else Ok (fold_left addFinding fs ∅)
  | Ok _ => Err (notAReport +:+ " (want the output of scan --output json or --write-baseline)")
  end.

Definition stateOf (b : Baseline) (f : Finding) : string :=
  match b !! findingID f with
  | Some e =>
      if (baselineRank (f_Severity f) <=? e_severity e) && (objectCount f <=? e_total e) &&
         forallb (fun o => bool_decide (objectIDOf o ∈ e_objects e)) (f_Objects f)
      then BaselineUnchanged else BaselineNew
  | None => BaselineNew
  end.

Definition Mark (b : Baseline) (r : Report) : Report :=
  with_Findings (map (fun f => set_BaselineState (stateOf b f) f) (r_Findings r)) (r_Suppressed r) r.

(** ** What a baseline holds *)

(** The findings a baseline records under an id. *)
Definition recorded (id : string) (fs : list Finding) : list Finding :=
  filter (fun g => legacyUnservedFinding g = false /\ findingID g = id) fs.

Lemma baseline_lookup fs id :
  fold_left addFinding fs ∅ !! id =
  match recorded id fs with [] => None | gs => Some (fold_left extendEntry gs newEntry) end.
Proof.
  induction fs as [|f fs IH] using rev_ind; [exact (lookup_empty id)|].
  unfold recorded in *. rewrite fold_left_app, filter_app. cbn [fold_left].
  set (gs := filter _ fs) in *. rewrite filter_cons, filter_nil. unfold addFinding at 1. unfold Baseline in *.
  destruct (legacyUnservedFinding f) eqn:El.
  { rewrite decide_False by naive_solver. by rewrite app_nil_r. }
  destruct (decide (findingID f = id)) as [<-|Hne].
  - rewrite decide_True by done. rewrite lookup_insert, decide_True by done. rewrite IH.
    destruct gs as [|g gs'] eqn:Eg; [done|]. cbn. by rewrite fold_left_app.
  - rewrite decide_False by naive_solver. by rewrite lookup_insert_ne, app_nil_r.
Qed.

Lemma fold_objects (os : list ObjectRef) (s : gset objectID) (id : objectID) :
  id ∈ fold_left (fun (s : gset objectID) o => {[objectIDOf o]} ∪ s) os s <-> id ∈ s \/ exists o, o ∈ os /\ id = objectIDOf o.
Proof.
  revert s. induction os as [|o os IH]; intros s; cbn [fold_left].
  { split; [by left|]. by intros [H|(o & H%elem_of_nil & _)]. }
  rewrite IH, elem_of_union, elem_of_singleton. split.
  - intros [[H|H]|(x & H & E)]; [right|by left|right].
    + exists o. by split; [apply elem_of_cons; left|].
    + exists x. by split; [apply elem_of_cons; right|].
  - intros [H|(x & [->|H]%elem_of_cons & E)]; [auto|auto|eauto].
Qed.

Lemma entry_objects gs e (id : objectID) :
  id ∈ e_objects (fold_left extendEntry gs e) <->
  id ∈ e_objects e \/ exists g o, g ∈ gs /\ o ∈ f_Objects g /\ id = objectIDOf o.
Proof.
  revert e. induction gs as [|g gs IH]; intros e; cbn [fold_left].
  { split; [by left|]. by intros [H|(g & o & H%elem_of_nil & _)]. }
  rewrite IH. unfold extendEntry. cbn [e_objects]. rewrite fold_objects. split.
  - intros [[H|(o & H & E)]|(x & o & H & Ho & E)]; [by left|right|right].
    + exists g, o. by split; [apply elem_of_cons; left|].
    + exists x, o. by split; [apply elem_of_cons; right|].
  - intros [H|(x & o & [->|H]%elem_of_cons & Ho & E)]; eauto 8.
Qed.

Lemma entry_severity gs e z :
  z <= e_severity (fold_left extendEntry gs e) <->
  z <= e_severity e \/ exists g, g ∈ gs /\ z <= baselineRank (f_Severity g).
Proof.
  revert e. induction gs as [|g gs IH]; intros e; cbn [fold_left].
  { split; [by left|]. by intros [H|(g & H%elem_of_nil & _)]. }
  rewrite IH. unfold extendEntry at 1. cbn [e_severity]. split.
  - intros [H|(x & H & E)]; [|right; exists x; by split; [apply elem_of_cons; right|]].
    apply Z.max_le in H as [H|H]; [by left|]. right. exists g. by split; [apply elem_of_cons; left|].
  - intros [H|(x & [->|H]%elem_of_cons & E)]; [left; lia|left; lia|eauto].
Qed.

(** The objects of some findings, listed and omitted. *)
Definition countAll (gs : list Finding) : Z := sumZ (map (fun g => zlen (f_Objects g) + f_ObjectsOmitted g) gs).

Lemma countAll_nonneg gs : Forall (fun g => 0 <= f_ObjectsOmitted g) gs -> 0 <= countAll gs.
Proof. unfold countAll. induction 1; simpl; unfold zlen in *; lia. Qed.

Lemma entry_total gs e :
  Forall (fun g => 0 <= f_ObjectsOmitted g) gs -> 0 <= e_total e -> e_total e + countAll gs <= maxInt ->
  e_total (fold_left extendEntry gs e) = e_total e + countAll gs.
Proof.
  intros Hg. revert e. induction Hg as [|g gs Hg0 Hg IH]; intros e He Hb; cbn [fold_left].
  { unfold countAll. simpl. lia. }
  pose proof (countAll_nonneg gs Hg) as Hn.
  change (countAll (g :: gs)) with (zlen (f_Objects g) + f_ObjectsOmitted g + countAll gs) in *.
  assert (E : e_total (extendEntry e g) = e_total e + (zlen (f_Objects g) + f_ObjectsOmitted g)).
  { unfold extendEntry, objectCount. cbn [e_total].
    rewrite (wrap64_id (zlen _ + _)) by (unfold in_int64, minInt, zlen in *; lia).
    apply wrap64_id. unfold in_int64, minInt, zlen in *. lia. }
  rewrite IH; rewrite ?E; unfold zlen in *; lia.
Qed.

Lemma countAll_filter gs (P : Finding -> Prop) `{!forall x, Decision (P x)} :
  Forall (fun g => 0 <= f_ObjectsOmitted g) gs -> countAll (filter P gs) <= countAll gs.
Proof.
  unfold countAll. intros Hg. induction Hg as [|g gs Hg0 Hg IH]; [done|]. rewrite filter_cons.
  destruct (decide (P g)); simpl in *; unfold zlen in *; lia.
Qed.

Lemma countAll_elem gs f :
  Forall (fun g => 0 <= f_ObjectsOmitted g) gs -> f ∈ gs -> zlen (f_Objects f) + f_ObjectsOmitted f <= countAll gs.
Proof.
  induction 1 as [|g gs H0 H IH]; [by intros ?%elem_of_nil|]. pose proof (countAll_nonneg gs H) as Hn.
  change (countAll (g :: gs)) with (zlen (f_Objects g) + f_ObjectsOmitted g + countAll gs).
  intros [->|Hin]%elem_of_cons; [lia|]. specialize (IH Hin). unfold zlen in *. lia.
Qed.

(** ** Properties *)

(** What [unchanged] means, over the baseline's findings. *)
Lemma stateOf_unchanged fs f :
  stateOf (fold_left addFinding fs ∅) f = BaselineUnchanged <->
  exists g gs, recorded (findingID f) fs = g :: gs /\
    baselineRank (f_Severity f) <= e_severity (fold_left extendEntry (g :: gs) newEntry) /\
    objectCount f <= e_total (fold_left extendEntry (g :: gs) newEntry) /\
    forall o, o ∈ f_Objects f -> objectIDOf o ∈ e_objects (fold_left extendEntry (g :: gs) newEntry).
Proof.
  unfold stateOf. rewrite baseline_lookup. destruct (recorded (findingID f) fs) as [|g gs].
  { split; [done|]. by intros (g & gs & H & _). }
  set (e := fold_left extendEntry (g :: gs) newEntry).
  destruct (_ && _ && _) eqn:E.
  - split; [|done]. intros _. exists g, gs. split; [done|]. fold e. rewrite !andb_true_iff, forallb_forall in E.
    destruct E as ((E1%Z.leb_le & E2%Z.leb_le) & E3). split; [done|]. split; [done|].
    intros o Ho%list_elem_of_In. by eapply bool_decide_eq_true_1, E3.
  - split; [done|]. intros (g' & gs' & H & H1 & H2 & H3). injection H as <- <-. fold e in H1, H2, H3.
    apply not_true_iff_false in E. exfalso. apply E. rewrite !andb_true_iff, forallb_forall. split; [split|].
    + by apply Z.leb_le.
    + by apply Z.leb_le.
    + intros o Ho. apply bool_decide_eq_true_2, H3. by apply list_elem_of_In.
Qed.

Lemma elem_of_recorded g id fs : g ∈ recorded id fs <-> g ∈ fs /\ legacyUnservedFinding g = false /\ findingID g = id.
Proof. unfold recorded. rewrite list_elem_of_filter. tauto. Qed.

(** A report is unchanged against itself: read back as the baseline,
    its own findings hold every finding of it, whatever the order, the
    duplicate keys and the unlisted objects, as long as the objects of the
    whole report fit the machine's integers and none of its findings is one
    that a baseline does not keep ([legacyUnservedFinding]: of an API the
    target does not serve yet, under the key it had before /unserved). *)
Lemma Mark_self (r : Report) (schema v : Z) (b : Baseline) (f : Finding) :
  ReadBaseline (Ok (Some v, Some (r_Findings r))) schema = Ok b ->
  (forall g, g ∈ r_Findings r -> legacyUnservedFinding g = false /\ 0 <= f_ObjectsOmitted g) ->
  countAll (r_Findings r) <= maxInt ->
  f ∈ r_Findings (Mark b r) -> f_BaselineState f = BaselineUnchanged.
Proof.
  unfold ReadBaseline. destruct (schema <? v); [done|]. intros Hb Hok Hmax Hin. injection Hb as <-.
  unfold Mark in Hin. cbn [r_Findings with_Findings] in Hin.
  apply list_elem_of_In, in_map_iff in Hin as (g & <- & Hg%list_elem_of_In). cbn [f_BaselineState set_BaselineState].
  apply stateOf_unchanged.
  assert (Hrec : g ∈ recorded (findingID g) (r_Findings r)) by (apply elem_of_recorded; naive_solver).
  assert (Hpos : Forall (fun g => 0 <= f_ObjectsOmitted g) (r_Findings r)).
  { apply Forall_forall. intros x Hx. by apply Hok. }
  assert (Hpos' : Forall (fun g => 0 <= f_ObjectsOmitted g) (recorded (findingID g) (r_Findings r))).
  { rewrite Forall_forall in Hpos |- *. intros x Hx%elem_of_recorded. apply Hpos. tauto. }
  pose proof (countAll_filter _ (fun x => legacyUnservedFinding x = false /\ findingID x = findingID g) Hpos) as Hle.
  fold (recorded (findingID g) (r_Findings r)) in Hle.
  destruct (recorded (findingID g) (r_Findings r)) as [|g0 gs] eqn:E; [by apply elem_of_nil in Hrec|].
  exists g0, gs. split; [done|]. split; [|split].
  - apply entry_severity. right. exists g. split; [done|lia].
  - rewrite entry_total by (simpl; done || lia). pose proof (countAll_elem _ _ Hpos' Hrec) as Hc.
    unfold objectCount. rewrite wrap64_id; [simpl; lia|]. unfold in_int64, minInt, zlen in *.
    destruct (Hok g Hg). lia.
  - intros o Ho. apply entry_objects. right. eauto.
Qed.

(** C35 A baseline never hides what is new: a finding marked unchanged was
    in the baseline under the same id, at the same or a higher severity
    rank, and every object it lists was listed there under that id. So an
    escalated finding, a new key and a new object are all new. *)
Theorem Mark_unchanged_recorded (fs : list Finding) (schema v : Z) (b : Baseline) (r : Report) (f : Finding) :
  ReadBaseline (Ok (Some v, Some fs)) schema = Ok b ->
  f ∈ r_Findings (Mark b r) -> f_BaselineState f = BaselineUnchanged ->
  (exists g, g ∈ fs /\ findingID g = findingID f /\ legacyUnservedFinding g = false /\
     baselineRank (f_Severity f) <= baselineRank (f_Severity g)) /\
  (forall o, o ∈ f_Objects f ->
     exists g o', g ∈ fs /\ findingID g = findingID f /\ legacyUnservedFinding g = false /\
       o' ∈ f_Objects g /\ objectIDOf o' = objectIDOf o).
Proof.
  unfold ReadBaseline. destruct (schema <? v); [done|]. intros Hb Hin Hst. injection Hb as <-.
  unfold Mark in Hin. cbn [r_Findings with_Findings] in Hin.
  apply list_elem_of_In, in_map_iff in Hin as (h & <- & _). cbn [f_BaselineState set_BaselineState f_Severity f_Objects] in *.
  change (findingID (set_BaselineState (stateOf (fold_left addFinding fs ∅) h) h)) with (findingID h).
  apply stateOf_unchanged in Hst as (g0 & gs & E & Hs & _ & Ho).
  assert (Hrec : forall g, g ∈ g0 :: gs -> g ∈ fs /\ legacyUnservedFinding g = false /\ findingID g = findingID h).
  { intros g Hg. apply elem_of_recorded. by rewrite E. }
  split.
  - apply entry_severity in Hs as [Hs|(g & Hg & Hs)].
    + exists g0. destruct (Hrec g0) as (? & ? & ?); [by apply elem_of_cons; left|]. split_and!; [done..|].
      simpl in Hs. unfold baselineRank in *. repeat case_match; lia.
    + exists g. destruct (Hrec g Hg) as (? & ? & ?). done.
  - intros o Hin. apply Ho, entry_objects in Hin as [Hin|(g & o' & Hg & Ho' & E')].
    + by apply elem_of_empty in Hin.
    + destruct (Hrec g Hg) as (? & ? & ?). exists g, o'. done.
Qed.

(** A finding with an object, at a severity. *)
Definition baselineFinding (sev : string) (name : string) : Finding :=
  set_Objects [mkObjectRef "prod" name "" 0 "" "" "" "" false false] 2
    (newFinding CatRemovedAPI sev "removed-api/batch/v1beta1/CronJob" "CronJob is removed" "" []).

Definition baselineReport : Report :=
  Rescore (with_Findings [baselineFinding SevBlocker "nightly"; baselineFinding SevWarning "hourly"] [] teamReport).

Definition selfBaseline : Baseline := fold_left addFinding (r_Findings baselineReport) ∅.

Definition markedFinding : Finding := set_BaselineState BaselineUnchanged (baselineFinding SevBlocker "nightly").

Lemma Mark_self_witness :
  markedFinding ∈ r_Findings (Mark selfBaseline baselineReport) /\ f_BaselineState markedFinding = BaselineUnchanged.
Proof.
  assert (Hin : markedFinding ∈ r_Findings (Mark selfBaseline baselineReport)).
  { apply list_elem_of_In. left. vm_compute. reflexivity. }
  split; [exact Hin|]. apply (Mark_self baselineReport 1 1 selfBaseline markedFinding).
  - reflexivity.
  - intros g Hg. apply elem_of_cons in Hg as [->|Hg]; [split; [vm_compute; reflexivity|discriminate]|].
    apply list_elem_of_singleton in Hg as ->. split; [vm_compute; reflexivity|discriminate].
  - vm_compute. discriminate.
  - exact Hin.
Defined.

Lemma Mark_unchanged_recorded_witness :
  exists g, g ∈ r_Findings baselineReport /\ findingID g = findingID markedFinding /\
    legacyUnservedFinding g = false /\
    baselineRank (f_Severity markedFinding) <= baselineRank (f_Severity g).
Proof.
  refine (proj1 (Mark_unchanged_recorded (r_Findings baselineReport) 1 1 selfBaseline baselineReport markedFinding _ _ _)).
  - reflexivity.
  - apply list_elem_of_In. left. vm_compute. reflexivity.
  - reflexivity.
Defined.

End Baseline.
