(* ===== verification/GoUtf8.v ===== *)
(** * UTF-8: what the server uses of unicode/utf8 and strings.ToValidUTF8

    A string is a sequence of bytes; [runeLen] is the width of the encoding it
    starts with, by the table of well-formed byte sequences, and [None] for a
    byte that starts none. *)

From stdpp Require Import base list strings.
From Stdlib Require Import ZArith Lia Ascii.
From S2P Require Import Prelude GoStr.

Definition byte_in (lo hi : N) (a : ascii) : bool := (lo <=? N_of_ascii a)%N && (N_of_ascii a <=? hi)%N.

Definition continuation (a : ascii) : bool := byte_in 128 191 a.

(** Where the second byte of a three- or four-byte encoding lies. *)
Definition second3 (a b : ascii) : bool :=
  if byte_in 224 224 a then byte_in 160 191 b
  else if byte_in 237 237 a then byte_in 128 159 b
  else continuation b.

Definition second4 (a b : ascii) : bool :=
  if byte_in 240 240 a then byte_in 144 191 b
  else if byte_in 244 244 a then byte_in 128 143 b
  else continuation b.

Definition runeLen (s : string) : option nat :=
  match s with
  | EmptyString => None
  | String a s1 =>
      if byte_in 0 127 a then Some 1%nat
      else match s1 with
      | EmptyString => None
      | String b s2 =>
          if byte_in 194 223 a then (if continuation b then Some 2%nat else None)
          else match s2 with
          | EmptyString => None
          | String c s3 =>
              if byte_in 224 239 a then (if second3 a b && continuation c then Some 3%nat else None)
              else match s3 with
              | EmptyString => None
              | String d _ =>
                  if byte_in 240 244 a then
                    (if second4 a b && continuation c && continuation d then Some 4%nat else None)
                  else None
              end
          end
      end
  end.

Fixpoint takeBytes (n : nat) (s : string) : string :=
  match n, s with
  | S n', String a s' => String a (takeBytes n' s')
  | _, _ => ""
  end.

Fixpoint dropBytes (n : nat) (s : string) : string :=
  match n, s with
  | S n', String _ s' => dropBytes n' s'
  | _, _ => s
  end.

(** [strings.ToValidUTF8(s, "")]: bytes that start no encoding are dropped. *)
Fixpoint validFrom (fuel : nat) (s : string) : string :=
  match fuel, s with
  | S fuel', String _ s' =>
      match runeLen s with
      | Some n => takeBytes n s +:+ validFrom fuel' (dropBytes n s)
      | None => validFrom fuel' s'
      end
  | _, _ => ""
  end.

Definition ToValidUTF8 (s : string) : string := validFrom (String.length s) s.

(** Well-formed text: encodings one after the other. *)
Inductive utf8 : string -> Prop :=
| utf8_nil : utf8 ""
| utf8_rune s n : runeLen s = Some n -> utf8 (dropBytes n s) -> utf8 s.

(** [strings.ReplaceAll(s, c, "")] for a one-byte [c]. *)
Fixpoint without (c : ascii) (s : string) : string :=
  match s with
  | EmptyString => ""
  | String a s' => if (a =? c)%char then without c s' else String a (without c s')
  end.

(** [utf8.RuneStart]: not a continuation byte. *)
Definition RuneStart (a : ascii) : bool := negb (Z.land (Z.of_N (N_of_ascii a)) 0xC0 =? 0x80).

(** The last rune boundary at or before byte [cut]: the loop of every cut at a
    character boundary. *)
Fixpoint cutAt (s : string) (cut : nat) : nat :=
  match cut with
  | O => O
  | S cut' =>
      match String.get cut s with
      | Some a => if RuneStart a then cut else cutAt s cut'
      | None => cut
      end
  end.

(** ** Facts *)

#[local] Arguments String.append : simpl nomatch.

Lemma take_drop_bytes n s : takeBytes n s +:+ dropBytes n s = s.
Proof. revert s. induction n as [|n IH]; intros [|a s]; simpl; [done..|]. f_equal. apply IH. Qed.

Lemma takeBytes_length n s : (String.length (takeBytes n s) <= n)%nat.
Proof. revert s. induction n as [|n IH]; intros [|a s]; simpl; [lia..|]. specialize (IH s). lia. Qed.

Lemma length_app_s s t : String.length (s +:+ t) = (String.length s + String.length t)%nat.
Proof. induction s; simpl; congruence. Qed.

Lemma runeLen_bounds s n : runeLen s = Some n -> (0 < n <= String.length s)%nat.
Proof.
  unfold runeLen. destruct s as [|a [|b [|c [|d s]]]]; simpl; intros Hr; repeat case_match; simplify_eq; simpl; lia.
Qed.

(** An encoding is recognised whatever follows it. *)
Lemma runeLen_app s n t : runeLen s = Some n -> runeLen (takeBytes n s +:+ t) = Some n.
Proof.
  unfold runeLen. destruct s as [|a [|b [|c [|d s]]]]; simpl; intros Hr; repeat case_match; simplify_eq; simpl in *;
    simplify_eq; repeat case_match; simplify_eq; congruence.
Qed.

Lemma dropBytes_take n s t : (n <= String.length s)%nat -> dropBytes n (takeBytes n s +:+ t) = t.
Proof.
  revert s. induction n as [|n IH]; intros [|a s] Hn; simpl in *; try done; [lia|]. apply IH. lia.
Qed.

Lemma dropBytes_length n s : String.length (dropBytes n s) = (String.length s - n)%nat.
Proof. revert s. induction n as [|n IH]; intros [|a s]; simpl; [done..|]. apply IH. Qed.

Lemma validFrom_utf8 fuel s : utf8 (validFrom fuel s).
Proof.
  revert s. induction fuel as [|fuel IH]; intros s; [constructor|]. destruct s as [|a s']; [constructor|].
  cbn [validFrom]. destruct (runeLen (String a s')) as [n|] eqn:E; [|apply IH].
  apply (utf8_rune _ n); [by apply runeLen_app|]. rewrite dropBytes_take; [apply IH|].
  by apply runeLen_bounds in E as [_ ?].
Qed.

Lemma ToValidUTF8_utf8 s : utf8 (ToValidUTF8 s).
Proof. apply validFrom_utf8. Qed.

Lemma validFrom_length fuel s : (String.length (validFrom fuel s) <= String.length s)%nat.
Proof.
  revert s. induction fuel as [|fuel IH]; intros s; [simpl; lia|]. destruct s as [|a s']; [simpl; lia|].
  cbn [validFrom]. destruct (runeLen (String a s')) as [n|] eqn:E.
  - rewrite length_app_s. rewrite <- (take_drop_bytes n (String a s')) at 3. rewrite length_app_s.
    specialize (IH (dropBytes n (String a s'))). lia.
  - specialize (IH s'). simpl. lia.
Qed.

Lemma ToValidUTF8_length s : slen (ToValidUTF8 s) <= slen s.
Proof. unfold slen, ToValidUTF8. pose proof (validFrom_length (String.length s) s). lia. Qed.

(** Every byte of the result is a byte of the text. *)
Fixpoint all_bytes (P : ascii -> Prop) (s : string) : Prop :=
  match s with EmptyString => True | String a s' => P a /\ all_bytes P s' end.

Lemma all_bytes_app P s t : all_bytes P (s +:+ t) <-> all_bytes P s /\ all_bytes P t.
Proof. induction s; simpl; naive_solver. Qed.

Lemma all_bytes_split P n s : all_bytes P s -> all_bytes P (takeBytes n s) /\ all_bytes P (dropBytes n s).
Proof. intros H. apply all_bytes_app. by rewrite take_drop_bytes. Qed.

Lemma validFrom_bytes P fuel s : all_bytes P s -> all_bytes P (validFrom fuel s).
Proof.
  revert s. induction fuel as [|fuel IH]; intros s Hs; [done|]. destruct s as [|a s']; [done|]. cbn [validFrom].
  destruct (runeLen _) as [n|]; [|apply IH; by destruct Hs].
  apply all_bytes_app. destruct (all_bytes_split P n _ Hs) as [Ht Hd]. auto.
Qed.

Lemma without_bytes c s : all_bytes (fun a => a <> c) (without c s).
Proof.
  induction s as [|a s IH]; simpl; [done|]. destruct (a =? c)%char eqn:E; [done|]. simpl. split; [|done].
  by apply Ascii.eqb_neq.
Qed.

Lemma validFrom_id fuel s : utf8 s -> (String.length s <= fuel)%nat -> validFrom fuel s = s.
Proof.
  intros Hs. revert fuel. induction Hs as [|s n Hn Hs IH]; intros fuel Hf; [by destruct fuel|].
  destruct (runeLen_bounds s n Hn) as [Hpos Hle]. destruct s as [|a s']; [simpl in Hle; lia|].
  destruct fuel as [|fuel]; [simpl in Hf; lia|]. cbn [validFrom]. rewrite Hn, IH; [apply take_drop_bytes|].
  rewrite dropBytes_length. simpl in *. lia.
Qed.

Lemma without_id c s : all_bytes (fun a => a <> c) s -> without c s = s.
Proof.
  induction s as [|a s IH]; [done|]. simpl. intros [Ha Hs]. destruct (a =? c)%char eqn:E; [by apply Ascii.eqb_eq in E|].
  by rewrite IH.
Qed.

(** ** Cuts at a character boundary *)

Lemma continuation_not_start a : continuation a = true -> RuneStart a = false.
Proof. destruct a as [[] [] [] [] [] [] [] []]; vm_compute; congruence. Qed.

Lemma byte_start a : byte_in 0 127 a || byte_in 192 255 a = true -> RuneStart a = true.
Proof. destruct a as [[] [] [] [] [] [] [] []]; vm_compute; congruence. Qed.

Lemma second_continuation a b : (second3 a b = true -> continuation b = true) /\ (second4 a b = true -> continuation b = true).
Proof.
  unfold second3, second4, continuation, byte_in. split; repeat case_match; intros Hb; to_prop; apply andb_true_iff; split;
    apply N.leb_le; repeat match goal with Hx : (_ <=? _)%N = true |- _ => apply N.leb_le in Hx end; lia.
Qed.

(** The bytes of an encoding after its first are not rune starts. *)
Lemma runeLen_inner s n i a : runeLen s = Some n -> (0 < i < n)%nat -> String.get i s = Some a -> RuneStart a = false.
Proof.
  unfold runeLen. intros Hr Hi Hg. apply continuation_not_start.
  destruct s as [|b0 [|b1 [|b2 [|b3 s]]]]; repeat case_match; simplify_eq; to_prop;
    (destruct i as [|[|[|[|i]]]]; simpl in Hg; try lia; simplify_eq; try done);
    first [by apply (proj1 (second_continuation b0 _))|by apply (proj2 (second_continuation b0 _))].
Qed.

Lemma runeLen_start s n a : runeLen s = Some n -> String.get 0 s = Some a -> RuneStart a = true.
Proof.
  unfold runeLen. destruct s as [|b0 s]; [done|]. intros Hr [= <-]. apply byte_start. apply orb_true_iff.
  destruct (byte_in 0 127 b0) eqn:E; [by left|]. right. unfold byte_in in *.
  repeat case_match; simplify_eq; to_prop; apply andb_true_iff; split; apply N.leb_le;
    repeat match goal with Hx : (_ <=? _)%N = true |- _ => apply N.leb_le in Hx end; lia.
Qed.

Lemma get_drop k i s : String.get (k + i) s = String.get i (dropBytes k s).
Proof. revert s. induction k as [|k IH]; intros [|a s]; simpl; [done..|by destruct i|apply IH]. Qed.

Lemma cutAt_inner s n k : runeLen s = Some n -> (k < n)%nat -> cutAt s k = O.
Proof.
  intros Hn. induction k as [|k IH]; intros Hk; [done|]. cbn [cutAt]. destruct (runeLen_bounds s n Hn) as [_ Hle].
  destruct (String.get (S k) s) as [a|] eqn:Hg.
  - rewrite (runeLen_inner s n (S k) a Hn) by (done || lia). apply IH. lia.
  - exfalso. revert Hg. assert (S k < String.length s)%nat as Hlt by lia. clear -Hlt. revert s Hlt.
    induction (S k) as [|i IHi]; intros [|b s] Hlt; simpl in *; try lia; [done|]. apply IHi. lia.
Qed.

Lemma cutAt_zero s : utf8 s -> match String.get 0 s with Some a => RuneStart a = true | None => True end.
Proof. intros Hs. destruct (String.get 0 s) as [a|] eqn:Hg; [|done]. destruct Hs as [|s n Hn _]; [done|]. by eapply runeLen_start. Qed.

Lemma cutAt_rest s n k : runeLen s = Some n -> utf8 (dropBytes n s) -> cutAt s (n + k) = (n + cutAt (dropBytes n s) k)%nat.
Proof.
  intros Hn Hd. destruct (runeLen_bounds s n Hn) as [Hpos _]. induction k as [|k IH].
  - rewrite Nat.add_0_r. destruct n as [|n]; [lia|]. cbn [cutAt]. pose proof (get_drop (S n) 0 s) as Hg. rewrite Nat.add_0_r in Hg.
    rewrite Hg. pose proof (cutAt_zero _ Hd) as Hz. destruct (String.get 0 (dropBytes (S n) s)); [rewrite Hz|]; lia.
  - rewrite Nat.add_succ_r. cbn [cutAt]. rewrite <- Nat.add_succ_r, get_drop.
    destruct (String.get (S k) (dropBytes n s)) as [a|]; [|lia]. destruct (RuneStart a); [lia|]. exact IH.
Qed.

Lemma takeBytes_add n k s : takeBytes (n + k) s = takeBytes n s +:+ takeBytes k (dropBytes n s).
Proof. revert s. induction n as [|n IH]; intros [|a s]; simpl; [done..|by destruct k|]. f_equal. apply IH. Qed.

(** A cut at [cutAt] keeps whole characters. *)
Lemma cut_utf8 s : utf8 s -> forall k, utf8 (takeBytes (cutAt s k) s).
Proof.
  induction 1 as [|s n Hn Hs IH]; intros k.
  - assert (takeBytes (cutAt "" k) "" = ""%string) as -> by (by destruct (cutAt "" k)). constructor.
  - destruct (decide (k < n)%nat) as [Hlt|Hge]; [rewrite (cutAt_inner s n) by done; constructor|].
    replace k with (n + (k - n))%nat by lia. rewrite (cutAt_rest s n), takeBytes_add by done.
    apply (utf8_rune _ n); [by apply runeLen_app|]. rewrite dropBytes_take by (by apply runeLen_bounds). apply IH.
Qed.

Lemma cutAt_le s k : (cutAt s k <= k)%nat.
Proof. induction k as [|k IH]; [done|]. cbn [cutAt]. destruct (String.get _ _) as [a|]; [destruct (RuneStart a)|]; lia. Qed.

Lemma utf8_app s t : utf8 s -> utf8 t -> utf8 (s +:+ t).
Proof.
  induction 1 as [|s n Hn Hs IH]; intros Ht; [done|]. pose proof (take_drop_bytes n s) as Hsplit. rewrite <- Hsplit, app_assoc_s.
  apply (utf8_rune _ n); [by apply runeLen_app|]. rewrite dropBytes_take by (by apply runeLen_bounds). by apply IH.
Qed.
