(* ===== verification/Admit.v ===== *)
(** * Inventory limits: internal/inventory/limits.go, validate.go, volumes.go and admit.go

    What an inventory must satisfy before it is judged: the identifier rules
    of the apiserver, the sizes no collector goes beyond, and the cut of the
    free text collectors copy whole. Go iterates a map in any order: which of
    several problems in one map is reported depends on it, whether there is
    one does not; the model takes the order of [map_to_list]. *)

From stdpp Require Import base list strings gmap.
From Stdlib Require Import ZArith Lia Ascii.
From S2P Require Import Prelude GoStr GoTime GoUtf8 Version Inventory KB Findings.

(** ** Code outside the repository

    The identifier rules are k8s.io/apimachinery's validate/content: each
    returns what is wrong with a value, nothing when it is valid. *)

Class Content := {
  IsDNS1123Label : string -> list string;
  IsDNS1123Subdomain : string -> list string;
  IsLabelValue : string -> list string;
  IsPathSegmentName : string -> list string;
  MaxLenError : Z -> string;
  EmptyError : string;
}.

(** The Unicode tables of the toolchain: whether a rune past ASCII is a
    letter, mark, number, punctuation or symbol. *)
Class Unicode := { printable : Z -> bool }.

(** ** Limits *)

Definition MaxStringBytes : Z := 16384.
Definition MaxReasonBytes : Z := 65536.
Definition MaxManagerBytes : Z := 128.
Definition MaxCapabilities : Z := 32.
Definition MaxObjectNameBytes : Z := 253.
Definition MaxVolumePlugins : Z := 64.

Definition SupportedSchemaVersion : Z := 1.
Definition CurrentCollectorSchema : Z := 1.

Record LimitError := mkLimitError {
  le_Field : string;
  le_Problem : string;
  le_At : string;
  le_Limit : string;
}.

Record IdentifierError := mkIdentifierError {
  ie_Field : string;
  ie_Value : string;
  ie_Rule : string;
  ie_Problems : list string;
}.

Inductive admitError :=
| SchemaVersionError (got : Z)
| CollectorSchemaError (got : Z)
| ServerVersionError (err : string)
| BadIdentifier (e : IdentifierError)
| BeyondLimit (e : LimitError).

(** [if err := a; err != nil { return err }; b], and a loop that returns its
    first error. *)
Definition andThen {E} (a b : option E) : option E := match a with Some e => Some e | None => b end.
Infix ";?" := andThen (at level 63, right associativity) : go_scope.

Fixpoint firstError {A E} (f : Z -> A -> option E) (i : Z) (l : list A) : option E :=
  match l with
  | [] => None
  | x :: l' => f i x ;? firstError f (i + 1) l'
  end.

Definition forEach {A E} (f : Z -> A -> option E) (l : list A) : option E := firstError f 0 l.

(** ** Text *)

Definition cutMark : string := " " +:+ bytes [226; 128; 166]%N +:+ "(cut)".

Definition utf8Prefix (s : string) (n : Z) : string :=
  if slen s <=? n then s else takeBytes (cutAt s (Z.to_nat n)) s.

Definition cutText (s : string) (max : Z) : option string :=
  if slen s <=? max then None else Some (utf8Prefix s (max - slen cutMark) +:+ cutMark).

(** [strings.TrimRight(s, ", ")]. *)
Fixpoint trimTokens (s : string) : string :=
  match s with
  | ""%string => ""
  | String a s' =>
      match trimTokens s' with
      | ""%string => if Ascii.eqb a "," || Ascii.eqb a " " then "" else String a ""
      | r => String a r
      end
  end.

Definition cutTokens (s : string) (max : Z) : option string :=
  if slen s <=? max then None
  else match cut_last (takeBytes (Z.to_nat (max + 1)) s) "," with
       | None => Some ""
       | Some (before, _) => Some (trimTokens before)
       end.

(** [quoteShort]: at most the first 64 bytes, at a character boundary. *)
Definition quoteShort (s : string) : string :=
  if slen s <=? 64 then quote s
  else quote (takeBytes (cutAt s 64) s) +:+ bytes [226; 128; 166]%N +:+ " (" +:+ itoa (slen s) +:+ " bytes)".

(** The rune a string starts with, U+FFFD for a byte that starts none. *)
Definition low6 (a : ascii) : Z := Z.land (Z.of_N (N_of_ascii a)) 0x3F.

Definition runeAt (s : string) : Z :=
  let lead a m := Z.land (Z.of_N (N_of_ascii a)) m in
  match runeLen s, s with
  | Some 1%nat, String a _ => lead a 0x7F
  | Some 2%nat, String a (String b _) => Z.lor (Z.shiftl (lead a 0x1F) 6) (low6 b)
  | Some 3%nat, String a (String b (String c _)) =>
      Z.lor (Z.shiftl (lead a 0x0F) 12) (Z.lor (Z.shiftl (low6 b) 6) (low6 c))
  | Some 4%nat, String a (String b (String c (String d _))) =>
      Z.lor (Z.shiftl (lead a 0x07) 18) (Z.lor (Z.shiftl (low6 b) 12) (Z.lor (Z.shiftl (low6 c) 6) (low6 d)))
  | _, _ => 0xFFFD
  end.

(** [unicode.IsPrint]. *)
Definition IsPrint `{Unicode} (r : Z) : bool :=
  if r <? 0x80 then (0x20 <=? r) && (r <? 0x7F) else printable r.

(** [strings.IndexFunc(m, !unicode.IsPrint)]; the length of the text is
    enough fuel, as every step takes a byte. *)
Fixpoint nonPrintFrom `{Unicode} (fuel : nat) (i : Z) (s : string) : option Z :=
  match fuel, s with
  | S fuel', String _ _ =>
      if IsPrint (runeAt s) then
        let n := default 1%nat (runeLen s) in nonPrintFrom fuel' (i + Z.of_nat n) (dropBytes n s)
      else Some i
  | _, _ => None
  end.

Definition nonPrint `{Unicode} (s : string) : option Z := nonPrintFrom (String.length s) 0 s.

Definition AppendReason (reason addition : string) : string :=
  let addition := default addition (cutText addition MaxReasonBytes) in
  if reason =s "" then addition
  else
    let room := MaxReasonBytes - slen addition - 2 in
    if room <? slen reason then
      if room <? slen cutMark then addition
      else utf8Prefix reason (room - slen cutMark) +:+ cutMark +:+ "; " +:+ addition
    else reason +:+ "; " +:+ addition.

(** ** Identifiers *)

Section Admission.
Context `{Content} `{Unicode}.

Definition ruleNamespace : string := "a namespace name: an RFC 1123 label of at most 63 bytes".
Definition ruleObjectName : string := "an object name: at most 253 bytes, not '.' or '..', without '/' or '%'".
Definition ruleSubdomain : string := "an RFC 1123 subdomain of at most 253 bytes".
Definition ruleLabelValue : string := "a label value: at most 63 bytes".
Definition ruleProvider : string := "a provider name: at most 63 bytes of letters, digits, '-', '_' or '.'".
Definition ruleVolumePlugin : string :=
  "a volume plugin: a field name of at most 64 ASCII letters and digits, starting with a letter".

Definition namespaceProblems (s : string) : list string := IsDNS1123Label s.
Definition subdomainProblems (s : string) : list string := IsDNS1123Subdomain s.
Definition labelValueProblems (s : string) : list string := IsLabelValue s.

Definition objectNameProblems (s : string) : list string :=
  IsPathSegmentName s ++ (if MaxObjectNameBytes <? slen s then [MaxLenError MaxObjectNameBytes] else []).

(** An empty identifier is unset, and accepted everywhere. *)
Definition problemsWith (value : string) (problems : string -> list string) : list string :=
  if value =s "" then [] else problems value.

(** [if p := problemsWith(...); p != nil { return &IdentifierError{...} }]. *)
Definition identifier (field value rule : string) (problems : string -> list string) : option IdentifierError :=
  match problemsWith value problems with
  | [] => None
  | p => Some (mkIdentifierError field value rule p)
  end.

Definition ValidateClusterName (name : string) : option IdentifierError :=
  let p := if name =s "" then [EmptyError] else subdomainProblems name in
  match p with
  | [] => None
  | p => Some (mkIdentifierError "clusterName" name ruleSubdomain p)
  end.

(** The least namespace key that is not a namespace name. *)
Definition worseKey (bad : option string) (ns : string) : option string :=
  if match bad with Some b => negb (ns <s b) | None => false end then bad
  else match problemsWith ns namespaceProblems with
       | [] => bad
       | _ => Some ns
       end.

Definition keysOf (m : gmap string Z) : list string := (map_to_list m).*1.

Definition validateUsage (at_ : string) (u : APIUsage) : option IdentifierError :=
  match foldl worseKey None (keysOf (u_Namespaces u)) with
  | Some ns => Some (mkIdentifierError (at_ +:+ ".namespaces") ns ruleNamespace (problemsWith ns namespaceProblems))
  | None =>
      forEach (fun k o =>
        identifier (at_ +:+ ".objects[" +:+ itoa k +:+ "].namespace") (o_Namespace o) ruleNamespace namespaceProblems ;?
        identifier (at_ +:+ ".objects[" +:+ itoa k +:+ "].name") (o_Name o) ruleObjectName objectNameProblems) (u_Objects u)
  end.

Definition asUsage (v : VolumePluginUse) : APIUsage :=
  mkAPIUsage "" "" (vu_Plugin v) (vu_Count v) (vu_Namespaces v) (vu_Objects v) (vu_ObjectsOmitted v).

Definition is_letter (a : ascii) : bool := ascii_between "a" "z" a || ascii_between "A" "Z" a.

Fixpoint all_alnum (s : string) : bool :=
  match s with
  | ""%string => true
  | String a s' => (is_letter a || is_digit a) && all_alnum s'
  end.

(** The match of [^[a-zA-Z][a-zA-Z0-9]{0,63}$]. *)
Definition volumePluginName (s : string) : bool :=
  match s with
  | ""%string => false
  | String a s' => is_letter a && all_alnum s' && (slen s' <=? 63)
  end.

Definition volumePluginProblems (s : string) : list string :=
  if volumePluginName s then []
  else if 64 <? slen s then ["longer than 64 bytes (" +:+ itoa (slen s) +:+ ")"]
  else ["not a field name: ASCII letters and digits, starting with a letter"].

Definition validateVolumeIdentifiers (inv : Inventory) : option IdentifierError :=
  forEach (fun i v =>
    let at_ := "volumePlugins[" +:+ itoa i +:+ "]" in
    identifier (at_ +:+ ".plugin") (vu_Plugin v) ruleVolumePlugin volumePluginProblems ;?
    validateUsage at_ (asUsage v)) (VolumePlugins inv).

Definition validateRelease (i : Z) (r : HelmRelease) : option IdentifierError :=
  let at_ := "helmReleases[" +:+ itoa i +:+ "]" in
  identifier (at_ +:+ ".name") (h_Name r) ruleSubdomain subdomainProblems ;?
  identifier (at_ +:+ ".namespace") (h_Namespace r) ruleNamespace namespaceProblems ;?
  forEach (fun j u => validateUsage (at_ +:+ ".manifestApis[" +:+ itoa j +:+ "]") u) (h_ManifestAPIs r).

Definition validateChart (i : Z) (c : GitOpsChart) : option IdentifierError :=
  let at_ := "gitopsCharts[" +:+ itoa i +:+ "]" in
  identifier (at_ +:+ ".name") (g_Name c) ruleSubdomain subdomainProblems ;?
  identifier (at_ +:+ ".namespace") (g_Namespace c) ruleNamespace namespaceProblems ;?
  identifier (at_ +:+ ".target") (g_Target c) ruleNamespace namespaceProblems.

Definition validateNamespace (i : Z) (n : NamespaceInfo) : option IdentifierError :=
  identifier ("namespaces[" +:+ itoa i +:+ "].name") (ns_Name n) ruleNamespace namespaceProblems ;?
  identifier ("namespaces[" +:+ itoa i +:+ "].team") (ns_Team n) ruleLabelValue labelValueProblems.

Definition ValidateIdentifiers (inv : Inventory) : option IdentifierError :=
  identifier "provider" (Provider inv) ruleProvider labelValueProblems ;?
  forEach (fun i u => validateUsage ("apiUsage[" +:+ itoa i +:+ "]") u) (APIUsages inv) ;?
  forEach (fun i u => validateUsage ("apiAuthorshipUnknown[" +:+ itoa i +:+ "]") u) (APIAuthorshipUnknown inv) ;?
  forEach validateRelease (HelmReleases inv) ;?
  forEach validateChart (GitOpsCharts inv) ;?
  forEach (fun i a => forEach (fun j ns =>
    identifier ("addOns[" +:+ itoa i +:+ "].namespaces[" +:+ itoa j +:+ "]") ns ruleNamespace namespaceProblems)
      (ai_Namespaces a)) (AddOns inv) ;?
  forEach (fun i n => identifier ("nodes[" +:+ itoa i +:+ "].name") (n_Name n) ruleSubdomain subdomainProblems) (Nodes inv) ;?
  forEach (fun i cv =>
    identifier ("controlPlane[" +:+ itoa i +:+ "].node") (cv_Node cv) ruleSubdomain subdomainProblems) (ControlPlane inv) ;?
  forEach validateNamespace (Namespaces inv) ;?
  forEach (fun i c => forEach (fun j u =>
    validateUsage ("crds[" +:+ itoa i +:+ "].usage[" +:+ itoa j +:+ "]") u) (crd_Usage c)) (CRDs inv) ;?
  validateVolumeIdentifiers inv.

(** ** Counts and lists *)

(** The least namespace counted negative. *)
Definition lessKey (bad : option string) (kn : string * Z) : option string :=
  let '(ns, n) := kn in
  if (n <? 0) && match bad with Some b => ns <s b | None => true end then Some ns else bad.

Definition negativeCount (u : APIUsage) : option (string * string * string) :=
  let p := "a negative count, where a collector counts what it saw" in
  if u_Count u <? 0 then Some (".count", p, p)
  else if u_ObjectsOmitted u <? 0 then Some (".objectsOmitted", p, p)
  else match foldl lessKey None (map_to_list (u_Namespaces u)) with
       | None => None
       | Some bad => Some (".namespaces",
           "namespace " +:+ quoteShort bad +:+ " counted negative, where a collector counts what it saw",
           "a namespace counted negative, where a collector counts what it saw")
       end.

Definition managerProblem (m : string) : option (string * string) :=
  if MaxManagerBytes <? slen m then
    let limit := "not a field manager: longer than the apiserver's " +:+ itoa MaxManagerBytes +:+ " bytes" in
    Some (quoteShort m +:+ " is " +:+ limit, limit)
  else match nonPrint m with
       | Some i =>
           let limit := "not a field manager: a non-printable character at byte " +:+ itoa i in
           Some (quoteShort m +:+ " is " +:+ limit, limit)
       | None => None
       end.

Definition managerCheck (at_ : string) (k : Z) (o : ObjectRef) : option LimitError :=
  match managerProblem (o_Manager o) with
  | Some (p, limit) =>
      let field := at_ +:+ ".objects[" +:+ itoa k +:+ "].manager" in Some (mkLimitError field p field limit)
  | None => None
  end.

Definition usageLimits (field : string) (u : APIUsage) : option LimitError :=
  match negativeCount u with
  | Some (what, p, limit) => Some (mkLimitError (field +:+ what) p (field +:+ what) limit)
  | None =>
      if MaxObjectRefs <? zlen (u_Objects u) then
        let p := itoa (zlen (u_Objects u)) +:+ " objects, over the " +:+ itoa MaxObjectRefs +:+
                 " a collector records (it counts the rest in objectsOmitted)" in
        Some (mkLimitError (field +:+ ".objects") p (field +:+ ".objects") p)
      else forEach (managerCheck field) (u_Objects u)
  end.

(** The loop of [validateUsages], which remembers the index each
    group/version/kind was first at. *)
Fixpoint usagesFrom (at_ : string) (seen : gmap (string * string * string) Z) (i : Z) (us : list APIUsage)
    : option LimitError :=
  match us with
  | [] => None
  | u :: us' =>
      let gvk := (u_Group u, u_Version u, u_Kind u) in
      let field := at_ +:+ "[" +:+ itoa i +:+ "]" in
      match seen !! gvk with
      | Some j =>
          let first := at_ +:+ "[" +:+ itoa j +:+ "]" in
          Some (mkLimitError field
            (quoteShort (gvString (u_Group u) (u_Version u) +:+ " " +:+ u_Kind u) +:+ " is listed again (first at " +:+
             first +:+ "): a collector counts each group/version/kind once")
            field
            ("the group/version/kind of " +:+ first +:+ " listed again: a collector counts each group/version/kind once"))
      | None => usageLimits field u ;? usagesFrom at_ (<[gvk := i]> seen) (i + 1) us'
      end
  end.

Definition validateUsages (at_ : string) (us : list APIUsage) : option LimitError := usagesFrom at_ ∅ 0 us.

Definition volumeLimits (at_ : string) (seen : gset string) (v : VolumePluginUse) : option LimitError :=
  if vu_Plugin v =s "" then
    Some (mkLimitError (at_ +:+ ".plugin") "no plugin named" (at_ +:+ ".plugin") "no plugin named")
  else if bool_decide (vu_Plugin v ∈ seen) then
    Some (mkLimitError (at_ +:+ ".plugin")
      ("plugin " +:+ quoteShort (vu_Plugin v) +:+ " listed twice, where a collector counts each once") (at_ +:+ ".plugin")
      "a plugin listed twice, where a collector counts each once")
  else if MaxObjectRefs <? zlen (vu_Objects v) then
    let p := itoa (zlen (vu_Objects v)) +:+ " objects, over the " +:+ itoa MaxObjectRefs +:+
             " a collector lists (it counts the rest in objectsOmitted)" in
    Some (mkLimitError (at_ +:+ ".objects") p (at_ +:+ ".objects") p)
  else match negativeCount (asUsage v) with
       | Some (what, p, limit) =>
           let field := if what =s ".namespaces" then at_ +:+ what else at_ in Some (mkLimitError field p field limit)
       | None => forEach (managerCheck at_) (vu_Objects v)
       end.

Fixpoint volumesFrom (seen : gset string) (i : Z) (vs : list VolumePluginUse) : option LimitError :=
  match vs with
  | [] => None
  | v :: vs' =>
      volumeLimits ("volumePlugins[" +:+ itoa i +:+ "]") seen v ;? volumesFrom ({[vu_Plugin v]} ∪ seen) (i + 1) vs'
  end.

Definition validateVolumeLimits (inv : Inventory) : option LimitError :=
  let n := zlen (VolumePlugins inv) in
  if MaxVolumePlugins <? n then
    let p := itoa n +:+ " plugins, over the " +:+ itoa MaxVolumePlugins +:+ " a collector lists" in
    Some (mkLimitError "volumePlugins" p "volumePlugins" p)
  else volumesFrom ∅ 0 (VolumePlugins inv).

(** ** Every string: the walk by reflection

    What [reflect] shows of a value: strings, slices, maps (those of counts
    only by their keys), structs with their fields' JSON names, and what holds
    no string. *)

Inductive value :=
| RString (s : string)
| RSlice (vs : list value)
| RCounts (keys : list string)
| RMap (entries : list (string * value))
| RStruct (status : bool) (fields : list (string * value))
| ROther.

Inductive pathStep :=
| PName (name : string)
| PKey (key : string)
| PIndex (i : Z).

(** [stringWalker.at]: the path, each map key quoted or shown as […]. *)
Definition renderStep (unquoted : bool) (b : string) (p : pathStep) : string :=
  match p with
  | PKey key => b +:+ (if unquoted then "[" +:+ bytes [226; 128; 166]%N +:+ "]" else "[" +:+ quoteShort key +:+ "]")
  | PName name => if name =s "" then b +:+ "[0]" else b +:+ (if b =s "" then "" else ".") +:+ name
  | PIndex i => b +:+ "[" +:+ itoa i +:+ "]"
  end.

Definition pathAt (unquoted : bool) (path : list pathStep) : string := foldl (renderStep unquoted) "" path.

Definition checkString (path : list pathStep) (s : string) (max : Z) (suffix : string) : option LimitError :=
  if max <? slen s then
    Some (mkLimitError (pathAt false path +:+ suffix) (quoteShort s +:+ " is over the " +:+ itoa max +:+ "-byte limit")
            (pathAt true path +:+ suffix) (itoa (slen s) +:+ " bytes, over the " +:+ itoa max +:+ "-byte limit"))
  else None.

(** The limit of a struct's field: a capability's reason has its own. *)
Definition fieldMax (status : bool) (name : string) : Z :=
  if status && (name =s "reason") then MaxReasonBytes else MaxStringBytes.

Fixpoint walk (v : value) (path : list pathStep) (max : Z) : option LimitError :=
  match v with
  | RString s => checkString path s max ""
  | RSlice vs =>
      (fix go i vs := match vs with
                      | [] => None
                      | v :: vs' => walk v (path ++ [PIndex i]) max ;? go (i + 1) vs'
                      end) 0 vs
  | RCounts keys => forEach (fun _ k => checkString path k MaxStringBytes " (a key)") keys
  | RMap kvs =>
      (fix go kvs := match kvs with
                     | [] => None
                     | (k, v) :: kvs' =>
                         checkString path k MaxStringBytes " (a key)" ;?
                         walk v (path ++ [PKey k]) MaxStringBytes ;? go kvs'
                     end) kvs
  | RStruct status fields =>
      (fix go fields := match fields with
                        | [] => None
                        | (name, v) :: fields' => walk v (path ++ [PName name]) (fieldMax status name) ;? go fields'
                        end) fields
  | ROther => None
  end.

(** What [reflect.ValueOf] shows of an inventory. *)
Definition strings (l : list string) : value := RSlice (map RString l).

Definition valueOfStatus (st : CapabilityStatus) : value :=
  RStruct true [("available", ROther); ("reason", RString (cs_Reason st)); ("partial", ROther);
                ("skipped", strings (cs_Skipped st))].

Definition valueOfRef (o : ObjectRef) : value :=
  RStruct false [("namespace", RString (o_Namespace o)); ("name", RString (o_Name o)); ("file", RString (o_File o));
                 ("line", ROther); ("renderedFrom", RString (o_RenderedFrom o)); ("manager", RString (o_Manager o));
                 ("ignore", RString (o_Ignore o)); ("ignoreReason", RString (o_IgnoreReason o)); ("-", ROther); ("-", ROther)].

Definition valueOfUsage (u : APIUsage) : value :=
  RStruct false [("group", RString (u_Group u)); ("version", RString (u_Version u)); ("kind", RString (u_Kind u));
                 ("count", ROther); ("namespaces", RCounts (keysOf (u_Namespaces u)));
                 ("objects", RSlice (map valueOfRef (u_Objects u))); ("objectsOmitted", ROther)].

Definition valueOfCall (c : DeprecatedCall) : value :=
  RStruct false [("group", RString (d_Group c)); ("version", RString (d_Version c)); ("resource", RString (d_Resource c));
                 ("subresource", RString (d_Subresource c)); ("removedRelease", RString (d_RemovedRelease c))].

Definition valueOfRelease (r : HelmRelease) : value :=
  RStruct false [("name", RString (h_Name r)); ("namespace", RString (h_Namespace r)); ("chartName", RString (h_ChartName r));
                 ("chartVersion", RString (h_ChartVersion r)); ("appVersion", RString (h_AppVersion r));
                 ("kubeVersion", RString (h_KubeVersion r)); ("status", RString (h_Status r)); ("revision", ROther);
                 ("manifestApis", RSlice (map valueOfUsage (h_ManifestAPIs r)))].

Definition valueOfChart (c : GitOpsChart) : value :=
  RStruct false [("tool", RString (g_Tool c)); ("name", RString (g_Name c)); ("namespace", RString (g_Namespace c));
                 ("target", RString (g_Target c)); ("chart", RString (g_Chart c)); ("version", RString (g_Version c));
                 ("repo", RString (g_Repo c))].

Definition valueOfAddOn (a : AddOnInstance) : value :=
  RStruct false [("id", RString (ai_ID a)); ("version", RString (ai_Version a)); ("chartVersion", RString (ai_ChartVersion a));
                 ("namespaces", strings (ai_Namespaces a)); ("source", RString (ai_Source a))].

Definition valueOfNode (n : NodeInfo) : value :=
  RStruct false [("name", RString (n_Name n)); ("kubeletVersion", RString (n_KubeletVersion n));
                 ("containerRuntime", RString (n_ContainerRuntime n))].

Definition valueOfComponent (c : ComponentVersion) : value :=
  RStruct false [("component", RString (cv_Component c)); ("version", RString (cv_Version c)); ("node", RString (cv_Node c))].

Definition valueOfNamespace (n : NamespaceInfo) : value :=
  RStruct false [("name", RString (ns_Name n)); ("team", RString (ns_Team n))].

Definition valueOfCRDVersion (v : CRDVersion) : value :=
  RStruct false [("name", RString (c_Name v)); ("served", ROther); ("storage", ROther); ("deprecated", ROther);
                 ("deprecationWarning", RString (c_DeprecationWarning v))].

Definition valueOfCRD (c : CRD) : value :=
  RStruct false [("group", RString (crd_Group c)); ("kind", RString (crd_Kind c)); ("plural", RString (crd_Plural c));
                 ("versions", RSlice (map valueOfCRDVersion (crd_Versions c))); ("storedVersions", strings (crd_StoredVersions c));
                 ("usage", RSlice (map valueOfUsage (crd_Usage c)))].

Definition valueOfVolume (v : VolumePluginUse) : value :=
  RStruct false [("plugin", RString (vu_Plugin v)); ("count", ROther); ("namespaces", RCounts (keysOf (vu_Namespaces v)));
                 ("objects", RSlice (map valueOfRef (vu_Objects v))); ("objectsOmitted", ROther)].

Definition valueOf (inv : Inventory) : value :=
  RStruct false
    [("schemaVersion", ROther); ("clusterId", RString (ClusterID inv)); ("collectorSchema", ROther);
     ("source", RString (Source inv)); ("collectedAt", ROther); ("serverVersion", RString (ServerVersion inv));
     ("provider", RString (Provider inv));
     ("capabilities", RMap (map (fun kv => (kv.1, valueOfStatus kv.2)) (map_to_list (Capabilities inv))));
     ("apiUsage", RSlice (map valueOfUsage (APIUsages inv)));
     ("deprecatedCalls", RSlice (map valueOfCall (DeprecatedCalls inv)));
     ("helmReleases", RSlice (map valueOfRelease (HelmReleases inv)));
     ("gitopsCharts", RSlice (map valueOfChart (GitOpsCharts inv)));
     ("addOns", RSlice (map valueOfAddOn (AddOns inv)));
     ("nodes", RSlice (map valueOfNode (Nodes inv)));
     ("controlPlane", RSlice (map valueOfComponent (ControlPlane inv)));
     ("namespaces", RSlice (map valueOfNamespace (Namespaces inv)));
     ("unrecognizedImages", strings (UnrecognizedImages inv)); ("unrecognizedImagesOmitted", ROther);
     ("crds", RSlice (map valueOfCRD (CRDs inv)));
     ("apiAuthorshipUnknown", RSlice (map valueOfUsage (APIAuthorshipUnknown inv)));
     ("apiServerStartTime", ROther); ("addOnEvidenceAgeSeconds", ROther);
     ("volumePlugins", RSlice (map valueOfVolume (VolumePlugins inv)))].

Definition imagesLimit (inv : Inventory) : option LimitError :=
  let n := zlen (UnrecognizedImages inv) in
  if MaxUnrecognizedImages <? n then
    let p := itoa n +:+ " images, over the " +:+ itoa MaxUnrecognizedImages +:+
             " a collector lists (it counts the rest in unrecognizedImagesOmitted)" in
    Some (mkLimitError "unrecognizedImages" p "unrecognizedImages" p)
  else None.

Definition capabilitiesLimit (inv : Inventory) : option LimitError :=
  let n := Z.of_nat (size (Capabilities inv)) in
  if MaxCapabilities <? n then
    let p := itoa n +:+ " capabilities, over the " +:+ itoa MaxCapabilities +:+ " this server takes" in
    Some (mkLimitError "capabilities" p "capabilities" p)
  else None.

Definition ValidateLimits (inv : Inventory) : option LimitError :=
  validateUsages "apiUsage" (APIUsages inv) ;?
  validateUsages "apiAuthorshipUnknown" (APIAuthorshipUnknown inv) ;?
  forEach (fun i r => validateUsages ("helmReleases[" +:+ itoa i +:+ "].manifestApis") (h_ManifestAPIs r)) (HelmReleases inv) ;?
  forEach (fun i c => validateUsages ("crds[" +:+ itoa i +:+ "].usage") (crd_Usage c)) (CRDs inv) ;?
  imagesLimit inv ;?
  capabilitiesLimit inv ;?
  validateVolumeLimits inv ;?
  walk (valueOf inv) [] MaxStringBytes.

(** ** The cut of free text *)

(** The value a cut leaves, and whether it cut. *)
Definition cutTo (cut : string -> Z -> option string) (s : string) (max : Z) : string * bool :=
  match cut s max with Some r => (r, true) | None => (s, false) end.

Definition cutAll {A} (f : A -> A * bool) (l : list A) : list A * bool :=
  (map (fun x => (f x).1) l, existsb (fun x => (f x).2) l).

Definition cutStatus (st : CapabilityStatus) : CapabilityStatus * bool :=
  let '(reason, a) := cutTo cutText (cs_Reason st) MaxReasonBytes in
  let '(skipped, b) := cutAll (fun s => cutTo cutText s MaxStringBytes) (cs_Skipped st) in
  (mkCapabilityStatus (cs_Available st) reason (cs_Partial st) skipped, a || b).

Definition cutRef (o : ObjectRef) : ObjectRef * bool :=
  let '(ignore, a) := cutTo cutTokens (o_Ignore o) MaxStringBytes in
  let '(reason, b) := cutTo cutText (o_IgnoreReason o) MaxStringBytes in
  let '(rendered, c) := cutTo cutText (o_RenderedFrom o) MaxStringBytes in
  (mkObjectRef (o_Namespace o) (o_Name o) (o_File o) (o_Line o) rendered (o_Manager o) ignore reason
     (o_IgnoreLegacyKey o) (o_IgnoreReasonLegacyKey o), a || b || c).

Definition with_Objects (objs : list ObjectRef) (omitted : Z) (counts : gmap string Z) (u : APIUsage) : APIUsage :=
  mkAPIUsage (u_Group u) (u_Version u) (u_Kind u) (u_Count u) counts objs omitted.

Definition cutUsage (u : APIUsage) : APIUsage * bool :=
  let '(objs, cut) := cutAll cutRef (u_Objects u) in (with_Objects objs (u_ObjectsOmitted u) (u_Namespaces u) u, cut).

Definition with_ManifestAPIs (us : list APIUsage) (r : HelmRelease) : HelmRelease :=
  mkHelmRelease (h_Name r) (h_Namespace r) (h_ChartName r) (h_ChartVersion r) (h_AppVersion r) (h_KubeVersion r)
    (h_Status r) (h_Revision r) us.

Definition cutRelease (r : HelmRelease) : HelmRelease * bool :=
  let '(us, cut) := cutAll cutUsage (h_ManifestAPIs r) in (with_ManifestAPIs us r, cut).

Definition cutChart (c : GitOpsChart) : GitOpsChart * bool :=
  let '(chart, a) := cutTo cutText (g_Chart c) MaxStringBytes in
  let '(version, b) := cutTo cutText (g_Version c) MaxStringBytes in
  let '(repo, d) := cutTo cutText (g_Repo c) MaxStringBytes in
  (mkGitOpsChart (g_Tool c) (g_Name c) (g_Namespace c) (g_Target c) chart version repo, a || b || d).

Definition with_Usage (us : list APIUsage) (c : CRD) : CRD :=
  mkCRD (crd_Group c) (crd_Kind c) (crd_Plural c) (crd_Versions c) (crd_StoredVersions c) us.

Definition cutCRD (c : CRD) : CRD * bool :=
  let '(us, cut) := cutAll cutUsage (crd_Usage c) in (with_Usage us c, cut).

Definition with_VolumeObjects (objs : list ObjectRef) (omitted : Z) (counts : gmap string Z) (v : VolumePluginUse) : VolumePluginUse :=
  mkVolumePluginUse (vu_Plugin v) (vu_Count v) counts objs omitted.

Definition cutVolume (v : VolumePluginUse) : VolumePluginUse * bool :=
  let '(objs, cut) := cutAll cutRef (vu_Objects v) in (with_VolumeObjects objs (vu_ObjectsOmitted v) (vu_Namespaces v) v, cut).

Definition CutFreeText (inv : Inventory) : Inventory * bool :=
  let caps := Capabilities inv in
  let '(usages, b) := cutAll cutUsage (APIUsages inv) in
  let '(unknown, c) := cutAll cutUsage (APIAuthorshipUnknown inv) in
  let '(releases, d) := cutAll cutRelease (HelmReleases inv) in
  let '(charts, e) := cutAll cutChart (GitOpsCharts inv) in
  let '(crds, f) := cutAll cutCRD (CRDs inv) in
  let '(volumes, g) := cutAll cutVolume (VolumePlugins inv) in
  (with_Capabilities ((fun st => (cutStatus st).1) <$> caps) (with_APIUsages usages (with_APIAuthorshipUnknown unknown
     (with_HelmReleases releases (with_GitOpsCharts charts (with_CRDs crds (with_VolumePlugins volumes inv)))))),
   existsb (fun kv => (cutStatus kv.2).2) (map_to_list caps) || b || c || d || e || f || g).

(** ** Admission *)

Definition checkAdmissible (inv : Inventory) : option admitError :=
  match ValidateIdentifiers inv with
  | Some e => Some (BadIdentifier e)
  | None => BeyondLimit <$> ValidateLimits inv
  end.

(** [Admit]: the first problem, and the inventory with its free text cut once
    the identifiers are valid. *)
Definition Admit (inv : Inventory) : option admitError * Inventory :=
  if negb (SchemaVersion inv =? SupportedSchemaVersion) then (Some (SchemaVersionError (SchemaVersion inv)), inv)
  else if (CollectorSchema inv <? 0) || (CurrentCollectorSchema <? CollectorSchema inv) then
    (Some (CollectorSchemaError (CollectorSchema inv)), inv)
  else match (if ServerVersion inv =s "" then Ok (mkVersion 0 0) else parseMajorOne (ServerVersion inv)) with
  | Err err => (Some (ServerVersionError err), inv)
  | Ok _ =>
      match ValidateIdentifiers inv with
      | Some e => (Some (BadIdentifier e), inv)
      | None => let inv' := (CutFreeText inv).1 in (BeyondLimit <$> ValidateLimits inv', inv')
      end
  end.
End Admission.
