(* ===== verification/Conform.v ===== *)
(** * Repairing an inventory: internal/inventory/conform.go

    [Conform] drops or cuts what admission would refuse, records each repair
    in the status of the capability it cost data, and checks the result. The
    loop of one-at-a-time drops is bounded by [maxFallbackDrops]. *)

From stdpp Require Import base list strings gmap.
From Stdlib Require Import ZArith Lia Ascii.
From S2P Require Import Prelude GoStr GoTime GoUtf8 Version Inventory KB Findings Admit.

(** ** What was repaired *)

Definition maxFallbackDrops : nat := 256.
Definition maxNamedSkips : Z := 20.

Record capRepairs := mkCapRepairs {
  cr_skipped : list string;
  cr_named : gset string;
  cr_notes : list string;
  cr_counts : gmap string Z;
}.

Record repairs := mkRepairs {
  rp_byCap : gmap string capRepairs;
  rp_ordered : list string;
}.

Definition noRepairs : repairs := mkRepairs ∅ [].

(** [repairs.of], which registers the capability. *)
Definition repairsOf (c : string) (r : repairs) : capRepairs * repairs :=
  match rp_byCap r !! c with
  | Some cr => (cr, r)
  | None => let cr := mkCapRepairs [] ∅ [] ∅ in (cr, mkRepairs (<[c := cr]> (rp_byCap r)) (rp_ordered r ++ [c]))
  end.

Definition put (c : string) (cr : capRepairs) (r : repairs) : repairs := mkRepairs (<[c := cr]> (rp_byCap r)) (rp_ordered r).

Definition skip (c what : string) (r : repairs) : repairs :=
  let '(cr, r) := repairsOf c r in
  if bool_decide (what ∈ cr_named cr) then r
  else put c (mkCapRepairs (cr_skipped cr ++ [what]) ({[what]} ∪ cr_named cr) (cr_notes cr) (cr_counts cr)) r.

Definition addRepair (c note skipped : string) (r : repairs) : repairs :=
  let '(cr, r) := repairsOf c r in
  let n := default 0 (cr_counts cr !! note) in
  let r := put c (mkCapRepairs (cr_skipped cr) (cr_named cr) (if n =? 0 then cr_notes cr ++ [note] else cr_notes cr)
                    (<[note := wrap64 (n + 1)]> (cr_counts cr))) r in
  if skipped =s "" then r else skip c skipped r.

(** The number of repairs made so far in a capability. *)
Definition total (c : string) (r : repairs) : Z :=
  match rp_byCap r !! c with
  | Some cr => foldr (fun k n => wrap64 (k.2 + n)) 0 (map_to_list (cr_counts cr))
  | None => 0
  end.

Section Repair.
Context `{Content} `{Unicode}.

(** ** Labels *)

Definition shortIdentifier (s : string) (problems : string -> list string) : string :=
  match problemsWith s problems with
  | [] => s
  | _ =>
      let q := quote (utf8Prefix s 40) in
      if 40 <? slen s then takeBytes (String.length q - 1) q +:+ bytes [226; 128; 166]%N +:+ String dquote "" else q
  end.

Definition releaseLabel (ns name : string) : string :=
  shortIdentifier ns namespaceProblems +:+ "/" +:+ shortIdentifier name subdomainProblems.

Definition usageLabel (u : APIUsage) : string :=
  utf8Prefix (gvString (u_Group u) (u_Version u)) 96 +:+ " " +:+ utf8Prefix (u_Kind u) 64.

Definition volumeLabel (v : VolumePluginUse) : string :=
  match volumePluginProblems (vu_Plugin v) with
  | [] => vu_Plugin v
  | _ => quoteShort (utf8Prefix (vu_Plugin v) 40)
  end.

Definition article (word : string) : string :=
  match word with
  | ""%string => "a"
  | String a _ => if Contains "AEIOUaeiou" (String a "") then "an" else "a"
  end.

(** ** The repairs *)

Definition overLimit (s : string) : bool := MaxStringBytes <? slen s.
Definition overText : string := "a string over " +:+ itoa MaxStringBytes +:+ " bytes".

(** Why an object ref would be refused, or "". *)
Definition objectProblem (o : ObjectRef) : string :=
  match problemsWith (o_Namespace o) namespaceProblems, problemsWith (o_Name o) objectNameProblems,
        managerProblem (o_Manager o) with
  | _ :: _, _, _ => "a namespace that is not a namespace name"
  | [], _ :: _, _ => "a name that is not an object name"
  | [], [], Some _ => "a field manager the apiserver would not accept"
  | [], [], None =>
      if existsb overLimit [o_File o; o_Ignore o; o_IgnoreReason o; o_RenderedFrom o] then overText else ""
  end.

Definition badKey (ns : string) : bool :=
  negb (bool_decide (problemsWith ns namespaceProblems = [])) || overLimit ns.

(** The drop of the refused objects: the objects kept, and what was omitted
    and recorded. *)
Definition keepRef (c what : string) (acc : list ObjectRef * Z * repairs) (o : ObjectRef) : list ObjectRef * Z * repairs :=
  let '(kept, omitted, r) := acc in
  let why := objectProblem o in
  if why =s "" then (kept ++ [o], omitted, r)
  else (kept, wrap64 (omitted + 1), addRepair c ("object(s) of " +:+ what +:+ " dropped for " +:+ why) "" r).

Definition conformRefs (counts : gmap string Z) (objs : list ObjectRef) (omitted : Z) (c what : string) (r : repairs)
    : gmap string Z * list ObjectRef * Z * repairs :=
  let note := "namespace key(s) of " +:+ article what +:+ " " +:+ what +:+ " count dropped for not being a namespace name" in
  let bad := List.filter badKey (keysOf counts) in
  let r := foldl (fun r _ => addRepair c note "" r) r bad in
  let counts := foldl (fun m ns => delete ns m) counts bad in
  let '(kept, omitted, r) := foldl (keepRef c what) ([], omitted, r) objs in
  let n := zlen kept - MaxObjectRefs in
  if 0 <? n then
    (counts, take (Z.to_nat MaxObjectRefs) kept, wrap64 (omitted + n),
     addRepair c ("object(s) of " +:+ what +:+ " beyond the cap counted, not listed") "" r)
  else (counts, kept, omitted, r).

Definition conformUsage (c : string) (acc : list APIUsage * repairs) (u : APIUsage) : list APIUsage * repairs :=
  let '(us, r) := acc in
  let '(counts, objs, omitted, r) := conformRefs (u_Namespaces u) (u_Objects u) (u_ObjectsOmitted u) c "API usage" r in
  (us ++ [with_Objects objs omitted counts u], r).

Definition conformUsages (us : list APIUsage) (c : string) (r : repairs) : list APIUsage * repairs :=
  foldl (conformUsage c) ([], r) us.

Definition releaseProblem (rel : HelmRelease) : string :=
  match problemsWith (h_Name rel) subdomainProblems, problemsWith (h_Namespace rel) namespaceProblems with
  | _ :: _, _ => "a name that is not an RFC 1123 subdomain"
  | [], _ :: _ => "a namespace that is not a namespace name"
  | [], [] =>
      if existsb overLimit [h_ChartName rel; h_ChartVersion rel; h_AppVersion rel; h_KubeVersion rel; h_Status rel]
      then "chart metadata over " +:+ itoa MaxStringBytes +:+ " bytes" else ""
  end.

Definition conformRelease (acc : list HelmRelease * repairs) (rel : HelmRelease) : list HelmRelease * repairs :=
  let '(kept, r) := acc in
  let why := releaseProblem rel in
  if why =s "" then
    let before := total CapHelm r in
    let '(us, r) := conformUsages (h_ManifestAPIs rel) CapHelm r in
    let r := if total CapHelm r =? before then r else skip CapHelm (h_Namespace rel +:+ "/" +:+ h_Name rel) r in
    (kept ++ [with_ManifestAPIs us rel], r)
  else (kept, addRepair CapHelm ("Helm release(s) dropped for " +:+ why) (releaseLabel (h_Namespace rel) (h_Name rel)) r).

Definition conformHelm (inv : Inventory) (r : repairs) : Inventory * repairs :=
  let '(kept, r) := foldl conformRelease ([], r) (HelmReleases inv) in (with_HelmReleases kept inv, r).

Definition conformCRD (acc : list CRD * repairs) (c : CRD) : list CRD * repairs :=
  let '(kept, r) := acc in
  let '(us, r) := conformUsages (crd_Usage c) CapCRDs r in (kept ++ [with_Usage us c], r).

Definition conformAddOn (acc : list AddOnInstance * repairs) (a : AddOnInstance) : list AddOnInstance * repairs :=
  let '(kept, r) := acc in
  if existsb overLimit [ai_ID a; ai_Version a; ai_ChartVersion a; ai_Source a] then
    (kept, addRepair CapAddOns ("add-on install(s) dropped for " +:+ overText) SkippedPods r)
  else (kept ++ [a], r).

Definition conformAddOns (inv : Inventory) (r : repairs) : Inventory * repairs :=
  let '(kept, r) := foldl conformAddOn ([], r) (AddOns inv) in (with_AddOns kept inv, r).

Definition conformImage (acc : list string * Z * repairs) (img : string) : list string * Z * repairs :=
  let '(kept, omitted, r) := acc in
  if overLimit img then
    (kept, wrap64 (omitted + 1),
     addRepair CapAddOns ("image repositor(ies) over " +:+ itoa MaxStringBytes +:+
                          " bytes counted in unrecognizedImagesOmitted, not listed") "" r)
  else (kept ++ [img], omitted, r).

Definition conformImages (inv : Inventory) (r : repairs) : Inventory * repairs :=
  let '(kept, omitted, r) := foldl conformImage ([], UnrecognizedImagesOmitted inv, r) (UnrecognizedImages inv) in
  let n := zlen kept - MaxUnrecognizedImages in
  if 0 <? n then
    (with_UnrecognizedImages (take (Z.to_nat MaxUnrecognizedImages) kept) (wrap64 (omitted + n)) inv,
     addRepair CapAddOns "image repositor(ies) beyond the cap counted in unrecognizedImagesOmitted, not listed" "" r)
  else (with_UnrecognizedImages kept omitted inv, r).

Definition conformVolume (acc : list VolumePluginUse * repairs) (v : VolumePluginUse) : list VolumePluginUse * repairs :=
  let '(vs, r) := acc in
  let '(counts, objs, omitted, r) :=
    conformRefs (vu_Namespaces v) (vu_Objects v) (vu_ObjectsOmitted v) CapVolumes "volume plugin use" r in
  (vs ++ [with_VolumeObjects objs omitted counts v], r).

Definition conformVolumes (inv : Inventory) (r : repairs) : Inventory * repairs :=
  let '(vs, r) := foldl conformVolume ([], r) (VolumePlugins inv) in
  if MaxVolumePlugins <? zlen vs then
    let n := Z.to_nat MaxVolumePlugins in
    (with_VolumePlugins (take n vs) inv,
     foldl (fun r v => addRepair CapVolumes "volume plugin entr(ies) beyond the cap dropped" (volumeLabel v) r) r (drop n vs))
  else (with_VolumePlugins vs inv, r).

(** ** One element at a time *)

Definition elementOf (field : string) : option (string * Z) :=
  let '(list, rest, found) := Cut field "[" in
  if negb found then None
  else
    let '(idx, _, found) := Cut rest "]" in
    if negb found then None
    else match Atoi idx with
         | Some n => if n <? 0 then None else Some (list, n)
         | None => None
         end.

Definition fieldOf (e : admitError) : option string :=
  match e with
  | BadIdentifier ie => Some (ie_Field ie)
  | BeyondLimit le => Some (le_Field le)
  | _ => None
  end.

(** The drop of element [i] of a list: nothing when it is out of range. *)
Definition dropAt {A} (l : list A) (i : Z) (k : A -> list A -> Inventory * repairs) : option (Inventory * repairs) :=
  match l !! Z.to_nat i with
  | Some x => Some (k x (take (Z.to_nat i) l ++ drop (S (Z.to_nat i)) l))
  | None => None
  end.

Definition dropUsage (us : list APIUsage) (i : Z) (set : list APIUsage -> Inventory -> Inventory) (inv : Inventory) (r : repairs)
    : option (Inventory * repairs) :=
  dropAt us i (fun u rest =>
    (set rest inv, addRepair CapAPIUsage "API usage entr(ies) dropped for a value Admit refuses" (usageLabel u) r)).

Definition GitOpsArgoCD : string := "argocd".
Definition GitOpsFlux : string := "flux".

Definition toolLabel (tool : string) : string :=
  if negb (tool =s GitOpsArgoCD) && negb (tool =s GitOpsFlux) then "" else tool.

Definition dropElement (e : admitError) (inv : Inventory) (r : repairs) : option (Inventory * repairs) :=
  match fieldOf e with
  | None => None
  | Some field =>
      if field =s "provider" then
        Some (with_Provider "" inv, addRepair CapVersions "provider name dropped for not being a provider name" "" r)
      else match elementOf field with
      | None => None
      | Some (list, i) =>
          if list =s "helmReleases" then dropAt (HelmReleases inv) i (fun rel rest => (with_HelmReleases rest inv,
            addRepair CapHelm "Helm release(s) dropped for a value Admit refuses" (releaseLabel (h_Namespace rel) (h_Name rel)) r))
          else if list =s "gitopsCharts" then dropAt (GitOpsCharts inv) i (fun c rest => (with_GitOpsCharts rest inv,
            addRepair CapHelm "GitOps chart source(s) dropped for a value Admit refuses" (toolLabel (g_Tool c)) r))
          else if list =s "addOns" then dropAt (AddOns inv) i (fun _ rest => (with_AddOns rest inv,
            addRepair CapAddOns "add-on install(s) dropped for a value Admit refuses" SkippedPods r))
          else if list =s "apiUsage" then dropUsage (APIUsages inv) i with_APIUsages inv r
          else if list =s "apiAuthorshipUnknown" then dropUsage (APIAuthorshipUnknown inv) i with_APIAuthorshipUnknown inv r
          else if list =s "crds" then dropAt (CRDs inv) i (fun _ rest => (with_CRDs rest inv,
            addRepair CapCRDs "CRD(s) dropped for a value Admit refuses" "" r))
          else if list =s "deprecatedCalls" then dropAt (DeprecatedCalls inv) i (fun _ rest => (with_DeprecatedCalls inv rest,
            addRepair CapDeprecatedCalls "deprecated call row(s) dropped for a value Admit refuses" "" r))
          else if list =s "nodes" then dropAt (Nodes inv) i (fun _ rest => (with_Nodes rest inv,
            addRepair CapVersions "node(s) dropped for a value Admit refuses" "nodes" r))
          else if list =s "controlPlane" then dropAt (ControlPlane inv) i (fun _ rest => (with_ControlPlane rest inv,
            addRepair CapVersions "control-plane component(s) dropped for a value Admit refuses" "" r))
          else if list =s "namespaces" then dropAt (Namespaces inv) i (fun _ rest => (with_Namespaces rest inv,
            addRepair CapVersions "namespace(s) dropped for a value Admit refuses" "" r))
          else if list =s "volumePlugins" then dropAt (VolumePlugins inv) i (fun v rest => (with_VolumePlugins rest inv,
            addRepair CapVolumes "volume plugin entr(ies) dropped for a value Admit refuses" (volumeLabel v) r))
          else if list =s "unrecognizedImages" then dropAt (UnrecognizedImages inv) i (fun _ rest =>
            (with_UnrecognizedImages rest (wrap64 (UnrecognizedImagesOmitted inv + 1)) inv,
             addRepair CapAddOns "image repositor(ies) dropped for a value Admit refuses" "" r))
          else None
      end
  end.

Fixpoint dropRefused (left : nat) (inv : Inventory) (r : repairs) : option admitError * Inventory * repairs :=
  match checkAdmissible inv with
  | None => (None, inv, r)
  | Some e =>
      match left with
      | O => (Some e, inv, r)
      | S left' =>
          match dropElement e inv r with
          | Some (inv', r') => dropRefused left' inv' r'
          | None => (Some e, inv, r)
          end
      end
  end.

(** ** The statuses *)

Definition repairNote (cr : capRepairs) : string * list string :=
  let parts := map (fun n => itoa (default 0 (cr_counts cr !! n)) +:+ " " +:+ n) (cr_notes cr) in
  let skipped := sort_strings (cr_skipped cr) in
  if maxNamedSkips <? zlen skipped then
    ("not recorded, so not assessed: " +:+ Join (parts ++ [itoa (zlen skipped - maxNamedSkips) +:+ " more not named"]) "; ",
     take (Z.to_nat maxNamedSkips) skipped)
  else ("not recorded, so not assessed: " +:+ Join parts "; ", skipped).

Definition repairedStatus (note : string) (skipped : list string) (st : CapabilityStatus) : CapabilityStatus :=
  mkCapabilityStatus (cs_Available st) (cs_Reason st +:+ (if cs_Reason st =s "" then "" else "; ") +:+ note) true
    (compact (sort_strings (cs_Skipped st ++ skipped))).

Definition applyRepair (r : repairs) (acc : list string * gmap string CapabilityStatus) (c : string)
    : list string * gmap string CapabilityStatus :=
  let '(lines, caps) := acc in
  let '(note, skipped) := repairNote (default (mkCapRepairs [] ∅ [] ∅) (rp_byCap r !! c)) in
  (lines ++ [c +:+ ": " +:+ note],
   match caps !! c with
   | Some st => if cs_Available st then <[c := repairedStatus note skipped st]> caps else caps
   | None => caps
   end).

Definition applyRepairs (r : repairs) (inv : Inventory) : list string * Inventory :=
  let '(lines, caps) := foldl (applyRepair r) ([], Capabilities inv) (rp_ordered r) in (lines, with_Capabilities caps inv).

(** ** Conform *)

Definition conformLists (inv : Inventory) : Inventory * repairs :=
  let '(inv, r) := conformHelm inv noRepairs in
  let '(us, r) := conformUsages (APIUsages inv) CapAPIUsage r in
  let inv := with_APIUsages us inv in
  let '(us, r) := conformUsages (APIAuthorshipUnknown inv) CapAPIUsage r in
  let inv := with_APIAuthorshipUnknown us inv in
  let '(crds, r) := foldl conformCRD ([], r) (CRDs inv) in
  let inv := with_CRDs crds inv in
  let '(inv, r) := conformAddOns inv r in
  let '(inv, r) := conformImages inv r in
  conformVolumes inv r.

Definition Conform (inv : Inventory) : list string * option admitError * Inventory :=
  let '(inv, r) := conformLists (CutFreeText inv).1 in
  let '(err, inv, r) := dropRefused maxFallbackDrops inv r in
  let '(notes, inv) := applyRepairs r inv in
  let inv := (CutFreeText inv).1 in
  (notes, match err with Some e => Some e | None => checkAdmissible inv end, inv).
End Repair.

(** * Admission and repair agree

    An inventory [Conform] returns without an error is admitted as it is, an
    admitted inventory needs no repair, what a repair leaves out of an entry
    it counts, and a cut stays within its limit at a character boundary. *)

From S2P Require Import Skew Evaluate.

(** ** Checks in sequence *)

Lemma andThen_None {E} (a b : option E) : (a ;? b) = None <-> a = None /\ b = None.
Proof. destruct a; simpl; naive_solver. Qed.

Lemma firstError_None {A E} (f : Z -> A -> option E) i l :
  firstError f i l = None -> forall x, x ∈ l -> exists j, f j x = None.
Proof.
  revert i. induction l as [|y l IH]; intros i H x Hx; [by apply not_elem_of_nil in Hx|]. simpl in H.
  apply andThen_None in H as [Hy Hl]. apply elem_of_cons in Hx as [->|Hx]; eauto.
Qed.

Lemma forEach_None {A E} (f : Z -> A -> option E) l : forEach f l = None -> forall x, x ∈ l -> exists j, f j x = None.
Proof. apply firstError_None. Qed.

Lemma forEach_map {A B E} (f : Z -> B -> option E) (g : A -> B) l : forEach f (map g l) = forEach (fun i x => f i (g x)) l.
Proof. unfold forEach. generalize 0. induction l as [|x l IH]; intros i; simpl; [done|]. by rewrite IH. Qed.

Lemma forEach_ext {A E} (f g : Z -> A -> option E) l : (forall i x, f i x = g i x) -> forEach f l = forEach g l.
Proof. intros H. unfold forEach. generalize 0. induction l as [|x l IH]; intros i; simpl; [done|]. by rewrite H, IH. Qed.

(** ** Every string within its limit *)

Fixpoint within (v : value) (max : Z) : Prop :=
  match v with
  | RString s => slen s <= max
  | RSlice vs => foldr (fun v P => within v max /\ P) True vs
  | RCounts keys => forall k, k ∈ keys -> slen k <= MaxStringBytes
  | RMap kvs => foldr (fun kv P => match kv with (k, v) => slen k <= MaxStringBytes /\ within v MaxStringBytes /\ P end) True kvs
  | RStruct status fields => foldr (fun nv P => match nv with (name, v) => within v (fieldMax status name) /\ P end) True fields
  | ROther => True
  end.

Lemma checkString_None path s max suffix : checkString path s max suffix = None -> slen s <= max.
Proof. unfold checkString. destruct (max <? slen s) eqn:E; [done|]. by to_prop. Qed.

Lemma walk_within v : forall path max, walk v path max = None -> within v max.
Proof.
  revert v. fix IH 1. intros [s|vs|keys|kvs|st fields|] path max; simpl.
  - apply checkString_None.
  - generalize 0. induction vs as [|v vs IHvs]; intros i; [done|]. intros [Hv Hvs]%andThen_None.
    split; [by eapply IH|by eapply IHvs].
  - intros H k Hk. destruct (forEach_None _ _ H k Hk) as [_ Hc]. by eapply checkString_None.
  - induction kvs as [|[k v] kvs IHkvs]; [done|]. intros [Hk [Hv Hkvs]%andThen_None]%andThen_None.
    split_and!; [by eapply checkString_None|by eapply IH|by apply IHkvs].
  - induction fields as [|[name v] fields IHf]; [done|]. intros [Hv Hf]%andThen_None. split; [by eapply IH|by apply IHf].
  - done.
Qed.

Lemma within_slice {A} (f : A -> value) l max : within (RSlice (map f l)) max -> forall x, x ∈ l -> within (f x) max.
Proof.
  induction l as [|y l IH]; [by intros _ x ?%not_elem_of_nil|]. intros [Hy Hl] x [->|Hx]%elem_of_cons; [done|by apply IH].
Qed.

Lemma within_map {A} (f : A -> value) (l : list (string * A)) max :
  within (RMap (map (fun kv => (kv.1, f kv.2)) l)) max -> forall k x, (k, x) ∈ l -> within (f x) MaxStringBytes.
Proof.
  induction l as [|[k' y] l IH]; [by intros _ k x ?%not_elem_of_nil|]. intros (_ & Hy & Hl) k x [Heq|Hx]%elem_of_cons;
    [by injection Heq as -> ->|by eapply IH].
Qed.

Section Spec.
Context `{Content} `{Unicode}.

Notation sized f l := (within (RSlice (map f l)) MaxStringBytes).

(** The strings of the parts of an inventory. *)
Record sizes (inv : Inventory) : Prop := {
  sz_caps : within (RMap (map (fun kv => (kv.1, valueOfStatus kv.2)) (map_to_list (Capabilities inv)))) MaxStringBytes;
  sz_usages : sized valueOfUsage (APIUsages inv);
  sz_unknown : sized valueOfUsage (APIAuthorshipUnknown inv);
  sz_releases : sized valueOfRelease (HelmReleases inv);
  sz_charts : sized valueOfChart (GitOpsCharts inv);
  sz_addons : sized valueOfAddOn (AddOns inv);
  sz_images : sized RString (UnrecognizedImages inv);
  sz_crds : sized valueOfCRD (CRDs inv);
  sz_volumes : sized valueOfVolume (VolumePlugins inv);
}.

Lemma ValidateLimits_sizes inv : ValidateLimits inv = None -> sizes inv.
Proof.
  unfold ValidateLimits. rewrite !andThen_None. intros (_ & _ & _ & _ & _ & _ & _ & Hw). apply walk_within in Hw.
  unfold valueOf in Hw. cbn [within foldr fieldMax andb] in Hw. destruct_and! Hw. by split.
Qed.

(** ** A cut that has nothing to cut *)

Lemma cutText_id s max : slen s <= max -> cutTo cutText s max = (s, false).
Proof. intros Hs. unfold cutTo, cutText. apply Z.leb_le in Hs as ->. done. Qed.

Lemma cutTokens_id s max : slen s <= max -> cutTo cutTokens s max = (s, false).
Proof. intros Hs. unfold cutTo, cutTokens. apply Z.leb_le in Hs as ->. done. Qed.

Lemma cutAll_id {A} (f : A -> A * bool) l : (forall x, x ∈ l -> f x = (x, false)) -> cutAll f l = (l, false).
Proof.
  intros Hf. unfold cutAll. induction l as [|x l IH]; [done|]. simpl. rewrite (Hf x) by left. simpl.
  assert (Hl : (map (fun x => (f x).1) l, existsb (fun x => (f x).2) l) = (l, false)) by (apply IH; intros y Hy; apply Hf; by right).
  by injection Hl as -> ->.
Qed.

Lemma cutStatus_id st max : within (valueOfStatus st) max -> cutStatus st = (st, false).
Proof.
  simpl. intros (_ & Hr & _ & Hs & _). unfold cutStatus. rewrite cutText_id by done. rewrite cutAll_id; [by destruct st|].
  intros s Hin. apply cutText_id. by apply (within_slice RString (cs_Skipped st)).
Qed.

Lemma cutRef_id o max : within (valueOfRef o) max -> cutRef o = (o, false).
Proof.
  simpl. intros (_ & _ & _ & _ & Hf & _ & Hi & Hr & _). unfold cutRef. rewrite cutTokens_id, !cutText_id by done. by destruct o.
Qed.

Lemma cutUsage_id u max : within (valueOfUsage u) max -> cutUsage u = (u, false).
Proof.
  simpl. intros (_ & _ & _ & _ & _ & Ho & _). unfold cutUsage. rewrite cutAll_id; [by destruct u|].
  intros o Hin. eapply cutRef_id. by eapply (within_slice valueOfRef).
Qed.

Lemma cutUsages_id us max : within (RSlice (map valueOfUsage us)) max -> cutAll cutUsage us = (us, false).
Proof. intros Hw. apply cutAll_id. intros u Hu. eapply cutUsage_id. by eapply within_slice. Qed.

Lemma cutRelease_id r max : within (valueOfRelease r) max -> cutRelease r = (r, false).
Proof.
  simpl. intros (_ & _ & _ & _ & _ & _ & _ & _ & Hm & _). unfold cutRelease. erewrite cutUsages_id by done. by destruct r.
Qed.

Lemma cutChart_id c max : within (valueOfChart c) max -> cutChart c = (c, false).
Proof.
  simpl. intros (_ & _ & _ & _ & Hc & Hv & Hr & _). unfold cutChart. rewrite !cutText_id by done. by destruct c.
Qed.

Lemma cutCRD_id c max : within (valueOfCRD c) max -> cutCRD c = (c, false).
Proof. simpl. intros (_ & _ & _ & _ & _ & Hu & _). unfold cutCRD. erewrite cutUsages_id by done. by destruct c. Qed.

Lemma cutVolume_id v max : within (valueOfVolume v) max -> cutVolume v = (v, false).
Proof.
  simpl. intros (_ & _ & _ & Ho & _). unfold cutVolume. rewrite cutAll_id; [by destruct v|].
  intros o Hin. eapply cutRef_id. by eapply (within_slice valueOfRef).
Qed.

Lemma cutCapabilities_id (caps : gmap string CapabilityStatus) max :
  within (RMap (map (fun kv => (kv.1, valueOfStatus kv.2)) (map_to_list caps))) max ->
  (fun st => (cutStatus st).1) <$> caps = caps /\ existsb (fun kv => (cutStatus kv.2).2) (map_to_list caps) = false.
Proof.
  intros Hw. assert (Hid : forall k st, caps !! k = Some st -> cutStatus st = (st, false)).
  { intros k st Hk. eapply cutStatus_id. eapply (within_map valueOfStatus); [exact Hw|]. by apply elem_of_map_to_list. }
  split.
  - apply map_eq. intros k. rewrite lookup_fmap. destruct (caps !! k) as [st|] eqn:E; [|done]. simpl. by rewrite (Hid k st E).
  - apply not_true_is_false. intros ([k st] & Hin & Hc)%existsb_exists. apply list_elem_of_In, elem_of_map_to_list in Hin.
    simpl in Hc. by rewrite (Hid k st Hin) in Hc.
Qed.

Lemma CutFreeText_id inv : sizes inv -> CutFreeText inv = (inv, false).
Proof.
  intros []. unfold CutFreeText. destruct (cutCapabilities_id _ _ sz_caps0) as [Hcaps Hno]. rewrite Hno, Hcaps.
  rewrite !(cutUsages_id _ MaxStringBytes) by done.
  rewrite (cutAll_id cutRelease), (cutAll_id cutChart), (cutAll_id cutCRD), (cutAll_id cutVolume); [by destruct inv| | | |];
    intros x Hx.
  - eapply cutVolume_id. by eapply (within_slice valueOfVolume).
  - eapply cutCRD_id. by eapply (within_slice valueOfCRD).
  - eapply cutChart_id. by eapply (within_slice valueOfChart).
  - eapply cutRelease_id. by eapply (within_slice valueOfRelease).
Qed.

(** ** What a repair leaves alone *)

Definition header (inv : Inventory) : Z * Z * string := (SchemaVersion inv, CollectorSchema inv, ServerVersion inv).

Lemma CutFreeText_header inv : header (CutFreeText inv).1 = header inv.
Proof. done. Qed.

Lemma conformHelm_header inv r : header (conformHelm inv r).1 = header inv.
Proof. unfold conformHelm. by destruct (foldl _ _ _). Qed.

Lemma conformAddOns_header inv r : header (conformAddOns inv r).1 = header inv.
Proof. unfold conformAddOns. by destruct (foldl _ _ _). Qed.

Lemma conformImages_header inv r : header (conformImages inv r).1 = header inv.
Proof. unfold conformImages. destruct (foldl _ _ _) as [[? ?] ?]. by destruct (0 <? _). Qed.

Lemma conformVolumes_header inv r : header (conformVolumes inv r).1 = header inv.
Proof. unfold conformVolumes. destruct (foldl _ _ _). by destruct (_ <? _). Qed.

Lemma conformLists_header inv : header (conformLists inv).1 = header inv.
Proof.
  unfold conformLists. pose proof (conformHelm_header inv noRepairs) as H1. destruct (conformHelm _ _) as [inv1 r1]. simpl in H1.
  destruct (conformUsages _ _ _) as [us r2]. destruct (conformUsages _ _ _) as [us' r3]. destruct (foldl conformCRD _ _) as [crds r4].
  set (inv2 := with_CRDs _ _). pose proof (conformAddOns_header inv2 r4) as H2. destruct (conformAddOns _ _) as [inv3 r5]. simpl in H2.
  pose proof (conformImages_header inv3 r5) as H3. destruct (conformImages _ _) as [inv4 r6]. simpl in H3.
  rewrite conformVolumes_header, H3, H2. exact H1.
Qed.

Lemma dropAt_Some {A} (l : list A) i k p : dropAt l i k = Some p -> exists x rest, p = k x rest.
Proof. unfold dropAt. destruct (l !! _); [|done]. intros [= <-]. eauto. Qed.

Lemma dropElement_header e inv r inv' r' : dropElement e inv r = Some (inv', r') -> header inv' = header inv.
Proof.
  unfold dropElement, dropUsage. destruct (fieldOf e); [|done]. destruct (_ =s "provider"); [by intros [= <- <-]|].
  destruct (elementOf _) as [[list i]|]; [|done].
  repeat match goal with
  | |- context [if list =s ?f then _ else _] => destruct (list =s f);
      [intros (x & rest & Heq)%dropAt_Some; injection Heq as -> ->; reflexivity|]
  end. done.
Qed.

Lemma dropRefused_header n inv r : header (dropRefused n inv r).1.2 = header inv.
Proof.
  revert inv r. induction n as [|n IH]; intros inv r; simpl; destruct (checkAdmissible inv) as [e|]; try done.
  destruct (dropElement e inv r) as [[inv' r']|] eqn:E; [|done]. rewrite IH. by eapply dropElement_header.
Qed.

Lemma Conform_header inv : header (Conform inv).2 = header inv.
Proof.
  unfold Conform. pose proof (conformLists_header (CutFreeText inv).1) as H1. destruct (conformLists _) as [inv1 r1]. simpl in H1.
  pose proof (dropRefused_header maxFallbackDrops inv1 r1) as H2. destruct (dropRefused _ _ _) as [[err inv2] r2]. simpl in H2.
  unfold applyRepairs. destruct (foldl _ _ _) as [notes caps].
  transitivity (header inv2); [reflexivity|]. rewrite H2, H1. apply CutFreeText_header.
Qed.

Lemma Conform_checked inv notes inv' : Conform inv = (notes, None, inv') -> checkAdmissible inv' = None.
Proof.
  unfold Conform. destruct (conformLists _) as [inv1 r1]. destruct (dropRefused _ _ _) as [[err inv2] r2].
  destruct (applyRepairs _ _) as [lines inv3]. destruct err; [done|]. by intros [= _ Hc <-].
Qed.

(** What [Conform] does not repair: the schema versions and the server version. *)
Definition judgeable (inv : Inventory) : Prop :=
  SchemaVersion inv = SupportedSchemaVersion /\ 0 <= CollectorSchema inv <= CurrentCollectorSchema /\
  (ServerVersion inv = ""%string \/ exists v, parseMajorOne (ServerVersion inv) = Ok v).

Lemma Admit_judgeable inv : judgeable inv ->
  Admit inv = match ValidateIdentifiers inv with
              | Some e => (Some (BadIdentifier e), inv)
              | None => let inv' := (CutFreeText inv).1 in (BeyondLimit <$> ValidateLimits inv', inv')
              end.
Proof.
  intros (Hs & Hc & Hv). unfold Admit. rewrite Hs, Z.eqb_refl. simpl.
  assert ((CollectorSchema inv <? 0) || (CurrentCollectorSchema <? CollectorSchema inv) = false) as -> by (apply orb_false_iff; lia).
  destruct Hv as [->|[v Hv]]; [done|]. destruct (ServerVersion inv =s ""); [done|]. by rewrite Hv.
Qed.

Lemma checkAdmissible_None inv : checkAdmissible inv = None <-> ValidateIdentifiers inv = None /\ ValidateLimits inv = None.
Proof. unfold checkAdmissible. destruct (ValidateIdentifiers inv), (ValidateLimits inv); simpl; naive_solver. Qed.

(** C14 A repaired inventory is admitted as it is: when [Conform] returns no error for an inventory whose schema
    versions and server version can be judged, admission accepts what it left, and its own cut of free text changes
    nothing of it. *)
Theorem Conform_admits (inv : Inventory) (notes : list string) (inv' : Inventory) :
  Conform inv = (notes, None, inv') -> judgeable inv -> Admit inv' = (None, inv').
Proof.
  intros Hc Hj. pose proof (Conform_header inv) as Hh. rewrite Hc in Hh. simpl in Hh.
  apply Conform_checked, checkAdmissible_None in Hc as [Hid Hlim].
  rewrite Admit_judgeable, Hid by (unfold header in Hh; injection Hh as H1 H2 H3; unfold judgeable in *; by rewrite H1, H2, H3).
  rewrite CutFreeText_id by (by apply ValidateLimits_sizes). simpl. by rewrite Hlim.
Qed.

(** ** The cut touches no identifier *)

Lemma cutRef_names o : o_Namespace (cutRef o).1 = o_Namespace o /\ o_Name (cutRef o).1 = o_Name o.
Proof. unfold cutRef. by destruct (cutTo _ _ _), (cutTo _ _ _), (cutTo _ _ _). Qed.

Lemma refs_cut (f : Z -> string -> string -> option IdentifierError) objs :
  forEach (fun k o => f k (o_Namespace o) (o_Name o)) (cutAll cutRef objs).1 =
  forEach (fun k o => f k (o_Namespace o) (o_Name o)) objs.
Proof.
  unfold cutAll. cbn [fst]. rewrite forEach_map. apply forEach_ext. intros k o. destruct (cutRef_names o) as [-> ->]. done.
Qed.

Lemma validateUsage_cut at_ u : validateUsage at_ (cutUsage u).1 = validateUsage at_ u.
Proof.
  unfold cutUsage. destruct (cutAll cutRef (u_Objects u)) as [objs cut] eqn:E. unfold validateUsage. simpl.
  destruct (foldl worseKey _ _); [done|]. change objs with (objs, cut).1. rewrite <- E.
  apply (refs_cut (fun k ns name => identifier _ ns _ _ ;? identifier _ name _ _)).
Qed.

Lemma usages_cut (at_ : Z -> string) us :
  forEach (fun i u => validateUsage (at_ i) u) (cutAll cutUsage us).1 = forEach (fun i u => validateUsage (at_ i) u) us.
Proof. unfold cutAll. cbn [fst]. rewrite forEach_map. apply forEach_ext. intros i u. apply validateUsage_cut. Qed.

Lemma validateRelease_cut i r : validateRelease i (cutRelease r).1 = validateRelease i r.
Proof.
  unfold cutRelease. destruct (cutAll cutUsage (h_ManifestAPIs r)) as [us cut] eqn:E. unfold validateRelease. simpl.
  change us with (us, cut).1. rewrite <- E.
  by rewrite (usages_cut (fun j => ("helmReleases[" +:+ itoa i +:+ "]") +:+ ".manifestApis[" +:+ itoa j +:+ "]")).
Qed.

Lemma validateChart_cut i c : validateChart i (cutChart c).1 = validateChart i c.
Proof. unfold cutChart. by destruct (cutTo _ _ _), (cutTo _ _ _), (cutTo _ _ _). Qed.

Lemma crdUsages_cut (at_ : Z -> string) c :
  forEach (fun j u => validateUsage (at_ j) u) (crd_Usage (cutCRD c).1) = forEach (fun j u => validateUsage (at_ j) u) (crd_Usage c).
Proof.
  unfold cutCRD. destruct (cutAll cutUsage (crd_Usage c)) as [us cut] eqn:E. simpl. change us with (us, cut).1. rewrite <- E.
  apply usages_cut.
Qed.

Lemma asUsage_cut v : asUsage (cutVolume v).1 = (cutUsage (asUsage v)).1.
Proof. unfold cutVolume, cutUsage. simpl. by destruct (cutAll cutRef (vu_Objects v)). Qed.

Lemma plugin_cut v : vu_Plugin (cutVolume v).1 = vu_Plugin v.
Proof. unfold cutVolume. by destruct (cutAll cutRef (vu_Objects v)). Qed.

(** What the cut does to each field. *)
Record cut_fields (inv inv' : Inventory) : Prop := {
  cf_usages : APIUsages inv' = (cutAll cutUsage (APIUsages inv)).1;
  cf_unknown : APIAuthorshipUnknown inv' = (cutAll cutUsage (APIAuthorshipUnknown inv)).1;
  cf_releases : HelmReleases inv' = map (fun r => (cutRelease r).1) (HelmReleases inv);
  cf_charts : GitOpsCharts inv' = map (fun c => (cutChart c).1) (GitOpsCharts inv);
  cf_crds : CRDs inv' = map (fun c => (cutCRD c).1) (CRDs inv);
  cf_volumes : VolumePlugins inv' = map (fun v => (cutVolume v).1) (VolumePlugins inv);
  cf_provider : Provider inv' = Provider inv;
  cf_addons : AddOns inv' = AddOns inv;
  cf_nodes : Nodes inv' = Nodes inv;
  cf_control : ControlPlane inv' = ControlPlane inv;
  cf_namespaces : Namespaces inv' = Namespaces inv;
}.

Lemma CutFreeText_fields inv : cut_fields inv (CutFreeText inv).1.
Proof. by split. Qed.

Lemma volumes_cut inv inv' : cut_fields inv inv' -> validateVolumeIdentifiers inv' = validateVolumeIdentifiers inv.
Proof.
  intros Hcut. unfold validateVolumeIdentifiers. rewrite (cf_volumes _ _ Hcut), forEach_map. apply forEach_ext. intros i v. cbv zeta.
  by rewrite asUsage_cut, validateUsage_cut, plugin_cut.
Qed.

Lemma crds_cut inv inv' : cut_fields inv inv' ->
  forEach (fun i c => forEach (fun j u => validateUsage ("crds[" +:+ itoa i +:+ "].usage[" +:+ itoa j +:+ "]") u) (crd_Usage c)) (CRDs inv') =
  forEach (fun i c => forEach (fun j u => validateUsage ("crds[" +:+ itoa i +:+ "].usage[" +:+ itoa j +:+ "]") u) (crd_Usage c)) (CRDs inv).
Proof.
  intros Hcut. rewrite (cf_crds _ _ Hcut), forEach_map. apply forEach_ext. intros i c.
  apply (crdUsages_cut (fun j => "crds[" +:+ itoa i +:+ "].usage[" +:+ itoa j +:+ "]")).
Qed.

Lemma ValidateIdentifiers_cut inv : ValidateIdentifiers (CutFreeText inv).1 = ValidateIdentifiers inv.
Proof.
  pose proof (CutFreeText_fields inv) as Hcut. revert Hcut. generalize (CutFreeText inv).1. intros inv' Hcut.
  unfold ValidateIdentifiers. rewrite (volumes_cut _ _ Hcut), (crds_cut _ _ Hcut). destruct Hcut as [-> -> -> -> _ _ -> -> -> -> ->].
  rewrite (usages_cut (fun i => "apiUsage[" +:+ itoa i +:+ "]")), (usages_cut (fun i => "apiAuthorshipUnknown[" +:+ itoa i +:+ "]")).
  rewrite !forEach_map.
  rewrite (forEach_ext (fun i r => validateRelease i (cutRelease r).1) validateRelease) by (intros; apply validateRelease_cut).
  by rewrite (forEach_ext (fun i c => validateChart i (cutChart c).1) validateChart) by (intros; apply validateChart_cut).
Qed.

(** ** What the checks say of an entry *)

Lemma identifier_None field v rule problems : identifier field v rule problems = None -> problemsWith v problems = [].
Proof. unfold identifier. by destruct (problemsWith v problems). Qed.

Lemma worseKey_None keys : foldl worseKey None keys = None -> forall ns, ns ∈ keys -> problemsWith ns namespaceProblems = [].
Proof.
  assert (Hsome : forall l b, exists b', foldl worseKey (Some b) l = Some b').
  { induction l as [|k l IH]; intros b; [by eexists|]. simpl. unfold worseKey at 2. destruct (negb _); [apply IH|].
    destruct (problemsWith k namespaceProblems); apply IH. }
  induction keys as [|k keys IH]; [by intros _ ns ?%not_elem_of_nil|]. simpl. unfold worseKey at 2.
  destruct (problemsWith k namespaceProblems) eqn:Ek.
  - intros Hf ns [->|Hns]%elem_of_cons; [done|by apply IH].
  - intros Hf. destruct (Hsome keys k) as [b Hb]. simpl in Hf. rewrite Hb in Hf. done.
Qed.

(** The identifiers and the limits of an entry's references. *)
Record refs_ok (counts : gmap string Z) (objs : list ObjectRef) : Prop := {
  ro_keys : forall ns, ns ∈ keysOf counts -> badKey ns = false;
  ro_objs : forall o, o ∈ objs -> objectProblem o = ""%string;
  ro_len : zlen objs <= MaxObjectRefs;
}.

Definition usage_ok (u : APIUsage) : Prop := refs_ok (u_Namespaces u) (u_Objects u).

Definition managers_ok (objs : list ObjectRef) : Prop := forall o, o ∈ objs -> managerProblem (o_Manager o) = None.

Lemma managerCheck_None at_ objs : forEach (managerCheck at_) objs = None -> managers_ok objs.
Proof.
  intros Hf o Ho. destruct (forEach_None _ _ Hf o Ho) as [j Hj]. unfold managerCheck in Hj. by destruct (managerProblem _) as [[? ?]|].
Qed.

Lemma refs_ok_intro at_ u max : validateUsage at_ u = None -> managers_ok (u_Objects u) -> zlen (u_Objects u) <= MaxObjectRefs ->
  within (RCounts (keysOf (u_Namespaces u))) max -> within (RSlice (map valueOfRef (u_Objects u))) max -> usage_ok u.
Proof.
  intros Hid Hm Hlen Hkeys Hobjs. unfold validateUsage in Hid. destruct (foldl worseKey _ _) eqn:Ek; [done|]. split; [| |done].
  - intros ns Hns. unfold badKey, overLimit. rewrite (worseKey_None _ Ek ns Hns). simpl. apply Z.ltb_ge. by apply Hkeys.
  - intros o Ho. destruct (forEach_None _ _ Hid o Ho) as [j [H1 H2]%andThen_None]. apply identifier_None in H1, H2.
    unfold objectProblem. rewrite H1, H2, (Hm o Ho).
    pose proof (within_slice _ _ _ Hobjs o Ho) as (_ & _ & Hf & _ & Hr & _ & Hi & Hir & _).
    unfold overLimit. simpl. repeat (rewrite (proj2 (Z.ltb_ge _ _)) by done). done.
Qed.

Lemma usageLimits_None field u : usageLimits field u = None -> managers_ok (u_Objects u) /\ zlen (u_Objects u) <= MaxObjectRefs.
Proof.
  unfold usageLimits. destruct (negativeCount u) as [[[? ?] ?]|]; [done|]. destruct (_ <? _) eqn:E; [done|].
  intros Hm. to_prop. split; [by eapply managerCheck_None|done].
Qed.

Lemma validateUsages_None at_ us : validateUsages at_ us = None ->
  forall u, u ∈ us -> managers_ok (u_Objects u) /\ zlen (u_Objects u) <= MaxObjectRefs.
Proof.
  unfold validateUsages. generalize (∅ : gmap (string * string * string) Z), 0.
  induction us as [|u us IH]; intros seen i Hf x Hx; [by apply not_elem_of_nil in Hx|]. simpl in Hf.
  destruct (seen !! _); [done|]. apply andThen_None in Hf as [Hu Hus].
  apply elem_of_cons in Hx as [->|Hx]; [by eapply usageLimits_None|by eapply IH].
Qed.

Lemma usages_ok_intro (at_ : Z -> string) name us max :
  forEach (fun i u => validateUsage (at_ i) u) us = None -> validateUsages name us = None ->
  within (RSlice (map valueOfUsage us)) max -> forall u, u ∈ us -> usage_ok u.
Proof.
  intros Hid Hlim Hw u Hu. destruct (forEach_None _ _ Hid u Hu) as [j Hj]. destruct (validateUsages_None _ _ Hlim u Hu) as [Hm Hl].
  pose proof (within_slice _ _ _ Hw u Hu) as (_ & _ & _ & _ & Hk & Ho & _). by eapply refs_ok_intro.
Qed.

Lemma volumesFrom_None seen i vs : volumesFrom seen i vs = None ->
  forall v, v ∈ vs -> managers_ok (vu_Objects v) /\ zlen (vu_Objects v) <= MaxObjectRefs.
Proof.
  revert seen i. induction vs as [|v vs IH]; intros seen i Hf x Hx; [by apply not_elem_of_nil in Hx|]. simpl in Hf.
  apply andThen_None in Hf as [Hv Hvs]. apply elem_of_cons in Hx as [->|Hx]; [|by eapply IH].
  unfold volumeLimits in Hv. destruct (_ =s _); [done|]. destruct (bool_decide _); [done|]. destruct (_ <? _) eqn:E; [done|].
  destruct (negativeCount _) as [[[? ?] ?]|]; [done|]. to_prop. split; [by eapply managerCheck_None|done].
Qed.

(** ** Repairs that have nothing to repair *)

Lemma foldl_keep {A R} (step : list A * R -> A -> list A * R) (r : R) l :
  (forall acc x, x ∈ l -> step (acc, r) x = (acc ++ [x], r)) -> foldl step ([], r) l = (l, r).
Proof.
  intros Hs. assert (Hgen : forall acc, foldl step (acc, r) l = (acc ++ l, r)); [|apply (Hgen [])].
  induction l as [|x l IH]; intros acc; simpl; [by rewrite app_nil_r|]. rewrite Hs by left.
  rewrite IH by (intros acc' y Hy; apply Hs; by right). by rewrite <- app_assoc.
Qed.

Lemma keepRefs_id c what omitted r objs : (forall o, o ∈ objs -> objectProblem o = ""%string) ->
  foldl (keepRef c what) ([], omitted, r) objs = (objs, omitted, r).
Proof.
  intros Ho. assert (Hgen : forall acc, foldl (keepRef c what) (acc, omitted, r) objs = (acc ++ objs, omitted, r)); [|apply (Hgen [])].
  induction objs as [|o objs IH]; intros acc; simpl; [by rewrite app_nil_r|]. rewrite Ho by left. simpl.
  rewrite IH by (intros o' Hin; apply Ho; by right). by rewrite <- app_assoc.
Qed.

Lemma conformRefs_id counts objs omitted c what r : refs_ok counts objs ->
  conformRefs counts objs omitted c what r = (counts, objs, omitted, r).
Proof.
  intros [Hk Ho Hl]. unfold conformRefs.
  assert (List.filter badKey (keysOf counts) = []) as ->.
  { induction (keysOf counts) as [|k keys IH]; [done|]. simpl. rewrite Hk by left. apply IH. intros ns Hns. apply Hk. by right. }
  simpl. rewrite keepRefs_id by done. assert (0 <? zlen objs - MaxObjectRefs = false) as -> by lia. done.
Qed.

Lemma conformUsages_id us c r : (forall u, u ∈ us -> usage_ok u) -> conformUsages us c r = (us, r).
Proof.
  intros Hu. apply foldl_keep. intros acc u Hin. unfold conformUsage. rewrite conformRefs_id by (by apply Hu). by destruct u.
Qed.

(** What the two checks say of the lists the repairs go through. *)
Record lists_ok (inv : Inventory) : Prop := {
  lo_usages : forall u, u ∈ APIUsages inv -> usage_ok u;
  lo_unknown : forall u, u ∈ APIAuthorshipUnknown inv -> usage_ok u;
  lo_releases : forall r, r ∈ HelmReleases inv -> releaseProblem r = ""%string /\ forall u, u ∈ h_ManifestAPIs r -> usage_ok u;
  lo_crds : forall c, c ∈ CRDs inv -> forall u, u ∈ crd_Usage c -> usage_ok u;
  lo_addons : forall a, a ∈ AddOns inv -> existsb overLimit [ai_ID a; ai_Version a; ai_ChartVersion a; ai_Source a] = false;
  lo_images : forall img, img ∈ UnrecognizedImages inv -> overLimit img = false;
  lo_image_count : zlen (UnrecognizedImages inv) <= MaxUnrecognizedImages;
  lo_volumes : forall v, v ∈ VolumePlugins inv -> refs_ok (vu_Namespaces v) (vu_Objects v);
  lo_volume_count : zlen (VolumePlugins inv) <= MaxVolumePlugins;
}.

Ltac fits := unfold overLimit; simpl; repeat (rewrite (proj2 (Z.ltb_ge _ _)) by done); done.

Lemma release_ok i r at_ : validateRelease i r = None -> validateUsages at_ (h_ManifestAPIs r) = None ->
  within (valueOfRelease r) MaxStringBytes -> releaseProblem r = ""%string /\ forall u, u ∈ h_ManifestAPIs r -> usage_ok u.
Proof.
  intros Hid Hlim (_ & _ & H1 & H2 & H3 & H4 & H5 & _ & Hm & _). unfold validateRelease in Hid. rewrite !andThen_None in Hid.
  destruct Hid as (Hn & Hns & Hus). apply identifier_None in Hn, Hns. split.
  - unfold releaseProblem. rewrite Hn, Hns. fits.
  - by eapply (usages_ok_intro (fun j => _ +:+ ".manifestApis[" +:+ itoa j +:+ "]")).
Qed.

Lemma checks_lists inv : ValidateIdentifiers inv = None -> ValidateLimits inv = None -> lists_ok inv.
Proof.
  intros Hid Hlim. pose proof (ValidateLimits_sizes inv Hlim) as Hsz. unfold ValidateIdentifiers in Hid. rewrite !andThen_None in Hid.
  unfold ValidateLimits in Hlim. rewrite !andThen_None in Hlim.
  destruct Hid as (_ & Hu & Hk & Hr & _ & _ & _ & _ & _ & Hc & Hv). destruct Hlim as (Lu & Lk & Lr & Lc & Li & _ & Lv & _). split.
  - by eapply (usages_ok_intro (fun i => "apiUsage[" +:+ itoa i +:+ "]")), (sz_usages _ Hsz).
  - by eapply (usages_ok_intro (fun i => "apiAuthorshipUnknown[" +:+ itoa i +:+ "]")), (sz_unknown _ Hsz).
  - intros r Hin. destruct (forEach_None _ _ Hr r Hin) as [i Hi]. destruct (forEach_None _ _ Lr r Hin) as [j Hj].
    eapply release_ok; [exact Hi|exact Hj|]. exact (within_slice _ _ _ (sz_releases _ Hsz) r Hin).
  - intros c Hin. destruct (forEach_None _ _ Hc c Hin) as [i Hi]. destruct (forEach_None _ _ Lc c Hin) as [j Hj].
    pose proof (within_slice _ _ _ (sz_crds _ Hsz) c Hin) as (_ & _ & _ & _ & _ & Hw & _).
    by eapply (usages_ok_intro (fun j => "crds[" +:+ itoa i +:+ "].usage[" +:+ itoa j +:+ "]")).
  - intros a Hin. pose proof (within_slice _ _ _ (sz_addons _ Hsz) a Hin) as (H1 & H2 & H3 & _ & H5 & _). fits.
  - intros img Hin. pose proof (within_slice _ _ _ (sz_images _ Hsz) img Hin) as Hw. unfold overLimit. apply Z.ltb_ge. exact Hw.
  - unfold imagesLimit in Li. destruct (_ <? _) eqn:E; [done|]. by to_prop.
  - intros v Hin. unfold validateVolumeIdentifiers in Hv. destruct (forEach_None _ _ Hv v Hin) as [i [_ Hi]%andThen_None].
    unfold validateVolumeLimits in Lv. destruct (_ <? _); [done|]. destruct (volumesFrom_None _ _ _ Lv v Hin) as [Hm Hl].
    pose proof (within_slice _ _ _ (sz_volumes _ Hsz) v Hin) as (_ & _ & Hkeys & Ho & _).
    exact (refs_ok_intro _ (asUsage v) _ Hi Hm Hl Hkeys Ho).
  - unfold validateVolumeLimits in Lv. destruct (_ <? _) eqn:E; [done|]. by to_prop.
Qed.

Lemma conformHelm_id inv r : lists_ok inv -> conformHelm inv r = (inv, r).
Proof.
  intros Hok. unfold conformHelm. rewrite foldl_keep; [by destruct inv|]. intros acc rel Hin.
  destruct (lo_releases _ Hok rel Hin) as [Hp Hu]. unfold conformRelease. rewrite Hp. simpl. rewrite conformUsages_id by done.
  rewrite Z.eqb_refl. by destruct rel.
Qed.

Lemma conformAddOns_id inv r : lists_ok inv -> conformAddOns inv r = (inv, r).
Proof.
  intros Hok. unfold conformAddOns. rewrite foldl_keep; [by destruct inv|]. intros acc a Hin. unfold conformAddOn.
  by rewrite (lo_addons _ Hok a Hin).
Qed.

Lemma conformImages_id inv r : lists_ok inv -> conformImages inv r = (inv, r).
Proof.
  intros Hok. unfold conformImages. pose proof (lo_images _ Hok) as Hi.
  assert (Hgen : forall acc, foldl conformImage (acc, UnrecognizedImagesOmitted inv, r) (UnrecognizedImages inv) =
    (acc ++ UnrecognizedImages inv, UnrecognizedImagesOmitted inv, r)).
  { revert Hi. generalize (UnrecognizedImages inv). induction l as [|x l IH]; intros Hi acc; simpl; [by rewrite app_nil_r|].
    rewrite Hi by left. rewrite IH by (intros y Hy; apply Hi; by right). by rewrite <- app_assoc. }
  rewrite Hgen. simpl. pose proof (lo_image_count _ Hok). assert (0 <? zlen (UnrecognizedImages inv) - MaxUnrecognizedImages = false) as -> by lia.
  by destruct inv.
Qed.

Lemma conformVolumes_id inv r : lists_ok inv -> conformVolumes inv r = (inv, r).
Proof.
  intros Hok. unfold conformVolumes. rewrite foldl_keep.
  - pose proof (lo_volume_count _ Hok). assert (MaxVolumePlugins <? zlen (VolumePlugins inv) = false) as -> by lia. by destruct inv.
  - intros acc v Hin. unfold conformVolume. rewrite conformRefs_id by (by apply (lo_volumes _ Hok)). by destruct v.
Qed.

Lemma conformLists_id inv : lists_ok inv -> conformLists inv = (inv, noRepairs).
Proof.
  intros Hok. unfold conformLists. rewrite conformHelm_id by done. rewrite conformUsages_id by apply Hok.
  replace (with_APIUsages (APIUsages inv) inv) with inv by (by destruct inv). rewrite conformUsages_id by apply Hok.
  replace (with_APIAuthorshipUnknown (APIAuthorshipUnknown inv) inv) with inv by (by destruct inv).
  rewrite foldl_keep; [|intros acc c Hin; unfold conformCRD; rewrite conformUsages_id by (by apply (lo_crds _ Hok)); by destruct c].
  replace (with_CRDs (CRDs inv) inv) with inv by (by destruct inv).
  by rewrite conformAddOns_id, conformImages_id, conformVolumes_id by done.
Qed.

(** C15 An admitted inventory needs no repair: what admission accepts, [Conform] returns unchanged, with no note and no
    error. So a repaired inventory is repaired once, and the agent's repair and the server's admission draw the same
    line. *)
Theorem Admit_needs_no_repair (inv inv' : Inventory) : Admit inv = (None, inv') -> Conform inv' = ([], None, inv').
Proof.
  intros Ha. assert (Hc : ValidateIdentifiers inv' = None /\ ValidateLimits inv' = None).
  { unfold Admit in Ha. destruct (negb _); [done|]. destruct (_ || _); [done|]. destruct (if ServerVersion inv =s "" then _ else _); [|done].
    destruct (ValidateIdentifiers inv) eqn:Hid; [done|]. pose proof (ValidateIdentifiers_cut inv) as Hcut. revert Ha Hcut.
    cbv zeta. generalize (CutFreeText inv).1. intros cut Ha Hcut. injection Ha as Hl ->. rewrite Hcut. split; [done|].
    by apply fmap_None in Hl. }
  destruct Hc as [Hid Hlim]. unfold Conform. rewrite CutFreeText_id by (by apply ValidateLimits_sizes). cbn [fst].
  rewrite conformLists_id by (by apply checks_lists). assert (Hadm : checkAdmissible inv' = None) by (by apply checkAdmissible_None).
  unfold maxFallbackDrops. cbn [dropRefused]. rewrite Hadm. unfold applyRepairs. cbn [rp_ordered noRepairs foldl].
  replace (with_Capabilities (Capabilities inv') inv') with inv' by (by destruct inv').
  rewrite CutFreeText_id by (by apply ValidateLimits_sizes). cbn [fst]. by rewrite Hadm.
Qed.

(** ** What a repair counts *)

Definition accepted (o : ObjectRef) : Prop := objectProblem o = ""%string.
#[local] Instance accepted_dec o : Decision (accepted o).
Proof. unfold accepted. apply _. Defined.

Lemma wrap64_add x y : wrap64 (wrap64 x + y) = wrap64 (x + y).
Proof.
  unfold wrap64. replace ((x + 2 ^ 63) mod 2 ^ 64 - 2 ^ 63 + y + 2 ^ 63) with ((x + 2 ^ 63) mod 2 ^ 64 + y) by lia.
  rewrite Zplus_mod_idemp_l. do 2 f_equal. lia.
Qed.

Lemma wrap64_shift x y k : wrap64 x = wrap64 y -> wrap64 (x + k) = wrap64 (y + k).
Proof. intros Hxy. by rewrite <- (wrap64_add x), Hxy, wrap64_add. Qed.

Lemma keepRefs_spec c what objs : forall acc omitted r, exists omitted' r',
  foldl (keepRef c what) (acc, omitted, r) objs = (acc ++ filter accepted objs, omitted', r') /\
  wrap64 (omitted' + zlen (filter accepted objs)) = wrap64 (omitted + zlen objs).
Proof.
  induction objs as [|o objs IH]; intros acc omitted r; [exists omitted, r; by rewrite app_nil_r|]. simpl.
  rewrite filter_cons. destruct (objectProblem o =s "") eqn:E.
  - apply String.eqb_eq in E. rewrite (decide_True _ _ E). destruct (IH (acc ++ [o]) omitted r) as (omitted' & r' & -> & Hw).
    exists omitted', r'. rewrite <- app_assoc. split; [done|]. apply (wrap64_shift _ _ 1) in Hw. unfold zlen in *. simpl.
    rewrite !Nat2Z.inj_succ. rewrite <- !Z.add_1_r, !Z.add_assoc. exact Hw.
  - apply String.eqb_neq in E. rewrite (decide_False _ _ E).
    edestruct (IH acc (wrap64 (omitted + 1))) as (omitted' & r' & -> & Hw). exists omitted', r'. split; [done|].
    rewrite Hw, wrap64_add. unfold zlen. simpl. f_equal. lia.
Qed.

Lemma deleteKeys_lookup (bad : list string) (m : gmap string Z) ns :
  foldl (fun m ns => delete ns m) m bad !! ns = if bool_decide (ns ∈ bad) then None else m !! ns.
Proof.
  revert m. induction bad as [|k bad IH]; intros m; cbn [foldl]; [by rewrite bool_decide_eq_false_2 by apply not_elem_of_nil|].
  rewrite IH. destruct (decide (ns ∈ bad)) as [Hin|Hn].
  - rewrite !bool_decide_eq_true_2; [done|by right|done].
  - rewrite (bool_decide_eq_false_2 (ns ∈ bad)) by done. destruct (decide (ns = k)) as [->|Hne].
    + rewrite lookup_delete_eq, bool_decide_eq_true_2; [done|left].
    + rewrite lookup_delete_ne by done. rewrite bool_decide_eq_false_2; [done|]. by rewrite not_elem_of_cons.
Qed.

Lemma keys_lookup (m : gmap string Z) ns :
  (if bool_decide (ns ∈ List.filter badKey (keysOf m)) then None else m !! ns) = if badKey ns then None else m !! ns.
Proof.
  case_bool_decide as Hin.
  - apply list_elem_of_In, filter_In in Hin as [_ ->]. done.
  - destruct (badKey ns) eqn:E; [|done]. destruct (m !! ns) as [n|] eqn:Hm; [|done]. exfalso. apply Hin.
    apply list_elem_of_In, filter_In. split; [|done]. apply list_elem_of_In, list_elem_of_fmap. exists (ns, n). split; [done|].
    by apply elem_of_map_to_list.
Qed.

(** What a repair leaves of an entry: its identity and count, the accepted objects up to the cap, every other object
    counted, and the namespace keys that are namespace names. *)
Record repaired_entry (u u' : APIUsage) : Prop := {
  re_kind : u_Group u' = u_Group u /\ u_Version u' = u_Version u /\ u_Kind u' = u_Kind u /\ u_Count u' = u_Count u;
  re_objects : u_Objects u' = take (Z.to_nat MaxObjectRefs) (filter accepted (u_Objects u));
  re_counted : wrap64 (u_ObjectsOmitted u' + zlen (u_Objects u')) = wrap64 (u_ObjectsOmitted u + zlen (u_Objects u));
  re_keys : forall ns, u_Namespaces u' !! ns = if badKey ns then None else u_Namespaces u !! ns;
}.

Lemma conformRefs_spec u c what r counts objs omitted r' :
  conformRefs (u_Namespaces u) (u_Objects u) (u_ObjectsOmitted u) c what r = (counts, objs, omitted, r') ->
  repaired_entry u (with_Objects objs omitted counts u).
Proof.
  unfold conformRefs. set (r0 := foldl _ r _).
  destruct (keepRefs_spec c what (u_Objects u) [] (u_ObjectsOmitted u) r0) as (omitted' & r1 & -> & Hw). simpl in *.
  assert (Hk : forall ns, foldl (fun m ns => delete ns m) (u_Namespaces u) (List.filter badKey (keysOf (u_Namespaces u))) !! ns =
    if badKey ns then None else u_Namespaces u !! ns) by (intros ns; by rewrite deleteKeys_lookup, keys_lookup).
  set (kept := filter accepted (u_Objects u)) in *. set (counts' := foldl _ (u_Namespaces u) _) in *. clearbody counts'.
  destruct (0 <? zlen kept - MaxObjectRefs) eqn:En; intros Heq; injection Heq as <- <- <- <-.
  - split; [done|done| |exact Hk]. cbn [u_ObjectsOmitted u_Objects with_Objects]. to_prop. unfold zlen, MaxObjectRefs in *.
    rewrite length_take, Nat.min_l by lia. rewrite wrap64_add, Z2Nat.id by lia.
    replace (omitted' + _ + 100) with (omitted' + Z.of_nat (length kept)) by lia. exact Hw.
  - split; [done| |exact Hw|exact Hk]. cbn [u_Objects with_Objects]. to_prop. fold kept. rewrite take_ge; [done|]. unfold zlen, MaxObjectRefs in *. lia.
Qed.

(** Entry by entry, whatever was repaired before. *)
Lemma conformUsages_entries (us : list APIUsage) (c : string) (acc : list APIUsage) (r : repairs) :
  exists us', (foldl (conformUsage c) (acc, r) us).1 = acc ++ us' /\ Forall2 repaired_entry us us'.
Proof.
  revert acc r. induction us as [|u us IH]; intros acc r0; [exists []; by rewrite app_nil_r|]. simpl.
  destruct (conformRefs _ _ _ _ _ _) as [[[counts objs] omitted] r1] eqn:E. apply conformRefs_spec in E.
  destruct (IH (acc ++ [with_Objects objs omitted counts u]) r1) as (us' & -> & Hus). eexists (_ :: us').
  rewrite <- app_assoc. split; [done|]. by constructor.
Qed.

(** C30 A repair of API usage keeps count of what it drops: every entry stays, in order, with its kind and count; its
    objects are the acceptable ones up to the cap, those left out are added to its omitted count, so that listed and
    omitted objects sum to what they did (as 64-bit integers), and only the namespace keys that are not namespace names
    go. *)
Theorem conformUsages_conserves (us : list APIUsage) (c : string) (r : repairs) :
  Forall2 repaired_entry us (conformUsages us c r).1.
Proof. unfold conformUsages. by destruct (conformUsages_entries us c [] r) as (us' & -> & Hus). Qed.
End Spec.

(** ** Cuts of free text *)

Lemma utf8Prefix_fits s n : 0 <= n -> slen (utf8Prefix s n) <= n.
Proof.
  intros Hn. unfold utf8Prefix. destruct (slen s <=? n) eqn:E; [by to_prop|]. unfold slen.
  pose proof (takeBytes_length (cutAt s (Z.to_nat n)) s). pose proof (cutAt_le s (Z.to_nat n)). lia.
Qed.

Lemma utf8Prefix_utf8 s n : utf8 s -> utf8 (utf8Prefix s n).
Proof. intros Hs. unfold utf8Prefix. destruct (_ <=? _); [done|]. by apply cut_utf8. Qed.

Lemma cutMark_utf8 : utf8 cutMark.
Proof. replace cutMark with (ToValidUTF8 cutMark) by (by vm_compute). apply ToValidUTF8_utf8. Qed.

Lemma separator_utf8 : utf8 "; ".
Proof. replace "; "%string with (ToValidUTF8 "; ") by (by vm_compute). apply ToValidUTF8_utf8. Qed.

Lemma cutMark_len : slen cutMark = 9.
Proof. by vm_compute. Qed.

Lemma cutReason_spec s : let t := default s (cutText s MaxReasonBytes) in
  slen t <= MaxReasonBytes /\ (slen s <= MaxReasonBytes -> t = s) /\ (utf8 s -> utf8 t).
Proof.
  unfold cutText. destruct (slen s <=? MaxReasonBytes) eqn:E; to_prop; [done|]. cbn [default from_option id].
  refine (conj _ (conj _ _)); [|lia|intros Hs; apply utf8_app; [by apply utf8Prefix_utf8|apply cutMark_utf8]].
  rewrite slen_app, cutMark_len. pose proof (utf8Prefix_fits s (MaxReasonBytes - 9)) as Hp. unfold MaxReasonBytes in *. lia.
Qed.

(** C31 A reason the server builds on stays within the bound admission applies: appending to any reason gives at most
    the limit, an addition within it is kept whole at the end, and valid UTF-8 stays valid UTF-8, whichever of the two
    texts is cut. *)
Theorem AppendReason_fits (reason addition : string) :
  slen (AppendReason reason addition) <= MaxReasonBytes /\
  (slen addition <= MaxReasonBytes -> exists before, AppendReason reason addition = before +:+ addition) /\
  (utf8 reason -> utf8 addition -> utf8 (AppendReason reason addition)).
Proof.
  unfold AppendReason. cbv zeta. destruct (cutReason_spec addition) as (Hlen & Hid & Hutf).
  set (t := default addition (cutText addition MaxReasonBytes)) in *. clearbody t.
  destruct (reason =s "").
  { refine (conj Hlen (conj _ _)); [|auto]. intros Ha. exists ""%string. by rewrite Hid. }
  remember (MaxReasonBytes - slen t - 2) as room eqn:Hroom. destruct (room <? slen reason) eqn:Er; [destruct (room <? slen cutMark) eqn:Em|]; to_prop.
  - refine (conj Hlen (conj _ _)); [|auto]. intros Ha. exists ""%string. by rewrite Hid.
  - rewrite cutMark_len in *. refine (conj _ (conj _ _)).
    + rewrite !slen_app, cutMark_len. pose proof (utf8Prefix_fits reason (room - 9)). change (slen "; ") with 2. lia.
    + intros Ha. rewrite (Hid Ha). exists (utf8Prefix reason (room - 9) +:+ cutMark +:+ "; "). rewrite !app_assoc_s. reflexivity.
    + intros Hr Ha. apply utf8_app; [by apply utf8Prefix_utf8|]. apply utf8_app; [apply cutMark_utf8|].
      apply utf8_app; [apply separator_utf8|auto].
  - refine (conj _ (conj _ _)).
    + rewrite !slen_app. change (slen "; ") with 2. lia.
    + intros Ha. rewrite (Hid Ha). exists (reason +:+ "; "). rewrite !app_assoc_s. reflexivity.
    + intros Hr Ha. apply utf8_app; [done|]. apply utf8_app; [apply separator_utf8|auto].
Qed.

(** ** A concrete rule set *)

Definition label_byte (a : ascii) : bool := ascii_between "a" "z" a || is_digit a || Ascii.eqb a "-" || Ascii.eqb a ".".

Fixpoint label_text (s : string) : bool :=
  match s with
  | ""%string => true
  | String a s' => label_byte a && label_text s'
  end.

Definition lowercase (max : Z) (s : string) : list string :=
  if label_text s && (slen s <=? max) then [] else ["must be lower case letters, digits, '-' or '.'"].

#[local] Instance exampleContent : Content := {|
  IsDNS1123Label := lowercase 63;
  IsDNS1123Subdomain := lowercase 253;
  IsLabelValue := lowercase 63;
  IsPathSegmentName := fun s => if Contains s "/" then ["may not contain '/'"] else [];
  MaxLenError := fun n => "must be no more than " +:+ itoa n +:+ " bytes";
  EmptyError := "must be non-empty";
|}.

#[local] Instance exampleUnicode : Unicode := {| printable := fun r => 0xA0 <? r |}.

(** An inventory with a release and an object a collector could be fed. *)
Definition plantedInventory : Inventory :=
  with_HelmReleases [mkHelmRelease "Bad_Name" "prod" "c" "1" "1" "" "deployed" 1 []]
    (with_APIUsages [mkAPIUsage "policy" "v1beta1" "PodSecurityPolicy" 2 ∅
        [mkObjectRef "" "restricted" "" 0 "" "" "" "" false false; mkObjectRef "" "a/b" "" 0 "" "" "" "" false false] 0]
      cleanInventory).

Definition repairedInventory : Inventory := (Conform plantedInventory).2.

Lemma Conform_admits_witness :
  Admit repairedInventory = (None, repairedInventory) /\ HelmReleases repairedInventory = [] /\
  (Admit plantedInventory).1 <> None.
Proof.
  split; [|split; [vm_compute; reflexivity|vm_compute; discriminate]].
  apply (Conform_admits plantedInventory (Conform plantedInventory).1.1 repairedInventory).
  - vm_compute. reflexivity.
  - split; [reflexivity|]. split; [vm_compute; split; discriminate|]. right. eexists. vm_compute. reflexivity.
Defined.

Lemma Admit_needs_no_repair_witness : Conform cleanInventory = ([], None, cleanInventory).
Proof. apply (Admit_needs_no_repair cleanInventory). vm_compute. reflexivity. Defined.

(** The schema versions are not checked by [Conform]: it returns no error for an inventory [Admit] refuses. *)
Example conform_later_schema :
  let inv := mkInventory 2 "c" 1 SourceCluster 0 "" "" ∅ [] [] [] [] [] [] [] [] [] 0 [] [] 0 0 [] in
  (Conform inv).1.2 = None /\ (Admit inv).1 = Some (SchemaVersionError 2).
Proof. split; vm_compute; reflexivity. Qed.
