(* ===== verification/GoSha.v ===== *)
(** * SHA-256: crypto/sha256 and encoding/hex

    What the store and the notifications use of the two packages: the digest
    of a byte string, as FIPS 180-4 defines it, and its lower-case hexadecimal
    text. Words are 32-bit integers, additions wrap. *)

From stdpp Require Import base list strings.
From Stdlib Require Import ZArith Lia Ascii.
From S2P Require Import Prelude GoStr.

Module Sha256.
Definition w32 (z : Z) : Z := z mod 2 ^ 32.

Definition rotr (n x : Z) : Z := Z.lor (Z.shiftr x n) (w32 (Z.shiftl x (32 - n))).

Definition not32 (x : Z) : Z := Z.lxor x (2 ^ 32 - 1).

(** The constants of the standard are the first 32 bits of the fractional
    parts of roots of the first primes: cube roots for the rounds, square
    roots for the initial state. *)
Definition isPrime (p : nat) : bool := forallb (fun d => negb (p mod d =? 0)%nat) (seq 2 (p - 2)).

Definition primes (n : nat) : list Z := take n (map Z.of_nat (List.filter isPrime (seq 2 400))).

(** The integer cube root of [x], bit by bit from the highest. *)
Fixpoint cubeRoot (bits : nat) (x acc : Z) : Z :=
  match bits with
  | O => acc
  | S bits' => let c := acc + 2 ^ Z.of_nat bits' in cubeRoot bits' x (if c ^ 3 <=? x then c else acc)
  end.

Definition roundConstants : list Z := Eval vm_compute in map (fun p => cubeRoot 36 (p * 2 ^ 96) 0 mod 2 ^ 32) (primes 64).

Definition initialState : list Z := Eval vm_compute in map (fun p => Z.sqrt (p * 2 ^ 64) mod 2 ^ 32) (primes 8).

Fixpoint bytesOf (s : string) : list Z :=
  match s with
  | EmptyString => []
  | String a s' => Z.of_N (N_of_ascii a) :: bytesOf s'
  end.

(** The [n] big-endian bytes of [z]. *)
Fixpoint bigEndian (n : nat) (z : Z) : list Z :=
  match n with
  | O => []
  | S n' => bigEndian n' (z / 256) ++ [z mod 256]
  end.

(** The message with its padding: a one bit, zeros, and the length in bits. *)
Definition padded (msg : list Z) : list Z :=
  msg ++ [0x80] ++ replicate (Z.to_nat ((55 - zlen msg) mod 64)) 0 ++ bigEndian 8 (8 * zlen msg).

Fixpoint words (bs : list Z) : list Z :=
  match bs with
  | a :: b :: c :: d :: bs' => (((a * 256 + b) * 256 + c) * 256 + d) :: words bs'
  | _ => []
  end.

Definition smallSigma0 (x : Z) : Z := Z.lxor (Z.lxor (rotr 7 x) (rotr 18 x)) (Z.shiftr x 3).
Definition smallSigma1 (x : Z) : Z := Z.lxor (Z.lxor (rotr 17 x) (rotr 19 x)) (Z.shiftr x 10).
Definition bigSigma0 (x : Z) : Z := Z.lxor (Z.lxor (rotr 2 x) (rotr 13 x)) (rotr 22 x).
Definition bigSigma1 (x : Z) : Z := Z.lxor (Z.lxor (rotr 6 x) (rotr 11 x)) (rotr 25 x).
Definition choose (x y z : Z) : Z := Z.lxor (Z.land x y) (Z.land (not32 x) z).
Definition majority (x y z : Z) : Z := Z.lxor (Z.lxor (Z.land x y) (Z.land x z)) (Z.land y z).

(** The message schedule, newest word first. *)
Fixpoint schedule (n : nat) (rev_ws : list Z) : list Z :=
  match n with
  | O => rev_ws
  | S n' =>
      schedule n' (w32 (smallSigma1 (nth 1 rev_ws 0) + nth 6 rev_ws 0 +
                        smallSigma0 (nth 14 rev_ws 0) + nth 15 rev_ws 0) :: rev_ws)
  end.

Definition roundStep (st : list Z) (kw : Z * Z) : list Z :=
  match st with
  | [a; b; c; d; e; f; g; h] =>
      let t1 := h + bigSigma1 e + choose e f g + kw.1 + kw.2 in
      let t2 := bigSigma0 a + majority a b c in
      [w32 (t1 + t2); a; b; c; w32 (d + t1); e; f; g]
  | _ => st
  end.

Definition compress (st : list Z) (block : list Z) : list Z :=
  let ws := rev (schedule 48 (rev (words block))) in
  zip_with (fun x y => w32 (x + y)) st (foldl roundStep st (zip roundConstants ws)).

Fixpoint blocks (n : nat) (bs : list Z) : list (list Z) :=
  match n with
  | O => []
  | S n' => take 64 bs :: blocks n' (drop 64 bs)
  end.

End Sha256.

(** [sha256.Sum256]: the digest's thirty-two bytes. *)
Definition Sum256 (s : string) : list Z :=
  let m := Sha256.padded (Sha256.bytesOf s) in
  concat (map (Sha256.bigEndian 4)
    (foldl Sha256.compress Sha256.initialState (Sha256.blocks (length m / 64)%nat m))).

(** [hex.EncodeToString]. *)
Definition EncodeToString (bs : list Z) : string :=
  foldr (fun b s => String (hex (Z.to_N (b / 16))) (String (hex (Z.to_N (b mod 16))) s)) ""%string bs.

Example sha256_empty :
  EncodeToString (Sum256 "") = "e3b0c44298fc1c149afbf4c8996fb92427ae41e4649b934ca495991b7852b855".
Proof. vm_compute. reflexivity. Qed.
Example sha256_abc :
  EncodeToString (Sum256 "abc") = "ba7816bf8f01cfea414140de5dae2223b00361a396177a9cb410ff61f20015ad".
Proof. vm_compute. reflexivity. Qed.
Example sha256_two_blocks :
  EncodeToString (Sum256 "abcdbcdecdefdefgefghfghighijhijkijkljklmklmnlmnomnopnopq") =
  "248d6a61d20638b8e5c026930c3e6039a33ce45964ff2167f6ecedd419db06c1".
Proof. vm_compute. reflexivity. Qed.
