(* ===== verification/Heads.v ===== *)
(** * Stored reports and their heads: internal/server/notify_delta.go

    What the server keeps of an evaluation's report, and the heads of its
    findings, which are all a notification delta reads of a stored one. A
    stored report is the report together with the heads its notification
    baseline carries forward; the JSON text of the two is outside the model,
    which starts from decoded values. *)

From stdpp Require Import base list strings gmap.
From Stdlib Require Import ZArith Lia Ascii.
From S2P Require Import Prelude GoStr GoTime Version Inventory KB Findings.

Record findingHead := mkHead {
  h_Category : string;
  h_Severity : string;
  h_Key : string;
  h_Title : string;
  h_SeenWithout : list string;
  h_HoldUntil : Time;
  h_Resolved : bool;
}.

#[global] Instance findingHead_eq_dec : EqDecision findingHead.
Proof. solve_decision. Defined.

Definition headOf (f : Finding) : findingHead :=
  mkHead (f_Category f) (f_Severity f) (f_Key f) (f_Title f) [] zeroTime false.

Definition blocker (h : findingHead) : bool := (h_Severity h =s SevBlocker) && negb (h_Resolved h).

Definition eolApproaching (h : findingHead) : bool :=
  (h_Category h =s CatEOLApproaching) && (h_Severity h =s SevWarning).

Definition key (h : findingHead) : string := if negb (h_Key h =s "") then h_Key h else h_Title h.

Definition isBlocker (f : Finding) : bool := blocker (headOf f).
Definition isEOLApproaching (f : Finding) : bool := eolApproaching (headOf f).
Definition findingKey (f : Finding) : string := key (headOf f).

Definition nul : string := String "000"%char "".

Definition findingSignature (h : findingHead) : string := h_Severity h +:+ nul +:+ key h.

(** Assignments to one field. *)
Definition set_SeenWithout (cs : list string) (h : findingHead) : findingHead :=
  mkHead (h_Category h) (h_Severity h) (h_Key h) (h_Title h) cs (h_HoldUntil h) (h_Resolved h).
Definition set_HoldUntil (t : Time) (h : findingHead) : findingHead :=
  mkHead (h_Category h) (h_Severity h) (h_Key h) (h_Title h) (h_SeenWithout h) t (h_Resolved h).
Definition set_Title (t : string) (h : findingHead) : findingHead :=
  mkHead (h_Category h) (h_Severity h) (h_Key h) t (h_SeenWithout h) (h_HoldUntil h) (h_Resolved h).

(** A report as it is stored: its carriedForward field is the server's own. *)
Record storedReport := mkStoredReport {
  sr_Report : Report;
  sr_CarriedForward : list findingHead;
}.

Record storedHeads := mkStoredHeads {
  sh_Findings : list findingHead;
  sh_NotAssessed : list CapabilityGap;
  sh_CarriedForward : list findingHead;
}.

(** [storedHeads.baseline]. *)
Definition baseline (h : storedHeads) : list findingHead :=
  map (fun f => set_SeenWithout (HiddenBy (sh_NotAssessed h) (h_Category f) (key f)) f) (sh_Findings h)
    ++ sh_CarriedForward h.

Definition letTitleGo (h : findingHead) : findingHead :=
  if negb (h_Key h =s "") then set_Title "" h else h.

(** [storedFindingHeads]; a report that does not decode is [None] in the
    column and has no heads. *)
Definition storedFindingHeads (report : option storedReport) : option storedHeads :=
  match report with
  | None => None
  | Some r =>
      Some (mkStoredHeads (map letTitleGo (map headOf (r_Findings (sr_Report r))))
              (r_NotAssessed (sr_Report r)) (map letTitleGo (sr_CarriedForward r)))
  end.

(** [withCarried] on an encoded report: the heads become its carriedForward
    field. *)
Definition withCarried (report : storedReport) (carried : list findingHead) : storedReport :=
  if zlen carried =? 0 then report else mkStoredReport (sr_Report report) carried.

(** [CarriesHold]: the "holdUntil" member is written for a carried head whose
    hold is not the zero time, and for nothing else. *)
Definition CarriesHold (report : option storedReport) : bool :=
  match report with
  | None => false
  | Some r => existsb (fun h => negb (IsZero (h_HoldUntil h))) (sr_CarriedForward r)
  end.

(** [sameHeads]: equal sets of (severity, key, resolved). *)
Definition headSignature (h : findingHead) : string :=
  findingSignature h +:+ (if h_Resolved h then nul +:+ "resolved" else "").

Definition headSignatures (hs : list findingHead) : list string :=
  compact (sort_strings (map headSignature hs)).

Definition sameHeads (a b : list findingHead) : bool :=
  bool_decide (headSignatures a = headSignatures b).

(** [headKeys] and [keySet], as the lists of their members. *)
Definition headKeys (hs : list findingHead) (keep : findingHead -> bool) : list string :=
  map key (List.filter keep hs).
Definition keySet (fs : list Finding) (keep : Finding -> bool) : list string :=
  map findingKey (List.filter keep fs).

(** A head read back keeps the identity of its finding. *)
Lemma letTitleGo_key h : key (letTitleGo h) = key h.
Proof. unfold letTitleGo, key. destruct (h_Key h =s "") eqn:E; simpl; by rewrite E. Qed.

Lemma letTitleGo_fields h :
  h_Category (letTitleGo h) = h_Category h /\ h_Severity (letTitleGo h) = h_Severity h /\
  h_Resolved (letTitleGo h) = h_Resolved h /\ h_HoldUntil (letTitleGo h) = h_HoldUntil h /\
  h_SeenWithout (letTitleGo h) = h_SeenWithout h.
Proof. unfold letTitleGo. by destruct (negb _). Qed.
