(* ===== verification/Notify.v ===== *)
(** * Notifications: internal/server/notify/notify.go

    What one evaluation pass says to the configured sinks, and the payload an
    outbox message holds: a notification, an event a server of an older
    version queued, or bytes that are neither. *)

From stdpp Require Import base list strings gmap.
From Stdlib Require Import ZArith Lia.
From S2P Require Import Prelude GoStr GoTime.

Definition KindNewBlocker : string := "new-blocker".
Definition KindEOLApproaching : string := "eol-approaching".
Definition KindBecameReady : string := "became-ready".

Definition NotificationSchemaVersion : Z := 1.
Definition TypeReadinessChanged : string := "readiness.changed".

Record NCluster := mkNCluster { nc_ID : Z; nc_Name : string }.

Record NTarget := mkNTarget {
  nt_Target : string;
  nt_Verdict : string;
  nt_Score : Z;
  nt_Blockers : Z;
}.

Record Change := mkChange {
  ch_Kind : string;
  ch_Key : string;
  ch_Severity : string;
  ch_Title : string;
  ch_Detail : string;
  ch_Targets : list string;
}.

Record Notification := mkNotification {
  n_SchemaVersion : Z;
  n_DeliveryID : string;
  n_Type : string;
  n_Timestamp : Time;
  n_Cluster : NCluster;
  n_Targets : list NTarget;
  n_Changes : list Change;
  n_Omitted : gmap string Z;
}.

(** A decoded outbox payload. *)
Inductive payload :=
| Versioned (n : Notification)
| LegacyEvent (cluster target kind title detail : string)
| Corrupt.

(** Which notifiers a configured one fans out to: [nil], a [Multi], or one. *)
Inductive notifier (N : Type) : Type :=
| NoNotifier
| Multi (ms : list (notifier N))
| One (n : N).
Arguments NoNotifier {N}.
Arguments Multi {N} ms.
Arguments One {N} n.

Fixpoint Members {N} (n : notifier N) : list N :=
  match n with
  | NoNotifier => []
  | Multi ms => concat (map Members ms)
  | One x => [x]
  end.
