(* ===== verification/Db.v ===== *)
(** * Tables and transactions

    The store's SQL, as the functions its statements compute. A table is its
    rows and the AUTOINCREMENT sequence of its ids; a statement that changes a
    table maps, filters or extends its rows; a transaction is a function of
    the database that returns a result and the database it commits, or an
    error, and then nothing is committed. *)

From stdpp Require Import base list strings gmap sorting.
From Stdlib Require Import ZArith Lia.
From S2P Require Import Prelude GoStr.

(** ** Rows *)

Class Row (A : Type) := row_id : A -> Z.

Record table (A : Type) := mkTable { t_rows : list A; t_seq : Z }.
Arguments mkTable {A}.
Arguments t_rows {A}.
Arguments t_seq {A}.

Definition emptyTable {A} : table A := mkTable [] 0.

(** [WHERE p]. *)
Definition select {A} (p : A -> bool) (l : list A) : list A := filter (fun r => p r = true) l.

(** [ORDER BY id DESC LIMIT 1]: the row of the highest id. *)
Definition later {A} `{Row A} (r : A) (best : option A) : option A :=
  match best with
  | Some b => if row_id r <? row_id b then Some b else Some r
  | None => Some r
  end.

Definition newest {A} `{Row A} (l : list A) : option A := foldr later None l.

(** [SELECT MAX(id)]. *)
Definition maxId {A} `{Row A} (l : list A) : option Z := row_id <$> newest l.

(** [SELECT MAX(id) ... GROUP BY key]. *)
Definition groupMax {A} `{Row A} {K} `{EqDecision K} (key : A -> K) (l : list A) : list Z :=
  omap (fun k => maxId (select (fun r => bool_decide (key r = k)) l)) (remove_dups (key <$> l)).

(** [id IN (...)]. *)
Definition mem_id (i : Z) (l : list Z) : bool := bool_decide (i ∈ l).

(** [INSERT]: the next id of the sequence, and the table with the new row. *)
Definition insertRow {A} (mk : Z -> A) (t : table A) : Z * table A :=
  let i := t_seq t + 1 in (i, mkTable (t_rows t ++ [mk i]) i).

(** [UPDATE ... SET f WHERE p]. *)
Definition updateRows {A} (p : A -> bool) (f : A -> A) (t : table A) : table A :=
  mkTable (map (fun r => if p r then f r else r) (t_rows t)) (t_seq t).

(** [DELETE ... WHERE p]. *)
Definition deleteRows {A} (p : A -> bool) (t : table A) : table A :=
  mkTable (select (fun r => negb (p r)) (t_rows t)) (t_seq t).

(** The number of rows a statement affects. *)
Definition countRows {A} (p : A -> bool) (t : table A) : Z := zlen (select p (t_rows t)).

(** ** Transactions *)

Inductive outcome (E A : Type) : Type :=
| Done (a : A)
| Failed (e : E).
Arguments Done {E A} a.
Arguments Failed {E A} e.

Section Transactions.
Context {DB E : Type}.

Definition tx (A : Type) : Type := DB -> outcome E (A * DB).

#[global] Instance tx_ret : MRet tx := fun A a db => Done (a, db).
#[global] Instance tx_bind : MBind tx := fun A B k m db =>
  match m db with
  | Done (a, db') => k a db'
  | Failed e => Failed e
  end.

Definition fail {A} (e : E) : tx A := fun _ => Failed e.
Definition ask {A} (q : DB -> A) : tx A := fun db => Done (q db, db).
Definition change (f : DB -> DB) : tx unit := fun db => Done (tt, f db).
Definition guardTx (b : bool) (e : E) : tx unit := if b then mret tt else fail e.

(** Running statements in order. *)
Fixpoint each {A} (f : A -> tx unit) (l : list A) : tx unit :=
  match l with
  | [] => mret tt
  | x :: l' => f x ;; each f l'
  end.

(** What a caller is left with: a failed transaction rolls back. *)
Definition commit {A} (m : tx A) (db : DB) : DB :=
  match m db with Done (_, db') => db' | Failed _ => db end.

(** A transaction that keeps a property of the database. *)
Definition keeps {A} (P : DB -> Prop) (m : tx A) : Prop :=
  forall db a db', P db -> m db = Done (a, db') -> P db'.

Lemma keeps_ret {A} P (a : A) : keeps P (mret a).
Proof. intros db b db' HP H. by injection H as <- <-. Qed.

Lemma keeps_bind {A B} P (m : tx A) (k : A -> tx B) :
  keeps P m -> (forall a, keeps P (k a)) -> keeps P (m ≫= k).
Proof.
  intros Hm Hk db b db' HP H. unfold mbind, tx_bind in H.
  destruct (m db) as [[a db1]|e] eqn:E1; [|done]. eapply Hk; [|exact H]. eauto.
Qed.

Lemma keeps_fail {A} P e : keeps P (fail e : tx A).
Proof. done. Qed.

Lemma keeps_ask {A} P (q : DB -> A) : keeps P (ask q).
Proof. intros db a db' HP H. by injection H as _ <-. Qed.

Lemma keeps_change P f : (forall db, P db -> P (f db)) -> keeps P (change f).
Proof. intros Hf db a db' HP H. injection H as _ <-. auto. Qed.

Lemma keeps_guard P b e : keeps P (guardTx b e).
Proof. destruct b; [apply keeps_ret|apply keeps_fail]. Qed.

Lemma keeps_each {A} P (f : A -> tx unit) l : (forall x, keeps P (f x)) -> keeps P (each f l).
Proof. intros Hf. induction l; simpl; [apply keeps_ret|]. apply keeps_bind; auto. Qed.

Lemma keeps_commit {A} P (m : tx A) db : keeps P m -> P db -> P (commit m db).
Proof. intros Hm HP. unfold commit. destruct (m db) as [[a db']|] eqn:E1; [eauto|done]. Qed.

(** Inversion of a sequence that succeeded. *)
Lemma bind_Done {A B} (m : tx A) (k : A -> tx B) db b db' :
  (m ≫= k) db = Done (b, db') <-> exists a db1, m db = Done (a, db1) /\ k a db1 = Done (b, db').
Proof.
  unfold mbind, tx_bind. destruct (m db) as [[a db1]|e]; split.
  - eauto.
  - intros (a' & db1' & H & Hk). by injection H as <- <-.
  - done.
  - by intros (a & db1 & ? & _).
Qed.

Lemma guard_Done b e db u db' : guardTx b e db = Done (u, db') <-> b = true /\ db' = db.
Proof. destruct b, u; simpl; unfold mret, tx_ret, fail; naive_solver. Qed.
End Transactions.

#[export] Hint Resolve keeps_ret keeps_fail keeps_ask keeps_guard : go.

(** ** What the queries answer *)

Lemma elem_of_select {A} (p : A -> bool) l r : r ∈ select p l <-> p r = true /\ r ∈ l.
Proof. unfold select. by rewrite list_elem_of_filter. Qed.

Lemma select_nil {A} (p : A -> bool) l : select p l = [] <-> forall r, r ∈ l -> p r = false.
Proof.
  split.
  - intros Hn r Hr. destruct (p r) eqn:E; [|done].
    assert (r ∈ select p l) as Hin by (by apply elem_of_select). rewrite Hn in Hin. by apply not_elem_of_nil in Hin.
  - intros H. destruct (select p l) as [|r l'] eqn:E; [done|].
    assert (r ∈ select p l) as [Hp Hr]%elem_of_select by (rewrite E; left). by rewrite H in Hp.
Qed.

Lemma select_select {A} (p q : A -> bool) l : select p (select q l) = select (fun r => p r && q r) l.
Proof.
  unfold select. rewrite list_filter_filter. apply list_filter_iff. intros r. by rewrite andb_true_iff.
Qed.

Lemma select_ext {A} (p q : A -> bool) l : (forall r, r ∈ l -> p r = q r) -> select p l = select q l.
Proof.
  induction l as [|x l IH]; [done|]. intros H. unfold select in *. rewrite !filter_cons.
  rewrite (H x) by left. rewrite IH; [done|]. intros r Hr. apply H. by right.
Qed.

Lemma select_app {A} (p : A -> bool) l k : select p (l ++ k) = select p l ++ select p k.
Proof. apply filter_app. Qed.

Lemma select_all {A} (p : A -> bool) l : (forall r, r ∈ l -> p r = true) -> select p l = l.
Proof.
  induction l as [|x l IH]; [done|]. intros H. unfold select in *. rewrite filter_cons_True by (apply H; left).
  by rewrite IH by (intros r Hr; apply H; by right).
Qed.

Section Rows.
Context {A : Type} `{Row A}.

(** A table's ids are distinct, positive and never above its sequence. *)
Definition ids_ok (t : table A) : Prop :=
  NoDup (row_id <$> t_rows t) /\ 0 <= t_seq t /\ forall r, r ∈ t_rows t -> 0 < row_id r <= t_seq t.

Lemma newest_None l : newest l = None <-> l = [].
Proof.
  destruct l as [|x l]; [done|]. simpl. unfold later. split; [|done].
  destruct (newest l); [destruct (_ <? _)|]; done.
Qed.

Lemma newest_Some l r :
  newest l = Some r -> r ∈ l /\ forall r', r' ∈ l -> row_id r' <= row_id r.
Proof.
  revert r. induction l as [|x l IH]; [done|]. intros r. simpl. unfold later.
  destruct (newest l) as [b|] eqn:E.
  - destruct (IH b eq_refl) as [Hb Hmax].
    destruct (row_id x <? row_id b) eqn:Ec; to_prop; intros [= <-].
    + split; [by right|]. intros r' [->|Hr']%elem_of_cons; [lia|auto].
    + split; [by left|]. intros r' [->|Hr']%elem_of_cons; [lia|]. specialize (Hmax r' Hr'). lia.
  - intros [= <-]. apply newest_None in E as ->.
    split; [by left|]. intros r' [->|Hr']%elem_of_cons; [lia|]. by apply not_elem_of_nil in Hr'.
Qed.

Lemma newest_nonempty l r : r ∈ l -> exists b, newest l = Some b.
Proof. intros Hr. destruct (newest l) eqn:E; [eauto|]. apply newest_None in E. subst. by apply not_elem_of_nil in Hr. Qed.

Lemma row_id_inj l r r' : NoDup (row_id <$> l) -> r ∈ l -> r' ∈ l -> row_id r = row_id r' -> r = r'.
Proof.
  induction l as [|x l IH]; intros Hn Hr Hr' He; [by apply not_elem_of_nil in Hr|].
  rewrite fmap_cons in Hn. apply NoDup_cons in Hn as [Hx Hn].
  apply elem_of_cons in Hr as [->|Hr], Hr' as [->|Hr']; auto.
  - destruct Hx. rewrite He. apply list_elem_of_fmap. eauto.
  - destruct Hx. rewrite <- He. apply list_elem_of_fmap. eauto.
Qed.

(** On distinct ids the newest row is the one above all others. *)
Lemma newest_iff l r :
  NoDup (row_id <$> l) ->
  newest l = Some r <-> r ∈ l /\ forall r', r' ∈ l -> row_id r' <= row_id r.
Proof.
  intros Hn. split; [apply newest_Some|]. intros [Hr Hmax].
  destruct (newest_nonempty l r Hr) as [b Hb]. rewrite Hb. f_equal.
  apply newest_Some in Hb as [Hb Hbmax]. apply (row_id_inj l); auto.
  specialize (Hmax b Hb). specialize (Hbmax r Hr). lia.
Qed.

Lemma NoDup_select (p : A -> bool) l : NoDup (row_id <$> l) -> NoDup (row_id <$> select p l).
Proof.
  intros Hn. apply (sublist_NoDup _ _ Hn). apply fmap_sublist, sublist_filter.
Qed.

(** Deleting other rows does not move the newest one. *)
Lemma newest_survives (p q : A -> bool) l r :
  NoDup (row_id <$> l) -> newest (select p l) = Some r -> q r = true ->
  newest (select p (select q l)) = Some r.
Proof.
  intros Hn Hr Hq. apply newest_iff; [by apply NoDup_select, NoDup_select|].
  apply newest_Some in Hr as [[Hp Hr]%elem_of_select Hmax]. split.
  - apply elem_of_select. split; [done|]. by apply elem_of_select.
  - intros r' [Hp' [Hq' Hr']%elem_of_select]%elem_of_select. apply Hmax. by apply elem_of_select.
Qed.

Lemma elem_of_groupMax {K} `{EqDecision K} (key : A -> K) l i :
  i ∈ groupMax key l <->
  exists r, r ∈ l /\ row_id r = i /\ newest (select (fun r' => bool_decide (key r' = key r)) l) = Some r.
Proof.
  unfold groupMax. rewrite list_elem_of_omap. split.
  - intros (k & _ & Hm). unfold maxId in Hm.
    destruct (newest _) as [r|] eqn:E; [|done]. injection Hm as <-.
    pose proof E as E'. apply newest_Some in E' as [[Hk Hr]%elem_of_select _].
    apply bool_decide_eq_true in Hk. exists r. split_and!; [done..|]. by rewrite Hk.
  - intros (r & Hr & <- & Hn). exists (key r). split.
    + apply elem_of_remove_dups, list_elem_of_fmap. eauto.
    + unfold maxId. by rewrite Hn.
Qed.

Lemma mem_id_spec i l : mem_id i l = true <-> i ∈ l.
Proof. apply bool_decide_eq_true. Qed.

(** Statements keep the ids of a table in order. *)
Lemma ids_ok_empty : ids_ok emptyTable.
Proof. split_and!; [constructor|done|]. intros r Hr. by apply not_elem_of_nil in Hr. Qed.

Lemma elem_of_insert mk t (r : A) :
  r ∈ t_rows (insertRow mk t).2 <-> r ∈ t_rows t \/ r = mk (t_seq t + 1).
Proof. simpl. by rewrite elem_of_app, list_elem_of_singleton. Qed.

Lemma ids_ok_insert mk t :
  (forall i, row_id (mk i) = i) -> ids_ok t -> ids_ok (insertRow mk t).2.
Proof.
  intros Hmk (Hn & H0 & Hle). unfold insertRow, ids_ok. simpl. split_and!; [|lia|].
  - rewrite fmap_app. apply NoDup_app. split_and!; [done| |apply NoDup_singleton].
    intros i (r & -> & Hr)%list_elem_of_fmap Hi. simpl in Hi. apply list_elem_of_singleton in Hi.
    rewrite Hmk in Hi. specialize (Hle r Hr). lia.
  - intros r [Hr| ->%list_elem_of_singleton]%elem_of_app; [specialize (Hle r Hr); lia|]. rewrite Hmk. lia.
Qed.

Lemma update_col {B} (col : A -> B) (p : A -> bool) (f : A -> A) (l : list A) :
  (forall r, col (f r) = col r) -> col <$> map (fun r => if p r then f r else r) l = col <$> l.
Proof.
  intros Hf. induction l as [|x l IH]; [done|]. simpl. f_equal; [by destruct (p x)|done].
Qed.

Lemma elem_of_update p (f : A -> A) t r :
  r ∈ t_rows (updateRows p f t) <-> exists r0, r0 ∈ t_rows t /\ r = if p r0 then f r0 else r0.
Proof. unfold updateRows. simpl. rewrite list_elem_of_fmap. naive_solver. Qed.

Lemma elem_of_delete p t (r : A) : r ∈ t_rows (deleteRows p t) <-> p r = false /\ r ∈ t_rows t.
Proof. unfold deleteRows. simpl. rewrite elem_of_select, negb_true_iff. done. Qed.

Lemma ids_ok_update p f t : (forall r, row_id (f r) = row_id r) -> ids_ok t -> ids_ok (updateRows p f t).
Proof.
  intros Hf (Hn & H0 & Hle). split_and!; [|done|].
  - simpl. by rewrite update_col.
  - intros r (r0 & Hr0 & ->)%elem_of_update. specialize (Hle r0 Hr0). simpl.
    destruct (p r0); [rewrite Hf|]; lia.
Qed.

Lemma ids_ok_delete p t : ids_ok t -> ids_ok (deleteRows p t).
Proof.
  intros (Hn & H0 & Hle). split_and!; [by apply NoDup_select|done|]. intros r [_ Hr]%elem_of_delete. by apply Hle.
Qed.

(** A column that stays without duplicates. *)
Lemma NoDup_col_update {B} (col : A -> B) p f t :
  (forall r, col (f r) = col r) -> NoDup (col <$> t_rows t) -> NoDup (col <$> t_rows (updateRows p f t)).
Proof.
  intros Hf Hn. simpl. by rewrite update_col.
Qed.

Lemma NoDup_col_delete {B} (col : A -> B) p t :
  NoDup (col <$> t_rows t) -> NoDup (col <$> t_rows (deleteRows p t)).
Proof. intros Hn. apply (sublist_NoDup _ _ Hn). apply fmap_sublist, sublist_filter. Qed.

Lemma NoDup_col_insert {B} (col : A -> B) mk t :
  (forall r, r ∈ t_rows t -> col r <> col (mk (t_seq t + 1))) ->
  NoDup (col <$> t_rows t) -> NoDup (col <$> t_rows (insertRow mk t).2).
Proof.
  intros Hne Hn. simpl. rewrite fmap_app. apply NoDup_app. split_and!; [done| |apply NoDup_singleton].
  intros b (r & -> & Hr)%list_elem_of_fmap Hb. apply list_elem_of_singleton in Hb. by apply (Hne r).
Qed.
End Rows.

#[export] Hint Resolve ids_ok_empty ids_ok_update ids_ok_delete ids_ok_insert
  NoDup_col_update NoDup_col_delete : go.
