(* ===== verification/Store.v ===== *)
(** * The store: internal/server/store/store.go and sqlite.go

    Clusters, snapshots, evaluations, the notification outbox and the two
    kinds of tokens, with every operation of the SQLite store on them. The
    database is a record of tables; an operation that writes is a
    transaction, an operation that only reads a function of the database.
    SQLite's write lock makes transactions run one after the other.

    Nullable columns are options; a stored time is its instant, which its
    fixed-width text orders the same way; the JSON columns (teams, the gaps
    of a report) hold decoded values. [now] is what [time.Now] answers while
    an operation runs. A failing disk or a cancelled context ends a
    transaction without a commit and is not modelled apart from that. *)

From stdpp Require Import base list strings gmap sorting.
From Stdlib Require Import ZArith Lia Ascii.
From S2P Require Import Prelude GoStr GoTime GoSha GoUtf8 Version Inventory KB Findings Heads Notify Db.

(** ** Data *)

Record Cluster := mkCluster {
  c_ID : Z;
  c_Name : string;
  c_ClusterUID : string;
  c_FirstSeen : Time;
  c_LastSeen : Time;
}.

Record Snapshot := mkSnapshot {
  sn_ID : Z;
  sn_ClusterID : Z;
  sn_Hash : string;
  sn_KBVersion : string;
  sn_AgentVersion : string;
  sn_ReceivedAt : Time;
  sn_ServerVersion : string;
  sn_Inventory : option Inventory;
}.

(** What the not_assessed column keeps of a gap. *)
Record gapSummary := mkGapSummary {
  gs_Gap : CapabilityGap;
  gs_SkippedOmitted : Z;
}.

Record Evaluation := mkEvaluation {
  e_ID : Z;
  e_ClusterID : Z;
  e_SnapshotID : Z;
  e_Target : string;
  e_KBVersion : string;
  e_Score : Z;
  e_Ready : bool;
  e_Blockers : Z;
  e_Warnings : Z;
  e_Report : option storedReport;
  e_NotAssessed : list gapSummary;
  e_CreatedAt : Time;
  e_EvaluatedAt : Time;
  e_TeamMapHash : string;
  e_Teams : list string;
  e_TeamsUnknown : bool;
  e_CarriesHold : bool;
  e_Baseline : bool;
}.

Record OutboxMessage := mkMessage {
  m_ID : Z;
  m_ClusterID : Z;
  m_Sink : string;
  m_Payload : payload;
  m_Attempts : Z;
  m_CreatedAt : Time;
  m_NextAttemptAt : Time;
}.

Record Token := mkToken {
  tk_ID : Z;
  tk_ClusterName : string;
  tk_Prefix : string;
  tk_CreatedAt : Time;
  tk_RevokedAt : option Time;
}.

Record ReadToken := mkReadToken {
  rt_ID : Z;
  rt_Teams : list string;
  rt_Prefix : string;
  rt_CreatedAt : Time;
  rt_RevokedAt : option Time;
}.

Record ScorePoint := mkScorePoint {
  sp_At : Time;
  sp_Score : Z;
  sp_Ready : bool;
  sp_Verdict : string;
}.

Record Expectation := mkExpectation {
  x_LatestSnapshotID : Z;
  x_Baselines : gmap string Z;
}.

Record EvaluationBatch := mkBatch {
  b_Cluster : option Cluster;
  b_ClusterID : Z;
  b_IngestToken : string;
  b_Snapshot : option Snapshot;
  b_SnapshotID : Z;
  b_Current : gmap string Z;
  b_Insert : list Evaluation;
  b_Refresh : list Evaluation;
  b_Outbox : list OutboxMessage;
  b_Expect : option Expectation;
}.

(** Rows of the tables that have columns their type does not. *)
Record evaluationRow := mkEvaluationRow {
  er_id : Z;
  er_cluster_id : Z;
  er_snapshot_id : Z;
  er_target : string;
  er_kb_version : string;
  er_score : Z;
  er_ready : bool;
  er_blockers : Z;
  er_warnings : Z;
  er_report : option storedReport;
  er_created_at : Time;
  er_evaluated_at : option Time;
  er_team_map_hash : string;
  er_not_assessed : option (list gapSummary);
  er_teams : option (list string);
  er_carries_hold : option bool;
  er_baseline : option bool;
}.

Record outboxRow := mkOutboxRow { or_message : OutboxMessage; or_last_error : string }.
Record tokenRow := mkTokenRow { tr_token : Token; tr_hash : string }.
Record readTokenRow := mkReadTokenRow { rr_token : ReadToken; rr_hash : string }.

#[global] Instance Cluster_row : Row Cluster := c_ID.
#[global] Instance Snapshot_row : Row Snapshot := sn_ID.
#[global] Instance evaluationRow_row : Row evaluationRow := er_id.
#[global] Instance outboxRow_row : Row outboxRow := fun r => m_ID (or_message r).
#[global] Instance tokenRow_row : Row tokenRow := fun r => tk_ID (tr_token r).
#[global] Instance readTokenRow_row : Row readTokenRow := fun r => rt_ID (rr_token r).

Record SQLite := mkSQLite {
  clusters : table Cluster;
  snapshots : table Snapshot;
  evaluations : table evaluationRow;
  outbox : table outboxRow;
  tokens : table tokenRow;
  read_tokens : table readTokenRow;
}.

(** A database the migrations created. *)
Definition migrated : SQLite :=
  mkSQLite emptyTable emptyTable emptyTable emptyTable emptyTable emptyTable.

Definition with_clusters (t : table Cluster) (db : SQLite) : SQLite :=
  mkSQLite t (snapshots db) (evaluations db) (outbox db) (tokens db) (read_tokens db).
Definition with_snapshots (t : table Snapshot) (db : SQLite) : SQLite :=
  mkSQLite (clusters db) t (evaluations db) (outbox db) (tokens db) (read_tokens db).
Definition with_evaluations (t : table evaluationRow) (db : SQLite) : SQLite :=
  mkSQLite (clusters db) (snapshots db) t (outbox db) (tokens db) (read_tokens db).
Definition with_outbox (t : table outboxRow) (db : SQLite) : SQLite :=
  mkSQLite (clusters db) (snapshots db) (evaluations db) t (tokens db) (read_tokens db).
Definition with_tokens (t : table tokenRow) (db : SQLite) : SQLite :=
  mkSQLite (clusters db) (snapshots db) (evaluations db) (outbox db) t (read_tokens db).
Definition with_read_tokens (t : table readTokenRow) (db : SQLite) : SQLite :=
  mkSQLite (clusters db) (snapshots db) (evaluations db) (outbox db) (tokens db) t.

(** ** Errors

    The sentinel an error wraps, which callers test with [errors.Is], and the
    text in front of it. [ErrConstraint] is the driver's error for a UNIQUE
    or FOREIGN KEY constraint, whose own text is the driver's. *)

Inductive sentinel :=
| ErrNotFound
| ErrClusterUIDConflict (name stored pushed : string)
| ErrConflict
| ErrTokenRevoked
| ErrClusterChanged
| ErrClusterNameTaken
| ErrConstraint
| ErrInvalid.

Record storeError := mkError { err_is : sentinel; err_what : string }.

Definition stx (A : Type) : Type := @tx SQLite storeError A.

Definition failWith {A} (s : sentinel) (what : string) : stx A := fail (mkError s what).

(** [fmt.Errorf("prefix: %w", err)]. *)
Definition wrapTx {A} (prefix : string) (m : stx A) : stx A := fun db =>
  match m db with
  | Done r => Done r
  | Failed e => Failed (mkError (err_is e) (prefix +:+ ": " +:+ err_what e))
  end.

(** ** Columns *)

(** Lowercase hex sha256. *)
Definition HashToken (token : string) : string := EncodeToString (Sum256 token).

Definition TokenPrefix (token : string) : string :=
  if slen token <? 32 then "" else String.substring 0 8 token.

Definition SummaryCapabilityBytes : Z := 64.
Definition SummaryReasonBytes : Z := 256.
Definition SummarySkipped : Z := 3.
Definition SummarySkippedBytes : Z := 128.

Definition ellipsis : string := bytes [226; 128; 166]%N.

(** [CutString]: at most [max] bytes, at a rune boundary, and the mark. *)
Definition CutString (s : string) (max : Z) : string :=
  if slen s <=? max then s
  else String.substring 0 (cutAt s (Z.to_nat max)) s +:+ ellipsis.

(** [writeGapSummary] on a decoded gap. *)
Definition writeGapSummary (g : CapabilityGap) : gapSummary :=
  let n := zlen (g_Skipped g) - SummarySkipped in
  let skipped := if 0 <? n then take (Z.to_nat SummarySkipped) (g_Skipped g) else g_Skipped g in
  mkGapSummary
    (mkGap (CutString (g_Capability g) SummaryCapabilityBytes) (CutString (g_Reason g) SummaryReasonBytes)
       (g_Partial g) (map (fun s => CutString s SummarySkippedBytes) skipped) (g_Required g))
    (if 0 <? n then n else 0).

Definition notAssessedOf (report : option storedReport) : list gapSummary :=
  match report with
  | None => []
  | Some r => map writeGapSummary (r_NotAssessed (sr_Report r))
  end.

Definition carriesHoldColumn (v : option bool) : bool := default true v.

Definition readTokenTeams (teams : list string) : res (list string) :=
  if zlen teams =? 0 then Err "a read token needs at least one team, or * for the whole fleet"
  else let out := compact (sort_strings teams) in
    match out with
    | t :: _ => if t =s "" then Err "a read token's team names must be non-empty" else Ok out
    | [] => Err "a read token's team names must be non-empty"
    end.

Definition scanEvaluation (r : evaluationRow) : Evaluation :=
  mkEvaluation (er_id r) (er_cluster_id r) (er_snapshot_id r) (er_target r) (er_kb_version r)
    (er_score r) (er_ready r) (er_blockers r) (er_warnings r) (er_report r)
    (default [] (er_not_assessed r)) (er_created_at r) (default (er_created_at r) (er_evaluated_at r))
    (er_team_map_hash r) [] (negb (bool_decide (is_Some (er_teams r))))
    (carriesHoldColumn (er_carries_hold r)) (default false (er_baseline r)).

(** [summaryColumns]: no report. *)
Definition withoutReport (e : Evaluation) : Evaluation :=
  mkEvaluation (e_ID e) (e_ClusterID e) (e_SnapshotID e) (e_Target e) (e_KBVersion e) (e_Score e)
    (e_Ready e) (e_Blockers e) (e_Warnings e) None (e_NotAssessed e) (e_CreatedAt e) (e_EvaluatedAt e)
    (e_TeamMapHash e) (e_Teams e) (e_TeamsUnknown e) (e_CarriesHold e) (e_Baseline e).

Definition withoutInventory (s : Snapshot) : Snapshot :=
  mkSnapshot (sn_ID s) (sn_ClusterID s) (sn_Hash s) (sn_KBVersion s) (sn_AgentVersion s)
    (sn_ReceivedAt s) (sn_ServerVersion s) None.

(** ** Reads *)

Definition byName (name : string) (c : Cluster) : bool := c_Name c =s name.

Definition ClusterByName (name : string) (db : SQLite) : option Cluster :=
  head (select (byName name) (t_rows (clusters db))).

Definition GetCluster (id : Z) (db : SQLite) : option Cluster :=
  head (select (fun c => c_ID c =? id) (t_rows (clusters db))).

Definition ListClusters (db : SQLite) : list Cluster :=
  isort (fun a b => String.leb (c_Name a) (c_Name b)) (t_rows (clusters db)).

Definition ofCluster (clusterID : Z) (s : Snapshot) : bool := sn_ClusterID s =? clusterID.

Definition LatestSnapshot (clusterID : Z) (db : SQLite) : option Snapshot :=
  newest (select (ofCluster clusterID) (t_rows (snapshots db))).

Definition LatestSnapshotHead (clusterID : Z) (db : SQLite) : option Snapshot :=
  withoutInventory <$> LatestSnapshot clusterID db.

Definition LatestSnapshotHeads (db : SQLite) : gmap Z Snapshot :=
  list_to_map (omap (fun c => match LatestSnapshotHead (c_ID c) db with
                              | Some s => Some (sn_ClusterID s, s)
                              | None => None
                              end) (t_rows (clusters db))).

Definition evaluationOf (clusterID : Z) (target : string) (r : evaluationRow) : bool :=
  (er_cluster_id r =? clusterID) && (er_target r =s target).

(** [ready = 1 OR blockers > 0 OR baseline = 1]. *)
Definition decided (r : evaluationRow) : bool :=
  er_ready r || (0 <? er_blockers r) || default false (er_baseline r).

Definition snapshotEvaluation (snapshotID : Z) (target : string) (db : SQLite) : option evaluationRow :=
  newest (select (fun r => (er_snapshot_id r =? snapshotID) && (er_target r =s target))
            (t_rows (evaluations db))).

Definition latestKnown (clusterID : Z) (target : string) (db : SQLite) : option evaluationRow :=
  newest (select (fun r => evaluationOf clusterID target r && decided r) (t_rows (evaluations db))).

Definition LatestEvaluation (clusterID : Z) (target : string) (db : SQLite) : option Evaluation :=
  scanEvaluation <$> newest (select (evaluationOf clusterID target) (t_rows (evaluations db))).

Definition CurrentEvaluation (clusterID : Z) (target : string) (db : SQLite) : option Evaluation :=
  match maxId (select (ofCluster clusterID) (t_rows (snapshots db))) with
  | Some snapshotID => scanEvaluation <$> snapshotEvaluation snapshotID target db
  | None => None
  end.

Definition CurrentEvaluationSummary (clusterID : Z) (target : string) (db : SQLite) : option Evaluation :=
  withoutReport <$> CurrentEvaluation clusterID target db.

Definition LatestKnownEvaluation (clusterID : Z) (target : string) (db : SQLite) : option Evaluation :=
  scanEvaluation <$> latestKnown clusterID target db.

Definition scorePoint (r : evaluationRow) : ScorePoint :=
  mkScorePoint (er_created_at r) (er_score r) (er_ready r) (StoredVerdict (er_ready r) (er_blockers r)).

Definition newestFirst {A} `{Row A} (l : list A) : list A := isort (fun a b => row_id b <=? row_id a) l.

Definition ScoreHistory (clusterID : Z) (target : string) (limit : Z) (db : SQLite) : list ScorePoint :=
  let rows := newestFirst (select (evaluationOf clusterID target) (t_rows (evaluations db))) in
  rev (map scorePoint (if limit <=? 0 then rows else take (Z.to_nat limit) rows)).

(** The id a query selects, 0 for no row. *)
Definition idOr0 {A} `{Row A} (r : option A) : Z := from_option row_id 0 r.

(** ** Clusters *)

Definition orElse (t other : Time) : Time := if IsZero t then other else t.

(** [INSERT ... ON CONFLICT(name) DO UPDATE ... WHERE ... RETURNING id]: a
    stored UID that is neither empty nor the pushed one matches no row. *)
Definition upsertCluster (now : Time) (c : Cluster) : stx Z :=
  let last := orElse (c_LastSeen c) now in
  let first := orElse (c_FirstSeen c) last in
  found ← ask (ClusterByName (c_Name c));
  match found with
  | None =>
      fun db =>
        let (id, t) := insertRow (fun i => mkCluster i (c_Name c) (c_ClusterUID c) first last) (clusters db) in
        Done (id, with_clusters t db)
  | Some r =>
      if (c_ClusterUID r =s "") || (c_ClusterUID r =s c_ClusterUID c) then
        change (fun db => with_clusters (updateRows (byName (c_Name c))
          (fun r => mkCluster (c_ID r) (c_Name r)
                      (if c_ClusterUID c =s "" then c_ClusterUID r else c_ClusterUID c) (c_FirstSeen r) last)
          (clusters db)) db) ;;
        mret (c_ID r)
      else failWith (ErrClusterUIDConflict (c_Name c) (c_ClusterUID r) (c_ClusterUID c)) ""
  end.

Definition UpsertCluster (now : Time) (c : Cluster) : stx Z := upsertCluster now c.

Definition notFoundCluster {A} (name : string) : stx A :=
  failWith ErrNotFound ("cluster " +:+ quote name).

(** Deletes that a FOREIGN KEY may refuse. *)
Definition deleteSnapshots (p : Snapshot -> bool) : stx unit := fun db =>
  let gone := map sn_ID (select p (t_rows (snapshots db))) in
  if existsb (fun r => mem_id (er_snapshot_id r) gone) (t_rows (evaluations db))
  then Failed (mkError ErrConstraint "delete snapshots")
  else Done (tt, with_snapshots (deleteRows p (snapshots db)) db).

Definition deleteClusters (p : Cluster -> bool) : stx unit := fun db =>
  let gone := map c_ID (select p (t_rows (clusters db))) in
  if existsb (fun s => mem_id (sn_ClusterID s) gone) (t_rows (snapshots db)) ||
     existsb (fun r => mem_id (er_cluster_id r) gone) (t_rows (evaluations db))
  then Failed (mkError ErrConstraint "delete clusters")
  else Done (tt, with_clusters (deleteRows p (clusters db)) db).

Definition DeleteCluster (name : string) : stx unit :=
  found ← ask (ClusterByName name);
  match found with
  | None => notFoundCluster name
  | Some c =>
      let id := c_ID c in
      change (fun db => with_evaluations (deleteRows (fun r => er_cluster_id r =? id) (evaluations db)) db) ;;
      deleteSnapshots (fun s => sn_ClusterID s =? id) ;;
      change (fun db => with_outbox (deleteRows (fun r => m_ClusterID (or_message r) =? id) (outbox db)) db) ;;
      deleteClusters (fun c => c_ID c =? id) ;;
      change (fun db => with_tokens (deleteRows (fun r => tk_ClusterName (tr_token r) =s name) (tokens db)) db)
  end.

Definition set_Name (name : string) (c : Cluster) : Cluster :=
  mkCluster (c_ID c) name (c_ClusterUID c) (c_FirstSeen c) (c_LastSeen c).

Definition set_ClusterName (name : string) (r : tokenRow) : tokenRow :=
  let t := tr_token r in
  mkTokenRow (mkToken (tk_ID t) name (tk_Prefix t) (tk_CreatedAt t) (tk_RevokedAt t)) (tr_hash r).

Definition RenameCluster (name newName : string) : stx unit :=
  if newName =s "" then failWith ErrInvalid ("rename cluster " +:+ quote name +:+ ": new name must be non-empty")
  else
    found ← ask (ClusterByName name);
    match found with
    | None => notFoundCluster name
    | Some c =>
        let id := c_ID c in
        taken ← ask (fun db => countRows (fun c' => (c_Name c' =s newName) && negb (c_ID c' =? id)) (clusters db));
        guardTx (negb (0 <? taken))
          (mkError ErrClusterNameTaken ("rename cluster " +:+ quote name +:+ " to " +:+ quote newName)) ;;
        change (fun db => with_clusters (updateRows (fun c' => c_ID c' =? id) (set_Name newName) (clusters db)) db) ;;
        change (fun db => with_tokens (updateRows (fun r => tk_ClusterName (tr_token r) =s name)
                                         (set_ClusterName newName) (tokens db)) db)
    end.

(** ** Committing an evaluation pass *)

Definition activeToken (hash : string) (r : tokenRow) : bool :=
  (tr_hash r =s hash) && negb (bool_decide (is_Some (tk_RevokedAt (tr_token r)))).

(** [recheckPush]: the cluster is still the one the push looked up, and its
    token still active for it. *)
Definition recheckPush (b : EvaluationBatch) (c : Cluster) (clusterID : Z) : stx unit :=
  guardTx ((c_ID c =? 0) || (c_ID c =? clusterID))
    (mkError ErrClusterChanged ("cluster " +:+ quote (c_Name c) +:+ " (id " +:+ itoa (c_ID c) +:+ ", now "
       +:+ itoa clusterID +:+ ")")) ;;
  if b_IngestToken b =s "" then mret tt
  else
    one ← ask (fun db => countRows (fun r => activeToken (HashToken (b_IngestToken b)) r &&
                                             (tk_ClusterName (tr_token r) =s c_Name c)) (tokens db));
    guardTx (0 <? one) (mkError ErrTokenRevoked ("cluster " +:+ quote (c_Name c))).

(** One comparison of [checkExpectation]'s loop over the sorted targets. *)
Definition checkBaseline (clusterID : Z) (want : string * Z) : stx unit :=
  got ← ask (fun db => idOr0 (latestKnown clusterID want.1 db));
  guardTx (got =? want.2)
    (mkError ErrConflict ("target " +:+ want.1 +:+ "'s notification baseline changed (evaluation " +:+ itoa got
       +:+ ", expected " +:+ itoa want.2 +:+ ")")).

Definition sortedEntries (m : gmap string Z) : list (string * Z) :=
  isort (fun a b => String.leb a.1 b.1) (map_to_list m).

Definition checkExpectation (b : EvaluationBatch) (clusterID latestID : Z) : stx unit :=
  match b_Expect b with
  | None => mret tt
  | Some x =>
      guardTx (negb (bool_decide (is_Some (b_Snapshot b))) || (latestID =? x_LatestSnapshotID x))
        (mkError ErrConflict ("cluster " +:+ itoa clusterID +:+ "'s latest snapshot is " +:+ itoa latestID
           +:+ ", not " +:+ itoa (x_LatestSnapshotID x))) ;;
      each (checkBaseline clusterID) (sortedEntries (x_Baselines x))
  end.

(** One comparison of the loop over [b.Current], a map: its order is random
    in Go and decides only which mismatch the error names. *)
Definition checkCurrent (snapID : Z) (want : string * Z) : stx unit :=
  got ← ask (fun db => idOr0 (snapshotEvaluation snapID want.1 db));
  guardTx (got =? want.2)
    (mkError ErrConflict ("target " +:+ want.1 +:+ " changed (evaluation " +:+ itoa got +:+ ", expected "
       +:+ itoa want.2 +:+ ")")).

(** The row a pushed snapshot is stored as. *)
Definition storedSnapshot (now : Time) (clusterID : Z) (s : Snapshot) (i : Z) : Snapshot :=
  mkSnapshot i clusterID (sn_Hash s) (sn_KBVersion s) (sn_AgentVersion s) (orElse (sn_ReceivedAt s) now)
    (sn_ServerVersion s) (sn_Inventory s).

Definition insertSnapshotRow (now : Time) (clusterID : Z) (s : Snapshot) : stx Z := fun db =>
  if existsb (fun c => c_ID c =? clusterID) (t_rows (clusters db)) then
    let (id, t) := insertRow (storedSnapshot now clusterID s) (snapshots db) in
    Done (id, with_snapshots t db)
  else Failed (mkError ErrConstraint "insert snapshot").

(** The row an evaluation is stored as. *)
Definition storedRow (now : Time) (e : Evaluation) (i : Z) : evaluationRow :=
  let created := orElse (e_CreatedAt e) now in
  mkEvaluationRow i (e_ClusterID e) (e_SnapshotID e) (e_Target e) (e_KBVersion e) (e_Score e) (e_Ready e)
    (e_Blockers e) (e_Warnings e) (e_Report e) created (Some (orElse (e_EvaluatedAt e) created)) (e_TeamMapHash e)
    (Some (notAssessedOf (e_Report e))) (Some (e_Teams e)) (Some (CarriesHold (e_Report e))) (Some (e_Baseline e)).

Definition insertEvaluation (now : Time) (e : Evaluation) : stx Z := fun db =>
  if existsb (fun c => c_ID c =? e_ClusterID e) (t_rows (clusters db)) &&
     existsb (fun s => sn_ID s =? e_SnapshotID e) (t_rows (snapshots db)) then
    let (id, t) := insertRow (storedRow now e) (evaluations db) in
    Done (id, with_evaluations t db)
  else Failed (mkError ErrConstraint "insert evaluation").

Definition InsertEvaluation (now : Time) (e : Evaluation) : stx Z := insertEvaluation now e.

(** [e.ClusterID, e.SnapshotID = b.ClusterID, snapID]. *)
Definition placed (clusterID snapID : Z) (e : Evaluation) : Evaluation :=
  mkEvaluation (e_ID e) clusterID snapID (e_Target e) (e_KBVersion e) (e_Score e) (e_Ready e) (e_Blockers e)
    (e_Warnings e) (e_Report e) (e_NotAssessed e) (e_CreatedAt e) (e_EvaluatedAt e) (e_TeamMapHash e) (e_Teams e)
    (e_TeamsUnknown e) (e_CarriesHold e) (e_Baseline e).

(** The columns a refresh writes. *)
Definition refreshed (now : Time) (e : Evaluation) (r : evaluationRow) : evaluationRow :=
  mkEvaluationRow (er_id r) (er_cluster_id r) (er_snapshot_id r) (er_target r) (e_KBVersion e) (er_score r)
    (er_ready r) (e_Blockers e) (e_Warnings e) (e_Report e) (er_created_at r)
    (Some (orElse (e_EvaluatedAt e) now)) (e_TeamMapHash e) (Some (notAssessedOf (e_Report e)))
    (Some (e_Teams e)) (Some (CarriesHold (e_Report e))) (Some (e_Baseline e)).

(** [execOne]: an UPDATE or DELETE that must affect a row. *)
Definition execOne {A} (what : string) (get : SQLite -> table A) (p : A -> bool) (f : SQLite -> SQLite) : stx unit :=
  n ← ask (fun db => countRows p (get db));
  guardTx (negb (n =? 0)) (mkError ErrNotFound what) ;;
  change f.

Definition refreshEvaluation (now : Time) (clusterID : Z) (e : Evaluation) : stx unit :=
  let p r := (er_id r =? e_ID e) && (er_cluster_id r =? clusterID) in
  execOne ("commit evaluations: refresh evaluation " +:+ itoa (e_ID e)) evaluations p
    (fun db => with_evaluations (updateRows p (refreshed now e) (evaluations db)) db).

Definition queueMessage (now : Time) (clusterID : Z) (m : OutboxMessage) : stx unit :=
  let created := orElse (m_CreatedAt m) now in
  change (fun db => with_outbox
    (insertRow (fun i => mkOutboxRow (mkMessage i clusterID (m_Sink m) (m_Payload m) 0 created
                                        (orElse (m_NextAttemptAt m) created)) "") (outbox db)).2 db).

(** The envelope a duplicate push records on the latest snapshot. *)
Definition recordEnvelope (s : Snapshot) (r : Snapshot) : Snapshot :=
  mkSnapshot (sn_ID r) (sn_ClusterID r) (sn_Hash r) (sn_KBVersion s) (sn_AgentVersion s) (sn_ReceivedAt r)
    (if sn_ServerVersion r =s "" then sn_ServerVersion s else sn_ServerVersion r) (sn_Inventory r).

Definition envelopeChanged (s : Snapshot) (latestID : Z) (r : Snapshot) : bool :=
  (sn_ID r =? latestID) &&
  (negb (sn_KBVersion r =s sn_KBVersion s) || negb (sn_AgentVersion r =s sn_AgentVersion s) ||
   ((sn_ServerVersion r =s "") && negb (sn_ServerVersion s =s ""))).

(** [if b.Cluster != nil { ... }]: the cluster of the pass. *)
Definition batchCluster (now : Time) (b : EvaluationBatch) : stx Z :=
  match b_Cluster b with
  | None => mret (b_ClusterID b)
  | Some c => id ← upsertCluster now c; recheckPush b c id ;; mret id
  end.

(** The rows of a pass, once its snapshot is known. *)
Definition writePass (now : Time) (b : EvaluationBatch) (clusterID snapID : Z) : stx unit :=
  each (fun e => insertEvaluation now (placed clusterID snapID e) ;; mret tt) (b_Insert b) ;;
  each (refreshEvaluation now clusterID) (b_Refresh b) ;;
  each (queueMessage now clusterID) (b_Outbox b).

Definition isDuplicate (latest : option Snapshot) (s : Snapshot) : bool :=
  match latest with Some l => sn_Hash l =s sn_Hash s | None => false end.

(** The commit once its cluster is known. *)
Definition passOf (now : Time) (b : EvaluationBatch) (clusterID : Z) : stx (Z * bool) :=
  latest ← ask (LatestSnapshot clusterID);
  let latestID := idOr0 latest in
  match b_Snapshot b with
  | Some s =>
      if isDuplicate latest s then
        change (fun db => with_snapshots (updateRows (envelopeChanged s latestID) (recordEnvelope s) (snapshots db)) db) ;;
        mret (latestID, true)
      else
        checkExpectation b clusterID latestID ;;
        snapID ← insertSnapshotRow now clusterID s;
        writePass now b clusterID snapID ;;
        mret (snapID, false)
  | None =>
      let snapID := b_SnapshotID b in
      guardTx (bool_decide (is_Some latest) && (latestID =? snapID))
        (mkError ErrConflict ("snapshot " +:+ itoa snapID +:+ " is no longer cluster " +:+ itoa clusterID +:+ "'s latest")) ;;
      each (checkCurrent snapID) (map_to_list (b_Current b)) ;;
      checkExpectation b clusterID latestID ;;
      writePass now b clusterID snapID ;;
      mret (snapID, false)
  end.

Definition commitPass (now : Time) (b : EvaluationBatch) : stx (Z * bool) :=
  clusterID ← batchCluster now b;
  passOf now b clusterID.

Definition CommitEvaluations (now : Time) (b : EvaluationBatch) : stx (Z * bool) :=
  wrapTx "commit evaluations" (commitPass now b).

(** [InsertSnapshot] is a commit with nothing but the snapshot. *)
Definition InsertSnapshot (now : Time) (s : Snapshot) : stx (Z * bool) :=
  wrapTx "insert snapshot"
    (CommitEvaluations now (mkBatch None (sn_ClusterID s) "" (Some s) 0 ∅ [] [] [] None)).

(** ** Notification outbox *)

(** [UPDATE ... WHERE id IN (SELECT ... ORDER BY id LIMIT limit) RETURNING]. *)
Definition due (now : Time) (r : outboxRow) : bool := m_NextAttemptAt (or_message r) <=? now.

Definition oldestFirst {A} `{Row A} (l : list A) : list A := isort (fun a b => row_id a <=? row_id b) l.

(** A negative LIMIT is none. *)
Definition limitRows {A} (limit : Z) (l : list A) : list A :=
  if limit <? 0 then l else take (Z.to_nat limit) l.

Definition dueIds (now : Time) (limit : Z) (db : SQLite) : list Z :=
  map row_id (limitRows limit (oldestFirst (select (due now) (t_rows (outbox db))))).

Definition set_attempt (attempts : Z) (next : Time) (r : outboxRow) : outboxRow :=
  let m := or_message r in
  mkOutboxRow (mkMessage (m_ID m) (m_ClusterID m) (m_Sink m) (m_Payload m) attempts (m_CreatedAt m) next)
    (or_last_error r).

Definition leased (now : Time) (lease : Z) (r : outboxRow) : outboxRow :=
  set_attempt (m_Attempts (or_message r) + 1) (now + lease) r.

Definition ClaimOutbox (now : Time) (lease limit : Z) : stx (list OutboxMessage) := fun db =>
  let ids := dueIds now limit db in
  let claimed r := mem_id (row_id r) ids in
  let t := updateRows claimed (leased now lease) (outbox db) in
  Done (map or_message (oldestFirst (select claimed (t_rows t))), with_outbox t db).

Definition messageIs (id : Z) (r : outboxRow) : bool := row_id r =? id.

Definition DeleteOutbox (id : Z) : stx unit :=
  execOne ("delete outbox message " +:+ itoa id) outbox (messageIs id)
    (fun db => with_outbox (deleteRows (messageIs id) (outbox db)) db).

Definition set_error (next : Time) (lastErr : string) (r : outboxRow) : outboxRow :=
  mkOutboxRow (or_message (set_attempt (m_Attempts (or_message r)) next r)) lastErr.

Definition RescheduleOutbox (id : Z) (next : Time) (lastErr : string) : stx unit :=
  execOne ("reschedule outbox message " +:+ itoa id) outbox (messageIs id)
    (fun db => with_outbox (updateRows (messageIs id) (set_error next lastErr) (outbox db)) db).

Definition DeferOutbox (id : Z) (next : Time) : stx unit :=
  execOne ("defer outbox message " +:+ itoa id) outbox (messageIs id)
    (fun db => with_outbox (updateRows (messageIs id)
       (fun r => set_attempt (Z.max (m_Attempts (or_message r) - 1) 0) next r) (outbox db)) db).

(** ** Tokens *)

Definition hasHash (hash : string) (r : tokenRow) : bool := tr_hash r =s hash.

Definition CreateToken (now : Time) (clusterName token : string) : stx Z :=
  if (clusterName =s "") || (token =s "")
  then failWith ErrInvalid "create token: cluster name and token must be non-empty"
  else fun db =>
    if existsb (hasHash (HashToken token)) (t_rows (tokens db))
    then Failed (mkError ErrConstraint ("create token for " +:+ quote clusterName))
    else
      let (id, t) := insertRow (fun i => mkTokenRow (mkToken i clusterName (TokenPrefix token) now None)
                                           (HashToken token)) (tokens db) in
      Done (id, with_tokens t db).

Definition ListTokens (clusterName : string) (db : SQLite) : list Token :=
  map tr_token (oldestFirst (select (fun r => (clusterName =s "") || (tk_ClusterName (tr_token r) =s clusterName))
                               (t_rows (tokens db)))).

Definition set_RevokedAt (now : Time) (r : tokenRow) : tokenRow :=
  let t := tr_token r in
  mkTokenRow (mkToken (tk_ID t) (tk_ClusterName t) (tk_Prefix t) (tk_CreatedAt t) (Some now)) (tr_hash r).

Definition activeOf (clusterName : string) (r : tokenRow) : bool :=
  (tk_ClusterName (tr_token r) =s clusterName) && negb (bool_decide (is_Some (tk_RevokedAt (tr_token r)))).

Definition revoke (what : string) (p : tokenRow -> bool) (now : Time) : stx unit :=
  execOne what tokens p (fun db => with_tokens (updateRows p (set_RevokedAt now) (tokens db)) db).

Definition RevokeTokenID (now : Time) (clusterName : string) (id : Z) : stx unit :=
  revoke ("no active token " +:+ itoa id +:+ " for cluster " +:+ quote clusterName)
    (fun r => (row_id r =? id) && activeOf clusterName r) now.

Definition RevokeToken (now : Time) (clusterName : string) : stx unit :=
  revoke ("no active tokens for cluster " +:+ quote clusterName) (activeOf clusterName) now.

Definition ValidToken (token : string) (db : SQLite) : option string :=
  (fun r => tk_ClusterName (tr_token r)) <$> head (select (activeToken (HashToken token)) (t_rows (tokens db))).

(** The token's name joined with the cluster registered under it, 0 for none. *)
Definition IngestTokenCluster (token : string) (db : SQLite) : option (string * Z) :=
  (fun name => (name, idOr0 (ClusterByName name db))) <$> ValidToken token db.

Definition hasReadHash (hash : string) (r : readTokenRow) : bool := rr_hash r =s hash.

Definition CreateReadToken (now : Time) (teams : list string) (token : string) : stx Z :=
  if token =s "" then failWith ErrInvalid "create read token: the token must be non-empty"
  else match readTokenTeams teams with
  | Err m => failWith ErrInvalid ("create read token: " +:+ m)
  | Ok scope => fun db =>
      if existsb (hasReadHash (HashToken token)) (t_rows (read_tokens db))
      then Failed (mkError ErrConstraint "create read token")
      else
        let (id, t) := insertRow (fun i => mkReadTokenRow (mkReadToken i scope (TokenPrefix token) now None)
                                             (HashToken token)) (read_tokens db) in
        Done (id, with_read_tokens t db)
  end.

Definition activeRead (r : readTokenRow) : bool := negb (bool_decide (is_Some (rt_RevokedAt (rr_token r)))).

Definition ValidReadToken (token : string) (db : SQLite) : option (list string) :=
  (fun r => rt_Teams (rr_token r)) <$>
    head (select (fun r => hasReadHash (HashToken token) r && activeRead r) (t_rows (read_tokens db))).

Definition ListReadTokens (db : SQLite) : list ReadToken :=
  map rr_token (oldestFirst (t_rows (read_tokens db))).

Definition set_ReadRevokedAt (now : Time) (r : readTokenRow) : readTokenRow :=
  let t := rr_token r in
  mkReadTokenRow (mkReadToken (rt_ID t) (rt_Teams t) (rt_Prefix t) (rt_CreatedAt t) (Some now)) (rr_hash r).

Definition RevokeReadToken (now : Time) (id : Z) : stx unit :=
  let p r := (row_id r =? id) && activeRead r in
  execOne ("revoke read token " +:+ itoa id) read_tokens p
    (fun db => with_read_tokens (updateRows p (set_ReadRevokedAt now) (read_tokens db)) db).

(** [SELECT MAX(id) FROM snapshots GROUP BY cluster_id]. *)
Definition latestIds (db : SQLite) : list Z := groupMax sn_ClusterID (t_rows (snapshots db)).

(** Every target's newest evaluation of a cluster's latest snapshot. *)
Definition currentIds (db : SQLite) : list Z :=
  groupMax (fun r => (er_snapshot_id r, er_target r))
    (select (fun r => mem_id (er_snapshot_id r) (latestIds db)) (t_rows (evaluations db))).

Definition namesTeam (teams : list string) (r : evaluationRow) : bool :=
  existsb (fun t => mem_str t teams) (default [] (er_teams r)).

Definition ClustersOfTeams (teams : list string) (teamMapHash : string) (db : SQLite) : list Z :=
  if zlen teams =? 0 then []
  else isort Z.leb (remove_dups (map er_cluster_id
    (select (fun r => mem_id (er_id r) (currentIds db) && (er_team_map_hash r =s teamMapHash) && namesTeam teams r)
       (t_rows (evaluations db))))).
