(* ===== verification/StoreInv.v ===== *)
(** * The store's invariant

    What every operation of the store keeps: ids are distinct and below the
    sequence they were drawn from, names and token hashes are unique, and an
    evaluation is of a stored snapshot of its own cluster, which is
    registered. *)

From stdpp Require Import base list strings gmap sorting.
From Stdlib Require Import ZArith Lia Ascii.
From S2P Require Import Prelude GoStr GoTime GoSha Version Inventory KB Findings Heads Notify Db Store.

Record db_ok (db : SQLite) : Prop := {
  ok_clusters : ids_ok (clusters db);
  ok_snapshots : ids_ok (snapshots db);
  ok_evaluations : ids_ok (evaluations db);
  ok_outbox : ids_ok (outbox db);
  ok_tokens : ids_ok (tokens db);
  ok_read_tokens : ids_ok (read_tokens db);
  ok_names : NoDup (c_Name <$> t_rows (clusters db));
  ok_hashes : NoDup (tr_hash <$> t_rows (tokens db));
  ok_read_hashes : NoDup (rr_hash <$> t_rows (read_tokens db));
  ok_snapshot_cluster : forall s, s ∈ t_rows (snapshots db) ->
    sn_ClusterID s ∈ c_ID <$> t_rows (clusters db);
  ok_evaluation_snapshot : forall r, r ∈ t_rows (evaluations db) ->
    exists s, s ∈ t_rows (snapshots db) /\ sn_ID s = er_snapshot_id r /\ sn_ClusterID s = er_cluster_id r;
}.

Lemma migrated_ok : db_ok migrated.
Proof.
  split; simpl; eauto with go; try constructor; intros x Hx; by apply not_elem_of_nil in Hx.
Qed.

Lemma head_select {A} (p : A -> bool) l r : head (select p l) = Some r -> p r = true /\ r ∈ l.
Proof. intros Hh. apply elem_of_select. apply head_Some_elem_of. done. Qed.

Lemma head_select_None {A} (p : A -> bool) l : head (select p l) = None -> forall r, r ∈ l -> p r = false.
Proof. intros Hh. apply select_nil. by destruct (select p l). Qed.

Lemma byName_spec name c : byName name c = true <-> c_Name c = name.
Proof. apply String.eqb_eq. Qed.

Lemma ClusterByName_Some name db c : ClusterByName name db = Some c -> c_Name c = name /\ c ∈ t_rows (clusters db).
Proof. intros [H ?]%head_select. by apply byName_spec in H. Qed.

Lemma ClusterByName_None name db :
  ClusterByName name db = None -> forall c, c ∈ t_rows (clusters db) -> c_Name c <> name.
Proof. intros H c Hc Hn. pose proof (head_select_None _ _ H c Hc) as Hf. apply byName_spec in Hn. congruence. Qed.

Lemma col_unique {A B} (col : A -> B) l r r' : NoDup (col <$> l) -> r ∈ l -> r' ∈ l -> col r = col r' -> r = r'.
Proof.
  induction l as [|x l IH]; intros Hn Hr Hr' He; [by apply not_elem_of_nil in Hr|].
  rewrite fmap_cons in Hn. apply NoDup_cons in Hn as [Hx Hn].
  apply elem_of_cons in Hr as [->|Hr], Hr' as [->|Hr']; auto; destruct Hx; [rewrite He|rewrite <- He];
    apply list_elem_of_fmap; eauto.
Qed.

Lemma ClusterByName_iff name db c : db_ok db ->
  ClusterByName name db = Some c <-> c_Name c = name /\ c ∈ t_rows (clusters db).
Proof.
  intros Hok. split; [apply ClusterByName_Some|]. intros [Hn Hc].
  destruct (ClusterByName name db) as [c'|] eqn:E.
  - apply ClusterByName_Some in E as [Hn' Hc']. f_equal. apply (col_unique c_Name (t_rows (clusters db))); [apply Hok|done..|congruence].
  - by apply (ClusterByName_None _ _ E c Hc) in Hn.
Qed.

Lemma upsertCluster_ok now c : keeps db_ok (upsertCluster now c).
Proof.
  intros db id db' Hok H. unfold upsertCluster in H.
  apply bind_Done in H as (found & db1 & Ha & H). injection Ha as <- <-.
  destruct (ClusterByName (c_Name c) db) as [r|] eqn:E.
  - destruct (_ || _); [|done]. apply bind_Done in H as ([] & db1 & Hc & H). injection Hc as <-. injection H as _ <-.
    destruct Hok. split; simpl; eauto with go.
    + by apply NoDup_col_update.
    + intros s Hs. rewrite (update_col c_ID) by done. by apply ok_snapshot_cluster0.
  - destruct (insertRow _ _) as [i t] eqn:Ei. injection H as <- <-.
    apply (f_equal snd) in Ei. simpl in Ei. subst t.
    destruct Hok. split; simpl; eauto with go.
    + by apply (ids_ok_insert (fun i => mkCluster i _ _ _ _)).
    + apply (NoDup_col_insert c_Name (fun i => mkCluster i _ _ _ _)); [|done]. simpl. intros r Hr.
      by apply (ClusterByName_None _ db).
    + intros s Hs. rewrite fmap_app, elem_of_app. left. auto.
Qed.

(** What a delete leaves. *)
Definition deleted (id : Z) (name : string) (db : SQLite) : SQLite :=
  mkSQLite (deleteRows (fun c => c_ID c =? id) (clusters db)) (deleteRows (fun s => sn_ClusterID s =? id) (snapshots db))
    (deleteRows (fun r => er_cluster_id r =? id) (evaluations db))
    (deleteRows (fun r => m_ClusterID (or_message r) =? id) (outbox db))
    (deleteRows (fun r => tk_ClusterName (tr_token r) =s name) (tokens db)) (read_tokens db).

Lemma DeleteCluster_Done name db u db' :
  DeleteCluster name db = Done (u, db') -> exists c, ClusterByName name db = Some c /\ db' = deleted (c_ID c) name db.
Proof.
  intros H. unfold DeleteCluster in H. apply bind_Done in H as (found & db1 & Ha & H). injection Ha as <- <-.
  destruct (ClusterByName name db) as [c|] eqn:E; [|done]. exists c. split; [done|].
  apply bind_Done in H as ([] & db1 & Hc & H). injection Hc as <-.
  apply bind_Done in H as ([] & db2 & Hs & H). unfold deleteSnapshots in Hs. destruct (existsb _ _); [done|]. injection Hs as <-.
  apply bind_Done in H as ([] & db3 & Ho & H). injection Ho as <-.
  apply bind_Done in H as ([] & db4 & Hd & H). unfold deleteClusters in Hd. destruct (_ || _); [done|]. injection Hd as <-.
  by injection H as _ <-.
Qed.

Lemma deleted_ok id name db : db_ok db -> db_ok (deleted id name db).
Proof.
  intros []. split; simpl; eauto with go.
  - by apply (NoDup_col_delete c_Name).
  - by apply (NoDup_col_delete tr_hash).
  - intros s [Hs Hin]%elem_of_select. apply negb_true_iff in Hs. apply Z.eqb_neq in Hs.
    apply ok_snapshot_cluster0 in Hin as (c' & Hc' & Hin)%list_elem_of_fmap.
    apply list_elem_of_fmap. exists c'. split; [done|]. apply elem_of_select. split; [|done].
    apply negb_true_iff, Z.eqb_neq. congruence.
  - intros r [Hr Hin]%elem_of_select. apply negb_true_iff in Hr. apply Z.eqb_neq in Hr.
    destruct (ok_evaluation_snapshot0 r Hin) as (s & Hs & Hi & Hcl). exists s. split; [|done].
    apply elem_of_select. split; [|done]. apply negb_true_iff, Z.eqb_neq. congruence.
Qed.

Lemma DeleteCluster_ok name : keeps db_ok (DeleteCluster name).
Proof. intros db u db' Hok (c & _ & ->)%DeleteCluster_Done. by apply deleted_ok. Qed.

Lemma countRows_zero {A} (p : A -> bool) t : 0 <? countRows p t = false <-> forall r, r ∈ t_rows t -> p r = false.
Proof.
  unfold countRows, zlen. rewrite Z.ltb_ge, <- (select_nil p). destruct (select p _); simpl; split; [done..|lia|done].
Qed.

Lemma rename_names id newName t :
  ids_ok t -> NoDup (c_Name <$> t_rows t) ->
  (forall c, c ∈ t_rows t -> c_Name c = newName -> c_ID c = id) ->
  NoDup (c_Name <$> t_rows (updateRows (fun c => c_ID c =? id) (set_Name newName) t)).
Proof.
  intros Hids Hn Hfree. apply NoDup_fmap_2_strong.
  - intros x y (x0 & Hx & ->)%elem_of_update (y0 & Hy & ->)%elem_of_update.
    destruct (c_ID x0 =? id) eqn:Ex, (c_ID y0 =? id) eqn:Ey; simpl; to_prop; intros He.
    + f_equal. apply (row_id_inj (t_rows t)); [apply Hids|done..|]. unfold row_id, Cluster_row. congruence.
    + symmetry in He. by apply Hfree in He.
    + by apply Hfree in He.
    + by apply (col_unique c_Name (t_rows t)).
  - eapply NoDup_fmap_1. apply (ids_ok_update (fun c => c_ID c =? id) (set_Name newName) t); done.
Qed.

Definition renamed (id : Z) (name newName : string) (db : SQLite) : SQLite :=
  with_tokens (updateRows (fun r => tk_ClusterName (tr_token r) =s name) (set_ClusterName newName) (tokens db))
    (with_clusters (updateRows (fun c => c_ID c =? id) (set_Name newName) (clusters db)) db).

Lemma RenameCluster_Done name newName db u db' :
  RenameCluster name newName db = Done (u, db') ->
  exists c, ClusterByName name db = Some c /\ db' = renamed (c_ID c) name newName db /\
    forall c', c' ∈ t_rows (clusters db) -> c_Name c' = newName -> c_ID c' = c_ID c.
Proof.
  intros H. unfold RenameCluster in H. destruct (newName =s ""); [done|].
  apply bind_Done in H as (found & db1 & Ha & H). injection Ha as <- <-.
  destruct (ClusterByName name db) as [c|] eqn:E; [|done].
  apply bind_Done in H as (taken & db1 & Ha & H). injection Ha as <- <-.
  apply bind_Done in H as ([] & db1 & [Hg ->]%guard_Done & H). apply negb_true_iff in Hg.
  apply bind_Done in H as ([] & db1 & Hc & H). injection Hc as <-. injection H as _ <-.
  exists c. split_and!; [done..|]. intros c' Hc' Hn'. pose proof (proj1 (countRows_zero _ _) Hg c' Hc') as Hfree.
  simpl in Hfree. rewrite Hn', String.eqb_refl in Hfree. simpl in Hfree. apply negb_false_iff in Hfree. by apply Z.eqb_eq.
Qed.

Lemma RenameCluster_ok name newName : keeps db_ok (RenameCluster name newName).
Proof.
  intros db u db' Hok (c & _ & -> & Hfree)%RenameCluster_Done. destruct Hok. split; simpl; eauto with go.
  - by apply rename_names.
  - by apply (NoDup_col_update tr_hash (fun r => tk_ClusterName (tr_token r) =s name) (set_ClusterName newName)).
  - intros s Hs. rewrite (update_col c_ID) by done. auto.
Qed.

(** ** Committing a pass *)

Lemma existsb_elem {A} (p : A -> bool) l : existsb p l = true <-> exists x, x ∈ l /\ p x = true.
Proof. rewrite existsb_exists. by setoid_rewrite <- list_elem_of_In. Qed.

(** The snapshot a pass writes its evaluations for. *)
Definition pass_ok (clusterID snapID : Z) (db : SQLite) : Prop :=
  db_ok db /\ exists s, s ∈ t_rows (snapshots db) /\ sn_ID s = snapID /\ sn_ClusterID s = clusterID.

Lemma insertEvaluation_ok now clusterID snapID e :
  keeps (pass_ok clusterID snapID) (insertEvaluation now (placed clusterID snapID e)).
Proof.
  intros db id db' [Hok (s & Hs & Hi & Hcl)] H. unfold insertEvaluation in H.
  destruct (existsb _ _ && existsb _ _); [|done]. injection H as <- <-.
  split; [|simpl; eauto]. destruct Hok. split; simpl; eauto with go.
  - by apply (ids_ok_insert (storedRow now (placed clusterID snapID e))).
  - intros r [Hr| ->%list_elem_of_singleton]%elem_of_app; simpl; eauto.
Qed.

Lemma execOne_ok {A} (P : SQLite -> Prop) what (get : SQLite -> table A) p f :
  (forall db, P db -> P (f db)) -> keeps P (execOne what get p f).
Proof.
  intros Hf. apply keeps_bind; [apply keeps_ask|]. intros n. apply keeps_bind; [apply keeps_guard|].
  intros []. by apply keeps_change.
Qed.

Lemma refresh_ok clusterID snapID p now e db :
  pass_ok clusterID snapID db ->
  pass_ok clusterID snapID (with_evaluations (updateRows p (refreshed now e) (evaluations db)) db).
Proof.
  intros [Hok Hs]. split; [|simpl; eauto]. destruct Hok. split; simpl; eauto with go.
  intros r (r0 & -> & Hr)%list_elem_of_fmap. destruct (p r0); simpl; auto.
Qed.

Lemma queue_ok clusterID snapID mk db :
  (forall i, row_id (mk i : outboxRow) = i) -> pass_ok clusterID snapID db ->
  pass_ok clusterID snapID (with_outbox (insertRow mk (outbox db)).2 db).
Proof.
  intros Hmk [Hok Hs]. split; [|simpl; eauto]. destruct Hok. split; simpl; eauto with go. by apply (ids_ok_insert mk).
Qed.

Lemma writePass_ok now b clusterID snapID : keeps (pass_ok clusterID snapID) (writePass now b clusterID snapID).
Proof.
  apply keeps_bind; [|intros []; apply keeps_bind; [|intros []]].
  - apply keeps_each. intros e. apply keeps_bind; [apply insertEvaluation_ok|]. intros _. apply keeps_ret.
  - apply keeps_each. intros e. apply execOne_ok. apply refresh_ok.
  - apply keeps_each. intros m. apply keeps_change. intros db. by apply queue_ok.
Qed.

(** Reads of a transaction that leave the database alone. *)
Definition reads_only {A} (m : stx A) : Prop := forall db a db', m db = Done (a, db') -> db' = db.

Lemma reads_ask {A} (q : SQLite -> A) : reads_only (ask q).
Proof. intros db a db' H. by injection H as _ <-. Qed.

Lemma reads_guard b e : reads_only (guardTx b e).
Proof. intros db a db' [_ ->]%guard_Done. done. Qed.

Lemma reads_ret {A} (a : A) : reads_only (mret a).
Proof. intros db b db' H. by injection H as _ <-. Qed.

Lemma reads_bind {A B} (m : stx A) (k : A -> stx B) :
  reads_only m -> (forall a, reads_only (k a)) -> reads_only (m ≫= k).
Proof. intros Hm Hk db b db' (a & db1 & H & H')%bind_Done. apply Hm in H as ->. by apply Hk in H'. Qed.

Lemma reads_each {A} (f : A -> stx unit) l : (forall x, reads_only (f x)) -> reads_only (each f l).
Proof. intros Hf. induction l; simpl; [apply reads_ret|]. apply reads_bind; auto. Qed.

#[export] Hint Resolve reads_ask reads_guard reads_ret reads_bind reads_each : go.

Lemma recheckPush_reads b c id : reads_only (recheckPush b c id).
Proof. apply reads_bind; [auto with go|]. intros _. destruct (_ =s _); auto with go. Qed.

Lemma checkExpectation_reads b id latestID : reads_only (checkExpectation b id latestID).
Proof.
  unfold checkExpectation. destruct (b_Expect b); [|auto with go].
  apply reads_bind; [auto with go|]. intros _. apply reads_each. intros w. apply reads_bind; auto with go.
Qed.

Lemma checkCurrent_reads id w : reads_only (checkCurrent id w).
Proof. apply reads_bind; auto with go. Qed.

Lemma batchCluster_ok now b : keeps db_ok (batchCluster now b).
Proof.
  unfold batchCluster. destruct (b_Cluster b) as [c|]; [|apply keeps_ret].
  apply keeps_bind; [apply upsertCluster_ok|]. intros id. apply keeps_bind; [|intros _; apply keeps_ret].
  intros db u db' Hok ->%recheckPush_reads. done.
Qed.

Lemma LatestSnapshot_Some id db s :
  LatestSnapshot id db = Some s ->
  s ∈ t_rows (snapshots db) /\ sn_ClusterID s = id /\
  forall s', s' ∈ t_rows (snapshots db) -> sn_ClusterID s' = id -> sn_ID s' <= sn_ID s.
Proof.
  unfold LatestSnapshot. intros [[Hp Hs]%elem_of_select Hmax]%newest_Some. unfold ofCluster in Hp. to_prop.
  split_and!; [done..|]. intros s' Hs' Hid. apply Hmax, elem_of_select. split; [|done]. unfold ofCluster. lia.
Qed.

Lemma commitPass_ok now b : keeps db_ok (commitPass now b).
Proof.
  apply keeps_bind; [apply batchCluster_ok|]. intros id db r db' Hok H.
  apply bind_Done in H as (latest & db1 & Ha & H). injection Ha as <- <-.
  destruct (b_Snapshot b) as [s|].
  - destruct (isDuplicate _ _).
    + apply bind_Done in H as ([] & db1 & Hc & H). injection Hc as <-. injection H as _ <-.
      destruct Hok. split; simpl; eauto with go.
      * intros x (x0 & -> & Hx)%list_elem_of_fmap. destruct (envelopeChanged _ _ _); simpl; auto.
      * intros r0 Hr0. destruct (ok_evaluation_snapshot0 r0 Hr0) as (x & Hx & Hi & Hcl).
        exists (if envelopeChanged s (idOr0 (LatestSnapshot id db)) x then recordEnvelope s x else x).
        split; [apply list_elem_of_fmap; eauto|]. by destruct (envelopeChanged _ _ _).
    + apply bind_Done in H as ([] & db1 & ->%checkExpectation_reads & H).
      apply bind_Done in H as (snapID & db1 & Hi & H).
      apply bind_Done in H as ([] & db2 & Hw & H). injection H as _ <-.
      eapply (writePass_ok now b id snapID); [|exact Hw]. unfold insertSnapshotRow in Hi.
      destruct (existsb _ _) eqn:Ec; [|done]. injection Hi as <- <-.
      apply existsb_elem in Ec as (c & Hc & Hcid). to_prop. split.
      * destruct Hok. split; simpl; eauto with go.
        -- by apply (ids_ok_insert (storedSnapshot now id s)).
        -- intros x [Hx| ->%list_elem_of_singleton]%elem_of_app; [auto|]. simpl. apply list_elem_of_fmap. eauto.
        -- intros r0 Hr0. destruct (ok_evaluation_snapshot0 r0 Hr0) as (x & Hx & Hi & Hcl).
           exists x. split; [|done]. apply elem_of_app. by left.
      * eexists. split; [apply elem_of_app; right; by apply list_elem_of_singleton|]. done.
  - apply bind_Done in H as ([] & db1 & [Hg ->]%guard_Done & H). to_prop.
    apply bind_Done in H as ([] & db1 & Hcur & H).
    apply reads_each in Hcur as ->; [|apply checkCurrent_reads].
    apply bind_Done in H as ([] & db1 & ->%checkExpectation_reads & H).
    apply bind_Done in H as ([] & db2 & Hw & H). injection H as _ <-.
    eapply (writePass_ok now b id (b_SnapshotID b)); [|exact Hw]. split; [done|].
    destruct (LatestSnapshot id db) as [s|] eqn:El; [|done].
    apply LatestSnapshot_Some in El as (Hs & Hcl & _). eauto.
Qed.

Lemma keeps_wrap {A} P prefix (m : stx A) : keeps P m -> keeps P (wrapTx prefix m).
Proof.
  intros Hm db a db' HP H. unfold wrapTx in H. destruct (m db) as [[a1 db1]|e] eqn:E; [|done].
  injection H as <- <-. eauto.
Qed.

Lemma wrap_Done {A} prefix (m : stx A) db r : wrapTx prefix m db = Done r <-> m db = Done r.
Proof. unfold wrapTx. destruct (m db); split; congruence. Qed.

Lemma CommitEvaluations_ok now b : keeps db_ok (CommitEvaluations now b).
Proof. apply keeps_wrap, commitPass_ok. Qed.

(** ** The outbox and the tokens *)

Lemma outbox_update_ok p f db :
  (forall r, row_id (f r : outboxRow) = row_id r) -> db_ok db ->
  db_ok (with_outbox (updateRows p f (outbox db)) db).
Proof. intros Hf []. split; simpl; eauto with go. Qed.

Lemma ClaimOutbox_ok now lease limit : keeps db_ok (ClaimOutbox now lease limit).
Proof. intros db a db' Hok H. injection H as _ <-. by apply outbox_update_ok. Qed.

Lemma DeleteOutbox_ok id : keeps db_ok (DeleteOutbox id).
Proof. apply execOne_ok. intros db []. split; simpl; eauto with go. Qed.

Lemma RescheduleOutbox_ok id next lastErr : keeps db_ok (RescheduleOutbox id next lastErr).
Proof. apply execOne_ok. intros db. by apply outbox_update_ok. Qed.

Lemma DeferOutbox_ok id next : keeps db_ok (DeferOutbox id next).
Proof. apply execOne_ok. intros db. by apply outbox_update_ok. Qed.

Lemma CreateToken_ok now name token : keeps db_ok (CreateToken now name token).
Proof.
  intros db a db' Hok H. unfold CreateToken in H. destruct (_ || _); [done|].
  destruct (existsb _ _) eqn:E; [done|]. injection H as _ <-. destruct Hok. split; simpl; eauto with go.
  - by apply (ids_ok_insert (fun i => mkTokenRow (mkToken i _ _ _ _) _)).
  - apply (NoDup_col_insert tr_hash (fun i => mkTokenRow (mkToken i _ _ _ _) _)); [|done]. simpl. intros r Hr He.
    assert (existsb (hasHash (HashToken token)) (t_rows (tokens db)) = true); [|congruence].
    apply existsb_elem. exists r. split; [done|]. by apply String.eqb_eq.
Qed.

Lemma revoke_ok what p now : keeps db_ok (revoke what p now).
Proof. apply execOne_ok. intros db []. split; simpl; eauto with go. by apply (NoDup_col_update tr_hash). Qed.

Lemma CreateReadToken_ok now teams token : keeps db_ok (CreateReadToken now teams token).
Proof.
  intros db a db' Hok H. unfold CreateReadToken in H. destruct (_ =s _); [done|].
  destruct (readTokenTeams teams) as [scope|]; [|done].
  destruct (existsb _ _) eqn:E; [done|]. injection H as _ <-. destruct Hok. split; simpl; eauto with go.
  - by apply (ids_ok_insert (fun i => mkReadTokenRow (mkReadToken i _ _ _ _) _)).
  - apply (NoDup_col_insert rr_hash (fun i => mkReadTokenRow (mkReadToken i _ _ _ _) _)); [|done]. simpl. intros r Hr He.
    assert (existsb (hasReadHash (HashToken token)) (t_rows (read_tokens db)) = true); [|congruence].
    apply existsb_elem. exists r. split; [done|]. by apply String.eqb_eq.
Qed.

Lemma RevokeReadToken_ok now id : keeps db_ok (RevokeReadToken now id).
Proof. apply execOne_ok. intros db []. split; simpl; eauto with go. by apply (NoDup_col_update rr_hash). Qed.

(** ** A small database, for the witnesses *)

Definition exampleEvaluation (target : string) (ready : bool) (blockers : Z) (at_ : Time) : Evaluation :=
  mkEvaluation 0 0 0 target "kb-1" 90 ready blockers 0 None [] at_ at_ "" ["payments"%string] false false false.

Definition exampleSnapshot (hash : string) (at_ : Time) : Snapshot :=
  mkSnapshot 0 0 hash "kb-1" "v1" at_ "v1.34.2" None.

(** A push of a snapshot of the cluster [name], evaluated for one target. *)
Definition examplePush (name hash target : string) (ready : bool) (blockers : Z) (at_ : Time) : EvaluationBatch :=
  mkBatch (Some (mkCluster 0 name "uid-1" zeroTime at_)) 0 "" (Some (exampleSnapshot hash at_)) 0 ∅
    [exampleEvaluation target ready blockers at_] []
    [mkMessage 0 0 "slack" Corrupt 0 at_ zeroTime] None.

Definition pushed (b : EvaluationBatch) (at_ : Time) (db : SQLite) : SQLite := commit (CommitEvaluations at_ b) db.

(** Three pushes of one cluster, a day apart. *)
Definition exampleDB : SQLite :=
  pushed (examplePush "prod" "h3" "1.36" true 0 (3 * day)) (3 * day)
    (pushed (examplePush "prod" "h2" "1.35" false 0 (2 * day)) (2 * day)
      (pushed (examplePush "prod" "h1" "1.35" true 0 day) day migrated)).

Lemma pushed_ok b at_ db : db_ok db -> db_ok (pushed b at_ db).
Proof. apply keeps_commit, CommitEvaluations_ok. Qed.

Lemma exampleDB_ok : db_ok exampleDB.
Proof. apply pushed_ok, pushed_ok, pushed_ok, migrated_ok. Qed.
