(* ===== verification/Prune.v ===== *)
(** * Retention: internal/server/store/prune.go

    [Prune] deletes old evaluations and then the snapshots nothing refers to,
    in batches of one transaction each. The batched loops carry as fuel the
    number of rows plus one, which is enough: every full batch deletes a row.
    The refinement below says what they compute: one declarative deletion. *)

From stdpp Require Import base list strings gmap sorting.
From Stdlib Require Import ZArith Lia Ascii.
From S2P Require Import Prelude GoStr GoTime GoSha Version Inventory KB Findings Heads Notify Db Store StoreInv.

Definition pruneBatchRows : Z := 5000.
Definition pruneChunk : Z := 500.

(** [pruneTuning.rows]: a test may set the size of a batch. *)
Definition batchSize (tuned : Z) : Z := if 0 <? tuned then tuned else pruneBatchRows.

Definition PruneBaselines : Type := option (gmap Z (list string)).

Record PruneResult := mkPruneResult { pr_Snapshots : Z; pr_Evaluations : Z }.

(** [SELECT MAX(id) FROM evaluations WHERE decided GROUP BY cluster_id, target]. *)
Definition pairOf (r : evaluationRow) : Z * string := (er_cluster_id r, er_target r).

Definition baselineIds (db : SQLite) : list Z := groupMax pairOf (select decided (t_rows (evaluations db))).

(** An evaluation that is past the cutoff and not the current state. *)
Definition aged (cutoff : Time) (db : SQLite) (r : evaluationRow) : bool :=
  (er_created_at r <? cutoff) && negb (mem_id (er_snapshot_id r) (latestIds db)).

Definition agedEvaluation (cutoff : Time) (db : SQLite) (r : evaluationRow) : bool :=
  aged cutoff db r && negb (mem_id (er_id r) (baselineIds db)).

Definition agedSnapshot (cutoff : Time) (db : SQLite) (s : Snapshot) : bool :=
  (sn_ReceivedAt s <? cutoff) && negb (mem_id (sn_ID s) (latestIds db)) &&
  negb (existsb (fun r => er_snapshot_id r =? sn_ID s) (t_rows (evaluations db))).

(** [ORDER BY created_at, id LIMIT n]. *)
Definition createdLeb (a b : evaluationRow) : bool :=
  (er_created_at a <? er_created_at b) || ((er_created_at a =? er_created_at b) && (er_id a <=? er_id b)).

(** One batched DELETE of evaluations, and of snapshots: the rows it affects
    and the database after it. *)
Definition evaluationDrain (cutoff : Time) (batch : Z) (db : SQLite) : Z * SQLite :=
  let ids := map er_id (take (Z.to_nat batch)
               (isort createdLeb (select (agedEvaluation cutoff db) (t_rows (evaluations db))))) in
  let p r := mem_id (er_id r) ids in
  (countRows p (evaluations db), with_evaluations (deleteRows p (evaluations db)) db).

Definition snapshotDrain (cutoff : Time) (batch : Z) (db : SQLite) : Z * SQLite :=
  let ids := map sn_ID (take (Z.to_nat batch)
               (oldestFirst (select (agedSnapshot cutoff db) (t_rows (snapshots db))))) in
  let p s := mem_id (sn_ID s) ids in
  (countRows p (snapshots db), with_snapshots (deleteRows p (snapshots db)) db).

(** [drain]: one batched DELETE until a transaction deletes less than a full
    batch. *)
Fixpoint drain (fuel : nat) (stmt : SQLite -> Z * SQLite) (batch total : Z) (db : SQLite) : option (Z * SQLite) :=
  match fuel with
  | O => None
  | S fuel' =>
      let (n, db') := stmt db in
      if n <? batch then Some (total + n, db') else drain fuel' stmt batch (total + n) db'
  end.

(** [pruneBaselines]: the pairs and their newest decided evaluation. *)
Definition baselinePairs (db : SQLite) : list evaluationRow :=
  select (fun r => decided r && mem_id (er_id r) (baselineIds db)) (t_rows (evaluations db)).

Definition unspared (b : gmap Z (list string)) (pairs : list evaluationRow) : list Z :=
  map er_id (select (fun r => match b !! er_cluster_id r with
                              | Some targets => negb (mem_str (er_target r) targets)
                              | None => false
                              end) pairs).

(** The DELETE of one chunk of ids. *)
Definition baselineDelete (cutoff : Time) (ids : list Z) (db : SQLite) : Z * SQLite :=
  let p r := aged cutoff db r && mem_id (er_id r) ids in
  (countRows p (evaluations db), with_evaluations (deleteRows p (evaluations db)) db).

Fixpoint chunks (fuel : nat) (cutoff : Time) (ids : list Z) (total : Z) (db : SQLite) : option (Z * SQLite) :=
  match ids with
  | [] => Some (total, db)
  | _ =>
      match fuel with
      | O => None
      | S fuel' =>
          let n := Z.to_nat (Z.min (zlen ids) pruneChunk) in
          let (k, db') := baselineDelete cutoff (take n ids) db in
          chunks fuel' cutoff (drop n ids) (total + k) db'
      end
  end.

Definition pruneBaselines (cutoff : Time) (b : gmap Z (list string)) (db : SQLite) : option (Z * SQLite) :=
  let ids := unspared b (baselinePairs db) in chunks (length ids) cutoff ids 0 db.

Definition Prune (tuned : Z) (cutoff : Time) (baselines : PruneBaselines) (db : SQLite) : option (PruneResult * SQLite) :=
  let batch := batchSize tuned in
  match drain (S (length (t_rows (evaluations db)))) (evaluationDrain cutoff batch) batch 0 db with
  | None => None
  | Some (n, db1) =>
      let step2 :=
        match baselines with
        | Some b => if 0 <? Z.of_nat (size b) then pruneBaselines cutoff b db1 else Some (0, db1)
        | None => Some (0, db1)
        end in
      match step2 with
      | None => None
      | Some (k, db2) =>
          match drain (S (length (t_rows (snapshots db2)))) (snapshotDrain cutoff batch) batch 0 db2 with
          | None => None
          | Some (m, db3) => Some (mkPruneResult m (n + k), db3)
          end
      end
  end.

(** ** One batched loop *)

Section Drain.
Context {A : Type} `{Row A}.
Context (get : SQLite -> list A) (put : list A -> SQLite -> SQLite) (P : SQLite -> A -> bool) (leb : A -> A -> bool).
Context (batch : Z) (Hbatch : 0 < batch).
Context (get_put : forall l db, get (put l db) = l) (put_put : forall l l' db, put l (put l' db) = put l db).
(** Deleting rows that are up for deletion changes nothing for the others. *)
Context (stable : forall db q, NoDup (row_id <$> get db) ->
  (forall r, r ∈ get db -> q r = false -> P db r = true) ->
  forall r, r ∈ get db -> P (put (select q (get db)) db) r = P db r).

Definition batchIds (db : SQLite) : list Z :=
  map row_id (take (Z.to_nat batch) (isort leb (select (P db) (get db)))).
Definition inBatch (db : SQLite) (r : A) : bool := mem_id (row_id r) (batchIds db).
Definition batchDelete (db : SQLite) : Z * SQLite :=
  (zlen (select (inBatch db) (get db)), put (select (fun r => negb (inBatch db r)) (get db)) db).

Lemma batch_sub db r :
  r ∈ take (Z.to_nat batch) (isort leb (select (P db) (get db))) -> P db r = true /\ r ∈ get db.
Proof using Type.
  intros (i & Hi & _)%elem_of_take. apply list_elem_of_lookup_2 in Hi. rewrite isort_perm in Hi.
  by apply elem_of_select.
Qed.

Lemma inBatch_spec db r :
  NoDup (row_id <$> get db) -> r ∈ get db ->
  inBatch db r = true <-> r ∈ take (Z.to_nat batch) (isort leb (select (P db) (get db))).
Proof using Type.
  intros Hn Hr. unfold inBatch, batchIds. rewrite mem_id_spec, list_elem_of_fmap. split; [|eauto].
  intros (r' & He & Hr'). destruct (batch_sub db r' Hr') as [_ Hin].
  by rewrite (row_id_inj (get db) r r').
Qed.

Lemma inBatch_P db r : NoDup (row_id <$> get db) -> r ∈ get db -> inBatch db r = true -> P db r = true.
Proof using Type. intros Hn Hr Hb%inBatch_spec; [|done..]. by apply batch_sub in Hb as [? _]. Qed.

Lemma NoDup_of_ids (l : list A) : NoDup (row_id <$> l) -> NoDup l.
Proof. apply NoDup_fmap_1. Qed.

Lemma inBatch_perm db : NoDup (row_id <$> get db) ->
  select (inBatch db) (get db) ≡ₚ take (Z.to_nat batch) (isort leb (select (P db) (get db))).
Proof using Type.
  intros Hn. apply NoDup_Permutation.
  - by apply NoDup_of_ids, NoDup_select.
  - apply (sublist_NoDup _ (isort leb (select (P db) (get db)))); [|apply sublist_take].
    rewrite isort_perm. by apply NoDup_of_ids, NoDup_select.
  - intros r. rewrite elem_of_select. split.
    + intros [Hb Hr]. by apply inBatch_spec.
    + intros Ht. destruct (batch_sub db r Ht) as [_ Hr]. split; [by apply inBatch_spec|done].
Qed.

Lemma batchDelete_count db : NoDup (row_id <$> get db) ->
  (batchDelete db).1 = Z.min batch (zlen (select (P db) (get db))).
Proof using Hbatch.
  intros Hn. unfold batchDelete, zlen. simpl. rewrite (Permutation_length (inBatch_perm db Hn)).
  rewrite length_take, (Permutation_length (isort_perm leb _)). lia.
Qed.

(** What a batch leaves to delete, and what it leaves alone. *)
Lemma batchDelete_rest db :
  NoDup (row_id <$> get db) -> let db' := (batchDelete db).2 in
  NoDup (row_id <$> get db') /\
  select (fun r => negb (P db' r)) (get db') = select (fun r => negb (P db r)) (get db) /\
  zlen (select (P db') (get db')) = zlen (select (P db) (get db)) - (batchDelete db).1.
Proof using get_put stable.
  intros Hn db'. unfold db', batchDelete. simpl. rewrite get_put.
  pose proof (stable db (fun r => negb (inBatch db r)) Hn) as Hst.
  assert (forall r, r ∈ get db -> negb (inBatch db r) = false -> P db r = true) as Hq.
  { intros r Hr Hb. apply negb_false_iff in Hb. by apply inBatch_P. }
  specialize (Hst Hq). split; [by apply NoDup_select|]. split.
  - rewrite select_select. apply select_ext. intros r Hr. rewrite Hst by done.
    destruct (inBatch db r) eqn:Eb; simpl; [|by rewrite andb_true_r]. by rewrite (inBatch_P db r).
  - rewrite (select_ext (P (put _ db)) (P db)) by (intros r [_ Hr]%elem_of_select; by apply Hst).
    rewrite select_select.
    enough (length (select (P db) (get db)) =
      (length (select (fun r => P db r && negb (inBatch db r)) (get db)) + length (select (inBatch db) (get db)))%nat)
      as Hl by (unfold zlen; lia).
    clear Hst. assert (forall r, r ∈ get db -> inBatch db r = true -> P db r = true) as Hbp by (by intros; apply inBatch_P).
    clear Hq. induction (get db) as [|x l IH]; [done|]. unfold select in *. rewrite !filter_cons.
    assert (forall r, r ∈ l -> inBatch db r = true -> P db r = true) as Hbl by (intros; apply Hbp; [by right|done]).
    apply NoDup_cons in Hn as [_ Hn]. specialize (IH Hn Hbl). pose proof (Hbp x ltac:(left)) as Hx.
    destruct (inBatch db x); [rewrite Hx by done|destruct (P db x)]; simpl; repeat case_decide; simpl in *; try done; lia.
Qed.

Lemma drain_spec fuel total db :
  NoDup (row_id <$> get db) -> (length (select (P db) (get db)) < fuel)%nat ->
  drain fuel batchDelete batch total db =
    Some (total + zlen (select (P db) (get db)), put (select (fun r => negb (P db r)) (get db)) db).
Proof using Hbatch get_put put_put stable.
  revert total db. induction fuel as [|fuel IH]; [lia|]. intros total db Hn Hf. cbn [drain].
  pose proof (batchDelete_count db Hn) as Hc. destruct (batchDelete_rest db Hn) as (Hn' & Hkeep & Hrest).
  destruct (batchDelete db) as [n db'] eqn:E. cbn [fst snd] in *.
  assert (forall l, put l db' = put l db) as Hput.
  { intros l. unfold batchDelete in E. injection E as _ <-. by rewrite put_put. }
  destruct (n <? batch) eqn:En; to_prop.
  - assert (n = zlen (select (P db) (get db))) as -> by lia. f_equal. f_equal.
    rewrite <- Hkeep. rewrite select_all.
    + unfold batchDelete in E. injection E as _ <-. by rewrite get_put.
    + intros r Hr. apply negb_true_iff.
      assert (select (P db') (get db') = []) as Hz.
      { unfold zlen in *. destruct (select (P db') (get db')); [done|]. simpl in *. lia. }
      by apply (proj1 (select_nil _ _) Hz).
  - rewrite IH; [|done|unfold zlen in *; lia]. rewrite Hput, Hkeep. do 2 f_equal. lia.
Qed.
End Drain.

(** ** What the statements leave alone *)

(** The newest row of each group stays the newest when it is never deleted. *)
Lemma groupMax_stable {A} `{Row A} {K} `{EqDecision K} (key : A -> K) (q : A -> bool) l i :
  NoDup (row_id <$> l) ->
  (forall r, r ∈ l -> row_id r ∈ groupMax key l -> q r = true) ->
  i ∈ groupMax key (select q l) <-> i ∈ groupMax key l.
Proof.
  intros Hn Hq. rewrite !elem_of_groupMax. split.
  - intros (r & [Hqr Hr]%elem_of_select & <- & Hnew).
    destruct (newest_nonempty (select (fun r' => bool_decide (key r' = key r)) l) r) as [b Hb].
    { apply elem_of_select. split; [by apply bool_decide_eq_true|done]. }
    pose proof Hb as Hb'. apply newest_Some in Hb' as [[Hkb Hbl]%elem_of_select _].
    apply bool_decide_eq_true in Hkb.
    assert (q b = true) as Hqb.
    { apply Hq; [done|]. apply elem_of_groupMax. exists b. by rewrite Hkb. }
    pose proof (newest_survives _ q l b Hn Hb Hqb) as Hs. rewrite Hs in Hnew. injection Hnew as ->. eauto.
  - intros (r & Hr & <- & Hnew). assert (q r = true) as Hqr.
    { apply Hq; [done|]. apply elem_of_groupMax. eauto. }
    exists r. split_and!; [by apply elem_of_select|done|]. by apply newest_survives.
Qed.

Lemma mem_id_iff i l l' : (i ∈ l <-> i ∈ l') -> mem_id i l = mem_id i l'.
Proof. intros Hi. unfold mem_id. by apply bool_decide_ext. Qed.

Lemma mem_id_nil i : mem_id i [] = false.
Proof. done. Qed.

Lemma select_comm {A} (p q : A -> bool) l : select p (select q l) = select q (select p l).
Proof. rewrite !select_select. apply select_ext. intros r _. apply andb_comm. Qed.

Definition put_evaluations (l : list evaluationRow) (db : SQLite) : SQLite :=
  with_evaluations (mkTable l (t_seq (evaluations db))) db.
Definition put_snapshots (l : list Snapshot) (db : SQLite) : SQLite :=
  with_snapshots (mkTable l (t_seq (snapshots db))) db.

Lemma baselineIds_stable q db i :
  NoDup (er_id <$> t_rows (evaluations db)) ->
  (forall r, r ∈ t_rows (evaluations db) -> er_id r ∈ baselineIds db -> q r = true) ->
  i ∈ baselineIds (put_evaluations (select q (t_rows (evaluations db))) db) <-> i ∈ baselineIds db.
Proof.
  intros Hn Hq. unfold baselineIds, put_evaluations. simpl. rewrite select_comm. apply groupMax_stable.
  - by apply NoDup_select.
  - intros r [_ Hr]%elem_of_select Hi. by apply Hq.
Qed.

Lemma evaluations_drain_stable cutoff db q :
  NoDup (er_id <$> t_rows (evaluations db)) ->
  (forall r, r ∈ t_rows (evaluations db) -> q r = false -> agedEvaluation cutoff db r = true) ->
  forall r, r ∈ t_rows (evaluations db) ->
  agedEvaluation cutoff (put_evaluations (select q (t_rows (evaluations db))) db) r = agedEvaluation cutoff db r.
Proof.
  intros Hn Hq r _. unfold agedEvaluation. f_equal. f_equal. apply mem_id_iff, baselineIds_stable; [done|].
  intros r' Hr' Hi. destruct (q r') eqn:E; [done|]. apply Hq in E; [|done]. unfold agedEvaluation in E. to_prop.
  by apply mem_id_spec in Hi; congruence.
Qed.

Lemma latestIds_stable q db i :
  NoDup (sn_ID <$> t_rows (snapshots db)) ->
  (forall s, s ∈ t_rows (snapshots db) -> sn_ID s ∈ latestIds db -> q s = true) ->
  i ∈ latestIds (put_snapshots (select q (t_rows (snapshots db))) db) <-> i ∈ latestIds db.
Proof. intros Hn Hq. by apply groupMax_stable. Qed.

Lemma snapshots_drain_stable cutoff db q :
  NoDup (sn_ID <$> t_rows (snapshots db)) ->
  (forall s, s ∈ t_rows (snapshots db) -> q s = false -> agedSnapshot cutoff db s = true) ->
  forall s, s ∈ t_rows (snapshots db) ->
  agedSnapshot cutoff (put_snapshots (select q (t_rows (snapshots db))) db) s = agedSnapshot cutoff db s.
Proof.
  intros Hn Hq s _. unfold agedSnapshot. f_equal. f_equal. f_equal. apply mem_id_iff, latestIds_stable; [done|].
  intros s' Hs' Hi. destruct (q s') eqn:E; [done|]. apply Hq in E; [|done]. unfold agedSnapshot in E. to_prop.
  by apply mem_id_spec in Hi; congruence.
Qed.

(** ** The batches together *)

Lemma batchSize_pos tuned : 0 < batchSize tuned.
Proof. unfold batchSize, pruneBatchRows. destruct (0 <? tuned) eqn:E; to_prop; lia. Qed.

Lemma select_length {A} (p : A -> bool) l : (length (select p l) <= length l)%nat.
Proof. apply length_filter. Qed.

Lemma evaluations_drained tuned cutoff db :
  NoDup (er_id <$> t_rows (evaluations db)) ->
  drain (S (length (t_rows (evaluations db)))) (evaluationDrain cutoff (batchSize tuned)) (batchSize tuned) 0 db =
  Some (zlen (select (agedEvaluation cutoff db) (t_rows (evaluations db))),
        put_evaluations (select (fun r => negb (agedEvaluation cutoff db r)) (t_rows (evaluations db))) db).
Proof.
  intros Hn. pose proof (select_length (agedEvaluation cutoff db) (t_rows (evaluations db))).
  apply (drain_spec (fun db => t_rows (evaluations db)) put_evaluations (agedEvaluation cutoff) createdLeb
           (batchSize tuned) (batchSize_pos tuned)); try done; [|lia].
  intros. by apply evaluations_drain_stable.
Qed.

Lemma snapshots_drained tuned cutoff db :
  NoDup (sn_ID <$> t_rows (snapshots db)) ->
  drain (S (length (t_rows (snapshots db)))) (snapshotDrain cutoff (batchSize tuned)) (batchSize tuned) 0 db =
  Some (zlen (select (agedSnapshot cutoff db) (t_rows (snapshots db))),
        put_snapshots (select (fun s => negb (agedSnapshot cutoff db s)) (t_rows (snapshots db))) db).
Proof.
  intros Hn. pose proof (select_length (agedSnapshot cutoff db) (t_rows (snapshots db))).
  apply (drain_spec (fun db => t_rows (snapshots db)) put_snapshots (agedSnapshot cutoff)
           (fun a b => row_id a <=? row_id b) (batchSize tuned) (batchSize_pos tuned)); try done; [|lia].
  intros. by apply snapshots_drain_stable.
Qed.

Lemma select_split_length {A} (p q : A -> bool) l :
  (length (select p l) + length (select q (select (fun r => negb (p r)) l)))%nat =
  length (select (fun r => p r || q r) l).
Proof.
  induction l as [|x l IH]; [done|]. unfold select in *. rewrite !filter_cons.
  destruct (p x) eqn:Ep, (q x) eqn:Eq; simpl; repeat case_decide; simpl in *; try congruence;
    rewrite ?filter_cons, ?Eq; simpl; repeat case_decide; simpl in *; try congruence; lia.
Qed.

Lemma chunks_spec fuel cutoff ids total db :
  (length ids <= fuel)%nat ->
  chunks fuel cutoff ids total db =
  Some (total + zlen (select (fun r => aged cutoff db r && mem_id (er_id r) ids) (t_rows (evaluations db))),
        put_evaluations (select (fun r => negb (aged cutoff db r && mem_id (er_id r) ids)) (t_rows (evaluations db))) db).
Proof.
  revert ids total db. induction fuel as [|fuel IH]; intros ids total db Hf.
  { destruct ids; [|simpl in Hf; lia]. simpl. unfold put_evaluations.
    rewrite (proj2 (select_nil _ _)) by (intros r _; by rewrite andb_false_r).
    rewrite select_all by (intros r _; by rewrite andb_false_r).
    unfold zlen. simpl. rewrite Z.add_0_r. by destruct db as [? ? [? ?] ? ? ?]. }
  destruct ids as [|i ids]; [rewrite <- (IH []) by (simpl; lia); by destruct fuel|]. cbn [chunks]. set (js := i :: ids) in *.
  set (n := Z.to_nat (Z.min (zlen js) pruneChunk)).
  assert (0 < n)%nat as Hn by (subst n js; unfold zlen, pruneChunk; simpl; lia).
  cbn [baselineDelete]. rewrite IH by (rewrite length_drop; subst js; simpl in *; lia).
  assert (forall j, mem_id j js = mem_id j (take n js) || mem_id j (drop n js)) as Hmem.
  { intros j. rewrite <- (take_drop n js) at 1. unfold mem_id. rewrite <- bool_decide_or. apply bool_decide_ext.
    by rewrite elem_of_app. }
  simpl. f_equal. f_equal.
  - unfold countRows, zlen. rewrite <- Z.add_assoc, <- Nat2Z.inj_add. do 2 f_equal.
    etransitivity; [apply (select_split_length (fun r => aged cutoff db r && mem_id (er_id r) (take n js))
      (fun r => aged cutoff db r && mem_id (er_id r) (drop n js)))|].
    f_equal. apply select_ext. intros r _. rewrite Hmem. by destruct (aged cutoff db r).
  - match goal with |- put_evaluations ?l ?d = _ => change (put_evaluations l d) with (put_evaluations l db) end.
    f_equal. rewrite select_select. apply select_ext. intros r _. rewrite Hmem. change (aged cutoff (with_evaluations _ db) r) with (aged cutoff db r).
    destruct (aged cutoff db r), (mem_id _ (take n js)), (mem_id _ (drop n js)); done.
Qed.

(** ** The deletion, declaratively *)

(** [b] has an entry for the cluster that does not list the target. *)
Definition outOfUse (b : PruneBaselines) (clusterID : Z) (target : string) : bool :=
  match b with
  | Some m => match m !! clusterID with
              | Some targets => negb (mem_str target targets)
              | None => false
              end
  | None => false
  end.

Definition notSpared (b : PruneBaselines) (r : evaluationRow) : bool := outOfUse b (er_cluster_id r) (er_target r).

(** Old, not of a latest snapshot, and not a baseline still in use. *)
Definition evaluationGoes (cutoff : Time) (b : PruneBaselines) (db : SQLite) (r : evaluationRow) : bool :=
  aged cutoff db r && (negb (mem_id (er_id r) (baselineIds db)) || notSpared b r).

Definition prunedEvaluations (cutoff : Time) (b : PruneBaselines) (db : SQLite) : SQLite :=
  put_evaluations (select (fun r => negb (evaluationGoes cutoff b db r)) (t_rows (evaluations db))) db.

Definition pruneSpec (cutoff : Time) (b : PruneBaselines) (db : SQLite) : SQLite :=
  let db' := prunedEvaluations cutoff b db in
  put_snapshots (select (fun s => negb (agedSnapshot cutoff db' s)) (t_rows (snapshots db))) db'.

Lemma baselineIds_decided db r :
  NoDup (er_id <$> t_rows (evaluations db)) -> r ∈ t_rows (evaluations db) -> er_id r ∈ baselineIds db -> decided r = true.
Proof.
  intros Hn Hr Hi. apply elem_of_groupMax in Hi as (r' & Hr' & He & _). apply elem_of_select in Hr' as [Hd Hr'].
  by rewrite (row_id_inj (t_rows (evaluations db)) r r').
Qed.

(** The ids of the second step, on a row the first step left. *)
Lemma unspared_spec m db r :
  NoDup (er_id <$> t_rows (evaluations db)) -> r ∈ t_rows (evaluations db) ->
  mem_id (er_id r) (unspared m (baselinePairs db)) = mem_id (er_id r) (baselineIds db) && notSpared (Some m) r.
Proof.
  intros Hn Hr. apply eq_true_iff_eq. rewrite andb_true_iff, !mem_id_spec. unfold unspared.
  rewrite list_elem_of_fmap. split.
  - intros (r' & He & [Hs [Hp Hr']%elem_of_select]%elem_of_select). to_prop.
    rewrite (row_id_inj (t_rows (evaluations db)) r r') by done. by apply mem_id_spec in H0.
  - intros [Hi Hs]. exists r. split; [done|]. apply elem_of_select. split; [exact Hs|].
    apply elem_of_select. split; [|done]. rewrite (baselineIds_decided db r) by done. by apply mem_id_spec.
Qed.

(** What the second step deletes. *)
Definition baselineGoes (cutoff : Time) (b : PruneBaselines) (db : SQLite) (r : evaluationRow) : bool :=
  aged cutoff db r && (mem_id (er_id r) (baselineIds db) && notSpared b r).

Lemma pruneBaselines_spec cutoff m db :
  NoDup (er_id <$> t_rows (evaluations db)) ->
  let p := baselineGoes cutoff (Some m) db in
  pruneBaselines cutoff m db =
    Some (zlen (select p (t_rows (evaluations db))),
          put_evaluations (select (fun r => negb (p r)) (t_rows (evaluations db))) db).
Proof.
  intros Hn p. unfold pruneBaselines. rewrite chunks_spec by done. rewrite Z.add_0_l.
  assert (forall r, r ∈ t_rows (evaluations db) ->
    aged cutoff db r && mem_id (er_id r) (unspared m (baselinePairs db)) = p r) as Hp.
  { intros r Hr. unfold p, baselineGoes. by rewrite unspared_spec. }
  rewrite (select_ext _ p) by done. f_equal. f_equal. f_equal. apply select_ext. intros r Hr. by rewrite Hp.
Qed.

(** The second step, run or skipped. *)
Definition baselineStep (cutoff : Time) (b : PruneBaselines) (db : SQLite) : option (Z * SQLite) :=
  match b with
  | Some m => if 0 <? Z.of_nat (size m) then pruneBaselines cutoff m db else Some (0, db)
  | None => Some (0, db)
  end.

Lemma put_evaluations_id db : put_evaluations (t_rows (evaluations db)) db = db.
Proof. by destruct db as [? ? [? ?] ? ? ?]. Qed.

Lemma baselineStep_spec cutoff b db :
  NoDup (er_id <$> t_rows (evaluations db)) ->
  let p := baselineGoes cutoff b db in
  baselineStep cutoff b db =
    Some (zlen (select p (t_rows (evaluations db))),
          put_evaluations (select (fun r => negb (p r)) (t_rows (evaluations db))) db).
Proof.
  intros Hn p. assert (forall q : evaluationRow -> bool, (forall r, q r = false) ->
    Some (0, db) = Some (zlen (select q (t_rows (evaluations db))),
      put_evaluations (select (fun r => negb (q r)) (t_rows (evaluations db))) db)) as Hskip.
  { intros q Hq. rewrite (proj2 (select_nil q _)) by auto. rewrite select_all by (intros; by rewrite Hq).
    by rewrite put_evaluations_id. }
  destruct b as [m|]; simpl; [|apply Hskip; intros r; unfold p, baselineGoes; by rewrite !andb_false_r].
  destruct (0 <? Z.of_nat (size m)) eqn:E; [by apply pruneBaselines_spec|]. to_prop.
  assert (m = ∅) as -> by (apply map_size_empty_inv; lia).
  apply Hskip. intros r. unfold p, baselineGoes, notSpared, outOfUse. by rewrite lookup_empty, !andb_false_r.
Qed.

Lemma negb_select_length {A} (p : A -> bool) l :
  zlen (select p l) = zlen l - zlen (select (fun r => negb (p r)) l).
Proof.
  unfold zlen. induction l as [|x l IH]; [done|]. unfold select in *. rewrite !filter_cons.
  destruct (p x); repeat case_decide; simpl in *; try congruence; lia.
Qed.

Lemma Prune_spec tuned cutoff b db :
  db_ok db ->
  Prune tuned cutoff b db =
    Some (mkPruneResult (zlen (t_rows (snapshots db)) - zlen (t_rows (snapshots (pruneSpec cutoff b db))))
            (zlen (t_rows (evaluations db)) - zlen (t_rows (evaluations (pruneSpec cutoff b db)))),
          pruneSpec cutoff b db).
Proof.
  intros Hok. destruct (ok_evaluations db Hok) as (Hne & _). destruct (ok_snapshots db Hok) as (Hns & _).
  unfold Prune. rewrite evaluations_drained by done. set (db1 := put_evaluations _ db).
  assert (NoDup (er_id <$> t_rows (evaluations db1))) as Hn1 by (by apply NoDup_select).
  change (match b with Some m => _ | None => _ end) with (baselineStep cutoff b db1).
  rewrite baselineStep_spec by done.
  assert (forall r, r ∈ t_rows (evaluations db) -> mem_id (er_id r) (baselineIds db1) = mem_id (er_id r) (baselineIds db)) as Hb.
  { intros r Hr. apply mem_id_iff, baselineIds_stable; [done|]. intros r' Hr' Hi. unfold agedEvaluation.
    apply mem_id_spec in Hi. rewrite Hi. by rewrite andb_false_r. }
  set (p := baselineGoes cutoff b db1).
  assert (put_evaluations (select (fun r => negb (p r)) (t_rows (evaluations db1))) db1 = prunedEvaluations cutoff b db) as Hdb2.
  { unfold prunedEvaluations, db1. match goal with |- put_evaluations ?l ?d = _ => change (put_evaluations l d) with (put_evaluations l db) end.
    f_equal. simpl. rewrite select_select. apply select_ext. intros r Hr. unfold p, baselineGoes, evaluationGoes, agedEvaluation.
    rewrite Hb by done. change (aged cutoff db1 r) with (aged cutoff db r).
    destruct (aged cutoff db r), (mem_id _ _), (notSpared b r); done. }
  rewrite Hdb2. rewrite snapshots_drained by done. unfold pruneSpec. do 3 f_equal.
  - apply negb_select_length.
  - rewrite (negb_select_length (agedEvaluation cutoff db)), (negb_select_length p).
    apply (f_equal (fun d => zlen (t_rows (evaluations d)))) in Hdb2. simpl in *. lia.
Qed.

(** ** What retention keeps *)

Section Kept.
Context (cutoff : Time) (b : PruneBaselines) (db : SQLite) (Hok : db_ok db).

Lemma latestIds_spec i :
  i ∈ latestIds db <-> exists id s, LatestSnapshot id db = Some s /\ sn_ID s = i.
Proof using Type.
  unfold latestIds. rewrite elem_of_groupMax. unfold LatestSnapshot. split.
  - intros (s & Hs & <- & Hn). exists (sn_ClusterID s), s. split; [|done]. rewrite <- Hn. f_equal.
    apply select_ext. intros s' _. unfold ofCluster. destruct (Z.eqb_spec (sn_ClusterID s') (sn_ClusterID s)) as [E|E];
      symmetry; [by apply bool_decide_eq_true|by apply bool_decide_eq_false].
  - intros (id & s & Hn & <-). exists s. pose proof Hn as [[Hp Hs]%elem_of_select _]%newest_Some.
    unfold ofCluster in Hp. apply Z.eqb_eq in Hp. split_and!; [done..|]. rewrite <- Hn. f_equal. apply select_ext.
    intros s' _. unfold ofCluster. rewrite <- Hp. destruct (Z.eqb_spec (sn_ClusterID s') (sn_ClusterID s)) as [E|E];
      [by apply bool_decide_eq_true|by apply bool_decide_eq_false].
Qed.

Lemma prune_LatestSnapshot id : LatestSnapshot id (pruneSpec cutoff b db) = LatestSnapshot id db.
Proof using Hok.
  destruct (LatestSnapshot id db) as [s|] eqn:E.
  - apply (newest_survives (ofCluster id)); [apply Hok|exact E|]. apply negb_true_iff. unfold agedSnapshot.
    assert (mem_id (sn_ID s) (latestIds db) = true) as Hl by (apply mem_id_spec, latestIds_spec; eauto).
    change (latestIds (prunedEvaluations cutoff b db)) with (latestIds db). rewrite Hl. simpl. by rewrite andb_false_r.
  - apply newest_None in E. apply newest_None. apply select_nil. intros s [_ Hs]%elem_of_select.
    by apply (proj1 (select_nil _ _) E).
Qed.

Lemma prune_snapshotEvaluation snapID target :
  snapID ∈ latestIds db ->
  snapshotEvaluation snapID target (pruneSpec cutoff b db) = snapshotEvaluation snapID target db.
Proof using Type.
  intros Hl. unfold snapshotEvaluation. simpl. f_equal. rewrite select_select. apply select_ext. intros r Hr.
  destruct (er_snapshot_id r =? snapID) eqn:E; simpl; [|done]. apply Z.eqb_eq in E. subst.
  unfold evaluationGoes, aged. apply mem_id_spec in Hl. rewrite Hl. rewrite andb_false_r. simpl. apply andb_true_r.
Qed.

Lemma prune_CurrentEvaluation id target :
  CurrentEvaluation id target (pruneSpec cutoff b db) = CurrentEvaluation id target db.
Proof using Hok.
  pose proof (prune_LatestSnapshot id) as Hs. unfold CurrentEvaluation, maxId. unfold LatestSnapshot in Hs.
  rewrite Hs. destruct (newest (select (ofCluster id) (t_rows (snapshots db)))) as [s|] eqn:E; [|done]. simpl. f_equal. apply prune_snapshotEvaluation.
  apply latestIds_spec. exists id, s. done.
Qed.

Lemma latestKnown_baseline id target r : latestKnown id target db = Some r -> er_id r ∈ baselineIds db.
Proof using Type.
  intros Hn. apply elem_of_groupMax. exists r. pose proof Hn as [[Hp Hr]%elem_of_select _]%newest_Some.
  unfold evaluationOf in Hp. to_prop. split_and!; [by apply elem_of_select|done|]. rewrite <- Hn. unfold latestKnown.
  rewrite select_select. f_equal. apply select_ext. intros r' _. f_equal. unfold pairOf, evaluationOf.
  apply eq_true_iff_eq. rewrite bool_decide_eq_true, andb_true_iff, Z.eqb_eq, String.eqb_eq. subst.
  split; [by intros [= -> ->]|by intros [-> ->]].
Qed.

Lemma prune_LatestKnown id target :
  outOfUse b id target = false ->
  latestKnown id target (pruneSpec cutoff b db) = latestKnown id target db.
Proof using Hok.
  intros Hu. destruct (latestKnown id target db) as [r|] eqn:E.
  - apply (newest_survives (fun r => evaluationOf id target r && decided r)); [apply Hok|exact E|].
    apply negb_true_iff. unfold evaluationGoes. pose proof (latestKnown_baseline _ _ _ E) as Hi.
    apply mem_id_spec in Hi. rewrite Hi. apply newest_Some in E as [[Hp _]%elem_of_select _].
    unfold evaluationOf in Hp. to_prop. unfold notSpared. subst. rewrite Hu. apply andb_false_r.
  - apply newest_None in E. apply newest_None. apply select_nil. intros r [_ Hr]%elem_of_select.
    by apply (proj1 (select_nil _ _) E).
Qed.

Lemma prune_ok : db_ok (pruneSpec cutoff b db).
Proof using Hok.
  split; simpl; try apply Hok.
  - exact (ids_ok_delete (agedSnapshot cutoff (prunedEvaluations cutoff b db)) (snapshots db) (ok_snapshots db Hok)).
  - exact (ids_ok_delete (evaluationGoes cutoff b db) (evaluations db) (ok_evaluations db Hok)).
  - intros s [_ Hs]%elem_of_select. by apply Hok.
  - intros r Hr. pose proof Hr as [_ Hin]%elem_of_select.
    destruct (ok_evaluation_snapshot db Hok r Hin) as (s & Hs & Hi & Hc). exists s. split; [|done].
    apply elem_of_select. split; [|done]. apply negb_true_iff. unfold agedSnapshot. simpl.
    replace (existsb _ _) with true; [apply andb_false_r|]. symmetry. apply existsb_elem. exists r. split; [done|].
    by apply Z.eqb_eq.
Qed.
End Kept.

(** C7 The batched retention run deletes exactly what one declarative deletion would: every batch size gives the
    database of [pruneSpec], the run always ends, and its counts are the rows that are gone. *)
Theorem Prune_refines (tuned : Z) (cutoff : Time) (b : PruneBaselines) (db : SQLite) :
  db_ok db ->
  exists res, Prune tuned cutoff b db = Some (res, pruneSpec cutoff b db) /\
    pr_Evaluations res = zlen (t_rows (evaluations db)) - zlen (t_rows (evaluations (pruneSpec cutoff b db))) /\
    pr_Snapshots res = zlen (t_rows (snapshots db)) - zlen (t_rows (snapshots (pruneSpec cutoff b db))).
Proof. intros Hok. eexists. by rewrite (Prune_spec tuned cutoff b db Hok). Qed.

Lemma Prune_refines_witness :
  exists res, Prune 1 (100 * day) (Some {[1 := ["1.36"%string]]}) exampleDB =
    Some (res, pruneSpec (100 * day) (Some {[1 := ["1.36"%string]]}) exampleDB) /\
    pr_Evaluations res = 2 /\ pr_Snapshots res = 2.
Proof. exact (Prune_refines 1 (100 * day) (Some {[1 := ["1.36"%string]]}) exampleDB exampleDB_ok). Defined.

(** C22 Retention never changes what the server answers now: a cluster's latest snapshot, its current evaluation of
    every target and, for every target still in use, its notification baseline are read as before, and so are the
    clusters, the outbox and the tokens; and an evaluation that is gone was created before the cutoff. *)
Theorem Prune_keeps_reads (tuned : Z) (cutoff : Time) (b : PruneBaselines) (db db' : SQLite) (res : PruneResult) :
  db_ok db -> Prune tuned cutoff b db = Some (res, db') ->
  db_ok db' /\
  (forall id, LatestSnapshot id db' = LatestSnapshot id db) /\
  (forall id target, CurrentEvaluation id target db' = CurrentEvaluation id target db) /\
  (forall id target, outOfUse b id target = false ->
     LatestKnownEvaluation id target db' = LatestKnownEvaluation id target db) /\
  clusters db' = clusters db /\ outbox db' = outbox db /\ tokens db' = tokens db /\ read_tokens db' = read_tokens db /\
  (forall r, r ∈ t_rows (evaluations db) -> r ∉ t_rows (evaluations db') -> er_created_at r < cutoff) /\
  (forall s, s ∈ t_rows (snapshots db) -> s ∉ t_rows (snapshots db') -> sn_ReceivedAt s < cutoff).
Proof.
  intros Hok Hp. rewrite (Prune_spec tuned cutoff b db Hok) in Hp. injection Hp as _ <-.
  split_and!; [by apply prune_ok|intros; by apply prune_LatestSnapshot|intros; by apply prune_CurrentEvaluation| |done..| |].
  - intros id target Hu. unfold LatestKnownEvaluation. by rewrite prune_LatestKnown.
  - intros r Hr Hn. destruct (evaluationGoes cutoff b db r) eqn:E.
    + unfold evaluationGoes, aged in E. to_prop. done.
    + destruct Hn. apply elem_of_select. split; [by rewrite E|done].
  - intros s Hs Hn. destruct (agedSnapshot cutoff (prunedEvaluations cutoff b db) s) eqn:E.
    + unfold agedSnapshot in E. to_prop. done.
    + destruct Hn. apply elem_of_select. split; [by rewrite E|done].
Qed.

Lemma Prune_keeps_reads_witness :
  exists res db', Prune 1 (100 * day) None exampleDB = Some (res, db') /\
    zlen (t_rows (evaluations db')) = 2 /\
    LatestKnownEvaluation 1 "1.35" db' = LatestKnownEvaluation 1 "1.35" exampleDB.
Proof.
  destruct (Prune 1 (100 * day) None exampleDB) as [[res db']|] eqn:E; [|by vm_compute in E].
  exists res, db'. split; [done|]. split.
  - clear -E. vm_compute in E. by injection E as _ <-.
  - by apply (Prune_keeps_reads 1 (100 * day) None exampleDB db' res exampleDB_ok E).
Defined.
