(* ===== verification/StoreSpec.v ===== *)
(** * What the store promises

    The contract of store.go's Store interface, proved of the operations: a
    database only ever moves through well-formed states, a cluster's name stays
    bound to its UID, a pass is committed whole or not at all and only against
    the state it was computed from, and a revoked token commits nothing. *)

From stdpp Require Import base list strings gmap sorting.
From Stdlib Require Import ZArith Lia Ascii.
From S2P Require Import Prelude GoStr GoTime GoSha Version Inventory KB Findings Heads Notify Db Store StoreInv Prune.

(** ** The operations of a running server *)

Inductive operation :=
| OpUpsertCluster (now : Time) (c : Cluster)
| OpDeleteCluster (name : string)
| OpRenameCluster (name newName : string)
| OpCommitEvaluations (now : Time) (b : EvaluationBatch)
| OpPrune (tuned : Z) (cutoff : Time) (b : PruneBaselines)
| OpClaimOutbox (now : Time) (lease limit : Z)
| OpDeleteOutbox (id : Z)
| OpRescheduleOutbox (id : Z) (next : Time) (lastErr : string)
| OpDeferOutbox (id : Z) (next : Time)
| OpCreateToken (now : Time) (clusterName token : string)
| OpRevokeTokenID (now : Time) (clusterName : string) (id : Z)
| OpRevokeToken (now : Time) (clusterName : string)
| OpCreateReadToken (now : Time) (teams : list string) (token : string)
| OpRevokeReadToken (now : Time) (id : Z)
| OpInsertSnapshot (now : Time) (s : Snapshot)
| OpInsertEvaluation (now : Time) (e : Evaluation).

(** The database an operation leaves: the one it commits, or the one it found. *)
Definition run (o : operation) (db : SQLite) : SQLite :=
  match o with
  | OpUpsertCluster now c => commit (UpsertCluster now c) db
  | OpDeleteCluster name => commit (DeleteCluster name) db
  | OpRenameCluster name newName => commit (RenameCluster name newName) db
  | OpCommitEvaluations now b => commit (CommitEvaluations now b) db
  | OpPrune tuned cutoff b => match Prune tuned cutoff b db with Some (_, db') => db' | None => db end
  | OpClaimOutbox now lease limit => commit (ClaimOutbox now lease limit) db
  | OpDeleteOutbox id => commit (DeleteOutbox id) db
  | OpRescheduleOutbox id next lastErr => commit (RescheduleOutbox id next lastErr) db
  | OpDeferOutbox id next => commit (DeferOutbox id next) db
  | OpCreateToken now clusterName token => commit (CreateToken now clusterName token) db
  | OpRevokeTokenID now clusterName id => commit (RevokeTokenID now clusterName id) db
  | OpRevokeToken now clusterName => commit (RevokeToken now clusterName) db
  | OpCreateReadToken now teams token => commit (CreateReadToken now teams token) db
  | OpRevokeReadToken now id => commit (RevokeReadToken now id) db
  | OpInsertSnapshot now s => commit (InsertSnapshot now s) db
  | OpInsertEvaluation now e => commit (InsertEvaluation now e) db
  end.

(** What an operation asks of its caller. The schema checks that the cluster
    and the snapshot of an inserted evaluation exist, and nothing checks
    that the snapshot is that cluster's: [InsertEvaluation] leaves that to its
    callers, which are tests; the server writes evaluations by a commit. *)
Definition allowed (o : operation) (db : SQLite) : Prop :=
  match o with
  | OpInsertEvaluation _ e => exists s, s ∈ t_rows (snapshots db) /\ sn_ID s = e_SnapshotID e /\ sn_ClusterID s = e_ClusterID e
  | _ => True
  end.

Inductive step : SQLite -> SQLite -> Prop :=
| step_run o db : allowed o db -> step db (run o db).

Definition reachable (db : SQLite) : Prop := rtc step migrated db.

Lemma InsertEvaluation_ok now e db : allowed (OpInsertEvaluation now e) db -> db_ok db -> db_ok (commit (InsertEvaluation now e) db).
Proof.
  intros Ha Hok. unfold commit. destruct (InsertEvaluation now e db) as [[id db']|] eqn:E; [|done].
  apply (insertEvaluation_ok now (e_ClusterID e) (e_SnapshotID e) e db id db'); [by split|by destruct e].
Qed.

Lemma step_ok db db' : step db db' -> db_ok db -> db_ok db'.
Proof.
  intros [o d Ha] Hok. destruct o; simpl in *; lazymatch goal with |- context [InsertEvaluation] => idtac | _ => try (apply keeps_commit; [|done]) end.
  - apply upsertCluster_ok.
  - apply DeleteCluster_ok.
  - apply RenameCluster_ok.
  - apply CommitEvaluations_ok.
  - rewrite Prune_spec by done. by apply prune_ok.
  - apply ClaimOutbox_ok.
  - apply DeleteOutbox_ok.
  - apply RescheduleOutbox_ok.
  - apply DeferOutbox_ok.
  - apply CreateToken_ok.
  - apply revoke_ok.
  - apply revoke_ok.
  - apply CreateReadToken_ok.
  - apply RevokeReadToken_ok.
  - apply keeps_wrap, CommitEvaluations_ok.
  - by apply InsertEvaluation_ok.
Qed.

Lemma steps_ok db db' : rtc step db db' -> db_ok db -> db_ok db'.
Proof. induction 1; eauto using step_ok. Qed.

(** C8 Every database a server reaches from a fresh one through any sequence of store operations, failing ones
    included, is well formed: ids are distinct and within their sequence, cluster names and token hashes unique, and
    every evaluation is of a stored snapshot of its own registered cluster. A direct [InsertEvaluation], which the
    server never makes, is taken with the snapshot its caller owes it, one of the cluster it names ([allowed]);
    every other operation with any arguments. *)
Theorem reachable_db_ok (db : SQLite) : reachable db -> db_ok db.
Proof. intros Hr. eapply steps_ok; [exact Hr|]. apply migrated_ok. Qed.

Lemma reachable_db_ok_witness : db_ok (run (OpDeleteCluster "prod") exampleDB) /\ t_rows (snapshots exampleDB) <> [].
Proof.
  split; [|by vm_compute].
  apply reachable_db_ok. unfold reachable, exampleDB, pushed.
  eapply rtc_l; [exact (step_run (OpCommitEvaluations day (examplePush "prod" "h1" "1.35" true 0 day)) migrated I)|].
  eapply rtc_l; [exact (step_run (OpCommitEvaluations (2 * day) (examplePush "prod" "h2" "1.35" false 0 (2 * day))) _ I)|].
  eapply rtc_l; [exact (step_run (OpCommitEvaluations (3 * day) (examplePush "prod" "h3" "1.36" true 0 (3 * day))) _ I)|].
  eapply rtc_l; [exact (step_run (OpDeleteCluster "prod") _ I)|]. apply rtc_refl.
Defined.

(** ** Statements that leave a table alone *)

Definition stays {B A} (get : SQLite -> B) (m : stx A) : Prop :=
  forall db a db', m db = Done (a, db') -> get db' = get db.

Section Stays.
Context {B : Type} (get : SQLite -> B).

Lemma stays_reads {A} (m : stx A) : reads_only m -> stays get m.
Proof. intros Hm db a db' ->%Hm. done. Qed.

Lemma stays_bind {A C} (m : stx A) (k : A -> stx C) :
  stays get m -> (forall a, stays get (k a)) -> stays get (m ≫= k).
Proof. intros Hm Hk db c db' (a & db1 & H & H')%bind_Done. apply Hk in H' as ->. by apply Hm in H. Qed.

Lemma stays_each {A} (f : A -> stx unit) l : (forall x, stays get (f x)) -> stays get (each f l).
Proof. intros Hf. induction l; simpl; [by apply stays_reads, reads_ret|]. by apply stays_bind. Qed.

Lemma stays_change f : (forall db, get (f db) = get db) -> stays get (change f).
Proof. intros Hf db a db' H. injection H as _ <-. done. Qed.

Lemma stays_execOne {C} what (t : SQLite -> table C) p f : (forall db, get (f db) = get db) -> stays get (execOne what t p f).
Proof.
  intros Hf. apply stays_bind; [by apply stays_reads, reads_ask|]. intros n.
  apply stays_bind; [by apply stays_reads, reads_guard|]. intros _. by apply stays_change.
Qed.

Lemma stays_commit {A} (m : stx A) db : stays get m -> get (commit m db) = get db.
Proof. intros Hm. unfold commit. destruct (m db) as [[a db']|] eqn:E; [by apply Hm in E|done]. Qed.
End Stays.

#[export] Hint Resolve stays_reads stays_bind stays_each stays_change stays_execOne : go.

Lemma upsertCluster_stays {B} (get : SQLite -> B) now c :
  (forall t db, get (with_clusters t db) = get db) -> stays get (upsertCluster now c).
Proof.
  intros Hg db id db' H. unfold upsertCluster in H.
  apply bind_Done in H as (found & db1 & Ha & H). injection Ha as <- <-.
  destruct (ClusterByName _ _).
  - destruct (_ || _); [|done]. apply bind_Done in H as ([] & db1 & Hc & H). injection Hc as <-. injection H as _ <-. apply Hg.
  - injection H as _ <-. apply Hg.
Qed.

Lemma batchCluster_stays {B} (get : SQLite -> B) now b :
  (forall t db, get (with_clusters t db) = get db) -> stays get (batchCluster now b).
Proof.
  intros Hg. unfold batchCluster. destruct (b_Cluster b) as [c|]; [|auto with go].
  apply stays_bind; [by apply upsertCluster_stays|]. intros id.
  apply stays_bind; [apply stays_reads, recheckPush_reads|auto with go].
Qed.

Lemma insertEvaluation_stays {B} (get : SQLite -> B) now e :
  (forall t db, get (with_evaluations t db) = get db) -> stays get (insertEvaluation now e).
Proof.
  intros Hg db id db' H. unfold insertEvaluation in H. destruct (existsb _ _ && existsb _ _); [|done]. injection H as _ <-. apply Hg.
Qed.

Lemma writePass_stays {B} (get : SQLite -> B) now b clusterID snapID :
  (forall t db, get (with_evaluations t db) = get db) -> (forall t db, get (with_outbox t db) = get db) ->
  stays get (writePass now b clusterID snapID).
Proof.
  intros He Ho. apply stays_bind; [|intros _; apply stays_bind; [|intros _]]; apply stays_each; intros x.
  - apply stays_bind; [by apply insertEvaluation_stays|auto with go].
  - by apply stays_execOne.
  - by apply stays_change.
Qed.

(** ** How a table may change *)

(** Ids are never reused, and a row that stays is related to what it was. *)
Definition evolves {A} `{Row A} (R : A -> A -> Prop) (t t' : table A) : Prop :=
  t_seq t <= t_seq t' /\
  forall r', r' ∈ t_rows t' -> row_id r' <= t_seq t -> exists r, r ∈ t_rows t /\ row_id r = row_id r' /\ R r r'.

Section Evolves.
Context {A : Type} `{Row A} (R : A -> A -> Prop) `{!PreOrder R}.

Lemma evolves_refl t : evolves R t t.
Proof using PreOrder0. split; [done|]. intros r' Hr' _. by exists r'. Qed.

Lemma evolves_trans t1 t2 t3 : evolves R t1 t2 -> evolves R t2 t3 -> evolves R t1 t3.
Proof using PreOrder0.
  intros [Hs1 H1] [Hs2 H2]. split; [lia|]. intros c3 Hc3 Hle.
  destruct (H2 c3 Hc3) as (c2 & Hc2 & Hi2 & Hu2); [lia|]. destruct (H1 c2 Hc2) as (c1 & Hc1 & Hi1 & Hu1); [lia|].
  exists c1. split_and!; [done|lia|]. by transitivity c2.
Qed.

Lemma evolves_update p f t :
  (forall c, row_id (f c) = row_id c) -> (forall c, c ∈ t_rows t -> p c = true -> R c (f c)) ->
  evolves R t (updateRows p f t).
Proof using PreOrder0.
  intros Hid Hu. split; [done|]. intros c' (c & Hc & ->)%elem_of_update _. exists c.
  destruct (p c) eqn:E; [rewrite Hid; auto|by auto].
Qed.

Lemma evolves_delete p t : evolves R t (deleteRows p t).
Proof using PreOrder0. split; [done|]. intros c' [_ Hc]%elem_of_delete _. by exists c'. Qed.

Lemma evolves_insert mk t : (forall i, row_id (mk i) = i) -> evolves R t (insertRow mk t).2.
Proof using PreOrder0.
  intros Hmk. split; [simpl; lia|]. intros c' [Hc| ->]%elem_of_insert Hle; [by exists c'|]. rewrite Hmk in Hle. lia.
Qed.

Context (get : SQLite -> table A).

Definition grows {B} (m : stx B) : Prop :=
  forall db a db', db_ok db -> m db = Done (a, db') -> evolves R (get db) (get db').

Lemma grows_stays {B} (m : stx B) : stays get m -> grows m.
Proof using PreOrder0. intros Hm db a db' _ ->%Hm. apply evolves_refl. Qed.

Lemma grows_commit {B} (m : stx B) db : grows m -> db_ok db -> evolves R (get db) (get (commit m db)).
Proof using PreOrder0. intros Hm Hok. unfold commit. destruct (m db) as [[a db']|] eqn:E; [eauto|apply evolves_refl]. Qed.

Lemma grows_wrap {B} prefix (m : stx B) : grows m -> grows (wrapTx prefix m).
Proof. intros Hm db a db' Hok H'%wrap_Done. eauto. Qed.

Lemma grows_execOne {C} what (t : SQLite -> table C) p f :
  (forall db, evolves R (get db) (get (f db))) -> grows (execOne what t p f).
Proof.
  intros Hf db a db' _ (n & db1 & ->%reads_ask & H2)%bind_Done.
  apply bind_Done in H2 as ([] & db2 & ->%reads_guard & H2). injection H2 as _ <-. auto.
Qed.

Lemma steps_evolve db db' :
  (forall o db, db_ok db -> evolves R (get db) (get (run o db))) ->
  rtc step db db' -> db_ok db -> evolves R (get db) (get db').
Proof using PreOrder0.
  intros Hrun. induction 1 as [|x y z Hs Hr IH]; [by intros; apply evolves_refl|]. intros Hok.
  eapply evolves_trans; [|apply IH; by eapply step_ok]. destruct Hs. by apply Hrun.
Qed.
End Evolves.

(** ** A name's UID *)

Definition uidKept (c c' : Cluster) : Prop := c_ClusterUID c <> "" -> c_ClusterUID c' = c_ClusterUID c.

#[global] Instance uidKept_preorder : PreOrder uidKept.
Proof. split; [by intros c ?|]. intros c1 c2 c3 H1 H2 Hne. unfold uidKept in *. rewrite H2, H1; rewrite ?H1; done. Qed.

Abbreviation bound := (grows uidKept clusters) (only parsing).

Lemma upsertCluster_grows now c : bound (upsertCluster now c).
Proof.
  intros db id db' Hok H. unfold upsertCluster in H.
  apply bind_Done in H as (found & db1 & Ha & H). injection Ha as <- <-.
  destruct (ClusterByName (c_Name c) db) as [r|] eqn:E.
  - destruct (_ || _) eqn:Eg; [|done]. apply bind_Done in H as ([] & db1 & Hc & H). injection Hc as <-. injection H as _ <-.
    apply ClusterByName_Some in E as [Hn Hr].
    apply (evolves_update uidKept (byName (c_Name c)) (fun r => mkCluster (c_ID r) (c_Name r)
      (if c_ClusterUID c =s "" then c_ClusterUID r else c_ClusterUID c) (c_FirstSeen r) _)); [done|].
    intros x Hin Hx%byName_spec Hne. simpl. apply orb_true_iff in Eg. rewrite !String.eqb_eq in Eg.
    assert (x = r) as -> by (apply (col_unique c_Name (t_rows (clusters db))); [apply Hok|done..|congruence]).
    destruct (c_ClusterUID c =s "") eqn:Eu; [done|]. to_prop. destruct Eg; congruence.
  - injection H as _ <-. by apply (evolves_insert uidKept (fun i => mkCluster i _ _ _ _)).
Qed.

Lemma DeleteCluster_grows name : bound (DeleteCluster name).
Proof. intros db u db' _ (c & _ & ->)%DeleteCluster_Done. apply (evolves_delete uidKept). Qed.

Lemma RenameCluster_grows name newName : bound (RenameCluster name newName).
Proof. intros db u db' _ (c & _ & -> & _)%RenameCluster_Done. by apply (evolves_update uidKept). Qed.

Lemma batchCluster_grows now b : bound (batchCluster now b).
Proof.
  unfold batchCluster. destruct (b_Cluster b) as [c|]; [|apply (grows_stays uidKept clusters); auto with go].
  intros db id db' Hok H. apply bind_Done in H as (i & db1 & Hu & H).
  apply bind_Done in H as ([] & db2 & ->%recheckPush_reads & H). injection H as _ <-.
  by apply upsertCluster_grows in Hu.
Qed.

Lemma passOf_stays {B} (get : SQLite -> B) now b clusterID :
  (forall t db, get (with_snapshots t db) = get db) -> (forall t db, get (with_evaluations t db) = get db) ->
  (forall t db, get (with_outbox t db) = get db) -> stays get (passOf now b clusterID).
Proof.
  intros Hs He Ho. apply stays_bind; [auto with go|]. intros latest.
  destruct (b_Snapshot b) as [s|]; [destruct (isDuplicate latest s)|].
  - apply stays_bind; auto with go.
  - apply stays_bind; [apply stays_reads, checkExpectation_reads|]. intros _. apply stays_bind.
    + intros db i db' H. unfold insertSnapshotRow in H. destruct (existsb _ _); [|done]. injection H as _ <-. apply Hs.
    + intros i. apply stays_bind; [by apply writePass_stays|auto with go].
  - apply stays_bind; [auto with go|]. intros _. apply stays_bind; [apply stays_each; intros w; apply stays_reads, checkCurrent_reads|].
    intros _. apply stays_bind; [apply stays_reads, checkExpectation_reads|]. intros _.
    apply stays_bind; [by apply writePass_stays|auto with go].
Qed.

Lemma commitPass_grows now b : bound (commitPass now b).
Proof.
  intros db r db' Hok H. apply bind_Done in H as (id & db1 & Hb & H).
  apply (passOf_stays clusters) in H as ->; [|done..]. by apply batchCluster_grows in Hb.
Qed.

Lemma run_bound o db : db_ok db -> evolves uidKept (clusters db) (clusters (run o db)).
Proof.
  intros Hok. destruct o; cbn [run]; try (apply (grows_commit uidKept clusters); [|done]).
  - apply upsertCluster_grows.
  - apply DeleteCluster_grows.
  - apply RenameCluster_grows.
  - apply grows_wrap, commitPass_grows.
  - rewrite Prune_spec by done. apply (evolves_refl uidKept).
  - apply (grows_stays uidKept clusters). intros x a x' H. by injection H as _ <-.
  - apply (grows_stays uidKept clusters). by apply stays_execOne.
  - apply (grows_stays uidKept clusters). by apply stays_execOne.
  - apply (grows_stays uidKept clusters). by apply stays_execOne.
  - apply (grows_stays uidKept clusters). intros x a x' H. unfold CreateToken in H. destruct (_ || _); [done|].
    destruct (existsb _ _); [done|]. by injection H as _ <-.
  - apply (grows_stays uidKept clusters). by apply stays_execOne.
  - apply (grows_stays uidKept clusters). by apply stays_execOne.
  - apply (grows_stays uidKept clusters). intros x a x' H. unfold CreateReadToken in H. destruct (_ =s _); [done|].
    destruct (readTokenTeams teams); [|done]. destruct (existsb _ _); [done|]. by injection H as _ <-.
  - apply (grows_stays uidKept clusters). by apply stays_execOne.
  - apply grows_wrap, grows_wrap, commitPass_grows.
  - by apply (grows_stays uidKept clusters), insertEvaluation_stays.
Qed.

Lemma upsertCluster_refuses now c db r :
  db_ok db -> r ∈ t_rows (clusters db) -> c_Name r = c_Name c -> c_ClusterUID r <> "" -> c_ClusterUID r <> c_ClusterUID c ->
  upsertCluster now c db = Failed (mkError (ErrClusterUIDConflict (c_Name c) (c_ClusterUID r) (c_ClusterUID c)) "").
Proof.
  intros Hok Hr Hn Hne Hd. unfold upsertCluster, mbind, tx_bind, ask.
  rewrite (proj2 (ClusterByName_iff (c_Name c) db r Hok)) by done.
  apply String.eqb_neq in Hne, Hd. by rewrite Hne, Hd.
Qed.

(** C24 A cluster stays the cluster it was bound as: whatever the server does after a name was bound to a UID, the row
    of that id keeps the UID for as long as it exists, and a push under its name with another UID, or with none, is
    refused and writes nothing. *)
Theorem cluster_uid_bound (db db' : SQLite) (c : Cluster) (c' : Cluster) (now : Time) (b : EvaluationBatch) (p : Cluster) :
  db_ok db -> rtc step db db' -> c ∈ t_rows (clusters db) -> c_ClusterUID c <> "" ->
  c' ∈ t_rows (clusters db') -> c_ID c' = c_ID c ->
  c_ClusterUID c' = c_ClusterUID c /\
  (b_Cluster b = Some p -> c_Name p = c_Name c' -> c_ClusterUID p <> c_ClusterUID c ->
   exists what, CommitEvaluations now b db' =
     Failed (mkError (ErrClusterUIDConflict (c_Name p) (c_ClusterUID c) (c_ClusterUID p)) what)).
Proof.
  intros Hok Hsteps Hc Hne Hc' Hid. destruct (steps_evolve uidKept clusters db db' run_bound Hsteps Hok) as [_ Hev].
  destruct (ok_clusters db Hok) as (Hn & _ & Hle).
  unfold row_id, Cluster_row in Hev. destruct (Hev c' Hc') as (c0 & Hc0 & Hid0 & Hu); [rewrite Hid; by apply Hle|].
  assert (c0 = c) as -> by (apply (row_id_inj (t_rows (clusters db))); [done..|]; unfold row_id, Cluster_row; congruence).
  specialize (Hu Hne). split; [done|]. intros Hb Hnm Hpu. eexists.
  unfold CommitEvaluations, wrapTx, commitPass, batchCluster. rewrite Hb. unfold mbind, tx_bind.
  rewrite (upsertCluster_refuses now p db' c'); [by rewrite Hu|by eapply steps_ok|done|done|congruence..].
Qed.

Lemma cluster_uid_bound_witness :
  exists what, CommitEvaluations (9 * day) (mkBatch (Some (mkCluster 0 "prod" "" zeroTime (9 * day))) 0 "" None 0 ∅ [] [] [] None)
      (run (OpRenameCluster "other" "x") exampleDB) =
    Failed (mkError (ErrClusterUIDConflict "prod" "uid-1" "") what).
Proof.
  assert (exists c, c ∈ t_rows (clusters exampleDB) /\ c_ID c = 1 /\ c_Name c = "prod" /\ c_ClusterUID c = "uid-1") as (c & Hc & Hi & Hn & Hu).
  { exists (mkCluster 1 "prod" "uid-1" day (3 * day)). split; [|done]. vm_compute. by left. }
  destruct (cluster_uid_bound exampleDB (run (OpRenameCluster "other" "x") exampleDB) c c (9 * day)
    (mkBatch (Some (mkCluster 0 "prod" "" zeroTime (9 * day))) 0 "" None 0 ∅ [] [] [] None)
    (mkCluster 0 "prod" "" zeroTime (9 * day))) as [_ H].
  - apply exampleDB_ok.
  - by apply rtc_once, step_run.
  - done.
  - rewrite Hu. discriminate.
  - replace (clusters (run (OpRenameCluster "other" "x") exampleDB)) with (clusters exampleDB) by (by vm_compute). done.
  - done.
  - rewrite <- Hu. apply H; [done|by rewrite Hn|by rewrite Hu].
Defined.

(** ** What a commit writes *)

Fixpoint newRows (now : Time) (clusterID snapID seq : Z) (es : list Evaluation) : list evaluationRow :=
  match es with
  | [] => []
  | e :: es' => storedRow now (placed clusterID snapID e) (seq + 1) :: newRows now clusterID snapID (seq + 1) es'
  end.

Lemma newRows_elem now clusterID snapID seq es r :
  r ∈ newRows now clusterID snapID seq es ->
  exists e i, e ∈ es /\ r = storedRow now (placed clusterID snapID e) i /\ seq < i.
Proof.
  revert seq. induction es as [|e es IH]; intros seq; simpl; [by intros ?%not_elem_of_nil|].
  intros [->|Hr]%elem_of_cons; [exists e, (seq + 1); split_and!; [by left|done|lia]|].
  apply IH in Hr as (e' & i & He & -> & Hi). exists e', i. split_and!; [by right|done|lia].
Qed.

Lemma newRows_all now clusterID snapID seq es e :
  e ∈ es -> exists i, storedRow now (placed clusterID snapID e) i ∈ newRows now clusterID snapID seq es /\ seq < i.
Proof.
  revert seq. induction es as [|x es IH]; intros seq He; [by apply not_elem_of_nil in He|]. simpl.
  apply elem_of_cons in He as [->|He]; [exists (seq + 1); split; [by left|lia]|].
  destruct (IH (seq + 1) He) as (i & Hi & Hlt). exists i. split; [by right|lia].
Qed.

Lemma inserts_spec now clusterID snapID es db db' :
  each (fun e => insertEvaluation now (placed clusterID snapID e) ;; mret tt) es db = Done (tt, db') ->
  db' = with_evaluations (mkTable (t_rows (evaluations db) ++ newRows now clusterID snapID (t_seq (evaluations db)) es)
                            (t_seq (evaluations db) + zlen es)) db.
Proof.
  revert db. induction es as [|e es IH]; intros db; simpl.
  - intros [= <-]. rewrite app_nil_r. unfold zlen. simpl. rewrite Z.add_0_r. by destruct db as [? ? [? ?] ? ? ?].
  - intros ([] & db1 & H1 & H2)%bind_Done. apply bind_Done in H1 as (i & db0 & Hi & H1). injection H1 as <-.
    unfold insertEvaluation in Hi. destruct (existsb _ _ && existsb _ _); [|done]. injection Hi as _ <-.
    apply IH in H2 as ->. unfold with_evaluations. simpl. rewrite <- app_assoc. unfold zlen. simpl.
    do 2 f_equal. lia.
Qed.

(** A refresh keeps a row's identity, verdict score and history point, and
    leaves the other rows alone. *)
Definition same_point (r r' : evaluationRow) : Prop :=
  er_id r' = er_id r /\ er_cluster_id r' = er_cluster_id r /\ er_snapshot_id r' = er_snapshot_id r /\
  er_target r' = er_target r /\ er_score r' = er_score r /\ er_ready r' = er_ready r /\ er_created_at r' = er_created_at r.

Lemma refreshes_spec now clusterID es db db' :
  each (refreshEvaluation now clusterID) es db = Done (tt, db') ->
  exists g, db' = with_evaluations (mkTable (map g (t_rows (evaluations db))) (t_seq (evaluations db))) db /\
    (forall r, same_point r (g r)) /\ (forall r, er_id r ∉ e_ID <$> es -> g r = r).
Proof.
  revert db. induction es as [|e es IH]; intros db; simpl.
  - intros [= <-]. exists id. split_and!; [|done..]. rewrite map_id. by destruct db as [? ? [? ?] ? ? ?].
  - intros ([] & db1 & H1 & H2)%bind_Done. unfold refreshEvaluation, execOne in H1.
    apply bind_Done in H1 as (n & db0 & ->%reads_ask & H1).
    apply bind_Done in H1 as ([] & db0 & ->%reads_guard & H1). injection H1 as <-.
    apply IH in H2 as (g & -> & Hg & Hid).
    set (p := fun r => (er_id r =? e_ID e) && (er_cluster_id r =? clusterID)).
    exists (fun r => g (if p r then refreshed now e r else r)). split_and!.
    + simpl. by rewrite map_map.
    + intros r. specialize (Hg (if p r then refreshed now e r else r)). by destruct (p r).
    + intros r Hr. apply not_elem_of_cons in Hr as [He Hr]. unfold p.
      rewrite (proj2 (Z.eqb_neq _ _) He). by apply Hid.
Qed.

(** The row of the message a pass queues as its [k]th, from 0. *)
Definition queuedRow (now : Time) (clusterID seq : Z) (k : nat) (m : OutboxMessage) : outboxRow :=
  let created := if m_CreatedAt m =? zeroTime then now else m_CreatedAt m in
  let next := if m_NextAttemptAt m =? zeroTime then created else m_NextAttemptAt m in
  mkOutboxRow (mkMessage (seq + 1 + Z.of_nat k) clusterID (m_Sink m) (m_Payload m) 0 created next) "".

Definition queuedRows (now : Time) (clusterID seq : Z) (ms : list OutboxMessage) : list outboxRow :=
  imap (queuedRow now clusterID seq) ms.

Lemma queues_spec now clusterID ms db db' :
  each (queueMessage now clusterID) ms db = Done (tt, db') ->
  exists t, db' = with_outbox t db /\ t_rows t = t_rows (outbox db) ++ queuedRows now clusterID (t_seq (outbox db)) ms.
Proof.
  revert db. induction ms as [|m ms IH]; intros db; simpl.
  - intros [= <-]. exists (outbox db). split; [by destruct db|]. unfold queuedRows. simpl. by rewrite app_nil_r.
  - intros ([] & db1 & H1 & H2)%bind_Done. injection H1 as <-. apply IH in H2 as (t & -> & Hl). exists t.
    split; [done|]. rewrite Hl. simpl. rewrite <- app_assoc. f_equal. unfold queuedRows. rewrite imap_cons. simpl. f_equal.
    + unfold queuedRow, orElse, IsZero. cbv zeta. do 2 f_equal. simpl. lia.
    + apply imap_ext. intros k m' _. unfold compose, queuedRow. cbv zeta. do 2 f_equal. lia.
Qed.

Lemma writePass_spec now b clusterID snapID db db' :
  writePass now b clusterID snapID db = Done (tt, db') ->
  exists g,
    t_rows (evaluations db') =
      map g (t_rows (evaluations db) ++ newRows now clusterID snapID (t_seq (evaluations db)) (b_Insert b)) /\
    (forall r, same_point r (g r)) /\ (forall r, er_id r ∉ e_ID <$> b_Refresh b -> g r = r) /\
    t_rows (outbox db') = t_rows (outbox db) ++ queuedRows now clusterID (t_seq (outbox db)) (b_Outbox b).
Proof.
  intros ([] & db1 & ->%inserts_spec & H)%bind_Done. apply bind_Done in H as ([] & db2 & H & Hq).
  apply refreshes_spec in H as (g & -> & Hg & Hid). apply queues_spec in Hq as (t & -> & Hl). exists g. by split_and!.
Qed.

Lemma checkBaselines_Done clusterID l db db' :
  each (checkBaseline clusterID) l db = Done (tt, db') ->
  forall w, w ∈ l -> idOr0 (latestKnown clusterID w.1 db) = w.2.
Proof.
  revert db. induction l as [|x l IH]; intros db; simpl; [by intros _ w ?%not_elem_of_nil|].
  intros ([] & db1 & H1 & H2)%bind_Done w. pose proof H1 as H1'. apply reads_bind in H1' as ->; [|auto with go..].
  apply bind_Done in H1 as (got & db2 & Ha & Hg). injection Ha as <- <-. apply guard_Done in Hg as [Hg%Z.eqb_eq _].
  intros [->|Hw]%elem_of_cons; [done|]. by apply (IH db).
Qed.

Lemma checkExpectation_Done b clusterID latestID db db' x t i :
  checkExpectation b clusterID latestID db = Done (tt, db') -> b_Expect b = Some x -> x_Baselines x !! t = Some i ->
  idOr0 (latestKnown clusterID t db) = i.
Proof.
  intros H Hx Ht. unfold checkExpectation in H. rewrite Hx in H.
  apply bind_Done in H as ([] & db1 & ->%reads_guard & H).
  apply (checkBaselines_Done _ _ _ _ H (t, i)). unfold sortedEntries. rewrite isort_perm. by apply elem_of_map_to_list.
Qed.

(** The commit, once it writes: the state it checked, the snapshot it wrote
    for and the database before its rows. *)
Lemma passOf_Done now b clusterID db db' snapID :
  passOf now b clusterID db = Done ((snapID, false), db') ->
  exists db1, writePass now b clusterID snapID db1 = Done (tt, db') /\
    evaluations db1 = evaluations db /\ outbox db1 = outbox db /\
    checkExpectation b clusterID (idOr0 (LatestSnapshot clusterID db)) db = Done (tt, db) /\
    match b_Snapshot b with
    | Some s => insertSnapshotRow now clusterID s db = Done (snapID, db1)
    | None => db1 = db /\ exists s, LatestSnapshot clusterID db = Some s /\ sn_ID s = snapID
    end.
Proof.
  intros (latest & db0 & Ha & H)%bind_Done. injection Ha as <- <-. destruct (b_Snapshot b) as [s|].
  - destruct (isDuplicate _ _); [by apply bind_Done in H as ([] & ? & _ & ?)|].
    apply bind_Done in H as ([] & db1 & Hx & H). pose proof Hx as ->%checkExpectation_reads.
    apply bind_Done in H as (i & db1 & Hi & H). apply bind_Done in H as ([] & db2 & Hw & H). injection H as -> <-.
    exists db1. split_and!; [done| | |done..]; unfold insertSnapshotRow in Hi; destruct (existsb _ _) in Hi;
      [by injection Hi as _ <-|done|by injection Hi as _ <-|done].
  - apply bind_Done in H as ([] & db1 & [Hg ->]%guard_Done & H). to_prop.
    apply bind_Done in H as ([] & db1 & Hc & H). apply reads_each in Hc as ->; [|apply checkCurrent_reads].
    apply bind_Done in H as ([] & db1 & Hx & H). pose proof Hx as ->%checkExpectation_reads.
    apply bind_Done in H as ([] & db2 & Hw & H). injection H as <- <-. exists db. split_and!; [done..|].
    destruct (LatestSnapshot clusterID db) as [s|]; [|done]. eauto.
Qed.

Lemma newRows_targets now clusterID snapID seq es :
  er_target <$> newRows now clusterID snapID seq es = e_Target <$> es.
Proof. revert seq. induction es as [|e es IH]; intros seq; [done|]. simpl. f_equal. apply IH. Qed.

Lemma insertSnapshotRow_latest now clusterID s db snapID db1 :
  db_ok db -> insertSnapshotRow now clusterID s db = Done (snapID, db1) ->
  LatestSnapshot clusterID db1 = Some (storedSnapshot now clusterID s snapID).
Proof.
  intros Hok Hi. unfold insertSnapshotRow in Hi. destruct (existsb _ _); [|done]. injection Hi as <- <-.
  destruct (ok_snapshots db Hok) as (Hn & Hseq & Hle). set (mk := storedSnapshot now clusterID s).
  apply newest_iff.
  - apply NoDup_select. by apply (ids_ok_insert mk (snapshots db)).
  - split.
    + apply elem_of_select. split; [by apply Z.eqb_refl|]. apply (elem_of_insert mk). by right.
    + intros r [_ [Hr| ->]%(elem_of_insert mk)]%elem_of_select; [|done]. specialize (Hle r Hr).
      unfold row_id, Snapshot_row in *. simpl. lia.
Qed.

Section Committed.
Context (now : Time) (b : EvaluationBatch) (db db' db0 : SQLite) (id snapID : Z).
Context (Hok : db_ok db) (Hcl : batchCluster now b db = Done (id, db0)).
Context (Hc : CommitEvaluations now b db = Done ((snapID, false), db')).

Lemma committed_pass : passOf now b id db0 = Done ((snapID, false), db') /\ db_ok db0 /\
  evaluations db0 = evaluations db /\ snapshots db0 = snapshots db /\ outbox db0 = outbox db.
Proof using Hok Hcl Hc.
  apply wrap_Done in Hc as (i & dbx & Hb & Hp)%bind_Done. rewrite Hcl in Hb. injection Hb as <- <-.
  split; [done|]. split; [by eapply batchCluster_ok|].
  split_and!; by eapply (batchCluster_stays _ now b); [|exact Hcl].
Qed.

Lemma committed_latest : exists s, LatestSnapshot id db' = Some s /\ sn_ID s = snapID /\
  forall p, b_Snapshot b = Some p -> s = storedSnapshot now id p snapID.
Proof using Hok Hcl Hc.
  destruct committed_pass as (Hp & Hok0 & _). apply passOf_Done in Hp as (db1 & Hw & _ & _ & _ & Hs).
  assert (LatestSnapshot id db' = LatestSnapshot id db1) as ->.
  { unfold LatestSnapshot. by rewrite (writePass_stays snapshots now b id snapID (fun _ _ => eq_refl) (fun _ _ => eq_refl) _ _ _ Hw). }
  destruct (b_Snapshot b) as [p|].
  - exists (storedSnapshot now id p snapID). split_and!; [by eapply insertSnapshotRow_latest|done|]. by intros p' [= <-].
  - destruct Hs as [-> (s & Hl & Hi)]. exists s. by split_and!.
Qed.

(** The rows after the commit. *)
Lemma committed_rows : exists g,
  t_rows (evaluations db') = map g (t_rows (evaluations db) ++ newRows now id snapID (t_seq (evaluations db)) (b_Insert b)) /\
  (forall r, same_point r (g r)) /\ (forall r, er_id r ∉ e_ID <$> b_Refresh b -> g r = r) /\
  t_rows (outbox db') = t_rows (outbox db) ++ queuedRows now id (t_seq (outbox db)) (b_Outbox b).
Proof using Hok Hcl Hc.
  destruct committed_pass as (Hp & _ & He & _ & Ho). apply passOf_Done in Hp as (db1 & Hw & He1 & Ho1 & _).
  apply writePass_spec in Hw. by rewrite He1, He, Ho1, Ho in Hw.
Qed.

Context (Hrefresh : forall e, e ∈ b_Refresh b -> e_ID e <= t_seq (evaluations db)).

Lemma committed_new e : e ∈ b_Insert b -> exists i,
  storedRow now (placed id snapID e) i ∈ t_rows (evaluations db') /\ t_seq (evaluations db) < i.
Proof using Hok Hcl Hc Hrefresh.
  intros He. destruct committed_rows as (g & Hrows & _ & Hid & _).
  destruct (newRows_all now id snapID (t_seq (evaluations db)) _ _ He) as (i & Hi & Hlt).
  exists i. split; [|done]. rewrite Hrows. rewrite <- (Hid (storedRow now (placed id snapID e) i)).
  - apply list_elem_of_fmap. eexists. split; [done|]. apply elem_of_app. by right.
  - intros (e' & He' & Hin)%list_elem_of_fmap. specialize (Hrefresh e' Hin). simpl in He'. lia.
Qed.

(** A row of the new state is an old one, refreshed or not, or a new one. *)
Lemma committed_old r : r ∈ t_rows (evaluations db') ->
  (exists r0, r0 ∈ t_rows (evaluations db) /\ same_point r0 r) \/
  r ∈ newRows now id snapID (t_seq (evaluations db)) (b_Insert b).
Proof using Hok Hcl Hc Hrefresh.
  destruct committed_rows as (g & -> & Hg & Hid & _). intros (r0 & -> & [Hr|Hr]%elem_of_app)%list_elem_of_fmap; [eauto|].
  right. rewrite Hid; [done|]. apply newRows_elem in Hr as (e & i & _ & -> & Hlt).
  intros (e' & He' & Hin)%list_elem_of_fmap. specialize (Hrefresh e' Hin). simpl in He'. lia.
Qed.

Lemma old_ids r0 : r0 ∈ t_rows (evaluations db) -> er_id r0 <= t_seq (evaluations db).
Proof using Hok. intros Hr. by apply (ok_evaluations db Hok). Qed.

(** After the commit, a decided evaluation it inserted is the baseline. *)
Lemma committed_baseline t :
  (exists e, e ∈ b_Insert b /\ e_Target e = t /\ (e_Ready e || (0 <? e_Blockers e) || e_Baseline e) = true) ->
  t_seq (evaluations db) < idOr0 (latestKnown id t db').
Proof using Hok Hcl Hc Hrefresh.
  intros (e & He & Ht & Hd). destruct (committed_new e He) as (i & Hi & Hlt).
  assert (storedRow now (placed id snapID e) i ∈
    select (fun r => evaluationOf id t r && decided r) (t_rows (evaluations db'))) as Hin.
  { apply elem_of_select. split; [|done]. unfold evaluationOf, decided. simpl.
    rewrite Z.eqb_refl, Ht, String.eqb_refl. exact Hd. }
  unfold latestKnown. destruct (newest_nonempty _ _ Hin) as [r Hr]. rewrite Hr.
  apply newest_Some in Hr as [_ Hmax]. specialize (Hmax _ Hin). unfold idOr0, row_id, evaluationRow_row in *.
  simpl in *. lia.
Qed.
End Committed.

(** C17 A committed pass reads back: after a commit that is not a duplicate, the snapshot of the pass is the cluster's
    latest, with every field it was pushed with and the commit's time if it had none; the current evaluation of every
    target the pass inserted is the one it inserted, every column of it the pass's, under a new id, with its times or
    the commit's, the columns that are read from its report, and no teams (they are a column of their own); and the
    outbox is what it was followed by the messages of the pass, in their order, each for its own sink with its own
    payload, unattempted, and due at once or when the pass says. A pass names a target once, and refreshes rows that
    are there. *)
Theorem commit_reads_back (now : Time) (b : EvaluationBatch) (db db' db0 : SQLite) (id snapID : Z) :
  db_ok db -> batchCluster now b db = Done (id, db0) ->
  CommitEvaluations now b db = Done ((snapID, false), db') ->
  NoDup (e_Target <$> b_Insert b) ->
  (forall e, e ∈ b_Refresh b -> e_ID e <= t_seq (evaluations db)) ->
  (exists s, LatestSnapshot id db' = Some s /\ sn_ID s = snapID /\
     forall p, b_Snapshot b = Some p ->
       s = mkSnapshot snapID id (sn_Hash p) (sn_KBVersion p) (sn_AgentVersion p)
             (if sn_ReceivedAt p =? zeroTime then now else sn_ReceivedAt p) (sn_ServerVersion p) (sn_Inventory p)) /\
  (forall e, e ∈ b_Insert b -> exists i, t_seq (evaluations db) < i /\
     let created := if e_CreatedAt e =? zeroTime then now else e_CreatedAt e in
     CurrentEvaluation id (e_Target e) db' =
       Some (mkEvaluation i id snapID (e_Target e) (e_KBVersion e) (e_Score e) (e_Ready e) (e_Blockers e) (e_Warnings e)
               (e_Report e) (notAssessedOf (e_Report e)) created (if e_EvaluatedAt e =? zeroTime then created else e_EvaluatedAt e)
               (e_TeamMapHash e) [] false (CarriesHold (e_Report e)) (e_Baseline e))) /\
  t_rows (outbox db') = t_rows (outbox db) ++
    imap (fun k m => let created := if m_CreatedAt m =? zeroTime then now else m_CreatedAt m in
            mkOutboxRow (mkMessage (t_seq (outbox db) + 1 + Z.of_nat k) id (m_Sink m) (m_Payload m) 0 created
                           (if m_NextAttemptAt m =? zeroTime then created else m_NextAttemptAt m)) "") (b_Outbox b).
Proof.
  intros Hok Hcl Hc Hnd Hrefresh. destruct (committed_latest _ _ _ _ _ _ _ Hok Hcl Hc) as (s & Hl & Hi & Hh).
  split; [eauto|]. split; [|by destruct (committed_rows _ _ _ _ _ _ _ Hok Hcl Hc) as (g & _ & _ & _ & ?)].
  intros e He. destruct (committed_new _ _ _ _ _ _ _ Hok Hcl Hc Hrefresh e He) as (i & Hin & Hlt).
  exists i. split; [done|]. unfold CurrentEvaluation, maxId. unfold LatestSnapshot in Hl. rewrite Hl. simpl.
  unfold row_id, Snapshot_row. rewrite Hi. unfold snapshotEvaluation.
  match goal with |- scanEvaluation <$> newest ?l = _ =>
    enough (newest l = Some (storedRow now (placed id snapID e) i)) as -> by done end.
  apply newest_iff.
  - apply NoDup_select. eapply ok_evaluations, CommitEvaluations_ok; [exact Hok|exact Hc].
  - split; [apply elem_of_select; split; [simpl; by rewrite Z.eqb_refl, String.eqb_refl|done]|].
    intros r [Hp Hr]%elem_of_select. to_prop.
    destruct (committed_old _ _ _ _ _ _ _ Hok Hcl Hc Hrefresh r Hr) as [(r0 & Hr0 & Hsp)|Hnew].
    + pose proof (old_ids db Hok r0 Hr0). destruct Hsp as [Hsp _]. unfold row_id, evaluationRow_row. simpl. lia.
    + assert (r = storedRow now (placed id snapID e) i) as ->; [|done].
      destruct (newRows_all now id snapID (t_seq (evaluations db)) _ _ He) as (i' & Hi' & _).
      assert (r = storedRow now (placed id snapID e) i') as ->.
      { eapply (col_unique er_target); [by rewrite newRows_targets|exact Hnew|exact Hi'|done]. }
      destruct (committed_old _ _ _ _ _ _ _ Hok Hcl Hc Hrefresh _ Hin) as [(r0 & Hr0 & Hsp)|Hnew'].
      * pose proof (old_ids db Hok r0 Hr0). destruct Hsp as [Hsp _]. simpl in Hsp. lia.
      * eapply (col_unique er_target); [by rewrite newRows_targets|exact Hnew|exact Hnew'|done].
Qed.

Lemma commit_reads_back_witness :
  exists i, CurrentEvaluation 1 "1.36" exampleDB =
    Some (scanEvaluation (storedRow (3 * day) (placed 1 3 (exampleEvaluation "1.36" true 0 (3 * day))) i)).
Proof.
  set (b := examplePush "prod" "h3" "1.36" true 0 (3 * day)).
  set (db := pushed (examplePush "prod" "h2" "1.35" false 0 (2 * day)) (2 * day)
               (pushed (examplePush "prod" "h1" "1.35" true 0 day) day migrated)).
  assert (db_ok db) as Hok by (apply pushed_ok, pushed_ok, migrated_ok).
  destruct (batchCluster (3 * day) b db) as [[id db0]|] eqn:Hb; [|by vm_compute in Hb].
  assert (id = 1) as -> by (vm_compute in Hb; by injection Hb as <- _).
  destruct (CommitEvaluations (3 * day) b db) as [[[snapID dup] db']|] eqn:Hc; [|by vm_compute in Hc].
  assert (snapID = 3 /\ dup = false) as [-> ->] by (vm_compute in Hc; by injection Hc as <- <- _).
  assert (exampleDB = db') as -> by (unfold exampleDB, pushed at 1, commit; fold b; fold db; by rewrite Hc).
  destruct (commit_reads_back (3 * day) b db db' db0 1 3) as (_ & H & _); [done..| | |].
  - apply NoDup_singleton.
  - intros e He. by apply not_elem_of_nil in He.
  - destruct (H (exampleEvaluation "1.36" true 0 (3 * day))) as (i & _ & Hi); [by left|]. exists i. exact Hi.
Defined.

(** C5 A notification delta is committed against a baseline at most once: when a commit inserted a decided evaluation of
    a target, a second pass of the same cluster that was computed from the baseline the first one replaced is refused
    or, being a duplicate, writes neither an evaluation nor a notification. *)
Theorem commit_compare_and_swap (now1 now2 : Time) (b1 b2 : EvaluationBatch) (db db1 db2 dba dbb : SQLite)
    (id snap1 snap2 : Z) (dup : bool) (x : Expectation) (t : string) (e : Evaluation) :
  db_ok db -> batchCluster now1 b1 db = Done (id, dba) ->
  CommitEvaluations now1 b1 db = Done ((snap1, false), db1) ->
  (forall r, r ∈ b_Refresh b1 -> e_ID r <= t_seq (evaluations db)) ->
  e ∈ b_Insert b1 -> e_Target e = t -> (e_Ready e || (0 <? e_Blockers e) || e_Baseline e) = true ->
  batchCluster now2 b2 db1 = Done (id, dbb) -> b_Expect b2 = Some x ->
  x_Baselines x !! t = Some (idOr0 (latestKnown id t db)) ->
  CommitEvaluations now2 b2 db1 = Done ((snap2, dup), db2) ->
  dup = true /\ evaluations db2 = evaluations db1 /\ outbox db2 = outbox db1.
Proof.
  intros Hok Hb1 Hc1 Hr He Ht Hd Hb2 Hx Hbase Hc2.
  pose proof (CommitEvaluations_ok _ _ _ _ _ Hok Hc1) as Hok1.
  pose proof (committed_baseline _ _ _ _ _ _ _ Hok Hb1 Hc1 Hr t ltac:(eauto)) as Hlt.
  destruct dup.
  - split; [done|]. apply wrap_Done in Hc2 as (i & db0 & Hb & Hp)%bind_Done.
    assert (evaluations db0 = evaluations db1 /\ outbox db0 = outbox db1) as [<- <-].
    { split; by eapply (batchCluster_stays _ now2 b2); [|exact Hb]. }
    apply bind_Done in Hp as (l & dbl & ->%reads_ask & Hp). destruct (b_Snapshot b2) as [s|].
    + destruct (isDuplicate _ _).
      * apply bind_Done in Hp as ([] & dbx & Hch & Hp). injection Hch as <-. by injection Hp as _ <-.
      * apply bind_Done in Hp as ([] & ? & _ & Hp). apply bind_Done in Hp as (? & ? & _ & Hp).
        by apply bind_Done in Hp as ([] & ? & _ & ?).
    + apply bind_Done in Hp as ([] & ? & _ & Hp). apply bind_Done in Hp as ([] & ? & _ & Hp).
      apply bind_Done in Hp as ([] & ? & _ & Hp). by apply bind_Done in Hp as ([] & ? & _ & ?).
  - exfalso. destruct (committed_pass _ _ _ _ _ _ _ Hok1 Hb2 Hc2) as (Hp & _ & Hev & _).
    apply passOf_Done in Hp as (dbw & _ & _ & _ & Hexp & _).
    pose proof (checkExpectation_Done _ _ _ _ _ _ _ _ Hexp Hx Hbase) as Hgot.
    unfold latestKnown in *. rewrite Hev in Hgot.
    assert (idOr0 (newest (select (fun r => evaluationOf id t r && decided r) (t_rows (evaluations db)))) <=
      t_seq (evaluations db)) as Hle.
    { destruct (newest _) as [r|] eqn:En; unfold idOr0; simpl.
      - apply newest_Some in En as [[_ Hin]%elem_of_select _]. by apply old_ids.
      - by destruct (ok_evaluations db Hok) as (_ & ? & _). }
    lia.
Qed.

Lemma commit_compare_and_swap_witness :
  let b1 := examplePush "prod" "h9" "1.36" false 2 (9 * day) in
  let x := mkExpectation 3 {["1.36"%string := 3]} in
  let b2 := mkBatch None 1 "" (Some (exampleSnapshot "h9" (9 * day))) 0 ∅ [] [] [] (Some x) in
  exists db1, commit (CommitEvaluations (9 * day) b1) exampleDB = db1 /\
    forall snap2 dup db2, CommitEvaluations (9 * day) b2 db1 = Done ((snap2, dup), db2) ->
      dup = true /\ outbox db2 = outbox db1.
Proof.
  intros b1 x b2. destruct (CommitEvaluations (9 * day) b1 exampleDB) as [[[snap1 dup1] db1]|] eqn:Hc;
    [|by vm_compute in Hc].
  assert (dup1 = false) as -> by (vm_compute in Hc; by injection Hc as _ <- _).
  destruct (batchCluster (9 * day) b1 exampleDB) as [[id dba]|] eqn:Hb; [|by vm_compute in Hb].
  assert (id = 1) as -> by (vm_compute in Hb; by injection Hb as <- _).
  exists db1. split; [unfold commit; by rewrite Hc|]. intros snap2 dup db2 Hc2.
  destruct (commit_compare_and_swap (9 * day) (9 * day) b1 b2 exampleDB db1 db2 dba db1 1 snap1 snap2 dup x "1.36"
    (exampleEvaluation "1.36" false 2 (9 * day))) as (Hd & _ & Ho).
  - apply exampleDB_ok.
  - exact Hb.
  - exact Hc.
  - intros r Hr. exfalso. exact (not_elem_of_nil r Hr).
  - by left.
  - reflexivity.
  - reflexivity.
  - reflexivity.
  - reflexivity.
  - clear. vm_compute. reflexivity.
  - exact Hc2.
  - split; [exact Hd|exact Ho].
Defined.

(** ** Tokens *)

Definition isRevoked (r : tokenRow) : Prop := is_Some (tk_RevokedAt (tr_token r)).

Definition revokedKept (r r' : tokenRow) : Prop := tr_hash r' = tr_hash r /\ (isRevoked r -> isRevoked r').

#[global] Instance revokedKept_preorder : PreOrder revokedKept.
Proof. split; [by intros c|]. intros c1 c2 c3 [H1 H1'] [H2 H2']. split; [congruence|auto]. Qed.

Lemma revoke_revokes what p now : grows revokedKept tokens (revoke what p now).
Proof. apply grows_execOne. intros db. apply (evolves_update revokedKept); [done|]. intros r _ _. split; [done|]. intros _. by eexists. Qed.

Lemma run_revokes o db : db_ok db -> evolves revokedKept (tokens db) (tokens (run o db)).
Proof.
  intros Hok. destruct o; cbn [run]; try (apply (grows_commit revokedKept tokens); [|done]).
  - apply (grows_stays revokedKept tokens). by apply upsertCluster_stays.
  - intros x u x' _ (c & _ & ->)%DeleteCluster_Done. apply (evolves_delete revokedKept).
  - intros x u x' _ (c & _ & -> & _)%RenameCluster_Done. by apply (evolves_update revokedKept).
  - apply grows_wrap, (grows_stays revokedKept tokens). apply stays_bind; [by apply batchCluster_stays|].
    intros i. by apply passOf_stays.
  - rewrite Prune_spec by done. apply (evolves_refl revokedKept).
  - apply (grows_stays revokedKept tokens). intros x a x' H. by injection H as _ <-.
  - apply (grows_stays revokedKept tokens). by apply stays_execOne.
  - apply (grows_stays revokedKept tokens). by apply stays_execOne.
  - apply (grows_stays revokedKept tokens). by apply stays_execOne.
  - intros x a x' Hx H. unfold CreateToken in H. destruct (_ || _); [done|]. destruct (existsb _ _); [done|].
    injection H as _ <-. by apply (evolves_insert revokedKept (fun i => mkTokenRow (mkToken i _ _ _ _) _)).
  - apply revoke_revokes.
  - apply revoke_revokes.
  - apply (grows_stays revokedKept tokens). intros x a x' H. unfold CreateReadToken in H. destruct (_ =s _); [done|].
    destruct (readTokenTeams teams); [|done]. destruct (existsb _ _); [done|]. by injection H as _ <-.
  - apply (grows_stays revokedKept tokens). by apply stays_execOne.
  - apply grows_wrap, grows_wrap, (grows_stays revokedKept tokens). apply stays_bind; [by apply batchCluster_stays|].
    intros i. by apply passOf_stays.
  - by apply (grows_stays revokedKept tokens), insertEvaluation_stays.
Qed.

(** C25 A revoked ingest token writes nothing any more: once its row is revoked, and for as long as it exists, whatever
    the server does meanwhile, the token resolves to no cluster and a push authenticated with it is refused at its
    commit. *)
Theorem revoked_token_refused (db db' : SQLite) (r r' : tokenRow) (token : string) (now : Time) (b : EvaluationBatch)
    (c : Cluster) :
  db_ok db -> rtc step db db' -> r ∈ t_rows (tokens db) -> isRevoked r ->
  r' ∈ t_rows (tokens db') -> row_id r' = row_id r -> tr_hash r = HashToken token -> token <> "" ->
  b_Cluster b = Some c -> b_IngestToken b = token ->
  ValidToken token db' = None /\ IngestTokenCluster token db' = None /\
  exists e, CommitEvaluations now b db' = Failed e.
Proof.
  intros Hok Hsteps Hr Hrev Hr' Hid Hh Hne Hb Ht.
  pose proof (steps_ok _ _ Hsteps Hok) as Hok'.
  destruct (steps_evolve revokedKept tokens db db' run_revokes Hsteps Hok) as [_ Hev].
  destruct (ok_tokens db Hok) as (Hn & _ & Hle).
  destruct (Hev r' Hr') as (r0 & Hr0 & Hid0 & Hh0 & Hrev0); [rewrite Hid; by apply Hle|].
  assert (r0 = r) as -> by (apply (row_id_inj (t_rows (tokens db))); [done..|congruence]).
  assert (forall x, x ∈ t_rows (tokens db') -> activeToken (HashToken token) x = false) as Hinactive.
  { intros x Hx. destruct (activeToken (HashToken token) x) eqn:E; [|done]. unfold activeToken in E. to_prop.
    assert (x = r') as -> by (apply (col_unique tr_hash (t_rows (tokens db'))); [apply Hok'|done..|congruence]).
    apply bool_decide_eq_false in H0. destruct H0. by apply Hrev0. }
  assert (ValidToken token db' = None) as Hv.
  { unfold ValidToken. by rewrite (proj2 (select_nil _ _) Hinactive). }
  split_and!; [done|unfold IngestTokenCluster; by rewrite Hv|].
  destruct (CommitEvaluations now b db') as [[res db2]|e] eqn:E; [|eauto]. exfalso.
  apply wrap_Done in E as (i & db0 & Hcl & _)%bind_Done. unfold batchCluster in Hcl. rewrite Hb in Hcl.
  apply bind_Done in Hcl as (j & db1 & Hu & Hcl). apply bind_Done in Hcl as ([] & dbx & Hrc & _).
  apply bind_Done in Hrc as ([] & dby & ->%reads_guard & Hrc). rewrite Ht in Hrc.
  rewrite (proj2 (String.eqb_neq _ _) Hne) in Hrc. apply bind_Done in Hrc as (n & dbz & Ha & Hg). injection Ha as <- _.
  apply guard_Done in Hg as [Hg _].
  rewrite (upsertCluster_stays tokens now c (fun _ _ => eq_refl) _ _ _ Hu) in Hg.
  rewrite (proj2 (countRows_zero _ _)) in Hg; [done|]. intros x Hx. by rewrite Hinactive.
Qed.

Definition tokenDB : SQLite :=
  commit (RevokeToken (5 * day) "prod") (commit (CreateToken (4 * day) "prod" "ingest-secret") exampleDB).

Lemma revoked_token_refused_witness :
  ValidToken "ingest-secret" (commit (CreateToken (4 * day) "prod" "ingest-secret") exampleDB) = Some "prod" /\
  exists e, CommitEvaluations (6 * day)
    (mkBatch (Some (mkCluster 1 "prod" "uid-1" zeroTime (6 * day))) 0 "ingest-secret" None 3 ∅ [] [] [] None)
    (run (OpRenameCluster "prod" "prod2") tokenDB) = Failed e.
Proof.
  split; [vm_compute; reflexivity|].
  set (r := mkTokenRow (mkToken 1 "prod" "" (4 * day) (Some (5 * day))) (HashToken "ingest-secret")).
  set (r' := mkTokenRow (mkToken 1 "prod2" "" (4 * day) (Some (5 * day))) (HashToken "ingest-secret")).
  eapply (revoked_token_refused tokenDB _ r r' "ingest-secret" (6 * day) _ (mkCluster 1 "prod" "uid-1" zeroTime (6 * day))).
  - unfold tokenDB. apply keeps_commit; [apply revoke_ok|]. apply keeps_commit; [apply CreateToken_ok|]. apply exampleDB_ok.
  - by apply rtc_once, step_run.
  - assert (t_rows (tokens tokenDB) = [r]) as -> by (vm_compute; reflexivity). by left.
  - by eexists.
  - assert (t_rows (tokens (run (OpRenameCluster "prod" "prod2") tokenDB)) = [r']) as -> by (vm_compute; reflexivity). by left.
  - reflexivity.
  - reflexivity.
  - discriminate.
  - reflexivity.
  - reflexivity.
Defined.
