(* ===== verification/Outbox.v ===== *)
(** * Notification delivery: internal/server/outbox.go and notify_retry.go

    The worker that delivers queued notifications after their evaluations
    committed. Its state is the database and, in memory, which sinks asked to be
    left alone. What a sink answers is an input: [answerOf] gives, for each
    delivery, what each reading of the clock returns and the sink's answer, so
    the theorems hold whatever the sinks do. The text of a failed delivery is
    what is left of it once the sink's URL is scrubbed. *)

From stdpp Require Import base list strings gmap sorting.
From Stdlib Require Import ZArith Lia Ascii.
From S2P Require Import Prelude GoStr GoTime GoUtf8 Version Inventory KB Findings Heads Notify Db Store StoreInv.

Definition outboxBatch : Z := 50.
Definition outboxLease : Z := 2 * minute.
Definition outboxMaxAttempts : Z := 8.
Definition outboxBaseBackoff : Z := 30 * second.
Definition outboxMaxBackoff : Z := hour.
Definition outboxMaxRetryAfter : Z := outboxMaxBackoff.
Definition outboxMaxAge : Z := outboxMaxAttempts * outboxMaxRetryAfter.
Definition notifyTimeout : Z := 30 * second.
Definition outboxMaxErrorLen : Z := 1024.

(** [outboxError]: the text kept of a failed delivery. *)
Definition outboxError (text : string) : string :=
  let s := ToValidUTF8 (without "000"%char text) in
  if outboxMaxErrorLen <? slen s then ToValidUTF8 (takeBytes (Z.to_nat outboxMaxErrorLen) s) else s.

(** [outboxBackoff]: doubled while below the cap, [attempts - 1] times. *)
Fixpoint doubled (n : nat) (d : Z) : Z :=
  match n with
  | O => d
  | S n' => if d <? outboxMaxBackoff then doubled n' (d * 2) else d
  end.

Definition outboxBackoff (attempts : Z) : Z :=
  Z.min (doubled (Z.to_nat (attempts - 1)) outboxBaseBackoff) outboxMaxBackoff.

(** What a sink answered: [None] when it took the message, and otherwise the
    error, with the Retry-After delay it carried. *)
Record failure := mkFailure { fl_After : option Z; fl_Text : string }.

Definition retryAfterHold (f : failure) : Z :=
  match fl_After f with
  | None => 0
  | Some after_ => Z.min after_ outboxMaxRetryAfter
  end.

Definition retryDelay (attempts : Z) (f : failure) : Z :=
  match fl_After f with
  | None => outboxBackoff attempts
  | Some after_ => Z.max (outboxBackoff attempts) (Z.min after_ outboxMaxRetryAfter)
  end.

(** [sinkHolds]. *)
Definition hold (sink : string) (t : Time) (h : gmap string Time) : gmap string Time :=
  if After t (default zeroTime (h !! sink)) then <[sink := t]> h else h.

Definition heldUntil (sink : string) (now : Time) (h : gmap string Time) : option Time * gmap string Time :=
  match h !! sink with
  | Some t => if negb (After t now) then (None, delete sink h) else (Some t, h)
  | None => (None, h)
  end.

(** [expiryCap]. *)
Definition expiry (m : OutboxMessage) : Time := m_CreatedAt m + outboxMaxAge.

Definition expiryCap (m : OutboxMessage) (t : Time) : Time :=
  if IsZero (m_CreatedAt m) then t else if Before (expiry m) t then expiry m else t.

(** [notificationOf] on a decoded payload. *)
Definition notificationOf (m : OutboxMessage) : res Notification :=
  match m_Payload m with
  | Corrupt => Err "corrupt"
  | Versioned n => Ok n
  | LegacyEvent cluster target kind title detail =>
      if kind =s "" then Err "payload is neither a notification nor a legacy event"
      else Ok (mkNotification NotificationSchemaVersion ("outbox-" +:+ itoa (m_ID m)) TypeReadinessChanged
                 (m_CreatedAt m) (mkNCluster (m_ClusterID m) cluster) []
                 [mkChange kind "" "" title detail [target]] ∅)
  end.

Record server := mkServer {
  s_sinks : list string;
  s_notifyTimeout : Z;
  s_outboxLease : Z;
}.

Record worker := mkWorker { w_db : SQLite; w_holds : gmap string Time }.

Definition with_db (f : SQLite -> SQLite) (w : worker) : worker := mkWorker (f (w_db w)) (w_holds w).

(** [settle]: an error is logged and otherwise ignored. *)
Definition settle (m : stx unit) (w : worker) : worker := with_db (commit m) w.

(** One delivery's readings of the clock, in the order the code takes them
    (for the message's age, for its sink's hold, before the call, to hold the
    sink, to retry), and the sink's answer. *)
Record call := mkCall {
  ca_Age : Time;
  ca_Held : Time;
  ca_Start : Time;
  ca_Hold : Time;
  ca_Retry : Time;
  ca_Answer : option failure;
}.

(** What becomes of a claimed message. *)
Inductive verdict :=
| Drop
| Later (next : Time)
| PutBack (now : Time)
| Retry (next : Time) (text : string).

(** [deliver] up to its effects: which way a message goes, and the holds. *)
Definition judge (s : server) (c : call) (m : OutboxMessage) (h : gmap string Time) : verdict * gmap string Time :=
  if negb (mem_str (m_Sink m) (s_sinks s)) then (Drop, h)
  else match notificationOf m with
  | Err _ => (Drop, h)
  | Ok _ =>
      if negb (IsZero (m_CreatedAt m)) && (outboxMaxAge <=? Sub (ca_Age c) (m_CreatedAt m)) then (Drop, h)
      else match heldUntil (m_Sink m) (ca_Held c) h with
      | (Some until, h') => (Later (expiryCap m until), h')
      | (None, h') =>
          let need := s_notifyTimeout s + s_notifyTimeout s / 5 in
          if (need <? s_outboxLease s) && After (ca_Start c + need) (m_NextAttemptAt m)
          then (PutBack (ca_Start c), h')
          else match ca_Answer c with
          | None => (Drop, h')
          | Some f =>
              let h'' := if 0 <? retryAfterHold f then hold (m_Sink m) (ca_Hold c + retryAfterHold f) h' else h' in
              if outboxMaxAttempts <=? m_Attempts m then (Drop, h'')
              else (Retry (expiryCap m (ca_Retry c + retryDelay (m_Attempts m) f)) (outboxError (fl_Text f)), h'')
          end
      end
  end.

Definition settleVerdict (v : verdict) (id : Z) (db : SQLite) : SQLite :=
  match v with
  | Drop => commit (DeleteOutbox id) db
  | Later next => commit (DeferOutbox id next) db
  | PutBack now => commit (DeferOutbox id now) db
  | Retry next text => commit (RescheduleOutbox id next text) db
  end.

Definition putBack (v : verdict) : bool := match v with PutBack _ => true | _ => false end.

Definition deliver (s : server) (answerOf : OutboxMessage -> call) (m : OutboxMessage) (w : worker) : bool * worker :=
  let (v, h) := judge s (answerOf m) m (w_holds w) in
  (negb (putBack v), mkWorker (settleVerdict v (m_ID m) (w_db w)) h).

(** Deliveries one after the other, counting the messages put back. *)
Fixpoint deliverAll (s : server) (answerOf : OutboxMessage -> call) (ms : list OutboxMessage) (n : Z) (w : worker)
    : Z * worker :=
  match ms with
  | [] => (n, w)
  | m :: ms' =>
      let (ok, w') := deliver s answerOf m w in
      deliverAll s answerOf ms' (if ok then n else n + 1) w'
  end.

(** [deliverBatch]: each sink's messages in queue order. The sinks' queues run
    at the same time in the code; here they run one after the other, which the
    interleaving theorem shows to be the same. *)
Definition sinkQueue (sink : string) (ms : list OutboxMessage) : list OutboxMessage :=
  select (fun m => m_Sink m =s sink) ms.

(** The sinks in the order their first message has. *)
Definition addSink (seen : list string) (sink : string) : list string :=
  if mem_str sink seen then seen else seen ++ [sink].

Definition batchOrder (ms : list OutboxMessage) : list OutboxMessage :=
  concat (map (fun sink => sinkQueue sink ms) (foldl addSink [] (map m_Sink ms))).

Definition deliverBatch (s : server) (answerOf : OutboxMessage -> call) (ms : list OutboxMessage) (w : worker)
    : Z * worker :=
  deliverAll s answerOf (batchOrder ms) 0 w.

(** One turn of [deliverOutbox]'s loop: whether the context ended before it,
    the clock at its claim, and its deliveries. *)
Record turn := mkTurn { tu_Ended : bool; tu_Now : Time; tu_Answers : OutboxMessage -> call }.

(** [deliverOutbox]: batch by batch until none is left. The turns are numbered
    by the fuel left. *)
Fixpoint deliverOutbox (fuel : nat) (s : server) (turns : nat -> turn) (w : worker) : option worker :=
  match fuel with
  | O => None
  | S fuel' =>
      if tu_Ended (turns fuel) then Some w
      else match ClaimOutbox (tu_Now (turns fuel)) (s_outboxLease s) outboxBatch (w_db w) with
      | Failed _ => Some w
      | Done (msgs, db') =>
          let (putBacks, w') := deliverBatch s (tu_Answers (turns fuel)) msgs (mkWorker db' (w_holds w)) in
          if (zlen msgs <? outboxBatch) && (putBacks =? 0) then Some w' else deliverOutbox fuel' s turns w'
      end
  end.

(** ** What a delivery does to the outbox *)

(** The row a verdict leaves, if any. *)
Definition settleRow (v : verdict) (r : outboxRow) : option outboxRow :=
  match v with
  | Drop => None
  | Later next | PutBack next => Some (set_attempt (Z.max (m_Attempts (or_message r) - 1) 0) next r)
  | Retry next text => Some (set_error next text r)
  end.

Definition settleAt (v : verdict) (id : Z) (r : outboxRow) : option outboxRow :=
  if messageIs id r then settleRow v r else Some r.

Definition settleTable (v : verdict) (id : Z) (t : table outboxRow) : table outboxRow :=
  mkTable (omap (settleAt v id) (t_rows t)) (t_seq t).

Lemma commit_execOne {A} what (get : SQLite -> table A) p f db :
  ((forall r, r ∈ t_rows (get db) -> p r = false) -> f db = db) -> commit (execOne what get p f) db = f db.
Proof.
  intros Hnone. unfold commit, execOne, mbind, tx_bind, ask, guardTx.
  destruct (countRows p (get db) =? 0) eqn:E; simpl; [|done]. symmetry. apply Hnone.
  apply select_nil. unfold countRows, zlen in E. destruct (select _ _); [done|]. simpl in E. lia.
Qed.

Lemma omap_delete (p : outboxRow -> bool) l :
  omap (fun r => if p r then None else Some r) l = select (fun r => negb (p r)) l.
Proof.
  induction l as [|x l IH]; [done|]. unfold select in *. rewrite filter_cons. simpl.
  destruct (p x); simpl; [exact IH|]. f_equal. exact IH.
Qed.

Lemma omap_update (p : outboxRow -> bool) f l :
  omap (fun r => if p r then Some (f r) else Some r) l = map (fun r => if p r then f r else r) l.
Proof. induction l as [|x l IH]; [done|]. simpl. destruct (p x); f_equal; exact IH. Qed.

Lemma update_none {A} (p : A -> bool) f l : (forall r, r ∈ l -> p r = false) -> map (fun r => if p r then f r else r) l = l.
Proof.
  induction l as [|x l IH]; [done|]. intros H. simpl. rewrite (H x) by left. f_equal. apply IH. intros r Hr. apply H. by right.
Qed.

Lemma with_outbox_same l db : l = t_rows (outbox db) -> with_outbox (mkTable l (t_seq (outbox db))) db = db.
Proof. intros ->. by destruct db as [? ? ? [? ?] ? ?]. Qed.

Lemma settleVerdict_table v id db : settleVerdict v id db = with_outbox (settleTable v id (outbox db)) db.
Proof.
  destruct v as [|next|now|next text]; unfold settleVerdict, DeleteOutbox, DeferOutbox, RescheduleOutbox.
  - rewrite commit_execOne.
    + f_equal. unfold deleteRows, settleTable, settleAt. simpl. by rewrite <- omap_delete.
    + intros Hn. apply with_outbox_same, select_all. intros r Hr. by rewrite Hn.
  - rewrite commit_execOne.
    + f_equal. unfold updateRows, settleTable, settleAt. simpl. by rewrite <- omap_update.
    + intros Hn. by apply with_outbox_same, update_none.
  - rewrite commit_execOne.
    + f_equal. unfold updateRows, settleTable, settleAt. simpl. by rewrite <- omap_update.
    + intros Hn. by apply with_outbox_same, update_none.
  - rewrite commit_execOne.
    + f_equal. unfold updateRows, settleTable, settleAt. simpl. by rewrite <- omap_update.
    + intros Hn. by apply with_outbox_same, update_none.
Qed.

Lemma settleRow_id v r r' : settleRow v r = Some r' -> row_id r' = row_id r.
Proof. destruct v; simpl; by intros [= <-]. Qed.

Lemma settleAt_commute v1 v2 i1 i2 r : i1 <> i2 ->
  settleAt v2 i2 r ≫= settleAt v1 i1 = settleAt v1 i1 r ≫= settleAt v2 i2.
Proof.
  intros Hne. unfold settleAt, messageIs.
  destruct (row_id r =? i2) eqn:E2, (row_id r =? i1) eqn:E1; simpl; [to_prop; lia| | |].
  - destruct (settleRow v2 r) as [r'|] eqn:Er; simpl; [|by rewrite E2].
    by rewrite (settleRow_id _ _ _ Er), E1, E2.
  - destruct (settleRow v1 r) as [r'|] eqn:Er; simpl; [|by rewrite E1].
    by rewrite (settleRow_id _ _ _ Er), E1, E2.
  - by rewrite E1, E2.
Qed.

Lemma settle_commute v1 v2 i1 i2 t : i1 <> i2 ->
  settleTable v1 i1 (settleTable v2 i2 t) = settleTable v2 i2 (settleTable v1 i1 t).
Proof.
  intros Hne. unfold settleTable. simpl. f_equal. rewrite !omap_omap. apply omap_ext_l. intros x. by apply settleAt_commute.
Qed.

(** ** Sinks do not interfere

    A delivery reads and writes its own sink's hold and its own message's row,
    so the queues of different sinks can run in any interleaving. *)

Lemma hold_frame k t h h2 : h !! k = h2 !! k -> hold k t h !! k = hold k t h2 !! k.
Proof. intros E. unfold hold. rewrite E. case_match; [by rewrite !lookup_insert_eq|done]. Qed.

Lemma heldUntil_frame k t h h2 : h !! k = h2 !! k ->
  (heldUntil k t h).1 = (heldUntil k t h2).1 /\ (heldUntil k t h).2 !! k = (heldUntil k t h2).2 !! k.
Proof. intros E. unfold heldUntil. rewrite E. repeat case_match; simpl; rewrite ?lookup_delete_eq; split; congruence. Qed.

Lemma judge_frame s c m h h2 : h !! m_Sink m = h2 !! m_Sink m ->
  (judge s c m h).1 = (judge s c m h2).1 /\ (judge s c m h).2 !! m_Sink m = (judge s c m h2).2 !! m_Sink m.
Proof.
  intros E. unfold judge. destruct (heldUntil_frame _ (ca_Held c) _ _ E) as [E1 E2].
  destruct (heldUntil _ _ h) as [o g], (heldUntil _ _ h2) as [o2 g2]. simpl in E1, E2. subst o2.
  pose proof (fun t => hold_frame (m_Sink m) t _ _ E2) as E3.
  repeat (case_match; try done); simplify_eq/=; auto.
Qed.

Lemma judge_other s c m h k : k <> m_Sink m -> (judge s c m h).2 !! k = h !! k.
Proof.
  intros Hk. unfold judge, heldUntil, hold.
  repeat (case_match; simplify_eq/=; try done); rewrite ?lookup_insert_ne, ?lookup_delete_ne by done; done.
Qed.


Lemma deliver_swap s ans m1 m2 l n w : m_Sink m1 <> m_Sink m2 -> m_ID m1 <> m_ID m2 ->
  deliverAll s ans (m1 :: m2 :: l) n w = deliverAll s ans (m2 :: m1 :: l) n w.
Proof.
  intros Hs Hi. destruct w as [db h]. simpl. unfold deliver. simpl.
  pose proof (fun h' => judge_frame s (ans m1) m1 h h') as F1. pose proof (judge_other s (ans m1) m1 h) as O1.
  pose proof (fun h' => judge_frame s (ans m2) m2 h h') as F2. pose proof (judge_other s (ans m2) m2 h) as O2.
  destruct (judge s (ans m1) m1 h) as [v1 h1] eqn:E1, (judge s (ans m2) m2 h) as [v2 h2] eqn:E2. simpl in *.
  specialize (F1 h2). specialize (F2 h1). pose proof (judge_other s (ans m2) m2 h1) as O21.
  pose proof (judge_other s (ans m1) m1 h2) as O12.
  destruct (judge s (ans m2) m2 h1) as [v2' h12], (judge s (ans m1) m1 h2) as [v1' h21]. simpl in *.
  destruct F1 as [-> F1]; [by rewrite O2|]. destruct F2 as [-> F2]; [by rewrite O1|].
  f_equal; [destruct (putBack v1'), (putBack v2'); simpl; lia|]. f_equal.
  - rewrite !settleVerdict_table. simpl. unfold with_outbox. simpl. f_equal. by apply settle_commute.
  - apply map_eq. intros k. destruct (decide (k = m_Sink m1)) as [->|Hk1].
    + by rewrite O21, F1.
    + rewrite (O12 k Hk1). destruct (decide (k = m_Sink m2)) as [->|Hk2]; [done|]. by rewrite O21, O1, O2.
Qed.

Lemma deliver_front s ans pre m post n w :
  (forall x, x ∈ pre -> m_Sink x <> m_Sink m /\ m_ID x <> m_ID m) ->
  deliverAll s ans (pre ++ m :: post) n w = deliverAll s ans (m :: pre ++ post) n w.
Proof.
  revert n w. induction pre as [|x pre IH]; intros n w H; [done|].
  destruct (H x) as [Hs Hi]; [left|]. rewrite <- !app_comm_cons. rewrite <- (deliver_swap s ans x m) by done.
  cbn [deliverAll]. destruct (deliver s ans x w) as [ok w']. rewrite IH by (intros y Hy; apply H; by right). done.
Qed.

Lemma select_cons_inv {A} (p : A -> bool) l x k : select p l = x :: k ->
  exists pre post, l = pre ++ x :: post /\ (forall y, y ∈ pre -> p y = false) /\ select p post = k.
Proof.
  induction l as [|y l IH]; [done|]. unfold select in *. rewrite filter_cons. destruct (decide (p y = true)) as [Hy|Hy].
  - intros [= -> <-]. exists [], l. split_and!; [done| |done]. by intros ? ?%not_elem_of_nil.
  - intros (pre & post & -> & Hpre & Hk)%IH. exists (y :: pre), post. split_and!; [done| |done].
    intros z [->|Hz]%elem_of_cons; [by destruct (p y)|auto].
Qed.

Definition queued_alike (ms ms' : list OutboxMessage) : Prop := forall sink, sinkQueue sink ms' = sinkQueue sink ms.

Lemma elem_of_sinkQueue m ms : m ∈ sinkQueue (m_Sink m) ms <-> m ∈ ms.
Proof. unfold sinkQueue. rewrite elem_of_select, String.eqb_eq. tauto. Qed.

Lemma sinkQueue_app k ms ms' : sinkQueue k (ms ++ ms') = sinkQueue k ms ++ sinkQueue k ms'.
Proof. apply select_app. Qed.

Lemma deliverAll_alike s ans ms ms' n w : NoDup (m_ID <$> ms) -> queued_alike ms ms' ->
  deliverAll s ans ms' n w = deliverAll s ans ms n w.
Proof.
  revert ms' n w. induction ms as [|m ms IH]; intros ms' n w Hnd Hq.
  - destruct ms' as [|m' ms']; [done|]. specialize (Hq (m_Sink m')). unfold sinkQueue, select in Hq.
    rewrite filter_cons_True in Hq by apply String.eqb_refl. done.
  - assert (Hm : sinkQueue (m_Sink m) ms' = m :: sinkQueue (m_Sink m) ms).
    { rewrite Hq. unfold sinkQueue, select. by rewrite filter_cons_True by apply String.eqb_refl. }
    apply select_cons_inv in Hm as (pre & post & -> & Hpre & Hpost).
    apply NoDup_cons in Hnd as [Hm Hnd].
    assert (Hne : forall x, x ∈ pre -> m_Sink x <> m_Sink m /\ m_ID x <> m_ID m).
    { intros x Hx. assert (Hs : m_Sink x <> m_Sink m) by (apply String.eqb_neq; by apply Hpre). split; [done|].
      intros Hid. apply Hm. rewrite <- Hid. apply list_elem_of_fmap_2. 
      apply elem_of_sinkQueue. assert (x ∈ sinkQueue (m_Sink x) (m :: ms)) as Hin.
      { rewrite <- Hq. apply elem_of_sinkQueue, elem_of_app. by left. }
      unfold sinkQueue, select in Hin |- *. rewrite filter_cons_False in Hin; [done|]. by rewrite String.eqb_eq. }
    rewrite deliver_front by done. cbn [deliverAll]. destruct (deliver s ans m w) as [ok w']. apply IH; [done|].
    intros k. specialize (Hq k). unfold sinkQueue, select in *. rewrite filter_app, !filter_cons in Hq.
    rewrite filter_app.
    destruct (decide ((m_Sink m =s k) = true)) as [Hk|Hk]; [|done]. apply String.eqb_eq in Hk as <-.
    apply select_nil in Hpre. unfold select in Hpre. rewrite Hpre in Hq |- *. by injection Hq.
Qed.

Lemma elem_of_sinks l seen k : k ∈ foldl addSink seen l <-> k ∈ seen \/ k ∈ l.
Proof.
  revert seen. induction l as [|x l IH]; intros seen; simpl; [rewrite elem_of_nil; tauto|].
  rewrite IH, elem_of_cons. unfold addSink. destruct (mem_str x seen) eqn:E.
  - apply mem_str_spec in E. naive_solver.
  - rewrite elem_of_app, list_elem_of_singleton. naive_solver.
Qed.

Lemma NoDup_sinks l seen : NoDup seen -> NoDup (foldl addSink seen l).
Proof.
  revert seen. induction l as [|x l IH]; intros seen H; [done|]. apply IH. unfold addSink.
  destruct (mem_str x seen) eqn:E; [done|]. apply NoDup_app. split_and!; [done| |apply NoDup_singleton].
  intros y Hy ->%list_elem_of_singleton. apply mem_str_spec in Hy. congruence.
Qed.

Lemma sinkQueue_sinkQueue k k' ms : sinkQueue k (sinkQueue k' ms) = if k =s k' then sinkQueue k ms else [].
Proof.
  unfold sinkQueue. rewrite select_select. destruct (k =s k') eqn:E.
  - apply String.eqb_eq in E as <-. apply select_ext. intros r _. by destruct (m_Sink r =s k).
  - apply select_nil. intros r _. destruct (m_Sink r =s k) eqn:E1; [|done].
    apply String.eqb_eq in E1 as ->. by rewrite E.
Qed.

Lemma sinkQueue_concat k ms sinks : NoDup sinks ->
  sinkQueue k (concat (map (fun sink => sinkQueue sink ms) sinks)) = if mem_str k sinks then sinkQueue k ms else [].
Proof.
  induction sinks as [|x sinks IH]; [done|]. intros [Hx Hnd]%NoDup_cons. simpl.
  rewrite sinkQueue_app, sinkQueue_sinkQueue, (IH Hnd). unfold mem_str. simpl. fold (mem_str k sinks).
  destruct (k =s x) eqn:E; [|done]. apply String.eqb_eq in E as ->.
  destruct (mem_str x sinks) eqn:Em; [by apply mem_str_spec in Em|]. by rewrite app_nil_r.
Qed.

Lemma batchOrder_alike ms : queued_alike ms (batchOrder ms).
Proof.
  intros k. unfold batchOrder. rewrite sinkQueue_concat by apply NoDup_sinks, NoDup_nil_2.
  destruct (mem_str k _) eqn:E; [done|]. symmetry. apply select_nil. intros m Hm. apply String.eqb_neq. intros <-.
  apply not_true_iff_false in E. apply E, mem_str_spec, elem_of_sinks. right. by apply list_elem_of_fmap_2.
Qed.

(** C27 [deliverBatch] runs the queues of different sinks at the same time.
    Whatever the interleaving of the deliveries, as long as each sink's own
    messages are delivered in queue order, the batch leaves the same database,
    the same holds and the same count of messages put back. *)
Theorem deliverBatch_interleaving s ans ms ms' w : NoDup (m_ID <$> ms) ->
  (forall sink, sinkQueue sink ms' = sinkQueue sink ms) -> deliverAll s ans ms' 0 w = deliverBatch s ans ms w.
Proof.
  intros Hnd Hq. unfold deliverBatch. rewrite (deliverAll_alike s ans ms ms') by done.
  symmetry. by apply deliverAll_alike, batchOrder_alike.
Qed.

Definition exampleMessage (id : Z) (sink : string) : OutboxMessage :=
  mkMessage id 1 sink (LegacyEvent "prod" "1.35" "new-blocker" "title" "detail") 1 day (day + outboxLease).

(** Every sink asks to be left alone for an hour. *)
Definition limitedCall : OutboxMessage -> call := fun _ => mkCall day day day day day (Some (mkFailure (Some hour) "429")).

Lemma deliverBatch_interleaving_witness :
  let s := mkServer ["slack"; "webhook"]%string notifyTimeout outboxLease in
  let m1 := exampleMessage 1 "slack" in let m2 := exampleMessage 2 "webhook" in let m3 := exampleMessage 3 "slack" in
  deliverAll s limitedCall [m2; m1; m3] 0 (mkWorker migrated ∅) =
  deliverBatch s limitedCall [m1; m2; m3] (mkWorker migrated ∅).
Proof.
  intros s m1 m2 m3. apply deliverBatch_interleaving.
  - vm_compute. repeat constructor; rewrite ?elem_of_cons, ?elem_of_nil; intuition discriminate.
  - intros sink. unfold sinkQueue, select. rewrite !filter_cons. cbn [m_Sink m1 m2 m3 exampleMessage].
    destruct (decide (("slack" =s sink) = true)) as [E%String.eqb_eq|E]; [subst sink; reflexivity|].
    destruct (decide (("webhook" =s sink) = true)); reflexivity.
Defined.
