(* ===== verification/Delivery.v ===== *)
(** * What delivery promises

    The claims of the outbox and the loop of internal/server/outbox.go as a
    whole: a claimed message is nobody else's until its lease ends, a pass at
    one instant ends with nothing due, and no message outlives its lifetime by
    more than the next pass. *)

From stdpp Require Import base list strings gmap sorting.
From Stdlib Require Import ZArith Lia Ascii.
From S2P Require Import Prelude GoStr GoTime GoUtf8 Version Inventory KB Findings Heads Notify Db Store StoreInv Prune StoreSpec Outbox.

(** ** Claims *)

Definition rows (db : SQLite) : list outboxRow := t_rows (outbox db).

Definition dueRows (now : Time) (db : SQLite) : list outboxRow := select (due now) (rows db).

Definition claimable (now : Time) (limit : Z) (db : SQLite) : list outboxRow :=
  limitRows limit (oldestFirst (dueRows now db)).

Definition claimed (now : Time) (limit : Z) (db : SQLite) (r : outboxRow) : bool :=
  mem_id (row_id r) (dueIds now limit db).

Definition claimDB (now : Time) (lease limit : Z) (db : SQLite) : SQLite :=
  with_outbox (updateRows (claimed now limit db) (leased now lease) (outbox db)) db.

Definition claimMessages (now : Time) (lease limit : Z) (db : SQLite) : list OutboxMessage :=
  map or_message (oldestFirst (select (claimed now limit db) (rows (claimDB now lease limit db)))).

Lemma ClaimOutbox_Done now lease limit db :
  ClaimOutbox now lease limit db = Done (claimMessages now lease limit db, claimDB now lease limit db).
Proof. done. Qed.

Lemma limitRows_sublist {A} limit (l : list A) : limitRows limit l `sublist_of` l.
Proof. unfold limitRows. case_match; [done|]. apply sublist_take. Qed.

Lemma select_updated {A} (p : A -> bool) f l : (forall r, p (f r) = p r) ->
  select p (map (fun r => if p r then f r else r) l) = map f (select p l).
Proof.
  intros Hf. unfold select. induction l as [|x l IH]; [done|]. simpl. rewrite !filter_cons.
  destruct (p x) eqn:E.
  - rewrite decide_True by (by rewrite Hf). simpl. by f_equal.
  - rewrite decide_False by (by rewrite E). exact IH.
Qed.

Section Claim.
Context (now : Time) (lease limit : Z) (db : SQLite).
Hypothesis Hids : NoDup (row_id <$> rows db).

Lemma elem_of_claimable r : r ∈ claimable now limit db -> due now r = true /\ r ∈ rows db.
Proof.
  unfold claimable. intros Hr. apply elem_of_select. rewrite <- (isort_perm (fun a b => row_id a <=? row_id b)).
  by eapply elem_of_sublist; [exact Hr|apply limitRows_sublist].
Qed.

Lemma claimed_claimable r : r ∈ rows db -> claimed now limit db r = true <-> r ∈ claimable now limit db.
Proof using Hids.
  intros Hr. unfold claimed, dueIds. rewrite mem_id_spec. split.
  - intros (r' & He & Hr')%list_elem_of_fmap. fold (claimable now limit db) in Hr'.
    assert (r = r') as ->; [|done]. destruct (elem_of_claimable _ Hr'). eapply row_id_inj; eauto.
  - intros Hc. by apply (list_elem_of_fmap_2 row_id).
Qed.

Lemma claimed_due r : r ∈ rows db -> claimed now limit db r = true -> due now r = true.
Proof using Hids. intros Hr Hc. apply claimed_claimable in Hc; [|done]. by destruct (elem_of_claimable r Hc). Qed.

Lemma NoDup_claimable : NoDup (claimable now limit db).
Proof using Hids.
  eapply sublist_NoDup; [|apply limitRows_sublist]. unfold oldestFirst. rewrite isort_perm.
  apply NoDup_filter. eapply NoDup_fmap_1. exact Hids.
Qed.

Lemma claimed_perm : select (claimed now limit db) (rows db) ≡ₚ claimable now limit db.
Proof using Hids.
  apply NoDup_Permutation; [apply NoDup_filter; eapply NoDup_fmap_1; exact Hids|apply NoDup_claimable|].
  intros r. rewrite elem_of_select. split.
  - intros [Hc Hr]. by apply claimed_claimable.
  - intros Hc. destruct (elem_of_claimable _ Hc). split; [by apply claimed_claimable|done].
Qed.

Lemma rows_claimDB :
  rows (claimDB now lease limit db) =
  map (fun r => if claimed now limit db r then leased now lease r else r) (rows db).
Proof. done. Qed.

Lemma elem_of_claimMessages m : m ∈ claimMessages now lease limit db <->
  exists r, r ∈ rows db /\ claimed now limit db r = true /\ m = or_message (leased now lease r).
Proof.
  unfold claimMessages. rewrite list_elem_of_fmap. unfold oldestFirst. split.
  - intros (r & -> & Hr). rewrite isort_perm, elem_of_select, rows_claimDB in Hr. destruct Hr as [Hc Hr].
    apply list_elem_of_fmap in Hr as (r' & -> & Hr'). exists r'. destruct (claimed now limit db r') eqn:E; [done|congruence].
  - intros (r & Hr & Hc & ->). exists (leased now lease r). split; [done|].
    rewrite isort_perm, elem_of_select, rows_claimDB. split; [exact Hc|].
    apply list_elem_of_fmap. exists r. by rewrite Hc.
Qed.

Lemma length_claimMessages : length (claimMessages now lease limit db) = length (claimable now limit db).
Proof using Hids.
  unfold claimMessages. rewrite length_map. unfold oldestFirst. rewrite isort_perm, <- claimed_perm, rows_claimDB.
  by rewrite select_updated, length_map.
Qed.

Lemma length_claimable : 0 <= limit ->
  length (claimable now limit db) = Nat.min (Z.to_nat limit) (length (dueRows now db)).
Proof.
  intros Hl. unfold claimable, limitRows. destruct (limit <? 0) eqn:E; [lia|]. rewrite length_take.
  unfold oldestFirst. by rewrite isort_perm.
Qed.

Lemma claimed_all r : 0 <= limit -> (length (dueRows now db) <= Z.to_nat limit)%nat ->
  r ∈ rows db -> due now r = true -> claimed now limit db r = true.
Proof using Hids.
  intros Hl Hlen Hr Hd. apply claimed_claimable; [done|]. unfold claimable, limitRows. destruct (limit <? 0) eqn:E; [lia|].
  unfold dueRows in Hlen. assert (Hp : oldestFirst (select (due now) (rows db)) ≡ₚ select (due now) (rows db)) by apply isort_perm.
  rewrite take_ge by (by rewrite Hp). rewrite Hp. by apply elem_of_select.
Qed.

Lemma dueRows_claimDB : 0 < lease ->
  dueRows now (claimDB now lease limit db) = select (fun r => negb (claimed now limit db r)) (dueRows now db).
Proof.
  clear Hids. intros Hl. unfold dueRows. rewrite rows_claimDB, select_select.
  unfold select. induction (rows db) as [|x l IH]; [done|]. simpl. rewrite !filter_cons, IH.
  destruct (claimed now limit db x) eqn:E; simpl; [|done].
  rewrite decide_False; [done|]. unfold due. simpl. rewrite Z.leb_le. lia.
Qed.

Lemma length_dueRows_claimDB : 0 < lease ->
  (length (dueRows now (claimDB now lease limit db)) + length (claimable now limit db) = length (dueRows now db))%nat.
Proof using Hids.
  intros Hl. rewrite dueRows_claimDB by done. rewrite <- claimed_perm. unfold dueRows.
  assert (select (claimed now limit db) (rows db) =
          select (claimed now limit db) (select (due now) (rows db))) as ->.
  { rewrite select_select. apply select_ext. intros r Hr. destruct (claimed now limit db r) eqn:E; [|done].
    by rewrite (claimed_due r Hr E). }
  induction (select (due now) (rows db)) as [|x l IH]; [done|]. unfold select in *. rewrite !filter_cons.
  destruct (claimed now limit db x); simpl in *; lia.
Qed.

Lemma ids_claimDB : row_id <$> rows (claimDB now lease limit db) = row_id <$> rows db.
Proof. apply (update_col row_id (claimed now limit db) (leased now lease)). done. Qed.
End Claim.

(** Claims one after the other, by any number of workers: what they took. *)
Record claim := mkClaim { cl_Now : Time; cl_Lease : Z; cl_Limit : Z }.

Fixpoint claimAll (cs : list claim) (db : SQLite) : list OutboxMessage * SQLite :=
  match cs with
  | [] => ([], db)
  | c :: cs' =>
      match ClaimOutbox (cl_Now c) (cl_Lease c) (cl_Limit c) db with
      | Failed _ => claimAll cs' db
      | Done (ms, db') => let (ms', db'') := claimAll cs' db' in (ms ++ ms', db'')
      end
  end.

(** Every row of [ids] is leased until [t]. *)
Definition leased_until (t : Time) (i : Z) (db : SQLite) : Prop :=
  forall r, r ∈ rows db -> row_id r = i -> t <= m_NextAttemptAt (or_message r).

Lemma claim_leaves_leased t i c db : NoDup (row_id <$> rows db) -> cl_Now c < t -> leased_until t i db ->
  leased_until t i (claimDB (cl_Now c) (cl_Lease c) (cl_Limit c) db) /\
  i ∉ m_ID <$> claimMessages (cl_Now c) (cl_Lease c) (cl_Limit c) db.
Proof.
  intros Hn Ht Hl.
  assert (Hno : forall r, r ∈ rows db -> row_id r = i -> claimed (cl_Now c) (cl_Limit c) db r = false).
  { intros r Hr Hi. destruct (claimed _ _ _ r) eqn:E; [|done]. apply claimed_due in E; [|done..].
    unfold due in E. specialize (Hl r Hr Hi). lia. }
  split.
  - intros r Hr Hi. rewrite rows_claimDB in Hr. apply list_elem_of_fmap in Hr as (r0 & -> & Hr0).
    destruct (claimed _ _ _ r0) eqn:E; [|auto]. by rewrite Hno in E.
  - intros (m & -> & Hm)%list_elem_of_fmap. apply elem_of_claimMessages in Hm as (r & Hr & Hc & ->).
    by rewrite Hno in Hc.
Qed.

Lemma claimAll_leaves_leased t i cs db : NoDup (row_id <$> rows db) -> Forall (fun c => cl_Now c < t) cs ->
  leased_until t i db -> i ∉ m_ID <$> (claimAll cs db).1.
Proof.
  revert db. induction cs as [|c cs IH]; intros db Hn Hcs Hl; [apply not_elem_of_nil|].
  apply Forall_cons in Hcs as [Hc Hcs]. cbn [claimAll]. rewrite ClaimOutbox_Done.
  destruct (claim_leaves_leased t i c db Hn Hc Hl) as [Hl' Hni].
  specialize (IH (claimDB (cl_Now c) (cl_Lease c) (cl_Limit c) db)).
  destruct (claimAll cs _) as [ms' db'']. simpl in *. rewrite fmap_app, not_elem_of_app. split; [done|].
  apply IH; [by rewrite ids_claimDB|done..].
Qed.

Lemma claim_leases now lease limit db m : NoDup (row_id <$> rows db) -> m ∈ claimMessages now lease limit db ->
  leased_until (now + lease) (m_ID m) (claimDB now lease limit db).
Proof.
  intros Hn (r0 & Hr0 & Hc0 & ->)%elem_of_claimMessages r Hr Hi. rewrite rows_claimDB in Hr.
  apply list_elem_of_fmap in Hr as (r1 & -> & Hr1).
  assert (claimed now limit db r1 = true) as ->; [|simpl; lia].
  unfold claimed. replace (row_id r1) with (row_id r0); [exact Hc0|]. by destruct (claimed now limit db r1).
Qed.

(** C13 A claimed message is its claimer's until the lease ends: however many
    claims other workers make before then, none of them takes it. The claim
    itself took only messages that were due, at most [limit] of them, and
    counted the attempt. *)
Theorem claim_exclusive now lease limit cs db ms db' : db_ok db -> 0 <= limit ->
  ClaimOutbox now lease limit db = Done (ms, db') -> Forall (fun c => cl_Now c < now + lease) cs ->
  zlen ms <= limit /\
  (forall m, m ∈ ms -> m_ID m ∉ m_ID <$> (claimAll cs db').1 /\
     exists r, r ∈ rows db /\ due now r = true /\ m_ID m = row_id r /\
       m_Attempts m = m_Attempts (or_message r) + 1 /\ m_NextAttemptAt m = now + lease).
Proof.
  intros Hok Hlim Hclaim Hcs. rewrite ClaimOutbox_Done in Hclaim. injection Hclaim as <- <-.
  destruct (ok_outbox _ Hok) as (Hn & _). change (NoDup (row_id <$> rows db)) in Hn. split.
  - unfold zlen. rewrite length_claimMessages, length_claimable by done. lia.
  - intros m Hm. split.
    + eapply claimAll_leaves_leased; [by rewrite ids_claimDB|exact Hcs|by apply claim_leases].
    + apply elem_of_claimMessages in Hm as (r & Hr & Hc & ->). exists r. split_and!; try done.
      by eapply claimed_due.
Qed.

Lemma claim_exclusive_witness :
  exists ms db', ClaimOutbox (4 * day) outboxLease 2 exampleDB = Done (ms, db') /\ zlen ms = 2 /\
    forall m, m ∈ ms -> m_ID m ∉ m_ID <$> (claimAll [mkClaim (4 * day + minute) outboxLease 50] db').1.
Proof.
  eexists _, _. split_and!; [rewrite ClaimOutbox_Done; reflexivity|vm_compute; reflexivity|].
  intros m Hm. eapply (claim_exclusive (4 * day) outboxLease 2 [mkClaim (4 * day + minute) outboxLease 50] exampleDB);
    [exact exampleDB_ok|lia|apply ClaimOutbox_Done|repeat constructor|exact Hm].
Defined.

(** ** One pass at one instant *)

Record at_clock (now : Time) (c : call) : Prop := {
  at_age : ca_Age c = now;
  at_held : ca_Held c = now;
  at_start : ca_Start c = now;
  at_hold : now <= ca_Hold c;
  at_retry : now <= ca_Retry c;
}.

Record turn_at (now : Time) (t : turn) : Prop := {
  turn_live : tu_Ended t = false;
  turn_now : tu_Now t = now;
  turn_calls : forall m, at_clock now (tu_Answers t m);
}.

(** A verdict that leaves the message for after [now]. *)
Definition moves_on (now : Time) (v : verdict) : Prop :=
  match v with
  | Drop => True
  | Later next | Retry next _ => now < next
  | PutBack _ => False
  end.

(** A verdict whose next attempt is no later than the message's expiry. *)
Definition within_life (created : Time) (v : verdict) : Prop :=
  match v with
  | Later next | Retry next _ => created <> zeroTime -> next <= created + outboxMaxAge
  | _ => True
  end.

Lemma doubled_lower n d : 0 < d -> d <= doubled n d.
Proof. revert d. induction n as [|n IH]; intros d Hd; simpl; [lia|]. case_match; [|lia]. specialize (IH (d * 2)). lia. Qed.

Lemma outboxBackoff_bounds attempts : outboxBaseBackoff <= outboxBackoff attempts <= outboxMaxBackoff.
Proof.
  unfold outboxBackoff. pose proof (doubled_lower (Z.to_nat (attempts - 1)) outboxBaseBackoff).
  assert (0 < outboxBaseBackoff < outboxMaxBackoff) by done. lia.
Qed.

Lemma retryDelay_bounds attempts f : outboxBaseBackoff <= retryDelay attempts f <= outboxMaxBackoff.
Proof.
  pose proof (outboxBackoff_bounds attempts). unfold retryDelay, outboxMaxRetryAfter. case_match; lia.
Qed.

Lemma expiryCap_le m t : m_CreatedAt m <> zeroTime -> expiryCap m t <= expiry m.
Proof.
  intros Hz. unfold expiryCap, IsZero, Before. destruct (m_CreatedAt m =? zeroTime) eqn:E; [lia|].
  destruct (expiry m <? t) eqn:Et; lia.
Qed.

Lemma expiryCap_after m now t : now < t -> (m_CreatedAt m <> zeroTime -> now < expiry m) -> now < expiryCap m t.
Proof.
  intros Ht He. unfold expiryCap, IsZero, Before. destruct (m_CreatedAt m =? zeroTime) eqn:E; [done|].
  destruct (expiry m <? t); [|done]. apply He. lia.
Qed.

Lemma judge_within_life s c m h : within_life (m_CreatedAt m) (judge s c m h).1.
Proof.
  unfold judge. repeat (case_match; simplify_eq/=; try exact I); intros Hz; by apply expiryCap_le.
Qed.

Lemma judge_putBack s c m h : match (judge s c m h).1 with PutBack n => n = ca_Start c | _ => True end.
Proof. unfold judge. by repeat (case_match; simplify_eq/=). Qed.

Lemma unexpired now m : negb (IsZero (m_CreatedAt m)) && (outboxMaxAge <=? Sub now (m_CreatedAt m)) = false ->
  m_CreatedAt m <> zeroTime -> now < expiry m.
Proof.
  intros H Hz. unfold IsZero, expiry in *. assert (m_CreatedAt m =? zeroTime = false) as E by lia. rewrite E in H.
  simpl in H. assert (outboxMaxAge < maxInt) by done. unfold Sub in H. lia.
Qed.

Lemma heldUntil_after k now h t h' : heldUntil k now h = (Some t, h') -> now < t.
Proof.
  unfold heldUntil, After. destruct (h !! k) as [u|]; [|done]. destruct (now <? u) eqn:E; simpl; [|done].
  intros [= -> _]. lia.
Qed.

Lemma judge_moves_on s c m h now : at_clock now c -> m_NextAttemptAt m = now + s_outboxLease s ->
  moves_on now (judge s c m h).1.
Proof.
  intros [E1 E2 E3 H4 H5] Hm. unfold judge. rewrite E1, E2, E3, Hm.
  destruct (negb (mem_str _ _)); [done|]. destruct (notificationOf m) as [n|]; [|done].
  destruct (negb (IsZero _) && _) eqn:Eage; [done|]. pose proof (unexpired _ _ Eage) as Hexp.
  destruct (heldUntil _ now h) as [[until|] h'] eqn:Eh.
  - simpl. apply expiryCap_after; [by eapply heldUntil_after|done].
  - set (need := s_notifyTimeout s + s_notifyTimeout s / 5).
    assert ((need <? s_outboxLease s) && After (now + need) (now + s_outboxLease s) = false) as ->.
    { unfold After. destruct (need <? s_outboxLease s) eqn:En; [|done]. apply Z.ltb_lt in En. apply Z.ltb_ge. lia. }
    destruct (ca_Answer c) as [f|]; [|done]. destruct (outboxMaxAttempts <=? _); [done|]. simpl.
    apply expiryCap_after; [|done]. pose proof (retryDelay_bounds (m_Attempts m) f).
    assert (0 < outboxBaseBackoff) by done. lia.
Qed.

Lemma judge_expired s c m h now : at_clock now c -> m_CreatedAt m <> zeroTime -> expiry m <= now ->
  (judge s c m h).1 = Drop.
Proof.
  intros [E1 _ _ _ _] Hz He. unfold judge. destruct (negb (mem_str _ _)); [done|].
  destruct (notificationOf m) as [n|]; [|done]. rewrite E1. destruct (negb (IsZero _) && _) eqn:Eage; [done|].
  apply unexpired in Eage; [lia|done].
Qed.

(** ** What a batch does to the rows *)

Definition created (r : outboxRow) : Time := m_CreatedAt (or_message r).
Definition next (r : outboxRow) : Time := m_NextAttemptAt (or_message r).

(** [r'] is [r] put off until after [now], and not past its expiry. *)
Record put_off (now : Time) (r r' : outboxRow) : Prop := {
  po_id : row_id r' = row_id r;
  po_created : created r' = created r;
  po_next : now < next r';
  po_life : created r <> zeroTime -> next r' <= created r + outboxMaxAge;
}.

Lemma settleRow_put_off now v r r' : moves_on now v -> within_life (created r) v -> settleRow v r = Some r' ->
  put_off now r r'.
Proof. destruct v; simpl; intros Hm Hl [= <-]; [split; auto|done|split; auto]. Qed.

Lemma put_off_trans now r r1 r2 : put_off now r r1 -> put_off now r1 r2 -> put_off now r r2.
Proof.
  intros [A1 A2 A3 A4] [B1 B2 B3 B4]. split; [congruence|congruence|done|]. rewrite A2 in B4. done.
Qed.

(** The messages agree with the rows they were claimed from. *)
Definition agree (ms : list OutboxMessage) (l : list outboxRow) : Prop :=
  forall m r, m ∈ ms -> r ∈ l -> row_id r = m_ID m -> m_CreatedAt m = created r.

Lemma select_omap_same {A} (p : A -> bool) (f : A -> option A) (l : list A) :
  (forall x, x ∈ l -> f x = Some x \/ (p x = false /\ forall y, f x = Some y -> p y = false)) ->
  select p (omap f l) = select p l.
Proof.
  induction l as [|x l IH]; intros H; [done|]. unfold select in *. rewrite filter_cons.
  change (omap f (x :: l)) with (match f x with Some y => y :: omap f l | None => omap f l end).
  assert (IH' : filter (fun r => p r = true) (omap f l) = filter (fun r => p r = true) l)
    by (apply IH; intros y Hy; apply H; by right).
  destruct (H x) as [-> |[Hx Hy]]; [left| |].
  - by rewrite filter_cons, IH'.
  - rewrite (decide_False (P := p x = true)) by (by rewrite Hx). destruct (f x) as [y|] eqn:E; [|done].
    rewrite filter_cons_False; [done|]. by rewrite (Hy y).
Qed.

Section Batch.
Context (s : server) (now : Time) (ans : OutboxMessage -> call).
Hypothesis Hans : forall m, at_clock now (ans m).

Definition fresh (m : OutboxMessage) : Prop := m_NextAttemptAt m = now + s_outboxLease s.

Lemma deliver_rows m w :
  rows (w_db (deliver s ans m w).2) = omap (settleAt (judge s (ans m) m (w_holds w)).1 (m_ID m)) (rows (w_db w)).
Proof. unfold deliver. destruct (judge s (ans m) m (w_holds w)) as [v h]. simpl. by rewrite settleVerdict_table. Qed.

Lemma deliver_ok m w : fresh m -> (deliver s ans m w).1 = true.
Proof using Hans.
  intros Hm. pose proof (judge_moves_on s (ans m) m (w_holds w) now (Hans m) Hm) as Hv. unfold deliver.
  destruct (judge s (ans m) m (w_holds w)) as [[] h]; done.
Qed.

(** Where a row after a delivery comes from. *)
Lemma deliver_row_from m w r' : fresh m -> agree [m] (rows (w_db w)) -> r' ∈ rows (w_db (deliver s ans m w).2) ->
  exists r, r ∈ rows (w_db w) /\ ((r' = r /\ row_id r <> m_ID m) \/ (row_id r = m_ID m /\ put_off now r r')).
Proof using Hans.
  intros Hm Ha Hr. rewrite deliver_rows in Hr. apply list_elem_of_omap in Hr as (r & Hr & Hs). exists r. split; [done|].
  unfold settleAt, messageIs in Hs. destruct (row_id r =? m_ID m) eqn:E.
  - apply Z.eqb_eq in E. right. split; [done|]. eapply settleRow_put_off; [|  |exact Hs].
    + by apply judge_moves_on.
    + rewrite <- (Ha m r); [apply judge_within_life|left|done..].
  - apply Z.eqb_neq in E. left. by injection Hs as ->.
Qed.

Lemma deliver_row_kept m w r : r ∈ rows (w_db w) -> row_id r <> m_ID m -> r ∈ rows (w_db (deliver s ans m w).2).
Proof.
  intros Hr Hi. rewrite deliver_rows. apply list_elem_of_omap. exists r. split; [done|]. unfold settleAt, messageIs.
  by apply Z.eqb_neq in Hi as ->.
Qed.

Lemma agree_deliver m ms w : fresh m -> agree (m :: ms) (rows (w_db w)) ->
  agree [m] (rows (w_db w)) /\ agree ms (rows (w_db (deliver s ans m w).2)).
Proof using Hans.
  intros Hm Ha. assert (H1 : agree [m] (rows (w_db w))).
  { intros m' r Hm' Hr Hi. apply list_elem_of_singleton in Hm' as ->. apply Ha; [left|done..]. }
  split; [done|]. intros m' r' Hm' Hr' Hi.
  destruct (deliver_row_from m w r' Hm H1 Hr') as (r & Hr & [[-> _]|[_ [P1 P2 _ _]]]).
  - apply Ha; [by right|done..].
  - rewrite P2. apply Ha; [by right|done|congruence].
Qed.

Lemma batch_counts ms n w : Forall fresh ms -> (deliverAll s ans ms n w).1 = n.
Proof using Hans.
  revert w. induction ms as [|m ms IH]; intros w Hf; [done|]. apply Forall_cons in Hf as [Hm Hf]. cbn [deliverAll].
  pose proof (deliver_ok m w Hm) as Hok. destruct (deliver s ans m w) as [ok w']. simpl in Hok. subst ok. by apply IH.
Qed.

Lemma batch_row_from ms n w r' : Forall fresh ms -> agree ms (rows (w_db w)) ->
  r' ∈ rows (w_db (deliverAll s ans ms n w).2) ->
  exists r, r ∈ rows (w_db w) /\ ((r' = r /\ row_id r ∉ m_ID <$> ms) \/ (row_id r ∈ m_ID <$> ms /\ put_off now r r')).
Proof using Hans.
  revert n w. induction ms as [|m ms IH]; intros n w Hf Ha Hr'.
  { exists r'. split; [done|]. left. split; [done|]. apply not_elem_of_nil. }
  apply Forall_cons in Hf as [Hm Hf]. destruct (agree_deliver m ms w Hm Ha) as [Ha1 Ha']. cbn [deliverAll] in Hr'.
  pose proof (deliver_row_from m w) as Hfrom. destruct (deliver s ans m w) as [ok w']. simpl in Ha', Hfrom.
  destruct (IH _ _ Hf Ha' Hr') as (r1 & Hr1 & Hcase). destruct (Hfrom r1 Hm Ha1 Hr1) as (r & Hr & Hcase1).
  exists r. split; [done|]. rewrite fmap_cons, elem_of_cons.
  destruct Hcase1 as [[-> Hne]|[Heq Hpo]], Hcase as [[-> Hni]|[Hin Hpo']]; [left|right..]; split; try tauto;
    eauto using put_off_trans.
Qed.

Lemma batch_row_kept ms n w r : r ∈ rows (w_db w) -> row_id r ∉ m_ID <$> ms ->
  r ∈ rows (w_db (deliverAll s ans ms n w).2).
Proof.
  revert n w. induction ms as [|m ms IH]; intros n w Hr Hi; [done|].
  rewrite fmap_cons, not_elem_of_cons in Hi. destruct Hi as [Hi1 Hi]. cbn [deliverAll].
  pose proof (deliver_row_kept m w r Hr Hi1) as Hk. destruct (deliver s ans m w) as [ok w']. by apply IH.
Qed.

Lemma batch_dropped ms n w m : m ∈ ms -> Forall fresh ms -> agree ms (rows (w_db w)) ->
  m_CreatedAt m <> zeroTime -> expiry m <= now -> m_ID m ∉ row_id <$> rows (w_db (deliverAll s ans ms n w).2).
Proof using Hans.
  intros Hm Hf Ha Hz He. revert n w Hf Ha Hm. induction ms as [|x ms IH]; intros n w Hf Ha Hm; [by apply not_elem_of_nil in Hm|].
  pose proof Ha as Ha0. apply Forall_cons in Hf as [Hx Hf]. destruct (agree_deliver x ms w Hx Ha) as [_ Ha'].
  apply elem_of_cons in Hm as [<-|Hm].
  - intros (r' & Hid & Hr')%list_elem_of_fmap. cbn [deliverAll] in Hr'. pose proof (deliver_rows m w) as Hrows.
    rewrite (judge_expired s (ans m) m (w_holds w) now) in Hrows by done.
    destruct (deliver s ans m w) as [ok w'] eqn:Ed. simpl in *.
    destruct (batch_row_from ms _ w' r' Hf Ha' Hr') as (r & Hr & Hcase). rewrite Hrows in Hr.
    apply list_elem_of_omap in Hr as (r0 & _ & Hs). unfold settleAt, messageIs in Hs.
    destruct (row_id r0 =? m_ID m) eqn:E; [done|]. injection Hs as ->. apply Z.eqb_neq in E.
    destruct Hcase as [[-> _]|[_ [P _ _ _]]]; congruence.
  - cbn [deliverAll]. destruct (deliver s ans x w) as [ok w']. by apply IH.
Qed.

Lemma put_off_due r r' : put_off now r r' -> due now r' = false.
Proof. intros [_ _ H _]. unfold due, next in *. apply Z.leb_gt. exact H. Qed.

Lemma deliver_dueRows m w : fresh m -> agree [m] (rows (w_db w)) ->
  (forall r, r ∈ rows (w_db w) -> row_id r = m_ID m -> due now r = false) ->
  dueRows now (w_db (deliver s ans m w).2) = dueRows now (w_db w).
Proof using Hans.
  intros Hm Ha Hd. unfold dueRows. rewrite deliver_rows. apply select_omap_same. intros r Hr.
  unfold settleAt, messageIs. destruct (row_id r =? m_ID m) eqn:E; [right|by left]. apply Z.eqb_eq in E.
  split; [by apply Hd|]. intros r' Hs. apply (put_off_due r). eapply settleRow_put_off; [|  |exact Hs].
  - by apply judge_moves_on.
  - rewrite <- (Ha m r); [apply judge_within_life|left|done..].
Qed.

Lemma batch_dueRows ms n w : Forall fresh ms -> agree ms (rows (w_db w)) ->
  (forall r, r ∈ rows (w_db w) -> row_id r ∈ m_ID <$> ms -> due now r = false) ->
  dueRows now (w_db (deliverAll s ans ms n w).2) = dueRows now (w_db w).
Proof using Hans.
  revert n w. induction ms as [|m ms IH]; intros n w Hf Ha Hd; [done|].
  apply Forall_cons in Hf as [Hm Hf]. destruct (agree_deliver m ms w Hm Ha) as [Ha1 Ha']. cbn [deliverAll].
  pose proof (deliver_dueRows m w Hm Ha1) as Hdue. pose proof (deliver_row_from m w) as Hfrom.
  destruct (deliver s ans m w) as [ok w']. cbn [fst snd] in *. rewrite IH; [apply Hdue| | |].
  - intros r Hr Hi. apply Hd; [done|]. rewrite fmap_cons, elem_of_cons. by left.
  - done.
  - done.
  - intros r' Hr' Hi. destruct (Hfrom r' Hm Ha1 Hr') as (r & Hr & [[-> _]|[_ Hpo]]).
    + apply Hd; [done|]. rewrite fmap_cons, elem_of_cons. by right.
    + by apply put_off_due in Hpo.
Qed.
End Batch.

Lemma elem_of_batchOrder m ms : m ∈ batchOrder ms <-> m ∈ ms.
Proof. rewrite <- elem_of_sinkQueue, batchOrder_alike. apply elem_of_sinkQueue. Qed.

Lemma ids_batchOrder i ms : i ∈ m_ID <$> batchOrder ms <-> i ∈ m_ID <$> ms.
Proof. rewrite !list_elem_of_fmap. by setoid_rewrite elem_of_batchOrder. Qed.

Lemma settleVerdict_ok v id db : db_ok db -> db_ok (settleVerdict v id db).
Proof. intros Hok. destruct v; unfold settleVerdict; eapply keeps_commit; eauto using DeleteOutbox_ok, DeferOutbox_ok, RescheduleOutbox_ok. Qed.

Lemma deliverAll_ok s ans ms n w : db_ok (w_db w) -> db_ok (w_db (deliverAll s ans ms n w).2).
Proof.
  revert n w. induction ms as [|m ms IH]; intros n w Hok; [done|]. cbn [deliverAll]. unfold deliver.
  destruct (judge s (ans m) m (w_holds w)) as [v h]. by apply IH, settleVerdict_ok.
Qed.

(** One turn of the loop: a claim and the deliveries of what it took. *)
Definition claimedAt (now : Time) (db : SQLite) : outboxRow -> bool := claimed now outboxBatch db.

Definition turnOf (s : server) (now : Time) (ans : OutboxMessage -> call) (w : worker) : worker :=
  (deliverBatch s ans (claimMessages now (s_outboxLease s) outboxBatch (w_db w))
     (mkWorker (claimDB now (s_outboxLease s) outboxBatch (w_db w)) (w_holds w))).2.

Section Turn.
Context (s : server) (now : Time) (ans : OutboxMessage -> call) (w : worker).
Hypothesis Hans : forall m, at_clock now (ans m).
Hypothesis Hok : db_ok (w_db w).
Hypothesis Hlease : 0 < s_outboxLease s.
Notation ms := (claimMessages now (s_outboxLease s) outboxBatch (w_db w)).
Notation db' := (claimDB now (s_outboxLease s) outboxBatch (w_db w)).

Lemma ok_ids : NoDup (row_id <$> rows (w_db w)).
Proof using Hok. by destruct (ok_outbox _ Hok) as (Hn & _). Qed.

Lemma claimed_fresh : Forall (fresh s now) (batchOrder ms).
Proof.
  apply Forall_forall. intros m Hm. apply elem_of_batchOrder, elem_of_claimMessages in Hm as (r & _ & _ & ->). done.
Qed.

(** The row a claimed message came from. *)
Lemma claimed_row_of m r : m ∈ ms -> r ∈ rows (w_db w) -> row_id r = m_ID m ->
  claimedAt now (w_db w) r = true /\ m = or_message (leased now (s_outboxLease s) r).
Proof using Hok.
  intros (r0 & Hr0 & Hc & ->)%elem_of_claimMessages Hr Hi.
  assert (r0 = r) as ->; [|done]. by eapply row_id_inj; [apply ok_ids|..].
Qed.

Lemma claimed_ids r : r ∈ rows (w_db w) -> row_id r ∈ m_ID <$> batchOrder ms <-> claimedAt now (w_db w) r = true.
Proof using Hok.
  intros Hr. rewrite ids_batchOrder, list_elem_of_fmap. split.
  - intros (m & Hi & Hm). by destruct (claimed_row_of m r Hm Hr Hi).
  - intros Hc. exists (or_message (leased now (s_outboxLease s) r)). split; [done|].
    apply elem_of_claimMessages. eauto.
Qed.

Lemma row_of_claimDB r' : r' ∈ rows db' ->
  exists r, r ∈ rows (w_db w) /\ row_id r' = row_id r /\ created r' = created r /\
    (if claimedAt now (w_db w) r then next r' = now + s_outboxLease s else r' = r).
Proof.
  rewrite rows_claimDB. intros (r & -> & Hr)%list_elem_of_fmap. exists r. unfold claimedAt.
  destruct (claimed now outboxBatch (w_db w) r); done.
Qed.

Lemma claimed_agree : agree (batchOrder ms) (rows db').
Proof using Hok.
  intros m r' Hm Hr' Hi. rewrite elem_of_batchOrder in Hm. destruct (row_of_claimDB r' Hr') as (r & Hr & Hi' & Hc & _).
  destruct (claimed_row_of m r Hm Hr) as [_ ->]; [congruence|]. by rewrite Hc.
Qed.

Lemma turn_counts : (deliverBatch s ans ms (mkWorker db' (w_holds w))).1 = 0.
Proof using Hans. eapply batch_counts; [exact Hans|apply claimed_fresh]. Qed.

Lemma turn_ok : db_ok (w_db (turnOf s now ans w)).
Proof using Hok.
  apply deliverAll_ok. cbn [w_db]. eapply ClaimOutbox_ok; [exact Hok|]. apply ClaimOutbox_Done.
Qed.

Lemma turn_row_from r' : r' ∈ rows (w_db (turnOf s now ans w)) ->
  exists r, r ∈ rows (w_db w) /\
    ((r' = r /\ claimedAt now (w_db w) r = false) \/ (claimedAt now (w_db w) r = true /\ put_off now r r')).
Proof using Hans Hok.
  intros Hr'. apply (batch_row_from s now ans Hans) in Hr' as (r1 & Hr1 & Hcase); [|apply claimed_fresh|apply claimed_agree].
  destruct (row_of_claimDB r1 Hr1) as (r & Hr & Hi & Hc & Hif). exists r. split; [done|].
  pose proof (claimed_ids r Hr) as Hids. rewrite <- Hi in Hids. revert Hif Hids.
  destruct (claimedAt now (w_db w) r); intros Hif Hids; destruct Hcase as [[-> Hni]|[Hin [P1 P2 P3 P4]]].
  - exfalso. by apply Hni, Hids.
  - right. split; [done|]. split; [congruence|congruence|done|]. by rewrite <- Hc.
  - left. done.
  - exfalso. by apply Hids in Hin.
Qed.

Lemma turn_row_kept r : r ∈ rows (w_db w) -> claimedAt now (w_db w) r = false -> r ∈ rows (w_db (turnOf s now ans w)).
Proof using Hok.
  intros Hr Hc. apply batch_row_kept.
  - cbn [w_db]. rewrite rows_claimDB. apply list_elem_of_fmap. exists r. unfold claimedAt in Hc. by rewrite Hc.
  - rewrite claimed_ids by done. congruence.
Qed.

Lemma turn_expired r : r ∈ rows (w_db w) -> claimedAt now (w_db w) r = true ->
  created r <> zeroTime -> created r + outboxMaxAge <= now -> row_id r ∉ row_id <$> rows (w_db (turnOf s now ans w)).
Proof using Hans Hok.
  intros Hr Hc Hz He. change (row_id r) with (m_ID (or_message (leased now (s_outboxLease s) r))).
  eapply (batch_dropped s now ans Hans); [|apply claimed_fresh|apply claimed_agree|exact Hz|exact He].
  apply elem_of_batchOrder, elem_of_claimMessages. eauto.
Qed.

Lemma turn_due : (length (dueRows now (w_db (turnOf s now ans w))) + length ms = length (dueRows now (w_db w)))%nat.
Proof using Hans Hok Hlease.
  unfold turnOf, deliverBatch. rewrite (batch_dueRows s now ans Hans); [|apply claimed_fresh|apply claimed_agree|].
  - rewrite length_claimMessages by apply ok_ids. cbn [w_db]. apply length_dueRows_claimDB; [apply ok_ids|done].
  - intros r' Hr' Hi. cbn [w_db] in Hr'. destruct (row_of_claimDB r' Hr') as (r & Hr & Hi' & _ & Hif).
    rewrite Hi' in Hi. apply claimed_ids in Hi; [|done]. rewrite Hi in Hif. unfold due, next in *. lia.
Qed.

Lemma length_turn : length ms = Nat.min (Z.to_nat outboxBatch) (length (dueRows now (w_db w))).
Proof using Hok. rewrite length_claimMessages by apply ok_ids. by apply length_claimable. Qed.
End Turn.

(** ** A whole pass *)

(** What a pass at [now] leaves of the rows [l]. *)
Record pass_done (now : Time) (l l' : list outboxRow) : Prop := {
  pd_drained : forall r', r' ∈ l' -> due now r' = false;
  pd_from : forall r', r' ∈ l' ->
    exists r, r ∈ l /\ ((r' = r /\ due now r = false) \/ (due now r = true /\ put_off now r r'));
  pd_kept : forall r, r ∈ l -> due now r = false -> r ∈ l';
  pd_expired : forall r, r ∈ l -> due now r = true -> created r <> zeroTime -> created r + outboxMaxAge <= now ->
    row_id r ∉ row_id <$> l';
}.

Lemma put_off_due_false now r r' : put_off now r r' -> due now r' = false.
Proof. intros [_ _ H _]. unfold due, next in *. apply Z.leb_gt. exact H. Qed.

Lemma dueRows_nil now db : dueRows now db = [] <-> forall r, r ∈ rows db -> due now r = false.
Proof. apply select_nil. Qed.

Section Pass.
Context (s : server) (now : Time) (turns : nat -> turn).
Hypothesis Hturns : forall k, turn_at now (turns k).
Hypothesis Hlease : 0 < s_outboxLease s.

Lemma claimedAt_due w r : db_ok (w_db w) -> r ∈ rows (w_db w) -> claimedAt now (w_db w) r = true -> due now r = true.
Proof. intros Hok Hr. eapply claimed_due; [by apply ok_ids|done]. Qed.

(** The last turn: everything due was claimed. *)
Lemma pass_last ans w : (forall m, at_clock now (ans m)) -> db_ok (w_db w) ->
  dueRows now (w_db (turnOf s now ans w)) = [] -> pass_done now (rows (w_db w)) (rows (w_db (turnOf s now ans w))).
Proof using Hlease.
  intros Hans Hok Hdue. rewrite dueRows_nil in Hdue. split.
  - done.
  - intros r' Hr'. destruct (turn_row_from s now ans w Hans Hok r' Hr') as (r & Hr & Hcase). exists r. split; [done|].
    destruct Hcase as [[-> Hc]|[Hc Hpo]]; [left; auto|right]. eauto using claimedAt_due.
  - intros r Hr Hd. apply turn_row_kept; [done..|]. destruct (claimedAt now (w_db w) r) eqn:E; [|done].
    apply claimedAt_due in E; [congruence|done..].
  - intros r Hr Hd Hz He. destruct (claimedAt now (w_db w) r) eqn:E; [by apply turn_expired|].
    exfalso. pose proof (turn_row_kept s now ans w Hok r Hr E) as Hk. specialize (Hdue r Hk). congruence.
Qed.

(** Another turn before a pass. *)
Lemma pass_more ans w l' : (forall m, at_clock now (ans m)) -> db_ok (w_db w) ->
  pass_done now (rows (w_db (turnOf s now ans w))) l' -> pass_done now (rows (w_db w)) l'.
Proof using Hlease.
  intros Hans Hok [P1 P2 P3 P4]. split.
  - done.
  - intros r' Hr'. destruct (P2 r' Hr') as (r1 & Hr1 & Hcase1).
    destruct (turn_row_from s now ans w Hans Hok r1 Hr1) as (r & Hr & Hcase). exists r. split; [done|].
    destruct Hcase as [[-> Hc]|[Hc Hpo]]; [done|]. right. split; [by eapply claimedAt_due|].
    destruct Hcase1 as [[-> _]|[Hd _]]; [done|]. apply put_off_due_false in Hpo. congruence.
  - intros r Hr Hd. apply P3; [|done]. apply turn_row_kept; [done..|].
    destruct (claimedAt now (w_db w) r) eqn:E; [|done]. apply claimedAt_due in E; [congruence|done..].
  - intros r Hr Hd Hz He. destruct (claimedAt now (w_db w) r) eqn:E.
    + intros (r' & Hi & Hr')%list_elem_of_fmap. destruct (P2 r' Hr') as (r1 & Hr1 & Hcase1).
      apply (turn_expired s now ans w Hans Hok r Hr E Hz He). rewrite Hi. apply list_elem_of_fmap. exists r1.
      split; [|done]. destruct Hcase1 as [[-> _]|[_ [Hid _ _ _]]]; [done|congruence].
    + apply P4; [|done..]. by apply turn_row_kept.
Qed.

Lemma deliverOutbox_pass fuel w : db_ok (w_db w) -> (length (dueRows now (w_db w)) < fuel)%nat ->
  exists w', deliverOutbox fuel s turns w = Some w' /\ db_ok (w_db w') /\ pass_done now (rows (w_db w)) (rows (w_db w')).
Proof using Hturns Hlease.
  revert w. induction fuel as [|fuel IH]; intros w Hok Hfuel; [lia|]. cbn [deliverOutbox].
  destruct (Hturns (S fuel)) as [-> -> Hans]. rewrite ClaimOutbox_Done.
  pose proof (turn_counts s now _ w Hans) as Hcount. pose proof (turn_ok s now (tu_Answers (turns (S fuel))) w Hok) as Hok'.
  pose proof (turn_due s now _ w Hans Hok Hlease) as Hdue. pose proof (length_turn s now w Hok) as Hlen.
  pose proof (pass_last _ w Hans Hok) as Hlast. pose proof (fun l' => pass_more _ w l' Hans Hok) as Hmore.
  unfold turnOf in *. destruct (deliverBatch _ _ _ _) as [n w']. cbn [fst snd] in *. subst n.
  unfold zlen, outboxBatch in *. destruct (_ <? 50) eqn:E; simpl.
  - exists w'. split_and!; [done..|]. apply Hlast, nil_length_inv. lia.
  - destruct (IH w' Hok') as (w'' & Hw'' & Hok'' & Hp); [lia|]. eauto.
Qed.
End Pass.

(** C28 A delivery pass ends: its clock standing still, the worker's loop returns within one turn more than there are
    due messages, and then nothing is due any more. A message that was not due is left as it was; one that was due is
    gone, or put off until after the pass and, its queue time known, no later than its expiry; one that was due, its
    queue time known, and past its lifetime is gone. *)
Theorem deliverOutbox_drains (s : server) (now : Time) (turns : nat -> turn) (fuel : nat) (w : worker) :
  db_ok (w_db w) -> 0 < s_outboxLease s -> (forall k, turn_at now (turns k)) ->
  (length (dueRows now (w_db w)) + 1 <= fuel)%nat ->
  exists w', deliverOutbox fuel s turns w = Some w' /\ pass_done now (rows (w_db w)) (rows (w_db w')).
Proof.
  intros Hok Hlease Hturns Hfuel. destruct (deliverOutbox_pass s now turns Hturns Hlease fuel w Hok) as (w' & Hw' & _ & Hp); [lia|eauto].
Qed.

Definition exampleServer : server := mkServer ["slack"%string] notifyTimeout outboxLease.

(** Every sink is down. *)
Definition downTurn (now : Time) : turn :=
  mkTurn false now (fun _ => mkCall now now now now now (Some (mkFailure None "connection refused"))).

Lemma downTurn_at now : turn_at now (downTurn now).
Proof. split; [done..|]. intros m. split; simpl; lia. Qed.

Lemma deliverOutbox_drains_witness :
  exists w', deliverOutbox 4 exampleServer (fun _ => downTurn (4 * day)) (mkWorker exampleDB ∅) = Some w' /\
    dueRows (4 * day) exampleDB <> [] /\ forall r, r ∈ rows (w_db w') -> due (4 * day) r = false.
Proof.
  destruct (deliverOutbox_drains exampleServer (4 * day) (fun _ => downTurn (4 * day)) 4 (mkWorker exampleDB ∅))
    as (w' & Hw' & [Hp _ _ _]).
  - exact exampleDB_ok.
  - reflexivity.
  - intros _. apply downTurn_at.
  - apply Nat.ltb_lt. vm_compute. reflexivity.
  - exists w'. split; [exact Hw'|]. split; [|exact Hp]. vm_compute. discriminate.
Defined.

(** ** The lifetime of a message *)

(** A delivery of a message past its expiry drops it, whatever the other
    readings of the clock are. *)
Lemma judge_stale s c m h : m_CreatedAt m <> zeroTime -> expiry m <= ca_Age c -> (judge s c m h).1 = Drop.
Proof.
  intros Hz He. unfold judge. destruct (negb (mem_str _ _)); [done|].
  destruct (notificationOf m) as [n|]; [|done]. destruct (negb (IsZero _) && _) eqn:Eage; [done|].
  apply unexpired in Eage; [lia|done].
Qed.

Lemma deliver_ids s ans m w i : i ∈ row_id <$> rows (w_db (deliver s ans m w).2) -> i ∈ row_id <$> rows (w_db w).
Proof.
  intros (r' & -> & Hr')%list_elem_of_fmap. rewrite deliver_rows in Hr'. apply list_elem_of_omap in Hr' as (r & Hr & Hs).
  apply list_elem_of_fmap. exists r. split; [|done]. unfold settleAt in Hs. destruct (messageIs _ r); [|by injection Hs as ->].
  by eapply settleRow_id.
Qed.

Lemma deliverAll_ids s ans ms n w i : i ∈ row_id <$> rows (w_db (deliverAll s ans ms n w).2) -> i ∈ row_id <$> rows (w_db w).
Proof.
  revert n w. induction ms as [|m ms IH]; intros n w; [done|]. cbn [deliverAll]. pose proof (deliver_ids s ans m w i) as Hd.
  destruct (deliver s ans m w) as [ok w']. intros Hi. eapply Hd, IH, Hi.
Qed.

Lemma deliverAll_stale s ans ms n w m : m ∈ ms -> m_CreatedAt m <> zeroTime -> expiry m <= ca_Age (ans m) ->
  m_ID m ∉ row_id <$> rows (w_db (deliverAll s ans ms n w).2).
Proof.
  intros Hm Hz He. revert n w. induction ms as [|x ms IH]; intros n w; [by apply not_elem_of_nil in Hm|]. cbn [deliverAll].
  pose proof (deliver_rows s ans x w) as Hrows. destruct (deliver s ans x w) as [ok w'] eqn:E. cbn [snd] in Hrows.
  apply elem_of_cons in Hm as [<-|Hm]; [|by apply IH]. intros Hi%deliverAll_ids.
  apply list_elem_of_fmap in Hi as (r' & Hid & Hr'). rewrite Hrows, judge_stale in Hr' by done.
  apply list_elem_of_omap in Hr' as (r & _ & Hs). unfold settleAt, messageIs in Hs.
  destruct (row_id r =? m_ID m) eqn:Er; [done|]. injection Hs as ->. lia.
Qed.

(** A turn whose clock is never before [now]. *)
Record turn_from (now : Time) (t : turn) : Prop := {
  from_live : tu_Ended t = false;
  from_now : now <= tu_Now t;
  from_calls : forall m, now <= ca_Age (tu_Answers t m);
}.

Section Stale.
Context (s : server) (now : Time) (turns : nat -> turn).
Hypothesis Hturns : forall k, turn_from now (turns k).

Lemma deliverOutbox_ids fuel w w' i :
  deliverOutbox fuel s turns w = Some w' -> i ∈ row_id <$> rows (w_db w') -> i ∈ row_id <$> rows (w_db w).
Proof using Type.
  revert w. induction fuel as [|fuel IH]; intros w; [done|]. cbn [deliverOutbox].
  destruct (tu_Ended _); [by intros [= <-]|]. rewrite ClaimOutbox_Done.
  set (c := mkWorker (claimDB _ _ _ _) _). pose proof (deliverAll_ids s (tu_Answers (turns (S fuel)))
    (batchOrder (claimMessages (tu_Now (turns (S fuel))) (s_outboxLease s) outboxBatch (w_db w))) 0 c i) as Hi.
  unfold deliverBatch. destruct (deliverAll _ _ _ _ c) as [n w1]. cbn [snd] in Hi.
  assert (Hc : row_id <$> rows (w_db c) = row_id <$> rows (w_db w)) by apply ids_claimDB. rewrite Hc in Hi.
  destruct (_ && _); [by intros [= <-]|]. intros Hd Hin. apply Hi. by eapply IH.
Qed.

Lemma deliverOutbox_ok fuel w w' : db_ok (w_db w) -> deliverOutbox fuel s turns w = Some w' -> db_ok (w_db w').
Proof using Type.
  revert w. induction fuel as [|fuel IH]; intros w Hok; [done|]. cbn [deliverOutbox].
  destruct (tu_Ended _); [by intros [= <-]|]. rewrite ClaimOutbox_Done.
  pose proof (turn_ok s (tu_Now (turns (S fuel))) (tu_Answers (turns (S fuel))) w Hok) as Hok1. unfold turnOf in Hok1.
  destruct (deliverBatch _ _ _ _) as [n w1]. cbn [snd] in Hok1. destruct (_ && _); [by intros [= <-]|]. by apply IH.
Qed.

(** A pass that runs to its end leaves nothing that was due and past its
    expiry when it began. *)
Lemma deliverOutbox_stale fuel w w' r : db_ok (w_db w) -> deliverOutbox fuel s turns w = Some w' ->
  r ∈ rows (w_db w) -> created r <> zeroTime -> created r + outboxMaxAge <= now -> due now r = true ->
  row_id r ∉ row_id <$> rows (w_db w').
Proof using Hturns.
  intros Hok Hd Hr Hz He Hdue. revert w Hok Hd Hr. induction fuel as [|fuel IH]; intros w Hok; [done|]. cbn [deliverOutbox].
  pose proof (deliverOutbox_ids fuel) as Hids. destruct (Hturns (S fuel)) as [-> Hnow Hcalls]. rewrite ClaimOutbox_Done.
  set (tk := tu_Now (turns (S fuel))) in *. set (ans := tu_Answers (turns (S fuel))) in *.
  pose proof (turn_ok s tk ans w Hok) as Hok1. pose proof (length_turn s tk w Hok) as Hlen.
  assert (Hdue' : due tk r = true) by (unfold due in *; lia).
  destruct (claimedAt tk (w_db w) r) eqn:Ec.
  - intros Hd Hr. assert (Hgone : row_id r ∉ row_id <$> rows (w_db (turnOf s tk ans w))).
    { change (row_id r) with (m_ID (or_message (leased tk (s_outboxLease s) r))). apply deliverAll_stale.
      - apply elem_of_batchOrder, elem_of_claimMessages. eauto.
      - exact Hz.
      - etransitivity; [exact He|apply Hcalls]. }
    unfold turnOf in Hgone. destruct (deliverBatch _ _ _ _) as [n w1]. cbn [snd] in Hgone.
    destruct (_ && _); [by injection Hd as <-|]. intros Hin. by eapply Hgone, Hids.
  - intros Hd Hr. pose proof (turn_row_kept s tk ans w Hok r Hr Ec) as Hk.
    assert (Hfull : length (claimMessages tk (s_outboxLease s) outboxBatch (w_db w)) = 50%nat).
    { destruct (decide (length (dueRows tk (w_db w)) <= 50)%nat) as [Hle|]; [|rewrite Hlen; unfold outboxBatch; lia].
      exfalso. apply not_true_iff_false in Ec. apply Ec. by apply claimed_all; [apply ok_ids|..]. }
    unfold turnOf in Hk, Hok1. destruct (deliverBatch _ _ _ _) as [n w1]. cbn [snd] in Hk, Hok1.
    unfold zlen in Hd. rewrite Hfull in Hd. change (Z.of_nat 50 <? outboxBatch) with false in Hd. by apply (IH w1).
Qed.
End Stale.

(** A row that stays was queued at the same time, and is not put off past
    the later of its expiry and [t]. *)
Section OnTime.
Context (t : Time).

Definition onTime (r r' : outboxRow) : Prop :=
  created r' = created r /\
  (next r <= Z.max (created r + outboxMaxAge) t -> created r <> zeroTime -> next r' <= Z.max (created r + outboxMaxAge) t).

#[global] Instance onTime_preorder : PreOrder onTime.
Proof. split; [by intros r|]. intros r1 r2 r3 [H1 H1'] [H2 H2']. split; [congruence|]. rewrite H1 in H2'. auto. Qed.

Definition moves {A} (m : stx A) : Prop :=
  forall db a db', m db = Done (a, db') -> evolves onTime (outbox db) (outbox db').

Lemma moves_bind {A B} (m : stx A) (k : A -> stx B) : moves m -> (forall a, moves (k a)) -> moves (m ≫= k).
Proof.
  intros Hm Hk db b db' (a & db1 & H1 & H2)%bind_Done. eapply (evolves_trans onTime); [by eapply Hm|by eapply Hk].
Qed.

Lemma moves_stays {A} (m : stx A) : stays outbox m -> moves m.
Proof. intros Hm db a db' ->%Hm. apply (evolves_refl onTime). Qed.

Lemma moves_each {A} (f : A -> stx unit) l : (forall x, moves (f x)) -> moves (each f l).
Proof. intros Hf. induction l; simpl; [by apply moves_stays, stays_reads, reads_ret|]. by apply moves_bind. Qed.

Lemma writePass_moves now b clusterID snapID : moves (writePass now b clusterID snapID).
Proof.
  apply moves_bind; [|intros _; apply moves_bind; [|intros _]].
  - apply moves_stays, stays_each. intros x. apply stays_bind; [by apply insertEvaluation_stays|auto with go].
  - apply moves_stays, stays_each. intros x. by apply stays_execOne.
  - apply moves_each. intros m db a db' H. injection H as _ <-.
    by apply (evolves_insert onTime (fun i => mkOutboxRow (mkMessage i _ _ _ _ _ _) _)).
Qed.

Lemma passOf_moves now b clusterID : moves (passOf now b clusterID).
Proof.
  apply moves_bind; [apply moves_stays; auto with go|]. intros latest.
  destruct (b_Snapshot b) as [sn|]; [destruct (isDuplicate latest sn)|].
  - apply moves_stays. apply stays_bind; auto with go.
  - apply moves_bind; [apply moves_stays, stays_reads, checkExpectation_reads|]. intros _. apply moves_bind.
    + apply moves_stays. intros db i db' H. unfold insertSnapshotRow in H. destruct (existsb _ _); [|done]. by injection H as _ <-.
    + intros i. apply moves_bind; [apply writePass_moves|]. intros _. apply moves_stays. auto with go.
  - apply moves_bind; [apply moves_stays; auto with go|]. intros _.
    apply moves_bind; [apply moves_stays, stays_each; intros w; apply stays_reads, checkCurrent_reads|]. intros _.
    apply moves_bind; [apply moves_stays, stays_reads, checkExpectation_reads|]. intros _.
    apply moves_bind; [apply writePass_moves|]. intros _. apply moves_stays. auto with go.
Qed.

Lemma commit_moves {A} (m : stx A) db : moves m -> evolves onTime (outbox db) (outbox (commit m db)).
Proof. intros Hm. unfold commit. destruct (m db) as [[a db']|] eqn:E; [eauto|apply (evolves_refl onTime)]. Qed.

(** The operations on the outbox are the worker's. *)
Definition of_worker (o : operation) : bool :=
  match o with
  | OpClaimOutbox _ _ _ | OpDeleteOutbox _ | OpRescheduleOutbox _ _ _ | OpDeferOutbox _ _ => true
  | _ => false
  end.

Lemma run_onTime o db : db_ok db -> of_worker o = false -> evolves onTime (outbox db) (outbox (run o db)).
Proof.
  intros Hok Ho. destruct o; try discriminate; cbn [run]; try apply commit_moves.
  - apply moves_stays. by apply upsertCluster_stays.
  - intros x u x' (c & _ & ->)%DeleteCluster_Done. apply (evolves_delete onTime).
  - apply moves_stays. intros x u x' (c & _ & -> & _)%RenameCluster_Done. done.
  - intros x u x' H%wrap_Done. revert x u x' H. apply moves_bind; [|intros i; apply passOf_moves].
    apply moves_stays. by apply batchCluster_stays.
  - rewrite Prune_spec by done. apply (evolves_refl onTime).
  - apply moves_stays. intros x a x' H. unfold CreateToken in H. destruct (_ || _); [done|].
    destruct (existsb _ _); [done|]. by injection H as _ <-.
  - apply moves_stays. by apply stays_execOne.
  - apply moves_stays. by apply stays_execOne.
  - apply moves_stays. intros x a x' H. unfold CreateReadToken in H. destruct (_ =s _); [done|].
    destruct (readTokenTeams teams); [|done]. destruct (existsb _ _); [done|]. by injection H as _ <-.
  - apply moves_stays. by apply stays_execOne.
  - intros x u x' H%wrap_Done%wrap_Done. revert x u x' H. apply moves_bind; [|intros i; apply passOf_moves].
    apply moves_stays. by apply batchCluster_stays.
  - by apply moves_stays, insertEvaluation_stays.
Qed.

End OnTime.

Lemma deliverAll_seq s ans ms n w :
  t_seq (outbox (w_db (deliverAll s ans ms n w).2)) = t_seq (outbox (w_db w)).
Proof.
  revert n w. induction ms as [|m ms IH]; intros n w; [done|]. cbn [deliverAll]. unfold deliver.
  destruct (judge s (ans m) m (w_holds w)) as [v h]. rewrite IH. cbn [w_db]. by rewrite settleVerdict_table.
Qed.

Lemma deliverOutbox_seq fuel s turns w w' : deliverOutbox fuel s turns w = Some w' ->
  t_seq (outbox (w_db w')) = t_seq (outbox (w_db w)).
Proof.
  revert w. induction fuel as [|fuel IH]; intros w; [done|]. cbn [deliverOutbox].
  destruct (tu_Ended _); [by intros [= <-]|]. rewrite ClaimOutbox_Done.
  pose proof (deliverAll_seq s (tu_Answers (turns (S fuel)))
    (batchOrder (claimMessages (tu_Now (turns (S fuel))) (s_outboxLease s) outboxBatch (w_db w))) 0
    (mkWorker (claimDB (tu_Now (turns (S fuel))) (s_outboxLease s) outboxBatch (w_db w)) (w_holds w))) as Hseq.
  unfold deliverBatch. destruct (deliverAll _ _ _ _ _) as [n w1]. cbn [snd w_db] in Hseq.
  destruct (_ && _); [by intros [= <-]|]. intros H%IH. by rewrite H, Hseq.
Qed.

(** The database of any number of workers (a server's own, another replica's,
    one that was restarted), and the messages they have claimed. *)
Record fleet := mkFleet { ft_db : SQLite; ft_Claimed : list OutboxMessage }.

(** What happens to it, with every lease over and no delivery started after
    [t]: an operation of the rest of the store; a claim by any worker; the
    delivery of a claimed message by the worker that has it, at any later
    moment, its clock going on meanwhile, whatever the sinks it holds and the
    answer it gets. A worker that crashes, or whose process ends in mid
    pass, delivers nothing more of what it claimed. *)
Inductive event (t : Time) : fleet -> fleet -> Prop :=
| event_run o db ms : of_worker o = false -> allowed o db -> event t (mkFleet db ms) (mkFleet (run o db) ms)
| event_claim s now db ms taken db' : now + s_outboxLease s <= t ->
    ClaimOutbox now (s_outboxLease s) outboxBatch db = Done (taken, db') ->
    event t (mkFleet db ms) (mkFleet db' (taken ++ ms))
| event_deliver s c m holds db ms : m ∈ ms -> ca_Start c <= t ->
    event t (mkFleet db ms) (mkFleet (settleVerdict (judge s c m holds).1 (m_ID m) db) ms).

(** A claimed message is of its row, if that is still there. *)
Definition fleet_ok (f : fleet) : Prop :=
  db_ok (ft_db f) /\ agree (ft_Claimed f) (rows (ft_db f)) /\
  forall m, m ∈ ft_Claimed f -> m_ID m <= t_seq (outbox (ft_db f)).

Lemma claim_evolves t now lease limit db : NoDup (row_id <$> rows db) -> now + lease <= t ->
  evolves (onTime t) (outbox db) (outbox (claimDB now lease limit db)).
Proof.
  intros Hn Ht. split; [done|]. intros r'. change (t_rows (outbox (claimDB now lease limit db))) with (rows (claimDB now lease limit db)).
  rewrite rows_claimDB. intros (r & -> & Hr)%list_elem_of_fmap _. exists r. split; [done|].
  destruct (claimed now limit db r); (split; [done|]); [|done]. split; [done|]. intros _ _. unfold next. simpl. lia.
Qed.

Lemma deliver_evolves t s c m holds db : ca_Start c <= t -> agree [m] (rows db) ->
  evolves (onTime t) (outbox db) (outbox (settleVerdict (judge s c m holds).1 (m_ID m) db)).
Proof.
  intros Ht Ha. rewrite settleVerdict_table. split; [done|]. intros r' Hr' _.
  apply list_elem_of_omap in Hr' as (r & Hr & Hs). exists r. split; [done|]. unfold settleAt, messageIs in Hs.
  destruct (row_id r =? m_ID m) eqn:E; [|injection Hs as ->; split; [done|reflexivity]]. apply Z.eqb_eq in E.
  pose proof (judge_within_life s c m holds) as Hl. pose proof (judge_putBack s c m holds) as Hp.
  rewrite (Ha m r) in Hl; [|left|done..].
  split; [symmetry; by eapply settleRow_id|]. split; [by destruct (judge s c m holds).1; simpl in Hs; simplify_eq|].
  intros Hn Hz. destruct (judge s c m holds).1 as [|nx|nx|nx txt]; simpl in *; simplify_eq; unfold next; simpl; try specialize (Hl Hz); lia.
Qed.

Lemma event_evolves t f f' : event t f f' -> fleet_ok f -> fleet_ok f' /\ evolves (onTime t) (outbox (ft_db f)) (outbox (ft_db f')).
Proof.
  intros He (Hok & Ha & Hle).
  assert (Hkeep : forall db' ms, db_ok db' -> evolves (onTime t) (outbox (ft_db f)) (outbox db') ->
    (forall m, m ∈ ms -> m ∈ ft_Claimed f \/ exists r, r ∈ rows (ft_db f) /\ row_id r = m_ID m /\ m_CreatedAt m = created r) ->
    fleet_ok (mkFleet db' ms)).
  { intros db' ms Hok' [Hs Hev] Hms. destruct (ok_outbox _ Hok) as (Hids & _ & Hseq).
    assert (Hms' : forall m, m ∈ ms -> m_ID m <= t_seq (outbox (ft_db f)) /\
      forall r, r ∈ rows (ft_db f) -> row_id r = m_ID m -> m_CreatedAt m = created r).
    { intros m [Hm|(r0 & Hr0 & Hi & Hc)]%Hms; [split; [auto|]; intros r Hr Hi; by apply Ha|]. split; [rewrite <- Hi; by apply Hseq|].
      intros r Hr Hi'. assert (r = r0) as -> by (eapply row_id_inj; [exact Hids|done..|congruence]). done. }
    split_and!; [done| |intros m [Hm _]%Hms'; simpl; lia]. intros m r' Hm Hr' Hi. destruct (Hms' m Hm) as [Hml Hmr].
    destruct (Hev r' Hr') as (r & Hr & Hid & Hc & _); [lia|]. rewrite Hc. apply Hmr; [done|congruence]. }
  destruct He as [o db ms Ho Hal|s now db ms taken db' Ht Hc|s c m holds db ms Hm Ht]; cbn [ft_db ft_Claimed] in *.
  - pose proof (run_onTime t o db Hok Ho) as Hev. split; [|done]. apply Hkeep; [|done|auto]. by eapply step_ok; [apply step_run|].
  - rewrite ClaimOutbox_Done in Hc. injection Hc as <- <-. destruct (ok_outbox _ Hok) as (Hids & _).
    pose proof (claim_evolves t now (s_outboxLease s) outboxBatch db Hids Ht) as Hev. split; [|done]. apply Hkeep; [|done|].
    + eapply ClaimOutbox_ok; [exact Hok|apply ClaimOutbox_Done].
    + intros m [(r & Hr & _ & ->)%elem_of_claimMessages|Hm]%elem_of_app; [right; by exists r|by left].
  - assert (Ham : agree [m] (rows db)) by (intros m' r ->%list_elem_of_singleton; by apply Ha).
    pose proof (deliver_evolves t s c m holds db Ht Ham) as Hev. split; [|done]. apply Hkeep; [|done|auto].
    by apply settleVerdict_ok.
Qed.

Lemma events_evolve t f f' : rtc (event t) f f' -> fleet_ok f -> fleet_ok f' /\ evolves (onTime t) (outbox (ft_db f)) (outbox (ft_db f')).
Proof.
  induction 1 as [x|x y z Hs _ IH]; intros Hok; [split; [done|apply (evolves_refl (onTime t))]|].
  destruct (event_evolves t x y Hs Hok) as [Hok' He]. destruct (IH Hok') as [Hok'' He']. split; [done|].
  by eapply (evolves_trans (onTime t)).
Qed.

(** Ids are never reused, whatever is delivered. *)
Definition anyRow (r r' : outboxRow) : Prop := True.

#[global] Instance anyRow_preorder : PreOrder anyRow.
Proof. by split. Qed.

Lemma event_ids t f f' : event t f f' -> db_ok (ft_db f) -> db_ok (ft_db f') /\ evolves anyRow (outbox (ft_db f)) (outbox (ft_db f')).
Proof.
  assert (Hweak : forall x y, evolves (onTime t) x y -> evolves anyRow x y).
  { intros x y [Hs Hev]. split; [done|]. intros r' Hr' Hle. destruct (Hev r' Hr' Hle) as (r & Hr & Hi & _). by exists r. }
  intros [o db ms Ho Ha|s now db ms taken db' Ht Hc|s c m holds db ms _ _] Hok; cbn [ft_db] in *.
  - split; [by eapply step_ok; [apply step_run|]|]. by apply Hweak, run_onTime.
  - rewrite ClaimOutbox_Done in Hc. injection Hc as _ <-. split; [eapply ClaimOutbox_ok; [exact Hok|apply ClaimOutbox_Done]|].
    destruct (ok_outbox _ Hok) as (Hids & _). by apply Hweak, claim_evolves.
  - split; [by apply settleVerdict_ok|]. rewrite settleVerdict_table. split; [done|]. intros r' Hr' _.
    apply list_elem_of_omap in Hr' as (r & Hr & Hs). exists r. split; [done|]. split; [|done]. unfold settleAt in Hs.
    destruct (messageIs _ r); [symmetry; by eapply settleRow_id|by injection Hs as ->].
Qed.

Lemma events_ids t f f' : rtc (event t) f f' -> db_ok (ft_db f) -> db_ok (ft_db f') /\ evolves anyRow (outbox (ft_db f)) (outbox (ft_db f')).
Proof.
  induction 1 as [x|x y z Hs _ IH]; intros Hok; [split; [done|apply (evolves_refl anyRow)]|].
  destruct (event_ids t x y Hs Hok) as [Hok' He]. destruct (IH Hok') as [Hok'' He']. split; [done|].
  by eapply (evolves_trans anyRow).
Qed.

Lemma fuel_due now w fuel : (length (rows (w_db w)) < fuel)%nat -> (length (dueRows now (w_db w)) < fuel)%nat.
Proof. intros Hf. eapply Nat.le_lt_trans; [|exact Hf]. apply sublist_length, sublist_filter. Qed.

(** C9 No message outlives its lifetime. A message is queued, at a known time, and until [t] anything happens to the database that
    a running fleet does to it: the rest of the store's operations, claims by any number of workers and deliveries of
    what they claimed with whatever answers, restarts, and crashes that leave a lease, every lease over by [t]. Then a
    pass that begins at or after [t] and [outboxMaxAge] past the moment the message was queued, its clock going on
    as it does, and that runs to its end with the outbox to itself, leaves the message gone; no later event brings it
    back; and such a pass does end when its clock stands still. *)
Theorem message_given_up (s : server) (t now : Time) (a b : fleet) (r : outboxRow) (holds : gmap string Time) :
  fleet_ok a -> 0 < s_outboxLease s -> r ∈ rows (ft_db a) -> created r <> zeroTime -> next r <= created r + outboxMaxAge ->
  rtc (event t) a b -> t <= now -> created r + outboxMaxAge <= now ->
  (forall turns fuel w, (forall k, turn_from now (turns k)) -> deliverOutbox fuel s turns (mkWorker (ft_db b) holds) = Some w ->
     row_id r ∉ row_id <$> rows (w_db w) /\
     forall t' ms c, rtc (event t') (mkFleet (w_db w) ms) c -> row_id r ∉ row_id <$> rows (ft_db c)) /\
  (forall turns fuel, (forall k, turn_at now (turns k)) -> (length (rows (ft_db b)) < fuel)%nat ->
     is_Some (deliverOutbox fuel s turns (mkWorker (ft_db b) holds))).
Proof.
  intros Hok Hlease Hr Hz Hn Hab Ht Hexp. destruct (events_evolve t a b Hab Hok) as [(Hokb & _ & _) [Hseq Hev]].
  destruct (ok_outbox _ (proj1 Hok)) as (Hids & _ & Hle). pose proof (Hle r Hr) as Hrseq. split.
  - intros turns fuel w Hturns Hw. pose proof (deliverOutbox_seq _ _ _ _ _ Hw) as Hseqw. cbn [w_db] in Hseqw.
    assert (Hgone : row_id r ∉ row_id <$> rows (w_db w)).
    { destruct (decide (row_id r ∈ row_id <$> rows (ft_db b))) as [Hin|Hni].
      2: { intros Hi. apply Hni. by apply (deliverOutbox_ids s turns fuel _ _ _ Hw). }
      apply list_elem_of_fmap in Hin as (rb & Hib & Hrb). destruct (Hev rb Hrb) as (r0 & Hr0 & Hi0 & Hc & Hnx); [rewrite <- Hib; lia|].
      assert (r0 = r) as -> by (eapply row_id_inj; [exact Hids|done..|congruence]). rewrite Hib.
      eapply (deliverOutbox_stale s now turns Hturns fuel (mkWorker (ft_db b) holds)); [exact Hokb|exact Hw|exact Hrb|congruence|rewrite Hc; exact Hexp|].
      specialize (Hnx ltac:(lia) Hz). unfold due, next in *. lia. }
    split; [done|]. intros t' ms c Hc.
    destruct (events_ids t' _ _ Hc (deliverOutbox_ok s turns fuel (mkWorker (ft_db b) holds) w Hokb Hw)) as [_ [Hs Hev']]. cbn [ft_db] in Hs, Hev'.
    intros (rc & Hi & Hrc)%list_elem_of_fmap. destruct (Hev' rc Hrc) as (rw & Hrw & Hiw & _); [rewrite <- Hi, Hseqw; lia|].
    apply Hgone. rewrite Hi, <- Hiw. by apply list_elem_of_fmap_2.
  - intros turns fuel Hturns Hf. destruct (deliverOutbox_pass s now turns Hturns Hlease fuel (mkWorker (ft_db b) holds) Hokb) as (w & -> & _); [|by eexists].
    by apply fuel_due.
Qed.

(** A message queued on the first day for a sink that is down: refused a minute later, given up on the second day. *)
Definition queuedMessage : outboxRow :=
  mkOutboxRow (mkMessage 1 1 "slack" (LegacyEvent "prod" "1.35" "new-blocker" "title" "detail") 0 day day) "".

Definition queuedDB : SQLite := with_outbox (mkTable [queuedMessage] 1) migrated.

Lemma queuedDB_ok : db_ok queuedDB.
Proof.
  destruct migrated_ok. split; try done. split_and!; simpl.
  - apply NoDup_singleton.
  - lia.
  - intros r ->%list_elem_of_singleton. vm_compute. split; congruence.
Qed.

(** A worker claims the message a minute before its expiry and crashes. *)
Definition crashed : fleet :=
  let now := day + outboxMaxAge - minute in
  mkFleet (claimDB now outboxLease outboxBatch queuedDB) (claimMessages now outboxLease outboxBatch queuedDB ++ []).

(** The first pass at the expiry leaves the message, which is leased; the
    first one after the lease does not. *)
Lemma message_given_up_witness :
  (exists w, deliverOutbox 2 exampleServer (fun _ => downTurn (day + outboxMaxAge)) (mkWorker (ft_db crashed) ∅) = Some w /\
     1 ∈ row_id <$> rows (w_db w)) /\
  exists w, deliverOutbox 2 exampleServer (fun _ => downTurn (day + outboxMaxAge + minute)) (mkWorker (ft_db crashed) ∅) = Some w /\
    1 ∉ row_id <$> rows (w_db w).
Proof.
  split; [eexists; split; [vm_compute; reflexivity|vm_compute; left]|].
  destruct (message_given_up exampleServer (day + outboxMaxAge + minute) (day + outboxMaxAge + minute) (mkFleet queuedDB []) crashed
    queuedMessage ∅) as [Hgone Hend].
  - split_and!; [exact queuedDB_ok|..]; intros m; intros; by destruct (not_elem_of_nil m).
  - reflexivity.
  - left.
  - discriminate.
  - vm_compute. discriminate.
  - apply rtc_once. apply (event_claim _ exampleServer (day + outboxMaxAge - minute)); [vm_compute; discriminate|apply ClaimOutbox_Done].
  - reflexivity.
  - vm_compute. discriminate.
  - destruct (Hend (fun _ => downTurn (day + outboxMaxAge + minute)) 2%nat) as [w Hw]; [intros _; apply downTurn_at|vm_compute; lia|].
    exists w. split; [exact Hw|]. eapply Hgone; [|exact Hw]. intros k. split; [done|reflexivity|intros m; reflexivity].
Defined.

(** ** The text of a failure *)

(** The text kept of a failed delivery fits its column and any store: whatever the sink's error says, it is at most
    [outboxMaxErrorLen] bytes of valid UTF-8 without a NUL byte, and a text that is already so is kept as it is. *)
Lemma outboxError_fits (text : string) :
  let kept := outboxError text in
  (slen kept <= outboxMaxErrorLen /\ utf8 kept /\ all_bytes (fun c => c <> "000"%char) kept) /\
  (slen text <= outboxMaxErrorLen /\ utf8 text /\ all_bytes (fun c => c <> "000"%char) text -> kept = text).
Proof.
  unfold outboxError. pose proof (without_bytes "000"%char text) as Hb. split.
  - destruct (outboxMaxErrorLen <? _) eqn:E; split_and!; auto using ToValidUTF8_utf8.
    + eapply Z.le_trans; [apply ToValidUTF8_length|]. unfold slen.
      pose proof (takeBytes_length (Z.to_nat outboxMaxErrorLen) (ToValidUTF8 (without "000"%char text))).
      unfold outboxMaxErrorLen in *. lia.
    + apply validFrom_bytes, all_bytes_split, validFrom_bytes, Hb.
    + lia.
    + by apply validFrom_bytes.
  - intros (Hl & Hu & Hn). rewrite without_id by done.
    assert (ToValidUTF8 text = text) as -> by (apply validFrom_id; [done|lia]).
    destruct (outboxMaxErrorLen <? slen text) eqn:E; [lia|done].
Qed.

Lemma outboxError_fits_witness : outboxError "429 too many" = "429 too many"%string.
Proof.
  apply outboxError_fits. split_and!.
  - vm_compute. discriminate.
  - repeat (eapply utf8_rune; [vm_compute; reflexivity|cbn [dropBytes]]). constructor.
  - simpl. split_and!; [discriminate..|done].
Defined.
