(* ===== verification/Delta.v ===== *)
(** * Notification deltas: internal/server/notify_delta.go

    What a pass says of a target since its baseline: the blockers and
    end-of-life warnings that are new, and that the last blockers are gone; and
    which findings of the baseline it carries because it could not see them.
    The changes of a pass are merged across targets into one notification.
    A Go set of strings is the list of its members here. *)

From stdpp Require Import base list strings gmap.
From Stdlib Require Import ZArith Lia Ascii.
From S2P Require Import Prelude GoStr GoTime GoSha Version Inventory KB Findings Heads Notify Db Store.

Definition maxBlockerChanges : Z := 5.
Definition maxEOLChanges : Z := 5.
Definition becameReadyTitle : string := "ready: all blockers resolved".

Definition change (kind : string) (f : Finding) (targets : list string) : Change :=
  mkChange kind (f_Key f) (f_Severity f) (f_Title f) (f_Detail f) targets.

(** ** Callers that fold into a carried finding *)

(** [resourceNames] of a lower-cased kind. *)
Definition foldNames (kind : string) : list string :=
  [kind; kind +:+ "s"; kind +:+ "es"] ++
  match CutSuffix kind "y" with Some b => [b +:+ "ies"] | None => [] end.

Definition carriedFolds : Type := gmap string (list string).

Definition addFold (usage : string) (idx : carriedFolds) (k : string) : carriedFolds :=
  <[k := default [] (idx !! k) ++ [usage]]> idx.

(** One carried head's entries, and the ids already seen. *)
Definition foldsOf (st : carriedFolds * list string) (h : findingHead) : carriedFolds * list string :=
  let '(idx, seen) := st in
  let usage := match BaseOfUnservedKey (key h) with Some base => base | None => key h end in
  let '(cat, tail, _) := Cut usage "/" in
  if negb (mem_str cat [CatRemovedAPI; CatDeprecatedAPI; CatUnknownAPI]) then st else
  match Split tail "/" with
  | [u0; u1; u2] =>
      if (u0 =s "helm-release") || (u2 =s "") then st
      else
        let kind := ToLower u2 in
        let id := u0 +:+ "/" +:+ u1 +:+ "/" +:+ kind in
        if mem_str id seen then st
        else (foldl (fun idx r => addFold usage idx (u0 +:+ "/" +:+ u1 +:+ "/" +:+ r)) idx (foldNames kind), id :: seen)
  | _ => st
  end.

Definition newCarriedFolds (carried : list findingHead) : carriedFolds := (foldl foldsOf (∅, []) carried).1.

Definition folds (idx : carriedFolds) (call : string) : bool :=
  let '(cat, tail, _) := Cut call "/" in
  if negb (cat =s CatDeprecatedAPIInUse) then false
  else match SplitN tail "/" 4 with
  | c0 :: c1 :: c2 :: _ =>
      existsb (fun usage => FoldsInto call usage) (default [] (idx !! (c0 +:+ "/" +:+ c1 +:+ "/" +:+ c2)))
  | _ => false
  end.

(** ** One target's delta *)

(** The findings of [prev] a pass carries: those it could not have seen. *)
Fixpoint carriedOf (present : list string) (unassessed : findingHead -> bool) (kept : list string)
    (prev : list findingHead) : list findingHead :=
  match prev with
  | [] => []
  | h :: prev' =>
      let sig := findingSignature h in
      if (negb (blocker h) && negb (eolApproaching h)) || mem_str (key h) present || mem_str sig kept || negb (unassessed h)
      then carriedOf present unassessed kept prev'
      else h :: carriedOf present unassessed (sig :: kept) prev'
  end.

(** The first finding of each key that [keep] keeps, as a change if [news] of
    its key holds. *)
Fixpoint newsOf (keep : Finding -> bool) (news : string -> bool) (kind : string) (target seen : list string)
    (fs : list Finding) : list Change :=
  match fs with
  | [] => []
  | f :: fs' =>
      if negb (keep f) then newsOf keep news kind target seen fs'
      else
        let k := findingKey f in
        if mem_str k seen then newsOf keep news kind target seen fs'
        else (if news k then [change kind f target] else []) ++ newsOf keep news kind target (k :: seen) fs'
  end.

Fixpoint resolvedFrom (seen : list string) (prev : list findingHead) : list findingHead :=
  match prev with
  | [] => []
  | h :: prev' =>
      if negb (h_Severity h =s SevBlocker) || mem_str (key h) seen then resolvedFrom seen prev'
      else mkHead (h_Category h) (h_Severity h) (h_Key h) (h_Title h) [] zeroTime true :: resolvedFrom (key h :: seen) prev'
  end.

Definition resolvedHeads (prev : list findingHead) : list findingHead := resolvedFrom [] prev.

Definition computeDelta (prev : list findingHead) (curr : Report) (unassessed : option (findingHead -> bool))
    : list Change * list findingHead :=
  let target := [VString (r_Target curr)] in
  let prevBlockers := headKeys prev blocker in
  let prevEOL := headKeys prev eolApproaching in
  let readyPending := existsb h_Resolved prev in
  let carried := match unassessed with
                 | None => []
                 | Some un => carriedOf (keySet (r_Findings curr) (fun _ => true)) un [] prev
                 end in
  let idx := newCarriedFolds carried in
  let currBlockerCount := zlen (List.filter isBlocker (r_Findings curr)) in
  let blockers := newsOf isBlocker (fun k => negb (mem_str k prevBlockers) && negb (folds idx k)) KindNewBlocker target []
                    (r_Findings curr) in
  let noneLeft := (currBlockerCount =? 0) && negb (existsb blocker carried) in
  let ready := if ((0 <? zlen prevBlockers) || readyPending) && noneLeft && (r_Verdict curr =s VerdictReady)
               then [mkChange KindBecameReady "" "" becameReadyTitle "" target] else [] in
  let carried' := if noneLeft && (r_Verdict curr =s VerdictUnknown) then carried ++ resolvedHeads prev else carried in
  let eols := newsOf isEOLApproaching (fun k => negb (mem_str k prevEOL)) KindEOLApproaching target [] (r_Findings curr) in
  (blockers ++ ready ++ eols, carried').

Definition ComputeDelta (prev : option Report) (curr : Report) : list Change :=
  match prev with
  | None => []
  | Some p => (computeDelta (map headOf (r_Findings p)) curr None).1
  end.

(** * What a notification delta promises

    The index of carried findings answers as [FoldsInto] does of each of them;
    a pass repeated against its own baseline says nothing; and what is
    announced is exactly what is new. *)

From S2P Require Import StoreInv.

(** ** The index of carried findings *)

Lemma Split_parts c s x : x ∈ Split s c -> no_byte c x.
Proof.
  revert x. induction s as [|a s IH]; intros x; simpl; [by intros ->%list_elem_of_singleton|].
  destruct (Ascii.eqb a c) eqn:E.
  - intros [->|Hx]%elem_of_cons; [done|auto].
  - apply Ascii.eqb_neq in E. destruct (Split s c) as [|y ys].
    + intros ->%list_elem_of_singleton. by apply no_byte_cons.
    + intros [->|Hx]%elem_of_cons; [|apply IH; by right]. apply no_byte_cons. split; [done|]. apply IH. left.
Qed.

Lemma lower_slash a : lower_ascii a = "/"%char -> a = "/"%char.
Proof. destruct a as [[] [] [] [] [] [] [] []]; vm_compute; congruence. Qed.

Lemma ToLower_no_slash s : no_byte "/" s -> no_byte "/" (ToLower s).
Proof.
  induction s as [|a s IH]; [done|]. intros [Ha Hs]%no_byte_cons. apply no_byte_cons. split; [|by apply IH].
  intros Hl. by apply Ha, lower_slash.
Qed.

Definition usageOf (k : string) : string := match BaseOfUnservedKey k with Some base => base | None => k end.

(** The API a carried usage finding is of: group, version and kind. *)
Definition entry (k : string) : option (string * string * string) :=
  let '(cat, tail, _) := Cut (usageOf k) "/" in
  if negb (mem_str cat [CatRemovedAPI; CatDeprecatedAPI; CatUnknownAPI]) then None else
  match Split tail "/" with
  | [u0; u1; u2] => if (u0 =s "helm-release") || (u2 =s "") then None else Some (u0, u1, u2)
  | _ => None
  end.

Definition apiId (u0 u1 r : string) : string := u0 +:+ "/" +:+ u1 +:+ "/" +:+ r.

Lemma foldsOf_entry idx seen h :
  foldsOf (idx, seen) h =
  match entry (key h) with
  | None => (idx, seen)
  | Some (u0, u1, u2) =>
      if mem_str (apiId u0 u1 (ToLower u2)) seen then (idx, seen)
      else (foldl (fun idx r => addFold (usageOf (key h)) idx (apiId u0 u1 r)) idx (foldNames (ToLower u2)),
            apiId u0 u1 (ToLower u2) :: seen)
  end.
Proof.
  unfold foldsOf, entry, apiId. fold (usageOf (key h)). destruct (Cut (usageOf (key h)) "/") as [[cat tail] found].
  destruct (negb _); [done|]. destruct (Split tail "/") as [|u0 [|u1 [|u2 [|]]]]; try done. by destruct (_ || _).
Qed.

Lemma entry_parts k u0 u1 u2 : entry k = Some (u0, u1, u2) -> no_byte "/" u0 /\ no_byte "/" u1 /\ no_byte "/" u2 /\ u2 <> ""%string.
Proof.
  unfold entry. destruct (Cut (usageOf k) "/") as [[cat tail] found]. destruct (negb _); [done|].
  pose proof (Split_parts "/" tail) as Hp. destruct (Split tail "/") as [|v0 [|v1 [|v2 [|]]]]; try done.
  destruct (_ =s "helm-release"); [done|]. destruct (v2 =s "") eqn:E; [done|]. intros [= <- <- <-].
  apply String.eqb_neq in E. split_and!; [apply Hp..|done]; rewrite !elem_of_cons; tauto.
Qed.

Lemma apiId_inj u0 u1 r v0 v1 r' : no_byte "/" u0 -> no_byte "/" u1 -> no_byte "/" v0 -> no_byte "/" v1 ->
  apiId u0 u1 r = apiId v0 v1 r' -> u0 = v0 /\ u1 = v1 /\ r = r'.
Proof.
  intros H0 H1 H0' H1' He. unfold apiId in He.
  assert (Hc : cut_opt (u0 +:+ String "/" (u1 +:+ "/" +:+ r)) (String "/" "") =
               cut_opt (v0 +:+ String "/" (v1 +:+ "/" +:+ r')) (String "/" "")) by exact (f_equal (fun s => cut_opt s "/") He).
  rewrite !cut_opt_app in Hc by done. injection Hc as -> Hc.
  assert (Hc' : cut_opt (u1 +:+ String "/" r) (String "/" "") = cut_opt (v1 +:+ String "/" r') (String "/" ""))
    by exact (f_equal (fun s => cut_opt s "/") Hc).
  rewrite !cut_opt_app in Hc' by done. by injection Hc' as -> ->.
Qed.

Definition indexed (idx : carriedFolds) (k usage : string) : Prop := usage ∈ default [] (idx !! k).

Lemma indexed_add usage idx k k' usage' :
  indexed (addFold usage idx k) k' usage' <-> indexed idx k' usage' \/ (k' = k /\ usage' = usage).
Proof.
  unfold indexed, addFold, carriedFolds in *. destruct (decide (k = k')) as [->|Hne].
  - rewrite lookup_insert_eq. simpl. rewrite elem_of_app, list_elem_of_singleton. tauto.
  - rewrite lookup_insert_ne by done. naive_solver.
Qed.

Lemma indexed_adds usage (f : string -> string) ks idx k usage' :
  indexed (foldl (fun idx r => addFold usage idx (f r)) idx ks) k usage' <->
  indexed idx k usage' \/ (usage' = usage /\ exists r, r ∈ ks /\ k = f r).
Proof.
  revert idx. induction ks as [|r ks IH]; intros idx; simpl.
  - split; [by left|]. intros [H|(_ & r & Hr & _)]; [done|]. by apply not_elem_of_nil in Hr.
  - rewrite IH, indexed_add. setoid_rewrite elem_of_cons. naive_solver.
Qed.

(** What the index holds after the heads [hs]. *)
Record indexes (hs : list findingHead) (st : carriedFolds * list string) : Prop := {
  ix_sound : forall k usage, indexed st.1 k usage -> exists h, h ∈ hs /\ usage = usageOf (key h);
  ix_seen : forall id, id ∈ st.2 -> exists u0 u1 u2 usage, id = apiId u0 u1 (ToLower u2) /\
    no_byte "/" u0 /\ no_byte "/" u1 /\
    (exists h, h ∈ hs /\ usage = usageOf (key h) /\ entry (key h) = Some (u0, u1, u2)) /\
    forall r, r ∈ foldNames (ToLower u2) -> indexed st.1 (apiId u0 u1 r) usage;
  ix_complete : forall h u0 u1 u2, h ∈ hs -> entry (key h) = Some (u0, u1, u2) -> apiId u0 u1 (ToLower u2) ∈ st.2;
}.

Lemma indexes_step hs st h : indexes hs st -> indexes (hs ++ [h]) (foldsOf st h).
Proof.
  destruct st as [idx seen]. intros [S1 S2 S3]. rewrite foldsOf_entry.
  assert (Hin : forall h', h' ∈ hs -> h' ∈ hs ++ [h]) by (intros; apply elem_of_app; by left).
  assert (Hh : h ∈ hs ++ [h]) by (apply elem_of_app; right; by apply list_elem_of_singleton).
  assert (W2 : forall idx' id, (forall k u, indexed idx k u -> indexed idx' k u) -> id ∈ seen ->
    exists u0 u1 u2 usage, id = apiId u0 u1 (ToLower u2) /\ no_byte "/" u0 /\ no_byte "/" u1 /\
      (exists h0, h0 ∈ hs ++ [h] /\ usage = usageOf (key h0) /\ entry (key h0) = Some (u0, u1, u2)) /\
      forall r, r ∈ foldNames (ToLower u2) -> indexed idx' (apiId u0 u1 r) usage).
  { intros idx' id Hmono (u0 & u1 & u2 & usage & H1 & H2 & H3 & (h0 & H4 & H5) & H6)%S2. exists u0, u1, u2, usage.
    split_and!; eauto. }
  destruct (entry (key h)) as [[[v0 v1] v2]|] eqn:E.
  - destruct (mem_str _ seen) eqn:Em.
    + apply mem_str_spec in Em. split; simpl.
      * intros k u (h0 & H0 & ->)%S1. eauto.
      * intros id. by apply W2.
      * intros h0 u0 u1 u2 [H0| ->%list_elem_of_singleton]%elem_of_app He; [by eapply S3|]. by simplify_eq.
    + split; cbn [fst snd].
      * intros k u [(h0 & H0 & ->)%S1|[-> _]]%indexed_adds; eauto.
      * intros id [->|Hid]%elem_of_cons.
        -- destruct (entry_parts _ _ _ _ E) as (P0 & P1 & _). exists v0, v1, v2, (usageOf (key h)).
           split_and!; eauto. intros r Hr. apply indexed_adds. eauto.
        -- apply W2; [|done]. intros k u Hk. apply indexed_adds. by left.
      * intros h0 u0 u1 u2 [H0| ->%list_elem_of_singleton]%elem_of_app He; apply elem_of_cons; [right; by eapply S3|].
        left. by simplify_eq.
  - split; simpl.
    + intros k u (h0 & H0 & ->)%S1. eauto.
    + intros id. by apply W2.
    + intros h0 u0 u1 u2 [H0| ->%list_elem_of_singleton]%elem_of_app He; [by eapply S3|congruence].
Qed.

Lemma indexes_all hs : indexes hs (foldl foldsOf (∅, []) hs).
Proof.
  induction hs as [|h hs IH] using rev_ind.
  - split; simpl; [|by intros ? ?%not_elem_of_nil|by intros ? ? ? ? ?%not_elem_of_nil].
    intros k u. unfold indexed, carriedFolds. rewrite lookup_empty. by intros ?%not_elem_of_nil.
  - rewrite foldl_app. simpl. by apply indexes_step.
Qed.

(** A caller key's group, version and resource. *)
Definition callOf (call : string) : option (string * string * string) :=
  let '(cat, tail, _) := Cut call "/" in
  if negb (cat =s CatDeprecatedAPIInUse) then None
  else match SplitN tail "/" 4 with c0 :: c1 :: c2 :: _ => Some (c0, c1, c2) | _ => None end.

(** A key that is not the not-served-yet form of one that again ends like
    one: no kind is called "unserved". *)
Definition plain_key (k : string) : Prop := BaseOfUnservedKey (usageOf k) = None.

Lemma base_category k b : BaseOfUnservedKey k = Some b -> (Cut k "/").1.1 = CatRemovedAPI /\ (Cut b "/").1.1 = CatRemovedAPI.
Proof.
  unfold BaseOfUnservedKey. destruct (CutSuffix k _) as [b'|] eqn:E; [|done]. apply CutSuffix_Some in E as ->.
  destruct (HasPrefix b' (CatRemovedAPI +:+ "/")) eqn:Hp, (HasPrefix b' (CatRemovedAPI +:+ "/helm-release/"));
    try discriminate. intros [= <-].
  apply HasPrefix_split in Hp as ->. set (rest := drop_len _ _).
  assert (Hc : forall t, cut_opt ((CatRemovedAPI +:+ "/") +:+ t) "/" = Some (CatRemovedAPI, t))
    by (intros t; exact (cut_opt_app "/" CatRemovedAPI t eq_refl)).
  unfold Cut. rewrite app_assoc_s, !Hc. done.
Qed.

(** [FoldsInto] by the entries. *)
Lemma FoldsInto_entry call k : plain_key k ->
  FoldsInto call k =
  match entry k, callOf call with
  | Some (u0, u1, u2), Some (c0, c1, c2) => (c0 =s u0) && (c1 =s u1) && kindMatchesResource u2 c2
  | _, _ => false
  end.
Proof.
  intros Hk. unfold FoldsInto, entry, callOf, keyAPI. fold (usageOf k).
  assert (Hcat : (Cut k "/").1.1 = (Cut (usageOf k) "/").1.1).
  { unfold usageOf. destruct (BaseOfUnservedKey k) as [b|] eqn:E; [|done]. destruct (base_category k b E). congruence. }
  destruct (Cut k "/") as [[cat t1] f1], (Cut (usageOf k) "/") as [[cat' tail] f2]. simpl in Hcat. subst cat'.
  destruct (negb _); [done|]. destruct (Cut call "/") as [[cc ctail] f3].
  destruct (Split tail "/") as [|u0 [|u1 [|u2 [|]]]]; try done.
  destruct (cc =s CatDeprecatedAPIInUse), (SplitN ctail "/" 4) as [|c0 [|c1 [|c2 cs]]]; simpl; try done;
    destruct (u0 =s "helm-release"); simpl; try done; try (by destruct (u2 =s "")).
  destruct (u2 =s "") eqn:Eu; [|done]. apply String.eqb_eq in Eu as ->. simpl. by rewrite !andb_false_r.
Qed.

Lemma matched_name kind resource : kindMatchesResource kind resource = true -> resource ∈ foldNames (ToLower kind).
Proof.
  unfold kindMatchesResource, resourceNames, foldNames. destruct (kind =s ""); [done|]. set (k := ToLower kind).
  rewrite elem_of_app, !elem_of_cons. intros H.
  repeat (case_match; simplify_eq/=); apply orb_true_iff in H as [->%String.eqb_eq| ->%String.eqb_eq]; auto 6;
    right; by left.
Qed.

Lemma matches_lower u v resource : ToLower u = ToLower v -> u <> ""%string -> v <> ""%string ->
  kindMatchesResource u resource = kindMatchesResource v resource.
Proof.
  intros He Hu Hv. unfold kindMatchesResource, resourceNames. rewrite He.
  apply String.eqb_neq in Hu as ->. by apply String.eqb_neq in Hv as ->.
Qed.

Lemma usageOf_plain k : plain_key k -> usageOf (usageOf k) = usageOf k /\ plain_key (usageOf k) /\ entry (usageOf k) = entry k.
Proof.
  unfold plain_key. intros Hk. assert (He : usageOf (usageOf k) = usageOf k) by (unfold usageOf at 1; by rewrite Hk).
  split_and!; [done|by rewrite He|]. unfold entry. by rewrite He.
Qed.

Lemma folds_exact (carried : list findingHead) (call : string) :
  (forall h, h ∈ carried -> plain_key (key h)) ->
  folds (newCarriedFolds carried) call = existsb (fun h => FoldsInto call (key h)) carried.
Proof.
  intros Hplain. destruct (indexes_all carried) as [S1 S2 S3]. fold (newCarriedFolds carried) in *.
  assert (Hf : folds (newCarriedFolds carried) call =
    match callOf call with
    | Some (c0, c1, c2) => existsb (FoldsInto call) (default [] (newCarriedFolds carried !! apiId c0 c1 c2))
    | None => false
    end).
  { unfold folds, callOf. destruct (Cut call "/") as [[cat tail] found]. destruct (negb _); [done|].
    by destruct (SplitN tail "/" 4) as [|c0 [|c1 [|c2 cs]]]. }
  rewrite Hf. clear Hf. apply eq_true_iff_eq. rewrite existsb_elem. split.
  - destruct (callOf call) as [[[c0 c1] c2]|] eqn:Ec; [|done]. rewrite existsb_elem. intros (usage & Hu & Hinto).
    apply S1 in Hu as (h & Hh & ->). exists h. split; [done|]. specialize (Hplain h Hh).
    destruct (usageOf_plain _ Hplain) as (_ & Hp & He). rewrite FoldsInto_entry in Hinto |- * by done. by rewrite He in Hinto.
  - intros (h & Hh & Hinto). pose proof (Hplain h Hh) as Hp. rewrite FoldsInto_entry in Hinto by done.
    destruct (entry (key h)) as [[[u0 u1] u2]|] eqn:Ee; [|done].
    destruct (callOf call) as [[[c0 c1] c2]|] eqn:Ec; [|done]. to_prop.
    destruct (entry_parts _ _ _ _ Ee) as (P0 & P1 & _ & Hne). rewrite existsb_elem.
    destruct (S2 _ (S3 h u0 u1 u2 Hh Ee)) as (v0 & v1 & v2 & usage & Hid & Q0 & Q1 & (h' & Hh' & -> & Ee') & Hidx).
    apply apiId_inj in Hid as (<- & <- & Hl); [|done..]. exists (usageOf (key h')).
    destruct (entry_parts _ _ _ _ Ee') as (_ & _ & _ & Hne').
    rewrite (matches_lower u2 v2) in H0 by done. split.
    + subst c0 c1. apply Hidx. by apply matched_name.
    + destruct (usageOf_plain _ (Hplain h' Hh')) as (_ & Hp' & He'). rewrite FoldsInto_entry by done.
      rewrite He', Ee', Ec, H0. subst. by rewrite !String.eqb_refl.
Qed.

(** The index that spares the pass a comparison with every carried finding is exact: a caller folds into a carried
    finding by the index exactly when [FoldsInto] says so of one of them, as long as no carried key is of a kind
    that is itself called "unserved" ([plain_key]; [unserved_kind] has one, and the index is not exact there). *)
Lemma carriedFolds_exact (carried : list findingHead) (call : string) :
  (forall h, h ∈ carried -> plain_key (key h)) ->
  folds (newCarriedFolds carried) call = existsb (fun h => FoldsInto call (key h)) carried.
Proof. apply folds_exact. Qed.

Definition keyedHead (cat sev k : string) : findingHead := mkHead cat sev k "" [] zeroTime false.

Lemma carriedFolds_exact_witness :
  let carried := [keyedHead CatRemovedAPI SevBlocker "removed-api/batch/v1beta1/CronJob/unserved";
                  keyedHead CatRemovedAPI SevBlocker "removed-api/policy/v1beta1/PodSecurityPolicy"] in
  let call := "deprecated-api-in-use/policy/v1beta1/podsecuritypolicies"%string in
  folds (newCarriedFolds carried) call = existsb (fun h => FoldsInto call (key h)) carried /\
  folds (newCarriedFolds carried) call = true.
Proof.
  intros carried call. split; [|vm_compute; reflexivity]. apply carriedFolds_exact.
  intros h [->|[->|Hn]%elem_of_cons]%elem_of_cons; [vm_compute; reflexivity..|by apply not_elem_of_nil in Hn].
Defined.

(** Of a kind called "unserved" the two disagree: its not-served-yet key ends twice in the phase. *)
Example unserved_kind :
  let h := keyedHead CatRemovedAPI SevBlocker "removed-api/batch/v1/unserved/unserved" in
  let call := "deprecated-api-in-use/batch/v1/unserveds"%string in
  folds (newCarriedFolds [h]) call = false /\ FoldsInto call (key h) = true.
Proof. vm_compute. done. Qed.

(** ** A repeated pass *)

(** Only a blocker is carried as resolved. *)
Definition resolved_wf (hs : list findingHead) : Prop := forall h, h ∈ hs -> h_Resolved h = true -> h_Severity h = SevBlocker.

Definition keptOf (prev : list findingHead) (curr : Report) (unassessed : option (findingHead -> bool)) : list findingHead :=
  match unassessed with
  | None => []
  | Some un => carriedOf (keySet (r_Findings curr) (fun _ => true)) un [] prev
  end.

(** A finding of the stored report, as its baseline has it. *)
Definition baselineHead (curr : Report) (f : Finding) : findingHead :=
  let h := letTitleGo (headOf f) in set_SeenWithout (HiddenBy (r_NotAssessed curr) (h_Category h) (key h)) h.

(** The baseline a pass leaves: its report's findings and what it carries. *)
Definition baselineAfter (curr : Report) (carried : list findingHead) : list findingHead :=
  match storedFindingHeads (Some (withCarried (mkStoredReport curr []) carried)) with
  | Some sh => baseline sh
  | None => []
  end.

Lemma baselineAfter_eq curr carried :
  baselineAfter curr carried = map (baselineHead curr) (r_Findings curr) ++ map letTitleGo carried.
Proof.
  unfold baselineAfter, withCarried. destruct (zlen carried =? 0) eqn:E.
  - apply Z.eqb_eq in E. unfold zlen in E. destruct carried; [|simpl in E; lia]. unfold baseline. simpl. by rewrite !map_map.
  - unfold baseline. simpl. by rewrite !map_map.
Qed.

Lemma baselineHead_fields curr f :
  key (baselineHead curr f) = findingKey f /\ blocker (baselineHead curr f) = isBlocker f /\
  eolApproaching (baselineHead curr f) = isEOLApproaching f /\ h_Resolved (baselineHead curr f) = false /\
  h_Severity (baselineHead curr f) = f_Severity f.
Proof.
  unfold baselineHead, findingKey, isBlocker, isEOLApproaching, blocker, eolApproaching, key, letTitleGo.
  simpl. by destruct (f_Key f =s "") eqn:E; simpl; rewrite ?E.
Qed.

Lemma letTitleGo_kind h : blocker (letTitleGo h) = blocker h /\ eolApproaching (letTitleGo h) = eolApproaching h /\
  findingSignature (letTitleGo h) = findingSignature h.
Proof.
  destruct (letTitleGo_fields h) as (Hc & Hs & Hr & _ & _). unfold blocker, eolApproaching, findingSignature.
  by rewrite Hc, Hs, Hr, letTitleGo_key.
Qed.

Lemma newsOf_none keep news kind target seen fs :
  (forall f, f ∈ fs -> keep f = true -> news (findingKey f) = false) -> newsOf keep news kind target seen fs = [].
Proof.
  revert seen. induction fs as [|f fs IH]; intros seen H; [done|]. simpl.
  assert (IH' : forall seen, newsOf keep news kind target seen fs = []) by (intros; apply IH; intros; apply H; [by right|done]).
  destruct (keep f) eqn:E; simpl; [|apply IH']. destruct (mem_str _ seen); [apply IH'|].
  by rewrite (H f), IH' by (done || left).
Qed.

Section Carried.
Context (present : list string) (un : findingHead -> bool).
Hypothesis Hun : forall h, un (letTitleGo h) = un h.

Definition carriable (h : findingHead) : bool :=
  (blocker h || eolApproaching h) && negb (mem_str (key h) present) && un h.

Lemma carriedOf_cons kept h prev :
  carriedOf present un kept (h :: prev) =
  if carriable h && negb (mem_str (findingSignature h) kept)
  then h :: carriedOf present un (findingSignature h :: kept) prev else carriedOf present un kept prev.
Proof.
  simpl. unfold carriable. destruct (blocker h), (eolApproaching h), (mem_str (key h) present),
    (mem_str (findingSignature h) kept), (un h); done.
Qed.

Lemma carriedOf_skip kept l prev : (forall h, h ∈ l -> carriable h = false) ->
  carriedOf present un kept (l ++ prev) = carriedOf present un kept prev.
Proof.
  induction l as [|h l IH]; intros H; [done|]. change ((h :: l) ++ prev) with (h :: l ++ prev).
  rewrite carriedOf_cons, (H h) by left. simpl. apply IH. intros h' Hh'. apply H. by right.
Qed.

Lemma carriedOf_all kept prev h : h ∈ carriedOf present un kept prev -> carriable h = true /\ h ∈ prev.
Proof.
  revert kept. induction prev as [|x prev IH]; intros kept; [by intros ?%not_elem_of_nil|]. rewrite carriedOf_cons.
  destruct (carriable x) eqn:E; simpl.
  - destruct (negb _).
    + intros [->|Hh]%elem_of_cons; [split; [done|left]|]. apply IH in Hh as [? ?]. split; [done|by right].
    + intros [? ?]%IH. split; [done|by right].
  - intros [? ?]%IH. split; [done|by right].
Qed.

(** What was carried is carried again. *)
Lemma carriedOf_again kept prev rest : (forall h, h ∈ rest -> carriable h = false) ->
  carriedOf present un kept (map letTitleGo (carriedOf present un kept prev) ++ rest) =
  map letTitleGo (carriedOf present un kept prev).
Proof using Hun.
  intros Hrest. revert kept. induction prev as [|h prev IH]; intros kept.
  - simpl. rewrite <- (app_nil_r rest). by rewrite carriedOf_skip.
  - rewrite carriedOf_cons. destruct (carriable h && _) eqn:E; [|apply IH].
    cbn [map app]. rewrite carriedOf_cons.
    assert (Ht : carriable (letTitleGo h) = carriable h).
    { destruct (letTitleGo_kind h) as (Hb & He & _). unfold carriable. by rewrite Hb, He, letTitleGo_key, Hun. }
    destruct (letTitleGo_kind h) as (_ & _ & Hs). rewrite Ht, Hs, E. f_equal. apply IH.
Qed.
End Carried.

Lemma resolvedFrom_shape seen prev h : h ∈ resolvedFrom seen prev ->
  h_Severity h = SevBlocker /\ h_Resolved h = true.
Proof.
  revert seen. induction prev as [|x prev IH]; intros seen; simpl; [by intros ?%not_elem_of_nil|].
  destruct (h_Severity x =s SevBlocker) eqn:E; simpl; [|apply IH]. destruct (mem_str _ seen); [apply IH|].
  intros [->|Hh]%elem_of_cons; [|by eapply IH]. apply String.eqb_eq in E. done.
Qed.

Lemma resolvedFrom_skip seen l prev : (forall h, h ∈ l -> h_Severity h <> SevBlocker) ->
  resolvedFrom seen (l ++ prev) = resolvedFrom seen prev.
Proof.
  induction l as [|h l IH]; intros H; [done|]. simpl. assert (h_Severity h =s SevBlocker = false) as ->
    by (apply String.eqb_neq, H; left). simpl. apply IH. intros h' Hh'. apply H. by right.
Qed.

Lemma resolvedFrom_again seen prev :
  resolvedFrom seen (map letTitleGo (resolvedFrom seen prev)) = map letTitleGo (resolvedFrom seen prev).
Proof.
  revert seen. induction prev as [|h prev IH]; intros seen; [done|]. cbn [resolvedFrom].
  destruct (h_Severity h =s SevBlocker) eqn:E; simpl; [|apply IH]. destruct (mem_str (key h) seen) eqn:Em; [apply IH|].
  cbn [map]. set (h' := mkHead _ _ _ _ _ _ _). assert (Hk : key h' = key h) by done. cbn [resolvedFrom].
  rewrite letTitleGo_key, Hk, Em. destruct (letTitleGo_fields h') as (Hc & Hs & Hr & Hh & Hw).
  rewrite Hs. change (h_Severity h') with (h_Severity h). rewrite E. simpl. f_equal; [|apply IH].
  unfold letTitleGo. by destruct (negb (h_Key h' =s "")).
Qed.

Definition noneLeft (curr : Report) (carried : list findingHead) : bool :=
  (zlen (List.filter isBlocker (r_Findings curr)) =? 0) && negb (existsb blocker carried).

Lemma noneLeft_findings curr carried f : noneLeft curr carried = true -> f ∈ r_Findings curr -> f_Severity f <> SevBlocker.
Proof.
  unfold noneLeft. intros [Hz _]%andb_true_iff Hf Hs. apply Z.eqb_eq in Hz. unfold zlen in Hz.
  assert (Hin : In f (List.filter isBlocker (r_Findings curr))).
  { apply filter_In. split; [by apply list_elem_of_In|]. unfold isBlocker, blocker. simpl. by rewrite Hs. }
  destruct (List.filter _ _); [done|simpl in Hz; lia].
Qed.

Lemma noneLeft_carried curr carried h : noneLeft curr carried = true -> h ∈ carried -> blocker h = false.
Proof.
  unfold noneLeft. intros [_ Hb]%andb_true_iff Hh. apply negb_true_iff in Hb. destruct (blocker h) eqn:E; [|done].
  assert (existsb blocker carried = true); [|congruence]. apply existsb_elem. eauto.
Qed.

Lemma existsb_letTitleGo hs : existsb blocker (map letTitleGo hs) = existsb blocker hs.
Proof.
  induction hs as [|h hs IH]; [done|]. simpl. rewrite IH. by destruct (letTitleGo_kind h) as [-> _].
Qed.

(** Heads that are no blocker though their severity is are resolved ones. *)
Lemma kept_severity prev curr unassessed h : noneLeft curr (keptOf prev curr unassessed) = true ->
  h ∈ keptOf prev curr unassessed -> h_Severity h <> SevBlocker.
Proof.
  intros Hn Hh Hs. pose proof (noneLeft_carried _ _ _ Hn Hh) as Hb. destruct unassessed as [un|]; [|by apply not_elem_of_nil in Hh].
  apply carriedOf_all in Hh as [Hc _]. unfold carriable in Hc. rewrite Hb in Hc. unfold eolApproaching in Hc.
  rewrite Hs in Hc. simpl in Hc. by rewrite andb_false_r in Hc.
Qed.

Section Again.
Context (prev : list findingHead) (curr : Report) (unassessed : option (findingHead -> bool)).
Hypothesis Hun : forall un, unassessed = Some un -> forall h, un (letTitleGo h) = un h.
Hypothesis Hwf : resolved_wf prev.
Notation kept := (keptOf prev curr unassessed).
Notation unknown := (noneLeft curr kept && (r_Verdict curr =s VerdictUnknown)).
Notation res := (if unknown then resolvedHeads prev else []).
Notation prev2 := (map (baselineHead curr) (r_Findings curr) ++ map letTitleGo (kept ++ res)).

Lemma res_shape h : h ∈ res -> h_Severity h = SevBlocker /\ h_Resolved h = true.
Proof. destruct unknown; [apply resolvedFrom_shape|by intros ?%not_elem_of_nil]. Qed.

Lemma kept_again : keptOf prev2 curr unassessed = map letTitleGo kept.
Proof using Hun.
  unfold keptOf at 1 4. destruct unassessed as [un|] eqn:Eu; [|done]. rewrite carriedOf_skip.
  - rewrite map_app. apply carriedOf_again; [by apply Hun|].
    intros h (h0 & -> & Hh0)%list_elem_of_fmap. destruct (letTitleGo_kind h0) as (Hb & He & _).
    unfold carriable. rewrite Hb, He. rewrite <- Eu in Hh0. apply res_shape in Hh0 as [Hs Hr]. unfold blocker, eolApproaching.
    rewrite Hr, Hs. simpl. by rewrite !andb_false_r.
  - intros h (f & -> & Hf)%list_elem_of_fmap. unfold carriable. destruct (baselineHead_fields curr f) as (-> & _).
    assert (mem_str (findingKey f) (keySet (r_Findings curr) (fun _ => true)) = true) as ->; [|simpl; by rewrite andb_false_r].
    apply mem_str_spec, list_elem_of_fmap. exists f. split; [done|]. apply list_elem_of_In, filter_In. split; [|done].
    by apply list_elem_of_In.
Qed.

Lemma noneLeft_again : noneLeft curr (map letTitleGo kept) = noneLeft curr kept.
Proof. unfold noneLeft. by rewrite existsb_letTitleGo. Qed.

Lemma known_again (keep : Finding -> bool) (keepHead : findingHead -> bool) f :
  (forall g, keepHead (baselineHead curr g) = keep g) -> f ∈ r_Findings curr -> keep f = true ->
  mem_str (findingKey f) (headKeys prev2 keepHead) = true.
Proof.
  intros Hk Hf Hkeep. apply mem_str_spec, list_elem_of_fmap. exists (baselineHead curr f).
  split; [symmetry; apply baselineHead_fields|]. apply list_elem_of_In, filter_In. split; [|by rewrite Hk].
  apply list_elem_of_In, elem_of_app. left. by apply list_elem_of_fmap_2.
Qed.

(** Neither a blocker nor a resolved one is left in the baseline of a ready pass. *)
Lemma ready_baseline h : noneLeft curr kept = true -> r_Verdict curr = VerdictReady -> h ∈ prev2 ->
  blocker h = false /\ h_Resolved h = false.
Proof using Hun Hwf.
  intros Hn Hv Hh. assert (Hres : res = []) by (rewrite Hv; by rewrite andb_false_r).
  rewrite Hres, app_nil_r in Hh. apply elem_of_app in Hh as [(f & -> & Hf)%list_elem_of_fmap|(h0 & -> & Hh0)%list_elem_of_fmap].
  - destruct (baselineHead_fields curr f) as (_ & _ & _ & Hr & Hs). split; [|done]. unfold blocker. rewrite Hs.
    pose proof (noneLeft_findings _ _ _ Hn Hf) as Hne. apply String.eqb_neq in Hne as ->. done.
  - destruct (letTitleGo_kind h0) as (-> & _ & _). destruct (letTitleGo_fields h0) as (_ & _ & -> & _).
    split; [by eapply noneLeft_carried|]. pose proof (kept_severity _ _ _ _ Hn Hh0) as Hs.
    destruct (h_Resolved h0) eqn:E; [|done]. exfalso. apply Hs, Hwf; [|done].
    destruct unassessed as [un|]; [by apply carriedOf_all in Hh0 as [_ ?]|by apply not_elem_of_nil in Hh0].
Qed.

Lemma resolved_again : noneLeft curr kept = true -> r_Verdict curr = VerdictUnknown ->
  resolvedHeads prev2 = map letTitleGo (resolvedHeads prev).
Proof.
  intros Hn Hv. assert (Hres : res = resolvedHeads prev) by (by rewrite Hn, Hv). rewrite Hres, map_app. unfold resolvedHeads.
  rewrite !resolvedFrom_skip; [apply resolvedFrom_again|..].
  - intros h (h0 & -> & Hh0)%list_elem_of_fmap. destruct (letTitleGo_fields h0) as (_ & -> & _). by eapply kept_severity.
  - intros h (f & -> & Hf)%list_elem_of_fmap. destruct (baselineHead_fields curr f) as (_ & _ & _ & _ & ->).
    by eapply noneLeft_findings.
Qed.
End Again.

Lemma computeDelta_eq prev curr unassessed :
  computeDelta prev curr unassessed =
  let kept := keptOf prev curr unassessed in
  let target := [VString (r_Target curr)] in
  (newsOf isBlocker (fun k => negb (mem_str k (headKeys prev blocker)) && negb (folds (newCarriedFolds kept) k))
     KindNewBlocker target [] (r_Findings curr) ++
   (if ((0 <? zlen (headKeys prev blocker)) || existsb h_Resolved prev) && noneLeft curr kept &&
       (r_Verdict curr =s VerdictReady)
    then [mkChange KindBecameReady "" "" becameReadyTitle "" target] else []) ++
   newsOf isEOLApproaching (fun k => negb (mem_str k (headKeys prev eolApproaching))) KindEOLApproaching target []
     (r_Findings curr),
   kept ++ (if noneLeft curr kept && (r_Verdict curr =s VerdictUnknown) then resolvedHeads prev else [])).
Proof.
  unfold computeDelta. fold (keptOf prev curr unassessed). fold (noneLeft curr (keptOf prev curr unassessed)).
  cbv zeta. f_equal. destruct (_ && (r_Verdict curr =s VerdictUnknown)); [done|]. by rewrite app_nil_r.
Qed.

Lemma headKeys_nil hs keep : (forall h, h ∈ hs -> keep h = false) -> headKeys hs keep = [].
Proof.
  intros H. unfold headKeys. assert (List.filter keep hs = []) as ->; [|done].
  induction hs as [|h hs IH]; [done|]. simpl. rewrite (H h) by left. apply IH. intros h' Hh'. apply H. by right.
Qed.

(** C6 A pass says a thing once: computed again against the baseline it left (its report's findings and what it
    carries, as stored), with the same capabilities out of sight, it announces nothing, and carries what it carried. *)
Theorem computeDelta_once (prev : list findingHead) (curr : Report) (unassessed : option (findingHead -> bool)) :
  (forall un, unassessed = Some un -> forall h, un (letTitleGo h) = un h) -> resolved_wf prev ->
  let carried := (computeDelta prev curr unassessed).2 in
  computeDelta (baselineAfter curr carried) curr unassessed = ([], map letTitleGo carried).
Proof.
  intros Hun Hwf carried. unfold carried. rewrite baselineAfter_eq, !(computeDelta_eq prev). cbv zeta. cbn [snd].
  rewrite computeDelta_eq. cbv zeta. rewrite (kept_again prev curr unassessed Hun).
  rewrite (noneLeft_again prev curr unassessed).
  set (kept := keptOf prev curr unassessed). set (res := if noneLeft curr kept && (r_Verdict curr =s VerdictUnknown) then resolvedHeads prev else []). f_equal.
  - rewrite !newsOf_none.
    + pose proof (ready_baseline prev curr unassessed Hun Hwf) as Hrb. fold kept res in Hrb. clearbody res.
      destruct (noneLeft curr kept) eqn:En; [|by rewrite andb_false_r].
      destruct (r_Verdict curr =s VerdictReady) eqn:Ev; [|by rewrite andb_false_r]. apply String.eqb_eq in Ev.
      pose proof (fun h => Hrb h eq_refl Ev) as Hb.
      rewrite headKeys_nil by (intros h Hh; by destruct (Hb h Hh)).
      destruct (existsb h_Resolved _) eqn:Er; [|done]. apply existsb_elem in Er as (h & Hh & Hr).
      destruct (Hb h Hh) as [_ Hr']. congruence.
    + intros f Hf Hk. apply negb_false_iff. apply (known_again prev curr unassessed isEOLApproaching); [|done..].
      intros g. apply baselineHead_fields.
    + intros f Hf Hk. pose proof (known_again prev curr unassessed isBlocker blocker f) as Hka. fold kept res in Hka.
      rewrite Hka; [done| |done..]. intros g. apply baselineHead_fields.
  - rewrite map_app. f_equal. unfold res. destruct (noneLeft curr kept) eqn:En; [|done].
    destruct (r_Verdict curr =s VerdictUnknown) eqn:Ev; [|done]. simpl. apply String.eqb_eq in Ev.
    pose proof (resolved_again prev curr unassessed En Ev) as H. fold kept in H. rewrite En, Ev, map_app in H. exact H.
Qed.

Definition exampleFinding (cat sev k title : string) : Finding := newFinding cat sev k title "" [].

Definition exampleReport (verdict : string) (fs : list Finding) : Report :=
  mkReport "" (mkVersion 1 36) "v1.35.1" "" "" "kb-1" 80 (verdict =s VerdictReady) verdict fs [] None [] [] 0 0 [].

Lemma computeDelta_once_witness :
  let un := Some (fun h => key h =s "deprecated-api-in-use/batch/v1beta1/cronjobs") in
  let prev := [keyedHead CatDeprecatedAPIInUse SevBlocker "deprecated-api-in-use/batch/v1beta1/cronjobs"] in
  let curr := exampleReport VerdictBlocked [exampleFinding CatRemovedAPI SevBlocker "removed-api/x/v1/Y" "gone"] in
  zlen (computeDelta prev curr un).1 = 1 /\
  computeDelta (baselineAfter curr (computeDelta prev curr un).2) curr un =
    ([], map letTitleGo (computeDelta prev curr un).2).
Proof.
  intros un prev curr. split; [vm_compute; reflexivity|]. apply computeDelta_once.
  - intros u Hu. injection Hu as <-. intros h. by rewrite letTitleGo_key.
  - intros h [->|Hn]%elem_of_cons; [discriminate|by apply not_elem_of_nil in Hn].
Defined.

(** ** What is announced *)

(** The findings [newsOf] announces. *)
Fixpoint newsFindings (keep : Finding -> bool) (news : string -> bool) (seen : list string) (fs : list Finding) : list Finding :=
  match fs with
  | [] => []
  | f :: fs' =>
      if keep f && negb (mem_str (findingKey f) seen)
      then (if news (findingKey f) then [f] else []) ++ newsFindings keep news (findingKey f :: seen) fs'
      else newsFindings keep news seen fs'
  end.

Section News.
Context (keep : Finding -> bool) (news : string -> bool).

Lemma newsOf_map kind target seen fs :
  newsOf keep news kind target seen fs = map (fun f => change kind f target) (newsFindings keep news seen fs).
Proof.
  revert seen. induction fs as [|f fs IH]; intros seen; [done|]. simpl. destruct (keep f); simpl; [|apply IH].
  destruct (mem_str _ seen); simpl; [apply IH|]. rewrite IH, map_app. by destruct (news _).
Qed.

Lemma newsFindings_sublist seen fs : newsFindings keep news seen fs `sublist_of` fs.
Proof.
  revert seen. induction fs as [|f fs IH]; intros seen; simpl; [done|]. destruct (keep f && _); [|by apply sublist_cons].
  destruct (news _); simpl; [by apply sublist_skip|by apply sublist_cons].
Qed.

Lemma newsFindings_kept seen fs f : f ∈ newsFindings keep news seen fs -> keep f = true /\ news (findingKey f) = true.
Proof.
  revert seen. induction fs as [|x fs IH]; intros seen; simpl; [by intros ?%not_elem_of_nil|].
  destruct (keep x && _) eqn:E; [|apply IH]. apply andb_true_iff in E as [Hk _]. destruct (news (findingKey x)) eqn:En; [|apply IH].
  intros [->|Hf]%elem_of_cons; [done|by eapply IH].
Qed.

Lemma newsFindings_keys seen fs k : k ∈ findingKey <$> newsFindings keep news seen fs <->
  news k = true /\ k ∉ seen /\ exists f, f ∈ fs /\ keep f = true /\ findingKey f = k.
Proof.
  revert seen. induction fs as [|x fs IH]; intros seen; simpl.
  { split; [by intros ?%not_elem_of_nil|]. intros (_ & _ & f & Hf & _). by apply not_elem_of_nil in Hf. }
  setoid_rewrite elem_of_cons. destruct (keep x) eqn:Ek; simpl.
  - destruct (mem_str (findingKey x) seen) eqn:Em; simpl.
    + apply mem_str_spec in Em. rewrite IH. split; [naive_solver|].
      intros (Hn & Hs & f & [->|Hf] & Hk & He); [|naive_solver]. by subst k.
    + assert (Hx : findingKey x ∉ seen) by (intros Hc; apply mem_str_spec in Hc; congruence).
      rewrite fmap_app, elem_of_app, IH, elem_of_cons. destruct (news (findingKey x)) eqn:En; simpl.
      * rewrite list_elem_of_singleton. split.
        -- intros [->|(Hn & Hs & f & Hf & Hk & He)]; [split_and!; eauto|split_and!; [done|tauto|eauto]].
        -- intros (Hn & Hs & f & [->|Hf] & Hk & He); [by left|]. destruct (decide (k = findingKey x)); [by left|].
           right. split_and!; [done|tauto|eauto].
      * rewrite elem_of_nil. split.
        { intros [[]|(Hn & Hs & f & Hf & Hk & He)]. split_and!; [done|tauto|eauto]. }
        intros (Hn & Hs & f & [->|Hf] & Hk & He); [congruence|].
        right. split; [done|]. split; [|eauto]. intros [->|]; [congruence|done].
  - rewrite IH. split; intros (Hn & Hs & f & Hf & Hk & He); (split; [done|]); (split; [done|]); [eauto|].
    destruct Hf as [->|Hf]; [congruence|eauto].
Qed.

Lemma newsFindings_NoDup seen fs : NoDup (findingKey <$> newsFindings keep news seen fs).
Proof.
  revert seen. induction fs as [|x fs IH]; intros seen; simpl; [constructor|].
  destruct (keep x && _); [|apply IH]. destruct (news _); simpl; [|apply IH]. apply NoDup_cons. split; [|apply IH].
  intros (_ & Hn & _)%newsFindings_keys. apply Hn. left.
Qed.
End News.

Lemma mem_headKeys k hs keepHead :
  mem_str k (headKeys hs keepHead) = true <-> exists h, h ∈ hs /\ keepHead h = true /\ key h = k.
Proof.
  rewrite mem_str_spec. unfold headKeys. rewrite list_elem_of_fmap. setoid_rewrite list_elem_of_In. setoid_rewrite filter_In.
  naive_solver.
Qed.

Lemma headKeys_pos hs keepHead : 0 <? zlen (headKeys hs keepHead) = true <-> existsb keepHead hs = true.
Proof.
  unfold headKeys, zlen. rewrite length_map, Z.ltb_lt, existsb_exists. split.
  - destruct (List.filter keepHead hs) as [|h l] eqn:E; [simpl; lia|]. intros _. exists h. apply filter_In. rewrite E. by left.
  - intros (h & Hh). apply filter_In in Hh. destruct (List.filter keepHead hs); [done|simpl; lia].
Qed.

(** C18 What a pass announces of a target is what is new: each key of its blockers that was no blocker of the baseline,
    and is not a caller of an API the pass carries a finding of, gives exactly one new-blocker change; each key of its
    end-of-life warnings that was none of the baseline's gives exactly one change; and there is one became-ready change
    exactly when the baseline had a blocker, or owed the news, and neither the report nor what the pass carries has one
    and the verdict is ready. It is so when no key of the baseline is of a kind that is itself called "unserved" ([plain_key]; for one,
    as [unserved_kind] shows, the pass folds a caller otherwise than [FoldsInto] says). *)
Theorem computeDelta_announces (prev : list findingHead) (curr : Report) (unassessed : option (findingHead -> bool)) :
  (forall h, h ∈ prev -> plain_key (key h)) ->
  exists blockers eols ready,
    (computeDelta prev curr unassessed).1 =
      map (fun f => change KindNewBlocker f [VString (r_Target curr)]) blockers ++ ready ++
      map (fun f => change KindEOLApproaching f [VString (r_Target curr)]) eols /\
    NoDup (findingKey <$> blockers) /\ NoDup (findingKey <$> eols) /\
    blockers `sublist_of` r_Findings curr /\ eols `sublist_of` r_Findings curr /\
    (forall k, k ∈ findingKey <$> blockers <->
       (exists f, f ∈ r_Findings curr /\ isBlocker f = true /\ findingKey f = k) /\
       (forall h, h ∈ prev -> blocker h = true -> key h <> k) /\
       (forall h, h ∈ keptOf prev curr unassessed -> FoldsInto k (key h) = false)) /\
    (forall k, k ∈ findingKey <$> eols <->
       (exists f, f ∈ r_Findings curr /\ isEOLApproaching f = true /\ findingKey f = k) /\
       (forall h, h ∈ prev -> eolApproaching h = true -> key h <> k)) /\
    ready = if existsb (fun h => blocker h || h_Resolved h) prev &&
               noneLeft curr (keptOf prev curr unassessed) && (r_Verdict curr =s VerdictReady)
            then [mkChange KindBecameReady "" "" becameReadyTitle "" [VString (r_Target curr)]] else [].
Proof.
  intros Hplain. rewrite computeDelta_eq. cbv zeta. cbn [fst]. rewrite !newsOf_map.
  set (kept := keptOf prev curr unassessed).
  eexists (newsFindings isBlocker _ [] (r_Findings curr)), (newsFindings isEOLApproaching _ [] (r_Findings curr)), _.
  split; [reflexivity|]. split_and!; auto using newsFindings_NoDup, newsFindings_sublist.
  - intros k. rewrite newsFindings_keys, andb_true_iff, !negb_true_iff. rewrite <- !not_true_iff_false, mem_headKeys.
    rewrite folds_exact, existsb_elem.
    + split.
      * intros ((Hb & Hf) & _ & Hex). split; [done|]. split; [intros h Hh Hbl He; apply Hb; eauto|].
        intros h Hh. destruct (FoldsInto k (key h)) eqn:E; [|done]. destruct Hf. eauto.
      * intros (Hex & Hb & Hf). split_and!; [intros (h & Hh & Hbl & He); by apply (Hb h)| |apply not_elem_of_nil|done].
        intros (h & Hh & He). by rewrite Hf in He.
    + intros h Hh. apply Hplain. destruct unassessed as [un|]; [by apply carriedOf_all in Hh as [_ ?]|by apply not_elem_of_nil in Hh].
  - intros k. rewrite newsFindings_keys, negb_true_iff, <- not_true_iff_false, mem_headKeys. split.
    + intros (Hb & _ & Hex). split; [done|]. intros h Hh Hbl He. apply Hb. eauto.
    + intros (Hex & Hb). split_and!; [intros (h & Hh & Hbl & He); by apply (Hb h)|apply not_elem_of_nil|done].
  - assert ((0 <? zlen (headKeys prev blocker)) || existsb h_Resolved prev =
            existsb (fun h => blocker h || h_Resolved h) prev) as ->; [|done].
    apply eq_true_iff_eq. rewrite orb_true_iff, headKeys_pos, !existsb_elem. setoid_rewrite orb_true_iff. naive_solver.
Qed.

Lemma computeDelta_announces_witness :
  let prev := [keyedHead CatRemovedAPI SevBlocker "removed-api/x/v1/Y"] in
  let curr := exampleReport VerdictBlocked [exampleFinding CatRemovedAPI SevBlocker "removed-api/x/v1/Y" "gone";
                                            exampleFinding CatRemovedAPI SevBlocker "removed-api/x/v1/Z" "gone too"] in
  exists blockers : list Finding, "removed-api/x/v1/Z"%string ∈ findingKey <$> blockers /\
    "removed-api/x/v1/Y"%string ∉ findingKey <$> blockers /\
    map ch_Title (computeDelta prev curr None).1 = ["gone too"%string].
Proof.
  intros prev curr. destruct (computeDelta_announces prev curr None) as (b & e & r & Hc & _ & _ & _ & _ & Hb & _).
  - intros h [->|Hn]%elem_of_cons; [vm_compute; reflexivity|by apply not_elem_of_nil in Hn].
  - exists b. split_and!; [| |vm_compute; reflexivity].
    + apply Hb. split_and!.
      * exists (exampleFinding CatRemovedAPI SevBlocker "removed-api/x/v1/Z" "gone too"). split_and!; [right; left|reflexivity..].
      * intros h [->|Hn]%elem_of_cons; [discriminate|by apply not_elem_of_nil in Hn].
      * intros h Hn. by apply not_elem_of_nil in Hn.
    + intros (_ & Hn & _)%Hb. by apply (Hn (keyedHead CatRemovedAPI SevBlocker "removed-api/x/v1/Y")); [left|..].
Defined.
