(* ===== verification/Merge.v ===== *)
(** * One notification per pass: the merge of internal/server/notify_delta.go

    The changes of a pass, target by target, become one notification: a change
    found for several targets in the same words is listed once, and past its
    kind's cap a change is only counted. The merge keeps the digest of an
    omitted change, not the change; the theorems compare it with the merge
    that keeps everything and is capped at the end. *)

From stdpp Require Import base list strings gmap.
From Stdlib Require Import ZArith Lia Ascii.
From S2P Require Import Prelude GoStr GoTime GoSha Version Inventory KB Findings Heads Notify Db Store Delta.

Record targetDelta := mkDelta {
  d_target : NTarget;
  d_changes : list Change;
  d_carried : list findingHead;
  d_baselines : gmap string Z;
}.

Definition kindRank (kind : string) : Z :=
  if kind =s KindNewBlocker then 0 else if kind =s KindBecameReady then 1 else if kind =s KindEOLApproaching then 2 else 0.

Definition kindCap (kind : string) : Z :=
  if kind =s KindNewBlocker then maxBlockerChanges else if kind =s KindEOLApproaching then maxEOLChanges else 0.

(** [changeIdentity]: a digest of 32 bytes. *)
Definition digest : Type := list Z.

Definition changeIdentity (c : Change) : digest :=
  Sum256 (ch_Kind c +:+ nul +:+ ch_Key c +:+ nul +:+ ch_Title c +:+ nul +:+ ch_Detail c +:+ nul).

Record changeMerger := mkMerger {
  m_targets : list NTarget;
  m_changes : list Change;
  m_listed : gmap digest nat;
  m_omitted : gset digest;
  m_count : gmap string Z;
  m_counted : gmap string Z;
}.

Definition emptyMerger : changeMerger := mkMerger [] [] ∅ ∅ ∅ ∅.

Definition addTargets (ts : list string) (c : Change) : Change :=
  mkChange (ch_Kind c) (ch_Key c) (ch_Severity c) (ch_Title c) (ch_Detail c) (ch_Targets c ++ ts).

Definition countUp (kind : string) (m : gmap string Z) : gmap string Z := <[kind := default 0 (m !! kind) + 1]> m.

Definition addChange (m : changeMerger) (c : Change) : changeMerger :=
  let id := changeIdentity c in
  match m_listed m !! id with
  | Some i =>
      mkMerger (m_targets m) (alter (addTargets (ch_Targets c)) i (m_changes m)) (m_listed m) (m_omitted m)
        (m_count m) (m_counted m)
  | None =>
      if bool_decide (id ∈ m_omitted m) then m
      else
        let count := countUp (ch_Kind c) (m_count m) in
        let limit := kindCap (ch_Kind c) in
        if (0 <? limit) && (limit <? default 0 (count !! ch_Kind c))
        then mkMerger (m_targets m) (m_changes m) (m_listed m) ({[id]} ∪ m_omitted m) count
               (countUp (ch_Kind c) (m_counted m))
        else mkMerger (m_targets m) (m_changes m ++ [c]) (<[id := length (m_changes m)]> (m_listed m)) (m_omitted m) count
               (m_counted m)
  end.

Definition add (m : changeMerger) (d : targetDelta) : changeMerger :=
  match d_changes d with
  | [] => m
  | cs =>
      foldl addChange (mkMerger (m_targets m ++ [d_target d]) (m_changes m) (m_listed m) (m_omitted m) (m_count m) (m_counted m)) cs
  end.

Definition rankLeb (a b : Change) : bool := kindRank (ch_Kind a) <=? kindRank (ch_Kind b).

Definition notification (m : changeMerger) (cluster : Cluster) (now : Time) (deliveryID : string) : option Notification :=
  match m_changes m with
  | [] => None
  | cs =>
      Some (mkNotification NotificationSchemaVersion deliveryID TypeReadinessChanged now
              (mkNCluster (c_ID cluster) (c_Name cluster)) (m_targets m) (isort rankLeb cs) (m_counted m))
  end.

Definition buildNotification (cluster : Cluster) (deltas : list targetDelta) (now : Time) (deliveryID : string)
    : option Notification :=
  notification (foldl add emptyMerger deltas) cluster now deliveryID.

(** ** The reference: merge everything, then cap *)

Definition sameChange (id : digest) (c : Change) : bool := bool_decide (changeIdentity c = id).

Definition mergeChange (gs : list Change) (c : Change) : list Change :=
  if existsb (sameChange (changeIdentity c)) gs
  then map (fun g => if sameChange (changeIdentity c) g then addTargets (ch_Targets c) g else g) gs
  else gs ++ [c].

Definition mergeAll (cs : list Change) : list Change := foldl mergeChange [] cs.

Definition ofKind (kind : string) (c : Change) : bool := ch_Kind c =s kind.

(** Whether a change is listed after the changes [before]. *)
Definition fits (before : list Change) (c : Change) : bool :=
  let limit := kindCap (ch_Kind c) in
  negb ((0 <? limit) && (limit <=? zlen (select (ofKind (ch_Kind c)) before))).

Fixpoint marked (before gs : list Change) : list (Change * bool) :=
  match gs with
  | [] => []
  | g :: gs' => (g, fits before g) :: marked (before ++ [g]) gs'
  end.

Definition listedOf (gs : list Change) : list Change := map fst (select (fun p => p.2) (marked [] gs)).
Definition omittedOf (gs : list Change) : list Change := map fst (select (fun p => negb p.2) (marked [] gs)).

(** ** The two agree *)

Lemma marked_snoc before gs g : marked before (gs ++ [g]) = marked before gs ++ [(g, fits (before ++ gs) g)].
Proof.
  revert before. induction gs as [|x gs IH]; intros before; simpl; [by rewrite app_nil_r|].
  by rewrite IH, <- app_assoc.
Qed.

Lemma listedOf_snoc gs g : listedOf (gs ++ [g]) = listedOf gs ++ (if fits gs g then [g] else []).
Proof.
  unfold listedOf. rewrite marked_snoc, select_app, map_app. f_equal. unfold select. rewrite filter_cons. simpl.
  by destruct (fits gs g).
Qed.

Lemma omittedOf_snoc gs g : omittedOf (gs ++ [g]) = omittedOf gs ++ (if fits gs g then [] else [g]).
Proof.
  unfold omittedOf. rewrite marked_snoc, select_app, map_app. f_equal. unfold select. rewrite filter_cons. simpl.
  by destruct (fits gs g).
Qed.

Lemma listed_omitted gs : listedOf gs ++ omittedOf gs ≡ₚ gs.
Proof.
  induction gs as [|g gs IH] using rev_ind; [done|]. rewrite listedOf_snoc, omittedOf_snoc.
  destruct (fits gs g); rewrite ?app_nil_r.
  - rewrite <- app_assoc. simpl. rewrite <- Permutation_middle, IH. by rewrite Permutation_cons_append.
  - by rewrite app_assoc, IH.
Qed.

Lemma addTargets_identity ts c : changeIdentity (addTargets ts c) = changeIdentity c.
Proof. done. Qed.

Section Retarget.
Context (f : Change -> Change).
Hypothesis Hkind : forall c, ch_Kind (f c) = ch_Kind c.

Lemma ofKind_map kind gs : zlen (select (ofKind kind) (map f gs)) = zlen (select (ofKind kind) gs).
Proof using Hkind.
  unfold zlen. f_equal. induction gs as [|g gs IH]; [done|]. unfold select in *. simpl. rewrite !filter_cons.
  assert (ofKind kind (f g) = ofKind kind g) as -> by (unfold ofKind; by rewrite Hkind).
  destruct (decide _); simpl; [by f_equal|done].
Qed.

Lemma marked_map before gs : marked (map f before) (map f gs) = map (fun p => (f p.1, p.2)) (marked before gs).
Proof using Hkind.
  revert before. induction gs as [|g gs IH]; intros before; [done|]. simpl. f_equal.
  - unfold fits. by rewrite Hkind, ofKind_map.
  - rewrite <- IH. by rewrite map_app.
Qed.

Lemma select_map_snd (p : bool -> bool) (l : list (Change * bool)) :
  map fst (select (fun q => p q.2) (map (fun q => (f q.1, q.2)) l)) = map f (map fst (select (fun q => p q.2) l)).
Proof.
  clear Hkind. induction l as [|[g b] l IH]; [done|]. unfold select in *. simpl. rewrite !filter_cons. simpl.
  destruct (decide (p b = true)); simpl; [by f_equal|done].
Qed.

Lemma listedOf_map gs : listedOf (map f gs) = map f (listedOf gs).
Proof using Hkind. unfold listedOf. change (@nil Change) with (map f []). rewrite marked_map. apply (select_map_snd (fun b => b)). Qed.

Lemma omittedOf_map gs : omittedOf (map f gs) = map f (omittedOf gs).
Proof using Hkind. unfold omittedOf. change (@nil Change) with (map f []). rewrite marked_map. apply (select_map_snd negb). Qed.
End Retarget.

(** The changes with the identity of [c] retargeted. *)
Definition retarget (c g : Change) : Change :=
  if sameChange (changeIdentity c) g then addTargets (ch_Targets c) g else g.

Lemma retarget_kind c g : ch_Kind (retarget c g) = ch_Kind g.
Proof. unfold retarget. by destruct (sameChange _ g). Qed.

Lemma retarget_identity c g : changeIdentity (retarget c g) = changeIdentity g.
Proof. unfold retarget. by destruct (sameChange _ g). Qed.

Lemma retarget_ids c gs : changeIdentity <$> map (retarget c) gs = changeIdentity <$> gs.
Proof. induction gs as [|g gs IH]; [done|]. simpl. f_equal; [apply retarget_identity|exact IH]. Qed.

Lemma retarget_none c gs : changeIdentity c ∉ changeIdentity <$> gs -> map (retarget c) gs = gs.
Proof.
  induction gs as [|g gs IH]; [done|]. rewrite fmap_cons, not_elem_of_cons. intros [Hne Hn]. simpl. f_equal; [|by apply IH].
  unfold retarget, sameChange. by rewrite bool_decide_eq_false_2.
Qed.

Lemma retarget_alter c gs i : NoDup (changeIdentity <$> gs) -> (changeIdentity <$> gs) !! i = Some (changeIdentity c) ->
  map (retarget c) gs = alter (addTargets (ch_Targets c)) i gs.
Proof.
  revert i. induction gs as [|g gs IH]; intros i Hn Hi; [done|]. apply NoDup_cons in Hn as [Hg Hn]. destruct i as [|i]; simpl in Hi.
  - injection Hi as Hi. simpl. rewrite retarget_none by (by rewrite <- Hi). unfold retarget, sameChange.
    by rewrite bool_decide_eq_true_2.
  - simpl. f_equal; [|by apply IH]. unfold retarget, sameChange. rewrite bool_decide_eq_false_2; [done|]. intros He. apply Hg.
    rewrite He. by eapply list_elem_of_lookup_2.
Qed.

Record merged (gs : list Change) (m : changeMerger) : Prop := {
  mg_changes : m_changes m = listedOf gs;
  mg_listed : forall id i, m_listed m !! id = Some i <-> (changeIdentity <$> listedOf gs) !! i = Some id;
  mg_omitted : forall id, id ∈ m_omitted m <-> id ∈ changeIdentity <$> omittedOf gs;
  mg_ids : NoDup (changeIdentity <$> gs);
  mg_count : forall kind, default 0 (m_count m !! kind) = zlen (select (ofKind kind) gs);
  mg_counted : forall kind, m_counted m !! kind =
    let n := zlen (select (ofKind kind) (omittedOf gs)) in if n =? 0 then None else Some n;
}.

Lemma merged_empty : merged [] emptyMerger.
Proof.
  split; [done| | |constructor|done|done].
  - intros x i. simpl. rewrite lookup_empty, lookup_nil. done.
  - intros x. simpl. rewrite elem_of_empty, elem_of_nil. done.
Qed.

Lemma existsb_identity id gs : existsb (sameChange id) gs = bool_decide (id ∈ changeIdentity <$> gs).
Proof.
  apply eq_true_iff_eq. rewrite bool_decide_eq_true, existsb_exists, list_elem_of_fmap. unfold sameChange.
  setoid_rewrite bool_decide_eq_true. setoid_rewrite list_elem_of_In. naive_solver.
Qed.

Lemma ids_split gs id : id ∈ changeIdentity <$> gs <->
  id ∈ changeIdentity <$> listedOf gs \/ id ∈ changeIdentity <$> omittedOf gs.
Proof.
  rewrite <- elem_of_app, <- fmap_app. by rewrite listed_omitted.
Qed.

Lemma NoDup_listed gs : NoDup (changeIdentity <$> gs) -> NoDup (changeIdentity <$> listedOf gs).
Proof. intros H. rewrite <- (listed_omitted gs), fmap_app in H. by apply NoDup_app in H as (? & _). Qed.

(** A change seen before. *)
Lemma merged_again gs m c : merged gs m -> changeIdentity c ∈ changeIdentity <$> gs -> merged (map (retarget c) gs) (addChange m c).
Proof.
  intros [H1 H2 H3 H4 H5 H6] Hin.
  assert (Hl : listedOf (map (retarget c) gs) = map (retarget c) (listedOf gs)) by apply listedOf_map, retarget_kind.
  assert (Ho : omittedOf (map (retarget c) gs) = map (retarget c) (omittedOf gs)) by apply omittedOf_map, retarget_kind.
  assert (Hrest : forall m', m_changes m' = map (retarget c) (listedOf gs) -> m_listed m' = m_listed m ->
    m_omitted m' = m_omitted m -> m_count m' = m_count m -> m_counted m' = m_counted m -> merged (map (retarget c) gs) m').
  { intros m' E1 E2 E3 E4 E5. split; rewrite ?Hl, ?Ho, ?E1, ?E2, ?E3, ?E4, ?E5, ?retarget_ids; try done.
    - intros kind. rewrite ofKind_map by apply retarget_kind. apply H5.
    - intros kind. rewrite ofKind_map by apply retarget_kind. apply H6. }
  unfold addChange. destruct (m_listed m !! changeIdentity c) as [i|] eqn:E.
  - apply Hrest; try done. simpl. rewrite H1. symmetry. apply retarget_alter; [by apply NoDup_listed|by apply H2].
  - assert (Hn : changeIdentity c ∉ changeIdentity <$> listedOf gs).
    { intros (i & Hi)%list_elem_of_lookup. apply H2 in Hi. congruence. }
    rewrite bool_decide_eq_true_2 by (apply H3; apply ids_split in Hin; tauto).
    apply Hrest; try done. by rewrite retarget_none.
Qed.

Lemma countUp_lookup kind k m : default 0 (countUp kind m !! k) = default 0 (m !! k) + (if kind =s k then 1 else 0).
Proof.
  unfold countUp. destruct (kind =s k) eqn:E; to_prop.
  - subst. by rewrite lookup_insert_eq.
  - rewrite lookup_insert_ne by done. lia.
Qed.

Lemma zlen_ofKind_snoc kind gs c :
  zlen (select (ofKind kind) (gs ++ [c])) = zlen (select (ofKind kind) gs) + (if ch_Kind c =s kind then 1 else 0).
Proof.
  rewrite select_app. unfold zlen. rewrite length_app, Nat2Z.inj_add. f_equal. unfold select. rewrite filter_cons. unfold ofKind.
  by destruct (ch_Kind c =s kind).
Qed.

(** A change not seen before. *)
Lemma merged_new gs m c : merged gs m -> changeIdentity c ∉ changeIdentity <$> gs -> merged (gs ++ [c]) (addChange m c).
Proof.
  intros [H1 H2 H3 H4 H5 H6] Hnew. rewrite ids_split in Hnew. unfold addChange.
  destruct (m_listed m !! changeIdentity c) as [i|] eqn:E.
  { destruct Hnew. left. eapply list_elem_of_lookup_2. by apply H2. }
  rewrite bool_decide_eq_false_2 by (rewrite H3; tauto). rewrite countUp_lookup, String.eqb_refl, H5.
  assert (Hfits : (0 <? kindCap (ch_Kind c)) && (kindCap (ch_Kind c) <? zlen (select (ofKind (ch_Kind c)) gs) + 1) =
                  negb (fits gs c)).
  { unfold fits. rewrite negb_involutive. f_equal. apply eq_true_iff_eq. rewrite Z.ltb_lt, Z.leb_le. lia. }
  rewrite Hfits.
  assert (Hids : NoDup (changeIdentity <$> gs ++ [c])).
  { rewrite fmap_app. apply NoDup_app. split_and!; [done| |apply NoDup_singleton].
    intros x Hx ->%list_elem_of_singleton. rewrite ids_split in Hx. tauto. }
  assert (Hcount : forall kind, default 0 (countUp (ch_Kind c) (m_count m) !! kind) = zlen (select (ofKind kind) (gs ++ [c]))).
  { intros kind. by rewrite countUp_lookup, H5, zlen_ofKind_snoc. }
  destruct (fits gs c) eqn:Ef; simpl; split; cbn [m_changes m_listed m_omitted m_count m_counted];
    rewrite ?listedOf_snoc, ?omittedOf_snoc, ?Ef, ?app_nil_r; try done.
  - by rewrite H1.
  - intros id i. rewrite H1, fmap_app. destruct (decide (changeIdentity c = id)) as [<-|Hne].
    + rewrite lookup_insert_eq. split.
      * intros [= <-]. rewrite lookup_app_r by (by rewrite length_fmap). by rewrite length_fmap, Nat.sub_diag.
      * intros Hi. apply lookup_app_Some in Hi as [Hi|[Hle Hi]].
        { destruct Hnew. left. by eapply list_elem_of_lookup_2. }
        rewrite length_fmap in Hle, Hi. apply list_lookup_singleton_Some in Hi as [Hi _]. f_equal. lia.
    + rewrite lookup_insert_ne by done. rewrite H2. split.
      * intros Hi. by apply lookup_app_l_Some.
      * intros Hi. apply lookup_app_Some in Hi as [Hi|[Hle Hi]]; [done|].
        by apply list_lookup_singleton_Some in Hi as [_ ?].
  - intros id. rewrite fmap_app, elem_of_app, elem_of_union, elem_of_singleton, H3. simpl. rewrite list_elem_of_singleton. tauto.
  - intros kind. rewrite zlen_ofKind_snoc. cbv zeta. unfold countUp.
    pose proof (H6 (ch_Kind c)) as H6c. cbv zeta in H6c. assert (Hpos : 0 <= zlen (select (ofKind (ch_Kind c)) (omittedOf gs)))
      by (unfold zlen; lia).
    destruct (ch_Kind c =s kind) eqn:Ek; to_prop.
    + subst kind. rewrite lookup_insert_eq, H6c. destruct (zlen _ =? 0) eqn:Ez, (zlen _ + 1 =? 0) eqn:Ez'; simpl; try lia; f_equal; lia.
    + rewrite lookup_insert_ne by done. rewrite H6. cbv zeta. by rewrite Z.add_0_r.
Qed.

Lemma merged_step gs m c : merged gs m -> merged (mergeChange gs c) (addChange m c).
Proof.
  intros Hm. unfold mergeChange. rewrite existsb_identity. destruct (bool_decide _) eqn:E.
  - apply bool_decide_eq_true in E. by apply merged_again.
  - apply bool_decide_eq_false in E. by apply merged_new.
Qed.

Lemma merged_foldl cs gs m : merged gs m -> merged (foldl mergeChange gs cs) (foldl addChange m cs).
Proof. revert gs m. induction cs as [|c cs IH]; intros gs m Hm; [done|]. apply IH. by apply merged_step. Qed.

Lemma merged_targets gs m ts : merged gs m ->
  merged gs (mkMerger ts (m_changes m) (m_listed m) (m_omitted m) (m_count m) (m_counted m)).
Proof. by intros [H1 H2 H3 H4 H5 H6]. Qed.

Definition changed (d : targetDelta) : bool := match d_changes d with [] => false | _ => true end.

Lemma addChange_targets m c : m_targets (addChange m c) = m_targets m.
Proof. unfold addChange. by repeat case_match. Qed.

Lemma addChanges_targets cs m : m_targets (foldl addChange m cs) = m_targets m.
Proof. revert m. induction cs as [|c cs IH]; intros m; [done|]. simpl. by rewrite IH, addChange_targets. Qed.

Lemma merged_deltas deltas gs m : merged gs m ->
  merged (foldl mergeChange gs (concat (map d_changes deltas))) (foldl add m deltas) /\
  m_targets (foldl add m deltas) = m_targets m ++ map d_target (select changed deltas).
Proof.
  revert gs m. induction deltas as [|d deltas IH]; intros gs m Hm; [by rewrite app_nil_r|].
  cbn [map concat foldl]. rewrite foldl_app.
  assert (Hadd : merged (foldl mergeChange gs (d_changes d)) (add m d) /\
                 m_targets (add m d) = m_targets m ++ (if changed d then [d_target d] else [])).
  { unfold add, changed. destruct (d_changes d) as [|c cs]; [by rewrite app_nil_r|]. rewrite addChanges_targets.
    split; [|done]. by apply merged_foldl, merged_targets. }
  destruct Hadd as [Hadd Ht]. destruct (IH _ _ Hadd) as [H1 H2]. split; [exact H1|]. rewrite H2, Ht, <- app_assoc. f_equal.
  unfold select. rewrite filter_cons. by destruct (changed d).
Qed.

(** How many changes of a kind are listed. *)
Lemma listed_count kind gs :
  zlen (select (ofKind kind) (listedOf gs)) =
  if 0 <? kindCap kind then Z.min (kindCap kind) (zlen (select (ofKind kind) gs)) else zlen (select (ofKind kind) gs).
Proof.
  induction gs as [|g gs IH] using rev_ind; [unfold kindCap; by repeat case_match|].
  rewrite listedOf_snoc, zlen_ofKind_snoc. destruct (ch_Kind g =s kind) eqn:Ek.
  - apply String.eqb_eq in Ek as <-. unfold fits. destruct (0 <? kindCap (ch_Kind g)) eqn:Ec; simpl.
    + destruct (kindCap (ch_Kind g) <=? _) eqn:El; simpl; rewrite ?app_nil_r, ?zlen_ofKind_snoc, ?String.eqb_refl, IH; lia.
    + by rewrite zlen_ofKind_snoc, String.eqb_refl, IH.
  - rewrite Z.add_0_r, <- IH. destruct (fits gs g); [|by rewrite app_nil_r]. rewrite zlen_ofKind_snoc, Ek. lia.
Qed.

Lemma omitted_count kind gs :
  zlen (select (ofKind kind) (omittedOf gs)) = zlen (select (ofKind kind) gs) - zlen (select (ofKind kind) (listedOf gs)).
Proof.
  assert (H : zlen (select (ofKind kind) (listedOf gs ++ omittedOf gs)) = zlen (select (ofKind kind) gs)).
  { unfold zlen, select. by rewrite listed_omitted. }
  rewrite select_app in H. unfold zlen in *. rewrite length_app in H. lia.
Qed.

Lemma listedOf_nil gs : listedOf gs = [] -> gs = [].
Proof.
  destruct gs as [|g gs]; [done|]. unfold listedOf, select. simpl. rewrite filter_cons. simpl.
  assert (fits [] g = true) as ->; [|done]. unfold fits. simpl. destruct (0 <? kindCap _) eqn:E; [|done]. simpl.
  apply negb_true_iff, Z.leb_gt. unfold zlen. simpl. lia.
Qed.

Lemma mergeChange_some gs c : mergeChange gs c <> [].
Proof.
  unfold mergeChange. destruct gs as [|g gs]; [discriminate|].
  destruct (existsb (sameChange (changeIdentity c)) (g :: gs)); discriminate.
Qed.

Lemma mergeAll_nil cs : mergeAll cs = [] -> cs = [].
Proof.
  induction cs as [|c cs _] using rev_ind; [done|]. unfold mergeAll. rewrite foldl_app. intros H.
  by apply mergeChange_some in H.
Qed.

Lemma zlen_select_isort (p : Change -> bool) leb l : zlen (select p (isort leb l)) = zlen (select p l).
Proof. unfold zlen, select. f_equal. apply Permutation_length. apply filter_Permutation, isort_perm. Qed.

(** C26 The notification of a pass is the whole merge, capped: although the merge keeps only digests of what is past a
    cap, the changes it lists are those of the merge that keeps everything, cut to the kinds' caps, blockers first, each
    with the targets of every change it stands for; a change of a kind is listed or counted as omitted, at most the cap is
    listed; the targets are those that changed; and there is no notification exactly when no target changed. *)
Theorem buildNotification_merges (cluster : Cluster) (deltas : list targetDelta) (now : Time) (deliveryID : string) :
  let all := concat (map d_changes deltas) in
  let gs := mergeAll all in
  match buildNotification cluster deltas now deliveryID with
  | None => all = []
  | Some n =>
      all <> [] /\ n_Changes n = isort rankLeb (listedOf gs) /\ n_Targets n = map d_target (select changed deltas) /\
      forall kind,
        let listed := zlen (select (ofKind kind) (n_Changes n)) in
        let distinct := zlen (select (ofKind kind) gs) in
        listed + default 0 (n_Omitted n !! kind) = distinct /\
        listed = if 0 <? kindCap kind then Z.min (kindCap kind) distinct else distinct
  end.
Proof.
  intros all gs. unfold buildNotification, notification.
  destruct (merged_deltas deltas [] emptyMerger merged_empty) as [[H1 _ _ _ _ H6] Ht]. fold all in H1, H6.
  change (foldl mergeChange [] all) with gs in H1, H6. rewrite H1. destruct (listedOf gs) as [|g l] eqn:El.
  - by apply mergeAll_nil, listedOf_nil.
  - rewrite <- El. split; [intros Hall; unfold gs in El; by rewrite Hall in El|]. split_and!; [done|exact Ht|].
    intros kind. cbn [n_Changes n_Omitted]. rewrite H6. cbv zeta. rewrite !zlen_select_isort, omitted_count, listed_count. split; [|done].
    destruct (_ =? 0) eqn:Ez; simpl; [apply Z.eqb_eq in Ez; lia|lia].
Qed.
