(* ===== verification/Passes.v ===== *)
(** * Evaluation passes: internal/server/evaluate.go

    What a server does with a pushed snapshot and with the stored ones that
    went out of date: which targets it judges, what it stores, what it
    notifies, and what it commits. A pass reads a database and computes a
    batch; the commit is the store's and may meet a later database, which the
    theorems allow for.

    [runEngine] is the engine a server runs ([EvaluateWithin] in production),
    [reportSize] the length of a report as encoding/json writes it, and
    [inventoryOf] the decoding of a stored snapshot (decodeInventory). *)

From stdpp Require Import base list strings gmap.
From Stdlib Require Import ZArith Lia Ascii.
From S2P Require Import Prelude GoStr GoTime GoSha Version Inventory KB Findings Evaluate Glob Suppress Heads Notify Db Store StoreInv Prune Delta Merge.

(** ** The server *)

Record TeamMapRule := mkTeamMapRule { tm_Pattern : string; tm_Team : string }.

Record Server := mkServer {
  sv_KB : KB;
  sv_TeamMap : list TeamMapRule;
  sv_teamMapHash : string;
  sv_extraTargets : list Version;
  sv_sinks : list string;
  sv_maxReportBytes : Z;
  runEngine : Inventory -> KB -> Version -> Time -> Z -> res Report;
  reportSize : storedReport -> Z;
  inventoryOf : Snapshot -> option Inventory;
}.

(** [TeamMap.Apply]: the first rule whose glob matches sets the team. *)
Fixpoint teamFor (rules : list TeamMapRule) (ns : NamespaceInfo) : NamespaceInfo :=
  match rules with
  | [] => ns
  | r :: rules' =>
      if default false (Match (tm_Pattern r) (ns_Name ns)) then mkNamespaceInfo (ns_Name ns) (tm_Team r)
      else teamFor rules' ns
  end.

Definition ApplyTeamMap (m : list TeamMapRule) (ns : list NamespaceInfo) : list NamespaceInfo :=
  if (zlen m =? 0) || (zlen ns =? 0) then ns else map (teamFor m) ns.

(** ** Targets *)

Definition sameVersion (a b : Version) : bool := bool_decide (a = b).

Definition addTarget (server : option Version) (targets : list Version) (t : Version) : list Version :=
  if match server with Some v => Compare t v <=? 0 | None => false end then targets
  else if existsb (sameVersion t) targets then targets else targets ++ [t].

Definition evalTargets (s : Server) (serverVersion : string) : list Version :=
  let server := match ParseVersion serverVersion with Ok v => Some v | Err _ => None end in
  foldl (addTarget server) (match server with Some v => [Next v] | None => [] end) (sv_extraTargets s).

Definition notApplicable (serverVersion : string) (target : Version) : bool :=
  match ParseVersion serverVersion with Ok server => Compare target server <=? 0 | Err _ => false end.

(** [judgedVersion]; a snapshot whose inventory does not decode has no
    version of its own. *)
Definition judgedVersion (s : Snapshot) : string :=
  if negb (sn_ServerVersion s =s "") then sn_ServerVersion s
  else match sn_Inventory s with Some inv => ServerVersion inv | None => "" end.

Definition judgedAt (s : Snapshot) (inv : Inventory) : string :=
  if negb (sn_ServerVersion s =s "") then sn_ServerVersion s else ServerVersion inv.

(** ** One evaluation *)

Definition verdictOf (e : Evaluation) : string := StoredVerdict (e_Ready e) (e_Blockers e).

Inductive evalError :=
| reportTooLarge (target : Version) (limit : Z)
| evaluationFailed (what : string).

Definition evaluateWithin (s : Server) (inv : Inventory) (target : Version) (now : Time) : Report + evalError :=
  match runEngine s inv (sv_KB s) target now (sv_maxReportBytes s) with
  | Ok rep => inl rep
  | Err e => inr (if e =s ErrReportTooLarge then reportTooLarge target (sv_maxReportBytes s) else evaluationFailed e)
  end.

Definition suppressAnnotated (rep : Report) (now : Time) : Report :=
  match Apply rep [] (mkOptions now "" "") with
  | Some (rep', _) => rep'
  | None => rep
  end.

Definition hidesNoFinding (capability : string) : bool :=
  (capability =s GapKBCoverage) || (capability =s GapTarget).

Definition notificationBaseline (rep : Report) : bool :=
  if negb (r_Verdict rep =s VerdictUnknown) then true
  else forallb (fun g => negb (g_Required g && negb (hidesNoFinding (g_Capability g)))) (r_NotAssessed rep).

Definition isBaseline (e : Evaluation) : bool := negb (verdictOf e =s VerdictUnknown) || e_Baseline e.

Definition clusterTeams (inv : Inventory) (rep : Report) : list string :=
  compact (sort_strings (List.filter (fun t => negb (t =s "")) (map ns_Team (Namespaces inv)) ++ concat (map f_Teams (r_Findings rep)))).

Definition storedTeams (inv : Inventory) (rep : Report) : list string :=
  let teams := clusterTeams inv rep in
  match r_Suppressed rep with
  | [] => teams
  | sup => compact (sort_strings (teams ++ concat (map (fun sf => f_Teams (sf_Finding sf)) sup)))
  end.

(** [Server.evaluation]. *)
Definition evaluation (s : Server) (cluster : Cluster) (inv : Inventory) (target : Version) (now : Time)
    : (Evaluation * Report) + evalError :=
  match evaluateWithin s inv target now with
  | inr e => inr e
  | inl rep =>
      let rep := suppressAnnotated rep now in
      let stored := mkStoredReport rep [] in
      if sv_maxReportBytes s <? reportSize s stored then inr (reportTooLarge target (sv_maxReportBytes s))
      else
        inl (mkEvaluation 0 (c_ID cluster) 0 (VString target) (k_Version (sv_KB s)) (r_Score rep) (r_Ready rep)
               (countIf (fun f => f_Severity f =s SevBlocker) (r_Findings rep))
               (countIf (fun f => f_Severity f =s SevWarning) (r_Findings rep))
               (Some stored) [] now now (sv_teamMapHash s) (storedTeams inv rep) false false (notificationBaseline rep),
             rep)
  end.

(** ** Staleness *)

Definition futureTolerance : Z := 5 * minute.

Definition stale (s : Server) (e : Evaluation) (now : Time) : bool :=
  negb (e_KBVersion e =s k_Version (sv_KB s)) || negb (e_TeamMapHash e =s sv_teamMapHash s) || e_TeamsUnknown e ||
  Before (e_EvaluatedAt e) (truncateDay now) || After (e_EvaluatedAt e) (now + futureTolerance).

Definition sameResult (row : Evaluation) (stored : list findingHead) (rep : Report) : bool :=
  if negb (verdictOf row =s r_Verdict rep) || negb (e_Score row =? r_Score rep) ||
     negb (zlen stored =? zlen (r_Findings rep)) then false
  else bool_decide (sort_strings (map findingSignature stored) =
                    sort_strings (map (fun f => findingSignature (headOf f)) (r_Findings rep))).

(** ** Holds on deprecated callers *)

Definition deprecatedCallsHold : Z := 24 * hour.
Definition startTimeTolerance : Z := 10 * minute.
Definition earliestAPIServerStart : Time := civil 2014 1 1 * day.

Definition apiServerStart (inv : Inventory) : option Time :=
  let start := APIServerStartTime inv in
  if IsZero start || IsZero (CollectedAt inv) || Before start earliestAPIServerStart ||
     After start (CollectedAt inv + startTimeTolerance) then None else Some start.

Record callsHold := mkCallsHold {
  ch_scraped : Time;
  ch_young : Time;
  ch_pushed : bool;
  ch_gone : option (string -> bool);
}.

Definition callsHoldOf (s : Server) (inv : Inventory) (serverVersion : string) (pushed : bool) : callsHold :=
  mkCallsHold (CollectedAt inv)
    (match apiServerStart inv with
     | Some start => if Before (CollectedAt inv) (start + deprecatedCallsHold) then start + deprecatedCallsHold else zeroTime
     | None => zeroTime
     end) pushed
    (match ParseVersion serverVersion with
     | Ok running => Some (fun key => match RemovalOfCall (sv_KB s) key with
                                      | Some removed => Compare removed running <=? 0
                                      | None => false
                                      end)
     | Err _ => None
     end).

Definition until (c : callsHold) (f : findingHead) : Time :=
  if negb (h_Category f =s CatDeprecatedAPIInUse) || IsZero (ch_scraped c) then zeroTime
  else if match ch_gone c with Some gone => gone (h_Key f) | None => false end then zeroTime
  else
    let end_ := h_HoldUntil f in
    let end_ := if ch_pushed c && After end_ (ch_scraped c + (deprecatedCallsHold + startTimeTolerance)) then zeroTime else end_ in
    let end_ := if After (ch_young c) end_ then ch_young c else end_ in
    if negb (Before (ch_scraped c) end_) then zeroTime else end_.

Definition stamp (c : callsHold) (carried : list findingHead) : list findingHead :=
  map (fun h => set_HoldUntil (until c h) h) carried.

Definition holdChanged (report : option storedReport) (hold : callsHold) : bool :=
  if negb (CarriesHold report) then false
  else match storedFindingHeads report with
  | None => false
  | Some heads => existsb (fun f => negb (IsZero (h_HoldUntil f)) && negb (until hold f =? h_HoldUntil f)) (sh_CarriedForward heads)
  end.

Definition unassessedIn (rep : Report) (hold : callsHold) (h : findingHead) : bool :=
  if negb (IsZero (until hold h)) then true
  else existsb (fun c => negb (mem_str c (h_SeenWithout h))) (HiddenBy (r_NotAssessed rep) (h_Category h) (key h)).

(** ** The delta of one evaluation *)

Definition upgradeLookback : Z := 3.

(** The minors below the default target, nearest first. *)
Definition lookbackTargets (def : Version) : list Version :=
  let low := Z.max (Minor def - upgradeLookback) 0 in
  map (fun i => mkVersion (Major def) (Minor def - 1 - Z.of_nat i)) (seq 0 (Z.to_nat (Minor def - low))).

(** The nearest lower target's baseline, and the ids read. *)
Fixpoint lookback (db : SQLite) (clusterID : Z) (targets : list Version) (read : gmap string Z)
    : option Evaluation * gmap string Z :=
  match targets with
  | [] => (None, read)
  | v :: targets' =>
      let lower := VString v in
      match LatestKnownEvaluation clusterID lower db with
      | None => lookback db clusterID targets' (<[lower := 0]> read)
      | Some prev => (Some prev, <[lower := e_ID prev]> read)
      end
  end.

Definition upgradeBaseline (db : SQLite) (clusterID : Z) (cur : Report) (read : gmap string Z)
    : option Evaluation * gmap string Z :=
  match ParseVersion (r_ServerVersion cur) with
  | Err _ => (None, read)
  | Ok server =>
      if negb (sameVersion (Next server) (r_Target cur)) then (None, read)
      else lookback db clusterID (lookbackTargets (r_Target cur)) read
  end.

Record knownBaseline := mkKnown { kn_findings : list findingHead; kn_ok : bool }.

(** The baseline a delta reads, and the ids the commit is to check. *)
Definition baselineFor (db : SQLite) (clusterID : Z) (cur : Report) : option Evaluation * gmap string Z :=
  let target := VString (r_Target cur) in
  match LatestKnownEvaluation clusterID target db with
  | Some prev => (Some prev, {[target := e_ID prev]})
  | None => upgradeBaseline db clusterID cur {[target := 0]}
  end.

Definition deltaFor (s : Server) (db : SQLite) (cluster : Cluster) (e : Evaluation) (cur : Report) (known : knownBaseline)
    (unassessed : findingHead -> bool) : targetDelta :=
  let target := mkNTarget (VString (r_Target cur)) (r_Verdict cur) (r_Score cur) (e_Blockers e) in
  if (zlen (sv_sinks s) =? 0) || negb (e_Baseline e) || (c_ID cluster =? 0) then mkDelta target [] [] ∅
  else if kn_ok known then
    let '(changes, carried) := computeDelta (kn_findings known) cur (Some unassessed) in mkDelta target changes carried ∅
  else
    let '(prev, baselines) := baselineFor db (c_ID cluster) cur in
    match prev with
    | None => mkDelta target [] [] baselines
    | Some p =>
        match storedFindingHeads (e_Report p) with
        | None => mkDelta target [] [] baselines
        | Some heads =>
            let '(changes, carried) := computeDelta (baseline heads) cur (Some unassessed) in
            mkDelta target changes carried baselines
        end
    end.

Definition set_Report (r : storedReport) (e : Evaluation) : Evaluation :=
  mkEvaluation (e_ID e) (e_ClusterID e) (e_SnapshotID e) (e_Target e) (e_KBVersion e) (e_Score e) (e_Ready e) (e_Blockers e)
    (e_Warnings e) (Some r) (e_NotAssessed e) (e_CreatedAt e) (e_EvaluatedAt e) (e_TeamMapHash e) (e_Teams e)
    (e_TeamsUnknown e) (e_CarriesHold e) (e_Baseline e).

Definition set_ID (id : Z) (e : Evaluation) : Evaluation :=
  mkEvaluation id (e_ClusterID e) (e_SnapshotID e) (e_Target e) (e_KBVersion e) (e_Score e) (e_Ready e) (e_Blockers e)
    (e_Warnings e) (e_Report e) (e_NotAssessed e) (e_CreatedAt e) (e_EvaluatedAt e) (e_TeamMapHash e) (e_Teams e)
    (e_TeamsUnknown e) (e_CarriesHold e) (e_Baseline e).

(** [keepCarried]: the evaluation with what its baseline carries, or neither
    when the report would be too large with it. *)
Definition keepCarried (s : Server) (e : Evaluation) (carried : list findingHead) : Evaluation * list findingHead :=
  match carried, e_Report e with
  | [], _ | _, None => (e, [])
  | _, Some r =>
      let b := withCarried r carried in
      if sv_maxReportBytes s <? reportSize s b then (e, []) else (set_Report b e, carried)
  end.

Definition outboxFor (s : Server) (cluster : Cluster) (deltas : changeMerger) (now : Time) (deliveryID : string)
    : list OutboxMessage :=
  match notification deltas cluster now deliveryID with
  | None => []
  | Some n => map (fun sink => mkMessage 0 0 sink (Versioned n) 0 now zeroTime) (sv_sinks s)
  end.

(** [expectBaselines]. *)
Definition expectBaselines (x : option Expectation) (d : targetDelta) : option Expectation :=
  match x with
  | None => None
  | Some x => Some (mkExpectation (x_LatestSnapshotID x) (d_baselines d ∪ x_Baselines x))
  end.

Definition with_carried (carried : list findingHead) (d : targetDelta) : targetDelta :=
  mkDelta (d_target d) (d_changes d) carried (d_baselines d).

Definition with_changes (changes : list Change) (d : targetDelta) : targetDelta :=
  mkDelta (d_target d) changes (d_carried d) (d_baselines d).

(** ** A pushed snapshot *)

(** A push: the cluster it names, its snapshot, its inventory as judged, the
    token that authenticated it, and whether it binds the cluster's UID. *)
Record push := mkPush {
  p_cluster : Cluster;
  p_snap : Snapshot;
  p_inv : Inventory;
  p_token : string;
  p_adopting : bool;
}.

Definition set_ServerVersion (v : string) (s : Snapshot) : Snapshot :=
  mkSnapshot (sn_ID s) (sn_ClusterID s) (sn_Hash s) (sn_KBVersion s) (sn_AgentVersion s) (sn_ReceivedAt s) v (sn_Inventory s).

(** The latest snapshot an attempt reads, and the snapshot to store: a push
    without a version is judged at the latest snapshot's. *)
Definition pushLatest (db : SQLite) (p : push) : option Snapshot :=
  if c_ID (p_cluster p) =? 0 then None else LatestSnapshot (c_ID (p_cluster p)) db.

Definition pushSnapshot (db : SQLite) (p : push) : Snapshot :=
  match pushLatest db p with
  | Some latest => if sn_ServerVersion (p_snap p) =s "" then set_ServerVersion (judgedVersion latest) (p_snap p) else p_snap p
  | None => p_snap p
  end.

Definition becameReady (c : Change) : bool := ch_Kind c =s KindBecameReady.

(** One target of the loop: the row, and the delta. *)
Definition ingestTarget (s : Server) (db : SQLite) (p : push) (hold : callsHold) (evalInv : Inventory) (now : Time)
    (target : Version) : (Evaluation * targetDelta) + evalError :=
  match evaluation s (p_cluster p) evalInv target now with
  | inr e => inr e
  | inl (e, rep) =>
      let d := deltaFor s db (p_cluster p) e rep (mkKnown [] false) (unassessedIn rep hold) in
      let d := if p_adopting p then with_changes (List.filter (fun c => negb (becameReady c)) (d_changes d)) d else d in
      let '(e, carried) := keepCarried s e (stamp hold (d_carried d)) in
      inl (e, with_carried carried d)
  end.

(** The loop over the targets, stopped by the first error. *)
Fixpoint forTargets {A E} (f : Version -> A + E) (targets : list Version) : list A + E :=
  match targets with
  | [] => inl []
  | t :: targets' =>
      match f t with
      | inr e => inr e
      | inl a => match forTargets f targets' with inr e => inr e | inl l => inl (a :: l) end
      end
  end.

Definition sameHash (latest : option Snapshot) (snap : Snapshot) : bool :=
  match latest with Some l => sn_Hash l =s sn_Hash snap | None => false end.

(** The batch of a push that is no duplicate. *)
Definition ingestBatch (s : Server) (db : SQLite) (p : push) (now : Time) (deliveryID : string) : EvaluationBatch + evalError :=
  let snap := pushSnapshot db p in
  let evalInv := with_Namespaces (ApplyTeamMap (sv_TeamMap s) (Namespaces (p_inv p))) (p_inv p) in
  let hold := callsHoldOf s (p_inv p) (sn_ServerVersion snap) true in
  match forTargets (ingestTarget s db p hold evalInv now) (evalTargets s (sn_ServerVersion snap)) with
  | inr e => inr e
  | inl ts =>
      let expect := if (0 <? zlen (sv_sinks s)) || p_adopting p
                    then Some (mkExpectation (idOr0 (pushLatest db p)) ∅) else None in
      inl (mkBatch (Some (p_cluster p)) 0 (p_token p) (Some snap) 0 ∅ (map fst ts) []
             (outboxFor s (p_cluster p) (foldl add emptyMerger (map snd ts)) now deliveryID)
             (foldl expectBaselines expect (map snd ts)))
  end.

(** The batch of a duplicate: the touch and the envelope. *)
Definition duplicateBatch (db : SQLite) (p : push) : EvaluationBatch :=
  mkBatch (Some (p_cluster p)) 0 (p_token p) (Some (pushSnapshot db p)) 0 ∅ [] [] []
    (Some (mkExpectation (idOr0 (pushLatest db p)) ∅)).

(** ** Bringing a stored snapshot up to date *)

(** What becomes of a target: nothing to do, left outdated, or a row to
    refresh or insert. *)
Inductive reTarget :=
| UpToDate
| LeftOutdated
| Refresh (current : Z) (e : Evaluation) (d : targetDelta)
| Insert (current : Z) (e : Evaluation) (d : targetDelta).

Inductive reError :=
| MovedOn
| EvaluationFailed (e : evalError).

Record rePass := mkRePass {
  rp_cluster : Cluster;
  rp_snapID : Z;
  rp_version : string;
  rp_inv : Inventory;
  rp_pushed : bool;
  rp_force : bool;
}.

Definition reevaluateTarget (s : Server) (db : SQLite) (p : rePass) (hold : callsHold) (evalInv : Inventory) (now : Time)
    (target : Version) : reTarget + reError :=
  let cur := CurrentEvaluation (c_ID (rp_cluster p)) (VString target) db in
  if match cur with Some c => negb (e_SnapshotID c =? rp_snapID p) | None => false end then inr MovedOn
  else if match cur with
          | Some c => negb (rp_force p) && negb (stale s c now) && negb (holdChanged (e_Report c) hold)
          | None => false
          end then inl UpToDate
  else
    let stored := match cur with Some c => storedFindingHeads (e_Report c) | None => None end in
    match evaluation s (rp_cluster p) evalInv target now with
    | inr (reportTooLarge _ _) => inl LeftOutdated
    | inr e => inr (EvaluationFailed e)
    | inl (e, rep) =>
        let known := match cur, stored with
                     | Some c, Some heads => mkKnown (baseline heads) (isBaseline c)
                     | _, _ => mkKnown [] false
                     end in
        let d := deltaFor s db (rp_cluster p) e rep known (unassessedIn rep hold) in
        let '(e, carried) := keepCarried s e (stamp hold (d_carried d)) in
        let d := with_carried carried d in
        match cur, stored with
        | Some c, Some heads =>
            if sameResult c (sh_Findings heads) rep && Bool.eqb (isBaseline c) (e_Baseline e) &&
               ((zlen (sv_sinks s) =? 0) || sameHeads (sh_CarriedForward heads) carried)
            then inl (Refresh (e_ID c) (set_ID (e_ID c) e) d)
            else inl (Insert (e_ID c) e d)
        | Some c, None => inl (Insert (e_ID c) e d)
        | None, _ => inl (Insert 0 e d)
        end
    end.

(** The loop over a pass's targets, with each one's name. *)
Definition reevaluateTargets (s : Server) (db : SQLite) (p : rePass) (now : Time) : list (string * reTarget) + reError :=
  let evalInv := with_Namespaces (ApplyTeamMap (sv_TeamMap s) (Namespaces (rp_inv p))) (rp_inv p) in
  let hold := callsHoldOf s (rp_inv p) (rp_version p) (rp_pushed p) in
  forTargets (fun t => match reevaluateTarget s db p hold evalInv now t with
                       | inl r => inl (VString t, r)
                       | inr e => inr e
                       end) (evalTargets s (rp_version p)).

Definition isLeft (t : string * reTarget) : bool := match t.2 with LeftOutdated => true | _ => false end.

Definition currentOf (t : string * reTarget) : option (string * Z) :=
  match t.2 with Refresh c _ _ | Insert c _ _ => Some (t.1, c) | _ => None end.

Definition insertOf (t : string * reTarget) : option Evaluation := match t.2 with Insert _ e _ => Some e | _ => None end.
Definition refreshOf (t : string * reTarget) : option Evaluation := match t.2 with Refresh _ e _ => Some e | _ => None end.
Definition deltaOf (t : string * reTarget) : option targetDelta := match t.2 with Insert _ _ d => Some d | _ => None end.
Definition readOf (t : string * reTarget) : option targetDelta := match t.2 with Refresh _ _ d | Insert _ _ d => Some d | _ => None end.

(** An upgrade baseline is another target's, which Current does not cover. *)
Definition expectRead (x : option Expectation) (d : targetDelta) : option Expectation :=
  if (size (d_baselines d) =? 0)%nat then x
  else expectBaselines (Some (match x with Some x => x | None => mkExpectation 0 ∅ end)) d.

(** The batch of a pass; [None] when there is nothing to commit. *)
Definition reevaluateBatch (s : Server) (p : rePass) (now : Time) (deliveryID : string) (ts : list (string * reTarget))
    : option EvaluationBatch :=
  match omap currentOf ts with
  | [] => None
  | current =>
      Some (mkBatch None (c_ID (rp_cluster p)) "" None (rp_snapID p) (list_to_map (rev current))
              (omap insertOf ts) (omap refreshOf ts)
              (outboxFor s (rp_cluster p) (foldl add emptyMerger (omap deltaOf ts)) now deliveryID)
              (foldl expectRead None (omap readOf ts)))
  end.

(** What a pass reports: whether a target was left outdated, or the error. *)
Inductive reResult :=
| Reevaluated (left : bool)
| ReStoreError (e : storeError)
| ReEvaluationError (e : evalError).

Definition isConflict (e : storeError) : bool := match err_is e with ErrConflict => true | _ => false end.

(** [reevaluate]: what it read is [db]; [others] is what other writers did
    before its commit. *)
Definition reevaluate (s : Server) (p : rePass) (now at_ : Time) (deliveryID : string) (others : SQLite -> SQLite) (db : SQLite)
    : reResult * SQLite :=
  match reevaluateTargets s db p now with
  | inr MovedOn => (Reevaluated false, others db)
  | inr (EvaluationFailed e) => (ReEvaluationError e, others db)
  | inl ts =>
      let left := existsb isLeft ts in
      match reevaluateBatch s p now deliveryID ts with
      | None => (Reevaluated left, others db)
      | Some b =>
          match CommitEvaluations at_ b (others db) with
          | Done (_, db') => (Reevaluated left, db')
          | Failed e => (if isConflict e then Reevaluated false else ReStoreError e, others db)
          end
      end
  end.

(** ** Ingest *)

Inductive ingestError :=
| InStore (e : storeError)
| InEvaluation (e : evalError).

Definition reFailure (r : reResult) : option ingestError :=
  match r with
  | Reevaluated _ => None
  | ReStoreError e => Some (InStore e)
  | ReEvaluationError e => Some (InEvaluation e)
  end.

(** One attempt's clocks, delivery ids and the writers it meets: before its
    own commit, and before the re-evaluation's. *)
Record attempt := mkAttempt {
  at_now : Time;
  at_store : Time;
  at_delivery : string;
  at_others : SQLite -> SQLite;
  at_reNow : Time;
  at_reStore : Time;
  at_reDelivery : string;
  at_reOthers : SQLite -> SQLite;
}.

Definition reingest (s : Server) (a : attempt) (p : push) (clusterID snapID : Z) (version : string) (force : bool) (db : SQLite)
    : (Z * bool + ingestError) * SQLite :=
  let c := p_cluster p in
  let cluster := mkCluster clusterID (c_Name c) (c_ClusterUID c) (c_FirstSeen c) (c_LastSeen c) in
  let '(r, db') := reevaluate s (mkRePass cluster snapID version (p_inv p) true force) (at_reNow a) (at_reStore a)
                     (at_reDelivery a) (at_reOthers a) db in
  (match reFailure r with Some e => inr e | None => inl (snapID, true) end, db').

(** An attempt at a snapshot that is not the latest one again. *)
Definition ingestFresh (s : Server) (a : attempt) (p : push) (db : SQLite) : (Z * bool + ingestError) * SQLite :=
  match ingestBatch s db p (at_now a) (at_delivery a) with
  | inr e => (inr (InEvaluation e), at_others a db)
  | inl b =>
      let db1 := at_others a db in
      match CommitEvaluations (at_store a) b db1 with
      | Failed e => (inr (InStore e), db1)
      | Done ((snapID, false), db2) => (inl (snapID, false), db2)
      | Done ((snapID, true), db2) =>
          let version := sn_ServerVersion (pushSnapshot db p) in
          if c_ID (p_cluster p) =? 0 then
            match ClusterByName (c_Name (p_cluster p)) db2 with
            | None => (inr (InStore (mkError ErrNotFound ("loading cluster " +:+ quote (c_Name (p_cluster p))))), db2)
            | Some c => reingest s a p (c_ID c) snapID version true db2
            end
          else reingest s a p (c_ID (p_cluster p)) snapID version true db2
      end
  end.

(** [ingestOnce]. *)
Definition ingestOnce (s : Server) (a : attempt) (p : push) (db : SQLite) : (Z * bool + ingestError) * SQLite :=
  let snap := pushSnapshot db p in
  match pushLatest db p with
  | Some latest =>
      if sn_Hash latest =s sn_Hash snap then
        let db1 := at_others a db in
        match CommitEvaluations (at_store a) (duplicateBatch db p) db1 with
        | Failed e => (inr (InStore e), db1)
        | Done ((snapID, dup), db2) =>
            let changed := negb (sn_KBVersion latest =s sn_KBVersion snap) || negb (sn_AgentVersion latest =s sn_AgentVersion snap) in
            let '(r, db3) := reingest s a p (c_ID (p_cluster p)) snapID (sn_ServerVersion snap) changed db2 in
            (match r with inl _ => inl (snapID, dup) | inr e => inr e end, db3)
        end
      else ingestFresh s a p db
  | None => ingestFresh s a p db
  end.

Definition maxIngestAttempts : Z := 3.

Definition pushConflict (r : Z * bool + ingestError) : bool :=
  match r with inr (InStore e) => isConflict e | _ => false end.

(** The cluster as the next attempt knows it, registered or bound by the push
    that raced this one; and whether the push still binds it. *)
Definition retried (db : SQLite) (p : push) : push :=
  let c := p_cluster p in
  if (c_ID c =? 0) || p_adopting p then
    let found := ClusterByName (c_Name c) db in
    let id := match found with Some f => c_ID f | None => 0 end in
    let cid := if c_ID c =? 0 then id else c_ID c in
    mkPush (mkCluster cid (c_Name c) (c_ClusterUID c) (c_FirstSeen c) (c_LastSeen c)) (p_snap p) (p_inv p) (p_token p)
      (p_adopting p && (id =? cid) && (match found with Some f => c_ClusterUID f | None => "" end =s ""))
  else p.

(** [ingestSnapshot]: the attempts left, and the next ones' environments. *)
Fixpoint ingestFrom (left_ : nat) (s : Server) (attempts : nat -> attempt) (p : push) (db : SQLite)
    : (Z * bool + ingestError) * SQLite :=
  let '(r, db') := ingestOnce s (attempts left_) p db in
  match left_ with
  | O => (r, db')
  | S left' => if pushConflict r then ingestFrom left' s attempts (retried db' p) db' else (r, db')
  end.

Definition ingestSnapshot (s : Server) (attempts : nat -> attempt) (p : push) (db : SQLite) : (Z * bool + ingestError) * SQLite :=
  ingestFrom (Z.to_nat (maxIngestAttempts - 1)) s attempts p db.
