(* ===== verification/Background.v ===== *)
(** * Background work: the re-evaluation and retention passes

    The loops of internal/server/evaluate.go, passmarks.go, retention.go and
    stale.go that no request drives: bringing every cluster's latest snapshot
    up to date, remembering those that cannot be, and pruning what no pass
    reads any more. *)

From stdpp Require Import base list strings gmap.
From Stdlib Require Import ZArith Lia Ascii.
From S2P Require Import Prelude GoStr GoTime GoSha Version Inventory KB Findings Glob Suppress Heads Notify Db Store StoreInv Prune Delta Merge Passes.

Definition reevaluateInterval : Z := hour.
Definition reevaluateCooldown : Z := 5 * minute.
Definition retentionInterval : Z := 24 * hour.
Definition DefaultStaleAfter : Z := 2 * hour.

(** ** Clusters a pass could not bring up to date *)

Record unrefreshableMark := mkMark { um_snapshotID : Z; um_day : Time }.

Definition unrefreshable : Type := gmap Z unrefreshableMark.

Definition utcDay (t : Time) : Time := truncateDay t.

Definition mark (clusterID snapshotID : Z) (now : Time) (u : unrefreshable) : unrefreshable :=
  <[clusterID := mkMark snapshotID (utcDay now)]> u.

Definition has (clusterID snapshotID : Z) (now : Time) (u : unrefreshable) : bool * unrefreshable :=
  match u !! clusterID with
  | None => (false, u)
  | Some m =>
      if negb (um_snapshotID m =? snapshotID) || negb (um_day m =? utcDay now) then (false, delete clusterID u) else (true, u)
  end.

Definition keepOnly (ids : gset Z) (u : unrefreshable) : unrefreshable := filter (fun p => p.1 ∈ ids) u.

(** ** Versions of snapshots stored without one *)

Definition maxLegacyVersions : Z := 4096.

Definition legacyVersions : Type := gmap Z string.

Definition versionOf (head : Snapshot) (db : SQLite) (lv : legacyVersions) : string * legacyVersions :=
  if negb (sn_ServerVersion head =s "") then (sn_ServerVersion head, lv)
  else match lv !! sn_ID head with
  | Some v => (v, lv)
  | None =>
      match LatestSnapshot (sn_ClusterID head) db with
      | None => (""%string, lv)
      | Some full =>
          let v := judgedVersion full in
          (v, <[sn_ID full := v]> (if maxLegacyVersions <=? Z.of_nat (size lv) then ∅ else lv))
      end
  end.

(** ** The background pass *)

Definition needsPass (s : Server) (db : SQLite) (head : Snapshot) (version : string) (now : Time) : bool :=
  existsb (fun target =>
    match CurrentEvaluationSummary (sn_ClusterID head) (VString target) db with
    | None => true
    | Some e => negb (e_SnapshotID e =? sn_ID head) || e_CarriesHold e || stale s e now
    end) (evalTargets s version).

Record background := mkBackground {
  bg_db : SQLite;
  bg_marks : unrefreshable;
  bg_versions : legacyVersions;
}.

(** One cluster of [reevaluateAll]: its pass's clocks, delivery id, and what
    other writers do while it runs. *)
Record clusterPass := mkClusterPass {
  cp_now : Time;
  cp_store : Time;
  cp_delivery : string;
  cp_others : SQLite -> SQLite;
}.

Definition reevaluateCluster (s : Server) (now : Time) (env : clusterPass) (heads : gmap Z Snapshot) (c : Cluster)
    (b : background) : background :=
  match heads !! c_ID c with
  | None => b
  | Some head =>
      let '(marked, marks) := has (c_ID c) (sn_ID head) now (bg_marks b) in
      if marked then mkBackground (bg_db b) marks (bg_versions b)
      else
        let '(version, lv) := versionOf head (bg_db b) (bg_versions b) in
        let b := mkBackground (bg_db b) marks lv in
        if negb (needsPass s (bg_db b) head version now) then b
        else match LatestSnapshot (c_ID c) (bg_db b) with
        | None => b
        | Some snap =>
            match inventoryOf s snap with
            | None => mkBackground (bg_db b) (mark (c_ID c) (sn_ID head) now (bg_marks b)) (bg_versions b)
            | Some inv =>
                let '(r, db') := reevaluate s (mkRePass c (sn_ID snap) (judgedAt snap inv) inv false false)
                                   (cp_now env) (cp_store env) (cp_delivery env) (cp_others env) (bg_db b) in
                let marks := match r with
                             | Reevaluated true | ReEvaluationError _ => mark (c_ID c) (sn_ID snap) now (bg_marks b)
                             | _ => bg_marks b
                             end in
                mkBackground db' marks (bg_versions b)
            end
        end
  end.

Fixpoint reevaluateClusters (s : Server) (now : Time) (envs : Z -> clusterPass) (heads : gmap Z Snapshot) (cs : list Cluster)
    (b : background) : background :=
  match cs with
  | [] => b
  | c :: cs' => reevaluateClusters s now envs heads cs' (reevaluateCluster s now (envs (c_ID c)) heads c b)
  end.

Definition reevaluateAll (s : Server) (now : Time) (envs : Z -> clusterPass) (b : background) : background :=
  let clusters := ListClusters (bg_db b) in
  let heads := LatestSnapshotHeads (bg_db b) in
  let marks := keepOnly (list_to_set (map c_ID clusters)) (bg_marks b) in
  reevaluateClusters s now envs heads clusters (mkBackground (bg_db b) marks (bg_versions b)).

Definition nextPassIn (now : Time) (interval : Z) : Z :=
  let midnight := truncateDay now + 24 * hour in
  Z.min interval (Sub midnight now + second).

(** [outdated]: what a read answers, and whether it starts a pass early. *)
Definition outdated (s : Server) (e : Evaluation) (now : Time) (u : unrefreshable) : bool * bool * unrefreshable :=
  if negb (stale s e now) then (false, false, u)
  else let '(marked, u') := has (e_ClusterID e) (e_SnapshotID e) now u in (true, negb marked, u').

(** [clusterStale], with the configured window or the default. *)
Definition staleAfter (configured : Z) : Z := if 0 <? configured then configured else DefaultStaleAfter.

Definition clusterStale (configured : Z) (c : Cluster) (now : Time) : bool :=
  staleAfter configured <? Sub now (c_LastSeen c).

(** ** Retention *)

Definition retainedTargets (s : Server) (version : string) : option (list string) :=
  match ParseVersion version with
  | Err _ => None
  | Ok server => Some (map VString (evalTargets s version ++ lookbackTargets (Next server)))
  end.

(** [retainedBaselines]: the loop over the heads, a map. *)
Definition retainCluster (s : Server) (db : SQLite) (id : Z) (head : Snapshot) (st : gmap Z (list string) * legacyVersions)
    : gmap Z (list string) * legacyVersions :=
  let '(keep, lv) := st in
  let '(version, lv) := versionOf head db lv in
  match retainedTargets s version with
  | None => (keep, lv)
  | Some names => (<[id := names]> keep, lv)
  end.

Definition retainedBaselines (s : Server) (db : SQLite) (lv : legacyVersions) : gmap Z (list string) * legacyVersions :=
  foldr (fun p st => retainCluster s db p.1 p.2 st) (∅, lv) (map_to_list (LatestSnapshotHeads db)).

(** [pruneOnce]: the baselines are read from [db]; the prune may run after
    other writers moved it on. *)
Definition pruneOnce (s : Server) (retention tuned : Z) (now : Time) (others : SQLite -> SQLite) (lv : legacyVersions) (db : SQLite)
    : option (PruneResult * SQLite) * legacyVersions :=
  let '(keep, lv') := retainedBaselines s db lv in
  (Prune tuned (now - retention) (Some keep) (others db), lv').
