(* ===== verification/PassSpec.v ===== *)
(** * What the passes promise

    The end of a hold on deprecated callers is bounded; a push commits only
    while the baselines its notifications were computed from are still the
    newest; retention keeps every baseline a pass can read; and a pass leaves
    nothing outdated behind. *)

From stdpp Require Import base list strings gmap.
From Stdlib Require Import ZArith Lia Ascii.
From S2P Require Import Prelude GoStr GoTime GoSha Version Inventory KB Findings Skew Evaluate Glob Suppress Heads Notify Db Store StoreInv Prune StoreSpec Delta Merge Passes Background.

(** ** Holds on deprecated callers *)

Lemma apiServerStart_spec inv start : apiServerStart inv = Some start ->
  start <= CollectedAt inv + startTimeTolerance /\ start <> zeroTime /\ CollectedAt inv <> zeroTime.
Proof.
  unfold apiServerStart, IsZero, Before, After. destruct (_ || _) eqn:E; [done|]. intros [= <-]. to_prop. lia.
Qed.

Lemma young_bound s inv v pushed :
  ch_young (callsHoldOf s inv v pushed) <= CollectedAt inv + (deprecatedCallsHold + startTimeTolerance) \/
  ch_young (callsHoldOf s inv v pushed) = zeroTime.
Proof.
  unfold callsHoldOf. simpl. destruct (apiServerStart inv) as [start|] eqn:E; [|by right].
  apply apiServerStart_spec in E as (Hs & _). destruct (Before _ _); [left; lia|by right].
Qed.

(** C29 A deprecated caller missing from a push is held for a bounded time: when a push holds one, the hold ends after
    the push's scrape and at most a day and the clock tolerance after it, whatever end the baseline carried; and once an
    apiserver has been up for a day at a scrape, and the carried end is no later than that, the caller is not held. *)
Theorem hold_bounded (s : Server) (inv : Inventory) (version : string) (f : findingHead) :
  let hold := callsHoldOf s inv version true in
  (until hold f <> zeroTime ->
     CollectedAt inv < until hold f <= CollectedAt inv + (deprecatedCallsHold + startTimeTolerance)) /\
  (forall start, apiServerStart inv = Some start -> start + deprecatedCallsHold <= CollectedAt inv ->
     h_HoldUntil f <= start + deprecatedCallsHold -> until hold f = zeroTime).
Proof.
  intros hold. unfold until. split.
  - destruct (_ || IsZero _); [done|]. destruct (match ch_gone hold with Some gone => gone (h_Key f) | None => false end); [done|].
    pose proof (young_bound s inv version true) as Hy. fold hold in Hy. cbv zeta.
    change (ch_scraped hold) with (CollectedAt inv). change (ch_pushed hold) with true. unfold After, Before. cbn [andb].
    set (bound := CollectedAt inv + (deprecatedCallsHold + startTimeTolerance)) in *.
    set (end_ := if bound <? h_HoldUntil f then zeroTime else h_HoldUntil f).
    assert (end_ <= bound \/ end_ = zeroTime) as Hend by (unfold end_; destruct (bound <? h_HoldUntil f) eqn:Eb; lia).
    clearbody end_. set (last := if end_ <? ch_young hold then ch_young hold else end_).
    assert (last <= bound \/ last = zeroTime) as Hlast by (unfold last; destruct (end_ <? ch_young hold); lia).
    clearbody last. destruct (CollectedAt inv <? last) eqn:Es; simpl; [intros Hne; apply Z.ltb_lt in Es; lia|intros Hne; by destruct Hne].
  - intros start Hstart Hold Hh. destruct (_ || IsZero _); [done|].
    destruct (match ch_gone hold with Some gone => gone (h_Key f) | None => false end); [done|]. cbv zeta.
    assert (Hy : ch_young hold = zeroTime).
    { unfold hold, callsHoldOf. simpl. rewrite Hstart. unfold Before. destruct (_ <? _) eqn:E; [lia|done]. }
    rewrite Hy. change (ch_scraped hold) with (CollectedAt inv). unfold After, Before.
    destruct (_ && _); [by rewrite Z.ltb_irrefl; destruct (CollectedAt inv <? zeroTime)|].
    destruct (h_HoldUntil f <? zeroTime) eqn:Ez; [by destruct (CollectedAt inv <? zeroTime)|].
    assert (CollectedAt inv <? h_HoldUntil f = false) as -> by lia. done.
Qed.


(** ** Baselines are checked at the commit *)

Definition newestBaseline (clusterID : Z) (target : string) (db : SQLite) : Z := idOr0 (latestKnown clusterID target db).

(** A map of baselines as [db] has them. *)
Definition reads_of (clusterID : Z) (db : SQLite) (m : gmap string Z) : Prop :=
  forall k i, m !! k = Some i -> i = newestBaseline clusterID k db.

Lemma LatestKnown_id clusterID target db :
  newestBaseline clusterID target db = match LatestKnownEvaluation clusterID target db with Some e => e_ID e | None => 0 end.
Proof. unfold newestBaseline, LatestKnownEvaluation. by destruct (latestKnown clusterID target db). Qed.

Lemma reads_insert clusterID db m k i :
  reads_of clusterID db m -> i = newestBaseline clusterID k db -> reads_of clusterID db (<[k := i]> m).
Proof.
  intros Hm Hi k' i'. destruct (decide (k = k')) as [->|Hne].
  - rewrite lookup_insert_eq. congruence.
  - rewrite lookup_insert_ne by done. apply Hm.
Qed.

Lemma lookback_reads db clusterID targets read : reads_of clusterID db read -> reads_of clusterID db (lookback db clusterID targets read).2.
Proof.
  revert read. induction targets as [|v targets IH]; intros read Hr; [done|]. simpl.
  pose proof (LatestKnown_id clusterID (VString v) db) as Hid.
  destruct (LatestKnownEvaluation clusterID (VString v) db) as [prev|]; simpl; [|apply IH]; by apply reads_insert.
Qed.

Lemma baselineFor_reads db clusterID cur : reads_of clusterID db (baselineFor db clusterID cur).2.
Proof.
  unfold baselineFor. pose proof (LatestKnown_id clusterID (VString (r_Target cur)) db) as Hid.
  assert (Hone : forall i, i = newestBaseline clusterID (VString (r_Target cur)) db ->
    reads_of clusterID db {[VString (r_Target cur) := i]}) by (intros i Hi; by apply reads_insert).
  destruct (LatestKnownEvaluation clusterID (VString (r_Target cur)) db) as [prev|]; [simpl; auto|].
  unfold upgradeBaseline. destruct (ParseVersion _); [|simpl; auto]. destruct (negb _); [simpl; auto|]. apply lookback_reads. auto.
Qed.

Lemma deltaFor_reads s db cluster e cur known un : reads_of (c_ID cluster) db (d_baselines (deltaFor s db cluster e cur known un)).
Proof.
  unfold deltaFor. pose proof (baselineFor_reads db (c_ID cluster) cur) as Hb.
  assert (Hempty : reads_of (c_ID cluster) db ∅) by (intros k i; by rewrite lookup_empty).
  destruct (_ || _); [done|]. destruct (kn_ok known); [by destruct (computeDelta _ _ _)|].
  destruct (baselineFor db (c_ID cluster) cur) as [[prev|] read]; [|done]. destruct (storedFindingHeads _); [|done].
  by destruct (computeDelta _ _ _).
Qed.

Lemma ingestTarget_reads s db p hold inv now target e d : ingestTarget s db p hold inv now target = inl (e, d) ->
  reads_of (c_ID (p_cluster p)) db (d_baselines d).
Proof.
  unfold ingestTarget. destruct (evaluation _ _ _ _ _) as [[e0 rep]|]; [|done].
  pose proof (deltaFor_reads s db (p_cluster p) e0 rep (mkKnown [] false) (unassessedIn rep hold)) as Hd.
  destruct (keepCarried _ _ _) as [e1 carried]. intros [= <- <-]. simpl. by destruct (p_adopting p).
Qed.

Lemma forTargets_elem {A E} (f : Version -> A + E) targets l a : forTargets f targets = inl l ->
  a ∈ l <-> exists t, t ∈ targets /\ f t = inl a.
Proof.
  revert l. induction targets as [|t targets IH]; intros l; simpl.
  - intros [= <-]. split; [by intros ?%not_elem_of_nil|]. intros (t & Ht & _). by apply not_elem_of_nil in Ht.
  - destruct (f t) as [x|] eqn:Ef; [|done]. destruct (forTargets f targets) as [l'|]; [|done]. intros [= <-].
    rewrite elem_of_cons, (IH l') by done. split.
    + intros [->|(t' & Ht' & Hf)]; [exists t|exists t']; (split; [|done]); [left|by right].
    + intros (t' & [->|Ht']%elem_of_cons & Hf); [left; congruence|right; eauto].
Qed.

(** The expectation collects every baseline read. *)
Lemma expect_collects clusterID db x ds : reads_of clusterID db (x_Baselines x) ->
  (forall d, d ∈ ds -> reads_of clusterID db (d_baselines d)) ->
  exists x', foldl expectBaselines (Some x) ds = Some x' /\ x_LatestSnapshotID x' = x_LatestSnapshotID x /\
    reads_of clusterID db (x_Baselines x') /\
    forall k, is_Some (x_Baselines x !! k) \/ (exists d, d ∈ ds /\ is_Some (d_baselines d !! k)) -> is_Some (x_Baselines x' !! k).
Proof.
  revert x. induction ds as [|d ds IH]; intros x Hx Hds.
  - exists x. split_and!; try done. intros k [Hk|(d & Hd & _)]; [done|]. by apply not_elem_of_nil in Hd.
  - simpl. destruct (IH (mkExpectation (x_LatestSnapshotID x) (d_baselines d ∪ x_Baselines x))) as (x' & H1 & H2 & H3 & H4).
    + intros k i Hk. simpl in Hk. apply lookup_union_Some_raw in Hk as [Hk|[_ Hk]]; [by apply (Hds d); [left|]|by apply Hx].
    + intros d' Hd'. apply Hds. by right.
    + exists x'. split_and!; try done. intros k Hk. apply H4. simpl. destruct Hk as [Hk|(d' & [->|Hd']%elem_of_cons & Hk)].
      * left. apply lookup_union_is_Some. by right.
      * left. apply lookup_union_is_Some. by left.
      * right. eauto.
Qed.

Lemma ingestBatch_expects s db p now deliveryID b : ingestBatch s db p now deliveryID = inl b -> sv_sinks s <> [] ->
  exists x, b_Expect b = Some x /\ x_LatestSnapshotID x = idOr0 (pushLatest db p) /\
    reads_of (c_ID (p_cluster p)) db (x_Baselines x) /\
    (forall target e d k,
       let version := sn_ServerVersion (pushSnapshot db p) in
       target ∈ evalTargets s version ->
       ingestTarget s db p (callsHoldOf s (p_inv p) version true)
         (with_Namespaces (ApplyTeamMap (sv_TeamMap s) (Namespaces (p_inv p))) (p_inv p)) now target = inl (e, d) ->
       is_Some (d_baselines d !! k) -> is_Some (x_Baselines x !! k)) /\
    b_Cluster b = Some (p_cluster p) /\ is_Some (b_Snapshot b).
Proof.
  unfold ingestBatch. intros Hb Hs. set (f := ingestTarget _ _ _ _ _ _) in *.
  destruct (forTargets f _) as [ts|] eqn:Ets; [|done]. injection Hb as <-. cbn [b_Expect b_Cluster b_Snapshot].
  assert ((0 <? zlen (sv_sinks s)) || p_adopting p = true) as -> by (destruct (sv_sinks s); done).
  destruct (expect_collects (c_ID (p_cluster p)) db (mkExpectation (idOr0 (pushLatest db p)) ∅) (map snd ts))
    as (x & H1 & H2 & H3 & H4).
  - intros k i. simpl. by rewrite lookup_empty.
  - intros d ([e d'] & -> & Hin)%list_elem_of_fmap. apply (forTargets_elem _ _ _ _ Ets) in Hin as (t & _ & Hf).
    by eapply ingestTarget_reads.
  - exists x. refine (conj H1 (conj H2 (conj H3 (conj _ (conj eq_refl _))))); [|by eexists]. intros target e d k Ht Hd Hk. apply H4. right. exists d. split; [|done].
    apply list_elem_of_fmap. exists (e, d). split; [done|]. apply (forTargets_elem _ _ _ _ Ets). eauto.
Qed.

(** A commit of a pushed snapshot that writes met what it expects. *)
Lemma committed_expectation at_ b db db' snapID c x : db_ok db -> b_Cluster b = Some c -> c_ID c <> 0 -> is_Some (b_Snapshot b) ->
  b_Expect b = Some x -> CommitEvaluations at_ b db = Done ((snapID, false), db') ->
  idOr0 (LatestSnapshot (c_ID c) db) = x_LatestSnapshotID x /\
  forall k i, x_Baselines x !! k = Some i -> newestBaseline (c_ID c) k db = i.
Proof.
  intros Hok Hcl Hid Hsn Hx Hc%wrap_Done. apply bind_Done in Hc as (id & db0 & Hb & Hp).
  pose proof (batchCluster_stays evaluations at_ b (fun _ _ => eq_refl) _ _ _ Hb) as He.
  pose proof (batchCluster_stays snapshots at_ b (fun _ _ => eq_refl) _ _ _ Hb) as Hs.
  assert (id = c_ID c) as ->.
  { unfold batchCluster in Hb. rewrite Hcl in Hb. apply bind_Done in Hb as (i & dbu & _ & Hb).
    apply bind_Done in Hb as ([] & dbv & Hr & Hb). injection Hb as <- _. unfold recheckPush in Hr.
    apply bind_Done in Hr as ([] & dbw & [Hg _]%guard_Done & _). to_prop. lia. }
  apply passOf_Done in Hp as (db1 & _ & _ & _ & Hexp & _). split.
  - unfold checkExpectation in Hexp. rewrite Hx in Hexp. apply bind_Done in Hexp as ([] & dbz & [Hg _]%guard_Done & _).
    rewrite bool_decide_eq_true_2 in Hg by done. simpl in Hg. apply Z.eqb_eq in Hg. unfold LatestSnapshot in *. by rewrite <- Hs.
  - intros k i Hk. pose proof (checkExpectation_Done _ _ _ _ _ _ _ _ Hexp Hx Hk) as H. unfold newestBaseline, latestKnown in *.
    by rewrite <- He.
Qed.

(** C12 A push notifies of what the store still says: when its pass commits, whatever other writers did between its
    reads and its commit, the cluster's latest snapshot and the newest baseline of every target its deltas read,
    the lower targets an upgrade is compared with included, are the ones the deltas were computed from. *)
Theorem ingest_against_current (s : Server) (db db1 db2 : SQLite) (p : push) (now at_ : Time) (deliveryID : string)
    (b : EvaluationBatch) (snapID : Z) (target : Version) (e : Evaluation) (d : targetDelta) (k : string) :
  db_ok db1 -> sv_sinks s <> [] -> c_ID (p_cluster p) <> 0 -> ingestBatch s db p now deliveryID = inl b ->
  CommitEvaluations at_ b db1 = Done ((snapID, false), db2) ->
  let version := sn_ServerVersion (pushSnapshot db p) in
  target ∈ evalTargets s version ->
  ingestTarget s db p (callsHoldOf s (p_inv p) version true)
    (with_Namespaces (ApplyTeamMap (sv_TeamMap s) (Namespaces (p_inv p))) (p_inv p)) now target = inl (e, d) ->
  is_Some (d_baselines d !! k) ->
  idOr0 (LatestSnapshot (c_ID (p_cluster p)) db1) = idOr0 (LatestSnapshot (c_ID (p_cluster p)) db) /\
  d_baselines d !! k = Some (newestBaseline (c_ID (p_cluster p)) k db1).
Proof.
  intros Hok Hsinks Hid Hb Hc version Ht Hd Hk.
  destruct (ingestBatch_expects s db p now deliveryID b Hb Hsinks) as (x & Hx & Hlatest & Hreads & Hall & Hcl & Hsn).
  destruct (committed_expectation at_ b db1 db2 snapID (p_cluster p) x Hok Hcl Hid Hsn Hx Hc) as [Hl Hbase].
  pose proof (ingestTarget_reads _ _ _ _ _ _ _ _ _ Hd) as Hrd. destruct Hk as [i Hi].
  assert (Hik : is_Some (x_Baselines x !! k)) by (eapply Hall; [exact Ht|exact Hd|by eexists]).
  destruct Hik as [j Hj]. split.
  - rewrite Hl, Hlatest. unfold pushLatest. by apply Z.eqb_neq in Hid as ->.
  - rewrite Hi. f_equal. rewrite (Hrd k i Hi), <- (Hreads k j Hj). symmetry. by apply Hbase.
Qed.

(** ** A small server, for the witnesses *)

Definition cleanReport (target : Version) : Report :=
  mkReport "uid-1" target "v1.35.0" "" "" "test" 100 true VerdictReady [] [] None [] [] 0 0 [].

Definition exampleServer : Server :=
  mkServer emptyKB [] "" [] ["slack"%string] 100000 (fun _ _ target _ _ => Ok (cleanReport target)) (fun _ => 10) sn_Inventory.

Definition examplePush4 : push :=
  mkPush (mkCluster 1 "prod" "uid-1" zeroTime (4 * day))
    (mkSnapshot 0 0 "h4" "kb-1" "v1" (4 * day) "v1.35.0" (Some cleanInventory)) cleanInventory "" false.

Definition exampleBatch : EvaluationBatch :=
  match ingestBatch exampleServer exampleDB examplePush4 (4 * day) "d1" with
  | inl b => b
  | inr _ => mkBatch None 0 "" None 0 ∅ [] [] [] None
  end.

Definition ingested : SQLite := commit (CommitEvaluations (4 * day) exampleBatch) exampleDB.

Lemma ingest_against_current_witness :
  exists e d, ingestTarget exampleServer exampleDB examplePush4
      (callsHoldOf exampleServer cleanInventory "v1.35.0" true) (with_Namespaces [] cleanInventory) (4 * day) (mkVersion 1 36) = inl (e, d) /\
    d_baselines d !! "1.36"%string = Some (newestBaseline 1 "1.36" exampleDB) /\ newestBaseline 1 "1.36" exampleDB = 3.
Proof.
  eexists _, _. split; [reflexivity|]. split; [|vm_compute; reflexivity].
  refine (proj2 (ingest_against_current exampleServer exampleDB exampleDB ingested examplePush4 (4 * day) (4 * day) "d1" exampleBatch 4
    (mkVersion 1 36) _ _ "1.36" exampleDB_ok _ _ _ _ _ eq_refl _)).
  - discriminate.
  - discriminate.
  - vm_compute. reflexivity.
  - vm_compute. reflexivity.
  - vm_compute. left.
  - vm_compute. eexists. reflexivity.
Defined.

(** ** Retention and the passes *)

(** The cached versions are those of the snapshots. *)
Definition coherent (db : SQLite) (lv : legacyVersions) : Prop :=
  forall id v sn, lv !! id = Some v -> sn ∈ t_rows (snapshots db) -> sn_ID sn = id -> v = judgedVersion sn.

Lemma latest_in id db full : LatestSnapshot id db = Some full -> full ∈ t_rows (snapshots db) /\ sn_ClusterID full = id.
Proof. unfold LatestSnapshot. intros [Hf _]%newest_Some. apply elem_of_select in Hf as [Hc Hf]. apply Z.eqb_eq in Hc. done. Qed.

Lemma versionOf_judged db lv id full : db_ok db -> coherent db lv -> LatestSnapshot id db = Some full ->
  (versionOf (withoutInventory full) db lv).1 = judgedVersion full /\ coherent db (versionOf (withoutInventory full) db lv).2.
Proof.
  intros Hok Hco Hl. destruct (latest_in _ _ _ Hl) as [Hin Hcid]. unfold versionOf. simpl. unfold judgedVersion.
  destruct (sn_ServerVersion full =s "") eqn:E; simpl; [|done].
  destruct (lv !! sn_ID full) as [v|] eqn:Ev; simpl.
  - split; [|done]. rewrite (Hco _ _ _ Ev Hin eq_refl). unfold judgedVersion. by rewrite E.
  - rewrite Hcid, Hl. cbn [fst snd]. unfold judgedVersion. rewrite E. split; [done|]. cbn [negb].
    intros i v sn Hi Hsn Hid. unfold legacyVersions in *. destruct (decide (sn_ID full = i)) as [He|Hne].
    + rewrite <- He, lookup_insert_eq in Hi. injection Hi as <-.
      assert (sn = full) as ->; [|unfold judgedVersion; by rewrite E].
      destruct (ok_snapshots _ Hok) as (Hn & _). eapply (row_id_inj (A := Snapshot)); [exact Hn|done|done|].
      unfold row_id, Snapshot_row. congruence.
    + rewrite lookup_insert_ne in Hi by done. eapply Hco; [|exact Hsn|exact Hid].
      destruct (maxLegacyVersions <=? _); [by rewrite lookup_empty in Hi|exact Hi].
Qed.

Lemma heads_latest db id head : LatestSnapshotHeads db !! id = Some head ->
  exists full, LatestSnapshot id db = Some full /\ head = withoutInventory full.
Proof.
  unfold LatestSnapshotHeads. intros H%elem_of_list_to_map_2. apply list_elem_of_omap in H as (c & _ & H).
  unfold LatestSnapshotHead in H. destruct (LatestSnapshot (c_ID c) db) as [full|] eqn:E; [|done]. simpl in H.
  injection H as <- <-. simpl. destruct (latest_in _ _ _ E) as [_ Hc]. exists full. rewrite Hc. done.
Qed.

Lemma heads_has db id full : db_ok db -> LatestSnapshot id db = Some full -> LatestSnapshotHeads db !! id = Some (withoutInventory full).
Proof.
  intros Hok Hl. destruct (latest_in _ _ _ Hl) as [Hin Hcid].
  destruct (LatestSnapshotHeads db !! id) as [head|] eqn:E.
  - apply heads_latest in E as (full' & Hl' & ->). congruence.
  - exfalso. unfold LatestSnapshotHeads in E. apply not_elem_of_list_to_map in E. apply E.
    destruct (proj1 (list_elem_of_fmap _ _ _) (ok_snapshot_cluster _ Hok full Hin)) as (c & Hc & Hcin).
    apply list_elem_of_fmap. exists (id, withoutInventory full). split; [done|]. apply list_elem_of_omap. exists c. split; [done|].
    unfold LatestSnapshotHead. rewrite <- Hc, Hcid, Hl. simpl. by rewrite Hcid.
Qed.

(** What retention keeps of a list of heads. *)
Lemma retain_spec s db lv (l : list (Z * Snapshot)) : db_ok db -> coherent db lv -> NoDup l.*1 ->
  (forall id head, (id, head) ∈ l -> exists full, LatestSnapshot id db = Some full /\ head = withoutInventory full) ->
  let st := foldr (fun p st => retainCluster s db p.1 p.2 st) (∅, lv) l in
  coherent db st.2 /\ (forall id, id ∉ l.*1 -> st.1 !! id = None) /\
  forall id full, (id, withoutInventory full) ∈ l -> LatestSnapshot id db = Some full ->
    st.1 !! id = retainedTargets s (judgedVersion full).
Proof.
  intros Hok Hco. induction l as [|[i h] l IH]; intros Hn Hl; simpl.
  - split_and!; [done|by intros; apply lookup_empty|by intros id full ?%not_elem_of_nil].
  - apply NoDup_cons in Hn as [Hi Hn]. destruct IH as (Hc & Hnone & Hsome); [done|intros id head Hin; apply Hl; by right|].
    set (st := foldr _ _ l) in *. destruct st as [keep lv0]. cbn [fst snd] in *.
    destruct (Hl i h) as (full & Hfull & ->); [left|]. unfold retainCluster.
    destruct (versionOf_judged db lv0 i full Hok Hc Hfull) as [Hv Hco'].
    destruct (versionOf (withoutInventory full) db lv0) as [version lv1]. cbn [fst snd] in *. subst version.
    assert (Hkeep : forall id, id <> i -> (match retainedTargets s (judgedVersion full) with
      | None => (keep, lv1) | Some names => (<[i := names]> keep, lv1) end).1 !! id = keep !! id).
    { intros id Hid. destruct (retainedTargets _ _); [|done]. simpl. by rewrite lookup_insert_ne. }
    split_and!.
    + by destruct (retainedTargets _ _).
    + intros id Hid. apply not_elem_of_cons in Hid as [Hne Hid]. rewrite Hkeep by done. by apply Hnone.
    + intros id full' Hin Hfull'. apply elem_of_cons in Hin as [[= -> _]|Hin].
      * rewrite Hfull in Hfull'. injection Hfull' as <-. destruct (retainedTargets s (judgedVersion full)) as [names|]; simpl.
        { by rewrite lookup_insert_eq. }
        by apply Hnone.
      * rewrite Hkeep; [by apply Hsome|]. intros ->. apply Hi. by apply (list_elem_of_fmap_2 fst) in Hin.
Qed.

Section Pruned.
Context (s : Server) (retention tuned : Z) (now : Time) (lv : legacyVersions) (db db' : SQLite) (res : PruneResult) (lv' : legacyVersions).
Hypothesis Hok : db_ok db.
Hypothesis Hco : coherent db lv.
Hypothesis Hprune : pruneOnce s retention tuned now id lv db = (Some (res, db'), lv').

Lemma pruned_known id full target : LatestSnapshot id db = Some full ->
  (forall names, retainedTargets s (judgedVersion full) = Some names -> target ∈ names) ->
  LatestKnownEvaluation id target db' = LatestKnownEvaluation id target db.
Proof using Hok Hco Hprune.
  intros Hfull Hin. unfold pruneOnce, retainedBaselines in Hprune.
  destruct (retain_spec s db lv (map_to_list (LatestSnapshotHeads db)) Hok Hco) as (_ & _ & Hkeep).
  { apply NoDup_fst_map_to_list. }
  { intros i h Hih%elem_of_map_to_list. by apply heads_latest. }
  destruct (foldr _ _ _) as [keep lv1]. injection Hprune as Hp _. rewrite Prune_spec in Hp by done. injection Hp as _ <-.
  unfold LatestKnownEvaluation. rewrite prune_LatestKnown; [done|done|]. simpl in Hkeep |- *.
  rewrite (Hkeep id full); [|apply elem_of_map_to_list; by apply heads_has|done].
  destruct (retainedTargets s (judgedVersion full)) as [names|]; [|done]. apply negb_false_iff, mem_str_spec. auto.
Qed.

(** A target a pass at the snapshot's version reads is retained. *)
Lemma retained_target full target names : target ∈ evalTargets s (judgedVersion full) ->
  retainedTargets s (judgedVersion full) = Some names -> VString target ∈ names.
Proof.
  intros Ht. unfold retainedTargets. destruct (ParseVersion _); [|done]. intros [= <-]. rewrite map_app. apply elem_of_app. left.
  by apply (list_elem_of_fmap_2 VString).
Qed.

Lemma retained_lookback full v target names : ParseVersion (judgedVersion full) = Ok v -> target ∈ lookbackTargets (Next v) ->
  retainedTargets s (judgedVersion full) = Some names -> VString target ∈ names.
Proof.
  intros Hv Ht. unfold retainedTargets. rewrite Hv. intros [= <-]. rewrite map_app. apply elem_of_app. right.
  by apply (list_elem_of_fmap_2 VString).
Qed.
End Pruned.

Lemma lookback_ext db db' id targets read :
  (forall v, v ∈ targets -> LatestKnownEvaluation id (VString v) db' = LatestKnownEvaluation id (VString v) db) ->
  lookback db' id targets read = lookback db id targets read.
Proof.
  revert read. induction targets as [|v targets IH]; intros read H; [done|]. simpl. rewrite (H v) by left.
  destruct (LatestKnownEvaluation _ _ _); [done|]. apply IH. intros v' Hv'. apply H. by right.
Qed.

(** Retention never changes a notification: after a prune with the baselines the server asks to keep, every pass on a
    cluster's latest snapshot computes the deltas it would have computed before, the baseline of an upgrade from a lower
    target included. It is so when nothing is written between the reading of the targets to keep and the prune
    ([pruneOnce]'s other writers do nothing: a push of a later minor in that window can lose a baseline, as the source
    says) and when the version cache agrees with the database ([coherent]). *)
Lemma retention_keeps_deltas (s : Server) (retention tuned : Z) (now : Time) (lv lv' : legacyVersions) (db db' : SQLite)
    (res : PruneResult) (cluster : Cluster) (full : Snapshot) (e : Evaluation) (cur : Report) (known : knownBaseline)
    (unassessed : findingHead -> bool) :
  db_ok db -> coherent db lv -> pruneOnce s retention tuned now id lv db = (Some (res, db'), lv') ->
  LatestSnapshot (c_ID cluster) db = Some full -> r_Target cur ∈ evalTargets s (judgedVersion full) ->
  (forall v, ParseVersion (r_ServerVersion cur) = Ok v -> ParseVersion (judgedVersion full) = Ok v) ->
  deltaFor s db' cluster e cur known unassessed = deltaFor s db cluster e cur known unassessed.
Proof.
  intros Hok Hco Hp Hfull Ht Hver.
  assert (Hb : baselineFor db' (c_ID cluster) cur = baselineFor db (c_ID cluster) cur).
  { unfold baselineFor. rewrite (pruned_known s retention tuned now lv db db' res lv' Hok Hco Hp _ _ _ Hfull)
      by (intros names; by apply retained_target).
    destruct (LatestKnownEvaluation _ _ db); [done|]. unfold upgradeBaseline.
    destruct (ParseVersion (r_ServerVersion cur)) as [v|] eqn:Ev; [|done].
    destruct (sameVersion (Next v) (r_Target cur)) eqn:Es; [|done]. simpl. apply bool_decide_eq_true in Es.
    apply lookback_ext. intros t Hin. rewrite <- Es in Hin.
    apply (pruned_known s retention tuned now lv db db' res lv' Hok Hco Hp _ _ _ Hfull).
    intros names. apply (retained_lookback s full v); [by apply Hver|done]. }
  unfold deltaFor. by rewrite Hb.
Qed.

Definition upgradedReport : Report :=
  mkReport "uid-1" (mkVersion 1 35) "v1.34.2" "" "" "test" 100 true VerdictReady [] [] None [] [] 0 0 [].

Lemma retention_keeps_deltas_witness :
  let cluster := mkCluster 1 "prod" "uid-1" zeroTime (4 * day) in
  exists res db' lv', pruneOnce exampleServer day 100 (100 * day) id ∅ exampleDB = (Some (res, db'), lv') /\
    pr_Evaluations res = 1 /\
    forall e known un, deltaFor exampleServer db' cluster e upgradedReport known un =
      deltaFor exampleServer exampleDB cluster e upgradedReport known un.
Proof.
  intros cluster. eexists _, _, _. split; [vm_compute; reflexivity|]. split; [reflexivity|]. intros e known un.
  eapply (retention_keeps_deltas exampleServer day 100 (100 * day) ∅).
  - exact exampleDB_ok.
  - intros i v sn Hi. unfold legacyVersions in Hi. by rewrite lookup_empty in Hi.
  - vm_compute. reflexivity.
  - vm_compute. reflexivity.
  - vm_compute. left.
  - intros v Hv. vm_compute in Hv |- *. exact Hv.
Defined.

(** * A pass settles its cluster

    The composition of a re-evaluation with the store's commit: alone, it
    never conflicts with itself, and it leaves every target of the snapshot
    evaluated and up to date. *)

(** ** The rows a pass computes *)

(** What makes a row up to date. *)
Record fresh_row (s : Server) (now : Time) (target : Version) (e : Evaluation) : Prop := {
  fr_target : e_Target e = VString target;
  fr_kb : e_KBVersion e = k_Version (sv_KB s);
  fr_hash : e_TeamMapHash e = sv_teamMapHash s;
  fr_at : e_EvaluatedAt e = now;
}.

Lemma evaluation_fresh s c inv target now e rep : evaluation s c inv target now = inl (e, rep) -> fresh_row s now target e.
Proof.
  unfold evaluation. destruct (evaluateWithin _ _ _ _); [|done]. destruct (_ <? _); [done|]. by intros [= <- <-].
Qed.

Lemma keepCarried_fresh s now target e carried : fresh_row s now target e -> fresh_row s now target (keepCarried s e carried).1.
Proof.
  intros []. unfold keepCarried. destruct carried; [done|]. destruct (e_Report e); [|done]. by destruct (_ <? _).
Qed.

Section Targets.
Context (s : Server) (p : rePass) (now : Time) (db : SQLite) (full : Snapshot).
Hypothesis Hfull : LatestSnapshot (c_ID (rp_cluster p)) db = Some full.
Hypothesis Hsnap : sn_ID full = rp_snapID p.
Notation cid := (c_ID (rp_cluster p)).

Definition currentRow (target : string) : option evaluationRow := snapshotEvaluation (rp_snapID p) target db.

Lemma CurrentEvaluation_row target : CurrentEvaluation cid target db = scanEvaluation <$> currentRow target.
Proof using Hfull Hsnap.
  unfold CurrentEvaluation, currentRow, maxId. unfold LatestSnapshot in Hfull. rewrite Hfull. simpl.
  unfold row_id, Snapshot_row. by rewrite Hsnap.
Qed.

Lemma currentRow_spec target r : currentRow target = Some r ->
  r ∈ t_rows (evaluations db) /\ er_snapshot_id r = rp_snapID p /\ er_target r = target.
Proof.
  unfold currentRow, snapshotEvaluation. intros [Hr _]%newest_Some. apply elem_of_select in Hr as [Hr Hin]. to_prop. done.
Qed.

(** What one target comes to. *)
Inductive settled (target : Version) : reTarget -> Prop :=
| settled_current r : currentRow (VString target) = Some r -> stale s (scanEvaluation r) now = false -> settled target UpToDate
| settled_left : settled target LeftOutdated
| settled_refresh r e d : currentRow (VString target) = Some r -> fresh_row s now target e -> e_ID e = er_id r ->
    reads_of cid db (d_baselines d) -> settled target (Refresh (er_id r) e d)
| settled_insert e d : fresh_row s now target e -> reads_of cid db (d_baselines d) ->
    settled target (Insert (idOr0 (currentRow (VString target))) e d).

Lemma reevaluateTarget_settled hold inv target r :
  reevaluateTarget s db p hold inv now target = inl r -> settled target r.
Proof using Hfull Hsnap.
  unfold reevaluateTarget. rewrite CurrentEvaluation_row. destruct (currentRow (VString target)) as [row|] eqn:Er; simpl.
  - destruct (currentRow_spec _ _ Er) as (_ & Hs & _). rewrite Hs, Z.eqb_refl. simpl.
    destruct (negb (rp_force p) && _ && _) eqn:Eu.
    + intros [= <-]. to_prop. by eapply settled_current.
    + destruct (evaluation _ _ _ _ _) as [[e rep]|err] eqn:Ee.
      * pose proof (evaluation_fresh _ _ _ _ _ _ _ Ee) as Hf. set (known := match storedFindingHeads _ with Some _ => _ | None => _ end).
        pose proof (deltaFor_reads s db (rp_cluster p) e rep known (unassessedIn rep hold)) as Hd.
        set (d := deltaFor _ _ _ _ _ _ _) in *. pose proof (keepCarried_fresh s now target e (stamp hold (d_carried d)) Hf) as Hk.
        destruct (keepCarried _ _ _) as [e' carried]. simpl in Hk. destruct Hk as [K1 K2 K3 K4].
        destruct (storedFindingHeads _) as [heads|].
        { destruct (sameResult _ _ _ && _ && _); intros Hr; injection Hr as <-.
          - by apply (settled_refresh target row).
          - pose proof (settled_insert target e' (with_carried carried d)) as H. rewrite Er in H. by apply H. }
        intros Hr. injection Hr as <-. pose proof (settled_insert target e' (with_carried carried d)) as H. rewrite Er in H. by apply H.
      * destruct err; intros H; [injection H as <-; constructor|done].
  - destruct (evaluation _ _ _ _ _) as [[e rep]|err] eqn:Ee.
    + pose proof (evaluation_fresh _ _ _ _ _ _ _ Ee) as Hf.
      pose proof (deltaFor_reads s db (rp_cluster p) e rep (mkKnown [] false) (unassessedIn rep hold)) as Hd.
      set (d := deltaFor _ _ _ _ _ _ _) in *. pose proof (keepCarried_fresh s now target e (stamp hold (d_carried d)) Hf) as Hk.
      destruct (keepCarried _ _ _) as [e' carried]. intros Hr. injection Hr as <-.
      pose proof (settled_insert target e' (with_carried carried d)) as H. rewrite Er in H. by apply H.
    + destruct err; intros H; [injection H as <-; constructor|done].
Qed.
End Targets.

(** ** A commit that goes through *)

Lemma bind_run {A B} (m : stx A) (k : A -> stx B) db a db1 r : m db = Done (a, db1) -> k a db1 = r -> (m ≫= k) db = r.
Proof. intros Hm Hk. unfold mbind, tx_bind. by rewrite Hm. Qed.

Lemma guard_run c e db : c = true -> guardTx c e db = Done (tt, db) :> outcome storeError (unit * SQLite).
Proof. by intros ->. Qed.

Lemma each_ok {A} (f : A -> stx unit) l db : (forall x, x ∈ l -> f x db = Done (tt, db)) -> each f l db = Done (tt, db).
Proof.
  induction l as [|x l IH]; intros H; [done|]. simpl. unfold mbind, tx_bind. rewrite (H x) by left.
  apply IH. intros y Hy. apply H. by right.
Qed.

Lemma inserts_ok now clusterID snapID es db :
  existsb (fun c => c_ID c =? clusterID) (t_rows (clusters db)) = true ->
  existsb (fun sn => sn_ID sn =? snapID) (t_rows (snapshots db)) = true ->
  each (fun e => insertEvaluation now (placed clusterID snapID e) ;; mret tt) es db =
  Done (tt, with_evaluations (mkTable (t_rows (evaluations db) ++ newRows now clusterID snapID (t_seq (evaluations db)) es)
                                (t_seq (evaluations db) + zlen es)) db).
Proof.
  intros Hc Hs.
  assert (Hex : exists db', each (fun e => insertEvaluation now (placed clusterID snapID e) ;; mret tt) es db = Done (tt, db')).
  { revert db Hc Hs. induction es as [|e es IH]; intros db Hc Hs; [by eexists|]. simpl. unfold mbind, tx_bind, insertEvaluation. simpl.
    rewrite Hc, Hs. simpl. by apply IH. }
  destruct Hex as [db' Hdb']. rewrite Hdb'. by rewrite (inserts_spec _ _ _ _ _ _ Hdb').
Qed.

Lemma execOne_Done {A} what (get : SQLite -> table A) q f db : (exists r, r ∈ t_rows (get db) /\ q r = true) ->
  execOne what get q f db = Done (tt, f db).
Proof.
  intros (r & Hr & Hq). unfold execOne, mbind, tx_bind, ask, guardTx.
  assert (countRows q (get db) =? 0 = false) as ->; [|done].
  apply Z.eqb_neq. unfold countRows, zlen. assert (r ∈ select q (t_rows (get db))) as Hin by (by apply elem_of_select).
  destruct (select q _); [by apply not_elem_of_nil in Hin|simpl; lia].
Qed.

(** The refreshes a row meets. *)
Definition refreshRow (now : Time) (clusterID : Z) (es : list Evaluation) (r : evaluationRow) : evaluationRow :=
  foldl (fun r e => if (er_id r =? e_ID e) && (er_cluster_id r =? clusterID) then refreshed now e r else r) r es.

Lemma refreshes_ok now clusterID es db :
  (forall e, e ∈ es -> exists r, r ∈ t_rows (evaluations db) /\ er_id r = e_ID e /\ er_cluster_id r = clusterID) ->
  each (refreshEvaluation now clusterID) es db =
  Done (tt, with_evaluations (mkTable (map (refreshRow now clusterID es) (t_rows (evaluations db))) (t_seq (evaluations db))) db).
Proof.
  revert db. induction es as [|e es IH]; intros db H; simpl.
  - unfold refreshRow. simpl. rewrite map_id. by destruct db as [? ? [? ?] ? ? ?].
  - set (q := fun r => (er_id r =? e_ID e) && (er_cluster_id r =? clusterID)).
    assert (Hone : refreshEvaluation now clusterID e db =
      Done (tt, with_evaluations (updateRows q (refreshed now e) (evaluations db)) db)).
    { unfold refreshEvaluation. rewrite execOne_Done; [done|]. destruct (H e) as (r & Hr & Hi & Hcl); [left|]. exists r. split; [done|].
      by rewrite Hi, Hcl, !Z.eqb_refl. }
    unfold mbind, tx_bind. rewrite Hone.
    rewrite IH.
    + simpl. by rewrite map_map.
    + intros e' He'. destruct (H e') as (r & Hr & Hi & Hcl); [by right|]. simpl. exists (if q r then refreshed now e r else r).
      split; [apply list_elem_of_fmap; by exists r|]. by destruct (q r).
Qed.

Lemma refreshRow_point now clusterID es r : same_point r (refreshRow now clusterID es r).
Proof.
  revert r. induction es as [|e es IH]; intros r; [done|]. unfold refreshRow in *. simpl. specialize (IH (if (er_id r =? e_ID e) &&
    (er_cluster_id r =? clusterID) then refreshed now e r else r)). by destruct (_ && _).
Qed.

Lemma refreshRow_other now clusterID es r : er_id r ∉ e_ID <$> es -> refreshRow now clusterID es r = r.
Proof.
  induction es as [|e es IH]; [done|]. rewrite fmap_cons, not_elem_of_cons. intros [Hne Hn]. unfold refreshRow in *. simpl.
  apply Z.eqb_neq in Hne as ->. simpl. by apply IH.
Qed.

Lemma refreshRow_this now clusterID es r e : NoDup (e_ID <$> es) -> e ∈ es -> er_id r = e_ID e -> er_cluster_id r = clusterID ->
  refreshRow now clusterID es r = refreshed now e r.
Proof.
  intros Hn He Hi Hc. revert r Hi Hc. induction es as [|x es IH]; intros r Hi Hc; [by apply not_elem_of_nil in He|].
  apply NoDup_cons in Hn as [Hx Hn]. apply elem_of_cons in He as [->|He].
  - unfold refreshRow. simpl. rewrite Hi, Hc, !Z.eqb_refl. simpl. apply refreshRow_other. simpl. by rewrite Hi.
  - unfold refreshRow. simpl. destruct (er_id r =? e_ID x) eqn:E; simpl; [|by apply IH]. exfalso. apply Hx.
    apply Z.eqb_eq in E. rewrite <- E, Hi. by apply list_elem_of_fmap_2.
Qed.

Lemma queues_ok now clusterID ms db : exists t, each (queueMessage now clusterID) ms db = Done (tt, with_outbox t db).
Proof.
  revert db. induction ms as [|m ms IH]; intros db; simpl.
  - exists (outbox db). by destruct db.
  - assert (Hq : exists t, queueMessage now clusterID m db = Done (tt, with_outbox t db)) by (eexists; reflexivity).
    destruct Hq as [t0 Hq]. unfold mbind, tx_bind. rewrite Hq. destruct (IH (with_outbox t0 db)) as [t ->]. by exists t.
Qed.

(** A pass over a stored snapshot that met nothing new commits. *)
Lemma commit_ok at_ clusterID snapID current ins ref ms x db full :
  db_ok db -> LatestSnapshot clusterID db = Some full -> sn_ID full = snapID ->
  (forall t i, current !! t = Some i -> idOr0 (snapshotEvaluation snapID t db) = i) ->
  (forall x', x = Some x' -> reads_of clusterID db (x_Baselines x')) ->
  (forall e, e ∈ ref -> exists r, r ∈ t_rows (evaluations db) /\ er_id r = e_ID e /\ er_cluster_id r = clusterID) ->
  exists db', CommitEvaluations at_ (mkBatch None clusterID "" None snapID current ins ref ms x) db = Done ((snapID, false), db') /\
    snapshots db' = snapshots db /\
    t_rows (evaluations db') = map (refreshRow at_ clusterID ref)
      (t_rows (evaluations db) ++ newRows at_ clusterID snapID (t_seq (evaluations db)) ins).
Proof.
  intros Hok Hfull Hid Hcur Hx Href. set (b := mkBatch None clusterID "" None snapID current ins ref ms x).
  destruct (latest_in _ _ _ Hfull) as [Hin Hcid].
  assert (Hc : existsb (fun c => c_ID c =? clusterID) (t_rows (clusters db)) = true).
  { apply existsb_elem. destruct (proj1 (list_elem_of_fmap _ _ _) (ok_snapshot_cluster _ Hok full Hin)) as (c & Hc & Hcin).
    exists c. split; [done|]. apply Z.eqb_eq. congruence. }
  assert (Hs : existsb (fun sn => sn_ID sn =? snapID) (t_rows (snapshots db)) = true).
  { apply existsb_elem. exists full. split; [done|]. by apply Z.eqb_eq. }
  set (db1 := with_evaluations (mkTable (t_rows (evaluations db) ++ newRows at_ clusterID snapID (t_seq (evaluations db)) ins)
                                  (t_seq (evaluations db) + zlen ins)) db).
  set (db2 := with_evaluations (mkTable (map (refreshRow at_ clusterID ref) (t_rows (evaluations db1))) (t_seq (evaluations db1))) db1).
  destruct (queues_ok at_ clusterID ms db2) as [t Ht]. exists (with_outbox t db2).
  assert (Hwrite : writePass at_ b clusterID snapID db = Done (tt, with_outbox t db2)).
  { unfold writePass. eapply bind_run; [apply (inserts_ok at_ clusterID snapID ins db Hc Hs)|].
    eapply bind_run; [|exact Ht]. apply (refreshes_ok at_ clusterID ref). intros e He.
    destruct (Href e He) as (r & Hr & H). exists r. split; [|done]. apply elem_of_app. by left. }
  split_and!; [|done..]. apply wrap_Done. eapply bind_run; [reflexivity|]. eapply bind_run; [reflexivity|].
  cbn [b_Snapshot b b_SnapshotID b_ClusterID]. cbv zeta. assert (Hlat : idOr0 (LatestSnapshot clusterID db) = snapID) by (rewrite Hfull; exact Hid).
  rewrite Hlat. eapply bind_run; [apply guard_run|].
  { rewrite bool_decide_eq_true_2 by (rewrite Hfull; by eexists). by rewrite Z.eqb_refl. }
  eapply bind_run; [apply each_ok|].
  { intros [t0 i] Hti. apply elem_of_map_to_list in Hti. eapply bind_run; [reflexivity|]. apply guard_run. simpl.
    apply Z.eqb_eq. by apply Hcur. }
  eapply bind_run; [|by eapply bind_run; [exact Hwrite|]].
  unfold checkExpectation. cbn [b_Expect b]. destruct x as [x|]; [|done]. eapply bind_run; [by apply guard_run|].
  apply each_ok. intros [t0 i] Hti. unfold sortedEntries in Hti. rewrite isort_perm in Hti. apply elem_of_map_to_list in Hti.
  eapply bind_run; [reflexivity|]. apply guard_run. simpl. apply Z.eqb_eq. symmetry. by apply (Hx x eq_refl).
Qed.

(** ** Rows that are not stale *)

Record current_columns (s : Server) (now : Time) (r : evaluationRow) : Prop := {
  cc_kb : er_kb_version r = k_Version (sv_KB s);
  cc_hash : er_team_map_hash r = sv_teamMapHash s;
  cc_teams : is_Some (er_teams r);
  cc_at : er_evaluated_at r = Some now;
}.

Lemma truncateDay_le now : truncateDay now <= now.
Proof. unfold truncateDay. pose proof (Z.mod_pos_bound now day). assert (0 < day) by done. lia. Qed.

Lemma current_not_stale s now r : current_columns s now r -> stale s (scanEvaluation r) now = false.
Proof.
  intros [H1 H2 H3 H4]. unfold stale. simpl. rewrite H1, H2, H4, !String.eqb_refl, bool_decide_eq_true_2 by done. simpl.
  pose proof (truncateDay_le now). assert (0 < futureTolerance) by done. unfold Before, After. apply orb_false_iff. split; lia.
Qed.

Lemma orElse_now now t : now <> zeroTime -> orElse now t = now.
Proof. intros Hn. unfold orElse, IsZero. by apply Z.eqb_neq in Hn as ->. Qed.

Lemma storedRow_current s now at_ target clusterID snapID e i : now <> zeroTime -> fresh_row s now target e ->
  current_columns s now (storedRow at_ (placed clusterID snapID e) i).
Proof. intros Hn [F1 F2 F3 F4]. split; simpl; [done|done|by eexists|]. by rewrite F4, orElse_now. Qed.

Lemma refreshed_current s now at_ target e r : now <> zeroTime -> fresh_row s now target e ->
  current_columns s now (refreshed at_ e r).
Proof. intros Hn [F1 F2 F3 F4]. split; simpl; [done|done|by eexists|]. by rewrite F4, orElse_now. Qed.

(** A row is left alone by the refreshes, or is as one of them wrote it. *)
Lemma refreshRow_last now clusterID es r :
  refreshRow now clusterID es r = r \/ exists e r0, e ∈ es /\ refreshRow now clusterID es r = refreshed now e r0.
Proof.
  revert r. induction es as [|e es IH]; intros r; [by left|]. unfold refreshRow in *. simpl. destruct (_ && _).
  - right. destruct (IH (refreshed now e r)) as [->|(e' & r0 & He' & ->)]; [exists e, r; split; [left|done]|].
    exists e', r0. split; [by right|done].
  - destruct (IH r) as [->|(e' & r0 & He' & ->)]; [by left|]. right. exists e', r0. split; [by right|done].
Qed.

Lemma refreshRow_hit now clusterID es r e : e ∈ es -> er_id r = e_ID e -> er_cluster_id r = clusterID ->
  exists e' r0, e' ∈ es /\ refreshRow now clusterID es r = refreshed now e' r0.
Proof.
  intros He. revert r. induction es as [|x es IH]; intros r Hi Hc; [by apply not_elem_of_nil in He|]. unfold refreshRow in *. simpl.
  apply elem_of_cons in He as [->|He].
  - rewrite Hi, Hc, !Z.eqb_refl. simpl. destruct (refreshRow_last now clusterID es (refreshed now x r)) as [H|(e' & r0 & He' & H)];
      unfold refreshRow in H; rewrite H; eexists _, _; (split; [|done]); [left|by right].
  - destruct (IH He (if (er_id r =? e_ID x) && (er_cluster_id r =? clusterID) then refreshed now x r else r)) as (e' & r0 & He' & ->);
      [by destruct (_ && _)..|]. exists e', r0. split; [by right|done].
Qed.

Lemma newest_map {A} `{Row A} (g : A -> A) (q : A -> bool) l : (forall r, row_id (g r) = row_id r) -> (forall r, q (g r) = q r) ->
  newest (select q (map g l)) = g <$> newest (select q l).
Proof.
  intros Hg Hq. assert (Hsel : select q (map g l) = map g (select q l)).
  { unfold select. induction l as [|x l IH]; [done|]. simpl. rewrite !filter_cons, Hq. destruct (decide _); simpl; [by f_equal|done]. }
  rewrite Hsel. clear Hsel. induction (select q l) as [|x k IH]; [done|]. change (later (g x) (newest (map g k)) = g <$> later x (newest k)).
  rewrite IH. destruct (newest k) as [b|]; [|done]. simpl. rewrite !Hg. by destruct (_ <? _).
Qed.

Lemma newest_app {A} `{Row A} (l1 l2 : list A) x : newest (l1 ++ l2) = Some x -> x ∈ l2 \/ newest l1 = Some x.
Proof.
  revert x. induction l1 as [|a l1 IH]; intros x; simpl.
  - intros Hx. left. by apply (newest_Some l2 x).
  - intros Hx. change (later a (newest (l1 ++ l2)) = Some x) in Hx. destruct (newest (l1 ++ l2)) as [b|] eqn:Eb; simpl in Hx.
    + destruct (newest_Some _ _ Eb) as [_ Hmax]. destruct (row_id a <? row_id b) eqn:Ea; injection Hx as <-.
      * destruct (IH b eq_refl) as [Hb|Hb]; [by left|]. right. change (later a (newest l1) = Some b). rewrite Hb. simpl. by rewrite Ea.
      * right. change (later a (newest l1) = Some a). destruct (newest l1) as [c|] eqn:Ec; [|done]. simpl.
        apply newest_Some in Ec as [Hc _]. specialize (Hmax c (proj2 (elem_of_app _ _ _) (or_introl Hc))).
        assert (row_id a <? row_id c = false) as -> by lia. done.
    + injection Hx as <-. right. apply newest_None in Eb. apply app_eq_nil in Eb as [-> _]. done.
Qed.

(** ** The whole pass *)

Lemma forTargets_all {A E} (f : Version -> A + E) targets l : forTargets f targets = inl l ->
  forall t, t ∈ targets -> exists a, f t = inl a.
Proof.
  revert l. induction targets as [|t targets IH]; intros l; simpl; [by intros _ t ?%not_elem_of_nil|].
  destruct (f t) as [x|] eqn:Ef; [|done]. destruct (forTargets f targets) as [l'|]; [|done]. intros _ t' [->|Ht']%elem_of_cons; eauto.
Qed.

Lemma no_left name ts : (name, LeftOutdated) ∈ ts -> existsb isLeft ts = false -> False.
Proof. intros Hin Hf. assert (existsb isLeft ts = true) as Ht by (apply existsb_elem; by exists (name, LeftOutdated)). congruence. Qed.

Section Pass.
Context (s : Server) (p : rePass) (now : Time) (db : SQLite) (full : Snapshot) (ts : list (string * reTarget)).
Hypothesis Hok : db_ok db.
Hypothesis Hnow : now <> zeroTime.
Hypothesis Hfull : LatestSnapshot (c_ID (rp_cluster p)) db = Some full.
Hypothesis Hsnap : sn_ID full = rp_snapID p.
Hypothesis Hts : reevaluateTargets s db p now = inl ts.
Notation cid := (c_ID (rp_cluster p)).

Lemma ts_settled name r : (name, r) ∈ ts -> exists t, name = VString t /\ settled s p now db t r.
Proof using Hfull Hsnap Hts.
  unfold reevaluateTargets in Hts. intros Hin. apply (forTargets_elem _ _ _ _ Hts) in Hin as (t & _ & Hf).
  destruct (reevaluateTarget _ _ _ _ _ _ t) eqn:Et; [|done]. injection Hf as <- <-. exists t. split; [done|].
  by eapply reevaluateTarget_settled.
Qed.

Lemma ts_covers t : t ∈ evalTargets s (rp_version p) -> exists r, (VString t, r) ∈ ts /\ settled s p now db t r.
Proof using Hfull Hsnap Hts.
  unfold reevaluateTargets in Hts. intros Hin. destruct (forTargets_all _ _ _ Hts t Hin) as [y Hy].
  destruct (reevaluateTarget _ _ _ _ _ _ t) as [r|] eqn:Et; [|done]. exists r. split.
  - apply (forTargets_elem _ _ _ _ Hts). exists t. by rewrite Et.
  - by eapply reevaluateTarget_settled.
Qed.

Lemma currentRow_cluster target r : currentRow p db target = Some r -> er_cluster_id r = cid.
Proof using Hok Hfull Hsnap.
  intros Hr. destruct (currentRow_spec _ _ _ _ Hr) as (Hin & Hs & _).
  destruct (ok_evaluation_snapshot _ Hok r Hin) as (sn & Hsn & Hi & Hc). destruct (latest_in _ _ _ Hfull) as [Hf Hfc].
  rewrite <- Hc, <- Hfc. f_equal. apply (row_id_inj (t_rows (snapshots db))); [by apply (ok_snapshots _ Hok)|done|done|].
  unfold row_id, Snapshot_row. congruence.
Qed.

Lemma current_reads t i : (list_to_map (rev (omap currentOf ts)) : gmap string Z) !! t = Some i ->
  idOr0 (snapshotEvaluation (rp_snapID p) t db) = i.
Proof using Hfull Hsnap Hts.
  intros Hi. apply elem_of_list_to_map_2 in Hi. apply list_elem_of_In, in_rev, list_elem_of_In in Hi.
  apply list_elem_of_omap in Hi as ([name r] & Hin & Hc). destruct (ts_settled _ _ Hin) as (v & -> & Hs).
  destruct Hs as [| |row e d Hr| e d]; try done; injection Hc as <- <-; [|done].
  unfold currentRow in Hr. by rewrite Hr.
Qed.

Lemma expected_reads x : foldl expectRead None (omap readOf ts) = Some x -> reads_of cid db (x_Baselines x).
Proof using Hfull Hsnap Hts.
  assert (Hd : forall d, d ∈ omap readOf ts -> reads_of cid db (d_baselines d)).
  { intros d Hd. apply list_elem_of_omap in Hd as ([name r] & Hin & Hr). destruct (ts_settled _ _ Hin) as (v & -> & Hs).
    destruct Hs; try done; by injection Hr as <-. }
  assert (H0 : forall x0, None = Some x0 -> reads_of cid db (x_Baselines x0)) by done.
  revert H0. generalize (@None Expectation) as acc. induction (omap readOf ts) as [|d ds IH]; intros acc Hacc; [apply Hacc|]. simpl.
  apply IH; [intros d' Hd'; apply Hd; by right|]. intros x0. unfold expectRead. destruct (size _ =? 0)%nat; [apply Hacc|].
  intros [= <-]. intros k i Hk. simpl in Hk. apply lookup_union_Some_raw in Hk as [Hk|[_ Hk]]; [by apply (Hd d); [left|]|].
  destruct acc as [a|]; [by apply (Hacc a)|]. simpl in Hk. by rewrite lookup_empty in Hk.
Qed.

Lemma refresh_rows e : e ∈ omap refreshOf ts ->
  (exists t, fresh_row s now t e) /\
  exists r, r ∈ t_rows (evaluations db) /\ er_id r = e_ID e /\ er_cluster_id r = cid.
Proof using Hok Hfull Hsnap Hts.
  intros He. apply list_elem_of_omap in He as ([name r] & Hin & Hr). destruct (ts_settled _ _ Hin) as (v & -> & Hs).
  destruct Hs as [| |row e' d Hrow Hf Hid Hd|]; try done. injection Hr as <-. split; [by eexists|]. exists row.
  destruct (currentRow_spec _ _ _ _ Hrow) as [Hrin _]. by split_and!; [| |eapply currentRow_cluster].
Qed.

Lemma insert_fresh e : e ∈ omap insertOf ts -> exists t, fresh_row s now t e.
Proof using Hfull Hsnap Hts.
  intros He. apply list_elem_of_omap in He as ([name r] & Hin & Hr). destruct (ts_settled _ _ Hin) as (v & -> & Hs).
  destruct Hs; try done. injection Hr as <-. by eexists.
Qed.

Definition committed (db' : SQLite) : Prop := snapshots db' = snapshots db /\ exists at_,
  t_rows (evaluations db') = map (refreshRow at_ cid (omap refreshOf ts))
    (t_rows (evaluations db) ++ newRows at_ cid (rp_snapID p) (t_seq (evaluations db)) (omap insertOf ts)).

(** The rows after a commit are the old ones and the new ones, refreshed. *)
Lemma committed_row db' t : committed db' -> t ∈ evalTargets s (rp_version p) -> existsb isLeft ts = false ->
  exists at_ r0, CurrentEvaluation cid (VString t) db' = Some (scanEvaluation (refreshRow at_ cid (omap refreshOf ts) r0)) /\
    er_snapshot_id r0 = rp_snapID p /\
    ((exists e i, e ∈ omap insertOf ts /\ r0 = storedRow at_ (placed cid (rp_snapID p) e) i) \/
     currentRow p db (VString t) = Some r0 /\
       (stale s (scanEvaluation r0) now = false \/ exists e, e ∈ omap refreshOf ts /\ er_id r0 = e_ID e)).
Proof using Hok Hfull Hsnap Hts.
  intros [Hsn [at_ Hrows]] Ht Hleft. destruct (ts_covers t Ht) as (res & Hin & Hs). exists at_.
  set (g := refreshRow at_ cid (omap refreshOf ts)) in *. set (new := newRows _ _ _ _ _) in Hrows.
  set (q := fun r => (er_snapshot_id r =? rp_snapID p) && (er_target r =s VString t)).
  assert (Hq : forall r, q (g r) = q r).
  { intros r. unfold q. destruct (refreshRow_point at_ cid (omap refreshOf ts) r) as (_ & _ & H1 & H2 & _). fold g in H1, H2. congruence. }
  assert (Hcur : CurrentEvaluation cid (VString t) db' = scanEvaluation <$> (g <$> newest (select q (t_rows (evaluations db) ++ new)))).
  { unfold CurrentEvaluation, maxId. rewrite Hsn. unfold LatestSnapshot in Hfull. rewrite Hfull. simpl. unfold row_id, Snapshot_row.
    rewrite Hsnap. unfold snapshotEvaluation. rewrite Hrows. fold q. rewrite newest_map; [done| |done]. intros r.
    apply (refreshRow_point at_ cid (omap refreshOf ts) r). }
  assert (Hpick : forall x, newest (select q (t_rows (evaluations db) ++ new)) = Some x ->
    er_snapshot_id x = rp_snapID p /\
    ((exists e i, e ∈ omap insertOf ts /\ x = storedRow at_ (placed cid (rp_snapID p) e) i) \/ currentRow p db (VString t) = Some x)).
  { intros x Hx. split; [apply newest_Some in Hx as [[Hx _]%elem_of_select _]; unfold q in Hx; by to_prop|].
    unfold select in Hx. rewrite filter_app in Hx. apply newest_app in Hx as [Hx|Hx]; [left|by right].
    apply list_elem_of_filter in Hx as [_ Hx]. apply newRows_elem in Hx as (e & i & He & Hx & _). eauto. }
  assert (Hold : forall r, currentRow p db (VString t) = Some r -> exists x, newest (select q (t_rows (evaluations db) ++ new)) = Some x).
  { intros r Hr. destruct (currentRow_spec _ _ _ _ Hr) as (Hr1 & Hr2 & Hr3). eapply (newest_nonempty _ r). apply elem_of_select.
    split; [unfold q; by rewrite Hr2, Hr3, Z.eqb_refl, String.eqb_refl|]. apply elem_of_app. by left. }
  destruct Hs as [r Hr Hst| |r e d Hr Hf Hid _|e d Hf _].
  - destruct (Hold r Hr) as [x Hx]. exists x. rewrite Hcur, Hx. destruct (Hpick x Hx) as [Hp [Hn|Ho]]; split_and!; auto.
    right. split; [done|]. left. congruence.
  - exfalso. eapply no_left; eauto.
  - destruct (Hold r Hr) as [x Hx]. exists x. rewrite Hcur, Hx. destruct (Hpick x Hx) as [Hp [Hn|Ho]]; split_and!; auto.
    right. split; [done|]. right. exists e. split; [apply list_elem_of_omap; by exists (VString t, Refresh (er_id r) e d)|]. congruence.
  - assert (He : e ∈ omap insertOf ts) by (apply list_elem_of_omap; by eexists (VString t, _)).
    destruct (newRows_all at_ cid (rp_snapID p) (t_seq (evaluations db)) _ _ He) as (i & Hi & Hlt). fold new in Hi.
    set (n := storedRow at_ (placed cid (rp_snapID p) e) i) in Hi.
    assert (Hn : n ∈ select q (t_rows (evaluations db) ++ new)).
    { apply elem_of_select. split; [unfold q, n; simpl; by rewrite (fr_target _ _ _ _ Hf), Z.eqb_refl, String.eqb_refl|].
      apply elem_of_app. by right. }
    destruct (newest_nonempty _ _ Hn) as [x Hx]. exists x. rewrite Hcur, Hx. destruct (Hpick x Hx) as [Hp [Hnew|Ho]]; split_and!; auto.
    exfalso. apply newest_Some in Hx as [_ Hmax]. specialize (Hmax _ Hn). destruct (currentRow_spec _ _ _ _ Ho) as [Hxin _].
    pose proof (proj2 (proj2 (ok_evaluations _ Hok)) x Hxin) as Hle. unfold row_id, evaluationRow_row in *. simpl in Hmax. lia.
Qed.

Lemma committed_settles db' t : committed db' -> t ∈ evalTargets s (rp_version p) -> existsb isLeft ts = false ->
  exists e, CurrentEvaluation cid (VString t) db' = Some e /\ e_SnapshotID e = rp_snapID p /\ stale s e now = false.
Proof using Hok Hnow Hfull Hsnap Hts.
  intros Hc Ht Hleft. destruct (committed_row db' t Hc Ht Hleft) as (at_ & r0 & Hcur & Hs & Hcase). eexists. split; [exact Hcur|].
  destruct (refreshRow_point at_ cid (omap refreshOf ts) r0) as (_ & _ & Hsn & _). split; [simpl; congruence|].
  assert (Hhit : forall r, (exists e' r1, e' ∈ omap refreshOf ts /\ refreshRow at_ cid (omap refreshOf ts) r = refreshed at_ e' r1) ->
    stale s (scanEvaluation (refreshRow at_ cid (omap refreshOf ts) r)) now = false).
  { intros r (e' & r1 & He' & ->). destruct (proj1 (refresh_rows _ He')) as [t' Hf]. eapply current_not_stale, refreshed_current; done. }
  destruct (refreshRow_last at_ cid (omap refreshOf ts) r0) as [Hsame|Hr]; [|by apply Hhit].
  destruct Hcase as [(e & i & He & ->)|[Hrow [Hst|(e & He & Hid)]]].
  - rewrite Hsame. destruct (insert_fresh e He) as [t' Hf]. by eapply current_not_stale, storedRow_current.
  - by rewrite Hsame.
  - apply Hhit. eapply refreshRow_hit; [exact He|done|]. by eapply currentRow_cluster.
Qed.
End Pass.

(** C10 A re-evaluation settles its cluster: run alone over the cluster's newest snapshot, when every target could be
    evaluated within the report limit, it never meets a conflict with its own reads, its commit goes through, and after
    it the current evaluation of every target of the snapshot's version is of that snapshot and is not stale. *)
Theorem reevaluate_settles (s : Server) (p : rePass) (now at_ : Time) (deliveryID : string) (db : SQLite) (full : Snapshot)
    (ts : list (string * reTarget)) :
  db_ok db -> now <> zeroTime -> LatestSnapshot (c_ID (rp_cluster p)) db = Some full -> sn_ID full = rp_snapID p ->
  reevaluateTargets s db p now = inl ts -> existsb isLeft ts = false ->
  exists db', reevaluate s p now at_ deliveryID id db = (Reevaluated false, db') /\
    forall target, target ∈ evalTargets s (rp_version p) ->
      exists e, CurrentEvaluation (c_ID (rp_cluster p)) (VString target) db' = Some e /\
        e_SnapshotID e = rp_snapID p /\ stale s e now = false.
Proof.
  intros Hok Hnow Hfull Hsnap Hts Hleft. unfold reevaluate. rewrite Hts, Hleft. unfold reevaluateBatch.
  destruct (omap currentOf ts) as [|c cs] eqn:Ecur; cbv zeta iota.
  - exists db. split; [done|]. intros t Ht. destruct (ts_covers s p now db full ts Hfull Hsnap Hts t Ht) as (r & Hin & Hs).
    assert (Hnone : forall x, x ∉ omap currentOf ts) by (intros x; rewrite Ecur; apply not_elem_of_nil).
    destruct Hs as [row Hr Hst| |row e d| e d].
    + exists (scanEvaluation row). rewrite (CurrentEvaluation_row _ _ _ Hfull Hsnap), Hr. split; [done|].
      split; [|done]. by apply (currentRow_spec _ _ _ _ Hr).
    + exfalso. eapply no_left; eauto.
    + exfalso. apply (Hnone (VString t, er_id row)), list_elem_of_omap. by eexists (_, _).
    + exfalso. eapply (Hnone (VString t, _)), list_elem_of_omap. by eexists (_, _).
  - rewrite <- Ecur. destruct (commit_ok at_ (c_ID (rp_cluster p)) (rp_snapID p) (list_to_map (rev (omap currentOf ts)))
      (omap insertOf ts) (omap refreshOf ts) (outboxFor s (rp_cluster p) (foldl add emptyMerger (omap deltaOf ts)) now deliveryID)
      (foldl expectRead None (omap readOf ts)) db full) as (db' & Hc & Hsn & Hrows); [done..| | | |].
    + by eapply current_reads.
    + by eapply expected_reads.
    + intros e He. by eapply refresh_rows.
    + exists db'. unfold id. rewrite Hc. split; [done|]. intros t Ht. eapply committed_settles; [done..| | |done]; [|done].
      split; [done|]. by exists at_.
Qed.

(** The pass over the newest snapshot of the example database, which was not evaluated for 1.35. *)
Definition examplePass : rePass := mkRePass (mkCluster 1 "prod" "uid-1" day (3 * day)) 3 "v1.34.2" cleanInventory false false.

Definition exampleTargets : list (string * reTarget) :=
  match reevaluateTargets exampleServer exampleDB examplePass (9 * day) with inl ts => ts | inr _ => [] end.

Lemma reevaluate_settles_witness :
  VString <$> evalTargets exampleServer (rp_version examplePass) = ["1.35"]%string /\
  exists db', reevaluate exampleServer examplePass (9 * day) (9 * day) "d2" id exampleDB = (Reevaluated false, db') /\
    exists e, CurrentEvaluation 1 "1.35" db' = Some e /\ e_SnapshotID e = 3 /\ stale exampleServer e (9 * day) = false.
Proof.
  split; [vm_compute; reflexivity|].
  destruct (reevaluate_settles exampleServer examplePass (9 * day) (9 * day) "d2" exampleDB
    (mkSnapshot 3 1 "h3" "kb-1" "v1" (3 * day) "v1.34.2" None) exampleTargets) as (db' & Hr & H).
  - exact exampleDB_ok.
  - discriminate.
  - vm_compute. reflexivity.
  - reflexivity.
  - vm_compute. reflexivity.
  - vm_compute. reflexivity.
  - exists db'. split; [exact Hr|]. apply (H (mkVersion 1 35)). vm_compute. left.
Defined.
