(* ===== verification/Views.v ===== *)
(** * Views of a snapshot (internal/server/legacy.go, kbskew.go, envelope.go)

    A server judges what an agent sent with its own rules and its own
    knowledge base. What an older agent filled with other meanings, or
    collected by other data, is marked not assessed or partial first. *)

From stdpp Require Import base list strings gmap.
From Stdlib Require Import ZArith Lia Ascii.
From S2P Require Import Prelude GoStr GoTime Version Inventory KB Findings AddOns Skew Gaps Crd Evaluate GoUtf8 Admit.

(** ** The push envelope's labels *)

Definition maxAgentVersionBytes : Z := 128.
Definition maxKBVersionBytes : Z := 512.

Fixpoint printableASCII (s : string) : bool :=
  match s with
  | ""%string => true
  | String a s' =>
      if (N_of_ascii a <? 0x20)%N || (0x7e <? N_of_ascii a)%N then false else printableASCII s'
  end.

Definition validateEnvelopeLabel (field s : string) (max : Z) : res unit :=
  if max <? slen s then
    Err (field +:+ " is " +:+ itoa (slen s) +:+ " bytes, over the " +:+ itoa max +:+ " a genuine one takes")
  else if negb (printableASCII s) then
    Err (field +:+ " has a character that is not printable ASCII (a control character, newline or non-ASCII one)")
  else Ok tt.

Definition quoteLabel (s : string) : string :=
  if (maxAgentVersionBytes <? slen s) || negb (printableASCII s)
  then "(a version label that is not a plain, short one)" else quote s.

(** ** Agents before v0.2.0 *)

(** What Masterminds' semver is asked: a strict parse, an order, and the
    constant the package parses at start. *)
Class AgentSemver := {
  AgentVersion : Type;
  StrictNewVersion : string -> option AgentVersion;
  LessThan : AgentVersion -> AgentVersion -> bool;
  MustParse : string -> AgentVersion;
}.

Section Legacy.
Context `{AgentSemver}.

Definition firstCurrentAgent : AgentVersion := MustParse "0.2.0-0".

Definition legacyInventory (inv : Inventory) (agentVersion : string) : bool :=
  if 0 <? CollectorSchema inv then false
  else match StrictNewVersion (TrimPrefix agentVersion "v") with
       | None => true
       | Some v => LessThan v firstCurrentAgent
       end.

Definition with_Source (x : string) (inv : Inventory) : Inventory :=
  mkInventory (SchemaVersion inv) (ClusterID inv) (CollectorSchema inv) x (CollectedAt inv) (ServerVersion inv)
    (Provider inv) (Capabilities inv) (APIUsages inv) (DeprecatedCalls inv) (HelmReleases inv) (GitOpsCharts inv)
    (AddOns inv) (Nodes inv) (ControlPlane inv) (Namespaces inv) (UnrecognizedImages inv)
    (UnrecognizedImagesOmitted inv) (CRDs inv) (APIAuthorshipUnknown inv) (APIServerStartTime inv)
    (AddOnEvidenceAgeSeconds inv) (VolumePlugins inv).

(** A count that names no object. *)
Definition unattributed (u : APIUsage) : bool :=
  (0 <? u_Count u) && (zlen (u_Objects u) =? 0) && (u_ObjectsOmitted u =? 0).

Definition unattributedUsageView (inv : Inventory) : Inventory :=
  match Capabilities inv !! CapAPIUsage with
  | None => inv
  | Some st =>
      if negb (cs_Available st) then inv else
      let kept := List.filter (fun u => negb (unattributed u)) (APIUsages inv) in
      let names := map (fun u => gvString (u_Group u) (u_Version u) +:+ " " +:+ u_Kind u)
                     (List.filter unattributed (APIUsages inv)) in
      if zlen names =? 0 then inv else
      let reason := itoa (zlen names) +:+ " API usage count(s) name no object, as a v0.1.x collector's did, so who writes through the deprecated version is unknown; they were not judged" in
      let st := mkCapabilityStatus (cs_Available st) (AppendReason (cs_Reason st) reason) true
                  (sortedSet (cs_Skipped st ++ names)) in
      with_APIUsages kept (with_Capabilities (<[CapAPIUsage := st]> (Capabilities inv)) inv)
  end.

Definition legacyUsageReason (agentVersion : string) : string :=
  "collected by agent " +:+ quoteLabel agentVersion +:+ ", which predates v0.2.0 and counted every object of a kind the apiserver serves at a deprecated version, not the objects written through it; upgrade the agent to assess API usage".
Definition legacyCallsReason (agentVersion : string) : string :=
  "collected by agent " +:+ quoteLabel agentVersion +:+ ", which predates v0.2.0 and whose own requests to deprecated APIs are counted in the apiserver's deprecated-request metric; upgrade the agent to assess deprecated API callers".

(** An add-on found by its chart: the version was the chart's. *)
Definition legacyAddOn (a : AddOnInstance) : AddOnInstance :=
  if negb (ai_Source a =s "chart") then a
  else mkAddOnInstance (ai_ID a) "" (if ai_ChartVersion a =s "" then ai_Version a else ai_ChartVersion a)
         (ai_Namespaces a) (ai_Source a).

Definition legacyView (inv : Inventory) (agentVersion : string) : Inventory :=
  let inv := if negb (Source inv =s "") && negb (Source inv =s SourceCluster)
             then with_Source SourceCluster inv else inv in
  if negb (legacyInventory inv agentVersion) then
    if CollectorSchema inv =? 0 then unattributedUsageView inv else inv
  else
    let caps := <[CapAPIUsage := mkCapabilityStatus false (legacyUsageReason agentVersion) false []]> (Capabilities inv) in
    let caps := <[CapDeprecatedCalls := mkCapabilityStatus false (legacyCallsReason agentVersion) false []]> caps in
    with_AddOns (map legacyAddOn (AddOns inv))
      (with_DeprecatedCalls (with_APIUsages [] (with_Capabilities caps inv)) []).

(** ** Knowledge base skew *)

Definition is_hex (a : ascii) : bool := is_digit a || ascii_between "a" "f" a.

Fixpoint all_hex (s : string) : bool :=
  match s with ""%string => true | String a s' => is_hex a && all_hex s' end.

(** [([0-9a-f]{8})]: eight hexadecimal digits, and what follows. *)
Definition cutDigest (s : string) : option (string * string) :=
  let d := takeBytes 8 s in
  if (slen d =? 8) && all_hex d then Some (d, dropBytes 8 s) else None.

Definition lifecycleLabel : string := "; lifecycle ".
Definition registryLabel : string := "; registry ".

(** The whole of [s] matches the expression. *)
Definition digestsOf (s : string) : option (string * string) :=
  match CutPrefix s lifecycleLabel with
  | None => None
  | Some s =>
      match cutDigest s with
      | None => None
      | Some (lifecycle, s) =>
          match CutPrefix s registryLabel with
          | None => None
          | Some s =>
              match cutDigest s with
              | Some (registry, ""%string) => Some (lifecycle, registry)
              | _ => None
              end
          end
      end
  end.

(** [kbVersionRe] is anchored at the end only and what it matches has one
    length, 39 bytes, so it matches there or nowhere. *)
Definition kbVersionLen : nat := 39.

Definition kbDigests (version : string) : option (string * string) :=
  digestsOf (dropBytes (String.length version - kbVersionLen) version).

(** The closure [mark]. *)
Definition markPartial (c reason : string) (caps : gmap string CapabilityStatus) : gmap string CapabilityStatus :=
  match caps !! c with
  | None => caps
  | Some st =>
      if negb (cs_Available st) then caps
      else <[c := mkCapabilityStatus (cs_Available st) (AppendReason (cs_Reason st) reason) true
                    (sortedSet (cs_Skipped st ++ [SkippedNewerKB]))]> caps
  end.

(** The closure [what]. *)
Definition skewWhat (known : bool) (digest server : string) : string :=
  if negb known then "the agent's knowledge base label names no dataset digests"
  else "the agent collected with " +:+ digest +:+ ", this server judges with " +:+ server.

Definition skewUsageReason (what : string) : string :=
  "knowledge base skew: lifecycle data differs (" +:+ what +:+ "), so APIs this server flags that the agent's did not were never listed; upgrade the agent to the server's version to assess them".
Definition skewHelmReason (what : string) : string :=
  "knowledge base skew: lifecycle data differs (" +:+ what +:+ "), so a release's stored manifest was read only for the APIs the agent's flagged; upgrade the agent to the server's version".
Definition skewAddOnsReason (what : string) : string :=
  "knowledge base skew: add-on registry differs (" +:+ what +:+ "), so add-ons this server's registry knows that the agent's did not were never matched, and an image no entry of the agent's claimed is listed untagged only; upgrade the agent to the server's version to assess them. The two can also run different --registry-dir entries (agent.extraRegistry in the chart), which change the registry digest: give the server the same entries as the agent".

Definition kbSkewView (inv : Inventory) (agentKB : string) (k : KB) : Inventory :=
  match kbDigests (k_Version k) with
  | None => inv
  | Some (serverLifecycle, serverRegistry) =>
      let known := match kbDigests agentKB with Some _ => true | None => false end in
      let '(agentLifecycle, agentRegistry) := default (""%string, ""%string) (kbDigests agentKB) in
      let lifecycleSkew := negb known || negb (agentLifecycle =s serverLifecycle) in
      let registrySkew := negb known || negb (agentRegistry =s serverRegistry) in
      if negb lifecycleSkew && negb registrySkew then inv else
      let caps := Capabilities inv in
      let caps := if lifecycleSkew then
                    let what := skewWhat known agentLifecycle serverLifecycle in
                    markPartial CapHelm (skewHelmReason what) (markPartial CapAPIUsage (skewUsageReason what) caps)
                  else caps in
      let caps := if registrySkew then
                    markPartial CapAddOns (skewAddOnsReason (skewWhat known agentRegistry serverRegistry)) caps
                  else caps in
      with_Capabilities caps inv
  end.

Definition judgedView (inv : Inventory) (agentVersion kbVersion : string) (k : KB) : Inventory :=
  kbSkewView (legacyView inv agentVersion) kbVersion k.

End Legacy.

(** ** What the views promise *)

Lemma sortedSet_in s l : s ∈ sortedSet l <-> s ∈ l.
Proof. unfold sortedSet, sort_strings. by rewrite compact_in, isort_perm. Qed.

Lemma takeBytes_app s t : takeBytes (String.length s) (s +:+ t) = s.
Proof. induction s as [|a s IH]; simpl; [by destruct t|]. by rewrite IH. Qed.

Lemma dropBytes_app s t : dropBytes (String.length s) (s +:+ t) = t.
Proof. induction s as [|a s IH]; simpl; [by destruct t|]. done. Qed.

(** Eight hexadecimal digits. *)
Definition digest8 (d : string) : Prop := String.length d = 8%nat /\ all_hex d = true.

Lemma cutDigest_app d s : digest8 d -> cutDigest (d +:+ s) = Some (d, s).
Proof.
  intros [Hl Hh]. unfold cutDigest. rewrite <- Hl, takeBytes_app, dropBytes_app. unfold slen. by rewrite Hl, Hh.
Qed.

Lemma cutDigest_inv s d t : cutDigest s = Some (d, t) -> s = d +:+ t /\ digest8 d.
Proof.
  unfold cutDigest. intros Hc. case_match eqn:E; [|done]. assert (d = takeBytes 8 s /\ t = dropBytes 8 s) as [-> ->] by (split; congruence).
  apply andb_true_iff in E as [E ?]. apply Z.eqb_eq in E. unfold slen in E.
  split; [exact (eq_sym (take_drop_bytes 8 s))|]. split; [lia|done].
Qed.

Lemma CutPrefix_inv s p t : CutPrefix s p = Some t -> s = p +:+ t.
Proof.
  unfold CutPrefix. intros Hc. case_match eqn:E; [|done]. injection Hc as <-. by apply HasPrefix_split.
Qed.

Lemma digestsOf_spec s l r :
  digestsOf s = Some (l, r) <-> s = lifecycleLabel +:+ l +:+ registryLabel +:+ r /\ digest8 l /\ digest8 r.
Proof.
  unfold digestsOf. split.
  - intros Hd. destruct (CutPrefix s _) as [s1|] eqn:E1; [|done]. apply CutPrefix_inv in E1 as ->.
    destruct (cutDigest s1) as [[l' s2]|] eqn:E2; [|done]. apply cutDigest_inv in E2 as [-> Hl].
    destruct (CutPrefix s2 _) as [s3|] eqn:E3; [|done]. apply CutPrefix_inv in E3 as ->.
    destruct (cutDigest s3) as [[r' s4]|] eqn:E4; [|done]. apply cutDigest_inv in E4 as [-> Hr].
    destruct s4; [|done]. injection Hd as <- <-. by rewrite app_nil_r_s.
  - intros (-> & Hl & Hr). rewrite CutPrefix_app, (cutDigest_app l) by done. rewrite CutPrefix_app.
    by rewrite <- (app_nil_r_s r), (cutDigest_app r), app_nil_r_s by done.
Qed.

(** A label is read exactly when it ends in the two digests. *)
Lemma kbDigests_spec v l r :
  kbDigests v = Some (l, r) <->
  exists p, v = p +:+ lifecycleLabel +:+ l +:+ registryLabel +:+ r /\ digest8 l /\ digest8 r.
Proof.
  unfold kbDigests. rewrite digestsOf_spec. split.
  - intros (Hd & Hl & Hr). exists (takeBytes (String.length v - kbVersionLen) v).
    by rewrite <- Hd, take_drop_bytes.
  - intros (p & -> & Hl & Hr). split; [|done].
    replace (String.length _ - kbVersionLen)%nat with (String.length p); [apply dropBytes_app|].
    destruct Hl as [Hl _], Hr as [Hr _]. rewrite !length_app_s, Hl, Hr. unfold kbVersionLen. simpl. lia.
Qed.

Section Judged.
Context `{AgentSemver}.

(** The capability was not read, or is partial over [x]. *)
Definition lacks (c x : string) (caps : gmap string CapabilityStatus) : Prop :=
  match caps !! c with
  | None => True
  | Some st => cs_Available st = true -> cs_Partial st = true /\ x ∈ cs_Skipped st
  end.

Lemma markPartial_lacks c x d reason caps : lacks c x caps -> lacks c x (markPartial d reason caps).
Proof.
  unfold lacks, markPartial. intros Hl. destruct (caps !! d) as [st|] eqn:E; [|done].
  destruct (negb (cs_Available st)) eqn:Ha; [done|]. destruct (decide (c = d)) as [->|Hd].
  - rewrite E in Hl. rewrite lookup_insert_eq. intros Hav. split; [done|]. apply sortedSet_in, elem_of_app.
    left. by apply Hl.
  - by rewrite lookup_insert_ne.
Qed.

Lemma markPartial_marks c reason caps : lacks c SkippedNewerKB (markPartial c reason caps).
Proof.
  unfold lacks, markPartial. destruct (caps !! c) as [st|] eqn:E; [|by rewrite E].
  destruct (negb (cs_Available st)) eqn:Ha.
  - rewrite E. intros Ht. by rewrite Ht in Ha.
  - rewrite lookup_insert_eq. intros _. split; [done|]. apply sortedSet_in. set_solver.
Qed.

Lemma lacks_cases c x inv :
  lacks c x (Capabilities inv) -> notCollected inv c \/ exists st, partly inv c st /\ x ∈ cs_Skipped st.
Proof.
  unfold lacks, notCollected, partly. destruct (Capabilities inv !! c) as [st|]; [|by left]. intros Hl.
  destruct (cs_Available st) eqn:Ha; [|by left]. right. destruct (Hl eq_refl). eauto.
Qed.

Lemma kbSkewView_lacks c x inv agentKB k :
  lacks c x (Capabilities inv) -> lacks c x (Capabilities (kbSkewView inv agentKB k)).
Proof.
  intros Hl. unfold kbSkewView. repeat case_match; try done; cbn [Capabilities with_Capabilities]; repeat apply markPartial_lacks; done.
Qed.

(** What makes a snapshot's evidence something other than this server's
    knowledge base would have collected. *)
Inductive otherEvidence (inv : Inventory) (agentVersion agentKB : string) (k : KB) (target : Version) : Prop :=
| old_agent : legacyInventory inv agentVersion = true -> otherEvidence inv agentVersion agentKB k target
| residency u : legacyInventory inv agentVersion = false -> CollectorSchema inv = 0 ->
    u ∈ APIUsages inv -> unattributed u = true ->
    removedBy (NewIndex (k_APILifecycle k)) (gvString (u_Group u) (u_Version u) +:+ " " +:+ u_Kind u) target = true ->
    otherEvidence inv agentVersion agentKB k target
| lifecycle_skew l r : kbDigests (k_Version k) = Some (l, r) -> fst <$> kbDigests agentKB <> Some l ->
    otherEvidence inv agentVersion agentKB k target
| registry_skew l r : kbDigests (k_Version k) = Some (l, r) -> snd <$> kbDigests agentKB <> Some r ->
    k_AddOns k <> [] -> otherEvidence inv agentVersion agentKB k target.

Lemma kbSkewView_lifecycle inv agentKB k l r :
  kbDigests (k_Version k) = Some (l, r) -> fst <$> kbDigests agentKB <> Some l ->
  lacks CapAPIUsage SkippedNewerKB (Capabilities (kbSkewView inv agentKB k)).
Proof.
  intros Hs Ha. unfold kbSkewView. rewrite Hs.
  assert (Hskew : negb match kbDigests agentKB with Some _ => true | None => false end ||
                  negb ((default (""%string, ""%string) (kbDigests agentKB)).1 =s l) = true).
  { destruct (kbDigests agentKB) as [[al ar]|]; [|done]. simpl in *. apply negb_true_iff, String.eqb_neq. congruence. }
  destruct (default _ _) as [al ar]. simpl in Hskew. rewrite Hskew. simpl.
  repeat case_match; cbn [Capabilities with_Capabilities]; repeat (apply markPartial_marks || apply markPartial_lacks).
Qed.

Lemma kbSkewView_registry inv agentKB k l r :
  kbDigests (k_Version k) = Some (l, r) -> snd <$> kbDigests agentKB <> Some r ->
  lacks CapAddOns SkippedNewerKB (Capabilities (kbSkewView inv agentKB k)).
Proof.
  intros Hs Ha. unfold kbSkewView. rewrite Hs.
  assert (Hskew : negb match kbDigests agentKB with Some _ => true | None => false end ||
                  negb ((default (""%string, ""%string) (kbDigests agentKB)).2 =s r) = true).
  { destruct (kbDigests agentKB) as [[al ar]|]; [|done]. simpl in *. apply negb_true_iff, String.eqb_neq. congruence. }
  destruct (default _ _) as [al ar]. simpl in Hskew. rewrite Hskew, andb_false_r.
  cbn [Capabilities with_Capabilities]. apply markPartial_marks.
Qed.

(** Every snapshot is judged as a cluster's. *)
Lemma judgedView_source inv agentVersion agentKB k : Source (judgedView inv agentVersion agentKB k) <> SourceFiles.
Proof.
  assert (Hk : forall i, Source (kbSkewView i agentKB k) = Source i) by (intros; unfold kbSkewView; by repeat case_match).
  assert (Hu : forall i, Source (unattributedUsageView i) = Source i) by (intros; unfold unattributedUsageView; by repeat case_match).
  unfold judgedView. rewrite Hk. unfold legacyView.
  set (i := if _ && _ then _ else _). assert (Hi : Source i <> SourceFiles).
  { subst i. destruct (Source inv =s "") eqn:E1; [apply String.eqb_eq in E1; simpl; by rewrite E1|].
    destruct (Source inv =s SourceCluster) eqn:E2; [apply String.eqb_eq in E2; simpl; by rewrite E2|done]. }
  clearbody i. repeat case_match; rewrite ?Hu; done.
Qed.

Lemma legacyInventory_source x inv agentVersion : legacyInventory (with_Source x inv) agentVersion = legacyInventory inv agentVersion.
Proof. done. Qed.

(** What the source field says aside, a view reads the same fields. *)
Lemma legacyView_cases inv agentVersion :
  exists inv', legacyInventory inv' agentVersion = legacyInventory inv agentVersion /\
    CollectorSchema inv' = CollectorSchema inv /\ APIUsages inv' = APIUsages inv /\
    legacyView inv agentVersion =
      if legacyInventory inv' agentVersion then legacyView inv' agentVersion
      else if CollectorSchema inv' =? 0 then unattributedUsageView inv' else inv'.
Proof.
  exists (if negb (Source inv =s "") && negb (Source inv =s SourceCluster) then with_Source SourceCluster inv else inv).
  split_and!; [by case_match..|]. unfold legacyView at 1.
  destruct (negb (Source inv =s "") && negb (Source inv =s SourceCluster)) eqn:E.
  - destruct (legacyInventory (with_Source SourceCluster inv) agentVersion) eqn:El; [|done].
    unfold legacyView. simpl. by rewrite El.
  - destruct (legacyInventory inv agentVersion) eqn:El; [|done]. unfold legacyView. by rewrite E, El.
Qed.

Lemma legacyView_old inv agentVersion x :
  legacyInventory inv agentVersion = true -> lacks CapAPIUsage x (Capabilities (legacyView inv agentVersion)).
Proof.
  intros Hl. unfold legacyView. set (i := if _ && _ then _ else _).
  assert (Hi : legacyInventory i agentVersion = true) by (subst i; by case_match). clearbody i. rewrite Hi.
  cbn [negb]. unfold lacks. cbn [Capabilities with_AddOns with_DeprecatedCalls with_APIUsages with_Capabilities].
  by rewrite lookup_insert_ne, lookup_insert_eq.
Qed.

Lemma unattributedUsageView_lacks inv u :
  u ∈ APIUsages inv -> unattributed u = true ->
  lacks CapAPIUsage (gvString (u_Group u) (u_Version u) +:+ " " +:+ u_Kind u)
    (Capabilities (unattributedUsageView inv)).
Proof.
  intros Hu Hx. unfold unattributedUsageView. set (name := fun u : APIUsage => _ +:+ _).
  destruct (Capabilities inv !! CapAPIUsage) as [st|] eqn:E; [|unfold lacks; by rewrite E].
  destruct (cs_Available st) eqn:Ha; [|unfold lacks; simpl; rewrite E; congruence]. cbn [negb].
  assert (Hin : name u ∈ map name (List.filter unattributed (APIUsages inv))).
  { apply list_elem_of_In, in_map, filter_In. split; [by apply list_elem_of_In|done]. }
  case_match eqn:Ez.
  - exfalso. apply Z.eqb_eq in Ez. unfold zlen in Ez. destruct (map name _); [by apply elem_of_nil in Hin|simpl in Ez; lia].
  - unfold lacks. cbn [Capabilities with_APIUsages with_Capabilities]. rewrite lookup_insert_eq. intros _.
    split; [done|]. apply sortedSet_in, elem_of_app. by right.
Qed.

(** Evidence collected by other rules or other data cannot support a ready
    verdict. *)
Lemma otherEvidence_unassessable inv agentVersion agentKB k target :
  otherEvidence inv agentVersion agentKB k target ->
  unassessable (judgedView inv agentVersion agentKB k) k target.
Proof.
  pose proof (judgedView_source inv agentVersion agentKB k) as Hsrc.
  assert (Husage : lacks CapAPIUsage SkippedNewerKB (Capabilities (judgedView inv agentVersion agentKB k)) ->
    unassessable (judgedView inv agentVersion agentKB k) k target).
  { intros [Hn|(st & Hp & Hin)]%lacks_cases; [by apply no_api_usage|by eapply other_lifecycle]. }
  destruct 1 as [Hl|u Hl Hc Hu Hx Hr|l r Hs Ha|l r Hs Ha Hk].
  - by apply Husage, kbSkewView_lacks, legacyView_old.
  - destruct (legacyView_cases inv agentVersion) as (i & Hi & Hci & Hui & Hv). rewrite Hi, Hl, Hci, Hc in Hv.
    cbn [Z.eqb] in Hv. assert (Hla := unattributedUsageView_lacks i u). rewrite Hui in Hla.
    specialize (Hla Hu Hx). rewrite <- Hv in Hla. apply (kbSkewView_lacks _ _ _ agentKB k) in Hla.
    apply lacks_cases in Hla as [Hn|(st & (Hst & Hav & Hpa) & Hin)]; [by apply no_api_usage|].
    unfold removedBy in Hr. destruct (splitAPI _) as [[[g v] kd]|] eqn:Esp; [|done].
    destruct (Lookup _ g v kd) as [e|] eqn:El; [|done]. destruct (e_Removed e) as [rv|] eqn:Er; [|done].
    eapply (skipped_removed _ _ _ st _ e rv); eauto. apply Compare_le. by apply Z.leb_le.
  - by apply Husage, (kbSkewView_lifecycle _ _ _ l r).
  - destruct (lacks_cases CapAddOns SkippedNewerKB (judgedView inv agentVersion agentKB k)) as [Hn|(st & Hp & Hin)].
    + by apply (kbSkewView_registry _ _ _ l r).
    + by apply no_addons.
    + eapply some_addons; eauto.
Qed.

(** A server never calls ready what another knowledge base or an
    outdated agent collected: a snapshot whose agent predates the current
    field meanings, whose counts of a removed API name no object, or whose
    lifecycle or registry data is not the server's own is judged, at every
    target and time, with a report that is not ready. *)
Lemma skewed_never_ready `{Semver} `{KubeAware} (inv : Inventory) (agentVersion agentKB : string) (k : KB)
    (target : Version) (now : Time) (r : Report) :
  kb_ok k -> otherEvidence inv agentVersion agentKB k target ->
  Evaluate (judgedView inv agentVersion agentKB k) k target now = Some r ->
  r_Ready r = false /\ r_Verdict r <> VerdictReady.
Proof.
  intros Hk Ho He. assert (Hr : r_Ready r = false).
  { apply not_true_iff_false. intros Hr. by apply (ready_assessed _ k target now r Hk He Hr), otherEvidence_unassessable. }
  split; [done|]. rewrite Evaluate_eq in He by done. injection He as <-. simpl in Hr. by apply String.eqb_neq.
Qed.

(** The views touch nothing else: a snapshot a current collector filled, of
    a cluster, under the server's own digests, is judged as it was sent. *)
Lemma judgedView_same (inv : Inventory) (agentVersion agentKB : string) (k : KB) :
  0 < CollectorSchema inv -> Source inv = "" \/ Source inv = SourceCluster ->
  kbDigests agentKB = kbDigests (k_Version k) -> judgedView inv agentVersion agentKB k = inv.
Proof.
  intros Hc Hs Hd. unfold judgedView, kbSkewView. rewrite Hd.
  assert (Hv : legacyView inv agentVersion = inv).
  { unfold legacyView. replace (negb (Source inv =s "") && negb (Source inv =s SourceCluster)) with false
      by (by destruct Hs as [-> | ->]).
    unfold legacyInventory. rewrite (proj2 (Z.ltb_lt _ _) Hc). cbn [negb].
    by rewrite (proj2 (Z.eqb_neq _ _)) by lia. }
  rewrite Hv. destruct (kbDigests (k_Version k)) as [[l r]|]; [|done]. simpl. by rewrite !String.eqb_refl.
Qed.
End Judged.

(** ** An agent with older lifecycle data *)

#[local] Existing Instance exactSemver.
#[local] Existing Instance byName.

(** Versions of three decimal parts, in order. *)
#[local] Instance dottedSemver : AgentSemver := {
  AgentVersion := list Z;
  StrictNewVersion s := mapM Atoi (Split s ".");
  LessThan a b := match a, b with [x; y; _], [x'; y'; _] => (x <? x') || ((x =? x') && (y <? y')) | _, _ => false end;
  MustParse _ := [0; 2; 0];
}.

Definition serverKB : KB :=
  mkKB "k8s.io/api v0.34.1; lifecycle 0badcafe; registry 00c0ffee" [] [] [] [] DefaultSkewPolicy (mkVersion 1 34) [] [].
Definition olderLabel : string := "k8s.io/api v0.33.0; lifecycle deadbeef; registry 00c0ffee".

Lemma skewed_never_ready_witness :
  (exists r, Evaluate cleanInventory serverKB (mkVersion 1 30) 0 = Some r /\ r_Ready r = true) /\
  exists r, Evaluate (judgedView cleanInventory "v0.3.0" olderLabel serverKB) serverKB (mkVersion 1 30) 0 = Some r /\
    r_Ready r = false.
Proof.
  split; [eexists; split; vm_compute; reflexivity|].
  assert (Hk : kb_ok serverKB) by apply Forall_nil_2.
  eexists. split; [by apply Evaluate_eq|].
  refine (proj1 (skewed_never_ready cleanInventory "v0.3.0" olderLabel serverKB (mkVersion 1 30) 0 _ Hk _ _)).
  - apply (lifecycle_skew _ _ _ _ _ "0badcafe" "00c0ffee"); [vm_compute; reflexivity|vm_compute; congruence].
  - by apply Evaluate_eq.
Defined.
