(* ===== verification/Scope.v ===== *)
(** * Read scopes (internal/server/scope.go, teams.go)

    A read is answered for the whole fleet or for a set of teams. What a
    team scope sees of a report is cut to its teams, their namespaces and
    the objects in them; what a team-scoped gate judges is the scope's
    share of the cluster. *)

From stdpp Require Import base list strings gmap.
From Stdlib Require Import ZArith Lia Ascii.
From S2P Require Import Prelude GoStr GoTime Version Inventory KB Findings GoUtf8 Admit Passes.

(** ** Scopes *)

Definition scopeHeader : string := "X-Upgradescope-Teams".
Definition ReadScopeFleet : string := "*".

(** [None] is the nil map: the whole fleet. *)
Record readScope := mkScope { sc_teams : option (gset string) }.

Definition fleetScope : readScope := mkScope None.

Definition scopeOfTeams (teams : list string) : readScope :=
  if mem_str ReadScopeFleet teams then fleetScope
  else mkScope (Some (list_to_set (List.filter (fun t => negb (t =s "")) teams))).

Definition fleet (sc : readScope) : bool := match sc_teams sc with None => true | Some _ => false end.

(** [sc.teams[t]]: a nil map has no key. *)
Definition hasTeam (sc : readScope) (t : string) : bool :=
  match sc_teams sc with None => false | Some m => bool_decide (t ∈ m) end.

Definition names (sc : readScope) : list string :=
  match sc_teams sc with None => [] | Some m => sort_strings (elements m) end.

Definition owns (sc : readScope) (teams : list string) : bool := fleet sc || existsb (hasTeam sc) teams.

(** ** What a scope keeps of a finding *)

Record keep := mkKeep {
  k_team : string -> bool;
  k_namespace : string -> bool;
  k_object : ObjectRef -> bool;
}.

(** [ns[name]] is a team of the scope. *)
Definition inScopeNS (sc : readScope) (ns : gmap string string) (name : string) : bool :=
  let t := default ""%string (ns !! name) in negb (t =s "") && hasTeam sc t.

Definition clusterKeep (sc : readScope) (ns : gmap string string) : keep :=
  mkKeep (hasTeam sc) (inScopeNS sc ns) (fun o => inScopeNS sc ns (o_Namespace o)).

(** The digits at the end of [s], and what is before them. *)
Fixpoint digitsEnd (s : string) : string * string :=
  match s with
  | ""%string => (""%string, ""%string)
  | String a s' =>
      let '(pre, ds) := digitsEnd s' in
      match pre with
      | ""%string => if is_digit a then (""%string, String a ds) else (String a "", ds)
      | _ => (String a pre, ds)
      end
  end.

Definition newline : ascii := "010".

(** The expression [titleCount]: any text without a newline, then a space
    and, in parentheses, a decimal count and the noun. Its two groups. *)
Definition titleCount (title : string) : option (string * string) :=
  let rest := match CutSuffix title " objects)" with
              | Some r => Some r
              | None => CutSuffix title " object)"
              end in
  match rest with
  | None => None
  | Some r =>
      let '(pre, ds) := digitsEnd r in
      if ds =s "" then None
      else match CutSuffix pre " (" with
           | Some m => if Contains m (String newline "") then None else Some (m, ds)
           | None => None
           end
  end.

Definition cutTitle (title : string) (listed : bool) (all kept : Z) : string :=
  match titleCount title with
  | None => title
  | Some (m, ds) =>
      if match Atoi ds with Some n => listed && (n =? all) | None => false end then
        m +:+ " (" +:+ itoa kept +:+ " " +:+ (if kept =? 1 then "object" else "objects") +:+ " in scope)"
      else m
  end.

Definition cutDetail (namespaces : list string) (objects : Z) (capped : bool) : string :=
  let where_ := if 0 <? zlen namespaces then "its namespaces in scope are " +:+ Join namespaces ", "
                else "none of its namespaces is listed"%string in
  let d := "Cut to this read's teams: the finding also covers namespaces or objects outside them, which a team-scoped read does not show, so its evidence is not repeated; " +:+
    where_ +:+ ", with " +:+ itoa objects +:+ " object(s) listed." in
  if capped then d +:+ " Its lists were capped before the cut, so more of this read's teams' may be affected than are listed." else d.

(** [keep.cut]. *)
Definition cut (k : keep) (f : Finding) : Finding * bool :=
  let teams := List.filter (k_team k) (f_Teams f) in
  let namespaces := List.filter (k_namespace k) (f_Namespaces f) in
  let nsCut := zlen namespaces <? zlen (f_Namespaces f) in
  let objects := List.filter (fun o => negb (negb (k_object k o) && (negb (o_Namespace o =s "") || nsCut))) (f_Objects f) in
  if (zlen teams =? zlen (f_Teams f)) && negb nsCut && (zlen objects =? zlen (f_Objects f)) &&
     (f_NamespacesOmitted f =? 0)
  then (f, false)
  else
    let capped := (0 <? f_NamespacesOmitted f) || (0 <? f_ObjectsOmitted f) in
    (mkFinding (f_Category f) (f_Severity f) (f_Key f)
       (cutTitle (f_Title f) ((f_ObjectsOmitted f =? 0) && (0 <? zlen (f_Objects f))) (zlen (f_Objects f)) (zlen objects))
       (cutDetail namespaces (zlen objects) capped)
       teams namespaces 0 (f_Unnamespaced f) (f_Remediation f) (f_Citations f) objects 0 (f_BaselineState f) [],
     true).

Definition scopeFindings (sc : readScope) (fs : list Finding) (ns : gmap string string) : list Finding :=
  if fleet sc then fs
  else map (fun f => (cut (clusterKeep sc ns) f).1) (List.filter (fun f => owns sc (f_Teams f)) fs).

Definition set_Finding (f : Finding) (sf : SuppressedFinding) : SuppressedFinding :=
  mkSuppressed f (sf_Reason sf) (sf_Source sf) (sf_Expires sf).

Definition scopeSuppressed (sc : readScope) (fs : list SuppressedFinding) (k : keep) (mine : Finding -> bool)
    : list SuppressedFinding :=
  omap (fun sf =>
    let f := sf_Finding sf in
    if negb (mine f) && negb (owns sc (f_Teams f)) then None
    else
      let c := (cut k f).1 in
      if (0 <? zlen (f_Objects f)) && (zlen (f_Objects c) =? 0) then None
      else Some (set_Finding c sf)) fs.

(** ** Gaps *)

Definition withheldGapReason : string :=
  "withheld from a team-scoped read: the helm collector names the releases it could not read by namespace and name, which can be other teams'".

Definition withholds (sc : readScope) (c : string) : bool := negb (fleet sc) && (c =s CapHelm).

Definition withheldIfSet (reason : string) : string := if reason =s "" then "" else withheldGapReason.

(** [scopeGaps]: gaps none of which is withheld are returned as they are,
    which is what the loop makes of them too. *)
Definition scopeGaps (sc : readScope) (gaps : list CapabilityGap) : list CapabilityGap :=
  map (fun g => if withholds sc (g_Capability g)
                then mkGap (g_Capability g) (withheldIfSet (g_Reason g)) (g_Partial g) [] (g_Required g)
                else g) gaps.

Record summaryGap := mkSummaryGap { sg_Gap : CapabilityGap; sg_SkippedOmitted : Z }.

Definition summaryGaps (sc : readScope) (gaps : list summaryGap) : list summaryGap :=
  map (fun sg =>
    let g := sg_Gap sg in
    if withholds sc (g_Capability g)
    then mkSummaryGap (mkGap (g_Capability g) (withheldIfSet (g_Reason g)) (g_Partial g) [] (g_Required g))
           (sg_SkippedOmitted sg + zlen (g_Skipped g))
    else sg) gaps.

(** [readScope.capabilities]. *)
Definition scopeCapabilities (sc : readScope) (caps : gmap string CapabilityStatus) : gmap string CapabilityStatus :=
  match caps !! CapHelm with
  | None => caps
  | Some st =>
      if negb (withholds sc CapHelm) then caps
      else <[CapHelm := mkCapabilityStatus (cs_Available st) (withheldIfSet (cs_Reason st)) (cs_Partial st) []]> caps
  end.

(** ** A report as a scope sees it *)

Definition with_Listing (fs : list Finding) (sup : list SuppressedFinding) (gaps : list CapabilityGap)
    (images : list string) (omitted : Z) (r : Report) : Report :=
  mkReport (r_ClusterID r) (r_Target r) (r_ServerVersion r) (r_KubeContext r) (r_APIServer r)
    (r_KBVersion r) (r_Score r) (r_Ready r) (r_Verdict r) fs gaps (r_Support r) sup
    images omitted (r_AddOnEvidenceAgeSeconds r) (r_Hops r).

Definition scopeReport (sc : readScope) (rep : Report) (ns : gmap string string) : Report :=
  if fleet sc then rep
  else with_Listing (scopeFindings sc (r_Findings rep) ns)
         (scopeSuppressed sc (r_Suppressed rep) (clusterKeep sc ns) (fun _ => false))
         (scopeGaps sc (r_NotAssessed rep)) [] 0 rep.

Definition namespaceTeamsOf (namespaces : list NamespaceInfo) : gmap string string :=
  foldl (fun m n => <[ns_Name n := ns_Team n]> m) ∅ namespaces.

(** [Server.namespaceTeams], of the decoded namespaces. *)
Definition namespaceTeams (teamMap : list TeamMapRule) (namespaces : list NamespaceInfo) : gmap string string :=
  namespaceTeamsOf (ApplyTeamMap teamMap namespaces).

(** ** Team scores *)

Definition UnattributedTeam : string := "(unattributed)".

Definition scopeTeamScores (sc : readScope) (scores : gmap string TeamScore) : gmap string TeamScore :=
  if fleet sc then scores else filter (fun p => hasTeam sc p.1 = true) scores.

Definition verdictRank (v : string) : Z :=
  if v =s VerdictBlocked then 3 else if v =s VerdictUnknown then 2 else if v =s VerdictReady then 1 else 0.

Definition worseVerdict (a b : string) : string := if verdictRank a <? verdictRank b then b else a.

Definition mergeTeamScores (a b : TeamScore) : TeamScore :=
  let v := worseVerdict (ts_Verdict a) (ts_Verdict b) in
  mkTeamScore (Z.min (ts_Score a) (ts_Score b)) (v =s VerdictReady) v
    (ts_Blockers a + ts_Blockers b) (ts_Warnings a + ts_Warnings b).

Definition renderTeamScores (m : gmap string TeamScore) : gmap string TeamScore :=
  match m !! ""%string with
  | None => m
  | Some ts =>
      let out := delete ""%string m in
      let ts := match out !! UnattributedTeam with Some real => mergeTeamScores real ts | None => ts end in
      <[UnattributedTeam := ts]> out
  end.

Definition renderedTeams (sc : readScope) (rep : Report) : gmap string TeamScore :=
  renderTeamScores (scopeTeamScores sc (TeamScores rep)).

(** ** The scope's share of a cluster *)

Definition satAdd (a b : Z) : Z :=
  let a := Z.max a 0 in let b := Z.max b 0 in
  if maxInt - b <? a then maxInt else a + b.

(** The counts of the namespaces [keeps] accepts, without the empty ones. *)
Definition shareCounts (keeps : string -> bool) (m : gmap string Z) : gmap string Z :=
  filter (fun p => keeps p.1 && (0 <? p.2) = true) m.

Definition shareObjects (keeps : string -> bool) (os : list ObjectRef) : list ObjectRef :=
  List.filter (fun o => keeps (o_Namespace o)) os.

(** [count+n] over the kept namespaces. *)
Definition shareSum (m : gmap string Z) : Z := foldl (fun c p => wrap64 (c + p.2)) 0 (map_to_list m).
Definition satSum (m : gmap string Z) : Z := foldl (fun c p => satAdd c p.2) 0 (map_to_list m).

Definition usageShare (keeps : string -> bool) (us : list APIUsage) : list APIUsage :=
  omap (fun u =>
    let counts := shareCounts keeps (u_Namespaces u) in
    let count := shareSum counts in
    if count =? 0 then None
    else
      let objects := shareObjects keeps (u_Objects u) in
      Some (mkAPIUsage (u_Group u) (u_Version u) (u_Kind u) count counts objects (Z.max 0 (count - zlen objects)))) us.

Definition volumeShare (keeps : string -> bool) (vs : list VolumePluginUse) : list VolumePluginUse :=
  omap (fun v =>
    let counts := shareCounts keeps (vu_Namespaces v) in
    let count := satSum counts in
    if count =? 0 then None
    else
      let objects := shareObjects keeps (vu_Objects v) in
      Some (mkVolumePluginUse (vu_Plugin v) count counts objects (Z.max 0 (count - zlen objects)))) vs.

Definition addOnShare (keeps : string -> bool) (addOns : list AddOnInstance) : list AddOnInstance :=
  omap (fun a =>
    let namespaces := List.filter keeps (ai_Namespaces a) in
    if 0 <? zlen namespaces
    then Some (mkAddOnInstance (ai_ID a) (ai_Version a) (ai_ChartVersion a) namespaces (ai_Source a))
    else None) addOns.

(** The predicate [in] of [clusterShare]. *)
Definition ownsNS (sc : readScope) (inv : Inventory) (ns : string) : bool :=
  negb (ns =s "") && inScopeNS sc (namespaceTeamsOf (Namespaces inv)) ns.

Definition clusterShare (sc : readScope) (inv : Inventory) : Inventory :=
  if fleet sc then inv
  else
    let keeps := ownsNS sc inv in
    mkInventory (SchemaVersion inv) (ClusterID inv) (CollectorSchema inv) (Source inv) (CollectedAt inv)
      (ServerVersion inv) (Provider inv) (Capabilities inv)
      (usageShare keeps (APIUsages inv)) []
      (List.filter (fun r => keeps (h_Namespace r)) (HelmReleases inv))
      (List.filter (fun c => keeps (g_Namespace c) && ((g_Target c =s "") || keeps (g_Target c))) (GitOpsCharts inv))
      (addOnShare keeps (AddOns inv))
      (Nodes inv) (ControlPlane inv)
      (List.filter (fun n => keeps (ns_Name n)) (Namespaces inv))
      [] 0
      (map (fun c => with_Usage (usageShare keeps (crd_Usage c)) c) (CRDs inv))
      (usageShare keeps (APIAuthorshipUnknown inv))
      (APIServerStartTime inv) (AddOnEvidenceAgeSeconds inv)
      (volumeShare keeps (VolumePlugins inv)).

(** * What a team-scoped read can learn

    A cut finding, a scoped report and a share of a cluster hold nothing of
    another team's, and do not depend on it. *)

(** ** Filters *)

Lemma elem_of_Lfilter {A} (p : A -> bool) x l : x ∈ List.filter p l <-> x ∈ l /\ p x = true.
Proof. rewrite !list_elem_of_In. apply filter_In. Qed.

Lemma Lfilter_length {A} (p : A -> bool) l : (length (List.filter p l) <= length l)%nat.
Proof. induction l as [|x l IH]; simpl; [lia|]. destruct (p x); simpl; lia. Qed.

(** A filter that keeps the length keeps the list. *)
Lemma Lfilter_full {A} (p : A -> bool) l : zlen (List.filter p l) = zlen l -> List.filter p l = l.
Proof.
  unfold zlen. induction l as [|x l IH]; [done|]. simpl. pose proof (Lfilter_length p l).
  destruct (p x); simpl; intros Hl; [|lia]. rewrite IH; [done|lia].
Qed.

Lemma Lfilter_Forall {A} (p : A -> bool) l : Forall (fun x => p x = true) (List.filter p l).
Proof. apply Forall_forall. intros x Hx. by apply elem_of_Lfilter in Hx as [_ ?]. Qed.

(** ** Cut findings *)

(** The finding names only teams, namespaces and namespaced objects of the
    scope, and does not say how many more there are. *)
Record confined (k : keep) (f : Finding) : Prop := {
  confined_teams : Forall (fun t => k_team k t = true) (f_Teams f);
  confined_namespaces : Forall (fun n => k_namespace k n = true) (f_Namespaces f);
  confined_objects : Forall (fun o => k_object k o = true \/ o_Namespace o = ""%string) (f_Objects f);
  confined_omitted : f_NamespacesOmitted f = 0;
}.

Definition keptObject (k : keep) (nsCut : bool) (o : ObjectRef) : bool :=
  negb (negb (k_object k o) && (negb (o_Namespace o =s "") || nsCut)).

Lemma keptObject_confined k nsCut os :
  Forall (fun o => k_object k o = true \/ o_Namespace o = ""%string) (List.filter (keptObject k nsCut) os).
Proof.
  eapply Forall_impl; [apply Lfilter_Forall|]. intros o. unfold keptObject. simpl.
  destruct (k_object k o); [by left|]. destruct (o_Namespace o =s "") eqn:E; [|done].
  right. by apply String.eqb_eq.
Qed.

Lemma cut_confines k f : confined k (cut k f).1.
Proof.
  unfold cut. fold (keptObject k (zlen (List.filter (k_namespace k) (f_Namespaces f)) <? zlen (f_Namespaces f))).
  set (nsCut := zlen (List.filter _ _) <? _). case_match eqn:E; simpl.
  - repeat (apply andb_true_iff in E as [E ?]). to_prop. subst nsCut.
    assert (Hn : List.filter (k_namespace k) (f_Namespaces f) = f_Namespaces f).
    { apply Lfilter_full. pose proof (Lfilter_length (k_namespace k) (f_Namespaces f)). unfold zlen in *. lia. }
    split; [rewrite <- (Lfilter_full _ _ E); apply Lfilter_Forall|rewrite <- Hn; apply Lfilter_Forall| |done].
    rewrite <- (Lfilter_full _ _ H0). apply keptObject_confined.
  - split; simpl; [apply Lfilter_Forall..| |done]. apply keptObject_confined.
Qed.

(** What a cut finding lists of the scope's is all of it: a team, a
    namespace or an object the scope keeps is never cut. *)
Lemma cut_complete k f :
  (forall t, t ∈ f_Teams f -> k_team k t = true -> t ∈ f_Teams (cut k f).1) /\
  (forall n, n ∈ f_Namespaces f -> k_namespace k n = true -> n ∈ f_Namespaces (cut k f).1) /\
  (forall o, o ∈ f_Objects f -> k_object k o = true -> o ∈ f_Objects (cut k f).1).
Proof.
  unfold cut. case_match; simpl; [done|].
  refine (conj _ (conj _ _)); intros x Hx Hk; apply elem_of_Lfilter; (split; [done|]); rewrite ?Hk; done.
Qed.

(** Two findings a scope cannot tell apart: they say the same of the
    scope's teams, namespaces and objects, in the same words before the
    count, and both have something to cut. Everything else they say of
    other teams may differ. *)
Record sameShare (k : keep) (f g : Finding) : Prop := {
  same_class : f_Category f = f_Category g /\ f_Severity f = f_Severity g /\ f_Key f = f_Key g;
  same_text : f_Unnamespaced f = f_Unnamespaced g /\ f_Remediation f = f_Remediation g /\
              f_Citations f = f_Citations g /\ f_BaselineState f = f_BaselineState g;
  same_teams : List.filter (k_team k) (f_Teams f) = List.filter (k_team k) (f_Teams g);
  same_namespaces : List.filter (k_namespace k) (f_Namespaces f) = List.filter (k_namespace k) (f_Namespaces g);
  same_objects : List.filter (keptObject k true) (f_Objects f) = List.filter (keptObject k true) (f_Objects g);
  ns_foreign : (exists n, n ∈ f_Namespaces f /\ k_namespace k n = false) /\
               (exists n, n ∈ f_Namespaces g /\ k_namespace k n = false);
  all_listed : f_NamespacesOmitted f = 0 /\ f_NamespacesOmitted g = 0 /\ f_ObjectsOmitted f = 0 /\ f_ObjectsOmitted g = 0;
  same_words : exists m, f_Title f = m +:+ " (" +:+ pluralObjects (zlen (f_Objects f)) +:+ ")" /\
                         f_Title g = m +:+ " (" +:+ pluralObjects (zlen (f_Objects g)) +:+ ")" /\
                         Contains m (String newline "") = false;
  some_objects : 0 < zlen (f_Objects f) <= maxInt /\ 0 < zlen (f_Objects g) <= maxInt;
}.

Lemma append_inj_r s t p q : String.length p = String.length q -> s +:+ p = t +:+ q -> s = t /\ p = q.
Proof.
  intros Hl. revert t. induction s as [|a s IH]; intros [|b t] He; cbn [String.append] in He; [done|..].
  - apply (f_equal String.length) in He. rewrite !length_app_s in He. simpl in He. lia.
  - apply (f_equal String.length) in He. rewrite !length_app_s in He. simpl in He. lia.
  - change (String a (s +:+ p) = String b (t +:+ q)) in He. injection He as -> He. destruct (IH t He). by subst.
Qed.

Lemma digitsEnd_digits d : all_digits d = true -> digitsEnd d = (""%string, d).
Proof. induction d as [|a d IH]; [done|]. simpl. intros [Ha Hd]%andb_true_iff. by rewrite IH, Ha. Qed.

Lemma digitsEnd_app p a d :
  is_digit a = false -> all_digits d = true -> digitsEnd (p +:+ String a d) = (p +:+ String a "", d).
Proof.
  intros Ha Hd. induction p as [|b p IH].
  - change (digitsEnd (String a d) = (String a "", d)). cbn [digitsEnd]. by rewrite (digitsEnd_digits d Hd), Ha.
  - change (digitsEnd (String b (p +:+ String a d)) = (String b (p +:+ String a ""), d)). cbn [digitsEnd].
    rewrite IH. destruct p; done.
Qed.

(** The count the engine ends a title with is read back. *)
Lemma titleCount_plural m n :
  0 <= n -> Contains m (String newline "") = false ->
  titleCount (m +:+ " (" +:+ pluralObjects n +:+ ")") = Some (m, itoa n).
Proof.
  intros Hn Hm. destruct (itoa_nonneg n Hn) as (Hd & _ & Hne).
  assert (Hpre : digitsEnd (m +:+ " (" +:+ itoa n) = (m +:+ " (", itoa n)).
  { change (" (" +:+ itoa n) with (" " +:+ String "(" (itoa n)). rewrite <- app_assoc_s, digitsEnd_app by done.
    by rewrite app_assoc_s. }
  assert (Hrest : match digitsEnd (m +:+ " (" +:+ itoa n) with
    (pre, ds) => if ds =s "" then None else match CutSuffix pre " (" with
      | Some m => if Contains m (String newline "") then None else Some (m, ds) | None => None end end = Some (m, itoa n)).
  { rewrite Hpre. apply String.eqb_neq in Hne. by rewrite Hne, CutSuffix_app, Hm. }
  unfold titleCount, pluralObjects. destruct (n =? 1) eqn:E1.
  - apply Z.eqb_eq in E1 as ->.
    replace (m +:+ " (" +:+ "1 object" +:+ ")") with ((m +:+ " (" +:+ itoa 1) +:+ " object)") by (by rewrite !app_assoc_s).
    destruct (CutSuffix _ " objects)") as [b|] eqn:Ec.
    + exfalso. apply CutSuffix_Some in Ec. change " object)"%string with (" objec" +:+ "t)") in Ec.
      change " objects)"%string with (" object" +:+ "s)") in Ec. rewrite <- !app_assoc_s in Ec.
      by apply append_inj_r in Ec as [_ ?].
    + by rewrite CutSuffix_app.
  - replace (m +:+ " (" +:+ (itoa n +:+ " objects") +:+ ")") with ((m +:+ " (" +:+ itoa n) +:+ " objects)")
      by (by rewrite !app_assoc_s).
    by rewrite CutSuffix_app.
Qed.

Lemma nsCut_true k f :
  (exists n, n ∈ f_Namespaces f /\ k_namespace k n = false) ->
  (zlen (List.filter (k_namespace k) (f_Namespaces f)) <? zlen (f_Namespaces f)) = true.
Proof.
  intros (n & Hn & Hk). apply Z.ltb_lt. pose proof (Lfilter_length (k_namespace k) (f_Namespaces f)).
  destruct (decide (zlen (List.filter (k_namespace k) (f_Namespaces f)) = zlen (f_Namespaces f))) as [He|He].
  - apply Lfilter_full in He. rewrite <- He in Hn. apply elem_of_Lfilter in Hn as [_ ?]. congruence.
  - unfold zlen in *. lia.
Qed.

(** A scoped read of two findings it cannot tell apart is one finding. *)
Lemma cut_noninterference k f g : sameShare k f g -> cut k f = cut k g.
Proof.
  intros [[Hc [Hs Hk]] (Hu & Hr & Hci & Hb) Ht Hn Ho [Hff Hfg] (Hnf & Hng & Hof & Hog) (m & Htf & Htg & Hm) [[Hf Hf'] [Hg Hg']]].
  unfold cut. rewrite (nsCut_true k f Hff), (nsCut_true k g Hfg).
  fold (keptObject k true). rewrite !andb_false_r. cbn [negb andb].
  rewrite Ht, Hn, Ho, Hc, Hs, Hk, Hu, Hr, Hci, Hb, Hnf, Hng, Hof, Hog, Htf, Htg. unfold cutTitle.
  rewrite !titleCount_plural, !Atoi_itoa by (done || lia). rewrite !Z.eqb_refl.
  by rewrite (proj2 (Z.ltb_lt _ _) Hf), (proj2 (Z.ltb_lt _ _) Hg).
Qed.

(** ** Scoped reports *)

(** The text of the Helm collector is not shown. *)
Definition gapConfined (g : CapabilityGap) : Prop :=
  g_Capability g = CapHelm -> g_Skipped g = [] /\ (g_Reason g = ""%string \/ g_Reason g = withheldGapReason).

Lemma scopeGaps_confined sc gaps : fleet sc = false -> Forall gapConfined (scopeGaps sc gaps).
Proof.
  intros Hf. apply Forall_forall. intros g Hg. unfold scopeGaps in Hg.
  apply list_elem_of_In, in_map_iff in Hg as (g0 & <- & _). unfold gapConfined, withholds. rewrite Hf. simpl.
  destruct (g_Capability g0 =s CapHelm) eqn:E; simpl; intros Hc.
  - split; [done|]. unfold withheldIfSet. case_match; auto.
  - to_prop. congruence.
Qed.

(** A gap is shown as required or not as it was. *)
Lemma scopeGaps_required sc gaps : existsb g_Required (scopeGaps sc gaps) = existsb g_Required gaps.
Proof. induction gaps as [|g gaps IH]; [done|]. simpl. rewrite IH. by destruct (withholds sc (g_Capability g)). Qed.

Lemma cut_key k f : f_Key (cut k f).1 = f_Key f /\ f_Category (cut k f).1 = f_Category f /\ f_Severity (cut k f).1 = f_Severity f.
Proof. unfold cut. by case_match. Qed.

Lemma scopeFindings_spec sc fs ns f :
  fleet sc = false -> f ∈ scopeFindings sc fs ns ->
  exists g, g ∈ fs /\ owns sc (f_Teams g) = true /\ f_Key f = f_Key g /\ f_Severity f = f_Severity g /\
    confined (clusterKeep sc ns) f.
Proof.
  intros Hf Hin. unfold scopeFindings in Hin. rewrite Hf in Hin.
  apply list_elem_of_In, in_map_iff in Hin as (g & <- & Hg). apply filter_In in Hg as [Hg Ho].
  exists g. destruct (cut_key (clusterKeep sc ns) g) as (? & _ & ?).
  split_and!; [by apply list_elem_of_In|done..|apply cut_confines].
Qed.

Lemma scopeSuppressed_spec sc fs k mine sf :
  sf ∈ scopeSuppressed sc fs k mine ->
  exists sg, sg ∈ fs /\ (mine (sf_Finding sg) = true \/ owns sc (f_Teams (sf_Finding sg)) = true) /\
    sf = set_Finding (cut k (sf_Finding sg)).1 sg /\ confined k (sf_Finding sf) /\
    (f_Objects (sf_Finding sg) <> [] -> f_Objects (sf_Finding sf) <> []).
Proof.
  intros Hin. unfold scopeSuppressed in Hin. apply list_elem_of_omap in Hin as (sg & Hg & He). exists sg.
  destruct (negb (mine (sf_Finding sg)) && negb (owns sc (f_Teams (sf_Finding sg)))) eqn:E1; [done|].
  case_match eqn:E2; [done|]. injection He as <-. split_and!; [done| |done|apply cut_confines|].
  - apply andb_false_iff in E1 as [E1|E1]; to_prop; auto.
  - intros Hne Hnil. simpl in Hnil. rewrite Hnil in E2. destruct (f_Objects (sf_Finding sg)); done.
Qed.

(** A team-scoped read of a report shows the scope's own findings and
    nothing of another team's: every finding shown is one the scope owns,
    under its own key and severity, and names only the scope's teams, their
    namespaces and the objects in them; so does every suppressed finding,
    whose accepted objects are the scope's; no unrecognized image and none
    of the Helm collector's words are shown; and the team scores are of the
    scope's teams. No finding the scope owns is left out. *)
Lemma scopeReport_confined (sc : readScope) (rep : Report) (ns : gmap string string) :
  fleet sc = false -> hasTeam sc "" = false ->
  let r := scopeReport sc rep ns in
  (forall f, f ∈ r_Findings r -> exists g, g ∈ r_Findings rep /\ owns sc (f_Teams g) = true /\
     f_Key f = f_Key g /\ f_Severity f = f_Severity g /\ confined (clusterKeep sc ns) f) /\
  (forall sf, sf ∈ r_Suppressed r -> exists sg, sg ∈ r_Suppressed rep /\ owns sc (f_Teams (sf_Finding sg)) = true /\
     confined (clusterKeep sc ns) (sf_Finding sf) /\
     (f_Objects (sf_Finding sg) <> [] -> f_Objects (sf_Finding sf) <> [])) /\
  r_UnrecognizedImages r = [] /\ r_UnrecognizedImagesOmitted r = 0 /\ Forall gapConfined (r_NotAssessed r) /\
  (forall t ts, renderedTeams sc rep !! t = Some ts -> hasTeam sc t = true) /\
  (forall g, g ∈ r_Findings rep -> owns sc (f_Teams g) = true -> exists f, f ∈ r_Findings r /\ f_Key f = f_Key g).
Proof.
  intros Hf He r. unfold r, scopeReport. rewrite Hf. cbn. refine (conj _ (conj _ (conj _ (conj _ (conj _ (conj _ _)))))).
  - intros f Hin. by apply scopeFindings_spec.
  - intros sf (sg & Hg & [Hm|Ho] & -> & Hc & Hn)%scopeSuppressed_spec; [done|]. eauto.
  - done.
  - done.
  - by apply scopeGaps_confined.
  - intros t ts. unfold renderedTeams, scopeTeamScores, renderTeamScores. rewrite Hf.
    rewrite (proj2 (map_lookup_filter_None _ _ _)) by (right; intros ts' _; simpl; congruence).
    intros [_ Ht]%map_lookup_filter_Some. done.
  - intros g Hg Ho. exists (cut (clusterKeep sc ns) g).1. destruct (cut_key (clusterKeep sc ns) g) as (? & _).
    split; [|done]. unfold scopeFindings. rewrite Hf. apply list_elem_of_In, in_map_iff. exists g.
    split; [done|]. apply filter_In. split; [by apply list_elem_of_In|done].
Qed.

(** Two teams share a removed API; the read is for one of them. *)
Definition ref (ns name : string) : ObjectRef := mkObjectRef ns name "" 0 "" "" "" "" false false.

Definition sharedFinding : Finding :=
  set_Objects [ref "billing" "b1"; ref "shop" "s1"] 0
    (set_Where ["billing"; "shop"]%string ["billing"; "shop"]%string false
       (newFinding CatRemovedAPI SevBlocker "removed-api/batch/v1beta1/CronJob" "CronJob is removed (2 objects)" "d" [])).

Definition sharedReport : Report :=
  mkReport "c" (mkVersion 1 30) "v1.29.0" "" "" "kb" 75 false VerdictBlocked [sharedFinding]
    [mkGap CapHelm "release shop/cart could not be read" true ["shop/cart"%string] false] None []
    ["registry/shop/cart"%string] 0 0 [].

Definition billingScope : readScope := scopeOfTeams ["billing"%string].
Definition twoTeams : gmap string string := {[ "billing"%string := "billing"%string; "shop"%string := "shop"%string ]}.

Lemma scopeReport_confined_witness :
  r_Findings (scopeReport billingScope sharedReport twoTeams) <> [] /\
  Forall (confined (clusterKeep billingScope twoTeams)) (r_Findings (scopeReport billingScope sharedReport twoTeams)).
Proof.
  split; [vm_compute; done|]. apply Forall_forall. intros f Hf.
  destruct (proj1 (scopeReport_confined billingScope sharedReport twoTeams eq_refl eq_refl) f Hf) as (g & _ & _ & _ & _ & H).
  exact H.
Defined.

(** ** Shares *)

(** Two lists that differ only in elements of which the scope has no share
    ([foreign]) and in what the others hold of other teams ([alike]). *)
Inductive indist {A} (foreign : A -> Prop) (alike : A -> A -> Prop) : list A -> list A -> Prop :=
| indist_nil : indist foreign alike [] []
| indist_cons x y l m : alike x y -> indist foreign alike l m -> indist foreign alike (x :: l) (y :: m)
| indist_left x l m : foreign x -> indist foreign alike l m -> indist foreign alike (x :: l) m
| indist_right y l m : foreign y -> indist foreign alike l m -> indist foreign alike l (y :: m).

Lemma indist_omap {A B} (foreign : A -> Prop) (alike : A -> A -> Prop) (f g : A -> option B) l m :
  (forall x, foreign x -> f x = None /\ g x = None) -> (forall x y, alike x y -> f x = g y) ->
  indist foreign alike l m -> omap f l = omap g m.
Proof.
  intros Hf Ha. induction 1 as [|x y l m Hxy _ IH|x l m Hx _ IH|y l m Hy _ IH]; [done|..]; csimpl.
  - by rewrite (Ha x y Hxy), IH.
  - by rewrite (proj1 (Hf x Hx)).
  - by rewrite (proj2 (Hf y Hy)).
Qed.

Section Share.
Context (keeps : string -> bool).

(** Counts that agree on the scope's namespaces, and counts with none. *)
Definition sameCounts (m n : gmap string Z) : Prop := forall ns, keeps ns = true -> m !! ns = n !! ns.
Definition noCounts (m : gmap string Z) : Prop := forall ns, keeps ns = true -> m !! ns = None.

Lemma shareCounts_same m n : sameCounts m n -> shareCounts keeps m = shareCounts keeps n.
Proof.
  intros Hs. apply map_eq. intros ns. unfold shareCounts.
  destruct (keeps ns) eqn:E.
  - specialize (Hs ns E). destruct (m !! ns) as [z|] eqn:Em.
    + destruct (decide (keeps ns && (0 <? z) = true)) as [Hz|Hz].
      * rewrite (proj2 (map_lookup_filter_Some _ _ _ _)) by done.
        symmetry. apply map_lookup_filter_Some. by rewrite <- Hs.
      * rewrite (proj2 (map_lookup_filter_None _ _ _)) by (right; intros z' Hz'; simpl in *; congruence).
        symmetry. apply map_lookup_filter_None. right. intros z' Hz'. simpl. congruence.
    + rewrite (proj2 (map_lookup_filter_None _ _ _)) by (by left).
      symmetry. apply map_lookup_filter_None. left. congruence.
  - rewrite !(proj2 (map_lookup_filter_None _ _ _)); [done|right; intros z _; simpl; by rewrite E..].
Qed.

Lemma shareCounts_none m : noCounts m -> shareCounts keeps m = ∅.
Proof.
  intros Hn. apply map_eq. intros ns. rewrite lookup_empty. apply map_lookup_filter_None.
  destruct (keeps ns) eqn:E; [left; by apply Hn|right; intros z _; simpl; by rewrite E].
Qed.

Definition foreignUsage (u : APIUsage) : Prop := noCounts (u_Namespaces u).
Definition alikeUsage (u v : APIUsage) : Prop :=
  u_Group u = u_Group v /\ u_Version u = u_Version v /\ u_Kind u = u_Kind v /\
  sameCounts (u_Namespaces u) (u_Namespaces v) /\
  shareObjects keeps (u_Objects u) = shareObjects keeps (u_Objects v).

Lemma usageShare_indist us vs : indist foreignUsage alikeUsage us vs -> usageShare keeps us = usageShare keeps vs.
Proof.
  apply indist_omap.
  - intros u Hu. rewrite (shareCounts_none _ Hu). done.
  - intros u v (Hg & Hv & Hk & Hc & Ho). by rewrite Hg, Hv, Hk, (shareCounts_same _ _ Hc), Ho.
Qed.

Definition foreignVolume (u : VolumePluginUse) : Prop := noCounts (vu_Namespaces u).
Definition alikeVolume (u v : VolumePluginUse) : Prop :=
  vu_Plugin u = vu_Plugin v /\ sameCounts (vu_Namespaces u) (vu_Namespaces v) /\
  shareObjects keeps (vu_Objects u) = shareObjects keeps (vu_Objects v).

Lemma volumeShare_indist us vs : indist foreignVolume alikeVolume us vs -> volumeShare keeps us = volumeShare keeps vs.
Proof.
  apply indist_omap.
  - intros u Hu. rewrite (shareCounts_none _ Hu). done.
  - intros u v (Hp & Hc & Ho). by rewrite Hp, (shareCounts_same _ _ Hc), Ho.
Qed.

Definition foreignAddOn (a : AddOnInstance) : Prop := Forall (fun ns => keeps ns = false) (ai_Namespaces a).
Definition alikeAddOn (a b : AddOnInstance) : Prop :=
  ai_ID a = ai_ID b /\ ai_Version a = ai_Version b /\ ai_ChartVersion a = ai_ChartVersion b /\ ai_Source a = ai_Source b /\
  List.filter keeps (ai_Namespaces a) = List.filter keeps (ai_Namespaces b).

Lemma addOnShare_indist l m : indist foreignAddOn alikeAddOn l m -> addOnShare keeps l = addOnShare keeps m.
Proof.
  apply indist_omap.
  - intros a Ha. assert (Hn : List.filter keeps (ai_Namespaces a) = []).
    { induction Ha as [|n l' Hn _ IH]; [done|]. simpl. by rewrite Hn. }
    by rewrite Hn.
  - intros a b (H1 & H2 & H3 & H4 & H5). by rewrite H1, H2, H3, H4, H5.
Qed.

(** Custom resource definitions are the cluster's; only what uses them is
    a team's. *)
Definition alikeCRD (c d : CRD) : Prop :=
  crd_Group c = crd_Group d /\ crd_Kind c = crd_Kind d /\ crd_Plural c = crd_Plural d /\
  crd_Versions c = crd_Versions d /\ crd_StoredVersions c = crd_StoredVersions d /\
  indist foreignUsage alikeUsage (crd_Usage c) (crd_Usage d).
End Share.

(** Two inventories that describe the same cluster and the same evidence in
    the scope's namespaces. What is in other namespaces, belongs to no
    namespace, or was read from the apiserver's metrics may differ. *)
Record sameForScope (sc : readScope) (a b : Inventory) : Prop := {
  ss_identity : SchemaVersion a = SchemaVersion b /\ ClusterID a = ClusterID b /\ CollectorSchema a = CollectorSchema b /\
                Source a = Source b /\ CollectedAt a = CollectedAt b;
  ss_cluster : ServerVersion a = ServerVersion b /\ Provider a = Provider b /\ Capabilities a = Capabilities b /\
               Nodes a = Nodes b /\ ControlPlane a = ControlPlane b /\ APIServerStartTime a = APIServerStartTime b /\
               AddOnEvidenceAgeSeconds a = AddOnEvidenceAgeSeconds b;
  ss_owned : forall ns, ownsNS sc a ns = ownsNS sc b ns;
  ss_namespaces : indist (fun n => ownsNS sc a (ns_Name n) = false) eq (Namespaces a) (Namespaces b);
  ss_usage : indist (foreignUsage (ownsNS sc a)) (alikeUsage (ownsNS sc a)) (APIUsages a) (APIUsages b);
  ss_unknown : indist (foreignUsage (ownsNS sc a)) (alikeUsage (ownsNS sc a)) (APIAuthorshipUnknown a) (APIAuthorshipUnknown b);
  ss_releases : indist (fun r => ownsNS sc a (h_Namespace r) = false) eq (HelmReleases a) (HelmReleases b);
  ss_charts : indist (fun c => ownsNS sc a (g_Namespace c) = false) eq (GitOpsCharts a) (GitOpsCharts b);
  ss_addons : indist (foreignAddOn (ownsNS sc a)) (alikeAddOn (ownsNS sc a)) (AddOns a) (AddOns b);
  ss_crds : Forall2 (alikeCRD (ownsNS sc a)) (CRDs a) (CRDs b);
  ss_volumes : indist (foreignVolume (ownsNS sc a)) (alikeVolume (ownsNS sc a)) (VolumePlugins a) (VolumePlugins b);
}.

Lemma Lfilter_omap {A} (p : A -> bool) l : List.filter p l = omap (fun x => if p x then Some x else None) l.
Proof. induction l as [|x l IH]; [done|]. csimpl. destruct (p x); by rewrite <- IH. Qed.

Lemma indist_filter {A} (p q : A -> bool) (foreign : A -> Prop) l m :
  (forall x, foreign x -> p x = false) -> (forall x, p x = q x) -> indist foreign eq l m ->
  List.filter p l = List.filter q m.
Proof.
  intros Hf Hp Hi. rewrite !Lfilter_omap. eapply indist_omap; [| |exact Hi].
  - intros x Hx. by rewrite <- !Hp, (Hf x Hx).
  - intros x y ->. by rewrite Hp.
Qed.

Lemma omap_ext_eq {A B} (f g : A -> option B) (l : list A) : (forall x, f x = g x) -> omap f l = omap g l.
Proof. intros He. induction l as [|x l IH]; [done|]. csimpl. by rewrite He, IH. Qed.

(** A share reads its predicate only. *)
Lemma shareCounts_ext keeps keeps' m : (forall ns, keeps ns = keeps' ns) -> shareCounts keeps m = shareCounts keeps' m.
Proof. intros He. apply map_filter_ext. intros ns n _. simpl. by rewrite He. Qed.

Lemma shareObjects_ext keeps keeps' os : (forall ns, keeps ns = keeps' ns) -> shareObjects keeps os = shareObjects keeps' os.
Proof. intros He. apply filter_ext. auto. Qed.

Lemma usageShare_ext keeps keeps' us : (forall ns, keeps ns = keeps' ns) -> usageShare keeps us = usageShare keeps' us.
Proof.
  intros He. unfold usageShare. apply omap_ext_eq. intros u.
  by rewrite (shareCounts_ext _ _ _ He), (shareObjects_ext _ _ _ He).
Qed.

Lemma volumeShare_ext keeps keeps' us : (forall ns, keeps ns = keeps' ns) -> volumeShare keeps us = volumeShare keeps' us.
Proof.
  intros He. unfold volumeShare. apply omap_ext_eq. intros u.
  by rewrite (shareCounts_ext _ _ _ He), (shareObjects_ext _ _ _ He).
Qed.

Lemma addOnShare_ext keeps keeps' l : (forall ns, keeps ns = keeps' ns) -> addOnShare keeps l = addOnShare keeps' l.
Proof.
  intros He. unfold addOnShare. apply omap_ext_eq. intros a.
  by rewrite (filter_ext _ _ He).
Qed.

(** The share of a team scope depends on nothing outside its namespaces. *)
Lemma clusterShare_indist (sc : readScope) (a b : Inventory) :
  fleet sc = false -> sameForScope sc a b -> clusterShare sc a = clusterShare sc b.
Proof.
  intros Hf [(H1 & H2 & H3 & H4 & H5) (H6 & H7 & H8 & H9 & H10 & H11 & H12) Ho Hn Hu Hun Hr Hc Ha Hd Hv].
  unfold clusterShare. rewrite Hf. rewrite H1, H2, H3, H4, H5, H6, H7, H8, H9, H10, H11, H12.
  set (ka := ownsNS sc a) in *. set (kb := ownsNS sc b) in *. f_equal.
  - rewrite (usageShare_indist _ _ _ Hu). by apply usageShare_ext.
  - eapply indist_filter; [|by auto|exact Hr]. auto.
  - eapply indist_filter; [| |exact Hc].
    + intros c Hx. by rewrite Hx.
    + intros c. by rewrite !Ho.
  - rewrite (addOnShare_indist _ _ _ Ha). by apply addOnShare_ext.
  - eapply indist_filter; [|by auto|exact Hn]. auto.
  - induction Hd as [|c d cs ds (E1 & E2 & E3 & E4 & E5 & E6) _ IH]; [done|]. cbn [map]. rewrite IH. f_equal.
    unfold with_Usage. rewrite E1, E2, E3, E4, E5. f_equal. rewrite (usageShare_indist _ _ _ E6). by apply usageShare_ext.
  - rewrite (usageShare_indist _ _ _ Hun). by apply usageShare_ext.
  - rewrite (volumeShare_indist _ _ _ Hv). by apply volumeShare_ext.
Qed.

(** What a team-scoped gate judges of a cluster does not depend on the
    other teams: two clusters that are the same as clusters and in the
    scope's namespaces have the same share, whatever their other
    namespaces, releases, add-ons, API usage, volumes, callers and images
    are. So no answer computed from the share can tell them apart. *)
Lemma clusterShare_noninterference (sc : readScope) (a b : Inventory) :
  fleet sc = false -> sameForScope sc a b -> clusterShare sc a = clusterShare sc b.
Proof. apply clusterShare_indist. Qed.

(** The shop's release, its CronJobs and its in-tree volume differ. *)
Definition cronJobs (counts : gmap string Z) (os : list ObjectRef) : APIUsage :=
  mkAPIUsage "batch" "v1beta1" "CronJob" 0 counts os 0.

Definition shopInventory (usage : list APIUsage) (releases : list HelmRelease) (calls : list DeprecatedCall) : Inventory :=
  mkInventory 1 "c" 1 SourceCluster 0 "v1.29.4" "" ∅ usage calls releases [] [] [] []
    [mkNamespaceInfo "billing" "billing"; mkNamespaceInfo "shop" "shop"] [] 0 [] [] 0 0 [].

Definition shopRelease : HelmRelease := mkHelmRelease "cart" "shop" "cart" "1.0.0" "" "" "deployed" 1 [].

Definition shopBefore : Inventory :=
  shopInventory [cronJobs {[ "billing"%string := 1; "shop"%string := 7 ]} [ref "billing" "b1"]]
    [shopRelease] [mkDeprecatedCall "batch" "v1beta1" "cronjobs" "" "1.25"].
Definition shopAfter : Inventory :=
  shopInventory [cronJobs {[ "shop"%string := 2 ]} [ref "shop" "s2"];
    cronJobs {[ "billing"%string := 1 ]} [ref "billing" "b1"; ref "shop" "s1"]] [] [].

Lemma shop_same : sameForScope billingScope shopBefore shopAfter.
Proof.
  assert (Hb : forall inv ns, Namespaces inv = [mkNamespaceInfo "billing" "billing"; mkNamespaceInfo "shop" "shop"] ->
    ownsNS billingScope inv ns = true -> ns = "billing"%string).
  { intros inv ns Hns. unfold ownsNS, inScopeNS, namespaceTeamsOf. rewrite Hns. cbn [foldl ns_Name ns_Team].
    destruct (decide (ns = "shop")) as [->|Hs]; [by rewrite lookup_insert_eq|]. rewrite lookup_insert_ne by congruence.
    destruct (decide (ns = "billing")) as [->|Hx]; [done|]. rewrite lookup_insert_ne by congruence.
    rewrite lookup_empty. by rewrite andb_false_r. }
  split; cbn [shopBefore shopAfter shopInventory SchemaVersion ClusterID CollectorSchema Source CollectedAt ServerVersion Provider Capabilities
    Nodes ControlPlane APIServerStartTime AddOnEvidenceAgeSeconds Namespaces APIUsages APIAuthorshipUnknown HelmReleases
    GitOpsCharts AddOns CRDs VolumePlugins]; try by repeat split.
  - repeat constructor.
  - apply indist_right; [intros ns Hns; apply Hb in Hns as ->; done|].
    apply indist_cons; [|constructor]. repeat split.
    intros ns Hns. apply Hb in Hns as ->; done.
  - constructor.
  - apply indist_left; [vm_compute; reflexivity|constructor].
  - constructor.
  - constructor.
  - constructor.
Qed.

Lemma clusterShare_noninterference_witness : clusterShare billingScope shopBefore = clusterShare billingScope shopAfter.
Proof. apply (clusterShare_noninterference billingScope); [reflexivity|apply shop_same]. Defined.

(** ** What a share keeps *)

Lemma foldl_wrap_sum (l : list (string * Z)) acc :
  0 <= acc -> Forall (fun p => 0 < p.2) l -> acc + sumZ (map snd l) <= maxInt ->
  foldl (fun c p => wrap64 (c + p.2)) acc l = acc + sumZ (map snd l).
Proof.
  revert acc. induction l as [|p l IH]; intros acc Ha Hl Hm; simpl in *; [lia|].
  apply Forall_cons in Hl as [Hp Hl].
  assert (Hs : 0 <= sumZ (map snd l)).
  { clear -Hl. induction Hl as [|q l Hq _ IH]; simpl; lia. }
  rewrite wrap64_id by (unfold in_int64, minInt; lia). rewrite IH; [lia|lia|done|lia].
Qed.

(** The count of a share is the sum of the scope's counts, when it fits. *)
Lemma shareSum_exact keeps m :
  sumZ (map snd (map_to_list (shareCounts keeps m))) <= maxInt ->
  shareSum (shareCounts keeps m) = sumZ (map snd (map_to_list (shareCounts keeps m))).
Proof.
  intros Hm. unfold shareSum. rewrite foldl_wrap_sum; [lia|lia| |lia].
  apply Forall_forall. intros [ns z] Hin. apply elem_of_map_to_list, map_lookup_filter_Some in Hin as [_ Hz].
  simpl in *. to_prop. lia.
Qed.

Lemma sumZ_elem (l : list (string * Z)) p : Forall (fun p => 0 < p.2) l -> p ∈ l -> 0 < p.2 <= sumZ (map snd l).
Proof.
  induction 1 as [|q l Hq Hl IH]; [by intros ?%elem_of_nil|].
  assert (Hs : 0 <= sumZ (map snd l)) by (clear -Hl; induction Hl; simpl; lia).
  intros [->|Hin]%elem_of_cons; simpl; [lia|]. specialize (IH Hin). lia.
Qed.

(** Evidence in a namespace of the scope stays in its share: the row, the
    count of the namespace, and the objects listed there. *)
Lemma usageShare_keeps keeps us u ns n :
  u ∈ us -> keeps ns = true -> u_Namespaces u !! ns = Some n -> 0 < n ->
  sumZ (map snd (map_to_list (shareCounts keeps (u_Namespaces u)))) <= maxInt ->
  exists v, v ∈ usageShare keeps us /\ u_Group v = u_Group u /\ u_Version v = u_Version u /\ u_Kind v = u_Kind u /\
    u_Namespaces v !! ns = Some n /\ n <= u_Count v /\
    (forall o, o ∈ u_Objects u -> keeps (o_Namespace o) = true -> o ∈ u_Objects v).
Proof.
  intros Hu Hk Hn Hpos Hm. pose proof (shareSum_exact keeps (u_Namespaces u) Hm) as Hs.
  assert (Hc : shareCounts keeps (u_Namespaces u) !! ns = Some n).
  { apply map_lookup_filter_Some. split; [done|]. simpl. rewrite Hk. by apply Z.ltb_lt. }
  assert (Hle : 0 < n <= shareSum (shareCounts keeps (u_Namespaces u))).
  { rewrite Hs. apply (sumZ_elem _ (ns, n)); [|by apply elem_of_map_to_list].
    apply Forall_forall. intros [ns' z] Hin. apply elem_of_map_to_list, map_lookup_filter_Some in Hin as [_ Hz].
    simpl in *. to_prop. lia. }
  eexists. split.
  - apply list_elem_of_omap. exists u. split; [done|]. cbv beta zeta. rewrite (proj2 (Z.eqb_neq _ _)) by lia. reflexivity.
  - cbn. split_and!; try done; [lia|]. intros o Ho Hko. by apply elem_of_Lfilter.
Qed.

(** Nothing else does. *)
Lemma usageShare_confined keeps us v :
  v ∈ usageShare keeps us ->
  (forall ns n, u_Namespaces v !! ns = Some n -> keeps ns = true /\ 0 < n) /\
  Forall (fun o => keeps (o_Namespace o) = true) (u_Objects v).
Proof.
  intros (u & _ & Hv)%list_elem_of_omap. cbv beta zeta in Hv. case_match; [done|]. injection Hv as <-. cbn. split.
  - intros ns n [_ Hn]%map_lookup_filter_Some. simpl in Hn. to_prop. auto.
  - apply Lfilter_Forall.
Qed.
