(* ===== verification/Tokens.v ===== *)
(** * Secret files and the server's tokens (internal/secretfile/secretfile.go,
    internal/server/tokens.go)

    A secret is read from a file and follows it. What the filesystem answers
    to a stat and to a read is an input of each look at the file. The
    server's three bearer tokens are such secrets, or fixed strings; their
    reloads run concurrently under one lock. *)

From stdpp Require Import base list strings gmap.
From Stdlib Require Import ZArith Lia Ascii.
From S2P Require Import Prelude GoStr GoTime.

(** ** A secret file *)

Definition DefaultCheckInterval : Z := 5 * second.
Definition MaxSize : Z := 65536.

(** [os.FileInfo]: which file it is, when it was written, and its size. *)
Record FileInfo := mkFileInfo { fi_ID : Z; fi_ModTime : Time; fi_Size : Z }.

Definition sameFile (a b : FileInfo) : bool :=
  (fi_ID a =? fi_ID b) && (fi_ModTime a =? fi_ModTime b) && (fi_Size a =? fi_Size b).

Inductive statAnswer := StatInfo (st : FileInfo) | StatNotExist (msg : string) | StatFailed (msg : string).

(** What opening the file and reading at most [MaxSize] bytes and one more
    gives. *)
Inductive readAnswer := ReadBytes (raw : string) | ReadFailed (msg : string).

Record File := mkFile {
  sf_path : string;
  sf_interval : Z;
  sf_optional : bool;
  sf_removalClears : bool;
  sf_value : string;
  sf_next : Time;
  sf_stamp : option FileInfo;
  sf_failure : string;
}.

Definition set_state (value : string) (stamp : option FileInfo) (failure : string) (f : File) : File :=
  mkFile (sf_path f) (sf_interval f) (sf_optional f) (sf_removalClears f) value (sf_next f) stamp failure.

Definition set_next (next : Time) (f : File) : File :=
  mkFile (sf_path f) (sf_interval f) (sf_optional f) (sf_removalClears f) (sf_value f) next (sf_stamp f) (sf_failure f).

(** Why a file's contents are not taken; only [EmptyFile] wraps [errEmpty]. *)
Inductive readError := EmptyFile (msg : string) | OtherError (msg : string).

Definition errorText (e : readError) : string := match e with EmptyFile m | OtherError m => m end.
Definition isEmptyError (e : readError) : bool := match e with EmptyFile _ => true | OtherError _ => false end.

(** [File.read]; [validate] returns the text of a refusal. *)
Definition read (validate : string -> option string) (path : string) (a : readAnswer) : string + readError :=
  match a with
  | ReadFailed msg => inr (OtherError msg)
  | ReadBytes raw =>
      if MaxSize <? slen raw then
        inr (OtherError (path +:+ " is larger than " +:+ itoa MaxSize +:+ " bytes"))
      else
        let v := TrimSpace raw in
        if v =s "" then inr (EmptyFile (path +:+ " is empty"))
        else match validate v with
             | Some why => inr (OtherError (path +:+ ": " +:+ why))
             | None => inl v
             end
  end.

(** [Open]: [None] for the error is success. *)
Definition Open (path : string) (optional removalClears : bool) (interval : Z) (validate : string -> option string)
    (now : Time) (st : statAnswer) (a : readAnswer) : File + readError :=
  let f := mkFile path interval optional removalClears "" (now + interval) None "" in
  match st with
  | StatNotExist msg => if optional then inl f else inr (OtherError msg)
  | StatFailed msg => inr (OtherError msg)
  | StatInfo st =>
      match read validate path a with
      | inl v => inl (set_state v (Some st) "" f)
      | inr e => if negb (optional && isEmptyError e) then inr e else inl (set_state "" (Some st) "" f)
      end
  end.

Definition Current (f : File) : string := sf_value f.

(** [File.fail], with the line it logs; lines are marked an error or not. *)
Definition fail (msg : string) (f : File) : File * list (bool * string) :=
  if msg =s sf_failure f then (f, [])
  else (set_state (sf_value f) (sf_stamp f) msg f,
        [(true, "secretfile: " +:+ msg +:+ "; keeping the previous value")]).

(** What a look at the file decides, before it is carried out. *)
Inductive reload := Unchanged | Cleared | Failed_ (msg : string) | Reloaded (st : FileInfo) (v : string).

(** [reloadIfChanged], up to its assignments. *)
Definition decideReload (validate : string -> option string) (f : File) (st : statAnswer) (a : readAnswer) : reload :=
  match st with
  | StatNotExist msg =>
      if sf_optional f && bool_decide (sf_stamp f = None) then Unchanged
      else if sf_removalClears f && negb (bool_decide (sf_stamp f = None)) then Cleared
      else Failed_ msg
  | StatFailed msg => Failed_ msg
  | StatInfo st =>
      if match sf_stamp f with Some s => sameFile st s | None => false end then Unchanged
      else match read validate (sf_path f) a with
           | inr e => Failed_ (errorText e)
           | inl v => Reloaded st v
           end
  end.

(** Its assignments and the line it logs. *)
Definition applyReload (d : reload) (f : File) : File * list (bool * string) :=
  match d with
  | Unchanged => (f, [])
  | Cleared => (set_state "" None "" f, [(false, "secretfile: " +:+ sf_path f +:+ " was removed: its value is no longer in service")])
  | Failed_ msg => fail msg f
  | Reloaded st v => (set_state v (Some st) "" f, [(false, "secretfile: " +:+ sf_path f +:+ " reloaded")])
  end.

Definition reloadIfChanged (validate : string -> option string) (f : File) (st : statAnswer) (a : readAnswer)
    : File * list (bool * string) :=
  applyReload (decideReload validate f st a) f.

(** [File.Value], for a caller that gets both locks or does not. *)
Definition Value (validate : string -> option string) (now : Time) (locked : bool) (st : statAnswer) (a : readAnswer)
    (f : File) : string * File :=
  if (sf_next f <=? now) && locked then
    let f := (reloadIfChanged validate (set_next (now + sf_interval f) f) st a).1 in (sf_value f, f)
  else (sf_value f, f).

(** ** The server's tokens *)

(** [tokenSource]: a fixed string, or a file. *)
Record tokenSource := mkTokenSource { ts_fixed : string; ts_file : option File }.

(** [tokenSource.current]. *)
Definition current (t : tokenSource) : string :=
  match ts_file t with Some f => Current f | None => ts_fixed t end.

Record tokenSources := mkTokenSources { ts_in : tokenSource; ts_rd : tokenSource; ts_ad : tokenSource }.

Definition errReadIsIngest : string := "Config.ReadToken must differ from Config.IngestToken: every agent's push token would read the whole fleet, and every reader could push as any cluster".
Definition errAdminIsRead : string := "Config.AdminToken must differ from Config.ReadToken: whoever reads must not be able to delete or rename clusters".
Definition errAdminIsIngest : string := "Config.AdminToken must differ from Config.IngestToken: whoever pushes must not be able to delete or rename clusters".

(** Which of the three. *)
Inductive role := RIngest | RRead | RAdmin.

#[global] Instance role_eq_dec : EqDecision role.
Proof. solve_decision. Defined.

Definition sourceOf (r : role) (ts : tokenSources) : tokenSource :=
  match r with RIngest => ts_in ts | RRead => ts_rd ts | RAdmin => ts_ad ts end.

Definition set_source (r : role) (t : tokenSource) (ts : tokenSources) : tokenSources :=
  match r with
  | RIngest => mkTokenSources t (ts_rd ts) (ts_ad ts)
  | RRead => mkTokenSources (ts_in ts) t (ts_ad ts)
  | RAdmin => mkTokenSources (ts_in ts) (ts_rd ts) t
  end.

(** The validators of [newTokenSources]. *)
Definition validateToken (r : role) (ts : tokenSources) (v : string) : option string :=
  match r with
  | RIngest => if v =s current (ts_rd ts) then Some errReadIsIngest
               else if v =s current (ts_ad ts) then Some errAdminIsIngest else None
  | RRead => if v =s current (ts_in ts) then Some errReadIsIngest
             else if v =s current (ts_ad ts) then Some errAdminIsRead else None
  | RAdmin => if v =s current (ts_in ts) then Some errAdminIsIngest
              else if v =s current (ts_rd ts) then Some errAdminIsRead else None
  end.

(** The configuration [newTokenSources] reads. *)
Record tokenConfig := mkTokenConfig {
  tc_IngestToken : string; tc_ReadToken : string; tc_AdminToken : string;
  tc_IngestTokenFile : string; tc_ReadTokenFile : string; tc_AdminTokenFile : string;
  tc_IngestTokenFileOptional : bool;
}.

(** The filesystem's answers while one file is opened. *)
Definition answers : Type := statAnswer * readAnswer.

(** One of the three [if cfg.…TokenFile != ""] blocks. *)
Definition openSource (r : role) (path : string) (optional : bool) (interval : Z) (now : Time) (what : string) (a : answers)
    (ts : tokenSources) : tokenSources + string :=
  if path =s "" then inl ts
  else match Open path optional optional interval (validateToken r ts) now a.1 a.2 with
       | inr e => inr ("server: " +:+ what +:+ " token file: " +:+ errorText e)
       | inl f => inl (set_source r (mkTokenSource (ts_fixed (sourceOf r ts)) (Some f)) ts)
       end.

Definition checkDistinct (ts : tokenSources) : option string :=
  let i := current (ts_in ts) in let r := current (ts_rd ts) in let a := current (ts_ad ts) in
  if negb (r =s "") && (r =s i) then Some errReadIsIngest
  else if negb (a =s "") && (a =s r) then Some errAdminIsRead
  else if negb (a =s "") && (a =s i) then Some errAdminIsIngest
  else None.

Definition newTokenSources (cfg : tokenConfig) (interval : Z) (now : Time) (ain ard aad : answers) : tokenSources + string :=
  let plain s := mkTokenSource s None in
  let ts := mkTokenSources (plain (tc_IngestToken cfg)) (plain (tc_ReadToken cfg)) (plain (tc_AdminToken cfg)) in
  match openSource RIngest (tc_IngestTokenFile cfg) (tc_IngestTokenFileOptional cfg) interval now "ingest" ain ts with
  | inr e => inr e
  | inl ts =>
      match openSource RRead (tc_ReadTokenFile cfg) false interval now "read" ard ts with
      | inr e => inr e
      | inl ts =>
          match openSource RAdmin (tc_AdminTokenFile cfg) false interval now "admin" aad ts with
          | inr e => inr e
          | inl ts => match checkDistinct ts with Some e => inr e | None => inl ts end
          end
      end
  end.

(** ** Reloads under the shared lock

    A reload holds the group's lock from before its stat to after its
    assignments: another request for any of the tokens finds the lock taken
    and answers with the value in service. What holds the lock is part of
    the state, with what it has decided. *)

Inductive phase := Idle | Locked (r : role) | Decided (r : role) (d : reload).

Record tokenState := mkTokenState { tk_sources : tokenSources; tk_phase : phase }.

Definition updateFile (r : role) (g : File -> File) (ts : tokenSources) : tokenSources :=
  match ts_file (sourceOf r ts) with
  | None => ts
  | Some f => set_source r (mkTokenSource (ts_fixed (sourceOf r ts)) (Some (g f))) ts
  end.

Inductive tokenStep : tokenState -> tokenState -> Prop :=
| step_lock r f now ts :
    ts_file (sourceOf r ts) = Some f -> sf_next f <= now ->
    tokenStep (mkTokenState ts Idle)
              (mkTokenState (updateFile r (fun f => set_next (now + sf_interval f) f) ts) (Locked r))
| step_decide r f st a ts :
    ts_file (sourceOf r ts) = Some f ->
    tokenStep (mkTokenState ts (Locked r)) (mkTokenState ts (Decided r (decideReload (validateToken r ts) f st a)))
| step_commit r d ts :
    tokenStep (mkTokenState ts (Decided r d))
              (mkTokenState (updateFile r (fun f => (applyReload d f).1) ts) Idle).

(** ** The tokens stay apart *)

(** No two tokens in service are the same; one that is not set matches
    nothing. *)
Definition distinct (ts : tokenSources) : Prop :=
  forall r r', r <> r' -> current (sourceOf r ts) <> ""%string -> current (sourceOf r ts) <> current (sourceOf r' ts).

(** A file that is required has a token in service. *)
Definition inService (ts : tokenSources) : Prop :=
  forall r f, ts_file (sourceOf r ts) = Some f -> sf_optional f = false -> sf_removalClears f = false /\ sf_value f <> ""%string.

(** What a reload in progress has decided will keep them so. *)
Definition phaseOk (s : tokenState) : Prop :=
  match tk_phase s with
  | Idle => True
  | Locked r => exists f, ts_file (sourceOf r (tk_sources s)) = Some f
  | Decided r d =>
      (exists f, ts_file (sourceOf r (tk_sources s)) = Some f /\ (d = Cleared -> sf_removalClears f = true)) /\
      match d with
      | Reloaded _ v => v <> ""%string /\ forall r', r' <> r -> v <> current (sourceOf r' (tk_sources s))
      | _ => True
      end
  end.

Record tokensOk (s : tokenState) : Prop := {
  ok_distinct : distinct (tk_sources s);
  ok_service : inService (tk_sources s);
  ok_phase : phaseOk s;
}.

Lemma sourceOf_set r r' t ts : sourceOf r' (set_source r t ts) = if decide (r' = r) then t else sourceOf r' ts.
Proof. by destruct r, r'. Qed.

Lemma read_valid validate path a v : read validate path a = inl v -> v <> ""%string /\ validate v = None.
Proof.
  unfold read. destruct a as [raw|]; [|done]. case_match; [done|]. destruct (TrimSpace raw =s "") eqn:E; [done|].
  destruct (validate (TrimSpace raw)) eqn:Ev; [done|]. intros [= <-]. split; [by apply String.eqb_neq|done].
Qed.

(** A value a validator accepts is no other token. *)
Lemma validateToken_apart r ts v r' :
  validateToken r ts v = None -> r' <> r -> v <> current (sourceOf r' ts).
Proof.
  destruct r, r'; simpl; try done; intros Hv _; repeat case_match; try done; by apply String.eqb_neq.
Qed.

Lemma decideReload_ok r ts f st a :
  match decideReload (validateToken r ts) f st a with
  | Reloaded _ v => v <> ""%string /\ forall r', r' <> r -> v <> current (sourceOf r' ts)
  | Cleared => sf_removalClears f = true
  | _ => True
  end.
Proof.
  unfold decideReload. destruct st as [st|msg|msg]; [| |done].
  2: { destruct (sf_optional f && _); [done|]. destruct (sf_removalClears f); [by destruct (bool_decide _)|done]. }
  destruct (match sf_stamp f with Some s => sameFile st s | None => false end); [done|].
  destruct (read _ _ a) as [v|e] eqn:E; [|done].
  apply read_valid in E as [Hn Hv]. split; [done|]. intros r'. by apply validateToken_apart.
Qed.

Lemma updateFile_other r r' g ts : r' <> r -> sourceOf r' (updateFile r g ts) = sourceOf r' ts.
Proof. intros Hr. unfold updateFile. case_match; [|done]. rewrite sourceOf_set. by case_decide. Qed.

Lemma updateFile_same r g ts f :
  ts_file (sourceOf r ts) = Some f ->
  sourceOf r (updateFile r g ts) = mkTokenSource (ts_fixed (sourceOf r ts)) (Some (g f)).
Proof. intros Hf. unfold updateFile. rewrite Hf, sourceOf_set. by case_decide. Qed.

(** Replacing one token by one that is apart from the others, or by none. *)
Lemma distinct_update r g ts f :
  ts_file (sourceOf r ts) = Some f -> distinct ts ->
  sf_value (g f) = ""%string \/ sf_value (g f) = sf_value f \/
    (forall r', r' <> r -> sf_value (g f) <> current (sourceOf r' ts)) ->
  distinct (updateFile r g ts).
Proof.
  intros Hf Hd Hg. assert (Hold : current (sourceOf r ts) = sf_value f) by (unfold current; by rewrite Hf).
  assert (Hnew : current (sourceOf r (updateFile r g ts)) = sf_value (g f)).
  { unfold current. by rewrite (updateFile_same _ _ _ _ Hf). }
  intros r1 r2 Hne. destruct (decide (r1 = r)) as [->|H1], (decide (r2 = r)) as [->|H2]; [done|..].
  - rewrite Hnew, updateFile_other by done. intros Hv. destruct Hg as [Hg|[Hg|Hg]]; [done| |by apply Hg].
    rewrite Hg, <- Hold in *. by apply Hd.
  - rewrite Hnew, updateFile_other by done. intros Hv. destruct Hg as [Hg|[Hg|Hg]]; [congruence| |].
    + rewrite Hg, <- Hold. by apply Hd.
    + intros He. by apply (Hg r1).
  - rewrite !updateFile_other by done. by apply Hd.
Qed.

Lemma inService_update r g ts f :
  ts_file (sourceOf r ts) = Some f -> inService ts ->
  sf_optional (g f) = sf_optional f -> sf_removalClears (g f) = sf_removalClears f ->
  (sf_optional f = false -> sf_removalClears f = false -> sf_value f <> ""%string -> sf_value (g f) <> ""%string) ->
  inService (updateFile r g ts).
Proof.
  intros Hf Hs Ho Hc Hv r' f'. destruct (decide (r' = r)) as [->|Hr].
  - rewrite (updateFile_same _ _ _ _ Hf). simpl. intros [= <-] Hopt. rewrite Ho in Hopt. rewrite Hc.
    destruct (Hs r f Hf Hopt). auto.
  - rewrite updateFile_other by done. apply Hs.
Qed.

Lemma applyReload_flags d f : sf_optional (applyReload d f).1 = sf_optional f /\ sf_removalClears (applyReload d f).1 = sf_removalClears f.
Proof. destruct d; simpl; try done. unfold fail. by case_match. Qed.

Lemma applyReload_value d f :
  sf_value (applyReload d f).1 =
  match d with Cleared => ""%string | Reloaded _ v => v | _ => sf_value f end.
Proof. destruct d; simpl; try done. unfold fail. by case_match. Qed.

Lemma tokenStep_ok s s' : tokenStep s s' -> tokensOk s -> tokensOk s'.
Proof.
  intros Hstep [Hd Hs Hp]. destruct Hstep as [r f now ts Hf Hn|r f st a ts Hf|r d ts]; simpl in *.
  - split; simpl.
    + apply (distinct_update r _ ts f Hf Hd). right. by left.
    + by apply (inService_update r _ ts f Hf Hs).
    + unfold phaseOk. simpl. eexists. by rewrite (updateFile_same _ _ _ _ Hf).
  - split; simpl; [done..|]. unfold phaseOk. simpl. pose proof (decideReload_ok r ts f st a) as Hok.
    split; [exists f; split; [done|]|].
    + intros He. by rewrite He in Hok.
    + by case_match.
  - unfold phaseOk in Hp. simpl in Hp. destruct Hp as [(f & Hf & Hc) Hv].
    destruct (applyReload_flags d f) as [Ho Hcl]. pose proof (applyReload_value d f) as Hval. split; simpl; [..|done].
    + apply (distinct_update r _ ts f Hf Hd). rewrite Hval. destruct d; auto. right. right. by apply Hv.
    + apply (inService_update r _ ts f Hf Hs Ho Hcl). intros H1 H2 H3. rewrite Hval.
      destruct d; try done; [rewrite Hc in H2 by done; done|by apply Hv].
Qed.

Lemma openSource_service r path optional interval now what a ts ts' :
  openSource r path optional interval now what a ts = inl ts' -> inService ts -> inService ts'.
Proof.
  unfold openSource. intros Ho Hs. case_match; [by injection Ho as <-|].
  destruct (Open path optional optional interval (validateToken r ts) now a.1 a.2) as [f|] eqn:E; [|done].
  injection Ho as <-. intros r' f'. rewrite sourceOf_set. case_decide; [|apply Hs]. simpl. intros [= <-] Hopt.
  unfold Open in E. destruct a.1 as [st|msg|msg]; simpl in E; [|destruct optional; [|done]; by injection E as <-|done].
  destruct (read _ path a.2) as [v|e] eqn:Er.
  - injection E as <-. simpl in *. subst optional. split; [done|]. by apply read_valid in Er as [? _].
  - destruct optional; simpl in E; [|done]. destruct (isEmptyError e); [|done]. by injection E as <-.
Qed.

Lemma newTokenSources_ok cfg interval now ain ard aad ts :
  newTokenSources cfg interval now ain ard aad = inl ts -> tokensOk (mkTokenState ts Idle).
Proof.
  unfold newTokenSources. intros Hn.
  destruct (openSource RIngest _ _ _ _ _ _ _) as [t1|] eqn:E1; [|done].
  destruct (openSource RRead _ _ _ _ _ _ _) as [t2|] eqn:E2; [|done].
  destruct (openSource RAdmin _ _ _ _ _ _ _) as [t3|] eqn:E3; [|done].
  destruct (checkDistinct t3) eqn:Ec; [done|]. injection Hn as <-. split; simpl; [| |done].
  - unfold checkDistinct in Ec. intros [] [] Hr; simpl; try done; intros Hne He;
      repeat (case_match; [done|]); rewrite ?He in *; to_prop;
      repeat match goal with H : _ && _ = false |- _ => apply andb_false_iff in H as [H|H]; to_prop end; congruence.
  - eapply openSource_service, openSource_service, openSource_service; eauto. by intros [] f.
Qed.

(** However the token files change and however the reloads of the three
    tokens interleave with the requests that read them, no two of the ingest,
    read and admin tokens in service are ever equal, and a token whose file
    is required is never lost: an empty, unreadable, oversized or refused
    file leaves the previous one in service. *)
Lemma tokens_stay_apart (cfg : tokenConfig) (interval : Z) (now : Time) (ain ard aad : answers) (ts : tokenSources)
    (s : tokenState) :
  newTokenSources cfg interval now ain ard aad = inl ts ->
  rtc tokenStep (mkTokenState ts Idle) s ->
  distinct (tk_sources s) /\ inService (tk_sources s).
Proof.
  intros Hn Hr. assert (Hok : tokensOk s); [|by destruct Hok].
  apply newTokenSources_ok in Hn. revert Hn. induction Hr as [|s1 s2 s3 Hs _ IH]; [done|]. eauto using tokenStep_ok.
Qed.

Lemma read_ext validate validate' path a :
  (forall v, validate v = validate' v) -> read validate path a = read validate' path a.
Proof. intros Hv. unfold read. destruct a; [|done]. by rewrite Hv. Qed.

(** A request that gets the locks runs the three steps. *)
Lemma Value_steps r f now st a ts :
  ts_file (sourceOf r ts) = Some f -> sf_next f <= now ->
  let validate := validateToken r ts in
  let f' := (Value validate now true st a f).2 in
  rtc tokenStep (mkTokenState ts Idle) (mkTokenState (updateFile r (fun _ => f') ts) Idle).
Proof.
  intros Hf Hn validate f'. set (ts1 := updateFile r (fun f => set_next (now + sf_interval f) f) ts).
  assert (Hf1 : ts_file (sourceOf r ts1) = Some (set_next (now + sf_interval f) f)).
  { unfold ts1. by rewrite (updateFile_same _ _ _ _ Hf). }
  assert (Hv : forall v, validateToken r ts1 v = validateToken r ts v).
  { intros v. unfold ts1. destruct r; simpl; unfold updateFile; rewrite Hf; done. }
  eapply rtc_l; [by apply (step_lock r f now)|]. fold ts1.
  eapply rtc_l; [by apply (step_decide r _ st a ts1 Hf1)|]. eapply rtc_l; [apply step_commit|].
  assert (Hd : decideReload (validateToken r ts1) (set_next (now + sf_interval f) f) st a =
               decideReload validate (set_next (now + sf_interval f) f) st a).
  { unfold decideReload. destruct st; try done. by rewrite (read_ext _ validate _ _ Hv). }
  rewrite Hd. replace (updateFile r _ ts1) with (updateFile r (fun _ => f') ts); [apply rtc_refl|].
  unfold f', Value. rewrite (proj2 (Z.leb_le _ _) Hn). unfold ts1, updateFile. rewrite Hf.
  destruct r; simpl; done.
Qed.

(** A read token rotated to the ingest token's value is refused. *)
Definition tokenCfg : tokenConfig := mkTokenConfig "push" "" "root" "" "/secrets/read" "" false.
Definition firstRead : answers := (StatInfo (mkFileInfo 1 0 5), ReadBytes "see-it").

Lemma tokens_stay_apart_witness :
  exists ts s, newTokenSources tokenCfg DefaultCheckInterval 0 firstRead firstRead firstRead = inl ts /\
    rtc tokenStep (mkTokenState ts Idle) s /\ tk_sources s <> ts /\ distinct (tk_sources s) /\ inService (tk_sources s).
Proof.
  eexists _, _. split; [vm_compute; reflexivity|].
  match goal with |- rtc _ ?s0 _ /\ _ => assert (Hr : rtc tokenStep s0 (mkTokenState (updateFile RRead (fun _ =>
    (Value (validateToken RRead (tk_sources s0)) (6 * second) true (StatInfo (mkFileInfo 2 9 4)) (ReadBytes "push")
      (default (mkFile "" 0 false false "" 0 None "") (ts_file (ts_rd (tk_sources s0))))).2) (tk_sources s0)) Idle)) end.
  { eapply Value_steps; [reflexivity|]. vm_compute. discriminate. }
  split; [exact Hr|]. split; [vm_compute; discriminate|].
  refine (tokens_stay_apart tokenCfg DefaultCheckInterval 0 firstRead firstRead firstRead _ _ _ Hr). vm_compute. reflexivity.
Defined.
