(* ===== verification/GoNet.v ===== *)
(** * Addresses and URL segments (net/netip and net/url, as the server uses
    them)

    The parse of a peer address, prefixes, and the escaping of a path
    segment, on byte strings. *)

From stdpp Require Import base list strings.
From Stdlib Require Import ZArith Lia Ascii.
From S2P Require Import Prelude GoStr.

(** ** netip *)

(** [netip.Addr]: an IPv4 address as its 32 bits, an IPv6 one as its 128
    bits and its zone. *)
Inductive Addr := Addr4 (bits : Z) | Addr6 (bits : Z) (zone : string).

Definition Is4 (a : Addr) : bool := match a with Addr4 _ => true | Addr6 _ _ => false end.

(** [Addr.Unmap]: an IPv4 address mapped into IPv6 is the IPv4 one. *)
Definition Unmap (a : Addr) : Addr :=
  match a with
  | Addr6 b _ => if Z.shiftr b 32 =? 0xffff then Addr4 (Z.land b 0xffffffff) else a
  | Addr4 _ => a
  end.

Record Prefix := mkPrefix { px_Addr : Addr; px_Bits : Z }.

(** [Prefix.Contains] of a valid prefix: the first bits agree. *)
Definition prefixContains (p : Prefix) (a : Addr) : bool :=
  match px_Addr p, a with
  | Addr4 n, Addr4 b => Z.shiftr (Z.lxor n b) (32 - px_Bits p) =? 0
  | Addr6 n _, Addr6 b zone => (zone =s "") && (Z.shiftr (Z.lxor n b) (128 - px_Bits p) =? 0)
  | _, _ => false
  end.

(** An octet: digits without a leading zero, at most 255. *)
Definition octet (s : string) : option Z :=
  if (s =s "") || negb (all_digits s) then None
  else if HasPrefix s "0" && negb (s =s "0") then None
  else if 3 <? slen s then None
  else let v := digits_val 0 s in if 255 <? v then None else Some v.

(** [parseIPv4Fields]. *)
Definition parseIPv4Fields (s : string) : option Z :=
  match mapM octet (Split s ".") with
  | Some [a; b; c; d] => Some (((a * 256 + b) * 256 + c) * 256 + d)
  | _ => None
  end.

Definition hexDigit (a : ascii) : option Z :=
  let n := Z.of_N (N_of_ascii a) in
  if (48 <=? n) && (n <=? 57) then Some (n - 48)
  else if (97 <=? n) && (n <=? 102) then Some (n - 87)
  else if (65 <=? n) && (n <=? 70) then Some (n - 55)
  else None.

(** The hexadecimal digits at the start of [s]: how many, their value, and
    the rest. *)
Fixpoint hexRun (acc : Z) (n : Z) (s : string) : Z * Z * string :=
  match s with
  | String a s' => match hexDigit a with Some d => hexRun (acc * 16 + d) (n + 1) s' | None => (n, acc, s) end
  | ""%string => (n, acc, s)
  end.

(** The loop of [parseIPv6]: the 16-bit groups read so far, and the number
    of them before the ellipsis. [Some] of the groups and the ellipsis once
    the string is used up. Each round adds a group, so eight are enough. *)
Fixpoint ipv6Groups (fuel : nat) (groups : list Z) (ellipsis : option nat) (s : string)
    : option (list Z * option nat) :=
  match fuel with
  | O => None (* all groups read: trailing text *)
  | S fuel' =>
      let '(n, acc, rest) := hexRun 0 0 s in
      if (n =? 0) || (4 <? n) then None
      else match rest with
      | String "." _ =>
          if match ellipsis with None => negb (Nat.eqb (length groups) 6) | Some _ => false end then None
          else if Nat.ltb 6 (length groups) then None
          else match parseIPv4Fields s with
               | Some v => Some (groups ++ [v / 65536; v mod 65536], ellipsis)
               | None => None
               end
      | ""%string => Some (groups ++ [acc], ellipsis)
      | String ":" ""%string => None
      | String ":" (String ":" rest') =>
          match ellipsis with
          | Some _ => None
          | None =>
              let groups := groups ++ [acc] in
              if rest' =s "" then Some (groups, Some (length groups))
              else ipv6Groups fuel' groups (Some (length groups)) rest'
          end
      | String ":" rest' => ipv6Groups fuel' (groups ++ [acc]) ellipsis rest'
      | _ => None
      end
  end.

Definition bits128 (groups : list Z) : Z := foldl (fun v g => v * 65536 + g) 0 groups.

(** The groups with the ellipsis expanded. *)
Definition expand (groups : list Z) (ellipsis : option nat) : option (list Z) :=
  let n := length groups in
  if Nat.ltb n 8 then
    match ellipsis with
    | None => None
    | Some e => Some (take e groups ++ replicate (8 - n) 0 ++ drop e groups)
    end
  else match ellipsis with None => Some groups | Some _ => None end.

Definition parseIPv6 (s : string) : option Addr :=
  let '(s, zone, zoned) := Cut s "%" in
  if zoned && (zone =s "") then None else
  match CutPrefix s "::" with
  | Some ""%string => Some (Addr6 0 zone)
  | Some s =>
      match ipv6Groups 8 [] (Some 0%nat) s with
      | Some (gs, e) => (fun gs => Addr6 (bits128 gs) zone) <$> expand gs e
      | None => None
      end
  | None =>
      match ipv6Groups 8 [] None s with
      | Some (gs, e) => (fun gs => Addr6 (bits128 gs) zone) <$> expand gs e
      | None => None
      end
  end.

(** [ParseAddr]: the first dot, colon or percent sign decides. *)
Fixpoint addrKind (s : string) : option ascii :=
  match s with
  | ""%string => None
  | String a s' => if Ascii.eqb a "." || Ascii.eqb a ":" || Ascii.eqb a "%" then Some a else addrKind s'
  end.

Definition ParseAddr (s : string) : option Addr :=
  match addrKind s with
  | Some "."%char => Addr4 <$> parseIPv4Fields s
  | Some ":"%char => parseIPv6 s
  | _ => None
  end.

(** [ParseAddrPort], without the port. *)
Definition ParseAddrPort (s : string) : option Addr :=
  match cut_last s ":" with
  | None => None
  | Some (ip, port) =>
      if (ip =s "") || (port =s "") || negb (all_digits port) || (65535 <? digits_val 0 port) then None
      else match CutPrefix ip "[" with
           | Some inner =>
               match CutSuffix inner "]" with
               | None => None
               | Some ip => match ParseAddr ip with Some (Addr6 _ _ as a) => Some a | _ => None end
               end
           | None => match ParseAddr ip with Some (Addr4 _ as a) => Some a | _ => None end
           end
  end.

(** ** net/url: a path segment *)

Definition is_alnum (a : ascii) : bool :=
  ascii_between "a" "z" a || ascii_between "A" "Z" a || ascii_between "0" "9" a.

(** [shouldEscape(c, encodePathSegment)]. *)
Definition shouldEscape (a : ascii) : bool :=
  negb (is_alnum a || existsb (Ascii.eqb a) ["-"; "_"; "."; "~"; "$"; "&"; "+"; ":"; "="; "@"]%char).

Definition upperhex (n : Z) : ascii :=
  if n <? 10 then ascii_of_N (Z.to_N (n + 48)) else ascii_of_N (Z.to_N (n + 55)).

Definition escapeByte (a : ascii) : string :=
  if shouldEscape a then
    let n := Z.of_N (N_of_ascii a) in String "%" (String (upperhex (n / 16)) (String (upperhex (n mod 16)) ""))
  else String a "".

Fixpoint PathEscape (s : string) : string :=
  match s with
  | ""%string => ""%string
  | String a s' => escapeByte a +:+ PathEscape s'
  end.

(** [url.PathUnescape]; [None] is an [EscapeError]. *)
Fixpoint PathUnescape (s : string) : option string :=
  match s with
  | ""%string => Some ""%string
  | String "%" (String a (String b s')) =>
      match hexDigit a, hexDigit b with
      | Some x, Some y => String (ascii_of_N (Z.to_N (x * 16 + y))) <$> PathUnescape s'
      | _, _ => None
      end
  | String "%" _ => None
  | String a s' => String a <$> PathUnescape s'
  end.

(** [strings.Trim(s, " \t")]. *)
Definition is_blank (a : ascii) : bool := Ascii.eqb a " " || Ascii.eqb a "009".

Fixpoint trimLeft (s : string) : string :=
  match s with
  | String a s' => if is_blank a then trimLeft s' else s
  | ""%string => ""%string
  end.

Fixpoint trimRight (s : string) : string :=
  match s with
  | ""%string => ""%string
  | String a s' => match trimRight s' with
                   | ""%string => if is_blank a then ""%string else String a ""
                   | t => String a t
                   end
  end.

Definition TrimBlank (s : string) : string := trimRight (trimLeft s).

(** ** Examples *)

Example parse_v4 : ParseAddrPort "10.0.3.7:41234" = Some (Addr4 (10 * 2 ^ 24 + 3 * 256 + 7)).
Proof. reflexivity. Qed.
Example parse_mapped : Unmap <$> ParseAddrPort "[::ffff:10.0.3.7]:80" = Some (Addr4 (10 * 2 ^ 24 + 3 * 256 + 7)).
Proof. reflexivity. Qed.
Example parse_v6 : ParseAddrPort "[fd00::1:2%eth0]:80" = Some (Addr6 (0xfd00 * 2 ^ 112 + 0x10002) "eth0").
Proof. reflexivity. Qed.
Example parse_refused : map ParseAddrPort ["10.0.3.7"; "10.0.03.7:80"; "::1:80"; "[10.0.3.7]:80"; "[1::2::3]:80"; "host:80"]%string =
  [None; None; None; None; None; None].
Proof. reflexivity. Qed.
Example in_prefix : prefixContains (mkPrefix (Addr4 (10 * 2 ^ 24)) 8) (Addr4 (10 * 2 ^ 24 + 775)) = true.
Proof. reflexivity. Qed.
