(* ===== verification/Auth.v ===== *)
(** * Authorizing a read (internal/server/scope.go, teammap.go)

    Who may read what: bearer tokens, the trusted proxy's team header, and
    the read API that is open until a read token is minted. *)

From stdpp Require Import base list strings gmap.
From Stdlib Require Import ZArith Lia Ascii Sorted.
From S2P Require Import Prelude GoStr GoTime GoNet Version Inventory KB Findings GoUtf8 Glob Admit Heads Notify Db Store StoreInv Prune StoreSpec Passes Scope.

(** ** The team list encoding *)

Definition encodeTeams (teams : list string) : string := Join (map PathEscape teams) ",".

Definition decodeTeam (e : string) : option string :=
  let e := TrimBlank e in
  if e =s "" then None
  else match PathUnescape e with
       | Some t => if t =s "" then None else Some t
       | None => None
       end.

Definition decodeTeams (v : string) : list string := omap decodeTeam (Split v ",").

(** ** Requests and configuration *)

(** What authorization reads of a request. [rq_Values] is
    [r.Header.Values]. *)
Record Request := mkRequest {
  rq_Authorization : string;
  rq_Values : string -> list string;
  rq_RemoteAddr : string;
}.

(** [strings.EqualFold] with "Bearer ", whose letters fold within ASCII. *)
Definition bearerToken (r : Request) : string :=
  let h := rq_Authorization r in
  if (slen h <=? 7) || negb (ToLower (takeBytes 7 h) =s "bearer ") then "" else dropBytes 7 h.

Record authConfig := mkAuthConfig {
  ac_RequireReadCredential : bool;
  ac_TrustTeamHeader : string;
  ac_TrustedProxies : list Prefix;
}.

(** [readTokensMinted], [openSeen] and [openAt]. *)
Record openState := mkOpenState { os_minted : bool; os_seen : bool; os_at : Time }.

(** What one request finds: the two tokens in service, the database as its
    two queries see it, whether either fails, and the clock. *)
Record authEnv := mkAuthEnv {
  ae_read : string;
  ae_admin : string;
  ae_tokenDB : SQLite;
  ae_tokenErr : bool;
  ae_listDB : SQLite;
  ae_listErr : bool;
  ae_now : Time;
}.

Record httpError := mkHTTPError { he_status : Z; he_msg : string }.

Definition internalError : httpError := mkHTTPError 500 "internal error".
Definition unauthorized : httpError := mkHTTPError 401 "invalid or missing bearer token".

(** ** The decision *)

Definition equalToken (presented configured : string) : bool := negb (configured =s "") && (presented =s configured).

Definition trustedPeer (cfg : authConfig) (remoteAddr : string) : bool :=
  match ParseAddrPort remoteAddr with
  | None => false
  | Some a => existsb (fun p => prefixContains p (Unmap a)) (ac_TrustedProxies cfg)
  end.

Definition proxyScope (cfg : authConfig) (r : Request) : option readScope :=
  if (ac_TrustTeamHeader cfg =s "") || negb (trustedPeer cfg (rq_RemoteAddr r)) then None
  else
    let teams := concat (map decodeTeams (rq_Values r (ac_TrustTeamHeader cfg))) in
    if zlen teams =? 0 then None else Some (mkScope (Some (list_to_set teams))).

Definition readOpenWindow : Z := second.

(** [readOpen]; [toks] is what the store would answer, [None] its error. *)
Definition readOpen (cfg : authConfig) (readToken : string) (now : Time) (toks : option (list ReadToken)) (st : openState)
    : option bool * openState :=
  if ac_RequireReadCredential cfg || negb (readToken =s "") || negb (ac_TrustTeamHeader cfg =s "") || os_minted st
  then (Some false, st)
  else
    let age := now - os_at st in
    if os_seen st && (0 <=? age) && (age <? readOpenWindow) then (Some true, st)
    else match toks with
         | None => (None, st)
         | Some toks =>
             if 0 <? zlen toks then (Some false, mkOpenState true false (os_at st))
             else (Some true, mkOpenState (os_minted st) true now)
         end.

Definition readScopeOf (cfg : authConfig) (env : authEnv) (r : Request) (st : openState)
    : (readScope + httpError) * openState :=
  let token := bearerToken r in
  let after : (readScope + httpError) * openState :=
    match proxyScope cfg r with
    | Some sc => (inl sc, st)
    | None =>
        if negb (token =s "") then (inr unauthorized, st)
        else match readOpen cfg (ae_read env) (ae_now env)
                     (if ae_listErr env then None else Some (ListReadTokens (ae_listDB env))) st with
             | (None, st) => (inr internalError, st)
             | (Some true, st) => (inl fleetScope, st)
             | (Some false, st) => (inr unauthorized, st)
             end
    end in
  if negb (token =s "") then
    if equalToken token (ae_read env) || equalToken token (ae_admin env) then (inl fleetScope, st)
    else if ae_tokenErr env then (inr internalError, st)
    else match ValidReadToken token (ae_tokenDB env) with
         | Some teams => (inl (scopeOfTeams teams), st)
         | None => after
         end
  else after.

(** ** The answer's headers *)

(** What [readAuth] sets before the handler runs, with the scope it runs
    with; an error is written instead. *)
Definition readAuth (cfg : authConfig) (env : authEnv) (r : Request) (st : openState)
    : list (string * string) * (readScope + httpError) * openState :=
  let vary := if ac_TrustTeamHeader cfg =s "" then []
              else [("Vary"%string, ac_TrustTeamHeader cfg); ("Vary"%string, "Authorization"%string)] in
  match readScopeOf cfg env r st with
  | (inr e, st) => (vary, inr e, st)
  | (inl sc, st) =>
      (vary ++ (if fleet sc then []
                else [(scopeHeader, encodeTeams (names sc)); ("Cache-Control"%string, "private, no-store"%string)]),
       inl sc, st)
  end.

(** [fleetOnly]: [None] runs the handler. *)
Definition fleetOnly (sc : readScope) : option httpError :=
  if negb (fleet sc) then Some (mkHTTPError 403 "this endpoint names every cluster: it needs a fleet-wide read credential")
  else None.

(** ** The clusters of a scope *)

Definition scopeClusters (teamMapHash : string) (sc : readScope) (db : SQLite) : option (gset Z) :=
  if fleet sc then None else Some (list_to_set (ClustersOfTeams (names sc) teamMapHash db)).

Definition inScope (teamMapHash : string) (sc : readScope) (id : Z) (db : SQLite) : bool :=
  match scopeClusters teamMapHash sc db with None => true | Some ids => bool_decide (id ∈ ids) end.

(** ** The team map *)

Definition StarTeam : string := "(*)".

(** The loop of [ParseTeamMap] over the decoded rules. *)
Fixpoint checkRules (i : Z) (rules : list TeamMapRule) : res (list TeamMapRule) :=
  match rules with
  | [] => Ok []
  | r :: rules' =>
      let n := itoa (i + 1) in
      if tm_Pattern r =s "" then Err ("team map rule " +:+ n +:+ ": pattern is required")
      else if tm_Team r =s "" then
        Err ("team map rule " +:+ n +:+ " (" +:+ quote (tm_Pattern r) +:+ "): team is required")
      else if tm_Team r =s UnattributedTeam then
        Err ("team map rule " +:+ n +:+ " (" +:+ quote (tm_Pattern r) +:+ "): the team name " +:+ quote UnattributedTeam +:+
             " is reserved for findings no team owns; pick another name")
      else
        let r' := if tm_Team r =s ReadScopeFleet then mkTeamMapRule (tm_Pattern r) StarTeam else r in
        match Match (tm_Pattern r) "" with
        | None => Err ("team map rule " +:+ n +:+ ": invalid glob " +:+ quote (tm_Pattern r) +:+ ": syntax error in pattern")
        | Some _ => match checkRules (i + 1) rules' with Ok rs => Ok (r' :: rs) | Err e => Err e end
        end
  end.

Definition ParseTeamMap (rules : list TeamMapRule) : res (list TeamMapRule) := checkRules 0 rules.

(** ** The encoding reads back *)

(** A byte of an encoded name: no comma, and no blank a list may have
    around its entries. *)
Definition safeByte (a : ascii) : Prop := Ascii.eqb a "," = false /\ is_blank a = false.

Lemma escapeByte_safe a : all_bytes safeByte (escapeByte a).
Proof. unfold safeByte. by destruct a as [[] [] [] [] [] [] [] []]; vm_compute. Qed.

Lemma escapeByte_unescape a s : PathUnescape (escapeByte a +:+ s) = String a <$> PathUnescape s.
Proof. by destruct a as [[] [] [] [] [] [] [] []]. Qed.

Lemma PathEscape_safe s : all_bytes safeByte (PathEscape s).
Proof. induction s as [|a s IH]; [done|]. cbn [PathEscape]. apply all_bytes_app. split; [apply escapeByte_safe|done]. Qed.

Lemma PathUnescape_escape s : PathUnescape (PathEscape s) = Some s.
Proof. induction s as [|a s IH]; [done|]. cbn [PathEscape]. by rewrite escapeByte_unescape, IH. Qed.

Lemma PathEscape_nonempty s : s <> ""%string -> PathEscape s <> ""%string.
Proof. intros Hs He. pose proof (PathUnescape_escape s) as Hu. rewrite He in Hu. simpl in Hu. congruence. Qed.

Lemma trimLeft_safe s : all_bytes safeByte s -> trimLeft s = s.
Proof. destruct s as [|a s]; [done|]. intros [[_ Hb] _]. simpl. by rewrite Hb. Qed.

Lemma trimRight_safe s : all_bytes safeByte s -> trimRight s = s.
Proof.
  induction s as [|a s IH]; [done|]. intros [[_ Hb] Hs]. cbn [trimRight]. rewrite (IH Hs), Hb. by destruct s.
Qed.

Lemma TrimBlank_safe s : all_bytes safeByte s -> TrimBlank s = s.
Proof. intros Hs. unfold TrimBlank. by rewrite trimLeft_safe, trimRight_safe. Qed.

Lemma safe_no_comma s : all_bytes safeByte s -> no_byte "," s.
Proof.
  unfold no_byte. induction s as [|a s IH]; [done|]. intros [[Hc _] Hs]. specialize (IH Hs).
  cbn [cut_opt HasPrefix]. rewrite Ascii.eqb_sym, Hc. cbn [andb]. by rewrite IH.
Qed.

Lemma decodeTeam_escape t : t <> ""%string -> decodeTeam (PathEscape t) = Some t.
Proof.
  intros Ht. unfold decodeTeam. rewrite (TrimBlank_safe _ (PathEscape_safe t)), PathUnescape_escape.
  rewrite (proj2 (String.eqb_neq _ _) (PathEscape_nonempty t Ht)). by rewrite (proj2 (String.eqb_neq _ _) Ht).
Qed.

(** The team list of the scope header and of a proxy's header reads back
    as it was written: any names, with commas, spaces, percent signs or
    bytes outside ASCII in them, are the names the other side decodes, in
    order. *)
Lemma decodeTeams_encodeTeams (teams : list string) :
  Forall (fun t => t <> ""%string) teams -> decodeTeams (encodeTeams teams) = teams.
Proof.
  unfold decodeTeams, encodeTeams. induction 1 as [|t teams Ht Hts IH]; [done|].
  destruct teams as [|u teams].
  - cbn [map Join]. rewrite Split_no_byte by apply safe_no_comma, PathEscape_safe. csimpl. by rewrite decodeTeam_escape.
  - change (Join (map PathEscape (t :: u :: teams)) ",") with
      (PathEscape t +:+ String "," (Join (map PathEscape (u :: teams)) ",")).
    rewrite Split_app by apply safe_no_comma, PathEscape_safe. csimpl. rewrite decodeTeam_escape by done.
    f_equal. exact IH.
Qed.

Lemma decodeTeams_encodeTeams_witness :
  decodeTeams (encodeTeams ["Platform Team"; "50%off, Paris"; bytes [195; 137; 113]%N]%string) =
    ["Platform Team"; "50%off, Paris"; bytes [195; 137; 113]%N]%string.
Proof. apply decodeTeams_encodeTeams. repeat constructor; discriminate. Defined.

(** A decoded list names no team "". *)
Lemma decodeTeams_nonempty v t : t ∈ decodeTeams v -> t <> ""%string.
Proof.
  unfold decodeTeams. intros (e & _ & He)%list_elem_of_omap. unfold decodeTeam in He.
  repeat (case_match; try done). injection He as <-. by apply String.eqb_neq.
Qed.

(** ** Who reads what *)

(** An active read token of the presented credential. *)
Definition activeToken (db : SQLite) (token : string) (teams : list string) : Prop :=
  exists row, row ∈ t_rows (read_tokens db) /\ rr_hash row = HashToken token /\
    rt_RevokedAt (rr_token row) = None /\ rt_Teams (rr_token row) = teams.

Lemma ValidReadToken_active token db teams : ValidReadToken token db = Some teams -> activeToken db token teams.
Proof.
  unfold ValidReadToken. destruct (head _) as [row|] eqn:E; [|done]. intros [= <-].
  apply head_Some_elem_of, elem_of_select in E as [Hp Hin]. exists row. unfold hasReadHash, activeRead in Hp.
  apply andb_true_iff in Hp as [Hh Hr]. to_prop.
  split_and!; [done|done| |done]. destruct (rt_RevokedAt (rr_token row)); [|done].
  apply bool_decide_eq_false in Hr. by destruct Hr.
Qed.

(** Why a request may read the whole fleet. *)
Inductive readsFleet (cfg : authConfig) (env : authEnv) (r : Request) (st : openState) : Prop :=
| by_configured : bearerToken r <> ""%string -> bearerToken r = ae_read env \/ bearerToken r = ae_admin env ->
    readsFleet cfg env r st
| by_fleet_token teams : bearerToken r <> ""%string -> activeToken (ae_tokenDB env) (bearerToken r) teams ->
    ReadScopeFleet ∈ teams -> readsFleet cfg env r st
| by_open_api : bearerToken r = ""%string -> ac_RequireReadCredential cfg = false -> ae_read env = ""%string ->
    ac_TrustTeamHeader cfg = ""%string -> os_minted st = false ->
    (os_seen st = true /\ 0 <= ae_now env - os_at st < readOpenWindow) \/ ListReadTokens (ae_listDB env) = [] ->
    readsFleet cfg env r st.

(** Why it may read as some teams. *)
Inductive readsTeams (cfg : authConfig) (env : authEnv) (r : Request) (sc : readScope) : Prop :=
| by_team_token teams : activeToken (ae_tokenDB env) (bearerToken r) teams -> ReadScopeFleet ∉ teams ->
    (forall t, hasTeam sc t = true <-> t ∈ teams /\ t <> ""%string) -> readsTeams cfg env r sc
| by_proxy a p : ac_TrustTeamHeader cfg <> ""%string -> ParseAddrPort (rq_RemoteAddr r) = Some a ->
    p ∈ ac_TrustedProxies cfg -> prefixContains p (Unmap a) = true ->
    (forall t, hasTeam sc t = true <->
       exists v, v ∈ rq_Values r (ac_TrustTeamHeader cfg) /\ t ∈ decodeTeams v) -> readsTeams cfg env r sc.

Lemma scopeOfTeams_spec teams :
  (fleet (scopeOfTeams teams) = true <-> ReadScopeFleet ∈ teams) /\
  (ReadScopeFleet ∉ teams -> forall t, hasTeam (scopeOfTeams teams) t = true <-> t ∈ teams /\ t <> ""%string).
Proof.
  unfold scopeOfTeams. destruct (mem_str ReadScopeFleet teams) eqn:E.
  - apply mem_str_spec in E. split; [done|]. done.
  - assert (Hn : ReadScopeFleet ∉ teams) by (rewrite <- mem_str_spec; congruence). split; [by split|]. intros _ t.
    unfold hasTeam. simpl. rewrite bool_decide_eq_true, elem_of_list_to_set, list_elem_of_In, filter_In.
    rewrite <- list_elem_of_In, negb_true_iff, String.eqb_neq. done.
Qed.

Lemma proxyScope_spec cfg r sc :
  proxyScope cfg r = Some sc -> fleet sc = false /\ hasTeam sc "" = false /\ forall env, readsTeams cfg env r sc.
Proof.
  unfold proxyScope. intros Hp. case_match eqn:E; [done|]. apply orb_false_iff in E as [Eh Ep]. to_prop.
  case_match; [done|]. injection Hp as <-.
  assert (Ht : forall t, hasTeam (mkScope (Some (list_to_set (concat (map decodeTeams (rq_Values r (ac_TrustTeamHeader cfg)))))))
      t = true <-> exists v, v ∈ rq_Values r (ac_TrustTeamHeader cfg) /\ t ∈ decodeTeams v).
  { intros t. unfold hasTeam. cbn. rewrite bool_decide_eq_true, elem_of_list_to_set, list_elem_of_In, in_concat.
    setoid_rewrite in_map_iff. setoid_rewrite list_elem_of_In. naive_solver. }
  split; [done|]. split.
  - apply not_true_iff_false. intros (v & _ & Hv)%Ht. by apply decodeTeams_nonempty in Hv.
  - intros env. unfold trustedPeer in Ep. destruct (ParseAddrPort (rq_RemoteAddr r)) as [a|] eqn:Ea; [|done].
    apply existsb_exists in Ep as (p & Hpin & Hc). apply (by_proxy _ _ _ _ a p); try done. by apply list_elem_of_In.
Qed.

Lemma readOpen_true cfg token now toks st st' :
  readOpen cfg token now toks st = (Some true, st') ->
  ac_RequireReadCredential cfg = false /\ token = ""%string /\ ac_TrustTeamHeader cfg = ""%string /\ os_minted st = false /\
  ((os_seen st = true /\ 0 <= now - os_at st < readOpenWindow) \/ toks = Some []).
Proof.
  unfold readOpen. intros Ho. case_match eqn:E; [done|]. to_prop. split_and!; try done. case_match eqn:Ew.
  - left. to_prop. split; [done|lia].
  - right. destruct toks as [[|t ts]|]; simpl in Ho; done.
Qed.

(** A read is authorized for what its credential names and for nothing
    more. The whole fleet is read with the configured read or admin token,
    with an unrevoked read token minted for it, or, with no credential at
    all, while the API is open; a credential that is none of these is never
    upgraded to the fleet. A team scope is that of an unrevoked read token,
    or the teams a trusted proxy's header lists; no scope holds the team
    "". *)
Lemma readScope_authorized (cfg : authConfig) (env : authEnv) (r : Request) (st st' : openState) (sc : readScope) :
  readScopeOf cfg env r st = (inl sc, st') ->
  hasTeam sc "" = false /\ if fleet sc then readsFleet cfg env r st else readsTeams cfg env r sc.
Proof.
  unfold readScopeOf. set (after := match proxyScope cfg r with Some _ => _ | None => _ end).
  assert (Hafter : after = (inl sc, st') ->
    hasTeam sc "" = false /\ if fleet sc then bearerToken r = ""%string /\ readsFleet cfg env r st else readsTeams cfg env r sc).
  { unfold after. destruct (proxyScope cfg r) as [sc0|] eqn:Ep.
    - intros [= <- _]. destruct (proxyScope_spec _ _ _ Ep) as (Hf & He & Ht). rewrite Hf. auto.
    - destruct (bearerToken r =s "") eqn:Eb; [|done]. cbn [negb]. destruct (readOpen _ _ _ _ st) as [[[]|] st1] eqn:Eo; try done.
      intros [= <- _]. apply readOpen_true in Eo as (H1 & H2 & H3 & H4 & H5). to_prop. split; [done|]. split; [done|].
      apply by_open_api; try done. destruct H5 as [H5|H5]; [by left|]. right. destruct (ae_listErr env); congruence. }
  destruct (bearerToken r =s "") eqn:Eb; cbn [negb].
  - intros Ha. apply Hafter in Ha as [He Ht]. split; [done|]. by destruct (fleet sc); [destruct Ht|].
  - apply String.eqb_neq in Eb. destruct (equalToken (bearerToken r) (ae_read env) || _) eqn:Et.
    + intros [= <- _]. split; [done|]. simpl. apply by_configured; [done|]. unfold equalToken in Et.
      apply orb_true_iff in Et as [Et|Et]; to_prop; auto.
    + destruct (ae_tokenErr env); [done|]. destruct (ValidReadToken _ _) as [teams|] eqn:Ev.
      * apply ValidReadToken_active in Ev. intros [= <- _]. destruct (scopeOfTeams_spec teams) as [Hf Ht].
        destruct (decide (ReadScopeFleet ∈ teams)) as [Hin|Hin].
        -- rewrite (proj2 Hf Hin). split; [|by eapply by_fleet_token]. unfold scopeOfTeams.
           by rewrite (proj2 (mem_str_spec _ _) Hin).
        -- assert (fleet (scopeOfTeams teams) = false) as -> by (apply not_true_iff_false; tauto).
           split; [|by eapply by_team_token; eauto]. apply not_true_iff_false. intros [_ ?]%Ht; done.
      * intros Ha. apply Hafter in Ha as [He Ht]. split; [done|]. by destruct (fleet sc); [destruct Ht|].
Qed.

(** ** An open API closes *)

(** Read tokens are revoked, never deleted. *)
Lemma run_minted o db : db_ok db -> t_rows (read_tokens db) <> [] -> t_rows (read_tokens (run o db)) <> [].
Proof.
  intros Hok Hne.
  assert (Hstay : forall A (m : stx A), stays read_tokens m -> t_rows (read_tokens (commit m db)) <> []).
  { intros A m Hm. by rewrite (stays_commit read_tokens m db Hm). }
  destruct o; cbn [run]; [apply Hstay..| |apply Hstay|apply Hstay|apply Hstay|apply Hstay|apply Hstay|apply Hstay|apply Hstay| | |apply Hstay|apply Hstay].
  - by apply upsertCluster_stays.
  - intros x a x' (c & _ & ->)%DeleteCluster_Done. done.
  - intros x a x' (c & _ & -> & _)%RenameCluster_Done. done.
  - intros x a x' H%wrap_Done. apply bind_Done in H as (id & db1 & Hb & H).
    apply (passOf_stays read_tokens) in H as ->; [|done..]. by apply (batchCluster_stays read_tokens) in Hb.
  - by rewrite Prune_spec.
  - intros x a x' H. by injection H as _ <-.
  - by apply stays_execOne.
  - by apply stays_execOne.
  - by apply stays_execOne.
  - intros x a x' H. unfold CreateToken in H. destruct (_ || _); [done|]. destruct (existsb _ _); [done|]. by injection H as _ <-.
  - by apply stays_execOne.
  - by apply stays_execOne.
  - unfold commit. destruct (CreateReadToken now teams token db) as [[a db']|] eqn:E; [|done]. unfold CreateReadToken in E.
    destruct (_ =s _); [done|]. destruct (readTokenTeams teams); [|done]. destruct (existsb _ _); [done|].
    injection E as _ <-. simpl. by destruct (t_rows (read_tokens db)).
  - unfold commit. destruct (RevokeReadToken now id db) as [[a db']|] eqn:E; [|done]. unfold RevokeReadToken, execOne in E.
    apply bind_Done in E as (n & db1 & ->%reads_ask & E). apply bind_Done in E as ([] & db2 & ->%reads_guard & E).
    injection E as _ <-. simpl. by destruct (t_rows (read_tokens db)).
  - intros x a x' H%wrap_Done%wrap_Done. apply bind_Done in H as (id & db1 & Hb & H).
    apply (passOf_stays read_tokens) in H as ->; [|done..]. by apply (batchCluster_stays read_tokens) in Hb.
  - by apply insertEvaluation_stays.
Qed.

Lemma ListReadTokens_nil db : ListReadTokens db = [] <-> t_rows (read_tokens db) = [].
Proof.
  unfold ListReadTokens, oldestFirst. split.
  - intros H. apply map_eq_nil in H. destruct (t_rows (read_tokens db)) as [|x l] eqn:E; [done|].
    exfalso. assert (Hl : length (isort (fun a b => row_id a <=? row_id b) (x :: l)) = length (x :: l)) by (by rewrite isort_perm).
    by rewrite H in Hl.
  - by intros ->.
Qed.

Lemma steps_minted db db' : rtc step db db' -> db_ok db -> ListReadTokens db <> [] -> ListReadTokens db' <> [].
Proof.
  induction 1 as [|x y z [o d Ha] Hr IH]; [done|]. intros Hok Hne. apply IH; [apply (step_ok d); [by constructor|done]|].
  rewrite ListReadTokens_nil in *. by apply run_minted.
Qed.

(** One question whether the read API is open: the read token in service,
    the clock, the database and whether its query fails. *)
Record openCall := mkOpenCall { oc_token : string; oc_now : Time; oc_db : SQLite; oc_err : bool }.

Definition askOpen (cfg : authConfig) (c : openCall) (st : openState) : option bool * openState :=
  readOpen cfg (oc_token c) (oc_now c) (if oc_err c then None else Some (ListReadTokens (oc_db c))) st.

Definition openAfter (cfg : authConfig) (calls : list openCall) (st : openState) : openState :=
  foldl (fun st c => (askOpen cfg c st).2) st calls.

Definition noneSeen : openState := mkOpenState false false 0.

(** Calls in the order of a server's life: the clock does not go back and
    the store runs on. *)
Definition later (a b : openCall) : Prop := oc_now a <= oc_now b /\ rtc step (oc_db a) (oc_db b).

Lemma strongly_sorted_total {A} (R : A -> A -> Prop) l a b : StronglySorted R l -> a ∈ l -> b ∈ l -> a = b \/ R a b \/ R b a.
Proof.
  induction 1 as [|x l Hs IH Hx]; [by intros ?%not_elem_of_nil|]. rewrite Forall_forall in Hx.
  intros [->|Ha]%elem_of_cons [->|Hb]%elem_of_cons; auto.
Qed.

(** An open answer that is kept is one the store gave. *)
Lemma openAfter_seen cfg calls :
  os_seen (openAfter cfg calls noneSeen) = true ->
  exists k, k ∈ calls /\ ListReadTokens (oc_db k) = [] /\ oc_now k = os_at (openAfter cfg calls noneSeen).
Proof.
  induction calls as [|c calls IH] using rev_ind; [done|]. unfold openAfter in *. rewrite foldl_app. cbn [foldl].
  set (st := foldl _ noneSeen calls) in *. unfold askOpen, readOpen. repeat case_match; simplify_eq; cbn [snd os_seen os_at];
    try (intros Hs; destruct (IH Hs) as (k & Hk & ?); exists k; rewrite elem_of_app; by auto); try done.
  intros _. exists c. rewrite elem_of_app. split; [right; by left|]. split; [|done].
  destruct (oc_err c); [done|]. destruct (ListReadTokens (oc_db c)) eqn:E; [done|]. simplify_eq.
Qed.

(** An open read API closes within a second of the first read token: in
    any run of requests, with the clock not going back and any store
    operations in between, once a request could have seen a minted token no
    request a second or more later is told that reads need no credential,
    and revoking the token does not open the API again. *)
Lemma readOpen_closes (cfg : authConfig) (pre post : list openCall) (c d : openCall) :
  StronglySorted later (pre ++ d :: post) -> Forall (fun c => db_ok (oc_db c)) (pre ++ d :: post) ->
  c ∈ pre ++ d :: post -> ListReadTokens (oc_db c) <> [] -> oc_now c + readOpenWindow <= oc_now d ->
  (askOpen cfg d (openAfter cfg pre noneSeen)).1 <> Some true.
Proof.
  intros Hs Hok Hc Hm Ht Ha. rewrite Forall_forall in Hok.
  assert (Hd : d ∈ pre ++ d :: post) by (rewrite elem_of_app; right; by left).
  assert (Hw : 0 < readOpenWindow) by (unfold readOpenWindow, second; lia).
  assert (Hcd : later c d).
  { destruct (strongly_sorted_total later _ c d Hs Hc Hd) as [->|[H|[H _]]]; [lia|done|lia]. }
  assert (Hmd : ListReadTokens (oc_db d) <> []) by (eapply steps_minted; [apply Hcd|by apply Hok|done]).
  destruct (askOpen cfg d _) as [b st'] eqn:E. cbn [fst] in Ha. subst b. unfold askOpen in E.
  apply readOpen_true in E as (_ & _ & _ & _ & [[Hseen Hage]|Htoks]); [|destruct (oc_err d); congruence].
  destruct (openAfter_seen cfg pre Hseen) as (k & Hk & Hnil & Hat).
  assert (Hkin : k ∈ pre ++ d :: post) by (rewrite elem_of_app; by left).
  destruct (strongly_sorted_total later _ c k Hs Hc Hkin) as [->|[H|[H _]]]; [done| |lia].
  eapply steps_minted; [apply H|by apply Hok|done..].
Qed.

(** ** A team token minted on an open server *)

Definition openConfig : authConfig := mkAuthConfig false "" [].
Definition mintedDB : SQLite := run (OpCreateReadToken 0 ["billing"%string] "tok") migrated.
Definition revokedDB : SQLite := run (OpRevokeReadToken 0 1) mintedDB.

Definition beforeMint : openCall := mkOpenCall "" 0 migrated false.
Definition atMint : openCall := mkOpenCall "" 500000000 mintedDB false.
Definition afterRevoke : openCall := mkOpenCall "" (2 * second) revokedDB false.

Lemma mintedDB_rows : ListReadTokens mintedDB <> [].
Proof. vm_compute. discriminate. Qed.

Lemma readOpen_closes_witness :
  (askOpen openConfig beforeMint noneSeen).1 = Some true /\
  (askOpen openConfig atMint (openAfter openConfig [beforeMint] noneSeen)).1 = Some true /\
  (askOpen openConfig afterRevoke (openAfter openConfig [beforeMint; atMint] noneSeen)).1 <> Some true.
Proof.
  split; [vm_compute; reflexivity|]. split; [vm_compute; reflexivity|].
  assert (H1 : step migrated mintedDB) by exact (step_run (OpCreateReadToken 0 ["billing"%string] "tok") migrated I).
  assert (H2 : step mintedDB revokedDB) by exact (step_run (OpRevokeReadToken 0 1) mintedDB I).
  assert (Hm : db_ok mintedDB) by (apply (step_ok _ _ H1), migrated_ok).
  apply (readOpen_closes openConfig [beforeMint; atMint] [] atMint afterRevoke).
  - assert (R1 : later beforeMint atMint) by (split; [vm_compute; discriminate|exact (rtc_once _ _ H1)]).
    assert (R2 : later atMint afterRevoke) by (split; [vm_compute; discriminate|exact (rtc_once _ _ H2)]).
    assert (R3 : later beforeMint afterRevoke) by (split; [vm_compute; discriminate|exact (rtc_l _ _ _ _ H1 (rtc_once _ _ H2))]).
    apply SSorted_cons; [apply SSorted_cons; [apply SSorted_cons; [apply SSorted_nil|apply Forall_nil_2]|]|].
    + apply Forall_cons_2; [exact R2|apply Forall_nil_2].
    + apply Forall_cons_2; [exact R1|]. apply Forall_cons_2; [exact R3|apply Forall_nil_2].
  - apply Forall_cons_2; [exact migrated_ok|]. apply Forall_cons_2; [exact Hm|].
    apply Forall_cons_2; [exact (step_ok _ _ H2 Hm)|apply Forall_nil_2].
  - apply elem_of_cons. right. apply elem_of_cons. by left.
  - exact mintedDB_rows.
  - vm_compute. discriminate.
Defined.

Definition proxyConfig : authConfig := mkAuthConfig false "X-Groups" [mkPrefix (Addr4 (10 * 2 ^ 24)) 8].
Definition proxied : Request := mkRequest "" (fun h => if h =s "X-Groups" then ["billing, *"%string] else []) "10.0.0.5:4711".
Definition quietEnv : authEnv := mkAuthEnv "" "" migrated false migrated false 0.

(** The proxy's "*" is a team of that name, not the fleet. *)
Lemma readScope_authorized_witness :
  exists sc, readScopeOf proxyConfig quietEnv proxied noneSeen = (inl sc, noneSeen) /\ fleet sc = false /\
    readsTeams proxyConfig quietEnv proxied sc.
Proof.
  eexists. split; [reflexivity|]. split; [reflexivity|].
  exact (proj2 (readScope_authorized proxyConfig quietEnv proxied noneSeen noneSeen _ eq_refl)).
Defined.

(** ** Team map teams *)

Lemma checkRules_spec i rules rs :
  checkRules i rules = Ok rs ->
  Forall2 (fun r r' => tm_Pattern r' = tm_Pattern r /\
    tm_Team r' = (if tm_Team r =s ReadScopeFleet then StarTeam else tm_Team r) /\
    tm_Pattern r <> ""%string /\ tm_Team r <> ""%string /\ tm_Team r <> UnattributedTeam /\ is_Some (Match (tm_Pattern r) "")) rules rs.
Proof.
  revert i rs. induction rules as [|r rules IH]; intros i rs; simpl; [by intros [= <-]|].
  destruct (tm_Pattern r =s "") eqn:E1; [done|]. destruct (tm_Team r =s "") eqn:E2; [done|].
  destruct (tm_Team r =s UnattributedTeam) eqn:E3; [done|].
  destruct (Match (tm_Pattern r) "") as [b|] eqn:E4; [|done]. destruct (checkRules (i + 1) rules) as [rs'|] eqn:E5; [|done].
  intros [= <-]. constructor; [|by apply (IH (i + 1))]. to_prop. split_and!; try done; by destruct (tm_Team r =s ReadScopeFleet).
Qed.

(** A team of the team map can be given a read token of its own: the token's
    scope is that team, never the whole fleet. *)
Lemma ParseTeamMap_scopes rules rs r :
  ParseTeamMap rules = Ok rs -> r ∈ rs ->
  fleet (scopeOfTeams [tm_Team r]) = false /\ hasTeam (scopeOfTeams [tm_Team r]) (tm_Team r) = true /\
  tm_Team r <> UnattributedTeam.
Proof.
  intros Hp Hr. apply checkRules_spec in Hp. apply list_elem_of_lookup in Hr as [j Hj].
  destruct (Forall2_lookup_r _ _ _ _ _ Hp Hj) as (r0 & _ & _ & Ht & _ & Hne & Hnu & _).
  assert (Hs : tm_Team r <> ReadScopeFleet /\ tm_Team r <> ""%string /\ tm_Team r <> UnattributedTeam).
  { rewrite Ht. destruct (tm_Team r0 =s ReadScopeFleet) eqn:E; to_prop; [done|]. done. }
  destruct Hs as (H1 & H2 & H3). destruct (scopeOfTeams_spec [tm_Team r]) as [Hf Hh].
  assert (Hn : ReadScopeFleet ∉ [tm_Team r]) by (rewrite list_elem_of_singleton; congruence).
  split; [apply not_true_iff_false; tauto|]. split; [|done]. apply Hh; [done|]. split; [by left|done].
Qed.

(** ** Clusters in scope *)

(** A scoped read sees a cluster only through a current evaluation that
    names one of its teams. *)
Lemma inScope_attributed hash sc id db :
  fleet sc = false -> inScope hash sc id db = true ->
  exists r t, r ∈ t_rows (evaluations db) /\ er_cluster_id r = id /\ er_id r ∈ currentIds db /\
    er_team_map_hash r = hash /\ t ∈ default [] (er_teams r) /\ hasTeam sc t = true.
Proof.
  intros Hf. unfold inScope, scopeClusters. rewrite Hf, bool_decide_eq_true, elem_of_list_to_set.
  unfold ClustersOfTeams. case_match; [by intros ?%not_elem_of_nil|]. rewrite isort_perm, elem_of_remove_dups.
  intros (r & <- & [Hp Hr]%list_elem_of_In%elem_of_select)%list_elem_of_In%in_map_iff. to_prop.
  unfold namesTeam in *. match goal with He : existsb _ _ = true |- _ => apply existsb_exists in He as (t & Ht & Hm) end.
  apply mem_str_spec in Hm. exists r, t. split_and!; try done.
  - by apply mem_id_spec.
  - by apply list_elem_of_In.
  - unfold names in Hm. unfold hasTeam. unfold fleet in Hf. destruct (sc_teams sc) as [m|]; [|done].
    unfold sort_strings in Hm. rewrite isort_perm in Hm. apply bool_decide_eq_true. by apply elem_of_elements.
Qed.
