(* ===== verification/Gate.v ===== *)
(** * The CI gate (internal/server/gate.go, gate_merge.go, gate_suppress.go,
    gate_volumes.go, and collect/files_crds.go's judgement of CRDs)

    A stream of manifests is judged against a target, alone or merged into a
    cluster's latest inventory; with a cluster, only what the manifests
    introduce decides. *)

From stdpp Require Import base list strings gmap.
From Stdlib Require Import ZArith Lia Ascii.
From S2P Require Import Prelude GoStr GoTime Version Inventory KB Findings Evaluate GoUtf8 Glob Suppress Admit Heads Notify Db Store Delta Passes Views Scope Auth.

(** [scheme.Scheme.IsGroupRegistered] of client-go: the API groups built into
    Kubernetes. *)
Class Scheme := { IsGroupRegistered : string -> bool }.

#[global] Instance CapabilityStatus_eq_dec : EqDecision CapabilityStatus.
Proof. solve_decision. Defined.

(** ** API usage of the proposed state *)

Definition gvk : Type := string * string * string.
Definition gvkOf (u : APIUsage) : gvk := (u_Group u, u_Version u, u_Kind u).

(** [m[ns] = satAdd(m[ns], n)] for every entry of [n]. *)
Definition addCounts (m n : gmap string Z) : gmap string Z :=
  foldl (fun acc p => <[p.1 := satAdd (default 0 (acc !! p.1)) p.2]> acc) m (map_to_list n).

(** The manifests apply an object of this namespace and name. *)
Definition replacedBy (objs : list ObjectRef) (o : ObjectRef) : bool :=
  negb (o_Name o =s "") && existsb (fun n => (o_Name n =s o_Name o) && (o_Namespace n =s o_Namespace o)) objs.

(** One object less in a namespace; the key goes at zero. *)
Definition countDown (ns : string) (m : gmap string Z) : gmap string Z :=
  let n := wrap64 (default 0 (m !! ns) - 1) in if n <=? 0 then delete ns m else <[ns := n]> m.

(** The row [u] of the cluster with the manifests' row [m] upserted. *)
Definition upsertRow (u m : APIUsage) : APIUsage :=
  let '(count, namespaces, kept) :=
    foldl (fun '(count, namespaces, kept) o =>
             if replacedBy (u_Objects m) o
             then (Z.max 0 (wrap64 (count - 1)), countDown (o_Namespace o) namespaces, kept)
             else (count, namespaces, kept ++ [o]))
      (u_Count u, u_Namespaces u, []) (u_Objects u) in
  mkAPIUsage (u_Group u) (u_Version u) (u_Kind u) (satAdd count (u_Count m))
    (addCounts namespaces (u_Namespaces m)) (kept ++ u_Objects m) (satAdd (u_ObjectsOmitted u) (u_ObjectsOmitted m)).

(** The rows so far and the index of each group, version and kind. *)
Definition upsertState : Type := list APIUsage * gmap gvk nat.

Definition clusterRow (st : upsertState) (u : APIUsage) : upsertState :=
  let '(out, at_) := st in (out ++ [u], <[gvkOf u := length out]> at_).

Definition manifestRow (st : upsertState) (m : APIUsage) : upsertState :=
  let '(out, at_) := st in
  match at_ !! gvkOf m with
  | None => (out ++ [m], <[gvkOf m := length out]> at_)
  | Some i => (alter (fun u => upsertRow u m) i out, at_)
  end.

Definition upsertUsage (cluster manifests : list APIUsage) : list APIUsage :=
  (foldl manifestRow (foldl clusterRow ([], ∅) cluster) manifests).1.

(** ** Volume plugins *)

Definition addPlugin (byPlugin : gmap string VolumePluginUse) (u : VolumePluginUse) : gmap string VolumePluginUse :=
  let m := default (mkVolumePluginUse (vu_Plugin u) 0 ∅ [] 0) (byPlugin !! vu_Plugin u) in
  <[vu_Plugin u := mkVolumePluginUse (vu_Plugin m) (satAdd (vu_Count m) (vu_Count u))
      (addCounts (vu_Namespaces m) (vu_Namespaces u)) (vu_Objects m ++ vu_Objects u)
      (satAdd (vu_ObjectsOmitted m) (vu_ObjectsOmitted u))]> byPlugin.

Definition mergeVolumePlugins (cluster manifests : list VolumePluginUse) : list VolumePluginUse :=
  if zlen manifests =? 0 then cluster
  else isort (fun a b => String.leb (vu_Plugin a) (vu_Plugin b))
         (map snd (map_to_list (foldl addPlugin ∅ (cluster ++ manifests)))).

(** ** Add-ons *)

(** The same add-on in exactly the same namespaces. *)
Definition sameInstall (a b : AddOnInstance) : bool :=
  (ai_ID a =s ai_ID b) && bool_decide (sort_strings (ai_Namespaces a) = sort_strings (ai_Namespaces b)).

(** The inner loop for the cluster's install [c]: the manifests' installs
    with whether each is placed already. *)
Fixpoint placeInstalls (c : AddOnInstance) (ms : list (AddOnInstance * bool))
    : list AddOnInstance * list (AddOnInstance * bool) * bool :=
  match ms with
  | [] => ([], [], false)
  | (m, placed) :: ms' =>
      let '(out, ms', replaced) := placeInstalls c ms' in
      if negb (sameInstall c m) then (out, (m, placed) :: ms', replaced)
      else ((if placed then out else m :: out), (m, true) :: ms', true)
  end.

Fixpoint placeAll (cluster : list AddOnInstance) (ms : list (AddOnInstance * bool))
    : list AddOnInstance * list (AddOnInstance * bool) :=
  match cluster with
  | [] => ([], ms)
  | c :: cs =>
      let '(here, ms, replaced) := placeInstalls c ms in
      let '(rest, ms) := placeAll cs ms in
      ((if replaced then here else [c]) ++ rest, ms)
  end.

Definition upsertAddOns (cluster manifests : list AddOnInstance) : list AddOnInstance :=
  let '(out, ms) := placeAll cluster (map (fun m => (m, false)) manifests) in
  out ++ map fst (List.filter (fun p => negb p.2) ms).

(** ** Custom resources *)

Definition apiName (gv kind : string) : string := gv +:+ " " +:+ kind.

Definition notCustomResources : list string := ["kustomize.config.k8s.io"; "kpt.dev"]%string.

Definition currentVersion (c : CRD) (v : string) : bool :=
  match find (fun cv => Inventory.c_Name cv =s v) (crd_Versions c) with
  | Some cv => c_Served cv && negb (c_Deprecated cv)
  | None => false
  end.

(** A later definition of a group and kind replaces the earlier one. *)
Definition sameKindCRD (a b : CRD) : bool := (crd_Group a =s crd_Group b) && (crd_Kind a =s crd_Kind b).

Fixpoint putCRD (out : list CRD) (c : CRD) : list CRD :=
  match out with
  | [] => [c]
  | d :: out' => if sameKindCRD d c then c :: out' else d :: putCRD out' c
  end.

Definition usesCRD (c : CRD) (u : APIUsage) : bool := (crd_Group c =s u_Group u) && (crd_Kind c =s u_Kind u).

Definition crdLeb (a b : CRD) : bool :=
  if negb (crd_Group a =s crd_Group b) then String.leb (crd_Group a) (crd_Group b)
  else String.leb (crd_Kind a) (crd_Kind b).

Section Gate.
Context `{Scheme} `{AgentSemver}.

Definition builtinGroup (group : string) : bool :=
  (group =s "apiextensions.k8s.io") || (group =s "apiregistration.k8s.io") || IsGroupRegistered group.

Definition customResource (group : string) : bool :=
  Contains group "." && negb (builtinGroup group) && negb (mem_str group notCustomResources).

(** The custom resource APIs no definition is known for, sorted. *)
Definition orphansOf (crds : list CRD) (us : list APIUsage) : list string :=
  sort_strings (map (fun u => apiName (u_Group u +:+ "/" +:+ u_Version u) (u_Kind u))
    (List.filter (fun u => negb (existsb (fun c => usesCRD c u) crds) && customResource (u_Group u)) us)).

Definition orphansText (where_ : string) (orphans : list string) : string :=
  match orphans with
  | [o] => "no CRD in " +:+ where_ +:+ " for " +:+ o +:+ ", so whether its version is served was not assessed"
  | _ =>
      let listed := take 5 orphans in
      let n := zlen orphans - zlen listed in
      let more := if 0 <? n then " and " +:+ itoa n +:+ " more" else ""%string in
      "no CRD in " +:+ where_ +:+ " for " +:+ itoa (zlen orphans) +:+ " custom resource APIs (" +:+ Join listed ", " +:+ more +:+
      "), so whether their versions are served was not assessed"
  end.

Definition orphansReason (orphans : list string) : string := orphansText "the cluster or the posted manifests" orphans.

(** [assessCRDs]: the definitions with the objects at a version each
    deprecates, does not serve or does not list. *)
Definition assessCRDs (inv : Inventory) (crds : list CRD) : Inventory :=
  let out := foldl putCRD [] crds in
  let used := map (fun c => with_Usage (crd_Usage c ++
                    List.filter (fun u => usesCRD c u && negb (currentVersion c (u_Version u))) (APIUsages inv)) c) out in
  let orphans := orphansOf out (APIUsages inv) in
  let st := match orphans with
            | [] => mkCapabilityStatus true "" false []
            | _ => mkCapabilityStatus true (orphansText "the scanned files" orphans) true orphans
            end in
  with_Capabilities (<[CapCRDs := st]> (Capabilities inv)) (with_CRDs (isort crdLeb used) inv).

(** [c.Usage, c.StoredVersions = nil, nil]. *)
Definition bareCRD (c : CRD) : CRD := mkCRD (crd_Group c) (crd_Kind c) (crd_Plural c) (crd_Versions c) [] [].

Definition with_StoredVersions (vs : list string) (us : list APIUsage) (c : CRD) : CRD :=
  mkCRD (crd_Group c) (crd_Kind c) (crd_Plural c) (crd_Versions c) vs us.

(** The cluster's definition of a kind: the last one. *)
Definition clusterCRD (cluster : list CRD) (c : CRD) : option CRD := find (sameKindCRD c) (reverse cluster).

(** The proposed state's definition: the side's, with the cluster's stored
    versions and its usage where the version is still not current. *)
Definition proposedCRD (cluster : list CRD) (c : CRD) : CRD :=
  let '(stored, live) :=
    match clusterCRD cluster c with
    | Some old => (crd_StoredVersions old, List.filter (fun u => negb (currentVersion c (u_Version u))) (crd_Usage old))
    | None => (crd_StoredVersions c, [])
    end in
  with_StoredVersions stored
    (isort (fun a b => String.leb (u_Version a) (u_Version b)) (upsertUsage live (crd_Usage c))) c.

(** [mergeManifests]: the proposed state and the manifests' side. *)
Definition mergeManifests (proposed manifests : Inventory) : Inventory * Inventory :=
  let defs := map bareCRD (CRDs proposed ++ CRDs manifests) in
  let side := assessCRDs manifests defs in
  let orphans := cs_Skipped (capability side CapCRDs) in
  let caps := match Capabilities proposed !! CapCRDs with
              | Some st =>
                  if cs_Available st && (0 <? zlen orphans) then
                    let reason := if cs_Reason st =s "" then orphansReason orphans
                                  else cs_Reason st +:+ "; " +:+ orphansReason orphans in
                    <[CapCRDs := mkCapabilityStatus (cs_Available st) reason true (sortedSet (cs_Skipped st ++ orphans))]>
                      (Capabilities proposed)
                  else Capabilities proposed
              | None => Capabilities proposed
              end in
  (with_Capabilities caps (with_CRDs (map (proposedCRD (CRDs proposed)) (CRDs side))
     (with_VolumePlugins (mergeVolumePlugins (VolumePlugins proposed) (VolumePlugins manifests))
        (with_AddOns (upsertAddOns (AddOns proposed) (AddOns manifests)) proposed))),
   side).

(** ** What the manifests introduce *)

(** [usageKeys] and [introducedKeys], as lists of keys. *)
Definition usageKeys (rep : Report) : list string :=
  keySet (r_Findings rep) (fun f => (f_Category f =s CatRemovedAPI) || (f_Category f =s CatDeprecatedAPI)).

Definition introduces (f : Finding) : bool :=
  mem_str (f_Category f) [CatEOLAddon; CatEOLApproaching; CatChartIncompat; CatAddOnNoData] ||
  (f_Category f =s CatVolumePlugin) ||
  ((f_Category f =s CatCRDVersion) && (0 <? wrap64 (zlen (f_Objects f) + f_ObjectsOmitted f))).

Definition introducedKeys (rep : Report) : list string :=
  usageKeys rep ++ keySet (r_Findings rep) introduces.

Definition gateConfigSource : string := "config".

(** [suppress.Apply] always answers ([Apply_total]). *)
Definition suppressGate (rep : Report) (rules : list Rule) (now : Time) : Report * list string :=
  match Apply rep rules (mkOptions now gateConfigSource "") with
  | Some (rep', ws) => (rep', ws)
  | None => (rep, [])
  end.

Record gateSide := mkGateSide { gs_keys : list string; gs_suppressed : list SuppressedFinding }.

Definition suppressSide (side : Report) (rules : list Rule) (now : Time) : gateSide :=
  let produced := introducedKeys side in
  let rep := (suppressGate side rules now).1 in
  mkGateSide (introducedKeys rep)
    (List.filter (fun sf => mem_str (findingKey (sf_Finding sf)) produced) (r_Suppressed rep)).

(** ** The answer *)

Definition sourceManifest : string := "manifest".
Definition sourceCluster : string := "cluster".

Record gateFinding := mkGateFinding { gf_Finding : Finding; gf_Source : string }.

Record gateResponse := mkGateResponse {
  gr_Report : Report;
  gr_Teams : gmap string TeamScore;
  gr_Findings : list gateFinding;
  gr_Verdict : string;
  gr_Ready : bool;
  gr_ClusterVerdict : string;
  gr_SuppressedCount : Z;
  gr_Warnings : list string;
  gr_introducedSuppressed : list SuppressedFinding;
}.

(** The closure [source]. *)
Definition sourceOfFinding (baseline : option Report) (introduced : gateSide) (f : Finding) : string :=
  match baseline with
  | Some base =>
      if negb (mem_str (findingKey f) (gs_keys introduced)) &&
         ((f_Category f =s CatDeprecatedAPIInUse) || mem_str (findingKey f) (keySet (r_Findings base) (fun _ => true)))
      then sourceCluster else sourceManifest
  | None => sourceManifest
  end.

Definition gateResult (rep : Report) (baseline : option Report) (introduced : gateSide) : gateResponse :=
  let findings := map (fun f => mkGateFinding f (sourceOfFinding baseline introduced f)) (r_Findings rep) in
  let verdict :=
    if existsb (fun g => (gf_Source g =s sourceManifest) && Findings.isBlocker (gf_Finding g)) findings then VerdictBlocked
    else if existsb g_Required (r_NotAssessed rep) then VerdictUnknown
    else VerdictReady in
  mkGateResponse rep (renderedTeams fleetScope rep) findings verdict (verdict =s VerdictReady)
    (match baseline with Some _ => r_Verdict rep | None => "" end) (zlen (r_Suppressed rep)) []
    (match baseline with Some _ => gs_suppressed introduced | None => r_Suppressed rep end).

(** ** The cap on listed objects *)

(** One step of the loop of [trim]: what is kept, and the room left for
    the cluster's. *)
Definition trimStep (mine : ObjectRef -> bool) (acc : list ObjectRef * Z) (o : ObjectRef) : list ObjectRef * Z :=
  let '(kept, room) := acc in
  if mine o && (zlen kept <? MaxObjectRefs) then (kept ++ [o], room)
  else if negb (mine o) && (0 <? room) then (kept ++ [o], room - 1)
  else (kept, room).

Definition trim (mine : ObjectRef -> bool) (f : Finding) : Finding :=
  if zlen (f_Objects f) <=? MaxObjectRefs then f
  else
    let own := zlen (List.filter mine (f_Objects f)) in
    let kept := (foldl (trimStep mine) ([], Z.max 0 (MaxObjectRefs - own)) (f_Objects f)).1 in
    set_Objects kept (wrap64 (f_ObjectsOmitted f + (zlen (f_Objects f) - zlen kept))) f.

Definition capObjects (rep : Report) (mine : ObjectRef -> bool) : Report :=
  with_Findings (map (trim mine) (r_Findings rep))
    (map (fun sf => set_Finding (trim mine (sf_Finding sf)) sf) (r_Suppressed rep)) rep.

(** ** What the manifests hold *)

Record manifestContent := mkContent {
  mc_objects : list ObjectRef;
  mc_namespaces : gset string;
  mc_images : gset string;
}.

Definition holdsObject (m : manifestContent) (o : ObjectRef) : bool := bool_decide (o ∈ mc_objects m).

(** The rows the closure [usage] walks of one inventory. *)
Definition usageRows (inv : Inventory) : list (gmap string Z * list ObjectRef) :=
  map (fun u => (u_Namespaces u, u_Objects u)) (APIUsages inv ++ concat (map crd_Usage (CRDs inv))) ++
  map (fun v => (vu_Namespaces v, vu_Objects v)) (VolumePlugins inv).

Definition namespacesOf (inv : Inventory) : list string :=
  concat (map (fun p => keysOf p.1 ++ map o_Namespace p.2) (usageRows inv)) ++
  concat (map ai_Namespaces (AddOns inv)) ++ map ns_Name (Namespaces inv).

Definition manifestsOwn (invs : list Inventory) : manifestContent :=
  mkContent (concat (map (fun inv => concat (map snd (usageRows inv))) invs))
    (list_to_set (concat (map namespacesOf invs)) ∖ {[ ""%string ]})
    (list_to_set (concat (map UnrecognizedImages invs))).

(** ** A team-scoped answer *)

Record gateCut := mkGateCut { gc_namespaces : gmap string string; gc_mine : manifestContent }.

Definition gateKeep (sc : readScope) (c : gateCut) : keep :=
  let cluster := clusterKeep sc (gc_namespaces c) in
  mkKeep (k_team cluster)
    (fun ns => k_namespace cluster ns || bool_decide (ns ∈ mc_namespaces (gc_mine c)))
    (fun o => k_object cluster o || holdsObject (gc_mine c) o).

(** [gateResponse.scope]. *)
Definition scopeGate (sc : readScope) (c : gateCut) (g : gateResponse) : gateResponse :=
  if fleet sc then g
  else
    let k := gateKeep sc c in
    let introduced := map (fun sf => findingKey (sf_Finding sf)) (gr_introducedSuppressed g) in
    let findings := map (fun f => mkGateFinding (cut k (gf_Finding f)).1 (gf_Source f))
                      (List.filter (fun f => negb ((gf_Source f =s sourceCluster) && negb (owns sc (f_Teams (gf_Finding f)))))
                         (gr_Findings g)) in
    let rep := gr_Report g in
    let suppressed := scopeSuppressed sc (r_Suppressed rep) k (fun f => mem_str (findingKey f) introduced) in
    mkGateResponse
      (with_Listing (map gf_Finding findings) suppressed (scopeGaps sc (r_NotAssessed rep))
         (List.filter (fun img => bool_decide (img ∈ mc_images (gc_mine c))) (r_UnrecognizedImages rep)) 0 rep)
      (renderedTeams sc rep) findings (gr_Verdict g) (gr_Ready g) (gr_ClusterVerdict g)
      (zlen suppressed) (gr_Warnings g)
      (scopeSuppressed sc (gr_introducedSuppressed g) k (fun _ => true)).

(** ** The evaluations *)

Record gateEval := mkGateEval {
  ge_full : Report;
  ge_baseline : option Report;
  ge_introduced : gateSide;
  ge_mine : manifestContent;
}.

Definition noContent : manifestContent := mkContent [] ∅ ∅.

Definition sizeString (n : Z) : string :=
  if (2 ^ 20 <=? n) && (n mod 2 ^ 20 =? 0) then itoa (Z.shiftr n 20) +:+ "MiB" else itoa n +:+ " bytes".

(** [reportTooLargeError.Error], and any other error's text. *)
Definition evalErrorText (e : evalError) : string :=
  match e with
  | reportTooLarge target limit =>
      "the report for target " +:+ VString target +:+ " would be over the " +:+ sizeString limit +:+
      " limit for a report (--max-snapshot-bytes)"
  | evaluationFailed what => what
  end.

(** The proposed state before the merge of add-ons, volumes and CRDs. *)
Definition proposedState (clusterInv manifests : Inventory) (viewed : bool) : Inventory :=
  with_Capabilities
    (<[CapAPIUsage := if viewed then capability clusterInv CapAPIUsage else mkCapabilityStatus true "" false []]>
       (Capabilities clusterInv))
    (with_APIUsages (upsertUsage (APIUsages clusterInv) (APIUsages manifests)) clusterInv).

(** [gateWithin]; [clock] gives its readings of the clock in turn. *)
Definition gateWithin (s : Server) (clock : nat -> Time) (clusterInv : Inventory) (viewed : bool) (manifests : Inventory)
    (target : Version) (rules : list Rule) (ref : string) : gateEval + httpError :=
  match evaluateWithin s clusterInv target (clock 0%nat) with
  | inr e => inr (mkHTTPError 413 ("?cluster=" +:+ ref +:+ ": " +:+ evalErrorText e))
  | inl base =>
      let '(inv, side) := mergeManifests (proposedState clusterInv manifests viewed) manifests in
      match evaluateWithin s side target (clock 1%nat) with
      | inr e => inr (mkHTTPError 413 (evalErrorText e))
      | inl sideRep =>
          match evaluateWithin s inv target (clock 2%nat) with
          | inr e => inr (mkHTTPError 413 (evalErrorText e))
          | inl full =>
              inl (mkGateEval full (Some base) (suppressSide sideRep rules (clock 3%nat)) (manifestsOwn [manifests; side]))
          end
      end
  end.

(** [gateFails]. *)
Definition gateFails (resp : gateResponse) (failOn : string) (allowIncomplete : bool) : bool :=
  if failOn =s "never" then false
  else if gr_Verdict resp =s VerdictBlocked then true
  else if (gr_Verdict resp =s VerdictUnknown) && negb allowIncomplete then true
  else if (gr_Verdict resp =s VerdictUnknown) &&
          existsb (fun g => g_Capability g =s GapTarget) (r_NotAssessed (gr_Report resp)) then true
  else (failOn =s "warning") &&
       existsb (fun f => (gf_Source f =s sourceManifest) && Findings.isWarning (gf_Finding f)) (gr_Findings resp).

(** What the CI formats carry. *)
Definition sarifReport (rep : Report) (resp : gateResponse) : Report :=
  mkReport (r_ClusterID rep) (r_Target rep) (r_ServerVersion rep) (r_KubeContext rep) (r_APIServer rep)
    (r_KBVersion rep) (r_Score rep) (gr_Ready resp) (gr_Verdict resp)
    (map gf_Finding (List.filter (fun f => gf_Source f =s sourceManifest) (gr_Findings resp)))
    (r_NotAssessed rep) (r_Support rep) (gr_introducedSuppressed resp)
    (r_UnrecognizedImages rep) (r_UnrecognizedImagesOmitted rep) (r_AddOnEvidenceAgeSeconds rep) (r_Hops rep).

(** ** The cluster a gate names *)

(** The first listed cluster of the name that the scope reads, else the
    cluster of the id it spells. *)
Definition resolveCluster (ref : string) (scoped : option (gset Z)) (db : SQLite) : option Cluster :=
  let within_ id := match scoped with None => true | Some ids => bool_decide (id ∈ ids) end in
  match find (fun c => (Store.c_Name c =s ref) && within_ (c_ID c)) (ListClusters db) with
  | Some c => Some c
  | None =>
      match Atoi ref with
      | Some id => if within_ id then GetCluster id db else None
      | None => None
      end
  end.

Definition notFound (msg : string) : httpError := mkHTTPError 404 msg.

Definition gateClusterContext (s : Server) (sc : readScope) (ref : string) (db : SQLite)
    : (Inventory * bool) + httpError :=
  match resolveCluster ref (scopeClusters (sv_teamMapHash s) sc db) db with
  | None => inr (notFound "cluster not found")
  | Some cluster =>
      match LatestSnapshot (c_ID cluster) db with
      | None => inr (notFound "no snapshots for cluster")
      | Some snap =>
          match sn_Inventory snap with
          | None => inr internalError
          | Some inv =>
              let inv := (CutFreeText inv).1 in
              let judged := judgedView inv (sn_AgentVersion snap) (sn_KBVersion snap) (sv_KB s) in
              inl (judged, negb (bool_decide (capability inv CapAPIUsage = capability judged CapAPIUsage)))
          end
      end
  end.

(** ** The request *)

(** The parameters of [/gate]: [gq_mediaType] is the header and what
    [mime.ParseMediaType] makes of it, and the lists are every value given. *)
Record gateQuery := mkGateQuery {
  gq_mediaType : option (string * option string);
  gq_target : string;
  gq_format : string;
  gq_failOn : string;
  gq_allowIncomplete : list string;
  gq_path : string;
  gq_config : list string;
  gq_cluster : string;
}.

Record gateRequest := mkGateRequest {
  gp_target : Version;
  gp_format : string;
  gp_failOn : string;
  gp_artifact : string;
  gp_rules : list Rule;
  gp_allowIncomplete : bool;
}.

Definition yamlContentTypes : list string :=
  ["application/x-yaml"; "application/yaml"; "text/yaml"; "text/x-yaml"; "application/json"]%string.

Definition maxArtifactPathBytes : Z := 512.
Definition maxGateConfigBytes : Z := 32768.

(** [unicode.IsControl] of a decoded character. *)
Definition IsControl (r : Z) : bool := (r <=? 0x1f) || ((0x7f <=? r) && (r <=? 0x9f)).

(** [strings.ContainsFunc(s, unicode.IsControl)]; a character takes at least
    a byte. *)
Fixpoint containsControl (fuel : nat) (s : string) : bool :=
  match fuel, s with
  | S fuel', String _ _ =>
      let '(r, n) := DecodeRune s in IsControl r || containsControl fuel' (dropS n s)
  | _, _ => false
  end.

Definition repoPath (p : string) : bool :=
  negb (HasPrefix p "/") && negb (Contains p "\") && (Clean p =s p) &&
  negb (p =s ".") && negb (p =s "..") && negb (HasPrefix p "../") &&
  negb (containsControl (String.length p) p) && (ToValidUTF8 p =s p).

Definition gateAllowIncomplete (vals : list string) : bool + httpError :=
  match vals with
  | [] => inl false
  | [v] => if v =s "true" then inl true else if v =s "false" then inl false
           else inr (mkHTTPError 422 "invalid allow-incomplete (want true or false, once)")
  | _ => inr (mkHTTPError 422 "invalid allow-incomplete (want true or false, once)")
  end.

(** The rules of a decoded config, the first invalid one named. *)
Fixpoint validRules (name : string) (i : Z) (rules : list Rule) : res unit :=
  match rules with
  | [] => Ok tt
  | r :: rules' =>
      match Validate r with
      | Err e => Err (name +:+ ": ignore[" +:+ itoa i +:+ "]: " +:+ e)
      | Ok _ => validRules name (i + 1) rules'
      end
  end.

(** [suppress.ParseConfig]; [decode] is the YAML decoder. *)
Definition ParseConfig (decode : string -> res (list Rule)) (raw name : string) : res (list Rule) :=
  match decode raw with
  | Err e => Err (name +:+ ": " +:+ e)
  | Ok rules => match validRules name 0 rules with Err e => Err e | Ok _ => Ok rules end
  end.

Definition gateIgnoreRules (decode : string -> res (list Rule)) (values : list string) : list Rule + httpError :=
  match values with
  | [] => inl []
  | [v] =>
      if v =s "" then inl []
      else if maxGateConfigBytes <? slen v then
        inr (mkHTTPError 422 ("invalid config: " +:+ itoa (slen v) +:+ " bytes, more than the " +:+
               itoa (Z.shiftr maxGateConfigBytes 10) +:+ " KiB limit"))
      else match ParseConfig decode v gateConfigSource with
           | Err e => inr (mkHTTPError 422 ("invalid " +:+ e))
           | Ok rules => inl rules
           end
  | _ => inr (mkHTTPError 422 "invalid config: given more than once (send one .upgradescope.yaml)")
  end.

(** The Content-Type header that is refused. *)
Definition badMediaType (h : option (string * option string)) : option string :=
  match h with
  | Some (ct, mt) => if match mt with Some mt => mem_str mt yamlContentTypes | None => false end then None else Some ct
  | None => None
  end.

(** The checks of [handleGate], before the body is read. *)
Definition gateParams (decode : string -> res (list Rule)) (q : gateQuery) : gateRequest + httpError :=
  match badMediaType (gq_mediaType q) with
  | Some ct => inr (mkHTTPError 415 ("unsupported Content-Type " +:+ quote ct +:+
                                     " (send a YAML manifest stream as application/x-yaml)"))
  | None =>
  if gq_target q =s "" then inr (mkHTTPError 422 "target query parameter is required") else
  match ParseTarget (gq_target q) with
  | Err e => inr (mkHTTPError 400 ("invalid target: " +:+ e))
  | Ok target =>
  if negb (mem_str (gq_format q) [""; "json"; "sarif"; "junit"; "gitlab-codequality"]%string) then
    inr (mkHTTPError 422 ("invalid format " +:+ quote (gq_format q) +:+ " (want json, sarif, junit or gitlab-codequality)")) else
  let failOn := if gq_failOn q =s "" then "blocker"%string else gq_failOn q in
  if negb (mem_str failOn ["blocker"; "warning"; "never"]%string) then
    inr (mkHTTPError 422 ("invalid fail-on " +:+ quote (gq_failOn q) +:+ " (want blocker, warning or never)")) else
  match gateAllowIncomplete (gq_allowIncomplete q) with
  | inr e => inr e
  | inl allowIncomplete =>
  if maxArtifactPathBytes <? slen (gq_path q) then
    inr (mkHTTPError 422 ("path is " +:+ itoa (slen (gq_path q)) +:+ " bytes, over the " +:+ itoa maxArtifactPathBytes +:+
           " bytes a repository path may have here (every object in the answer carries it)")) else
  if negb (gq_path q =s "") && negb (repoPath (gq_path q)) then
    inr (mkHTTPError 422 ("invalid path " +:+ quote (gq_path q) +:+
           " (want the repository-relative file the stream was rendered to, e.g. deploy/rendered.yaml)")) else
  match gateIgnoreRules decode (gq_config q) with
  | inr e => inr e
  | inl rules => inl (mkGateRequest target (gq_format q) failOn (gq_path q) rules allowIncomplete)
  end end end end.

(** [?path=] names the file of every object of the stream. *)
Definition locate (artifact : string) (o : ObjectRef) : ObjectRef :=
  mkObjectRef (o_Namespace o) (o_Name o) artifact (o_Line o) (o_RenderedFrom o) (o_Manager o) (o_Ignore o)
    (o_IgnoreReason o) (o_IgnoreLegacyKey o) (o_IgnoreReasonLegacyKey o).

Definition locateManifests (artifact : string) (inv : Inventory) : Inventory :=
  with_VolumePlugins
    (map (fun v => with_VolumeObjects (map (locate artifact) (vu_Objects v)) (vu_ObjectsOmitted v) (vu_Namespaces v) v)
       (VolumePlugins inv))
    (with_APIUsages
       (map (fun u => with_Objects (map (locate artifact) (u_Objects u)) (u_ObjectsOmitted u) (u_Namespaces u) u)
          (APIUsages inv)) inv).

Record gateAnswer := mkGateAnswer { ga_status : Z; ga_verdict : string; ga_response : gateResponse; ga_ci : Report }.

(** The evaluations of [evaluateGate], and for a team scope what its
    answer is cut to. *)
Definition gateEvaluation (s : Server) (clock : nat -> Time) (g : gateRequest) (sc : readScope)
    (cluster : option (Inventory * bool * string)) (manifests : Inventory) : (gateEval * option gateCut) + httpError :=
  match cluster with
  | Some (clusterInv, viewed, ref) =>
      let clusterInv := with_Namespaces (ApplyTeamMap (sv_TeamMap s) (Namespaces clusterInv)) clusterInv in
      let clusterInv := clusterShare sc clusterInv in
      match gateWithin s clock clusterInv viewed manifests (gp_target g) (gp_rules g) ref with
      | inr e => inr e
      | inl ev =>
          inl (ev, if fleet sc then None else Some (mkGateCut (namespaceTeamsOf (Namespaces clusterInv)) (ge_mine ev)))
      end
  | None =>
      let inv := with_Namespaces (ApplyTeamMap (sv_TeamMap s) (Namespaces manifests)) manifests in
      match evaluateWithin s inv (gp_target g) (clock 0%nat) with
      | inr e => inr (mkHTTPError 413 (evalErrorText e))
      | inl full => inl (mkGateEval full None (mkGateSide [] []) noContent, None)
      end
  end.

Definition with_Warnings (warnings : list string) (resp : gateResponse) : gateResponse :=
  mkGateResponse (gr_Report resp) (gr_Teams resp) (gr_Findings resp) (gr_Verdict resp) (gr_Ready resp)
    (gr_ClusterVerdict resp) (gr_SuppressedCount resp) warnings (gr_introducedSuppressed resp).

(** What [evaluateGate] answers of the evaluations. *)
Definition gateRespond (clock : nat -> Time) (g : gateRequest) (sc : readScope) (ev : gateEval) (gcut : option gateCut)
    : gateResponse :=
  let '(rep, warnings) := suppressGate (ge_full ev) (gp_rules g) (clock 4%nat) in
  let rep := capObjects rep (holdsObject (ge_mine ev)) in
  let resp := gateResult rep (ge_baseline ev) (ge_introduced ev) in
  with_Warnings warnings match gcut with Some c => scopeGate sc c resp | None => resp end.

(** [evaluateGate] after the stream is decoded: [bound] is
    [gateAnswerBound], the size an answer could have in a format. *)
Definition evaluateManifests (s : Server) (bound : gateResponse -> string -> Z) (limit : Z) (clock : nat -> Time)
    (g : gateRequest) (sc : readScope) (cluster : option (Inventory * bool * string)) (manifests : Inventory)
    : gateAnswer + httpError :=
  match gateEvaluation s clock g sc cluster (locateManifests (gp_artifact g) manifests) with
  | inr e => inr e
  | inl (ev, gcut) =>
      let resp := gateRespond clock g sc ev gcut in
      if limit <? bound resp (gp_format g) then
        inr (mkHTTPError 413 ("the answer to this stream could take up to " +:+ itoa (bound resp (gp_format g)) +:+
          " bytes, over the " +:+ sizeString limit +:+ " limit for a /gate answer (it lists every object the findings name, with its name, namespace and path); split the stream into several requests (with ?cluster=, the cluster's own findings count too)"))
      else
        inl (mkGateAnswer (if gateFails resp (gp_failOn g) (gp_allowIncomplete g) then 422 else 200) (gr_Verdict resp)
               resp (sarifReport (gr_Report resp) resp))
  end.

(** [evaluateGate]: [aliases] is the answer of the alias check, [stream] what
    the collector reads of the body. *)
Definition evaluateGate (s : Server) (bound : gateResponse -> string -> Z) (limit : Z) (clock : nat -> Time)
    (g : gateRequest) (sc : readScope) (ref : string) (db : SQLite) (aliases : option httpError) (stream : res Inventory)
    : gateAnswer + httpError :=
  match aliases with
  | Some e => inr e
  | None =>
      match stream with
      | Err e => inr (mkHTTPError 422 ("invalid manifest stream: " +:+ e))
      | Ok manifests =>
          if ref =s "" then evaluateManifests s bound limit clock g sc None manifests
          else match gateClusterContext s sc ref db with
               | inr e => inr e
               | inl (inv, viewed) => evaluateManifests s bound limit clock g sc (Some (inv, viewed, ref)) manifests
               end
      end
  end.
End Gate.

(** * What the gate promises

    The verdict judges what the manifests introduce, the merge loses no
    object, a removed API in the stream fails the gate, and a team-scoped
    answer does not depend on other teams. *)

From S2P Require Import AddOns Gaps Crd Limit Calls Scope.

(** ** The verdict *)

(** The finding is the manifests' and not the cluster's. *)
Definition blamed (baseline : option Report) (introduced : gateSide) (f : Finding) : Prop :=
  match baseline with
  | None => True
  | Some base => findingKey f ∈ gs_keys introduced \/
      (f_Category f <> CatDeprecatedAPIInUse /\ forall g, g ∈ r_Findings base -> findingKey g <> findingKey f)
  end.

Lemma keySet_in fs keep x : x ∈ keySet fs keep <-> exists f, f ∈ fs /\ keep f = true /\ findingKey f = x.
Proof.
  unfold keySet. rewrite list_elem_of_In, in_map_iff. setoid_rewrite filter_In. setoid_rewrite <- list_elem_of_In. naive_solver.
Qed.

Lemma sourceOfFinding_manifest baseline introduced f :
  (sourceOfFinding baseline introduced f =s sourceManifest) = true <-> blamed baseline introduced f.
Proof.
  unfold sourceOfFinding, blamed. destruct baseline as [base|]; [|done].
  destruct (mem_str (findingKey f) (gs_keys introduced)) eqn:E1; cbn [negb andb].
  { apply mem_str_spec in E1. naive_solver. }
  assert (H1 : findingKey f ∉ gs_keys introduced) by (rewrite <- mem_str_spec; congruence).
  destruct (f_Category f =s CatDeprecatedAPIInUse) eqn:E2; cbn [orb].
  { to_prop. split; [done|]. naive_solver. }
  destruct (mem_str (findingKey f) (keySet (r_Findings base) (fun _ => true))) eqn:E3.
  - split; [done|]. apply mem_str_spec, keySet_in in E3 as (g & Hg & _ & Hk). naive_solver.
  - split; [|done]. intros _. right. split; [by apply String.eqb_neq|]. intros g Hg Hk.
    assert (findingKey f ∈ keySet (r_Findings base) (fun _ => true)) as Hin%mem_str_spec by (apply keySet_in; eauto). congruence.
Qed.

Lemma gateResult_blocked rep baseline introduced :
  existsb (fun g => (gf_Source g =s sourceManifest) && Findings.isBlocker (gf_Finding g))
    (map (fun f => mkGateFinding f (sourceOfFinding baseline introduced f)) (r_Findings rep)) = true <->
  exists f, f ∈ r_Findings rep /\ f_Severity f = SevBlocker /\ blamed baseline introduced f.
Proof.
  rewrite existsb_exists. setoid_rewrite in_map_iff. setoid_rewrite <- list_elem_of_In. split.
  - intros (g & (f & <- & Hf) & Hg). simpl in Hg. apply andb_true_iff in Hg as [Hs Hb]. unfold Findings.isBlocker in Hb. to_prop.
    exists f. split_and!; [done|done|apply sourceOfFinding_manifest; by apply String.eqb_eq].
  - intros (f & Hf & Hs & Hb). exists (mkGateFinding f (sourceOfFinding baseline introduced f)).
    split; [by exists f|]. simpl. unfold Findings.isBlocker.
    by rewrite (proj2 (sourceOfFinding_manifest _ _ _) Hb), (proj2 (String.eqb_eq _ _) Hs).
Qed.

(** The gate's verdict is about the manifests: it is blocked exactly when
    a blocker of the proposed state is theirs, that is, when their own
    content produces it or neither the cluster as it is nor its apiserver's
    callers have it; ready exactly when there is none and nothing required
    went unassessed; and every finding is kept, in order, tagged with whose
    it is. A finding the cluster already has never blocks a stream that does
    not produce it. *)
Lemma gateResult_verdict (rep : Report) (baseline : option Report) (introduced : gateSide) :
  let resp := gateResult rep baseline introduced in
  (gr_Verdict resp = VerdictBlocked <->
     exists f, f ∈ r_Findings rep /\ f_Severity f = SevBlocker /\ blamed baseline introduced f) /\
  (gr_Verdict resp = VerdictReady <->
     (forall f, f ∈ r_Findings rep -> blamed baseline introduced f -> f_Severity f <> SevBlocker) /\
     (forall g, g ∈ r_NotAssessed rep -> g_Required g = false)) /\
  gr_Ready resp = (gr_Verdict resp =s VerdictReady) /\
  map gf_Finding (gr_Findings resp) = r_Findings rep /\
  (forall g, g ∈ gr_Findings resp -> gf_Source g = sourceManifest <-> blamed baseline introduced (gf_Finding g)).
Proof.
  cbn [gateResult gr_Verdict gr_Ready gr_Findings]. pose proof (gateResult_blocked rep baseline introduced) as Hb.
  assert (Hreq : existsb g_Required (r_NotAssessed rep) = false <-> forall g, g ∈ r_NotAssessed rep -> g_Required g = false).
  { rewrite <- not_true_iff_false, existsb_exists. setoid_rewrite <- list_elem_of_In. split.
    - intros Hn g Hg. apply not_true_iff_false. eauto.
    - intros Hn (g & Hg & Ht). by rewrite Hn in Ht. }
  split_and!.
  - rewrite <- Hb. destruct (existsb _ (map _ _)); [done|]. split; [|done]. by case_match.
  - destruct (existsb _ (map _ _)) eqn:E.
    + split; [done|]. intros [Hf _]. destruct (proj1 Hb eq_refl) as (f & Hin & Hs & Hbl). by destruct (Hf f Hin Hbl).
    + assert (Hnone : forall f, f ∈ r_Findings rep -> blamed baseline introduced f -> f_Severity f <> SevBlocker).
      { intros f Hin Hbl Hs. assert (false = true); [|done]. apply Hb. eauto. }
      destruct (existsb g_Required (r_NotAssessed rep)) eqn:Eg.
      * split; [done|]. intros [_ Hg]. assert (true = false); [|done]. by apply Hreq.
      * split; [|done]. intros _. split; [done|by apply Hreq].
  - done.
  - rewrite map_map. simpl. apply map_id.
  - intros g (f & <- & Hf)%list_elem_of_In%in_map_iff. simpl. rewrite <- sourceOfFinding_manifest. by rewrite String.eqb_eq.
Qed.

(** ** The proposed state's API usage *)

(** The same object: namespace and name. *)
Definition sameObject (a b : ObjectRef) : Prop := o_Namespace a = o_Namespace b /\ o_Name a = o_Name b.

Lemma upsertRow_objects u m :
  u_Objects (upsertRow u m) = List.filter (fun o => negb (replacedBy (u_Objects m) o)) (u_Objects u) ++ u_Objects m.
Proof.
  unfold upsertRow. assert (Hk : forall l c n (k : list ObjectRef),
    (foldl (fun '(count, namespaces, kept) o =>
             if replacedBy (u_Objects m) o
             then (Z.max 0 (wrap64 (count - 1)), countDown (o_Namespace o) namespaces, kept)
             else (count, namespaces, kept ++ [o])) (c, n, k) l).2 = k ++ List.filter (fun o => negb (replacedBy (u_Objects m) o)) l).
  { induction l as [|o l IH]; intros c n k; simpl; [by rewrite app_nil_r|].
    destruct (replacedBy (u_Objects m) o); rewrite IH; [done|]. by rewrite <- app_assoc. }
  specialize (Hk (u_Objects u) (u_Count u) (u_Namespaces u) []).
  destruct (foldl _ _ _) as [[c n] k]. simpl in *. by rewrite Hk.
Qed.

Lemma upsertRow_gvk u m : gvkOf (upsertRow u m) = gvkOf u.
Proof. unfold upsertRow. by destruct (foldl _ _ _) as [[c n] k]. Qed.

Lemma satAdd_range a b : 0 <= satAdd a b <= maxInt \/ b > maxInt.
Proof. unfold satAdd. destruct (decide (b > maxInt)); [by right|left]. case_match; to_prop; unfold maxInt in *; lia. Qed.

Lemma replacedBy_spec objs o : replacedBy objs o = true -> exists n, n ∈ objs /\ sameObject n o.
Proof.
  unfold replacedBy. intros [_ H]%andb_true_iff. apply existsb_exists in H as (n & Hn & H). to_prop.
  exists n. split; [by apply list_elem_of_In|done].
Qed.

Lemma upsertRow_keeps u m o :
  o ∈ u_Objects u -> o ∈ u_Objects (upsertRow u m) \/ exists n, n ∈ u_Objects m /\ sameObject n o.
Proof.
  intros Ho. rewrite upsertRow_objects, elem_of_app. destruct (replacedBy (u_Objects m) o) eqn:E.
  - right. by apply replacedBy_spec.
  - left. left. apply elem_of_Lfilter. by rewrite E.
Qed.

Lemma upsertRow_adds u m o : o ∈ u_Objects m -> o ∈ u_Objects (upsertRow u m).
Proof. intros Ho. rewrite upsertRow_objects, elem_of_app. by right. Qed.

(** Some object of the row is the same as [o]. *)
Definition lists (u : APIUsage) (o : ObjectRef) : Prop := exists n, n ∈ u_Objects u /\ sameObject n o.

Lemma upsertRow_lists u m o : lists u o -> lists (upsertRow u m) o.
Proof.
  intros (n & Hn & [H1 H2]). destruct (upsertRow_keeps u m n Hn) as [H|(n' & Hn' & [H3 H4])].
  - exists n. done.
  - exists n'. split; [by apply upsertRow_adds|]. split; congruence.
Qed.

(** The index points at a row of its API, and every row is indexed. *)
Definition indexed (st : upsertState) : Prop :=
  (forall g i, st.2 !! g = Some i -> exists u, st.1 !! i = Some u /\ gvkOf u = g) /\
  (forall u, u ∈ st.1 -> is_Some (st.2 !! gvkOf u)).

Lemma indexed_append out at_ u : indexed (out, at_) -> indexed (out ++ [u], <[gvkOf u := length out]> at_).
Proof.
  intros [H1 H2]. split; simpl.
  - intros g i. destruct (decide (g = gvkOf u)) as [->|Hg].
    + rewrite lookup_insert_eq. intros [= <-]. exists u. by rewrite list_lookup_middle.
    + rewrite lookup_insert_ne by done. intros (v & Hv & Hk)%H1. exists v. split; [by apply lookup_app_l_Some|done].
  - intros v [Hv| ->%list_elem_of_singleton]%elem_of_app; [|by rewrite lookup_insert_eq].
    destruct (decide (gvkOf v = gvkOf u)) as [-> |Hg]; [by rewrite lookup_insert_eq|].
    rewrite lookup_insert_ne by done. by apply H2.
Qed.

Lemma cluster_state cl : (foldl clusterRow ([], ∅) cl).1 = cl /\ indexed (foldl clusterRow ([], ∅) cl).
Proof.
  induction cl as [|u cl IH] using rev_ind.
  - split; [done|]. split; simpl; [intros g i; by rewrite lookup_empty|by intros u ?%not_elem_of_nil].
  - rewrite foldl_app. cbn [foldl]. destruct (foldl clusterRow ([], ∅) cl) as [out at_]. cbn [clusterRow fst] in *.
    destruct IH as [-> IH]. split; [done|]. by apply indexed_append.
Qed.

(** What one manifest row does to the rows. *)
Lemma manifestRow_spec out at_ m :
  indexed (out, at_) ->
  let st := manifestRow (out, at_) m in
  indexed st /\
  (exists extra, map gvkOf st.1 = map gvkOf out ++ extra) /\
  (forall i u, out !! i = Some u -> exists u', st.1 !! i = Some u' /\ (u' = u \/ (u' = upsertRow u m /\ gvkOf m = gvkOf u))) /\
  (exists u, u ∈ st.1 /\ gvkOf u = gvkOf m /\ forall o, o ∈ u_Objects m -> lists u o).
Proof.
  intros [H1 H2]. cbn [fst snd] in H1, H2. cbn [manifestRow]. destruct (at_ !! gvkOf m) as [j|] eqn:E; cbv zeta.
  - destruct (H1 _ _ E) as (u & Hu & Hg). simpl in Hu.
    assert (Hmap : map gvkOf (alter (fun u => upsertRow u m) j out) = map gvkOf out).
    { rewrite <- (take_drop_middle out j u Hu) at 1. rewrite alter_app_r_alt by (rewrite length_take_le; [lia|];
        apply Nat.lt_le_incl; by eapply lookup_lt_Some).
      rewrite length_take_le by (apply Nat.lt_le_incl; by eapply lookup_lt_Some). rewrite Nat.sub_diag. simpl.
      rewrite <- (take_drop_middle out j u Hu) at 3. rewrite !map_app. simpl. by rewrite upsertRow_gvk. }
    split_and!.
    + split; simpl.
      * intros g i (v & Hv & Hk)%H1. destruct (decide (i = j)) as [->|Hij].
        -- exists (upsertRow v m). rewrite list_lookup_alter_eq, Hv. split; [done|by rewrite upsertRow_gvk].
        -- exists v. by rewrite list_lookup_alter_ne.
      * intros v Hv. assert (gvkOf v ∈ map gvkOf out) as Hin.
        { rewrite <- Hmap. by apply list_elem_of_In, in_map, list_elem_of_In. }
        apply list_elem_of_In, in_map_iff in Hin as (w & <- & Hw%list_elem_of_In). by apply H2.
    + exists []. by rewrite app_nil_r.
    + intros i v Hv. simpl. destruct (decide (i = j)) as [->|Hij].
      * exists (upsertRow v m). rewrite list_lookup_alter_eq, Hv. split; [done|]. right. split; [done|congruence].
      * exists v. rewrite list_lookup_alter_ne by done. by auto.
    + exists (upsertRow u m). split_and!.
      * apply (list_elem_of_lookup_2 _ j). simpl. by rewrite list_lookup_alter_eq, Hu.
      * by rewrite upsertRow_gvk.
      * intros o Ho. exists o. split; [by apply upsertRow_adds|done].
  - split_and!.
    + by apply indexed_append.
    + exists [gvkOf m]. simpl. by rewrite map_app.
    + intros i v Hv. exists v. split; [by apply lookup_app_l_Some|by left].
    + exists m. split_and!; [simpl; rewrite elem_of_app; right; by left|done|]. intros o Ho. by exists o.
Qed.

Lemma upsert_invariant cl ms :
  let st := foldl manifestRow (foldl clusterRow ([], ∅) cl) ms in
  indexed st /\
  (exists extra, map gvkOf st.1 = map gvkOf cl ++ extra) /\
  (forall i u o, cl !! i = Some u -> o ∈ u_Objects u -> exists u', st.1 !! i = Some u' /\
     (o ∈ u_Objects u' \/ (lists u' o /\ exists m n, m ∈ ms /\ gvkOf m = gvkOf u /\ n ∈ u_Objects m /\ sameObject n o))) /\
  (forall m o, m ∈ ms -> o ∈ u_Objects m -> exists u, u ∈ st.1 /\ gvkOf u = gvkOf m /\ lists u o).
Proof.
  induction ms as [|m ms IH] using rev_ind; cbv zeta.
  - cbn [foldl]. destruct (cluster_state cl) as [E Hi]. rewrite E. split_and!; [done|exists []; by rewrite app_nil_r| |].
    + intros i u o Hu Ho. exists u. auto.
    + by intros m o ?%not_elem_of_nil.
  - cbv zeta in IH. destruct IH as (Hi & (extra & He) & Hc & Hm). rewrite foldl_app. cbn [foldl].
    destruct (foldl manifestRow (foldl clusterRow ([], ∅) cl) ms) as [out at_]. cbn [fst snd] in He, Hc, Hm.
    destruct (manifestRow_spec out at_ m Hi) as (Hi' & (extra' & He') & Hrow & Hnew). split_and!; [done| | |].
    + exists (extra ++ extra'). by rewrite He', He, app_assoc.
    + intros i u o Hu Ho. destruct (Hc i u o Hu Ho) as (u1 & Hu1 & Hl).
      destruct (Hrow i u1 Hu1) as (u2 & Hu2 & Hup). exists u2. split; [done|].
      assert (Hg : gvkOf u1 = gvkOf u).
      { apply (f_equal (lookup i)) in He. rewrite lookup_app_l in He by (rewrite length_map; by eapply lookup_lt_Some).
        rewrite !list_lookup_fmap in He. rewrite Hu1, Hu in He. by apply (inj Some) in He. }
      destruct Hup as [-> |[-> Hgm]].
      * destruct Hl as [Hl|(Hl & m' & n & Hm' & ?)]; [by left|right]. split; [done|]. exists m', n. rewrite elem_of_app. auto.
      * destruct Hl as [Hl|(Hl & m' & n & Hm' & ?)].
        -- destruct (upsertRow_keeps u1 m o Hl) as [H|(n & Hn & Hs)]; [by left|right]. split; [exists n; split; [by apply upsertRow_adds|done]|].
           exists m, n. rewrite elem_of_app. split_and!; [right; by left|congruence|done|done].
        -- right. split; [by apply upsertRow_lists|]. exists m', n. rewrite elem_of_app. auto.
    + intros m' o [Hm'| ->%list_elem_of_singleton]%elem_of_app Ho.
      * destruct (Hm m' o Hm' Ho) as (u & Hu & Hg & Hl). apply list_elem_of_lookup in Hu as [i Hu].
        destruct (Hrow i u Hu) as (u2 & Hu2 & [-> |[-> _]]); [exists u|exists (upsertRow u m)].
        -- split_and!; [by eapply list_elem_of_lookup_2|done|done].
        -- split_and!; [by eapply list_elem_of_lookup_2|by rewrite upsertRow_gvk|by apply upsertRow_lists].
      * destruct Hnew as (u & Hu & Hg & Hl). exists u. auto.
Qed.

(** Merging a stream into a cluster's API usage loses nothing: the
    cluster's rows keep their places and their APIs, and new APIs come after
    them; an object of the cluster stays listed unless the stream applies
    the object of that API, namespace and name, which is then listed in its
    place; and every object of the stream is listed under its API. *)
Lemma upsertUsage_conserves (cluster manifests : list APIUsage) :
  let out := upsertUsage cluster manifests in
  (exists extra, map gvkOf out = map gvkOf cluster ++ extra) /\
  (forall i u o, cluster !! i = Some u -> o ∈ u_Objects u -> exists u', out !! i = Some u' /\
     (o ∈ u_Objects u' \/
      (lists u' o /\ exists m n, m ∈ manifests /\ gvkOf m = gvkOf u /\ n ∈ u_Objects m /\ sameObject n o))) /\
  (forall m o, m ∈ manifests -> o ∈ u_Objects m -> exists u, u ∈ out /\ gvkOf u = gvkOf m /\ lists u o).
Proof. apply upsert_invariant. Qed.

(** Every row of the stream has its API among the rows. *)
Lemma upsertUsage_api cluster manifests m :
  m ∈ manifests -> exists u, u ∈ upsertUsage cluster manifests /\ gvkOf u = gvkOf m.
Proof.
  intros Hm. apply list_elem_of_split in Hm as (ms1 & ms2 & ->).
  destruct (upsert_invariant cluster ms1) as (Hi & _). unfold upsertUsage. rewrite foldl_app. cbn [foldl].
  destruct (foldl manifestRow (foldl clusterRow ([], ∅) cluster) ms1) as [out at_].
  destruct (manifestRow_spec out at_ m Hi) as (Hi' & _ & _ & (u & Hu & Hg & _)).
  set (st := manifestRow (out, at_) m) in *. clearbody st. clear -Hi' Hu Hg. revert st u Hi' Hu Hg.
  induction ms2 as [|m' ms2 IH]; intros [out at_] u Hi Hu Hg; [by exists u|]. cbn [foldl].
  destruct (manifestRow_spec out at_ m' Hi) as (Hi' & _ & Hrow & _). apply list_elem_of_lookup in Hu as [i Hu].
  destruct (Hrow i u Hu) as (u2 & Hu2 & Hup). apply (IH _ u2 Hi'); [by eapply list_elem_of_lookup_2|].
  destruct Hup as [-> |[-> _]]; [done|by rewrite upsertRow_gvk].
Qed.

(** Every object a row lists is the cluster's or the stream's. *)
Lemma upsertUsage_objects cluster manifests u o :
  u ∈ upsertUsage cluster manifests -> o ∈ u_Objects u ->
  exists v, (v ∈ cluster \/ v ∈ manifests) /\ gvkOf v = gvkOf u /\ o ∈ u_Objects v.
Proof.
  assert (H : forall ms st, indexed st ->
    (forall u o, u ∈ st.1 -> o ∈ u_Objects u -> exists v, (v ∈ cluster \/ v ∈ manifests) /\ gvkOf v = gvkOf u /\ o ∈ u_Objects v) ->
    (forall m, m ∈ ms -> m ∈ manifests) ->
    forall u o, u ∈ (foldl manifestRow st ms).1 -> o ∈ u_Objects u ->
      exists v, (v ∈ cluster \/ v ∈ manifests) /\ gvkOf v = gvkOf u /\ o ∈ u_Objects v).
  { induction ms as [|m ms IH]; intros [out at_] Hi Hst Hms; [done|]. cbn [foldl].
    destruct (manifestRow_spec out at_ m Hi) as (Hi' & _). apply IH; [done| |intros; apply Hms; by right].
    intros u' o' Hu Ho. cbn [manifestRow] in Hu. destruct (at_ !! gvkOf m) as [j|] eqn:E; cbn [fst] in Hu.
    - apply list_elem_of_lookup in Hu as [i Hu]. destruct (decide (i = j)) as [->|Hij].
      + rewrite list_lookup_alter_eq in Hu. destruct (out !! j) as [w|] eqn:Ew; [|done]. injection Hu as <-.
        rewrite upsertRow_objects in Ho. rewrite upsertRow_gvk. destruct (proj1 Hi _ _ E) as (w' & Hw' & Hg). simpl in Hw'.
        apply elem_of_app in Ho as [[Ho _]%elem_of_Lfilter|Ho].
        * apply (Hst w); [by eapply list_elem_of_lookup_2|done].
        * exists m. split_and!; [right; apply Hms; by left|congruence|done].
      + rewrite list_lookup_alter_ne in Hu by done. apply (Hst u'); [by eapply list_elem_of_lookup_2|done].
    - apply elem_of_app in Hu as [Hu| ->%list_elem_of_singleton]; [by apply (Hst u')|].
      exists m. split_and!; [right; apply Hms; by left|done|done]. }
  destruct (cluster_state cluster) as [E Hi]. apply H; [done| |done]. rewrite E. intros u' o' Hu Ho. exists u'. auto.
Qed.

(** ** A team-scoped answer *)

Section Gate.
Context `{Scheme} `{AgentSemver}.

(** The cluster's inventory with the team map applied. *)
Definition teamed (s : Server) (inv : Inventory) : Inventory :=
  with_Namespaces (ApplyTeamMap (sv_TeamMap s) (Namespaces inv)) inv.


(** ** A removed API in the stream *)

Section Removal.
Context `{Semver} `{KubeAware}.
Context (s : Server) (g : gateRequest) (u : APIUsage) (e : APILifecycleEntry) (rv : Version).
Context (Hkb : kb_ok (sv_KB s)).
(** The server runs the engine. *)
Context (Hengine : forall inv t now, EvaluateWithin inv (sv_KB s) t now (sv_maxReportBytes s) =
                                     Some (runEngine s inv (sv_KB s) t now (sv_maxReportBytes s))).
Context (Hentry : Lookup (NewIndex (k_APILifecycle (sv_KB s))) (u_Group u) (u_Version u) (u_Kind u) = Some e).
Context (Hremoved : e_Removed e = Some rv) (Htarget : vle rv (gp_target g)) (Hserved : vle (e_Introduced e) (gp_target g)).

(** The finding of the removal, as far as rules and annotations see it. *)
Definition removalOf : Finding :=
  newFinding CatRemovedAPI SevBlocker (CatRemovedAPI +:+ "/" +:+ apiKey (u_Group u) (u_Version u) (u_Kind u)) "" "" [].

(** No rule in force names it ([Suppress.inForce]: by its key or category,
    with a reason, not past its expiry), and no object at that API annotates
    it with a reason. *)
Definition unaccepted (now : Time) : Prop := forall rule, rule ∈ gp_rules g -> ~ inForce now rule removalOf.

Definition unannotated (us : list APIUsage) : Prop :=
  forall v o, v ∈ us -> gvkOf v = gvkOf u -> o ∈ u_Objects v ->
    ~ (names_finding o removalOf /\ TrimSpace (o_IgnoreReason o) <> ""%string).

Lemma removal_stays inv now rep now' :
  evaluateWithin s inv (gp_target g) now = inl rep ->
  (exists v, v ∈ APIUsages inv /\ gvkOf v = gvkOf u) -> unannotated (APIUsages inv) -> unaccepted now' ->
  exists f, f ∈ r_Findings (suppressGate rep (gp_rules g) now').1 /\ f_Severity f = SevBlocker /\
    f_Category f = CatRemovedAPI /\ findingKey f = f_Key removalOf.
Proof using Hkb Hengine Hentry Hremoved Htarget Hserved.
  intros He (v & Hv & Hg) Ho Hr. unfold evaluateWithin in He. pose proof (Hengine inv (gp_target g) now) as Hrun.
  case_match; [|done]. injection He as ->. apply EvaluateWithin_report in Hrun; [|done].
  assert (Heq := Hg). injection Hg as E1 E2 E3.
  destruct (removed_api_finding inv (sv_KB s) (gp_target g) now rep v e rv) as (f & Hf & Hsev & Hcat & Hkey & Hobjs); try done.
  { by rewrite E1, E2, E3. }
  rewrite E1, E2, E3 in Hkey. change (f_Key f = f_Key removalOf) in Hkey.
  change (f_Category f = f_Category removalOf) in Hcat.
  exists f. split_and!; [|done|done|by unfold findingKey, key; simpl; rewrite Hkey].
  unfold suppressGate. destruct (Apply_spec rep (gp_rules g) (mkOptions now' gateConfigSource "")) as (rep' & ws & HA & _).
  rewrite HA. apply (Apply_keeps_finding _ _ _ _ _ _ HA Hf).
  - intros rule Hin Hval Hexp. unfold ruleFor. rewrite Hkey, Hcat. by apply (not_inForce now' rule removalOf); [apply Hr|..].
  - intros o Hin Hann. apply (not_annotated o removalOf); [apply (Ho v o); [done|done|]|].
    + rewrite Hobjs in Hin. unfold sortedObjects in Hin. by rewrite isort_perm in Hin.
    + unfold annotated in *. by rewrite <- Hcat, <- Hkey.
Qed.

(** Capping the listed objects keeps a finding's name and severity. *)
Lemma trim_head mine f : findingKey (trim mine f) = findingKey f /\ f_Severity (trim mine f) = f_Severity f.
Proof. unfold trim. by case_match. Qed.

Lemma gateResult_blocks rep baseline introduced mine f :
  f ∈ r_Findings rep -> f_Severity f = SevBlocker ->
  (baseline = None \/ findingKey f ∈ gs_keys introduced) ->
  gr_Verdict (gateResult (capObjects rep mine) baseline introduced) = VerdictBlocked.
Proof.
  intros Hf Hs Hb. unfold gateResult, gr_Verdict. rewrite (proj2 (gateResult_blocked _ _ _)); [done|].
  destruct (trim_head mine f) as [Hk Hs']. exists (trim mine f). split_and!.
  - cbn [capObjects with_Findings r_Findings]. by apply list_elem_of_In, in_map, list_elem_of_In.
  - congruence.
  - unfold blamed. destruct baseline as [base|]; [|done]. left. rewrite Hk. by destruct Hb.
Qed.

Lemma located_rows inv v :
  v ∈ APIUsages (locateManifests (gp_artifact g) inv) ->
  exists w, w ∈ APIUsages inv /\ gvkOf w = gvkOf v /\
    forall o, o ∈ u_Objects v -> exists o', o' ∈ u_Objects w /\ o_Ignore o' = o_Ignore o /\ o_IgnoreReason o' = o_IgnoreReason o.
Proof.
  cbn [locateManifests with_VolumePlugins with_APIUsages APIUsages]. intros (w & <- & Hw%list_elem_of_In)%list_elem_of_In%in_map_iff.
  exists w. split_and!; [done|done|]. cbn [with_Objects u_Objects]. intros o (o' & <- & Ho%list_elem_of_In)%list_elem_of_In%in_map_iff.
  by exists o'.
Qed.

Lemma located_unannotated inv : unannotated (APIUsages inv) -> unannotated (APIUsages (locateManifests (gp_artifact g) inv)).
Proof.
  intros Hu v o Hv Hg Ho Ha. destruct (located_rows inv v Hv) as (w & Hw & Hgw & Hobj).
  destruct (Hobj o Ho) as (o' & Ho' & Hi & Hi'). apply (Hu w o'); [done|congruence|done|].
  unfold names_finding in *. by rewrite Hi, Hi'.
Qed.

Lemma share_unannotated sc inv : unannotated (APIUsages inv) -> unannotated (APIUsages (clusterShare sc inv)).
Proof.
  intros Hu. unfold clusterShare. destruct (fleet sc); [done|]. cbn [APIUsages].
  intros v o (w & Hw & Hv)%list_elem_of_omap. cbv beta zeta in Hv. case_match; [done|]. injection Hv as <-.
  cbn [u_Objects gvkOf u_Group u_Version u_Kind]. intros Hg [Ho _]%elem_of_Lfilter. by apply (Hu w o).
Qed.

(** The manifests' side and the proposed state keep the stream's row. *)
Lemma gateWithin_removal clock clusterInv viewed manifests ref ev :
  gateWithin s clock clusterInv viewed manifests (gp_target g) (gp_rules g) ref = inl ev ->
  (exists v, v ∈ APIUsages manifests /\ gvkOf v = gvkOf u) ->
  (forall n, unaccepted (clock n)) -> unannotated (APIUsages manifests) -> unannotated (APIUsages clusterInv) ->
  findingKey removalOf ∈ gs_keys (ge_introduced ev) /\
  exists f, f ∈ r_Findings (suppressGate (ge_full ev) (gp_rules g) (clock 4%nat)).1 /\ f_Severity f = SevBlocker /\
    findingKey f = findingKey removalOf.
Proof using Hkb Hengine Hentry Hremoved Htarget Hserved.
  unfold gateWithin, mergeManifests. cbv zeta. intros Hev (v & Hv & Hg) Hr Hm Hc.
  destruct (evaluateWithin s clusterInv _ _) as [base|?]; [|done]. case_match eqn:Eside; [|done]. case_match eqn:Efull; [|done].
  injection Hev as <-. cbn [ge_introduced ge_full]. split.
  - destruct (removal_stays _ _ _ (clock 3%nat) Eside) as (f & Hf & _ & Hcat & Hk); [by exists v|done|done|].
    cbn [suppressSide gs_keys]. unfold introducedKeys. rewrite elem_of_app. left. apply keySet_in. exists f.
    split_and!; [done|by rewrite Hcat|done].
  - destruct (removal_stays _ _ _ (clock 4%nat) Efull) as (f & Hf & Hs & _ & Hk); [| |done|by exists f];
      cbn [with_Capabilities with_CRDs with_VolumePlugins with_AddOns proposedState with_APIUsages APIUsages].
    + destruct (upsertUsage_api (APIUsages clusterInv) (APIUsages manifests) v Hv) as (w & Hw & Hgw).
      exists w. split; [done|congruence].
    + intros w o Hw Hgw Ho. destruct (upsertUsage_objects _ _ _ _ Hw Ho) as (x & [Hx|Hx] & Hgx & Hox).
      * apply (Hc x o); [done|congruence|done].
      * apply (Hm x o); [done|congruence|done].
Qed.

Lemma scopeGate_verdict sc c resp : gr_Verdict (scopeGate sc c resp) = gr_Verdict resp.
Proof. unfold scopeGate. by destruct (fleet sc). Qed.

Lemma gateRespond_blocks cluster m clock sc ev gcut :
  gateEvaluation s clock g sc cluster m = inl (ev, gcut) ->
  (exists v, v ∈ APIUsages m /\ gvkOf v = gvkOf u) ->
  (forall n, unaccepted (clock n)) -> unannotated (APIUsages m) ->
  (forall inv viewed ref, cluster = Some (inv, viewed, ref) -> unannotated (APIUsages inv)) ->
  gr_Verdict (gateRespond clock g sc ev gcut) = VerdictBlocked.
Proof using Hkb Hengine Hentry Hremoved Htarget Hserved.
  intros E Hv Hr Hm Hc.
  assert (Hev : exists f, f ∈ r_Findings (suppressGate (ge_full ev) (gp_rules g) (clock 4%nat)).1 /\
    f_Severity f = SevBlocker /\ (ge_baseline ev = None \/ findingKey f ∈ gs_keys (ge_introduced ev))).
  { unfold gateEvaluation in E. destruct cluster as [[[inv viewed] ref]|]; cbv zeta in E.
    - destruct (gateWithin _ _ _ _ _ _ _ _) as [ev'|] eqn:Eg; [|done]. injection E as -> _.
      destruct (gateWithin_removal _ _ _ _ _ _ Eg) as (Hin & f & Hf & Hs & Hk); try done.
      { apply share_unannotated. by apply (Hc inv viewed ref). }
      exists f. rewrite Hk. auto.
    - destruct (evaluateWithin _ _ _ _) as [full|] eqn:Ee; [|done]. injection E as <- _.
      destruct (removal_stays _ _ _ (clock 4%nat) Ee) as (f & Hf & Hs & _); [done|done|done|]. exists f. auto. }
  destruct Hev as (f & Hf & Hs & Hb). unfold gateRespond.
  destruct (suppressGate (ge_full ev) (gp_rules g) (clock 4%nat)) as [rep ws]. cbn [with_Warnings gr_Verdict].
  destruct gcut; rewrite ?scopeGate_verdict; by apply (gateResult_blocks _ _ _ _ f).
Qed.

(** C4 The gate holds the line it is there for: when the server runs the
    engine, a stream that uses an API the target removes is answered with
    verdict blocked, with or without a cluster, for a fleet or a team token
    and whatever the cluster, the other manifests and the other rules are,
    unless a rule in force names the removal or an object at that API
    accepts it with a reason; and the answer fails the request (422) unless
    the caller asked that nothing fail it. *)
Theorem gate_removed_api_blocks (bound : gateResponse -> string -> Z) (limit : Z) (clock : nat -> Time) (sc : readScope)
    (cluster : option (Inventory * bool * string)) (manifests : Inventory) (ans : gateAnswer) :
  evaluateManifests s bound limit clock g sc cluster manifests = inl ans ->
  u ∈ APIUsages manifests ->
  (forall n, unaccepted (clock n)) ->
  unannotated (APIUsages manifests) ->
  (forall inv viewed ref, cluster = Some (inv, viewed, ref) -> unannotated (APIUsages inv)) ->
  ga_verdict ans = VerdictBlocked /\ (gp_failOn g <> "never"%string -> ga_status ans = 422).
Proof using Hkb Hengine Hentry Hremoved Htarget Hserved.
  intros Hans Hu Hr Hm Hc. unfold evaluateManifests in Hans. set (m := locateManifests (gp_artifact g) manifests) in *.
  destruct (gateEvaluation s clock g sc cluster m) as [[ev gcut]|] eqn:E; [|done]. cbv zeta in Hans.
  case_match; [done|]. injection Hans as <-. cbn [ga_verdict ga_status].
  assert (Hver : gr_Verdict (gateRespond clock g sc ev gcut) = VerdictBlocked).
  { apply (gateRespond_blocks cluster m); [done| |done|by apply located_unannotated|done].
    eexists. split; [cbn; apply list_elem_of_In, in_map, list_elem_of_In, Hu|reflexivity]. }
  split; [done|]. intros Hne. unfold gateFails. rewrite Hver. by rewrite (proj2 (String.eqb_neq _ _) Hne).
Qed.
End Removal.
End Gate.

(** ** Witnesses *)

#[local] Existing Instance exactSemver.
#[local] Existing Instance Crd.byName.
#[local] Existing Instance dottedSemver.
#[local] Instance coreScheme : Scheme := { IsGroupRegistered g := mem_str g ["extensions"; "batch"; "apps"]%string }.

(** A server that runs the engine. *)
Definition engineServer (k : KB) : Server :=
  mkServer k [] "" [] [] 1000000
    (fun inv k t now limit => match EvaluateWithin inv k t now limit with Some r => r | None => Err "" end)
    (fun _ => 10) sn_Inventory.

Lemma engineServer_runs k inv t now :
  kb_ok k -> EvaluateWithin inv k t now 1000000 = Some (runEngine (engineServer k) inv k t now 1000000).
Proof.
  intros Hk. destruct (evaluate_charges inv k t now Hk) as (ns & r & _ & _ & Hev & _). simpl.
  unfold EvaluateWithin. by rewrite Hev.
Qed.

Definition ingressRow : APIUsage := mkAPIUsage "extensions" "v1beta1" "Ingress" 1 ∅ [ref "billing" "web"] 0.
Definition ingressStream : Inventory :=
  mkInventory 1 "" 1 "manifests" 0 "" "" (Capabilities cleanInventory) [ingressRow] [] [] [] [] [] [] [] [] 0 [] [] 0 0 [].
Definition gate122 (rules : list Rule) : gateRequest := mkGateRequest (mkVersion 1 22) "" "blocker" "deploy/web.yaml" rules false.
Definition elsewhere : Rule := mkRule "" "chart-incompat" "" "" "" "chart is replaced in May" "".


Lemma gate_removed_api_blocks_witness :
  exists ans, evaluateManifests (engineServer ingressKB) (fun _ _ => 0) 100 (fun _ => 0) (gate122 [elsewhere]) billingScope
    (Some (shopBefore, false, "prod"%string)) ingressStream = inl ans /\ ga_verdict ans = VerdictBlocked /\ ga_status ans = 422.
Proof.
  destruct (evaluateManifests (engineServer ingressKB) (fun _ _ => 0) 100 (fun _ => 0) (gate122 [elsewhere]) billingScope
    (Some (shopBefore, false, "prod"%string)) ingressStream) as [ans|] eqn:E; [|vm_compute in E; discriminate E].
  exists ans. split; [reflexivity|].
  destruct (gate_removed_api_blocks (engineServer ingressKB) (gate122 [elsewhere]) ingressRow ingressEntry (mkVersion 1 22))
    with (7 := E) as [Hv Hst].
  - apply Forall_nil_2.
  - intros inv t now. apply engineServer_runs. apply Forall_nil_2.
  - vm_compute. reflexivity.
  - reflexivity.
  - by right.
  - vm_compute. intuition congruence.
  - by left.
  - intros n rule Hin. apply list_elem_of_singleton in Hin as ->. intros [[(Hc & _)|(_ & _ & Hc)] _ _]; vm_compute in Hc; discriminate Hc.
  - intros v o Hv _ Ho [_ Hne]. apply list_elem_of_singleton in Hv as ->. apply list_elem_of_singleton in Ho as ->. by apply Hne.
  - intros inv viewed r [= <- _ _] v o Hv Hg. exfalso. apply list_elem_of_singleton in Hv as ->. vm_compute in Hg. discriminate Hg.
  - split; [exact Hv|]. apply Hst. discriminate.
Defined.
