(* ===== verification/Body.v ===== *)
(** * Request bodies under a shared budget

    [byteBudget], [readBody] and the two callers of src/internal/server/api.go,
    and the JSON meter of jsoncost.go. A body is read in chunks into memory
    that every request of its kind shares a budget for.

    The reader a body comes from (the connection, or the gzip stream over
    it, capped) is outside the program: what each [Read] returns is an
    answer of the environment, at most the room it was given, and what other
    requests do to the budget meanwhile happens between two reads. Counts
    are [Z]: a body is at most some megabytes, far from the width of an
    [int]. *)

From stdpp Require Import base list strings gmap.
From Stdlib Require Import ZArith Lia Ascii.
From S2P Require Import Prelude GoStr Auth Gate.

(** ** The budget *)

Record byteBudget := mkByteBudget { bb_used : Z; bb_max : Z }.

Definition newByteBudget (limit : Z) : byteBudget := mkByteBudget 0 limit.

(** [charge]: [held] is given back when [n] more do not fit. *)
Definition charge (held n : Z) (b : byteBudget) : bool * byteBudget :=
  if bb_max b <? bb_used b + n then (false, mkByteBudget (bb_used b - held) (bb_max b))
  else (true, mkByteBudget (bb_used b + n) (bb_max b)).

Definition give (n : Z) (b : byteBudget) : byteBudget := mkByteBudget (bb_used b - n) (bb_max b).

Definition fits (n : Z) (b : byteBudget) : bool := bb_used b + n <=? bb_max b.

(** ** Reading a body *)

Definition minBodyChunk : Z := 512.
Definition maxBodyChunk : Z := 65536.

(** The chunk being filled: what it holds of its capacity. *)
Record chunk := mkChunk { ck_data : string; ck_cap : Z }.

Record bodyState := mkBody { bs_full : list string; bs_cur : option chunk; bs_held : Z }.

Definition emptyBody : bodyState := mkBody [] None 0.

(** [bufferedBody]: the chunks, in order. *)
Definition chunks (st : bodyState) : list string :=
  bs_full st ++ match bs_cur st with Some c => [ck_data c] | None => [] end.

(** [bufferedBody.bytes]. *)
Definition bodyBytes (st : bodyState) : string := foldr (fun c s => c +:+ s) ""%string (chunks st).

(** What a [Read] ends with, as [readBody] tells errors apart: [readError] is
    what any other error is answered with. *)
Inductive readEnd := ReadMore | ReadEOF | ReadTooLarge | ReadFails (e : httpError).

Record answer := mkAnswer { an_bytes : string; an_end : readEnd }.

Definition chunkFull (st : bodyState) : bool :=
  match bs_cur st with None => true | Some c => slen (ck_data c) =? ck_cap c end.

(** The size of the next chunk. *)
Definition nextSize (declared : Z) (st : bodyState) : Z :=
  let size := Z.min (Z.max (bs_held st) minBodyChunk) maxBodyChunk in
  if 0 <=? declared then Z.min size (declared - bs_held st) else size.

(** The head of the loop: the state to read into, or the end of a body whose
    declared length is in. *)
Definition beforeRead (declared : Z) (st : bodyState) : option bodyState :=
  if chunkFull st then
    let size := nextSize declared st in
    if size =? 0 then None else Some (mkBody (chunks st) (Some (mkChunk "" size)) (bs_held st))
  else Some st.

(** The room of the chunk being filled. *)
Definition room (st : bodyState) : Z :=
  match bs_cur st with Some c => ck_cap c - slen (ck_data c) | None => 0 end.

Definition received (p : string) (st : bodyState) : bodyState :=
  mkBody (bs_full st) (option_map (fun c => mkChunk (ck_data c +:+ p) (ck_cap c)) (bs_cur st)) (bs_held st + slen p).

(** What one turn of the loop comes to. *)
Inductive turned (F : Type) :=
| Reading (st : bodyState) (fs : F)
| Whole (st : bodyState) (fs : F)
| Refused (e : httpError).
Arguments Reading {F}. Arguments Whole {F}. Arguments Refused {F}.

Definition busyError (busy : string) : httpError := mkHTTPError 503 busy.
Definition tooLargeError (tooLarge : string) : httpError := mkHTTPError 413 tooLarge.

Section Read.
Context {F : Type} (feed : F -> string -> F + httpError) (busy tooLarge : string).

(** The end of a turn, after the piece it read is in. *)
Definition endRead (e : readEnd) (st : bodyState) (fs : F) (b : byteBudget) : turned F * byteBudget :=
  match e with
  | ReadEOF => (Whole st fs, b)
  | ReadFails err => (Refused err, give (bs_held st) b)
  | _ => (Reading st fs, b)
  end.

(** The loop's body after its [Read]. *)
Definition afterRead (a : answer) (st : bodyState) (fs : F) (b : byteBudget) : turned F * byteBudget :=
  match an_end a with
  | ReadTooLarge => (Refused (tooLargeError tooLarge), give (bs_held st) b)
  | e =>
      if slen (an_bytes a) =? 0 then endRead e st fs b
      else match charge (bs_held st) (slen (an_bytes a)) b with
           | (false, b) => (Refused (busyError busy), b)
           | (true, b) =>
               let st := received (an_bytes a) st in
               match feed fs (an_bytes a) with
               | inr err => (Refused err, give (bs_held st) b)
               | inl fs => endRead e st fs b
               end
           end
  end.

(** [readBody]: [others] is what other requests do to the budget before each
    charge. [None]: the reader has not answered yet. *)
Fixpoint readBody (declared : Z) (answers : list ((byteBudget -> byteBudget) * answer)) (st : bodyState) (fs : F)
    (b : byteBudget) : option ((bodyState * F + httpError) * byteBudget) :=
  match beforeRead declared st with
  | None => Some (inl (st, fs), b)
  | Some st =>
      match answers with
      | [] => None
      | (others, a) :: answers' =>
          match afterRead a st fs (others b) with
          | (Reading st fs, b) => readBody declared answers' st fs b
          | (Whole st fs, b) => Some (inl (st, fs), b)
          | (Refused e, b) => Some (inr e, b)
          end
      end
  end.
End Read.

(** ** The JSON meter *)

Record jsonCost := mkCost { jc_objects : Z; jc_values : Z }.

Definition units (c : jsonCost) : Z := 8 * jc_objects c + jc_values c.

Record jsonMeter := mkMeter { jm_cost : jsonCost; jm_inStr : bool; jm_escaped : bool; jm_inWord : bool }.

Definition newMeter : jsonMeter := mkMeter (mkCost 0 0) false false false.

Definition oneValue (c : jsonCost) : jsonCost := mkCost (jc_objects c) (jc_values c + 1).
Definition oneObject (c : jsonCost) : jsonCost := mkCost (jc_objects c + 1) (jc_values c).

Definition quoteByte : ascii := "034".
Definition backslash : ascii := "092".

(** A byte of a number or a literal. *)
Definition wordByte (c : ascii) : bool :=
  is_digit c || Ascii.eqb c "-" || Ascii.eqb c "+" || Ascii.eqb c "." || ascii_between "a" "z" c || ascii_between "A" "Z" c.

Definition feedByte (m : jsonMeter) (c : ascii) : jsonMeter :=
  if jm_inStr m then
    if jm_escaped m then mkMeter (jm_cost m) true false (jm_inWord m)
    else if Ascii.eqb c backslash then mkMeter (jm_cost m) true true (jm_inWord m)
    else if Ascii.eqb c quoteByte then mkMeter (jm_cost m) false false (jm_inWord m)
    else m
  else if Ascii.eqb c quoteByte then mkMeter (oneValue (jm_cost m)) true (jm_escaped m) false
  else if Ascii.eqb c "{" then mkMeter (oneObject (jm_cost m)) false (jm_escaped m) false
  else if Ascii.eqb c "[" then mkMeter (oneValue (jm_cost m)) false (jm_escaped m) false
  else if wordByte c then
    if jm_inWord m then m else mkMeter (oneValue (jm_cost m)) false (jm_escaped m) true
  else mkMeter (jm_cost m) false (jm_escaped m) false.

Fixpoint feedMeter (m : jsonMeter) (s : string) : jsonMeter :=
  match s with
  | "" => m
  | String c s' => feedMeter (feedByte m c) s'
  end%string.

(** ** The two bodies *)

Definition maxSnapshotUnits : Z := 1000000.

Definition tooManyUnits : httpError :=
  mkHTTPError 413 ("snapshot is too large to evaluate: decoding JSON costs memory per value, and it holds over " +:+
    itoa maxSnapshotUnits +:+ " units (each value 1, each object 8)").

(** The closure [feed] of [readSnapshotBody]. *)
Definition feedSnapshot (m : jsonMeter) (p : string) : jsonMeter + httpError :=
  let m := feedMeter m p in
  if maxSnapshotUnits <? units (jm_cost m) then inr tooManyUnits else inl m.

Definition firstReadBytes (declared : Z) : Z := if 0 <=? declared then Z.min declared minBodyChunk else minBodyChunk.

(** The request as the two callers read it: its Content-Length (-1 unknown),
    its Content-Encoding, and what [gzip.NewReader] makes of the start of a
    gzip body. *)
Record bodyRequest := mkBodyRequest {
  br_length : Z;
  br_encoding : string;
  br_gzip : option httpError;
}.

Definition snapshotBusy : string := "too many concurrent snapshot pushes; retry shortly".
Definition snapshotTooLarge (limit : Z) : string :=
  "snapshot exceeds the " +:+ sizeString limit +:+ " limit (on the wire and after decompression)".

(** [readSnapshotBody]. *)
Definition readSnapshotBody (limit : Z) (r : bodyRequest) (answers : list ((byteBudget -> byteBudget) * answer))
    (b : byteBudget) : option ((bodyState * jsonMeter + httpError) * byteBudget) :=
  if limit <? br_length r then Some (inr (mkHTTPError 413 (snapshotTooLarge limit)), b)
  else if negb (br_encoding r =s "") && negb (br_encoding r =s "identity") && negb (br_encoding r =s "gzip") then
    Some (inr (mkHTTPError 415 ("unsupported Content-Encoding " +:+ quote (br_encoding r) +:+ " (use gzip or identity)")), b)
  else if negb (br_length r =? 0) && negb (fits (firstReadBytes (br_length r)) b) then Some (inr (busyError snapshotBusy), b)
  else match (if br_encoding r =s "gzip" then br_gzip r else None) with
  | Some e => Some (inr e, b)
  | None =>
      readBody feedSnapshot snapshotBusy (snapshotTooLarge limit) (if br_encoding r =s "gzip" then -1 else br_length r)
        answers emptyBody newMeter b
  end.

Definition gateBusy : string := "too many concurrent gate requests; retry shortly".
Definition gateTooLarge (limit : Z) : string := "manifest stream exceeds the " +:+ sizeString limit +:+ " limit".

(** [readManifestBody]: [check] is [checkManifestStream]. *)
Definition readManifestBody (limit : Z) (check : string -> option httpError) (r : bodyRequest)
    (answers : list ((byteBudget -> byteBudget) * answer)) (b : byteBudget) : option ((bodyState + httpError) * byteBudget) :=
  if limit <? br_length r then Some (inr (mkHTTPError 413 (gateTooLarge limit)), b)
  else if negb (br_length r =? 0) && negb (fits (firstReadBytes (br_length r)) b) then Some (inr (busyError gateBusy), b)
  else match readBody (fun _ _ => inl tt) gateBusy (gateTooLarge limit) (br_length r) answers emptyBody tt b with
  | None => None
  | Some (inr e, b) => Some (inr e, b)
  | Some (inl (st, _), b) =>
      match check (bodyBytes st) with
      | Some e => Some (inr e, give (bs_held st) b)
      | None => Some (inl st, b)
      end
  end.

(** ** Concurrent requests *)

(** Where a request is: reading, holding a whole body, or holding nothing. *)
Inductive requestState (F : Type) :=
| RqReading (declared : Z) (st : bodyState) (fs : F)
| RqHolding (st : bodyState)
| RqOver.
Arguments RqReading {F}. Arguments RqHolding {F}. Arguments RqOver {F}.

Record bodies (F : Type) := mkBodies { bd_budget : byteBudget; bd_requests : list (requestState F) }.
Arguments mkBodies {F}. Arguments bd_budget {F}. Arguments bd_requests {F}.

Section Concurrent.
Context {F : Type} (feed : F -> string -> F + httpError) (busy tooLarge : string) (fs0 : F).

Definition settled (declared : Z) (t : turned F) : requestState F :=
  match t with
  | Reading st fs => RqReading declared st fs
  | Whole st _ => RqHolding st
  | Refused _ => RqOver
  end.

(** A request arrives; a read of it returns; it has its declared length; it
    no longer needs its body. *)
Inductive bodyStep : bodies F -> bodies F -> Prop :=
| step_arrives b rs declared :
    bodyStep (mkBodies b rs) (mkBodies b (rs ++ [RqReading declared emptyBody fs0]))
| step_reads b rs i declared st st' fs a t b' :
    rs !! i = Some (RqReading declared st fs) -> beforeRead declared st = Some st' -> slen (an_bytes a) <= room st' ->
    afterRead feed busy tooLarge a st' fs b = (t, b') ->
    bodyStep (mkBodies b rs) (mkBodies b' (<[i := settled declared t]> rs))
| step_whole b rs i declared st fs :
    rs !! i = Some (RqReading declared st fs) -> beforeRead declared st = None ->
    bodyStep (mkBodies b rs) (mkBodies b (<[i := RqHolding st]> rs))
| step_releases b rs i st :
    rs !! i = Some (RqHolding st) ->
    bodyStep (mkBodies b rs) (mkBodies (give (bs_held st) b) (<[i := RqOver]> rs)).
End Concurrent.

(** * What reading a body promises

    The budget is never exceeded and never leaked, however requests
    interleave; a body that is read is exactly what arrived; and the meter
    counts the values of a JSON text exactly, however it is cut. *)

(** ** One body *)

Definition concatS (l : list string) : string := foldr (fun c s => c +:+ s) ""%string l.

Lemma concatS_app l m : concatS (l ++ m) = concatS l +:+ concatS m.
Proof. induction l as [|x l IH]; [done|]. simpl. by rewrite IH, app_assoc_s. Qed.

(** What a body holds is what it counts, in chunks that were filled before
    the next was made; a chunk is never larger than what had arrived. *)
Record body_ok (declared : Z) (st : bodyState) : Prop := {
  bo_held : bs_held st = slen (bodyBytes st);
  bo_declared : 0 <= declared -> bs_held st <= declared;
  bo_cur : forall c, bs_cur st = Some c -> slen (ck_data c) <= ck_cap c <= maxBodyChunk /\
             ck_cap c <= Z.max (bs_held st - slen (ck_data c)) minBodyChunk /\
             (0 <= declared -> ck_cap c <= declared - (bs_held st - slen (ck_data c)));
}.

Lemma empty_ok declared : body_ok declared emptyBody.
Proof. split; [done|cbn; lia|done]. Qed.

Lemma beforeRead_ok declared st st' :
  body_ok declared st -> beforeRead declared st = Some st' ->
  body_ok declared st' /\ bodyBytes st' = bodyBytes st /\ bs_held st' = bs_held st.
Proof.
  intros [H1 H2 H3]. unfold beforeRead. destruct (chunkFull st); [|intros [= <-]; by split_and!].
  cbv zeta. destruct (nextSize declared st =? 0) eqn:E; [done|]. intros [= <-].
  assert (Hb : bodyBytes (mkBody (chunks st) (Some (mkChunk "" (nextSize declared st))) (bs_held st)) = bodyBytes st).
  { unfold bodyBytes. fold (concatS (chunks (mkBody (chunks st) (Some (mkChunk "" (nextSize declared st))) (bs_held st)))).
    fold (concatS (chunks st)). cbn [chunks bs_full bs_cur ck_data]. unfold chunks at 1. cbn [bs_full bs_cur].
    rewrite concatS_app. change (concatS [""%string]) with ""%string. by rewrite app_nil_r_s. }
  split; [|done]. pose proof (slen_nonneg (bodyBytes st)). split; cbn [bs_held bs_cur].
  - by rewrite Hb.
  - done.
  - intros c [= <-]. cbn [ck_data ck_cap]. change (slen "") with 0. unfold nextSize, minBodyChunk, maxBodyChunk in *.
    apply Z.eqb_neq in E. case_match; to_prop; [specialize (H2 ltac:(lia))|]; repeat split; lia.
Qed.

Lemma received_ok declared st p c :
  body_ok declared st -> bs_cur st = Some c -> slen p <= room st ->
  body_ok declared (received p st) /\ bodyBytes (received p st) = bodyBytes st +:+ p.
Proof.
  intros [H1 H2 H3] Hc Hr. unfold room in Hr. rewrite Hc in Hr. destruct (H3 c Hc) as (Hlen & Hcap & Hdecl).
  assert (Hb : bodyBytes (received p st) = bodyBytes st +:+ p).
  { unfold bodyBytes, received, chunks. cbn [bs_full bs_cur]. rewrite Hc. cbn [option_map ck_data].
    fold (concatS (bs_full st ++ [ck_data c +:+ p])) (concatS (bs_full st ++ [ck_data c])). rewrite !concatS_app. cbn.
    by rewrite !app_nil_r_s, app_assoc_s. }
  split; [|done]. split.
  - rewrite Hb. cbn [received bs_held]. rewrite H1. by rewrite slen_app.
  - cbn [received bs_held]. intros Hd. specialize (Hdecl Hd). lia.
  - cbn [received bs_held bs_cur]. rewrite Hc. intros c' [= <-]. cbn [ck_data ck_cap]. rewrite slen_app.
    pose proof (slen_nonneg p). repeat split; try lia; intros; specialize (Hdecl ltac:(lia)); lia.
Qed.

(** A chunk to read into has room. *)
Lemma beforeRead_room declared st st' :
  body_ok declared st -> beforeRead declared st = Some st' -> (exists c, bs_cur st' = Some c) /\ 0 < room st'.
Proof.
  intros [H1 H2 H3]. unfold beforeRead, room. destruct (chunkFull st) eqn:Ef.
  - cbv zeta. destruct (nextSize declared st =? 0) eqn:E; [done|]. intros [= <-]. split; [by eexists|]. cbn.
    change (slen "") with 0. apply Z.eqb_neq in E. pose proof (slen_nonneg (bodyBytes st)).
    unfold nextSize, minBodyChunk, maxBodyChunk in *. case_match; to_prop; [specialize (H2 ltac:(lia))|]; lia.
  - intros [= <-]. unfold chunkFull in Ef. destruct (bs_cur st) as [c|] eqn:Ec; [|done]. split; [by eexists|].
    destruct (H3 c eq_refl) as (? & _). apply Z.eqb_neq in Ef. lia.
Qed.

Section Budget.
Context {F : Type} (feed : F -> string -> F + httpError) (busy tooLarge : string) (fs0 : F).

(** What a request holds of the budget after a turn. *)
Definition turnHeld (t : turned F) : Z :=
  match t with Reading st _ | Whole st _ => bs_held st | Refused _ => 0 end.

(** A turn moves the budget by what it moves what the request holds, and
    never over the maximum. *)
Lemma afterRead_budget a st fs b t b' :
  afterRead feed busy tooLarge a st fs b = (t, b') ->
  bb_used b' - bb_used b = turnHeld t - bs_held st /\ bb_max b' = bb_max b /\
  (0 <= bs_held st -> bb_used b <= bb_max b -> bb_used b' <= bb_max b').
Proof.
  assert (Hend : forall e st b t b', 0 <= bs_held st -> bb_used b <= bb_max b -> endRead e st fs b = (t, b') -> bb_used b' <= bb_max b').
  { intros e st0 b0 t0 b0'. unfold endRead. destruct e; intros ? ? [= <- <-]; cbn; lia. }
  assert (Hheld : forall e (st : bodyState) (fs : F) b t b', endRead e st fs b = (t, b') ->
    bb_used b' - bb_used b = turnHeld t - bs_held st /\ bb_max b' = bb_max b /\ (0 <= bs_held st -> bb_used b <= bb_max b -> bb_used b' <= bb_max b')).
  { intros e st0 fs1 b0 t0 b0'. unfold endRead. destruct e; intros [= <- <-]; cbn; lia. }
  pose proof (slen_nonneg (an_bytes a)) as Hn. unfold afterRead.
  assert (Hrest : forall e, (if slen (an_bytes a) =? 0 then endRead e st fs b
      else match charge (bs_held st) (slen (an_bytes a)) b with
           | (false, b) => (Refused (busyError busy), b)
           | (true, b) =>
               match feed fs (an_bytes a) with
               | inr err => (Refused err, give (bs_held (received (an_bytes a) st)) b)
               | inl fs => endRead e (received (an_bytes a) st) fs b
               end
           end) = (t, b') ->
      bb_used b' - bb_used b = turnHeld t - bs_held st /\ bb_max b' = bb_max b /\
      (0 <= bs_held st -> bb_used b <= bb_max b -> bb_used b' <= bb_max b')).
  { intros e. destruct (slen (an_bytes a) =? 0); [by apply Hheld|]. unfold charge. destruct (bb_max b <? _) eqn:Ec.
    - intros [= <- <-]. cbn. lia.
    - to_prop. destruct (feed fs (an_bytes a)) as [fs'|err].
      + intros (H1 & H2 & H3)%Hheld. cbn in *. lia.
      + intros [= <- <-]. cbn. lia. }
  destruct (an_end a); try apply Hrest. intros [= <- <-]. cbn. lia.
Qed.

Lemma afterRead_ok declared a st fs b t b' c :
  body_ok declared st -> bs_cur st = Some c -> slen (an_bytes a) <= room st ->
  afterRead feed busy tooLarge a st fs b = (t, b') ->
  match t with
  | Reading st' _ | Whole st' _ => body_ok declared st' /\ bodyBytes st' = bodyBytes st +:+ an_bytes a
  | Refused _ => True
  end.
Proof.
  intros Hok Hc Hr. destruct (received_ok declared st (an_bytes a) c Hok Hc Hr) as [Hok' Hb].
  assert (Hend : forall e (fs : F) b, endRead e (received (an_bytes a) st) fs b = (t, b') ->
    match t with Reading st' _ | Whole st' _ => body_ok declared st' /\ bodyBytes st' = bodyBytes st +:+ an_bytes a | Refused _ => True end).
  { intros e fs1 b1. unfold endRead. destruct e; intros [= <- <-]; done. }
  assert (Hnone : slen (an_bytes a) = 0 -> an_bytes a = ""%string) by (destruct (an_bytes a); [done|]; unfold slen; cbn; lia).
  unfold afterRead. destruct (an_end a); [| |intros [= <- <-]; exact I|];
    (destruct (slen (an_bytes a) =? 0) eqn:E;
      [apply Z.eqb_eq, Hnone in E; rewrite E, app_nil_r_s; intros [= <- <-]; done|];
     destruct (charge _ _ _) as [[] b1]; [|intros [= <- <-]; exact I];
     destruct (feed fs (an_bytes a)); [apply Hend|intros [= <- <-]; exact I]).
Qed.

(** ** The budget under any interleaving *)

Definition rqHeld (r : requestState F) : Z :=
  match r with RqReading _ st _ | RqHolding st => bs_held st | RqOver => 0 end.

Definition rqOk (r : requestState F) : Prop :=
  match r with RqReading declared st _ => body_ok declared st | RqHolding st => exists declared, body_ok declared st | RqOver => True end.

Definition totalHeld (rs : list (requestState F)) : Z := foldr (fun r n => rqHeld r + n) 0 rs.

Lemma totalHeld_insert rs i r r' :
  rs !! i = Some r -> totalHeld (<[i := r']> rs) = totalHeld rs - rqHeld r + rqHeld r'.
Proof.
  revert i. induction rs as [|x rs IH]; intros [|i] Hi; try done; [injection Hi as ->; cbn; lia|].
  change (<[S i:=r']> (x :: rs)) with (x :: <[i:=r']> rs). cbn [totalHeld foldr]. fold (totalHeld (<[i:=r']> rs)) (totalHeld rs).
  rewrite (IH i Hi). lia.
Qed.

Lemma totalHeld_app rs rs' : totalHeld (rs ++ rs') = totalHeld rs + totalHeld rs'.
Proof. unfold totalHeld. induction rs as [|x rs IH]; cbn; lia. Qed.

Lemma settled_held declared t : rqHeld (settled declared t) = turnHeld t.
Proof. by destruct t. Qed.

Record bodies_ok (s : bodies F) : Prop := {
  bk_held : bb_used (bd_budget s) = totalHeld (bd_requests s);
  bk_max : bb_used (bd_budget s) <= bb_max (bd_budget s);
  bk_each : Forall rqOk (bd_requests s);
}.

Lemma held_nonneg declared st : body_ok declared st -> 0 <= bs_held st.
Proof. intros [-> _ _]. apply slen_nonneg. Qed.

Lemma bodyStep_ok s s' : bodies_ok s -> bodyStep feed busy tooLarge fs0 s s' -> bodies_ok s' /\ bb_max (bd_budget s') = bb_max (bd_budget s).
Proof.
  intros [H1 H2 H3] Hstep. destruct Hstep as [b rs declared|b rs i declared st st' fs a t b' Hi Hb Hr Ha|b rs i declared st fs Hi Hb|b rs i st Hi];
    cbn [bd_budget bd_requests] in *.
  - split; [|done]. split; cbn; [rewrite totalHeld_app; cbn; lia|done|]. apply Forall_app. split; [done|].
    constructor; [apply empty_ok|constructor].
  - pose proof (Forall_lookup_1 _ _ _ _ H3 Hi) as Hok. cbn in Hok.
    destruct (beforeRead_ok declared st st' Hok Hb) as (Hok' & _ & Hh). destruct (beforeRead_room declared st st' Hok Hb) as [[c Hc] _].
    destruct (afterRead_budget _ _ _ _ _ _ Ha) as (Hd & Hm & Hle). pose proof (afterRead_ok declared a st' fs b t b' c Hok' Hc Hr Ha) as Ht.
    split; [|done]. split; cbn.
    + rewrite (totalHeld_insert rs i _ _ Hi), settled_held. cbn. lia.
    + apply Hle; [|done]. by eapply held_nonneg.
    + apply Forall_insert; [done|]. destruct t; cbn; [by destruct Ht|exists declared; by destruct Ht|done].
  - split; [|done]. split; cbn; [rewrite (totalHeld_insert rs i _ _ Hi); cbn; lia|done|].
    apply Forall_insert; [done|]. exists declared. exact (Forall_lookup_1 _ _ _ _ H3 Hi).
  - pose proof (Forall_lookup_1 _ _ _ _ H3 Hi) as [declared Hok]. pose proof (held_nonneg _ _ Hok). split; [|done]. split; cbn.
    + rewrite (totalHeld_insert rs i _ _ Hi). cbn. lia.
    + lia.
    + by apply Forall_insert.
Qed.

(** However requests arrive, stall, fail, are refused and finish, the
    budget counts exactly the bytes the requests hold (each one the bytes
    it has received, a refused or finished one none), and never more than
    its maximum: nothing is leaked, and nothing is held uncounted. *)
Lemma budget_exact (limit : Z) (s : bodies F) :
  0 <= limit -> rtc (bodyStep feed busy tooLarge fs0) (mkBodies (newByteBudget limit) []) s ->
  bb_used (bd_budget s) = totalHeld (bd_requests s) /\ bb_used (bd_budget s) <= limit /\
  (forall r, r ∈ bd_requests s -> match r with
     | RqReading _ st _ | RqHolding st => bs_held st = slen (bodyBytes st)
     | RqOver => rqHeld r = 0
     end).
Proof.
  intros Hl Hs.
  assert (H : bodies_ok s /\ bb_max (bd_budget s) = limit).
  { revert s Hs. apply (rtc_ind_r (fun s => bodies_ok s /\ bb_max (bd_budget s) = limit)).
    - split; [|done]. split; cbn; [done|lia|constructor].
    - intros s1 s2 _ H12 [IH Hm]. destruct (bodyStep_ok _ _ IH H12) as [? ?]. split; [done|congruence]. }
  destruct H as [[H1 H2 H3] Hm]. split_and!; [done|lia|]. intros r Hr. rewrite Forall_forall in H3. specialize (H3 r Hr).
  destruct r; cbn in *; [apply H3|destruct H3 as [? H3]; apply H3|done].
Qed.
End Budget.

(** ** JSON texts

    The texts of a value: numbers and literals are words, and white space
    may stand around every value, key and separator. *)

Inductive json :=
| JWord (w : string)
| JString (s : string)
| JArray (vs : list json)
| JObject (kvs : list (string * json)).

Definition blank (c : ascii) : bool :=
  Ascii.eqb c " " || Ascii.eqb c "009" || Ascii.eqb c "010" || Ascii.eqb c "013".

Fixpoint allBytes (p : ascii -> bool) (s : string) : Prop :=
  match s with ""%string => True | String c s' => p c = true /\ allBytes p s' end.

(** What stands between the quotes of a string: an escape is a backslash and
    the byte it escapes. *)
Inductive stringBody : string -> Prop :=
| sb_end : stringBody ""
| sb_byte c s : c <> quoteByte -> c <> backslash -> stringBody s -> stringBody (String c s)
| sb_escape c s : stringBody s -> stringBody (String backslash (String c s)).

Definition quoted (s : string) : string := String quoteByte (s +:+ String quoteByte "").

Inductive text : json -> string -> Prop :=
| tx_word w : w <> ""%string -> allBytes wordByte w -> text (JWord w) w
| tx_string s : stringBody s -> text (JString s) (quoted s)
| tx_array vs s : elements vs s -> text (JArray vs) (String "[" (s +:+ "]"))
| tx_object kvs s : members kvs s -> text (JObject kvs) (String "{" (s +:+ "}"))
with padded : json -> string -> Prop :=
| pad_text a b v s : allBytes blank a -> allBytes blank b -> text v s -> padded v (a +:+ s +:+ b)
with elements : list json -> string -> Prop :=
| el_none a : allBytes blank a -> elements [] a
| el_one v s : padded v s -> elements [v] s
| el_more v w vs s t : padded v s -> elements (w :: vs) t -> elements (v :: w :: vs) (s +:+ String "," t)
with members : list (string * json) -> string -> Prop :=
| mb_none a : allBytes blank a -> members [] a
| mb_one k v s : member k v s -> members [(k, v)] s
| mb_more k v p kvs s t : member k v s -> members (p :: kvs) t -> members ((k, v) :: p :: kvs) (s +:+ String "," t)
with member : string -> json -> string -> Prop :=
| mb_pair a b k v s : allBytes blank a -> allBytes blank b -> stringBody k -> padded v s ->
    member k v (a +:+ quoted k +:+ b +:+ String ":" s).

Scheme text_mut := Induction for text Sort Prop
with padded_mut := Induction for padded Sort Prop
with elements_mut := Induction for elements Sort Prop
with members_mut := Induction for members Sort Prop
with member_mut := Induction for member Sort Prop.

(** The objects of a value, and its other values, keys included. *)
Fixpoint costOf (v : json) : jsonCost :=
  let plus a b := mkCost (jc_objects a + jc_objects b) (jc_values a + jc_values b) in
  match v with
  | JWord _ | JString _ => mkCost 0 1
  | JArray vs => foldr (fun v c => plus (costOf v) c) (mkCost 0 1) vs
  | JObject kvs => foldr (fun kv c => plus (plus (mkCost 0 1) (costOf kv.2)) c) (mkCost 1 0) kvs
  end.

Definition plus (a b : jsonCost) : jsonCost := mkCost (jc_objects a + jc_objects b) (jc_values a + jc_values b).

Lemma plus_assoc a b c : plus (plus a b) c = plus a (plus b c).
Proof. unfold plus. cbn. f_equal; lia. Qed.

Definition elementsCost (vs : list json) : jsonCost := foldr (fun v c => plus (costOf v) c) (mkCost 0 0) vs.
Definition membersCost (kvs : list (string * json)) : jsonCost :=
  foldr (fun kv c => plus (plus (mkCost 0 1) (costOf kv.2)) c) (mkCost 0 0) kvs.

Lemma costOf_array vs : costOf (JArray vs) = plus (mkCost 0 1) (elementsCost vs).
Proof.
  change (costOf (JArray vs)) with (foldr (fun v c => plus (costOf v) c) (mkCost 0 1) vs).
  unfold elementsCost. induction vs as [|v vs IH]; [done|]. cbn [foldr]. rewrite IH. unfold plus. cbn. f_equal; lia.
Qed.

Lemma costOf_object kvs : costOf (JObject kvs) = plus (mkCost 1 0) (membersCost kvs).
Proof.
  change (costOf (JObject kvs)) with (foldr (fun kv c => plus (plus (mkCost 0 1) (costOf kv.2)) c) (mkCost 1 0) kvs).
  unfold membersCost. induction kvs as [|kv kvs IH]; [done|]. cbn [foldr]. rewrite IH. unfold plus. cbn. f_equal; lia.
Qed.

(** ** The meter *)

Lemma feedMeter_app m s t : feedMeter m (s +:+ t) = feedMeter (feedMeter m s) t.
Proof.
  revert m. induction s as [|c s IH]; intros m; [done|].
  change (String c s +:+ t) with (String c (s +:+ t)). cbn [feedMeter]. apply IH.
Qed.

Lemma feed_blank m a :
  jm_inStr m = false -> jm_escaped m = false -> allBytes blank a ->
  exists w, feedMeter m a = mkMeter (jm_cost m) false false w /\ (jm_inWord m = false -> w = false).
Proof.
  destruct m as [c i e w]. cbn [jm_inStr jm_escaped jm_cost jm_inWord]. intros -> -> Ha. revert w.
  induction a as [|x a IH]; intros w; [by exists w|]. destruct Ha as [Hx Ha]. cbn [feedMeter].
  assert (feedByte (mkMeter c false false w) x = mkMeter c false false false) as ->.
  { unfold blank in Hx. rewrite !orb_true_iff in Hx. destruct Hx as [[[Hx|Hx]|Hx]|Hx]; apply Ascii.eqb_eq in Hx as ->; reflexivity. }
  destruct (IH Ha false) as (w' & Hw & Hf). exists w'. split; [done|]. intros _. by apply Hf.
Qed.

Lemma feed_string c s rest :
  stringBody s -> feedMeter (mkMeter c true false false) (s +:+ String quoteByte rest) = feedMeter (mkMeter c false false false) rest.
Proof.
  induction 1 as [|x s Hq Hb _ IH|x s _ IH].
  - reflexivity.
  - change (String x s +:+ String quoteByte rest) with (String x (s +:+ String quoteByte rest)). cbn [feedMeter].
    unfold feedByte. cbn [jm_inStr jm_escaped jm_cost jm_inWord].
    rewrite (proj2 (Ascii.eqb_neq _ _) Hb), (proj2 (Ascii.eqb_neq _ _) Hq). apply IH.
  - change (String backslash (String x s) +:+ String quoteByte rest)
      with (String backslash (String x (s +:+ String quoteByte rest))). cbn [feedMeter]. apply IH.
Qed.

Lemma feed_quoted c s :
  stringBody s -> feedMeter (mkMeter c false false false) (quoted s) = mkMeter (plus c (mkCost 0 1)) false false false.
Proof.
  intros Hs. unfold quoted. cbn [feedMeter]. change (feedByte (mkMeter c false false false) quoteByte) with (mkMeter (oneValue c) true false false).
  rewrite feed_string by done. cbn [feedMeter]. unfold plus, oneValue. cbn. f_equal. f_equal. lia.
Qed.

Lemma wordByte_plain x : wordByte x = true ->
  Ascii.eqb x quoteByte = false /\ Ascii.eqb x "{" = false /\ Ascii.eqb x "[" = false.
Proof.
  intros Hx. split_and!; apply Ascii.eqb_neq; intros ->; vm_compute in Hx; discriminate Hx.
Qed.

Lemma feed_word c w : w <> ""%string -> allBytes wordByte w ->
  feedMeter (mkMeter c false false false) w = mkMeter (plus c (mkCost 0 1)) false false true.
Proof.
  destruct w as [|x w]; [done|]. intros _ [Hx Hw]. cbn [feedMeter].
  assert (Hone : forall x b d, wordByte x = true -> feedByte (mkMeter d false false b) x =
    mkMeter (if b then d else oneValue d) false false true).
  { intros y b d Hy. destruct (wordByte_plain y Hy) as (E1 & E2 & E3). unfold feedByte.
    cbn [jm_inStr jm_escaped jm_cost jm_inWord]. rewrite E1, E2, E3, Hy. by destruct b. }
  rewrite Hone by done. replace (plus c (mkCost 0 1)) with (oneValue c) by (unfold plus, oneValue; cbn; f_equal; lia).
  induction w as [|y w IH]; [done|]. destruct Hw as [Hy Hw]. cbn [feedMeter]. rewrite Hone by done. by apply IH.
Qed.

(** Outside a string, after [c] values. *)
Definition counted (c : jsonCost) (m : jsonMeter) : Prop := exists w, m = mkMeter c false false w.

Lemma counted_separator c m x :
  counted c m -> x ∈ [","; ":"; "]"; "}"]%char -> feedByte m x = mkMeter c false false false.
Proof.
  intros (w & ->) Hx. repeat (apply elem_of_cons in Hx as [->|Hx]; [reflexivity|]). by apply not_elem_of_nil in Hx.
Qed.

Lemma feed_counts v s : padded v s -> forall c, counted (plus c (costOf v)) (feedMeter (mkMeter c false false false) s).
Proof.
  apply (padded_mut
    (fun v s _ => forall c, counted (plus c (costOf v)) (feedMeter (mkMeter c false false false) s))
    (fun v s _ => forall c, counted (plus c (costOf v)) (feedMeter (mkMeter c false false false) s))
    (fun vs s _ => forall c, counted (plus c (elementsCost vs)) (feedMeter (mkMeter c false false false) s))
    (fun kvs s _ => forall c, counted (plus c (membersCost kvs)) (feedMeter (mkMeter c false false false) s))
    (fun k v s _ => forall c, counted (plus c (plus (mkCost 0 1) (costOf v))) (feedMeter (mkMeter c false false false) s))).
  - intros w Hw Ha c. exists true. by apply feed_word.
  - intros t Ht c. exists false. by apply feed_quoted.
  - intros vs t _ IH c. exists false. cbn [feedMeter]. rewrite feedMeter_app.
    change (feedByte (mkMeter c false false false) "[") with (mkMeter (oneValue c) false false false).
    cbn [feedMeter]. rewrite (counted_separator _ _ _ (IH (oneValue c))) by set_solver. f_equal. rewrite costOf_array.
    unfold plus, oneValue. cbn. f_equal; lia.
  - intros kvs t _ IH c. exists false. cbn [feedMeter]. rewrite feedMeter_app.
    change (feedByte (mkMeter c false false false) "{") with (mkMeter (oneObject c) false false false).
    cbn [feedMeter]. rewrite (counted_separator _ _ _ (IH (oneObject c))) by set_solver. f_equal. rewrite costOf_object.
    unfold plus, oneObject. cbn. f_equal; lia.
  - intros a b w t Ha Hb _ IH c. rewrite !feedMeter_app.
    destruct (feed_blank (mkMeter c false false false) a eq_refl eq_refl Ha) as (x & -> & Hx). rewrite (Hx eq_refl). cbn [jm_cost].
    destruct (IH c) as [y Hy]. rewrite Hy. by destruct (feed_blank (mkMeter (plus c (costOf w)) false false y) b eq_refl eq_refl Hb) as (z & -> & _); exists z.
  - intros a Ha c. destruct (feed_blank (mkMeter c false false false) a eq_refl eq_refl Ha) as (x & -> & _). exists x. unfold plus. cbn.
    f_equal. destruct c. cbn. f_equal; lia.
  - intros w t _ IH c. replace (elementsCost [w]) with (costOf w); [apply IH|]. unfold elementsCost, plus. cbn. destruct (costOf w). cbn. f_equal; lia.
  - intros w w' vs t t' _ IH1 _ IH2 c. rewrite feedMeter_app. cbn [feedMeter].
    rewrite (counted_separator _ _ _ (IH1 c)) by set_solver. specialize (IH2 (plus c (costOf w))).
    change (elementsCost (w :: w' :: vs)) with (plus (costOf w) (elementsCost (w' :: vs))). by rewrite <- plus_assoc.
  - intros a Ha c. destruct (feed_blank (mkMeter c false false false) a eq_refl eq_refl Ha) as (x & -> & _). exists x. unfold plus. cbn.
    f_equal. destruct c. cbn. f_equal; lia.
  - intros k w t _ IH c. replace (membersCost [(k, w)]) with (plus (mkCost 0 1) (costOf w)); [apply IH|].
    unfold membersCost, plus. cbn. f_equal; lia.
  - intros k w p kvs t t' _ IH1 _ IH2 c. rewrite feedMeter_app. cbn [feedMeter].
    rewrite (counted_separator _ _ _ (IH1 c)) by set_solver. specialize (IH2 (plus c (plus (mkCost 0 1) (costOf w)))).
    change (membersCost ((k, w) :: p :: kvs)) with (plus (plus (mkCost 0 1) (costOf w)) (membersCost (p :: kvs))). by rewrite <- plus_assoc.
  - intros a b k w t Ha Hb Hk _ IH c. rewrite !feedMeter_app.
    destruct (feed_blank (mkMeter c false false false) a eq_refl eq_refl Ha) as (x & -> & Hx). rewrite (Hx eq_refl). cbn [jm_cost].
    rewrite feed_quoted by done.
    destruct (feed_blank (mkMeter (plus c (mkCost 0 1)) false false false) b eq_refl eq_refl Hb) as (z & -> & _). cbn [feedMeter jm_cost].
    rewrite (counted_separator (plus c (mkCost 0 1))) by (first [by eexists|set_solver]). rewrite <- plus_assoc. apply IH.
Qed.

(** ** A snapshot's body *)

Lemma beforeRead_cur declared st st' :
  beforeRead declared st = Some st' -> (exists c, bs_cur st' = Some c) /\ bodyBytes st' = bodyBytes st.
Proof.
  unfold beforeRead. destruct (chunkFull st) eqn:Ef; cbv zeta.
  - destruct (nextSize declared st =? 0); [done|]. intros [= <-]. split; [by eexists|]. unfold bodyBytes, chunks at 1. cbn [bs_full bs_cur ck_data].
    change (concatS (chunks st ++ [""%string]) = concatS (chunks st)). rewrite concatS_app. cbn. apply app_nil_r_s.
  - intros [= <-]. split; [|done]. unfold chunkFull in Ef. destruct (bs_cur st) as [c|]; [by eexists|done].
Qed.

Lemma received_bytes p st c : bs_cur st = Some c -> bodyBytes (received p st) = bodyBytes st +:+ p.
Proof.
  intros Hc. unfold bodyBytes, received, chunks. cbn [bs_full bs_cur]. rewrite Hc. cbn [option_map ck_data].
  change (concatS (bs_full st ++ [ck_data c +:+ p]) = concatS (bs_full st ++ [ck_data c]) +:+ p). rewrite !concatS_app. cbn.
  by rewrite !app_nil_r_s, app_assoc_s.
Qed.

(** The meter has seen what the body holds. *)
Definition metered (st : bodyState) (m : jsonMeter) : Prop :=
  m = feedMeter newMeter (bodyBytes st) /\ units (jm_cost m) <= maxSnapshotUnits.

Lemma afterRead_metered busy tooLarge a st m b t b' c :
  bs_cur st = Some c -> metered st m -> afterRead feedSnapshot busy tooLarge a st m b = (t, b') ->
  match t with
  | Reading st' m' | Whole st' m' => metered st' m' /\ bodyBytes st' = bodyBytes st +:+ an_bytes a
  | Refused e => e = tooManyUnits -> an_end a <> ReadFails tooManyUnits -> e <> busyError busy -> e <> tooLargeError tooLarge ->
      maxSnapshotUnits < units (jm_cost (feedMeter newMeter (bodyBytes st +:+ an_bytes a)))
  end.
Proof.
  intros Hc [-> Hm].
  assert (Hend : forall e st0 m0 b0, endRead e st0 m0 b0 = (t, b') -> metered st0 m0 -> bodyBytes st0 = bodyBytes st +:+ an_bytes a ->
    (forall err, e = ReadFails err -> an_end a = ReadFails err) ->
    match t with
    | Reading st' m' | Whole st' m' => metered st' m' /\ bodyBytes st' = bodyBytes st +:+ an_bytes a
    | Refused e => e = tooManyUnits -> an_end a <> ReadFails tooManyUnits -> e <> busyError busy -> e <> tooLargeError tooLarge ->
        maxSnapshotUnits < units (jm_cost (feedMeter newMeter (bodyBytes st +:+ an_bytes a)))
    end).
  { intros e st0 m0 b0. unfold endRead. destruct e as [| | |err]; intros [= <- <-] Hm0 Hb He; [done..|].
    intros -> Hno. by rewrite (He _ eq_refl) in Hno. }
  assert (Hnone : slen (an_bytes a) = 0 -> an_bytes a = ""%string) by (destruct (an_bytes a); [done|]; unfold slen; cbn; lia).
  unfold afterRead. destruct (an_end a) as [| | |err] eqn:Ea; [| |intros [= <- <-]; done|];
    (destruct (slen (an_bytes a) =? 0) eqn:E;
      [apply Z.eqb_eq, Hnone in E; intros H; eapply Hend; [exact H|by split|by rewrite E, app_nil_r_s|congruence]|];
     destruct (charge _ _ _) as [[] b1]; [|intros [= <- <-]; done];
     unfold feedSnapshot; cbv zeta; rewrite <- feedMeter_app; destruct (maxSnapshotUnits <? _) eqn:Eu; to_prop;
      [intros [= <- <-]; done|intros H; eapply Hend; [exact H|split; [by erewrite received_bytes|done]|by erewrite received_bytes|congruence]]).
Qed.

Lemma units_monotone m s : units (jm_cost m) <= units (jm_cost (feedMeter m s)).
Proof.
  revert m. induction s as [|c s IH]; intros m; [done|]. cbn [feedMeter]. etransitivity; [|apply IH].
  unfold feedByte. repeat case_match; cbn; unfold units, oneValue, oneObject; cbn; lia.
Qed.

Definition arrived (answers : list ((byteBudget -> byteBudget) * answer)) : string :=
  concatS (map (fun p => an_bytes p.2) answers).

Lemma readBody_metered busy tooLarge declared answers st m b r b' :
  metered st m -> readBody feedSnapshot busy tooLarge declared answers st m b = Some (r, b') ->
  match r with
  | inl (st', m') => metered st' m'
  | inr e => e = tooManyUnits -> Forall (fun p => an_end p.2 <> ReadFails tooManyUnits) answers ->
      e <> busyError busy -> e <> tooLargeError tooLarge ->
      maxSnapshotUnits < units (jm_cost (feedMeter newMeter (bodyBytes st +:+ arrived answers)))
  end.
Proof.
  revert st m b. induction answers as [|[others a] answers IH]; intros st m b Hm; cbn [readBody].
  - destruct (beforeRead declared st); [done|]. by intros [= <- <-].
  - destruct (beforeRead declared st) as [st1|] eqn:Eb; [|by intros [= <- <-]].
    destruct (beforeRead_cur _ _ _ Eb) as [[c Hc] Hb].
    assert (Hm1 : metered st1 m) by (unfold metered in *; by rewrite Hb).
    destruct (afterRead feedSnapshot busy tooLarge a st1 m (others b)) as [t b1] eqn:Ea.
    pose proof (afterRead_metered _ _ _ _ _ _ _ _ _ Hc Hm1 Ea) as Ht. destruct t as [st2 m2|st2 m2|e].
    + intros H. destruct Ht as [Hm2 Hb2]. specialize (IH st2 m2 b1 Hm2 H). destruct r as [[]|e]; [done|].
      intros He Hall Hne1 Hne2. apply Forall_cons in Hall as [_ Hall]. specialize (IH He Hall Hne1 Hne2). unfold arrived in *. cbn.
      fold (concatS (map (fun p => an_bytes p.2) answers)). by rewrite Hb2, Hb, app_assoc_s in IH.
    + intros [= <- <-]. by destruct Ht.
    + intros [= <- <-] He Hall Hne1 Hne2. apply Forall_cons in Hall as [Hno _]. specialize (Ht He Hno Hne1 Hne2).
      eapply Z.lt_le_trans; [exact Ht|]. rewrite Hb. unfold arrived. cbn. rewrite <- app_assoc_s, (feedMeter_app _ (_ +:+ _)). apply units_monotone.
Qed.

(** The node budget is exact: the meter a snapshot was read with has
    counted precisely the objects and the other values of its JSON,
    however the body was cut into reads, so an accepted push decodes to at
    most a million units; and a push whose JSON is within them is never
    refused for its units, at any point of its arrival. *)
Lemma snapshot_units_exact (limit : Z) (r : bodyRequest) (answers : list ((byteBudget -> byteBudget) * answer))
    (b b' : byteBudget) (res : bodyState * jsonMeter + httpError) (v : json) :
  readSnapshotBody limit r answers b = Some (res, b') ->
  match res with
  | inl (st, m) => padded v (bodyBytes st) -> jm_cost m = costOf v /\ units (costOf v) <= maxSnapshotUnits
  | inr e => padded v (arrived answers) -> units (costOf v) <= maxSnapshotUnits -> br_gzip r <> Some tooManyUnits ->
      Forall (fun p => an_end p.2 <> ReadFails tooManyUnits) answers -> e <> tooManyUnits
  end.
Proof.
  unfold readSnapshotBody. intros H.
  assert (Hcost : forall s, padded v s -> jm_cost (feedMeter newMeter s) = costOf v).
  { intros s Hs. destruct (feed_counts v s Hs (mkCost 0 0)) as [w Hw]. unfold newMeter. rewrite Hw. cbn.
    destruct (costOf v). unfold plus. cbn. f_equal; lia. }
  assert (Hother : forall e, he_msg e <> he_msg tooManyUnits -> e <> tooManyUnits) by congruence.
  destruct (limit <? br_length r).
  { injection H as <- <-. intros _ _ _ _. apply Hother. cbn. unfold snapshotTooLarge. by intros [=]. }
  destruct (negb (br_encoding r =s "") && _ && _). { injection H as <- <-. intros _ _ _ _ [=]. }
  destruct (negb (br_length r =? 0) && _). { injection H as <- <-. intros _ _ _ _ [=]. }
  destruct (if br_encoding r =s "gzip" then br_gzip r else None) as [e|] eqn:Eg.
  { injection H as <- <-. intros _ _ Hgz _ ->. by destruct (br_encoding r =s "gzip"). }
  apply readBody_metered in H; [|split; [done|vm_compute; done]]. destruct res as [[st m]|e].
  - intros Hp. destruct H as [-> Hu]. by rewrite Hcost in *.
  - intros Hp Hle _ Hall He. specialize (H He Hall). cbn [bodyBytes emptyBody chunks bs_full bs_cur foldr app] in H.
    change (""%string +:+ arrived answers) with (arrived answers) in H. rewrite (Hcost _ Hp) in H.
    enough (maxSnapshotUnits < units (costOf v)) by lia. apply H; rewrite He; intros [=].
Qed.

(** ** Witnesses *)

Definition pairText : string := String "{" (quoted "a" +:+ ":[1]}").

Definition pairValue : json := JObject [("a"%string, JArray [JWord "1"])].

Lemma pairText_padded : padded pairValue pairText.
Proof.
  apply (pad_text "" "" pairValue (String "{" ((quoted "a" +:+ ":[1]") +:+ "}"))); [exact I|exact I|]. apply tx_object.
  apply mb_one. apply (mb_pair "" "" "a" (JArray [JWord "1"]) "[1]"); [exact I|exact I| |].
  - apply sb_byte; [discriminate|discriminate|constructor].
  - apply (pad_text "" "" (JArray [JWord "1"]) "[1]"); [exact I|exact I|]. apply (tx_array [JWord "1"] "1"). apply el_one.
    apply (pad_text "" "" (JWord "1") "1"); [exact I|exact I|]. apply tx_word; [discriminate|]. split; [reflexivity|exact I].
Qed.

Definition pairReads : list ((byteBudget -> byteBudget) * answer) :=
  [(id, mkAnswer (String "{" (String quoteByte "")) ReadMore);
   (fun b => mkByteBudget (bb_used b + 100) (bb_max b), mkAnswer (String "a" (String quoteByte ":[1]}")) ReadMore);
   (id, mkAnswer "" ReadEOF)].

Lemma snapshot_units_exact_witness :
  exists st m b', readSnapshotBody 100 (mkBodyRequest (-1) "" None) pairReads (newByteBudget 1000) = Some (inl (st, m), b') /\
    jm_cost m = mkCost 1 3 /\ bb_used b' = 109.
Proof.
  eexists _, _, _. split; [vm_compute; reflexivity|]. split; [|reflexivity].
  eapply (proj1 (snapshot_units_exact 100 (mkBodyRequest (-1) "" None) pairReads (newByteBudget 1000) _ (inl (_, _)) pairValue
    ltac:(vm_compute; reflexivity) pairText_padded)).
Defined.

Definition anyPiece (_ : unit) (_ : string) : unit + httpError := inl tt.

Lemma budget_exact_witness :
  exists s, rtc (bodyStep anyPiece "busy" "large" tt) (mkBodies (newByteBudget 1000) []) s /\
    bb_used (bd_budget s) = 3 /\ totalHeld (bd_requests s) = 3.
Proof.
  assert (H : exists s, rtc (bodyStep anyPiece "busy" "large" tt) (mkBodies (newByteBudget 1000) []) s /\ bb_used (bd_budget s) = 3).
  { eexists. split.
    - eapply rtc_l; [apply (step_arrives _ _ _ _ _ _ (-1))|].
      eapply rtc_l; [apply (step_arrives _ _ _ _ _ _ 2000)|].
      eapply rtc_l; [apply (step_reads _ _ _ _ _ _ 1 2000 emptyBody (mkBody [] (Some (mkChunk "" 512)) 0) tt (mkAnswer "xyz" ReadMore)
        (Reading (mkBody [] (Some (mkChunk "xyz" 512)) 3) tt) (mkByteBudget 3 1000)); [reflexivity|reflexivity|vm_compute; discriminate|reflexivity]|].
      eapply rtc_l; [apply (step_reads _ _ _ _ _ _ 0 (-1) emptyBody (mkBody [] (Some (mkChunk "" 512)) 0) tt
        (mkAnswer "" (ReadFails (mkHTTPError 408 "timeout"))) (Refused (mkHTTPError 408 "timeout")) (mkByteBudget 3 1000));
        [reflexivity|reflexivity|vm_compute; discriminate|reflexivity]|].
      apply rtc_refl.
    - reflexivity. }
  destruct H as (s & Hs & Hu). exists s. split; [exact Hs|]. split; [exact Hu|]. rewrite <- Hu. symmetry.
  exact (proj1 (budget_exact anyPiece "busy" "large" tt 1000 s ltac:(lia) Hs)).
Defined.
