(* ===== verification/Ingest.v ===== *)
(** * A snapshot push

    [handleIngest], [authIngest] and [decodePushedInventory] of
    src/internal/server/api.go, and [Inventory.Canonical] of
    src/internal/inventory/types.go: who may push, what is admitted, what a
    push is judged and stored as, and what it is answered.

    Decoding JSON and encoding it for the hash are the standard library's,
    and arguments here. Other writers act between the store calls: before
    the cluster is looked up, before the first attempt reads, and, inside
    the attempts, before every commit. *)

From stdpp Require Import base list strings gmap sorting.
From Stdlib Require Import ZArith Lia Ascii Sorting.Permutation.
From S2P Require Import Prelude GoStr GoTime Version Inventory KB GoUtf8 GoSha Admit Heads Db Store Passes Views Auth Gate.

(** ** The canonical form *)

Definition canonicalCRD (c : CRD) : CRD :=
  mkCRD (crd_Group c) (crd_Kind c) (crd_Plural c)
    (isort (fun a b => String.leb (Inventory.c_Name a) (Inventory.c_Name b)) (crd_Versions c))
    (crd_StoredVersions c) (crd_Usage c).

Definition canonicalStatus (st : CapabilityStatus) : CapabilityStatus :=
  mkCapabilityStatus (cs_Available st) (cs_Reason st) (cs_Partial st) (sort_strings (cs_Skipped st)).

(** [Inventory.Canonical]. A list that is sorted already is left as it is,
    which sorting it stably does. *)
Definition Canonical (inv : Inventory) : Inventory :=
  mkInventory (SchemaVersion inv) (ClusterID inv) (CollectorSchema inv) (Source inv) zeroTime (ServerVersion inv)
    (Provider inv) (canonicalStatus <$> Capabilities inv) (APIUsages inv) (DeprecatedCalls inv) (HelmReleases inv)
    (GitOpsCharts inv) (AddOns inv) (Nodes inv) (ControlPlane inv) (Namespaces inv) (UnrecognizedImages inv)
    (UnrecognizedImagesOmitted inv) (map canonicalCRD (CRDs inv)) (APIAuthorshipUnknown inv) zeroTime 0 (VolumePlugins inv).

(** ** The texts of admission errors *)

Definition identifierErrorText (e : IdentifierError) : string :=
  ie_Field e +:+ ": " +:+ quoteShort (ie_Value e) +:+ " is not " +:+ ie_Rule e +:+ " (" +:+ Join (ie_Problems e) "; " +:+ ")".

Definition limitErrorText (e : LimitError) : string := le_Field e +:+ ": " +:+ le_Problem e.

(** [err.Error()] of what [Admit] answers. *)
Definition admitErrorText (e : admitError) : string :=
  match e with
  | SchemaVersionError got =>
      "unsupported inventory schemaVersion " +:+ itoa got +:+ " (want " +:+ itoa SupportedSchemaVersion +:+ ")"
  | CollectorSchemaError got =>
      "unsupported inventory collectorSchema " +:+ itoa got +:+ " (want " +:+ itoa CurrentCollectorSchema +:+
      ", or none from collectors that predate it)"
  | ServerVersionError err => "invalid inventory serverVersion: " +:+ err
  | BadIdentifier e => identifierErrorText e
  | BeyondLimit e => limitErrorText e
  end.

(** ** The request *)

Record pushRequest := mkPushRequest {
  pr_SchemaVersion : Z;
  pr_ClusterName : string;
  pr_AgentVersion : string;
  pr_KBVersion : string;
  pr_Inventory : string;
}.

(** What a push meets besides the store: the shared token in service, its
    body and slot, the clock; and what other writers do before the lookup
    of its cluster and before its first attempt. *)
Record ingestEnv := mkIngestEnv {
  ig_shared : string;
  ig_authErr : bool;
  ig_body : string + httpError;
  ig_slot : bool;
  ig_now : Time;
  ig_beforeLookup : SQLite -> SQLite;
  ig_lookupErr : bool;
  ig_beforeAttempts : SQLite -> SQLite;
  ig_attempts : nat -> attempt;
}.

Inductive ingestAnswer := Accepted (snapshotID : Z) | Duplicate (snapshotID : Z) | Rejected (e : httpError).

Definition status (a : ingestAnswer) : Z :=
  match a with Accepted _ => 202 | Duplicate _ => 200 | Rejected e => he_status e end.

(** [authIngest]: the cluster a token is bound to and its id, neither for
    the shared token. *)
Definition authIngest (env : ingestEnv) (token : string) (db : SQLite) : (string * Z) + httpError :=
  if negb (token =s "") && negb (ig_shared env =s "") && (token =s ig_shared env) then inl (""%string, 0)
  else if token =s "" then inr unauthorized
  else if ig_authErr env then inr internalError
  else match IngestTokenCluster token db with
       | Some bound => inl bound
       | None => inr unauthorized
       end.

Definition unprocessable (msg : string) : httpError := mkHTTPError 422 msg.

Definition clusterChanged (name : string) : httpError :=
  mkHTTPError 409 ("cluster " +:+ quote name +:+ " was renamed or deleted while this push was processed, and nothing was stored: push again").

(** [writeUIDConflict]. *)
Definition uidConflict (name stored pushed : string) : httpError :=
  mkHTTPError 409
    (if pushed =s "" then
       "cluster name " +:+ quote name +:+ " is registered to clusterId " +:+ stored +:+
       ", but this push carries no clusterId (the agent could not read the kube-system namespace, which needs get on namespaces). Fix the agent's access, or give it a distinct --cluster-name if it is another cluster"
     else
       "cluster name " +:+ quote name +:+ " is registered to clusterId " +:+ stored +:+ ", but this push comes from clusterId " +:+
       pushed +:+ ". If this is a different cluster, give its agent a distinct --cluster-name (chart value clusterName). If the cluster was rebuilt, remove the old record (and its history) with 'upgradescope clusters delete " +:+
       name +:+ " --server-url <this server>' (admin token), then push again; the delete also removes the name's per-cluster ingest tokens, so mint a new one with 'upgradescope tokens create " +:+
       name +:+ "' if the agent used one").

Definition tokenRevoked : httpError :=
  mkHTTPError 401 "invalid or missing bearer token: it was revoked while this push was processed, and nothing was stored".

Definition movedOn : httpError :=
  mkHTTPError 503 "the cluster changed while this push was evaluated, and nothing was stored; retry shortly".

Definition tooManyPushes : httpError := mkHTTPError 503 "too many concurrent snapshot pushes; retry shortly".

(** How [handleIngest] answers an error of [ingestSnapshot]. *)
Definition ingestErrorAnswer (name : string) (e : ingestError) : httpError :=
  match e with
  | InStore e =>
      match err_is e with
      | ErrTokenRevoked => tokenRevoked
      | ErrClusterChanged => clusterChanged name
      | ErrClusterUIDConflict n stored pushed => uidConflict n stored pushed
      | ErrConflict => movedOn
      | _ => internalError
      end
  | InEvaluation (reportTooLarge target limit) =>
      mkHTTPError 413 (evalErrorText (reportTooLarge target limit) +:+
        "; no cluster's inventory names that much, and nothing was stored")
  | InEvaluation (evaluationFailed _) => internalError
  end.

Section Ingest.
Context `{AgentSemver} `{Content} `{Unicode}.
Context (decodePush : string -> res pushRequest) (decodeInventoryJSON : string -> res Inventory) (encodeJSON : Inventory -> string).

Definition canonicalHash (inv : Inventory) : string := EncodeToString (Sum256 (encodeJSON inv)).

(** [decodePushedInventory]: the inventory as pushed and as admitted. *)
Definition decodePushedInventory (raw : string) : (Inventory * Inventory) + string :=
  if (TrimSpace raw =s "") || (TrimSpace raw =s "null") then inr "inventory is required"%string
  else match decodeInventoryJSON raw with
  | Err e => inr ("invalid inventory: " +:+ e)
  | Ok inv =>
      if negb (Source inv =s "") && negb (Source inv =s SourceCluster) then
        inr ("unsupported inventory source " +:+ quote (Source inv) +:+ " (snapshots are cluster inventories: want " +:+
             quote SourceCluster +:+ " or none)")
      else match Admit inv with
      | (None, cut) => inl (inv, cut)
      | (Some (BadIdentifier _ as e), _) | (Some (BeyondLimit _ as e), _) => inr ("invalid inventory: inventory." +:+ admitErrorText e)
      | (Some e, _) => inr (admitErrorText e)
      end
  end.

(** The checks of the decoded request, up to the inventory. *)
Definition checkPush (bound : string * Z) (req : pushRequest) : option httpError :=
  if negb (pr_SchemaVersion req =? 1) then
    Some (unprocessable ("unsupported schemaVersion " +:+ itoa (pr_SchemaVersion req) +:+ " (want 1)"))
  else if pr_ClusterName req =s "" then Some (unprocessable "clusterName is required")
  else match ValidateClusterName (pr_ClusterName req) with
  | Some e => Some (unprocessable (identifierErrorText e))
  | None =>
  match validateEnvelopeLabel "agentVersion" (pr_AgentVersion req) maxAgentVersionBytes with
  | Err e => Some (unprocessable e)
  | Ok _ =>
  match validateEnvelopeLabel "kbVersion" (pr_KBVersion req) maxKBVersionBytes with
  | Err e => Some (unprocessable e)
  | Ok _ =>
      if negb (bound.1 =s "") && negb (bound.1 =s pr_ClusterName req) then
        Some (mkHTTPError 403 ("token is not valid for cluster " +:+ quote (pr_ClusterName req)))
      else None
  end end end.

(** The cluster the push is for, as the lookup finds it, and whether the
    push binds its UID. *)
Definition pushCluster (env : ingestEnv) (bound : string * Z) (req : pushRequest) (uid : string) (db : SQLite)
    : (Cluster * bool) + httpError :=
  let name := pr_ClusterName req in
  let fresh := mkCluster 0 name uid zeroTime (ig_now env) in
  if ig_lookupErr env then inr internalError
  else match ClusterByName name db with
  | Some existing =>
      if negb (bound.2 =? 0) && negb (c_ID existing =? bound.2) then inr (clusterChanged name)
      else if negb (c_ClusterUID existing =s "") && negb (c_ClusterUID existing =s uid) then
        inr (uidConflict name (c_ClusterUID existing) uid)
      else inl (mkCluster (c_ID existing) name uid zeroTime (ig_now env), (c_ClusterUID existing =s "") && negb (uid =s ""))
  | None => if negb (bound.2 =? 0) then inr (clusterChanged name) else inl (fresh, false)
  end.

(** The push handed to [ingestSnapshot]: the snapshot keeps the inventory as
    it came, the evaluations judge the view of the admitted one. *)
Definition pushOf (s : Server) (env : ingestEnv) (token : string) (req : pushRequest) (raw inv : Inventory) (c : Cluster)
    (adopting : bool) : push :=
  mkPush c (mkSnapshot 0 (c_ID c) (canonicalHash (Canonical inv)) (pr_KBVersion req) (pr_AgentVersion req) (ig_now env)
              (ServerVersion inv) (Some raw))
    (judgedView inv (pr_AgentVersion req) (pr_KBVersion req) (sv_KB s)) token adopting.

(** The request once authenticated and read: its decoded form and the two
    inventories, or the answer that refuses it. *)
Definition admitPush (env : ingestEnv) (bound : string * Z) : (pushRequest * Inventory * Inventory) + httpError :=
  match ig_body env with
  | inr e => inr e
  | inl raw =>
      if negb (ig_slot env) then inr tooManyPushes
      else if negb (ToValidUTF8 raw =s raw) then inr (unprocessable "invalid JSON: the body is not valid UTF-8")
      else match decodePush raw with
      | Err e => inr (unprocessable ("invalid JSON: " +:+ e))
      | Ok req =>
          match checkPush bound req with
          | Some e => inr e
          | None =>
              match decodePushedInventory (pr_Inventory req) with
              | inr msg => inr (unprocessable msg)
              | inl (pushed, inv) => inl (req, pushed, inv)
              end
          end
      end
  end.

(** [handleIngest]. *)
Definition handleIngest (s : Server) (env : ingestEnv) (token : string) (db : SQLite) : ingestAnswer * SQLite :=
  match authIngest env token db with
  | inr e => (Rejected e, db)
  | inl bound =>
      match admitPush env bound with
      | inr e => (Rejected e, ig_beforeLookup env db)
      | inl (req, pushed, inv) =>
          let db := ig_beforeLookup env db in
          match pushCluster env bound req (ClusterID inv) db with
          | inr e => (Rejected e, db)
          | inl (c, adopting) =>
              let pushToken := if bound.1 =s "" then ""%string else token in
              match ingestSnapshot s (ig_attempts env) (pushOf s env pushToken req pushed inv c adopting)
                      (ig_beforeAttempts env db) with
              | (inl (id, false), db) => (Accepted id, db)
              | (inl (id, true), db) => (Duplicate id, db)
              | (inr e, db) => (Rejected (ingestErrorAnswer (pr_ClusterName req) e), db)
              end
          end
      end
  end.
End Ingest.

(** * What ingest promises

    A push that is answered with a refusal has stored nothing, whatever
    raced it; one that is accepted was pushed by who may push for that
    cluster, was admitted, and is the cluster's latest snapshot; and two
    pushes that differ only in how they were collected are one snapshot. *)

From S2P Require Import Findings Conform Evaluate Notify StoreInv StoreSpec Prune PassSpec.

(** ** What a commit without a push fails with *)

Definition failsAs {A} (S : sentinel -> Prop) (m : stx A) : Prop := forall db e, m db = Failed e -> S (err_is e).

Section Fails.
Context (S : sentinel -> Prop).

Lemma fails_ret {A} (a : A) : failsAs S (mret a).
Proof. intros db e H. discriminate H. Qed.

Lemma fails_ask {A} (f : SQLite -> A) : failsAs S (ask f).
Proof. intros db e H. discriminate H. Qed.

Lemma fails_change f : failsAs S (change f).
Proof. intros db e H. discriminate H. Qed.

Lemma fails_guard b e0 : S (err_is e0) -> failsAs S (guardTx b e0).
Proof. intros HS db e. unfold guardTx. destruct b; [done|]. by intros [= <-]. Qed.

Lemma fails_bind {A B} (m : stx A) (k : A -> stx B) : failsAs S m -> (forall a, failsAs S (k a)) -> failsAs S (m ≫= k).
Proof.
  intros Hm Hk db e. unfold mbind, tx_bind. destruct (m db) as [[a db']|e'] eqn:E; [apply Hk|]. intros [= <-]. by eapply Hm.
Qed.

Lemma fails_each {A} (f : A -> stx unit) l : (forall x, failsAs S (f x)) -> failsAs S (each f l).
Proof. intros Hf. induction l; simpl; [apply fails_ret|]. by apply fails_bind. Qed.

Lemma fails_wrap {A} prefix (m : stx A) : failsAs S m -> failsAs S (wrapTx prefix m).
Proof. intros Hm db e. unfold wrapTx. destruct (m db) eqn:E; [done|]. intros [= <-]. cbn. by eapply Hm. Qed.
End Fails.

#[local] Hint Resolve fails_ret fails_ask fails_change fails_guard fails_bind fails_each : ingest.

(** The errors that are not about a push. *)
Definition ordinary (s : sentinel) : Prop :=
  match s with ErrTokenRevoked | ErrClusterChanged | ErrClusterUIDConflict _ _ _ => False | _ => True end.

Lemma writePass_fails now b clusterID snapID : failsAs ordinary (writePass now b clusterID snapID).
Proof.
  unfold writePass. apply fails_bind; [|intros []; apply fails_bind; [|intros []]]; apply fails_each; intros x.
  - apply fails_bind; [|auto with ingest]. intros db e. unfold insertEvaluation. case_match; [by destruct (insertRow _ _)|]. by intros [= <-].
  - unfold refreshEvaluation, execOne. apply fails_bind; [auto with ingest|]. intros n. apply fails_bind; [by apply fails_guard|]. auto with ingest.
  - unfold queueMessage. auto with ingest.
Qed.

Lemma checkExpectation_fails b clusterID latestID : failsAs ordinary (checkExpectation b clusterID latestID).
Proof.
  unfold checkExpectation. destruct (b_Expect b); [|auto with ingest]. apply fails_bind; [by apply fails_guard|]. intros [].
  apply fails_each. intros x. apply fails_bind; [auto with ingest|]. intros n. by apply fails_guard.
Qed.

Lemma passOf_fails now b clusterID : failsAs ordinary (passOf now b clusterID).
Proof.
  apply fails_bind; [auto with ingest|]. intros latest. cbv zeta. destruct (b_Snapshot b) as [s|].
  - destruct (isDuplicate latest s); [auto with ingest|]. apply fails_bind; [apply checkExpectation_fails|]. intros [].
    apply fails_bind; [intros db e; unfold insertSnapshotRow; case_match; [by destruct (insertRow _ _)|by intros [= <-]]|].
    intros snapID. apply fails_bind; [apply writePass_fails|]. auto with ingest.
  - apply fails_bind; [by apply fails_guard|]. intros []. apply fails_bind.
    { apply fails_each. intros x. apply fails_bind; [auto with ingest|]. intros n. by apply fails_guard. }
    intros []. apply fails_bind; [apply checkExpectation_fails|]. intros []. apply fails_bind; [apply writePass_fails|]. auto with ingest.
Qed.

Lemma commit_fails now b : b_Cluster b = None -> failsAs ordinary (CommitEvaluations now b).
Proof.
  intros Hb. apply fails_wrap, fails_bind; [unfold batchCluster; rewrite Hb; auto with ingest|]. intros id. apply passOf_fails.
Qed.

(** ** Attempts that fail *)

Lemma forTargets_error {A E} (f : Version -> A + E) targets e :
  forTargets f targets = inr e -> exists t, f t = inr e.
Proof.
  induction targets as [|t targets IH]; cbn; [done|]. destruct (f t) eqn:Ef; [|intros [= <-]; eauto].
  destruct (forTargets f targets); [done|]. intros [= <-]. by apply IH.
Qed.

(** A re-evaluation fails only with errors that are answered as internal. *)
Lemma reevaluate_fails s p now at_ deliveryID others db r db' name :
  reevaluate s p now at_ deliveryID others db = (r, db') ->
  match reFailure r with Some e => ingestErrorAnswer name e = internalError | None => True end.
Proof.
  unfold reevaluate. destruct (reevaluateTargets s db p now) as [ts|e] eqn:Et.
  - destruct (reevaluateBatch s p now deliveryID ts) as [b|] eqn:Eb; [|by intros [= <- <-]].
    destruct (CommitEvaluations at_ b (others db)) as [[? ?]|e] eqn:Ec; [by intros [= <- <-]|]. intros [= <- <-].
    assert (Ho : ordinary (err_is e)).
    { apply (commit_fails at_ b) in Ec; [done|]. unfold reevaluateBatch in Eb. destruct (omap currentOf ts); [done|]. by injection Eb as <-. }
    unfold isConflict. destruct (err_is e) eqn:Ee; cbn in *; try done; by rewrite Ee.
  - destruct e as [|e]; intros [= <- <-]; [done|]. unfold reevaluateTargets in Et. apply forTargets_error in Et as [t Ht].
    destruct (reevaluateTarget _ _ _ _ _ _ _) as [|e'] eqn:Er; [done|]. injection Ht as ->. unfold reevaluateTarget in Er.
    cbv zeta in Er. do 2 (match type of Er with (if ?c then _ else _) = _ => destruct c; [done|] end).
    destruct (evaluation _ _ _ _ _) as [[ev rep]|[]]; [|done|by injection Er as <-]. exfalso.
    destruct (keepCarried _ _ _) as [e1 carried]. repeat (case_match; try done).
Qed.

Section Refused.
Context (P : SQLite -> Prop).

Lemma reingest_fails s a p clusterID snapID version force db e db' name :
  reingest s a p clusterID snapID version force db = (inr e, db') -> ingestErrorAnswer name e = internalError.
Proof.
  unfold reingest. cbv zeta. destruct (reevaluate _ _ _ _ _ _ _) as [r db1] eqn:Er.
  pose proof (reevaluate_fails _ _ _ _ _ _ _ _ _ name Er) as Hf. destruct (reFailure r); [|done]. by intros [= <- <-].
Qed.

(** An attempt that fails as anything but an internal error wrote nothing. *)
Lemma ingestOnce_refused s a p db e db' name :
  (forall db, P db -> P (at_others a db)) ->
  ingestOnce s a p db = (inr e, db') -> ingestErrorAnswer name e <> internalError -> P db -> P db'.
Proof.
  intros Ho H Hne HP.
  assert (Hfresh : ingestFresh s a p db = (inr e, db') -> P db').
  { unfold ingestFresh. destruct (ingestBatch _ _ _ _ _) as [b|e']; [|intros [= _ <-]; auto].
    cbv zeta. destruct (CommitEvaluations _ _ _) as [[[snapID []] db2]|e']; [|done|intros [= _ <-]; auto].
    destruct (c_ID (p_cluster p) =? 0); [destruct (ClusterByName _ db2)|]; try (by intros Hr%(reingest_fails _ _ _ _ _ _ _ _ _ _ name)).
    intros [= <- <-]. done. }
  unfold ingestOnce in H. destruct (pushLatest db p) as [latest|]; [|auto]. destruct (sn_Hash latest =s _); [|auto].
  cbv zeta in H. destruct (CommitEvaluations _ _ _) as [[[snapID dup] db2]|e']; [|injection H as _ <-; auto].
  destruct (reingest _ _ _ _ _ _ _ _) as [[?|e'] db3] eqn:Er; [done|]. injection H as <- <-.
  by apply (reingest_fails _ _ _ _ _ _ _ _ _ _ name) in Er.
Qed.

Lemma conflict_answer r name : pushConflict r = true -> exists e, r = inr e /\ ingestErrorAnswer name e = movedOn.
Proof.
  destruct r as [|[e|e]]; cbn; [done| |done]. unfold isConflict. destruct (err_is e) eqn:E; try done. intros _. eexists. split; [done|]. cbn. by rewrite E.
Qed.

Lemma ingestFrom_refused n s attempts p db e db' name :
  (forall k db, P db -> P (at_others (attempts k) db)) ->
  ingestFrom n s attempts p db = (inr e, db') -> ingestErrorAnswer name e <> internalError -> P db -> P db'.
Proof.
  intros Ho. revert p db. induction n as [|n IH]; intros p db; cbn [ingestFrom];
    destruct (ingestOnce s (attempts _) p db) as [r db1] eqn:E1.
  - intros [= -> ->] Hne HP. eapply ingestOnce_refused; [apply Ho|exact E1|exact Hne|exact HP].
  - destruct (pushConflict r) eqn:Ec.
    + intros H Hne HP. destruct (conflict_answer r name Ec) as (e1 & -> & Ha).
      apply (IH (retried db1 p) db1 H Hne). eapply ingestOnce_refused; [apply Ho|exact E1|by rewrite Ha|done].
    + intros [= -> ->] Hne HP. eapply ingestOnce_refused; [apply Ho|exact E1|exact Hne|exact HP].
Qed.
End Refused.

(** ** Tokens stay named *)

(** Every token is bound to a named cluster. *)
Definition tokens_named (db : SQLite) : Prop := forall r, r ∈ t_rows (tokens db) -> tk_ClusterName (tr_token r) <> ""%string.

Lemma run_named o db : db_ok db -> tokens_named db -> tokens_named (run o db).
Proof.
  intros Hok Hn.
  assert (Hsame : tokens (run o db) = tokens db -> tokens_named (run o db)) by (intros E; unfold tokens_named; by rewrite E).
  assert (Hupd : forall p f t, (forall r, tk_ClusterName (tr_token r) <> ""%string -> tk_ClusterName (tr_token (f r)) <> ""%string) ->
    (forall r, r ∈ t_rows t -> tk_ClusterName (tr_token r) <> ""%string) ->
    forall r, r ∈ t_rows (updateRows p f t) -> tk_ClusterName (tr_token r) <> ""%string).
  { intros p f t Hf Ht r (r0 & Hr0 & ->)%elem_of_update. destruct (p r0); [|by apply Ht]. by apply Hf, Ht. }
  assert (Hrev : forall what p now, tokens_named (commit (revoke what p now) db)).
  { intros what p now. unfold commit. destruct (revoke what p now db) as [[u db']|] eqn:E; [|done].
    unfold revoke, execOne in E. apply bind_Done in E as (n & d1 & Ha & E). injection Ha as <- <-.
    apply bind_Done in E as ([] & d2 & [_ ->]%guard_Done & E). injection E as _ <-. intros r. cbn. by apply Hupd. }
  destruct o; cbn [run] in *; try apply Hrev.
  - apply Hsame. apply stays_commit. by apply upsertCluster_stays.
  - unfold commit. destruct (DeleteCluster name db) as [[u db']|] eqn:E; [|done]. apply DeleteCluster_Done in E as (c & _ & ->).
    intros r [_ Hr]%elem_of_select. by apply Hn.
  - unfold commit. destruct (RenameCluster name newName db) as [[u db']|] eqn:E; [|done].
    assert (Hne : newName <> ""%string).
    { intros ->. unfold RenameCluster in E. discriminate E. }
    apply RenameCluster_Done in E as (c & _ & -> & _). intros r. cbn. by apply Hupd.
  - apply Hsame. apply stays_commit. intros x a x' Hx%wrap_Done. revert x a x' Hx. apply stays_bind; [by apply batchCluster_stays|].
    intros i. by apply passOf_stays.
  - apply Hsame. by rewrite Prune_spec by done.
  - apply Hsame. apply stays_commit. intros x a x' Hx. by injection Hx as _ <-.
  - apply Hsame. apply stays_commit. by apply stays_execOne.
  - apply Hsame. apply stays_commit. by apply stays_execOne.
  - apply Hsame. apply stays_commit. by apply stays_execOne.
  - unfold commit. destruct (CreateToken now clusterName token db) as [[u db']|] eqn:E; [|done]. unfold CreateToken in E.
    destruct ((clusterName =s "") || (token =s "")) eqn:Eb; [done|]. destruct (existsb _ _); [done|]. injection E as _ <-.
    apply orb_false_iff in Eb as [Eb _]. apply String.eqb_neq in Eb. intros r. cbn. rewrite elem_of_app.
    intros [Hr|Hr%list_elem_of_singleton]; [by apply Hn|by subst r].
  - apply Hsame. apply stays_commit. intros x a x' Hx. unfold CreateReadToken in Hx. destruct (_ =s _); [done|].
    destruct (readTokenTeams teams); [|done]. destruct (existsb _ _); [done|]. by injection Hx as _ <-.
  - apply Hsame. apply stays_commit. by apply stays_execOne.
  - apply Hsame. apply stays_commit. intros x a x' Hx%wrap_Done%wrap_Done. revert x a x' Hx. apply stays_bind; [by apply batchCluster_stays|].
    intros i. by apply passOf_stays.
  - apply Hsame. apply stays_commit. by apply insertEvaluation_stays.
Qed.

Lemma reachable_named db : rtc step migrated db -> tokens_named db.
Proof.
  intros Hs. assert (H : db_ok db /\ tokens_named db); [|by destruct H]. revert db Hs.
  apply (rtc_ind_r (fun db => db_ok db /\ tokens_named db)).
  - split; [apply migrated_ok|]. by intros r Hr%not_elem_of_nil.
  - intros y z _ Hyz [Hok Hn]. destruct Hyz as [o y Ha]. split; [|by apply run_named]. eapply steps_ok; [|exact Hok]. by eapply rtc_once.
Qed.

(** ** Refusals *)

Section Ingest.
Context `{AgentSemver} `{Content} `{Unicode}.
Context (decodePush : string -> res pushRequest) (decodeInventoryJSON : string -> res Inventory) (encodeJSON : Inventory -> string).
#[local] Notation handle := (handleIngest decodePush decodeInventoryJSON encodeJSON).

(** A refused push stores nothing: whatever other writers do while it is
    read, looked up, evaluated, retried and committed, every property of
    the database that they keep is kept when the answer is a refusal (any
    status from 400 up but 500): no cluster row, no last-seen time, no
    snapshot, evaluation or message of the push is left behind, as the
    answers say. *)
Lemma ingest_refused_untouched (P : SQLite -> Prop) (s : Server) (env : ingestEnv) (token : string) (db db' : SQLite)
    (e : httpError) :
  (forall db, P db -> P (ig_beforeLookup env db)) -> (forall db, P db -> P (ig_beforeAttempts env db)) ->
  (forall k db, P db -> P (at_others (ig_attempts env k) db)) ->
  handle s env token db = (Rejected e, db') -> he_status e <> 500 -> P db -> P db'.
Proof.
  intros Hl Hf Ho. unfold handleIngest. destruct (authIngest env token db) as [bound|]; [|intros [= _ <-]; auto].
  destruct (admitPush _ _ _ _) as [[[req pushed] inv]|]; [|intros [= _ <-]; auto]. cbv zeta.
  destruct (pushCluster _ _ _ _ _) as [[c adopting]|]; [|intros [= _ <-]; auto].
  destruct (ingestSnapshot _ _ _ _) as [[[id []]|err] db1] eqn:E; [done..|]. intros [= <- <-] Hne HP.
  eapply (ingestFrom_refused P); [exact Ho|exact E| |auto]. intros Heq. by rewrite Heq in Hne.
Qed.

(** ** Acceptances *)

(** A commit of a push with a token found the token active for the push's
    cluster. *)
Lemma commit_token_active now b c db res db' :
  CommitEvaluations now b db = Done (res, db') -> b_Cluster b = Some c -> b_IngestToken b <> ""%string ->
  exists r, r ∈ t_rows (tokens db) /\ Store.activeToken (HashToken (b_IngestToken b)) r = true /\ tk_ClusterName (tr_token r) = Store.c_Name c.
Proof.
  intros E Hb Ht. apply wrap_Done in E as (i & db0 & Hcl & _)%bind_Done. unfold batchCluster in Hcl. rewrite Hb in Hcl.
  apply bind_Done in Hcl as (j & db1 & Hu & Hcl). apply bind_Done in Hcl as ([] & dbx & Hrc & _).
  apply bind_Done in Hrc as ([] & dby & ->%reads_guard & Hrc). rewrite (proj2 (String.eqb_neq _ _) Ht) in Hrc.
  apply bind_Done in Hrc as (n & dbz & Ha & Hg). injection Ha as <- _. apply guard_Done in Hg as [Hg _].
  rewrite (upsertCluster_stays tokens now c (fun _ _ => eq_refl) _ _ _ Hu) in Hg.
  destruct (select (fun r => Store.activeToken (HashToken (b_IngestToken b)) r && (tk_ClusterName (tr_token r) =s Store.c_Name c))
              (t_rows (tokens db))) as [|r l] eqn:Es; [unfold countRows in Hg; by rewrite Es in Hg|].
  assert (Hr : r ∈ select (fun r => Store.activeToken (HashToken (b_IngestToken b)) r && (tk_ClusterName (tr_token r) =s Store.c_Name c))
                 (t_rows (tokens db))) by (rewrite Es; by left).
  apply elem_of_select in Hr as [Hp Hr]. apply andb_true_iff in Hp as [Hp Hn]. exists r. split_and!; [done|done|by apply String.eqb_eq].
Qed.

(** What a push asks of the store, whatever its cluster's id. *)
Definition commits (p : push) (b : EvaluationBatch) : Prop :=
  (exists c, b_Cluster b = Some c /\ Store.c_Name c = Store.c_Name (p_cluster p) /\ c_ClusterUID c = c_ClusterUID (p_cluster p)) /\
  b_IngestToken b = p_token p /\ exists sn, b_Snapshot b = Some sn /\ sn_Hash sn = sn_Hash (p_snap p).

Lemma pushSnapshot_hash db p : sn_Hash (pushSnapshot db p) = sn_Hash (p_snap p).
Proof. unfold pushSnapshot. destruct (pushLatest db p); [|done]. by case_match. Qed.

Lemma ingestOnce_commits s a p db id db' :
  ingestOnce s a p db = (inl (id, false), db') ->
  exists b db1, CommitEvaluations (at_store a) b (at_others a db) = Done ((id, false), db1) /\ commits p b.
Proof.
  assert (Hre : forall clusterID snapID version force db2 db3, reingest s a p clusterID snapID version force db2 <> (inl (id, false), db3)).
  { intros clusterID snapID version force db2 db3. unfold reingest. cbv zeta. destruct (reevaluate _ _ _ _ _ _ _) as [r d].
    by destruct (reFailure r). }
  assert (Hfresh : ingestFresh s a p db = (inl (id, false), db') ->
    exists b db1, CommitEvaluations (at_store a) b (at_others a db) = Done ((id, false), db1) /\ commits p b).
  { unfold ingestFresh. destruct (ingestBatch s db p (at_now a) (at_delivery a)) as [b|] eqn:Eb; [|done]. cbv zeta.
    destruct (CommitEvaluations _ _ _) as [[[snapID []] db2]|e'] eqn:Ec; [| |done].
    - intros Hr. exfalso. destruct (c_ID (p_cluster p) =? 0); [destruct (ClusterByName _ db2); [|done]|]; by apply Hre in Hr.
    - intros [= <- <-]. exists b, db2. split; [done|]. unfold ingestBatch in Eb. cbv zeta in Eb. destruct (forTargets _ _); [|done].
      injection Eb as <-. split_and!; [by eexists|done|]. eexists. split; [done|]. apply pushSnapshot_hash. }
  unfold ingestOnce. destruct (pushLatest db p) as [latest|] eqn:El; [|auto]. destruct (sn_Hash latest =s _); [|auto]. cbv zeta.
  destruct (CommitEvaluations _ _ _) as [[[snapID dup] db2]|e'] eqn:Ec; [|done].
  destruct (reingest _ _ _ _ _ _ _ _) as [[?|e'] db3]; [|done]. intros [= -> -> ->]. exists (duplicateBatch db p), db2.
  split; [done|]. split_and!; [by eexists|done|]. eexists. split; [done|]. apply pushSnapshot_hash.
Qed.

Lemma commits_retried db p b : commits (retried db p) b -> commits p b.
Proof. unfold commits, retried. cbv zeta. by destruct ((c_ID (p_cluster p) =? 0) || p_adopting p). Qed.

Lemma ingestFrom_commits (P : SQLite -> Prop) n s attempts p db id db' :
  (forall k db, P db -> P (at_others (attempts k) db)) -> P db ->
  ingestFrom n s attempts p db = (inl (id, false), db') ->
  exists b now dbc db1, P dbc /\ CommitEvaluations now b dbc = Done ((id, false), db1) /\ commits p b.
Proof.
  intros Ho. revert p db. induction n as [|n IH]; intros p db HP; cbn [ingestFrom];
    destruct (ingestOnce s (attempts _) p db) as [r db1] eqn:E1.
  - intros [= -> ->]. destruct (ingestOnce_commits _ _ _ _ _ _ E1) as (b & db1' & Hc & Hb). eexists b, _, _, db1'. split_and!; [|exact Hc|done]. auto.
  - destruct (pushConflict r) eqn:Ec.
    + intros Hr. destruct (conflict_answer r "" Ec) as (e1 & -> & Ha).
      destruct (IH (retried db1 p) db1) as (b & now & dbc & db2 & HPc & Hc & Hb); [|done|].
      { eapply (ingestOnce_refused P); [apply Ho|exact E1|by rewrite Ha|done]. }
      exists b, now, dbc, db2. split_and!; [done|done|by eapply commits_retried].
    + intros [= -> ->]. destruct (ingestOnce_commits _ _ _ _ _ _ E1) as (b & db1' & Hc & Hb). eexists b, _, _, db1'. split_and!; [|exact Hc|done]. auto.
Qed.

Lemma authIngest_token env token db bound :
  tokens_named db -> authIngest env token db = inl bound ->
  (bound = (""%string, 0) /\ token = ig_shared env /\ token <> ""%string) \/
  (bound.1 <> ""%string /\ IngestTokenCluster token db = Some bound /\ token <> ""%string).
Proof.
  intros Hn. unfold authIngest. destruct (negb (token =s "") && _ && _) eqn:E.
  - intros [= <-]. left. apply andb_true_iff in E as [[E1 _]%andb_true_iff E3]. apply negb_true_iff, String.eqb_neq in E1.
    apply String.eqb_eq in E3. by subst.
  - destruct (token =s "") eqn:Et; [done|]. destruct (ig_authErr env); [done|]. destruct (IngestTokenCluster token db) as [bd|] eqn:Ei; [|done].
    intros [= <-]. right. apply String.eqb_neq in Et. split_and!; [|done|done]. unfold IngestTokenCluster, ValidToken in Ei.
    destruct (head (select _ _)) as [r|] eqn:Er; [|done]. cbn in Ei. injection Ei as <-. apply head_select in Er as [_ Hr]. by apply Hn.
Qed.

(** An accepted push (202) was pushed by who may push for that cluster:
    its bearer token is the shared one, or a token bound to the name the
    push carries, both when it was authenticated and in the very
    transaction that stored it; its body decoded, its cluster name and
    labels are valid and its inventory was admitted; and that transaction
    made a snapshot of the inventory's canonical hash the latest one of the
    cluster registered under the pushed name and id. *)
Lemma ingest_accepted (P : SQLite -> Prop) (s : Server) (env : ingestEnv) (token : string) (db db' : SQLite) (id : Z) :
  (forall db, P db -> P (ig_beforeLookup env db)) -> (forall db, P db -> P (ig_beforeAttempts env db)) ->
  (forall k db, P db -> P (at_others (ig_attempts env k) db)) -> (forall db, P db -> db_ok db) ->
  reachable db -> P db -> handle s env token db = (Accepted id, db') ->
  exists bound req pushed inv dbc db1 now b,
    admitPush decodePush decodeInventoryJSON env bound = inl (req, pushed, inv) /\ Admit pushed = (None, inv) /\
    ValidateClusterName (pr_ClusterName req) = None /\
    (token = ig_shared env /\ token <> ""%string \/
     ValidToken token db = Some (pr_ClusterName req) /\
     exists r, r ∈ t_rows (tokens dbc) /\ Store.activeToken (HashToken token) r = true /\ tk_ClusterName (tr_token r) = pr_ClusterName req) /\
    P dbc /\ CommitEvaluations now b dbc = Done ((id, false), db1) /\
    (exists c, b_Cluster b = Some c /\ Store.c_Name c = pr_ClusterName req /\ c_ClusterUID c = ClusterID inv) /\
    exists cid sn, LatestSnapshot cid db1 = Some sn /\ sn_ID sn = id /\ sn_Hash sn = canonicalHash encodeJSON (Canonical inv).
Proof.
  intros Hl Hf Ho Hpok Hn HP Hh. unfold handleIngest in Hh. destruct (authIngest env token db) as [bound|] eqn:Ea; [|done].
  apply authIngest_token in Ea; [|by apply reachable_named].
  destruct (admitPush _ _ env bound) as [[[req pushed] inv]|] eqn:Ep; [|done]. cbv zeta in Hh.
  destruct (pushCluster env bound req (ClusterID inv) _) as [[c adopting]|] eqn:Ec; [|done].
  set (p := pushOf _ _ _ _ _ _ _ _ _) in Hh. destruct (ingestSnapshot s _ p _) as [[[i []]|] d] eqn:Ei; [done| |done].
  injection Hh as -> ->. destruct (ingestFrom_commits P _ _ _ _ _ _ _ Ho (Hf _ (Hl _ HP)) Ei) as (b & now & dbc & db1 & HPc & Hc & Hb).
  destruct Hb as ((cl & Hcl & Hnm & Huid) & Htok & sn & Hsn & Hhash).
  assert (Hcname : Store.c_Name c = pr_ClusterName req /\ c_ClusterUID c = ClusterID inv).
  { unfold pushCluster in Ec. repeat (case_match; try done); by injection Ec as <- _. }
  assert (Hadm : Admit pushed = (None, inv) /\ ValidateClusterName (pr_ClusterName req) = None /\ (bound.1 <> ""%string -> bound.1 = pr_ClusterName req)).
  { unfold admitPush in Ep. destruct (ig_body env) as [raw|]; [|done]. destruct (negb (ig_slot env)); [done|].
    destruct (negb (ToValidUTF8 raw =s raw)); [done|]. destruct (decodePush raw) as [rq|]; [|done].
    destruct (checkPush bound rq) eqn:Eck; [done|]. destruct (decodePushedInventory _ _) as [[x y]|] eqn:Ed; [|done]. injection Ep as -> -> ->.
    unfold checkPush in Eck. destruct (negb (pr_SchemaVersion req =? 1)); [done|]. destruct (pr_ClusterName req =s ""); [done|].
    destruct (ValidateClusterName (pr_ClusterName req)); [done|]. destruct (validateEnvelopeLabel _ _ _); [|done].
    destruct (validateEnvelopeLabel _ _ _); [|done]. split_and!; [|done|].
    - unfold decodePushedInventory in Ed. destruct (_ || _); [done|]. destruct (decodeInventoryJSON _) as [iv|]; [|done].
      destruct (negb (Source iv =s "") && _); [done|]. destruct (Admit iv) as [[[]|] cut] eqn:EA; [done..|]. by injection Ed as <- <-.
    - intros Hne. destruct (negb (bound.1 =s "") && negb (bound.1 =s pr_ClusterName req)) eqn:Eb; [done|].
      apply String.eqb_neq in Hne. rewrite Hne in Eb. cbn in Eb. apply negb_false_iff, String.eqb_eq in Eb. done. }
  destruct Hadm as (Hadmit & Hvalid & Hbound). destruct Hcname as [Hcn Hcu].
  pose proof Hc as Hc'. apply wrap_Done in Hc' as (cid & db0 & Hbc & _)%bind_Done.
  destruct (committed_latest now b dbc db1 db0 cid id (Hpok _ HPc) Hbc Hc) as (sn' & Hls & Hid & Hhs).
  exists bound, req, pushed, inv, dbc, db1, now, b. split_and!; try done.
  - destruct Ea as [(-> & -> & Hne)|(Hne & Hit & Htne)]; [by left|right].
    assert (Hb1 : bound.1 = pr_ClusterName req) by auto. split.
    + unfold IngestTokenCluster in Hit. destruct (ValidToken token db) as [nm|]; [|done]. cbn in Hit. injection Hit as <-. cbn in Hb1. by f_equal.
    + assert (Hpt : b_IngestToken b = token).
      { rewrite Htok. unfold p. cbn. by rewrite (proj2 (String.eqb_neq _ _) Hne). }
      destruct (commit_token_active _ _ _ _ _ _ Hc Hcl) as (r & Hr & Hact & Hrn); [by rewrite Hpt|].
      exists r. rewrite Hpt in Hact. split_and!; [done|done|]. rewrite Hrn, Hnm. exact Hcn.
  - exists cl. split_and!; [done|by rewrite Hnm|by rewrite Huid].
  - exists cid, sn'. split_and!; [done|done|]. by rewrite (Hhs sn Hsn).
Qed.
End Ingest.

(** ** One snapshot, collected twice *)

(** The same definition, its versions in another order. *)
Definition sameCRD (c d : CRD) : Prop :=
  crd_Group c = crd_Group d /\ crd_Kind c = crd_Kind d /\ crd_Plural c = crd_Plural d /\
  crd_StoredVersions c = crd_StoredVersions d /\ crd_Usage c = crd_Usage d /\
  crd_Versions c ≡ₚ crd_Versions d /\ NoDup (map Inventory.c_Name (crd_Versions c)).

Definition sameStatus (a b : CapabilityStatus) : Prop :=
  cs_Available a = cs_Available b /\ cs_Reason a = cs_Reason b /\ cs_Partial a = cs_Partial b /\ cs_Skipped a ≡ₚ cs_Skipped b.

(** The same cluster, collected at another time, from another apiserver, or
    by a collector that lists the same in another order. *)
Record sameSnapshot (a b : Inventory) : Prop := {
  sn_same : with_Capabilities ∅ (with_CRDs [] (Canonical a)) = with_Capabilities ∅ (with_CRDs [] (Canonical b));
  sn_crds : Forall2 sameCRD (CRDs a) (CRDs b);
  sn_caps : map_relation (fun _ => sameStatus) (fun _ _ => False) (fun _ _ => False) (Capabilities a) (Capabilities b);
}.

Lemma canonicalCRD_same c d : sameCRD c d -> canonicalCRD c = canonicalCRD d.
Proof.
  intros (E1 & E2 & E3 & E4 & E5 & Hp & Hn). unfold canonicalCRD. rewrite E1, E2, E3, E4, E5. f_equal.
  apply isort_perm_eq_in; [intros x y; apply String.leb_total|intros x y z; apply string_leb_trans| |done].
  intros x y Hx Hy Hxy Hyx.
  assert (Hnm : Inventory.c_Name x = Inventory.c_Name y) by (by apply String.leb_antisym).
  apply list_elem_of_lookup in Hx as [i Hi], Hy as [j Hj].
  assert (i = j) as ->.
  { eapply (NoDup_lookup (map Inventory.c_Name (crd_Versions c))); [done|apply (list_lookup_fmap_Some_2 Inventory.c_Name _ _ _ Hi)|].
    rewrite Hnm. apply (list_lookup_fmap_Some_2 Inventory.c_Name _ _ _ Hj). }
  congruence.
Qed.

(** Two pushes of one cluster that differ only in when and through which
    apiserver they were collected, in the age of reused evidence, or in the
    order in which a collector lists CRD versions and skipped sources have
    one canonical form, so one hash, and the second is a duplicate; and
    taking the canonical form twice is taking it once. *)
Lemma Canonical_same (encodeJSON : Inventory -> string) (a b : Inventory) :
  sameSnapshot a b ->
  Canonical a = Canonical b /\ canonicalHash encodeJSON (Canonical a) = canonicalHash encodeJSON (Canonical b) /\
  Canonical (Canonical a) = Canonical a.
Proof.
  intros [Hs Hc Hm].
  assert (Hcaps : Capabilities (Canonical a) = Capabilities (Canonical b)).
  { cbn. apply map_eq. intros c. rewrite !lookup_fmap. specialize (Hm c).
    destruct (Capabilities a !! c) as [x|], (Capabilities b !! c) as [y|]; cbn in *; try done.
    destruct Hm as (E1 & E2 & E3 & Hp). unfold canonicalStatus. rewrite E1, E2, E3. by rewrite (sort_strings_perm_eq _ _ Hp). }
  assert (Hcrds : CRDs (Canonical a) = CRDs (Canonical b)).
  { cbn. induction Hc as [|c d cs ds Hcd _ IH]; [done|]. cbn [map]. by rewrite IH, (canonicalCRD_same c d Hcd). }
  assert (Heq : Canonical a = Canonical b).
  { assert (Hset : forall x, x = with_Capabilities (Capabilities x) (with_CRDs (CRDs x) (with_Capabilities ∅ (with_CRDs [] x)))) by (by intros []).
    rewrite (Hset (Canonical a)), (Hset (Canonical b)), Hs, Hcaps, Hcrds. done. }
  split_and!; [done|by rewrite Heq|]. unfold Canonical at 1 3. f_equal.
  - cbn. rewrite <- map_fmap_compose. apply map_fmap_ext. intros c st _. unfold canonicalStatus. cbn. f_equal.
    apply sort_strings_perm_eq, sort_strings_perm.
  - cbn. rewrite map_map. apply map_ext. intros c. unfold canonicalCRD. cbn. f_equal.
    apply isort_id, isort_sorted; [intros x y; apply String.leb_total|intros x y z; apply string_leb_trans].
Qed.

(** ** Witnesses *)

#[local] Existing Instance exampleContent.
#[local] Existing Instance exampleUnicode.
#[local] Existing Instance dottedSemver.

Definition pushedRequest : pushRequest := mkPushRequest 1 "prod" "v0.3.0" "kb-1" "inv".
Definition pushedInventory : Inventory := with_CRDs [] cleanInventory.
Definition decodeExample (_ : string) : res pushRequest := Ok pushedRequest.
Definition decodeExampleInventory (_ : string) : res Inventory := Ok pushedInventory.

Definition quietAttempt : attempt := mkAttempt (4 * day) (4 * day) "d" id (4 * day) (4 * day) "e" id.
Definition exampleEnv (shared : string) : ingestEnv :=
  mkIngestEnv shared false (inl "{}"%string) true (4 * day) id false id (fun _ => quietAttempt).

Definition tokenedDB : SQLite := run (OpCreateToken 0 "prod" "push-secret") migrated.

Lemma ingest_accepted_witness :
  exists id cid db1 sn, (handleIngest decodeExample decodeExampleInventory (fun _ => "{}"%string) exampleServer (exampleEnv "")
      "push-secret" tokenedDB).1 = Accepted id /\
    LatestSnapshot cid db1 = Some sn /\ sn_ID sn = id.
Proof.
  destruct (handleIngest decodeExample decodeExampleInventory (fun _ => "{}"%string) exampleServer (exampleEnv "") "push-secret" tokenedDB)
    as [ans db'] eqn:E.
  assert (Ha : exists id, ans = Accepted id).
  { pose proof (f_equal fst E) as E1. vm_compute in E1. rewrite <- E1. by eexists. }
  destruct Ha as [id ->].
  assert (Hr : reachable tokenedDB) by (by eapply rtc_once, step_run).
  destruct (ingest_accepted decodeExample decodeExampleInventory (fun _ => "{}"%string) (fun db => db = tokenedDB) exampleServer (exampleEnv "")
    "push-secret" tokenedDB db' id) as (bound & req & pushed & inv & dbc & db1 & now & b & Hadm & _ & _ & _ & Hdbc & Hc & (c & Hcl & Hn & _) & cid & sn & Hl & Hid & _).
  - intros db ->. reflexivity.
  - intros db ->. reflexivity.
  - intros k db ->. reflexivity.
  - intros db ->. exact (steps_ok _ _ Hr migrated_ok).
  - exact Hr.
  - reflexivity.
  - exact E.
  - exists id, cid, db1, sn. exact (conj eq_refl (conj Hl Hid)).
Defined.

(** A token of another cluster is refused, and nothing changes. *)
Lemma ingest_refused_untouched_witness :
  exists e, handleIngest decodeExample decodeExampleInventory (fun _ => "{}"%string) exampleServer (exampleEnv "")
      "push-secret" (run (OpCreateToken 0 "test" "push-secret") migrated) = (Rejected e, run (OpCreateToken 0 "test" "push-secret") migrated) /\
    he_status e = 403.
Proof.
  set (db := run (OpCreateToken 0 "test" "push-secret") migrated).
  destruct (handleIngest decodeExample decodeExampleInventory (fun _ => "{}"%string) exampleServer (exampleEnv "") "push-secret" db)
    as [ans db'] eqn:E.
  assert (Ha : exists e, ans = Rejected e /\ he_status e = 403).
  { pose proof (f_equal fst E) as E1. vm_compute in E1. rewrite <- E1. eexists. split; [reflexivity|]. reflexivity. }
  destruct Ha as (e & -> & He). exists e. split; [|exact He]. f_equal.
  apply (ingest_refused_untouched decodeExample decodeExampleInventory (fun _ => "{}"%string) (fun x => x = db) exampleServer (exampleEnv "")
    "push-secret" db db' e).
  - intros x ->. reflexivity.
  - intros x ->. reflexivity.
  - intros k x ->. reflexivity.
  - exact E.
  - rewrite He. discriminate.
  - reflexivity.
Defined.

Definition recollected : Inventory :=
  mkInventory 1 "c" 1 SourceCluster (5 * day) "v1.29.4" "" {[ CapHelm := mkCapabilityStatus true "partly" true ["b"; "a"]%string ]}
    [] [] [] [] [] [] [] [] [] 0 [] [] (3 * day) 7 [].
Definition collected : Inventory :=
  mkInventory 1 "c" 1 SourceCluster 0 "v1.29.4" "" {[ CapHelm := mkCapabilityStatus true "partly" true ["a"; "b"]%string ]}
    [] [] [] [] [] [] [] [] [] 0 [] [] 0 0 [].

Lemma Canonical_same_witness : Canonical recollected = Canonical collected.
Proof.
  apply (Canonical_same (fun _ => ""%string) recollected collected). split.
  - reflexivity.
  - constructor.
  - intros c. change (Capabilities recollected) with ({[ CapHelm := mkCapabilityStatus true "partly" true ["b"; "a"]%string ]} : gmap string _).
    change (Capabilities collected) with ({[ CapHelm := mkCapabilityStatus true "partly" true ["a"; "b"]%string ]} : gmap string _).
    destruct (decide (c = CapHelm)) as [->|Hc].
    + rewrite !lookup_singleton_eq. cbn. unfold sameStatus. cbn. split_and!; [reflexivity..|]. apply perm_swap.
    + rewrite !lookup_singleton_ne by (intros E; by apply Hc). exact I.
Defined.
