(* ===== verification/Reads.v ===== *)
(** * The read API

    The per-cluster and fleet reads of src/internal/server/api.go and
    fleet.go, with whatif.go: how a request finds its cluster and its
    target, where a report comes from, and how evaluations are summarised
    and rolled up.

    A handler reads the store several times, and others write meanwhile:
    [at_ n] is the database its [n]th call sees. A call that fails is
    answered with an internal error whatever it was for, and is left out.
    [encodedSize] is the length of a gap as the answer's encoder writes
    it. *)

From stdpp Require Import base list strings gmap sorting.
From Stdlib Require Import ZArith Lia Ascii Sorting.Permutation.
From S2P Require Import Prelude GoStr GoTime Version Inventory KB Findings Admit Heads Db Store Passes Background Views Scope Auth Gate.

(** ** What a request asks for *)

Record readRequest := mkReadRequest {
  rd_scope : readScope;
  rd_id : string;
  rd_target : string;
  rd_severity : string;
  rd_category : string;
  rd_limit : string;
}.

Definition pathClusterID (r : readRequest) : Z + httpError :=
  match Atoi (rd_id r) with Some id => inl id | None => inr (mkHTTPError 400 "invalid cluster id") end.

(** [requireCluster]. *)
Definition requireCluster (s : Server) (at_ : nat -> SQLite) (r : readRequest) : Cluster + httpError :=
  match pathClusterID r with
  | inr e => inr e
  | inl id =>
      if inScope (sv_teamMapHash s) (rd_scope r) id (at_ 0%nat) then
        match GetCluster id (at_ 1%nat) with Some c => inl c | None => inr (notFound "cluster not found") end
      else inr (notFound "cluster not found")
  end.

(** [defaultTarget]; [None] is a cluster without a snapshot. *)
Definition defaultTarget (at_ : nat -> SQLite) (lv : legacyVersions) (clusterID : Z) : option (res Version) :=
  match LatestSnapshotHead clusterID (at_ 2%nat) with
  | None => None
  | Some head =>
      match ParseVersion (versionOf head (at_ 3%nat) lv).1 with
      | Err e => Some (Err ("latest snapshot has no parseable server version: " +:+ e))
      | Ok server => Some (Ok (Next server))
      end
  end.

Definition resolveTarget (at_ : nat -> SQLite) (lv : legacyVersions) (r : readRequest) (clusterID : Z) : Version + httpError :=
  if negb (rd_target r =s "") then
    match ParseTarget (rd_target r) with
    | Err e => inr (mkHTTPError 422 ("invalid target: " +:+ e))
    | Ok v => inl v
    end
  else match defaultTarget at_ lv clusterID with
  | None => inr (notFound "no snapshots for cluster")
  | Some (Err e) => inr (mkHTTPError 422 ("cannot derive default target: " +:+ e))
  | Some (Ok v) => inl v
  end.

(** ** Summaries *)

Definition fleetSummaryBytes : Z := 1024.

(** A gap cut to the column's bounds again. *)
Definition cutGap (g : gapSummary) : summaryGap :=
  let gap := gs_Gap g in
  let n := zlen (g_Skipped gap) - SummarySkipped in
  let skipped := if 0 <? n then take (Z.to_nat SummarySkipped) (g_Skipped gap) else g_Skipped gap in
  mkSummaryGap
    (mkGap (CutString (g_Capability gap) SummaryCapabilityBytes) (CutString (g_Reason gap) SummaryReasonBytes)
       (g_Partial gap) (map (fun x => CutString x SummarySkippedBytes) skipped) (g_Required gap))
    (gs_SkippedOmitted g + (if 0 <? n then n else 0)).

Section Summaries.
Context (encodedSize : summaryGap -> Z).

(** The list so far, its size, and whether it is full. *)
Record gapList := mkGapList { gl_gaps : list summaryGap; gl_size : Z; gl_full : bool }.

Definition addGap (budget : Z) (required : bool) (st : gapList) (g : gapSummary) : gapList :=
  if negb (Bool.eqb (g_Required (gs_Gap g)) required) || gl_full st then st
  else
    let g := cutGap g in
    if (0 <? budget) && (budget <? gl_size st + encodedSize g + 1) then mkGapList (gl_gaps st) (gl_size st) true
    else mkGapList (gl_gaps st ++ [g]) (if 0 <? budget then gl_size st + encodedSize g + 1 else gl_size st) (gl_full st).

(** [gapsOf]: the required gaps first, within [budget] bytes (0 for no
    limit), and how many are left out. *)
Definition gapsOf (e : Evaluation) (budget : Z) : list summaryGap * Z :=
  let all := e_NotAssessed e in
  let st := foldl (addGap budget true) (mkGapList [] 2 false) all in
  let st := foldl (addGap budget false) st all in
  (gl_gaps st, zlen all - zlen (gl_gaps st)).

Record evalSummary := mkEvalSummary {
  es_Target : string;
  es_Score : Z;
  es_Ready : bool;
  es_Verdict : string;
  es_Blockers : Z;
  es_Warnings : Z;
  es_KBVersion : string;
  es_EvaluatedAt : Time;
  es_SnapshotID : Z;
  es_Outdated : bool;
  es_NotAssessed : list summaryGap;
  es_NotAssessedOmitted : Z;
}.

(** [outdated], without the re-evaluation it asks for. *)
Definition outdated (s : Server) (e : Evaluation) (now : Time) : bool := stale s e now.

Definition summarize (s : Server) (e : Evaluation) (now : Time) (budget : Z) : evalSummary :=
  let '(gaps, omitted) := gapsOf e budget in
  mkEvalSummary (e_Target e) (e_Score e) (e_Ready e) (verdictOf e) (e_Blockers e) (e_Warnings e) (e_KBVersion e)
    (e_EvaluatedAt e) (e_SnapshotID e) (outdated s e now) gaps omitted.

(** [sum.NotAssessed = scopeOf(r).summaryGaps(sum.NotAssessed)]. *)
Definition scopeSummary (sc : readScope) (x : evalSummary) : evalSummary :=
  mkEvalSummary (es_Target x) (es_Score x) (es_Ready x) (es_Verdict x) (es_Blockers x) (es_Warnings x) (es_KBVersion x)
    (es_EvaluatedAt x) (es_SnapshotID x) (es_Outdated x) (summaryGaps sc (es_NotAssessed x)) (es_NotAssessedOmitted x).

Definition clusterStale (staleAfter : Z) (c : Cluster) (now : Time) : bool := staleAfter <? now - c_LastSeen c.

(** ** The fleet *)

Record clusterState := mkClusterState {
  ct_Cluster : Cluster;
  ct_snap : option Snapshot;
  ct_version : string;
}.

Definition hasSnapshot (c : clusterState) : bool := bool_decide (is_Some (ct_snap c)).

(** The state of one listed cluster, and the versions cached meanwhile. *)
Definition clusterStateOf (heads : gmap Z Snapshot) (db : SQLite) (lv : legacyVersions) (c : Cluster)
    : clusterState * legacyVersions :=
  match heads !! c_ID c with
  | Some head => let '(v, lv) := versionOf head db lv in (mkClusterState c (Some head) v, lv)
  | None => (mkClusterState c None "", lv)
  end.

(** [clusterStates]. *)
Definition clusterStates (s : Server) (at_ : nat -> SQLite) (lv : legacyVersions) (sc : readScope)
    : list clusterState * legacyVersions :=
  let ids := scopeClusters (sv_teamMapHash s) sc (at_ 1%nat) in
  let heads := LatestSnapshotHeads (at_ 2%nat) in
  foldl (fun '(out, lv) c =>
           if match ids with Some ids => bool_decide (c_ID c ∈ ids) | None => true end then
             let '(cs, lv) := clusterStateOf heads (at_ 3%nat) lv c in (out ++ [cs], lv)
           else (out, lv)) ([], lv) (ListClusters (at_ 0%nat)).

Definition notApplicable (serverVersion : string) (target : Version) : bool :=
  match ParseVersion serverVersion with Ok server => Compare target server <=? 0 | Err _ => false end.

Definition isNextMinor (version : string) (v : Version) : bool :=
  match ParseVersion version with Ok server => sameVersion (Next server) v | Err _ => false end.

Definition maxFleetTargets : Z := 16.

Definition addNew (versions : list Version) (v : Version) : list Version :=
  if existsb (sameVersion v) versions then versions else versions ++ [v].

(** How many cells a version fills: the clusters whose next minor it is, and
    for an extra target the other clusters it applies to. *)
Definition fills (extra : list Version) (states : list clusterState) (v : Version) : Z :=
  zlen (List.filter (fun c => hasSnapshot c && isNextMinor (ct_version c) v) states) +
  zlen (List.filter (sameVersion v) extra) *
    zlen (List.filter (fun c => hasSnapshot c && negb (notApplicable (ct_version c) v) && negb (isNextMinor (ct_version c) v)) states).

(** The versions before they are cut to [maxFleetTargets]. *)
Definition candidateTargets (extra : list Version) (states : list clusterState) : list Version :=
  let next := omap (fun c => if hasSnapshot c then match ParseVersion (ct_version c) with Ok v => Some (Next v) | Err _ => None end
                             else None) states in
  let applicable v := existsb (fun c => negb (hasSnapshot c) || negb (notApplicable (ct_version c) v)) states || (zlen states =? 0) in
  foldl addNew (foldl addNew [] next) (List.filter applicable extra).

Definition versionLeb (a b : Version) : bool := Compare a b <=? 0.

(** More cells first, then the lower version. *)
Definition fuller (extra : list Version) (states : list clusterState) (a b : Version) : bool :=
  if fills extra states a =? fills extra states b then versionLeb a b else fills extra states b <? fills extra states a.

(** [fleetDefaultTargets]. *)
Definition fleetDefaultTargets (extra : list Version) (states : list clusterState) : list Version * Z :=
  let versions := candidateTargets extra states in
  let kept := if maxFleetTargets <? zlen versions
              then take (Z.to_nat maxFleetTargets) (isort (fuller extra states) versions) else versions in
  (isort versionLeb kept, zlen versions - zlen kept).

(** The [?targets=] list. *)
Fixpoint parseTargets (raws : list string) (targets : list Version) : list Version + httpError :=
  match raws with
  | [] => inl targets
  | raw :: raws' =>
      match ParseTarget (TrimSpace raw) with
      | Err e => inr (mkHTTPError 422 ("invalid targets entry " +:+ raw +:+ ": " +:+ e))
      | Ok v =>
          if existsb (sameVersion v) targets then parseTargets raws' targets
          else if zlen targets =? maxFleetTargets then
            inr (mkHTTPError 422 ("targets lists more than " +:+ itoa maxFleetTargets +:+
                   " distinct minors; ask for at most " +:+ itoa maxFleetTargets +:+ " at a time"))
          else parseTargets raws' (targets ++ [v])
      end
  end.

Definition sourceStored : string := "stored".
Definition sourceWhatIf : string := "what-if".

Record fleetRow := mkFleetRow {
  fr_Cluster : Cluster;
  fr_Stale : bool;
  fr_ServerVersion : string;
  fr_Cells : list (string * option evalSummary);
  fr_NotApplicable : list string;
}.

(** One row: a cell per target, empty where the target does not apply or has
    no current evaluation. *)
Definition fleetRowOf (s : Server) (staleAfter : Z) (sc : readScope) (cells : Z -> string -> SQLite) (now : Time) (targets : list Version)
    (c : clusterState) : fleetRow :=
  let inapplicable t := hasSnapshot c && notApplicable (ct_version c) t in
  let cell t := if inapplicable t then None
                else (fun e => scopeSummary sc (summarize s e now fleetSummaryBytes)) <$>
                       CurrentEvaluationSummary (c_ID (ct_Cluster c)) (VString t) (cells (c_ID (ct_Cluster c)) (VString t)) in
  mkFleetRow (ct_Cluster c) (clusterStale staleAfter (ct_Cluster c) now) (if hasSnapshot c then ct_version c else "")
    (map (fun t => (VString t, cell t)) targets) (map VString (List.filter inapplicable targets)).

(** [handleFleet]; [cells] is the database the read of each cell sees. *)
Definition handleFleet (s : Server) (staleAfter : Z) (at_ : nat -> SQLite) (cells : Z -> string -> SQLite) (lv : legacyVersions)
    (sc : readScope) (targetsQ : string) (now : Time) : (list Version * Z * list fleetRow) + httpError :=
  let states := (clusterStates s at_ lv sc).1 in
  match (if targetsQ =s "" then inl (fleetDefaultTargets (sv_extraTargets s) states)
         else match parseTargets (Split targetsQ ",") [] with inl ts => inl (ts, 0) | inr e => inr e end) with
  | inr e => inr e
  | inl (targets, omitted) => inl (targets, omitted, map (fleetRowOf s staleAfter sc cells now targets) states)
  end.

(** ** One cluster *)

Record clusterSummary := mkClusterSummary { cy_Cluster : Cluster; cy_Stale : bool; cy_Latest : option evalSummary }.

(** [handleListClusters]. *)
Definition handleListClusters (s : Server) (staleAfter : Z) (at_ : nat -> SQLite) (cells : Z -> string -> SQLite)
    (lv : legacyVersions) (sc : readScope) (now : Time) : list clusterSummary :=
  map (fun c =>
         let latest :=
           match ParseVersion (ct_version c) with
           | Ok server =>
               if hasSnapshot c then
                 let target := VString (Next server) in
                 (fun e => scopeSummary sc (summarize s e now fleetSummaryBytes)) <$>
                   CurrentEvaluationSummary (c_ID (ct_Cluster c)) target (cells (c_ID (ct_Cluster c)) target)
               else None
           | Err _ => None
           end in
         mkClusterSummary (ct_Cluster c) (clusterStale staleAfter (ct_Cluster c) now) latest)
    (clusterStates s at_ lv sc).1.

Section Views.
Context `{AgentSemver}.

(** [decodeInventory]. *)
Definition decodeInventory (k : KB) (snap : Snapshot) : option Inventory :=
  match sn_Inventory snap with
  | None => None
  | Some inv => Some (judgedView (CutFreeText inv).1 (sn_AgentVersion snap) (sn_KBVersion snap) k)
  end.

(** The head [latestHead] decodes of an inventory. *)
Definition headOfInventory (inv : Inventory) : Inventory :=
  mkInventory 0 "" (CollectorSchema inv) (Source inv) zeroTime (ServerVersion inv) "" (Capabilities inv)
    [] [] [] [] [] [] [] [] [] 0 [] [] zeroTime 0 [].

(** [latestHead]. *)
Definition latestHead (k : KB) (db : SQLite) (clusterID : Z) : option (Snapshot * Inventory) :=
  match LatestSnapshot clusterID db with
  | None => None
  | Some snap =>
      match sn_Inventory snap with
      | None => None
      | Some inv =>
          Some (snap, judgedView (CutFreeText (headOfInventory inv)).1 (sn_AgentVersion snap) (sn_KBVersion snap) k)
      end
  end.

Definition judgedAt (snap : Snapshot) (inv : Inventory) : string :=
  if sn_ServerVersion snap =s "" then ServerVersion inv else sn_ServerVersion snap.

Record clusterDetail := mkClusterDetail {
  cd_Cluster : Cluster;
  cd_Stale : bool;
  cd_ServerVersion : string;
  cd_Capabilities : gmap string CapabilityStatus;
  cd_Evaluations : list evalSummary;
}.

(** [handleGetCluster]. *)
Definition handleGetCluster (s : Server) (staleAfter : Z) (at_ : nat -> SQLite) (cells : string -> SQLite) (r : readRequest)
    (now : Time) : clusterDetail + httpError :=
  match requireCluster s at_ r with
  | inr e => inr e
  | inl c =>
      let '(version, caps, targets) :=
        match latestHead (sv_KB s) (at_ 2%nat) (c_ID c) with
        | Some (snap, head) =>
            (judgedAt snap head, scopeCapabilities (rd_scope r) (Capabilities head), evalTargets s (judgedAt snap head))
        | None => (""%string, ∅, sv_extraTargets s)
        end in
      inl (mkClusterDetail c (clusterStale staleAfter c now) version caps
             (omap (fun t => (fun e => scopeSummary (rd_scope r) (summarize s e now 0)) <$>
                               CurrentEvaluationSummary (c_ID c) (VString t) (cells (VString t))) targets))
  end.

(** ** Reports *)

(** [evaluateWhatIf]. *)
Definition evaluateWhatIf (s : Server) (inv : Inventory) (target : Version) (now : Time) : Report + evalError :=
  match evaluateWithin s (with_Namespaces (ApplyTeamMap (sv_TeamMap s) (Namespaces inv)) inv) target now with
  | inr e => inr e
  | inl rep => inl (suppressAnnotated rep now)
  end.

Record reportMeta := mkReportMeta {
  rm_EvaluatedAt : Time;
  rm_SnapshotID : Z;
  rm_Source : string;
  rm_ServerVersion : string;
  rm_NotApplicable : bool;
  rm_Outdated : bool;
  rm_nsTeams : gmap string string;
}.

(** What [loadOrComputeReport] fails with. *)
Inductive reportError := NoSnapshots | ReportTooLarge (e : evalError) | ReportFailed.

(** The namespaces' teams, for a team scope only. *)
Definition scopedTeams (s : Server) (sc : readScope) (db : SQLite) (clusterID : Z) : gmap string string + reportError :=
  if fleet sc then inl ∅
  else match LatestSnapshot clusterID db with
  | None => inr NoSnapshots
  | Some snap =>
      match sn_Inventory snap with
      | None => inr ReportFailed
      | Some inv => inl (namespaceTeams (sv_TeamMap s) (Namespaces inv))
      end
  end.

(** [loadOrComputeReport]: the snapshot a team scope loaded is the one a
    what-if judges. *)
Definition loadOrComputeReport (s : Server) (at_ : nat -> SQLite) (lv : legacyVersions) (clusterID : Z) (target : Version)
    (sc : readScope) (now : Time) : (Report * reportMeta) + reportError :=
  match LatestSnapshotHead clusterID (at_ 4%nat) with
  | None => inr NoSnapshots
  | Some head =>
      let version := (versionOf head (at_ 5%nat) lv).1 in
      match scopedTeams s sc (at_ 6%nat) clusterID with
      | inr e => inr e
      | inl nsTeams =>
          match CurrentEvaluation clusterID (VString target) (at_ 7%nat) with
          | Some e =>
              match e_Report e with
              | None => inr ReportFailed
              | Some rep =>
                  inl (sr_Report rep, mkReportMeta (e_EvaluatedAt e) (e_SnapshotID e) sourceStored version
                                        (notApplicable version target) (outdated s e now) nsTeams)
              end
          | None =>
              match LatestSnapshot clusterID (at_ (if fleet sc then 8 else 6)%nat) with
              | None => inr NoSnapshots
              | Some snap =>
                  match decodeInventory (sv_KB s) snap with
                  | None => inr ReportFailed
                  | Some inv =>
                      match evaluateWhatIf s inv target now with
                      | inl rep => inl (rep, mkReportMeta now (sn_ID snap) sourceWhatIf version (notApplicable version target) false nsTeams)
                      | inr (reportTooLarge t l) => inr (ReportTooLarge (reportTooLarge t l))
                      | inr (evaluationFailed _) => inr ReportFailed
                      end
                  end
              end
          end
      end
  end.

(** [reportForRequest]. *)
Definition reportForRequest (s : Server) (at_ : nat -> SQLite) (lv : legacyVersions) (r : readRequest) (now : Time)
    : (Report * reportMeta) + httpError :=
  match requireCluster s at_ r with
  | inr e => inr e
  | inl c =>
      match resolveTarget at_ lv r (c_ID c) with
      | inr e => inr e
      | inl target =>
          match loadOrComputeReport s at_ lv (c_ID c) target (rd_scope r) now with
          | inl x => inl x
          | inr NoSnapshots => inr (notFound "no snapshots for cluster")
          | inr (ReportTooLarge e) => inr (mkHTTPError 413 ("what-if: " +:+ evalErrorText e))
          | inr ReportFailed => inr internalError
          end
      end
  end.

(** [handleReport]: the report of the scope and its teams' scores. *)
Definition handleReport (s : Server) (at_ : nat -> SQLite) (lv : legacyVersions) (r : readRequest) (now : Time)
    : (Report * gmap string TeamScore * reportMeta) + httpError :=
  match reportForRequest s at_ lv r now with
  | inr e => inr e
  | inl (rep, meta) => inl (scopeReport (rd_scope r) rep (rm_nsTeams meta), renderedTeams (rd_scope r) rep, meta)
  end.

(** [handleFindings]. *)
Definition handleFindings (s : Server) (at_ : nat -> SQLite) (lv : legacyVersions) (r : readRequest) (now : Time)
    : (list Finding * reportMeta) + httpError :=
  match reportForRequest s at_ lv r now with
  | inr e => inr e
  | inl (rep, meta) =>
      inl (List.filter (fun f => ((rd_severity r =s "") || (f_Severity f =s rd_severity r)) &&
                                 ((rd_category r =s "") || (f_Category f =s rd_category r)))
             (scopeFindings (rd_scope r) (r_Findings rep) (rm_nsTeams meta)), meta)
  end.

(** [handleTeams]. *)
Definition handleTeams (s : Server) (at_ : nat -> SQLite) (lv : legacyVersions) (r : readRequest) (now : Time)
    : (gmap string TeamScore * reportMeta) + httpError :=
  match reportForRequest s at_ lv r now with
  | inr e => inr e
  | inl (rep, meta) => inl (renderedTeams (rd_scope r) rep, meta)
  end.

(** ** History *)

Definition maxHistoryLimit : Z := 1000.

Definition historyLimit (q : string) : Z + httpError :=
  if q =s "" then inl 100
  else match Atoi q with
  | Some n => if (n <? 1) || (maxHistoryLimit <? n)
              then inr (mkHTTPError 422 ("limit must be an integer from 1 to " +:+ itoa maxHistoryLimit)) else inl n
  | None => inr (mkHTTPError 422 ("limit must be an integer from 1 to " +:+ itoa maxHistoryLimit))
  end.

Definition handleHistory (s : Server) (at_ : nat -> SQLite) (lv : legacyVersions) (r : readRequest)
    : list ScorePoint + httpError :=
  match requireCluster s at_ r with
  | inr e => inr e
  | inl c =>
      match resolveTarget at_ lv r (c_ID c) with
      | inr e => inr e
      | inl target =>
          match historyLimit (rd_limit r) with
          | inr e => inr e
          | inl limit => inl (ScoreHistory (c_ID c) (VString target) limit (at_ 4%nat))
          end
      end
  end.
End Views.
End Summaries.

(** * What reads promise

    A cluster outside a reader's scope is answered as one that does not
    exist; a summary lists the gaps that make a verdict unknown first and
    fits its budget; the default targets of the fleet are those that fill
    the most cells. *)

From S2P Require Import Skew StoreInv StoreSpec Evaluate PassSpec Scope.

(** ** Summaries of gaps *)

Section Gaps.
Context (encodedSize : summaryGap -> Z).
#[local] Notation gapsOf := (gapsOf encodedSize).

(** The gaps in the order they are listed in. *)
Definition requiredFirst (gs : list gapSummary) : list gapSummary :=
  List.filter (fun g => g_Required (gs_Gap g)) gs ++ List.filter (fun g => negb (g_Required (gs_Gap g))) gs.

Lemma requiredFirst_length gs : zlen (requiredFirst gs) = zlen gs.
Proof.
  unfold requiredFirst, zlen. rewrite length_app. induction gs as [|g gs IH]; [done|]. cbn [List.filter].
  destruct (g_Required (gs_Gap g)); cbn [negb length]; lia.
Qed.

Definition listSize (gs : list summaryGap) : Z := foldr (fun g n => encodedSize g + 1 + n) 2 gs.

Lemma listSize_app gs g : listSize (gs ++ [g]) = listSize gs + encodedSize g + 1.
Proof. unfold listSize. induction gs as [|h gs IH]; cbn; lia. Qed.

(** A step with no filter on required. *)
Definition offerGap (budget : Z) (st : gapList) (g : gapSummary) : gapList :=
  addGap encodedSize budget (g_Required (gs_Gap g)) st g.

Lemma addGap_filter budget required gs st :
  foldl (addGap encodedSize budget required) st gs =
  foldl (offerGap budget) st (List.filter (fun g => Bool.eqb (g_Required (gs_Gap g)) required) gs).
Proof.
  revert st. induction gs as [|g gs IH]; intros st; [done|]. cbn [foldl List.filter].
  destruct (Bool.eqb (g_Required (gs_Gap g)) required) eqn:E; cbn [foldl]; rewrite IH; f_equal.
  - apply eqb_prop in E. unfold offerGap. by rewrite E.
  - unfold addGap. by rewrite E.
Qed.

Lemma gapsOf_offers e budget :
  gapsOf e budget =
  (gl_gaps (foldl (offerGap budget) (mkGapList [] 2 false) (requiredFirst (e_NotAssessed e))),
   zlen (e_NotAssessed e) - zlen (gl_gaps (foldl (offerGap budget) (mkGapList [] 2 false) (requiredFirst (e_NotAssessed e))))).
Proof.
  unfold Reads.gapsOf. cbv zeta. rewrite !addGap_filter. unfold requiredFirst. rewrite foldl_app.
  assert (forall gs, List.filter (fun g => Bool.eqb (g_Required (gs_Gap g)) true) gs = List.filter (fun g => g_Required (gs_Gap g)) gs) as ->.
  { intros gs. apply filter_ext. intros g. by destruct (g_Required (gs_Gap g)). }
  assert (forall gs, List.filter (fun g => Bool.eqb (g_Required (gs_Gap g)) false) gs = List.filter (fun g => negb (g_Required (gs_Gap g))) gs) as ->.
  { intros gs. apply filter_ext. intros g. by destruct (g_Required (gs_Gap g)). }
  done.
Qed.

(** After the gaps [done] were offered: a prefix of them is listed, all of
    them unless the list is full. *)
Record offered (budget : Z) (seen : list gapSummary) (st : gapList) : Prop := {
  of_prefix : exists n, gl_gaps st = map cutGap (take n seen);
  of_all : gl_full st = false -> gl_gaps st = map cutGap seen;
  of_size : gl_size st = if 0 <? budget then listSize (gl_gaps st) else 2;
  of_fits : 0 < budget -> gl_gaps st = [] \/ listSize (gl_gaps st) <= budget;
  of_limit : budget <= 0 -> gl_full st = false;
}.

Lemma offerGap_offered budget seen st g : offered budget seen st -> offered budget (seen ++ [g]) (offerGap budget st g).
Proof.
  intros [[n Hp] Ha Hs Hf Hl]. unfold offerGap, addGap. rewrite eqb_reflx. cbn [negb orb].
  destruct (gl_full st) eqn:Efull.
  - split; [|congruence|done|done|]. 2: intros Hb; specialize (Hl Hb); congruence.
    exists (n `min` length seen)%nat. rewrite Hp. f_equal. rewrite take_app_le by lia.
    destruct (decide (n <= length seen)%nat); [by rewrite Nat.min_l by lia|]. rewrite Nat.min_r, !take_ge by lia. done.
  - specialize (Ha eq_refl). cbv zeta. destruct ((0 <? budget) && _) eqn:Eb; (split; cbn [gl_gaps gl_full gl_size]).
    + exists (length seen). rewrite take_app_length. done.
    + done.
    + done.
    + done.
    + apply andb_true_iff in Eb as [Eb _]. to_prop. lia.
    + exists (length (seen ++ [g])). rewrite Ha, firstn_all, map_app. done.
    + intros _. by rewrite Ha, map_app.
    + destruct (0 <? budget); [|done]. rewrite listSize_app, Hs. done.
    + intros Hb. right. rewrite listSize_app. rewrite Hs in Eb. assert ((0 <? budget) = true) as E0 by (apply Z.ltb_lt; lia).
      rewrite E0 in Eb. cbn [andb] in Eb. to_prop. lia.
    + done.
Qed.

Lemma offers_offered budget gs : offered budget gs (foldl (offerGap budget) (mkGapList [] 2 false) gs).
Proof.
  induction gs as [|g gs IH] using rev_ind.
  - split; cbn; [by exists 0%nat|done| |by left|done]. by destruct (0 <? budget).
  - rewrite foldl_app. by apply offerGap_offered.
Qed.

(** A summary of what was not assessed is honest about what it leaves
    out: it lists a prefix of the gaps with those that make a verdict
    unknown first, so no other gap takes a required one's place; with a
    budget its encoding fits it, without one it lists every gap; and what
    it lists and what it counts as omitted are all the gaps there are. *)
Lemma gapsOf_fits (e : Evaluation) (budget : Z) :
  let all := requiredFirst (e_NotAssessed e) in
  exists n, (gapsOf e budget).1 = map cutGap (take n all) /\ 0 <= (gapsOf e budget).2 /\
    zlen (gapsOf e budget).1 + (gapsOf e budget).2 = zlen (e_NotAssessed e) /\
    (0 < budget -> (gapsOf e budget).1 = [] \/ listSize (gapsOf e budget).1 <= budget) /\
    (budget <= 0 -> (gapsOf e budget).1 = map cutGap all /\ (gapsOf e budget).2 = 0).
Proof.
  cbv zeta. rewrite gapsOf_offers. cbn [fst snd]. set (all := requiredFirst (e_NotAssessed e)).
  pose proof (requiredFirst_length (e_NotAssessed e)) as Hlen. fold all in Hlen.
  destruct (offers_offered budget all) as [[n Hp] Ha _ Hf Hl]. exists n. set (st := foldl _ _ _) in *.
  assert (Hle : zlen (gl_gaps st) <= zlen all).
  { rewrite Hp. unfold zlen. rewrite length_map, length_take. lia. }
  split_and!; [done|lia|lia|done|]. intros Hb. specialize (Ha (Hl Hb)). split; [done|].
  rewrite Ha. unfold zlen in *. rewrite length_map. lia.
Qed.
End Gaps.

(** ** The default targets of the fleet *)

Lemma addNew_spec l v : NoDup l -> NoDup (addNew l v) /\ forall w, w ∈ addNew l v <-> w ∈ l \/ w = v.
Proof.
  intros Hl. unfold addNew. destruct (existsb (sameVersion v) l) eqn:E.
  - apply existsb_exists in E as (x & Hx%list_elem_of_In & ->%bool_decide_eq_true). set_solver.
  - assert (v ∉ l) as Hv.
    { intros Hv%list_elem_of_In. assert (existsb (sameVersion v) l = true) as E'; [|congruence].
      apply existsb_exists. exists v. split; [done|]. by apply bool_decide_eq_true. }
    split; [|set_solver]. apply NoDup_app. split_and!; [done|set_solver|apply NoDup_singleton].
Qed.

Lemma addNews_spec vs l : NoDup l -> NoDup (foldl addNew l vs) /\ forall w, w ∈ foldl addNew l vs <-> w ∈ l \/ w ∈ vs.
Proof.
  revert l. induction vs as [|v vs IH]; intros l Hl; cbn [foldl]; [set_solver|].
  destruct (addNew_spec l v Hl) as [Hn Hw]. destruct (IH _ Hn) as [Hn' Hw']. split; [done|]. intros w.
  rewrite Hw', Hw. set_solver.
Qed.

(** The next minor of a cluster whose version is known. *)
Definition nextMinor (c : clusterState) : option Version :=
  if hasSnapshot c then match ParseVersion (ct_version c) with Ok v => Some (Next v) | Err _ => None end else None.

(** A target some cluster can still move to, or any when there is none. *)
Definition reachableTarget (states : list clusterState) (v : Version) : Prop :=
  states = [] \/ exists c, c ∈ states /\ (hasSnapshot c = false \/ notApplicable (ct_version c) v = false).

Lemma candidateTargets_spec extra states :
  NoDup (candidateTargets extra states) /\
  forall v, v ∈ candidateTargets extra states <->
    (exists c, c ∈ states /\ nextMinor c = Some v) \/ (v ∈ extra /\ reachableTarget states v).
Proof.
  unfold candidateTargets. cbv zeta. edestruct (addNews_spec) as [Hn Hw]; [apply NoDup_nil_2|].
  edestruct (addNews_spec) as [Hn' Hw']; [exact Hn|]. split; [exact Hn'|]. intros v. rewrite Hw', Hw. clear Hn Hw Hn' Hw'.
  rewrite list_elem_of_omap, (list_elem_of_In (List.filter _ _)), filter_In, <- list_elem_of_In, orb_true_iff, existsb_exists.
  assert ((zlen states =? 0) = true <-> states = []) as ->.
  { unfold zlen. destruct states; [done|]. split; [|done]. intros E. to_prop. cbn [length] in E. lia. }
  assert ((exists c, In c states /\ negb (hasSnapshot c) || negb (notApplicable (ct_version c) v) = true) <->
          (exists c, c ∈ states /\ (hasSnapshot c = false \/ notApplicable (ct_version c) v = false))) as ->.
  { apply exist_proper. intros c. rewrite orb_true_iff, !negb_true_iff, list_elem_of_In. done. }
  unfold reachableTarget, nextMinor. rewrite elem_of_nil. naive_solver.
Qed.

Lemma versionLeb_vle a b : versionLeb a b = true <-> vle a b.
Proof. unfold versionLeb. rewrite Z.leb_le. apply Compare_le. Qed.

Lemma versionLeb_total a b : versionLeb a b = true \/ versionLeb b a = true.
Proof. rewrite !versionLeb_vle. destruct (vle_total a b) as [|H]; [by left|]. right. by left. Qed.

Lemma versionLeb_trans a b c : versionLeb a b = true -> versionLeb b c = true -> versionLeb a c = true.
Proof. rewrite !versionLeb_vle. apply transitivity. Qed.

(** [a] is listed in preference to [b]. *)
Definition preferred extra states (a b : Version) : Prop :=
  fills extra states b < fills extra states a \/ (fills extra states a = fills extra states b /\ vle a b).

Lemma fuller_preferred extra states a b : fuller extra states a b = true <-> preferred extra states a b.
Proof.
  unfold fuller, preferred. destruct (fills extra states a =? fills extra states b) eqn:E; to_prop.
  - rewrite versionLeb_vle. intuition lia.
  - rewrite Z.ltb_lt. intuition lia.
Qed.

Lemma fuller_sorted extra states l : StronglySorted (preferred extra states) (isort (fuller extra states) l).
Proof.
  eapply StronglySorted_weaken; [intros a b; apply fuller_preferred|]. apply isort_sorted.
  - intros a b. rewrite !fuller_preferred. unfold preferred. rewrite <- !versionLeb_vle.
    destruct (versionLeb_total a b); destruct (Z.lt_trichotomy (fills extra states a) (fills extra states b)) as [|[]]; auto.
  - intros a b c. rewrite !fuller_preferred. unfold preferred. intros [?|[? Hab]] [?|[? Hbc]]; try (left; lia).
    right. split; [lia|]. by etrans.
Qed.

(** With no targets asked for, the fleet is shown against every minor
    that matters: the candidates are the next minor of each cluster and the
    configured targets some cluster has not passed, each once; at most
    sixteen are listed, in order of version; what is left out is counted;
    and a version left out fills no more cells than any that is listed. *)
Lemma fleetDefaultTargets_best (extra : list Version) (states : list clusterState) :
  let kept := (fleetDefaultTargets extra states).1 in
  StronglySorted vle kept /\ NoDup kept /\ zlen kept <= maxFleetTargets /\
  exists rest, zlen rest = (fleetDefaultTargets extra states).2 /\ NoDup (kept ++ rest) /\
    (forall v, v ∈ kept ++ rest <-> (exists c, c ∈ states /\ nextMinor c = Some v) \/ (v ∈ extra /\ reachableTarget states v)) /\
    (rest <> [] -> zlen kept = maxFleetTargets) /\
    (forall v w, v ∈ kept -> w ∈ rest -> preferred extra states v w).
Proof.
  cbv zeta. destruct (candidateTargets_spec extra states) as [Hnd Hall]. unfold fleetDefaultTargets. cbv zeta. cbn [fst snd].
  set (all := candidateTargets extra states) in *. set (srt := isort (fuller extra states) all).
  assert (exists kept rest, (if maxFleetTargets <? zlen all then take (Z.to_nat maxFleetTargets) srt else all) = kept /\
            kept ++ rest ≡ₚ all /\ zlen kept <= maxFleetTargets /\ (rest <> [] -> zlen kept = maxFleetTargets) /\
            (forall v w, v ∈ kept -> w ∈ rest -> preferred extra states v w)) as (kept & rest & -> & Hp & Hle & Hfull & Hpref).
  { destruct (maxFleetTargets <? zlen all) eqn:E; to_prop.
    - exists (take (Z.to_nat maxFleetTargets) srt), (drop (Z.to_nat maxFleetTargets) srt). rewrite take_drop.
      assert (length srt = length all) as Hlen by (by apply Permutation_length, isort_perm).
      assert (zlen (take (Z.to_nat maxFleetTargets) srt) = maxFleetTargets) as Hk.
      { unfold zlen in *. rewrite length_take, Hlen. unfold maxFleetTargets in *. lia. }
      split_and!; [done|apply isort_perm|lia|done|]. intros v w Hv Hw.
      eapply StronglySorted_app_1_elem_of; [|exact Hv|exact Hw]. rewrite take_drop. apply fuller_sorted.
    - exists all, []. rewrite app_nil_r. split_and!; [done..|set_solver]. }
  pose proof (isort_perm versionLeb kept) as Hk.
  split_and!.
  - eapply StronglySorted_weaken; [intros a b; apply versionLeb_vle|]. apply isort_sorted; [apply versionLeb_total|apply versionLeb_trans].
  - rewrite Hk. rewrite <- Hp in Hnd. by apply NoDup_app in Hnd as [? _].
  - unfold zlen in *. by rewrite Hk.
  - exists rest. split_and!.
    + apply Permutation_length in Hp. rewrite length_app in Hp. unfold zlen in *. lia.
    + by rewrite Hk, Hp.
    + intros v. by rewrite Hk, Hp.
    + unfold zlen in *. by rewrite Hk.
    + intros v w. rewrite Hk. apply Hpref.
Qed.

(** ** Scopes *)

Section Reads.
Context (encodedSize : summaryGap -> Z) `{AgentSemver}.

Lemma requireCluster_missing s at_ r id :
  Atoi (rd_id r) = Some id ->
  inScope (sv_teamMapHash s) (rd_scope r) id (at_ 0%nat) = false \/ GetCluster id (at_ 1%nat) = None ->
  requireCluster s at_ r = inr (notFound "cluster not found").
Proof.
  intros Hid Hno. unfold requireCluster, pathClusterID. rewrite Hid. destruct (inScope _ _ _ _); [|done].
  destruct Hno as [|Hg]; [done|]. by rewrite Hg.
Qed.

(** What the listing is made of: the clusters of the table that the scope
    may see, in the order they are listed. *)
Definition listed (s : Server) (at_ : nat -> SQLite) (sc : readScope) : list Cluster :=
  List.filter (fun c => inScope (sv_teamMapHash s) sc (c_ID c) (at_ 1%nat)) (ListClusters (at_ 0%nat)).

Lemma clusterStateOf_cluster heads db lv c : ct_Cluster (clusterStateOf heads db lv c).1 = c.
Proof. unfold clusterStateOf. destruct (heads !! c_ID c) as [h|]; [|done]. by destruct (versionOf h db lv). Qed.

Lemma clusterStates_listed s at_ lv sc : map ct_Cluster (clusterStates s at_ lv sc).1 = listed s at_ sc.
Proof.
  unfold clusterStates, listed, inScope. cbv zeta. set (ids := scopeClusters _ _ _). set (heads := LatestSnapshotHeads _).
  assert (forall cs out lv', map ct_Cluster (foldl (fun '(out, lv) c =>
      if match ids with Some ids => bool_decide (c_ID c ∈ ids) | None => true end
      then let '(st, lv) := clusterStateOf heads (at_ 3%nat) lv c in (out ++ [st], lv) else (out, lv)) (out, lv') cs).1 =
    map ct_Cluster out ++ List.filter (fun c => match ids with Some ids => bool_decide (c_ID c ∈ ids) | None => true end) cs) as Hf.
  { induction cs as [|c cs IH]; intros out lv'; cbn [foldl List.filter]; [by rewrite app_nil_r|].
    destruct (match ids with Some ids => bool_decide (c_ID c ∈ ids) | None => true end).
    - pose proof (clusterStateOf_cluster heads (at_ 3%nat) lv' c) as Hc. destruct (clusterStateOf _ _ _ _) as [st lv2].
      rewrite IH, map_app, <- app_assoc. cbn in *. by rewrite Hc.
    - apply IH. }
  rewrite Hf. f_equal.
Qed.

(** A cluster outside a reader's scope does not exist for it: every read
    of it gives the answer of an id no cluster has, whatever the store
    holds of it, and no listing names it. *)
Lemma scoped_read_hidden (s : Server) (staleAfter : Z) (at_ : nat -> SQLite) (cells : string -> SQLite) (lv : legacyVersions)
    (r : readRequest) (now : Time) (id : Z) :
  Atoi (rd_id r) = Some id ->
  inScope (sv_teamMapHash s) (rd_scope r) id (at_ 0%nat) = false \/ GetCluster id (at_ 1%nat) = None ->
  let missing := mkHTTPError 404 "cluster not found" in
  handleGetCluster encodedSize s staleAfter at_ cells r now = inr missing /\
  handleReport s at_ lv r now = inr missing /\
  handleFindings s at_ lv r now = inr missing /\
  handleTeams s at_ lv r now = inr missing /\
  handleHistory s at_ lv r = inr missing /\
  (forall seen all, inScope (sv_teamMapHash s) (rd_scope r) id (seen 1%nat) = false ->
     Forall (fun c => c_ID (cy_Cluster c) <> id) (handleListClusters encodedSize s staleAfter seen all lv (rd_scope r) now)).
Proof.
  intros Hid Hno missing. pose proof (requireCluster_missing s at_ r id Hid Hno) as Hr.
  unfold handleGetCluster, handleReport, handleFindings, handleTeams, handleHistory, reportForRequest. rewrite Hr.
  split_and!; [done..|]. intros seen all Hs. apply Forall_forall. intros y Hy. apply list_elem_of_fmap in Hy as (c & -> & Hc).
  cbn [cy_Cluster]. intros He. apply (list_elem_of_fmap_2 ct_Cluster) in Hc.
  change (ct_Cluster <$> ?l) with (map ct_Cluster l) in Hc. rewrite clusterStates_listed in Hc.
  apply list_elem_of_In, filter_In in Hc as [_ Hc]. rewrite He in Hc. congruence.
Qed.
End Reads.

(** ** Witnesses *)

#[local] Existing Instance dottedSemver.

(** Two clusters, one of which never sent a snapshot that can be read. *)
Definition fleetDB : SQLite :=
  pushed (mkBatch (Some (mkCluster 0 "edge" "uid-2" zeroTime day)) 0 ""
            (Some (mkSnapshot 0 0 "h9" "kb-1" "v1" day "v1.29.4" (Some cleanInventory))) 0 ∅ [] [] [] None) day exampleDB.

Definition fleetServer : Server :=
  mkServer emptyKB [] "" [] [] 100000 (fun _ _ _ _ _ => Ok sharedReport) (fun _ => 10) sn_Inventory.

Definition billingRead (id : string) : readRequest := mkReadRequest billingScope id "1.30" "" "" "".

(** The team does not own a namespace of cluster 1, and reads it as it reads
    the cluster 7 that nobody has. *)
Lemma scoped_read_hidden_witness :
  handleReport fleetServer (fun _ => fleetDB) ∅ (billingRead "1") (9 * day) = inr (mkHTTPError 404 "cluster not found") /\
  handleReport fleetServer (fun _ => fleetDB) ∅ (billingRead "7") (9 * day) = inr (mkHTTPError 404 "cluster not found").
Proof.
  split.
  - apply (scoped_read_hidden (fun _ => 10) fleetServer 0 (fun _ => fleetDB) (fun _ => fleetDB) ∅ (billingRead "1") (9 * day) 1);
      [reflexivity|left; vm_compute; reflexivity].
  - apply (scoped_read_hidden (fun _ => 10) fleetServer 0 (fun _ => fleetDB) (fun _ => fleetDB) ∅ (billingRead "7") (9 * day) 7);
      [reflexivity|right; vm_compute; reflexivity].
Defined.
