(* ===== verification/Rollup.v ===== *)
(** * The rollup over teams

    [handleFleetTeams] of src/internal/server/fleet.go and the cache of
    fleet_teams_cache.go: what each cluster contributes to the teams of the
    fleet, where it comes from, and how long it is kept.

    [dbs id n] is the database the [n]th call about cluster [id] sees,
    [slots id] how the wait for the read slot went, and [intime id] whether
    the deadline had passed when the cluster's turn came. *)

From stdpp Require Import base list strings gmap countable sorting.
From Stdlib Require Import ZArith Lia Ascii Sorting.Permutation.
From S2P Require Import Prelude GoStr GoTime Version Inventory KB Findings Admit Heads Db Store Passes Background Views Scope Auth Gate Reads.

(** ** The cache *)

Definition maxFleetTeamsEntries : Z := 4096.
Definition maxFleetTeamsTeams : Z := 65536.

Record fleetTeamsKey := mkTeamsKey {
  tk_evaluationID : Z;
  tk_evaluatedAt : Time;
  tk_snapshotID : Z;
  tk_target : Version;
  tk_day : Time;
  tk_kbVersion : string;
  tk_teamMapHash : string;
}.

#[global] Instance fleetTeamsKey_eq_dec : EqDecision fleetTeamsKey.
Proof. solve_decision. Defined.

#[global] Instance fleetTeamsKey_countable : Countable fleetTeamsKey.
Proof.
  refine (inj_countable'
    (fun k => (tk_evaluationID k, tk_evaluatedAt k, tk_snapshotID k, (Major (tk_target k), Minor (tk_target k)), tk_day k,
               tk_kbVersion k, tk_teamMapHash k))
    (fun '(a, b, c, (d, e), f, g, h) => mkTeamsKey a b c (mkVersion d e) f g h) _).
  by intros [? ? ? [? ?] ? ? ?].
Defined.

Record fleetTeamsSource := mkTeamsSource { fs_Source : string; fs_EvaluatedAt : Time; fs_SnapshotID : Z }.

Record fleetTeamsEntry := mkTeamsEntry {
  te_scores : gmap string TeamScore;
  te_src : fleetTeamsSource;
  te_excluded : string;
}.

Definition noSource : fleetTeamsSource := mkTeamsSource "" zeroTime 0.

Record fleetTeamsCache := mkTeamsCache {
  tc_m : gmap fleetTeamsKey fleetTeamsEntry;
  tc_order : list fleetTeamsKey;
  tc_teams : Z;
}.

Definition emptyCache : fleetTeamsCache := mkTeamsCache ∅ [] 0.

Definition scoresLen (e : fleetTeamsEntry) : Z := Z.of_nat (size (te_scores e)).

Definition getEntry (c : fleetTeamsCache) (k : fleetTeamsKey) : option fleetTeamsEntry := tc_m c !! k.

Definition overfull (c : fleetTeamsCache) : bool :=
  (maxFleetTeamsEntries <? Z.of_nat (size (tc_m c))) || (maxFleetTeamsTeams <? tc_teams c).

(** The eviction loop, which panics on an empty [order]; each turn takes a
    key off it, so its length is fuel enough. *)
Fixpoint evict (fuel : nat) (c : fleetTeamsCache) : option fleetTeamsCache :=
  if overfull c then
    match fuel, tc_order c with
    | S fuel', oldest :: order =>
        evict fuel' (mkTeamsCache (delete oldest (tc_m c)) order
                       (tc_teams c - match tc_m c !! oldest with Some e => scoresLen e | None => 0 end))
    | _, _ => None
    end
  else Some c.

(** [put]; [None] is a panic. *)
Definition putEntry (k : fleetTeamsKey) (e : fleetTeamsEntry) (c : fleetTeamsCache) : option fleetTeamsCache :=
  if maxFleetTeamsTeams <? scoresLen e then Some c
  else
    let c := match tc_m c !! k with
             | Some old => mkTeamsCache (<[k := e]> (tc_m c)) (tc_order c) (tc_teams c - scoresLen old + scoresLen e)
             | None => mkTeamsCache (<[k := e]> (tc_m c)) (tc_order c ++ [k]) (tc_teams c + scoresLen e)
             end in
    evict (length (tc_order c)) c.

(** ** What a cluster contributes *)

Definition excludedNoSnapshot : string := "no-snapshot".
Definition excludedTooLarge : string := "too-large".
Definition excludedUnreadable : string := "unreadable".

Definition errFleetTeamsBudget : string := "the fleet teams rollup ran past its time bound".
Definition errReadSlotBusy : string := "too many concurrent reads".

(** How a wait for the read slot ends. *)
Inductive slotWait := SlotTaken | SlotBusy | SlotLate.

(** What ends a contribution early. *)
Inductive teamsError := TeamsBusy (err : string) | TeamsNotFound | TeamsFailed | TeamsPanic.

Definition storedKey (sum : Evaluation) : fleetTeamsKey :=
  mkTeamsKey (e_ID sum) (e_EvaluatedAt sum) 0 (mkVersion 0 0) zeroTime "" "".

Definition whatIfKey (s : Server) (snapshotID : Z) (target : Version) (now : Time) : fleetTeamsKey :=
  mkTeamsKey 0 zeroTime snapshotID target (utcDay now) (k_Version (sv_KB s)) (sv_teamMapHash s).

Section Rollup.
Context `{AgentSemver}.

(** The stored report, if it is still the evaluation the summary was of and
    decodes. *)
Definition storedEntry (db : SQLite) (clusterID : Z) (target : Version) (sum : Evaluation) : option fleetTeamsEntry :=
  match CurrentEvaluation clusterID (VString target) db with
  | Some e =>
      if e_ID e =? e_ID sum then
        (fun rep => mkTeamsEntry (TeamScores (sr_Report rep)) (mkTeamsSource sourceStored (e_EvaluatedAt e) (e_SnapshotID e)) "")
          <$> e_Report e
      else None
  | None => None
  end.

(** The what-if, and the snapshot it judged when that one is to be named in
    the key. *)
Definition whatIfEntry (s : Server) (db : SQLite) (clusterID : Z) (target : Version) (now : Time)
    : (fleetTeamsEntry * option Z) + teamsError :=
  match LatestSnapshot clusterID db with
  | None => inr TeamsNotFound
  | Some snap =>
      match decodeInventory (sv_KB s) snap with
      | None => inl (mkTeamsEntry ∅ noSource excludedUnreadable, None)
      | Some inv =>
          match evaluateWhatIf s inv target now with
          | inl rep => inl (mkTeamsEntry (TeamScores rep) (mkTeamsSource sourceWhatIf now (sn_ID snap)) "", Some (sn_ID snap))
          | inr (reportTooLarge _ _) => inl (mkTeamsEntry ∅ noSource excludedTooLarge, Some (sn_ID snap))
          | inr (evaluationFailed _) => inr TeamsFailed
          end
      end
  end.

(** What runs in the read slot: the entry, and the key to keep it under. *)
Definition computeEntry (s : Server) (dbs : nat -> SQLite) (cache : fleetTeamsCache) (c : clusterState) (target : Version) (now : Time)
    (sum : option Evaluation) (key : fleetTeamsKey) : (fleetTeamsEntry * fleetTeamsKey) + teamsError :=
  let id := c_ID (ct_Cluster c) in
  let whatIf key :=
    match whatIfEntry s (dbs 2%nat) id target now with
    | inr e => inr e
    | inl (entry, None) => inl (entry, key)
    | inl (entry, Some snapID) =>
        inl (entry, mkTeamsKey (tk_evaluationID key) (tk_evaluatedAt key) snapID (tk_target key) (tk_day key) (tk_kbVersion key)
                      (tk_teamMapHash key))
    end in
  match sum with
  | None => whatIf key
  | Some sum =>
      match storedEntry (dbs 1%nat) id target sum with
      | Some entry => inl (entry, key)
      | None =>
          let key := whatIfKey s (default 0 (sn_ID <$> ct_snap c)) target now in
          match getEntry cache key with Some e => inl (e, key) | None => whatIf key end
      end
  end.

(** [fleetTeamsContribution]. *)
Definition fleetTeamsContribution (s : Server) (dbs : nat -> SQLite) (slot : slotWait) (c : clusterState) (target : Version)
    (now : Time) (cache : fleetTeamsCache) : (fleetTeamsEntry + teamsError) * fleetTeamsCache :=
  let sum := CurrentEvaluationSummary (c_ID (ct_Cluster c)) (VString target) (dbs 0%nat) in
  let key := match sum with Some sum => storedKey sum | None => whatIfKey s (default 0 (sn_ID <$> ct_snap c)) target now end in
  match getEntry cache key with
  | Some e => (inl e, cache)
  | None =>
      match slot with
      | SlotBusy => (inr (TeamsBusy errReadSlotBusy), cache)
      | SlotLate => (inr (TeamsBusy errFleetTeamsBudget), cache)
      | SlotTaken =>
          match computeEntry s dbs cache c target now sum key with
          | inr e => (inr e, cache)
          | inl (entry, key) =>
              match putEntry key entry cache with
              | Some cache' => (inl entry, cache')
              | None => (inr TeamsPanic, cache)
              end
          end
      end
  end.

(** ** The rollup *)

Record fleetTeam := mkFleetTeam { ft_WorstScore : Z; ft_Blockers : Z; ft_Verdict : string; ft_Clusters : list string }.

(** A cluster's teams merged into the rollup. *)
Definition addTeams (name : string) (scores : gmap string TeamScore) (teams : gmap string fleetTeam) : gmap string fleetTeam :=
  map_fold (fun team ts acc =>
              let agg := match acc !! team with
                         | None => mkFleetTeam (ts_Score ts) 0 (ts_Verdict ts) []
                         | Some agg => mkFleetTeam (Z.min (ft_WorstScore agg) (ts_Score ts)) (ft_Blockers agg)
                                         (worseVerdict (ft_Verdict agg) (ts_Verdict ts)) (ft_Clusters agg)
                         end in
              <[team := mkFleetTeam (ft_WorstScore agg) (ft_Blockers agg + ts_Blockers ts) (ft_Verdict agg)
                          (ft_Clusters agg ++ [name])]> acc) teams scores.

Record fleetTeamsAnswer := mkFleetTeamsAnswer {
  fa_teams : gmap string fleetTeam;
  fa_evaluated : list (string * fleetTeamsSource);
  fa_missing : list (string * string);
  fa_notApplicable : list string;
}.

Definition emptyAnswer : fleetTeamsAnswer := mkFleetTeamsAnswer ∅ [] [] [].

Definition exclude (name reason : string) (a : fleetTeamsAnswer) : fleetTeamsAnswer :=
  mkFleetTeamsAnswer (fa_teams a) (fa_evaluated a) (fa_missing a ++ [(name, reason)]) (fa_notApplicable a).

(** An entry taken into the answer. *)
Definition addEntry (sc : readScope) (name : string) (entry : fleetTeamsEntry) (a : fleetTeamsAnswer) : fleetTeamsAnswer :=
  if negb (te_excluded entry =s "") then exclude name (te_excluded entry) a
  else mkFleetTeamsAnswer (addTeams name (renderTeamScores (scopeTeamScores sc (te_scores entry))) (fa_teams a))
         (fa_evaluated a ++ [(name, te_src entry)]) (fa_missing a) (fa_notApplicable a).

Definition rollupBusy (err : string) (target : Version) : httpError :=
  mkHTTPError 503 (err +:+ " before every cluster was evaluated at " +:+ VString target +:+
                   "; what was computed is kept, so a retry goes on from there").

(** One turn of the loop of [handleFleetTeams]. *)
Definition addCluster (s : Server) (sc : readScope) (dbs : Z -> nat -> SQLite) (slots : Z -> slotWait) (intime : Z -> bool)
    (target : Version) (now : Time) (acc : (fleetTeamsAnswer + httpError) * fleetTeamsCache) (c : clusterState)
    : (fleetTeamsAnswer + httpError) * fleetTeamsCache :=
  match acc with
  | (inr e, cache) => (inr e, cache)
  | (inl a, cache) =>
      let id := c_ID (ct_Cluster c) in
      let name := Store.c_Name (ct_Cluster c) in
      if negb (hasSnapshot c) then (inl (exclude name excludedNoSnapshot a), cache)
      else if notApplicable (ct_version c) target then
        (inl (mkFleetTeamsAnswer (fa_teams a) (fa_evaluated a) (fa_missing a) (fa_notApplicable a ++ [name])), cache)
      else if negb (intime id) then (inr (rollupBusy errFleetTeamsBudget target), cache)
      else match fleetTeamsContribution s (dbs id) (slots id) c target now cache with
      | (inl entry, cache) => (inl (addEntry sc name entry a), cache)
      | (inr (TeamsBusy err), cache) => (inr (rollupBusy err target), cache)
      | (inr TeamsNotFound, cache) => (inl (exclude name excludedUnreadable a), cache)
      | (inr TeamsFailed, cache) | (inr TeamsPanic, cache) => (inr internalError, cache)
      end
  end.

Definition sortClusters (t : fleetTeam) : fleetTeam :=
  mkFleetTeam (ft_WorstScore t) (ft_Blockers t) (ft_Verdict t) (sort_strings (ft_Clusters t)).

(** [handleFleetTeams]. *)
Definition handleFleetTeams (s : Server) (at_ : nat -> SQLite) (dbs : Z -> nat -> SQLite) (slots : Z -> slotWait) (intime : Z -> bool)
    (lv : legacyVersions) (sc : readScope) (targetQ : string) (now : Time) (cache : fleetTeamsCache)
    : ((Version * fleetTeamsAnswer) + httpError) * fleetTeamsCache :=
  if targetQ =s "" then (inr (mkHTTPError 422 "target query parameter is required"), cache)
  else match ParseTarget targetQ with
  | Err e => (inr (mkHTTPError 422 ("invalid target: " +:+ e)), cache)
  | Ok target =>
      match foldl (addCluster s sc dbs slots intime target now) (inl emptyAnswer, cache) (clusterStates s at_ lv sc).1 with
      | (inr e, cache) => (inr e, cache)
      | (inl a, cache) =>
          (inl (target, mkFleetTeamsAnswer (sortClusters <$> fa_teams a) (fa_evaluated a) (fa_missing a) (fa_notApplicable a)), cache)
      end
  end.
End Rollup.

(** * What the rollup over teams promises

    The cache stays within its bounds and never runs out of keys to evict;
    what it answers is what was last kept under the key. Every cluster in
    scope is named once in the answer, and a team is shown at its worst. *)

From S2P Require Import StoreInv Evaluate PassSpec Scope Reads.

(** ** The cache *)

(** The scores all entries hold. *)
Definition scoresOf (m : gmap fleetTeamsKey fleetTeamsEntry) : Z := map_fold (fun _ e n => scoresLen e + n) 0 m.

Lemma scoresLen_nonneg e : 0 <= scoresLen e.
Proof. unfold scoresLen. lia. Qed.

Lemma scoresOf_insert m k e : m !! k = None -> scoresOf (<[k := e]> m) = scoresLen e + scoresOf m.
Proof. intros Hk. unfold scoresOf. rewrite map_fold_insert_L; [done|intros; lia|done]. Qed.

Lemma scoresOf_delete m k e : m !! k = Some e -> scoresOf (delete k m) = scoresOf m - scoresLen e.
Proof.
  intros Hk. rewrite <- (insert_delete_id m k e Hk) at 2. rewrite scoresOf_insert by apply lookup_delete_eq. lia.
Qed.

Lemma scoresOf_replace m k e old : m !! k = Some old -> scoresOf (<[k := e]> m) = scoresOf m - scoresLen old + scoresLen e.
Proof.
  intros Hk. rewrite <- insert_delete_eq, scoresOf_insert by apply lookup_delete_eq. rewrite (scoresOf_delete _ _ _ Hk). lia.
Qed.

(** The keys in the order they came are those of the map, and the count of
    scores is theirs. *)
Record cacheOk (c : fleetTeamsCache) : Prop := {
  co_nodup : NoDup (tc_order c);
  co_keys : forall k, k ∈ tc_order c <-> is_Some (tc_m c !! k);
  co_teams : tc_teams c = scoresOf (tc_m c);
}.

(** An entry of [c'] is one of [c]. *)
Definition subCache (c' c : fleetTeamsCache) : Prop := tc_m c' ⊆ tc_m c.

Lemma evict_ok fuel c :
  cacheOk c -> (length (tc_order c) <= fuel)%nat ->
  exists c', evict fuel c = Some c' /\ cacheOk c' /\ overfull c' = false /\ subCache c' c.
Proof.
  revert c. induction fuel as [|fuel IH]; intros c Hok Hf; cbn [evict]; destruct (overfull c) eqn:Eo.
  2, 4: exists c; split_and!; [done..|unfold subCache; done].
  all: destruct Hok as [Hn Hk Ht]; destruct (tc_order c) as [|oldest order] eqn:Eorder.
  1, 3: exfalso; assert (tc_m c = ∅) as Hm
    by (apply map_eq; intros k; rewrite lookup_empty; apply eq_None_not_Some; rewrite <- Hk; apply not_elem_of_nil);
    unfold overfull in Eo; rewrite Ht, Hm in Eo; vm_compute in Eo; discriminate Eo.
  - cbn in Hf. lia.
  - apply NoDup_cons in Hn as [Hnin Hn]. destruct (proj1 (Hk oldest)) as [e He]; [left|]. rewrite He.
    edestruct (IH (mkTeamsCache (delete oldest (tc_m c)) order (tc_teams c - scoresLen e))) as (c' & Hev & Hok' & Ho & Hs).
    + split; cbn [tc_m tc_order tc_teams]; [done| |by rewrite (scoresOf_delete _ _ _ He), Ht].
      intros k. destruct (decide (k = oldest)) as [->|Hne].
      * rewrite lookup_delete_eq. split; [done|by intros [? ?]].
      * rewrite lookup_delete_ne, <- Hk by done. rewrite elem_of_cons. naive_solver.
    + cbn in *. lia.
    + exists c'. split_and!; [done..|]. unfold subCache in *. cbn in Hs. etrans; [exact Hs|]. apply delete_subseteq.
Qed.

Definition fitsCache (e : fleetTeamsEntry) : bool := negb (maxFleetTeamsTeams <? scoresLen e).

Lemma putEntry_ok k e c :
  cacheOk c -> overfull c = false ->
  exists c', putEntry k e c = Some c' /\ cacheOk c' /\ overfull c' = false /\
    forall k' e', getEntry c' k' = Some e' ->
      if fitsCache e then (k' = k /\ e' = e) \/ (k' <> k /\ getEntry c k' = Some e') else getEntry c k' = Some e'.
Proof.
  intros Hok Hov. unfold putEntry, fitsCache. destruct (maxFleetTeamsTeams <? scoresLen e); cbn [negb]; [by exists c|].
  assert (exists c1, match tc_m c !! k with
      | Some old => mkTeamsCache (<[k := e]> (tc_m c)) (tc_order c) (tc_teams c - scoresLen old + scoresLen e)
      | None => mkTeamsCache (<[k := e]> (tc_m c)) (tc_order c ++ [k]) (tc_teams c + scoresLen e) end = c1 /\
      tc_m c1 = <[k := e]> (tc_m c) /\ cacheOk c1) as (c1 & -> & Hm & Hok1).
  { destruct Hok as [Hn Hk Ht]. eexists. split; [reflexivity|]. destruct (tc_m c !! k) as [old|] eqn:E; (split; [done|split]); cbn.
    - done.
    - intros k'. rewrite Hk. destruct (decide (k' = k)) as [->|Hne]; [|by rewrite lookup_insert_ne].
      rewrite lookup_insert_eq, E. naive_solver.
    - by rewrite (scoresOf_replace _ _ _ _ E), Ht.
    - apply NoDup_app. split_and!; [done| |apply NoDup_singleton]. intros k' Hk'%Hk ->%list_elem_of_singleton.
      rewrite E in Hk'. by destruct Hk'.
    - intros k'. rewrite elem_of_app, list_elem_of_singleton, Hk. destruct (decide (k' = k)) as [->|Hne].
      + rewrite lookup_insert_eq, E. naive_solver.
      + rewrite lookup_insert_ne by done. naive_solver.
    - rewrite scoresOf_insert, Ht by done. lia. }
  destruct (evict_ok (length (tc_order c1)) c1 Hok1 ltac:(lia)) as (c' & Hev & Hok' & Ho & Hs). exists c'. split_and!; [done..|].
  intros k' e' Hg. unfold getEntry in *. apply (lookup_weaken _ _ _ _ Hg) in Hs. rewrite Hm in Hs.
  destruct (decide (k' = k)) as [->|Hne]; [left|right].
  - rewrite lookup_insert_eq in Hs. split; [done|congruence].
  - by rewrite lookup_insert_ne in Hs.
Qed.

Definition putAll (puts : list (fleetTeamsKey * fleetTeamsEntry)) : option fleetTeamsCache :=
  foldl (fun c '(k, e) => c ≫= putEntry k e) (Some emptyCache) puts.

(** The entry last put under [k] that can be kept at all. *)
Definition lastPut (puts : list (fleetTeamsKey * fleetTeamsEntry)) (k : fleetTeamsKey) : option fleetTeamsEntry :=
  foldl (fun last '(k', e) => if bool_decide (k' = k) && fitsCache e then Some e else last) None puts.

(** However contributions are kept, the cache never panics over its
    eviction order and never holds more entries or team scores than its
    bounds; and what it answers for a key is the last contribution kept
    under that key. *)
Lemma cache_bounded (puts : list (fleetTeamsKey * fleetTeamsEntry)) :
  exists c, putAll puts = Some c /\ cacheOk c /\
    Z.of_nat (size (tc_m c)) <= maxFleetTeamsEntries /\ scoresOf (tc_m c) <= maxFleetTeamsTeams /\
    forall k e, getEntry c k = Some e -> lastPut puts k = Some e.
Proof.
  assert (exists c, putAll puts = Some c /\ cacheOk c /\ overfull c = false /\
            forall k e, getEntry c k = Some e -> lastPut puts k = Some e) as (c & Hc & Hok & Hov & Hl).
  { unfold putAll, lastPut. induction puts as [|[k e] puts IH] using rev_ind.
    - exists emptyCache. split_and!; [done| |done|by intros k e ?]. split; cbn; [constructor| |done].
      intros k. rewrite lookup_empty. split; [by intros ?%not_elem_of_nil|by intros [? ?]].
    - rewrite !foldl_app. destruct IH as (c & -> & Hok & Hov & Hl). cbn [foldl mbind option_bind].
      destruct (putEntry_ok k e c Hok Hov) as (c' & Hp & Hok' & Hov' & Hg). exists c'. split_and!; [done..|].
      intros k' e' He'. rewrite foldl_app. cbn [foldl]. apply Hg in He'. destruct (fitsCache e).
      + destruct He' as [[-> ->]|[Hne He']]; [by rewrite bool_decide_true|]. rewrite bool_decide_false by done. by apply Hl.
      + rewrite andb_false_r. by apply Hl. }
  exists c. split_and!; [done..| | |done]; unfold overfull in Hov; apply orb_false_iff in Hov as [H1 H2]; to_prop; [lia|].
  rewrite <- (co_teams c Hok). lia.
Qed.

(** ** The rollup *)

(** A team's entry with one more cluster's score in it. *)
Definition mergeTeam (name : string) (agg : option fleetTeam) (ts : TeamScore) : fleetTeam :=
  match agg with
  | None => mkFleetTeam (ts_Score ts) (ts_Blockers ts) (ts_Verdict ts) [name]
  | Some a => mkFleetTeam (Z.min (ft_WorstScore a) (ts_Score ts)) (ft_Blockers a + ts_Blockers ts)
                (worseVerdict (ft_Verdict a) (ts_Verdict ts)) (ft_Clusters a ++ [name])
  end.

Lemma addTeams_lookup name scores teams team :
  addTeams name scores teams !! team =
  match scores !! team with None => teams !! team | Some ts => Some (mergeTeam name (teams !! team) ts) end.
Proof.
  revert team. unfold addTeams. apply (map_fold_weak_ind (fun acc (m : gmap string TeamScore) => forall team, acc !! team =
    match m !! team with None => teams !! team | Some ts => Some (mergeTeam name (teams !! team) ts) end)).
  - intros team. by rewrite lookup_empty.
  - intros k ts m acc Hk IH team. destruct (decide (k = team)) as [->|Hne].
    + rewrite !lookup_insert_eq, IH, Hk. f_equal. by destruct (teams !! team).
    + rewrite !lookup_insert_ne by done. apply IH.
Qed.

(** [name]'s score [ts] is accounted for in a team's entry. *)
Definition counted (name : string) (ts : TeamScore) (agg : fleetTeam) : Prop :=
  ft_WorstScore agg <= ts_Score ts /\ verdictRank (ts_Verdict ts) <= verdictRank (ft_Verdict agg) /\ name ∈ ft_Clusters agg.

Lemma worseVerdict_rank a b : verdictRank a <= verdictRank (worseVerdict a b) /\ verdictRank b <= verdictRank (worseVerdict a b).
Proof. unfold worseVerdict. destruct (verdictRank a <? verdictRank b) eqn:E; to_prop; lia. Qed.

Lemma mergeTeam_counts name agg ts : counted name ts (mergeTeam name agg ts).
Proof.
  unfold counted, mergeTeam. destruct agg as [a|]; cbn; [|split_and!; [lia|lia|set_solver]].
  destruct (worseVerdict_rank (ft_Verdict a) (ts_Verdict ts)). split_and!; [lia|lia|set_solver].
Qed.

Lemma mergeTeam_keeps name name' agg ts ts' : counted name ts agg -> counted name ts (mergeTeam name' (Some agg) ts').
Proof.
  unfold counted, mergeTeam. intros (Hs & Hv & Hn). cbn.
  destruct (worseVerdict_rank (ft_Verdict agg) (ts_Verdict ts')). split_and!; [lia|lia|set_solver].
Qed.

Section Rollup.
Context `{AgentSemver} (s : Server) (sc : readScope) (dbs : Z -> nat -> SQLite) (slots : Z -> slotWait).
Context (target : Version) (now : Time).

Definition nameOf (c : clusterState) : string := Store.c_Name (ct_Cluster c).

(** What a contribution says of a team, to this reader. *)
Definition teamIn (entry : fleetTeamsEntry) (team : string) : option TeamScore :=
  renderTeamScores (scopeTeamScores sc (te_scores entry)) !! team.

(** The blockers the contributions [log] give a team. *)
Definition blockersIn (log : list (clusterState * fleetTeamsEntry)) (team : string) : Z :=
  foldr (fun '(_, e) n => default 0 (ts_Blockers <$> teamIn e team) + n) 0 log.

Lemma blockersIn_snoc log c e team : blockersIn (log ++ [(c, e)]) team = blockersIn log team + default 0 (ts_Blockers <$> teamIn e team).
Proof. unfold blockersIn. induction log as [|[c' e'] log IH]; cbn; lia. Qed.

(** The rollup of [cs], with the contributions [log] that were taken into
    it. *)
Record rolledUp (cs : list clusterState) (log : list (clusterState * fleetTeamsEntry)) (a : fleetTeamsAnswer) : Prop := {
  ru_once : map fst (fa_evaluated a) ++ map fst (fa_missing a) ++ fa_notApplicable a ≡ₚ map nameOf cs;
  ru_log : fa_evaluated a = map (fun '(c, e) => (nameOf c, te_src e)) log;
  ru_from : forall c e, (c, e) ∈ log -> c ∈ cs /\ notApplicable (ct_version c) target = false /\
    exists cache cache', fleetTeamsContribution s (dbs (c_ID (ct_Cluster c))) (slots (c_ID (ct_Cluster c))) c target now cache = (inl e, cache');
  ru_counted : forall c e team ts, (c, e) ∈ log -> teamIn e team = Some ts ->
    exists agg, fa_teams a !! team = Some agg /\ counted (nameOf c) ts agg;
  ru_teams : forall team agg, fa_teams a !! team = Some agg ->
    ft_Blockers agg = blockersIn log team /\
    forall n, n ∈ ft_Clusters agg -> exists c e, (c, e) ∈ log /\ nameOf c = n /\ is_Some (teamIn e team);
  ru_none : forall team, fa_teams a !! team = None -> blockersIn log team = 0;
}.

(** A cluster that contributes nothing goes to one of the other lists. *)
Lemma rolledUp_left cs log a c miss na :
  rolledUp cs log a -> map fst miss ++ na ≡ₚ nameOf c :: map fst (fa_missing a) ++ fa_notApplicable a ->
  rolledUp (cs ++ [c]) log (mkFleetTeamsAnswer (fa_teams a) (fa_evaluated a) miss na).
Proof.
  intros [Ho Hl Hf Hc Ht Hn] Hp. split; cbn [fa_teams fa_evaluated fa_missing fa_notApplicable]; [|done| |done..].
  - rewrite Hp, map_app, <- Ho. cbn [map]. solve_Permutation.
  - intros c' e Hin. destruct (Hf c' e Hin) as (Hc' & ?). split; [set_solver|done].
Qed.

Lemma rolledUp_taken cs log a c e cache cache' :
  rolledUp cs log a -> notApplicable (ct_version c) target = false ->
  fleetTeamsContribution s (dbs (c_ID (ct_Cluster c))) (slots (c_ID (ct_Cluster c))) c target now cache = (inl e, cache') ->
  rolledUp (cs ++ [c]) (log ++ [(c, e)])
    (mkFleetTeamsAnswer (addTeams (nameOf c) (renderTeamScores (scopeTeamScores sc (te_scores e))) (fa_teams a))
       (fa_evaluated a ++ [(nameOf c, te_src e)]) (fa_missing a) (fa_notApplicable a)).
Proof.
  intros [Ho Hl Hf Hc Ht Hn] Hna Hcon. split; cbn [fa_teams fa_evaluated fa_missing fa_notApplicable].
  - rewrite !map_app, <- Ho. cbn [map fst]. solve_Permutation.
  - by rewrite Hl, map_app.
  - intros c' e' [Hin|[= -> ->]%list_elem_of_singleton]%elem_of_app.
    + destruct (Hf c' e' Hin) as (Hc' & ?). split; [set_solver|done].
    + split_and!; [set_solver|done|by eauto].
  - intros c' e' team ts Hin Hts. rewrite addTeams_lookup. fold (teamIn e team).
    apply elem_of_app in Hin as [Hin|[= -> ->]%list_elem_of_singleton].
    + destruct (Hc _ _ _ _ Hin Hts) as (agg & Hagg & Hcnt). rewrite Hagg.
      destruct (teamIn e team) as [ts'|]; [|by eauto]. exists (mergeTeam (nameOf c) (Some agg) ts').
      split; [reflexivity|]. by apply mergeTeam_keeps.
    + rewrite Hts. eexists. split; [reflexivity|]. apply mergeTeam_counts.
  - intros team agg. rewrite addTeams_lookup, blockersIn_snoc. fold (teamIn e team). specialize (Ht team). specialize (Hn team).
    destruct (teamIn e team) as [ts|] eqn:Ets; cbn.
    + intros Ha. apply (inj Some) in Ha as <-. destruct (fa_teams a !! team) as [old|]; cbn [mergeTeam ft_Blockers ft_Clusters].
      * destruct (Ht old eq_refl) as [-> Hcl]. split; [done|]. intros n [Hin|Hin]%elem_of_app; [destruct (Hcl n Hin) as (c' & e' & ? & ? & ?)|].
        -- exists c', e'. split_and!; [set_solver|done|done].
        -- apply list_elem_of_singleton in Hin as ->. exists c, e. split_and!; [set_solver|done|by rewrite Ets].
      * rewrite (Hn eq_refl). split; [lia|]. intros n ->%list_elem_of_singleton. exists c, e. split_and!; [set_solver|done|by rewrite Ets].
    + intros Ha. destruct (Ht agg Ha) as [-> Hcl]. split; [lia|]. intros n Hin. destruct (Hcl n Hin) as (c' & e' & ? & ? & ?).
      exists c', e'. split_and!; [set_solver|done|done].
  - intros team. rewrite addTeams_lookup, blockersIn_snoc. fold (teamIn e team).
    destruct (teamIn e team); [done|]. cbn. intros Ha. rewrite (Hn team Ha). lia.
Qed.

Context (intime : Z -> bool).

Lemma addCluster_rolledUp cs log a cache c a' cache' :
  rolledUp cs log a -> addCluster s sc dbs slots intime target now (inl a, cache) c = (inl a', cache') ->
  exists log', rolledUp (cs ++ [c]) log' a'.
Proof.
  intros Hru. unfold addCluster, exclude. cbv zeta. fold (nameOf c).
  assert (Hmiss : forall reason, rolledUp (cs ++ [c]) log (exclude (nameOf c) reason a)).
  { intros reason. unfold exclude. apply rolledUp_left; [done|]. rewrite map_app. cbn. solve_Permutation. }
  destruct (hasSnapshot c); cbn [negb]; [|intros [= <- _]; by eauto].
  destruct (notApplicable _ _) eqn:En.
  { intros [= <- _]. exists log. apply rolledUp_left; [done|]. solve_Permutation. }
  destruct (intime _); cbn [negb]; [|done].
  destruct (fleetTeamsContribution _ _ _ _ _ _ _) as [[e|[err| | |]] cache2] eqn:Ec; [|done| |done|done].
  - intros [= <- _]. unfold addEntry. destruct (te_excluded e =s ""); cbn [negb]; [|by eauto].
    exists (log ++ [(c, e)]). by eapply rolledUp_taken.
  - intros [= <- _]. by eauto.
Qed.

Lemma addCluster_error e cache cs :
  foldl (addCluster s sc dbs slots intime target now) (inr e, cache) cs = (inr e, cache).
Proof. induction cs; [done|]. cbn [foldl]. apply IHcs. Qed.

Lemma addClusters_rolledUp cs cache a cache' :
  foldl (addCluster s sc dbs slots intime target now) (inl emptyAnswer, cache) cs = (inl a, cache') -> exists log, rolledUp cs log a.
Proof.
  revert a cache'. induction cs as [|c cs IH] using rev_ind; intros a cache'.
  - cbn [foldl]. intros [= <- _]. exists []. split; cbn; try done.
    + by intros c e ?%not_elem_of_nil.
    + by intros c e team ts ?%not_elem_of_nil.
  - rewrite foldl_app. cbn [foldl]. destruct (foldl _ _ cs) as [[b|e] cache2] eqn:Eb; [|done]. intros Ha.
    destruct (IH b cache2 eq_refl) as [log Hlog]. by eapply addCluster_rolledUp.
Qed.
End Rollup.

(** The rollup of teams over the fleet leaves nothing out and flatters
    no team: every cluster in scope is named once, as evaluated, as missing
    with a reason, or as already past the target; the evaluated ones are
    those whose contribution was taken, none of them past the target; a
    team's worst score and verdict are at least as bad as in each
    contribution, its blockers are their sum, and the clusters it names are
    exactly those whose contribution names it. *)
Lemma fleetTeams_accounts `{AgentSemver} (s : Server) (at_ : nat -> SQLite) (dbs : Z -> nat -> SQLite) (slots : Z -> slotWait)
    (intime : Z -> bool) (lv : legacyVersions) (sc : readScope) (targetQ : string) (now : Time) (cache cache' : fleetTeamsCache)
    (target : Version) (a : fleetTeamsAnswer) :
  handleFleetTeams s at_ dbs slots intime lv sc targetQ now cache = (inl (target, a), cache') ->
  map fst (fa_evaluated a) ++ map fst (fa_missing a) ++ fa_notApplicable a ≡ₚ map Store.c_Name (listed s at_ sc) /\
  exists log, fa_evaluated a = map (fun '(c, e) => (nameOf c, te_src e)) log /\
    (forall c e, (c, e) ∈ log -> notApplicable (ct_version c) target = false /\ exists seen seen',
       fleetTeamsContribution s (dbs (c_ID (ct_Cluster c))) (slots (c_ID (ct_Cluster c))) c target now seen = (inl e, seen')) /\
    (forall c e team ts, (c, e) ∈ log -> teamIn sc e team = Some ts ->
       exists agg, fa_teams a !! team = Some agg /\ counted (nameOf c) ts agg) /\
    (forall team agg, fa_teams a !! team = Some agg -> ft_Blockers agg = blockersIn sc log team /\
       forall n, n ∈ ft_Clusters agg -> exists c e, (c, e) ∈ log /\ nameOf c = n /\ is_Some (teamIn sc e team)).
Proof.
  intros Hh. unfold handleFleetTeams in Hh. destruct (targetQ =s ""); [done|]. destruct (ParseTarget targetQ) as [t|]; [|done].
  destruct (foldl _ _ _) as [[b|e] cache2] eqn:Eb; [|done]. injection Hh as <- <- <-.
  apply addClusters_rolledUp in Eb as [log [Ho Hl Hf Hc Ht _]]. cbn [fa_teams fa_evaluated fa_missing fa_notApplicable].
  split; [rewrite Ho, <- (clusterStates_listed s at_ lv), map_map; done|]. exists log. split_and!; [done| | |].
  - intros c e Hin. by destruct (Hf c e Hin) as (_ & ? & ?).
  - intros c e team ts Hin Hts. destruct (Hc _ _ _ _ Hin Hts) as (agg & Hagg & Hw & Hv & Hn). exists (sortClusters agg).
    rewrite lookup_fmap, Hagg. split; [done|]. unfold counted, sortClusters. cbn. unfold sort_strings. by rewrite isort_perm.
  - intros team agg Hagg. rewrite lookup_fmap in Hagg. destruct (fa_teams b !! team) as [old|] eqn:Eo; [|done].
    cbn in Hagg. apply (inj Some) in Hagg as <-. destruct (Ht team old Eo) as [Hb Hcl]. split; [done|].
    intros n Hin. apply Hcl. unfold sortClusters, sort_strings in Hin. cbn in Hin. by rewrite isort_perm in Hin.
Qed.

(** ** Witness *)

#[local] Existing Instance dottedSemver.

(** What a request answers, without the cache it leaves. *)
Definition answered (x : ((Version * fleetTeamsAnswer) + httpError) * fleetTeamsCache) : option (Version * list string) :=
  match x with (inl (t, a), _) => Some (t, map fst (fa_evaluated a)) | (inr _, _) => None end.

Lemma fleetTeams_accounts_witness :
  exists a cache, handleFleetTeams fleetServer (fun _ => fleetDB) (fun _ _ => fleetDB) (fun _ => SlotTaken) (fun _ => true) ∅ fleetScope
      "1.30" (9 * day) emptyCache = (inl (mkVersion 1 30, a), cache) /\
    map fst (fa_evaluated a) ++ map fst (fa_missing a) ++ fa_notApplicable a ≡ₚ ["edge"; "prod"]%string /\
    map fst (fa_evaluated a) = ["edge"%string].
Proof.
  assert (answered (handleFleetTeams fleetServer (fun _ => fleetDB) (fun _ _ => fleetDB) (fun _ => SlotTaken) (fun _ => true) ∅ fleetScope
      "1.30" (9 * day) emptyCache) = Some (mkVersion 1 30, ["edge"%string])) as Ha by (vm_compute; reflexivity).
  destruct (handleFleetTeams fleetServer (fun _ => fleetDB) (fun _ _ => fleetDB) (fun _ => SlotTaken) (fun _ => true) ∅ fleetScope
      "1.30" (9 * day) emptyCache) as [[[t a]|] cache] eqn:E; [|discriminate Ha].
  injection Ha as -> He.
  destruct (fleetTeams_accounts fleetServer (fun _ => fleetDB) (fun _ _ => fleetDB) (fun _ => SlotTaken) (fun _ => true) ∅ fleetScope
      "1.30" (9 * day) emptyCache cache (mkVersion 1 30) a E) as [Hp _].
  exists a, cache. exact (conj eq_refl (conj Hp He)).
Defined.
