(* ===== verification/Status.v ===== *)
(** * The ClusterReadiness status

    src/internal/crd/types.go: what of the reports goes into the custom
    resource, and the two conditions that summarise it. Every text is cut to
    a budget of bytes as the apiserver stores it ([clip]), so that a write
    never outgrows a request. *)

From stdpp Require Import base list strings gmap.
From Stdlib Require Import ZArith Lia Ascii.
From S2P Require Import Prelude GoStr GoUtf8 GoTime Version Inventory KB Findings Suppress.

(** ** Budgets of encoded bytes *)

Definition MaxTargets : Z := 8.
Definition maxTopFindings : Z := 20.
Definition maxTitleLen : Z := 512.
Definition maxRemediationLen : Z := 1024.
Definition maxNoteLen : Z := 512.
Definition maxNotAssessed : Z := 32.
Definition maxAllTargetsMessage : Z := 1024.

Definition ellipsis : string := bytes [226; 128; 166]%N.

(** The runes other than controls that JSON escapes to six bytes: U+2028,
    U+2029 and U+FFFD, as they are written in UTF-8. *)
Definition escapedRunes : list string := [bytes [226; 128; 168]%N; bytes [226; 128; 169]%N; bytes [239; 191; 189]%N].

(** [jsonCost] of the rune whose bytes are [r]. *)
Definition jsonCost (r : string) : Z :=
  if mem_str r [String dquote ""; "\"%string] then 2
  else if match r with String a "" => byte_in 0 31 a || mem_str r ["<"; ">"; "&"]%string | _ => mem_str r escapedRunes end then 6
  else slen r.

(** The rune at the start of [s]: how many bytes it takes and what it costs
    encoded; a byte that is not UTF-8 ranges as U+FFFD. *)
Definition runeCost (s : string) : nat * Z :=
  match runeLen s with Some n => (n, jsonCost (takeBytes n s)) | None => (1%nat, 6) end.

(** Where the loop of [clip] cuts, if it does; the length of [s] is fuel
    enough. *)
Fixpoint clipAt (fuel : nat) (s : string) (pos : nat) (cost n : Z) : option nat :=
  match fuel, s with
  | S fuel', String _ _ =>
      let '(w, c) := runeCost s in
      if n <? cost + c then Some pos else clipAt fuel' (dropBytes w s) (pos + w) (cost + c) n
  | _, _ => None
  end.

Definition clip (s : string) (n : Z) : string :=
  if slen s * 6 <=? n then s
  else match clipAt (String.length s) s 0 0 n with Some pos => takeBytes pos s +:+ ellipsis | None => s end.

(** [boundNotAssessed]. *)
Definition boundNotAssessed (notes : list string) : list string :=
  map (fun n => clip n maxNoteLen) (take (Z.to_nat maxNotAssessed) notes) ++
  if maxNotAssessed <? zlen notes
  then [ellipsis +:+ " and " +:+ itoa (zlen notes - maxNotAssessed) +:+ " more not listed"] else [].

(** ** The status *)

Record Spec := mkSpec { spec_Targets : list string; spec_Ignore : list Rule }.

Record TopFinding := mkTopFinding { tf_Category : string; tf_Severity : string; tf_Title : string; tf_Remediation : string }.

Record TargetStatus := mkTargetStatus {
  tg_Target : string;
  tg_Score : Z;
  tg_Ready : bool;
  tg_Verdict : string;
  tg_Blockers : Z;
  tg_Warnings : Z;
  tg_Infos : Z;
  tg_Suppressed : Z;
  tg_ByCategory : gmap string Z;
  tg_TopFindings : list TopFinding;
}.

(** A [metav1.Condition]. *)
Record Condition := mkCondition {
  cn_Type : string;
  cn_Status : string;
  cn_Reason : string;
  cn_Message : string;
  cn_LastTransitionTime : Time;
  cn_ObservedGeneration : Z;
}.

Record Status := mkStatus {
  su_ObservedServerVersion : string;
  su_KBVersion : string;
  su_LastEvaluated : Time;
  su_Targets : list TargetStatus;
  su_NotAssessed : list string;
  su_AgentVersion : string;
  su_AddOnEvidenceAgeSeconds : Z;
  su_Support : option SupportStatus;
  su_ObservedGeneration : Z;
  su_Conditions : list Condition;
  su_ReadyGaps : list string;
}.

Definition topFinding (f : Finding) : TopFinding :=
  mkTopFinding (f_Category f) (f_Severity f) (clip (f_Title f) maxTitleLen) (clip (f_Remediation f) maxRemediationLen).

(** One turn of the loop of [TargetStatusFromReport]. *)
Definition addFinding (ts : TargetStatus) (f : Finding) : TargetStatus :=
  let one sev := if f_Severity f =s sev then 1 else 0 in
  mkTargetStatus (tg_Target ts) (tg_Score ts) (tg_Ready ts) (tg_Verdict ts) (tg_Blockers ts + one SevBlocker)
    (tg_Warnings ts + one SevWarning) (tg_Infos ts + one SevInfo) (tg_Suppressed ts)
    (<[f_Category f := default 0 (tg_ByCategory ts !! f_Category f) + 1]> (tg_ByCategory ts))
    (if zlen (tg_TopFindings ts) <? maxTopFindings then tg_TopFindings ts ++ [topFinding f] else tg_TopFindings ts).

(** [TargetStatusFromReport]. *)
Definition TargetStatusFromReport (r : Report) : TargetStatus :=
  foldl addFinding
    (mkTargetStatus (VString (r_Target r)) (r_Score r) (r_Ready r) (r_Verdict r) 0 0 0 (zlen (r_Suppressed r)) ∅ [])
    (r_Findings r).

(** How a gap reads in [notAssessed]. *)
Definition gapNote (g : CapabilityGap) : string :=
  g_Capability g +:+ (if g_Partial g then " (partial): " else ": ") +:+ g_Reason g +:+
  (if 0 <? zlen (g_Skipped g) then "; skipped: " +:+ Join (g_Skipped g) ", " else "").

Definition addNote (notes : list string) (g : CapabilityGap) : list string :=
  if mem_str (gapNote g) notes then notes else notes ++ [gapNote g].

(** [StatusFromReports]. *)
Definition StatusFromReports (reports : list Report) (observedServerVersion agentVersion : string) (now : Time) : Status :=
  mkStatus observedServerVersion (match reports with r :: _ => r_KBVersion r | [] => "" end) now
    (map TargetStatusFromReport reports)
    (foldl addNote [] (concat (map r_NotAssessed reports))) agentVersion
    (match reports with r :: _ => r_AddOnEvidenceAgeSeconds r | [] => 0 end)
    (match reports with r :: _ => r_Support r | [] => None end) 0 []
    (match reports with r :: _ => map Label (r_NotAssessed r) | [] => [] end).

(** ** Conditions *)

Definition ConditionReady : string := "Ready".
Definition ConditionAllTargetsReady : string := "AllTargetsReady".
Definition ReasonReady : string := "Ready".
Definition ReasonBlocked : string := "Blocked".
Definition ReasonNotAssessed : string := "NotAssessed".
Definition ConditionTrue : string := "True".
Definition ConditionFalse : string := "False".
Definition ConditionUnknown : string := "Unknown".

Inductive targetVerdict := targetUnknown | targetReady | targetBlocked.

#[global] Instance targetVerdict_eq_dec : EqDecision targetVerdict.
Proof. solve_decision. Defined.

Definition targetState (t : TargetStatus) : targetVerdict :=
  if (tg_Verdict t =s VerdictReady) || ((tg_Verdict t =s "") && tg_Ready t) then targetReady
  else if (tg_Verdict t =s VerdictBlocked) || (0 <? tg_Blockers t) then targetBlocked
  else targetUnknown.

Definition noTarget (st : Status) : string :=
  "no target evaluated" +:+ (if 0 <? zlen (su_NotAssessed st) then ": " +:+ Join (su_NotAssessed st) "; " else "").

(** [ReadyCondition]: the first target's. *)
Definition ReadyCondition (st : Status) : Condition :=
  let mk status reason msg := mkCondition ConditionReady status reason msg (su_LastEvaluated st) 0 in
  match su_Targets st with
  | [] => mk ConditionUnknown ReasonNotAssessed (noTarget st)
  | t :: _ =>
      let gaps := Join (su_ReadyGaps st) ", " in
      let notCovered := if 0 <? zlen (su_ReadyGaps st) then "; not fully assessed: " +:+ gaps +:+ "; see status.notAssessed" else "" in
      match targetState t with
      | targetReady => mk ConditionTrue ReasonReady (tg_Target t +:+ ": ready (score " +:+ itoa (tg_Score t) +:+ ")" +:+ notCovered)
      | targetBlocked =>
          mk ConditionFalse ReasonBlocked
            (tg_Target t +:+ ": " +:+ itoa (tg_Blockers t) +:+ " blocker(s) (score " +:+ itoa (tg_Score t) +:+ ")" +:+ notCovered)
      | targetUnknown =>
          mk ConditionUnknown ReasonNotAssessed
            (tg_Target t +:+ ": no blockers found, but a required check was not assessed" +:+
             (if 0 <? zlen (su_ReadyGaps st) then ": " +:+ gaps else "") +:+
             "; see status.notAssessed (score " +:+ itoa (tg_Score t) +:+ ")")
      end
  end.

Definition inState (v : targetVerdict) (t : TargetStatus) : bool := bool_decide (targetState t = v).

Definition blockedText (t : TargetStatus) : string :=
  clip (tg_Target t) 32 +:+ " blocked (" +:+ itoa (tg_Blockers t) +:+ " " +:+
  (if tg_Blockers t =? 1 then "blocker" else "blockers") +:+ ")".

(** [AllTargetsReadyCondition]. *)
Definition AllTargetsReadyCondition (st : Status) : Condition :=
  let mk status reason msg :=
    mkCondition ConditionAllTargetsReady status reason (clip msg maxAllTargetsMessage) (su_LastEvaluated st) 0 in
  match su_Targets st with
  | [] => mk ConditionUnknown ReasonNotAssessed (noTarget st)
  | ts =>
      let blocked := map blockedText (List.filter (inState targetBlocked) ts) in
      let unknown := map (fun t => clip (tg_Target t) 32 +:+ " not assessed") (List.filter (inState targetUnknown) ts) in
      let ready := map (fun t => clip (tg_Target t) 32) (List.filter (inState targetReady) ts) in
      if 0 <? zlen blocked then mk ConditionFalse ReasonBlocked (Join (blocked ++ unknown) ", ")
      else if 0 <? zlen unknown then mk ConditionUnknown ReasonNotAssessed (Join unknown ", " +:+ "; see status.notAssessed")
      else mk ConditionTrue ReasonReady
             (match ready with
              | [r] => "1 target ready: " +:+ r
              | _ => itoa (zlen ready) +:+ " targets ready: " +:+ Join ready ", "
              end)
  end.

Example clip_cuts : clip "<<<<" 18 = ("<<<" +:+ ellipsis)%string.
Proof. reflexivity. Qed.
Example clip_keeps : clip "1.38" 32 = "1.38"%string.
Proof. reflexivity. Qed.

(** * What the status promises

    However large the reports, what is written of them fits: each text its
    budget of encoded bytes, each list its length. And the conditions say of
    the targets what their verdicts do. *)

(** ** Encoded bytes *)

(** What [s] takes up in the stored JSON. *)
Fixpoint encodedFrom (fuel : nat) (s : string) : Z :=
  match fuel, s with
  | S fuel', String _ _ => (runeCost s).2 + encodedFrom fuel' (dropBytes (runeCost s).1 s)
  | _, _ => 0
  end.

Definition encodedCost (s : string) : Z := encodedFrom (String.length s) s.

Lemma jsonCost_bounds n s : runeLen s = Some n -> 0 <= jsonCost (takeBytes n s) <= 6 * Z.of_nat n.
Proof.
  intros Hn. pose proof (runeLen_bounds s n Hn). pose proof (takeBytes_length n s). unfold jsonCost.
  repeat case_match; unfold slen; lia.
Qed.

Lemma runeCost_bounds a s :
  (1 <= (runeCost (String a s)).1 <= S (String.length s))%nat /\ 0 <= (runeCost (String a s)).2 <= 6 * Z.of_nat (runeCost (String a s)).1.
Proof.
  unfold runeCost. destruct (runeLen (String a s)) as [n|] eqn:E; cbn [fst snd].
  - pose proof (runeLen_bounds _ _ E) as H. cbn [String.length] in H. split; [lia|]. by apply jsonCost_bounds.
  - cbn [String.length]. lia.
Qed.

Lemma encodedFrom_fuel f1 f2 s : (String.length s <= f1)%nat -> (String.length s <= f2)%nat -> encodedFrom f1 s = encodedFrom f2 s.
Proof.
  revert f2 s. induction f1 as [|f1 IH]; intros f2 s H1 H2; destruct s as [|a s]; cbn [String.length] in *;
    [by destruct f2|lia|by destruct f2|]. destruct f2 as [|f2]; [lia|]. cbn [encodedFrom]. f_equal.
  pose proof (runeCost_bounds a s) as [Hw _].
  apply IH; rewrite dropBytes_length; cbn [String.length]; lia.
Qed.

Lemma encodedCost_cons a s : encodedCost (String a s) = (runeCost (String a s)).2 + encodedCost (dropBytes (runeCost (String a s)).1 (String a s)).
Proof.
  unfold encodedCost at 1. cbn [encodedFrom String.length]. f_equal. pose proof (runeCost_bounds a s) as [Hw _].
  apply encodedFrom_fuel; rewrite dropBytes_length; cbn [String.length]; lia.
Qed.

Lemma string_size_ind (P : string -> Prop) :
  (forall s, (forall t, (String.length t < String.length s)%nat -> P t) -> P s) -> forall s, P s.
Proof.
  intros IH s. assert (forall n t, (String.length t < n)%nat -> P t) as H; [|by eapply (H (S (String.length s))); lia].
  induction n as [|n IHn]; intros t Ht; [lia|]. apply IH. intros u Hu. apply IHn. lia.
Qed.

Lemma encodedCost_le s : 0 <= encodedCost s <= 6 * slen s.
Proof.
  induction s as [[|a s] IH] using string_size_ind; [done|]. rewrite encodedCost_cons.
  pose proof (runeCost_bounds a s) as [Hw Hc].
  pose proof (IH (dropBytes (runeCost (String a s)).1 (String a s))) as Hr. unfold slen in *.
  rewrite dropBytes_length in Hr. cbn [String.length] in *. lia.
Qed.

(** The first [k] bytes of [s] are whole runes, which cost [c]. *)
Inductive whole : string -> nat -> Z -> Prop :=
  | whole_nil s : whole s 0 0
  | whole_rune s w c k c' : s <> ""%string -> runeCost s = (w, c) -> whole (dropBytes w s) k c' -> whole s (w + k) (c + c').

(** The tests of the bytes of an ellipsis, evaluated. *)
Ltac eval_bytes :=
  repeat match goal with
  | |- context [byte_in ?l ?h (Ascii ?a ?b ?c ?d ?e ?f ?g ?i)] =>
      let x := constr:(byte_in l h (Ascii a b c d e f g i)) in let v := eval vm_compute in x in change x with v
  end.

Ltac open_ellipsis := change ("" +:+ ?t) with t; cbv beta iota; eval_bytes; rewrite ?andb_false_r; cbv beta iota.

(** An ellipsis does not complete a byte that begins no rune. *)
Lemma runeLen_ellipsis m s : s <> ""%string -> runeLen s = None -> runeLen (takeBytes (S m) s +:+ ellipsis) = None.
Proof.
  intros Hs Hn. change ellipsis with (String "226" (String "128" (String "166" ""))).
  destruct s as [|a s]; [done|]. revert Hn. cbn [takeBytes]. rewrite app_cons_s. unfold runeLen.
  destruct (byte_in 0 127 a); [done|]. unfold second3, second4, continuation.
  destruct s as [|b s], m as [|m]; cbn [takeBytes]; rewrite ?app_cons_s; [by open_ellipsis; repeat case_match..|].
  destruct s as [|c s], m as [|m]; cbn [takeBytes]; rewrite ?app_cons_s; [by open_ellipsis; repeat case_match..|].
  destruct s as [|d s], m as [|m]; cbn [takeBytes]; rewrite ?app_cons_s; by open_ellipsis; repeat case_match.
Qed.

Lemma takeBytes_app_le n s t : (n <= String.length s)%nat -> takeBytes n (s +:+ t) = takeBytes n s.
Proof. revert s. induction n as [|n IH]; intros [|a s] Hn; cbn in *; [done..|lia|]. f_equal. apply IH. lia. Qed.

Lemma takeBytes_all n s : (n <= String.length s)%nat -> String.length (takeBytes n s) = n.
Proof. revert s. induction n as [|n IH]; intros [|a s] Hn; cbn in *; [done..|lia|]. f_equal. apply IH. lia. Qed.

Lemma runeCost_cut s w c k : s <> ""%string -> runeCost s = (w, c) -> runeCost (takeBytes (w + k) s +:+ ellipsis) = (w, c).
Proof.
  intros Hs. unfold runeCost. destruct (runeLen s) as [n|] eqn:E; intros [= <- <-].
  - pose proof (runeLen_bounds _ _ E) as Hb. rewrite takeBytes_add, app_assoc_s, (runeLen_app _ _ _ E).
    rewrite takeBytes_app_le by (rewrite takeBytes_all; lia). f_equal. f_equal.
    rewrite <- (app_nil_r_s (takeBytes n s)) at 1. rewrite takeBytes_app_le by (rewrite takeBytes_all; lia).
    rewrite <- (takeBytes_app_le n (takeBytes n s) (dropBytes n s)) by (rewrite takeBytes_all; lia). by rewrite take_drop_bytes.
  - cbn [Nat.add]. by rewrite runeLen_ellipsis.
Qed.

Lemma whole_cost s k c : whole s k c -> encodedCost (takeBytes k s +:+ ellipsis) = c + encodedCost ellipsis.
Proof.
  induction 1 as [s|s w c k c' Hs Hr Hw IH]; [by destruct s|].
  assert (Hlen : (1 <= w <= String.length s)%nat).
  { destruct s as [|a s]; [done|]. pose proof (runeCost_bounds a s) as [H _]. rewrite Hr in H. cbn in *. lia. }
  pose proof (runeCost_cut s w c k Hs Hr) as Hc.
  assert (Hd : dropBytes w (takeBytes (w + k) s +:+ ellipsis) = takeBytes k (dropBytes w s) +:+ ellipsis).
  { rewrite takeBytes_add, app_assoc_s. apply dropBytes_take. lia. }
  destruct (takeBytes (w + k) s +:+ ellipsis) as [|a t] eqn:Et.
  { exfalso. destruct s as [|a s]; [done|]. destruct w; [lia|]. discriminate Et. }
  rewrite encodedCost_cons, Hc. cbn [fst snd]. rewrite Hd, IH. lia.
Qed.

Lemma clipAt_spec fuel s pos cost n :
  (String.length s <= fuel)%nat -> cost <= n ->
  match clipAt fuel s pos cost n with
  | Some p => exists k c, p = (pos + k)%nat /\ whole s k c /\ cost + c <= n /\ n < cost + encodedCost s
  | None => cost + encodedCost s <= n
  end.
Proof.
  revert s pos cost. induction fuel as [|fuel IH]; intros [|a s] pos cost Hf Hn; cbn [clipAt String.length] in *; try lia.
  1, 2: unfold encodedCost; cbn; lia.
  destruct (runeCost (String a s)) as [w c] eqn:E. pose proof (runeCost_bounds a s) as [Hw Hc]. rewrite E in Hw, Hc. cbn [fst snd] in *.
  rewrite encodedCost_cons, E. cbn [fst snd]. pose proof (encodedCost_le (dropBytes w (String a s))) as Hle.
  destruct (n <? cost + c) eqn:En; to_prop.
  - exists 0%nat, 0. split_and!; [lia|constructor|lia|lia].
  - specialize (IH (dropBytes w (String a s)) (pos + w)%nat (cost + c)). rewrite dropBytes_length in IH. cbn [String.length] in IH.
    specialize (IH ltac:(lia) ltac:(lia)). destruct (clipAt _ _ _ _ _) as [p|]; [|lia].
    destruct IH as (k & c' & -> & Hk & ? & ?). exists (w + k)%nat, (c + c'). split_and!; [lia|by econstructor|lia|lia].
Qed.

(** A clipped text is the text itself when it fits, else as much of it as
    whole runes allow and an ellipsis, three bytes more. *)
Lemma clip_fits s n : 0 <= n ->
  encodedCost (clip s n) <= n + 3 /\ (encodedCost s <= n -> clip s n = s) /\
  (n < encodedCost s -> exists k c, clip s n = takeBytes k s +:+ ellipsis /\ whole s k c /\ c <= n).
Proof.
  intros Hn. unfold clip. pose proof (encodedCost_le s) as Hle. destruct (slen s * 6 <=? n) eqn:E; to_prop.
  { split_and!; [lia|done|lia]. }
  pose proof (clipAt_spec (String.length s) s 0 0 n ltac:(lia) Hn) as H. destruct (clipAt _ _ _ _ _) as [p|].
  - destruct H as (k & c & -> & Hw & ? & ?). split_and!; [|lia|by eauto]. rewrite Nat.add_0_l, (whole_cost _ _ _ Hw).
    change (encodedCost ellipsis) with 3. lia.
  - split_and!; [lia|done|lia].
Qed.

(** ** Rows *)

Definition countSev (sev : string) (fs : list Finding) : Z := zlen (List.filter (fun f => f_Severity f =s sev) fs).
Definition countCat (cat : string) (fs : list Finding) : Z := zlen (List.filter (fun f => f_Category f =s cat) fs).

(** What a row says of the findings [fs] it was given. *)
Record rowOf (r : Report) (fs : list Finding) (t : TargetStatus) : Prop := {
  ro_head : (tg_Target t, tg_Score t, tg_Ready t, tg_Verdict t) = (VString (r_Target r), r_Score r, r_Ready r, r_Verdict r);
  ro_sup : tg_Suppressed t = zlen (r_Suppressed r);
  ro_counts : (tg_Blockers t, tg_Warnings t, tg_Infos t) = (countSev SevBlocker fs, countSev SevWarning fs, countSev SevInfo fs);
  ro_cat : forall cat, default 0 (tg_ByCategory t !! cat) = countCat cat fs;
  ro_top : tg_TopFindings t = map topFinding (take (Z.to_nat maxTopFindings) fs);
}.

Lemma zlen_filter_snoc {A} (p : A -> bool) l x : zlen (List.filter p (l ++ [x])) = zlen (List.filter p l) + if p x then 1 else 0.
Proof. unfold zlen. rewrite List.filter_app, length_app. cbn. destruct (p x); cbn; lia. Qed.

Lemma take_snoc {A} n (l : list A) x : take n (l ++ [x]) = if (length l <? n)%nat then take n l ++ [x] else take n l.
Proof.
  destruct (Nat.ltb_spec (length l) n) as [H|H].
  - rewrite !take_ge; [done|lia|rewrite length_app; cbn; lia].
  - rewrite take_app_le by lia. done.
Qed.

Lemma addFinding_row r fs t f : rowOf r fs t -> rowOf r (fs ++ [f]) (addFinding t f).
Proof.
  intros [Hh Hs Hn Hc Ht]. split; cbn; [done|done| | |].
  - injection Hn as -> -> ->. unfold countSev. by rewrite !zlen_filter_snoc.
  - intros cat. unfold countCat. rewrite zlen_filter_snoc. specialize (Hc cat) as Hcat. unfold countCat in Hcat.
    destruct (decide (cat = f_Category f)) as [->|Hne].
    + rewrite lookup_insert_eq, String.eqb_refl. cbn. lia.
    + rewrite lookup_insert_ne by done. assert ((f_Category f =s cat) = false) as -> by (apply String.eqb_neq; congruence). lia.
  - rewrite Ht, take_snoc. unfold zlen. rewrite length_map, length_take.
    destruct (Nat.ltb_spec (length fs) (Z.to_nat maxTopFindings)) as [H|H];
      destruct (Z.ltb_spec (Z.of_nat (Z.to_nat maxTopFindings `min` length fs)) maxTopFindings); unfold maxTopFindings in *; try lia;
      [by rewrite map_app|done].
Qed.

(** A row of the status counts every finding of its report, by severity and
    by category, and lists the first twenty, each title and remediation cut
    to its budget of encoded bytes. *)
Lemma TargetStatus_counts (r : Report) :
  rowOf r (r_Findings r) (TargetStatusFromReport r) /\
  zlen (tg_TopFindings (TargetStatusFromReport r)) <= maxTopFindings /\
  Forall (fun t => encodedCost (tf_Title t) <= maxTitleLen + 3 /\ encodedCost (tf_Remediation t) <= maxRemediationLen + 3)
    (tg_TopFindings (TargetStatusFromReport r)).
Proof.
  assert (rowOf r (r_Findings r) (TargetStatusFromReport r)) as Hrow.
  { unfold TargetStatusFromReport. generalize (r_Findings r) as fs. induction fs as [|f fs IH] using rev_ind; [by split|].
    rewrite foldl_app. by apply addFinding_row. }
  split_and!; [done|..]; rewrite (ro_top _ _ _ Hrow).
  - unfold zlen. rewrite length_map, length_take. unfold maxTopFindings. lia.
  - apply Forall_forall. intros t (f & -> & _)%list_elem_of_fmap. unfold topFinding. cbn [tf_Title tf_Remediation].
    split; apply clip_fits; vm_compute; discriminate.
Qed.

(** ** The whole *)

Definition rowText (t : TargetStatus) : Z :=
  foldr (fun f n => encodedCost (tf_Title f) + encodedCost (tf_Remediation f) + n) 0 (tg_TopFindings t).

Lemma sum_bound {A} (f : A -> Z) (b : Z) l : (forall x, x ∈ l -> f x <= b) -> foldr (fun x n => f x + n) 0 l <= b * zlen l.
Proof.
  unfold zlen. induction l as [|x l IH]; intros H; cbn; [lia|]. pose proof (H x ltac:(left)).
  specialize (IH (fun y Hy => H y ltac:(by right))). lia.
Qed.

Lemma rowText_bound r : rowText (TargetStatusFromReport r) <= 1542 * maxTopFindings.
Proof.
  destruct (TargetStatus_counts r) as (_ & Hl & Ht). unfold rowText.
  etrans; [apply (sum_bound (fun f => encodedCost (tf_Title f) + encodedCost (tf_Remediation f)) 1542)|lia].
  intros f Hf. rewrite Forall_forall in Ht. specialize (Ht f Hf). unfold maxTitleLen, maxRemediationLen in Ht. lia.
Qed.

(** The status says of each report what it holds and stays far below
    what an apiserver takes in one request: a row per report counts all its
    findings, by severity and by category, and lists the first twenty; of at
    most eight targets, the findings' texts and the notes of what was not
    assessed take at most 263,200 encoded bytes, whatever they are; and the
    notes that are not listed are counted in one line more. *)
Lemma status_bounded (reports : list Report) (notes : list string) (observed agent : string) (now : Time) :
  zlen reports <= MaxTargets ->
  let st := StatusFromReports reports observed agent now in
  let listed := take (Z.to_nat maxNotAssessed) (boundNotAssessed notes) in
  Forall2 (fun r t => rowOf r (r_Findings r) t) reports (su_Targets st) /\
  foldr (fun t n => rowText t + n) 0 (su_Targets st) + foldr (fun n m => encodedCost n + m) 0 listed <= 263200 /\
  drop (Z.to_nat maxNotAssessed) (boundNotAssessed notes) =
    if maxNotAssessed <? zlen notes
    then [(ellipsis +:+ " and " +:+ itoa (zlen notes - maxNotAssessed) +:+ " more not listed")%string] else [].
Proof.
  intros Hr st listed. unfold st. cbn [StatusFromReports su_Targets].
  assert (Hlen : (length (map (fun n => clip n maxNoteLen) (take (Z.to_nat maxNotAssessed) notes)) <= Z.to_nat maxNotAssessed)%nat)
    by (rewrite length_map, length_take; lia).
  split_and!.
  - clear. induction reports as [|r rs IH]; constructor; [apply TargetStatus_counts|apply IH].
  - assert (foldr (fun t n => rowText t + n) 0 (map TargetStatusFromReport reports) <= 1542 * maxTopFindings * zlen reports) as H1.
    { etrans; [apply (sum_bound rowText (1542 * maxTopFindings))|unfold zlen; by rewrite length_map].
      intros t (r & -> & _)%list_elem_of_fmap. apply rowText_bound. }
    assert (foldr (fun n m => encodedCost n + m) 0 listed <= 515 * maxNotAssessed) as H2.
    { etrans; [apply (sum_bound encodedCost 515)|]; unfold listed, boundNotAssessed in *.
      - intros n Hn. destruct (decide (length notes <= Z.to_nat maxNotAssessed)%nat) as [Hle|Hgt].
        + assert ((maxNotAssessed <? zlen notes) = false) as E by (apply Z.ltb_ge; unfold zlen, maxNotAssessed in *; lia).
          rewrite E, app_nil_r in Hn. apply elem_of_take in Hn as (i & Hn & _). apply list_elem_of_lookup_2, list_elem_of_fmap in Hn as (x & -> & _).
          apply clip_fits. done.
        + rewrite take_app_le in Hn by (rewrite length_map, length_take; lia).
          apply elem_of_take in Hn as (i & Hn & _). apply list_elem_of_lookup_2, list_elem_of_fmap in Hn as (x & -> & _).
          by apply clip_fits.
      - unfold zlen. rewrite length_take. unfold maxNotAssessed. lia. }
    unfold MaxTargets, maxTopFindings, maxNotAssessed in *. lia.
  - unfold boundNotAssessed. destruct (maxNotAssessed <? zlen notes) eqn:E; to_prop.
    + rewrite drop_app_length'; [done|]. rewrite length_map, length_take. unfold zlen, maxNotAssessed in *. lia.
    + rewrite app_nil_r. apply drop_ge. lia.
Qed.

(** ** Conditions *)

Lemma filter_inState v ts : 0 < zlen (List.filter (inState v) ts) <-> exists t, t ∈ ts /\ targetState t = v.
Proof.
  unfold zlen. rewrite <- Nat2Z.inj_0, <- Nat2Z.inj_lt. destruct (List.filter (inState v) ts) as [|t l] eqn:E; cbn.
  - split; [lia|]. intros (t & Ht & Hs). exfalso. apply (in_nil (a := t)). rewrite <- E. apply filter_In.
    split; [by apply list_elem_of_In|]. by apply bool_decide_eq_true.
  - split; [|lia]. intros _. exists t. assert (In t (List.filter (inState v) ts)) as [Hin Hs]%filter_In by (rewrite E; by left).
    apply bool_decide_eq_true in Hs. split; [by apply list_elem_of_In|done].
Qed.

Lemma AllTargets_status st :
  let all := cn_Status (AllTargetsReadyCondition st) in
  (all = ConditionTrue <-> su_Targets st <> [] /\ Forall (fun t => targetState t = targetReady) (su_Targets st)) /\
  (all = ConditionFalse <-> Exists (fun t => targetState t = targetBlocked) (su_Targets st)) /\
  (all = ConditionTrue \/ all = ConditionFalse \/ all = ConditionUnknown).
Proof.
  cbv zeta. unfold AllTargetsReadyCondition. rewrite Exists_exists, Forall_forall. destruct (su_Targets st) as [|t ts] eqn:Et.
  { cbn. split_and!; [naive_solver| |tauto]. split; [done|]. by intros (x & ?%not_elem_of_nil & _). }
  rewrite <- Et. pose proof (filter_inState targetBlocked (su_Targets st)) as Hb. pose proof (filter_inState targetUnknown (su_Targets st)) as Hu.
  unfold zlen in *. rewrite !length_map. destruct (Z.ltb_spec 0 (Z.of_nat (length (List.filter (inState targetBlocked) (su_Targets st))))) as [Eb|Eb].
  { apply Hb in Eb. cbn. destruct Eb as (x & Hx & Hs). split_and!; [|naive_solver|tauto]. split; [done|].
    intros [_ H]. specialize (H x Hx). congruence. }
  destruct (Z.ltb_spec 0 (Z.of_nat (length (List.filter (inState targetUnknown) (su_Targets st))))) as [Eu|Eu]; cbn.
  { apply Hu in Eu as (x & Hx & Hs). split_and!; [|split; [done|intros H; apply Hb in H; lia]|tauto]. split; [done|].
    intros [_ H]. specialize (H x Hx). congruence. }
  split_and!; [|split; [done|intros H; apply Hb in H; lia]|tauto]. split; [intros _|done]. split; [by rewrite Et|].
  intros x Hx. destruct (targetState x) eqn:Es; [|done|]; exfalso; [assert (0 < 0) by (eapply Z.lt_le_trans; [apply Hu|]; eauto)|
    assert (0 < 0) by (eapply Z.lt_le_trans; [apply Hb|]; eauto)]; lia.
Qed.

Lemma Ready_status st :
  let first := cn_Status (ReadyCondition st) in
  (first = ConditionTrue <-> exists t, head (su_Targets st) = Some t /\ targetState t = targetReady) /\
  (first = ConditionFalse <-> exists t, head (su_Targets st) = Some t /\ targetState t = targetBlocked).
Proof.
  cbv zeta. unfold ReadyCondition. destruct (su_Targets st) as [|t ts]; cbn; [naive_solver|].
  destruct (targetState t) eqn:E; cbn; naive_solver congruence.
Qed.

(** A verdict of the engine: unknown only without a blocker. *)
Definition verdictOK (r : Report) : Prop :=
  r_Verdict r = VerdictReady \/ r_Verdict r = VerdictBlocked \/ (r_Verdict r = VerdictUnknown /\ countSev SevBlocker (r_Findings r) = 0).

Lemma row_state r : verdictOK r ->
  (targetState (TargetStatusFromReport r) = targetReady <-> r_Verdict r = VerdictReady) /\
  (targetState (TargetStatusFromReport r) = targetBlocked <-> r_Verdict r = VerdictBlocked).
Proof.
  intros Hv. destruct (TargetStatus_counts r) as ([Hh _ Hn _ _] & _). injection Hh as _ _ _ Hver. injection Hn as Hb _ _.
  unfold targetState. rewrite Hver, Hb. destruct Hv as [->|[->|[-> ->]]]; done.
Qed.

(** The condition to wait on for a plan of several targets says ready
    only when every target was evaluated and found ready: it is True for a
    non-empty list of reports whose verdicts are all ready, False as soon as
    one of them is blocked, and Unknown in every other case; and the Ready
    condition says the same of the first target alone. *)
Lemma conditions_sound (reports : list Report) (observed agent : string) (now : Time) :
  Forall verdictOK reports ->
  let st := StatusFromReports reports observed agent now in
  let all := cn_Status (AllTargetsReadyCondition st) in
  let first := cn_Status (ReadyCondition st) in
  (all = ConditionTrue <-> reports <> [] /\ Forall (fun r => r_Verdict r = VerdictReady) reports) /\
  (all = ConditionFalse <-> Exists (fun r => r_Verdict r = VerdictBlocked) reports) /\
  (all = ConditionTrue \/ all = ConditionFalse \/ all = ConditionUnknown) /\
  (first = ConditionTrue <-> exists r, head reports = Some r /\ r_Verdict r = VerdictReady) /\
  (first = ConditionFalse <-> exists r, head reports = Some r /\ r_Verdict r = VerdictBlocked).
Proof.
  intros Hv st all first. destruct (AllTargets_status st) as (Ht & Hf & H3). destruct (Ready_status st) as [Hr1 Hr2].
  rewrite Forall_forall in Hv. fold all in Ht, Hf, H3. fold first in Hr1, Hr2.
  split_and!; [rewrite Ht|rewrite Hf|exact H3|rewrite Hr1|rewrite Hr2]; clear Ht Hf H3 Hr1 Hr2;
    unfold st; cbn [StatusFromReports su_Targets]; rewrite ?Forall_fmap, ?Exists_fmap; unfold compose;
    rewrite ?Forall_forall, ?Exists_exists.
  - split; intros [Hn H]; (split; [by destruct reports|]); intros r Hr; by apply (row_state r (Hv r Hr)), H.
  - split; intros (r & Hr & H); exists r; (split; [done|]); by apply (row_state r (Hv r Hr)).
  - destruct reports as [|r rs]; cbn; [naive_solver|]. destruct (row_state r (Hv r ltac:(left))) as [H1 _]. naive_solver.
  - destruct reports as [|r rs]; cbn; [naive_solver|]. destruct (row_state r (Hv r ltac:(left))) as [_ H1]. naive_solver.
Qed.

(** ** Witnesses *)

Definition longFinding : Finding :=
  newFinding CatRemovedAPI SevBlocker "k" (String.concat "<" (repeat "Ingress"%string 200)) "" [].

Definition blockedReport : Report :=
  mkReport "c" (mkVersion 1 30) "v1.29.0" "" "" "kb" 75 false VerdictBlocked [longFinding] [] None [] [] 0 0 [].

Lemma status_bounded_witness :
  zlen [blockedReport; blockedReport] <= MaxTargets /\
  foldr (fun t n => rowText t + n) 0 (su_Targets (StatusFromReports [blockedReport; blockedReport] "v1.29.0" "v1" 0)) +
    foldr (fun n m => encodedCost n + m) 0 (take (Z.to_nat maxNotAssessed) (boundNotAssessed ["helm: forbidden"%string])) <= 263200.
Proof.
  assert (H : zlen [blockedReport; blockedReport] <= MaxTargets) by (vm_compute; discriminate).
  destruct (status_bounded [blockedReport; blockedReport] ["helm: forbidden"%string] "v1.29.0" "v1" 0 H) as (_ & Hb & _).
  exact (conj H Hb).
Defined.

Lemma conditions_sound_witness :
  cn_Status (AllTargetsReadyCondition (StatusFromReports [blockedReport] "v1.29.0" "v1" 0)) = ConditionFalse.
Proof.
  assert (H : Forall verdictOK [blockedReport]) by (apply Forall_cons_2; [right; by left|apply Forall_nil_2]).
  destruct (conditions_sound [blockedReport] "v1.29.0" "v1" 0 H) as (_ & Hf & _).
  apply Hf, Exists_cons_hd. reflexivity.
Defined.
