(* ===== verification/Agent.v ===== *)
(** * The agent: configuration, targets and budgets of time

    src/internal/agent/agent.go, as far as it decides without the cluster:
    the flags it accepts, the targets a tick evaluates, and how its ticks
    are spaced and their time is shared out. Durations are nanoseconds. *)

From stdpp Require Import base list strings gmap.
From Stdlib Require Import ZArith Lia Ascii.
From S2P Require Import Prelude GoStr GoNet GoTime Version Inventory KB Findings Glob Suppress Admit Gate Status.

(** ** Flags *)

Inductive configError :=
  | IntervalTooShort (d : Z)
  | ForceSyncNotPositive (d : Z)
  | PodPassEveryTooLow (n : Z)
  | PodPassMaxAgeNotPositive (d : Z)
  | BadServerURL (url problem : string)
  | BadServerToken (at_ : Z)
  | NoServerToken
  | TokenFile (problem : string)
  | BadTargets (problem : string)
  | TooManyTargets (n : Z).

Definition ValidateInterval (d : Z) : option configError := if d <? minute then Some (IntervalTooShort d) else None.

Definition ValidateForceSyncEvery (d : Z) : option configError := if d <=? 0 then Some (ForceSyncNotPositive d) else None.

Definition ValidatePodPassEvery (n : Z) : option configError := if n <? 1 then Some (PodPassEveryTooLow n) else None.

Definition ValidatePodPassMaxAge (d : Z) : option configError := if d <=? 0 then Some (PodPassMaxAgeNotPositive d) else None.

(** Where [strings.IndexFunc] finds a white-space or control character; a
    character takes at least a byte. *)
Fixpoint unprintableAt (fuel : nat) (s : string) (pos : Z) : option Z :=
  match fuel, s with
  | S fuel', String _ _ =>
      let '(r, n) := DecodeRune s in
      if existsb (HasPrefix s) spaces || IsControl r then Some pos
      else unprintableAt fuel' (dropS n s) (pos + Z.of_nat n)
  | _, _ => None
  end.

Definition ValidateServerToken (tok : string) : option configError :=
  BadServerToken <$> unprintableAt (String.length tok) tok 0.

(** [url.Parse]: the scheme and the host name, or why it is no URL. *)
Class URLs := { parseURL : string -> res (string * string) }.

Definition ValidateServerURL `{URLs} (raw : string) : option configError :=
  match parseURL raw with
  | Err e => Some (BadServerURL raw e)
  | Ok (scheme, host) =>
      if negb (mem_str (ToLower scheme) ["http"; "https"]%string)
      then Some (BadServerURL raw "want an http:// or https:// URL, e.g. https://upgradescope.example.com")
      else if host =s "" then Some (BadServerURL raw "no host") else None
  end.

Record Config := mkConfig {
  cf_Interval : Z;
  cf_ServerURL : string;
  cf_ServerToken : string;
  cf_ServerTokenFile : string;
  cf_ClusterName : string;
  cf_CRName : string;
  cf_TeamLabel : string;
  cf_ForceSyncEvery : Z;
  cf_PodPassEvery : Z;
  cf_PodPassMaxAge : Z;
  cf_Targets : list string;
}.

Definition DefaultPodPassEvery : Z := 3.
Definition DefaultPodPassMaxAge : Z := hour.
Definition DefaultName : string := "cluster".

Definition orZ (x d : Z) : Z := if x =? 0 then d else x.

(** MAJOR.MINOR of each target, once. *)
Fixpoint normalizeTargets (raws : list string) (targets : list string) : list string + configError :=
  match raws with
  | [] => inl targets
  | raw :: raws' =>
      match ParseTarget raw with
      | Err e => inr (BadTargets e)
      | Ok v => let minor := itoa (Major v) +:+ "." +:+ itoa (Minor v) in
                normalizeTargets raws' (if mem_str minor targets then targets else targets ++ [minor])
      end
  end.

(** [applyDefaults]; [tokenFile] is the token a file holds at start, as
    [secretfile.Open] reads it. *)
Definition applyDefaults `{URLs} (tokenFile : string -> res string) (c : Config) : Config + configError :=
  let interval := orZ (cf_Interval c) (10 * minute) in
  let forceSync := orZ (cf_ForceSyncEvery c) hour in
  let every := orZ (cf_PodPassEvery c) DefaultPodPassEvery in
  let maxAge := orZ (cf_PodPassMaxAge c) DefaultPodPassMaxAge in
  match ValidateInterval interval with
  | Some e => inr e
  | None =>
  match ValidateForceSyncEvery forceSync with
  | Some e => inr e
  | None =>
  match (if negb (cf_ServerURL c =s "") && negb (cf_ServerTokenFile c =s "") then tokenFile (cf_ServerTokenFile c) else Ok (cf_ServerToken c)) with
  | Err e => inr (TokenFile e)
  | Ok token =>
  match ValidatePodPassEvery every with
  | Some e => inr e
  | None =>
  match ValidatePodPassMaxAge maxAge with
  | Some e => inr e
  | None =>
  match (if cf_ServerURL c =s "" then None
         else if token =s "" then Some NoServerToken
         else match ValidateServerURL (cf_ServerURL c) with Some e => Some e | None => ValidateServerToken token end) with
  | Some e => inr e
  | None =>
  match normalizeTargets (cf_Targets c) [] with
  | inr e => inr e
  | inl targets =>
      if MaxTargets <? zlen targets then inr (TooManyTargets (zlen targets))
      else inl (mkConfig interval (cf_ServerURL c) token (cf_ServerTokenFile c) (cf_ClusterName c)
                  (if cf_CRName c =s "" then DefaultName else cf_CRName c) (if cf_TeamLabel c =s "" then "team" else cf_TeamLabel c)
                  forceSync every maxAge targets)
  end end end end end end end.

(** ** Targets of a tick *)

Definition maxSkipNotes : Z := 8.

(** What the loop of [resolveTargets] has gathered. *)
Record resolving := mkResolving {
  rs_seen : list Version;
  rs_targets : list Version;
  rs_notes : list string;
  rs_skipped : Z;
  rs_over : Z;
  rs_firstOver : string;
}.

Definition skip (note : string) (st : resolving) : resolving :=
  mkResolving (rs_seen st) (rs_targets st) (if rs_skipped st <? maxSkipNotes then rs_notes st ++ [note] else rs_notes st)
    (rs_skipped st + 1) (rs_over st) (rs_firstOver st).

Definition resolveOne (st : resolving) (raw : string) : resolving :=
  match ParseTarget raw with
  | Err e => skip ("targets: skipped invalid spec target " +:+ quote raw +:+ ": " +:+ e) st
  | Ok v =>
      if bool_decide (v ∈ rs_seen st) then skip ("targets: ignored duplicate spec target " +:+ quote raw) st
      else if zlen (rs_targets st) =? MaxTargets then
        mkResolving (v :: rs_seen st) (rs_targets st) (rs_notes st) (rs_skipped st) (rs_over st + 1)
          (if rs_over st =? 0 then raw else rs_firstOver st)
      else mkResolving (v :: rs_seen st) (rs_targets st ++ [v]) (rs_notes st) (rs_skipped st) (rs_over st) (rs_firstOver st)
  end.

(** [resolveTargets]: the targets or why there are none, and the notes. *)
Definition resolveTargets (spec : Spec) (inv : Inventory) : res (list Version) * list string :=
  let st := foldl resolveOne (mkResolving [] [] [] 0 0 "") (spec_Targets spec) in
  let notes := rs_notes st ++
    (if maxSkipNotes <? rs_skipped st
     then ["targets: " +:+ itoa (rs_skipped st - maxSkipNotes) +:+ " more invalid or duplicate spec targets skipped"] else []) ++
    (if 0 <? rs_over st
     then ["targets: " +:+ itoa (rs_over st) +:+ " spec targets not assessed: at most " +:+ itoa MaxTargets +:+
           " are evaluated, the first in spec order (first left out: " +:+ quote (rs_firstOver st) +:+ ")"] else []) in
  match rs_targets st with
  | [] =>
      if ServerVersion inv =s "" then (Err "targets: no spec targets and server version unknown", notes)
      else match ParseVersion (ServerVersion inv) with
      | Err _ => (Err ("targets: no spec targets and server version " +:+ quote (ServerVersion inv) +:+
                       " unparseable: set spec.targets explicitly"), notes)
      | Ok observed => (Ok [Next observed], notes)
      end
  | targets => (Ok targets, notes)
  end.

(** ** Spacing *)

Definition minTickSpacing (interval : Z) : Z := interval - Z.quot interval 10.

Definition jitterBy (d n : Z) : Z := wrap64 (minTickSpacing d + n).

Definition forceSyncInEffect (forceSync interval : Z) : Z := if forceSync <=? interval then minTickSpacing interval else forceSync.

Definition podPassMaxAgeFloor (interval every : Z) : Z :=
  if every <=? 1 then 0
  else
    let spacing := jitterBy interval (Z.quot interval 5) in
    let n := every - 1 in
    if (0 <? spacing) && (Z.quot maxInt spacing <? n) then maxInt else wrap64 (n * spacing).

Definition podPassEveryThatFits (interval maxAge : Z) : Z :=
  let spacing := jitterBy interval (Z.quot interval 5) in
  if (spacing <=? 0) || (maxAge <=? spacing) then 1
  else
    let n := Z.quot (maxAge - 1) spacing in
    if maxInt - 1 <=? n then maxInt else 1 + n.

Definition podPassMaxAgeTooShort (interval every maxAge : Z) : bool :=
  (1 <? every) && (maxAge <=? podPassMaxAgeFloor interval every).

(** ** The time of a tick *)

Definition tickTimeout (interval : Z) : Z := Z.min (Z.quot interval 2) (5 * minute).

Definition maxTickReserve : Z := 30 * second.

Definition tickReserve (budget : Z) : Z := Z.min maxTickReserve (Z.quot budget 2).

(** The tick's deadline and its reserve. *)
Record tickPhases := mkPhases { ph_deadline : Time; ph_reserve : Z }.

Definition newTickPhases (deadline now : Time) : tickPhases := mkPhases deadline (tickReserve (deadline - now)).

Definition endingAhead (p : tickPhases) (ahead : Z) : Time := ph_deadline p - ahead.

Definition collectEnds (p : tickPhases) : Time := endingAhead p (ph_reserve p).
Definition statusEnds (p : tickPhases) : Time := endingAhead p (Z.quot (ph_reserve p) 2).
Definition crdCheckEnds (p : tickPhases) : Time := endingAhead p (Z.quot (3 * ph_reserve p) 4).
(** The marker's end, when it starts at [now]; no later than the tick's. *)
Definition markerEnds (p : tickPhases) (now : Time) : Time := Z.min (ph_deadline p) (now + Z.quot (ph_reserve p) 4).

(** * What the agent's settings promise

    A tick evaluates the first eight distinct targets of the spec and counts
    what it leaves out; a force-sync period at or below the interval pushes
    every tick; the pass over pods that the warning suggests is the longest
    that fits; and every phase of a tick keeps time of its own. *)

From S2P Require Import Evaluate.

(** ** Targets *)

Definition parsedTargets (raws : list string) : list Version :=
  omap (fun raw => match ParseTarget raw with Ok v => Some v | Err _ => None end) raws.

(** The distinct elements of [l], each where it first comes. *)
Fixpoint firstOf (seen : list Version) (l : list Version) : list Version :=
  match l with
  | [] => []
  | v :: l' => if bool_decide (v ∈ seen) then firstOf seen l' else v :: firstOf (v :: seen) l'
  end.

Definition distinctTargets (raws : list string) : list Version := firstOf [] (parsedTargets raws).

Lemma firstOf_spec seen l : NoDup (firstOf seen l) /\ forall v, v ∈ firstOf seen l <-> v ∈ l /\ v ∉ seen.
Proof.
  revert seen. induction l as [|v l IH]; intros seen; cbn [firstOf]; [split; [constructor|set_solver]|].
  destruct (bool_decide (v ∈ seen)) eqn:E.
  - apply bool_decide_eq_true in E. destruct (IH seen) as [Hn Hv]. split; [done|]. set_solver.
  - apply bool_decide_eq_false in E. destruct (IH (v :: seen)) as [Hn Hv]. split; [constructor; [set_solver|done]|].
    intros w. rewrite elem_of_cons, Hv. destruct (decide (w = v)) as [->|]; set_solver.
Qed.

(** What the loop has gathered of [raws]. *)
Record resolved (raws : list string) (st : resolving) : Prop := {
  rv_seen : forall v, v ∈ rs_seen st <-> v ∈ parsedTargets raws;
  rv_targets : rs_targets st = take (Z.to_nat MaxTargets) (distinctTargets raws);
  rv_over : rs_over st = Z.max 0 (zlen (distinctTargets raws) - MaxTargets);
  rv_skipped : rs_skipped st = zlen raws - zlen (distinctTargets raws);
  rv_notes : zlen (rs_notes st) = Z.min (rs_skipped st) maxSkipNotes;
}.

Lemma firstOf_snoc seen l v :
  firstOf seen (l ++ [v]) = firstOf seen l ++ (if bool_decide (v ∈ seen \/ v ∈ l) then [] else [v]).
Proof.
  revert seen. induction l as [|w l IH]; intros seen; cbn [firstOf app].
  - rewrite (bool_decide_ext (v ∈ seen \/ v ∈ []) (v ∈ seen)) by set_solver. by case_bool_decide.
  - destruct (bool_decide (w ∈ seen)) eqn:E; rewrite IH.
    + apply bool_decide_eq_true in E. by rewrite (bool_decide_ext (v ∈ seen \/ v ∈ w :: l) (v ∈ seen \/ v ∈ l)) by set_solver.
    + by rewrite (bool_decide_ext (v ∈ seen \/ v ∈ w :: l) (v ∈ w :: seen \/ v ∈ l)) by set_solver.
Qed.

Lemma resolveOne_resolved raws st raw : resolved raws st -> resolved (raws ++ [raw]) (resolveOne st raw).
Proof.
  intros [Hs Ht Ho Hk Hn]. assert (Hz : forall l : list string, zlen (l ++ [raw]) = zlen l + 1) by (intros l; unfold zlen; rewrite length_app; cbn; lia).
  unfold resolveOne. assert (Hskip : forall note, distinctTargets (raws ++ [raw]) = distinctTargets raws ->
     (forall v, v ∈ parsedTargets (raws ++ [raw]) <-> v ∈ parsedTargets raws) -> resolved (raws ++ [raw]) (skip note st)).
  { intros note Hd Hp. split; cbn [skip rs_seen rs_targets rs_over rs_skipped rs_notes]; rewrite ?Hd.
    - intros v. by rewrite Hp.
    - done.
    - done.
    - rewrite Hz, Hk. lia.
    - destruct (rs_skipped st <? maxSkipNotes) eqn:E; to_prop; unfold zlen in *; rewrite ?length_app; cbn; lia. }
  destruct (ParseTarget raw) as [v|e] eqn:Ep.
  2: { assert (parsedTargets (raws ++ [raw]) = parsedTargets raws) as He.
       { unfold parsedTargets. rewrite omap_app. cbn. by rewrite Ep, app_nil_r. }
       apply Hskip; unfold distinctTargets; by rewrite He. }
  assert (parsedTargets (raws ++ [raw]) = parsedTargets raws ++ [v]) as He.
  { unfold parsedTargets. rewrite omap_app. cbn. by rewrite Ep. }
  assert (distinctTargets (raws ++ [raw]) = distinctTargets raws ++ if bool_decide (v ∈ parsedTargets raws) then [] else [v]) as Hd.
  { unfold distinctTargets. rewrite He, firstOf_snoc. f_equal. erewrite bool_decide_ext; [done|]. set_solver. }
  destruct (bool_decide (v ∈ rs_seen st)) eqn:Es.
  { apply bool_decide_eq_true, Hs in Es. rewrite bool_decide_true, app_nil_r in Hd by done. apply Hskip; [done|]. rewrite He. set_solver. }
  apply bool_decide_eq_false in Es. rewrite Hs in Es. rewrite bool_decide_false in Hd by done.
  assert (Hseen : forall w, w ∈ v :: rs_seen st <-> w ∈ parsedTargets (raws ++ [raw])) by (intros w; rewrite He; set_solver).
  assert (Hl : zlen (distinctTargets (raws ++ [raw])) = zlen (distinctTargets raws) + 1) by (rewrite Hd; unfold zlen; rewrite length_app; cbn; lia).
  assert (Htl : zlen (rs_targets st) = Z.min MaxTargets (zlen (distinctTargets raws))).
  { rewrite Ht. unfold zlen, MaxTargets. rewrite length_take. lia. }
  destruct (zlen (rs_targets st) =? MaxTargets) eqn:Em; to_prop; split; cbn [rs_seen rs_targets rs_over rs_skipped rs_notes]; try done.
  - rewrite Hd, take_app_le; [done|]. unfold zlen, MaxTargets in *. lia.
  - rewrite Hl, Ho. lia.
  - rewrite Hz, Hl, Hk. lia.
  - rewrite Hd, Ht. unfold zlen, MaxTargets in *. rewrite !take_ge; [done|rewrite length_app; cbn; lia|lia].
  - rewrite Hl, Ho. lia.
  - rewrite Hz, Hl, Hk. lia.
Qed.

Lemma resolve_resolved raws : resolved raws (foldl resolveOne (mkResolving [] [] [] 0 0 "") raws).
Proof.
  induction raws as [|raw raws IH] using rev_ind; [by split|]. rewrite foldl_app. by apply resolveOne_resolved.
Qed.

(** A tick evaluates the targets its spec asks for: the first eight
    distinct ones that parse, in the spec's order, or, when none does, the
    minor after the cluster's; it has none only when the spec names none and
    the cluster's version is not known; and its notes stay within ten
    whatever the spec holds. *)
Lemma resolveTargets_first (spec : Spec) (inv : Inventory) :
  let wanted := distinctTargets (spec_Targets spec) in
  zlen (resolveTargets spec inv).2 <= 10 /\
  match (resolveTargets spec inv).1 with
  | Ok ts => NoDup ts /\ ts <> [] /\ zlen ts <= MaxTargets /\
      (ts = take (Z.to_nat MaxTargets) wanted \/ (wanted = [] /\ exists v, ParseVersion (ServerVersion inv) = Ok v /\ ts = [Next v]))
  | Err _ => wanted = [] /\ forall v, ParseVersion (ServerVersion inv) <> Ok v
  end.
Proof.
  cbv zeta. unfold resolveTargets. cbv zeta. destruct (resolve_resolved (spec_Targets spec)) as [_ Ht Ho Hk Hn].
  set (st := foldl _ _ _) in *. destruct (firstOf_spec [] (parsedTargets (spec_Targets spec))) as [Hnd _]. fold (distinctTargets (spec_Targets spec)) in Hnd.
  set (notes := rs_notes st ++ _). assert (zlen notes <= 10) as Hnotes.
  { unfold notes. unfold zlen in *. rewrite !length_app. unfold maxSkipNotes in Hn. destruct (maxSkipNotes <? rs_skipped st), (0 <? rs_over st); cbn; lia. }
  clearbody notes. destruct (rs_targets st) as [|t ts] eqn:Ets.
  - assert (distinctTargets (spec_Targets spec) = []) as Hw by (by destruct (distinctTargets (spec_Targets spec))).
    destruct (ServerVersion inv =s "") eqn:Ev; cbn [fst snd].
    { apply String.eqb_eq in Ev. rewrite Ev. split_and!; [done..|]. intros v Hv. vm_compute in Hv. discriminate. }
    destruct (ParseVersion (ServerVersion inv)) as [v|e] eqn:Ep; cbn [fst snd]; (split; [done|]).
    + split_and!; [apply NoDup_singleton|done|done|]. right. split; [done|]. by exists v.
    + by split.
  - cbn [fst snd]. split; [done|]. rewrite Ht. split_and!; [by eapply sublist_NoDup; [exact Hnd|apply sublist_take]|rewrite <- Ht; done| |by left].
    unfold zlen. rewrite length_take. unfold MaxTargets. lia.
Qed.

(** ** Spacing *)

(** A duration whose longest spacing is a duration too. *)
Definition spaced (interval : Z) : Prop := 0 < interval /\ 11 * interval <= 10 * maxInt.

Lemma spacing_bounds interval n : spaced interval -> 0 <= n <= Z.quot interval 5 ->
  jitterBy interval n = minTickSpacing interval + n /\ 0 < minTickSpacing interval /\
  9 * interval <= 10 * minTickSpacing interval /\ 10 * (minTickSpacing interval + n) <= 11 * interval + 9.
Proof.
  intros [H0 H1] Hn. unfold jitterBy, minTickSpacing in *.
  rewrite Z.quot_div_nonneg in * by lia. pose proof (Z.div_mod interval 10 ltac:(lia)). pose proof (Z.mod_pos_bound interval 10 ltac:(lia)).
  pose proof (Z.div_mod interval 5 ltac:(lia)). pose proof (Z.mod_pos_bound interval 5 ltac:(lia)).
  assert (interval - interval / 10 + n <= maxInt) by (unfold maxInt in *; lia).
  split_and!; [apply wrap64_id; unfold in_int64, minInt, maxInt in *; lia|lia..].
Qed.

(** The settings of the loop do what they say in machine integers: a
    force-sync period at or below the interval is over by every tick the
    jitter draws, so it pushes every tick; and the number of ticks per pass
    over the pods that the warning offers is the largest whose passes stay
    younger than the maximum age: it is not warned about, and any larger one
    is, also where the product of ticks and spacing would overflow. *)
Lemma spacing_exact (interval forceSync maxAge draw every : Z) :
  spaced interval -> 0 <= draw <= Z.quot interval 5 -> 0 < maxAge <= maxInt -> every <= maxInt ->
  let fits := podPassEveryThatFits interval maxAge in
  (forceSync <= interval -> forceSyncInEffect forceSync interval <= jitterBy interval draw) /\
  1 <= fits /\ podPassMaxAgeTooShort interval fits maxAge = false /\
  (fits < every -> podPassMaxAgeTooShort interval every maxAge = true).
Proof.
  intros Hi Hd Ha He fits. split; [|].
  { intros Hf. unfold forceSyncInEffect. assert (forceSync <=? interval = true) as -> by (apply Z.leb_le; lia).
    destruct (spacing_bounds interval draw Hi Hd) as [-> _]. lia. }
  assert (0 <= Z.quot interval 5) as Hq by (apply Z.quot_pos; destruct Hi; lia).
  destruct (spacing_bounds interval (Z.quot interval 5) Hi ltac:(lia)) as (Hs & Hp & _ & _).
  unfold fits, podPassMaxAgeTooShort, podPassEveryThatFits, podPassMaxAgeFloor. cbv zeta. rewrite Hs.
  set (sp := minTickSpacing interval + Z.quot interval 5) in *. assert (0 < sp) as Hsp by lia. clearbody sp.
  assert ((sp <=? 0) = false) as -> by (apply Z.leb_gt; lia). assert ((0 <? sp) = true) as -> by (apply Z.ltb_lt; lia). cbn [orb andb].
  rewrite (Z.quot_div_nonneg maxInt sp) by (unfold maxInt; lia).
  assert (Hbig : forall n, 0 < n -> maxInt / sp < n -> maxInt < n * sp).
  { intros n Hn Hlt. pose proof (Z.mul_succ_div_gt maxInt sp Hsp). nia. }
  assert (Hsmall : forall n, 0 < n -> n <= maxInt / sp -> n * sp <= maxInt /\ wrap64 (n * sp) = n * sp).
  { intros n Hn Hle. assert (n * sp <= maxInt) by (pose proof (Z.mul_div_le maxInt sp Hsp); nia).
    split; [done|]. apply wrap64_id. unfold in_int64, minInt. nia. }
  (* A pass of [every] ticks is too old exactly when it spans the age. *)
  assert (Hshort : forall ev, 1 < ev -> (1 <? ev) && (maxAge <=? (if ev <=? 1 then 0 else
      if maxInt / sp <? ev - 1 then maxInt else wrap64 ((ev - 1) * sp))) = (maxAge <=? (ev - 1) * sp)).
  { intros ev Hev. assert ((1 <? ev) = true) as -> by (apply Z.ltb_lt; lia). assert ((ev <=? 1) = false) as -> by (apply Z.leb_gt; lia). cbn [andb].
    destruct (maxInt / sp <? ev - 1) eqn:E; to_prop.
    - pose proof (Hbig (ev - 1) ltac:(lia) E). apply eq_true_iff_eq. rewrite !Z.leb_le. lia.
    - by destruct (Hsmall (ev - 1) ltac:(lia) E) as [_ ->]. }
  destruct (maxAge <=? sp) eqn:Em; to_prop.
  { split_and!; [lia|done|]. intros Hlt. rewrite Hshort by lia. apply Z.leb_le. nia. }
  rewrite (Z.quot_div_nonneg (maxAge - 1) sp) by lia.
  pose proof (Z.mul_div_le (maxAge - 1) sp Hsp). pose proof (Z.mul_succ_div_gt (maxAge - 1) sp Hsp).
  set (n := (maxAge - 1) / sp) in *. assert (0 < n) by nia. assert (n <= maxAge - 1) by nia. clearbody n.
  destruct (maxInt - 1 <=? n) eqn:En; to_prop.
  - assert (maxAge = maxInt /\ sp = 1) as [-> ->] by (unfold maxInt in *; nia). split_and!; [done| |lia].
    rewrite Hshort by done. apply Z.leb_gt. unfold maxInt. lia.
  - split_and!; [lia| |].
    + rewrite Hshort by lia. apply Z.leb_gt. nia.
    + intros Hlt. rewrite Hshort by lia. apply Z.leb_le. nia.
Qed.

(** ** The phases of a tick *)

Lemma tickTimeout_min interval : minute <= interval <= maxInt -> 30 * second <= tickTimeout interval.
Proof.
  unfold tickTimeout, minute, second. intros [H _]. rewrite Z.quot_div_nonneg by lia.
  pose proof (Z.div_le_mono 60000000000 interval 2 ltac:(lia) ltac:(lia)) as Hd. change (60000000000 / 2) with 30000000000 in Hd.
  apply Z.min_glb; lia.
Qed.

Lemma tickReserve_bounds budget : 30 * second <= budget -> 15 * second <= tickReserve budget /\ 2 * tickReserve budget <= budget.
Proof.
  unfold tickReserve, maxTickReserve, second. intros H. rewrite Z.quot_div_nonneg by lia.
  pose proof (Z.div_mod budget 2 ltac:(lia)). pose proof (Z.mod_pos_bound budget 2 ltac:(lia)). lia.
Qed.

(** No phase of a tick can starve the ones after it: at any interval of
    a minute or more, collection has at least half the tick's time and
    fifteen seconds; and however each phase runs out its own time, the check
    of the CRD, the status calls after it, the marker of a failed write and
    the push each keep a quarter of the reserve, which is at least 3.75
    seconds, before the tick's deadline. *)
Lemma phases_keep_time (interval now marked : Z) :
  minute <= interval <= maxInt ->
  let p := newTickPhases (now + tickTimeout interval) now in
  let slice := Z.quot (ph_reserve p) 4 in
  marked <= statusEnds p ->
  3750000000 <= slice /\ 15 * second <= collectEnds p - now /\ tickTimeout interval <= 2 * (collectEnds p - now) /\
  slice <= crdCheckEnds p - collectEnds p /\ slice <= statusEnds p - crdCheckEnds p /\
  markerEnds p marked = marked + slice /\ markerEnds p marked + slice <= ph_deadline p.
Proof.
  intros Hi p slice Hm. unfold slice, collectEnds, crdCheckEnds, statusEnds, markerEnds, endingAhead, p, newTickPhases in *.
  cbn [ph_deadline ph_reserve] in *. replace (now + tickTimeout interval - now) with (tickTimeout interval) in * by lia.
  assert (30 * second <= tickTimeout interval) as Hb.
  { by apply tickTimeout_min. }
  set (budget := tickTimeout interval) in *. clearbody budget. clear Hi.
  assert (15 * second <= tickReserve budget /\ 2 * tickReserve budget <= budget) as [Hr Hr2].
  { by apply tickReserve_bounds. }
  set (r := tickReserve budget) in *. clearbody r. unfold second in *.
  rewrite !Z.quot_div_nonneg in * by lia.
  assert (3750000000 <= r / 4) by (apply Z.div_le_lower_bound; lia).
  pose proof (Z.div_mod r 4 ltac:(lia)). pose proof (Z.mod_pos_bound r 4 ltac:(lia)). pose proof (Z.div_mod r 2 ltac:(lia)).
  pose proof (Z.mod_pos_bound r 2 ltac:(lia)). pose proof (Z.div_mod (3 * r) 4 ltac:(lia)). pose proof (Z.mod_pos_bound (3 * r) 4 ltac:(lia)).
  rewrite Z.min_r by lia. lia.
Qed.

(** ** Witnesses *)

Lemma spacing_exact_witness :
  podPassEveryThatFits (10 * minute) hour = 6 /\ podPassMaxAgeTooShort (10 * minute) 6 hour = false /\
  podPassMaxAgeTooShort (10 * minute) maxInt hour = true.
Proof.
  destruct (spacing_exact (10 * minute) minute hour 0 maxInt) as (_ & _ & Hf & Hs).
  - split; [done|]. vm_compute. discriminate.
  - split; [done|]. vm_compute. discriminate.
  - split; [done|]. vm_compute. discriminate.
  - lia.
  - split; [reflexivity|]. split; [exact Hf|]. apply Hs. vm_compute. reflexivity.
Defined.

Lemma phases_keep_time_witness :
  let p := newTickPhases (0 + tickTimeout minute) 0 in
  15 * second <= collectEnds p - 0 /\ markerEnds p (statusEnds p) + Z.quot (ph_reserve p) 4 <= ph_deadline p.
Proof.
  destruct (phases_keep_time minute 0 (statusEnds (newTickPhases (0 + tickTimeout minute) 0))) as (_ & Hc & _ & _ & _ & _ & Hm).
  - vm_compute. split; discriminate.
  - lia.
  - exact (conj Hc Hm).
Defined.
