(* ===== verification/Push.v ===== *)
(** * The agent: pushing snapshots

    src/internal/agent/push.go and what of agent.go decides when a snapshot
    is pushed: the one buffered payload, the attempts of a flush and their
    delays, the gate on the content's hash, and the retries between ticks.

    The answers of the server, and whether a wait ran to its end, are given
    per attempt. A draw of the jitter is what it does to a duration: floating
    point is not modelled, only that [u * d] lies between [0] and [d]. *)

From stdpp Require Import base list strings gmap sorting.
From Stdlib Require Import ZArith Lia Ascii.
From S2P Require Import Prelude GoStr GoSha GoTime Version Inventory KB Findings Admit Passes Ingest Agent.

(** ** One attempt *)

Definition pushRetries : nat := 3.
Definition maxPushBackoff : Z := minute.

Definition backoff (attempt : Z) : Z :=
  let d := Z.shiftl second (Z.min attempt 20) in if maxPushBackoff <? d then maxPushBackoff else d.

(** What the client gets: an error, or a status and its Retry-After. *)
Inductive response := NoResponse (err : string) | Response (code : Z) (retryAfter : string).

(** How an attempt ended. *)
Inductive sent := Delivered | Permanent (err : string) | Transient (retryAfter : Z) (err : string).

(** [http.ParseTime]. *)
Class HTTPTime := { httpTime : string -> option Time }.

(** [parseRetryAfter]. *)
Definition parseRetryAfter `{HTTPTime} (v : string) (now : Time) : Z :=
  let v := TrimSpace v in
  match Atoi v with
  | Some secs => if secs <=? 0 then 0 else Z.min secs (Z.quot maxPushBackoff second) * second
  | None => match httpTime v with Some t => Z.max (Sub t now) 0 | None => 0 end
  end.

(** The answer of [send] to a response. *)
Definition judgeResponse `{HTTPTime} (now : Time) (r : response) : sent :=
  match r with
  | NoResponse e => Transient 0 ("push snapshot: " +:+ e)
  | Response code ra =>
      if (code =? 202) || (code =? 200) then Delivered
      else if code =? 401 then Permanent "server rejected push (401): check --server-token"
      else if code =? 422 then Permanent "server rejected snapshot (422)"
      else if (300 <=? code) && (code <? 400) then Permanent "server redirected the push"
      else if code =? 408 then Transient 0 "server returned 408"
      else if (code =? 429) || (code =? 503) then Transient (parseRetryAfter ra now) ("server returned " +:+ itoa code)
      else if (400 <=? code) && (code <? 500) then Permanent ("server rejected push (" +:+ itoa code +:+ ")")
      else Transient 0 ("server returned " +:+ itoa code)
  end.

(** [send]: a URL or a token no request can carry is never retried. *)
Definition send `{HTTPTime} `{URLs} (url token : string) (now : Time) (r : response) : sent :=
  match ValidateServerURL url with
  | Some _ => Permanent "push snapshot: bad server URL"
  | None =>
      match ValidateServerToken token with
      | Some _ => Permanent "push snapshot: bad server token"
      | None => judgeResponse now r
      end
  end.

(** A draw [u] in [0, 1): [u * d], and [u * d / 4], truncated. *)
Record draw := mkDraw { dw_full : Z -> Z; dw_quarter : Z -> Z }.

(** [retryDelay]. *)
Definition retryDelay (attempt retryAfter : Z) (u : draw) : Z :=
  let step := dw_full u (backoff attempt) in
  let ask := Z.min retryAfter maxPushBackoff in
  let ask := if 0 <? ask then ask + dw_quarter u ask else ask in
  Z.max step ask.

(** ** The buffer *)

(** A payload as it was offered, with the hash of its inventory. *)
Record payload := mkPayload { pl_id : Z; pl_req : pushRequest; pl_hash : string; pl_inv : Inventory }.

(** The attempt [k] of a flush: how it ended, the draw of the delay after
    it, and whether that wait ran to its end. *)
Record attemptEnv := mkAttempt { ae_sent : sent; ae_draw : draw; ae_waited : bool }.

Inductive flushEnd := FlushIdle | FlushSent | FlushDropped (err : string) | FlushKept (err : string).

(** [clear]. *)
Definition clear (pl : payload) (pending : option payload) : option payload :=
  match pending with Some p => if pl_id p =? pl_id pl then None else Some p | None => None end.

(** The loop of [flush] from attempt [k], with [left] retries to go: how it
    ends, and the delays it waited. *)
Fixpoint flushFrom (left : nat) (k : nat) (env : nat -> attemptEnv) : flushEnd * list Z :=
  match ae_sent (env k) with
  | Delivered => (FlushSent, [])
  | Permanent e => (FlushDropped e, [])
  | Transient retryAfter e =>
      match left with
      | O => (FlushKept ("push snapshot after 4 attempts (kept buffered): " +:+ e), [])
      | S left' =>
          let d := retryDelay (Z.of_nat k) retryAfter (ae_draw (env k)) in
          if ae_waited (env k) then let '(r, ds) := flushFrom left' (S k) env in (r, d :: ds)
          else (FlushKept ("push snapshot (kept buffered): the wait was cut short; last attempt: " +:+ e), [d])
      end
  end.

Definition flush (env : nat -> attemptEnv) (pending : option payload) : flushEnd * option payload :=
  match pending with
  | None => (FlushIdle, None)
  | Some pl =>
      match (flushFrom pushRetries 0 env).1 with
      | FlushKept e => (FlushKept e, pending)
      | r => (r, clear pl pending)
      end
  end.

Definition flushFails (r : flushEnd) : bool :=
  match r with FlushIdle | FlushSent => false | FlushDropped _ | FlushKept _ => true end.

(** ** The gate *)

(** What the runner keeps between ticks; [pu_sent] is what the server has
    answered for, newest last. *)
Record pushState := mkPushState {
  pu_lastHash : string;
  pu_lastPush : Time;
  pu_retryPending : bool;
  pu_pendingHash : string;
  pu_pending : option payload;
  pu_offered : Z;
  pu_sent : list payload;
}.

Definition startPush : pushState := mkPushState "" zeroTime false "" None 0 [].

(** The payload a flush delivered, taken to the server's. *)
Definition record_sent (r : flushEnd) (pending : option payload) (sent : list payload) : list payload :=
  match r, pending with FlushSent, Some p => sent ++ [p] | _, _ => sent end.

Inductive pushOutcome := PushUnchanged | PushOK | PushFailed (err : string).

Section Push.
Context `{Content} `{Unicode} (marshal : Inventory -> res string).

(** [snapshotHash]: the hash of the canonical form, and the wire form. *)
Definition snapshotHash (inv : Inventory) : res (string * string) :=
  match marshal inv with
  | Err e => Err ("marshal inventory: " +:+ e)
  | Ok raw =>
      match marshal (Canonical inv) with
      | Err e => Err ("marshal canonical inventory: " +:+ e)
      | Ok canon => Ok (EncodeToString (Sum256 canon), raw)
      end
  end.

(** A tick's push: the inventory, the clock at the gate and after the push,
    and the attempts. *)
Record pushEnv := mkPushEnv {
  pe_inv : Inventory;
  pe_gate : Time;
  pe_done : Time;
  pe_attempts : nat -> attemptEnv;
}.

(** [maybePush]. *)
Definition maybePush (cfg : Config) (agentVersion kbVersion : string) (env : pushEnv) (st : pushState) : pushOutcome * pushState :=
  let st := mkPushState (pu_lastHash st) (pu_lastPush st) false (pu_pendingHash st) (pu_pending st) (pu_offered st) (pu_sent st) in
  let inv := pe_inv env in
  match snapshotHash inv with
  | Err e => (PushFailed e, st)
  | Ok (hash, raw) =>
      if (hash =s pu_lastHash st) && (Sub (pe_gate env) (pu_lastPush st) <? cf_ForceSyncEvery cfg) then (PushUnchanged, st)
      else match (Admit inv).1 with
      | Some e => (PushFailed ("push skipped: the server would refuse this inventory (422), so it is not sent: " +:+ admitErrorText e), st)
      | None =>
          let name := if cf_ClusterName cfg =s "" then ClusterID inv else cf_ClusterName cfg in
          if name =s "" then (PushFailed "push skipped: no cluster name", st)
          else
            let pl := mkPayload (pu_offered st) (mkPushRequest 1 name agentVersion kbVersion raw) hash inv in
            let '(r, pending) := flush (pe_attempts env) (Some pl) in
            let sent := record_sent r (Some pl) (pu_sent st) in
            match r with
            | FlushDropped e | FlushKept e =>
                (PushFailed e, mkPushState (pu_lastHash st) (pu_lastPush st) (bool_decide (is_Some pending)) hash pending
                                 (pu_offered st + 1) sent)
            | FlushIdle | FlushSent => (PushOK, mkPushState hash (pe_done env) false (pu_pendingHash st) pending (pu_offered st + 1) sent)
            end
      end
  end.

(** A retry between ticks: whether its delay ran to its end, its attempts,
    whether the next tick was due by then, and the clock. *)
Record retryEnv := mkRetry { rt_waited : bool; rt_attempts : nat -> attemptEnv; rt_due : bool; rt_now : Time }.

(** One turn of [retryBuffered]; true when it goes on. *)
Definition retryOnce (env : retryEnv) (st : pushState) : bool * pushState :=
  if negb (rt_waited env) then (false, st)
  else
    let '(r, pending) := flush (rt_attempts env) (pu_pending st) in
    let sent := record_sent r (pu_pending st) (pu_sent st) in
    let st := mkPushState (pu_lastHash st) (pu_lastPush st) (pu_retryPending st) (pu_pendingHash st) pending (pu_offered st) sent in
    if flushFails r && rt_due env then (false, st)
    else if negb (flushFails r) then
      (false, mkPushState (pu_pendingHash st) (rt_now env) false (pu_pendingHash st) (pu_pending st) (pu_offered st) (pu_sent st))
    else if negb (bool_decide (is_Some pending)) then
      (false, mkPushState (pu_lastHash st) (pu_lastPush st) false (pu_pendingHash st) (pu_pending st) (pu_offered st) (pu_sent st))
    else (true, st).

(** [retryBuffered]: until one delivers, the server refuses for good, or the
    next tick is due, which is where the list ends. *)
Fixpoint retryBuffered (envs : list retryEnv) (st : pushState) : pushState :=
  match envs with
  | [] => st
  | env :: envs' =>
      if pu_retryPending st then
        let '(go, st) := retryOnce env st in if go then retryBuffered envs' st else st
      else st
  end.

(** A turn of [loop]: a tick's push, then the retries while it waits. *)
Definition loopTurn (cfg : Config) (agentVersion kbVersion : string) (turn : pushEnv * list retryEnv) (st : pushState) : pushState :=
  retryBuffered turn.2 (maybePush cfg agentVersion kbVersion turn.1 st).2.

Definition loop (cfg : Config) (agentVersion kbVersion : string) (turns : list (pushEnv * list retryEnv)) : pushState :=
  foldl (fun st turn => loopTurn cfg agentVersion kbVersion turn st) startPush turns.
End Push.

(** ** Retries between ticks *)

Definition firstBufferedRetry : Z := 10 * second.
Definition maxBufferedRetry : Z := 2 * minute.

(** [bufferedRetryDelay], for what the draw does to the step: a factor from
    0.8 to 1.2. *)
Definition bufferedRetryDelay (n : Z) (scale : Z -> Z) : Z := scale (Z.min (Z.shiftl firstBufferedRetry (Z.min n 10)) maxBufferedRetry).

(** * What the agent's pushes promise

    Over any run of ticks and retries: the server never receives a snapshot
    older than one it has; a tick leaves its snapshot out only when the last
    one delivered has the same content and is recent; what is delivered is
    what the server's own admission accepts. *)

From S2P Require Import GoUtf8 Evaluate Conform Views.

(** ** Digests are not empty *)

Lemma roundStep_length st kw : length (Sha256.roundStep st kw) = length st.
Proof. unfold Sha256.roundStep. by repeat case_match. Qed.

Lemma rounds_length kws st : length (foldl Sha256.roundStep st kws) = length st.
Proof. revert st. induction kws as [|kw kws IH]; intros st; [done|]. cbn [foldl]. by rewrite IH, roundStep_length. Qed.

Lemma compress_length st b : length (Sha256.compress st b) = length st.
Proof. unfold Sha256.compress. rewrite length_zip_with, rounds_length. lia. Qed.

Lemma hash_nonempty s : EncodeToString (Sum256 s) <> ""%string.
Proof.
  unfold Sum256. assert (forall bs st, length (foldl Sha256.compress st bs) = length st) as Hl.
  { induction bs as [|b bs IH]; intros st; [done|]. cbn [foldl]. by rewrite IH, compress_length. }
  match goal with |- context [foldl ?f ?i ?b] => pose proof (Hl b i) as H; destruct (foldl f i b) as [|w ws]; [done|] end.
  done.
Qed.

(** ** A flush *)

(** A draw of the jitter lies where a factor in [0, 1) puts it. *)
Definition drawOk (u : draw) : Prop := forall d, 0 <= d -> 0 <= dw_full u d <= d /\ 0 <= dw_quarter u d <= d / 4.

Lemma backoff_bounds k : 0 <= k -> second <= backoff k <= maxPushBackoff.
Proof.
  intros Hk. unfold backoff. cbv zeta. rewrite Z.shiftl_mul_pow2 by lia.
  assert (1 <= 2 ^ Z.min k 20) by (change 1 with (2 ^ 0); apply Z.pow_le_mono_r; lia).
  destruct (maxPushBackoff <? second * 2 ^ Z.min k 20) eqn:E; to_prop; unfold maxPushBackoff, minute, second in *; lia.
Qed.

(** A delay is never shorter than the server asked, up to a minute, and
    never longer than seventy-five seconds. *)
Lemma waitBefore_bounds k ra u : 0 <= k -> drawOk u ->
  Z.min (Z.max ra 0) maxPushBackoff <= retryDelay k ra u <= 75 * second.
Proof.
  intros Hk Hu. unfold retryDelay. cbv zeta. pose proof (backoff_bounds k Hk) as Hb.
  destruct (Hu (backoff k)) as [Hf _]; [unfold second in *; lia|].
  generalize dependent (dw_full u (backoff k)). intros step Hf. set (ask := Z.min ra maxPushBackoff).
  assert (Ha : Z.min (Z.max ra 0) maxPushBackoff = Z.max ask 0) by (unfold ask, maxPushBackoff, minute, second; lia).
  assert (Hmax : ask <= 60 * second) by (unfold ask; change maxPushBackoff with (60 * second); lia).
  change maxPushBackoff with (60 * second) in Hb. rewrite Ha. clearbody ask. clear Ha. unfold second in *.
  destruct (0 <? ask) eqn:E; to_prop; [|lia]. destruct (Hu ask) as [_ Hq]; [lia|].
  assert (ask / 4 <= 60000000000 / 4) by (apply Z.div_le_mono; lia). change (60000000000 / 4) with 15000000000 in *.
  generalize dependent (dw_quarter u ask). generalize dependent (ask / 4). intros d Hd q Hq. split; lia.
Qed.

Lemma flushFrom_waits left k env : (forall j, drawOk (ae_draw (env j))) ->
  Forall (fun d => 0 <= d <= 75 * second) (flushFrom left k env).2 /\ (length (flushFrom left k env).2 <= left)%nat.
Proof.
  intros Hd. revert k. induction left as [|left IH]; intros k; cbn [flushFrom]; destruct (ae_sent (env k)) as [|e|ra e]; cbn; try (split; [constructor|lia]).
  pose proof (waitBefore_bounds (Z.of_nat k) ra (ae_draw (env k)) ltac:(lia) (Hd k)) as Hb.
  assert (0 <= maxPushBackoff) by done. set (d := retryDelay _ _ _) in *. assert (0 <= d <= 75 * second) by lia. clearbody d.
  destruct (ae_waited (env k)).
  - destruct (IH (S k)) as [Hf Hl]. destruct (flushFrom left (S k) env) as [r ds]. cbn in Hf, Hl |- *. split; [by apply Forall_cons_2|lia].
  - split; [by apply Forall_singleton|cbn; lia].
Qed.

(** A server that answers in time gets the payload. *)
Lemma flushFrom_delivers left k n env :
  (n <= left)%nat -> ae_sent (env (k + n)%nat) = Delivered ->
  (forall j, (j < n)%nat -> ae_waited (env (k + j)%nat) = true /\ exists ra e, ae_sent (env (k + j)%nat) = Transient ra e) ->
  (flushFrom left k env).1 = FlushSent.
Proof.
  revert k left. induction n as [|n IH]; intros k left Hn Hd Hj.
  - rewrite Nat.add_0_r in Hd. destruct left; cbn [flushFrom]; by rewrite Hd.
  - destruct left as [|left]; [lia|]. destruct (Hj 0%nat ltac:(lia)) as (Hw & ra & e & Hs). rewrite Nat.add_0_r in Hw, Hs.
    cbn [flushFrom]. rewrite Hs, Hw. specialize (IH (S k) left ltac:(lia)).
    replace (S k + n)%nat with (k + S n)%nat in IH by lia. specialize (IH Hd).
    destruct (flushFrom left (S k) env) as [r ds]. cbn in *. apply IH. intros j Hlt.
    replace (S (k + j)) with (k + S j)%nat by lia. apply Hj. lia.
Qed.

Lemma flushFrom_not_idle left k env : (flushFrom left k env).1 <> FlushIdle.
Proof.
  revert k. induction left as [|left IH]; intros k; cbn [flushFrom]; destruct (ae_sent (env k)); try done.
  destruct (ae_waited (env k)); [|done]. specialize (IH (S k)). by destruct (flushFrom left (S k) env).
Qed.

(** ** The invariant *)

Section Push.
Context `{Content} `{Unicode} (marshal : Inventory -> res string) (cfg : Config) (agentVersion kbVersion : string).
#[local] Notation snapshotHash := (snapshotHash marshal).
#[local] Notation maybePush := (maybePush marshal cfg agentVersion kbVersion).
#[local] Notation loop := (loop marshal cfg agentVersion kbVersion).

(** A payload the agent may offer. *)
Record goodPayload (p : payload) : Prop := {
  gp_hash : snapshotHash (pl_inv p) = Ok (pl_hash p, pr_Inventory (pl_req p));
  gp_admitted : (Admit (pl_inv p)).1 = None;
  gp_named : pr_ClusterName (pl_req p) <> ""%string;
  gp_schema : pr_SchemaVersion (pl_req p) = 1;
}.

Definition lastSent (st : pushState) : string := match last (pu_sent st) with Some p => pl_hash p | None => "" end.

(** What holds between ticks. *)
Record pushOk (st : pushState) : Prop := {
  po_hash : pu_lastHash st = lastSent st;
  po_order : StronglySorted Z.lt (map pl_id (pu_sent st));
  po_ids : Forall (fun p => pl_id p < pu_offered st) (pu_sent st);
  po_good : Forall goodPayload (pu_sent st);
  po_pending : forall p, pu_pending st = Some p -> goodPayload p /\ pl_id p < pu_offered st /\ Forall (fun q => pl_id q < pl_id p) (pu_sent st);
}.

(** What holds as long as a retry may run: it is the last payload offered
    that is buffered. *)
Definition retryOk (st : pushState) : Prop :=
  pu_retryPending st = true -> exists p, pu_pending st = Some p /\ pl_hash p = pu_pendingHash st.

Lemma snoc_order (l : list payload) p :
  StronglySorted Z.lt (map pl_id l) -> Forall (fun q => pl_id q < pl_id p) l -> StronglySorted Z.lt (map pl_id (l ++ [p])).
Proof.
  intros Hs Hf. rewrite map_app. apply StronglySorted_app. split_and!; [|done|by repeat constructor].
  intros x y Hx Hy. apply list_elem_of_singleton in Hy as ->. apply list_elem_of_fmap in Hx as (q & -> & Hq).
  rewrite Forall_forall in Hf. by apply Hf.
Qed.

(** Delivering the buffered payload keeps what holds. *)
Lemma sent_ok st p pendingHash at_ :
  pushOk st -> goodPayload p -> Forall (fun q => pl_id q < pl_id p) (pu_sent st) -> forall offered, pl_id p < offered ->
  pushOk (mkPushState (pl_hash p) at_ false pendingHash None offered (pu_sent st ++ [p])).
Proof.
  intros [Hh Ho Hi Hg Hp] Hgood Hlt offered Hoff. split; cbn.
  - unfold lastSent. cbn. by rewrite last_snoc.
  - by apply snoc_order.
  - apply Forall_app. split; [|by apply Forall_singleton]. eapply Forall_impl; [exact Hlt|]. cbn. lia.
  - apply Forall_app. split; [done|]. by apply Forall_singleton.
  - done.
Qed.

Lemma maybePush_ok env st : pushOk st -> pushOk (maybePush env st).2 /\ retryOk (maybePush env st).2.
Proof.
  intros Hok. pose proof Hok as [Hh Ho Hi Hg Hp]. unfold Push.maybePush, retryOk. cbv zeta. cbn [pu_lastHash pu_lastPush pu_pending pu_offered pu_sent pu_pendingHash].
  assert (Hskip : pushOk (mkPushState (pu_lastHash st) (pu_lastPush st) false (pu_pendingHash st) (pu_pending st) (pu_offered st) (pu_sent st)))
    by (split; done).
  destruct (snapshotHash (pe_inv env)) as [[hash raw]|e] eqn:Eh; [|done].
  destruct ((hash =s pu_lastHash st) && _); [done|]. destruct (Admit (pe_inv env)).1 eqn:Ea; [done|].
  destruct ((if cf_ClusterName cfg =s "" then ClusterID (pe_inv env) else cf_ClusterName cfg) =s "") eqn:En; [done|].
  set (pl := mkPayload _ _ _ _). assert (goodPayload pl) as Hpl by (split; cbn; [done|done|by apply String.eqb_neq|done]).
  assert (Forall (fun q => pl_id q < pl_id pl) (pu_sent st)) as Hlt by done.
  assert (Hkept : forall pend pnd, pnd = Some pl \/ pnd = None ->
     pushOk (mkPushState (pu_lastHash st) (pu_lastPush st) pend hash pnd (pu_offered st + 1) (pu_sent st))).
  { intros pend pnd Hpnd. split; cbn; [done|done|eapply Forall_impl; [exact Hi|cbn; lia]|done|].
    intros p ->. destruct Hpnd as [Hpnd|]; [|done]. apply (inj Some) in Hpnd as ->. split_and!; [done|unfold pl; cbn; lia|done]. }
  unfold flush. destruct (flushFrom pushRetries 0 (pe_attempts env)).1 as [| |e|e] eqn:Ef; unfold clear; rewrite ?Z.eqb_refl; cbn [record_sent].
  - by apply flushFrom_not_idle in Ef.
  - split; [|done]. apply (sent_ok st pl); [done..|unfold pl; cbn; lia].
  - split; [by apply Hkept; right|]. done.
  - split; [by apply Hkept; left|]. cbn. intros _. by exists pl.
Qed.

(** A retry keeps what holds; while it goes on, the payload stays. *)
Lemma retryOnce_ok env st : pushOk st -> pu_retryPending st = true -> retryOk st ->
  pushOk (retryOnce env st).2 /\ ((retryOnce env st).1 = true -> retryOk (retryOnce env st).2).
Proof.
  intros Hok Hr Hrk. pose proof Hok as [Hh Ho Hi Hg Hp]. destruct (Hrk Hr) as (p & Hpend & Hph). destruct (Hp p Hpend) as (Hgp & Hid & Hlt).
  unfold retryOnce. destruct (rt_waited env); cbn [negb]; [|done]. rewrite Hpend. unfold flush, clear. rewrite Z.eqb_refl.
  assert (Hdrop : forall b, pushOk (mkPushState (pu_lastHash st) (pu_lastPush st) b (pu_pendingHash st) None (pu_offered st) (pu_sent st)))
    by (split; done).
  assert (Hkeep : forall b, pushOk (mkPushState (pu_lastHash st) (pu_lastPush st) b (pu_pendingHash st) (Some p) (pu_offered st) (pu_sent st))).
  { intros b. split; [done..|]. cbn. intros q Hq. apply (inj Some) in Hq as <-. done. }
  destruct (flushFrom pushRetries 0 (rt_attempts env)).1 as [| |e|e] eqn:Ef; cbn [flushFails record_sent andb negb].
  - by apply flushFrom_not_idle in Ef.
  - split; [|done]. cbn. rewrite <- Hph. by apply (sent_ok st p).
  - destruct (rt_due env); cbn; (split; [apply Hdrop|done]).
  - destruct (rt_due env); [by split; [apply Hkeep|]|]. rewrite bool_decide_true by done. cbn [negb fst snd]. split; [apply Hkeep|].
    intros _ _. by exists p.
Qed.

Lemma retryBuffered_ok envs st : pushOk st -> retryOk st -> pushOk (retryBuffered envs st).
Proof.
  revert st. induction envs as [|env envs IH]; intros st Hok Hr; cbn [retryBuffered]; [done|].
  destruct (pu_retryPending st) eqn:E; [|done]. destruct (retryOnce_ok env st Hok E Hr) as [Hok' Hr'].
  destruct (retryOnce env st) as [[] st']; cbn in *; [|done]. apply IH; [done|by apply Hr'].
Qed.

Lemma loop_ok turns : pushOk (loop turns).
Proof.
  unfold Push.loop. induction turns as [|turn turns IH] using rev_ind.
  - split; cbn; [done|constructor..|done].
  - rewrite foldl_app. cbn [foldl]. unfold loopTurn. destruct (maybePush_ok turn.1 _ IH) as [Hok Hr]. by apply retryBuffered_ok.
Qed.

(** Over any run of the agent, however pushes fail and are retried: the
    server receives snapshots in the order the ticks took them, never one
    older than what it has; each is an admissible inventory under a name;
    and a tick that sends nothing because nothing changed has the content of
    the last snapshot the server accepted, pushed less than a force-sync
    period ago. *)
Lemma push_gate_sound (turns : list (pushEnv * list retryEnv)) (env : pushEnv) :
  let st := loop turns in
  StronglySorted Z.lt (map pl_id (pu_sent st)) /\ Forall goodPayload (pu_sent st) /\
  ((maybePush env st).1 = PushUnchanged ->
   exists p raw, last (pu_sent st) = Some p /\ snapshotHash (pe_inv env) = Ok (pl_hash p, raw) /\
     Sub (pe_gate env) (pu_lastPush st) < cf_ForceSyncEvery cfg).
Proof.
  cbv zeta. pose proof (loop_ok turns) as [Hh Ho Hi Hg _]. split_and!; [done..|]. set (st := loop turns) in *. clearbody st.
  unfold Push.maybePush. cbv zeta. cbn [pu_lastHash pu_lastPush]. destruct (snapshotHash (pe_inv env)) as [[hash raw]|e] eqn:Eh; [|done].
  destruct ((hash =s pu_lastHash st) && _) eqn:E.
  - intros _. to_prop. subst hash. rewrite Hh in Eh |- *. unfold lastSent in *. destruct (last (pu_sent st)) as [p|].
    + exists p, raw. split_and!; [done|done|]. done.
    + exfalso. revert Eh. unfold Push.snapshotHash. destruct (marshal (pe_inv env)); [|done]. destruct (marshal (Canonical (pe_inv env))); [|done].
      intros [= He _]. by apply hash_nonempty in He.
  - destruct (Admit (pe_inv env)).1; [done|]. destruct (_ =s ""); [done|].
    destruct (flush _ _) as [[| |e|e] pending]; done.
Qed.

(** A push the server answers in time is delivered, within four attempts
    and three waits of at most seventy-five seconds. *)
Lemma maybePush_delivers env st hash raw n :
  snapshotHash (pe_inv env) = Ok (hash, raw) -> (Admit (pe_inv env)).1 = None ->
  (cf_ClusterName cfg <> "" \/ ClusterID (pe_inv env) <> "")%string ->
  hash <> pu_lastHash st \/ cf_ForceSyncEvery cfg <= Sub (pe_gate env) (pu_lastPush st) ->
  (n <= pushRetries)%nat -> ae_sent (pe_attempts env n) = Delivered ->
  (forall j, (j < n)%nat -> ae_waited (pe_attempts env j) = true /\ exists ra e, ae_sent (pe_attempts env j) = Transient ra e) ->
  exists p, maybePush env st = (PushOK, mkPushState hash (pe_done env) false (pu_pendingHash st) None (pu_offered st + 1) (pu_sent st ++ [p])) /\
    pl_inv p = pe_inv env /\ pr_Inventory (pl_req p) = raw /\ pl_hash p = hash.
Proof.
  intros Hh Ha Hname Hgate Hn Hd Hj. unfold Push.maybePush. cbv zeta. cbn [pu_lastHash pu_lastPush pu_offered pu_sent pu_pendingHash]. rewrite Hh.
  assert ((hash =s pu_lastHash st) && (Sub (pe_gate env) (pu_lastPush st) <? cf_ForceSyncEvery cfg) = false) as ->.
  { apply andb_false_iff. destruct Hgate as [Hne|Hle]; [left; by apply String.eqb_neq|right; apply Z.ltb_ge; lia]. }
  rewrite Ha. assert (((if cf_ClusterName cfg =s "" then ClusterID (pe_inv env) else cf_ClusterName cfg) =s "") = false) as ->.
  { apply String.eqb_neq. destruct (cf_ClusterName cfg =s "") eqn:E; to_prop; naive_solver. }
  unfold flush. rewrite (flushFrom_delivers pushRetries 0 n _ Hn Hd Hj). unfold clear. rewrite Z.eqb_refl. cbn [record_sent].
  eexists. split; [reflexivity|done].
Qed.

End Push.

(** ** The server's side *)

Section Server.
Context `{AgentSemver} `{Content} `{Unicode}.
Context (encodeJSON : Inventory -> string) (decodeInventoryJSON : string -> res Inventory) (decodePush : string -> res pushRequest).
Context (cfg : Config) (agentVersion kbVersion : string).

(** encoding/json reads back the inventory it wrote, which is no white space
    and not [null]. *)
Definition readsBack (inv : Inventory) : Prop :=
  decodeInventoryJSON (encodeJSON inv) = Ok inv /\
  TrimSpace (encodeJSON inv) <> ""%string /\ TrimSpace (encodeJSON inv) <> "null"%string.

#[local] Notation marshal := (fun inv => Ok (encodeJSON inv)).

(** The agent never sends what the server would refuse as inadmissible:
    a snapshot it delivers, in any run, passes the server's checks of the
    request and of the inventory (for a valid name, valid labels and a token
    of that cluster), and when admission's cut of free text has nothing to
    do, as after the agent's own repair, the hash the server stores is the
    one the agent's gate compares, so sending it again is a duplicate. *)
Lemma push_admitted (turns : list (pushEnv * list retryEnv)) (p : payload) (env : ingestEnv) (wire : string) (bound : string * Z) :
  p ∈ pu_sent (loop marshal cfg agentVersion kbVersion turns) ->
  ig_body env = inl wire -> ig_slot env = true -> ToValidUTF8 wire = wire -> decodePush wire = Ok (pl_req p) ->
  readsBack (pl_inv p) ->
  Source (pl_inv p) = ""%string \/ Source (pl_inv p) = SourceCluster ->
  checkPush bound (pl_req p) = None ->
  admitPush decodePush decodeInventoryJSON env bound = inl (pl_req p, pl_inv p, (Admit (pl_inv p)).2) /\
  ((Admit (pl_inv p)).2 = pl_inv p -> canonicalHash encodeJSON (Canonical (Admit (pl_inv p)).2) = pl_hash p).
Proof.
  intros Hin Hb Hs Hu Hd (Hr & He & Hn) Hsrc Hc. pose proof (po_good _ _ (loop_ok marshal cfg agentVersion kbVersion turns)) as Hg.
  rewrite Forall_forall in Hg. destruct (Hg p Hin) as [Hh Ha _ _]. unfold snapshotHash in Hh.
  assert (pr_Inventory (pl_req p) = encodeJSON (pl_inv p) /\ EncodeToString (Sum256 (encodeJSON (Canonical (pl_inv p)))) = pl_hash p)
    as [Hraw Hhash] by (injection Hh; done).
  split; [|intros ->; exact Hhash].
  unfold admitPush. rewrite Hb, Hs. cbn [negb]. rewrite Hu, String.eqb_refl, Hd, Hc. cbn [negb].
  unfold decodePushedInventory. rewrite Hraw. apply String.eqb_neq in He, Hn. rewrite He, Hn. cbn [orb]. rewrite Hr.
  assert (negb (Source (pl_inv p) =s "") && negb (Source (pl_inv p) =s SourceCluster) = false) as ->
    by (destruct Hsrc as [->| ->]; done).
  destruct (Admit (pl_inv p)) as [[e|] inv']; [done|]. done.
Qed.
End Server.

(** ** Witnesses *)

#[local] Existing Instance exampleContent.
#[local] Existing Instance exampleUnicode.
#[local] Existing Instance dottedSemver.

Definition agentConfig : Config := mkConfig (10 * minute) "https://fleet.example.com" "tok" "" "prod" DefaultName "team" hour 3 hour [].

Definition noDraw : draw := mkDraw (fun _ => 0) (fun _ => 0).

Lemma noDraw_ok : drawOk noDraw.
Proof. intros d Hd. cbn. split; [lia|]. split; [lia|]. by apply Z.div_pos. Qed.

(** The server is busy once, then takes the push. *)
Definition busyThenOK (k : nat) : attemptEnv :=
  mkAttempt (match k with O => Transient (10 * second) "server returned 503" | S _ => Delivered end) noDraw true.

Definition firstTick : pushEnv := mkPushEnv cleanInventory day day busyThenOK.
Definition wireOf (_ : Inventory) : string := "{}".


Definition onePush : pushState := loop (fun inv => Ok (wireOf inv)) agentConfig "v1" "kb" [(firstTick, [])].

Definition sentPayload : payload := mkPayload 0 (mkPushRequest 1 "prod" "v1" "kb" "{}") (EncodeToString (Sum256 "{}")) cleanInventory.

Lemma push_admitted_witness :
  admitPush (fun _ => Ok (pl_req sentPayload)) (fun _ => Ok cleanInventory)
    (mkIngestEnv "" false (inl "{}"%string) true day id false id (fun _ => Passes.mkAttempt day day "d" id day day "e" id)) (""%string, 0) =
  inl (pl_req sentPayload, cleanInventory, (Admit cleanInventory).2).
Proof.
  apply (push_admitted wireOf (fun _ => Ok cleanInventory) (fun _ => Ok (pl_req sentPayload)) agentConfig "v1" "kb" [(firstTick, [])]
           sentPayload _ "{}" (""%string, 0)).
  - vm_compute. left.
  - reflexivity.
  - reflexivity.
  - reflexivity.
  - reflexivity.
  - split_and!; [reflexivity|discriminate|discriminate].
  - by right.
  - vm_compute. reflexivity.
Defined.
