(* ===== verification/Tick.v ===== *)
(** * The agent: a tick

    [tick] of src/internal/agent/agent.go with the calls of
    src/internal/crd/apply.go: the check of the CRD, the read of the spec,
    the evaluation of its targets, the write of the status and the marker
    of a write that failed, and the observer of observe.go.

    The apiserver is a state the calls change and an answer to each, others'
    changes included; [tr] is the trace of the calls that were made.
    [retry.RetryOnConflict] runs an attempt again on a conflict, up to
    [conflictTries] times, and [meta.SetStatusCondition] sets a condition in
    a list. *)

From stdpp Require Import base list strings gmap.
From Stdlib Require Import ZArith Lia Ascii.
From S2P Require Import Prelude GoStr GoUtf8 GoTime Version Inventory KB Findings Evaluate Suppress Admit Conform Passes Ingest Status Agent Push.

(** ** The cluster's answers *)

Inductive apiError := NotFound | Conflict | Forbidden | AlreadyExists | APIError (msg : string).

Definition apiErrorText (e : apiError) : string :=
  match e with
  | NotFound => "not found"
  | Conflict => "conflict"
  | Forbidden => "forbidden"
  | AlreadyExists => "already exists"
  | APIError msg => msg
  end.

(** The object as it is read: a spec that does not decode is an error, a
    status that does not has no conditions. *)
Record CRObject := mkCR {
  cr_generation : Z;
  cr_spec : res Spec;
  cr_conditions : list Condition;
  cr_marked : bool;
}.

Class ClusterAPI := {
  World : Type;
  getCR : World -> (CRObject + apiError) * World;
  createCR : list string -> World -> option apiError * World;
  patchTargets : list string -> World -> (Z + apiError) * World;
  updateStatus : CRObject -> Status -> World -> option apiError * World;
  patchMarker : option string -> World -> option apiError * World;
  getCRD : World -> (bool + apiError) * World;
  applyCRD : World -> option apiError * World;
  createCRDCall : World -> option apiError * World;
  pollEstablished : World -> option string * World;
  conflictTries : nat;
  SetStatusCondition : list Condition -> Condition -> list Condition;
  formatTime : Time -> string;
}.

(** What a tick did to the object. *)
Inductive call :=
  | GotCR (o : CRObject)
  | SetTargetsTo (targets : list string) (generation : Z)
  | WroteStatus (o : CRObject) (st : Status) (ok : bool)
  | PutMarker (value : option string) (ok : bool).

(** ** Texts *)

(** [strings.Fields]. *)
Fixpoint fieldsFrom (fuel : nat) (s cur : string) : list string :=
  let flush rest := if cur =s "" then rest else cur :: rest in
  match fuel, s with
  | S fuel', String a s' =>
      match List.find (HasPrefix s) spaces with
      | Some sp => flush (fieldsFrom fuel' (drop_len s sp) "")
      | None => fieldsFrom fuel' s' (cur +:+ String a "")
      end
  | _, _ => flush []
  end.

Definition Fields (s : string) : list string := fieldsFrom (String.length s) s "".

Definition replacementRune : string := bytes [239; 191; 189]%N.

(** The first [n] runes of [s], and whether there are more. *)
Fixpoint takeRunes (n : nat) (s : string) : string * bool :=
  match n, s with
  | _, EmptyString => (""%string, false)
  | O, _ => (""%string, true)
  | S n', String _ s' =>
      let '(r, rest) := match runeLen s with Some w => (takeBytes w s, dropBytes w s) | None => (replacementRune, s') end in
      let '(t, more) := takeRunes n' rest in (r +:+ t, more)
  end.

(** [oneLine]. *)
Definition oneLine (err : string) (n : Z) : string :=
  let s := Join (Fields err) " " in
  let '(t, more) := takeRunes (Z.to_nat n) s in if more then t +:+ ellipsis else s.

Definition maxCRDNoteReason : Z := 240.
Definition maxStatusErrorReason : Z := 240.

Section Tick.
Context `{ClusterAPI}.

(** ** Calls *)

Definition M (A : Type) : Type := World * list call -> A * (World * list call).

Definition ret {A} (a : A) : M A := fun s => (a, s).
Definition bind {A B} (m : M A) (k : A -> M B) : M B := fun s => let '(a, s') := m s in k a s'.
#[local] Notation "'let*' x := m 'in' k" := (bind m (fun x => k)) (at level 200, x name, m at level 100, k at level 200).

Definition ask {A} (f : World -> A * World) : M A := fun '(w, tr) => let '(a, w') := f w in (a, (w', tr)).
Definition note (c : call) : M unit := fun '(w, tr) => (tt, (w, tr ++ [c])).

(** ** The CRD *)

(** [createCRD]. *)
Definition createCRD : M (option string) :=
  let* err := ask createCRDCall in
  match err with
  | Some Forbidden => ret (Some ("ClusterReadiness CRD is not installed and the agent may not create it: " +:+ apiErrorText Forbidden))
  | None | Some AlreadyExists => ask pollEstablished
  | Some e => ret (Some ("create ClusterReadiness CRD: " +:+ apiErrorText e))
  end.

(** [EnsureCRD]: [getCRD] says whether the installed spec is the manifest's. *)
Definition EnsureCRD : M (option string) :=
  let* got := ask getCRD in
  match got with
  | inr NotFound => createCRD
  | inr e => ret (Some ("get ClusterReadiness CRD: " +:+ apiErrorText e))
  | inl true => ret None
  | inl false =>
      let* err := ask applyCRD in
      ret ((fun e => "apply ClusterReadiness CRD: " +:+ apiErrorText e) <$> err)
  end.

(** ** The object *)

Definition ErrCRDNotInstalled : string := "ClusterReadiness CRD is not installed".

(** [ReadSpecObject]: no object is no error. *)
Definition ReadSpecObject : M (res (option (Spec * Z * CRObject))) :=
  let* got := ask getCR in
  match got with
  | inr NotFound => ret (Ok None)
  | inr e => ret (Err ("get clusterreadiness: " +:+ apiErrorText e))
  | inl o =>
      let* _ := note (GotCR o) in
      match cr_spec o with
      | Ok spec => ret (Ok (Some (spec, cr_generation o, o)))
      | Err e => ret (Err ("decode spec of clusterreadiness: " +:+ e))
      end
  end.

(** [EnsureObject]. *)
Definition EnsureObject (targets : list string) (installHint : string) : M (option string) :=
  let* err := ask (createCR targets) in
  match err with
  | None | Some AlreadyExists => ret None
  | Some NotFound => ret (Some ("create clusterreadiness: " +:+ ErrCRDNotInstalled +:+ ": " +:+ apiErrorText NotFound +:+ "; " +:+ installHint))
  | Some e => ret (Some ("create clusterreadiness: " +:+ apiErrorText e))
  end.

(** [SetTargets]. *)
Definition SetTargets (targets : list string) : M (res Z) :=
  let* r := ask (patchTargets targets) in
  match r with
  | inl g => let* _ := note (SetTargetsTo targets g) in ret (Ok g)
  | inr e => ret (Err ("set clusterreadiness spec.targets: " +:+ apiErrorText e))
  end.

(** [patchStatusError]. *)
Definition patchStatusError (value : option string) : M (option apiError) :=
  let* err := ask (patchMarker value) in
  let* _ := note (PutMarker value (match err with None => true | Some _ => false end)) in
  ret err.

(** [MarkStatusError]. *)
Definition MarkStatusError (cause : string) (at_ : Time) : M (option string) :=
  let* err := patchStatusError (Some (formatTime at_ +:+ " " +:+ oneLine cause maxStatusErrorReason)) in
  ret ((fun e => "mark clusterreadiness: " +:+ apiErrorText e) <$> err).

Definition observed (gen : Z) (c : Condition) : Condition :=
  mkCondition (cn_Type c) (cn_Status c) (cn_Reason c) (cn_Message c) (cn_LastTransitionTime c) gen.

(** The status written over [o]. *)
Definition statusOver (st : Status) (o : CRObject) : Status :=
  let gen := if su_ObservedGeneration st =? 0 then cr_generation o else su_ObservedGeneration st in
  mkStatus (su_ObservedServerVersion st) (su_KBVersion st) (su_LastEvaluated st) (su_Targets st) (su_NotAssessed st) (su_AgentVersion st)
    (su_AddOnEvidenceAgeSeconds st) (su_Support st) gen
    (SetStatusCondition (SetStatusCondition (cr_conditions o) (observed gen (ReadyCondition st))) (observed gen (AllTargetsReadyCondition st)))
    (su_ReadyGaps st).

Definition set_NotAssessed (notes : list string) (st : Status) : Status :=
  mkStatus (su_ObservedServerVersion st) (su_KBVersion st) (su_LastEvaluated st) (su_Targets st) notes (su_AgentVersion st)
    (su_AddOnEvidenceAgeSeconds st) (su_Support st) (su_ObservedGeneration st) (su_Conditions st) (su_ReadyGaps st).

Definition set_ObservedGeneration (gen : Z) (st : Status) : Status :=
  mkStatus (su_ObservedServerVersion st) (su_KBVersion st) (su_LastEvaluated st) (su_Targets st) (su_NotAssessed st) (su_AgentVersion st)
    (su_AddOnEvidenceAgeSeconds st) (su_Support st) gen (su_Conditions st) (su_ReadyGaps st).

(** The attempts of [WriteStatusOver], the first over [current]: the error
    it ends with, and whether the object was marked. *)
Fixpoint writeAttempts (tries : nat) (st : Status) (current : option CRObject) (marked : bool) : M (option apiError * bool) :=
  let* got := match current with
              | Some o => ret (inl o)
              | None => let* got := ask getCR in
                        match got with inl o => let* _ := note (GotCR o) in ret (inl o) | inr e => ret (inr e) end
              end in
  let again e marked := match e, tries with
                        | Conflict, S tries' => writeAttempts tries' st None marked
                        | _, _ => ret (Some e, marked)
                        end in
  match got with
  | inr e => again e marked
  | inl o =>
      let* err := ask (updateStatus o (statusOver st o)) in
      let* _ := note (WroteStatus o (statusOver st o) (match err with None => true | Some _ => false end)) in
      match err with None => ret (None, cr_marked o) | Some e => again e (cr_marked o) end
  end.

Inductive writeResult := Written | MarkerLeft (err : string) | WriteFailed (err : string).

(** [WriteStatusOver]; the tries left after the first. *)
Definition WriteStatusOver (st : Status) (current : option CRObject) : M writeResult :=
  let st := set_NotAssessed (boundNotAssessed (su_NotAssessed st)) st in
  let* r := writeAttempts (Nat.pred conflictTries) st current false in
  match r with
  | (Some e, _) => ret (WriteFailed ("update clusterreadiness status: " +:+ apiErrorText e))
  | (None, false) => ret Written
  | (None, true) =>
      let* err := patchStatusError None in
      match err with
      | None => ret Written
      | Some e => ret (MarkerLeft ("clear clusterreadiness annotation: status written, marker not cleared: " +:+ apiErrorText e))
      end
  end.

(** ** The status of a tick *)

Context `{Semver} `{KubeAware}.

(** What the clock says at each reading of it. *)
Record clock := mkClock { ck_evaluate : Version -> Time; ck_ignore : Version -> Time; ck_status : Time; ck_marker : Time }.

Definition ignoreSource : string := "spec.ignore".

Definition addOnce (notes : list string) (w : string) : list string := if mem_str w notes then notes else notes ++ [w].

(** One target's report and the warnings of its suppressions. *)
Definition evaluateTarget (inv : Inventory) (k : KB) (spec : Spec) (now : clock) (target : Version) : option (Report * list string) :=
  match Evaluate inv k target (ck_evaluate now target) with
  | Some r => Apply r (spec_Ignore spec) (mkOptions (ck_ignore now target) ignoreSource "")
  | None => None
  end.

(** The status evaluated from a spec, the reports in it and the error of a
    tick that has no target; [None] is a panic of the engine. *)
Definition statusFor (inv : Inventory) (k : KB) (agentVersion : string) (spec : Spec) (crdNote : string) (now : clock)
    : option (Status * list Report * list string) :=
  let '(r, notes) := resolveTargets spec inv in
  let notes := if crdNote =s "" then notes else crdNote :: notes in
  match r with
  | Err e => Some (mkStatus (ServerVersion inv) (k_Version k) (ck_status now) [] (notes ++ [e]) agentVersion 0 None 0 [] [], [], [e])
  | Ok targets =>
      match mapM (evaluateTarget inv k spec now) targets with
      | None => None
      | Some rs =>
          let reports := map fst rs in
          let st := StatusFromReports reports (ServerVersion inv) agentVersion (ck_status now) in
          Some (set_NotAssessed (notes ++ su_NotAssessed st ++ foldl addOnce [] (concat (map snd rs))) st, reports, [])
      end
  end.

(** What the tick reports besides its errors. *)
Record statusReport := mkStatusReport { sr_crdErr : option string; sr_markerErr : option string; sr_reports : list Report; sr_checkCRD : bool }.

(** [statusNotWritten]. *)
Definition statusNotWritten (cause : string) (now : clock) : M (list string) :=
  let* merr := MarkStatusError cause (ck_marker now) in
  ret (cause :: match merr with Some e => [e] | None => [] end).

Definition crdNoteOf (err : string) : string :=
  "crd: the ClusterReadiness CRD could not be brought up to date with this agent, retried every tick (status fields the installed schema lacks are dropped by the apiserver): " +:+
  oneLine err maxCRDNoteReason.

(** The spec a tick evaluates: what it read, reconciled to the configured
    targets. *)
Definition reconcile (cfg : Config) (spec : Spec) (gen : Z) (o : option CRObject) : M (res (Spec * Z * option CRObject)) :=
  match cf_Targets cfg with
  | [] => ret (Ok (spec, gen, o))
  | targets =>
      let spec' := mkSpec targets (spec_Ignore spec) in
      if bool_decide (spec_Targets spec = targets) then ret (Ok (spec', gen, o))
      else let* r := SetTargets targets in
           match r with Ok g => ret (Ok (spec', g, None)) | Err e => ret (Err e) end
  end.

(** The read of the spec, after creating an object that is gone. *)
Definition readSpec (cfg : Config) (installHint : string) : M (res (option (Spec * Z * CRObject)) * list string) :=
  let* r := ReadSpecObject in
  match r with
  | Ok None =>
      let* cerr := EnsureObject (cf_Targets cfg) installHint in
      let* r := ReadSpecObject in
      ret (r, match cerr with Some e => [e] | None => [] end)
  | r => ret (r, [])
  end.

(** [writeStatus] once the spec is there. *)
Definition writeFor (inv : Inventory) (k : KB) (agentVersion crdNote : string) (now : clock) (spec : Spec) (gen : Z) (current : option CRObject)
    : M (option (list string * option string * list Report)) :=
  match statusFor inv k agentVersion spec crdNote now with
  | None => ret None
  | Some (st, reports, errs) =>
      let* r := WriteStatusOver (set_ObservedGeneration gen st) current in
      match r with
      | Written => ret (Some (errs, None, reports))
      | MarkerLeft e => ret (Some (errs, Some e, reports))
      | WriteFailed e =>
          let* merr := MarkStatusError e (ck_marker now) in
          ret (Some (errs ++ e :: match merr with Some m => [m] | None => [] end, None, reports))
      end
  end.

(** [writeStatus]; [checkCRD] is [runner.ensureCRD], [None] a panic. An
    object that is still missing reads as an empty spec at generation 0. *)
Definition writeStatus (cfg : Config) (k : KB) (agentVersion installHint : string) (checkCRD : bool) (inv : Inventory) (now : clock)
    : M (option (list string * statusReport)) :=
  let* crdErr := (if checkCRD then EnsureCRD else ret None) in
  let check := match crdErr with Some _ => true | None => false end in
  let crdNote := match crdErr with Some e => crdNoteOf e | None => "" end in
  let* read := readSpec cfg installHint in
  let '(r, errs) := read in
  let* rec_ := match r with
               | Err e => ret (Err e)
               | Ok None => reconcile cfg (mkSpec [] []) 0 None
               | Ok (Some (spec, gen, o)) => reconcile cfg spec gen (Some o)
               end in
  match rec_ with
  | Err e =>
      let* more := statusNotWritten ("status not written: " +:+ e) now in
      ret (Some (errs ++ more, mkStatusReport crdErr None [] check))
  | Ok (spec, gen, current) =>
      let* w := writeFor inv k agentVersion crdNote now spec gen current in
      ret ((fun '(more, merr, reports) => (errs ++ more, mkStatusReport crdErr merr reports check)) <$> w)
  end.

(** ** The tick *)

Definition pushOff : string := "off".
Definition pushUnchanged : string := "unchanged".
Definition pushOKText : string := "ok".
Definition pushFailed : string := "failed".

Record tickReport := mkTickReport {
  tk_errs : list string;
  tk_push : string;
  tk_pushErr : option string;
  tk_markerErr : option string;
  tk_crdErr : option string;
  tk_caps : gmap string CapabilityStatus;
  tk_reports : list Report;
}.

(** What the runner keeps between ticks. *)
Record runner := mkRunner { rn_checkCRD : bool; rn_push : pushState }.

Context `{Content} `{Unicode} (marshal : Inventory -> res string).

(** [tick], of the inventory [collected]: what an injected collector
    returned is repaired first. [None] is a panic of the engine. *)
Definition tick (cfg : Config) (k : KB) (agentVersion installHint : string) (collected : Inventory) (conformed : bool) (now : clock)
    (gate done : Time) (attempts : nat -> attemptEnv) (r : runner) : M (option (tickReport * runner)) :=
  let inv := if conformed then collected else (Conform collected).2 in
  let* written := writeStatus cfg k agentVersion installHint (rn_checkCRD r) inv now in
  ret (match written with
       | None => None
       | Some (errs, sr) =>
           let report push pushErr := mkTickReport errs push pushErr (sr_markerErr sr) (sr_crdErr sr) (Capabilities inv) (sr_reports sr) in
           if cf_ServerURL cfg =s "" then Some (report pushOff None, mkRunner (sr_checkCRD sr) (rn_push r))
           else
             let '(outcome, st) := maybePush marshal cfg agentVersion (k_Version k) (mkPushEnv inv gate done attempts) (rn_push r) in
             let r' := mkRunner (sr_checkCRD sr) st in
             Some (match outcome with
                   | PushFailed e => (report pushFailed (Some e), r')
                   | PushOK => (report pushOKText None, r')
                   | PushUnchanged => (report pushUnchanged None, r')
                   end)
       end).
End Tick.

(** ** The observer *)

Definition staleAfterFailedTicks : Z := 3.
Definition staleGrace : Z := 12 * minute.

Record observer := mkObserver {
  ob_ticks : Z;
  ob_failures : Z;
  ob_pushFailures : Z;
  ob_lastErr : list string;
  ob_lastSuccess : Time;
  ob_good : option tickReport;
  ob_tickErrors : Z;
  ob_pushErrors : Z;
}.

Definition newObserver : observer := mkObserver 0 0 0 [] zeroTime None 0 0.

Definition failed {A} (errs : list A) : bool := match errs with [] => false | _ => true end.

(** [record]. *)
Definition record (now : Time) (rep : tickReport) (o : observer) : observer :=
  let pushErr := match tk_pushErr rep with Some _ => true | None => false end in
  let pushErrors := ob_pushErrors o + (if pushErr then 1 else 0) in
  let pushFailures := if pushErr then ob_pushFailures o + 1 else 0 in
  if failed (tk_errs rep) then
    mkObserver (ob_ticks o + 1) (ob_failures o + 1) pushFailures (tk_errs rep) (ob_lastSuccess o) (ob_good o) (ob_tickErrors o + 1) pushErrors
  else mkObserver (ob_ticks o + 1) 0 pushFailures (ob_lastErr o) now (Some rep) (ob_tickErrors o) pushErrors.

(** [recordRetry]. *)
Definition recordRetry (fails : bool) (o : observer) : observer :=
  if fails then mkObserver (ob_ticks o) (ob_failures o) (ob_pushFailures o) (ob_lastErr o) (ob_lastSuccess o) (ob_good o) (ob_tickErrors o) (ob_pushErrors o + 1)
  else mkObserver (ob_ticks o) (ob_failures o) 0 (ob_lastErr o) (ob_lastSuccess o) (ob_good o) (ob_tickErrors o) (ob_pushErrors o).

Definition readyWindow (interval : Z) : Z := 2 * interval + tickTimeout interval.

Definition verdictStale (interval : Z) (now : Time) (o : observer) : bool :=
  (staleAfterFailedTicks <=? ob_failures o) && (2 * interval + staleGrace <? Sub now (ob_lastSuccess o)).

(** Why the agent is not ready, if it is not. *)
Inductive readiness := Ready | NoTickYet | NoSuccessYet (errs : list string) | SuccessTooOld (age : Z) (errs : list string).

Definition readinessOf (interval : Z) (now : Time) (o : observer) : readiness :=
  if ob_ticks o =? 0 then NoTickYet
  else if IsZero (ob_lastSuccess o) then NoSuccessYet (ob_lastErr o)
  else if readyWindow interval <? Sub now (ob_lastSuccess o) then SuccessTooOld (Sub now (ob_lastSuccess o)) (ob_lastErr o)
  else Ready.

(** The reports [Collect] exports series of: one per target, while the
    verdict is not stale. *)
Fixpoint onePerTarget (seen : list string) (rs : list Report) : list Report :=
  match rs with
  | [] => []
  | r :: rs' =>
      let t := VString (r_Target r) in
      if mem_str t seen then onePerTarget seen rs' else r :: onePerTarget (t :: seen) rs'
  end.

Definition exportedReports (interval : Z) (now : Time) (o : observer) : list Report :=
  if verdictStale interval now o then []
  else match ob_good o with Some rep => onePerTarget [] (tk_reports rep) | None => [] end.

(** * What a tick promises

    The status a tick writes is the evaluation of a spec it read, under the
    generation it read it at; a tick that writes none says so on the object
    and is a failed tick; and the probes and metrics go by the last tick
    that succeeded. *)

From S2P Require Import AddOns Skew Gaps Crd Conform PassSpec Agent.

(** ** Reasoning about calls *)

Section Calls.
Context `{ClusterAPI}.

(** Whatever the cluster answers, [m] ends in [Q] from the trace [tr]. *)
Definition wp {A} (m : M A) (tr : list call) (Q : A -> list call -> Prop) : Prop :=
  forall w, Q (m (w, tr)).1 (m (w, tr)).2.2.

Lemma wp_ret {A} (a : A) tr (Q : A -> list call -> Prop) : Q a tr -> wp (ret a) tr Q.
Proof. intros HQ w. exact HQ. Qed.

Lemma wp_bind {A B} (m : M A) (k : A -> M B) tr Q : wp m tr (fun a tr' => wp (k a) tr' Q) -> wp (bind m k) tr Q.
Proof. intros Hm w. unfold bind. specialize (Hm w). destruct (m (w, tr)) as [a [w' tr']]. apply Hm. Qed.

Lemma wp_ask {A} (f : World -> A * World) tr (Q : A -> list call -> Prop) : (forall a, Q a tr) -> wp (ask f) tr Q.
Proof. intros HQ w. unfold ask. destruct (f w). apply HQ. Qed.

Lemma wp_note c tr (Q : unit -> list call -> Prop) : Q tt (tr ++ [c]) -> wp (note c) tr Q.
Proof. intros HQ w. exact HQ. Qed.

Lemma wp_mono {A} (m : M A) tr (P Q : A -> list call -> Prop) : (forall a tr', P a tr' -> Q a tr') -> wp m tr P -> wp m tr Q.
Proof. intros Hi Hm w. apply Hi, Hm. Qed.

Lemma wp_if {A} (b : bool) (m1 m2 : M A) tr Q : wp m1 tr Q -> wp m2 tr Q -> wp (if b then m1 else m2) tr Q.
Proof. by destruct b. Qed.
End Calls.

Create HintDb calls.
#[export] Hint Resolve wp_ret wp_ask wp_note : calls.

(** A step of symbolic execution. *)
Ltac wp_step :=
  match goal with
  | |- wp (bind _ _) _ _ => apply wp_bind
  | |- wp (ret _) _ _ => apply wp_ret
  | |- wp (ask _) _ _ => apply wp_ask; intros ?
  | |- wp (note _) _ _ => apply wp_note
  | |- wp (if ?b then _ else _) _ _ => destruct b eqn:?
  | |- wp (match ?x with _ => _ end) _ _ => destruct x eqn:?
  end.
Ltac wp_steps := repeat (wp_step; cbn beta iota).

Section Tick.
Context `{ClusterAPI} `{Semver} `{KubeAware}.
Context (cfg : Config) (inv : Inventory) (k : KB) (agentVersion : string) (now : clock).

(** The status evaluated from [spec] at [gen], as it is written over [o]. *)
Definition evaluated (spec : Spec) (gen : Z) (o : CRObject) (st : Status) : Prop :=
  exists crdNote st0 reports errs, statusFor inv k agentVersion spec crdNote now = Some (st0, reports, errs) /\
    st = statusOver (set_NotAssessed (boundNotAssessed (su_NotAssessed st0)) (set_ObservedGeneration gen st0)) o.

(** The spec the tick read, with the configured targets in it: at the
    generation it was read or patched at. *)
Definition specRead (tr : list call) (spec : Spec) (gen : Z) : Prop :=
  exists o spec', GotCR o ∈ tr /\ cr_spec o = Ok spec' /\ spec_Ignore spec = spec_Ignore spec' /\
    ((spec_Targets spec = spec_Targets spec' /\ gen = cr_generation o /\ (cf_Targets cfg = [] \/ cf_Targets cfg = spec_Targets spec)) \/
     (spec_Targets spec = cf_Targets cfg /\ cf_Targets cfg <> [] /\ SetTargetsTo (cf_Targets cfg) gen ∈ tr)).

(** No object was there to read: the empty spec, or the configured targets
    patched into one that came since. *)
Definition specMissing (tr : list call) (spec : Spec) (gen : Z) : Prop :=
  spec = mkSpec (cf_Targets cfg) [] /\
  ((cf_Targets cfg = [] /\ gen = 0) \/ (cf_Targets cfg <> [] /\ SetTargetsTo (cf_Targets cfg) gen ∈ tr)).

Definition wrote (tr : list call) : Prop := exists o st, WroteStatus o st true ∈ tr.
Definition marked (tr : list call) : Prop := exists v ok, PutMarker (Some v) ok ∈ tr.

(** Every status written in [tr] is the evaluation of such a spec. *)
Definition honest (tr : list call) : Prop :=
  forall o st ok, WroteStatus o st ok ∈ tr -> exists spec gen, (specRead tr spec gen \/ specMissing tr spec gen) /\ evaluated spec gen o st.

(** A trace before the status is written. *)
Definition unwritten (tr : list call) : Prop := forall o st ok, WroteStatus o st ok ∉ tr.

Lemma unwritten_snoc tr c : unwritten tr -> (forall o st ok, c <> WroteStatus o st ok) -> unwritten (tr ++ [c]).
Proof. intros Hu Hc o st ok [Hin|Hin%list_elem_of_singleton]%elem_of_app; [by eapply Hu|]. by eapply Hc. Qed.

Lemma specOf_weaken tr c spec gen : specRead tr spec gen \/ specMissing tr spec gen -> specRead (tr ++ [c]) spec gen \/ specMissing (tr ++ [c]) spec gen.
Proof.
  intros [(o & spec' & Ho & Hs & Hi & Hc)|[Hs Hc]]; [left|right].
  - exists o, spec'. split_and!; [set_solver|done|done|]. destruct Hc as [?|(? & ? & ?)]; [by left|right; split_and!; [done..|set_solver]].
  - split; [done|]. destruct Hc as [?|[? ?]]; [by left|right; split; [done|set_solver]].
Qed.

Lemma honest_snoc tr c : honest tr ->
  (forall o st ok, c = WroteStatus o st ok -> exists spec gen, (specRead tr spec gen \/ specMissing tr spec gen) /\ evaluated spec gen o st) ->
  honest (tr ++ [c]).
Proof.
  intros Hh Hc o st ok [Hin|Hin%list_elem_of_singleton]%elem_of_app.
  - destruct (Hh o st ok Hin) as (spec & gen & Hs & He). exists spec, gen. split; [by apply specOf_weaken|done].
  - destruct (Hc o st ok (eq_sym Hin)) as (spec & gen & Hs & He). exists spec, gen. split; [by apply specOf_weaken|done].
Qed.

Lemma unwritten_honest tr : unwritten tr -> honest tr.
Proof. intros Hu o st ok Hin. by apply Hu in Hin. Qed.

(** ** Before the write *)

Lemma ReadSpecObject_wp tr (Q : res (option (Spec * Z * CRObject)) -> list call -> Prop) :
  unwritten tr ->
  (forall r tr', unwritten tr' -> (forall spec gen o, r = Ok (Some (spec, gen, o)) -> GotCR o ∈ tr' /\ cr_spec o = Ok spec /\ gen = cr_generation o) -> Q r tr') ->
  wp ReadSpecObject tr Q.
Proof.
  intros Hu HQ. unfold ReadSpecObject. wp_steps; apply HQ; try done.
  - by apply unwritten_snoc.
  - intros spec gen o' [= <- <- <-]. split_and!; [set_solver|done|done].
  - by apply unwritten_snoc.
Qed.

Lemma readSpec_wp hint tr (Q : res (option (Spec * Z * CRObject)) * list string -> list call -> Prop) :
  unwritten tr ->
  (forall r errs tr', unwritten tr' -> (forall spec gen o, r = Ok (Some (spec, gen, o)) -> GotCR o ∈ tr' /\ cr_spec o = Ok spec /\ gen = cr_generation o) -> Q (r, errs) tr') ->
  wp (readSpec cfg hint) tr Q.
Proof.
  intros Hu HQ. unfold readSpec. apply wp_bind, ReadSpecObject_wp; [done|]. intros r tr1 Hu1 Hr1.
  destruct r as [[[[spec gen] o]|]|e]; [apply wp_ret, HQ; [done|exact Hr1]| |by apply wp_ret, HQ].
  apply wp_bind. apply (wp_mono _ _ (fun _ tr' => tr' = tr1)); [|unfold EnsureObject; wp_steps; done].
  intros cerr tr' ->. apply wp_bind, ReadSpecObject_wp; [done|]. intros r tr2 Hu2 Hr2. by apply wp_ret, HQ.
Qed.

(** The spec after it was reconciled. *)
Definition specSettled (tr : list call) (spec : Spec) (gen : Z) : Prop := specRead tr spec gen \/ specMissing tr spec gen.

Lemma reconcile_wp (r : option (Spec * Z * CRObject)) tr (Q : res (Spec * Z * option CRObject) -> list call -> Prop) :
  unwritten tr -> (forall spec gen o, r = Some (spec, gen, o) -> GotCR o ∈ tr /\ cr_spec o = Ok spec /\ gen = cr_generation o) ->
  (forall x tr', unwritten tr' -> (forall spec gen cur, x = Ok (spec, gen, cur) -> specSettled tr' spec gen) -> Q x tr') ->
  wp (match r with Some (spec, gen, o) => reconcile cfg spec gen (Some o) | None => reconcile cfg (mkSpec [] []) 0 None end) tr Q.
Proof.
  intros Hu Hr HQ. set (spec := match r with Some (spec, _, _) => spec | None => mkSpec [] [] end).
  set (gen := match r with Some (_, gen, _) => gen | None => 0 end). set (o := match r with Some (_, _, o) => Some o | None => None end).
  assert (wp (reconcile cfg spec gen o) tr Q) as Hw; [|by destruct r as [[[? ?] ?]|]].
  assert (Hread : forall tr' spec' gen', (forall c, c ∈ tr -> c ∈ tr') -> spec_Ignore spec' = spec_Ignore spec ->
     (spec_Targets spec' = spec_Targets spec /\ gen' = gen /\ (cf_Targets cfg = [] \/ cf_Targets cfg = spec_Targets spec)) \/
     (spec_Targets spec' = cf_Targets cfg /\ cf_Targets cfg <> [] /\ SetTargetsTo (cf_Targets cfg) gen' ∈ tr') -> specSettled tr' spec' gen').
  { intros tr' spec' gen' Hsub Hi Hc. destruct r as [[[rspec rgen] ro]|] eqn:Er.
    - left. destruct (Hr _ _ _ eq_refl) as (Hg & Hs & Hgen). exists ro, rspec. split_and!; [by apply Hsub|done|done|].
      destruct Hc as [(Ht & -> & Hc)|Hc]; [left|by right]. unfold spec, gen in *. split_and!; [done|done|]. rewrite Ht. done.
    - right. unfold specMissing. destruct spec' as [ts ig]. cbn in *. subst ig.
      destruct Hc as [(-> & -> & [Hc|Hc])|(-> & Hc & Hin)]; [..|by split; [|by right]].
      + rewrite Hc. split; [done|]. by left.
      + rewrite Hc. split; [done|]. by left. }
  unfold reconcile. destruct (cf_Targets cfg) as [|t ts] eqn:Ec.
  { apply wp_ret, HQ; [done|]. intros ? ? ? [= <- <- <-]. apply Hread; [done|done|]. left. split_and!; [done|done|by left]. }
  rewrite <- Ec in *. case_bool_decide as Eq.
  { apply wp_ret, HQ; [done|]. intros ? ? ? [= <- <- <-]. apply Hread; [done|done|]. left. cbn. split_and!; [done|done|by right]. }
  unfold SetTargets. wp_steps; apply HQ; try done; [by apply unwritten_snoc|..].
  - intros ? ? ? [= <- <- <-]. apply Hread; [set_solver|done|]. right. cbn. split_and!; [done|by rewrite Ec|set_solver].
Qed.

(** ** The write *)

Lemma writeAttempts_wp spec gen crdNote st0 reports errs tries cur mk tr (Q : option apiError * bool -> list call -> Prop) :
  statusFor inv k agentVersion spec crdNote now = Some (st0, reports, errs) ->
  honest tr -> specSettled tr spec gen ->
  (forall r m tr', honest tr' -> (r = None -> wrote tr') -> Q (r, m) tr') ->
  wp (writeAttempts tries (set_NotAssessed (boundNotAssessed (su_NotAssessed st0)) (set_ObservedGeneration gen st0)) cur mk) tr Q.
Proof.
  intros Hst Hh Hs HQ. set (st := set_NotAssessed _ _).
  assert (Hev : forall o, evaluated spec gen o (statusOver st o)) by (intros o; by exists crdNote, st0, reports, errs).
  clearbody st. revert cur mk tr Hh Hs. induction tries as [|tries IH]; intros cur mk tr Hh Hs; cbn [writeAttempts].
  all: apply wp_bind; apply (wp_mono _ _ (fun got tr' => honest tr' /\ specSettled tr' spec gen));
    [|destruct cur; wp_steps; (split; [try apply honest_snoc; done|try apply specOf_weaken; done])].
  all: intros got tr1 [Hh1 Hs1]; destruct got as [o|e]; [|destruct e; try (apply wp_ret, HQ; done); by apply IH].
  all: apply wp_bind, wp_ask; intros err; apply wp_bind, wp_note;
    assert (honest (tr1 ++ [WroteStatus o (statusOver st o) (match err with None => true | Some _ => false end)])) as Hh2
      by (apply honest_snoc; [done|]; intros ? ? ? [= <- <- <-]; by exists spec, gen).
  all: destruct err as [e|]; [destruct e; try (apply wp_ret, HQ; done); (apply IH; [done|by apply specOf_weaken])|].
  all: apply wp_ret, HQ; [done|]; intros _; exists o, (statusOver st o); set_solver.
Qed.

Lemma patch_wp v tr (Q : option apiError -> list call -> Prop) :
  honest tr -> (forall err ok, honest (tr ++ [PutMarker v ok]) -> Q err (tr ++ [PutMarker v ok])) -> wp (patchStatusError v) tr Q.
Proof. intros Hh HQ. unfold patchStatusError. wp_steps; apply HQ; by apply honest_snoc. Qed.

Lemma wrote_snoc tr c : wrote tr -> wrote (tr ++ [c]).
Proof. intros (o & st & Hin). exists o, st. set_solver. Qed.

(** A tick's outcome: a status was written, or the object was marked and the
    tick failed. *)
Definition settled (errs : list string) (tr : list call) : Prop :=
  honest tr /\ (wrote tr \/ (errs <> [] /\ marked tr)).

Lemma writeFor_wp spec gen crdNote cur tr (Q : option (list string * option string * list Report) -> list call -> Prop) :
  kb_ok k -> honest tr -> specSettled tr spec gen ->
  (forall errs merr reports tr', settled errs tr' -> Q (Some (errs, merr, reports)) tr') ->
  wp (writeFor inv k agentVersion crdNote now spec gen cur) tr Q.
Proof.
  intros Hk Hh Hs HQ. unfold writeFor.
  assert (exists st0 reports errs, statusFor inv k agentVersion spec crdNote now = Some (st0, reports, errs)) as (st0 & reports & errs & Hst).
  { unfold statusFor. destruct (resolveTargets spec inv) as [[ts|e] notes]; [|by eauto].
    assert (is_Some (mapM (evaluateTarget inv k spec now) ts)) as [rs ->]; [|by eauto]. apply mapM_is_Some, Forall_forall.
    intros t _. unfold compose, evaluateTarget. rewrite Evaluate_eq by done.
    match goal with |- context [Apply ?r ?l ?o] => destruct (Apply_spec r l o) as (r' & ws & -> & _) end. by eexists. }
  rewrite Hst. apply wp_bind. unfold WriteStatusOver.
  apply wp_bind. eapply (writeAttempts_wp spec gen crdNote st0 reports errs _ _ _ _ _ Hst Hh Hs). intros r m tr1 Hh1 Hw1.
  destruct r as [e|].
  - apply wp_ret. cbn beta iota. apply wp_bind. unfold MarkStatusError. apply wp_bind, patch_wp; [done|]. intros err ok Hh2.
    apply wp_ret. apply wp_ret, HQ. split; [done|]. right. split; [by destruct errs|]. eexists _, ok. apply elem_of_app. right. by apply list_elem_of_singleton.
  - specialize (Hw1 eq_refl). destruct m; [|apply wp_ret; cbn beta iota; apply wp_ret, HQ; split; [done|by left]].
    apply wp_bind, patch_wp; [done|]. intros err ok Hh2. destruct err; apply wp_ret; cbn beta iota; apply wp_ret, HQ;
      (split; [done|left; by apply wrote_snoc]).
Qed.

(** A tick never claims a verdict it did not reach: every status it
    writes, whatever the cluster answers and others change meanwhile, is the
    evaluation of the spec it read, or of the configured targets it patched
    into it, under the generation it read or patched it at (of an empty spec
    when there was no object to read); it does not panic; and it either
    writes a status or fails and tries to mark the object as not current. *)
Lemma tick_status_honest (hint : string) (checkCRD : bool) :
  kb_ok k ->
  wp (writeStatus cfg k agentVersion hint checkCRD inv now) []
    (fun r tr => exists errs report, r = Some (errs, report) /\ honest tr /\ (wrote tr \/ (errs <> [] /\ marked tr))).
Proof.
  intros Hk. unfold writeStatus. apply wp_bind.
  assert (unwritten []) as Hu by (intros ? ? ? ?%not_elem_of_nil; done).
  apply (wp_mono _ _ (fun _ tr => tr = [])); [|unfold EnsureCRD, createCRD; wp_steps; done]. intros crdErr tr ->. cbv zeta.
  apply wp_bind, readSpec_wp; [done|]. intros r errs tr1 Hu1 Hr. cbn beta iota. apply wp_bind.
  apply (wp_mono _ _ (fun x tr' => unwritten tr' /\ forall spec gen cur, x = Ok (spec, gen, cur) -> specSettled tr' spec gen)).
  2: { destruct r as [r|e]; [|by apply wp_ret]. eapply (wp_mono _ _ _ _ (fun _ _ => id)).
       pose proof (reconcile_wp r tr1 (fun x tr' => unwritten tr' /\ forall spec gen cur, x = Ok (spec, gen, cur) -> specSettled tr' spec gen) Hu1) as Hw.
       destruct r as [[[spec gen] o]|]; apply Hw; naive_solver. }
  intros x tr2 [Hu2 Hx]. destruct x as [[[spec gen] cur]|e].
  - apply wp_bind, writeFor_wp; [done|by apply unwritten_honest|by eapply Hx|]. intros more merr reports tr3 [Hh Hs].
    apply wp_ret. eexists _, _. split; [reflexivity|]. split; [done|]. destruct Hs as [?|[Hne Hm]]; [by left|right].
    split; [|done]. by destruct errs.
  - apply wp_bind. unfold statusNotWritten, MarkStatusError. apply wp_bind, wp_bind, patch_wp; [by apply unwritten_honest|].
    intros err ok Hh. apply wp_ret, wp_ret, wp_ret. eexists _, _. split; [reflexivity|]. split; [done|]. right.
    split; [by destruct errs|]. eexists _, ok. apply elem_of_app. right. by apply list_elem_of_singleton.
Qed.
End Tick.

(** ** The observer *)

Inductive event := Ticked (at_ : Time) (rep : tickReport) | Retried (fails : bool).

Definition observe (o : observer) (e : event) : observer :=
  match e with Ticked at_ rep => record at_ rep o | Retried fails => recordRetry fails o end.

Definition observing (events : list event) : observer := foldl observe newObserver events.

(** The last tick that succeeded, and the failed ticks since. *)
Definition lastGood (events : list event) : option (Time * tickReport) * Z :=
  foldl (fun '(good, n) e => match e with
                             | Ticked at_ rep => if failed (tk_errs rep) then (good, n + 1) else (Some (at_, rep), 0)
                             | Retried _ => (good, n)
                             end) (None, 0) events.

Lemma observing_good events :
  let o := observing events in
  (match (lastGood events).1 with
   | Some (at_, rep) => ob_lastSuccess o = at_ /\ ob_good o = Some rep
   | None => ob_lastSuccess o = zeroTime /\ ob_good o = None
   end) /\ ob_failures o = (lastGood events).2.
Proof.
  cbv zeta. unfold observing, lastGood. induction events as [|e events IH] using rev_ind; [done|]. rewrite !foldl_app. cbn [foldl].
  set (o := foldl observe newObserver events) in *. destruct (foldl _ (None, 0) events) as [good n]. cbn [fst snd] in IH.
  destruct IH as [IH1 IH2]. destruct e as [at_ rep|fails]; cbn [observe].
  - unfold record. destruct (failed (tk_errs rep)); cbn; (split; [done|lia]).
  - unfold recordRetry. destruct fails; done.
Qed.

Lemma onePerTarget_spec seen rs :
  NoDup (map (fun r => VString (r_Target r)) (onePerTarget seen rs)) /\
  (forall r, r ∈ onePerTarget seen rs -> r ∈ rs /\ VString (r_Target r) ∉ seen) /\
  (forall r, r ∈ rs -> VString (r_Target r) ∉ seen -> exists r', r' ∈ onePerTarget seen rs /\ VString (r_Target r') = VString (r_Target r)).
Proof.
  revert seen. induction rs as [|r rs IH]; intros seen; cbn [onePerTarget map].
  { split_and!; [constructor|by intros ? ?%not_elem_of_nil..]. }
  destruct (mem_str (VString (r_Target r)) seen) eqn:E.
  - apply mem_str_spec in E. destruct (IH seen) as (Hn & Hin & Hc). split_and!; [done|set_solver|].
    intros r' [->|Hr']%elem_of_cons Hs; [done|]. by apply Hc.
  - assert (VString (r_Target r) ∉ seen) as Hns by (rewrite <- mem_str_spec; congruence).
    destruct (IH (VString (r_Target r) :: seen)) as (Hn & Hin & Hc). cbn [map]. split_and!.
    + constructor; [|done]. intros (r' & He & Hr')%list_elem_of_fmap. apply Hin in Hr' as [_ Hr']. set_solver.
    + intros r' [->|Hr']%elem_of_cons; [split; [left|done]|]. apply Hin in Hr' as [? ?]. set_solver.
    + intros r' [->|Hr']%elem_of_cons Hs; [exists r; split; [left|done]|].
      destruct (decide (VString (r_Target r') = VString (r_Target r))) as [He|Hne]; [exists r; split; [left|done]|].
      destruct (Hc r' Hr') as (x & Hx & Hxe); [set_solver|]. exists x. split; [by right|done].
Qed.

(** Probes and metrics go by the last tick that succeeded: the agent is
    ready only if one did, and not longer ago than two intervals and a
    tick's deadline; what it exports are that tick's reports, one per
    target; nothing is exported before a tick succeeded, nor once three
    ticks in a row have failed and the last success is older than two
    intervals and twelve minutes. *)
Lemma observer_sound (events : list event) (interval now : Z) :
  let o := observing events in
  (readinessOf interval now o = Ready ->
   exists at_ rep, (lastGood events).1 = Some (at_, rep) /\ Sub now at_ <= readyWindow interval) /\
  NoDup (map (fun r => VString (r_Target r)) (exportedReports interval now o)) /\
  (forall r, r ∈ exportedReports interval now o -> exists at_ rep, (lastGood events).1 = Some (at_, rep) /\ r ∈ tk_reports rep) /\
  (forall at_ rep, (lastGood events).1 = Some (at_, rep) -> staleAfterFailedTicks <= (lastGood events).2 ->
   2 * interval + staleGrace < Sub now at_ -> exportedReports interval now o = []).
Proof.
  cbv zeta. destruct (observing_good events) as [Hg Hf]. set (o := observing events) in *. clearbody o.
  unfold readinessOf, exportedReports. split_and!.
  - destruct (ob_ticks o =? 0); [done|]. destruct (IsZero (ob_lastSuccess o)) eqn:Ez; [done|].
    destruct (readyWindow interval <? Sub now (ob_lastSuccess o)) eqn:Ew; [done|]. intros _. to_prop.
    destruct (lastGood events).1 as [[at_ rep]|]; destruct Hg as [Hs _].
    + exists at_, rep. split; [done|]. rewrite <- Hs. lia.
    + rewrite Hs in Ez. discriminate Ez.
  - destruct (verdictStale interval now o); [constructor|]. destruct (ob_good o); [|constructor]. apply onePerTarget_spec.
  - intros r. destruct (verdictStale interval now o); [by intros ?%not_elem_of_nil|].
    destruct (lastGood events).1 as [[at_ rep]|]; destruct Hg as [_ ->]; [|by intros ?%not_elem_of_nil].
    intros Hr. exists at_, rep. split; [done|]. destruct (onePerTarget_spec [] (tk_reports rep)) as (_ & Hin & _).
    by destruct (Hin r Hr).
  - intros at_ rep Hl Hn Hold. rewrite Hl in Hg. destruct Hg as [Hs _]. unfold verdictStale. rewrite Hf, Hs.
    assert (staleAfterFailedTicks <=? (lastGood events).2 = true) as -> by (apply Z.leb_le; lia).
    assert (2 * interval + staleGrace <? Sub now at_ = true) as -> by (apply Z.ltb_lt; lia). done.
Qed.

(** ** The server does not matter *)

(** A report without what became of the push. *)
Definition withoutPush (rep : tickReport) : tickReport :=
  mkTickReport (tk_errs rep) "" None (tk_markerErr rep) (tk_crdErr rep) (tk_caps rep) (tk_reports rep).

Section Local.
Context `{ClusterAPI} `{Semver} `{KubeAware} `{Content} `{Unicode} (marshal : Inventory -> res string).

(** The agent's local value never depends on the server: whatever the
    server answers, whatever the push remembers, and even with pushing off,
    a tick makes the same calls to the cluster, ends in the same errors and
    reports, and so leaves the same readiness and the same metrics. *)
Lemma local_value_stands (cfg cfg' : Config) (k : KB) (agentVersion hint : string) (collected : Inventory) (conformed : bool) (now : clock)
    (gate gate' done done' : Time) (attempts attempts' : nat -> attemptEnv) (push push' : pushState) (check : bool) (s : World * list call)
    (interval at_ later : Z) (o : observer) :
  cf_Targets cfg' = cf_Targets cfg ->
  let r := tick marshal cfg k agentVersion hint collected conformed now gate done attempts (mkRunner check push) s in
  let r' := tick marshal cfg' k agentVersion hint collected conformed now gate' done' attempts' (mkRunner check push') s in
  r'.2 = r.2 /\ (withoutPush ∘ fst) <$> r'.1 = (withoutPush ∘ fst) <$> r.1 /\
  (rn_checkCRD ∘ snd) <$> r'.1 = (rn_checkCRD ∘ snd) <$> r.1 /\
  forall rep rep', fst <$> r.1 = Some rep -> fst <$> r'.1 = Some rep' ->
    readinessOf interval later (record at_ rep' o) = readinessOf interval later (record at_ rep o) /\
    exportedReports interval later (record at_ rep' o) = exportedReports interval later (record at_ rep o).
Proof.
  intros Hc. cbv zeta. unfold tick. cbn [rn_checkCRD rn_push].
  assert (Hw : forall inv, writeStatus cfg' k agentVersion hint check inv now s = writeStatus cfg k agentVersion hint check inv now s).
  { intros inv. unfold writeStatus, readSpec, reconcile. by rewrite Hc. }
  unfold bind, ret. rewrite Hw. destruct (writeStatus _ _ _ _ _ _ _ _) as [[[errs sr]|] s']; [|done]. cbn [fst snd].
  destruct (cf_ServerURL cfg =s ""), (cf_ServerURL cfg' =s "");
    repeat (match goal with |- context [maybePush ?m ?c ?a ?kv ?e ?p] => destruct (maybePush m c a kv e p) as [[| |?] ?] end);
    cbn; split_and!; try done; intros rep rep' [= <-] [= <-];
    unfold record, readinessOf, exportedReports, verdictStale; cbn; destruct (failed errs); done.
Qed.
End Local.

(** ** Witnesses *)

#[local] Existing Instance exactSemver.
#[local] Existing Instance Crd.byName.

Definition exampleCR : CRObject := mkCR 7 (Ok (mkSpec ["1.31"%string] [])) [] false.

(** A cluster whose object is missing to the first [n] reads. *)
#[local] Instance lateCluster (n : nat) : ClusterAPI := {|
  World := nat;
  getCR w := (if (w <? n)%nat then inr NotFound else inl exampleCR, S w);
  createCR _ w := (Some AlreadyExists, w);
  patchTargets _ w := (inl 8, w);
  updateStatus _ _ w := (None, w);
  patchMarker _ w := (None, w);
  getCRD w := (inl true, w);
  applyCRD w := (None, w);
  createCRDCall w := (None, w);
  pollEstablished w := (None, w);
  conflictTries := 5;
  SetStatusCondition cs c := cs ++ [c];
  formatTime _ := ""%string;
|}.

Definition stillClock : clock := mkClock (fun _ => 0) (fun _ => 0) 0 0.
Definition localConfig : Config := mkConfig (10 * minute) "" "" "" "" DefaultName "team" hour 3 hour [].

Lemma tick_status_honest_witness :
  exists errs report tr, (@writeStatus (lateCluster 0) _ _ localConfig emptyKB "v1" "" false cleanInventory stillClock (0%nat, [])).1 = Some (errs, report) /\
    (@writeStatus (lateCluster 0) _ _ localConfig emptyKB "v1" "" false cleanInventory stillClock (0%nat, [])).2.2 = tr /\
    (wrote tr \/ errs <> [] /\ marked tr).
Proof.
  destruct (@tick_status_honest (lateCluster 0) _ _ localConfig cleanInventory emptyKB "v1" stillClock "" false ltac:(apply Forall_nil_2) 0%nat)
    as (errs & report & Hr & _ & Hw).
  exists errs, report, (@writeStatus (lateCluster 0) _ _ localConfig emptyKB "v1" "" false cleanInventory stillClock (0%nat, [])).2.2.
  exact (conj Hr (conj eq_refl Hw)).
Defined.

Lemma local_value_stands_witness :
  (@tick (lateCluster 0) _ _ exampleContent exampleUnicode (fun _ => Ok "{}"%string) localConfig emptyKB "v1" "" cleanInventory true stillClock 0 0
     (fun _ => mkAttempt Delivered (mkDraw id id) true) (mkRunner false startPush) (0%nat, [])).2 =
  (@tick (lateCluster 0) _ _ exampleContent exampleUnicode (fun _ => Ok "{}"%string) (mkConfig (10 * minute) "https://fleet" "tok" "" "prod" DefaultName "team" hour 3 hour [])
     emptyKB "v1" "" cleanInventory true stillClock 0 0 (fun _ => mkAttempt (Permanent "401") (mkDraw id id) true) (mkRunner false startPush) (0%nat, [])).2.
Proof.
  symmetry. refine (proj1 (@local_value_stands (lateCluster 0) _ _ exampleContent exampleUnicode (fun _ => Ok "{}"%string) localConfig
    (mkConfig (10 * minute) "https://fleet" "tok" "" "prod" DefaultName "team" hour 3 hour []) emptyKB "v1" "" cleanInventory true stillClock
    0 0 0 0 (fun _ => mkAttempt Delivered (mkDraw id id) true) (fun _ => mkAttempt (Permanent "401") (mkDraw id id) true) startPush startPush
    false (0%nat, []) 0 0 0 newObserver _)).
  reflexivity.
Defined.

(** What the writes of a trace claim: the spec of the object written over,
    its generation, the generation stamped and the targets reported. *)
Definition claims (tr : list call) : list (res Spec * Z * Z * list string) :=
  omap (fun c => match c with
                 | WroteStatus o st true => Some (cr_spec o, cr_generation o, su_ObservedGeneration st, map tg_Target (su_Targets st))
                 | _ => None
                 end) tr.

(** A tick that finds no object twice and then writes over one created
    meanwhile: a successful tick whose status is of the default target,
    stamped with the generation of a spec it never read. *)
Lemma unread_spec_claimed :
  let run := @writeStatus (lateCluster 2) exactSemver Crd.byName localConfig emptyKB "v1" "" false cleanInventory stillClock (0%nat, []) in
  fst <$> run.1 = Some [] /\ claims run.2.2 = [(Ok (mkSpec ["1.31"%string] []), 7, 7, ["1.30"%string])].
Proof. vm_compute. auto. Qed.
