(* ===== verification/GoRegexp.v ===== *)
(** * Regular expressions (package regexp of Go's standard library)

    The patterns of the repository are matched byte by byte, by
    derivatives. [MatchString] of a pattern written [^...$] is membership in
    its language. [FindString] takes the leftmost match and, of those, the
    longest: Go takes the one a backtracking search finds first, and no
    pattern it is used with here ([Detect.versionRe]) leaves a choice
    between a shorter and a longer one: after each of its parts the next
    byte tells which of the others may follow. *)

From stdpp Require Import base list strings.
From Stdlib Require Import ZArith Lia Ascii.
From S2P Require Import Prelude GoStr GoUtf8.

Inductive re :=
| Void
| Eps
| Byte (p : ascii -> bool)
| Seq (r1 r2 : re)
| Alt (r1 r2 : re)
| Star (r : re).

Fixpoint nullable (r : re) : bool :=
  match r with
  | Void | Byte _ => false
  | Eps | Star _ => true
  | Seq r1 r2 => nullable r1 && nullable r2
  | Alt r1 r2 => nullable r1 || nullable r2
  end.

(** [Seq] and [Alt] without the parts that match nothing. *)
Definition seq (r1 r2 : re) : re :=
  match r1 with Void => Void | Eps => r2 | _ => Seq r1 r2 end.

Definition alt (r1 r2 : re) : re :=
  match r1, r2 with Void, _ => r2 | _, Void => r1 | _, _ => Alt r1 r2 end.

Fixpoint deriv (a : ascii) (r : re) : re :=
  match r with
  | Void | Eps => Void
  | Byte p => if p a then Eps else Void
  | Seq r1 r2 => if nullable r1 then alt (seq (deriv a r1) r2) (deriv a r2) else seq (deriv a r1) r2
  | Alt r1 r2 => alt (deriv a r1) (deriv a r2)
  | Star r1 => seq (deriv a r1) (Star r1)
  end.

(** [MatchString] of [^r$]. *)
Fixpoint MatchString (r : re) (s : string) : bool :=
  match s with
  | ""%string => nullable r
  | String a s' => MatchString (deriv a r) s'
  end.

(** Whether nothing is left to match. *)
Definition isVoid (r : re) : bool := match r with Void => true | _ => false end.

(** The longest prefix of [s] that [r] matches. *)
Fixpoint longest (r : re) (s : string) : option string :=
  let here := if nullable r then Some ""%string else None in
  match s with
  | ""%string => here
  | String a s' =>
      if isVoid (deriv a r) then here
      else match longest (deriv a r) s' with
           | Some t => Some (String a t)
           | None => here
           end
  end.

(** [FindString]: the leftmost match, [None] when there is none. *)
Fixpoint FindString (r : re) (s : string) : option string :=
  match longest r s with
  | Some t => Some t
  | None => match s with ""%string => None | String _ s' => FindString r s' end
  end.

(** ** Notation of patterns *)

Definition lit (c : ascii) : re := Byte (Ascii.eqb c).
Definition oneOf (s : string) : re := Byte (fun a => existsb (Ascii.eqb a) (String.list_ascii_of_string s)).
Fixpoint text (s : string) : re :=
  match s with ""%string => Eps | String c s' => Seq (lit c) (text s') end.
Definition opt (r : re) : re := Alt r Eps.
Definition plus (r : re) : re := Seq r (Star r).

Definition isLower (a : ascii) : bool := ascii_between "a" "z" a.
Definition isUpper (a : ascii) : bool := ascii_between "A" "Z" a.
(** [[a-z0-9]+] and [\d+]. *)
Definition alnums : re := plus (Byte (fun a => isLower a || is_digit a)).
Definition digits : re := plus (Byte is_digit).

(** ** What is matched *)

Inductive lang : re -> string -> Prop :=
| lang_eps : lang Eps ""
| lang_byte p a : p a = true -> lang (Byte p) (String a "")
| lang_seq r1 r2 s t : lang r1 s -> lang r2 t -> lang (Seq r1 r2) (s +:+ t)
| lang_alt_l r1 r2 s : lang r1 s -> lang (Alt r1 r2) s
| lang_alt_r r1 r2 s : lang r2 s -> lang (Alt r1 r2) s
| lang_star_nil r : lang (Star r) ""
| lang_star_cons r s t : lang r s -> lang (Star r) t -> lang (Star r) (s +:+ t).

Lemma nullable_lang r : nullable r = true <-> lang r "".
Proof.
  split.
  - induction r; cbn; intros Hn; try done; [constructor| | |constructor].
    + apply andb_true_iff in Hn as [H1 H2]. apply (lang_seq _ _ "" ""); auto.
    + apply orb_true_iff in Hn as [H1|H2]; [apply lang_alt_l|apply lang_alt_r]; auto.
  - remember ""%string as s eqn:Es. induction 1; cbn; try done.
    + destruct s; [|discriminate Es]. change (t = "")%string in Es. rewrite IHlang1, IHlang2; done.
    + rewrite IHlang; done.
    + rewrite IHlang by done. apply orb_true_r.
Qed.

Lemma lang_seq_inv r1 r2 s : lang (Seq r1 r2) s <-> exists t u, s = t +:+ u /\ lang r1 t /\ lang r2 u.
Proof. split; [inversion 1; eauto|]. intros (t & u & -> & H1 & H2). by constructor. Qed.

Lemma lang_alt_inv r1 r2 s : lang (Alt r1 r2) s <-> lang r1 s \/ lang r2 s.
Proof. split; [inversion 1; eauto|]. intros [H|H]; [by apply lang_alt_l|by apply lang_alt_r]. Qed.

Lemma lang_void s : ~ lang Void s.
Proof. inversion 1. Qed.

Lemma lang_eps_inv s : lang Eps s <-> s = ""%string.
Proof. split; [by inversion 1|intros ->; constructor]. Qed.

Lemma lang_seq_smart r1 r2 s : lang (seq r1 r2) s <-> lang (Seq r1 r2) s.
Proof.
  rewrite lang_seq_inv. destruct r1; cbn [seq]; try (rewrite lang_seq_inv; done).
  - split; [by intros ?%lang_void|by intros (? & ? & _ & ?%lang_void & _)].
  - split; [intros Hs; exists ""%string, s; split_and!; [done|constructor|done]|].
    intros (t & u & -> & ->%lang_eps_inv & Hu). done.
Qed.

Lemma lang_alt_smart r1 r2 s : lang (alt r1 r2) s <-> lang (Alt r1 r2) s.
Proof.
  rewrite lang_alt_inv. pose proof (lang_void s).
  destruct r1, r2; cbn [alt]; try (rewrite lang_alt_inv; done); naive_solver.
Qed.

(** A star that matches a byte takes it with a match of its body. *)
Lemma lang_star_cons_inv r a s :
  lang (Star r) (String a s) -> exists t u, s = t +:+ u /\ lang r (String a t) /\ lang (Star r) u.
Proof.
  remember (Star r) as q eqn:Eq. remember (String a s) as w eqn:Ew. intros Hl. revert Eq s Ew.
  induction Hl; intros Eq w Ew; try discriminate.
  simplify_eq. destruct s as [|b s].
  - by apply IHHl2.
  - change (String b (s +:+ t) = String a w) in Ew. injection Ew as -> <-. eauto.
Qed.

Lemma deriv_lang a r s : lang (deriv a r) s <-> lang r (String a s).
Proof.
  revert s. induction r as [| |p|r1 IH1 r2 IH2|r1 IH1 r2 IH2|r IH]; intros s; cbn [deriv].
  - split; intros ?%lang_void; done.
  - split; [by intros ?%lang_void|]. rewrite lang_eps_inv. done.
  - destruct (p a) eqn:Ep; split; try (by intros ?%lang_void).
    + intros ->%lang_eps_inv. by constructor.
    + inversion 1. constructor.
    + inversion 1. congruence.
  - assert (Hs : lang (Seq r1 r2) (String a s) <->
                 lang (seq (deriv a r1) r2) s \/ (lang r1 "" /\ lang r2 (String a s))).
    { rewrite lang_seq_smart, !lang_seq_inv. split.
      - intros ([|b t] & u & E & H1 & H2); [right; change (String a s = u) in E; by subst u|].
        change (String a s = String b (t +:+ u)) in E.
        injection E as <- ->. left. exists t, u. by rewrite IH1.
      - intros [(t & u & -> & H1 & H2)|[H1 H2]]; [|by exists ""%string, (String a s)].
        exists (String a t), u. by rewrite <- IH1. }
    rewrite Hs, <- nullable_lang. destruct (nullable r1).
    + rewrite lang_alt_smart, lang_alt_inv, IH2. naive_solver.
    + naive_solver.
  - by rewrite lang_alt_smart, !lang_alt_inv, IH1, IH2.
  - rewrite lang_seq_smart, lang_seq_inv. split.
    + intros (t & u & -> & H1%IH & H2). apply (lang_star_cons r (String a t) u H1 H2).
    + intros (t & u & -> & H1 & H2)%lang_star_cons_inv. exists t, u. by rewrite IH.
Qed.

(** The matcher decides the language. *)
Lemma MatchString_lang r s : MatchString r s = true <-> lang r s.
Proof.
  revert r. induction s as [|a s IH]; intros r; cbn [MatchString].
  - apply nullable_lang.
  - by rewrite IH, deriv_lang.
Qed.

Lemma longest_lang r s t : longest r s = Some t -> lang r t /\ exists u, s = t +:+ u.
Proof.
  revert r t. induction s as [|a s IH]; intros r t; cbn [longest].
  - destruct (nullable r) eqn:En; [|done]. intros [= <-]. apply nullable_lang in En. eauto.
  - assert (Hh : (if nullable r then Some ""%string else None) = Some t -> lang r t /\ exists u, String a s = t +:+ u).
    { destruct (nullable r) eqn:En; [|done]. intros [= <-]. apply nullable_lang in En. eauto. }
    destruct (isVoid (deriv a r)); [done|]. destruct (longest (deriv a r) s) as [t'|] eqn:El; [|done].
    intros [= <-]. apply IH in El as [Hl [u ->]]. split; [by apply deriv_lang|]. by exists u.
Qed.

(** Nothing longer is matched. *)
Lemma longest_max r s t u : lang r t -> s = t +:+ u -> exists t', longest r s = Some t' /\ (String.length t <= String.length t')%nat.
Proof.
  revert r t u. induction s as [|a s IH]; intros r t u Hl E; cbn [longest].
  - destruct t; [|discriminate E]. apply nullable_lang in Hl. rewrite Hl. by exists ""%string.
  - destruct t as [|b t].
    + apply nullable_lang in Hl. rewrite Hl. destruct (isVoid (deriv a r)); [by exists ""%string|].
      destruct (longest (deriv a r) s) as [t'|]; eexists; (split; [reflexivity|cbn; lia]).
    + change (String a s = String b (t +:+ u)) in E. injection E as <- E. apply deriv_lang in Hl. destruct (IH _ _ _ Hl E) as (t' & -> & Hle).
      destruct (deriv a r) eqn:Ed; [by apply lang_void in Hl|..]; cbn [isVoid];
        exists (String a t'); (split; [done|cbn; lia]).
Qed.

Lemma FindString_lang r s t : FindString r s = Some t -> lang r t /\ exists p u, s = p +:+ t +:+ u.
Proof.
  induction s as [|a s IH]; cbn [FindString].
  - destruct (longest r "") as [t'|] eqn:El; [|done]. intros [= <-]. apply longest_lang in El as [? [u E]].
    split; [done|]. by exists ""%string, u.
  - destruct (longest r (String a s)) as [t'|] eqn:El.
    + intros [= <-]. apply longest_lang in El as [? [u E]]. split; [done|]. by exists ""%string, u.
    + intros [Hl (p & u & ->)]%IH. split; [done|]. by exists (String a p), u.
Qed.

Lemma FindString_None r s : FindString r s = None -> forall p t u, s = p +:+ t +:+ u -> ~ lang r t.
Proof.
  induction s as [|a s IH]; cbn [FindString]; intros Hn p t u E Hl.
  - destruct p; [|discriminate E]. destruct (longest_max _ _ _ _ Hl E) as (t' & Hl' & _). by rewrite Hl' in Hn.
  - destruct (longest r (String a s)) eqn:El; [done|]. destruct p as [|b p].
    + destruct (longest_max _ _ _ _ Hl E) as (t' & Hl' & _). by rewrite Hl' in El.
    + change (String a s = String b (p +:+ t +:+ u)) in E. injection E as <- E. by apply (IH Hn p t u).
Qed.

(** Every byte of a match passed one of the pattern's tests. *)
Fixpoint bytesOf (r : re) (a : ascii) : bool :=
  match r with
  | Void | Eps => false
  | Byte p => p a
  | Seq r1 r2 | Alt r1 r2 => bytesOf r1 a || bytesOf r2 a
  | Star r1 => bytesOf r1 a
  end.

Lemma all_bytes_mono (P Q : ascii -> Prop) s : (forall a, P a -> Q a) -> all_bytes P s -> all_bytes Q s.
Proof. intros HPQ. induction s; cbn; naive_solver. Qed.

Lemma lang_bytes r s : lang r s -> all_bytes (fun a => bytesOf r a = true) s.
Proof.
  induction 1; cbn; try done.
  - apply all_bytes_app. split; eapply all_bytes_mono; eauto; cbn; intros a ->; [done|apply orb_true_r].
  - eapply all_bytes_mono; [|exact IHlang]. cbn. by intros a ->.
  - eapply all_bytes_mono; [|exact IHlang]. cbn. intros a ->. apply orb_true_r.
  - by apply all_bytes_app.
Qed.
