(* ===== verification/Registry.v ===== *)
(** * The add-on registry's rules: registry/validate.go, claims.go,
    providers.go, extra.go, load.go, support.go

    What an entry must hold to be loaded, which images its matchers claim,
    and when two entries claim one image. An error is a value naming what it
    is about ([violation]); its wording is left out. Reading a directory and
    decoding YAML are arguments of [loadFS], and [url.Parse] is a class. *)

From stdpp Require Import base list strings gmap.
From Stdlib Require Import ZArith Lia Ascii Floats.SpecFloat.
From S2P Require Import Prelude GoStr GoTime GoNet GoRegexp Glob Version Inventory KB.

(** ** Provider builds *)

Definition ProviderBuildPrefixes : list string := ["gke.gcr.io/"; "gcr.io/gke-release/"; "mcr.microsoft.com/"]%string.

Definition IsProviderBuild (repo : string) : bool :=
  existsb (fun p => HasPrefix repo p || Contains repo ("/" +:+ p)) ProviderBuildPrefixes.

(** ** Matchers and what they claim *)

Definition AnyPrefix : string := "*/".

Definition PathMatches (path matcher : string) : bool :=
  match CutPrefix matcher AnyPrefix with
  | Some name => (path =s name) || HasSuffix path ("/" +:+ name)
  | None =>
      if negb (Contains matcher "/") then path =s matcher
      else (path =s matcher) || HasSuffix path ("/" +:+ matcher)
  end.

Definition SplitTagPattern (matcher : string) : string * string :=
  let '(path, tagPattern, _) := Cut matcher ":" in (path, tagPattern).

Definition TagMatches (tag pattern : string) : bool :=
  if tag =s "" then false else match Match pattern tag with Some ok => ok | None => false end.

Definition claimsOverlap (a b : string) (tagsAhead : bool) : bool :=
  let '(a, ta) := SplitTagPattern a in
  let '(b, tb) := SplitTagPattern b in
  if negb (Bool.eqb (IsProviderBuild a) (IsProviderBuild b)) || (tagsAhead && negb (Bool.eqb (ta =s "") (tb =s ""))) then false
  else PathMatches a b || PathMatches b a.

Definition matchersOverlap (a b : string) : bool := claimsOverlap a b true.

(** The image matchers of an entry ([imageClaims] of package registry). *)
Definition entryClaims (a : AddOn) : list string := m_Images (a_Matchers a) ++ map ci_Image (m_Components (a_Matchers a)).

(** ** Conflicts *)

Inductive conflict :=
| ImageConflict (a ma b mb fix_ : string)
| ChartConflict (a b chart fix_ : string)
| LabelConflict (id other : string).

Definition defaultFix : string := "replace the embedded entry by using its id".

(** One pair of entries. [blessed] and [hint] as in the source, [None] a nil
    function. *)
Definition pairConflicts (blessed : option (AddOn -> string -> bool)) (hint : option (AddOn -> AddOn -> string -> string)) (a b : AddOn) : list conflict :=
  let fix_ claim :=
    match hint with
    | Some h => let t := h a b claim in if negb (t =s "") then t else defaultFix
    | None => defaultFix
    end in
  let tagsAhead ma mb := match blessed with None => true | Some bl => bl a ma && bl b mb end in
  flat_map (fun ma => omap (fun mb =>
    if claimsOverlap ma mb (tagsAhead ma mb) then Some (ImageConflict (a_ID a) ma (a_ID b) mb (fix_ "image"%string)) else None)
    (entryClaims b)) (entryClaims a) ++
  flat_map (fun ca => omap (fun cb =>
    if ca =s cb then Some (ChartConflict (a_ID a) (a_ID b) ca (fix_ "chart"%string)) else None)
    (m_Charts (a_Matchers b))) (m_Charts (a_Matchers a)) ++
  omap (fun '(x, y) => if mem_str (a_ID x) (m_Charts (a_Matchers y)) then Some (LabelConflict (a_ID x) (a_ID y)) else None)
    [(a, b); (b, a)].

Fixpoint claimConflicts (blessed : option (AddOn -> string -> bool)) (hint : option (AddOn -> AddOn -> string -> string)) (addons : list AddOn) : list conflict :=
  match addons with
  | [] => []
  | a :: rest => flat_map (pairConflicts blessed hint a) rest ++ claimConflicts blessed hint rest
  end.

Definition ClaimConflicts (addons : list AddOn) : list conflict := claimConflicts None None addons.

(** [Merge]; [slices.SortFunc] by the id, which [loadFS] keeps distinct. *)
Definition Merge (base extra : list AddOn) : list AddOn :=
  isort (fun a b => String.leb (a_ID a) (a_ID b))
    (List.filter (fun a => negb (existsb (fun e => a_ID e =s a_ID a) extra)) base ++ extra).

Definition sameRepository (current mine : list string) : list string :=
  List.filter (fun c => existsb (fun m =>
    let cp := (SplitTagPattern c).1 in let mp := (SplitTagPattern m).1 in PathMatches cp mp || PathMatches mp cp) mine) current.

Definition quoteAll (ss : list string) : string := Join (map quote ss) ", ".

(** The entry a map filled from a list holds under an id: the last one. *)
Definition entryOf (l : list AddOn) (id : string) : option AddOn := find (fun a => a_ID a =s id) (reverse l).

Definition blessedMatcher (base extra : list AddOn) (owner : AddOn) (matcher : string) : bool :=
  if negb (existsb (fun e => a_ID e =s a_ID owner) extra) then true
  else match entryOf base (a_ID owner) with
       | Some old => mem_str matcher (entryClaims old)
       | None => false
       end.

Definition mergeHint (base extra : list AddOn) (a b : AddOn) (claim : string) : string :=
  let isExtra x := existsb (fun e => a_ID e =s a_ID x) extra in
  let '(mine, other) := if negb (isExtra a) then (b, a) else (a, b) in
  if negb (isExtra mine) || isExtra other then ""
  else match entryOf base (a_ID mine) with
       | None => ""
       | Some old =>
           let hint := "your " +:+ a_ID mine +:+ " replaces the embedded entry of that id, and the embedded registry now claims this " +:+ claim +:+ " under " +:+ a_ID other in
           let now := sameRepository (entryClaims old) (entryClaims mine) in
           let hint := if (claim =s "image") && (0 <? zlen now)
                       then hint +:+ ", and the embedded " +:+ a_ID mine +:+ " claims " +:+ quoteAll now +:+ " instead" else hint in
           hint +:+ ": if your file is a copy of registry/data/" +:+ a_ID mine +:+
             ".yaml from an earlier release, copy the current one again and re-apply your edits; otherwise replace " +:+ a_ID other +:+ " too, by using its id"
       end.

Definition MergeConflicts (base extra : list AddOn) : list conflict :=
  claimConflicts (Some (blessedMatcher base extra)) (Some (mergeHint base extra)) (Merge base extra).

(** ** Patterns *)

Definition idPattern : re := Seq alnums (Star (Seq (lit "-") alnums)).
Definition runtimePattern : re := idPattern.
Definition k8sVerPattern : re := Seq digits (Seq (lit ".") digits).
Definition cyclePattern : re := Seq digits (Star (Seq (lit ".") digits)).
Definition eolSlugPattern : re := Seq alnums (Star (Seq (oneOf ".-") alnums)).
Definition pathSegmentPattern : re :=
  Seq alnums (Star (Seq (Alt (oneOf "._") (Alt (text "__") (plus (lit "-")))) alnums)).
Definition tagPatternPattern : re := plus (Byte (fun a => isUpper a || isLower a || is_digit a || existsb (Ascii.eqb a) ["_"; "."; "*"; "-"]%char)).

Definition genericImageNames : list string :=
  ["controller"; "operator"; "server"; "agent"; "proxy"; "manager"; "webhook"; "api"; "app"; "backend"; "frontend"; "web";
   "ui"; "worker"; "core"; "node"; "cli"; "client"; "daemon"; "exporter"; "gateway"; "service"; "sidecar"; "init"; "job";
   "runner"; "scheduler"; "metrics"]%string.

(** ** Matchers of an entry *)

Inductive matcherError := TagOrDigest | TagNotPattern | BadTagPattern | AnyPrefixTag | AnyPrefixPath | HostNamed | BadPath | GenericName.

(** [strings.ContainsAny]. *)
Fixpoint ContainsAny (s chars : string) : bool :=
  match s with
  | ""%string => false
  | String a s' => existsb (Ascii.eqb a) (String.list_ascii_of_string chars) || ContainsAny s' chars
  end.

(** [strings.Trim(s, cutset) == ""]. *)
Definition allIn (s cutset : string) : bool :=
  forallb (fun a => existsb (Ascii.eqb a) (String.list_ascii_of_string cutset)) (String.list_ascii_of_string s).

Definition validateTagPattern (p : string) : option matcherError :=
  if negb (Contains p "*") then Some TagNotPattern
  else if negb (MatchString tagPatternPattern p) || allIn p "*" then Some BadTagPattern else None.

Definition validateAnyPrefixMatcher (name : string) : option matcherError :=
  if Contains name "/" then Some AnyPrefixPath
  else if negb (MatchString pathSegmentPattern name) then Some BadPath
  else if mem_str name genericImageNames then Some GenericName else None.

Definition validateImageMatcher (m : string) : option matcherError :=
  if Contains m "@" then Some TagOrDigest else
  let '(m, pattern, tagged) := Cut m ":" in
  match (if tagged then match validateTagPattern pattern with
                        | Some e => Some e
                        | None => if HasPrefix m AnyPrefix then Some AnyPrefixTag else None
                        end else None) with
  | Some e => Some e
  | None =>
      match CutPrefix m AnyPrefix with
      | Some name => validateAnyPrefixMatcher name
      | None =>
          let path := match find (HasPrefix m) ProviderBuildPrefixes with Some p => TrimPrefix m p | None => m end in
          let segs := Split path "/" in
          if (1 <? zlen segs) && (ContainsAny (hd ""%string segs) ".:" || (hd ""%string segs =s "localhost")) then Some HostNamed
          else if forallb (MatchString pathSegmentPattern) segs then None else Some BadPath
      end
  end.

(** ** Citations *)

(** [url.Parse]: the scheme, [Host] and [Hostname()] of a URL. *)
Record URL := mkURL { url_Scheme : string; url_Host : string; url_Hostname : string }.
Class URLParser := { urlParse : string -> res URL }.

Inductive citationError := NotURL (msg : string) | BadScheme (scheme : string) | NoHost | ReservedHost (host : string).

Definition reservedHost (host : string) : bool :=
  let host := TrimSuffix (ToLower host) "." in
  match ParseAddr host with
  | Some _ => true
  | None =>
      if negb (Contains host ".") then true
      else if (match cut_last host "." with Some (_, last) => allIn last "0123456789" | None => false end) then true
      else if existsb (fun tld => HasSuffix host ("." +:+ tld))
                ["test"; "example"; "invalid"; "localhost"; "local"; "internal"; "lan"; "localdomain"; "home.arpa"]%string then true
      else existsb (fun name => (host =s name) || HasSuffix host ("." +:+ name)) ["example.com"; "example.org"; "example.net"]%string
  end.

Definition validateCitationURL `{URLParser} (s : string) : option citationError :=
  match urlParse s with
  | Err e => Some (NotURL e)
  | Ok u =>
      if negb (url_Scheme u =s "http") && negb (url_Scheme u =s "https") then Some (BadScheme (url_Scheme u))
      else if url_Host u =s "" then Some NoHost
      else if reservedHost (url_Hostname u) then Some (ReservedHost (url_Hostname u)) else None
  end.

(** ** Entries *)

(** Where an error is: the entry, a row of its cycles, compatibility rows or
    components, or the pricing. *)
Inductive place := Entry (id : string) | CycleAt (i : nat) | CompatAt (i : nat) | ComponentAt (i : nat) | VersionAt (i : nat) | PricingAt.

Inductive violation :=
| BadSchemaVersion (got : Z)
| NoID | BadID (id : string)
| NoMatcher
| BadImage (m : string) (e : matcherError)
| ComponentTagged (i : nat) | ComponentImageBad (i : nat) (e : matcherError) | ComponentAlsoImage (i : nat) (m : string)
| NoLines (i : nat) | BadComponentLine (i j : nat) (c : string) | DuplicateLine (i j : nat) (c : string) | BadProductLine (i j : nat) (p : string)
| BadRuntime (r : string)
| BadStatus (s : string) | NoCitationFor (status : string)
| BadCitation (at_ : place) (u : string) (e : citationError) | NoCitation (at_ : place)
| BadSlug (s : string)
| DateOfUnknown | BadDate (at_ : place) (d : string)
| ExtendedHalf | ExtendedStatus (s : string) | NotBareClause (c : string) | ExtendedWithoutEnd | ExtendedNotLater (ext end_ : string)
| BadCycle (i : nat) (c : string) | DuplicateCycle (i : nat) (c : string) | NoEOL (i : nat)
| BadMin (at_ : place) (v : string) | BadMax (at_ : place) (v : string) | MinAboveMax (at_ : place) (mn mx : string)
| BadRange (i : nat) (r : string) | NoBound (i : nat)
| BadProviderID (id : string) | NoVersion | BadMinor (i : nat) | DuplicateMinor (i : nat) (m : string)
| BadCurrency (c : string) | StandardNotPositive | ExtendedNotMore.

Definition when (b : bool) (v : violation) : list violation := if b then [v] else [].
Definition whenSome {A} (o : option A) (f : A -> violation) : list violation := match o with Some a => [f a] | None => [] end.

(** [strconv.Atoi] of digits, the value its error path returns included. *)
Definition atoiDigits (s : string) : Z := Z.min maxInt (digits_val 0 s).

Definition splitK8sVer (s : string) : Z * Z :=
  let '(maj, min_, _) := Cut s "." in (atoiDigits maj, atoiDigits min_).

Definition compareK8sVer (a b : string) : Z :=
  let '(amaj, amin) := splitK8sVer a in
  let '(bmaj, bmin) := splitK8sVer b in
  if negb (amaj =? bmaj) then cmpZ amaj bmaj else cmpZ amin bmin.

Definition validateK8sBounds (at_ : place) (k8sMin k8sMax : string) : list violation :=
  let minOK := (k8sMin =s "") || MatchString k8sVerPattern k8sMin in
  let maxOK := (k8sMax =s "") || MatchString k8sVerPattern k8sMax in
  when (negb minOK) (BadMin at_ k8sMin) ++
  when (negb maxOK) (BadMax at_ k8sMax) ++
  when (minOK && maxOK && negb (k8sMin =s "") && negb (k8sMax =s "") && (0 <? compareK8sVer k8sMin k8sMax)) (MinAboveMax at_ k8sMin k8sMax).

(** [bareClause]. *)
Definition bareClause (c : string) : bool :=
  let low := ToLower c in
  (c =s TrimSpace c) && negb (HasSuffix c ".") && negb (HasPrefix low "if ") && negb (HasPrefix low "only if ").

Definition validateExtendedSupport (id : string) (s : Support) : list violation :=
  let at_ := Entry id in
  if (s_ExtendedEOLDate s =s "") && (s_ExtendedSupportCondition s =s "") then []
  else
    when ((s_ExtendedEOLDate s =s "") || (s_ExtendedSupportCondition s =s "")) ExtendedHalf ++
    when (negb (s_Status s =s "supported")) (ExtendedStatus (s_Status s)) ++
    when (negb (s_ExtendedSupportCondition s =s "") && negb (bareClause (s_ExtendedSupportCondition s))) (NotBareClause (s_ExtendedSupportCondition s)) ++
    if s_ExtendedEOLDate s =s "" then []
    else match ParseDate (s_ExtendedEOLDate s) with
         | None => [BadDate at_ (s_ExtendedEOLDate s)]
         | Some ext =>
             if s_EOLDate s =s "" then [ExtendedWithoutEnd]
             else match ParseDate (s_EOLDate s) with
                  | Some end_ => when (negb (After ext end_)) (ExtendedNotLater (s_ExtendedEOLDate s) (s_EOLDate s))
                  | None => []
                  end
         end.

(** What a loop over rows with a set of the values seen reports: row by
    row, with its index and whether its value was seen before. *)
Fixpoint rowsSeen {A} (key : A -> string) (f : nat -> A -> bool -> list violation) (i : nat) (seen : list string) (rows : list A) : list violation :=
  match rows with
  | [] => []
  | r :: rest => f i r (mem_str (key r) seen) ++ rowsSeen key f (S i) (key r :: seen) rest
  end.

Section Validate.
Context `{Semver} `{URLParser}.

Definition validateCitations (at_ : place) (citations : list string) : list violation :=
  if zlen citations =? 0 then [NoCitation at_]
  else flat_map (fun u => whenSome (validateCitationURL u) (BadCitation at_ u)) citations.

Definition validateComponent (i : nat) (c : ComponentImage) (images : list string) : list violation :=
  (if ContainsAny (ci_Image c) ":@" || HasPrefix (ci_Image c) AnyPrefix then [ComponentTagged i]
   else whenSome (validateImageMatcher (ci_Image c)) (ComponentImageBad i)) ++
  flat_map (fun m => when (matchersOverlap m (ci_Image c)) (ComponentAlsoImage i m)) images ++
  when (zlen (ci_Lines c) =? 0) (NoLines i) ++
  rowsSeen l_Component (fun j l dup =>
      (if negb (MatchString k8sVerPattern (l_Component l)) then [BadComponentLine i j (l_Component l)]
       else when dup (DuplicateLine i j (l_Component l))) ++
      when (negb (MatchString cyclePattern (l_Product l))) (BadProductLine i j (l_Product l)))
    0 [] (ci_Lines c) ++
  validateCitations (ComponentAt i) (ci_Citations c).

Definition validateCycle (i : nat) (c : Cycle) (dup : bool) : list violation :=
  (if negb (MatchString cyclePattern (cy_Cycle c)) then [BadCycle i (cy_Cycle c)] else when dup (DuplicateCycle i (cy_Cycle c))) ++
  match cy_EOL c with
  | None => [NoEOL i]
  | Some e => when (negb (eol_Date e =s "") && bool_decide (ParseDate (eol_Date e) = None)) (BadDate (CycleAt i) (eol_Date e))
  end ++
  validateK8sBounds (CycleAt i) (cy_K8sMin c) (cy_K8sMax c) ++
  validateCitations (CycleAt i) (cy_Citations c).

Definition validateCompat (i : nat) (c : Compat) : list violation :=
  match NewConstraint (co_Range c) with None => [BadRange i (co_Range c)] | Some _ => [] end ++
  when ((co_K8sMin c =s "") && (co_K8sMax c =s "")) (NoBound i) ++
  validateK8sBounds (CompatAt i) (co_K8sMin c) (co_K8sMax c) ++
  validateCitations (CompatAt i) (co_Citations c).

Definition SchemaVersion : Z := 2.

Definition Validate (a : AddOn) : list violation :=
  let m := a_Matchers a in
  let s := a_Support a in
  when (negb (a_SchemaVersion a =? SchemaVersion)) (BadSchemaVersion (a_SchemaVersion a)) ++
  (if a_ID a =s "" then [NoID] else when (negb (MatchString idPattern (a_ID a))) (BadID (a_ID a))) ++
  when ((zlen (m_Images m) =? 0) && (zlen (m_Charts m) =? 0) && (zlen (m_Runtimes m) =? 0) && (zlen (m_Components m) =? 0)) NoMatcher ++
  flat_map (fun i => whenSome (validateImageMatcher i) (BadImage i)) (m_Images m) ++
  concat (imap (fun i c => validateComponent i c (m_Images m)) (m_Components m)) ++
  flat_map (fun r => when (negb (MatchString runtimePattern r)) (BadRuntime r)) (m_Runtimes m) ++
  when (negb (mem_str (s_Status s) ["supported"; "eol"; "unknown"]%string)) (BadStatus (s_Status s)) ++
  when (negb (s_Status s =s "unknown") && (zlen (s_Citations s) =? 0)) (NoCitationFor (s_Status s)) ++
  flat_map (fun c => whenSome (validateCitationURL c) (BadCitation (Entry (a_ID a)) c)) (s_Citations s) ++
  when (negb (a_EndoflifeProduct a =s "") && negb (MatchString eolSlugPattern (a_EndoflifeProduct a))) (BadSlug (a_EndoflifeProduct a)) ++
  when (negb (s_EOLDate s =s "") && (s_Status s =s "unknown")) DateOfUnknown ++
  when (negb (s_EOLDate s =s "") && bool_decide (ParseDate (s_EOLDate s) = None)) (BadDate (Entry (a_ID a)) (s_EOLDate s)) ++
  validateExtendedSupport (a_ID a) s ++
  rowsSeen cy_Cycle validateCycle 0 [] (a_Cycles a) ++
  concat (imap validateCompat (a_Compat a)).

(** ** Managed providers *)

Definition ProviderSchemaVersion : Z := 1.
Definition ProviderIDs : list string := ["eks"; "gke"; "aks"]%string.

Definition validatePricing (pr : Pricing) : list violation :=
  when (negb (pr_Currency pr =s "USD")) (BadCurrency (pr_Currency pr)) ++
  when (SFleb (pr_StandardPerClusterHour pr) (S754_zero false)) StandardNotPositive ++
  when (SFleb (pr_ExtendedPerClusterHour pr) (pr_StandardPerClusterHour pr)) ExtendedNotMore ++
  when (bool_decide (ParseDate (pr_AsOf pr) = None)) (BadDate PricingAt (pr_AsOf pr)) ++
  validateCitations PricingAt (pr_Citations pr).

Definition validateWindow (i : nat) (w : SupportWindow) (dup : bool) : list violation :=
  (if negb (MatchString k8sVerPattern (w_Minor w)) then [BadMinor i] else when dup (DuplicateMinor i (w_Minor w))) ++
  when (bool_decide (ParseDate (w_StandardEnd w) = None)) (BadDate (VersionAt i) (w_StandardEnd w)) ++
  if w_ExtendedEnd w =s "" then []
  else match ParseDate (w_ExtendedEnd w), ParseDate (w_StandardEnd w) with
       | None, _ => [BadDate (VersionAt i) (w_ExtendedEnd w)]
       | Some ext, Some std => when (negb (After ext std)) (ExtendedNotLater (w_ExtendedEnd w) (w_StandardEnd w))
       | Some _, None => []
       end.

Definition ValidateProvider (p : ProviderSupport) : list violation :=
  when (negb (p_SchemaVersion p =? ProviderSchemaVersion)) (BadSchemaVersion (p_SchemaVersion p)) ++
  when (negb (mem_str (p_ID p) ProviderIDs)) (BadProviderID (p_ID p)) ++
  when (negb (p_EndoflifeProduct p =s "") && negb (MatchString eolSlugPattern (p_EndoflifeProduct p))) (BadSlug (p_EndoflifeProduct p)) ++
  when (negb (p_ExtendedSupportCondition p =s "") && negb (bareClause (p_ExtendedSupportCondition p))) (NotBareClause (p_ExtendedSupportCondition p)) ++
  validateCitations (Entry (p_ID p)) (p_Citations p) ++
  when (zlen (p_Versions p) =? 0) NoVersion ++
  rowsSeen w_Minor validateWindow 0 [] (p_Versions p) ++
  match p_Pricing p with Some pr => validatePricing pr | None => [] end.

(** ** Loading *)

(** A directory entry, its contents read. *)
Record DirEntry := mkDirEntry { de_Name : string; de_IsDir : bool; de_Raw : res string }.

Inductive loadError :=
| ReadDirFailed (msg : string) | ReadFailed (name msg : string)
| YmlExtension (name : string) | ParseFailed (name msg : string) | IDNotFileName (name id stem : string)
| DuplicateID (id name prev : string) | Invalid (name : string) (v : violation).

(** One turn of the loop of [loadFS]; [inl] is an early return. [seen] holds
    the ids and the files that defined them. *)
Definition loadStep (decode : string -> res AddOn) (dir : string) (st : list AddOn * list loadError * list (string * string)) (e : DirEntry)
    : loadError + (list AddOn * list loadError * list (string * string)) :=
  let '(addons, errs, seen) := st in
  if de_IsDir e then inr st
  else if HasSuffix (de_Name e) ".yml" then inr (addons, errs ++ [YmlExtension (de_Name e)], seen)
  else if negb (HasSuffix (de_Name e) ".yaml") then inr st
  else
    let name := Join2 dir (de_Name e) in
    match de_Raw e with
    | Err m => inl (ReadFailed name m)
    | Ok raw =>
        match decode raw with
        | Err m => inr (addons, errs ++ [ParseFailed name m], seen)
        | Ok a =>
            let stem := TrimSuffix (de_Name e) ".yaml" in
            let errs := errs ++ (if negb (a_ID a =s stem) then [IDNotFileName name (a_ID a) stem] else []) in
            match find (fun p => p.1 =s a_ID a) seen with
            | Some p => inr (addons, errs ++ [DuplicateID (a_ID a) name p.2], seen)
            | None => inr (addons ++ [a], errs ++ map (Invalid name) (Validate a), (a_ID a, name) :: seen)
            end
        end
    end.

Fixpoint loadEntries (decode : string -> res AddOn) (dir : string) (st : list AddOn * list loadError * list (string * string)) (es : list DirEntry)
    : loadError + (list AddOn * list loadError * list (string * string)) :=
  match es with
  | [] => inr st
  | e :: rest => match loadStep decode dir st e with inl err => inl err | inr st' => loadEntries decode dir st' rest end
  end.

Definition loadFS (decode : string -> res AddOn) (dir : string) (entries : res (list DirEntry)) : list AddOn + list loadError :=
  match entries with
  | Err m => inr [ReadDirFailed m]
  | Ok es =>
      match loadEntries decode dir ([], [], []) es with
      | inl e => inr [e]
      | inr (addons, errs, _) =>
          match errs with
          | [] => inl (isort (fun a b => String.leb (a_ID a) (a_ID b)) addons)
          | _ => inr errs
          end
      end
  end.
End Validate.

Example generic_refused : validateImageMatcher "*/controller" = Some GenericName. Proof. reflexivity. Qed.
Example host_refused : validateImageMatcher "quay.io/cilium/cilium" = Some HostNamed. Proof. reflexivity. Qed.
Example provider_taken : validateImageMatcher "mcr.microsoft.com/oss/calico/node" = None. Proof. reflexivity. Qed.
Example tag_pattern_taken : validateImageMatcher "rancher/nginx-ingress-controller:*-hardened*" = None. Proof. reflexivity. Qed.
Example tag_pattern_matches : TagMatches "nginx-1.9.4-hardened1" "*-hardened*" = true. Proof. vm_compute. reflexivity. Qed.
Example mirror_matches : PathMatches "registry-k8s-io/ingress-nginx/controller" "ingress-nginx/controller" = true. Proof. reflexivity. Qed.
Example shorthand_reserved : reservedHost "127.1" = true. Proof. reflexivity. Qed.
Example segment_double_underscore : MatchString pathSegmentPattern "a__b-c.d" = true. Proof. reflexivity. Qed.
