(* ===== verification/Detect.v ===== *)
(** * Add-on detection: internal/collect/addons.go

    From what the pods, Helm releases, GitOps resources and IngressClasses
    of a cluster show to the add-ons it runs. The maps of [matchAddOns] are
    finite maps; the one whose iteration order could show, [byInstall], is
    read in an order of its own ([instancesIn]). [semver.NewVersion] and its
    ordering are classes. *)

From stdpp Require Import base list strings gmap.
From Stdlib Require Import ZArith Lia Ascii.
From S2P Require Import Prelude GoStr GoRegexp Version Inventory KB Registry.

(** [Version.LessThan] and [StrictNewVersion] of Masterminds/semver. *)
Class SemverOrder `{Semver} := {
  LessThan : SemVersion -> SemVersion -> bool;
  StrictNewVersion : string -> option SemVersion;
}.

(** ** Evidence *)

Record nsImage := mkNsImage { ni_Namespace : string; ni_Image : string }.

#[global] Instance nsImage_eq_dec : EqDecision nsImage.
Proof. solve_decision. Defined.

Record appLabels := mkAppLabels { al_chart : string; al_name : string; al_version : string; al_partOf : string }.

#[global] Instance appLabels_eq_dec : EqDecision appLabels.
Proof. solve_decision. Defined.

Definition noLabels : appLabels := mkAppLabels "" "" "" "".

(** A missing label reads as the empty string. *)
Definition label (labels : gmap string string) (k : string) : string := default ""%string (labels !! k).

Definition appLabelsOf (labels : gmap string string) : appLabels :=
  mkAppLabels (label labels "helm.sh/chart") (label labels "app.kubernetes.io/name")
    (label labels "app.kubernetes.io/version") (label labels "app.kubernetes.io/part-of").

Record labelledPod := mkLabelledPod { lp_Namespace : string; lp_Labels : appLabels; lp_Images : list string }.

Record addOnEvidence := mkEvidence {
  ev_images : list nsImage;
  ev_labelled : list labelledPod;
  ev_releases : list HelmRelease;
  ev_gitops : list GitOpsChart;
  ev_ingressControllers : list string;
}.

(** [addPod]. *)
Definition addPod (namespace : string) (labels : gmap string string) (images : list string) (ev : addOnEvidence) : addOnEvidence :=
  let l := appLabelsOf labels in
  mkEvidence (ev_images ev ++ map (mkNsImage namespace) images)
    (if bool_decide (l = noLabels) then ev_labelled ev else ev_labelled ev ++ [mkLabelledPod namespace l images])
    (ev_releases ev) (ev_gitops ev) (ev_ingressControllers ev).

(** ** Images *)

(** [splitImage]: the tag's colon comes after the last slash. *)
Definition splitImage (image : string) : string * string :=
  let image := (Cut image "@").1.1 in
  match cut_last image ":" with
  | Some (repo, tag) => if Contains tag "/" then (image, "") else (repo, tag)
  | None => (image, "")
  end%string.

Record imageRef := mkImageRef { ir_host : string; ir_path : string; ir_tag : string }.

Definition parseImage (image : string) : imageRef :=
  let '(repo, tag) := splitImage image in
  let '(host, path, ok) := Cut repo "/" in
  let '(host, path) :=
    if negb ok || (negb (ContainsAny host ".:") && negb (host =s "localhost")) then ("docker.io"%string, repo) else (host, path) in
  let host := if (host =s "index.docker.io") || (host =s "registry-1.docker.io") then "docker.io"%string else host in
  let path := if (host =s "docker.io") && negb (Contains path "/") then "library/" +:+ path else path in
  mkImageRef host path tag.

Definition fullPath (ref : imageRef) : string := ir_host ref +:+ "/" +:+ ir_path ref.

Definition imageMatches (ref : imageRef) (matcher : string) : bool :=
  let '(matcher, pattern) := SplitTagPattern matcher in
  if negb (pattern =s "") && negb (TagMatches (ir_tag ref) pattern) then false
  else if IsProviderBuild matcher then PathMatches (fullPath ref) matcher
  else negb (IsProviderBuild (fullPath ref)) && PathMatches (ir_path ref) matcher.

(** ** Versions *)

Definition versionRe : re :=
  Seq digits (Seq (lit ".") (Seq digits (Seq (opt (Seq (lit ".") digits))
    (opt (Seq (lit "-") (Seq (Alt (text "alpha") (Alt (text "beta") (text "rc"))) (Star (Seq (opt (lit ".")) digits)))))))).

Definition maxVersionBytes : Z := 128.

Definition versionFromTag (tag : string) : string :=
  let v := default ""%string (FindString versionRe tag) in
  if maxVersionBytes <? slen v then ""%string else v.

Definition releaseLine (v : string) : string :=
  let '(major, rest, _) := Cut v "." in
  let '(minor, _, _) := Cut rest "." in
  let '(minor, _, _) := Cut minor "-" in
  major +:+ "." +:+ minor.

(** [cmp.Or] of two strings. *)
Definition orStr (a b : string) : string := if a =s "" then b else a.

Section Detect.
Context `{SemverOrder}.

Definition versionLess (a b : string) : bool :=
  match NewVersion a, NewVersion b with
  | Some av, Some bv => LessThan av bv
  | _, _ => a <s b
  end.

Definition exactChartVersion (v : string) : string :=
  let v := TrimPrefix v "v" in
  if maxVersionBytes <? slen v then ""%string
  else match StrictNewVersion v with None => ""%string | Some _ => v end.

Definition olderVersion (cur v : string) : string :=
  if negb (v =s "") && ((cur =s "") || versionLess v cur) then v else cur.

(** ** Claims of an image *)

Record imageClaim := mkClaim { cl_id : string; cl_version : string; cl_byTag : bool }.

(** One entry's part of [imageClaims]: among the tag-qualified claims, the
    plain ones, or none. *)
Definition entryClaim (ref : imageRef) (tagVersion : string) (a : AddOn) : option (bool * imageClaim) :=
  let matched := List.filter (imageMatches ref) (m_Images (a_Matchers a)) in
  let patterned m := negb ((SplitTagPattern m).2 =s "") in
  if existsb patterned matched then Some (true, mkClaim (a_ID a) tagVersion true)
  else if existsb (negb ∘ patterned) matched then Some (false, mkClaim (a_ID a) tagVersion true)
  else match find (fun c => imageMatches ref (ci_Image c)) (m_Components (a_Matchers a)) with
       | Some c => Some (false, mkClaim (a_ID a) (ProductLine c tagVersion) false)
       | None => None
       end.

Definition imageClaims (ref : imageRef) (addons : list AddOn) : list imageClaim :=
  let claims := omap (entryClaim ref (versionFromTag (ir_tag ref))) addons in
  let tagged := omap (fun '(byTag, c) => if (byTag : bool) then Some c else None) claims in
  let plain := omap (fun '(byTag, c) => if (byTag : bool) then None else Some c) claims in
  if 0 <? zlen tagged then tagged else plain.

Definition untaggedClaim (ref : imageRef) (named : list imageClaim) (addons : list AddOn) : option imageClaim :=
  if negb (ir_tag ref =s "") then None
  else find (fun n =>
    match find (fun a => a_ID a =s cl_id n) addons with
    | Some a => existsb (fun m => let '(path, pattern) := SplitTagPattern m in negb (pattern =s "") && imageMatches ref path) (m_Images (a_Matchers a))
    | None => false
    end) named.

Definition imageAddOns (ref : imageRef) (addons : list AddOn) : list string := map cl_id (imageClaims ref addons).

(** ** Labels *)

(** Where the chart version starts: the first byte of the first match of
    [-v?\d+(\.\d+)*([-_.+]|$)]. *)
Definition chartVersionBody : re := Seq (lit "-") (Seq (opt (lit "v")) (Seq digits (Star (Seq (lit ".") digits)))).

Definition chartVersionAt (s : string) : bool :=
  match longest (Seq chartVersionBody (oneOf "-_.+")) s with
  | Some _ => true
  | None => MatchString chartVersionBody s
  end.

Fixpoint beforeChartVersion (s : string) : option string :=
  if chartVersionAt s then Some ""%string
  else match s with
       | ""%string => None
       | String a s' => String a <$> beforeChartVersion s'
       end.

(** [chartName]: empty also when the match is at the start. *)
Definition chartName (lbl : string) : string := default ""%string (beforeChartVersion lbl).

Definition namesAddOn (a : AddOn) (v : string) : bool :=
  negb (v =s "") && ((v =s a_ID a) || mem_str v (m_Charts (a_Matchers a))).

Definition labelAddOn (l : appLabels) (addons : list AddOn) : string * string :=
  let chart := chartName (al_chart l) in
  match find (fun '(lbl, a) => namesAddOn a lbl) (flat_map (fun lbl => map (pair lbl) addons) [al_name l; chart; al_partOf l]) with
  | Some (_, a) =>
      (a_ID a, if namesAddOn a (al_name l) || ((al_name l =s "") && namesAddOn a chart) then versionFromTag (al_version l) else "")
  | None => ("", "")
  end%string.

Definition vendorBuilds (id : string) : list string :=
  if id =s "ingress-nginx" then ["rke2-ingress-nginx"; "aks-app-routing-nginx"]%string else [].

Definition ingressClassAddOns (controller : string) : list string :=
  if controller =s "k8s.io/ingress-nginx" then ["ingress-nginx"; "rke2-ingress-nginx"; "aks-app-routing-nginx"; "traefik"]%string else [].

(** ** Installs *)

Record evidence := mkOne { e_source : string; e_version : string; e_chart : string }.

Abbreviation install := (string * string)%type (only parsing).

(** The claims the labels of an image's pods make, in order. *)
Definition labelNamed (ev : addOnEvidence) (addons : list AddOn) (img : nsImage) : list imageClaim :=
  flat_map (fun p =>
    let '(id, version) := labelAddOn (lp_Labels p) addons in
    if id =s "" then []
    else omap (fun i => if bool_decide (mkNsImage (lp_Namespace p) i = img) then Some (mkClaim id version true) else None) (lp_Images p))
  (ev_labelled ev).

(** The oldest version they give one add-on. *)
Definition labelVersion (ev : addOnEvidence) (addons : list AddOn) (img : nsImage) (id : string) : string :=
  foldl olderVersion ""%string (map cl_version (List.filter (fun c => cl_id c =s id) (labelNamed ev addons img))).

Definition releaseNamed (ev : addOnEvidence) (addons : list AddOn) (ns : string) : list imageClaim :=
  flat_map (fun rel =>
    if h_Namespace rel =s ns
    then omap (fun a => if mem_str (h_ChartName rel) (m_Charts (a_Matchers a)) then Some (mkClaim (a_ID a) "" true) else None) addons
    else []) (ev_releases ev).

(** The settled claims of an image: [settled] keeps them per image, as they
    are the same for every pod that runs it. *)
Definition settledClaims (ev : addOnEvidence) (addons : list AddOn) (img : nsImage) : list imageClaim :=
  let ref := parseImage (ni_Image img) in
  let claims := match untaggedClaim ref (labelNamed ev addons img ++ releaseNamed ev addons (ni_Namespace img)) addons with
                | Some c => [c]
                | None => imageClaims ref addons
                end in
  if versionFromTag (ir_tag ref) =s ""
  then map (fun c => if cl_byTag c then mkClaim (cl_id c) (labelVersion ev addons img (cl_id c)) true else c) claims
  else claims.

Definition imageEvents (ev : addOnEvidence) (addons : list AddOn) (img : nsImage) : list (install * evidence) :=
  map (fun c => ((cl_id c, ni_Namespace img), mkOne "image" (cl_version c) "")) (settledClaims ev addons img).

Definition unmatchedRepo (ev : addOnEvidence) (addons : list AddOn) (img : nsImage) : option string :=
  match settledClaims ev addons img with [] => Some (fullPath (parseImage (ni_Image img))) | _ => None end.

Definition labelEvents (addons : list AddOn) (p : labelledPod) : list (install * evidence) :=
  let '(id, version) := labelAddOn (lp_Labels p) addons in
  if id =s "" then []
  else
    let refs := map parseImage (lp_Images p) in
    let claimed := existsb (fun ref =>
      let ids := imageAddOns ref addons in mem_str id ids || existsb (fun v => mem_str v (vendorBuilds id)) ids) refs in
    let unclaimed := existsb (fun ref => zlen (imageAddOns ref addons) =? 0) refs in
    let provider := existsb (fun ref => IsProviderBuild (fullPath ref)) refs in
    if claimed || negb unclaimed || provider then []
    else [((id, lp_Namespace p), mkOne "labels" version "")].

Definition releaseEvents (addons : list AddOn) (rel : HelmRelease) : list (install * evidence) :=
  flat_map (fun a => omap (fun chart =>
    if h_ChartName rel =s chart
    then Some ((a_ID a, h_Namespace rel), mkOne "chart" (versionFromTag (h_AppVersion rel)) (TrimPrefix (h_ChartVersion rel) "v"))
    else None) (m_Charts (a_Matchers a))) addons.

Definition gitopsEvents (addons : list AddOn) (g : GitOpsChart) : list (install * evidence) :=
  omap (fun a => if mem_str (g_Chart g) (m_Charts (a_Matchers a))
                 then Some ((a_ID a, g_Target g), mkOne "gitops" "" (exactChartVersion (g_Version g))) else None) addons.

(** What the pods, releases and GitOps resources show, in the order it is
    appended. *)
Definition events (ev : addOnEvidence) (addons : list AddOn) : list (install * evidence) :=
  flat_map (imageEvents ev addons) (ev_images ev) ++ flat_map (labelEvents addons) (ev_labelled ev) ++
  flat_map (releaseEvents addons) (ev_releases ev) ++ flat_map (gitopsEvents addons) (ev_gitops ev).

Definition ingressEvents (addons : list AddOn) (detected : string -> bool) (controller : string) : list (install * evidence) :=
  match ingressClassAddOns controller with
  | [] => []
  | (id :: _) as ids =>
      if existsb detected ids || negb (existsb (fun a => a_ID a =s id) addons) then []
      else [((id, ""%string), mkOne "ingressclass" "" "")]
  end.

Definition allEvents (ev : addOnEvidence) (addons : list AddOn) : list (install * evidence) :=
  let es := events ev addons in
  let detected id := existsb (fun p => p.1.1 =s id) es in
  es ++ flat_map (ingressEvents addons detected) (ev_ingressControllers ev).

Definition addEvidence (m : gmap install (list evidence)) (p : install * evidence) : gmap install (list evidence) :=
  <[p.1 := default [] (m !! p.1) ++ [p.2]]> m.

Definition byInstall (es : list (install * evidence)) : gmap install (list evidence) := foldl addEvidence ∅ es.

(** ** Instances *)

Definition strength (source : string) : Z :=
  if source =s "ingressclass" then 1 else if source =s "gitops" then 2 else if source =s "labels" then 3
  else if source =s "image" then 4 else if source =s "chart" then 5 else 0.

Record gathered := mkGathered { ga_source : string; ga_pod : string; ga_app : string; ga_release : string; ga_gitops : string }.

Definition gather (g : gathered) (e : evidence) : gathered :=
  let chart := e_source e =s "chart" in
  let gitops := e_source e =s "gitops" in
  mkGathered (if strength (ga_source g) <? strength (e_source e) then e_source e else ga_source g)
    (if chart then ga_pod g else olderVersion (ga_pod g) (e_version e))
    (if chart then olderVersion (ga_app g) (e_version e) else ga_app g)
    (if gitops then ga_release g else olderVersion (ga_release g) (e_chart e))
    (if gitops then olderVersion (ga_gitops g) (e_chart e) else ga_gitops g).

Definition instance (i : install) (evs : list evidence) : AddOnInstance :=
  let g := foldl gather (mkGathered "" "" "" "" "") evs in
  mkAddOnInstance i.1 (orStr (ga_app g) (ga_pod g)) (orStr (ga_release g) (ga_gitops g))
    (if ga_source g =s "ingressclass" then [] else [i.2]) (ga_source g).

(** The release lines the Helm releases of an install give. *)
Definition lines (evs : list evidence) : list string :=
  omap (fun e => if (e_source e =s "chart") && negb (e_version e =s "") then Some (releaseLine (e_version e)) else None) evs.

(** Evidence of a pod off those lines. *)
Definition offLine (ls : list string) (e : evidence) : bool :=
  (0 <? zlen ls) && negb (e_source e =s "chart") && negb (e_version e =s "") && negb (mem_str (releaseLine (e_version e)) ls).

Definition instances (p : install * list evidence) : list AddOnInstance :=
  let '(i, evs) := p in
  let ls := lines evs in
  let other := List.filter (offLine ls) evs in
  instance i (List.filter (negb ∘ offLine ls) evs) :: if 0 <? zlen other then [instance i other] else [].

(** [slices.Compare] of string slices. *)
Fixpoint compareStrings (a b : list string) : Z :=
  match a, b with
  | [], [] => 0
  | [], _ => -1
  | _, [] => 1
  | x :: a', y :: b' => cmpOr (cmpStr x y) (compareStrings a' b')
  end.

Definition compareInstances (x y : AddOnInstance) : Z :=
  cmpOr (cmpStr (ai_ID x) (ai_ID y)) (cmpOr (compareStrings (ai_Namespaces x) (ai_Namespaces y))
    (cmpOr (cmpStr (ai_Version x) (ai_Version y)) (cmpStr (ai_Source x) (ai_Source y)))).

Definition sortInstances (l : list AddOnInstance) : list AddOnInstance := isort (fun x y => compareInstances x y <=? 0) l.

(** The instances of the installs read in the order [order]. *)
Definition instancesIn (order : list (install * list evidence)) : list AddOnInstance := sortInstances (flat_map instances order).

Definition matchAddOns (ev : addOnEvidence) (addons : list AddOn) : list AddOnInstance * list string :=
  (instancesIn (map_to_list (byInstall (allEvents ev addons))),
   sort_strings (remove_dups (omap (unmatchedRepo ev addons) (ev_images ev)))).
End Detect.
