(* ===== verification/ClaimSpec.v ===== *)
(** * One entry per image

    In a registry without claim conflicts an image belongs to one entry, so
    it is judged once: what [ClaimConflicts] refuses covers every way two
    matchers can claim one image. *)

From stdpp Require Import base list strings gmap.
From Stdlib Require Import ZArith Lia Ascii.
From S2P Require Import Prelude GoStr GoRegexp Version Inventory KB AddOns Registry Detect.

(** ** Substrings *)

Lemma Contains_spec s sub : Contains s sub = true <-> exists b a, s = b +:+ sub +:+ a.
Proof.
  unfold Contains. split.
  - destruct (cut_opt s sub) as [[b a]|] eqn:E; [|done]. intros _. apply cut_opt_Some in E. eauto.
  - intros (b & a & ->). enough (cut_opt (b +:+ sub +:+ a) sub <> None) by (by destruct (cut_opt _ _)).
    induction b as [|c b IH].
    + change ("" +:+ sub +:+ a) with (sub +:+ a). destruct (sub +:+ a) eqn:Es; cbn [cut_opt]; rewrite <- Es, HasPrefix_app; done.
    + change (String c b +:+ sub +:+ a) with (String c (b +:+ sub +:+ a)). cbn [cut_opt].
      destruct (HasPrefix _ _); [done|]. by destruct (cut_opt (b +:+ sub +:+ a) sub) as [[? ?]|].
Qed.

Lemma HasSuffix_spec s p : HasSuffix s p = true <-> exists b, s = b +:+ p.
Proof.
  unfold HasSuffix. split.
  - destruct (CutSuffix s p) as [b|] eqn:E; [|done]. intros _. apply CutSuffix_Some in E. eauto.
  - intros [b ->]. by rewrite CutSuffix_app.
Qed.

Lemma HasPrefix_spec s p : HasPrefix s p = true <-> exists a, s = p +:+ a.
Proof. split; [intros ?%HasPrefix_split; eauto|]. intros [a ->]. apply HasPrefix_app. Qed.

Lemma CutPrefix_spec s p n : CutPrefix s p = Some n <-> s = p +:+ n.
Proof.
  unfold CutPrefix. split.
  - destruct (HasPrefix s p) eqn:E; [|done]. intros [= <-]. by apply HasPrefix_split.
  - intros ->. by rewrite HasPrefix_app, drop_len_app.
Qed.

Lemma app_inv_prefix (p s t : string) : p +:+ s = p +:+ t -> s = t.
Proof. induction p as [|c p IH]; intros E; [done|]. injection E as E. auto. Qed.

Lemma app_levels (a b c d : string) : a +:+ b = c +:+ d -> (exists x, c = a +:+ x /\ b = x +:+ d) \/ (exists x, a = c +:+ x /\ d = x +:+ b).
Proof.
  revert c. induction a as [|x a IH]; intros c E; [left; by exists c|].
  destruct c as [|y c]; [right; by exists (String x a)|].
  injection E as <- E. destruct (IH c E) as [(z & -> & ->)|(z & -> & ->)]; [left|right]; by exists z.
Qed.

(** A byte that starts neither side cannot start a match within. *)
Definition slash (s : string) : string := String "/" s.

(** [t] ends [s] on a whole segment. *)
Definition ends (s t : string) : Prop := exists b, slash s = b +:+ slash t.

Lemma ends_spec s t : ends s t <-> s = t \/ exists b, s = b +:+ slash t.
Proof.
  split.
  - intros [[|c b] E]; injection E; [intros ->; by left|]. intros E' _. right. by exists b.
  - intros [->|[b ->]]; [by exists ""%string|]. by exists (String "/" b).
Qed.

Lemma ends_eqb s t : (s =s t) || HasSuffix s ("/" +:+ t) = true <-> ends s t.
Proof. rewrite orb_true_iff, String.eqb_eq, HasSuffix_spec, ends_spec. done. Qed.

Lemma ends_total s t u : ends s t -> ends s u -> ends t u \/ ends u t.
Proof.
  intros [b Hb] [c Hc]. rewrite Hb in Hc.
  apply app_levels in Hc as [(x & -> & Hx)|(x & -> & Hx)]; [left|right]; by exists x.
Qed.

Lemma no_slash_ends s t : Contains s "/" = false -> ends s t -> s = t.
Proof.
  intros Hn [->|[b ->]]%ends_spec; [done|]. assert (Contains (b +:+ slash t) "/" = true) as E; [|congruence].
  apply Contains_spec. by exists b, t.
Qed.

(** ** Matchers *)

(** What a matcher says without its opt-in prefix. *)
Definition bare (m : string) : string := default m (CutPrefix m AnyPrefix).

(** A matcher of one segment without the opt-in: the repository itself. *)
Definition exact (m : string) : bool := match CutPrefix m AnyPrefix with Some _ => false | None => negb (Contains m "/") end.

Lemma PathMatches_spec path m : PathMatches path m = true <-> if exact m then path = m else ends path (bare m).
Proof.
  unfold PathMatches, exact, bare. destruct (CutPrefix m AnyPrefix) as [n|]; cbn; [apply ends_eqb|].
  destruct (Contains m "/"); cbn; [apply ends_eqb|apply String.eqb_eq].
Qed.

Lemma bare_ends m : ends m (bare m).
Proof.
  apply ends_spec. unfold bare. destruct (CutPrefix m AnyPrefix) as [n|] eqn:E; [|by left].
  apply CutPrefix_spec in E as ->. right. by exists "*"%string.
Qed.

Lemma ends_trans s t u : ends s t -> ends t u -> ends s u.
Proof. intros [b Hb] [c Hc]. exists (b +:+ c). by rewrite Hb, Hc, app_assoc_s. Qed.

Lemma matches_ends path m : PathMatches path m = true -> ends path (bare m).
Proof.
  rewrite PathMatches_spec. destruct (exact m) eqn:Ex; [|done]. intros ->.
  unfold exact, bare in *. destruct (CutPrefix m AnyPrefix); [done|]. by exists ""%string.
Qed.

(** Two matchers of one path match each other. *)
Lemma overlap path a b : PathMatches path a = true -> PathMatches path b = true -> PathMatches a b || PathMatches b a = true.
Proof.
  assert (Hwlog : forall a b, PathMatches path a = true -> PathMatches path b = true -> ends (bare a) (bare b) ->
            PathMatches a b || PathMatches b a = true).
  { clear a b. intros a b Ha Hb He. rewrite orb_true_iff, !PathMatches_spec.
    destruct (exact b) eqn:Eb; [|left; by apply (ends_trans _ (bare a)); [apply bare_ends|]].
    apply PathMatches_spec in Hb. rewrite Eb in Hb. subst path.
    assert (Hs : Contains b "/" = false) by (unfold exact in Eb; destruct (CutPrefix b AnyPrefix); [done|]; by apply negb_true_iff).
    apply matches_ends in Ha as Ha'. apply (no_slash_ends _ _ Hs) in Ha' as Hbare.
    apply PathMatches_spec in Ha. right. exact Ha. }
  intros Ha Hb. destruct (ends_total _ _ _ (matches_ends _ _ Ha) (matches_ends _ _ Hb)) as [He|He]; [by apply Hwlog|].
  rewrite orb_comm. by apply Hwlog.
Qed.

(** A path that ends in a provider's is a provider's. *)
Lemma provider_spec repo : IsProviderBuild repo = true <-> exists p, p ∈ ProviderBuildPrefixes /\ Contains (slash repo) (slash p) = true.
Proof.
  unfold IsProviderBuild. rewrite existsb_exists. split; intros (p & Hp & Hc); exists p; (split; [by apply list_elem_of_In|]).
  - apply Contains_spec. apply orb_true_iff in Hc as [[a ->]%HasPrefix_spec|(b & a & ->)%Contains_spec].
    + by exists ""%string, a.
    + exists (slash b), a. done.
  - apply orb_true_iff. apply Contains_spec in Hc as ([|c b] & a & E); injection E.
    + intros E'. left. apply HasPrefix_spec. by exists a.
    + intros E' _. right. apply Contains_spec. by exists b, a.
Qed.

Lemma provider_ends s t : ends s t -> IsProviderBuild t = true -> IsProviderBuild s = true.
Proof.
  intros [b Hb] (p & Hp & (x & y & Hc)%Contains_spec)%provider_spec. apply provider_spec. exists p. split; [done|].
  apply Contains_spec. exists (b +:+ x), y. by rewrite Hb, Hc, !app_assoc_s.
Qed.

Lemma provider_bare m : IsProviderBuild m = true -> IsProviderBuild (bare m) = true.
Proof.
  unfold bare. destruct (CutPrefix m AnyPrefix) as [n|] eqn:E; [|done]. apply CutPrefix_spec in E as ->.
  intros (p & Hp & (b & a & Hc)%Contains_spec)%provider_spec. apply provider_spec. exists p. split; [done|].
  apply Contains_spec. destruct b as [|c b].
  - exfalso. injection Hc as Hc. assert (Hstar : forall q, q ∈ ProviderBuildPrefixes -> q <> ""%string /\ HasPrefix q "*" = false).
    { apply Forall_forall. unfold ProviderBuildPrefixes. repeat (apply Forall_cons_2; [done|]). by apply Forall_nil_2. }
    apply Hstar in Hp as [Hne Hp].
    destruct p as [|c p]; [done|]. injection Hc as <- _. discriminate Hp.
  - injection Hc as <- Hc. destruct b as [|c b]; [discriminate Hc|]. injection Hc as <- Hc. by exists b, a.
Qed.

Lemma provider_matched path m : PathMatches path m = true -> IsProviderBuild m = true -> IsProviderBuild path = true.
Proof. intros Hm%matches_ends Hp%provider_bare. by apply (provider_ends _ _ Hm). Qed.

(** ** Two matchers of one image *)

Definition tagged (m : string) : bool := negb ((SplitTagPattern m).2 =s "").

Lemma imageMatches_overlap ref ma mb :
  imageMatches ref ma = true -> imageMatches ref mb = true -> tagged ma = tagged mb -> claimsOverlap ma mb true = true.
Proof.
  unfold imageMatches, claimsOverlap, tagged.
  destruct (SplitTagPattern ma) as [a ta], (SplitTagPattern mb) as [b tb]. cbn [snd].
  intros Ha Hb Ht.
  assert (Htag : true && negb (Bool.eqb (ta =s "") (tb =s "")) = false).
  { destruct (ta =s ""), (tb =s ""); cbn in *; done. }
  rewrite Htag, orb_false_r. destruct (negb (ta =s "") && _); [done|]. destruct (negb (tb =s "") && _); [done|].
  destruct (IsProviderBuild a) eqn:Ea, (IsProviderBuild b) eqn:Eb; cbn [Bool.eqb negb].
  - by apply (overlap (fullPath ref)).
  - apply (provider_matched _ _ Ha) in Ea. rewrite Ea in Hb. done.
  - apply (provider_matched _ _ Hb) in Eb. rewrite Eb in Ha. done.
  - apply andb_true_iff in Ha as [_ Ha], Hb as [_ Hb]. by apply (overlap (ir_path ref)).
Qed.

Lemma ContainsAny_spec s chars : ContainsAny s chars = false -> forall c, c ∈ String.list_ascii_of_string chars -> Contains s (String c "") = false.
Proof.
  intros Hn c Hc. destruct (Contains s (String c "")) eqn:E; [|done]. exfalso. apply Contains_spec in E as (b & a & ->).
  induction b as [|x b IH]; cbn in Hn; apply orb_false_iff in Hn as [H1 H2]; [|by apply IH].
  enough (existsb (Ascii.eqb c) (String.list_ascii_of_string chars) = true) by congruence.
  apply existsb_exists. exists c. split; [by apply list_elem_of_In|apply Ascii.eqb_refl].
Qed.

Lemma untagged m : Contains m ":" = false -> tagged m = false.
Proof. unfold tagged, SplitTagPattern, Cut, Contains. by destruct (cut_opt m ":") as [[? ?]|]. Qed.

(** An entry's claim comes from one of its matchers. *)
Definition path_only (a : AddOn) : Prop := Forall (fun c => tagged (ci_Image c) = false) (m_Components (a_Matchers a)).

Lemma entryClaim_matcher ref v a byTag c :
  path_only a -> entryClaim ref v a = Some (byTag, c) -> exists m, m ∈ entryClaims a /\ imageMatches ref m = true /\ tagged m = byTag.
Proof.
  intros Hp. unfold entryClaim, entryClaims.
  assert (Hin : forall p, existsb p (List.filter (imageMatches ref) (m_Images (a_Matchers a))) = true ->
            exists m, m ∈ m_Images (a_Matchers a) /\ imageMatches ref m = true /\ p m = true).
  { intros p (m & Hm & Hpm)%existsb_exists. apply List.filter_In in Hm as [Hm Hi]. exists m. by rewrite list_elem_of_In. }
  destruct (existsb _ _) eqn:E1.
  - intros [= <- _]. destruct (Hin _ E1) as (m & Hm & Hi & Ht). exists m. rewrite elem_of_app. auto.
  - clear E1. destruct (existsb _ _) eqn:E2.
    + intros [= <- _]. destruct (Hin _ E2) as (m & Hm & Hi & Ht). exists m. rewrite elem_of_app.
      split_and!; [by left|done|]. by apply negb_true_iff.
    + destruct (find _ _) as [k|] eqn:Ef; [|done]. intros [= <- _]. apply find_some in Ef as [Hk Hi].
      apply list_elem_of_In in Hk. exists (ci_Image k). rewrite elem_of_app. split_and!; [right; by apply list_elem_of_fmap_2|done|].
      unfold path_only in Hp. rewrite Forall_forall in Hp. auto.
Qed.

(** ** Conflict-free registries *)

Lemma flat_map_nil {A B} (f : A -> list B) l : flat_map f l = [] <-> forall x, x ∈ l -> f x = [].
Proof.
  induction l as [|x l IH]; cbn; [split; [intros _ x ?%not_elem_of_nil|]; done|].
  rewrite app_nil, IH. setoid_rewrite elem_of_cons. naive_solver.
Qed.

Lemma omap_nil {A B} (f : A -> option B) l : omap f l = [] <-> forall x, x ∈ l -> f x = None.
Proof.
  induction l as [|x l IH]; cbn; [split; [intros _ x ?%not_elem_of_nil|]; done|].
  setoid_rewrite elem_of_cons. destruct (f x) eqn:Ef; [split; [done|]; intros Hall; by rewrite Hall in Ef by auto|].
  rewrite IH. naive_solver.
Qed.

Section Unique.
Context `{Semver} `{URLParser}.

(** What no conflict means for two entries. *)
Record apart (a b : AddOn) : Prop := {
  ap_images : forall ma mb, ma ∈ entryClaims a -> mb ∈ entryClaims b -> claimsOverlap ma mb true = false;
  ap_charts : forall c, c ∈ m_Charts (a_Matchers a) -> c ∈ m_Charts (a_Matchers b) -> False;
  ap_ids : a_ID a ∉ m_Charts (a_Matchers b) /\ a_ID b ∉ m_Charts (a_Matchers a);
}.

Lemma claimsOverlap_strict a b t : claimsOverlap a b t = false -> claimsOverlap a b true = false.
Proof.
  unfold claimsOverlap. destruct (SplitTagPattern a) as [pa ta], (SplitTagPattern b) as [pb tb].
  destruct (negb (Bool.eqb (IsProviderBuild pa) _)); cbn [orb]; [done|]. destruct t; cbn [andb]; [done|]. by intros ->; destruct (negb _).
Qed.

Lemma pairConflicts_apart blessed hint a b : pairConflicts blessed hint a b = [] -> apart a b.
Proof.
  unfold pairConflicts. rewrite !app_nil. intros (Hi & Hc & Hl). split.
  - intros ma mb Hma Hmb. rewrite flat_map_nil in Hi. specialize (Hi ma Hma). rewrite omap_nil in Hi. specialize (Hi mb Hmb). cbn in Hi.
    destruct (claimsOverlap _ _ _) eqn:E; [done|]. by apply claimsOverlap_strict in E.
  - intros c Ha Hb. rewrite flat_map_nil in Hc. specialize (Hc c Ha). rewrite omap_nil in Hc. specialize (Hc c Hb). cbn in Hc.
    by rewrite String.eqb_refl in Hc.
  - rewrite omap_nil in Hl.
    pose proof (Hl (a, b) ltac:(by left)) as Hl1. pose proof (Hl (b, a) ltac:(right; by left)) as Hl2. cbn in Hl1, Hl2.
    rewrite <- !mem_str_spec. split; intros E; [rewrite E in Hl1|rewrite E in Hl2]; done.
Qed.

Lemma claimConflicts_apart blessed hint addons : claimConflicts blessed hint addons = [] -> ForallOrdPairs apart addons.
Proof.
  induction addons as [|a rest IH]; cbn; [constructor|]. intros [Hh Ht]%app_nil. constructor; [|by apply IH].
  apply List.Forall_forall. intros b Hb. rewrite flat_map_nil in Hh. eapply pairConflicts_apart, Hh. by apply list_elem_of_In.
Qed.

(** At most one of a list whose members exclude each other. *)
Lemma omap_at_most_one {A B} (R : A -> A -> Prop) (f : A -> option B) (l : list A) :
  ForallOrdPairs R l -> (forall a b x y, a ∈ l -> b ∈ l -> R a b -> f a = Some x -> f b = Some y -> False) -> (length (omap f l) <= 1)%nat.
Proof.
  induction 1 as [|a l Ha Hl IH]; intros Hex; cbn; [lia|]. destruct (f a) as [x|] eqn:Ef.
  - cbn. assert (E : omap f l = []); [|rewrite E; cbn; lia]. apply omap_nil. intros b Hb.
    destruct (f b) as [y|] eqn:Eb; [|done]. exfalso. rewrite List.Forall_forall in Ha.
    apply (Hex a b x y); [by left|by right| |done|done]. apply Ha. by apply list_elem_of_In.
  - apply IH. intros b c y z Hb Hc. apply Hex; by right.
Qed.

Lemma claims_at_most_one ref addons :
  Forall path_only addons -> ForallOrdPairs apart addons -> (length (imageClaims ref addons) <= 1)%nat.
Proof.
  intros Hp Ha. unfold imageClaims. cbv zeta. rewrite Forall_forall in Hp.
  assert (Hone : forall t : bool, (length (omap (fun '(byTag, c) => if Bool.eqb byTag t then Some c else None)
            (omap (entryClaim ref (versionFromTag (ir_tag ref))) addons)) <= 1)%nat).
  { intros t. rewrite omap_omap. apply (omap_at_most_one apart); [done|]. intros a b x y Hina Hinb [Hai _ _] Hx Hy.
    destruct (entryClaim ref _ a) as [[ta ca]|] eqn:Ea; [|done]. destruct (entryClaim ref _ b) as [[tb cb]|] eqn:Eb; [|done].
    cbn in Hx, Hy. destruct (Bool.eqb ta t) eqn:Eta; [|done]. destruct (Bool.eqb tb t) eqn:Etb; [|done].
    apply eqb_prop in Eta, Etb. subst.
    destruct (entryClaim_matcher _ _ _ _ _ (Hp a Hina) Ea) as (ma & Hma & Hia & Hta).
    destruct (entryClaim_matcher _ _ _ _ _ (Hp b Hinb) Eb) as (mb & Hmb & Hib & Htb).
    pose proof (imageMatches_overlap ref ma mb Hia Hib ltac:(congruence)) as Ho. by rewrite (Hai ma mb Hma Hmb) in Ho. }
  destruct (0 <? _); [specialize (Hone true)|specialize (Hone false)];
    (etransitivity; [|exact Hone]); apply Nat.eq_le_incl; f_equal; apply omap_ext_l; by intros [[] c].
Qed.

Lemma names_at_most_one v addons :
  NoDup (map a_ID addons) -> ForallOrdPairs apart addons -> (length (List.filter (fun a => namesAddOn a v) addons) <= 1)%nat.
Proof.
  intros Hid Ha.
  assert (Hd : ForallOrdPairs (fun a b => apart a b /\ a_ID a <> a_ID b) addons).
  { induction Ha as [|a l Hl Ha IH]; [constructor|]. cbn in Hid. apply NoDup_cons in Hid as [Hn Hid]. constructor; [|auto].
    apply List.Forall_forall. intros b Hb. rewrite List.Forall_forall in Hl. split; [auto|]. intros E. apply Hn. rewrite E.
    apply list_elem_of_fmap_2. by apply list_elem_of_In. }
  assert (Hf : List.filter (fun a => namesAddOn a v) addons = omap (fun a => if namesAddOn a v then Some a else None) addons).
  { clear. induction addons as [|a l IH]; cbn; [done|]. rewrite IH. by destruct (namesAddOn a v). }
  rewrite Hf. apply (omap_at_most_one _ _ _ Hd). intros a b x y _ _ [[_ Hc [Hab Hba]] Hne] Hx Hy.
  destruct (namesAddOn a v) eqn:Ea; [|done]. destruct (namesAddOn b v) eqn:Eb; [|done].
  unfold namesAddOn in *. rewrite !andb_true_iff, !orb_true_iff, String.eqb_eq, mem_str_spec in Ea, Eb.
  destruct Ea as [_ [->|Ea]], Eb as [_ [E|Eb]]; [done|done|subst; done|by apply (Hc v)].
Qed.

(** ** Loaded registries *)

Lemma when_nil b v : when b v = [] <-> b = false.
Proof. destruct b; cbn; naive_solver. Qed.

Lemma imap_concat_nil {A B} (f : nat -> A -> list B) (l : list A) : concat (imap f l) = [] -> Forall (fun a => exists i, f i a = []) l.
Proof.
  revert f. induction l as [|a l IH]; intros f; cbn; [constructor|]. intros [Hh Ht]%app_nil. constructor; [eauto|].
  apply IH in Ht. eapply Forall_impl; [exact Ht|]. cbn. intros b [i Hi]. eauto.
Qed.

Lemma Validate_path_only a : Validate a = [] -> path_only a.
Proof.
  unfold Validate. cbv zeta. rewrite !app_nil. intros (_ & _ & _ & _ & Hc & _). apply imap_concat_nil in Hc.
  unfold path_only. eapply Forall_impl; [exact Hc|]. cbn. intros c [i Hi]. unfold validateComponent in Hi. apply app_nil in Hi as [Hi _].
  destruct (ContainsAny (ci_Image c) ":@") eqn:E; [done|]. apply untagged. apply (ContainsAny_spec _ _ E). by left.
Qed.

(** What the loop of [loadFS] keeps: while no error was met, every entry
    passed validation, and no id is there twice. *)
Definition loading_ok (st : list AddOn * list loadError * list (string * string)) : Prop :=
  let '(addons, errs, seen) := st in
  map a_ID addons ⊆ map fst seen /\ NoDup (map a_ID addons) /\ (errs = [] -> Forall (fun a => Validate a = []) addons).

Lemma loadStep_ok decode dir st e st' : loading_ok st -> loadStep decode dir st e = inr st' -> loading_ok st'.
Proof.
  destruct st as [[addons errs] seen]. intros (Hs & Hn & Hv). unfold loadStep.
  destruct (de_IsDir e); [intros [= <-]; by split_and!|].
  destruct (HasSuffix _ ".yml"); [intros [= <-]; split_and!; [done..|]; by intros []%app_nil|].
  destruct (negb (HasSuffix _ ".yaml")); [intros [= <-]; by split_and!|].
  destruct (de_Raw e) as [raw|m]; [|done]. destruct (decode raw) as [a|m]; [|intros [= <-]; split_and!; [done..|]; by intros []%app_nil].
  destruct (find _ seen) as [p|] eqn:Ef; intros [= <-].
  - split_and!; [done..|]. by intros []%app_nil.
  - assert (Hnew : a_ID a ∉ map fst seen).
    { intros (p & E & Hp)%list_elem_of_fmap. apply list_elem_of_In, (find_none _ _ Ef) in Hp. cbn in Hp. by rewrite <- E, String.eqb_refl in Hp. }
    split_and!.
    + rewrite map_app. cbn. set_solver.
    + rewrite map_app. apply NoDup_app. split_and!; [done| |by apply NoDup_singleton]. intros x Hx%Hs ->%list_elem_of_singleton. done.
    + intros [Herr Hval]%app_nil. apply app_nil in Herr as [Herr _]. apply Forall_app. split; [auto|]. apply Forall_singleton.
      by apply map_eq_nil in Hval.
Qed.

Lemma loadFS_valid decode dir entries addons :
  loadFS decode dir entries = inl addons -> NoDup (map a_ID addons) /\ Forall (fun a => Validate a = []) addons.
Proof.
  unfold loadFS. destruct entries as [es|m]; [|done].
  assert (Hok : forall st st', loading_ok st -> loadEntries decode dir st es = inr st' -> loading_ok st').
  { induction es as [|e es IH]; intros st st' Hst; cbn [loadEntries]; [by intros [= <-]|].
    destruct (loadStep decode dir st e) as [err|st1] eqn:Es; [done|]. apply IH. by apply (loadStep_ok _ _ _ _ _ Hst Es). }
  destruct (loadEntries decode dir ([], [], []) es) as [err|[[l errs] seen]] eqn:El; [done|].
  destruct errs; [|done]. intros [= <-].
  apply Hok in El as (_ & Hn & Hv); [|split_and!; [set_solver|constructor|intros _; constructor]].
  pose proof (isort_perm (fun a b => String.leb (a_ID a) (a_ID b)) l) as Hp. split.
  - by rewrite Hp.
  - rewrite Hp. auto.
Qed.

Lemma Merge_perm base extra :
  Merge base extra ≡ₚ List.filter (fun a => negb (existsb (fun e => a_ID e =s a_ID a) extra)) base ++ extra.
Proof. apply isort_perm. Qed.

(** An image is judged once: with a registry loaded from its files and
    an operator's own entries loaded beside it, and no conflict reported
    between them, whatever the image, at most one entry claims it, and
    whatever the label or chart name, it names at most one entry. *)
Lemma registry_claims_unique (decode decode' : string -> res AddOn) (dir dir' : string) (es es' : res (list DirEntry))
    (base extra : list AddOn) (ref : imageRef) (name : string) :
  loadFS decode dir es = inl base -> loadFS decode' dir' es' = inl extra -> MergeConflicts base extra = [] ->
  (length (imageClaims ref (Merge base extra)) <= 1)%nat /\
  (length (List.filter (fun a => namesAddOn a name) (Merge base extra)) <= 1)%nat.
Proof.
  intros [Hnb Hvb]%loadFS_valid [Hne Hve]%loadFS_valid Ha%claimConflicts_apart.
  split.
  - apply claims_at_most_one; [|done]. rewrite Merge_perm. apply Forall_app. split.
    + apply Forall_forall. intros a [Hin _]%list_elem_of_In%List.filter_In. rewrite Forall_forall in Hvb.
      apply Validate_path_only, Hvb. by apply list_elem_of_In.
    + eapply Forall_impl; [exact Hve|]. apply Validate_path_only.
  - apply names_at_most_one; [|done]. rewrite Merge_perm, map_app. apply NoDup_app. split_and!; [| |done].
    + clear -Hnb. induction base as [|a l IH]; cbn; [constructor|]. apply NoDup_cons in Hnb as [Hn Hd].
      destruct (negb _); [|by apply IH]. cbn. apply NoDup_cons. split; [|by apply IH].
      intros (b & E & Hb)%list_elem_of_fmap. apply Hn. rewrite E. apply list_elem_of_fmap_2.
      apply list_elem_of_In in Hb. apply List.filter_In in Hb as [Hb _]. by apply list_elem_of_In.
    + intros x (a & -> & Hin)%list_elem_of_fmap (e & E & He)%list_elem_of_fmap.
      apply list_elem_of_In, List.filter_In in Hin as [_ Hin]. apply negb_true_iff in Hin.
      enough (existsb (fun e => a_ID e =s a_ID a) extra = true) by congruence.
      apply existsb_exists. exists e. split; [by apply list_elem_of_In|]. by apply String.eqb_eq.
Qed.
End Unique.

(** ** A small registry *)

#[local] Existing Instance exactSemver.
#[local] Instance istioURLs : URLParser := {| urlParse _ := Ok (mkURL "https" "istio.io" "istio.io") |}.

Definition entryOfMatchers (id : string) (images charts : list string) : AddOn :=
  mkAddOn 2 id id (mkMatchers images charts [] []) (mkSupport "supported" "" "" "" ["https://istio.io/"%string]) [] [] "" "".

Definition nginxEntry : AddOn := entryOfMatchers "ingress-nginx" ["ingress-nginx/controller"; "rancher/nginx-ingress-controller"] ["ingress-nginx"].
Definition rke2Entry : AddOn := entryOfMatchers "rke2-ingress-nginx" ["rancher/nginx-ingress-controller:*-hardened*"] ["rke2-ingress-nginx"].
Definition operatorEntry : AddOn := entryOfMatchers "team-ingress" ["team/ingress"] [].

Definition fileOf (a : AddOn) : DirEntry := mkDirEntry (a_ID a +:+ ".yaml") false (Ok (a_ID a)).
Definition decodeOf (l : list AddOn) (raw : string) : res AddOn :=
  match find (fun a => a_ID a =s raw) l with Some a => Ok a | None => Err "no entry" end.

Lemma registry_claims_unique_witness :
  let base := [nginxEntry; rke2Entry] in
  loadFS (decodeOf base) "data" (Ok (map fileOf base)) = inl base /\
  (length (imageClaims (parseImage "rancher/nginx-ingress-controller:nginx-1.9.4-hardened1") (Merge base [operatorEntry])) <= 1)%nat.
Proof.
  cbv zeta. split; [vm_compute; reflexivity|].
  refine (proj1 (registry_claims_unique (decodeOf [nginxEntry; rke2Entry]) (decodeOf [operatorEntry]) "data" "extra"
    (Ok (map fileOf [nginxEntry; rke2Entry])) (Ok (map fileOf [operatorEntry])) _ _ _ "ingress-nginx" _ _ _)); vm_compute; reflexivity.
Defined.
