(* ===== verification/DetectSpec.v ===== *)
(** * What add-on detection promises

    The add-ons found do not depend on the order a map is read in; every
    add-on the evidence names is reported where it runs, and no newer
    version hides an older one; and the evidence of a pod pass, kept without
    its repeats, gives what the pods themselves would. *)

From stdpp Require Import base list strings gmap.
From Stdlib Require Import ZArith Lia Ascii.
From S2P Require Import Prelude GoStr GoRegexp Version Inventory KB AddOns Evaluate Registry Detect ClaimSpec.

Abbreviation install := (string * string)%type (only parsing).

(** ** The order of instances *)

Lemma compareStrings_comparator : comparator compareStrings.
Proof.
  destruct (cmpStr_comparator (fun s : string => s)) as [Cs Ct Ce]. split.
  - intros x. induction x as [|a x IH]; intros [|b y]; cbn; try lia. rewrite (Cs a b), IH. unfold cmpOr.
    destruct (Z.eqb_spec (cmpStr a b) 0) as [->|]; [done|]. rewrite (proj2 (Z.eqb_neq _ _)); lia.
  - intros x. induction x as [|a x IH]; intros [|b y] [|c z]; cbn; try lia. unfold cmpOr.
    destruct (Z.eqb_spec (cmpStr a b) 0) as [E1|E1].
    + rewrite (Ce a b c E1). destruct (Z.eqb_spec (cmpStr b c) 0); [apply IH|done].
    + destruct (Z.eqb_spec (cmpStr b c) 0) as [E2|E2].
      * apply cmpStr_spec in E2 as ->. rewrite (proj2 (Z.eqb_neq _ _) E1). done.
      * intros H1 H2. pose proof (Ct a b c H1 H2). rewrite (proj2 (Z.eqb_neq _ _)); lia.
  - intros x. induction x as [|a x IH]; intros [|b y] [|c z]; cbn; try done. unfold cmpOr.
    destruct (Z.eqb_spec (cmpStr a b) 0) as [E1|E1]; [|done]. intros E2. by rewrite (Ce a b c E1), (IH y z E2).
Qed.

Lemma compareStrings_eq x y : compareStrings x y = 0 -> x = y.
Proof.
  revert y. induction x as [|a x IH]; intros [|b y]; cbn; try done. unfold cmpOr.
  destruct (Z.eqb_spec (cmpStr a b) 0) as [E|E]; [|done]. intros E2. apply cmpStr_spec in E as ->. by rewrite (IH y E2).
Qed.

Lemma comparator_on {A B} (f : A -> B) (c : B -> B -> Z) : comparator c -> comparator (fun x y => c (f x) (f y)).
Proof. intros [Cs Ct Ce]. split; eauto. Qed.

Lemma compareInstances_comparator : comparator compareInstances.
Proof.
  repeat apply cmpOr_comparator; try apply cmpStr_comparator. apply (comparator_on ai_Namespaces), compareStrings_comparator.
Qed.

Lemma compareInstances_eq x y : compareInstances x y = 0 ->
  ai_ID x = ai_ID y /\ ai_Namespaces x = ai_Namespaces y /\ ai_Version x = ai_Version y /\ ai_Source x = ai_Source y.
Proof.
  unfold compareInstances, cmpOr.
  repeat match goal with |- context [?a =? 0] => destruct (Z.eqb_spec a 0); [|intros; lia] end. intros.
  split_and!; first [by apply cmpStr_spec|by apply compareStrings_eq].
Qed.

Lemma sortInstances_perm l l' :
  (forall x y, x ∈ l -> y ∈ l -> compareInstances x y = 0 -> x = y) -> l ≡ₚ l' -> sortInstances l = sortInstances l'.
Proof.
  destruct compareInstances_comparator as [Hs Ht He]. intros Hd. apply isort_perm_eq_in.
  - intros x y. rewrite !Z.leb_le, (Hs x y). lia.
  - intros x y z. rewrite !Z.leb_le. intros H1 H2.
    destruct (Z.eq_dec (compareInstances x y) 0) as [E|E]; [by rewrite (He x y z E)|].
    destruct (Z.eq_dec (compareInstances y z) 0) as [E2|E2].
    + assert (compareInstances z x = compareInstances y x) as E3 by (symmetry; by apply He).
      rewrite (Hs x z), (Hs x y) in E3. lia.
    + apply Z.lt_le_incl, (Ht x y z); lia.
  - intros x y Hx Hy. rewrite !Z.leb_le, (Hs x y). intros. apply Hd; [done|done|lia].
Qed.

(** ** Evidence by install *)

Lemma byInstall_lookup es i :
  byInstall es !! i = match omap (fun p => if bool_decide (p.1 = i) then Some p.2 else None) es with [] => None | evs => Some evs end.
Proof.
  unfold byInstall. rewrite <- (rev_involutive es). generalize (rev es) as l. clear es. intros l.
  induction l as [|p l IH]; [apply lookup_empty|]. cbn [rev]. rewrite foldl_app, omap_app. cbn [foldl]. unfold addEvidence at 1.
  destruct (decide (p.1 = i)) as [<-|Hne].
  - rewrite lookup_insert_eq, IH. cbn. rewrite bool_decide_eq_true_2 by done. by destruct (omap _ (rev l)).
  - rewrite lookup_insert_ne by done. cbn. rewrite bool_decide_eq_false_2 by done. by rewrite app_nil_r, IH.
Qed.

(** The evidence of an install. *)
Definition evidenceFor (es : list (install * evidence)) (i : install) : list evidence :=
  omap (fun p => if bool_decide (p.1 = i) then Some p.2 else None) es.

Lemma evidenceFor_in es i e : e ∈ evidenceFor es i <-> (i, e) ∈ es.
Proof.
  unfold evidenceFor. rewrite list_elem_of_omap. split.
  - intros ([j x] & Hin & E). cbn in E. case_bool_decide; [|done]. by simplify_eq.
  - intros Hin. exists (i, e). cbn. by rewrite bool_decide_eq_true_2.
Qed.

Lemma byInstall_Some es i evs : byInstall es !! i = Some evs <-> evs <> [] /\ evs = evidenceFor es i.
Proof.
  rewrite byInstall_lookup. fold (evidenceFor es i). destruct (evidenceFor es i) as [|e l]; split; naive_solver.
Qed.

(** ** What an instance holds *)

Section Gather.
Context `{SemverOrder}.

Definition strongest (s : string) (e : evidence) : string := if strength s <? strength (e_source e) then e_source e else s.
Definition podVersion (e : evidence) : option string := if e_source e =s "chart" then None else Some (e_version e).
Definition appVersion (e : evidence) : option string := if e_source e =s "chart" then Some (e_version e) else None.
Definition relChart (e : evidence) : option string := if e_source e =s "gitops" then None else Some (e_chart e).
Definition gitChart (e : evidence) : option string := if e_source e =s "gitops" then Some (e_chart e) else None.

Lemma gather_fold g evs :
  foldl gather g evs =
  mkGathered (foldl strongest (ga_source g) evs) (foldl olderVersion (ga_pod g) (omap podVersion evs))
    (foldl olderVersion (ga_app g) (omap appVersion evs)) (foldl olderVersion (ga_release g) (omap relChart evs))
    (foldl olderVersion (ga_gitops g) (omap gitChart evs)).
Proof.
  revert g. induction evs as [|e evs IH]; intros g; [by destruct g|]. cbn [foldl]. rewrite IH. unfold gather. cbn [ga_source ga_pod ga_app ga_release ga_gitops].
  cbn [omap list_omap].
  assert (Hp : forall b c : bool, (e_source e =s "chart") = b -> (e_source e =s "gitops") = c ->
    podVersion e = (if b then None else Some (e_version e)) /\ appVersion e = (if b then Some (e_version e) else None) /\
    relChart e = (if c then None else Some (e_chart e)) /\ gitChart e = (if c then Some (e_chart e) else None)).
  { by intros b c <- <-. }
  destruct (Hp _ _ eq_refl eq_refl) as (-> & -> & -> & ->).
  by destruct (e_source e =s "chart"), (e_source e =s "gitops").
Qed.

(** The strength of an install is its strongest evidence's. *)
Lemma strongest_max evs s :
  strength s <= strength (foldl strongest s evs) /\ (forall e, e ∈ evs -> strength (e_source e) <= strength (foldl strongest s evs)) /\
  (foldl strongest s evs = s \/ exists e, e ∈ evs /\ foldl strongest s evs = e_source e).
Proof.
  revert s. induction evs as [|e evs IH]; intros s; cbn [foldl].
  - split_and!; [lia|by intros e ?%not_elem_of_nil|by left].
  - destruct (IH (strongest s e)) as (H1 & H2 & H3).
    assert (Hs : strength s <= strength (strongest s e) /\ strength (e_source e) <= strength (strongest s e)).
    { unfold strongest. destruct (Z.ltb_spec (strength s) (strength (e_source e))); lia. }
    split_and!; [lia| |].
    + intros x [->|Hx]%elem_of_cons; [lia|auto].
    + destruct H3 as [->|(x & Hx & ->)]; [|right; exists x; split; [by right|done]].
      unfold strongest. destruct (_ <? _); [right; exists e; split; [by left|done]|by left].
Qed.

Definition sourceOf (evs : list evidence) : string := foldl strongest ""%string evs.

Lemma instance_eq i evs :
  instance i evs =
  mkAddOnInstance i.1 (orStr (foldl olderVersion "" (omap appVersion evs)) (foldl olderVersion "" (omap podVersion evs)))
    (orStr (foldl olderVersion "" (omap relChart evs)) (foldl olderVersion "" (omap gitChart evs)))
    (if sourceOf evs =s "ingressclass" then [] else [i.2]) (sourceOf evs).
Proof. unfold instance. by rewrite gather_fold. Qed.
End Gather.

(** The sources evidence is made with. *)
Definition sources : list string := ["image"; "labels"; "chart"; "gitops"; "ingressclass"]%string.

Lemma strength_source s t : s ∈ sources -> t ∈ sources -> strength s = strength t -> s = t.
Proof.
  unfold sources. rewrite !elem_of_cons, !elem_of_nil.
  intros [->|[->|[->|[->|[->|[]]]]]] [->|[->|[->|[->|[->|[]]]]]]; cbn; done.
Qed.

Lemma strength_pos s : s ∈ sources -> 0 < strength s <= 5.
Proof. unfold sources. rewrite !elem_of_cons, elem_of_nil. intros [->|[->|[->|[->|[->|[]]]]]]; cbn; lia. Qed.

Lemma sourceOf_strongest evs : Forall (fun e => e_source e ∈ sources) evs -> evs <> [] ->
  (exists e, e ∈ evs /\ sourceOf evs = e_source e) /\ forall e, e ∈ evs -> strength (e_source e) <= strength (sourceOf evs).
Proof.
  intros Hs Hne. destruct (strongest_max evs "") as (_ & Hmax & Hex). split; [|exact Hmax].
  destruct Hex as [E|Hex]; [|exact Hex]. exfalso. destruct evs as [|e evs]; [done|].
  apply Forall_cons in Hs as [Hs _]. apply strength_pos in Hs. specialize (Hmax e ltac:(by left)). rewrite E in Hmax. cbn in Hmax. lia.
Qed.

Lemma sourceOf_is evs s : Forall (fun e => e_source e ∈ sources) evs ->
  (exists e, e ∈ evs /\ e_source e = s) -> (forall e, e ∈ evs -> strength (e_source e) <= strength s) -> sourceOf evs = s.
Proof.
  intros Hs (e & Hin & <-) Hmax. assert (Hne : evs <> []) by (intros ->; by apply not_elem_of_nil in Hin).
  destruct (sourceOf_strongest evs Hs Hne) as [(x & Hx & ->) Hall]. rewrite Forall_forall in Hs.
  apply strength_source; [by apply Hs|by apply Hs|]. specialize (Hall e Hin). specialize (Hmax x Hx).
  destruct (sourceOf_strongest evs ltac:(by apply Forall_forall) Hne) as [(y & Hy & Ey) Hall2].
  pose proof (Hall2 e Hin). lia.
Qed.

(** ** Where evidence comes from *)

Definition event_ok (p : install * evidence) : Prop :=
  e_source p.2 ∈ sources /\ (e_source p.2 = "ingressclass"%string -> p.1.2 = ""%string).

Section Events.
Context `{SemverOrder}.

Lemma in_flat_map_elem {A B} (f : A -> list B) l y : y ∈ flat_map f l <-> exists x, x ∈ l /\ y ∈ f x.
Proof. rewrite list_elem_of_In, in_flat_map. by setoid_rewrite <- list_elem_of_In. Qed.

(** An event of the pods, releases and GitOps resources is one of four. *)
Lemma events_in ev addons p : p ∈ events ev addons <->
  (exists img, img ∈ ev_images ev /\ p ∈ imageEvents ev addons img) \/ (exists q, q ∈ ev_labelled ev /\ p ∈ labelEvents addons q) \/
  (exists r, r ∈ ev_releases ev /\ p ∈ releaseEvents addons r) \/ (exists g, g ∈ ev_gitops ev /\ p ∈ gitopsEvents addons g).
Proof. unfold events. by rewrite !elem_of_app, !in_flat_map_elem. Qed.

Lemma imageEvents_source ev addons img p : p ∈ imageEvents ev addons img -> e_source p.2 = "image"%string.
Proof. intros (c & -> & _)%list_elem_of_fmap. done. Qed.

Lemma labelEvents_source addons q p : p ∈ labelEvents addons q -> e_source p.2 = "labels"%string.
Proof.
  unfold labelEvents. destruct (labelAddOn _ _) as [id v]. destruct (id =s ""); [by intros ?%not_elem_of_nil|].
  destruct (_ || _ || _); [by intros ?%not_elem_of_nil|]. by intros ->%list_elem_of_singleton.
Qed.

Lemma releaseEvents_source addons r p : p ∈ releaseEvents addons r -> e_source p.2 = "chart"%string.
Proof.
  intros (a & _ & (c & _ & E)%list_elem_of_omap)%in_flat_map_elem. destruct (_ =s _); [|done]. by simplify_eq.
Qed.

Lemma gitopsEvents_source addons g p : p ∈ gitopsEvents addons g -> e_source p.2 = "gitops"%string.
Proof. intros (a & _ & E)%list_elem_of_omap. destruct (mem_str _ _); [|done]. by simplify_eq. Qed.

Lemma events_source ev addons p : p ∈ events ev addons -> e_source p.2 ∈ ["image"; "labels"; "chart"; "gitops"]%string.
Proof.
  rewrite events_in. intros [(x & _ & E%imageEvents_source)|[(x & _ & E%labelEvents_source)|[(x & _ & E%releaseEvents_source)|(x & _ & E%gitopsEvents_source)]]];
    rewrite E; set_solver.
Qed.

Lemma ingressEvents_in addons detected c p : p ∈ ingressEvents addons detected c ->
  exists id rest, ingressClassAddOns c = id :: rest /\ p = ((id, ""%string), mkOne "ingressclass" "" "") /\ existsb detected (id :: rest) = false.
Proof.
  unfold ingressEvents. destruct (ingressClassAddOns c) as [|id rest]; [by intros ?%not_elem_of_nil|].
  destruct (existsb detected (id :: rest)) eqn:E; [by intros ?%not_elem_of_nil|]. destruct (negb _); [by intros ?%not_elem_of_nil|].
  cbn [orb]. intros ->%list_elem_of_singleton. exists id, rest. split_and!; [done|done|exact E].
Qed.

Lemma allEvents_ok ev addons : Forall event_ok (allEvents ev addons).
Proof.
  apply Forall_forall. intros p. unfold allEvents. rewrite elem_of_app. intros [Hp|Hp].
  - apply events_source in Hp. unfold event_ok, sources. split; [set_solver|]. intros E. rewrite E in Hp. set_solver.
  - apply in_flat_map_elem in Hp as (c & _ & (id & rest & _ & -> & _)%ingressEvents_in). split; [|done]. unfold sources. set_solver.
Qed.

(** ** Instances of one install *)

Definition agreeing (evs : list evidence) : list evidence := List.filter (negb ∘ offLine (lines evs)) evs.
Definition straying (evs : list evidence) : list evidence := List.filter (offLine (lines evs)) evs.

Lemma instances_eq i evs : instances (i, evs) = instance i (agreeing evs) :: if 0 <? zlen (straying evs) then [instance i (straying evs)] else [].
Proof. done. Qed.

Lemma lines_in evs l : l ∈ lines evs <-> exists e, e ∈ evs /\ e_source e = "chart"%string /\ e_version e <> ""%string /\ releaseLine (e_version e) = l.
Proof.
  unfold lines. rewrite list_elem_of_omap. split; intros (e & Hin & Hl); exists e; (split; [done|]).
  - destruct (e_source e =s "chart") eqn:E1; [|done]. destruct (e_version e =s "") eqn:E2; [done|]. cbn in Hl. simplify_eq.
    apply String.eqb_eq in E1. apply String.eqb_neq in E2. done.
  - destruct Hl as (-> & Hne & <-). cbn. apply String.eqb_neq in Hne. by rewrite Hne.
Qed.

Lemma filter_in {A} (p : A -> bool) l x : x ∈ List.filter p l <-> x ∈ l /\ p x = true.
Proof. by rewrite !list_elem_of_In, List.filter_In. Qed.

(** Releases always agree with themselves, and their lines are there when
    anything strays. *)
Lemma chart_agrees evs e : e ∈ evs -> e_source e = "chart"%string -> e ∈ agreeing evs.
Proof. intros Hin E. apply filter_in. split; [done|]. unfold offLine. cbn. rewrite E. cbn. by rewrite andb_false_r. Qed.

Lemma straying_lines evs e : e ∈ straying evs -> exists c, c ∈ agreeing evs /\ e_source c = "chart"%string.
Proof.
  intros [_ Ho]%filter_in. unfold offLine in Ho. rewrite !andb_true_iff in Ho. destruct Ho as [[[Hl _] _] _].
  destruct (lines evs) as [|l ls] eqn:E; [done|]. assert (Hin : l ∈ lines evs) by (rewrite E; by left).
  apply lines_in in Hin as (c & Hc & Es & _). exists c. split; [by apply chart_agrees|done].
Qed.

Lemma straying_source evs e : e ∈ straying evs -> e_source e <> "chart"%string.
Proof.
  intros [_ Ho]%filter_in E. unfold offLine in Ho. rewrite E in Ho. cbn in Ho. by rewrite andb_false_r in Ho.
Qed.

Lemma agreeing_nonempty evs : evs <> [] -> agreeing evs <> [].
Proof.
  intros Hne E. destruct evs as [|e evs]; [done|]. destruct (offLine (lines (e :: evs)) e) eqn:Eo.
  - destruct (straying_lines (e :: evs) e) as (c & Hc & _); [apply filter_in; split; [by left|done]|]. rewrite E in Hc. by apply not_elem_of_nil in Hc.
  - unfold agreeing in E. cbn [List.filter] in E. unfold compose in E. rewrite Eo in E. done.
Qed.

(** An instance is made of some of its install's evidence: what agrees with
    the releases, or, when something strays from them, that. *)
Lemma instances_in i evs x : evs <> [] -> x ∈ instances (i, evs) ->
  (x = instance i (agreeing evs) /\ agreeing evs <> []) \/ (x = instance i (straying evs) /\ straying evs <> []).
Proof.
  intros Hne. rewrite instances_eq. rewrite elem_of_cons. intros [->|Hx].
  - left. split; [done|]. by apply agreeing_nonempty.
  - destruct (straying evs) as [|e l] eqn:Es; cbn in Hx; [by apply not_elem_of_nil in Hx|].
    apply list_elem_of_singleton in Hx. by right.
Qed.

Definition from_ok (i : install) (sub : list evidence) : Prop := Forall (fun e => event_ok (i, e)) sub.

Lemma from_sources i sub : from_ok i sub -> Forall (fun e => e_source e ∈ sources) sub.
Proof. intros Hok. eapply Forall_impl; [exact Hok|]. by intros e [? _]. Qed.

Lemma instance_namespaces i sub : from_ok i sub -> sub <> [] ->
  ai_Namespaces (instance i sub) = [i.2] \/ (ai_Namespaces (instance i sub) = [] /\ i.2 = ""%string).
Proof.
  intros Hok Hne. rewrite instance_eq. cbn. destruct (sourceOf sub =s "ingressclass") eqn:E; [|by left].
  right. split; [done|]. apply String.eqb_eq in E. destruct (sourceOf_strongest sub (from_sources i sub Hok) Hne) as [(e & Hin & Ee) _].
  unfold from_ok in Hok. rewrite Forall_forall in Hok. destruct (Hok e Hin) as [_ Hns]. apply Hns. cbn. congruence.
Qed.

Lemma instance_same_install i j sub sub' : from_ok i sub -> from_ok j sub' -> sub <> [] -> sub' <> [] ->
  ai_ID (instance i sub) = ai_ID (instance j sub') -> ai_Namespaces (instance i sub) = ai_Namespaces (instance j sub') -> i = j.
Proof.
  intros Hi Hj Hn Hn' Eid Ens. destruct i as [id ns], j as [id' ns']. rewrite !instance_eq in Eid. cbn in Eid. subst id'. f_equal.
  destruct (instance_namespaces _ _ Hi Hn) as [E1|[E1 E1']], (instance_namespaces _ _ Hj Hn') as [E2|[E2 E2']];
    rewrite E1, E2 in Ens; cbn in *; congruence.
Qed.

Lemma agree_stray_sources i evs : from_ok i evs -> straying evs <> [] -> sourceOf (agreeing evs) <> sourceOf (straying evs).
Proof.
  intros Hok Hne E. apply from_sources in Hok.
  assert (Hsub : forall p, Forall (fun e => e_source e ∈ sources) (List.filter p evs)).
  { intros p. apply Forall_forall. intros e [He _]%filter_in. rewrite Forall_forall in Hok. auto. }
  destruct (straying evs) as [|e l] eqn:Es; [done|]. assert (Hin : e ∈ straying evs) by (rewrite Es; by left).
  rewrite <- Es in E, Hne. destruct (straying_lines evs e Hin) as (c & Hc & Ec).
  assert (Hchart : sourceOf (agreeing evs) = "chart"%string).
  { apply sourceOf_is; [apply Hsub|eauto|]. intros x Hx. cbn. pose proof (Hsub (negb ∘ offLine (lines evs))) as Hall. rewrite Forall_forall in Hall.
    destruct (strength_pos _ (Hall x Hx)). done. }
  destruct (sourceOf_strongest (straying evs) (Hsub _) Hne) as [(x & Hx & Ex) _].
  apply (straying_source evs x Hx). congruence.
Qed.

(** No two instances are tied in the order they are sorted in. *)
Lemma instances_distinct es : Forall event_ok es -> forall x y,
  x ∈ flat_map instances (map_to_list (byInstall es)) -> y ∈ flat_map instances (map_to_list (byInstall es)) ->
  compareInstances x y = 0 -> x = y.
Proof.
  intros Hok x y ([i evs] & Hi & Hx)%in_flat_map_elem ([j evs'] & Hj & Hy)%in_flat_map_elem (Eid & Ens & _ & Esrc)%compareInstances_eq.
  apply elem_of_map_to_list, byInstall_Some in Hi as [Hne Ei], Hj as [Hne' Ej].
  assert (Hfrom : forall k, from_ok k (evidenceFor es k)).
  { intros k. apply Forall_forall. intros e He%evidenceFor_in. rewrite Forall_forall in Hok. by apply Hok. }
  assert (Hfilter : forall k p, from_ok k (List.filter p (evidenceFor es k))).
  { intros k p. apply Forall_forall. intros e [He _]%filter_in. pose proof (Hfrom k) as Hk. unfold from_ok in Hk. rewrite Forall_forall in Hk. auto. }
  assert (i = j) as <-.
  { apply instances_in in Hx as [[-> Hs]|[-> Hs]], Hy as [[-> Hs']|[-> Hs']]; [..|]; try done; subst evs evs';
      (eapply instance_same_install; [..|exact Eid|exact Ens]; [apply Hfilter|apply Hfilter|done|done]). }
  assert (evs = evs') as <- by congruence.
  apply instances_in in Hx as [[-> Hs]|[-> Hs]], Hy as [[-> Hs']|[-> Hs']]; try done; exfalso; rewrite !instance_eq in Esrc; cbn in Esrc;
    subst evs; [by apply (agree_stray_sources i (evidenceFor es i))|by apply (agree_stray_sources i (evidenceFor es i))].
Qed.

(** The add-ons found do not depend on the order Go reads the map of
    installs in: whatever order its entries are visited in, the sorted list
    of instances is the same. *)
Lemma matchAddOns_deterministic (ev : addOnEvidence) (addons : list AddOn) (order : list (install * list evidence)) :
  order ≡ₚ map_to_list (byInstall (allEvents ev addons)) -> instancesIn order = (matchAddOns ev addons).1.
Proof.
  intros Hp. unfold matchAddOns, instancesIn. cbn [fst]. symmetry. apply sortInstances_perm.
  - apply instances_distinct, allEvents_ok.
  - by rewrite Hp.
Qed.
End Events.

(** ** The oldest version *)

Section Oldest.
Context `{SemverOrder}.

(** What semver promises of its ordering. *)
Record semver_laws : Prop := {
  less_irrefl v : LessThan v v = false;
  less_trans a b c : LessThan a b = true -> LessThan b c = true -> LessThan a c = true;
}.

(** A version, or none. *)
Definition readable (v : string) : Prop := v = ""%string \/ is_Some (NewVersion v).

(** [cur] is no newer than [v]. *)
Definition absorbs (cur v : string) : Prop := v = ""%string \/ (cur <> ""%string /\ versionLess v cur = false).

Context (laws : semver_laws).

Lemma versionLess_irrefl v : readable v -> v <> ""%string -> versionLess v v = false.
Proof using laws. intros [->|[x E]] Hne; [done|]. unfold versionLess. rewrite E. by apply less_irrefl. Qed.

Lemma versionLess_trans a b c : readable a -> readable b -> readable c -> a <> ""%string -> b <> ""%string -> c <> ""%string ->
  versionLess a b = true -> versionLess b c = true -> versionLess a c = true.
Proof using laws.
  intros [->|[x Ea]] [->|[y Eb]] [->|[z Ec]] Ha Hb Hc; try done. unfold versionLess. rewrite Ea, Eb, Ec. by apply less_trans.
Qed.

Lemma older_cases cur v : olderVersion cur v = v /\ v <> ""%string /\ (cur = ""%string \/ versionLess v cur = true) \/
  olderVersion cur v = cur /\ (v = ""%string \/ cur <> ""%string /\ versionLess v cur = false).
Proof.
  unfold olderVersion. destruct (String.eqb_spec v "") as [->|Hv]; cbn; [right; auto|].
  destruct (String.eqb_spec cur "") as [->|Hc]; cbn; [left; auto|]. destruct (versionLess v cur); auto.
Qed.

Lemma older_readable cur v : readable cur -> readable v -> readable (olderVersion cur v).
Proof. destruct (older_cases cur v) as [[-> _]|[-> _]]; auto. Qed.

Lemma older_absorbs_new cur v : readable v -> absorbs (olderVersion cur v) v.
Proof using laws.
  intros Hr. unfold absorbs. destruct (older_cases cur v) as [(-> & Hne & _)|(-> & Hv)].
  - right. split; [done|]. by apply versionLess_irrefl.
  - destruct Hv; auto.
Qed.

Lemma older_absorbs cur x v : readable cur -> readable x -> readable v -> absorbs cur v -> absorbs (olderVersion cur x) v.
Proof using laws.
  intros Hc Hx Hv [->|[Hne Hless]]; [by left|]. destruct (older_cases cur x) as [(-> & Hxne & [->|Hlt])|(-> & _)]; [done| |by right].
  destruct (String.eqb_spec v "") as [->|Hvne]; [by left|]. right. split; [done|].
  destruct (versionLess v x) eqn:E; [|done]. by rewrite (versionLess_trans v x cur) in Hless.
Qed.

(** The fold of [olderVersion] is one of the versions, and no newer than any. *)
Lemma oldest l cur : readable cur -> Forall readable l ->
  let m := foldl olderVersion cur l in
  readable m /\ (m = cur \/ m ∈ l) /\ (forall v, v ∈ l -> absorbs m v) /\ (forall v, readable v -> absorbs cur v -> absorbs m v).
Proof using laws.
  revert cur. induction l as [|x l IH]; intros cur Hc Hl; cbn.
  - split_and!; [done|by left|by intros v ?%not_elem_of_nil|done].
  - apply Forall_cons in Hl as [Hx Hl]. destruct (IH (olderVersion cur x) (older_readable _ _ Hc Hx) Hl) as (H1 & H2 & H3 & H4).
    split_and!; [done| | |].
    + destruct H2 as [->|Hin]; [|right; by right]. destruct (older_cases cur x) as [[-> _]|[-> _]]; [right; by left|by left].
    + intros v [->|Hv]%elem_of_cons; [|auto]. apply H4; [done|]. by apply older_absorbs_new.
    + intros v Hv Ha. apply H4; [done|]. by apply older_absorbs.
Qed.

(** ** Every add-on shown is reported *)

(** Each version read parses. *)
Definition all_readable (es : list (install * evidence)) : Prop := Forall (fun p => readable (e_version p.2)) es.

(** The install is reported, at a version no newer than [v] or, for a pod,
    at that of a release on its release line. *)
Definition reported (insts : list AddOnInstance) (es : list (install * evidence)) (i : install) (e : evidence) : Prop :=
  exists inst, inst ∈ insts /\ ai_ID inst = i.1 /\ ai_Namespaces inst = [i.2] /\
    (e_version e <> ""%string -> ai_Version inst <> ""%string /\
      (versionLess (e_version e) (ai_Version inst) = false \/
       exists c, (i, c) ∈ es /\ e_source c = "chart"%string /\ e_source e <> "chart"%string /\
         e_version c <> ""%string /\ releaseLine (e_version c) = releaseLine (e_version e))).

Lemma orStr_absorbs a b v : absorbs a v -> absorbs (orStr a b) v.
Proof. unfold absorbs, orStr. intros [->|[Hne Hl]]; [by left|]. right. by rewrite (proj2 (String.eqb_neq a "") Hne). Qed.

Lemma sublist_oldest (sub : list evidence) (f : evidence -> option string) e v : Forall readable (omap f sub) -> e ∈ sub -> f e = Some v ->
  absorbs (foldl olderVersion "" (omap f sub)) v.
Proof using laws.
  intros Hr Hin Hf. destruct (oldest (omap f sub) "" ltac:(by left) Hr) as (_ & _ & Hall & _). apply Hall.
  apply list_elem_of_omap. eauto.
Qed.

Lemma instance_version_pod i sub e : Forall (fun x => readable (e_version x)) sub -> e ∈ sub ->
  (forall x, x ∈ sub -> e_source x <> "chart"%string \/ e_version x = ""%string) ->
  e_source e <> "chart"%string -> absorbs (ai_Version (instance i sub)) (e_version e).
Proof using laws.
  intros Hr Hin Hno He. rewrite instance_eq. cbn.
  assert (Happ : foldl olderVersion "" (omap appVersion sub) = ""%string).
  { assert (Hall : Forall (eq ""%string) (omap appVersion sub)).
    { apply Forall_forall. intros v (x & Hx & Ex)%list_elem_of_omap. unfold appVersion in Ex.
      destruct (e_source x =s "chart") eqn:Ec; [|done]. apply String.eqb_eq in Ec. simplify_eq. by destruct (Hno x Hx). }
    clear -Hall. induction Hall as [|v l <- _ IH]; [done|]. exact IH. }
  rewrite Happ. unfold orStr. cbn. apply (sublist_oldest sub podVersion e).
  - apply Forall_forall. intros v (x & Hx & Ex)%list_elem_of_omap. rewrite Forall_forall in Hr. unfold podVersion in Ex.
    destruct (_ =s _); [done|]. simplify_eq. auto.
  - done.
  - unfold podVersion. by rewrite (proj2 (String.eqb_neq _ _) He).
Qed.

Lemma instance_version_chart i sub e : Forall (fun x => readable (e_version x)) sub -> e ∈ sub ->
  e_source e = "chart"%string -> absorbs (ai_Version (instance i sub)) (e_version e).
Proof using laws.
  intros Hr Hin He. rewrite instance_eq. cbn. apply orStr_absorbs, (sublist_oldest sub appVersion e).
  - apply Forall_forall. intros v (x & Hx & Ex)%list_elem_of_omap. rewrite Forall_forall in Hr. unfold appVersion in Ex.
    destruct (_ =s _); [|done]. simplify_eq. auto.
  - done.
  - unfold appVersion. by rewrite He.
Qed.

Lemma instance_version_line i sub c : Forall (fun x => readable (e_version x)) sub -> c ∈ sub -> e_source c = "chart"%string ->
  e_version c <> ""%string -> ai_Version (instance i sub) <> ""%string.
Proof using laws.
  intros Hr Hc Ec Hne. destruct (instance_version_chart i sub c Hr Hc Ec) as [|[? _]]; done.
Qed.

(** Events other than an IngressClass's keep their namespace. *)
Lemma instance_namespace_kept i sub e : from_ok i sub -> e ∈ sub -> e_source e <> "ingressclass"%string ->
  ai_Namespaces (instance i sub) = [i.2].
Proof.
  intros Hok Hin He. rewrite instance_eq. cbn. destruct (sourceOf sub =s "ingressclass") eqn:E; [|done]. exfalso. apply String.eqb_eq in E.
  assert (Hne : sub <> []) by (intros ->; by apply not_elem_of_nil in Hin).
  pose proof (from_sources i sub Hok) as Hs. destruct (sourceOf_strongest sub Hs Hne) as [_ Hmax]. specialize (Hmax e Hin). rewrite E in Hmax.
  rewrite Forall_forall in Hs. specialize (Hs e Hin). unfold sources in Hs. rewrite !elem_of_cons, elem_of_nil in Hs.
  destruct Hs as [Es|[Es|[Es|[Es|[Es|[]]]]]]; rewrite Es in Hmax; cbn in Hmax; try lia. congruence.
Qed.

Lemma reported_in es i e : Forall event_ok es -> all_readable es -> (i, e) ∈ es -> e_source e <> "ingressclass"%string ->
  reported (instancesIn (map_to_list (byInstall es))) es i e.
Proof using laws.
  intros Hok Hr Hin Hns. set (evs := evidenceFor es i).
  assert (He : e ∈ evs) by (by apply evidenceFor_in).
  assert (Hne : evs <> []) by (intros E; rewrite E in He; by apply not_elem_of_nil in He).
  assert (Hfilter : forall p, from_ok i (List.filter p evs) /\ Forall (fun x => readable (e_version x)) (List.filter p evs)).
  { intros p. unfold from_ok. rewrite !Forall_forall. rewrite Forall_forall in Hok. unfold all_readable in Hr. rewrite Forall_forall in Hr.
    split; intros x [Hx%evidenceFor_in _]%filter_in; [by apply Hok|by apply (Hr (i, x))]. }
  assert (Hreach : forall x, x ∈ instances (i, evs) -> x ∈ instancesIn (map_to_list (byInstall es))).
  { intros x Hx. unfold instancesIn, sortInstances. rewrite isort_perm. apply in_flat_map_elem. exists (i, evs). split; [|done].
    apply elem_of_map_to_list, byInstall_Some. done. }
  unfold reported. destruct (offLine (lines evs) e) eqn:Eo.
  - assert (Hs : e ∈ straying evs) by (by apply filter_in). exists (instance i (straying evs)).
    destruct (Hfilter (offLine (lines evs))) as [Hf Hv]. split_and!.
    + apply Hreach. rewrite instances_eq. destruct (straying evs) as [|y l] eqn:Es; [by apply not_elem_of_nil in Hs|]. cbn. right. by left.
    + by rewrite instance_eq.
    + by apply (instance_namespace_kept i _ e).
    + intros Hve. destruct (instance_version_pod i (straying evs) e Hv Hs) as [|[? ?]]; [|by apply (straying_source evs)|done|auto].
      intros x Hx. left. by apply (straying_source evs).
  - assert (Ha : e ∈ agreeing evs) by (apply filter_in; split; [done|]; unfold compose; by rewrite Eo). exists (instance i (agreeing evs)).
    destruct (Hfilter (negb ∘ offLine (lines evs))) as [Hf Hv]. fold (agreeing evs) in Hf, Hv. split_and!.
    + apply Hreach. rewrite instances_eq. by left.
    + by rewrite instance_eq.
    + by apply (instance_namespace_kept i _ e).
    + intros Hve. destruct (String.eqb_spec (e_source e) "chart") as [Ec|Ec].
      * destruct (instance_version_chart i (agreeing evs) e Hv Ha Ec) as [|[? ?]]; [done|auto].
      * destruct (lines evs) as [|l ls] eqn:El.
        -- destruct (instance_version_pod i (agreeing evs) e Hv Ha) as [|[? ?]]; [|done|done|auto].
           intros x [Hx _]%filter_in. destruct (String.eqb_spec (e_source x) "chart") as [Exc|]; [|by left]. right.
           destruct (String.eqb_spec (e_version x) ""); [done|]. exfalso.
           assert (Hl : releaseLine (e_version x) ∈ lines evs) by (apply lines_in; eauto). rewrite El in Hl. by apply not_elem_of_nil in Hl.
        -- unfold offLine in Eo. rewrite <- El in Eo. rewrite (proj2 (String.eqb_neq _ _) Ec), (proj2 (String.eqb_neq _ _) Hve) in Eo.
           rewrite El in Eo at 1. cbn in Eo. apply negb_false_iff, mem_str_spec, lines_in in Eo as (c & Hc & Esc & Hvc & El').
           pose proof (chart_agrees evs c Hc Esc) as Hca.
           split; [by apply (instance_version_line i (agreeing evs) c)|]. right. exists c.
           split_and!; [by apply evidenceFor_in|done..].
Qed.

Lemma all_readable_all ev addons : all_readable (events ev addons) -> all_readable (allEvents ev addons).
Proof.
  intros Hr. unfold all_readable, allEvents. apply Forall_app. split; [done|]. apply Forall_forall.
  intros p (c & _ & (id & rest & _ & -> & _)%ingressEvents_in)%in_flat_map_elem. by left.
Qed.

Lemma event_reported ev addons i e : all_readable (events ev addons) -> (i, e) ∈ events ev addons ->
  reported (matchAddOns ev addons).1 (allEvents ev addons) i e.
Proof using laws.
  intros Hr Hin. apply reported_in; [apply allEvents_ok|by apply all_readable_all| |].
  - unfold allEvents. rewrite elem_of_app. by left.
  - intros E. apply events_source in Hin. cbn in Hin. rewrite E in Hin. set_solver.
Qed.
End Oldest.

(** No running add-on goes unreported, and no newer version hides an
    older one: every image of the evidence is in the list of unrecognized
    images or is claimed, and each claim, each Helm release of an entry's
    chart and each GitOps reference to one is an instance in that namespace
    whose version is no newer, or is that of a Helm release on the same
    release line. *)
Lemma matchAddOns_complete `{SemverOrder} (ev : addOnEvidence) (addons : list AddOn) :
  semver_laws -> all_readable (events ev addons) ->
  let insts := (matchAddOns ev addons).1 in
  let es := allEvents ev addons in
  (forall img, img ∈ ev_images ev ->
     (settledClaims ev addons img = [] -> fullPath (parseImage (ni_Image img)) ∈ (matchAddOns ev addons).2) /\
     (forall c, c ∈ settledClaims ev addons img -> reported insts es (cl_id c, ni_Namespace img) (mkOne "image" (cl_version c) ""))) /\
  (forall r a, r ∈ ev_releases ev -> a ∈ addons -> h_ChartName r ∈ m_Charts (a_Matchers a) ->
     reported insts es (a_ID a, h_Namespace r) (mkOne "chart" (versionFromTag (h_AppVersion r)) (TrimPrefix (h_ChartVersion r) "v"))) /\
  (forall g a, g ∈ ev_gitops ev -> a ∈ addons -> g_Chart g ∈ m_Charts (a_Matchers a) ->
     reported insts es (a_ID a, g_Target g) (mkOne "gitops" "" (exactChartVersion (g_Version g)))).
Proof.
  intros Hlaws Hr insts es. split_and!.
  - intros img Hin. split.
    + intros E. unfold matchAddOns. cbn [snd]. rewrite sort_strings_perm, elem_of_remove_dups. apply list_elem_of_omap.
      exists img. split; [done|]. unfold unmatchedRepo. by rewrite E.
    + intros c Hc. apply (event_reported Hlaws); [done|]. apply events_in. left. exists img. split; [done|].
      unfold imageEvents. apply list_elem_of_fmap. by exists c.
  - intros r a Hrel Ha Hc. apply (event_reported Hlaws); [done|]. apply events_in. right. right. left. exists r. split; [done|].
    apply in_flat_map_elem. exists a. split; [done|]. apply list_elem_of_omap. exists (h_ChartName r). by rewrite String.eqb_refl.
  - intros g a Hg Ha Hc. apply (event_reported Hlaws); [done|]. apply events_in. right. right. right. exists g. split; [done|].
    apply list_elem_of_omap. exists a. split; [done|]. apply mem_str_spec in Hc. by rewrite Hc.
Qed.

(** ** A cluster mid-upgrade *)

#[local] Existing Instance exactSemver.

(** Versions ordered by their numbers. *)
Definition numbersOf (v : string) : list Z := map (fun c => digits_val 0 (split_at (fun a => negb (is_digit a)) c).1) (Split v ".").

Fixpoint numbersLess (a b : list Z) : bool :=
  match a, b with
  | x :: a', y :: b' => (x <? y) || ((x =? y) && numbersLess a' b')
  | [], _ :: _ => true
  | _, [] => false
  end.

#[local] Instance dottedOrder : SemverOrder := {|
  LessThan a b := numbersLess (numbersOf a) (numbersOf b);
  StrictNewVersion v := if v =s "" then None else Some v;
|}.

Lemma dotted_laws : @semver_laws exactSemver dottedOrder.
Proof.
  split.
  - intros v. cbn. induction (numbersOf v) as [|x l IH]; cbn; [done|]. by rewrite Z.ltb_irrefl, IH, andb_false_r.
  - intros a b c. cbn. generalize (numbersOf a) as x, (numbersOf b) as y, (numbersOf c) as z. clear.
    intros x. induction x as [|i x IH]; intros [|j y] [|k z]; cbn; try done. rewrite !orb_true_iff, !andb_true_iff, !Z.ltb_lt, !Z.eqb_eq.
    intros [Hij|[-> Hxy]] [Hjk|[-> Hyz]]; [left; lia|left; lia|left; lia|right; split; [done|]]. by apply (IH y z).
Qed.

Definition istioEntry : AddOn := entryOfMatchers "istio" ["istio/pilot"] ["istiod"].

Definition istiodRelease : HelmRelease := mkHelmRelease "istiod" "istio-system" "istiod" "1.24.1" "1.24.1" "" "deployed" 1 [].

(** A canary revision at an older release line beside the Helm release. *)
Definition meshEvidence : addOnEvidence :=
  mkEvidence [mkNsImage "istio-system" "docker.io/istio/pilot:1.24.2"; mkNsImage "istio-system" "istio/pilot:1.9.4"; mkNsImage "web" "nginx:1.27"]
    [] [istiodRelease] [] [].

Lemma meshEvents : events meshEvidence [istioEntry] =
  [(("istio", "istio-system"), mkOne "image" "1.24.2" ""); (("istio", "istio-system"), mkOne "image" "1.9.4" "");
   (("istio", "istio-system"), mkOne "chart" "1.24.1" "1.24.1")]%string.
Proof. vm_compute. reflexivity. Qed.

Lemma meshReadable : all_readable (events meshEvidence [istioEntry]).
Proof. rewrite meshEvents. unfold all_readable, readable. repeat (apply Forall_cons_2; [right; eexists; reflexivity|]). apply Forall_nil_2. Qed.

Lemma matchAddOns_deterministic_witness :
  instancesIn (reverse (map_to_list (byInstall (allEvents meshEvidence [istioEntry; nginxEntry])))) = (matchAddOns meshEvidence [istioEntry; nginxEntry]).1.
Proof. apply (matchAddOns_deterministic meshEvidence [istioEntry; nginxEntry]). apply reverse_Permutation. Defined.

Lemma matchAddOns_complete_witness :
  reported (matchAddOns meshEvidence [istioEntry]).1 (allEvents meshEvidence [istioEntry]) ("istio", "istio-system")%string (mkOne "image" "1.9.4" "") /\
  (matchAddOns meshEvidence [istioEntry]).2 = ["docker.io/library/nginx"]%string.
Proof.
  split; [|vm_compute; reflexivity].
  destruct (matchAddOns_complete meshEvidence [istioEntry] dotted_laws meshReadable) as [Himg _].
  refine (proj2 (Himg (mkNsImage "istio-system" "istio/pilot:1.9.4") _) (mkClaim "istio" "1.9.4" true) _).
  - right. left.
  - vm_compute. left.
Defined.

(** Where a version does not parse, the pick depends on the order of the
    pods: [versionLess] compares it as text, and the three relations make a
    cycle. *)
#[local] Instance narrowSemver : Semver := {|
  Constraint := unit; SemVersion := string;
  NewConstraint _ := None;
  NewVersion s := if 12 <? slen s then None else Some s;
  Prerelease _ := ""%string; Metadata _ := ""%string;
  SetPrerelease v _ := Some v; SetMetadata v _ := Some v;
  NewMinor x y := itoa x +:+ "." +:+ itoa y;
  Check _ _ := false
|}.

#[local] Instance narrowOrder : @SemverOrder narrowSemver := {|
  LessThan a b := numbersLess (numbersOf a) (numbersOf b);
  StrictNewVersion v := @NewVersion narrowSemver v;
|}.

Lemma oldest_depends_on_order :
  let huge := "1.5.99999999999999999999"%string in
  foldl (@olderVersion narrowSemver narrowOrder) "" ["1.10"%string; "1.9"%string; huge] = huge /\
  foldl (@olderVersion narrowSemver narrowOrder) "" [huge; "1.9"%string; "1.10"%string] = "1.10"%string.
Proof. vm_compute. auto. Qed.
