(* ===== verification/Tally.v ===== *)
(** * The volume plugins of a cluster: internal/collect/volumes.go

    The count of pods, PersistentVolumes and StorageClasses per in-tree
    plugin, and the lists it is read from. An apiserver is what it answers
    call by call; which JSON fields of the Kubernetes volume types name a
    plugin is an argument ([fields]). *)

From stdpp Require Import base list strings gmap.
From Stdlib Require Import ZArith Lia Ascii.
From S2P Require Import Prelude GoStr Version Inventory KB Suppress.

(** ** Lists of an apiserver *)

(** One answer to a paged list: a page with the token of the next one
    (empty on the last), or an error. *)
Inductive listAnswer (A : Type) :=
| Page (items : list A) (continue : string)
| ListError (notFound badRequest : bool) (msg : string).
Arguments Page {A} items continue.
Arguments ListError {A} notFound badRequest msg.

(** ** Plugins *)

Record volumePlugins := mkVolumePlugins {
  vps_dataset : list VolumePlugin;
  vps_podFields : list string;  (** JSON names of the pointer fields of [corev1.VolumeSource] *)
  vps_pvFields : list string;   (** of [corev1.PersistentVolumeSource] *)
}.

Definition VolumePluginNames (vps : volumePlugins) : list string := map vp_Plugin (vps_dataset vps).

(** [pluginFields]: the plugins that are fields of a type. *)
Definition pluginFields (vps : volumePlugins) (fields : list string) : list string :=
  List.filter (fun p => mem_str p fields) (VolumePluginNames vps).

(** A volume source is the names of its fields that are set. *)
Definition setPlugins (out : list string) (source fields : list string) : list string :=
  foldl (fun out p => if mem_str p source && negb (mem_str p out) then out ++ [p] else out) out fields.

Definition podVolumePlugins (vps : volumePlugins) (vols : list (list string)) : list string :=
  sort_strings (foldl (fun out source => setPlugins out source (pluginFields vps (vps_podFields vps))) [] vols).

Definition pvVolumePlugins (vps : volumePlugins) (source : list string) : list string :=
  sort_strings (setPlugins [] source (pluginFields vps (vps_pvFields vps))).

(** [volumeProvisioners]: the last plugin of the dataset with the
    provisioner. *)
Definition volumeProvisioner (vps : volumePlugins) (provisioner : string) : string :=
  match find (fun p => negb (vp_Provisioner p =s "") && (vp_Provisioner p =s provisioner)) (reverse (vps_dataset vps)) with
  | Some p => vp_Plugin p
  | None => ""
  end.

(** ** The tally *)

Abbreviation volumeTally := (gmap string VolumePluginUse) (only parsing).

Definition noUse (plugin : string) : VolumePluginUse := mkVolumePluginUse plugin 0 ∅ [] 0.

Definition addUse (namespace : string) (n : Z) (ref : option ObjectRef) (u : VolumePluginUse) : VolumePluginUse :=
  let full := MaxObjectRefs <=? zlen (vu_Objects u) in
  mkVolumePluginUse (vu_Plugin u) (vu_Count u + n) (<[namespace := default 0 (vu_Namespaces u !! namespace) + n]> (vu_Namespaces u))
    (match ref with Some r => if full then vu_Objects u else vu_Objects u ++ [r] | None => vu_Objects u end)
    (match ref with Some _ => if full then vu_ObjectsOmitted u + 1 else vu_ObjectsOmitted u | None => vu_ObjectsOmitted u end).

(** [volumeTally.add]. *)
Definition tallyAdd (plugin namespace : string) (n : Z) (ref : option ObjectRef) (t : volumeTally) : volumeTally :=
  <[plugin := addUse namespace n ref (default (noUse plugin) (t !! plugin))]> t.

(** [volumeTally.addPod]. *)
Definition tallyPod (vps : volumePlugins) (namespace : string) (vols : list (list string)) (t : volumeTally) : volumeTally :=
  foldl (fun t p => tallyAdd p namespace 1 None t) t (podVolumePlugins vps vols).

(** The order of the range over a plugin's namespaces does not show: each
    entry adds to a key of its own. *)
Definition mergeUse (p : string) (u : VolumePluginUse) (t : volumeTally) : volumeTally :=
  foldl (fun t '(ns, n) => tallyAdd p ns n None t) t (map_to_list (vu_Namespaces u)).

(** [volumeTally.merge]. *)
Definition tallyMerge (t o : volumeTally) : volumeTally :=
  foldl (fun t p => match o !! p with Some u => mergeUse p u t | None => t end) t (sort_strings (elements (dom o))).

(** [volumeTally.without]. *)
Definition tallyWithout (t : volumeTally) (ns : string) : volumeTally :=
  foldl (fun out '(p, u) => foldl (fun out '(k, n) => if negb (k =s ns) then tallyAdd p k n None out else out) out (map_to_list (vu_Namespaces u)))
    ∅ (map_to_list t).

(** [volumeTally.rows]. *)
Definition tallyRows (t : volumeTally) : list VolumePluginUse := omap (fun p => t !! p) (sort_strings (elements (dom t))).

(** ** PersistentVolumes and StorageClasses *)

Record persistentVolume := mkPV {
  pv_Name : string;
  pv_Annotations : gmap string string;
  pv_ClaimNamespace : option string;
  pv_Bound : bool;
  pv_Source : list string;
}.

Record storageClass := mkSC { sc_Name : string; sc_Annotations : gmap string string; sc_Provisioner : string }.

(** [withIgnore] of a reference that is only a name. *)
Definition namedRef (name : string) (ann : gmap string string) : ObjectRef :=
  let '(ignore, reason, legacy, reasonLegacy) := ReadIgnore (fun k => ann !! k) in
  mkObjectRef "" name "" 0 "" "" ignore reason legacy reasonLegacy.

Definition tallyPV (vps : volumePlugins) (t : volumeTally) (pv : persistentVolume) : volumeTally :=
  let ns := match pv_ClaimNamespace pv with Some ns => if pv_Bound pv then ns else "" | None => "" end%string in
  foldl (fun t p => tallyAdd p ns 1 (Some (namedRef (pv_Name pv) (pv_Annotations pv))) t) t (pvVolumePlugins vps (pv_Source pv)).

Definition tallySC (vps : volumePlugins) (t : volumeTally) (sc : storageClass) : volumeTally :=
  let p := volumeProvisioner vps (sc_Provisioner sc) in
  if p =s "" then t else tallyAdd p "" 1 (Some (namedRef (sc_Name sc) (sc_Annotations sc))) t.

Record volumeObjectsRead := mkVolumeObjectsRead { vr_reasons : list string; vr_skipped : list string }.

Definition listFailed (resource kind cont err : string) : string :=
  let what := if negb (cont =s "") then "only the " +:+ kind +:+ " listed before the failure were checked" else kind +:+ " were not checked" in
  "list " +:+ resource +:+ ": " +:+ err +:+ "; " +:+ what.

(** A paged list into a tally, [api] answering the calls from the [k]-th on:
    the tally, and the error the list ended in with the token it was at.
    [None]: the list is not over after [fuel] calls. *)
Fixpoint listInto {A} (add : volumeTally -> A -> volumeTally) (api : nat -> string -> listAnswer A) (fuel k : nat) (cont : string) (t : volumeTally)
    : option (volumeTally * option (string * string)) :=
  match fuel with
  | O => None
  | S fuel' =>
      match api k cont with
      | ListError _ _ msg => Some (t, Some (cont, msg))
      | Page items cont' =>
          let t := foldl add t items in
          if cont' =s "" then Some (t, None) else listInto add api fuel' (S k) cont' t
      end
  end.

Definition listVolumeObjects (vps : volumePlugins) (pvs : nat -> string -> listAnswer persistentVolume) (scs : nat -> string -> listAnswer storageClass)
    (fuel : nat) (t : volumeTally) : option (volumeTally * volumeObjectsRead) :=
  match listInto (tallyPV vps) pvs fuel 0 "" t with
  | None => None
  | Some (t, e1) =>
      match listInto (tallySC vps) scs fuel 0 "" t with
      | None => None
      | Some (t, e2) =>
          let reason resource kind e := match e with Some (cont, msg) => [listFailed resource kind cont msg] | None => [] end in
          let skip name (e : option (string * string)) := match e with Some _ => [name] | None => [] end in
          Some (t, mkVolumeObjectsRead
            (reason "persistentvolumes"%string "PersistentVolumes"%string e1 ++ reason "storageclasses"%string "StorageClasses"%string e2)
            (skip SkippedPersistentVolumes e1 ++ skip SkippedStorageClasses e2))
      end
  end.

(** [setLiveVolumes]: the rows of the inventory and the capability. *)
Definition setLiveVolumes (t : volumeTally) (podErr : option string) (podsRead : bool) (objs : volumeObjectsRead)
    : list VolumePluginUse * CapabilityStatus :=
  match podErr, podsRead with
  | Some e, false => ([], mkCapabilityStatus false ("list pods: " +:+ e) false [])
  | _, _ =>
      let '(reason, skipped) := match podErr with
        | None => (""%string, [])
        | Some e => ("list pods: " +:+ e +:+ "; volume plugins were read from the pods listed before the failure only", [SkippedPods])
        end in
      let '(reason, skipped) :=
        if 0 <? zlen (vr_reasons objs)
        then (Join (List.filter (fun s => negb (s =s "")) (reason :: vr_reasons objs)) "; ", sort_strings (skipped ++ vr_skipped objs))
        else (reason, skipped) in
      (tallyRows t, mkCapabilityStatus true reason (negb (reason =s "")) skipped)
  end.

(** * Tallies of volume plugins

    A tally of live pods is a count per plugin and namespace: merging adds
    the counts, leaving a namespace out drops its own, and the same counts
    are the same tally. *)

(** The count of a plugin in a namespace. *)
Definition countAt (t : volumeTally) (p ns : string) : option Z := t !! p ≫= fun u => vu_Namespaces u !! ns.

Definition total (m : gmap string Z) : Z := map_fold (fun _ n acc => n + acc) 0 m.

(** A tally of pods alone: no references, and every count in a namespace. *)
Record use_live (p : string) (u : VolumePluginUse) : Prop := {
  ul_plugin : vu_Plugin u = p;
  ul_count : vu_Count u = total (vu_Namespaces u);
  ul_namespaces : vu_Namespaces u <> ∅;
  ul_objects : vu_Objects u = [] /\ vu_ObjectsOmitted u = 0;
}.

Definition live (t : volumeTally) : Prop := map_Forall use_live t.

Lemma total_insert m ns n : total (<[ns := default 0 (m !! ns) + n]> m) = total m + n.
Proof.
  unfold total.
  destruct (m !! ns) as [k|] eqn:E; cbn.
  - rewrite <- (insert_delete_id m ns k E) at 2. rewrite <- (insert_delete_eq m).
    rewrite !map_fold_insert_L; try (intros; lia); apply lookup_delete_eq.
  - rewrite map_fold_insert_L; [lia|intros; lia|done].
Qed.

(** The same counts are the same tally. *)
Lemma live_ext t t' : live t -> live t' -> (forall p ns, countAt t p ns = countAt t' p ns) -> t = t'.
Proof.
  intros Ht Ht' E. apply map_eq. intros p.
  assert (Hsome : forall s s', live s -> (forall ns, countAt s p ns = countAt s' p ns) -> forall u, s !! p = Some u -> exists u', s' !! p = Some u' /\ vu_Namespaces u = vu_Namespaces u').
  { intros s s' Hs Hc u Hu. destruct (Hs p u Hu) as [_ _ Hne _]. apply map_choose in Hne as (ns & n & Hn).
    pose proof (Hc ns) as Hns. unfold countAt in Hns. rewrite Hu in Hns. cbn in Hns. rewrite Hn in Hns.
    destruct (s' !! p) as [u'|] eqn:Hu'; [|done]. exists u'. split; [done|]. apply map_eq. intros k. specialize (Hc k). unfold countAt in Hc.
    rewrite Hu, Hu' in Hc. done. }
  destruct (t !! p) as [u|] eqn:Hu.
  - destruct (Hsome t t' Ht (E p) u Hu) as (u' & Hu' & Hns). rewrite Hu'. f_equal.
    destruct (Ht p u Hu) as [H1 H2 _ [H3 H4]], (Ht' p u' Hu') as [H5 H6 _ [H7 H8]]. destruct u, u'; cbn in *. by subst.
  - destruct (t' !! p) as [u'|] eqn:Hu'; [|done]. destruct (Hsome t' t Ht' (fun ns => eq_sym (E p ns)) u' Hu') as (u & Hu2 & _). congruence.
Qed.

Definition plusAt (o : option Z) (n : Z) : option Z := Some (default 0 o + n).

Lemma tallyAdd_count p ns n t q k : countAt (tallyAdd p ns n None t) q k = if bool_decide (q = p /\ k = ns) then plusAt (countAt t p ns) n else countAt t q k.
Proof.
  unfold countAt, tallyAdd. destruct (decide (q = p)) as [->|Hq].
  - rewrite lookup_insert_eq. cbn. destruct (decide (k = ns)) as [->|Hk].
    + rewrite lookup_insert_eq, bool_decide_eq_true_2 by done. unfold plusAt. destruct (t !! p); cbn; [done|]. by rewrite lookup_empty.
    + rewrite lookup_insert_ne, bool_decide_eq_false_2 by naive_solver. destruct (t !! p); cbn; [done|]. by rewrite lookup_empty.
  - rewrite lookup_insert_ne, bool_decide_eq_false_2 by naive_solver. done.
Qed.

Lemma tallyAdd_live p ns n t : live t -> live (tallyAdd p ns n None t).
Proof.
  intros Ht. unfold live, tallyAdd. apply map_Forall_insert_2; [|done].
  assert (Hu : vu_Plugin (default (noUse p) (t !! p)) = p /\ vu_Count (default (noUse p) (t !! p)) = total (vu_Namespaces (default (noUse p) (t !! p))) /\
    vu_Objects (default (noUse p) (t !! p)) = [] /\ vu_ObjectsOmitted (default (noUse p) (t !! p)) = 0).
  { destruct (t !! p) as [u|] eqn:E; cbn; [destruct (Ht p u E) as [? ? _ [? ?]]; done|done]. }
  destruct Hu as (H1 & H2 & H3 & H4). split; cbn; [done| |apply insert_non_empty|done]. rewrite total_insert. lia.
Qed.

(** Adding a list of counts at different namespaces. *)
Lemma fold_count p (l : list (string * Z)) (keep : string -> bool) t q k : NoDup l.*1 ->
  countAt (foldl (fun t '(ns, n) => if keep ns then tallyAdd p ns n None t else t) t l) q k =
  match (list_to_map l : gmap string Z) !! k with
  | Some n => if bool_decide (q = p) && keep k then plusAt (countAt t q k) n else countAt t q k
  | None => countAt t q k
  end.
Proof.
  revert t. induction l as [|[ns n] l IH]; intros t Hnd; cbn [foldl]; [done|]. cbn in Hnd. apply NoDup_cons in Hnd as [Hnew Hnd].
  rewrite IH by done. cbn [list_to_map foldr]. assert (Hnone : (list_to_map l : gmap string Z) !! ns = None) by (by apply not_elem_of_list_to_map_1).
  destruct (decide (k = ns)) as [->|Hk].
  - cbn. rewrite Hnone, lookup_insert_eq. destruct (keep ns); [|by rewrite andb_false_r]. rewrite tallyAdd_count, andb_true_r.
    destruct (decide (q = p)) as [->|Hq]; [by rewrite !bool_decide_eq_true_2|]. by rewrite !bool_decide_eq_false_2 by naive_solver.
  - cbn. rewrite lookup_insert_ne by done. assert (E : countAt (if keep ns then tallyAdd p ns n None t else t) q k = countAt t q k); [|by rewrite E].
    destruct (keep ns); [|done]. rewrite tallyAdd_count, bool_decide_eq_false_2 by naive_solver. done.
Qed.

Lemma mergeUse_count p u t q k :
  countAt (mergeUse p u t) q k = match vu_Namespaces u !! k with
    | Some n => if bool_decide (q = p) then plusAt (countAt t q k) n else countAt t q k
    | None => countAt t q k end.
Proof.
  unfold mergeUse. rewrite (fold_count p _ (fun _ => true)) by apply NoDup_fst_map_to_list. rewrite list_to_map_to_list.
  destruct (vu_Namespaces u !! k); [|done]. by rewrite andb_true_r.
Qed.

Lemma fold_live {A} (f : volumeTally -> A -> volumeTally) l t : (forall t x, live t -> live (f t x)) -> live t -> live (foldl f t l).
Proof. intros Hf. revert t. induction l as [|x l IH]; intros t Ht; cbn; auto. Qed.

Lemma mergeUse_live p u t : live t -> live (mergeUse p u t).
Proof. apply fold_live. intros s [ns n] Hs. by apply tallyAdd_live. Qed.

Lemma merge_fold o l t q k : NoDup l ->
  countAt (foldl (fun t p => match o !! p with Some u => mergeUse p u t | None => t end) t l) q k =
  if bool_decide (q ∈ l) then match countAt o q k with Some n => plusAt (countAt t q k) n | None => countAt t q k end else countAt t q k.
Proof.
  revert t. induction l as [|p l IH]; intros t Hnd; cbn; [done|]. apply NoDup_cons in Hnd as [Hnew Hnd]. rewrite IH by done.
  destruct (decide (q = p)) as [->|Hq].
  - rewrite bool_decide_eq_false_2 by done. rewrite bool_decide_eq_true_2 by (by left). unfold countAt at 2.
    destruct (o !! p) as [u|]; cbn; [|done]. rewrite mergeUse_count, bool_decide_eq_true_2 by done. done.
  - assert (E : countAt (match o !! p with Some u => mergeUse p u t | None => t end) q k = countAt t q k).
    { destruct (o !! p); [|done]. rewrite mergeUse_count, bool_decide_eq_false_2 by done. by destruct (_ !! k). }
    rewrite E. rewrite (bool_decide_ext (q ∈ p :: l) (q ∈ l)); [done|]. rewrite elem_of_cons. naive_solver.
Qed.

(** Merging adds the counts. *)
Lemma tallyMerge_count t o q k :
  countAt (tallyMerge t o) q k = match countAt o q k with Some n => plusAt (countAt t q k) n | None => countAt t q k end.
Proof.
  unfold tallyMerge. rewrite merge_fold by (rewrite sort_strings_perm; apply NoDup_elements). case_bool_decide as Hin; [done|].
  rewrite sort_strings_perm, elem_of_elements, elem_of_dom, <- eq_None_not_Some in Hin. unfold countAt at 2. by rewrite Hin.
Qed.

Lemma tallyMerge_live t o : live t -> live (tallyMerge t o).
Proof. apply fold_live. intros s p Hs. destruct (o !! p); [by apply mergeUse_live|done]. Qed.

(** Leaving a namespace out drops its counts alone. *)
Lemma tallyWithout_count t ns q k : countAt (tallyWithout t ns) q k = if k =s ns then None else countAt t q k.
Proof.
  unfold tallyWithout.
  assert (Hgen : forall l s, NoDup l.*1 -> (forall p u, (p, u) ∈ l -> t !! p = Some u) ->
    countAt (foldl (fun out '(p, u) => foldl (fun out '(k, n) => if negb (k =s ns) then tallyAdd p k n None out else out) out (map_to_list (vu_Namespaces u))) s l) q k =
    if bool_decide (q ∈ l.*1) && negb (k =s ns) then match countAt t q k with Some n => plusAt (countAt s q k) n | None => countAt s q k end else countAt s q k).
  { intros l. induction l as [|[p u] l IH]; intros s Hnd Hl; cbn [foldl]; [done|]. cbn in Hnd. apply NoDup_cons in Hnd as [Hnew Hnd].
    rewrite IH; [|done|intros p' u' Hp; apply Hl; by right].
    pose proof (Hl p u ltac:(by left)) as Hp.
    assert (Hs : countAt (foldl (fun out '(k0, n) => if negb (k0 =s ns) then tallyAdd p k0 n None out else out) s (map_to_list (vu_Namespaces u))) q k =
      match vu_Namespaces u !! k with Some n => if bool_decide (q = p) && negb (k =s ns) then plusAt (countAt s q k) n else countAt s q k | None => countAt s q k end).
    { rewrite (fold_count p _ (fun k0 => negb (k0 =s ns))) by apply NoDup_fst_map_to_list. by rewrite list_to_map_to_list. }
    rewrite Hs. cbn [fmap list_fmap fst]. destruct (decide (q = p)) as [->|Hq].
    - rewrite (bool_decide_eq_false_2 (p ∈ l.*1)) by done. rewrite (bool_decide_eq_true_2 (p ∈ p :: l.*1)) by (by left). cbn [andb].
      rewrite bool_decide_eq_true_2 by done. unfold countAt at 4. rewrite Hp. cbn. destruct (vu_Namespaces u !! k); [done|]. by destruct (negb _).
    - rewrite (bool_decide_eq_false_2 (q = p)) by done. cbn [andb]. assert (E : match vu_Namespaces u !! k with Some _ => countAt s q k | None => countAt s q k end = countAt s q k) by (by destruct (_ !! k)).
      rewrite E. rewrite (bool_decide_ext (q ∈ p :: l.*1) (q ∈ l.*1)); [done|]. rewrite elem_of_cons. naive_solver. }
  rewrite Hgen; [|apply NoDup_fst_map_to_list|intros p u; apply elem_of_map_to_list]. unfold countAt at 2 3. rewrite lookup_empty. cbn.
  destruct (k =s ns); [by rewrite andb_false_r|]. rewrite andb_true_r. case_bool_decide as Hin.
  - by destruct (countAt t q k).
  - unfold countAt. destruct (t !! q) as [u|] eqn:E; [|done]. exfalso. apply Hin. apply list_elem_of_fmap. exists (q, u). by rewrite elem_of_map_to_list.
Qed.

Lemma tallyWithout_live t ns : live (tallyWithout t ns).
Proof.
  apply fold_live; [|done]. intros s [p u] Hs. apply fold_live; [|done]. intros s' [k n] Hs'. destruct (negb _); [by apply tallyAdd_live|done].
Qed.
