(* ===== verification/PodPass.v ===== *)
(** * Reading the pods: internal/collect/podpass_cache.go, addons.go

    The cache of a full pass over the pods outside kube-system, and the
    add-ons step that reads pods, IngressClasses and volumes, from the cache
    when it may. The clock and the apiserver's answers are arguments. The
    sizes of pages only set how many objects are asked for and are left
    out. *)

From stdpp Require Import base list strings gmap.
From Stdlib Require Import ZArith Lia Ascii.
From S2P Require Import Prelude GoStr GoTime GoSha Version Inventory KB Registry Detect Tally.

Definition NamespaceSystem : string := "kube-system".

(** ** The cache *)

Record passCache := mkPass {
  pc_every : Z;
  pc_maxAge : Z;
  pc_have : bool;
  pc_at : Time;
  pc_since : Z;
  pc_sig : string;
  pc_images : list nsImage;
  pc_labels : list labelledPod;
  pc_volumes : gmap string VolumePluginUse;
}.

Definition NewPodPassCache (every maxAge : Z) : passCache := mkPass every maxAge false zeroTime 0 "" [] [] ∅.

(** [forget]. *)
Definition forget (c : passCache) : passCache := NewPodPassCache (pc_every c) (pc_maxAge c).

Definition enabled (c : passCache) : bool := 1 <? pc_every c.

(** [reuse] at [now]: the evidence and its age in seconds, and the cache
    that counted the reuse. *)
Definition reuse (now : Time) (sig : string) (c : passCache) : option (list nsImage * list labelledPod * Z) * passCache :=
  if negb (enabled c) || negb (pc_have c) || negb (sig =s pc_sig c) then (None, c)
  else
    let age := Sub now (pc_at c) in
    if (pc_every c <=? pc_since c + 1) || ((0 <? pc_maxAge c) && (pc_maxAge c <=? age)) then (None, c)
    else (Some (pc_images c, pc_labels c, Z.max 1 (Z.quot age second)),
          mkPass (pc_every c) (pc_maxAge c) (pc_have c) (pc_at c) (pc_since c + 1) (pc_sig c) (pc_images c) (pc_labels c) (pc_volumes c)).

(** The values kept by a loop that skips what [skip] names and keys seen. *)
Fixpoint firstOf {A K} `{EqDecision K} (key : A -> K) (skip : A -> bool) (seen : list K) (l : list A) : list A :=
  match l with
  | [] => []
  | x :: l' =>
      if skip x || bool_decide (key x ∈ seen) then firstOf key skip seen l'
      else x :: firstOf key skip (key x :: seen) l'
  end.

Definition nul : ascii := "000".

(** What tells two labelled pods apart. *)
Definition podKey (p : labelledPod) : string :=
  let l := lp_Labels p in
  Join ([lp_Namespace p; al_chart l; al_name l; al_version l; al_partOf l] ++ lp_Images p) (String nul "").

(** [record]. *)
Definition recordPass (ev : addOnEvidence) (volumes : gmap string VolumePluginUse) (start : Time) (sig : string) (c : passCache) : passCache :=
  if negb (enabled c) then c
  else mkPass (pc_every c) (pc_maxAge c) true start 0 sig
    (firstOf id (fun i => ni_Namespace i =s NamespaceSystem) [] (ev_images ev))
    (firstOf podKey (fun p => lp_Namespace p =s NamespaceSystem) [] (ev_labelled ev))
    (tallyWithout volumes NamespaceSystem).

Definition installSignature (releases : list HelmRelease) (gitops : list GitOpsChart) (addons : list AddOn) : string :=
  let names chart := existsb (fun a => mem_str chart (m_Charts (a_Matchers a))) addons in
  let sep := String nul "" in
  let lines :=
    omap (fun r => if names (h_ChartName r)
      then Some (Join ["helm"%string; h_Namespace r; h_Name r; h_ChartName r; h_ChartVersion r; h_AppVersion r; h_Status r; itoa (h_Revision r)] sep)
      else None) releases ++
    omap (fun g => if names (g_Chart g)
      then Some (Join ["gitops"%string; g_Tool g; g_Namespace g; g_Name g; g_Target g; g_Chart g; g_Version g; g_Repo g] sep)
      else None) gitops in
  if zlen lines =? 0 then ""
  else EncodeToString (Sum256 (Join (sort_strings lines) (String "010" ""))).

(** ** The add-ons step *)

Record pod := mkPod {
  pd_Name : string;
  pd_Namespace : string;
  pd_NodeName : string;
  pd_Labels : gmap string string;
  pd_InitImages : list string;
  pd_Images : list string;
  pd_Volumes : list (list string);
}.

(** [podContainerImages]. *)
Definition podContainerImages (p : pod) : list string := pd_InitImages p ++ pd_Images p.

(** Pod evidence with the volumes beside it. *)
Abbreviation podsRead := (addOnEvidence * gmap string VolumePluginUse)%type (only parsing).

Definition readPod (vps : volumePlugins) (st : podsRead) (p : pod) : podsRead :=
  (addPod (pd_Namespace p) (pd_Labels p) (podContainerImages p) st.1, tallyPod vps (pd_Namespace p) (pd_Volumes p) st.2).

(** What the versions step left of the kube-system pods, [None] when it did
    not list them all. *)
Abbreviation kubeSystemPods := (option podsRead) (only parsing).

Definition readPage (vps : volumePlugins) (sysRead : bool) (st : podsRead) (items : list pod) : podsRead :=
  foldl (fun st p => if sysRead && (pd_Namespace p =s NamespaceSystem) then st else readPod vps st p) st items.

Definition noPods (st : podsRead) : podsRead :=
  (mkEvidence [] [] (ev_releases st.1) (ev_gitops st.1) (ev_ingressControllers st.1), ∅).

(** The loop over the pod list from the [k]-th call on: what was read, the
    error it ended in, and whether a page was read. [selector] is whether
    kube-system is left out by a field selector. [None]: not over after
    [fuel] calls. *)
Fixpoint listPods (vps : volumePlugins) (sysRead : bool) (api : nat -> bool -> string -> listAnswer pod) (fuel k : nat)
    (selector : bool) (cont : string) (read : bool) (st : podsRead) : option (podsRead * option string * bool) :=
  match fuel with
  | O => None
  | S fuel' =>
      match api k selector cont with
      | ListError _ badRequest msg =>
          if (cont =s "") && selector && badRequest then listPods vps sysRead api fuel' (S k) false cont read st
          else Some (if cont =s "" then noPods st else st, Some msg, read)
      | Page items cont' =>
          let st := readPage vps sysRead st items in
          if cont' =s "" then Some (st, None, true)
          else listPods vps sysRead api fuel' (S k) selector cont' true st
      end
  end.

(** The list of IngressClasses: their controllers, the error unless the
    resource is not served, and whether a page was read. *)
Fixpoint listClasses (api : nat -> string -> listAnswer string) (fuel k : nat) (cont : string) (read : bool) (acc : list string)
    : option (list string * option string * bool) :=
  match fuel with
  | O => None
  | S fuel' =>
      match api k cont with
      | ListError notFound _ msg => Some (acc, if notFound then None else Some msg, read)
      | Page items cont' =>
          if cont' =s "" then Some (acc ++ items, None, true)
          else listClasses api fuel' (S k) cont' true (acc ++ items)
      end
  end.

(** A failure, a [partialError] that is incomplete, or one that only has
    something to say. *)
Inductive stepError := StepFailed (msg : string) | StepPartial (msg : string) (skipped : list string) | StepNoted (msg : string).

(** What the step sets of the inventory, and the outcome of the step. *)
Record addOnsRead := mkAddOnsRead {
  ar_AddOns : list AddOnInstance;
  ar_Unrecognized : list string;
  ar_UnrecognizedOmitted : Z;
  ar_Age : Z;
  ar_Volumes : list VolumePluginUse;
  ar_VolumesStatus : CapabilityStatus;
  ar_Error : option stepError;
}.

(** [setUnrecognized]. *)
Definition setUnrecognized (repos : list string) : list string * Z :=
  let n := zlen repos - MaxUnrecognizedImages in
  if 0 <? n then (take (Z.to_nat MaxUnrecognizedImages) repos, n) else (repos, 0).

(** The apiserver, as one collection meets it. *)
Record apiserver := mkAPI {
  as_pods : nat -> bool -> string -> listAnswer pod;
  as_classes : nat -> string -> listAnswer string;
  as_pvs : nat -> string -> listAnswer persistentVolume;
  as_scs : nat -> string -> listAnswer storageClass;
}.

Section Collect.
Context `{SemverOrder} (vps : volumePlugins).

(** The evidence a collection starts from: the releases and GitOps charts,
    and the kube-system pods when versions listed them. *)
Definition startEvidence (releases : list HelmRelease) (gitops : list GitOpsChart) (sys : kubeSystemPods) : podsRead :=
  match sys with
  | Some (e, vol) => (mkEvidence (ev_images e) (ev_labelled e) releases gitops [], tallyMerge ∅ vol)
  | None => (mkEvidence [] [] releases gitops [], ∅)
  end.

(** The held pass beside them. *)
Definition withPass (st : podsRead) (c : passCache) (images : list nsImage) (labels : list labelledPod) : podsRead :=
  (mkEvidence (ev_images st.1 ++ images) (ev_labelled st.1 ++ labels) (ev_releases st.1) (ev_gitops st.1) (ev_ingressControllers st.1),
   tallyMerge st.2 (pc_volumes c)).

(** The pods of a collection, read from the cache or listed: what was read,
    the error, whether a page was read, the age, and the cache after it.
    [now] and [passStart] are the two readings of the clock; a nil cache is
    one that is not enabled. *)
Definition readPods (addons : list AddOn) (releases : list HelmRelease) (gitops : list GitOpsChart) (sys : kubeSystemPods)
    (api : apiserver) (fuel : nat) (now passStart : Time) (c : passCache) : option (podsRead * option string * bool * Z * passCache) :=
  let st := startEvidence releases gitops sys in
  let sig := installSignature releases gitops addons in
  let sysRead := match sys with Some _ => true | None => false end in
  match (if sysRead then reuse now sig c else (None, c)) with
  | (Some (images, labels, age), c) => Some (withPass st c images labels, None, false, age, c)
  | (None, c) =>
      let c := forget c in
      match listPods vps sysRead (as_pods api) fuel 0 sysRead "" false st with
      | None => None
      | Some (st, None, read) => Some (st, None, read, 0, recordPass st.1 st.2 passStart sig c)
      | Some (st, Some e, read) => Some (st, Some e, read, 0, forget c)
      end
  end.

(** [collectAddOnsFrom]; [helmRead] is whether the helm capability is
    available. *)
Definition collectAddOnsFrom (addons : list AddOn) (releases : list HelmRelease) (gitops : list GitOpsChart) (helmRead : bool)
    (sys : kubeSystemPods) (api : apiserver) (fuel : nat) (now passStart : Time) (c : passCache) : option (addOnsRead * passCache) :=
  match readPods addons releases gitops sys api fuel now passStart c with
  | None => None
  | Some (st, podErr, pageRead, age, c) =>
      match listClasses (as_classes api) fuel 0 "" false [] with
      | None => None
      | Some (controllers, classErr, classesRead) =>
          let ev := mkEvidence (ev_images st.1) (ev_labelled st.1) releases gitops controllers in
          let '(insts, unrec) := matchAddOns ev addons in
          let '(unrec, omitted) := setUnrecognized unrec in
          match (if match podErr with None => true | Some _ => pageRead end
                 then listVolumeObjects vps (as_pvs api) (as_scs api) fuel st.2 else Some (st.2, mkVolumeObjectsRead [] [])) with
          | None => None
          | Some (vol, objs) =>
              let '(rows, volStatus) := setLiveVolumes vol podErr pageRead objs in
              let failures := match podErr with Some e => ["list pods: " +:+ e] | None => [] end ++
                              match classErr with Some e => ["list ingressclasses: " +:+ e] | None => [] end in
              let skipped := match podErr with Some _ => [SkippedPods] | None => [] end ++
                             match classErr with Some _ => ["networking.k8s.io/v1 ingressclasses"%string] | None => [] end in
              let read := match podErr with None => ["pods"%string] | Some _ => [] end ++
                          (if (0 <? zlen releases) || helmRead then ["Helm releases"%string] else []) ++
                          (if 0 <? zlen gitops then ["GitOps chart sources"%string] else []) ++
                          (if classesRead then ["IngressClasses"%string] else []) in
              let err :=
                match podErr with
                | Some e => if (zlen releases =? 0) && (zlen gitops =? 0) && negb classesRead then Some (StepFailed ("list pods: " +:+ e)) else None
                | None => None
                end in
              let err := match err with
                | Some e => Some e
                | None =>
                    if zlen failures =? 0 then None
                    else Some (StepPartial (Join failures "; " +:+ "; add-ons were detected from " +:+ Join read " and " +:+ " only") (sort_strings skipped))
                end in
              Some (mkAddOnsRead insts unrec omitted age rows volStatus err, c)
          end
      end
  end.
End Collect.
