(* ===== verification/PodPassSpec.v ===== *)
(** * What the pod pass promises

    A collection that reuses a pass finds what it would have found by
    listing the same pods; it never reuses one for more collections or for
    longer than it was told to, nor one taken with other releases. *)

From stdpp Require Import base list strings gmap.
From Stdlib Require Import ZArith Lia Ascii.
From S2P Require Import Prelude GoStr GoTime GoRegexp Version Inventory KB AddOns Registry Detect ClaimSpec DetectSpec Tally PodPass.

(** ** Repeats *)

(** [l] is [l'] with elements of [P] added that were there before. *)
Inductive repeats {A} (P : A -> Prop) : list A -> list A -> list A -> Prop :=
| repeats_nil seen : repeats P seen [] []
| repeats_keep seen x l' l : repeats P (x :: seen) l' l -> repeats P seen (x :: l') (x :: l)
| repeats_drop seen x l' l : x ∈ seen -> P x -> repeats P seen l' l -> repeats P seen l' (x :: l).

#[local] Hint Constructors repeats : core.

Section Repeats.
Context {A : Type} (P : A -> Prop).
Implicit Types l : list A.

Lemma repeats_mono seen seen' l' l : seen ⊆ seen' -> repeats P seen l' l -> repeats P seen' l' l.
Proof.
  intros Hs Hr. revert seen' Hs. induction Hr as [seen|seen x l' l _ IH|seen x l' l Hx HP _ IH]; intros seen' Hs; [constructor| |].
  - apply repeats_keep, IH. set_solver.
  - apply repeats_drop; auto.
Qed.

Lemma repeats_refl seen l : repeats P seen l l.
Proof. revert seen. induction l; auto. Qed.

Lemma repeats_app seen l1' l1 l2' l2 : repeats P seen l1' l1 -> repeats P (reverse l1' ++ seen) l2' l2 -> repeats P seen (l1' ++ l2') (l1 ++ l2).
Proof.
  induction 1 as [seen|seen x l' l _ IH|seen x l' l Hx HP _ IH]; intros Hr.
  - exact Hr.
  - cbn. constructor. apply IH. eapply repeats_mono; [|exact Hr]. rewrite reverse_cons. set_solver.
  - cbn. apply repeats_drop; auto.
Qed.

Lemma repeats_all_seen seen l : Forall (fun x => x ∈ seen /\ P x) l -> repeats P seen [] l.
Proof. induction 1 as [|x l [? ?] _ IH]; auto. Qed.

End Repeats.

Section Maps.
Context {A : Type} (P : A -> Prop).
Implicit Types l : list A.

(** Mapping each element to a list keeps the relation. *)
Lemma repeats_flat_map {B} (Q : B -> Prop) (f : A -> list B) seen l' l :
  (forall x, P x -> Forall Q (f x)) -> repeats P seen l' l -> repeats Q (flat_map f seen) (flat_map f l') (flat_map f l).
Proof.
  intros HQ. induction 1 as [seen|seen x l' l _ IH|seen x l' l Hx HP _ IH]; cbn; [auto| |].
  - apply repeats_app; [apply repeats_refl|]. eapply repeats_mono; [|exact IH]. cbn. intros y. rewrite !elem_of_app, elem_of_reverse. tauto.
  - change (flat_map f l') with ([] ++ flat_map f l'). apply repeats_app; [|exact IH]. apply repeats_all_seen, Forall_forall.
    intros y Hy. split; [apply in_flat_map_elem; eauto|]. specialize (HQ x HP). rewrite Forall_forall in HQ. auto.
Qed.

Lemma repeats_omap {B} (Q : B -> Prop) (f : A -> option B) seen l' l :
  (forall x y, P x -> f x = Some y -> Q y) -> repeats P seen l' l -> repeats Q (omap f seen) (omap f l') (omap f l).
Proof.
  intros HQ. induction 1 as [seen|seen x l' l _ IH|seen x l' l Hx HP _ IH]; cbn; [auto| |].
  - cbn in IH. destruct (f x) as [y|]; auto.
  - destruct (f x) as [y|] eqn:E; [|done]. apply repeats_drop; eauto. apply list_elem_of_omap. eauto.
Qed.

(** What only reads which elements are there. *)
Lemma repeats_in seen l' l x : repeats P seen l' l -> x ∈ seen \/ x ∈ l' <-> x ∈ seen \/ x ∈ l.
Proof.
  induction 1 as [seen|seen y l' l _ IH|seen y l' l Hy HP _ IH]; rewrite ?elem_of_cons in *; [done|tauto|].
  rewrite IH. split; [tauto|]. intros [?|[->|?]]; auto.
Qed.

Lemma repeats_in_top l' l x : repeats P [] l' l -> x ∈ l' <-> x ∈ l.
Proof. intros Hr. pose proof (repeats_in [] l' l x Hr) as E. rewrite !elem_of_nil in E. tauto. Qed.

(** What is found first. *)
Lemma repeats_find (p : A -> bool) seen l' l : repeats P seen l' l -> (forall x, x ∈ seen -> p x = false) -> find p l' = find p l.
Proof.
  induction 1 as [seen|seen x l' l _ IH|seen x l' l Hx HP _ IH]; intros Hs; cbn; [done| |].
  - destruct (p x) eqn:E; [done|]. apply IH. intros y [->|Hy]%elem_of_cons; auto.
  - rewrite (Hs x Hx). auto.
Qed.

Lemma existsb_same (p : A -> bool) l l' : (forall x, x ∈ l <-> x ∈ l') -> existsb p l = existsb p l'.
Proof.
  intros E. apply eq_bool_prop_intro. rewrite !Is_true_true, !existsb_exists. setoid_rewrite <- list_elem_of_In. split; intros (x & Hx & Hp); exists x; by rewrite E in * || rewrite <- E in *.
Qed.

Lemma existsb_ext_s (p q : A -> bool) l : (forall x, p x = q x) -> existsb p l = existsb q l.
Proof. intros E. induction l as [|x l IH]; cbn; [done|]. by rewrite E, IH. Qed.
End Maps.

Section Folds.
Context {A : Type} (P : A -> Prop).
Implicit Types l : list A.

Lemma repeats_strengthen (Q : A -> Prop) seen l' l : Forall Q l -> repeats P seen l' l -> repeats Q seen l' l.
Proof.
  intros HQ Hr. revert HQ. induction Hr as [seen|seen x l' l _ IH|seen x l' l Hx HP _ IH]; intros HQ; [constructor|..];
    apply Forall_cons in HQ as [Hq HQ]; [apply repeats_keep; auto|apply repeats_drop; auto].
Qed.

Lemma repeats_filter (p : A -> bool) seen l' l : repeats P seen l' l -> repeats P seen (List.filter p l') (List.filter p l).
Proof.
  intros Hr. assert (E : forall k : list A, List.filter p k = omap (fun x => if p x then Some x else None) k).
  { intros k. induction k as [|x k IH]; cbn; [done|]. rewrite IH. by destruct (p x). }
  rewrite !E. eapply (repeats_mono _ (omap (fun x => if p x then Some x else None) seen)).
  - intros y (x & Hx & Ey)%list_elem_of_omap. destruct (p x); by simplify_eq.
  - apply (repeats_omap P); [|done]. intros x y HP Ey. destruct (p x); by simplify_eq.
Qed.

(** What a fold or a selection does not notice. *)
Lemma repeats_foldl {B} (f : B -> A -> B) seen l' l b : (forall b x, P x -> f b x = b) -> repeats P seen l' l -> foldl f b l' = foldl f b l.
Proof.
  intros Hf Hr. revert b. induction Hr as [seen|seen x l' l _ IH|seen x l' l Hx HP _ IH]; intros b; cbn; [done|done|]. by rewrite Hf.
Qed.

Lemma repeats_omap_none {B} (f : A -> option B) seen l' l : (forall x, P x -> f x = None) -> repeats P seen l' l -> omap f l' = omap f l.
Proof.
  intros Hf. induction 1 as [seen|seen x l' l _ IH|seen x l' l Hx HP _ IH]; cbn; [done| |].
  - by rewrite IH.
  - by rewrite (Hf x HP).
Qed.

Lemma repeats_empty l' l : repeats P [] l' l -> l' = [] <-> l = [].
Proof. intros Hr. split; intros ->; inversion Hr; subst; try done. by apply not_elem_of_nil in H. Qed.
End Folds.

(** The first of each is the list without its repeats. *)
Lemma firstOf_repeats {A K} `{EqDecision K} (key : A -> K) skip seen l : (forall x, x ∈ l -> forall y, y ∈ l ++ seen -> key x = key y -> x = y) ->
  repeats (fun _ => True) seen (firstOf key skip (map key seen) l) (List.filter (negb ∘ skip) l).
Proof.
  revert seen. induction l as [|x l IH]; intros seen Hinj; cbn; [constructor|]. unfold compose at 1. destruct (skip x); cbn.
  - apply IH. intros y Hy z Hz. apply Hinj; [by right|]. set_solver.
  - case_bool_decide as Hs.
    + apply list_elem_of_fmap in Hs as (y & E & Hy). assert (x = y) as -> by (apply Hinj; [by left| |done]; set_solver).
      apply repeats_drop; [done|done|]. apply IH. intros z Hz w Hw. apply Hinj; [by right|]. set_solver.
    + apply repeats_keep. apply (IH (x :: seen)). intros y Hy z Hz. apply Hinj; [by right|]. set_solver.
Qed.

(** ** Detection reads a repeat as the first *)

Section Detection.
Context `{SemverOrder} (laws : semver_laws).

(** A fold to the oldest version is that of the versions without repeats. *)
Lemma repeats_oldest seen l' l cur : repeats readable seen l' l -> readable cur -> Forall readable l' -> Forall readable seen ->
  (forall v, v ∈ seen -> absorbs cur v) -> foldl olderVersion cur l' = foldl olderVersion cur l.
Proof using laws.
  intros Hr. revert cur. induction Hr as [seen|seen x l' l _ IH|seen x l' l Hx HP _ IH]; intros cur Hc Hl Hs Ha; cbn; [done| |].
  - apply Forall_cons in Hl as [Hx Hl]. apply IH; [by apply older_readable|done|by apply Forall_cons|].
    intros v [->|Hv]%elem_of_cons; [by apply older_absorbs_new|]. rewrite Forall_forall in Hs. apply older_absorbs; auto.
  - assert (E : olderVersion cur x = cur); [|rewrite E; auto].
    destruct (Ha x Hx) as [->|[Hne Hless]]; [done|]. unfold olderVersion.
    rewrite Hless, (proj2 (String.eqb_neq cur "") Hne). cbn. by rewrite andb_false_r.
Qed.

(** Evidence of pods, which a repeat of a pod gives again. *)
Definition pod_evidence (e : evidence) : Prop :=
  e_source e <> "chart"%string /\ e_source e <> "gitops"%string /\ e_chart e = ""%string /\ readable (e_version e).

Lemma repeats_strongest seen l' l s : repeats pod_evidence seen l' l -> (forall e, e ∈ seen -> strength (e_source e) <= strength s) ->
  foldl strongest s l' = foldl strongest s l.
Proof.
  intros Hr. revert s. induction Hr as [seen|seen x l' l _ IH|seen x l' l Hx HP _ IH]; intros s Hs; cbn; [done| |].
  - apply IH. intros e [->|He]%elem_of_cons; unfold strongest; destruct (Z.ltb_spec (strength s) (strength (e_source x))); try lia.
    + specialize (Hs e He). lia.
    + auto.
  - assert (E : strongest s x = s); [|rewrite E; auto]. unfold strongest. specialize (Hs x Hx).
    destruct (Z.ltb_spec (strength s) (strength (e_source x))); [lia|done].
Qed.

Lemma instance_repeats i l' l : repeats pod_evidence [] l' l -> Forall (fun e => readable (e_version e)) l -> instance i l' = instance i l.
Proof using laws.
  intros Hr Hv. rewrite !instance_eq.
  assert (Hsrc : sourceOf l' = sourceOf l) by (eapply repeats_strongest; [exact Hr|]; by intros e ?%not_elem_of_nil).
  assert (Hpod : foldl olderVersion "" (omap podVersion l') = foldl olderVersion "" (omap podVersion l)).
  { apply (repeats_oldest []); [|by left| |constructor|by intros v ?%not_elem_of_nil].
    - apply (repeats_omap pod_evidence readable podVersion [] l' l); [|done]. intros x y (_ & _ & _ & Hx) Ey. unfold podVersion in Ey.
      destruct (_ =s _); by simplify_eq.
    - apply Forall_forall. intros v (x & Hx & Ex)%list_elem_of_omap. unfold podVersion in Ex. destruct (_ =s _); [done|]. simplify_eq.
      apply (repeats_in_top pod_evidence l' l x Hr) in Hx. rewrite Forall_forall in Hv. auto. }
  assert (Hno : forall f, (forall e, pod_evidence e -> f e = None) -> foldl olderVersion "" (omap f l') = foldl olderVersion "" (omap f l)).
  { intros f Hf. by rewrite (repeats_omap_none pod_evidence f [] l' l Hf Hr). }
  assert (Happ := Hno appVersion ltac:(intros e (Hc & _); unfold appVersion; by rewrite (proj2 (String.eqb_neq _ _) Hc))).
  assert (Hgit := Hno gitChart ltac:(intros e (_ & Hc & _); unfold gitChart; by rewrite (proj2 (String.eqb_neq _ _) Hc))).
  assert (Hrel : foldl olderVersion "" (omap relChart l') = foldl olderVersion "" (omap relChart l)).
  { apply (repeats_foldl (fun v => v = ""%string) olderVersion [] (omap relChart l') (omap relChart l)); [by intros b x ->|].
    apply (repeats_omap pod_evidence (fun v => v = ""%string) relChart [] l' l); [|done].
    intros x y (_ & _ & Hx & _) Ey. unfold relChart in Ey. destruct (_ =s _); by simplify_eq. }
  by rewrite Hsrc, Hpod, Happ, Hgit, Hrel.
Qed.

Lemma instances_repeats i l' l : repeats pod_evidence [] l' l -> Forall (fun e => readable (e_version e)) l -> instances (i, l') = instances (i, l).
Proof using laws.
  intros Hr Hv. rewrite !instances_eq.
  assert (Hlines : lines l' = lines l).
  { apply (repeats_omap_none pod_evidence _ [] l' l); [|done]. intros e (Hc & _). by rewrite (proj2 (String.eqb_neq _ _) Hc). }
  assert (Hf : forall p, Forall (fun e => readable (e_version e)) (List.filter p l)).
  { intros p. apply Forall_forall. intros e [He _]%filter_in. rewrite Forall_forall in Hv. auto. }
  assert (Ha : instance i (agreeing l') = instance i (agreeing l)).
  { unfold agreeing. rewrite Hlines. apply instance_repeats; [by apply repeats_filter|apply Hf]. }
  assert (Hs : instance i (straying l') = instance i (straying l)).
  { unfold straying. rewrite Hlines. apply instance_repeats; [by apply repeats_filter|apply Hf]. }
  assert (He : straying l' = [] <-> straying l = []).
  { unfold straying. rewrite Hlines. apply (repeats_empty pod_evidence). by apply repeats_filter. }
  rewrite Ha, Hs. destruct (straying l'), (straying l); try done; naive_solver.
Qed.

(** ** From events to instances *)

Definition instancesOf (m : gmap install (list evidence)) (i : install) : list AddOnInstance :=
  match m !! i with Some evs => instances (i, evs) | None => [] end.

Lemma flat_map_keys (m : gmap install (list evidence)) : flat_map instances (map_to_list m) = flat_map (instancesOf m) (map_to_list m).*1.
Proof.
  assert (Hm : forall p, p ∈ map_to_list m -> m !! p.1 = Some p.2) by (intros [i x]; apply elem_of_map_to_list).
  induction (map_to_list m) as [|[i evs] l IH]; cbn; [done|]. rewrite IH by (intros p Hp; apply Hm; by right). f_equal.
  unfold instancesOf. pose proof (Hm (i, evs) ltac:(by left)) as E. cbn in E. by rewrite E.
Qed.

Definition pod_event (p : install * evidence) : Prop := pod_evidence p.2.

Lemma repeats_matchAddOns es' es : Forall event_ok es -> all_readable es -> repeats pod_event [] es' es ->
  instancesIn (map_to_list (byInstall es')) = instancesIn (map_to_list (byInstall es)).
Proof using laws.
  intros Hok Hread Hr. unfold instancesIn. symmetry. apply sortInstances_perm; [by apply instances_distinct|].
  assert (Hfor : forall i, repeats pod_evidence [] (evidenceFor es' i) (evidenceFor es i)).
  { intros i. apply (repeats_omap pod_event pod_evidence _ [] es' es); [|done]. intros [j e] y He Ey. cbn in Ey.
    case_bool_decide; by simplify_eq. }
  assert (Hinst : forall i, instancesOf (byInstall es') i = instancesOf (byInstall es) i).
  { intros i. unfold instancesOf. rewrite !byInstall_lookup. fold (evidenceFor es' i) (evidenceFor es i).
    assert (Hv : Forall (fun e => readable (e_version e)) (evidenceFor es i)).
    { apply Forall_forall. intros e He%evidenceFor_in. unfold all_readable in Hread. rewrite Forall_forall in Hread. by apply (Hread (i, e)). }
    pose proof (repeats_empty _ _ _ (Hfor i)) as He. pose proof (instances_repeats i _ _ (Hfor i) Hv) as Hi.
    destruct (evidenceFor es' i), (evidenceFor es i); try done; naive_solver. }
  rewrite !flat_map_keys, (flat_map_ext _ _ Hinst). apply Permutation_flat_map, NoDup_Permutation; [apply NoDup_fst_map_to_list..|].
  intros i. rewrite !list_elem_of_fmap. assert (Hdom : forall xs, is_Some (byInstall xs !! i) <-> exists y, i = y.1 /\ y ∈ map_to_list (byInstall xs)).
  { intros xs. split; [intros [evs Hi]; exists (i, evs); by rewrite elem_of_map_to_list|].
    intros ([j evs] & -> & Hi%elem_of_map_to_list). by exists evs. }
  rewrite <- !Hdom, !byInstall_lookup. fold (evidenceFor es' i) (evidenceFor es i). pose proof (repeats_empty _ _ _ (Hfor i)) as He.
  destruct (evidenceFor es' i), (evidenceFor es i); rewrite <- ?not_eq_None_Some; naive_solver.
Qed.
(** ** Evidence without its repeats *)

Record without_repeats (ev' ev : addOnEvidence) : Prop := {
  wr_images : repeats (fun _ => True) [] (ev_images ev') (ev_images ev);
  wr_labelled : repeats (fun _ => True) [] (ev_labelled ev') (ev_labelled ev);
  wr_releases : ev_releases ev' = ev_releases ev;
  wr_gitops : ev_gitops ev' = ev_gitops ev;
  wr_ingress : ev_ingressControllers ev' = ev_ingressControllers ev;
}.

(** Each version a pod's labels give parses. *)
Definition labels_readable (ev : addOnEvidence) (addons : list AddOn) : Prop :=
  Forall (fun p => readable (labelAddOn (lp_Labels p) addons).2) (ev_labelled ev).

Context (addons : list AddOn) (ev' ev : addOnEvidence) (Hwr : without_repeats ev' ev)
  (Hlabels : labels_readable ev addons) (Hevents : all_readable (events ev addons)).

Lemma labelNamed_repeats img :
  repeats (fun c => readable (cl_version c)) [] (labelNamed ev' addons img) (labelNamed ev addons img).
Proof using Hwr Hlabels.
  unfold labelNamed. apply (repeats_flat_map (fun p => readable (labelAddOn (lp_Labels p) addons).2) _ _ []).
  - intros p Hp. destruct (labelAddOn (lp_Labels p) addons) as [id v]. cbn in Hp. destruct (id =s ""); [constructor|].
    apply Forall_forall. intros c (i & _ & Ei)%list_elem_of_omap. case_bool_decide; by simplify_eq.
  - eapply repeats_strengthen; [exact Hlabels|]. apply (wr_labelled _ _ Hwr).
Qed.

Lemma labelNamed_readable img : Forall (fun c => readable (cl_version c)) (labelNamed ev addons img).
Proof using Hlabels.
  apply Forall_forall. intros c (p & Hp & Hc)%in_flat_map_elem. unfold labels_readable in Hlabels. rewrite Forall_forall in Hlabels.
  specialize (Hlabels p Hp). destruct (labelAddOn (lp_Labels p) addons) as [id v]. destruct (id =s ""); [by apply not_elem_of_nil in Hc|].
  apply list_elem_of_omap in Hc as (i & _ & Ei). case_bool_decide; by simplify_eq.
Qed.

Lemma map_filter_omap {A B} (g : A -> B) (p : A -> bool) l : map g (List.filter p l) = omap (fun x => if p x then Some (g x) else None) l.
Proof. induction l as [|x l IH]; cbn; [done|]. rewrite <- IH. by destruct (p x). Qed.

Lemma labelVersion_same img id : labelVersion ev' addons img id = labelVersion ev addons img id.
Proof using laws Hwr Hlabels.
  unfold labelVersion. rewrite !map_filter_omap. apply (repeats_oldest []); [|by left| |constructor|by intros v ?%not_elem_of_nil].
  - apply (repeats_omap (fun c => readable (cl_version c)) readable _ []); [|apply labelNamed_repeats].
    intros x y Hx Ey. destruct (_ =s _); by simplify_eq.
  - apply Forall_forall. intros v (c & Hc & Ec)%list_elem_of_omap. pose proof (labelNamed_readable img) as Hr. rewrite Forall_forall in Hr.
    apply (repeats_in_top _ _ _ c (labelNamed_repeats img)) in Hc. specialize (Hr c Hc). destruct (_ =s _); by simplify_eq.
Qed.

Lemma settledClaims_same img : settledClaims ev' addons img = settledClaims ev addons img.
Proof using laws Hwr Hlabels.
  unfold settledClaims. cbv zeta.
  assert (Hu : untaggedClaim (parseImage (ni_Image img)) (labelNamed ev' addons img ++ releaseNamed ev' addons (ni_Namespace img)) addons =
               untaggedClaim (parseImage (ni_Image img)) (labelNamed ev addons img ++ releaseNamed ev addons (ni_Namespace img)) addons).
  { unfold untaggedClaim. destruct (negb _); [done|]. eapply repeats_find; [|by intros x ?%not_elem_of_nil].
    apply repeats_app; [apply labelNamed_repeats|]. unfold releaseNamed. rewrite (wr_releases _ _ Hwr). apply repeats_refl. }
  rewrite Hu. destruct (versionFromTag _ =s ""); [|done]. apply map_ext. intros c. destruct (cl_byTag c); [|done]. by rewrite labelVersion_same.
Qed.

Lemma events_repeats : repeats pod_event [] (events ev' addons) (events ev addons).
Proof using laws Hwr Hlabels Hevents.
  assert (Hin : forall p, p ∈ events ev addons -> readable (e_version p.2)) by (by apply Forall_forall).
  unfold events. rewrite (wr_releases _ _ Hwr), (wr_gitops _ _ Hwr).
  assert (Himg : repeats pod_event [] (flat_map (imageEvents ev' addons) (ev_images ev')) (flat_map (imageEvents ev addons) (ev_images ev))).
  { rewrite (flat_map_ext (imageEvents ev' addons) (imageEvents ev addons)) by (intros img; unfold imageEvents; by rewrite settledClaims_same).
    apply (repeats_flat_map (fun img => img ∈ ev_images ev) _ _ []).
    - intros img Himg. apply Forall_forall. intros p Hp. assert (Hv : readable (e_version p.2)) by (apply Hin, events_in; left; eauto).
      apply list_elem_of_fmap in Hp as (c & -> & _). done.
    - eapply repeats_strengthen; [|apply (wr_images _ _ Hwr)]. by apply Forall_forall. }
  assert (Hlab : repeats pod_event [] (flat_map (labelEvents addons) (ev_labelled ev')) (flat_map (labelEvents addons) (ev_labelled ev))).
  { apply (repeats_flat_map (fun q => q ∈ ev_labelled ev) _ _ []).
    - intros q Hq. apply Forall_forall. intros p Hp. assert (Hv : readable (e_version p.2)) by (apply Hin, events_in; right; left; eauto).
      pose proof (labelEvents_source addons q p Hp) as Hs. unfold pod_event, pod_evidence. rewrite Hs. split_and!; [done|done| |done].
      unfold labelEvents in Hp. destruct (labelAddOn _ _) as [id v]. destruct (id =s ""); [by apply not_elem_of_nil in Hp|].
      destruct (_ || _ || _); [by apply not_elem_of_nil in Hp|]. apply list_elem_of_singleton in Hp as ->. done.
    - eapply repeats_strengthen; [|apply (wr_labelled _ _ Hwr)]. by apply Forall_forall. }
  apply repeats_app; [done|]. apply repeats_app; [|apply repeats_refl]. eapply repeats_mono; [|exact Hlab]. set_solver.
Qed.

Lemma allEvents_repeats : repeats pod_event [] (allEvents ev' addons) (allEvents ev addons).
Proof using laws Hwr Hlabels Hevents.
  unfold allEvents. rewrite (wr_ingress _ _ Hwr). apply repeats_app; [apply events_repeats|].
  rewrite (flat_map_ext (ingressEvents addons (fun id => existsb (fun p => p.1.1 =s id) (events ev' addons)))
             (ingressEvents addons (fun id => existsb (fun p => p.1.1 =s id) (events ev addons)))); [apply repeats_refl|].
  intros c. unfold ingressEvents. destruct (ingressClassAddOns c) as [|id rest]; [done|].
  assert (E : existsb (fun id0 => existsb (fun p : install * evidence => p.1.1 =s id0) (events ev' addons)) (id :: rest) =
              existsb (fun id0 => existsb (fun p : install * evidence => p.1.1 =s id0) (events ev addons)) (id :: rest)).
  { apply existsb_ext_s. intros id0. apply existsb_same. intros p. apply (repeats_in_top pod_event). apply events_repeats. }
  by rewrite E.
Qed.

(** Detection finds the same without the repeats. *)
Lemma matchAddOns_repeats : matchAddOns ev' addons = matchAddOns ev addons.
Proof using laws Hwr Hlabels Hevents.
  unfold matchAddOns. f_equal.
  - apply repeats_matchAddOns; [apply allEvents_ok|by apply all_readable_all|apply allEvents_repeats].
  - apply sort_strings_perm_eq, NoDup_Permutation; [apply NoDup_remove_dups..|]. intros r.
    rewrite !elem_of_remove_dups, !list_elem_of_omap. unfold unmatchedRepo. setoid_rewrite settledClaims_same.
    setoid_rewrite (repeats_in_top (fun _ => True) (ev_images ev') (ev_images ev) _ (wr_images _ _ Hwr)). done.
Qed.
End Detection.

(** ** Keys *)

(** A pod whose strings hold no NUL byte: what an apiserver accepts. *)
Definition pod_nul_free (p : labelledPod) : Prop :=
  let l := lp_Labels p in
  Forall (no_byte nul) ([lp_Namespace p; al_chart l; al_name l; al_version l; al_partOf l] ++ lp_Images p).

Lemma podKey_inj p q : pod_nul_free p -> pod_nul_free q -> podKey p = podKey q -> p = q.
Proof.
  unfold pod_nul_free, podKey. cbv zeta. intros Hp Hq E. apply (f_equal (fun s => Split s nul)) in E. rewrite !Split_Join in E by done.
  destruct p as [n [c m v o] i], q as [n' [c' m' v' o'] i']. cbn in E. by simplify_eq.
Qed.

(** ** What a list reads *)

(** The pods of a list that ends without an error. *)
Fixpoint pagesOf (api : nat -> bool -> string -> listAnswer pod) (fuel k : nat) (selector : bool) (cont : string) : option (list pod) :=
  match fuel with
  | O => None
  | S fuel' =>
      match api k selector cont with
      | ListError _ badRequest _ => if (cont =s "") && selector && badRequest then pagesOf api fuel' (S k) false cont else None
      | Page items cont' => if cont' =s "" then Some items else app items <$> pagesOf api fuel' (S k) selector cont'
      end
  end.

Lemma readPage_app vps sysRead st l l' : readPage vps sysRead st (l ++ l') = readPage vps sysRead (readPage vps sysRead st l) l'.
Proof. apply foldl_app. Qed.

Lemma listPods_pages vps sysRead api fuel k selector cont read st pods :
  pagesOf api fuel k selector cont = Some pods -> listPods vps sysRead api fuel k selector cont read st = Some (readPage vps sysRead st pods, None, true).
Proof.
  revert k selector cont read st pods. induction fuel as [|fuel IH]; intros k selector cont read st pods; cbn [pagesOf listPods]; [done|].
  destruct (api k selector cont) as [items cont'|nf bad msg].
  - destruct (cont' =s ""); [by intros [= ->]|]. destruct (pagesOf api fuel (S k) selector cont') as [rest|] eqn:E; [|done].
    intros [= <-]. rewrite (IH _ _ _ _ _ _ E). by rewrite readPage_app.
  - destruct (_ && _ && _); [|done]. apply IH.
Qed.

Lemma listPods_complete vps sysRead api fuel k selector cont read st st' r :
  listPods vps sysRead api fuel k selector cont read st = Some (st', None, r) -> exists pods, pagesOf api fuel k selector cont = Some pods.
Proof.
  revert k selector cont read st. induction fuel as [|fuel IH]; intros k selector cont read st; cbn [pagesOf listPods]; [done|].
  destruct (api k selector cont) as [items cont'|nf bad msg].
  - destruct (cont' =s ""); [eauto|]. intros [rest ->]%IH. cbn. eauto.
  - destruct (_ && _ && _); [|done]. apply IH.
Qed.

(** The pods outside kube-system. *)
Definition outside (pods : list pod) : list pod := List.filter (fun p => negb (pd_Namespace p =s NamespaceSystem)) pods.

Definition imagesOf (p : pod) : list nsImage := map (mkNsImage (pd_Namespace p)) (podContainerImages p).
Definition labelledOf (p : pod) : option labelledPod :=
  let l := appLabelsOf (pd_Labels p) in
  if bool_decide (l = noLabels) then None else Some (mkLabelledPod (pd_Namespace p) l (podContainerImages p)).

Lemma readPods_evidence vps st pods :
  (foldl (readPod vps) st pods).1 =
    mkEvidence (ev_images st.1 ++ flat_map imagesOf pods) (ev_labelled st.1 ++ omap labelledOf pods) (ev_releases st.1) (ev_gitops st.1) (ev_ingressControllers st.1) /\
  (foldl (readPod vps) st pods).2 = foldl (fun t p => tallyPod vps (pd_Namespace p) (pd_Volumes p) t) st.2 pods.
Proof.
  revert st. induction pods as [|p pods IH]; intros st; cbn [foldl flat_map].
  - rewrite !app_nil_r. by destruct st as [[? ? ? ? ?] ?].
  - destruct (IH (readPod vps st p)) as [-> ->]. split; [|done]. cbn. unfold labelledOf, imagesOf. case_bool_decide; cbn; by rewrite <- ?app_assoc.
Qed.

Lemma readPage_outside vps st pods : readPage vps true st pods = foldl (readPod vps) st (outside pods).
Proof. revert st. induction pods as [|p pods IH]; intros st; cbn; [done|]. destruct (pd_Namespace p =s NamespaceSystem); apply IH. Qed.

Lemma readPage_all vps st pods : readPage vps false st pods = foldl (readPod vps) st pods.
Proof. done. Qed.

(** ** Counting pods *)

(** The plugins of the pods, each with the pod's namespace. *)
Definition pluginUses (vps : volumePlugins) (pods : list pod) : list (string * string) :=
  flat_map (fun p => map (fun q => (q, pd_Namespace p)) (podVolumePlugins vps (pd_Volumes p))) pods.

Definition hits (l : list (string * string)) (q k : string) : Z := zlen (List.filter (fun x => bool_decide (x = (q, k))) l).

Definition plusHits (o : option Z) (n : Z) : option Z := if n =? 0 then o else plusAt o n.

Lemma ones_count l t q k :
  countAt (foldl (fun t '(p, ns) => tallyAdd p ns 1 None t) t l) q k = plusHits (countAt t q k) (hits l q k).
Proof.
  revert t. induction l as [|[p ns] l IH]; intros t; cbn [foldl]; [done|]. rewrite IH, tallyAdd_count. unfold hits. cbn [List.filter].
  destruct (decide (q = p /\ k = ns)) as [[-> ->]|Hne].
  - rewrite !bool_decide_eq_true_2 by done. unfold plusHits, zlen. cbn [length].
    match goal with |- context [Z.of_nat (S ?m)] => generalize m as n end. intros n.
    rewrite (proj2 (Z.eqb_neq (Z.of_nat (S n)) 0)) by lia. destruct (Z.eqb_spec (Z.of_nat n) 0) as [E|E]; unfold plusAt; cbn -[Z.of_nat Z.add]; f_equal; lia.
  - rewrite !bool_decide_eq_false_2 by naive_solver. done.
Qed.

Lemma tallyPods_uses vps t pods :
  foldl (fun t p => tallyPod vps (pd_Namespace p) (pd_Volumes p) t) t pods = foldl (fun t '(p, ns) => tallyAdd p ns 1 None t) t (pluginUses vps pods).
Proof.
  revert t. induction pods as [|p pods IH]; intros t; cbn [foldl pluginUses flat_map]; [done|]. rewrite foldl_app. rewrite <- IH. f_equal.
  unfold tallyPod. generalize (podVolumePlugins vps (pd_Volumes p)) as ps. intros ps. revert t. induction ps as [|q ps IHp]; intros t; cbn; [done|apply IHp].
Qed.

Lemma hits_outside vps pods q k : hits (pluginUses vps (outside pods)) q k = if k =s NamespaceSystem then 0 else hits (pluginUses vps pods) q k.
Proof.
  assert (Hz : forall l, (forall x, x ∈ l -> x.2 <> k) -> hits l q k = 0).
  { intros l Hl. unfold hits. replace (List.filter _ l) with (@nil (string * string)); [done|]. induction l as [|x l IH]; cbn; [done|].
    rewrite bool_decide_eq_false_2 by (intros ->; by apply (Hl (q, k)); [left|]). apply IH. intros y Hy. apply Hl. by right. }
  assert (Happ : forall l l', hits (l ++ l') q k = hits l q k + hits l' q k).
  { intros l l'. unfold hits, zlen. rewrite List.filter_app, length_app. lia. }
  destruct (String.eqb_spec k NamespaceSystem) as [->|Hk].
  - apply Hz. intros x (p & Hp & Hx)%in_flat_map_elem. apply list_elem_of_fmap in Hx as (r & -> & _). cbn.
    apply filter_in in Hp as [_ Hp]. apply negb_true_iff, String.eqb_neq in Hp. done.
  - assert (Hcons : forall p l, pluginUses vps (p :: l) = map (fun r => (r, pd_Namespace p)) (podVolumePlugins vps (pd_Volumes p)) ++ pluginUses vps l) by done.
    induction pods as [|p pods IH]; [done|]. rewrite Hcons, Happ. unfold outside. cbn [List.filter]. fold (outside pods).
    destruct (String.eqb_spec (pd_Namespace p) NamespaceSystem) as [E|E]; cbn [negb].
    + rewrite IH, (Hz (map _ _)); [lia|]. intros x (r & -> & _)%list_elem_of_fmap. cbn. congruence.
    + by rewrite Hcons, Happ, IH.
Qed.

(** ** A reused pass *)

Definition systemOnly (sys : option (addOnEvidence * gmap string VolumePluginUse)) : Prop :=
  match sys with
  | Some (e, vol) =>
      Forall (fun i => ni_Namespace i = NamespaceSystem) (ev_images e) /\ Forall (fun p => lp_Namespace p = NamespaceSystem) (ev_labelled e) /\
      forall q k, k <> NamespaceSystem -> countAt vol q k = None
  | None => True
  end.

Definition isListed {A} (sys : option A) : bool := match sys with Some _ => true | None => false end.

(** What a full pass reads. *)
Definition fullRead (vps : volumePlugins) (releases : list HelmRelease) (gitops : list GitOpsChart) (sys : option (addOnEvidence * gmap string VolumePluginUse)) (pods : list pod) :=
  foldl (readPod vps) (startEvidence releases gitops sys) (if isListed sys then outside pods else pods).

Lemma readPage_full vps releases gitops sys pods :
  readPage vps (isListed sys) (startEvidence releases gitops sys) pods = fullRead vps releases gitops sys pods.
Proof. unfold fullRead. destruct sys as [s|]; [apply readPage_outside|done]. Qed.

Lemma filter_nil {A} (p : A -> bool) l : (forall x, x ∈ l -> p x = false) -> List.filter p l = [].
Proof. intros Hp. induction l as [|x l IH]; cbn; [done|]. rewrite (Hp x) by (by left). apply IH. intros y Hy. apply Hp. by right. Qed.

Lemma filter_id {A} (p : A -> bool) l : (forall x, x ∈ l -> p x = true) -> List.filter p l = l.
Proof. intros Hp. induction l as [|x l IH]; cbn; [done|]. rewrite (Hp x) by (by left). f_equal. apply IH. intros y Hy. apply Hp. by right. Qed.

(** Outside kube-system, a pass holds what its pods outside it show. *)
Lemma images_outside pods :
  List.filter (negb ∘ fun i => ni_Namespace i =s NamespaceSystem) (flat_map imagesOf pods) = flat_map imagesOf (outside pods).
Proof.
  induction pods as [|p pods IH]; cbn; [done|]. rewrite List.filter_app, IH. destruct (pd_Namespace p =s NamespaceSystem) eqn:E; cbn.
  - rewrite filter_nil; [done|]. intros x (i & -> & _)%list_elem_of_fmap. cbn. by rewrite E.
  - rewrite filter_id; [done|]. intros x (i & -> & _)%list_elem_of_fmap. cbn. by rewrite E.
Qed.

Lemma labelled_outside pods :
  List.filter (negb ∘ fun p => lp_Namespace p =s NamespaceSystem) (omap labelledOf pods) = omap labelledOf (outside pods).
Proof.
  induction pods as [|p pods IH]; [done|]. unfold outside. cbn [omap list_omap List.filter]. fold (outside pods).
  destruct (labelledOf p) as [q|] eqn:El.
  - assert (Hns : lp_Namespace q = pd_Namespace p) by (unfold labelledOf in El; case_bool_decide; by simplify_eq).
    cbn [List.filter]. unfold compose at 1. rewrite Hns. destruct (pd_Namespace p =s NamespaceSystem); cbn [negb]; [exact IH|].
    cbn [omap list_omap]. rewrite El. f_equal. exact IH.
  - destruct (negb _); cbn [omap list_omap]; rewrite ?El; exact IH.
Qed.

Lemma outside_idem pods : outside (outside pods) = outside pods.
Proof. unfold outside. apply filter_id. intros p [_ Hp]%filter_in. done. Qed.

Lemma full_outside vps releases gitops sys pods : systemOnly sys ->
  List.filter (negb ∘ fun i => ni_Namespace i =s NamespaceSystem) (ev_images (fullRead vps releases gitops sys pods).1) = flat_map imagesOf (outside pods) /\
  List.filter (negb ∘ fun p => lp_Namespace p =s NamespaceSystem) (ev_labelled (fullRead vps releases gitops sys pods).1) = omap labelledOf (outside pods) /\
  (forall q k, countAt (tallyWithout (fullRead vps releases gitops sys pods).2 NamespaceSystem) q k =
     if k =s NamespaceSystem then None else plusHits None (hits (pluginUses vps (outside pods)) q k)).
Proof.
  intros Hs. unfold fullRead. destruct (readPods_evidence vps (startEvidence releases gitops sys) (if isListed sys then outside pods else pods)) as [-> ->].
  cbn [ev_images ev_labelled]. rewrite !List.filter_app, images_outside, labelled_outside.
  assert (Hout : outside (if isListed sys then outside pods else pods) = outside pods) by (destruct sys; [apply outside_idem|done]).
  rewrite Hout. split_and!.
  - rewrite filter_nil; [done|]. destruct sys as [[e vol]|]; [|by intros x ?%not_elem_of_nil]. destruct Hs as (Hi & _ & _). rewrite Forall_forall in Hi.
    intros x Hx. unfold compose. rewrite (Hi x Hx). done.
  - rewrite filter_nil; [done|]. destruct sys as [[e vol]|]; [|by intros x ?%not_elem_of_nil]. destruct Hs as (_ & Hl & _). rewrite Forall_forall in Hl.
    intros x Hx. unfold compose. rewrite (Hl x Hx). done.
  - intros q k. rewrite tallyWithout_count. destruct (k =s NamespaceSystem) eqn:Ek; [done|]. rewrite tallyPods_uses, ones_count.
    assert (Hh : hits (pluginUses vps (if isListed sys then outside pods else pods)) q k = hits (pluginUses vps (outside pods)) q k).
    { destruct sys; [done|]. cbn. by rewrite hits_outside, Ek. }
    rewrite Hh. f_equal. apply String.eqb_neq in Ek. destruct sys as [[e vol]|]; cbn; [|done]. destruct Hs as (_ & _ & Hc).
    rewrite tallyMerge_count, (Hc q k Ek). done.
Qed.

Section Reuse.
Context `{SemverOrder} (vps : volumePlugins) (addons : list AddOn) (releases : list HelmRelease) (gitops : list GitOpsChart).

(** A full pass, as a collection reads it. *)
Lemma readPods_full sys api fuel now start c st read age c' pods :
  readPods vps addons releases gitops sys api fuel now start c = Some (st, None, read, age, c') -> read = true ->
  pagesOf (as_pods api) fuel 0 (isListed sys) "" = Some pods ->
  st = fullRead vps releases gitops sys pods /\ age = 0 /\
  c' = recordPass st.1 st.2 start (installSignature releases gitops addons) (forget c).
Proof.
  intros Hr -> Hp. unfold readPods in Hr. fold (isListed sys) in Hr. cbv zeta in Hr.
  assert (Hlist : forall b, match listPods vps (isListed sys) (as_pods api) fuel 0 (isListed sys) "" false (startEvidence releases gitops sys) with
      | None => None
      | Some (st, None, read) => Some (st, None, read, 0, recordPass st.1 st.2 start (installSignature releases gitops addons) (forget b))
      | Some (st, Some e, read) => Some (st, Some e, read, 0, forget (forget b))
      end = Some (st, None, true, age, c') ->
    st = fullRead vps releases gitops sys pods /\ age = 0 /\ c' = recordPass st.1 st.2 start (installSignature releases gitops addons) (forget b)).
  { intros b. rewrite (listPods_pages vps (isListed sys) (as_pods api) fuel 0 (isListed sys) "" false _ pods Hp), readPage_full. intros [= <- <- <-]. done. }
  destruct (isListed sys); [|by apply Hlist]. unfold reuse in Hr. destruct (negb (enabled c) || _ || _); [by apply Hlist|].
  destruct (_ || _); [by apply Hlist|done].
Qed.

(** The evidence of the reused pass is the full one without its repeats. *)
Lemma pass_without_repeats sys1 sys2 pods1 pods2 start sig c controllers : systemOnly sys1 -> enabled c = true ->
  Forall pod_nul_free (ev_labelled (fullRead vps releases gitops sys1 pods1).1) -> outside pods2 = outside pods1 ->
  let c1 := recordPass (fullRead vps releases gitops sys1 pods1).1 (fullRead vps releases gitops sys1 pods1).2 start sig c in
  let reused := withPass (startEvidence releases gitops (Some sys2)) c1 (pc_images c1) (pc_labels c1) in
  let full := fullRead vps releases gitops (Some sys2) pods2 in
  without_repeats (mkEvidence (ev_images reused.1) (ev_labelled reused.1) releases gitops controllers)
                  (mkEvidence (ev_images full.1) (ev_labelled full.1) releases gitops controllers) /\
  reused.2 = full.2.
Proof.
  intros Hs He Hnul Hout. cbv zeta. destruct (full_outside vps releases gitops sys1 pods1 Hs) as (Hi & Hl & Hc).
  unfold recordPass. rewrite He. cbn [negb pc_images pc_labels]. unfold withPass. cbn [fst snd ev_images ev_labelled pc_volumes].
  assert (Hfull : fullRead vps releases gitops (Some sys2) pods2 = foldl (readPod vps) (startEvidence releases gitops (Some sys2)) (outside pods1))
    by (unfold fullRead; cbn [isListed]; by rewrite Hout).
  rewrite Hfull. destruct (readPods_evidence vps (startEvidence releases gitops (Some sys2)) (outside pods1)) as [-> ->]. split.
  - split; cbn [ev_images ev_labelled ev_releases ev_gitops ev_ingressControllers]; try done.
    + apply repeats_app; [apply repeats_refl|]. eapply repeats_mono; [apply list_subseteq_nil|]. rewrite <- Hi.
      apply (firstOf_repeats id _ []). by intros x _ y _ E.
    + apply repeats_app; [apply repeats_refl|]. eapply repeats_mono; [apply list_subseteq_nil|]. rewrite <- Hl.
      apply (firstOf_repeats podKey _ []). intros x Hx y Hy. rewrite app_nil_r in Hy. rewrite Forall_forall in Hnul. apply podKey_inj; auto.
  - rewrite tallyPods_uses. destruct sys2 as [e2 vol2]. cbn [startEvidence snd]. apply live_ext.
    + by apply tallyMerge_live, tallyMerge_live.
    + apply fold_live; [|by apply tallyMerge_live]. intros t [p ns] Ht. by apply tallyAdd_live.
    + intros q k. rewrite ones_count, tallyMerge_count, Hc, hits_outside. destruct (k =s NamespaceSystem); [done|].
      unfold plusHits. by destruct (_ =? 0).
Qed.

(** The same outcome of a step, at another age. *)
Definition atAge (age : Z) (r : addOnsRead) : addOnsRead :=
  mkAddOnsRead (ar_AddOns r) (ar_Unrecognized r) (ar_UnrecognizedOmitted r) age (ar_Volumes r) (ar_VolumesStatus r) (ar_Error r).

(** A collection that reuses the last pod pass finds exactly what it
    would have found by listing every pod again, when the pods outside
    kube-system are the same: the same add-ons at the same versions, the
    same unrecognized images, the same volume plugins and the same gaps,
    whatever the kube-system pods, IngressClasses and volumes are by then.
    Only the age of the evidence differs. *)
Lemma reuse_exact (helmRead : bool) (sys1 : option (addOnEvidence * gmap string VolumePluginUse)) (sys2 : addOnEvidence * gmap string VolumePluginUse)
    (api1 api2 : apiserver) (fuel : nat) (now1 start1 now2 start2 : Time) (c0 c1 c2 : passCache)
    (st1 : addOnEvidence * gmap string VolumePluginUse) (age1 : Z) (pods1 pods2 : list pod) (r : addOnsRead) :
  semver_laws -> enabled c0 = true ->
  readPods vps addons releases gitops sys1 api1 fuel now1 start1 c0 = Some (st1, None, true, age1, c1) ->
  pagesOf (as_pods api1) fuel 0 (isListed sys1) "" = Some pods1 -> systemOnly sys1 -> Forall pod_nul_free (ev_labelled st1.1) ->
  pagesOf (as_pods api2) fuel 0 true "" = Some pods2 -> outside pods2 = outside pods1 ->
  labels_readable (fullRead vps releases gitops (Some sys2) pods2).1 addons ->
  all_readable (events (fullRead vps releases gitops (Some sys2) pods2).1 addons) ->
  collectAddOnsFrom vps addons releases gitops helmRead (Some sys2) api2 fuel now2 start2 c1 = Some (r, c2) ->
  exists c', collectAddOnsFrom vps addons releases gitops helmRead (Some sys2) api2 fuel now2 start2 (forget c1) = Some (atAge 0 r, c').
Proof.
  intros Hlaws He H1 Hp1 Hs Hnul Hp2 Hout Hlab Hev Hcol.
  destruct (readPods_full _ _ _ _ _ _ _ _ _ _ _ H1 eq_refl Hp1) as (-> & _ & ->).
  set (c1 := recordPass _ _ _ _ _) in *. set (full := fullRead vps releases gitops (Some sys2) pods2) in *.
  assert (Hshape : full.1 = mkEvidence (ev_images full.1) (ev_labelled full.1) releases gitops []).
  { subst full. unfold fullRead. destruct (readPods_evidence vps (startEvidence releases gitops (Some sys2)) (outside pods2)) as [E _].
    cbn [isListed]. rewrite E. by destruct sys2. }
  assert (Hforget : readPods vps addons releases gitops (Some sys2) api2 fuel now2 start2 (forget c1) =
            Some (full, None, true, 0, recordPass full.1 full.2 start2 (installSignature releases gitops addons) (forget (forget c1)))).
  { unfold readPods. cbv zeta. unfold reuse. cbn [pc_have forget NewPodPassCache negb]. rewrite orb_true_r. cbn [orb].
    rewrite (listPods_pages vps true (as_pods api2) fuel 0 true "" false _ pods2 Hp2). by rewrite (readPage_full vps releases gitops (Some sys2)). }
  unfold collectAddOnsFrom in Hcol |- *. rewrite Hforget.
  assert (Hread : exists st read age c', readPods vps addons releases gitops (Some sys2) api2 fuel now2 start2 c1 = Some (st, None, read, age, c') /\ st.2 = full.2 /\
            forall controllers, matchAddOns (mkEvidence (ev_images st.1) (ev_labelled st.1) releases gitops controllers) addons =
              matchAddOns (mkEvidence (ev_images full.1) (ev_labelled full.1) releases gitops controllers) addons).
  { unfold readPods. cbv zeta. unfold reuse. destruct (negb (enabled c1) || _ || _) eqn:Eg.
    - rewrite (listPods_pages vps true (as_pods api2) fuel 0 true "" false _ pods2 Hp2), (readPage_full vps releases gitops (Some sys2)).
      do 4 eexists. split_and!; [reflexivity|done|done].
    - destruct ((pc_every c1 <=? pc_since c1 + 1) || _).
      + rewrite (listPods_pages vps true (as_pods api2) fuel 0 true "" false _ pods2 Hp2), (readPage_full vps releases gitops (Some sys2)).
      do 4 eexists. split_and!; [reflexivity|done|done].
      + do 4 eexists. split; [reflexivity|].
        destruct (pass_without_repeats sys1 sys2 pods1 pods2 start1 (installSignature releases gitops addons) (forget c0) [] Hs He Hnul Hout) as [_ Hvol].
        split; [exact Hvol|]. intros controllers.
        destruct (pass_without_repeats sys1 sys2 pods1 pods2 start1 (installSignature releases gitops addons) (forget c0) controllers Hs He Hnul Hout) as [Hwr _].
        apply (matchAddOns_repeats Hlaws addons _ _ Hwr); [exact Hlab|]. rewrite Hshape in Hev. exact Hev. }
  destruct Hread as (st & read & age & c' & Hr & Hvol & Hm). rewrite Hr in Hcol.
  destruct (listClasses _ _ _ _ _ _) as [[[controllers classErr] classesRead]|]; [|done]. rewrite Hm, Hvol in Hcol.
  destruct (matchAddOns _ addons) as [insts unrec]. destruct (setUnrecognized unrec) as [unrec' omitted].
  destruct (listVolumeObjects _ _ _ _ _) as [[vol objs]|]; [|done].
  assert (Hlive : setLiveVolumes vol None read objs = setLiveVolumes vol None true objs) by (by destruct read). rewrite Hlive in Hcol.
  destruct (setLiveVolumes vol None true objs) as [rows volStatus]. cbn in Hcol |- *. injection Hcol as <- _. eexists. reflexivity.
Qed.
End Reuse.

(** ** How long a pass is reused *)

(** What one collection did with the pods. *)
Inductive podOutcome := Full (start : Time) (sig : string) | Incomplete | Reused (now : Time) (sig : string).

(** A collection: what it is given besides the cache. *)
Record collection := mkCollection {
  cn_addons : list AddOn;
  cn_releases : list HelmRelease;
  cn_gitops : list GitOpsChart;
  cn_sys : option (addOnEvidence * gmap string VolumePluginUse);
  cn_api : apiserver;
  cn_fuel : nat;
  cn_now : Time;
  cn_start : Time;
}.

Definition collectPods (vps : volumePlugins) (x : collection) (c : passCache) : option (podOutcome * passCache) :=
  let sig := installSignature (cn_releases x) (cn_gitops x) (cn_addons x) in
  match readPods vps (cn_addons x) (cn_releases x) (cn_gitops x) (cn_sys x) (cn_api x) (cn_fuel x) (cn_now x) (cn_start x) c with
  | None => None
  | Some (_, Some _, _, _, c') => Some (Incomplete, c')
  | Some (_, None, true, _, c') => Some (Full (cn_start x) sig, c')
  | Some (_, None, false, _, c') => Some (Reused (cn_now x) sig, c')
  end.

Fixpoint collectAll (vps : volumePlugins) (xs : list collection) (c : passCache) : option (list podOutcome * passCache) :=
  match xs with
  | [] => Some ([], c)
  | x :: xs' =>
      match collectPods vps x c with
      | None => None
      | Some (o, c') => (fun '(os, c'') => (o :: os, c'')) <$> collectAll vps xs' c'
      end
  end.

(** The collections since [os] last listed every pod. *)
Definition since_pass (os : list podOutcome) (start : Time) (sig : string) (n : Z) : Prop :=
  exists before after, os = before ++ Full start sig :: after /\ Forall (fun o => exists now, o = Reused now sig) after /\ zlen after = n.

Definition pass_inv (every maxAge : Z) (os : list podOutcome) (c : passCache) : Prop :=
  pc_every c = every /\ pc_maxAge c = maxAge /\ (pc_have c = true -> since_pass os (pc_at c) (pc_sig c) (pc_since c)).

(** What a reuse has behind it. *)
Definition reuse_ok (every maxAge : Z) (os : list podOutcome) (now : Time) (sig : string) : Prop :=
  exists start n, since_pass os start sig n /\ n + 1 < every /\ (0 < maxAge -> Sub now start < maxAge).

Lemma listPods_read vps sysRead api fuel k selector cont read st st' r :
  listPods vps sysRead api fuel k selector cont read st = Some (st', None, r) -> r = true.
Proof.
  revert k selector cont read st. induction fuel as [|fuel IH]; intros k selector cont read st; cbn [listPods]; [done|].
  destruct (api k selector cont) as [items cont'|nf bad msg].
  - destruct (cont' =s ""); [by intros [= _ <-]|apply IH].
  - destruct (_ && _ && _); [apply IH|done].
Qed.

Lemma collectPods_inv vps every maxAge os x c o c' : pass_inv every maxAge os c -> collectPods vps x c = Some (o, c') ->
  pass_inv every maxAge (os ++ [o]) c' /\ forall now sig, o = Reused now sig -> reuse_ok every maxAge os now sig.
Proof.
  intros (Hev & Hage & Hinv). unfold collectPods. cbv zeta.
  assert (Hlist : forall b, pc_every b = every -> pc_maxAge b = maxAge ->
    match match listPods vps (isListed (cn_sys x)) (as_pods (cn_api x)) (cn_fuel x) 0 (isListed (cn_sys x)) "" false (startEvidence (cn_releases x) (cn_gitops x) (cn_sys x)) with
      | None => None
      | Some (st, None, read) => Some (st, None, read, 0, recordPass st.1 st.2 (cn_start x) (installSignature (cn_releases x) (cn_gitops x) (cn_addons x)) (forget b))
      | Some (st, Some e, read) => Some (st, Some e, read, 0, forget (forget b))
      end with
    | None => None
    | Some (_, Some _, _, _, c') => Some (Incomplete, c')
    | Some (_, None, true, _, c') => Some (Full (cn_start x) (installSignature (cn_releases x) (cn_gitops x) (cn_addons x)), c')
    | Some (_, None, false, _, c') => Some (Reused (cn_now x) (installSignature (cn_releases x) (cn_gitops x) (cn_addons x)), c')
    end = Some (o, c') -> pass_inv every maxAge (os ++ [o]) c' /\ forall now sig, o = Reused now sig -> reuse_ok every maxAge os now sig).
  { intros b Hb1 Hb2. destruct (listPods _ _ _ _ _ _ _ _ _) as [[[st [e|]] read]|] eqn:El; [| |done].
    - intros [= <- <-]. split; [|done]. unfold pass_inv. cbn. done.
    - apply listPods_read in El as ->. intros [= <- <-]. split; [|done]. unfold recordPass. destruct (negb (enabled (forget b))) eqn:Ee.
      + unfold pass_inv. cbn. done.
      + unfold pass_inv. cbn. split_and!; [done|done|]. intros _. exists os, []. done. }
  unfold readPods. cbv zeta. fold (isListed (cn_sys x)). destruct (isListed (cn_sys x)); [|by apply Hlist].
  unfold reuse. destruct (negb (enabled c) || _ || _) eqn:Eg; [by apply Hlist|].
  destruct ((pc_every c <=? pc_since c + 1) || _) eqn:Eb; [by apply Hlist|]. intros [= <- <-].
  rewrite !orb_false_iff, !negb_false_iff in Eg. destruct Eg as [[_ Hhave] Hsig]. apply String.eqb_eq in Hsig.
  apply orb_false_iff in Eb as [Eb1 Eb2]. apply Z.leb_gt in Eb1. specialize (Hinv Hhave) as (before & after & -> & Hafter & Hn). split.
  - unfold pass_inv. cbn. split_and!; [done|done|]. intros _. exists before, (after ++ [Reused (cn_now x) (pc_sig c)]). rewrite Hsig. split_and!.
    + by rewrite <- app_assoc.
    + apply Forall_app. split; [done|]. apply Forall_singleton. eauto.
    + unfold zlen in *. rewrite length_app. cbn. lia.
  - intros now sig [= <- <-]. rewrite Hsig. exists (pc_at c), (pc_since c). split_and!; [by exists before, after|lia|].
    intros Hpos. subst maxAge. apply andb_false_iff in Eb2 as [E|E]; to_prop; lia.
Qed.

Lemma collectAll_inv vps every maxAge xs os0 c os c' : pass_inv every maxAge os0 c -> collectAll vps xs c = Some (os, c') ->
  forall i now sig, os !! i = Some (Reused now sig) -> reuse_ok every maxAge (os0 ++ take i os) now sig.
Proof.
  revert os0 c os c'. induction xs as [|x xs IH]; intros os0 c os c' Hinv; cbn [collectAll].
  - intros [= <- <-]. done.
  - destruct (collectPods vps x c) as [[o c1]|] eqn:Ex; [|done]. destruct (collectPods_inv _ _ _ _ _ _ _ _ Hinv Ex) as [Hinv1 Hok].
    destruct (collectAll vps xs c1) as [[os1 c2]|] eqn:Er; [|done]. intros [= <- <-] i now sig Hi. destruct i as [|i]; cbn in *.
    + rewrite app_nil_r. apply Hok. congruence.
    + specialize (IH (os0 ++ [o]) c1 os1 c2 Hinv1 Er i now sig Hi). by rewrite <- app_assoc in IH.
Qed.

(** A pass is reused as long as it was told to and no longer: in any
    sequence of collections with one cache, whatever the apiserver answers,
    a collection that reused evidence comes after one that listed every pod
    with the same Helm releases and GitOps charts, with nothing but reuses
    between them, fewer than [every] collections in all, and none once the
    pass is [maxAge] old. *)
Lemma reuse_bounded (vps : volumePlugins) (every maxAge : Z) (xs : list collection) (os : list podOutcome) (c : passCache) :
  collectAll vps xs (NewPodPassCache every maxAge) = Some (os, c) ->
  forall i now sig, os !! i = Some (Reused now sig) ->
  exists j start, (j < i)%nat /\ os !! j = Some (Full start sig) /\ Z.of_nat (i - j) < every /\ (0 < maxAge -> Sub now start < maxAge) /\
    forall k, (j < k < i)%nat -> exists now', os !! k = Some (Reused now' sig).
Proof.
  intros Hall i now sig Hi.
  assert (Hinv : pass_inv every maxAge [] (NewPodPassCache every maxAge)) by done.
  destruct (collectAll_inv _ _ _ _ _ _ _ _ Hinv Hall i now sig Hi) as (start & n & (before & after & E & Hafter & Hn) & Hlt & Hage). cbn in E.
  assert (Hlen : length (take i os) = i) by (apply length_take_le; apply lookup_lt_Some in Hi; lia).
  assert (Hle : i = (length before + S (length after))%nat) by (rewrite <- Hlen, E, length_app; done).
  exists (length before), start. split_and!; [lia| | |done|].
  - rewrite <- (lookup_take_lt os i) by lia. rewrite E, lookup_app_r, Nat.sub_diag by lia. done.
  - unfold zlen in Hn. lia.
  - intros k Hk. rewrite <- (lookup_take_lt os i) by lia. rewrite E, lookup_app_r by lia.
    destruct (k - length before)%nat as [|m] eqn:Em; [lia|]. cbn. destruct (lookup_lt_is_Some_2 after m) as [o Ho]; [lia|].
    rewrite Forall_lookup in Hafter. destruct (Hafter m o Ho) as [now' ->]. eauto.
Qed.

(** ** Two collections of one cluster *)

#[local] Existing Instance exactSemver.
#[local] Existing Instance dottedOrder.

Definition noVolumes : volumePlugins := mkVolumePlugins [] [] [].

Definition examplePod (ns image version : string) : pod :=
  mkPod "p" ns "n1" (list_to_map [("app.kubernetes.io/name", "istio"); ("app.kubernetes.io/version", version)]%string) [] [image] [].

Definition meshPods : list pod := [examplePod "istio-system" "istio/pilot:1.24.2" "1.24.2"; examplePod "istio-system" "istio/pilot:1.24.2" "1.24.2"].

Definition quietAPI (pods : list pod) : apiserver :=
  mkAPI (fun _ _ _ => Page pods "") (fun _ _ => Page [] "") (fun _ _ => Page [] "") (fun _ _ => Page [] "").

Definition noSystem : addOnEvidence * gmap string VolumePluginUse := (mkEvidence [] [] [] [] [], ∅).

(** The first collection of the pods, and the cache it leaves. *)
Definition firstRead : option ((addOnEvidence * gmap string VolumePluginUse) * option string * bool * Z * passCache) :=
  readPods noVolumes [istioEntry] [] [] (Some noSystem) (quietAPI meshPods) 2 0 0 (NewPodPassCache 3 hour).

Definition heldPass : passCache := match firstRead with Some (_, c) => c | None => NewPodPassCache 3 hour end.

Definition secondRead : option (addOnsRead * passCache) :=
  collectAddOnsFrom noVolumes [istioEntry] [] [] true (Some noSystem) (quietAPI meshPods) 2 (10 * minute) (10 * minute) heldPass.

Lemma meshLabelled : ev_labelled (fullRead noVolumes [] [] (Some noSystem) meshPods).1 =
  replicate 2 (mkLabelledPod "istio-system" (mkAppLabels "" "istio" "1.24.2" "") ["istio/pilot:1.24.2"%string]).
Proof. vm_compute. reflexivity. Qed.

Lemma reuse_exact_witness :
  exists r c2, secondRead = Some (r, c2) /\ ar_Age r = 600 /\ length (pc_images c2) = 1%nat /\
  exists c', collectAddOnsFrom noVolumes [istioEntry] [] [] true (Some noSystem) (quietAPI meshPods) 2 (10 * minute) (10 * minute) (forget heldPass) =
    Some (atAge 0 r, c').
Proof.
  destruct secondRead as [[r c2]|] eqn:E; [|vm_compute in E; discriminate E]. exists r, c2. split; [done|]. split_and!.
  - vm_compute in E. by injection E as <- _.
  - vm_compute in E. by injection E as _ <-.
  - apply (reuse_exact noVolumes [istioEntry] [] [] true (Some noSystem) noSystem (quietAPI meshPods) (quietAPI meshPods) 2 0 0 (10 * minute) (10 * minute)
      (NewPodPassCache 3 hour) heldPass c2 (fullRead noVolumes [] [] (Some noSystem) meshPods) 0 meshPods meshPods r dotted_laws).
    + done.
    + vm_compute. reflexivity.
    + done.
    + unfold systemOnly, noSystem. split_and!; [apply Forall_nil_2|apply Forall_nil_2|]. done.
    + rewrite meshLabelled. apply Forall_replicate. unfold pod_nul_free. cbn. repeat (apply Forall_cons_2; [vm_compute; reflexivity|]). apply Forall_nil_2.
    + done.
    + done.
    + unfold labels_readable. rewrite meshLabelled. apply Forall_replicate. right. exists "1.24.2"%string. vm_compute. reflexivity.
    + assert (Hl : events (fullRead noVolumes [] [] (Some noSystem) meshPods).1 [istioEntry] =
        replicate 2 (("istio", "istio-system")%string, mkOne "image" "1.24.2" "")) by (vm_compute; reflexivity).
      rewrite Hl. unfold all_readable. apply Forall_replicate. right. eexists. reflexivity.
    + exact E.
Defined.

Definition exampleCollection (now : Time) : collection :=
  mkCollection [istioEntry] [] [] (Some noSystem) (quietAPI meshPods) 2 now now.

Lemma reuse_bounded_witness :
  exists os c, collectAll noVolumes (map exampleCollection [0; 10 * minute; 20 * minute; 30 * minute]) (NewPodPassCache 3 hour) = Some (os, c) /\
    os !! 2%nat = Some (Reused (20 * minute) "") /\
    exists j start, (j < 2)%nat /\ os !! j = Some (Full start "") /\ Z.of_nat (2 - j) < 3.
Proof.
  exists [Full 0 ""; Reused (10 * minute) ""; Reused (20 * minute) ""; Full (30 * minute) ""].
  eexists. split_and!; [vm_compute; reflexivity|done|].
  edestruct (reuse_bounded noVolumes 3 hour (map exampleCollection [0; 10 * minute; 20 * minute; 30 * minute])) as (j & start & Hj & Hf & Hn & _);
    [vm_compute; reflexivity| |exists j, start; split_and!; [exact Hj|exact Hf|exact Hn]].
  reflexivity.
Defined.
