(* ===== verification/ControlPlane.v ===== *)
(** * The versions of a cluster: internal/collect/versions.go and provider.go

    The server version, the nodes with the managed provider they speak for,
    the namespaces, and the control-plane components found in the
    kube-system pods. An apiserver is what it answers call by call. *)

From stdpp Require Import base list strings gmap.
From Stdlib Require Import ZArith Lia Ascii.
From S2P Require Import Prelude GoStr GoTime GoRegexp Version Inventory KB Registry Detect Tally PodPass.

(** ** Paged lists *)

(** [pageLimit] of a page whose largest object takes [largest] bytes. *)
Definition listPageSize : Z := 500.
Definition wholePageBytes : Z := 8 * 2 ^ 20.
Definition podPageSize : Z := 1000.
Definition nodePageSize : Z := 1000.

Definition pageLimit (largest most : Z) : Z :=
  if largest <=? 0 then listPageSize else Z.max listPageSize (Z.min most (Z.quot wholePageBytes largest)).

(** A paged list, each page added to a state: the state, and the error the
    list ended in. [None]: not over after [fuel] calls. *)
Fixpoint listEach {A S} (add : S -> A -> S) (api : nat -> string -> listAnswer A) (fuel k : nat) (cont : string) (st : S)
    : option (S * option string) :=
  match fuel with
  | O => None
  | Datatypes.S fuel' =>
      match api k cont with
      | ListError _ _ msg => Some (st, Some msg)
      | Page items cont' =>
          let st := foldl add st items in
          if cont' =s "" then Some (st, None) else listEach add api fuel' (Datatypes.S k) cont' st
      end
  end.

(** ** The managed provider *)

Definition ProviderEKS : string := "eks".
Definition ProviderGKE : string := "gke".
Definition ProviderAKS : string := "aks".
Definition ProviderOther : string := "other".

(** [pr_version] is [None] for a service that adds no suffix. *)
Record providerRule := mkProviderRule {
  pr_provider : string;
  pr_version : option re;
  pr_labels : list string;
  pr_schemes : list string;
  pr_notLabels : list string;
}.

Definition dottedTriple : re := Seq (lit "v") (Seq digits (Seq (lit ".") (Seq digits (Seq (lit ".") digits)))).

Definition hexDigit : re := Byte (fun a => is_digit a || ascii_between "a" "f" a).

Definition eksVersion : re :=
  Seq dottedTriple (Seq (text "-eks-") (Seq hexDigit (Seq hexDigit (Seq hexDigit (Seq hexDigit (Seq hexDigit (plus hexDigit))))))).

Definition gkeVersion : re := Seq dottedTriple (Seq (text "-gke.") digits).

Definition providerRules : list providerRule :=
  [ mkProviderRule ProviderEKS (Some eksVersion) ["eks.amazonaws.com/nodegroup"; "eks.amazonaws.com/compute-type"]%string
      ["aws"; "eks-hybrid"]%string [];
    mkProviderRule ProviderGKE (Some gkeVersion) ["cloud.google.com/gke-nodepool"%string] ["gce"%string] ["baremetal.cluster.gke.io/"%string];
    mkProviderRule ProviderAKS None ["kubernetes.azure.com/cluster"%string] ["azure"%string] [] ].

Record node := mkNode {
  nd_Name : string;
  nd_KubeletVersion : string;
  nd_ContainerRuntime : string;
  nd_Labels : gmap string string;
  nd_ProviderID : string;
}.

Record providerEvidence := mkProviderEvidence {
  pe_labelled : gset string;
  pe_notLabel : gset string;
  pe_schemes : gset string;
  pe_nodesRead : bool;
}.

Definition noEvidence : providerEvidence := mkProviderEvidence ∅ ∅ ∅ false.

(** A rule's node labels on a node, and the labels that contradict it. *)
Definition labels_rule (n : node) (r : providerRule) : bool :=
  existsb (fun k => bool_decide (is_Some (nd_Labels n !! k))) (pr_labels r).

Definition contradicts_rule (n : node) (r : providerRule) : bool :=
  existsb (fun k => existsb (HasPrefix k) (pr_notLabels r)) (map fst (map_to_list (nd_Labels n))).

Definition nodeScheme (n : node) : option string :=
  match cut_opt (nd_ProviderID n) "://" with
  | Some (scheme, _) => if scheme =s "" then None else Some scheme
  | None => None
  end.

Definition addNode (e : providerEvidence) (n : node) : providerEvidence :=
  mkProviderEvidence
    (pe_labelled e ∪ list_to_set (map pr_provider (List.filter (labels_rule n) providerRules)))
    (pe_notLabel e ∪ list_to_set (map pr_provider (List.filter (contradicts_rule n) providerRules)))
    (match nodeScheme n with Some s => {[s]} ∪ pe_schemes e | None => pe_schemes e end)
    (pe_nodesRead e).

Definition claims (e : providerEvidence) (serverVersion : string) (r : providerRule) : bool :=
  match pr_version r with Some v => MatchString v serverVersion | None => false end || bool_decide (pr_provider r ∈ pe_labelled e).

Definition provider (e : providerEvidence) (serverVersion : string) : string :=
  let e := if pe_nodesRead e then e else noEvidence in
  match List.filter (claims e serverVersion) providerRules with
  | [] => if pe_nodesRead e then ProviderOther else ""
  | [r] =>
      if bool_decide (pr_provider r ∈ pe_notLabel e) then ProviderOther
      else if existsb (fun s => negb (mem_str s (pr_schemes r))) (elements (pe_schemes e)) then ProviderOther
      else pr_provider r
  | _ => ProviderOther
  end.

(** ** Control-plane components *)

Definition controlPlaneComponents : list string :=
  ["kube-apiserver"; "kube-controller-manager"; "kube-scheduler"; "kube-proxy"]%string.

Definition classifyControlPlanePod (name : string) (labels : gmap string string) : string * bool :=
  match find (fun v => mem_str v controlPlaneComponents) [label labels "component"; label labels "k8s-app"] with
  | Some comp => (comp, true)
  | None =>
      match find (fun comp => HasPrefix name (comp +:+ "-")) controlPlaneComponents with
      | Some comp => (comp, false)
      | None => (""%string, false)
      end
  end.

Definition componentArches : list string := ["amd64"; "arm64"; "arm"; "ppc64le"; "s390x"]%string.
Definition allComponentsImages : list string := ["hardened-kubernetes"; "hyperkube"]%string.
Definition schedulerPluginsPath : string := "scheduler-plugins".

(** A number written as [strconv.Itoa] writes it, and not negative. *)
Definition plainInt (p : string) : option Z :=
  match Atoi p with
  | Some v => if (v <? 0) || negb (p =s itoa v) then None else Some v
  | None => None
  end.

Definition schedulerPluginsVersion (tag : string) : option string :=
  match Split (TrimPrefix tag "v") "." with
  | [zero; minor; patch] =>
      if negb (zero =s "0") then None
      else match plainInt minor, plainInt patch with
           | Some m, Some p => Some ("v1." +:+ itoa m +:+ "." +:+ itoa (if 100 <=? p then 0 else p))
           | _, _ => None
           end
  | _ => None
  end.

Definition imageOf (base name : string) : bool :=
  (base =s name) || match CutPrefix base (name +:+ "-") with Some arch => mem_str arch componentArches | None => false end.

(** What one container says of [comp]: nothing when its image is not the
    component's, the version, or why there is none. *)
Inductive imageVersion := NotComponent | HasVersion (v : string) | NoVersion (why : string).

Definition containerVersion (comp image : string) : imageVersion :=
  let '(repo, t) := splitImage image in
  let path := Split repo "/" in
  let base := default ""%string (last path) in
  let ofAll := existsb (imageOf base) allComponentsImages in
  if negb (imageOf base comp) && negb ofAll then NotComponent
  else
    let plugins := mem_str schedulerPluginsPath (take (length path - 1) path) in
    let v := (split_at (fun a => existsb (Ascii.eqb a) ["-"; "+"; "_"]%char) t).1 in
    let parsed := ParseVersion v in
    let zero := match parsed with Ok pv => Major pv =? 0 | Err _ => false end in
    let version :=
      if plugins || (zero && (comp =s "kube-scheduler")) then schedulerPluginsVersion v
      else match parsed with Ok _ => if zero then None else Some v | Err _ => None end in
    match version with
    | Some k => HasVersion k
    | None =>
        NoVersion (comp +:+ " image " +:+ image +:+
          (if t =s "" then " has no version tag"
           else " has tag " +:+ quote t +:+
             (if plugins then ", not a scheduler-plugins version (v0.<minor>.<patch>)"
              else if zero then ", not a Kubernetes version (no release is 0.x)" else ", not a version")))
    end.

Fixpoint imageTagFrom (why : string) (images : list string) (comp : string) : string * string :=
  match images with
  | [] => (""%string, why)
  | i :: rest =>
      match containerVersion comp i with
      | NotComponent => imageTagFrom why rest comp
      | HasVersion v => (v, ""%string)
      | NoVersion w => imageTagFrom (if negb (why =s "") then why else w) rest comp
      end
  end.

Definition componentImageTag (images : list string) (comp : string) : string * string := imageTagFrom "" images comp.

Definition podImages (images : list string) : string := Join images ", ".

(** ** The control plane of the kube-system pods *)

#[global] Instance ComponentVersion_eq_dec : EqDecision ComponentVersion.
Proof. solve_decision. Defined.

Record controlPlaneRead := mkControlPlaneRead {
  cp_seen : list ComponentVersion;     (** the keys of a map *)
  cp_unread : gmap string string;
  cp_unreadComps : gset string;
  cp_requiredComps : gset string;
  cp_requiredPods : list string;
}.

Definition nothingRead : controlPlaneRead := mkControlPlaneRead [] ∅ ∅ ∅ [].

Definition addSeen (cv : ComponentVersion) (seen : list ComponentVersion) : list ComponentVersion :=
  if bool_decide (cv ∈ seen) then seen else seen ++ [cv].

(** What is read of one pod: the component's version, or why it has none
    and whether that is required; nothing of a pod that is no component. *)
Inductive podVersion := NoComponent | PodRuns (cv : ComponentVersion) | PodUnread (comp why : string) (required : bool).

Definition podVersionOf (p : pod) : podVersion :=
  let '(comp, labelled) := classifyControlPlanePod (pd_Name p) (pd_Labels p) in
  if comp =s "" then NoComponent
  else
    let '(tag, why) := componentImageTag (pd_Images p) comp in
    let vendor := (why =s "") && (tag =s "") && labelled in
    let required := if vendor then negb (comp =s "kube-proxy") else negb (why =s "") in
    let why := if vendor then "labelled " +:+ comp +:+ " but runs a vendor image whose version is not read (" +:+ podImages (pd_Images p) +:+ ")" else why in
    if negb (tag =s "") then PodRuns (mkComponentVersion comp tag (if comp =s "kube-proxy" then pd_NodeName p else ""))
    else if negb (why =s "") then PodUnread comp why required else NoComponent.

Definition readComponent (st : controlPlaneRead) (p : pod) : controlPlaneRead :=
  match podVersionOf p with
  | NoComponent => st
  | PodRuns cv => mkControlPlaneRead (addSeen cv (cp_seen st)) (cp_unread st) (cp_unreadComps st) (cp_requiredComps st) (cp_requiredPods st)
  | PodUnread comp why required =>
      mkControlPlaneRead (cp_seen st) (<[pd_Name p := why]> (cp_unread st)) ({[comp]} ∪ cp_unreadComps st)
        (if required then {[comp]} ∪ cp_requiredComps st else cp_requiredComps st)
        (cp_requiredPods st ++ if required then [pd_Name p] else [])
  end.

Definition compareComponents (a b : ComponentVersion) : bool :=
  if negb (cv_Component a =s cv_Component b) then cv_Component a <s cv_Component b
  else if negb (cv_Version a =s cv_Version b) then cv_Version a <s cv_Version b
  else cv_Node a <s cv_Node b.

Definition sortComponents (l : list ComponentVersion) : list ComponentVersion := isort (fun a b => negb (compareComponents b a)) l.

(** [slices.Min] of a list that is not empty. *)
Definition minString (l : list string) : string :=
  match l with [] => "" | x :: l => foldl (fun m y => if y <s m then y else m) x l end.

Definition controlPlaneOutcome (st : controlPlaneRead) : option stepError :=
  if bool_decide (cp_unread st = ∅) then None
  else
    let pods := sort_strings (elements (dom (cp_unread st))) in
    let first := match cp_requiredPods st with [] => minString pods | l => minString l end in
    let skipped := match cp_requiredPods st with [] => [] | _ => sort_strings (elements (cp_requiredComps st)) end in
    Some (StepPartial ("version not read from " +:+ itoa (Z.of_nat (size (cp_unread st))) +:+ " control-plane pod(s) (" +:+
            Join (sort_strings (elements (cp_unreadComps st))) ", " +:+ "), first kube-system/" +:+ first +:+ ": " +:+
            default ""%string (cp_unread st !! first) +:+ "; their skew was not evaluated") skipped).

(** The rows, what the add-ons step is left of the pods, and the outcome;
    [None]: the list does not end. *)
Definition collectControlPlane (vps : volumePlugins) (api : nat -> string -> listAnswer pod) (fuel : nat)
    : option (list ComponentVersion * option (addOnEvidence * gmap string VolumePluginUse) * option stepError) :=
  let start := ((mkEvidence [] [] [] [] [], ∅ : gmap string VolumePluginUse), nothingRead) in
  match listEach (fun '(ev, st) p => (readPod vps ev p, readComponent st p)) api fuel 0 "" start with
  | None => None
  | Some (_, Some e) => Some ([], None, Some (StepFailed ("list kube-system pods: " +:+ e)))
  | Some ((ev, st), None) => Some (sortComponents (cp_seen st), Some ev, controlPlaneOutcome st)
  end.

(** ** The step *)

Definition noNodesReason : string := "no nodes listed: kubelet skew and node runtimes not assessed".

Definition withNoNodes (err : option stepError) : stepError :=
  match err with
  | None => StepPartial noNodesReason ["nodes"%string]
  | Some (StepFailed e) => StepFailed e
  | Some (StepPartial msg skipped) => StepPartial (msg +:+ "; " +:+ noNodesReason) (sort_strings (skipped ++ ["nodes"%string]))
  | Some (StepNoted msg) => StepPartial (msg +:+ "; " +:+ noNodesReason) ["nodes"%string]
  end.

Record namespace := mkNamespace { nm_Name : string; nm_Labels : gmap string string }.

(** The answers of one collection. *)
Record versionsAPI := mkVersionsAPI {
  va_version : res string;
  va_kubeSystem : res string;
  va_nodes : nat -> string -> listAnswer node;
  va_namespaces : nat -> string -> listAnswer namespace;
  va_pods : nat -> string -> listAnswer pod;
}.

(** What the step leaves in the inventory and for the add-ons step, as far
    as it got. *)
Record versionsRead := mkVersionsRead {
  vr_ServerVersion : string;
  vr_ClusterID : string;
  vr_Nodes : list NodeInfo;
  vr_Provider : string;
  vr_Namespaces : list NamespaceInfo;
  vr_ControlPlane : list ComponentVersion;
  vr_sysPods : option (addOnEvidence * gmap string VolumePluginUse);
  vr_error : option stepError;
}.

Definition nodeInfo (n : node) : NodeInfo := mkNodeInfo (nd_Name n) (nd_KubeletVersion n) (nd_ContainerRuntime n).

Definition addNodeRow (st : list NodeInfo * providerEvidence) (n : node) : list NodeInfo * providerEvidence :=
  (st.1 ++ [nodeInfo n], addNode st.2 n).

Definition sortNodes (l : list NodeInfo) : list NodeInfo := isort (fun a b => String.leb (n_Name a) (n_Name b)) l.
Definition sortNamespaces (l : list NamespaceInfo) : list NamespaceInfo := isort (fun a b => String.leb (ns_Name a) (ns_Name b)) l.

Definition nodesRead (e : providerEvidence) : providerEvidence :=
  mkProviderEvidence (pe_labelled e) (pe_notLabel e) (pe_schemes e) true.

Definition collectVersionsFrom (vps : volumePlugins) (teamLabel : string) (api : versionsAPI) (fuel : nat) : option versionsRead :=
  match va_version api with
  | Err e => Some (mkVersionsRead "" "" [] "" [] [] None (Some (StepFailed ("server version: " +:+ e))))
  | Ok sv =>
      match va_kubeSystem api with
      | Err e => Some (mkVersionsRead sv "" [] "" [] [] None (Some (StepFailed ("cluster id (kube-system uid): " +:+ e))))
      | Ok uid =>
          match listEach addNodeRow (va_nodes api) fuel 0 "" ([], noEvidence) with
          | None => None
          | Some ((rows, ev), Some e) =>
              Some (mkVersionsRead sv uid rows (provider ev sv) [] [] None (Some (StepFailed ("list nodes: " +:+ e))))
          | Some ((rows, ev), None) =>
              let nodes := sortNodes rows in
              let prov := provider (nodesRead ev) sv in
              match listEach (fun l ns => l ++ [mkNamespaceInfo (nm_Name ns) (label (nm_Labels ns) teamLabel)]) (va_namespaces api) fuel 0 "" [] with
              | None => None
              | Some (nss, Some e) =>
                  Some (mkVersionsRead sv uid nodes prov nss [] None (Some (StepFailed ("list namespaces: " +:+ e))))
              | Some (nss, None) =>
                  match collectControlPlane vps (va_pods api) fuel with
                  | None => None
                  | Some (cps, sys, err) =>
                      Some (mkVersionsRead sv uid nodes prov (sortNamespaces nss) cps sys
                        (if 0 <? zlen nodes then err else Some (withNoNodes err)))
                  end
              end
          end
      end
  end.

(** ** Examples *)

Example eks_suffix : MatchString eksVersion "v1.34.2-eks-3abc123" = true /\ MatchString eksVersion "v1.29.1-eks-1-29-12" = false.
Proof. split; reflexivity. Qed.

Example rke2_tag : containerVersion "kube-apiserver" "docker.io/rancher/hardened-kubernetes:v1.34.2-rke2r1-build20260101" = HasVersion "v1.34.2".
Proof. reflexivity. Qed.

Example tkg_tag : containerVersion "kube-proxy" "projects.registry.vmware.com/tkg/kube-proxy-amd64:v1.28.7_vmware.1" = HasVersion "v1.28.7".
Proof. reflexivity. Qed.

Example plugins_tag : containerVersion "kube-scheduler" "registry.k8s.io/scheduler-plugins/kube-scheduler:v0.18.800" = HasVersion "v1.18.0".
Proof. reflexivity. Qed.

Example extender : containerVersion "kube-scheduler" "example.com/kube-scheduler-extender:v1.2.3" = NotComponent.
Proof. reflexivity. Qed.

(** * What the versions step promises

    No control-plane pod is dropped silently, and a managed provider is
    named only where exactly one service claims the cluster and nothing
    contradicts it. *)

(** ** Paged lists *)

(** The items of all the pages of a list that ends without an error. *)
Fixpoint listed {A} (api : nat -> string -> listAnswer A) (fuel k : nat) (cont : string) : option (list A) :=
  match fuel with
  | O => None
  | S fuel' =>
      match api k cont with
      | ListError _ _ _ => None
      | Page items cont' => if cont' =s "" then Some items else app items <$> listed api fuel' (S k) cont'
      end
  end.

Lemma listEach_listed {A S} (add : S -> A -> S) api fuel k cont st st' :
  listEach add api fuel k cont st = Some (st', None) -> exists items, listed api fuel k cont = Some items /\ st' = foldl add st items.
Proof.
  revert k cont st. induction fuel as [|fuel IH]; intros k cont st; cbn; [done|]. destruct (api k cont) as [items cont'|]; [|done].
  destruct (cont' =s ""); [intros [= <-]; eauto|]. intros (items' & Hl & ->)%IH. exists (items ++ items').
  split; [by rewrite Hl|]. by rewrite foldl_app.
Qed.

(** A page asks for no fewer than the first page does and no more than
    twice as many. *)
Lemma pageLimit_bounds largest most : listPageSize <= most -> listPageSize <= pageLimit largest most <= most.
Proof. unfold pageLimit. intros. destruct (largest <=? 0); lia. Qed.

(** ** Every component pod is accounted for *)

Definition seenBy (pods : list pod) (cv : ComponentVersion) : Prop := exists p, p ∈ pods /\ podVersionOf p = PodRuns cv.

Record accounted (pods : list pod) (st : controlPlaneRead) : Prop := {
  ac_seen cv : cv ∈ cp_seen st <-> seenBy pods cv;
  ac_nodup : NoDup (cp_seen st);
  ac_unread p comp why req : p ∈ pods -> podVersionOf p = PodUnread comp why req ->
    is_Some (cp_unread st !! pd_Name p) /\ comp ∈ cp_unreadComps st /\
    (req = true -> comp ∈ cp_requiredComps st /\ cp_requiredPods st <> []);
  ac_back name : is_Some (cp_unread st !! name) -> exists p comp why req, p ∈ pods /\ pd_Name p = name /\ podVersionOf p = PodUnread comp why req;
  ac_required comp : comp ∈ cp_requiredComps st -> exists p why, p ∈ pods /\ podVersionOf p = PodUnread comp why true;
}.

Lemma addSeen_in cv x seen : x ∈ addSeen cv seen <-> x = cv \/ x ∈ seen.
Proof. unfold addSeen. case_bool_decide; [naive_solver|]. rewrite elem_of_app, list_elem_of_singleton. naive_solver. Qed.

Lemma addSeen_nodup cv seen : NoDup seen -> NoDup (addSeen cv seen).
Proof.
  unfold addSeen. case_bool_decide; [done|]. intros Hn. apply NoDup_app. split_and!; [done| |apply NoDup_singleton].
  intros x Hx ->%list_elem_of_singleton. done.
Qed.

Lemma readComponent_accounted pods st p : accounted pods st -> accounted (pods ++ [p]) (readComponent st p).
Proof.
  intros [Hs Hn Hu Hb Hr]. unfold readComponent.
  assert (Hp : forall q, q ∈ pods ++ [p] <-> q ∈ pods \/ q = p) by (intros; by rewrite elem_of_app, list_elem_of_singleton).
  destruct (podVersionOf p) as [|cv|comp why req] eqn:E; split; cbn [cp_seen cp_unread cp_unreadComps cp_requiredComps cp_requiredPods].
  - intros cv. rewrite Hs. unfold seenBy. split; [intros (q & ? & ?); exists q; rewrite Hp; auto|].
    intros (q & [Hq| ->]%Hp & ?); [eauto|congruence].
  - done.
  - intros q comp why req [Hq| ->]%Hp Ho; [by eapply Hu|congruence].
  - intros name Hi. destruct (Hb name Hi) as (q & c & w & r & ? & ?). exists q, c, w, r. rewrite Hp. naive_solver.
  - intros comp Hc. destruct (Hr comp Hc) as (q & w & ? & ?). exists q, w. rewrite Hp. auto.
  - intros x. rewrite addSeen_in, Hs. unfold seenBy. split.
    + intros [-> |(q & ? & ?)]; [exists p|exists q]; rewrite Hp; auto.
    + intros (q & [Hq| ->]%Hp & Ho); [eauto|left; congruence].
  - by apply addSeen_nodup.
  - intros q comp why req [Hq| ->]%Hp Ho; [by eapply Hu|congruence].
  - intros name Hi. destruct (Hb name Hi) as (q & c & w & r & ? & ?). exists q, c, w, r. rewrite Hp. naive_solver.
  - intros comp Hc. destruct (Hr comp Hc) as (q & w & ? & ?). exists q, w. rewrite Hp. auto.
  - intros cv. rewrite Hs. unfold seenBy. split; [intros (q & ? & ?); exists q; rewrite Hp; auto|].
    intros (q & [Hq| ->]%Hp & ?); [eauto|congruence].
  - done.
  - intros q c w r [Hq| ->]%Hp Ho.
    + destruct (Hu q c w r Hq Ho) as (Hi & Hc & Hreq). split_and!; [|set_solver|].
      * rewrite lookup_insert. case_decide; [eauto|done].
      * intros ->. destruct Hreq as [? ?]; [done|]. split; [destruct req; set_solver|]. by destruct (cp_requiredPods st).
    + assert (c = comp /\ r = req) as [-> ->] by (split; congruence). split_and!; [rewrite lookup_insert_eq; eauto|set_solver|].
      intros ->. split; [set_solver|]. by destruct (cp_requiredPods st).
  - intros name Hi. rewrite lookup_insert in Hi. case_decide as En.
    + exists p, comp, why, req. rewrite Hp. auto.
    + destruct (Hb name Hi) as (q & c & w & r & ? & ?). exists q, c, w, r. rewrite Hp. naive_solver.
  - intros c Hc. assert (c ∈ cp_requiredComps st \/ (c = comp /\ req = true)) as [Hin|[-> ->]] by (destruct req; set_solver).
    + destruct (Hr c Hin) as (q & w & ? & ?). exists q, w. rewrite Hp. auto.
    + exists p, why. rewrite Hp. auto.
Qed.

Lemma readComponents_accounted pods : accounted pods (foldl readComponent nothingRead pods).
Proof.
  induction pods as [|p pods IH] using rev_ind; [|rewrite foldl_app; by apply readComponent_accounted].
  split; cbn; [|constructor|by intros ? ? ? ? ?%elem_of_nil| |set_solver].
  - intros cv. split; [by intros ?%elem_of_nil|by intros (? & ?%elem_of_nil & _)].
  - intros name [? Hx]. by rewrite lookup_empty in Hx.
Qed.

Lemma foldl_pair {A B C} (f : A -> C -> A) (g : B -> C -> B) (l : list C) a b :
  foldl (fun '(x, y) c => (f x c, g y c)) (a, b) l = (foldl f a l, foldl g b l).
Proof. revert a b. induction l as [|c l IH]; intros a b; cbn; [done|apply IH]. Qed.

Lemma collectControlPlane_pods vps api fuel rows sys err :
  collectControlPlane vps api fuel = Some (rows, sys, err) ->
  (exists e, err = Some (StepFailed e) /\ rows = [] /\ sys = None) \/
  exists pods, listed api fuel 0 "" = Some pods /\ rows = sortComponents (cp_seen (foldl readComponent nothingRead pods)) /\
    err = controlPlaneOutcome (foldl readComponent nothingRead pods) /\
    sys = Some (foldl (readPod vps) (mkEvidence [] [] [] [] [], ∅) pods).
Proof.
  unfold collectControlPlane. destruct (listEach _ _ _ _ _ _) as [[[ev st] [e|]]|] eqn:E; [intros [= <- <- <-]; left; eauto| |done].
  intros [= <- <- <-]. right. apply listEach_listed in E as (pods & Hl & Hst). rewrite foldl_pair in Hst. injection Hst as -> ->. eauto.
Qed.

Lemma sort_strings_elem x l : x ∈ sort_strings l <-> x ∈ l.
Proof. by rewrite (sort_strings_perm l). Qed.

(** Control-plane pods are never dropped in silence: when the kube-system
    pods were listed, a component's version is in the inventory exactly
    when a pod runs it; a pod whose version was not read makes the step
    partial, and its component is named as skipped when upstream would have
    told it; a step without a gap has read every one. *)
Lemma control_plane_accounted (vps : volumePlugins) (api : nat -> string -> listAnswer pod) (fuel : nat)
    (rows : list ComponentVersion) (sys : option (addOnEvidence * gmap string VolumePluginUse)) (err : option stepError) (pods : list pod) :
  collectControlPlane vps api fuel = Some (rows, sys, err) -> listed api fuel 0 "" = Some pods -> (forall e, err <> Some (StepFailed e)) ->
  NoDup rows /\ (forall cv, cv ∈ rows <-> exists p, p ∈ pods /\ podVersionOf p = PodRuns cv) /\
  match err with
  | None => forall p comp why req, p ∈ pods -> podVersionOf p <> PodUnread comp why req
  | Some (StepPartial _ skipped) =>
      (exists p comp why req, p ∈ pods /\ podVersionOf p = PodUnread comp why req) /\
      forall comp, comp ∈ skipped <-> exists p why, p ∈ pods /\ podVersionOf p = PodUnread comp why true
  | Some _ => False
  end.
Proof.
  intros [(e & -> & _)|(pods' & Hl & -> & -> & _)]%collectControlPlane_pods Hp Hf; [by destruct (Hf e)|].
  assert (pods' = pods) as -> by congruence. destruct (readComponents_accounted pods) as [Hs Hn Hu Hb Hr].
  set (st := foldl readComponent nothingRead pods) in *. clearbody st.
  pose proof (isort_perm (fun a b => negb (compareComponents b a)) (cp_seen st)) as Hperm. fold (sortComponents (cp_seen st)) in Hperm.
  split_and!; [by rewrite Hperm|intros cv; rewrite Hperm; apply Hs|]. unfold controlPlaneOutcome.
  case_bool_decide as Eu.
  - intros p comp why req Hp' Ho. destruct (Hu _ _ _ _ Hp' Ho) as ([? Hi] & _). rewrite Eu in Hi. by rewrite lookup_empty in Hi.
  - split.
    + destruct (map_choose _ Eu) as (name & w & Hw). destruct (Hb name) as (p & comp & why & req & ? & _ & ?); [eauto|]. eauto 6.
    + intros comp. destruct (cp_requiredPods st) eqn:Ep.
      * split; [by intros ?%elem_of_nil|]. intros (p & why & Hp' & Ho). by destruct (Hu _ _ _ _ Hp' Ho) as (_ & _ & [_ []]).
      * rewrite sort_strings_elem, elem_of_elements. split; [apply Hr|].
        intros (p & why & Hp' & Ho). by destruct (Hu _ _ _ _ Hp' Ho) as (_ & _ & [? _]).
Qed.

(** ** The managed provider *)

(** A rule claims a cluster by its version or by a label of one node. *)
Definition claimedBy (serverVersion : string) (nodes : list node) (r : providerRule) : Prop :=
  (exists v, pr_version r = Some v /\ MatchString v serverVersion = true) \/ exists n, n ∈ nodes /\ labels_rule n r = true.

(** A node contradicts a rule. *)
Definition contradicted (n : node) (r : providerRule) : Prop :=
  contradicts_rule n r = true \/ exists s, nodeScheme n = Some s /\ s ∉ pr_schemes r.

Lemma rules_distinct r r' : r ∈ providerRules -> r' ∈ providerRules -> pr_provider r = pr_provider r' -> r = r'.
Proof.
  unfold providerRules. rewrite !elem_of_cons. intros Hr Hr'.
  destruct Hr as [-> |[-> |[-> |?%elem_of_nil]]]; [..|done]; destruct Hr' as [-> |[-> |[-> |?%elem_of_nil]]]; done.
Qed.

Lemma rules_in (f : providerRule -> bool) r :
  r ∈ providerRules -> pr_provider r ∈ (list_to_set (map pr_provider (List.filter f providerRules)) : gset string) <-> f r = true.
Proof.
  intros Hr. rewrite elem_of_list_to_set, list_elem_of_In, List.in_map_iff. split.
  - intros (r' & E & [Hin Hf]%List.filter_In). by rewrite <- (rules_distinct r' r) by (done || by apply list_elem_of_In).
  - intros Hf. exists r. split; [done|]. apply List.filter_In. split; [by apply list_elem_of_In|done].
Qed.

Lemma addNodes_spec nodes r :
  let e := foldl addNode noEvidence nodes in
  r ∈ providerRules ->
  (pr_provider r ∈ pe_labelled e <-> exists n, n ∈ nodes /\ labels_rule n r = true) /\
  (pr_provider r ∈ pe_notLabel e <-> exists n, n ∈ nodes /\ contradicts_rule n r = true) /\
  (forall s, s ∈ pe_schemes e <-> exists n, n ∈ nodes /\ nodeScheme n = Some s).
Proof.
  intros e Hr. subst e. induction nodes as [|n nodes (IH1 & IH2 & IH3)] using rev_ind.
  - cbn. split_and!; [| |intros s]; (split; [set_solver|by intros (? & ?%elem_of_nil & _)]).
  - rewrite foldl_app. cbn [foldl]. unfold addNode at 1 3 5. cbn [pe_labelled pe_notLabel pe_schemes].
    rewrite !elem_of_union, !rules_in, IH1, IH2 by done. setoid_rewrite elem_of_app. setoid_rewrite list_elem_of_singleton.
    split_and!; [naive_solver|naive_solver|]. intros s. destruct (nodeScheme n) as [s'|] eqn:E.
    + rewrite elem_of_union, elem_of_singleton, IH3. split.
      * intros [-> |(n' & ? & ?)]; eauto.
      * intros (n' & [?| ->] & ?); [right; eauto|left; congruence].
    + rewrite IH3. split; [intros (n' & ? & ?); eauto|]. intros (n' & [?| ->] & ?); [eauto|congruence].
Qed.

Lemma addNode_read nodes e : pe_nodesRead (foldl addNode e nodes) = pe_nodesRead e.
Proof. revert e. induction nodes as [|n nodes IH]; intros e; cbn; [done|]. by rewrite IH. Qed.

Lemma claims_spec serverVersion nodes r :
  r ∈ providerRules -> claims (nodesRead (foldl addNode noEvidence nodes)) serverVersion r = true <-> claimedBy serverVersion nodes r.
Proof.
  intros Hr. destruct (addNodes_spec nodes r Hr) as (Hl & _ & _). unfold claims, claimedBy, nodesRead. cbn [pe_labelled].
  rewrite orb_true_iff, bool_decide_eq_true, Hl. destruct (pr_version r); [naive_solver|]. split; [intros [?|?]; naive_solver|].
  intros [(? & ? & ?)|?]; [done|auto].
Qed.

(** One rule is all a filter of the rules leaves. *)
Lemma filter_single (f : providerRule -> bool) r :
  List.filter f providerRules = [r] <-> r ∈ providerRules /\ f r = true /\ forall r', r' ∈ providerRules -> f r' = true -> r' = r.
Proof.
  split.
  - intros E. assert (Hin : forall x, In x (List.filter f providerRules) <-> x = r) by (intros x; rewrite E; cbn; naive_solver).
    destruct (proj1 (List.filter_In f r providerRules)) as [H1 H2]; [by apply Hin|]. split_and!; [by apply list_elem_of_In|done|].
    intros r' Hr' Hf. apply Hin, List.filter_In. split; [by apply list_elem_of_In|done].
  - intros (Hr & Hf & Hu). destruct (List.filter f providerRules) as [|x l] eqn:E.
    { assert (In r []) as []. rewrite <- E. apply List.filter_In. split; [by apply list_elem_of_In|done]. }
    assert (Hall : forall y, In y (x :: l) -> y = r).
    { intros y Hy. rewrite <- E in Hy. apply List.filter_In in Hy as [Hy Hfy]. apply Hu; [by apply list_elem_of_In|done]. }
    assert (Hnd : NoDup (x :: l)).
    { rewrite <- E. apply NoDup_ListNoDup, List.NoDup_filter, NoDup_ListNoDup. unfold providerRules.
      apply (NoDup_fmap_1 pr_provider). by apply (bool_decide_unpack _). }
    rewrite (Hall x) in * by (by left). destruct l as [|y l]; [done|]. exfalso. apply NoDup_cons in Hnd as [Hn _]. apply Hn.
    rewrite (Hall y) by (by right; left). by left.
Qed.

Lemma provider_names e sv r :
  r ∈ providerRules -> provider e sv = pr_provider r ->
  let e' := if pe_nodesRead e then e else noEvidence in
  List.filter (claims e' sv) providerRules = [r] /\ pr_provider r ∉ pe_notLabel e' /\ forall s, s ∈ pe_schemes e' -> s ∈ pr_schemes r.
Proof.
  intros Hr. unfold provider. cbv zeta. set (e' := if pe_nodesRead e then e else noEvidence). clearbody e'.
  assert (pr_provider r <> ProviderOther /\ pr_provider r <> ""%string) as [Ho Hn].
  { unfold providerRules in Hr. rewrite !elem_of_cons in Hr. destruct Hr as [-> |[-> |[-> |?%elem_of_nil]]]; done. }
  destruct (List.filter _ _) as [|x [|? ?]] eqn:E; [destruct (pe_nodesRead e'); congruence| |congruence].
  assert (Hx : x ∈ providerRules).
  { assert (In x (List.filter (claims e' sv) providerRules)) as [Hx _]%List.filter_In by (rewrite E; by left). by apply list_elem_of_In. }
  case_bool_decide as En; [congruence|]. destruct (existsb _ _) eqn:Es; [congruence|]. intros <-%rules_distinct; [|done..].
  split_and!; [done..|]. intros s Hs. destruct (mem_str s (pr_schemes x)) eqn:Em; [by apply mem_str_spec|]. exfalso.
  apply not_true_iff_false in Es. apply Es, existsb_exists. exists s. rewrite Em. split; [by apply list_elem_of_In, elem_of_elements|done].
Qed.

Lemma provider_named e sv r :
  r ∈ providerRules -> pe_nodesRead e = true -> List.filter (claims e sv) providerRules = [r] -> pr_provider r ∉ pe_notLabel e ->
  (forall s, s ∈ pe_schemes e -> s ∈ pr_schemes r) -> provider e sv = pr_provider r.
Proof.
  intros Hr He Hc Hn Hs. unfold provider. rewrite He. cbv zeta. rewrite Hc, bool_decide_eq_false_2 by done.
  destruct (existsb _ _) eqn:Ee; [|done]. apply existsb_exists in Ee as (s & Hin & Hm). exfalso.
  apply negb_true_iff, not_true_iff_false in Hm. apply Hm, mem_str_spec, Hs. by apply elem_of_elements, list_elem_of_In.
Qed.

(** A managed service is named exactly when it alone claims the cluster,
    by its version or by a label of some node, and no node carries another
    cloud's provider id or a label of a product sold apart from it; the
    order the nodes are listed in does not matter. With the nodes unread,
    only the version speaks. *)
Lemma provider_exact (serverVersion : string) (nodes : list node) (r : providerRule) :
  r ∈ providerRules ->
  (provider (nodesRead (foldl addNode noEvidence nodes)) serverVersion = pr_provider r <->
   claimedBy serverVersion nodes r /\ (forall r', r' ∈ providerRules -> claimedBy serverVersion nodes r' -> r' = r) /\
   forall n, n ∈ nodes -> ~ contradicted n r) /\
  (provider (foldl addNode noEvidence nodes) serverVersion = pr_provider r -> claimedBy serverVersion [] r).
Proof.
  intros Hr. destruct (addNodes_spec nodes r Hr) as (_ & Hnl & Hsch). split; [split|].
  - intros (Hf & Hn & Hs)%provider_names; [|done]. cbn in Hf, Hn, Hs. apply filter_single in Hf as (_ & Hc & Hu).
    apply claims_spec in Hc; [|done]. split_and!; [done| |].
    + intros r' Hr' Hc'. by apply Hu, claims_spec.
    + intros n Hin [Hx|(s & Hx & Hns)]; [apply Hn, Hnl; eauto|]. apply Hns, Hs, Hsch. eauto.
  - intros (Hc & Hu & Hno). apply provider_named; [done|done| | |].
    + apply filter_single. split_and!; [done|by apply claims_spec|]. intros r' Hr' Hc'. by apply Hu, claims_spec.
    + cbn. rewrite Hnl. intros (n & Hin & Hx). apply (Hno n Hin). by left.
    + cbn. intros s (n & Hin & Hx)%Hsch. destruct (mem_str s (pr_schemes r)) eqn:Em; [by apply mem_str_spec|]. exfalso.
      apply (Hno n Hin). right. exists s. split; [done|]. intros Hm. apply mem_str_spec in Hm. congruence.
  - intros (Hf & _ & _)%provider_names; [|done]. rewrite addNode_read in Hf. cbn in Hf. apply filter_single in Hf as (_ & Hc & _).
    by apply (claims_spec serverVersion [] r) in Hc.
Qed.
