(* ===== verification/Usage.v ===== *)
(** * API use in a cluster: internal/collect/apiusage.go, deprecatedcalls.go
    and crds.go

    Which resources are listed and at which version, who authored each
    object, and what of the apiserver's metric of deprecated requests is
    other clients'. The answers of discovery and of each paged list are
    arguments, and so are three things the code takes from elsewhere: the
    split of a group/version of discovery ([parseGV]), the apiVersion in a
    last-applied annotation ([applied], encoding/json), and the series of
    the metrics exposition. *)

From stdpp Require Import base list strings gmap.
From Stdlib Require Import ZArith Lia Ascii.
From S2P Require Import Prelude GoStr GoTime Version Inventory KB Findings Suppress Tally PodPass ControlPlane.

(** ** Objects *)

Record managedFields := mkManagedFields {
  mf_Manager : string;
  mf_Operation : string;
  mf_APIVersion : string;
  mf_Time : option Time;
  mf_Subresource : string;
}.

Record objectMeta := mkObjectMeta {
  om_Namespace : string;
  om_Name : string;
  om_Annotations : gmap string string;
  om_ManagedFields : list managedFields;
}.

Definition lastAppliedAnnotation : string := "kubectl.kubernetes.io/last-applied-configuration".
Definition lastAppliedManager : string := "kubectl last-applied".
Definition apfAutoUpdateAnnotation : string := "apf.kubernetes.io/autoupdate-spec".

Definition withIgnore (ref : ObjectRef) (ann : gmap string string) : ObjectRef :=
  let '(ignore, reason, legacy, reasonLegacy) := ReadIgnore (fun k => ann !! k) in
  mkObjectRef (o_Namespace ref) (o_Name ref) (o_File ref) (o_Line ref) (o_RenderedFrom ref) (o_Manager ref) ignore reason legacy reasonLegacy.

Definition internalManagers : list string :=
  ["kube-apiserver"; "kube-controller-manager"; "kube-scheduler"; "api-priority-and-fairness-config-producer-v1"]%string.

Definition controlPlaneOwned (m : objectMeta) : bool :=
  negb (zlen (om_ManagedFields m) =? 0) && forallb (fun f => mem_str (mf_Manager f) internalManagers) (om_ManagedFields m).

(** ** Who writes an object *)

Definition userEntry (f : managedFields) : bool :=
  negb (mf_Subresource f =s "status") && negb (mem_str (mf_Manager f) internalManagers).

Definition writerKey (f : managedFields) : string * string := (mf_Manager f, mf_Subresource f).

(** The values of a list in the order they first occur. *)
Fixpoint distinctFrom {A} `{EqDecision A} (seen l : list A) : list A :=
  match l with
  | [] => []
  | x :: l => if bool_decide (x ∈ seen) then distinctFrom seen l else x :: distinctFrom (x :: seen) l
  end.

(** The keys in first-seen order, and the entries of one. *)
Definition writerOrder (m : objectMeta) : list (string * string) :=
  distinctFrom [] (map writerKey (List.filter userEntry (om_ManagedFields m))).

Definition writerEntries (m : objectMeta) (k : string * string) : list managedFields :=
  List.filter (fun f => userEntry f && bool_decide (writerKey f = k)) (om_ManagedFields m).

Definition Apply_ : string := "Apply".

Definition olderThan (o e : managedFields) : bool :=
  match mf_Time e, mf_Time o with Some t, Some s => s <? t | _, _ => false end.

Definition writesNow (entries : list managedFields) (gv : string) : bool :=
  existsb (fun e => (mf_APIVersion e =s gv) &&
    ((mf_Operation e =s Apply_) || forallb (fun o => (mf_APIVersion o =s gv) || olderThan o e) entries)) entries.

Section Objects.
Context (applied : string -> option string).

Definition lastAppliedVersion (m : objectMeta) : string :=
  match om_Annotations m !! lastAppliedAnnotation with
  | Some raw => default ""%string (applied raw)
  | None => ""
  end.

Definition authoringManager (m : objectMeta) (gv : string) : string :=
  match find (fun k => writesNow (writerEntries m k) gv) (writerOrder m) with
  | Some k => k.1
  | None =>
      if 0 <? zlen (writerOrder m) then ""
      else if lastAppliedVersion m =s gv then lastAppliedManager else ""
  end.

Definition authorshipUnknown (m : objectMeta) : bool :=
  if 0 <? zlen (writerOrder m) then false
  else (lastAppliedVersion m =s "") && negb (controlPlaneOwned m).

(** ** The use of one API *)

Definition noUsage (g v k : string) : APIUsage := mkAPIUsage g v k 0 ∅ [] 0.

Definition countObject (m : objectMeta) (manager : string) (u : APIUsage) : APIUsage :=
  let room := zlen (u_Objects u) <? MaxObjectRefs in
  let ref := withIgnore (mkObjectRef (om_Namespace m) (om_Name m) "" 0 "" manager "" "" false false) (om_Annotations m) in
  mkAPIUsage (u_Group u) (u_Version u) (u_Kind u) (u_Count u + 1)
    (<[om_Namespace m := default 0 (u_Namespaces u !! om_Namespace m) + 1]> (u_Namespaces u))
    (if room then u_Objects u ++ [ref] else u_Objects u)
    (if room then u_ObjectsOmitted u else u_ObjectsOmitted u + 1).

Record usageTarget := mkUsageTarget {
  t_gv : string;
  t_allObjects : bool;
  t_usage : APIUsage;
  t_unknown : APIUsage;
}.

(** What one object is to one target: nothing, a use by a manager, or an
    object nobody can be named for. *)
Inductive attribution := NotCounted | Used (manager : string) | Unattributed.

Definition attribute (m : objectMeta) (t : usageTarget) (recordsUnknown : bool) : attribution :=
  if bool_decide (om_Annotations m !! apfAutoUpdateAnnotation = Some "true"%string) then NotCounted
  else if t_allObjects t then if controlPlaneOwned m then NotCounted else Used ""
  else
    let manager := authoringManager m (t_gv t) in
    if negb (manager =s "") then Used manager
    else if recordsUnknown && authorshipUnknown m then Unattributed else NotCounted.

Definition countFor (m : objectMeta) (recordsUnknown : bool) (t : usageTarget) : usageTarget :=
  match attribute m t recordsUnknown with
  | NotCounted => t
  | Used manager => mkUsageTarget (t_gv t) (t_allObjects t) (countObject m manager (t_usage t)) (t_unknown t)
  | Unattributed => mkUsageTarget (t_gv t) (t_allObjects t) (t_usage t) (countObject m "" (t_unknown t))
  end.

Context `{KubeAware}.

(** The target that records what nobody can be named for: the lowest
    version that looks at authors. *)
Fixpoint unknownFrom (best : option (nat * string)) (j : nat) (targets : list usageTarget) : option nat :=
  match targets with
  | [] => fst <$> best
  | t :: rest =>
      let lower := match best with
        | None => true
        | Some (_, v) => CompareKubeAwareVersionStrings (u_Version (t_usage t)) v <? 0
        end in
      unknownFrom (if negb (t_allObjects t) && lower then Some (j, u_Version (t_usage t)) else best) (S j) rest
  end.

Definition unknownAt (targets : list usageTarget) : option nat := unknownFrom None 0 targets.

(** One object over all the targets. *)
Definition countEach (at_ : option nat) (targets : list usageTarget) (m : objectMeta) : list usageTarget :=
  imap (fun j t => countFor m (bool_decide (at_ = Some j)) t) targets.

Definition listUsage (api : nat -> string -> listAnswer objectMeta) (fuel : nat) (targets : list usageTarget)
    : option (list usageTarget * option string) :=
  listEach (countEach (unknownAt targets)) api fuel 0 "" targets.

(** ** What to list *)

Record servedVersion := mkServed { sv_version : string; sv_kind : string; sv_flagged : bool; sv_list : bool }.

Definition betterListable (preferred : string) (a b : servedVersion) : Z :=
  if negb (Bool.eqb (sv_flagged a) (sv_flagged b)) then if sv_flagged a then 1 else -1
  else if negb (Bool.eqb (sv_version a =s preferred) (sv_version b =s preferred)) then if sv_version a =s preferred then -1 else 1
  else CompareKubeAwareVersionStrings (sv_version b) (sv_version a).

Definition bestListable (served : list servedVersion) (preferred : string) : option servedVersion :=
  head (isort (fun a b => betterListable preferred a b <=? 0) (List.filter sv_list served)).

Definition listVersion (served : list servedVersion) (preferred : string) : option servedVersion :=
  if negb (existsb sv_flagged served) then None else bestListable served preferred.

(** ** Discovery *)

Record apiResource := mkAPIResource { re_Name : string; re_Kind : string; re_Verbs : list string }.

(** Discovery's answer: a failure, or groups with their preferred versions
    and the lists, with the groups that failed where some did
    ([ErrGroupDiscoveryFailed]). *)
Inductive discoveryAnswer :=
| NoDiscovery (msg : string)
| Discovered (groups : list (string * string)) (lists : list (string * list apiResource)) (failed : option (list (string * string))).

Record selfCalls := mkSelfCalls { sc_listed : list string; sc_undiscovered : list string; sc_blind : bool }.

Definition unknownSelfCalls (lifecycle : list APILifecycleEntry) (skipped : option (string * string -> bool)) : selfCalls :=
  let at_removal e := match e_Removed e with
    | Some _ => match skipped with None => true | Some f => f (e_Group e, e_Version e) end
    | None => false
    end in
  mkSelfCalls [] (sort_strings (distinctFrom [] (map (fun e => gvString (e_Group e) (e_Version e)) (List.filter at_removal lifecycle))))
    (match skipped with None => true | Some _ => false end).

Definition apiName (gv kind : string) : string := gv +:+ " " +:+ kind.

Definition flaggedEntry (e : APILifecycleEntry) : bool :=
  match e_Deprecated e, e_Removed e with None, None => false | _, _ => true end.

(** The flagged entry of an API: the last of the dataset. *)
Definition flagged (lifecycle : list APILifecycleEntry) (g v k : string) : option APILifecycleEntry :=
  last (List.filter (fun e => flaggedEntry e && (e_Group e =s g) && (e_Version e =s v) && (e_Kind e =s k)) lifecycle).

Definition continues (lifecycle : list APILifecycleEntry) (g k : string) : bool :=
  existsb (fun e => negb (flaggedEntry e) && (e_Group e =s g) && (e_Kind e =s k)) lifecycle.

(** The served versions by (group, resource), in discovery order. *)
Definition servedAll (parseGV : string -> option (string * string)) (lifecycle : list APILifecycleEntry) (lists : list (string * list apiResource))
    : list ((string * string) * servedVersion) :=
  flat_map (fun l : string * list apiResource =>
    match parseGV l.1 with
    | None => []
    | Some (g, v) => omap (fun r =>
        if Contains (re_Name r) "/" then None
        else Some ((g, re_Name r), mkServed v (re_Kind r) (match flagged lifecycle g v (re_Kind r) with Some _ => true | None => false end)
                                     (mem_str "list" (re_Verbs r)))) l.2
    end) lists.

Definition byResource (all : list ((string * string) * servedVersion)) (gr : string * string) : list servedVersion :=
  omap (fun p => if bool_decide (p.1 = gr) then Some p.2 else None) all.

Definition preferredOf (groups : list (string * string)) (g : string) : string :=
  default ""%string (snd <$> last (List.filter (fun p : string * string => p.1 =s g) groups)).

(** Group, version and resource. *)
Abbreviation GVR := (string * string * string)%type (only parsing).

Definition replacementList (all : list ((string * string) * servedVersion)) (groups : list (string * string)) (resource : string) (r : option GVK)
    : option GVR :=
  match r with
  | None => None
  | Some r =>
      let same := List.filter (fun s => sv_kind s =s gvk_Kind r) (byResource all (gvk_Group r, resource)) in
      match bestListable same (preferredOf groups (gvk_Group r)) with
      | Some best => if sv_flagged best then None else Some (gvk_Group r, sv_version best, resource)
      | None => None
      end
  end.

(** One list to make: where, whether the request is itself deprecated, and
    its targets. *)
Record listing := mkListing { ls_gvr : GVR; ls_deprecated : bool; ls_targets : list usageTarget }.

(** First match of an optional function. *)
Fixpoint firstSome {A B} (f : A -> option B) (l : list A) : option B :=
  match l with [] => None | x :: l => match f x with Some y => Some y | None => firstSome f l end end.

Definition targetsFor (lifecycle : list APILifecycleEntry) (g : string) (served : list servedVersion) (listFlagged : bool) : list usageTarget :=
  omap (fun s =>
    if negb (sv_flagged s) then None
    else
      let e := default noEntry (flagged lifecycle g (sv_version s) (sv_kind s)) in
      Some (mkUsageTarget (gvString g (sv_version s))
        (match e_Replacement e with None => true | Some _ => false end && negb (continues lifecycle g (sv_kind s)) && listFlagged)
        (noUsage g (sv_version s) (sv_kind s)) (noUsage g (sv_version s) (sv_kind s)))) served.

(** Where one resource is listed, and with which targets. *)
Definition listingOf (lifecycle : list APILifecycleEntry) (all : list ((string * string) * servedVersion)) (groups : list (string * string))
    (gr : string * string) : option listing :=
  let served := byResource all gr in
  match listVersion served (preferredOf groups gr.1) with
  | None => None
  | Some best =>
      let own := (gr.1, sv_version best, gr.2) in
      let '(gvr, deprecated) :=
        if sv_flagged best then
          match firstSome (fun s => replacementList all groups gr.2
                   (e_Replacement (default noEntry (flagged lifecycle gr.1 (sv_version s) (sv_kind s))))) served with
          | Some r => (r, false)
          | None => (own, true)
          end
        else (own, false) in
      let removal := existsb (fun s => sv_flagged s &&
        match e_Removed (default noEntry (flagged lifecycle gr.1 (sv_version s) (sv_kind s))) with Some _ => true | None => false end) served in
      if deprecated && negb removal then None
      else Some (mkListing gvr deprecated (targetsFor lifecycle gr.1 served (sv_flagged best)))
  end.

(** Listings of one place are one list; the first says whether it is
    deprecated. *)
Fixpoint addListing (l : listing) (ls : list listing) : list listing :=
  match ls with
  | [] => [l]
  | x :: rest =>
      if bool_decide (ls_gvr x = ls_gvr l) then mkListing (ls_gvr x) (ls_deprecated x) (ls_targets x ++ ls_targets l) :: rest
      else x :: addListing l rest
  end.

Definition resourceOrder (all : list ((string * string) * servedVersion)) : list (string * string) := distinctFrom [] (map fst all).

Definition listings (lifecycle : list APILifecycleEntry) (all : list ((string * string) * servedVersion)) (groups : list (string * string)) : list listing :=
  foldl (fun ls gr => match listingOf lifecycle all groups gr with Some l => addListing l ls | None => ls end) [] (resourceOrder all).

Definition gvrName (gvr : GVR) : string := gvString gvr.1.1 gvr.1.2 +:+ " " +:+ gvr.2.

Definition selfListed (ls : list listing) : list string :=
  sort_strings (map (fun l => gvrName (ls_gvr l)) (List.filter ls_deprecated ls)).

(** ** The step *)

(** The lists made so far: the usages, the objects nobody is named for,
    the failures, the APIs left unchecked, and whether one succeeded. *)
Record usageRead := mkUsageRead {
  ur_usages : list APIUsage;
  ur_unknowns : list APIUsage;
  ur_failures : list string;
  ur_unchecked : gset string;
  ur_succeeded : bool;
}.

Definition countedUsage (u : APIUsage) : bool := 0 <? u_Count u.

Definition readListing (meta : GVR -> nat -> string -> listAnswer objectMeta) (fuel : nat) (st : option usageRead) (l : listing) : option usageRead :=
  match st, listUsage (meta (ls_gvr l)) fuel (ls_targets l) with
  | Some st, Some (_, Some e) =>
      Some (mkUsageRead (ur_usages st) (ur_unknowns st) (ur_failures st ++ ["list " +:+ gvrName (ls_gvr l) +:+ ": " +:+ e])
        (ur_unchecked st ∪ list_to_set (map (fun t => apiName (t_gv t) (u_Kind (t_usage t))) (ls_targets l))) (ur_succeeded st))
  | Some st, Some (targets, None) =>
      Some (mkUsageRead (ur_usages st ++ List.filter countedUsage (map t_usage targets))
        (ur_unknowns st ++ List.filter countedUsage (map t_unknown targets)) (ur_failures st) (ur_unchecked st) true)
  | _, _ => None
  end.

Definition compareUsages (a b : APIUsage) : Z :=
  cmpOr (cmpOr (cmpStr (u_Group a) (u_Group b)) (cmpStr (u_Version a) (u_Version b))) (cmpStr (u_Kind a) (u_Kind b)).

Definition sortUsages (l : list APIUsage) : list APIUsage := isort (fun a b => compareUsages a b <=? 0) l.

(** What the step sets, and its outcome; [None] for the inventory: it sets
    nothing. *)
Definition collectAPIUsage (parseGV : string -> option (string * string)) (lifecycle : list APILifecycleEntry) (disc : discoveryAnswer)
    (meta : GVR -> nat -> string -> listAnswer objectMeta) (fuel : nat)
    : option (option (list APIUsage * list APIUsage) * selfCalls * option stepError) :=
  match disc with
  | NoDiscovery msg => Some (None, unknownSelfCalls lifecycle None, Some (StepFailed ("discovery: " +:+ msg)))
  | Discovered groups lists failed =>
      let self := match failed with Some l => unknownSelfCalls lifecycle (Some (fun gv => bool_decide (gv ∈ l))) | None => mkSelfCalls [] [] false end in
      let failures := match failed with
        | Some l => ["discovery: groups " +:+ Join (sort_strings (map (fun gv : string * string => gvString gv.1 gv.2) l)) "," +:+ " skipped"]
        | None => []
        end in
      let failed := default [] failed in
      let missed := omap (fun e => if flaggedEntry e && bool_decide ((e_Group e, e_Version e) ∈ failed)
                                   then Some (apiName (gvString (e_Group e) (e_Version e)) (e_Kind e)) else None) lifecycle in
      let all := servedAll parseGV lifecycle lists in
      let ls := listings lifecycle all groups in
      let self := mkSelfCalls (selfListed ls) (sc_undiscovered self) (sc_blind self) in
      match foldl (readListing meta fuel) (Some (mkUsageRead [] [] failures (list_to_set missed) false)) ls with
      | None => None
      | Some st =>
          let err :=
            if zlen (ur_failures st) =? 0 then None
            else if (0 <? zlen ls) && negb (ur_succeeded st) then Some (StepFailed (Join (ur_failures st) "; "))
            else Some (StepPartial (Join (ur_failures st) "; ") (sort_strings (elements (ur_unchecked st)))) in
          Some (Some (sortUsages (ur_usages st), sortUsages (ur_unknowns st)), self, err)
      end
  end.

(** ** Custom resources *)

(** What the step reads of a CustomResourceDefinition. *)
Record crdObject := mkCRDObject {
  co_Group : string;
  co_Kind : string;
  co_Plural : string;
  co_Versions : list (string * bool * bool * bool * option string);  (** name, served, storage, deprecated, warning *)
  co_StoredVersions : list string;
}.

Definition crdOf (o : crdObject) : CRD :=
  mkCRD (co_Group o) (co_Kind o) (co_Plural o)
    (map (fun '(name, served, storage, deprecated, warning) => mkCRDVersion name served storage deprecated (default ""%string warning)) (co_Versions o))
    (co_StoredVersions o) [].

(** One object over the versions looked for. *)
Definition countVersion (g kind : string) (m : objectMeta) (by_ : gmap string APIUsage) (v : string) : gmap string APIUsage :=
  let manager := authoringManager m (g +:+ "/" +:+ v) in
  if manager =s "" then by_ else <[v := countObject m manager (default (noUsage g v kind) (by_ !! v))]> by_.

Definition listCRDUsage (api : nat -> string -> listAnswer objectMeta) (fuel : nat) (g kind : string) (look : list string)
    : option (list APIUsage + string) :=
  match listEach (fun by_ m => foldl (countVersion g kind m) by_ look) api fuel 0 "" ∅ with
  | None => None
  | Some (_, Some e) => Some (inr e)
  | Some (by_, None) => Some (inl (omap (fun v => by_ !! v) (sort_strings (elements (dom by_)))))
  end.

Definition lookedFor (c : CRD) : list string :=
  omap (fun v => if (c_Deprecated v && c_Served v) || negb (c_Served v) then Some (c_Name v) else None) (crd_Versions c).

Definition set_Usage (us : list APIUsage) (c : CRD) : CRD :=
  mkCRD (crd_Group c) (crd_Kind c) (crd_Plural c) (crd_Versions c) (crd_StoredVersions c) us.

Definition readCRD (meta : GVR -> nat -> string -> listAnswer objectMeta) (fuel : nat)
    (st : option (list CRD * list string * gset string)) (c : CRD) : option (list CRD * list string * gset string) :=
  match st with
  | None => None
  | Some (crds, failures, unchecked) =>
      let look := lookedFor c in
      let skip := list_to_set (map (fun v => apiName (crd_Group c +:+ "/" +:+ v) (crd_Kind c)) look) in
      if zlen look =? 0 then Some (crds ++ [c], failures, unchecked)
      else
        let at_ := PreferredVersion c in
        if at_ =s "" then
          Some (crds ++ [c], failures ++ [crd_Plural c +:+ "." +:+ crd_Group c +:+ " serves no version that is not deprecated, so its custom resources were not listed"],
                unchecked ∪ skip)
        else
          let gvr := (crd_Group c, at_, crd_Plural c) in
          match listCRDUsage (meta gvr) fuel (crd_Group c) (crd_Kind c) look with
          | None => None
          | Some (inr e) => Some (crds ++ [c], failures ++ ["list " +:+ gvrName gvr +:+ ": " +:+ e], unchecked ∪ skip)
          | Some (inl us) => Some (crds ++ [set_Usage us c], failures, unchecked)
          end
  end.

Definition sortCRDs (l : list CRD) : list CRD :=
  isort (fun a b => cmpOr (cmpStr (crd_Group a) (crd_Group b)) (cmpStr (crd_Kind a) (crd_Kind b)) <=? 0) l.

(** [collectCRDs]; [None] for the inventory: it sets nothing. *)
Definition collectCRDs (crds : nat -> string -> listAnswer crdObject) (meta : GVR -> nat -> string -> listAnswer objectMeta) (fuel : nat)
    : option (option (list CRD) * option stepError) :=
  match listEach (fun l o => l ++ [crdOf o]) crds fuel 0 "" [] with
  | None => None
  | Some (_, Some e) => Some (None, Some (StepFailed ("list apiextensions.k8s.io/v1 customresourcedefinitions: " +:+ e)))
  | Some (l, None) =>
      match foldl (readCRD meta fuel) (Some ([], [], ∅)) (sortCRDs l) with
      | None => None
      | Some (out, failures, unchecked) =>
          Some (Some out, if zlen failures =? 0 then None else Some (StepPartial (Join failures "; ") (sort_strings (elements unchecked))))
      end
  end.
End Objects.

(** ** Deprecated calls *)

(** The apiserver's answer to /metrics, and the series of the exposition:
    the start time in whole seconds where it is one time of an epoch, and
    the labels of the rows, where the metric is there. *)
Inductive metricsAnswer :=
| MetricsError (forbidden : bool) (msg : string)
| MetricsUnparsed (msg : string)
| Metrics (start : option Z) (rows : option (list (list (string * string)))).

Definition setLabel (c : DeprecatedCall) (lp : string * string) : DeprecatedCall :=
  let '(name, v) := lp in
  mkDeprecatedCall (if name =s "group" then v else d_Group c) (if name =s "version" then v else d_Version c)
    (if name =s "resource" then v else d_Resource c) (if name =s "subresource" then v else d_Subresource c)
    (if name =s "removed_release" then v else d_RemovedRelease c).

Definition rowCall (labels : list (string * string)) : DeprecatedCall := foldl setLabel (mkDeprecatedCall "" "" "" "" "") labels.

Definition lessCall (a b : DeprecatedCall) : bool :=
  if negb (d_Group a =s d_Group b) then d_Group a <s d_Group b
  else if negb (d_Version a =s d_Version b) then d_Version a <s d_Version b
  else if negb (d_Resource a =s d_Resource b) then d_Resource a <s d_Resource b
  else d_Subresource a <s d_Subresource b.

Definition callRow (c : DeprecatedCall) : string := gvString (d_Group c) (d_Version c) +:+ " " +:+ d_Resource c.

(** The rows that may be an earlier scan's own, each once. *)
Definition mayBeOwn (self : selfCalls) (c : DeprecatedCall) : bool :=
  (d_Subresource c =s "") && mem_str (gvString (d_Group c) (d_Version c)) (sc_undiscovered self) && negb (mem_str (callRow c) (sc_listed self)).

Definition unattributedRows (self : selfCalls) (calls : list DeprecatedCall) : list string :=
  distinctFrom [] (map callRow (List.filter (mayBeOwn self) calls)).

Definition auditHint : string := "apiserver audit logs (annotation k8s.io/deprecated) can".

Definition selfRequests (self : selfCalls) (unattributed : list string) : option stepError :=
  if (zlen (sc_listed self) =? 0) && (zlen unattributed =? 0) then None
  else
    let own := if 0 <? zlen (sc_listed self) then
      ["upgradescope lists " +:+ Join (sc_listed self) ", " +:+ " itself (nothing else serves a kind being removed), so the metric cannot show whether other clients request it; " +:+ auditHint] else [] in
    let withheld :=
      if zlen unattributed =? 0 then []
      else if sc_blind self then
        ["API discovery did not answer on this scan, so it is not known what upgradescope lists, and the metric keeps an earlier scan's own LISTs until the apiserver restarts: every row at a group/version where the knowledge base schedules a removal is withheld for this scan, whether or not upgradescope would list there (it lists a deprecated version only where nothing else serves the kind) and whichever client sent it, so " +:+ Join unattributed ", " +:+ " are not attributed to any client; " +:+ auditHint +:+ " tell"]
      else
        let gvs := distinctFrom [] (map (fun row => (Cut row " ").1.1) unattributed) in
        ["API discovery did not show what upgradescope lists at " +:+ Join gvs ", " +:+ " on this scan, and the metric keeps an earlier scan's own LISTs until the apiserver restarts, so " +:+ Join unattributed ", " +:+ " may be upgradescope's and are not attributed to other clients; " +:+ auditHint +:+ " tell"] in
    Some (StepPartial (Join (own ++ withheld) "; ") (sort_strings (sc_listed self ++ unattributed))).

(** What the step sets (the start time and the rows, where it does), and
    its outcome. *)
Definition collectDeprecatedCalls (answer : metricsAnswer) (self : selfCalls) : option Z * option (list DeprecatedCall) * option stepError :=
  match answer with
  | MetricsError true msg =>
      (None, None, Some (StepFailed ("apiserver /metrics forbidden (managed control planes often block this; see README " +:+ bytes [194; 167]%N +:+ "Managed clusters): " +:+ msg)))
  | MetricsError false msg => (None, None, Some (StepFailed ("get /metrics: " +:+ msg)))
  | MetricsUnparsed msg => (None, None, Some (StepFailed ("parse metrics exposition: " +:+ msg)))
  | Metrics start None => (start, None, selfRequests self [])
  | Metrics start (Some rows) =>
      let calls := isort (fun a b => negb (lessCall b a)) (map rowCall rows) in
      (start, Some calls, selfRequests self (unattributedRows self calls))
  end.

(** * What the API usage step promises

    Where the collector lists, what it counts, and that an object written
    through a removed API cannot end in a ready verdict. *)

From S2P Require Import Gaps Evaluate ControlPlane.

Section Spec.
Context (applied : string -> option string) `{KubeAware}.

(** ** Where to list *)

(** The first of a stable sort that puts unflagged versions first. *)
Lemma head_insert {A} (leb : A -> A -> bool) x l :
  head (insert_sorted leb x l) = Some match head l with Some y => if leb x y then x else y | None => x end.
Proof. destruct l as [|y l]; cbn; [done|]. by destruct (leb x y). Qed.

Lemma best_unflagged preferred l :
  match head (isort (fun a b => betterListable preferred a b <=? 0) l) with
  | Some s => s ∈ l /\ (sv_flagged s = true -> forall s', s' ∈ l -> sv_flagged s' = true)
  | None => l = []
  end.
Proof.
  induction l as [|x l IH]; [done|]. change (isort ?f (x :: l)) with (insert_sorted f x (isort f l)). rewrite head_insert.
  destruct (head (isort _ l)) as [y|] eqn:E; [|subst; split; [by left|intros Hx s' ->%list_elem_of_singleton; done]].
  destruct IH as [Hin Hall]. destruct (betterListable preferred x y <=? 0) eqn:Eb; to_prop.
  - split; [by left|]. intros Hx s' [-> |Hs']%elem_of_cons; [done|]. apply Hall; [|done].
    destruct (sv_flagged y) eqn:Ey; [done|]. exfalso. unfold betterListable in Eb. rewrite Hx, Ey in Eb. cbn in Eb. lia.
  - split; [by right|]. intros Hy s' [-> |Hs']%elem_of_cons; [|by apply Hall].
    destruct (sv_flagged x) eqn:Ex; [done|]. exfalso. unfold betterListable in Eb. rewrite Ex, Hy in Eb. cbn in Eb. lia.
Qed.

Lemma filter_elem {A} (f : A -> bool) x l : x ∈ List.filter f l <-> x ∈ l /\ f x = true.
Proof. by rewrite !list_elem_of_In, List.filter_In. Qed.

Lemma bestListable_spec served preferred s :
  bestListable served preferred = Some s ->
  s ∈ served /\ sv_list s = true /\ (sv_flagged s = true -> forall s', s' ∈ served -> sv_list s' = true -> sv_flagged s' = true).
Proof.
  unfold bestListable. intros Hb. pose proof (best_unflagged preferred (List.filter sv_list served)) as Hs. rewrite Hb in Hs.
  destruct Hs as [[Hin Hl]%filter_elem Hall]. split_and!; [done..|]. intros Hf s' Hs' Hl'. apply Hall; [done|]. by apply filter_elem.
Qed.

Lemma bestListable_some served preferred s : s ∈ served -> sv_list s = true -> is_Some (bestListable served preferred).
Proof.
  intros Hs Hl. unfold bestListable. pose proof (best_unflagged preferred (List.filter sv_list served)) as Hb.
  destruct (head _); [eauto|]. exfalso. assert (s ∈ List.filter sv_list served) as Hin by (by apply filter_elem). rewrite Hb in Hin. by apply elem_of_nil in Hin.
Qed.

Context (lifecycle : list APILifecycleEntry) (all : list ((string * string) * servedVersion)) (groups : list (string * string)).

Lemma firstSome_Some {A B} (f : A -> option B) l y : firstSome f l = Some y -> exists x, x ∈ l /\ f x = Some y.
Proof.
  induction l as [|x l IH]; cbn; [done|]. destruct (f x) eqn:E; [intros [= <-]; exists x; set_solver|].
  intros (x' & ? & ?)%IH. exists x'. set_solver.
Qed.

Lemma firstSome_None {A B} (f : A -> option B) l : firstSome f l = None -> forall x, x ∈ l -> f x = None.
Proof.
  induction l as [|x l IH]; cbn; [by intros _ ? ?%elem_of_nil|]. destruct (f x) eqn:E; [done|].
  intros Hn x' [-> |?]%elem_of_cons; auto.
Qed.

(** A place to list that is not deprecated: some version there is served,
    listable and not flagged. *)
Definition undeprecated (gvr : string * string * string) : Prop :=
  exists s, s ∈ byResource all (gvr.1.1, gvr.2) /\ sv_version s = gvr.1.2 /\ sv_list s = true /\ sv_flagged s = false.

(** A resource that only a deprecated list can show. *)
Definition onlyDeprecated (gr : string * string) : Prop :=
  (forall s, s ∈ byResource all gr -> sv_list s = true -> sv_flagged s = true) /\
  (forall s, s ∈ byResource all gr ->
     replacementList all groups gr.2 (e_Replacement (default noEntry (flagged lifecycle gr.1 (sv_version s) (sv_kind s)))) = None) /\
  exists s e r, s ∈ byResource all gr /\ sv_flagged s = true /\ flagged lifecycle gr.1 (sv_version s) (sv_kind s) = Some e /\ e_Removed e = Some r.

Lemma replacementList_undeprecated resource r gvr : replacementList all groups resource r = Some gvr -> undeprecated gvr /\ gvr.2 = resource.
Proof.
  unfold replacementList. destruct r as [r|]; [|done]. destruct (bestListable _ _) as [s|] eqn:Eb; [|done].
  destruct (sv_flagged s) eqn:Ef; [done|]. intros [= <-]. apply bestListable_spec in Eb as ([Hin _]%filter_elem & Hl & _).
  split; [|done]. exists s. cbn. auto.
Qed.

Definition placed (gr : string * string) (l : listing) : Prop :=
  (ls_gvr l).2 = gr.2 /\
  if ls_deprecated l then (ls_gvr l).1.1 = gr.1 /\ onlyDeprecated gr else undeprecated (ls_gvr l).

Lemma listingOf_placed gr l : listingOf lifecycle all groups gr = Some l -> placed gr l.
Proof.
  destruct gr as [g res]. unfold listingOf, listVersion. destruct (existsb sv_flagged _) eqn:Ex; [|done]. cbn [negb].
  destruct (bestListable _ _) as [best|] eqn:Eb; [|done]. apply bestListable_spec in Eb as (Hin & Hl & Hall).
  destruct (sv_flagged best) eqn:Ef; cbn.
  - destruct (firstSome _ _) as [r|] eqn:Er.
    + apply firstSome_Some in Er as (s & _ & [Hu Hres]%replacementList_undeprecated). cbn. intros [= <-]. by split.
    + clear Ex. destruct (existsb _ _) eqn:Em; cbn; [|done]. intros [= <-]. split; [done|]. cbn. split; [done|]. split_and!; [by apply Hall| |].
      * intros s Hs. by apply (firstSome_None _ _ Er).
      * apply existsb_exists in Em as (s & Hs%list_elem_of_In & [Hf Hr]%andb_true_iff). exists s.
        destruct (flagged _ _ _ _) as [e|] eqn:Efl; cbn in Hr; [|done]. destruct (e_Removed e) as [rv|] eqn:Erv; [|done]. exists e, rv. auto.
  - intros [= <-]. split; [done|]. cbn. exists best. cbn. auto.
Qed.

Lemma addListing_in l ls x : x ∈ addListing l ls ->
  (x ∈ ls \/ x = l) \/ exists y, y ∈ ls /\ ls_gvr x = ls_gvr y /\ ls_deprecated x = ls_deprecated y /\ ls_gvr l = ls_gvr x.
Proof.
  induction ls as [|y ls IH]; cbn; [intros ->%list_elem_of_singleton; auto|].
  case_bool_decide as E; intros [-> |Hx]%elem_of_cons.
  - right. exists y. cbn. set_solver.
  - set_solver.
  - set_solver.
  - destruct (IH Hx) as [[?| ->]|(z & ? & ?)]; [set_solver|set_solver|]. right. exists z. set_solver.
Qed.

Lemma listings_placed l : l ∈ listings lifecycle all groups -> exists gr l', placed gr l' /\ ls_gvr l = ls_gvr l' /\ ls_deprecated l = ls_deprecated l'.
Proof.
  unfold listings. generalize (resourceOrder all). intros grs. revert l.
  induction grs as [|gr grs IH] using rev_ind; intros l; [by intros ?%elem_of_nil|]. rewrite foldl_app. cbn [foldl].
  destruct (listingOf _ _ _ gr) as [l0|] eqn:E; [|by apply IH]. apply listingOf_placed in E.
  intros [[Hl| ->]|(y & Hy & Eg & Ed & _)]%addListing_in; [by apply IH|eauto|].
  destruct (IH y Hy) as (gr' & l' & ? & ? & ?). exists gr', l'. split_and!; [done|congruence..].
Qed.

(** The scanner is no client of a deprecated API but where nothing else
    shows the objects: every list it makes is at a version that is served,
    listable and not deprecated, or of a resource with a removal scheduled
    whose listable versions are all deprecated, with no replacement served
    either; and each list of the second kind is named as its own. *)
Lemma scanner_avoids_deprecated (l : listing) :
  l ∈ listings lifecycle all groups ->
  if ls_deprecated l
  then onlyDeprecated ((ls_gvr l).1.1, (ls_gvr l).2) /\ gvrName (ls_gvr l) ∈ selfListed (listings lifecycle all groups)
  else undeprecated (ls_gvr l).
Proof.
  intros Hl. destruct (listings_placed l Hl) as (gr & l' & [Hres Hp] & Eg & Ed). rewrite Ed, Eg. destruct (ls_deprecated l') eqn:E; [|done].
  destruct Hp as [Hg Ho]. split; [by rewrite Hg, Hres, <- surjective_pairing|]. unfold selfListed. rewrite sort_strings_elem.
  apply list_elem_of_In, List.in_map_iff. exists l. split; [by rewrite Eg|]. apply list_elem_of_In, filter_elem. split; [done|congruence].
Qed.

(** ** What is counted *)

Definition refOf (p : objectMeta * string) : ObjectRef :=
  withIgnore (mkObjectRef (om_Namespace p.1) (om_Name p.1) "" 0 "" p.2 "" "" false false) (om_Annotations p.1).

(** A usage that is the tally of objects with their managers. *)
Record tallies (u : APIUsage) (ms : list (objectMeta * string)) : Prop := {
  ta_count : u_Count u = zlen ms;
  ta_namespace ns : default 0 (u_Namespaces u !! ns) = zlen (List.filter (fun p => om_Namespace p.1 =s ns) ms);
  ta_objects : u_Objects u = take (Z.to_nat MaxObjectRefs) (map refOf ms);
  ta_omitted : u_ObjectsOmitted u = zlen ms - zlen (u_Objects u);
}.

Lemma noUsage_tallies g v k : tallies (noUsage g v k) [].
Proof. split; try done. Qed.

Lemma zlen_app {A} (l1 l2 : list A) : zlen (l1 ++ l2) = zlen l1 + zlen l2.
Proof. unfold zlen. rewrite length_app. lia. Qed.

Lemma countObject_tallies u ms m manager : tallies u ms -> tallies (countObject m manager u) (ms ++ [(m, manager)]).
Proof.
  intros [Hc Hn Ho Hm]. unfold countObject. cbv zeta. fold (refOf (m, manager)). split; cbn [u_Count u_Namespaces u_Objects u_ObjectsOmitted].
  - rewrite zlen_app, Hc. done.
  - intros ns. rewrite List.filter_app, zlen_app, lookup_insert. cbn [List.filter fst]. case_decide as E.
    + subst ns. rewrite String.eqb_refl, Hn. done.
    + rewrite (proj2 (String.eqb_neq _ _) E), Hn. unfold zlen. cbn. lia.
  - rewrite List.map_app. cbn [map]. destruct (zlen (u_Objects u) <? MaxObjectRefs) eqn:E; to_prop.
    + assert (length ms < Z.to_nat MaxObjectRefs)%nat as Hl.
      { rewrite Ho in E. unfold zlen in E. rewrite length_take, length_map in E. lia. }
      rewrite !take_ge by (rewrite ?length_app, ?length_map; cbn; lia). rewrite Ho, take_ge by (rewrite length_map; lia). done.
    + assert (Z.to_nat MaxObjectRefs <= length ms)%nat as Hl.
      { rewrite Ho in E. unfold zlen in E. rewrite length_take, length_map in E. lia. }
      rewrite take_app_le by (by rewrite length_map). done.
  - rewrite zlen_app, Hm. destruct (zlen (u_Objects u) <? MaxObjectRefs); rewrite ?zlen_app; unfold zlen; cbn; lia.
Qed.

(** The objects a target uses, with their managers, and those nobody can be
    named for. *)
Definition usedBy (t : usageTarget) (own : bool) (objs : list objectMeta) : list (objectMeta * string) :=
  omap (fun m => match attribute applied m t own with Used manager => Some (m, manager) | _ => None end) objs.

Definition unknownOf (t : usageTarget) (own : bool) (objs : list objectMeta) : list (objectMeta * string) :=
  omap (fun m => match attribute applied m t own with Unattributed => Some (m, ""%string) | _ => None end) objs.

(** A target holds the counts of objects. *)
Definition apiOf (u : APIUsage) : string * string * string := (u_Group u, u_Version u, u_Kind u).

Definition holds (t0 : usageTarget) (own : bool) (objs : list objectMeta) (t : usageTarget) : Prop :=
  t_gv t = t_gv t0 /\ t_allObjects t = t_allObjects t0 /\ apiOf (t_usage t) = apiOf (t_usage t0) /\
  tallies (t_usage t) (usedBy t0 own objs) /\ tallies (t_unknown t) (unknownOf t0 own objs).

Lemma countFor_holds t0 own objs t m : holds t0 own objs t -> holds t0 own (objs ++ [m]) (countFor applied m own t).
Proof.
  intros (Hg & Ha & Hi & Hu & Hk). assert (E : attribute applied m t own = attribute applied m t0 own) by (unfold attribute; by rewrite Hg, Ha).
  unfold countFor. rewrite E. unfold holds, usedBy, unknownOf. rewrite !omap_app. cbn [omap list_omap].
  destruct (attribute applied m t0 own); cbn [t_gv t_allObjects t_usage t_unknown]; rewrite ?app_nil_r; split_and!; try done; by apply countObject_tallies.
Qed.

Lemma countFor_fold t0 own objs t : holds t0 own [] t -> holds t0 own objs (foldl (fun t m => countFor applied m own t) t objs).
Proof.
  intros Ht. induction objs as [|m objs IH] using rev_ind; [done|]. rewrite foldl_app. cbn [foldl]. by apply countFor_holds.
Qed.

Lemma countEach_fold at_ targets objs j :
  foldl (countEach applied at_) targets objs !! j =
  (fun t => foldl (fun t m => countFor applied m (bool_decide (at_ = Some j)) t) t objs) <$> targets !! j.
Proof.
  revert targets. induction objs as [|m objs IH]; intros targets; cbn; [by destruct (targets !! j)|].
  rewrite IH. unfold countEach. rewrite list_lookup_imap. by destruct (targets !! j).
Qed.

Definition fresh (t : usageTarget) : Prop := tallies (t_usage t) [] /\ tallies (t_unknown t) [].

Lemma targetsFor_fresh g served lf : Forall fresh (targetsFor lifecycle g served lf).
Proof.
  apply Forall_forall. intros t (s & _ & Ht)%list_elem_of_omap. destruct (negb (sv_flagged s)); [done|].
  injection Ht as <-. split; apply noUsage_tallies.
Qed.

(** A list that ends counts every object exactly: each target's usage is
    the tally of the objects authored through its version, with their
    managers, by namespace, the first hundred named and the others counted;
    and what nobody can be named for is tallied by one target only. *)
Lemma listUsage_exact (api : nat -> string -> listAnswer objectMeta) (fuel : nat) (targets targets' : list usageTarget) (objs : list objectMeta) :
  Forall fresh targets -> listUsage applied api fuel targets = Some (targets', None) -> listed api fuel 0 "" = Some objs ->
  Forall2 (fun t t' => exists own, holds t own objs t') targets targets' /\
  forall i t', targets' !! i = Some t' -> u_Count (t_unknown t') <> 0 -> unknownAt targets = Some i.
Proof.
  intros Hf (objs' & Hl & ->)%listEach_listed Hl'. assert (objs' = objs) as -> by congruence.
  assert (Hh : forall i t, targets !! i = Some t ->
    holds t (bool_decide (unknownAt targets = Some i)) objs (foldl (fun t m => countFor applied m (bool_decide (unknownAt targets = Some i)) t) t objs)).
  { intros i t Hi. rewrite Forall_forall in Hf. destruct (Hf t) as [H1 H2]; [by eapply list_elem_of_lookup_2|].
    apply countFor_fold. split_and!; done. }
  split.
  - apply Forall2_same_length_lookup. split.
    + assert (forall x, length (foldl (countEach applied (unknownAt targets)) x objs) = length x) as ->; [|done].
      clear. induction objs as [|m objs IH]; intros x; cbn; [done|]. rewrite IH. unfold countEach. apply length_imap.
    + intros i t t' Hi. rewrite countEach_fold, Hi. intros [= <-]. eexists. by apply Hh.
  - intros i t'. rewrite countEach_fold. destruct (targets !! i) as [t|] eqn:Hi; [|done]. intros [= <-]. destruct (Hh i t Hi) as (_ & _ & _ & _ & [Hc _ _ _]). rewrite Hc.
    case_bool_decide as E; [done|]. intros Hne. exfalso. apply Hne. clear.
    assert (unknownOf t false objs = []) as ->; [|done]. unfold unknownOf. induction objs as [|m objs IH]; cbn; [done|].
    unfold attribute at 1. destruct (bool_decide _); [done|]. destruct (t_allObjects t); [by destruct (controlPlaneOwned m)|].
    destruct (negb _); done.
Qed.

(** ** From the apiserver to the inventory *)

(** The step's flagged entry is the one the engine looks up. *)
Lemma flagged_Lookup l g v k e :
  Lookup (NewIndex l) g v k = Some e -> flaggedEntry e = true -> flagged l g v k = Some e.
Proof.
  induction l as [|x l IH] using rev_ind; [done|]. rewrite NewIndex_snoc. unfold Lookup, flagged in *. cbn.
  rewrite List.filter_app, lookup_insert. cbn [List.filter]. case_decide as E.
  - intros [= ->] Hf. unfold gvk_of in E. injection E as -> -> ->. rewrite Hf, !String.eqb_refl. cbn. by rewrite last_snoc.
  - intros Hl Hf. destruct (flaggedEntry x && _ && _ && _) eqn:Ex; [|rewrite app_nil_r; by apply IH].
    exfalso. to_prop. subst. by apply E.
Qed.

Lemma distinctFrom_in {A} `{EqDecision A} (seen l : list A) x : x ∈ distinctFrom seen l <-> x ∈ l /\ x ∉ seen.
Proof.
  revert seen. induction l as [|y l IH]; intros seen; cbn; [split; [by intros ?%elem_of_nil|by intros [?%elem_of_nil _]]|].
  case_bool_decide as E; rewrite ?elem_of_cons, IH.
  - rewrite ?elem_of_cons. naive_solver.
  - rewrite ?elem_of_cons. destruct (decide (x = y)) as [-> |]; naive_solver.
Qed.

Lemma byResource_in gr s : s ∈ byResource all gr <-> (gr, s) ∈ all.
Proof.
  unfold byResource. rewrite list_elem_of_omap. split.
  - intros ([gr' s'] & Hin & Hs). cbn in Hs. case_bool_decide; [|done]. by simplify_eq.
  - intros Hin. exists (gr, s). split; [done|]. cbn. by rewrite bool_decide_eq_true_2.
Qed.

(** The target of a flagged version. *)
Definition targetOf (g v k : string) (t : usageTarget) : Prop := t_gv t = gvString g v /\ apiOf (t_usage t) = (g, v, k).

Lemma targetsFor_in g served lf s :
  s ∈ served -> sv_flagged s = true -> exists t, t ∈ targetsFor lifecycle g served lf /\ targetOf g (sv_version s) (sv_kind s) t.
Proof.
  intros Hs Hf. eexists. split; [apply list_elem_of_omap; exists s; split; [done|]; by rewrite Hf|]. done.
Qed.

(** A served version with a removal scheduled is a target wherever one
    version of its resource can be listed. *)
Lemma listingOf_covers g res s s' e rv :
  (g, res, s) ∈ all -> (g, res, s') ∈ all -> sv_list s' = true -> sv_flagged s = true ->
  flagged lifecycle g (sv_version s) (sv_kind s) = Some e -> e_Removed e = Some rv ->
  exists l t, listingOf lifecycle all groups (g, res) = Some l /\ t ∈ ls_targets l /\ targetOf g (sv_version s) (sv_kind s) t.
Proof.
  intros Hs Hs' Hl Hf He Hr. apply byResource_in in Hs, Hs'. unfold listingOf, listVersion. cbn [fst snd].
  assert (existsb sv_flagged (byResource all (g, res)) = true) as -> by (apply existsb_exists; exists s; split; [by apply list_elem_of_In|done]).
  destruct (bestListable_some _ (preferredOf groups g) s' Hs' Hl) as [best ->]. cbn [negb].
  assert (Hrm : existsb (fun s => sv_flagged s &&
    match e_Removed (default noEntry (flagged lifecycle g (sv_version s) (sv_kind s))) with Some _ => true | None => false end) (byResource all (g, res)) = true).
  { apply existsb_exists. exists s. split; [by apply list_elem_of_In|]. by rewrite Hf, He; cbn; rewrite Hr. }
  rewrite Hrm. destruct (targetsFor_in g (byResource all (g, res)) (sv_flagged best) s Hs Hf) as (t & Ht & Ho).
  destruct (if sv_flagged best then _ else _) as [gvr dep]. cbn [negb]. rewrite andb_false_r. eexists _, t. split; [done|]. done.
Qed.

Lemma addListing_covers l ls : exists x, x ∈ addListing l ls /\ ls_gvr x = ls_gvr l /\ (forall t, t ∈ ls_targets l -> t ∈ ls_targets x).
Proof.
  induction ls as [|y ls IH]; cbn; [exists l; set_solver|]. case_bool_decide as E.
  - eexists. split; [by left|]. cbn. split; [done|]. intros t. rewrite elem_of_app. auto.
  - destruct IH as (x & ? & ?). exists x. set_solver.
Qed.

Lemma addListing_keeps l ls y : y ∈ ls -> exists x, x ∈ addListing l ls /\ ls_gvr x = ls_gvr y /\ (forall t, t ∈ ls_targets y -> t ∈ ls_targets x).
Proof.
  induction ls as [|z ls IH]; cbn; [by intros ?%elem_of_nil|]. intros [-> |Hy]%elem_of_cons; case_bool_decide as E.
  - eexists. split; [by left|]. cbn. split; [done|]. intros t. rewrite elem_of_app. auto.
  - exists z. set_solver.
  - exists y. set_solver.
  - destruct (IH Hy) as (x & ? & ?). exists x. set_solver.
Qed.

Lemma listings_cover gr l :
  gr ∈ resourceOrder all -> listingOf lifecycle all groups gr = Some l ->
  exists x, x ∈ listings lifecycle all groups /\ ls_gvr x = ls_gvr l /\ (forall t, t ∈ ls_targets l -> t ∈ ls_targets x).
Proof.
  unfold listings. generalize (resourceOrder all). intros grs. induction grs as [|gr' grs IH] using rev_ind; [by intros ?%elem_of_nil|].
  rewrite foldl_app. cbn [foldl]. intros [Hin| ->%list_elem_of_singleton]%elem_of_app Hl.
  - destruct (IH Hin Hl) as (x & Hx & Hg & Ht). destruct (listingOf _ _ _ gr') as [l'|]; [|eauto].
    destruct (addListing_keeps l' _ x Hx) as (y & ? & ? & ?). exists y. split_and!; [done|congruence|auto].
  - rewrite Hl. apply addListing_covers.
Qed.

Lemma listings_fresh : Forall (fun l => Forall fresh (ls_targets l)) (listings lifecycle all groups).
Proof.
  unfold listings. generalize (resourceOrder all). intros grs. induction grs as [|gr grs IH] using rev_ind; [constructor|].
  rewrite foldl_app. cbn [foldl]. destruct (listingOf _ _ _ gr) as [l|] eqn:E; [|done].
  assert (Hl : Forall fresh (ls_targets l)).
  { unfold listingOf in E. destruct (listVersion _ _) as [b|]; [|done]. destruct (if sv_flagged b then _ else _) as [gvr d].
    destruct (d && _); [done|]. injection E as <-. apply targetsFor_fresh. }
  clear E. generalize dependent (foldl (fun ls gr => match listingOf lifecycle all groups gr with Some l => addListing l ls | None => ls end) [] grs).
  intros ls. induction ls as [|y ls IH']; cbn; intros Hls; [by repeat constructor|]. apply Forall_cons in Hls as [Hy Hls].
  case_bool_decide; constructor; cbn; [by apply Forall_app|done|done|by apply IH'].
Qed.

(** ** The lists made *)

Section Lists.
Context (meta : string * string * string -> nat -> string -> listAnswer objectMeta) (fuel : nat).

Definition targetName (t : usageTarget) : string := apiName (t_gv t) (u_Kind (t_usage t)).

(** What a list leaves: its counts, or its APIs as unchecked. *)
Definition leaves (l : listing) (st : usageRead) : Prop :=
  (exists ts, listUsage applied (meta (ls_gvr l)) fuel (ls_targets l) = Some (ts, None) /\
     forall t, t ∈ ts -> 0 < u_Count (t_usage t) -> t_usage t ∈ ur_usages st) \/
  ((forall t, t ∈ ls_targets l -> targetName t ∈ ur_unchecked st) /\ ur_failures st <> []).

Lemma readListings_leave ls st0 st :
  foldl (readListing applied meta fuel) (Some st0) ls = Some st ->
  ur_unchecked st0 ⊆ ur_unchecked st /\ (ur_failures st0 <> [] -> ur_failures st <> []) /\ forall l, l ∈ ls -> leaves l st.
Proof.
  revert st. induction ls as [|l ls IH] using rev_ind; intros st; [intros [= <-]; split_and!; [done..|]; by intros ? ?%elem_of_nil|].
  rewrite foldl_app. cbn [foldl]. destruct (foldl _ _ ls) as [st1|] eqn:E1; [|done]. destruct (IH st1 eq_refl) as (Hu & Hf & Hl). clear IH E1.
  unfold readListing. destruct (listUsage applied (meta (ls_gvr l)) fuel (ls_targets l)) as [[ts [e|]]|] eqn:El; [| |done]; intros [= <-];
    cbn [ur_unchecked ur_failures ur_usages].
  - split_and!; [set_solver|by destruct (ur_failures st1)|]. intros x [Hx| ->%list_elem_of_singleton]%elem_of_app.
    + destruct (Hl x Hx) as [(ts' & ? & ?)|[Ht ?]]; [left; eauto|right]. cbn. split; [intros t Hin; specialize (Ht t Hin); set_solver|].
      by destruct (ur_failures st1).
    + right. cbn. split; [|by destruct (ur_failures st1)]. intros t Ht. apply elem_of_union. right.
      apply elem_of_list_to_set, list_elem_of_In, List.in_map_iff. exists t. split; [done|by apply list_elem_of_In].
  - split_and!; [done|done|]. intros x [Hx| ->%list_elem_of_singleton]%elem_of_app.
    + destruct (Hl x Hx) as [(ts' & ? & Hin)|[Ht ?]]; [left|right; done]. exists ts'. split; [done|]. intros t Ht Hc. cbn. apply elem_of_app. auto.
    + left. exists ts. split; [done|]. intros t Ht Hc. cbn. apply elem_of_app. right. apply filter_elem. split; [|by apply Z.ltb_lt].
      apply list_elem_of_In, in_map, list_elem_of_In, Ht.
Qed.
End Lists.
End Spec.

(** ** The step *)

(** Someone's object, written through [gv]. *)
Definition writtenThrough (applied : string -> option string) (gv : string) (m : objectMeta) : Prop :=
  om_Annotations m !! apfAutoUpdateAnnotation <> Some "true"%string /\ controlPlaneOwned m = false /\ authoringManager applied m gv <> ""%string.

Lemma writtenThrough_used applied gv m t own : t_gv t = gv -> writtenThrough applied gv m -> exists manager, attribute applied m t own = Used manager.
Proof.
  intros Hg (Ha & Ho & Hw). unfold attribute. rewrite bool_decide_eq_false_2 by done. rewrite Ho, Hg. destruct (t_allObjects t); [eauto|].
  rewrite (proj2 (String.eqb_neq _ _) Hw). cbn. eauto.
Qed.

(** What the step must have for an API: a usage of it, its name among the
    skipped, or a failure. *)
Definition reaches (g v k : string) (usages : list APIUsage) (err : option stepError) : Prop :=
  (exists u, u ∈ usages /\ apiOf u = (g, v, k)) \/
  match err with
  | Some (StepFailed _) => True
  | Some (StepPartial _ skipped) => apiName (gvString g v) k ∈ skipped
  | _ => False
  end.

Section Reach.
Context `{KubeAware} (applied : string -> option string) (parseGV : string -> option (string * string)) (lifecycle : list APILifecycleEntry).
Context (meta : string * string * string -> nat -> string -> listAnswer objectMeta) (fuel : nat).
Context (groups : list (string * string)) (lists : list (string * list apiResource)) (failed : option (list (string * string))).

Abbreviation all := (servedAll parseGV lifecycle lists) (only parsing).

(** A version discovery shows, of a resource one of whose versions can be
    listed, and an object of it that every list of the resource shows. *)
Definition shown (g v k : string) (m : objectMeta) : Prop :=
  exists resource,
    (exists s, (g, resource, s) ∈ all /\ sv_version s = v /\ sv_kind s = k) /\
    (exists s, (g, resource, s) ∈ all /\ sv_list s = true) /\
    (forall gvr objs, gvr.2 = resource -> listed (meta gvr) fuel 0 "" = Some objs -> m ∈ objs).

Lemma servedAll_flagged gr s e : (gr, s) ∈ all -> flagged lifecycle gr.1 (sv_version s) (sv_kind s) = Some e -> sv_flagged s = true.
Proof.
  unfold servedAll. rewrite list_elem_of_In, List.in_flat_map. intros (l & _ & Hin) He. destruct (parseGV l.1) as [[g v]|]; [|done].
  apply list_elem_of_In, list_elem_of_omap in Hin as (r & _ & Hr). destruct (Contains (re_Name r) "/"); [done|]. injection Hr as <- <-.
  cbn in *. by rewrite He.
Qed.

Lemma failed_reaches g v k e st : 
  (g, v) ∈ default [] failed -> e ∈ lifecycle -> (e_Group e, e_Version e, e_Kind e) = (g, v, k) -> flaggedEntry e = true ->
  list_to_set (omap (fun e => if flaggedEntry e && bool_decide ((e_Group e, e_Version e) ∈ default [] failed)
                              then Some (apiName (gvString (e_Group e) (e_Version e)) (e_Kind e)) else None) lifecycle) ⊆ ur_unchecked st ->
  apiName (gvString g v) k ∈ ur_unchecked st.
Proof.
  intros Hf He Hk Hfl Hsub. injection Hk as Eg Ev Ek. apply Hsub, elem_of_list_to_set, list_elem_of_omap. exists e. split; [done|].
  rewrite Hfl, Eg, Ev, Ek. by rewrite bool_decide_eq_true_2.
Qed.

(** A list of an object written through a target's version counts it. *)
Lemma listing_counts l t ts m g v k :
  Forall fresh (ls_targets l) -> t ∈ ls_targets l -> targetOf g v k t -> listUsage applied (meta (ls_gvr l)) fuel (ls_targets l) = Some (ts, None) ->
  (forall objs, listed (meta (ls_gvr l)) fuel 0 "" = Some objs -> m ∈ objs) -> writtenThrough applied (gvString g v) m ->
  exists t', t' ∈ ts /\ apiOf (t_usage t') = (g, v, k) /\ 0 < u_Count (t_usage t').
Proof.
  intros Hf Ht [Hg Ha] Hl Hm Hw. pose proof Hl as Hl0. apply listEach_listed in Hl0 as (objs & Ho & _).
  destruct (listUsage_exact applied _ _ _ _ _ Hf Hl Ho) as [Hall _]. apply list_elem_of_lookup in Ht as [i Hi].
  destruct (Forall2_lookup_l _ _ _ _ _ Hall Hi) as (t' & Hi' & own & Hgv & _ & Hapi & [Hc _ _ _] & _). exists t'.
  split_and!; [by eapply list_elem_of_lookup_2|congruence|]. rewrite Hc.
  destruct (writtenThrough_used applied (gvString g v) m t own Hg Hw) as [mgr Hu].
  assert (Hin : (m, mgr) ∈ usedBy applied t own objs) by (apply list_elem_of_omap; exists m; split; [auto|by rewrite Hu]).
  unfold zlen. destruct (usedBy applied t own objs); [by apply elem_of_nil in Hin|]. cbn. lia.
Qed.

Lemma listings_reach ls st0 st g v k m e rv :
  ls = listings lifecycle all groups -> foldl (readListing applied meta fuel) (Some st0) ls = Some st ->
  flagged lifecycle g v k = Some e -> e_Removed e = Some rv -> shown g v k m -> writtenThrough applied (gvString g v) m ->
  (exists u, u ∈ ur_usages st /\ apiOf u = (g, v, k)) \/ (apiName (gvString g v) k ∈ ur_unchecked st /\ ur_failures st <> []).
Proof.
  intros -> Hfold He Hr (resource & (s & Hs & <- & <-) & (s' & Hs' & Hl) & Hobj) Hw.
  pose proof (servedAll_flagged _ _ _ Hs He) as Hf.
  destruct (listingOf_covers lifecycle all groups g resource s s' e rv Hs Hs' Hl Hf He Hr) as (l & t & Hl0 & Ht & Hto).
  destruct (listings_cover lifecycle all groups (g, resource) l) as (x & Hx & Egvr & Htx); [|done|].
  { unfold resourceOrder. apply distinctFrom_in. split; [|by intros ?%elem_of_nil]. apply list_elem_of_In, in_map_iff. exists (g, resource, s).
    split; [done|by apply list_elem_of_In]. }
  destruct (readListings_leave applied meta fuel _ _ _ Hfold) as (_ & _ & Hleave).
  destruct (Hleave x Hx) as [(ts & Hlu & Hus)|[Hun Hne]].
  - left. pose proof (listings_fresh lifecycle all groups) as Hfr. rewrite Forall_forall in Hfr.
    destruct (listing_counts x t ts m g (sv_version s) (sv_kind s)) as (t' & ? & ? & ?); [by apply Hfr|by apply Htx|done|done| |done|eauto].
    intros objs. apply Hobj. rewrite Egvr. by destruct (listingOf_placed lifecycle all groups _ _ Hl0).
  - right. split; [|done]. specialize (Hun t (Htx t Ht)). unfold targetName in Hun. destruct Hto as [Eg Ha]. rewrite Eg in Hun. injection Ha as _ _ Ek. by rewrite Ek in Hun.
Qed.

(** An API the dataset removes, with an object someone wrote through it or
    with its group left out of discovery, is in the inventory's usages,
    among the skipped APIs, or the step failed. *)
Lemma collectAPIUsage_reaches set self err g v k m e rv :
  collectAPIUsage applied parseGV lifecycle (Discovered groups lists failed) meta fuel = Some (set, self, err) ->
  Lookup (NewIndex lifecycle) g v k = Some e -> e_Removed e = Some rv ->
  (shown g v k m /\ writtenThrough applied (gvString g v) m) \/ (g, v) ∈ default [] failed ->
  exists usages unknowns, set = Some (usages, unknowns) /\ reaches g v k usages err.
Proof.
  intros Hc Hl Hr Hcase. assert (Hfl : flaggedEntry e = true) by (unfold flaggedEntry; rewrite Hr; by destruct (e_Deprecated e)).
  pose proof (flagged_Lookup _ _ _ _ _ Hl Hfl) as He. unfold collectAPIUsage in Hc. cbv zeta in Hc.
  destruct (foldl _ _ _) as [st|] eqn:Ef; [|done]. injection Hc as <- _ <-.
  pose proof (readListings_leave applied meta fuel _ _ _ Ef) as (Hun & Hne & _). cbn [ur_unchecked ur_failures] in Hun, Hne.
  eexists _, _. split; [done|]. unfold reaches.
  assert (Hcases : (exists u, u ∈ ur_usages st /\ apiOf u = (g, v, k)) \/ (apiName (gvString g v) k ∈ ur_unchecked st /\ ur_failures st <> [])).
  { destruct Hcase as [[Hs Hw]|Hf]; [by eapply listings_reach|]. right. split.
    - apply Lookup_sound in Hl as (Hin & <- & <- & <-). by eapply failed_reaches.
    - apply Hne. destruct failed; [done|]. by apply elem_of_nil in Hf. }
  destruct Hcases as [(u & Hu & Ha)|[Hin Hf]].
  - left. exists u. split; [|done]. unfold sortUsages. by rewrite isort_perm.
  - right. destruct (zlen (ur_failures st) =? 0) eqn:Ez; to_prop; [by destruct (ur_failures st)|].
    destruct (_ && _); [done|]. by apply sort_strings_elem, elem_of_elements.
Qed.
End Reach.
