(* ===== verification/HelmStore.v ===== *)
(** * Helm releases: internal/collect/helm.go and helm_cache.go

    The revisions Helm stores in Secrets and ConfigMaps, the one of each
    release that is installed, its payload, the objects of its manifest at
    APIs the knowledge base flags, and what a cache of earlier collections
    saves. What encoding/base64, compress/gzip, encoding/json and the parser
    of manifest streams make of some bytes is an argument; so is what the
    apiserver answers. The payloads come in the order of the releases
    whatever the number of workers that fetch them, so an answer is per
    object. Sorts are as in the prelude: of revisions that carry the same
    number, Go may put any first when there are more than twelve. *)

From stdpp Require Import base list strings gmap sorting.
From Stdlib Require Import ZArith Lia Ascii.
From S2P Require Import Prelude GoStr GoSha GoTime Version Inventory KB Findings Admit Detect Tally PodPass ControlPlane Usage.

(** ** Bounds *)

Definition helmSecretType : string := "helm.sh/release.v1".
Definition helmObjectPrefix : string := "sh.helm.release.v1.".
Definition maxStoredReleaseBytes : Z := 4 * 2 ^ 20.
Definition maxReleaseJSONBytes : Z := 16 * 2 ^ 20.
Definition manifestChunkBytes : Z := 2 ^ 20.
Definition maxManifestDocBytes : Z := 2 * 2 ^ 20.
Definition maxManifestNodes : Z := 2 ^ 16.
Definition jsonPeek : nat := 4096.

Definition errReleaseTooLarge : string := "release payload too large".
Definition errManifestDocTooLarge : string := "manifest document too large".

(** ** Release documents *)

Record helmReleaseDoc := mkReleaseDoc {
  hd_Status : string;
  hd_Name : string;
  hd_Version : string;
  hd_AppVersion : string;
  hd_KubeVersion : string;
  hd_Manifest : string;
}.

(** The first member of a gzip stream as its reader yields it: the bytes,
    the error they end in, and the bytes after it. *)
Record gunzipped := mkGunzipped { gz_content : string; gz_error : option string; gz_left : Z }.

(** What is used of a [manifestObject]. *)
Record manifestObject := mkManifestObject { mo_gvk : GVK; mo_ref : ObjectRef }.

Class HelmDecoders := {
  base64Decode : string -> res string;
  gunzip : string -> res gunzipped;
  releaseJSON : string -> res helmReleaseDoc;
  IsJSONBuffer : string -> bool;
  parseManifestStream : string -> list manifestObject;
}.

(** gzip's last four bytes, a little-endian size. *)
Definition sizeTrailer (raw : string) : Z :=
  foldr (fun a acc => Z.of_N (N_of_ascii a) + 256 * acc) 0
    (String.list_ascii_of_string (String.substring (String.length raw - 4) 4 raw)).

Definition gzipMagic (raw : string) : bool := HasPrefix raw (bytes [0x1f; 0x8b; 0x08]%N).

Definition decodeHelmRelease `{HelmDecoders} (data : string) : res helmReleaseDoc :=
  if maxStoredReleaseBytes <? slen data then
    Err (errReleaseTooLarge +:+ ": over " +:+ itoa (Z.shiftr maxStoredReleaseBytes 20) +:+ " MiB stored")
  else match base64Decode data with
  | Err e => Err ("base64: " +:+ e)
  | Ok raw =>
      if negb (gzipMagic raw) then Err "release payload is not gzip"
      else match gunzip raw with
      | Err e => Err ("gunzip: " +:+ e)
      | Ok z =>
          let size := Z.min (sizeTrailer raw) maxReleaseJSONBytes in
          if size <? slen (gz_content z) then
            if size =? maxReleaseJSONBytes
            then Err (errReleaseTooLarge +:+ ": over " +:+ itoa (Z.shiftr maxReleaseJSONBytes 20) +:+ " MiB decompressed")
            else Err "gunzip: decompresses past its size trailer"
          else match gz_error z with
          | Some e => Err ("gunzip read: " +:+ e)
          | None =>
              if 0 <? gz_left z then Err "gunzip: data after the gzip stream"
              else match releaseJSON (gz_content z) with
                   | Err e => Err ("release json: " +:+ e)
                   | Ok doc => Ok doc
                   end
          end
      end
  end.

(** ** The manifest *)

Definition introducesNode (a : ascii) : bool := existsb (Ascii.eqb a) (String.list_ascii_of_string ":-,[{?").

Fixpoint yamlNodeBound (text : string) : Z :=
  match text with
  | ""%string => 0
  | String a s => (if introducesNode a then 2 else 0) + yamlNodeBound s
  end.

(** The lines of a text, each with its line break. *)
Fixpoint linesFrom (line : string) (s : string) : list string :=
  match s with
  | ""%string => if line =s "" then [] else [line]
  | String a s' => let line := line +:+ String a "" in if Ascii.eqb a "010" then line :: linesFrom "" s' else linesFrom line s'
  end.

Definition textLines (s : string) : list string := linesFrom "" s.

(** A stretch of the manifest: its text, the line it begins and the nodes
    it may hold. *)
Record span := mkSpan { sp_text : string; sp_line : Z; sp_nodes : Z }.

(** A call of [fn]. *)
Record run := mkRunCall { rn_text : string; rn_line : Z; rn_whole : bool }.

(** What the loop keeps: the calls so far, the whole documents not yet
    passed on, the document being read, the number of the next line, and
    whether an invalid separator ended the stream. *)
Record splitting := mkSplitting { st_out : list run; st_run : span; st_doc : span; st_line : Z; st_invalid : bool }.

(** [endDoc]: the document ends where line [st_line] begins. *)
Definition endDoc (st : splitting) : splitting :=
  let 'mkSplitting out run doc line invalid := st in
  let '(out, run) :=
    if negb (sp_text run =s "") &&
       ((manifestChunkBytes <? slen (sp_text run) + slen (sp_text doc)) || (maxManifestNodes <? sp_nodes run + sp_nodes doc))
    then (out ++ [mkRunCall (sp_text run) (sp_line run) true], mkSpan "" (sp_line doc) 0)
    else (out, run) in
  let next := mkSpan "" line 2 in
  if (maxManifestDocBytes <? slen (sp_text doc)) || (maxManifestNodes <? sp_nodes doc)
  then mkSplitting (out ++ [mkRunCall (sp_text doc) (sp_line doc) false]) (mkSpan "" line 0) next line invalid
  else mkSplitting out (mkSpan (sp_text run +:+ sp_text doc) (sp_line run) (sp_nodes run + sp_nodes doc)) next line invalid.

Definition addToDoc (l : string) (nodes : Z) (st : splitting) : splitting :=
  mkSplitting (st_out st) (st_run st) (mkSpan (sp_text (st_doc st) +:+ l) (sp_line (st_doc st)) (sp_nodes (st_doc st) + nodes))
    (st_line st) (st_invalid st).

(** Whether a separator is followed by more than a comment. *)
Definition badSeparator (rest : string) : bool :=
  match TrimSpace rest with ""%string => false | String a _ => negb (Ascii.eqb a "#") end.

(** A round of the loop over the lines. *)
Definition splitLine (st : splitting) (l : string) : splitting :=
  if st_invalid st then st
  else
    let st := match CutPrefix l "---" with
      | Some rest =>
          let st := endDoc st in
          addToDoc l 0 (mkSplitting (st_out st) (st_run st) (st_doc st) (st_line st) (badSeparator rest))
      | None => addToDoc l (yamlNodeBound l) st
      end in
    mkSplitting (st_out st) (st_run st) (st_doc st) (st_line st + 1) (st_invalid st).

Definition splitRuns (manifest : string) : list run :=
  let st := foldl splitLine (mkSplitting [] (mkSpan "" 1 0) (mkSpan "" 1 2) 1 false) (textLines manifest) in
  let st := if st_invalid st then st else endDoc st in
  if sp_text (st_run st) =s "" then st_out st
  else st_out st ++ [mkRunCall (sp_text (st_run st)) (sp_line (st_run st)) true].

Definition splitManifest `{HelmDecoders} (manifest : string) : list run :=
  if IsJSONBuffer (String.substring 0 jsonPeek manifest) then
    [mkRunCall manifest 1 ((slen manifest <=? maxManifestDocBytes) && (yamlNodeBound manifest <=? maxManifestNodes))]
  else splitRuns manifest.

(** [accumulate], of files.go. *)
Definition accumulateOne (counts : gmap GVK APIUsage) (o : manifestObject) : gmap GVK APIUsage :=
  let k := mo_gvk o in
  let u := default (mkAPIUsage (gvk_Group k) (gvk_Version k) (gvk_Kind k) 0 ∅ [] 0) (counts !! k) in
  let ns := o_Namespace (mo_ref o) in
  let fits := zlen (u_Objects u) <? MaxObjectRefs in
  <[k := mkAPIUsage (u_Group u) (u_Version u) (u_Kind u) (u_Count u + 1) (<[ns := default 0 (u_Namespaces u !! ns) + 1]> (u_Namespaces u))
           (if fits then u_Objects u ++ [mo_ref o] else u_Objects u) (if fits then u_ObjectsOmitted u else u_ObjectsOmitted u + 1)]> counts.

Definition accumulate (counts : gmap GVK APIUsage) (objs : list manifestObject) : gmap GVK APIUsage := foldl accumulateOne counts objs.

Definition usageRows (counts : gmap GVK APIUsage) : list APIUsage :=
  isort (fun a b => compareUsages a b <=? 0) (map snd (map_to_list counts)).

Definition shiftLine (by_ : Z) (o : manifestObject) : manifestObject :=
  let r := mo_ref o in
  mkManifestObject (mo_gvk o) (mkObjectRef (o_Namespace r) (o_Name r) (o_File r) (o_Line r + by_) (o_RenderedFrom r) (o_Manager r)
    (o_Ignore r) (o_IgnoreReason r) (o_IgnoreLegacyKey r) (o_IgnoreReasonLegacyKey r)).

Definition flaggedSet (lifecycle : list APILifecycleEntry) : gset GVK :=
  list_to_set (omap (fun e => if flaggedEntry e then Some (gvk_of e) else None) lifecycle).

(** The rows, and the error that names the first document not parsed. *)
Definition manifestAPIs `{HelmDecoders} (manifest : string) (flagged : gset GVK) : list APIUsage * option string :=
  if bool_decide (flagged = ∅) || (manifest =s "") then ([], None)
  else
    let runs := List.filter (fun r => negb (TrimSpace (rn_text r) =s "")) (splitManifest manifest) in
    let counts := foldl (fun counts r =>
      if rn_whole r then
        accumulate counts (map (shiftLine (rn_line r - 1)) (List.filter (fun o => bool_decide (mo_gvk o ∈ flagged)) (parseManifestStream (rn_text r))))
      else counts) ∅ runs in
    (usageRows counts,
     match List.filter (fun r => negb (rn_whole r)) runs with
     | [] => None
     | (first :: _) as over =>
         Some (errManifestDocTooLarge +:+ ": " +:+ itoa (zlen over) +:+ " document(s) over " +:+ itoa (Z.shiftr maxManifestDocBytes 20) +:+
               " MiB or " +:+ itoa maxManifestNodes +:+ " YAML nodes not parsed, first at manifest line " +:+ itoa (rn_line first))
     end).

(** ** Revisions *)

(** The metadata of a listed Secret or ConfigMap. *)
Record partialObject := mkPartialObject {
  po_Name : string;
  po_Namespace : string;
  po_Labels : gmap string string;
  po_UID : string;
  po_ResourceVersion : string;
}.

(** [strings.LastIndex] of [sep]: what precedes and what follows it. *)
Fixpoint cutLast (s sep : string) : option (string * string) :=
  match s with
  | ""%string => None
  | String a s' =>
      match cutLast s' sep with
      | Some (b, r) => Some (String a b, r)
      | None => if HasPrefix s sep then Some (""%string, drop_len s sep) else None
      end
  end.

Definition releaseRevision (secretName : string) : Z :=
  match cutLast secretName ".v" with
  | Some (_, n) => default 0 (Atoi n)
  | None => 0
  end.

(** The release a stored revision is of, and its number; [None] for an
    object that is no release storage. *)
Definition helmRevisionOf `{Content} (m : partialObject) : option (string * Z) :=
  match CutPrefix (po_Name m) helmObjectPrefix with
  | None => None
  | Some rest =>
      let name := label (po_Labels m) "name" in
      let name := if negb (name =s "") && (0 <? zlen (IsDNS1123Subdomain name)) then ""%string else name in
      let name := if name =s "" then match cutLast rest ".v" with Some (String a b, _) => String a b | _ => ""%string end else name in
      let rev := match Atoi (label (po_Labels m) "version") with Some n => n | None => releaseRevision (po_Name m) end in
      if name =s "" then None else Some (name, rev)
  end.

Record helmRevision := mkHelmRevision {
  hv_driver : nat;
  hv_object : string;
  hv_revision : Z;
  hv_status : string;
  hv_uid : string;
  hv_rv : string;
}.

Inductive revisionPick := revisionInstalled (r : helmRevision) | revisionGone | revisionUnjudged.

(** The comparison of the sort: a difference of two [int]s. *)
Definition newerFirst (a b : helmRevision) : Z := wrap64 (hv_revision b - hv_revision a).

Definition sortRevisions (revs : list helmRevision) : list helmRevision := isort (fun a b => newerFirst a b <=? 0) revs.

(** [None]: no revisions, which panics. *)
Definition installedRevision (revs : list helmRevision) : option revisionPick :=
  match sortRevisions revs with
  | [] => None
  | newest :: older =>
      Some (
        if mem_str (hv_status newest) ["uninstalled"; "uninstalling"]%string then revisionGone
        else if hv_status newest =s "failed" then
          match find (fun r => hv_status r =s "deployed") older with
          | Some r => revisionInstalled r
          | None =>
              match find (fun r => hv_status r =s "superseded") older with
              | Some r => revisionInstalled r
              | None => revisionUnjudged
              end
          end
        else revisionInstalled newest)
  end.

(** ** The cache *)

(** The driver, the object's namespace and name, and its UID and
    resourceVersion. *)
Definition helmCacheKey : Type := nat * (string * string) * (string * string).

Definition cacheable (k : helmCacheKey) : bool := negb (k.2.1 =s "") && negb (k.2.2 =s "").

Record helmCacheEntry := mkEntry {
  he_chartName : string;
  he_chartVersion : string;
  he_appVersion : string;
  he_kubeVersion : string;
  he_status : string;
  he_apis : list APIUsage;
  he_decodeErr : string;
  he_parseErr : string;
}.

Definition undecoded (msg : string) : helmCacheEntry := mkEntry "" "" "" "" "" [] msg "".

Definition decodeHelmEntry `{HelmDecoders} (data : string) (flagged : gset GVK) : helmCacheEntry :=
  match decodeHelmRelease data with
  | Err e => undecoded e
  | Ok doc =>
      if existsb (fun s => MaxStringBytes <? slen s) [hd_Name doc; hd_Version doc; hd_AppVersion doc; hd_KubeVersion doc; hd_Status doc] then
        undecoded ("chart metadata has a value over " +:+ itoa MaxStringBytes +:+ " bytes, which is not recorded")
      else
        let '(apis, err) := manifestAPIs (hd_Manifest doc) flagged in
        mkEntry (hd_Name doc) (hd_Version doc) (hd_AppVersion doc) (hd_KubeVersion doc) (hd_Status doc) apis "" (default ""%string err)
  end.

Record HelmCache := mkHelmCache { hc_entries : gmap helmCacheKey helmCacheEntry; hc_flagged : string }.

Definition NewHelmCache : HelmCache := mkHelmCache ∅ "".

(** A cache is [None] in a one-shot scan. *)
Definition cacheLen (c : option HelmCache) : Z := match c with None => 0 | Some c => Z.of_nat (size (hc_entries c)) end.

Definition cacheBegin (flagged : string) (c : option HelmCache) : option HelmCache :=
  match c with
  | None => None
  | Some c => Some (if hc_flagged c =s flagged then c else mkHelmCache ∅ flagged)
  end.

Definition cacheGet (k : helmCacheKey) (c : option HelmCache) : option helmCacheEntry :=
  match c with
  | None => None
  | Some c => if cacheable k then hc_entries c !! k else None
  end.

Definition cachePut (k : helmCacheKey) (e : helmCacheEntry) (c : option HelmCache) : option HelmCache :=
  match c with
  | None => None
  | Some c => Some (if cacheable k then mkHelmCache (<[k := e]> (hc_entries c)) (hc_flagged c) else c)
  end.

Definition cachePrune (seen : gset helmCacheKey) (keep : nat -> bool) (c : option HelmCache) : option HelmCache :=
  match c with
  | None => None
  | Some c => Some (mkHelmCache (filter (fun e => e.1 ∈ seen \/ keep e.1.1.1 = false) (hc_entries c)) (hc_flagged c))
  end.

Definition flaggedFingerprint (flagged : gset GVK) : string :=
  let keys := sort_strings (map (fun g => gvk_Group g +:+ "/" +:+ gvk_Version g +:+ "/" +:+ gvk_Kind g) (elements flagged)) in
  EncodeToString (Sum256 (String.concat "" (map (fun k => k +:+ String "010" "") keys))).

(** ** The collection *)

Inductive getAnswer (A : Type) := Got (a : A) | GetError (notFound : bool) (msg : string).
Arguments Got {A} a.
Arguments GetError {A} notFound msg.

(** What the apiserver answers: the pages of a driver's list in a
    namespace, and the objects fetched. A Secret has a type and the payload
    under its key. *)
Record helmAPI := mkHelmAPI {
  ha_list : nat -> string -> nat -> string -> listAnswer partialObject;
  ha_secret : string -> string -> getAnswer (string * string);
  ha_configMap : string -> string -> getAnswer string;
}.

Definition helmDrivers : list string := ["secrets"; "configmaps"]%string.

(** [payload] of a driver. *)
Definition payload (api : helmAPI) (driver : nat) (ns name : string) : getAnswer string :=
  match driver with
  | O =>
      match ha_secret api ns name with
      | GetError nf e => GetError nf e
      | Got (type, data) =>
          if type =s helmSecretType then Got data
          else GetError false ("secret " +:+ ns +:+ "/" +:+ name +:+ " is of type " +:+ quote type +:+ ", not " +:+ helmSecretType)
      end
  | S _ => ha_configMap api ns name
  end.

Definition releaseKey : Type := string * string.

(** The outcome of the helm step before GitOps: an error, or a
    [partialError]. *)
Record partialError := mkPartialError { pe_msg : string; pe_incomplete : bool; pe_skipped : list string }.

Definition helmOutcome : Type := string + partialError.

Definition stepErrorOf (o : helmOutcome) : stepError :=
  match o with
  | inl e => StepFailed e
  | inr pe => if pe_incomplete pe then StepPartial (pe_msg pe) (pe_skipped pe) else StepNoted (pe_msg pe)
  end.

Definition revisionTable : Type := gmap releaseKey (list helmRevision).

Definition addRevision `{Content} (d : nat) (revs : revisionTable) (m : partialObject) : revisionTable :=
  match helmRevisionOf m with
  | None => revs
  | Some (name, rev) =>
      let k := (po_Namespace m, name) in
      <[k := default [] (revs !! k) ++ [mkHelmRevision d (po_Name m) rev (label (po_Labels m) "status") (po_UID m) (po_ResourceVersion m)]]> revs
  end.

(** A driver's lists: the first error, and how many namespaces failed
    after it. *)
Fixpoint listScope `{Content} (api : helmAPI) (fuel : nat) (d : nat) (scope : list string) (revs : revisionTable)
    (err : option string) (more : Z) : option (revisionTable * option string * Z) :=
  match scope with
  | [] => Some (revs, err, more)
  | ns :: rest =>
      match listEach (addRevision d) (ha_list api d ns) fuel 0 "" revs with
      | None => None
      | Some (revs, None) => listScope api fuel d rest revs err more
      | Some (revs, Some e) =>
          let resource := nth d helmDrivers ""%string in
          let e := if ns =s "" then "list " +:+ resource +:+ ": " +:+ e else "list " +:+ resource +:+ " in namespace " +:+ ns +:+ ": " +:+ e in
          match err with
          | None => listScope api fuel d rest revs (Some e) more
          | Some _ => listScope api fuel d rest revs err (more + 1)
          end
      end
  end.

Definition listFailure (name e : string) (more : Z) : string :=
  name +:+ " not read: " +:+ e +:+ (if 0 <? more then " (and in " +:+ itoa more +:+ " more namespace(s))" else "").

(** The drivers in turn: the revisions, and each driver's failure. *)
Fixpoint listDrivers `{Content} (api : helmAPI) (fuel : nat) (scope : list string) (d : nat) (names : list string) (revs : revisionTable)
    : option (revisionTable * list (option string)) :=
  match names with
  | [] => Some (revs, [])
  | name :: rest =>
      match listScope api fuel d scope revs None 0 with
      | None => None
      | Some (revs, err, more) =>
          match listDrivers api fuel scope (S d) rest revs with
          | None => None
          | Some (revs, errs) => Some (revs, ((fun e => listFailure name e more) <$> err) :: errs)
          end
      end
  end.

Definition compareKeys (a b : releaseKey) : Z := cmpOr (cmpStr a.1 b.1) (cmpStr a.2 b.2).

Definition sortKeys (ks : list releaseKey) : list releaseKey := isort (fun a b => compareKeys a b <=? 0) ks.

Definition keyText (k : releaseKey) : string := k.1 +:+ "/" +:+ k.2.

(** The history of one driver: the first that holds the release. *)
Definition firstDriver (revs : list helmRevision) : list helmRevision :=
  let first := foldr Nat.min (match revs with r :: _ => hv_driver r | [] => 0%nat end) (map hv_driver revs) in
  List.filter (fun r => (hv_driver r =? first)%nat) revs.

Record installed := mkInstalled { in_key : releaseKey; in_rev : helmRevision; in_ck : helmCacheKey; in_entry : option helmCacheEntry }.

Definition cacheKey (k : releaseKey) (r : helmRevision) : helmCacheKey := (hv_driver r, (k.1, hv_object r), (hv_uid r, hv_rv r)).

(** The releases to read, and those that cannot be judged. *)
Fixpoint selectReleases (cache : option HelmCache) (revs : list (releaseKey * list helmRevision))
    : option (list installed * list releaseKey) :=
  match revs with
  | [] => Some ([], [])
  | (k, rs) :: rest =>
      match installedRevision (firstDriver rs), selectReleases cache rest with
      | Some revisionGone, Some (todo, unjudged) => Some (todo, unjudged)
      | Some revisionUnjudged, Some (todo, unjudged) => Some (todo, k :: unjudged)
      | Some (revisionInstalled r), Some (todo, unjudged) =>
          let ck := cacheKey k r in Some (mkInstalled k r ck (cacheGet ck cache) :: todo, unjudged)
      | _, _ => None
      end
  end.

(** How many, and the first. *)
Definition tally : Type := Z * string.
Definition tick1 (t : tally) (msg : string) : tally := (t.1 + 1, if t.1 =? 0 then msg else t.2).

Record helmRead := mkHelmRead {
  hr_rels : list HelmRelease;
  hr_perDriver : gmap nat Z;
  hr_unread : tally;
  hr_undecodable : tally;
  hr_unparsed : tally;
  hr_skipped : list string;
  hr_seen : gset helmCacheKey;
  hr_cache : option HelmCache;
}.

Definition releaseOf (k : releaseKey) (r : helmRevision) (e : helmCacheEntry) : HelmRelease :=
  mkHelmRelease k.2 k.1 (he_chartName e) (he_chartVersion e) (he_appVersion e) (he_kubeVersion e)
    (if hv_status r =s "" then he_status e else hv_status r) (hv_revision r) (he_apis e).

(** A release whose entry is known. *)
Definition record_ (t : installed) (e : helmCacheEntry) (st : helmRead) : helmRead :=
  let k := in_key t in
  let 'mkHelmRead rels per unread undec unparsed skipped seen cache := st in
  let seen := {[in_ck t]} ∪ seen in
  if negb (he_decodeErr e =s "") then
    mkHelmRead rels per unread (tick1 undec (keyText k +:+ ": " +:+ he_decodeErr e)) unparsed (skipped ++ [keyText k]) seen cache
  else
    let '(unparsed, skipped) :=
      if he_parseErr e =s "" then (unparsed, skipped)
      else (tick1 unparsed (keyText k +:+ ": " +:+ he_parseErr e), skipped ++ [keyText k]) in
    let d := hv_driver (in_rev t) in
    mkHelmRead (rels ++ [releaseOf k (in_rev t) e]) (<[d := default 0 (per !! d) + 1]> per) unread undec unparsed skipped seen cache.

Definition set_cache (c : option HelmCache) (st : helmRead) : helmRead :=
  mkHelmRead (hr_rels st) (hr_perDriver st) (hr_unread st) (hr_undecodable st) (hr_unparsed st) (hr_skipped st) (hr_seen st) c.

Definition unreadRelease (t : installed) (e : string) (st : helmRead) : helmRead :=
  mkHelmRead (hr_rels st) (hr_perDriver st) (tick1 (hr_unread st) (keyText (in_key t) +:+ ": " +:+ e)) (hr_undecodable st) (hr_unparsed st)
    (hr_skipped st ++ [keyText (in_key t)]) (hr_seen st ∖ {[in_ck t]}) (hr_cache st).

Definition sawRelease (t : installed) (st : helmRead) : helmRead :=
  mkHelmRead (hr_rels st) (hr_perDriver st) (hr_unread st) (hr_undecodable st) (hr_unparsed st) (hr_skipped st)
    ({[in_ck t]} ∪ hr_seen st) (hr_cache st).

(** A round of the loop over the releases to read. *)
Definition readRelease `{HelmDecoders} (api : helmAPI) (flagged : gset GVK) (st : helmRead) (t : installed) : helmRead :=
  match in_entry t with
  | Some e => record_ t e st
  | None =>
      match payload api (hv_driver (in_rev t)) (in_key t).1 (hv_object (in_rev t)) with
      | GetError true _ => sawRelease t st
      | GetError false e => unreadRelease t e st
      | Got data =>
          let e := decodeHelmEntry data flagged in
          record_ t e (set_cache (cachePut (in_ck t) e (hr_cache st)) st)
      end
  end.

Definition helmSkippedOtherNamespaces : string := "releases outside the listed namespaces".

Definition scopedNote (scope : list string) : string :=
  "Helm releases read only in namespaces " +:+ Join scope ", " +:+ " (rbac.helmSecretsNamespaces); releases in other namespaces were not assessed".

(** What is counted and what failed, in words. *)
Definition countsText (errs : list (option string)) (per : gmap nat Z) : string :=
  Join (omap (fun x : nat * (string * option string) =>
    match x.2.2 with None => Some (itoa (default 0 (per !! x.1)) +:+ " via " +:+ x.2.1) | Some _ => None end)
    (imap (fun d x => (d, x)) (zip helmDrivers errs))) ", ".

Definition note1 (n : tally) (text : string -> string -> string) : list string :=
  if 0 <? n.1 then [text (itoa n.1) n.2] else [].

(** The end of the step: what is recorded, and its outcome. *)
Definition concludeHelm (errs : list (option string)) (scoped : option string) (unjudged : list releaseKey) (st : helmRead)
    : list HelmRelease * helmOutcome :=
  let failed := omap id errs ++
    note1 (hr_unread st) (fun n first => n +:+ " release(s) not read, first " +:+ first) ++
    note1 (hr_undecodable st) (fun n first => n +:+ " release(s) not decodable, first " +:+ first) ++
    note1 (hr_unparsed st) (fun n first => n +:+ " release manifest(s) not fully parsed, first " +:+ first) in
  let notAssessed := match errs with Some _ :: _ => true | _ => (zlen (hr_rels st) =? 0) && (0 <? zlen failed) end in
  let failed := failed ++
    match unjudged with
    | [] => []
    | k :: _ => [itoa (zlen unjudged) +:+ " release(s) with only failed revisions not assessed (no deployed or superseded revision to judge their chart and stored manifest by), first " +:+ keyText k]
    end in
  let skipped := omap (fun x : string * option string => match x.2 with Some _ => Some x.1 | None => None end) (zip helmDrivers errs) ++
    map keyText unjudged ++ hr_skipped st in
  let '(failed, skipped) := match scoped with
    | Some note => (failed ++ [note], skipped ++ [helmSkippedOtherNamespaces])
    | None => (failed, skipped)
    end in
  let msg := Join (("helm releases: " +:+ countsText errs (hr_perDriver st)) :: failed) "; " in
  (hr_rels st, if notAssessed then inl msg else inr (mkPartialError msg (0 <? zlen failed) skipped)).

(** [collectHelmFetching]: the releases, the outcome and the cache. [None]:
    a list that does not end within [fuel] pages. *)
Definition collectHelm `{HelmDecoders} `{Content} (api : helmAPI) (fuel : nat) (lifecycle : list APILifecycleEntry)
    (cache : option HelmCache) (namespaces : list string) : option (list HelmRelease * helmOutcome * option HelmCache) :=
  let scope := match namespaces with [] => [""%string] | _ => compact (sort_strings namespaces) end in
  let scoped := match namespaces with [] => None | _ => Some (scopedNote scope) end in
  match listDrivers api fuel scope 0 helmDrivers ∅ with
  | None => None
  | Some (revs, errs) =>
      if forallb (fun e => bool_decide (is_Some e)) errs then
        Some ([], inl (Join (omap id errs ++ match scoped with Some note => [note] | None => [] end) "; "), cache)
      else
        let flagged := flaggedSet lifecycle in
        let cache := cacheBegin (flaggedFingerprint flagged) cache in
        match selectReleases cache (map (fun k => (k, default [] (revs !! k))) (sortKeys (elements (dom revs)))) with
        | None => None
        | Some (todo, unjudged) =>
            let st := foldl (readRelease api flagged) (mkHelmRead [] ∅ (0, ""%string) (0, ""%string) (0, ""%string) [] ∅ cache) todo in
            let '(rels, out) := concludeHelm errs scoped unjudged st in
            Some (rels, out, cachePrune (hr_seen st) (fun d => match nth d errs None with None => true | Some _ => false end) (hr_cache st))
        end
  end.
