(* ===== verification/HelmStoreSpec.v ===== *)
(** * What the collection of Helm releases promises

    A manifest is parsed a bounded run at a time and no document of it is
    lost without a word; no release is left out without a word; and a cache
    changes which payloads are downloaded, not what is recorded. *)

From stdpp Require Import base list strings gmap sorting.
From Stdlib Require Import ZArith Lia Ascii.
From S2P Require Import Prelude GoStr GoSha GoTime Version Inventory KB Findings Admit Conform Detect Tally PodPass ControlPlane Usage HelmStore.

(** ** The documents of a manifest *)

Definition isSeparator (l : string) : bool := match CutPrefix l "---" with Some _ => true | None => false end.

Definition isBadSeparator (l : string) : bool := match CutPrefix l "---" with Some rest => badSeparator rest | None => false end.

(** Cut at the separators, up to an invalid one; [cur]: the lines of the
    document so far. *)
Fixpoint docsFrom (cur ls : list string) : list (list string) :=
  match ls with
  | [] => [cur]
  | l :: ls' => if isSeparator l then (if isBadSeparator l then [cur] else cur :: docsFrom [l] ls') else docsFrom (cur ++ [l]) ls'
  end.

Definition docText (d : list string) : string := String.concat "" d.

Definition documentsOf (m : string) : list (list string) := List.filter (fun d => negb (docText d =s "")) (docsFrom [] (textLines m)).

(** The nodes a document may hold, its root and itself among them. *)
Definition docNodes (d : list string) : Z := 2 + foldr (fun l n => (if isSeparator l then 0 else yamlNodeBound l) + n) 0 d.

Definition totalOf {A} (f : A -> Z) (l : list A) : Z := foldr (fun x n => f x + n) 0 l.

Definition groupText (g : list (list string)) : string := String.concat "" (map docText g).

(** What may be parsed at once. *)
Definition fits (g : list (list string)) : Prop :=
  (totalOf (fun d => slen (docText d)) g <= manifestChunkBytes /\ totalOf docNodes g <= maxManifestNodes) \/
  exists d, g = [d] /\ slen (docText d) <= maxManifestDocBytes /\ docNodes d <= maxManifestNodes.

Definition tooLarge (d : list string) : Prop := maxManifestDocBytes < slen (docText d) \/ maxManifestNodes < docNodes d.

(** The runs are groups of documents, from a line on. *)
Inductive packs : Z -> list run -> list (list (list string)) -> Prop :=
  | packs_nil line : packs line [] []
  | packs_cons line r rs g gs : rn_text r = groupText g -> rn_line r = line ->
      (if rn_whole r then g <> [] /\ fits g else exists d, g = [d] /\ tooLarge d) ->
      packs (line + totalOf zlen g) rs gs -> packs line (r :: rs) (g :: gs).

Lemma concat_s_app l1 l2 : String.concat "" (l1 ++ l2) = String.concat "" l1 +:+ String.concat "" l2.
Proof.
  induction l1 as [|a [|b l1] IH]; [done| |].
  - destruct l2; cbn; [by rewrite app_nil_r_s|done].
  - change (a +:+ "" +:+ String.concat "" ((b :: l1) ++ l2) = (a +:+ "" +:+ String.concat "" (b :: l1)) +:+ String.concat "" l2).
    rewrite IH. by rewrite !app_nil_s, app_assoc_s.
Qed.

Lemma concat_s_cons a l : String.concat "" (a :: l) = a +:+ String.concat "" l.
Proof. change (a :: l) with ([a] ++ l). by rewrite concat_s_app. Qed.

Lemma totalOf_app {A} (f : A -> Z) l1 l2 : totalOf f (l1 ++ l2) = totalOf f l1 + totalOf f l2.
Proof. unfold totalOf. induction l1 as [|x l1 IH]; cbn; [done|]. rewrite IH. lia. Qed.

Lemma packs_app line rs gs r g :
  packs line rs gs -> rn_text r = groupText g -> rn_line r = line + totalOf (totalOf zlen) gs ->
  (if rn_whole r then g <> [] /\ fits g else exists d, g = [d] /\ tooLarge d) -> packs line (rs ++ [r]) (gs ++ [g]).
Proof.
  induction 1 as [line|line r' rs g' gs Ht Hl Hw _ IH]; intros Ht' Hl' Hw'; cbn [app]; unfold totalOf in Hl'; cbn [foldr] in Hl'; fold (totalOf (A := list string)) in Hl'.
  - constructor; [done|lia|done|constructor].
  - constructor; [done|done|done|]. apply IH; [done|unfold totalOf in *; lia|done].
Qed.

Lemma totalOf_cons {A} (f : A -> Z) x l : totalOf f (x :: l) = f x + totalOf f l.
Proof. done. Qed.
#[local] Arguments totalOf : simpl never.

(** One document after another. *)
Definition packDoc (st : list run * span * Z) (d : list string) : list run * span * Z :=
  let '(out, r, line) := st in
  let st' := endDoc (mkSplitting out r (mkSpan (docText d) line (docNodes d)) (line + zlen d) false) in
  (st_out st', st_run st', line + zlen d).

Definition flush (st : list run * span * Z) : list run :=
  let '(out, r, _) := st in if sp_text r =s "" then out else out ++ [mkRunCall (sp_text r) (sp_line r) true].

Lemma endDoc_line out r d line line' b : st_doc (endDoc (mkSplitting out r d line b)) = mkSpan "" line 2 /\
  st_line (endDoc (mkSplitting out r d line b)) = line /\ st_invalid (endDoc (mkSplitting out r d line b)) = b /\
  endDoc (mkSplitting out r d line b) = mkSplitting (st_out (endDoc (mkSplitting out r d line' b))) (st_run (endDoc (mkSplitting out r d line b)))
    (mkSpan "" line 2) line b.
Proof. unfold endDoc. repeat case_match; by simplify_eq/=. Qed.

Lemma docNodes_app d l : docNodes (d ++ [l]) = docNodes d + (if isSeparator l then 0 else yamlNodeBound l).
Proof. unfold docNodes. induction d as [|x d IH]; cbn in *; lia. Qed.

Lemma docText_app d l : docText (d ++ [l]) = docText d +:+ l.
Proof. unfold docText. by rewrite concat_s_app. Qed.

Lemma foldl_invalid ls st : st_invalid st = true -> foldl splitLine st ls = st.
Proof. intros Hs. induction ls as [|l ls IH]; [done|]. cbn [foldl]. unfold splitLine. rewrite Hs. exact IH. Qed.

(** The end of the loop over the lines. *)
Definition finish (st : splitting) : list run :=
  let st := if st_invalid st then st else endDoc st in flush (st_out st, st_run st, 0).

(** The loop over the lines packs the documents. *)
Lemma splitRuns_docs ls cur out r line :
  finish (foldl splitLine (mkSplitting out r (mkSpan (docText cur) line (docNodes cur)) (line + zlen cur) false) ls) =
  flush (foldl packDoc (out, r, line) (docsFrom cur ls)).
Proof.
  revert cur out r line. induction ls as [|l ls IH]; intros cur out r line; cbn [foldl docsFrom].
  { unfold finish. cbn [st_invalid]. done. }
  unfold splitLine at 2. cbn [st_invalid]. unfold isSeparator, isBadSeparator.
  destruct (CutPrefix l "---") as [rest|] eqn:El.
  - destruct (endDoc_line out r (mkSpan (docText cur) line (docNodes cur)) (line + zlen cur) (line + zlen cur) false) as (Hd & Hl & Hi & _).
    set (st' := endDoc _) in *. rewrite Hd, Hl. unfold addToDoc. cbn [st_out st_run st_doc st_line st_invalid sp_text sp_line sp_nodes].
    assert (Hp : packDoc (out, r, line) cur = (st_out st', st_run st', line + zlen cur)) by done.
    destruct (badSeparator rest); cbn [foldl]; rewrite Hp.
    + by rewrite foldl_invalid.
    + specialize (IH [l] (st_out st') (st_run st') (line + zlen cur)). rewrite <- IH.
      assert (docText [l] = l /\ docNodes [l] = 2) as [-> ->].
      { unfold docText, docNodes, isSeparator. cbn. rewrite El. split; [by destruct l|done]. }
      done.
  - specialize (IH (cur ++ [l]) out r line). rewrite <- IH. unfold addToDoc. cbn [st_out st_run st_doc st_line st_invalid sp_text sp_line sp_nodes].
    rewrite docText_app, docNodes_app. unfold isSeparator. rewrite El.
    assert (zlen (cur ++ [l]) = zlen cur + 1) as -> by (unfold zlen; rewrite length_app; cbn; lia). by rewrite Z.add_assoc.
Qed.

(** ** Packing *)

(** What packing the documents [ds] has come to: the groups passed on and
    the one that waits. *)
Record packingInto (pk_groups : list (list (list string))) (pk_run : list (list string)) (ds : list (list string))
    (st : list run * span * Z) : Prop := {
  pk_all : List.filter (fun d => negb (docText d =s "")) ds = concat pk_groups ++ pk_run;
  pk_out : packs 1 st.1.1 pk_groups;
  pk_text : sp_text st.1.2 = groupText pk_run;
  pk_line : sp_line st.1.2 = 1 + totalOf (totalOf zlen) pk_groups;
  pk_next : st.2 = 1 + totalOf zlen (concat pk_groups ++ pk_run);
  pk_nodes : totalOf docNodes pk_run <= sp_nodes st.1.2;
  pk_fits : pk_run = [] \/ fits pk_run;
  pk_full : Forall (fun d => docText d <> ""%string) pk_run;
}.

Definition packing (ds : list (list string)) (st : list run * span * Z) : Prop := exists gs g, packingInto gs g ds st.

Lemma groupText_app g d : groupText (g ++ [d]) = groupText g +:+ docText d.
Proof. unfold groupText. rewrite map_app. by rewrite concat_s_app. Qed.

Lemma groupText_nil g : Forall (fun d => docText d <> ""%string) g -> groupText g = ""%string <-> g = [].
Proof.
  intros Hf. split; [|by intros ->]. destruct g as [|d g]; [done|]. inversion Hf as [|?? Hd _]. change (d :: g) with ([d] ++ g).
  unfold groupText. rewrite map_app, concat_s_app. cbn [map String.concat]. destruct (docText d); done.
Qed.

Lemma slen_groupText g : slen (groupText g) = totalOf (fun d => slen (docText d)) g.
Proof.
  induction g as [|d g IH]; [done|]. change (d :: g) with ([d] ++ g). unfold groupText in *. rewrite map_app, concat_s_app, slen_app, IH, totalOf_app.
  change (totalOf (fun d => slen (docText d)) [d]) with (slen (docText d) + 0). cbn [map String.concat]. lia.
Qed.

Lemma totalOf_concat {A} (l : list (list A)) (f : A -> Z) : totalOf f (concat l) = totalOf (totalOf f) l.
Proof. induction l as [|x l IH]; [done|]. cbn [concat]. by rewrite totalOf_app, totalOf_cons, IH. Qed.

Lemma docNodes_pos d : 0 <= docNodes d.
Proof.
  assert (forall l, 0 <= yamlNodeBound l) as H by (intros l; induction l as [|a l IH]; cbn [yamlNodeBound]; [lia|destruct (introducesNode a); lia]).
  unfold docNodes. induction d as [|l d IH]; cbn [foldr] in *; [lia|]. specialize (H l). destruct (isSeparator l); lia.
Qed.

Lemma packing_flush ds out r line :
  packing ds (out, r, line) -> sp_text r <> ""%string ->
  packing ds (out ++ [mkRunCall (sp_text r) (sp_line r) true], mkSpan "" line 0, line).
Proof.
  intros (gs & g & [Hall Hout Htext Hline Hnext Hnodes Hfits Hfull]) Hr. cbn in *. rewrite Htext in Hr.
  assert (g <> []) as Hg by (intros ->; done). destruct Hfits as [?|Hfits]; [done|].
  exists (gs ++ [g]), []; split; cbn; rewrite ?concat_app; cbn [concat]; rewrite ?app_nil_r; try done; try by left.
  - apply packs_app; done.
  - rewrite Hnext, !totalOf_app, totalOf_concat, totalOf_cons. change (totalOf (totalOf (zlen (A := string))) []) with 0. lia.
Qed.

(** A document after what it may join. *)
Lemma packing_add ds out r line d :
  (docText d = ""%string -> d = []) -> packing ds (out, r, line) ->
  sp_text r = ""%string \/ slen (sp_text r) + slen (docText d) <= manifestChunkBytes /\ sp_nodes r + docNodes d <= maxManifestNodes ->
  packing (ds ++ [d])
    (if (maxManifestDocBytes <? slen (docText d)) || (maxManifestNodes <? docNodes d)
     then (out ++ [mkRunCall (docText d) line false], mkSpan "" (line + zlen d) 0, line + zlen d)
     else (out, mkSpan (sp_text r +:+ docText d) (sp_line r) (sp_nodes r + docNodes d), line + zlen d)).
Proof.
  intros Hd (gs & g & [Hall Hout Htext Hline Hnext Hnodes Hfits Hfull]) Hr. cbn in *. rewrite Htext in Hr. pose proof (docNodes_pos d) as Hpos.
  assert (0 <= slen (groupText g)) as Hlen by apply slen_nonneg.
  assert (0 <= totalOf docNodes g) as Hsum by (clear; induction g as [|x g IH]; [done|rewrite totalOf_cons; pose proof (docNodes_pos x); lia]).
  destruct (docText d =s "") eqn:Ed; [|pose proof Ed as En; apply String.eqb_neq in En].
  - apply String.eqb_eq in Ed. rewrite (Hd Ed). cbn. rewrite Z.add_0_r, app_nil_r_s.
    assert (Hf : List.filter (fun d => negb (docText d =s "")) (ds ++ [[]]) = concat gs ++ g) by (rewrite List.filter_app; cbn; by rewrite app_nil_r).
    exists gs, g; split; cbn; try done. change (totalOf docNodes g <= sp_nodes r + 2). lia.
  - assert (Hf : List.filter (fun d => negb (docText d =s "")) (ds ++ [d]) = concat gs ++ g ++ [d]).
    { rewrite List.filter_app, Hall. cbn. rewrite Ed. cbn. by rewrite <- app_assoc. }
    destruct ((maxManifestDocBytes <? slen (docText d)) || (maxManifestNodes <? docNodes d)) eqn:Et.
    + assert (tooLarge d) as Htl by (unfold tooLarge; apply orb_true_iff in Et as [?|?]; [left|right]; lia).
      assert (g = []) as ->.
      { destruct Hr as [Hr|[H1 H2]]; [by apply groupText_nil|]. exfalso.
        destruct Htl; unfold maxManifestDocBytes, manifestChunkBytes in *; lia. }
      exists (gs ++ [[d]]), []; split; cbn; rewrite ?concat_app; cbn [concat app]; rewrite ?app_nil_r; try done; try by left.
      * apply packs_app; cbn; [done| | |by exists d].
        -- unfold groupText. by cbn.
        -- rewrite Hnext, app_nil_r, totalOf_concat. lia.
      * rewrite totalOf_app, totalOf_cons. rewrite Hnext, app_nil_r, totalOf_concat, totalOf_cons.
        change (totalOf (zlen (A := string)) []) with 0. change (totalOf (totalOf (zlen (A := string))) []) with 0. lia.
      * rewrite totalOf_app, totalOf_cons, Hnext, app_nil_r. change (totalOf (zlen (A := string)) []) with 0. lia.
    + apply orb_false_iff in Et as [E1 E2]. apply Z.ltb_ge in E1, E2.
      exists gs, (g ++ [d]); split; cbn; try done.
      * by rewrite Htext, groupText_app.
      * rewrite Hnext, !totalOf_app, totalOf_cons. change (totalOf (zlen (A := string)) []) with 0. lia.
      * rewrite totalOf_app, totalOf_cons. change (totalOf docNodes []) with 0. lia.
      * right. destruct Hr as [Hr|[H1 H2]].
        -- apply groupText_nil in Hr as ->; [|done]. right. by exists d.
        -- left. rewrite !totalOf_app, !totalOf_cons. rewrite <- slen_groupText.
           change (totalOf docNodes []) with 0. change (totalOf (fun d => slen (docText d)) []) with 0. lia.
      * apply Forall_app. split; [done|]. by constructor.
Qed.

Lemma packing_step ds st d : (docText d = ""%string -> d = []) -> packing ds st -> packing (ds ++ [d]) (packDoc st d).
Proof.
  intros Hd Hp. destruct st as [[out r] line]. unfold packDoc, endDoc. cbn [st_out st_run sp_text sp_line sp_nodes].
  destruct (negb (sp_text r =s "") && _) eqn:E.
  - apply andb_true_iff in E as [E _]. apply negb_true_iff, String.eqb_neq in E. eapply packing_flush in Hp; [|done].
    eapply (packing_add _ _ _ _ d Hd) in Hp; [|by left]. cbn [sp_text sp_line sp_nodes] in Hp. by case_match.
  - eapply (packing_add _ _ _ _ d Hd) in Hp; [by case_match|]. apply andb_false_iff in E as [E|E].
    + left. apply negb_false_iff in E. by apply String.eqb_eq.
    + right. apply orb_false_iff in E as [E1 E2]. lia.
Qed.

Lemma packing_all ds : Forall (fun d => docText d = ""%string -> d = []) ds ->
  packing ds (foldl packDoc ([], mkSpan "" 1 0, 1) ds).
Proof.
  induction ds as [|d ds IH] using rev_ind; intros Hf.
  - exists [], []. split; cbn; try done; [constructor|by left].
  - apply Forall_app in Hf as [Hf Hd]. rewrite foldl_app. apply packing_step; [by inversion Hd|by apply IH].
Qed.

Lemma packing_ends ds st : packing ds st -> exists gs, List.filter (fun d => negb (docText d =s "")) ds = concat gs /\ packs 1 (flush st) gs.
Proof.
  intros Hp. destruct st as [[out r] line]. unfold flush. destruct (sp_text r =s "") eqn:E.
  - apply String.eqb_eq in E. destruct Hp as (gs & g & [Hall Hout Htext _ _ _ _ Hfull]). cbn in *.
    rewrite Htext in E. apply groupText_nil in E as ->; [|done]. exists gs. by rewrite Hall, app_nil_r.
  - apply String.eqb_neq in E. apply packing_flush in Hp as (gs & g & [Hall Hout Htext _ _ _ _ Hfull]); [|done]. cbn in *.
    symmetry in Htext. apply groupText_nil in Htext as ->; [|done]. exists gs. by rewrite Hall, app_nil_r.
Qed.

Lemma linesFrom_nonempty line s : Forall (fun l => l <> ""%string) (linesFrom line s).
Proof.
  revert line. induction s as [|a s IH]; intros line; cbn [linesFrom].
  - destruct (line =s "") eqn:E; constructor; [by apply String.eqb_neq|constructor].
  - cbv zeta. case_match; [constructor; [by destruct line|done]|done].
Qed.

Lemma linesFrom_concat line s : String.concat "" (linesFrom line s) = line +:+ s.
Proof.
  revert line. induction s as [|a s IH]; intros line; cbn [linesFrom].
  - rewrite app_nil_r_s. destruct (line =s "") eqn:E; [by apply String.eqb_eq in E as ->|done].
  - assert ((line +:+ String a "") +:+ s = line +:+ String a s) as E by (rewrite app_assoc_s; by rewrite app_cons_s, app_nil_s).
    cbv zeta. case_match; [|by rewrite IH].
    change ((line +:+ String a "") :: linesFrom "" s) with ([line +:+ String a ""] ++ linesFrom "" s).
    rewrite concat_s_app, IH. cbn [String.concat]. by rewrite app_nil_s.
Qed.

Lemma docsFrom_empty cur ls : Forall (fun l => l <> ""%string) cur -> Forall (fun l => l <> ""%string) ls ->
  Forall (fun d => docText d = ""%string -> d = []) (docsFrom cur ls).
Proof.
  assert (Hn : forall d, Forall (fun l => l <> ""%string) d -> docText d = ""%string -> d = []).
  { intros [|l d] Hf; [done|]. inversion Hf as [|?? Hl _]. change (l :: d) with ([l] ++ d). unfold docText. rewrite concat_s_app. cbn. by destruct l. }
  intros Hc Hl. revert cur Hc. induction Hl as [|l ls Hl Hls IH]; intros cur Hc; cbn [docsFrom].
  - constructor; [by apply Hn|constructor].
  - assert (Forall (fun l => l <> ""%string) [l]) by (by constructor).
    repeat case_match; try (constructor; [by apply Hn|]); [constructor|by apply IH|]. apply IH. by apply Forall_app.
Qed.

(** The documents are the manifest, up to a separator that is none. *)
Lemma docsFrom_concat cur ls : exists rest, docText cur +:+ String.concat "" ls = String.concat "" (map docText (docsFrom cur ls)) +:+ rest /\
  (rest = ""%string \/ exists l ls', rest = String.concat "" (l :: ls') /\ isBadSeparator l = true).
Proof.
  revert cur. induction ls as [|l ls IH]; intros cur; cbn [docsFrom].
  - exists ""%string. split; [by cbn; rewrite !app_nil_r_s|by left].
  - destruct (isSeparator l); [destruct (isBadSeparator l) eqn:Eb|].
    + exists (String.concat "" (l :: ls)). split; [done|right; eauto].
    + destruct (IH [l]) as (rest & E & Hr). exists rest. split; [|done].
      cbn [map]. rewrite (concat_s_cons (docText cur)), app_assoc_s, <- E, concat_s_cons. done.
    + destruct (IH (cur ++ [l])) as (rest & E & Hr). exists rest. split; [|done]. by rewrite <- E, docText_app, app_assoc_s, concat_s_cons.
Qed.

Lemma groupText_filter ds : groupText (List.filter (fun d => negb (docText d =s "")) ds) = groupText ds.
Proof.
  unfold groupText. induction ds as [|d ds IH]; [done|]. cbn [List.filter]. destruct (docText d =s "") eqn:E; cbn [negb].
  - cbn [map]. rewrite IH, concat_s_cons. by apply String.eqb_eq in E as ->.
  - cbn [map]. by rewrite !concat_s_cons, IH.
Qed.

(** A release's manifest is parsed a bounded piece at a time, and no
    document of it is lost in silence. The runs it is cut into are groups
    of its whole documents, in order and each from its own line on: what is
    parsed at once is at most a mebibyte of documents, or one document of
    at most two, and never more than 65,536 YAML nodes; what is passed over
    is one document beyond those bounds; and the documents are the whole
    manifest, up to a separator that ends the stream for its parser too. *)
Lemma splitRuns_packs (m : string) :
  (exists groups, documentsOf m = concat groups /\ packs 1 (splitRuns m) groups) /\
  exists rest, m = groupText (documentsOf m) +:+ rest /\
    (rest = ""%string \/ exists l ls, rest = String.concat "" (l :: ls) /\ isBadSeparator l = true).
Proof.
  split.
  - pose proof (packing_all (docsFrom [] (textLines m))) as Hp.
    apply packing_ends in Hp as (gs & E & Hp); [|apply docsFrom_empty; [constructor|apply linesFrom_nonempty]].
    exists gs. split; [done|]. pose proof (splitRuns_docs (textLines m) [] [] (mkSpan "" 1 0) 1) as Hs. cbn in Hs.
    unfold splitRuns. rewrite <- Hs in Hp. exact Hp.
  - destruct (docsFrom_concat [] (textLines m)) as (rest & E & Hr). exists rest. split; [|done].
    unfold documentsOf. rewrite groupText_filter. unfold textLines in E. rewrite linesFrom_concat in E. exact E.
Qed.

(** ** The installed revision *)

Definition plainNumbers (rs : list helmRevision) : Prop := Forall (fun r => 0 <= hv_revision r <= maxInt) rs.

Lemma newerFirst_plain a b : 0 <= hv_revision a <= maxInt -> 0 <= hv_revision b <= maxInt ->
  (newerFirst a b <=? 0) = (hv_revision b <=? hv_revision a).
Proof. intros Ha Hb. unfold newerFirst. rewrite wrap64_id by (unfold in_int64, minInt, maxInt in *; lia). lia. Qed.

(** Sorted by number, where no difference of two wraps around. *)
Lemma sortRevisions_plain rs : plainNumbers rs -> sortRevisions rs = isort (fun a b => hv_revision b <=? hv_revision a) rs.
Proof.
  intros Hp. unfold sortRevisions, isort. induction Hp as [|r rs Hr Hrs IH]; [done|]. cbn [foldr]. rewrite IH.
  assert (Forall (fun r => 0 <= hv_revision r <= maxInt) (foldr (insert_sorted (fun a b => hv_revision b <=? hv_revision a)) [] rs)) as Hf
    by (change (Forall (fun r => 0 <= hv_revision r <= maxInt) (isort (fun a b => hv_revision b <=? hv_revision a) rs));
        rewrite isort_perm; exact Hrs).
  clear IH. induction Hf as [|x l Hx Hl IHl]; [done|]. cbn [insert_sorted]. rewrite (newerFirst_plain r x Hr Hx). destruct (hv_revision x <=? hv_revision r); [done|]. by rewrite IHl.
Qed.

Lemma find_newest (P : helmRevision -> bool) l r :
  StronglySorted (fun a b => (hv_revision b <=? hv_revision a) = true) l -> find P l = Some r ->
  r ∈ l /\ P r = true /\ forall r', r' ∈ l -> P r' = true -> hv_revision r' <= hv_revision r.
Proof.
  induction 1 as [|x l Hl IH Hx]; [done|]. cbn. destruct (P x) eqn:E.
  - intros [= ->]. split; [left|]. split; [done|]. intros r' [->|Hr']%elem_of_cons Hp; [lia|].
    rewrite Forall_forall in Hx. specialize (Hx r' Hr'). lia.
  - intros [Hr [Hp Hm]]%IH. split; [by right|]. split; [done|]. intros r' [->|Hr']%elem_of_cons Hp'; [congruence|by apply Hm].
Qed.

(** What a release is judged by is what runs: its newest revision, or after
    a failed one the newest that was deployed, or else superseded; nothing
    of a release that is uninstalled, and nothing, with a word, where every
    revision failed. *)
Lemma installedRevision_runs (rs : list helmRevision) (pick : revisionPick) :
  plainNumbers rs -> installedRevision rs = Some pick ->
  exists newest, newest ∈ rs /\ (forall r, r ∈ rs -> hv_revision r <= hv_revision newest) /\
  let newestOf status r := r ∈ rs /\ hv_status r = status /\ (forall r', r' ∈ rs -> hv_status r' = status -> hv_revision r' <= hv_revision r) in
  match pick with
  | revisionGone => hv_status newest ∈ ["uninstalled"; "uninstalling"]%string
  | revisionInstalled r => r = newest /\ hv_status r ∉ ["uninstalled"; "uninstalling"; "failed"]%string \/
      hv_status newest = "failed"%string /\
      (newestOf "deployed"%string r \/ newestOf "superseded"%string r /\ forall r', r' ∈ rs -> hv_status r' <> "deployed"%string)
  | revisionUnjudged => hv_status newest = "failed"%string /\
      forall r, r ∈ rs -> hv_status r <> "deployed"%string /\ hv_status r <> "superseded"%string
  end.
Proof.
  intros Hp. unfold installedRevision. rewrite sortRevisions_plain by done.
  set (leb := fun a b : helmRevision => hv_revision b <=? hv_revision a).
  assert (Hs : StronglySorted (fun a b => leb a b = true) (isort leb rs)) by (apply isort_sorted; unfold leb; lia).
  pose proof (isort_perm leb rs) as Hperm. destruct (isort leb rs) as [|newest older] eqn:E; [done|].
  remember (if mem_str (hv_status newest) _ then _ else _) as chosen eqn:Ec. intros [= <-].
  assert (Hin : forall r, r ∈ rs <-> r = newest \/ r ∈ older) by (intros r; by rewrite <- Hperm, elem_of_cons).
  apply StronglySorted_inv in Hs as [Hso Hall]. rewrite Forall_forall in Hall. unfold leb in Hall.
  exists newest. split; [apply Hin; by left|]. split; [intros r [->|Hr]%Hin; [lia|specialize (Hall r Hr); lia]|]. cbv zeta. revert Ec.
  destruct (mem_str (hv_status newest) ["uninstalled"; "uninstalling"]%string) eqn:Eu; [intros ->; by apply mem_str_spec|].
  apply not_true_iff_false in Eu. rewrite mem_str_spec in Eu.
  destruct (hv_status newest =s "failed") eqn:Ef.
  2: { intros ->. apply String.eqb_neq in Ef. left. split; [done|]. intros Hx. apply Eu. set_solver. }
  apply String.eqb_eq in Ef.
  assert (Hfind : forall status, status <> "failed"%string ->
    match find (fun r => hv_status r =s status) older with
    | Some r => r ∈ rs /\ hv_status r = status /\ forall r', r' ∈ rs -> hv_status r' = status -> hv_revision r' <= hv_revision r
    | None => forall r', r' ∈ rs -> hv_status r' <> status
    end).
  { intros status Hne. destruct (find _ older) as [r|] eqn:Efind.
    - apply find_newest in Efind as (Hr & Hst & Hmax); [|done]. apply String.eqb_eq in Hst. split; [apply Hin; by right|]. split; [done|].
      intros r' [->|Hr']%Hin Hst'; [congruence|]. apply Hmax; [done|by apply String.eqb_eq].
    - intros r' [->|Hr']%Hin Hst'; [congruence|]. pose proof (find_none _ _ Efind r') as Hn. rewrite <- list_elem_of_In in Hn.
      specialize (Hn Hr'). by apply String.eqb_neq in Hn. }
  pose proof (Hfind "deployed"%string ltac:(done)) as Hd. pose proof (Hfind "superseded"%string ltac:(done)) as Hsup.
  destruct (find (fun r => hv_status r =s "deployed") older); [intros ->; right; split; [done|by left]|].
  destruct (find (fun r => hv_status r =s "superseded") older); [intros ->; right; split; [done|by right]|].
  intros ->. split; [done|]. intros r Hr. split; [by apply Hd|by apply Hsup].
Qed.

(** ** Every release is accounted for *)

Section Accounts.
Context `{HelmDecoders} `{Content}.

(** The revision of a history that is installed. *)
Definition installedOf (rs : list helmRevision) : option revisionPick := installedRevision (firstDriver rs).

Lemma selectReleases_spec cache l todo unjudged : selectReleases cache l = Some (todo, unjudged) ->
  (forall k rs, (k, rs) ∈ l -> match installedOf rs with
    | Some (revisionInstalled r) => mkInstalled k r (cacheKey k r) (cacheGet (cacheKey k r) cache) ∈ todo
    | Some revisionUnjudged => k ∈ unjudged
    | Some revisionGone => True
    | None => False
    end) /\
  (forall t, t ∈ todo -> exists rs, (in_key t, rs) ∈ l /\ installedOf rs = Some (revisionInstalled (in_rev t)) /\
     in_ck t = cacheKey (in_key t) (in_rev t) /\ in_entry t = cacheGet (in_ck t) cache) /\
  (forall k, k ∈ unjudged -> exists rs, (k, rs) ∈ l /\ installedOf rs = Some revisionUnjudged).
Proof.
  revert todo unjudged. induction l as [|[k rs] l IH]; intros todo unjudged Hs; cbn [selectReleases] in Hs.
  { injection Hs as <- <-. split_and!; intros; set_solver. }
  fold (installedOf rs) in Hs. destruct (installedOf rs) as [pick|] eqn:Ep; [|done].
  destruct (selectReleases cache l) as [[todo' unjudged']|]; [|by destruct pick].
  destruct (IH todo' unjudged' eq_refl) as (H1 & H2 & H3).
  assert (Hgoal : forall (t : list installed) (u : list releaseKey), (forall x, x ∈ todo' -> x ∈ t) -> (forall x, x ∈ unjudged' -> x ∈ u) ->
    forall k' rs', (k', rs') ∈ l -> match installedOf rs' with
      | Some (revisionInstalled r) => mkInstalled k' r (cacheKey k' r) (cacheGet (cacheKey k' r) cache) ∈ t
      | Some revisionUnjudged => k' ∈ u | Some revisionGone => True | None => False end).
  { intros t u Ht Hu k' rs' Hin. specialize (H1 k' rs' Hin). repeat case_match; auto. }
  destruct pick as [r| |]; injection Hs as <- <-.
  - split_and!.
    + intros k' rs' [E|Hin]%elem_of_cons; [injection E as -> ->; rewrite Ep; left|]. apply Hgoal; [by right|done|done].
    + intros t [->|Ht]%elem_of_cons; [exists rs; split_and!; [left|done..]|]. destruct (H2 t Ht) as (rs' & ? & ?). exists rs'. split; [by right|done].
    + intros k' Hk. destruct (H3 k' Hk) as (rs' & ? & ?). exists rs'. split; [by right|done].
  - split_and!.
    + intros k' rs' [E|Hin]%elem_of_cons; [injection E as -> ->; by rewrite Ep|]. by apply Hgoal.
    + intros t Ht. destruct (H2 t Ht) as (rs' & ? & ?). exists rs'. split; [by right|done].
    + intros k' Hk. destruct (H3 k' Hk) as (rs' & ? & ?). exists rs'. split; [by right|done].
  - split_and!.
    + intros k' rs' [E|Hin]%elem_of_cons; [injection E as -> ->; rewrite Ep; left|]. apply Hgoal; [done|by right|done].
    + intros t Ht. destruct (H2 t Ht) as (rs' & ? & ?). exists rs'. split; [by right|done].
    + intros k' [->|Hk]%elem_of_cons; [exists rs; split; [left|done]|]. destruct (H3 k' Hk) as (rs' & ? & ?). exists rs'. split; [by right|done].
Qed.

(** ** The loop over the releases *)

(** What one release left: it is recorded, it was deleted since the list,
    or it is named. *)
Definition gone (api : helmAPI) (t : installed) : Prop :=
  in_entry t = None /\ exists e, payload api (hv_driver (in_rev t)) (in_key t).1 (hv_object (in_rev t)) = GetError true e.

Definition recordedRelease (st : helmRead) (t : installed) : Prop := exists e, releaseOf (in_key t) (in_rev t) e ∈ hr_rels st /\ he_decodeErr e = ""%string.

Definition failures (st : helmRead) : Z := (hr_unread st).1 + (hr_undecodable st).1 + (hr_unparsed st).1.

Definition tallied (st : helmRead) : Prop :=
  zlen (hr_skipped st) = failures st /\ 0 <= (hr_unread st).1 /\ 0 <= (hr_undecodable st).1 /\ 0 <= (hr_unparsed st).1.

Lemma record_spec t e st : let st' := record_ t e st in
  (recordedRelease st' t \/ keyText (in_key t) ∈ hr_skipped st') /\
  hr_rels st `prefix_of` hr_rels st' /\ hr_skipped st `prefix_of` hr_skipped st' /\
  (forall rel, rel ∈ hr_rels st' -> rel ∈ hr_rels st \/ rel = releaseOf (in_key t) (in_rev t) e) /\
  (tallied st -> tallied st').
Proof.
  destruct st as [rels per unread undec unparsed skipped seen cache]. cbv zeta. unfold record_, tallied, failures, recordedRelease, tick1, zlen.
  destruct (he_decodeErr e =s "") eqn:E; cbn [negb]; [apply String.eqb_eq in E; destruct (he_parseErr e =s "")|]; cbn; rewrite ?length_app; cbn;
    (split; [|split_and!; [first [by exists []; rewrite app_nil_r|by eexists]|first [by exists []; rewrite app_nil_r|by eexists]|set_solver|lia]]);
    [left; exists e; split; [set_solver|done]..|right; set_solver].
Qed.

Lemma readRelease_spec api flagged st t : let st' := readRelease api flagged st t in
  (recordedRelease st' t \/ keyText (in_key t) ∈ hr_skipped st' \/ gone api t) /\
  hr_rels st `prefix_of` hr_rels st' /\ hr_skipped st `prefix_of` hr_skipped st' /\
  (forall rel, rel ∈ hr_rels st' -> rel ∈ hr_rels st \/ exists e, rel = releaseOf (in_key t) (in_rev t) e) /\
  (tallied st -> tallied st').
Proof.
  cbv zeta. unfold readRelease.
  destruct (in_entry t) as [e|] eqn:Ee.
  { destruct (record_spec t e st) as (H1 & H2 & H3 & H4 & H5). split_and!; [tauto|done|done|naive_solver|done]. }
  destruct (payload _ _ _ _) as [data|[] msg] eqn:Ep.
  - destruct (record_spec t (decodeHelmEntry data flagged) (set_cache (cachePut (in_ck t) (decodeHelmEntry data flagged) (hr_cache st)) st))
      as (H1 & H2 & H3 & H4 & H5). split_and!; [tauto|done|done|naive_solver|done].
  - split_and!; [right; right; unfold gone; eauto|by exists []; rewrite app_nil_r|by exists []; rewrite app_nil_r|by left|done].
  - unfold unreadRelease, tallied, failures, tick1, zlen. cbn. rewrite ?length_app. cbn.
    split_and!; [right; left; set_solver|by exists []; rewrite app_nil_r|by eexists|by left|lia].
Qed.

Lemma readReleases_spec api flagged todo st : let st' := foldl (readRelease api flagged) st todo in
  (forall t, t ∈ todo -> recordedRelease st' t \/ keyText (in_key t) ∈ hr_skipped st' \/ gone api t) /\
  hr_rels st `prefix_of` hr_rels st' /\ hr_skipped st `prefix_of` hr_skipped st' /\
  (forall rel, rel ∈ hr_rels st' -> rel ∈ hr_rels st \/ exists t e, t ∈ todo /\ rel = releaseOf (in_key t) (in_rev t) e) /\
  (tallied st -> tallied st').
Proof.
  cbv zeta. revert st. induction todo as [|t todo IH]; intros st; cbn [foldl]; [split_and!; try done; intros; set_solver|].
  destruct (readRelease_spec api flagged st t) as (H1 & H2 & H3 & H4 & H5). destruct (IH (readRelease api flagged st t)) as (G1 & G2 & G3 & G4 & G5).
  split_and!.
  - intros t' [->|Ht]%elem_of_cons; [|by apply G1]. destruct G2 as [l El], G3 as [l' El']. unfold recordedRelease in *. rewrite El, El'.
    destruct H1 as [(e & ? & ?)|[?|?]]; [left; exists e; set_solver|right; left; set_solver|by right; right].
  - by etrans.
  - by etrans.
  - intros rel [Hr|(t' & e & Ht & ->)]%G4; [destruct (H4 rel Hr) as [?|[e ->]]; [by left|right; exists t, e; split; [left|done]]|].
    right. exists t', e. split; [by right|done].
  - auto.
Qed.
(** ** The end of the step *)

Lemma zlen_pos {A} (x : A) l : x ∈ l -> (0 <? zlen l) = true.
Proof. intros Hx. destruct l; [set_solver|]. unfold zlen. cbn [length]. apply Z.ltb_lt. lia. Qed.

Lemma concludeHelm_spec errs scoped unjudged st rels pe :
  tallied st -> concludeHelm errs scoped unjudged st = (rels, inr pe) ->
  rels = hr_rels st /\ (forall e rest, errs <> Some e :: rest) /\
  (forall s, s ∈ map keyText unjudged ++ hr_skipped st -> s ∈ pe_skipped pe /\ pe_incomplete pe = true) /\
  (forall name e, (name, Some e) ∈ zip helmDrivers errs -> name ∈ pe_skipped pe).
Proof.
  intros (Ht & Hu & Hd & Hp). unfold concludeHelm. cbv zeta. set (notAssessed := match errs with Some _ :: _ => true | _ => _ end).
  set (notes := note1 (hr_unread st) _ ++ _). set (judged := match unjudged with [] => [] | _ => _ end).
  set (skipped0 := omap _ (zip helmDrivers errs)).
  set (failed := (omap id errs ++ notes) ++ judged). set (skipped := skipped0 ++ map keyText unjudged ++ hr_skipped st).
  assert (Hnote : forall s, s ∈ map keyText unjudged ++ hr_skipped st -> exists x, x ∈ failed).
  { intros s [(k & -> & Hk)%list_elem_of_fmap|Hs]%elem_of_app.
    - unfold failed, judged. destruct unjudged; [set_solver|]. eexists. apply elem_of_app. right. left.
    - assert (0 < failures st) as Hf by (rewrite <- Ht; apply zlen_pos in Hs; lia). unfold failures in Hf.
      unfold failed, notes, note1. destruct (0 <? (hr_unread st).1) eqn:E1; [eexists; rewrite !elem_of_app; left; right; left; left|].
      destruct (0 <? (hr_undecodable st).1) eqn:E2; [eexists; rewrite !elem_of_app; left; right; right; left; left|].
      destruct (0 <? (hr_unparsed st).1) eqn:E3; [eexists; rewrite !elem_of_app; left; right; right; right; left|]. lia. }
  assert (Hdrv : forall name e, (name, Some e) ∈ zip helmDrivers errs -> name ∈ skipped0)
    by (intros name e Hin; apply list_elem_of_omap; exists (name, Some e); split; [done|done]).
  destruct notAssessed eqn:En; [by destruct scoped|].
  assert (Herr : forall e rest, errs <> Some e :: rest) by (intros e rest ->; done).
  destruct scoped as [note|]; intros [= <- <-]; cbn [pe_skipped pe_incomplete]; split_and!; try done.
  - intros s Hs. destruct (Hnote s Hs) as [x Hx]. split; [unfold skipped; set_solver|]. apply (zlen_pos x). set_solver.
  - intros name e Hin. apply Hdrv in Hin. unfold skipped. set_solver.
  - intros s Hs. destruct (Hnote s Hs) as [x Hx]. split; [unfold skipped; set_solver|]. by apply (zlen_pos x).
  - intros name e Hin. apply Hdrv in Hin. unfold skipped. set_solver.
Qed.

(** Whether a release is among those the outcome names. *)
Definition namedSkipped (pe : partialError) (k : releaseKey) : Prop := keyText k ∈ pe_skipped pe /\ pe_incomplete pe = true.

Definition releaseFor (k : releaseKey) (r : helmRevision) (rel : HelmRelease) : Prop :=
  h_Namespace rel = k.1 /\ h_Name rel = k.2 /\ h_Revision rel = hv_revision r /\ (hv_status r <> ""%string -> h_Status rel = hv_status r).

Lemma releaseOf_for k r e : releaseFor k r (releaseOf k r e).
Proof.
  unfold releaseFor, releaseOf. cbn [h_Namespace h_Name h_Revision h_Status]. do 3 (split; [done|]).
  intros Hne. apply String.eqb_neq in Hne. by rewrite Hne.
Qed.

(** The scope of the lists. *)
Definition scopeOf (namespaces : list string) : list string :=
  match namespaces with [] => [""%string] | _ => compact (sort_strings namespaces) end.

(** No Helm release is left out without a word, and nothing is reported
    that is not installed. Whatever the apiserver answers and whatever the
    cache holds, when Helm counts as read at all then its Secrets were
    listed; of every release that was listed, either it is recorded by its
    installed revision, or it is uninstalled, or it was deleted meanwhile,
    or the outcome is incomplete and names it; a driver that was not read
    is named; and every release recorded is the installed revision of one
    that was listed. *)
Lemma helm_releases_accounted (api : helmAPI) (fuel : nat) (lifecycle : list APILifecycleEntry) (cache cache' : option HelmCache)
    (namespaces : list string) (rels : list HelmRelease) (pe : partialError) (revs : revisionTable) (errs : list (option string)) :
  collectHelm api fuel lifecycle cache namespaces = Some (rels, inr pe, cache') ->
  listDrivers api fuel (scopeOf namespaces) 0 helmDrivers ∅ = Some (revs, errs) ->
  (forall k rs, revs !! k = Some rs ->
     match installedOf rs with
     | Some (revisionInstalled r) =>
         (exists rel, rel ∈ rels /\ releaseFor k r rel) \/ (exists e, payload api (hv_driver r) k.1 (hv_object r) = GetError true e) \/ namedSkipped pe k
     | Some revisionGone => True
     | Some revisionUnjudged => namedSkipped pe k
     | None => False
     end) /\
  (forall rel, rel ∈ rels -> exists k rs r, revs !! k = Some rs /\ installedOf rs = Some (revisionInstalled r) /\ releaseFor k r rel) /\
  (forall e rest, errs <> Some e :: rest) /\ (forall name e, (name, Some e) ∈ zip helmDrivers errs -> name ∈ pe_skipped pe).
Proof.
  intros Hc Hl. unfold collectHelm in Hc. cbv zeta in Hc. fold (scopeOf namespaces) in Hc. rewrite Hl in Hc.
  destruct (forallb _ errs); [done|]. set (flagged := flaggedSet lifecycle) in *. set (begun := cacheBegin _ cache) in *.
  destruct (selectReleases begun _) as [[todo unjudged]|] eqn:Es; [|done]. apply selectReleases_spec in Es as (Hsel & Htodo & _).
  set (st0 := mkHelmRead [] ∅ _ _ _ [] ∅ begun) in *.
  destruct (readReleases_spec api flagged todo st0) as (Hread & _ & _ & Hrels & Htally). set (st := foldl _ st0 todo) in *.
  assert (tallied st) as Ht by (apply Htally; done).
  destruct (concludeHelm _ _ _ st) as [rels' out] eqn:Ec. injection Hc as -> -> _.
  apply concludeHelm_spec in Ec as (-> & Herr & Hskip & Hdrv); [|done].
  assert (Hkey : forall k rs, (k, rs) ∈ map (fun k => (k, default [] (revs !! k))) (sortKeys (elements (dom revs))) <-> revs !! k = Some rs).
  { intros k rs. rewrite list_elem_of_fmap. setoid_rewrite isort_perm. setoid_rewrite elem_of_elements. setoid_rewrite elem_of_dom. split.
    - intros (k' & E0 & [rs' E]). injection E0 as -> ->. unfold revisionTable in *. by rewrite E.
    - intros E. exists k. unfold revisionTable in *. rewrite E. eauto. }
  split_and!; [| |done|done].
  - intros k rs Hrs. specialize (Hsel k rs (proj2 (Hkey k rs) Hrs)). destruct (installedOf rs) as [[r| |]|]; [|done| |done].
    + destruct (Hread _ Hsel) as [(e & Hin & _)|[Hin|[_ Hg]]]; [left|right; right|right; left].
      * eexists. split; [exact Hin|apply releaseOf_for].
      * apply Hskip. apply elem_of_app. by right.
      * exact Hg.
    + apply Hskip. apply elem_of_app. left. by apply list_elem_of_fmap_2.
  - intros rel [Hx|(t & e & Hin & ->)]%Hrels; [by apply elem_of_nil in Hx|]. destruct (Htodo t Hin) as (rs & Hrs & Hi & _). apply Hkey in Hrs.
    exists (in_key t), rs, (in_rev t). split_and!; [done|done|apply releaseOf_for].
Qed.
End Accounts.

(** ** The cache *)

Section Cache.
Context `{HelmDecoders} `{Content}.
Context (content : helmCacheKey -> string).

(** Every entry is what decoding the object it is keyed by gives. *)
Definition entriesOk (flagged : gset GVK) (c : HelmCache) : Prop :=
  forall k e, hc_entries c !! k = Some e -> e = decodeHelmEntry (content k) flagged.

(** A cache filled by collections against the flagged sets [known]. *)
Definition helmCacheOk (known : list (gset GVK)) (c : option HelmCache) : Prop :=
  match c with
  | None => True
  | Some c => hc_entries c = ∅ \/ exists flagged, flagged ∈ known /\ hc_flagged c = flaggedFingerprint flagged /\ entriesOk flagged c
  end.

Definition begunOk (flagged : gset GVK) (c : option HelmCache) : Prop :=
  match c with None => True | Some c => hc_flagged c = flaggedFingerprint flagged /\ entriesOk flagged c end.

Lemma entriesOk_empty flagged c : hc_entries c = ∅ -> entriesOk flagged c.
Proof. intros E k e. by rewrite E, lookup_empty. Qed.

Lemma cacheBegin_ok known flagged c :
  (forall fl, fl ∈ known -> flaggedFingerprint fl = flaggedFingerprint flagged -> fl = flagged) ->
  helmCacheOk known c -> begunOk flagged (cacheBegin (flaggedFingerprint flagged) c).
Proof.
  intros Hf. destruct c as [c|]; [|done]. unfold cacheBegin, helmCacheOk, begunOk. destruct (hc_flagged c =s flaggedFingerprint flagged) eqn:E.
  - apply String.eqb_eq in E. intros [He|(fl & Hin & Efl & He)]; (split; [done|]); [by apply entriesOk_empty|].
    by rewrite <- (Hf fl Hin (eq_trans (eq_sym Efl) E)).
  - intros _. split; [done|]. by apply entriesOk_empty.
Qed.

Lemma cacheGet_ok flagged c k e : begunOk flagged c -> cacheGet k c = Some e -> e = decodeHelmEntry (content k) flagged.
Proof. destruct c as [c|]; [|done]. cbn. intros [_ Hc]. destruct (cacheable k); [apply Hc|done]. Qed.

Lemma cachePut_ok flagged c k : begunOk flagged c -> begunOk flagged (cachePut k (decodeHelmEntry (content k) flagged) c).
Proof.
  destruct c as [c|]; [|done]. cbn. intros [Hf Hc]. destruct (cacheable k); [|done]. split; [done|]. intros k' e. cbn.
  rewrite lookup_insert. case_decide as E; [by intros [= <-]; rewrite E|apply Hc].
Qed.

Lemma cachePut_uncacheable k e c : cacheable k = false -> cachePut k e c = c.
Proof. destruct c as [c|]; [|done]. cbn. by intros ->. Qed.

Lemma cachePrune_ok flagged seen keep c : begunOk flagged c -> begunOk flagged (cachePrune seen keep c).
Proof.
  destruct c as [c|]; [|done]. cbn. intros [Hf Hc]. split; [done|]. intros k e. cbn. intros [Hk _]%map_lookup_filter_Some. by apply Hc.
Qed.

(** A release as a collection without a cache has it. *)
Definition plainRelease (t : installed) : installed := mkInstalled (in_key t) (in_rev t) (in_ck t) None.

Lemma selectReleases_plain c l :
  selectReleases None l = (fun x : list installed * list releaseKey => (map plainRelease x.1, x.2)) <$> selectReleases c l.
Proof.
  induction l as [|[k rs] l IH]; [done|]. cbn [selectReleases]. rewrite IH.
  destruct (installedRevision (firstDriver rs)) as [[]|]; destruct (selectReleases c l) as [[]|]; done.
Qed.

Lemma record_plain t e st : record_ (plainRelease t) e (set_cache None st) = set_cache None (record_ t e st).
Proof. destruct st. unfold record_, set_cache, plainRelease. cbn. by repeat case_match; simplify_eq. Qed.

Lemma record_cache t e st : hr_cache (record_ t e st) = hr_cache st.
Proof. destruct st. unfold record_. cbn. by repeat case_match; simplify_eq. Qed.

(** What the apiserver answers for a release is the content of the version
    that was listed, and what the cache holds could be read again. *)
Definition honestBlob (api : helmAPI) (t : installed) : Prop :=
  let answer := payload api (hv_driver (in_rev t)) (in_key t).1 (hv_object (in_rev t)) in
  (forall data, answer = Got data -> cacheable (in_ck t) = true -> data = content (in_ck t)) /\
  (is_Some (in_entry t) -> cacheable (in_ck t) = true /\ exists data, answer = Got data).

Lemma readRelease_plain api flagged st t :
  honestBlob api t -> (forall e, in_entry t = Some e -> e = decodeHelmEntry (content (in_ck t)) flagged) -> begunOk flagged (hr_cache st) ->
  readRelease api flagged (set_cache None st) (plainRelease t) = set_cache None (readRelease api flagged st t) /\
  begunOk flagged (hr_cache (readRelease api flagged st t)).
Proof.
  intros [Hc Hh] He Hok. unfold readRelease. cbn [plainRelease in_entry in_rev in_key in_ck].
  destruct (in_entry t) as [e|] eqn:Ee.
  - destruct Hh as [Hck [data Ed]]; [eauto|]. rewrite Ed. rewrite (He e eq_refl), (Hc data Ed Hck).
    split; [apply (record_plain t _ st)|by rewrite record_cache].
  - destruct (payload _ _ _ _) as [data|[] msg] eqn:Ep; [|by split..].
    split; [exact (record_plain t (decodeHelmEntry data flagged) (set_cache (cachePut (in_ck t) (decodeHelmEntry data flagged) (hr_cache st)) st))|]. rewrite record_cache. cbn [set_cache hr_cache].
    destruct (cacheable (in_ck t)) eqn:Ec; [|by rewrite cachePut_uncacheable].
    rewrite (Hc data eq_refl eq_refl). by apply cachePut_ok.
Qed.

Lemma readReleases_plain api flagged todo st :
  Forall (fun t => honestBlob api t /\ forall e, in_entry t = Some e -> e = decodeHelmEntry (content (in_ck t)) flagged) todo ->
  begunOk flagged (hr_cache st) ->
  foldl (readRelease api flagged) (set_cache None st) (map plainRelease todo) = set_cache None (foldl (readRelease api flagged) st todo) /\
  begunOk flagged (hr_cache (foldl (readRelease api flagged) st todo)).
Proof.
  intros Hf. revert st. induction Hf as [|t todo [Ht He] _ IH]; intros st Hok; [done|]. cbn [map foldl].
  destruct (readRelease_plain api flagged st t Ht He Hok) as [-> Hok']. by apply IH.
Qed.

Lemma concludeHelm_plain errs scoped unjudged st : concludeHelm errs scoped unjudged (set_cache None st) = concludeHelm errs scoped unjudged st.
Proof. done. Qed.

(** The cache saves downloads and changes nothing else. Where it holds,
    for the versions of objects it is keyed by, what decoding them gave
    against a set of flagged APIs it tells apart, and the apiserver serves
    for an object the version it listed and could still serve what is
    cached: a collection with the cache records the same releases with the
    same outcome, word for word, as one that downloads everything, and
    leaves a cache that holds such entries again. *)
Lemma helm_cache_transparent (api : helmAPI) (fuel : nat) (lifecycle : list APILifecycleEntry) (known : list (gset GVK))
    (cache cache' : option HelmCache) (namespaces : list string) (rels : list HelmRelease) (out : helmOutcome)
    (revs : revisionTable) (errs : list (option string)) :
  let flagged := flaggedSet lifecycle in
  let begun := cacheBegin (flaggedFingerprint flagged) cache in
  helmCacheOk known cache ->
  (forall fl, fl ∈ known -> flaggedFingerprint fl = flaggedFingerprint flagged -> fl = flagged) ->
  listDrivers api fuel (scopeOf namespaces) 0 helmDrivers ∅ = Some (revs, errs) ->
  (forall k rs r, revs !! k = Some rs -> installedOf rs = Some (revisionInstalled r) ->
     honestBlob api (mkInstalled k r (cacheKey k r) (cacheGet (cacheKey k r) begun))) ->
  collectHelm api fuel lifecycle cache namespaces = Some (rels, out, cache') ->
  collectHelm api fuel lifecycle None namespaces = Some (rels, out, None) /\ helmCacheOk (flagged :: known) cache'.
Proof.
  cbv zeta. intros Hcache Hknown Hl Hhonest Hc. unfold collectHelm in *. cbv zeta in *. fold (scopeOf namespaces) in *. rewrite Hl in *.
  destruct (forallb _ errs).
  { injection Hc as <- <- <-. split; [done|]. destruct cache as [c|]; [|done]. destruct Hcache as [?|(fl & ? & ?)]; [by left|right; exists fl; set_solver]. }
  set (flagged := flaggedSet lifecycle) in *. set (begun := cacheBegin _ cache) in *.
  assert (Hbegun : begunOk flagged begun) by (by eapply cacheBegin_ok).
  cbn [cacheBegin]. rewrite (selectReleases_plain begun).
  destruct (selectReleases begun _) as [[todo unjudged]|] eqn:Es; [|done]. cbn [fmap option_fmap option_map fst snd].
  apply selectReleases_spec in Es as (_ & Htodo & _).
  set (st0 := mkHelmRead [] ∅ _ _ _ [] ∅ begun) in *.
  assert (Hall : Forall (fun t => honestBlob api t /\ forall e, in_entry t = Some e -> e = decodeHelmEntry (content (in_ck t)) flagged) todo).
  { apply Forall_forall. intros t Hin. destruct (Htodo t Hin) as (rs & Hrs & Hi & Eck & Een). split.
    - apply list_elem_of_fmap in Hrs as (k & E0 & Hk). injection E0 as Ek ->. subst k. unfold sortKeys in Hk. rewrite isort_perm, elem_of_elements in Hk.
      apply elem_of_dom in Hk as [rs' Hrs']. unfold revisionTable in *. rewrite Hrs' in Hi. specialize (Hhonest (in_key t) rs' (in_rev t) Hrs' Hi).
      rewrite <- Eck, <- Een in Hhonest. by destruct t.
    - intros e He. rewrite Een in He. by eapply cacheGet_ok. }
  destruct (readReleases_plain api flagged todo st0 Hall Hbegun) as [E Hok].
  change (mkHelmRead [] ∅ (0, ""%string) (0, ""%string) (0, ""%string) [] ∅ None) with (set_cache None st0). rewrite E.
  rewrite concludeHelm_plain. destruct (concludeHelm errs _ unjudged (foldl _ st0 todo)) as [rels' out']. injection Hc as -> -> <-.
  split; [done|]. apply (cachePrune_ok _ (hr_seen (foldl (readRelease api flagged) st0 todo)) (fun d => match nth d errs None with None => true | Some _ => false end)) in Hok.
  destruct (cachePrune _ _ _) as [c|]; [|done]. right. exists flagged. split; [left|exact Hok].
Qed.
End Cache.

(** ** A cluster with three releases *)

(** "web" was upgraded, "db" only ever failed, "old" is uninstalled. *)
#[local] Instance exampleDecoders : HelmDecoders := {|
  base64Decode := Ok;
  gunzip raw := Ok (mkGunzipped (String.substring 3 (String.length raw - 7) raw) None 0);
  releaseJSON s := Ok (mkReleaseDoc "deployed" s "1.2.3" "4.5" ">=1.21" ("kind: Ingress" +:+ String "010" ""));
  IsJSONBuffer _ := false;
  parseManifestStream _ := [mkManifestObject (mkGVK "extensions" "v1beta1" "Ingress") (mkObjectRef "shop" "web" "" 1 "" "" "" "" false false)];
|}.
#[local] Existing Instance exampleContent.

Definition storedPayload : string := bytes [0x1f; 0x8b; 0x08]%N +:+ "nginx" +:+ bytes [5; 0; 0; 0]%N.

Definition storedRevision (name version status : string) : partialObject :=
  mkPartialObject (helmObjectPrefix +:+ name +:+ ".v" +:+ version) "shop"
    (list_to_map [("name", name); ("version", version); ("status", status)]%string) ("uid-" +:+ name +:+ version) "7".

Definition exampleHelm : helmAPI := mkHelmAPI
  (fun d _ k _ => match d, k with
    | O, O => Page [storedRevision "web" "1" "superseded"; storedRevision "db" "1" "failed"; storedRevision "web" "2" "deployed"] "next"
    | O, _ => Page [storedRevision "old" "3" "uninstalled"] ""
    | _, _ => Page [] ""
    end)
  (fun _ _ => Got (helmSecretType, storedPayload)) (fun _ _ => Got storedPayload).

Definition helmLifecycle : list APILifecycleEntry :=
  [KB.mkEntry "extensions" "v1beta1" "Ingress" (mkVersion 1 1) (Some (mkVersion 1 14)) (Some (mkVersion 1 22)) None false false None].

Definition helmFirst : option (list HelmRelease * helmOutcome * option HelmCache) := collectHelm exampleHelm 3 helmLifecycle (Some NewHelmCache) [].

Definition helmListing : option (revisionTable * list (option string)) := listDrivers exampleHelm 3 (scopeOf []) 0 helmDrivers ∅.

Example helm_example :
  match helmFirst with
  | Some ([rel], inr pe, Some c) =>
      (h_Name rel, h_ChartName rel, h_Revision rel, map u_Count (h_ManifestAPIs rel)) = ("web", "nginx", 2, [1])%string /\
      pe_skipped pe = ["shop/db"%string] /\ size (hc_entries c) = 1%nat
  | _ => False
  end.
Proof. vm_compute. by split_and!. Qed.

Lemma helm_releases_accounted_witness :
  exists rels pe cache revs errs, helmFirst = Some (rels, inr pe, cache) /\ helmListing = Some (revs, errs) /\
    forall k rs, revs !! k = Some rs ->
     match installedOf rs with
     | Some (revisionInstalled r) =>
         (exists rel, rel ∈ rels /\ releaseFor k r rel) \/ (exists e, payload exampleHelm (hv_driver r) k.1 (hv_object r) = GetError true e) \/ namedSkipped pe k
     | Some revisionGone => True
     | Some revisionUnjudged => namedSkipped pe k
     | None => False
     end.
Proof.
  assert (Hx : match helmFirst with Some (_, inr _, _) => True | _ => False end) by (vm_compute; exact I).
  assert (Hy : match helmListing with Some _ => True | _ => False end) by (vm_compute; exact I).
  destruct helmFirst as [[[rels [e|pe]] cache]|] eqn:E; [destruct Hx| |destruct Hx]. destruct helmListing as [[revs errs]|] eqn:El; [|destruct Hy].
  exists rels, pe, cache, revs, errs. split; [reflexivity|]. split; [reflexivity|].
  exact (proj1 (helm_releases_accounted exampleHelm 3 helmLifecycle (Some NewHelmCache) cache [] rels pe revs errs E El)).
Defined.

Lemma exampleHelm_honest t known flagged c : helmCacheOk (fun _ => storedPayload) known c ->
  in_entry t = cacheGet (in_ck t) (cacheBegin flagged c) -> honestBlob (fun _ => storedPayload) exampleHelm t.
Proof.
  intros _ He. split.
  - intros data Hd _. destruct (hv_driver (in_rev t)); cbn in Hd; by injection Hd as <-.
  - intros [e Hs]. rewrite He in Hs. split; [destruct c as [c|]; [|done]; unfold cacheGet, cacheBegin in Hs; by destruct (cacheable (in_ck t))|].
    exists storedPayload. by destruct (hv_driver (in_rev t)).
Qed.

(** The second collection downloads nothing and says the same. *)
Lemma helm_cache_transparent_witness :
  exists rels out c cache' , helmFirst = Some (rels, out, Some c) /\ hc_entries c <> ∅ /\
    collectHelm exampleHelm 3 helmLifecycle (Some c) [] = Some (rels, out, cache') /\
    collectHelm exampleHelm 3 helmLifecycle None [] = Some (rels, out, None) /\
    helmCacheOk (fun _ => storedPayload) [flaggedSet helmLifecycle; flaggedSet helmLifecycle] cache'.
Proof.
  assert (Hx : match helmFirst with
    | Some (rels, out, Some c) => size (hc_entries c) = 1%nat /\
        match collectHelm exampleHelm 3 helmLifecycle (Some c) [] with
        | Some (rels', out', _) => rels' = rels /\ out' = out
        | None => False
        end
    | _ => False
    end) by (vm_compute; repeat split).
  assert (Hy : match helmListing with Some _ => True | _ => False end) by (vm_compute; exact I).
  destruct helmListing as [[revs errs]|] eqn:El; [clear Hy|destruct Hy].
  assert (H0 : helmCacheOk (fun _ => storedPayload) [] (Some NewHelmCache)) by (left; reflexivity).
  destruct helmFirst as [[[rels out] [c|]]|] eqn:E; [|destruct Hx|destruct Hx]. destruct Hx as [Hsize Hx].
  assert (H1 : helmCacheOk (fun _ => storedPayload) [flaggedSet helmLifecycle] (Some c)).
  { refine (proj2 (helm_cache_transparent (fun _ => storedPayload) exampleHelm 3 helmLifecycle [] (Some NewHelmCache) (Some c) [] rels out revs errs
      H0 _ El _ E)); [intros fl Hfl _; exfalso; apply elem_of_nil in Hfl; exact Hfl|].
    intros k rs r _ _. exact (exampleHelm_honest (mkInstalled k r (cacheKey k r) (cacheGet (cacheKey k r) (cacheBegin (flaggedFingerprint (flaggedSet helmLifecycle)) (Some NewHelmCache)))) [] (flaggedFingerprint (flaggedSet helmLifecycle)) (Some NewHelmCache) H0 eq_refl). }
  destruct (collectHelm exampleHelm 3 helmLifecycle (Some c) []) as [[[rels' out'] cache']|] eqn:E2; [|destruct Hx]. destruct Hx as [-> ->].
  exists rels, out, c, cache'. split; [reflexivity|]. split; [intros E0; rewrite E0 in Hsize; discriminate Hsize|]. split; [exact E2|].
  refine (helm_cache_transparent (fun _ => storedPayload) exampleHelm 3 helmLifecycle [flaggedSet helmLifecycle] (Some c) cache' [] rels out revs errs
    H1 _ El _ E2).
  - intros fl Hfl _. apply list_elem_of_singleton in Hfl. exact Hfl.
  - intros k rs r _ _. exact (exampleHelm_honest (mkInstalled k r (cacheKey k r) (cacheGet (cacheKey k r) (cacheBegin (flaggedFingerprint (flaggedSet helmLifecycle)) (Some c)))) [flaggedSet helmLifecycle] (flaggedFingerprint (flaggedSet helmLifecycle)) (Some c) H1 eq_refl).
Defined.
