(* ===== verification/Collector.v ===== *)
(** * One collection: internal/collect/collector.go

    The steps of a live collection in their order, each under its share of
    the time, what each leaves in the inventory, and the capability its
    outcome becomes. The Helm step is an argument, as is what the apiserver
    answers; a step that does not end makes the collection [None]. *)

From stdpp Require Import base list strings gmap.
From Stdlib Require Import ZArith Lia Ascii.
From S2P Require Import Prelude GoStr GoTime Version Inventory KB Admit Conform Detect Tally PodPass ControlPlane Usage.

(** ** Durations *)

Definition millisecond : Z := 1000000.

(** [Duration.Round] to a positive [m]. *)
Definition Round (d m : Z) : Z :=
  let r := Z.rem (Z.abs d) m in
  let up := if r + r <? m then Z.abs d - r else Z.abs d + m - r in
  if d <? 0 then Z.max (- up) minInt else Z.min up maxInt.

(** A fraction of [prec] digits with its point, without trailing zeros. *)
Fixpoint fractionFrom (prec : nat) (v : Z) (print : bool) (acc : string) : string :=
  match prec with
  | O => if print then String "." acc else acc
  | S prec' =>
      let d := Z.rem v 10 in
      let print := print || negb (d =? 0) in
      fractionFrom prec' (Z.quot v 10) print (if print then String (digit d) acc else acc)
  end.

Definition fraction (v : Z) (prec : nat) : string := fractionFrom prec (Z.rem v (10 ^ Z.of_nat prec)) false "".

(** [Duration.String]. *)
Definition durationString (d : Z) : string :=
  let u := Z.abs d in
  let body :=
    if u =? 0 then "0s"
    else if u <? 1000 then itoa u +:+ "ns"
    else if u <? millisecond then itoa (Z.quot u 1000) +:+ fraction u 3 +:+ bytes [194; 181; 115]%N
    else if u <? second then itoa (Z.quot u millisecond) +:+ fraction u 6 +:+ "ms"
    else
      let s := Z.quot u second in
      let m := Z.quot s 60 in
      let h := Z.quot m 60 in
      (if 0 <? h then itoa h +:+ "h" else "") +:+ (if 0 <? m then itoa (Z.rem m 60) +:+ "m" else "") +:+
      itoa (Z.rem s 60) +:+ fraction u 9 +:+ "s" in
  if d <? 0 then String "-" body else body.

Example seconds : durationString (90 * second) = "1m30s"%string. Proof. reflexivity. Qed.
Example millis : durationString (1500 * 1000) = "1.5ms"%string. Proof. reflexivity. Qed.

Definition roundShare (d : Z) : string := durationString (if second <=? d then Round d second else Round d millisecond).

(** ** The share of a step *)

(** [stepContext]: the time left before the deadline, where there is one,
    over the steps still to run. *)
Definition stepShare (until : option Z) (left : Z) : option Z := (fun u => Z.quot u left) <$> until.

(** What a step met: the time left as it began, and, as it ended, whether
    the scan was cancelled and whether the step's own deadline had passed. *)
Record stepEnv := mkStepEnv { se_until : option Z; se_cancelled : bool; se_expired : bool }.

Definition stepNote (share : option Z) (e : stepEnv) : string :=
  if negb (se_cancelled e) && se_expired e
  then " (step deadline: gave up after " +:+ roundShare (default 0 share) +:+ ", this step's share of the scan's time)" else "".

(** The capability an outcome becomes. *)
Definition statusOf (err : option stepError) (note : string) : CapabilityStatus :=
  match err with
  | None => mkCapabilityStatus true "" false []
  | Some (StepPartial msg skipped) => mkCapabilityStatus true (msg +:+ note) true skipped
  | Some (StepNoted msg) => mkCapabilityStatus true (msg +:+ note) false []
  | Some (StepFailed msg) => mkCapabilityStatus false (msg +:+ note) false []
  end.

(** ** The steps *)

(** What the steps share: the inventory, the kube-system pods the versions
    step listed, the scanner's own deprecated lists, and the pod pass. *)
Record collection := mkCollection {
  cn_inv : Inventory;
  cn_sys : option (addOnEvidence * gmap string VolumePluginUse);
  cn_self : selfCalls;
  cn_pass : passCache;
}.

Definition with_inv (f : Inventory -> Inventory) (c : collection) : collection := mkCollection (f (cn_inv c)) (cn_sys c) (cn_self c) (cn_pass c).

Definition setCapability (cap : string) (st : CapabilityStatus) (inv : Inventory) : Inventory :=
  with_Capabilities (<[cap := st]> (Capabilities inv)) inv.

Record step := mkStep { st_cap : string; st_run : collection -> option (collection * option stepError) }.

(** The loop of [runSteps], from the [i]-th step on. *)
Fixpoint runFrom (env : nat -> stepEnv) (i : nat) (ss : list step) (c : collection) : option collection :=
  match ss with
  | [] => Some c
  | s :: rest =>
      match st_run s c with
      | None => None
      | Some (c, err) =>
          let share := stepShare (se_until (env i)) (zlen ss) in
          runFrom env (S i) rest (with_inv (setCapability (st_cap s) (statusOf err (stepNote share (env i)))) c)
      end
  end.

(** Which clients are configured. *)
Record clients := mkClients { cl_Kube : bool; cl_Metadata : bool; cl_Discovery : bool; cl_RESTClient : bool; cl_APIExtensions : bool }.

(** The apiserver, as one collection meets it. *)
Record cluster := mkCluster {
  cu_versions : versionsAPI;
  cu_addons : apiserver;
  cu_discovery : discoveryAnswer;
  cu_meta : string * string * string -> nat -> string -> listAnswer objectMeta;
  cu_crds : nat -> string -> listAnswer crdObject;
  cu_metrics : metricsAnswer;
}.

Definition setVersions (r : versionsRead) (inv : Inventory) : Inventory :=
  mkInventory (SchemaVersion inv) (vr_ClusterID r) (CollectorSchema inv) (Source inv) (CollectedAt inv) (vr_ServerVersion r)
    (vr_Provider r) (Capabilities inv) (APIUsages inv) (DeprecatedCalls inv) (HelmReleases inv) (GitOpsCharts inv) (AddOns inv)
    (vr_Nodes r) (vr_ControlPlane r) (vr_Namespaces r) (UnrecognizedImages inv) (UnrecognizedImagesOmitted inv) (CRDs inv)
    (APIAuthorshipUnknown inv) (APIServerStartTime inv) (AddOnEvidenceAgeSeconds inv) (VolumePlugins inv).

Definition setAddOns (r : addOnsRead) (inv : Inventory) : Inventory :=
  mkInventory (SchemaVersion inv) (ClusterID inv) (CollectorSchema inv) (Source inv) (CollectedAt inv) (ServerVersion inv)
    (Provider inv) (<[CapVolumes := ar_VolumesStatus r]> (Capabilities inv)) (APIUsages inv) (DeprecatedCalls inv) (HelmReleases inv)
    (GitOpsCharts inv) (ar_AddOns r) (Nodes inv) (ControlPlane inv) (Namespaces inv) (ar_Unrecognized r) (ar_UnrecognizedOmitted r)
    (CRDs inv) (APIAuthorshipUnknown inv) (APIServerStartTime inv) (ar_Age r) (ar_Volumes r).

Definition setStartTime (sec : option Z) (inv : Inventory) : Inventory :=
  match sec with
  | None => inv
  | Some s =>
      mkInventory (SchemaVersion inv) (ClusterID inv) (CollectorSchema inv) (Source inv) (CollectedAt inv) (ServerVersion inv)
        (Provider inv) (Capabilities inv) (APIUsages inv) (DeprecatedCalls inv) (HelmReleases inv) (GitOpsCharts inv) (AddOns inv)
        (Nodes inv) (ControlPlane inv) (Namespaces inv) (UnrecognizedImages inv) (UnrecognizedImagesOmitted inv) (CRDs inv)
        (APIAuthorshipUnknown inv) (s * second) (AddOnEvidenceAgeSeconds inv) (VolumePlugins inv)
  end.

Section Steps.
Context `{SemverOrder} `{KubeAware} `{Content} `{Unicode}.
Context (vps : volumePlugins) (applied : string -> option string) (parseGV : string -> option (string * string)).
Context (helm : Inventory -> option (list HelmRelease * list GitOpsChart * option stepError)).
Context (cl : clients) (api : cluster) (k : KB) (teamLabel : string) (fuel : nat) (passNow passStart : Time).

Definition noClient (what : string) (c : collection) : option (collection * option stepError) :=
  Some (c, Some (StepFailed (what +:+ " client not configured"))).

Definition versionsStep (c : collection) : option (collection * option stepError) :=
  if negb (cl_Kube cl) || negb (cl_Discovery cl) then noClient "kubernetes" c
  else match collectVersionsFrom vps teamLabel (cu_versions api) fuel with
       | None => None
       | Some r => Some (mkCollection (setVersions r (cn_inv c)) (vr_sysPods r) (cn_self c) (cn_pass c), vr_error r)
       end.

Definition helmStep (c : collection) : option (collection * option stepError) :=
  if negb (cl_Kube cl) || negb (cl_Metadata cl) then noClient "kubernetes/metadata" c
  else match helm (cn_inv c) with
       | None => None
       | Some (rels, charts, err) => Some (with_inv (fun inv => with_GitOpsCharts charts (with_HelmReleases rels inv)) c, err)
       end.

Definition addOnsStep (c : collection) : option (collection * option stepError) :=
  if negb (cl_Kube cl)
  then noClient "kubernetes" (with_inv (setCapability CapVolumes (mkCapabilityStatus false "kubernetes client not configured" false [])) c)
  else
    let inv := cn_inv c in
    let helmRead := match Capabilities inv !! CapHelm with Some st => cs_Available st | None => false end in
    match collectAddOnsFrom vps (k_AddOns k) (HelmReleases inv) (GitOpsCharts inv) helmRead (cn_sys c) (cu_addons api) fuel passNow passStart (cn_pass c) with
    | None => None
    | Some (r, pass) => Some (mkCollection (setAddOns r inv) (cn_sys c) (cn_self c) pass, ar_Error r)
    end.

Definition apiUsageStep (c : collection) : option (collection * option stepError) :=
  if negb (cl_Discovery cl) || negb (cl_Metadata cl) then noClient "discovery/metadata" c
  else match collectAPIUsage applied parseGV (k_APILifecycle k) (cu_discovery api) (cu_meta api) fuel with
       | None => None
       | Some (set, self, err) =>
           let inv := match set with
             | Some (usages, unknowns) => with_APIAuthorshipUnknown unknowns (with_APIUsages usages (cn_inv c))
             | None => cn_inv c
             end in
           Some (mkCollection inv (cn_sys c) self (cn_pass c), err)
       end.

Definition crdsStep (c : collection) : option (collection * option stepError) :=
  if negb (cl_APIExtensions cl) || negb (cl_Metadata cl) then noClient "apiextensions/metadata" c
  else match collectCRDs applied (cu_crds api) (cu_meta api) fuel with
       | None => None
       | Some (set, err) => Some (match set with Some crds => with_inv (with_CRDs crds) c | None => c end, err)
       end.

Definition deprecatedCallsStep (c : collection) : option (collection * option stepError) :=
  if negb (cl_RESTClient cl) then noClient "rest" c
  else
    let '(start, calls, err) := collectDeprecatedCalls (cu_metrics api) (cn_self c) in
    Some (with_inv (fun inv => setStartTime start (match calls with Some cs => with_DeprecatedCalls inv cs | None => inv end)) c, err).

Definition steps : list step :=
  [ mkStep CapVersions versionsStep; mkStep CapHelm helmStep; mkStep CapAddOns addOnsStep;
    mkStep CapAPIUsage apiUsageStep; mkStep CapCRDs crdsStep; mkStep CapDeprecatedCalls deprecatedCallsStep ].

Definition emptyInventory (now : Time) : Inventory :=
  mkInventory 1 "" CurrentCollectorSchema SourceCluster now "" "" ∅ [] [] [] [] [] [] [] [] [] 0 [] [] 0 0 [].

(** [runSteps]: the steps, and then the repair of what the server would
    refuse. *)
Definition runSteps (env : nat -> stepEnv) (c : collection) : option (list string * Inventory * passCache) :=
  match runFrom env 0 steps c with
  | None => None
  | Some c => let '(notes, _, inv) := Conform (cn_inv c) in Some (notes, inv, cn_pass c)
  end.

Definition Collect (env : nat -> stepEnv) (now : Time) (pass : passCache) : option (list string * Inventory * passCache) :=
  runSteps env (mkCollection (emptyInventory now) None (unknownSelfCalls (k_APILifecycle k) None) pass).
End Steps.
