(* ===== verification/CollectorSpec.v ===== *)
(** * From the apiserver to the verdict

    What a collection could not read, and what it found written through a
    removed API, keeps the report from being ready; and no step can starve
    another of its time. *)

From stdpp Require Import base list strings gmap.
From Stdlib Require Import ZArith Lia Ascii.
From S2P Require Import Prelude GoStr GoTime Version Inventory KB Findings Calls AddOns Skew Gaps Crd Evaluate Admit Conform Detect DetectSpec Tally PodPass PodPassSpec ControlPlane Usage Collector.

(** ** Time *)

(** The shares of the steps from time [t] on, each step using what it does. *)
Fixpoint sharesFrom (deadline t : Z) (uses : list Z) : list Z :=
  match uses with
  | [] => []
  | u :: rest => default 0 (stepShare (Some (deadline - t)) (zlen uses)) :: sharesFrom deadline (t + u) rest
  end.

(** No step starves another: as long as each ends within its share, every
    step of a scan has at least an equal part of the scan's time, and they
    all end by the deadline. *)
Lemma shares_fair (deadline t : Z) (uses : list Z) :
  t <= deadline -> Forall2 (fun u share => 0 <= u <= share) uses (sharesFrom deadline t uses) ->
  Forall (fun share => Z.quot (deadline - t) (zlen uses) <= share) (sharesFrom deadline t uses) /\ t + foldr Z.add 0 uses <= deadline.
Proof.
  revert t. induction uses as [|u uses IH]; intros t Ht; cbn [sharesFrom]; [intros _; split; [constructor|cbn; lia]|].
  intros [Hu Hrest]%Forall2_cons. cbn [stepShare fmap option_fmap option_map default] in *. unfold id in *.
  assert (Hn : 0 < zlen (u :: uses)) by (unfold zlen; cbn; lia).
  set (n := zlen (u :: uses)) in *. assert (En : zlen uses = n - 1) by (unfold n, zlen; cbn; lia).
  assert (Eq : Z.quot (deadline - t) n = (deadline - t) / n) by (apply Z.quot_div_nonneg; lia). rewrite Eq in Hu |- *.
  pose proof (Z.mul_div_le (deadline - t) n Hn) as Hle. assert (Hq : 0 <= (deadline - t) / n) by (apply Z.div_pos; lia).
  set (q := (deadline - t) / n) in *. clearbody q. assert (Ht' : t + u <= deadline) by nia.
  destruct (IH (t + u) Ht' Hrest) as [Hall Hend]. split.
  - constructor; [lia|]. destruct uses as [|u' uses]; [constructor|]. assert (1 < n) by (unfold n, zlen; cbn; lia).
    eapply Forall_impl; [exact Hall|]. cbn beta. intros share Hs. etrans; [|exact Hs]. rewrite En, Z.quot_div_nonneg by lia.
    apply Z.div_le_lower_bound; [lia|]. nia.
  - cbn [foldr]. lia.
Qed.

(** ** What a repair keeps of a capability *)

(** A status that says no less is missing. *)
Record noMoreThan (st st' : CapabilityStatus) : Prop := {
  nm_available : cs_Available st' = cs_Available st;
  nm_partial : cs_Partial st = true -> cs_Partial st' = true;
  nm_some : cs_Skipped st <> [] -> cs_Skipped st' <> [];
  nm_skipped x : x ∈ cs_Skipped st -> slen x <= MaxStringBytes -> x ∈ cs_Skipped st';
}.

Definition kept (inv : Inventory) : string * gmap string CapabilityStatus := (Source inv, Capabilities inv).

Section Repair.
Context `{Content} `{Unicode}.

Lemma conformHelm_kept inv r : kept (conformHelm inv r).1 = kept inv.
Proof. unfold conformHelm. by destruct (foldl _ _ _). Qed.

Lemma conformAddOns_kept inv r : kept (conformAddOns inv r).1 = kept inv.
Proof. unfold conformAddOns. by destruct (foldl _ _ _). Qed.

Lemma conformImages_kept inv r : kept (conformImages inv r).1 = kept inv.
Proof. unfold conformImages. destruct (foldl _ _ _) as [[? ?] ?]. by destruct (0 <? _). Qed.

Lemma conformVolumes_kept inv r : kept (conformVolumes inv r).1 = kept inv.
Proof. unfold conformVolumes. destruct (foldl _ _ _). by destruct (_ <? _). Qed.

Lemma conformLists_kept inv : kept (conformLists inv).1 = kept inv.
Proof.
  unfold conformLists. pose proof (conformHelm_kept inv noRepairs) as K1. destruct (conformHelm _ _) as [inv1 r1]. simpl in K1.
  destruct (conformUsages _ _ _) as [us r2]. destruct (conformUsages _ _ _) as [us' r3]. destruct (foldl conformCRD _ _) as [crds r4].
  set (inv2 := with_CRDs _ _). pose proof (conformAddOns_kept inv2 r4) as K2. destruct (conformAddOns _ _) as [inv3 r5]. simpl in K2.
  pose proof (conformImages_kept inv3 r5) as K3. destruct (conformImages _ _) as [inv4 r6]. simpl in K3.
  rewrite conformVolumes_kept, K3, K2. exact K1.
Qed.

Lemma dropElement_kept e inv r inv' r' : dropElement e inv r = Some (inv', r') -> kept inv' = kept inv.
Proof.
  unfold dropElement, dropUsage. destruct (fieldOf e); [|done]. destruct (_ =s "provider"); [by intros [= <- <-]|].
  destruct (elementOf _) as [[list i]|]; [|done].
  repeat match goal with
  | |- context [if list =s ?f then _ else _] => destruct (list =s f);
      [intros (x & rest & Heq)%dropAt_Some; injection Heq as -> ->; reflexivity|]
  end. done.
Qed.

Lemma dropRefused_kept n inv r : kept (dropRefused n inv r).1.2 = kept inv.
Proof.
  revert inv r. induction n as [|n IH]; intros inv r; simpl; destruct (checkAdmissible inv) as [e|]; try done.
  destruct (dropElement e inv r) as [[inv' r']|] eqn:E; [|done]. rewrite IH. by eapply dropElement_kept.
Qed.

Lemma noMoreThan_refl st : noMoreThan st st.
Proof. split; auto. Qed.

Lemma noMoreThan_trans st1 st2 st3 : noMoreThan st1 st2 -> noMoreThan st2 st3 -> noMoreThan st1 st3.
Proof. intros [H1 H2 H3 H4] [H5 H6 H7 H8]. split; [congruence|auto|auto|eauto]. Qed.

Lemma cutStatus_noMore st : noMoreThan st (cutStatus st).1.
Proof.
  unfold cutStatus, cutAll. destruct (cutTo _ _ _) as [reason a]. split; cbn; [done|done|intros Hs; by destruct (cs_Skipped st)|].
  intros x Hx Hl. apply list_elem_of_In, in_map_iff. exists x. split; [|by apply list_elem_of_In]. unfold cutTo, cutText.
  by rewrite (proj2 (Z.leb_le _ _) Hl).
Qed.

Lemma repaired_noMore note skipped st : noMoreThan st (repairedStatus note skipped st).
Proof.
  assert (Hin : forall x, x ∈ cs_Skipped st -> x ∈ compact (sort_strings (cs_Skipped st ++ skipped)))
    by (intros x Hx; apply compact_in, sort_strings_elem; set_solver).
  unfold repairedStatus. split; cbn; [done|done| |auto]. intros Hs Hc. destruct (cs_Skipped st) as [|x l]; [done|].
  specialize (Hin x ltac:(by left)). rewrite Hc in Hin. by apply elem_of_nil in Hin.
Qed.

(** The statuses of a map, one by one. *)
Definition capsNoMore (m m' : gmap string CapabilityStatus) : Prop := forall c st, m !! c = Some st -> exists st', m' !! c = Some st' /\ noMoreThan st st'.

Lemma applyRepair_caps r acc c : capsNoMore acc.2 (applyRepair r acc c).2.
Proof.
  destruct acc as [lines caps]. unfold applyRepair. destruct (repairNote _) as [note skipped]. cbn. intros c' st Hst.
  destruct (caps !! c) as [st0|] eqn:E; [|eauto using noMoreThan_refl]. destruct (cs_Available st0); [|eauto using noMoreThan_refl].
  destruct (decide (c = c')) as [-> |Hne]; [rewrite lookup_insert_eq|rewrite lookup_insert_ne by done; eauto using noMoreThan_refl].
  eexists. split; [done|]. assert (st = st0) as -> by congruence. apply repaired_noMore.
Qed.

Lemma capsNoMore_trans m1 m2 m3 : capsNoMore m1 m2 -> capsNoMore m2 m3 -> capsNoMore m1 m3.
Proof. intros H1 H2 c st (st' & Hst' & Hn)%H1. destruct (H2 c st' Hst') as (st2 & ? & ?). eauto using noMoreThan_trans. Qed.

Lemma applyRepairs_caps r inv : Source (applyRepairs r inv).2 = Source inv /\ capsNoMore (Capabilities inv) (Capabilities (applyRepairs r inv).2).
Proof.
  unfold applyRepairs. assert (Hc : forall l acc, capsNoMore acc.2 (foldl (applyRepair r) acc l).2).
  { induction l as [|c l IH]; intros acc; cbn; [intros c st ?; eauto using noMoreThan_refl|]. eapply capsNoMore_trans; [apply applyRepair_caps|apply IH]. }
  specialize (Hc (rp_ordered r) ([], Capabilities inv)). by destruct (foldl _ _ _) as [lines caps].
Qed.

Lemma CutFreeText_caps inv : Source (CutFreeText inv).1 = Source inv /\ capsNoMore (Capabilities inv) (Capabilities (CutFreeText inv).1).
Proof.
  split; [done|]. intros c st Hst. exists (cutStatus st).1. split; [|apply cutStatus_noMore].
  unfold CutFreeText. cbn. by rewrite lookup_fmap, Hst.
Qed.

(** The repair of an inventory never makes a gap look smaller. *)
Lemma Conform_caps inv : Source (Conform inv).2 = Source inv /\ capsNoMore (Capabilities inv) (Capabilities (Conform inv).2).
Proof.
  unfold Conform. destruct (CutFreeText_caps inv) as [S1 C1]. pose proof (conformLists_kept (CutFreeText inv).1) as K1.
  destruct (conformLists _) as [inv1 r1]. cbn [fst] in K1. pose proof (dropRefused_kept maxFallbackDrops inv1 r1) as K2.
  destruct (dropRefused _ _ _) as [[err inv2] r2]. cbn [fst snd] in K2. rewrite K1 in K2. assert (Source inv2 = Source (CutFreeText inv).1 /\ Capabilities inv2 = Capabilities (CutFreeText inv).1) as [Es Ec] by (unfold kept in K2; split; congruence).
  destruct (applyRepairs_caps r2 inv2) as [S2 C2]. destruct (applyRepairs r2 inv2) as [notes inv3]. cbn [fst snd] in S2, C2 |- *.
  destruct (CutFreeText_caps inv3) as [S3 C3]. rewrite S3, S2, Es, S1. split; [done|].
  eapply capsNoMore_trans; [exact C1|]. rewrite <- Ec. eapply capsNoMore_trans; [exact C2|exact C3].
Qed.

(** ** A collection that needed no repair *)

(** Every capability with repairs is on the list of their order. *)
Definition registered (r : repairs) : Prop := forall c, is_Some (rp_byCap r !! c) -> c ∈ rp_ordered r.

Lemma repairsOf_registered c r : registered r -> registered (repairsOf c r).2 /\ c ∈ rp_ordered (repairsOf c r).2.
Proof.
  intros Hr. unfold repairsOf. destruct (rp_byCap r !! c) as [cr|] eqn:E; cbn; [split; [done|apply Hr; eauto]|]. split; [|set_solver].
  intros c'. cbn. rewrite lookup_insert. case_decide as Ec; [set_solver|]. intros ?%Hr. set_solver.
Qed.

Lemma put_registered c cr r : registered r -> c ∈ rp_ordered r -> registered (put c cr r) /\ c ∈ rp_ordered (put c cr r).
Proof. intros Hr Hc. split; [|done]. intros c'. cbn. rewrite lookup_insert. case_decide as Ec; [by rewrite <- Ec|apply Hr]. Qed.

Lemma skip_registered c what r : registered r -> registered (skip c what r) /\ c ∈ rp_ordered (skip c what r).
Proof.
  intros Hr. unfold skip. pose proof (repairsOf_registered c r Hr) as [H1 H2]. destruct (repairsOf c r) as [cr r']. cbn in H1, H2.
  destruct (bool_decide _); [done|]. by apply put_registered.
Qed.

Lemma addRepair_registered c note skipped r : registered r -> registered (addRepair c note skipped r) /\ c ∈ rp_ordered (addRepair c note skipped r).
Proof.
  intros Hr. unfold addRepair. pose proof (repairsOf_registered c r Hr) as [H1 H2]. destruct (repairsOf c r) as [cr r']. cbn in H1, H2.
  cbv zeta. set (r2 := put _ _ _). assert (registered r2 /\ c ∈ rp_ordered r2) as [H3 H4] by (by apply put_registered).
  destruct (skipped =s ""); [done|]. by apply skip_registered.
Qed.

Lemma foldl_invariant {A B} (P : A -> Prop) (f : A -> B -> A) l a : (forall a b, P a -> P (f a b)) -> P a -> P (foldl f a l).
Proof. intros Hf. revert a. induction l as [|b l IH]; intros a Ha; cbn; [done|]. apply IH. auto. Qed.

Lemma conformRefs_registered counts objs omitted c what r : registered r -> registered (conformRefs counts objs omitted c what r).2.
Proof.
  intros Hr. unfold conformRefs. set (r1 := foldl _ r _). assert (H1 : registered r1).
  { apply foldl_invariant; [|done]. intros a b Ha. by apply addRepair_registered. }
  clearbody r1. assert (H2 : registered (foldl (keepRef c what) ([], omitted, r1) objs).2).
  { apply (foldl_invariant (fun a => registered a.2)); [|done]. intros [[kept om] r2] o Ha. unfold keepRef. cbn in Ha |- *.
    destruct (objectProblem o =s ""); [done|]. by apply addRepair_registered. }
  destruct (foldl (keepRef c what) _ _) as [[kept om] r2]. cbn in H2. destruct (0 <? _); cbn; [by apply addRepair_registered|done].
Qed.

Lemma conformUsages_registered us c r : registered r -> registered (conformUsages us c r).2.
Proof.
  intros Hr. apply (foldl_invariant (fun a => registered a.2)); [|done]. intros [us' r'] u Ha. unfold conformUsage.
  pose proof (conformRefs_registered (u_Namespaces u) (u_Objects u) (u_ObjectsOmitted u) c "API usage" r' Ha) as Hx.
  by destruct (conformRefs _ _ _ _ _ _) as [[[? ?] ?] ?].
Qed.

Lemma conformHelm_registered inv r : registered r -> registered (conformHelm inv r).2.
Proof.
  intros Hr. unfold conformHelm. assert (Hx : registered (foldl conformRelease ([], r) (HelmReleases inv)).2).
  { apply (foldl_invariant (fun a => registered a.2)); [|done]. intros [kept r'] rel Ha. unfold conformRelease. cbn in Ha.
    destruct (releaseProblem rel =s ""); [|by apply addRepair_registered]. pose proof (conformUsages_registered (h_ManifestAPIs rel) CapHelm r' Ha) as Hu.
    destruct (conformUsages _ _ _) as [us r2]. cbn in Hu |- *. destruct (_ =? _); [done|]. by apply skip_registered. }
  by destruct (foldl _ _ _).
Qed.

Lemma conformCRDs_registered crds r : registered r -> registered (foldl conformCRD ([], r) crds).2.
Proof.
  intros Hr. apply (foldl_invariant (fun a => registered a.2)); [|done]. intros [kept r'] c Ha. unfold conformCRD.
  pose proof (conformUsages_registered (crd_Usage c) CapCRDs r' Ha) as Hu. by destruct (conformUsages _ _ _).
Qed.

Lemma conformAddOns_registered inv r : registered r -> registered (conformAddOns inv r).2.
Proof.
  intros Hr. unfold conformAddOns. assert (Hx : registered (foldl conformAddOn ([], r) (AddOns inv)).2).
  { apply (foldl_invariant (fun a => registered a.2)); [|done]. intros [kept r'] a Ha. unfold conformAddOn.
    destruct (existsb _ _); [by apply addRepair_registered|done]. }
  by destruct (foldl _ _ _).
Qed.

Lemma conformImages_registered inv r : registered r -> registered (conformImages inv r).2.
Proof.
  intros Hr. unfold conformImages. assert (Hx : registered (foldl conformImage ([], UnrecognizedImagesOmitted inv, r) (UnrecognizedImages inv)).2).
  { apply (foldl_invariant (fun a => registered a.2)); [|done]. intros [[kept om] r'] a Ha. unfold conformImage.
    destruct (overLimit a); [by apply addRepair_registered|done]. }
  destruct (foldl _ _ _) as [[? ?] r2]. destruct (0 <? _); [by apply addRepair_registered|done].
Qed.

Lemma conformVolumes_registered inv r : registered r -> registered (conformVolumes inv r).2.
Proof.
  intros Hr. unfold conformVolumes. assert (Hx : registered (foldl conformVolume ([], r) (VolumePlugins inv)).2).
  { apply (foldl_invariant (fun a => registered a.2)); [|done]. intros [vs r'] v Ha. unfold conformVolume.
    pose proof (conformRefs_registered (vu_Namespaces v) (vu_Objects v) (vu_ObjectsOmitted v) CapVolumes "volume plugin use" r' Ha) as Hx.
    by destruct (conformRefs _ _ _ _ _ _) as [[[? ?] ?] ?]. }
  destruct (foldl _ _ _) as [vs r2]. destruct (_ <? _); cbn; [|done]. apply foldl_invariant; [|done]. intros a b Ha. by apply addRepair_registered.
Qed.

(** The lists keep the APIs of the usages, and register their repairs. *)
Lemma conformLists_apis inv : map apiOf (APIUsages (conformLists inv).1) = map apiOf (APIUsages inv) /\ registered (conformLists inv).2.
Proof.
  unfold conformLists. assert (R0 : registered noRepairs) by (intros c [? Hc]; change (rp_byCap noRepairs) with (∅ : gmap string capRepairs) in Hc; by rewrite lookup_empty in Hc).
  pose proof (conformHelm_registered inv _ R0) as R1. assert (U1 : APIUsages (conformHelm inv noRepairs).1 = APIUsages inv).
  { unfold conformHelm. by destruct (foldl _ _ _). }
  destruct (conformHelm _ _) as [inv1 r1]. cbn in R1, U1.
  assert (Hu : Forall2 repaired_entry (APIUsages inv1) (conformUsages (APIUsages inv1) CapAPIUsage r1).1).
  { unfold conformUsages. by destruct (conformUsages_entries (APIUsages inv1) CapAPIUsage [] r1) as (us' & -> & Hus). }
  pose proof (conformUsages_registered (APIUsages inv1) CapAPIUsage r1 R1) as R2.
  destruct (conformUsages (APIUsages inv1) _ _) as [us r2]. cbn in R2, Hu. pose proof (conformUsages_registered (APIAuthorshipUnknown (with_APIUsages us inv1)) CapAPIUsage r2 R2) as R3.
  destruct (conformUsages _ _ r2) as [us' r3]. cbn [snd] in R3.
  pose proof (conformCRDs_registered (CRDs (with_APIAuthorshipUnknown us' (with_APIUsages us inv1))) r3 R3) as R4.
  destruct (foldl conformCRD _ _) as [crds r4]. cbn in R4. set (inv2 := with_CRDs _ _).
  pose proof (conformAddOns_registered inv2 r4 R4) as R5. assert (U2 : APIUsages (conformAddOns inv2 r4).1 = us) by (unfold conformAddOns; by destruct (foldl _ _ _)).
  destruct (conformAddOns _ _) as [inv3 r5]. cbn in R5, U2. pose proof (conformImages_registered inv3 r5 R5) as R6.
  assert (U3 : APIUsages (conformImages inv3 r5).1 = APIUsages inv3) by (unfold conformImages; destruct (foldl _ _ _) as [[? ?] ?]; by destruct (0 <? _)).
  destruct (conformImages _ _) as [inv4 r6]. cbn in R6, U3. split; [|by apply conformVolumes_registered].
  assert (U4 : APIUsages (conformVolumes inv4 r6).1 = APIUsages inv4) by (unfold conformVolumes; destruct (foldl _ _ _); by destruct (_ <? _)).
  rewrite U4, U3, U2, <- U1. clear -Hu. induction Hu as [|u u' l l' [(H1 & H2 & H3 & _)] Hl IH]; cbn; [done|].
  unfold apiOf at 1 3. by rewrite H1, H2, H3, IH.
Qed.

Lemma dropElement_repairs e inv r inv' r' : dropElement e inv r = Some (inv', r') -> registered r -> registered r' /\ rp_ordered r' <> [].
Proof.
  intros Hd Hr. assert (exists c note s, r' = addRepair c note s r) as (c & note & s & ->).
  { revert Hd. unfold dropElement, dropUsage. destruct (fieldOf e); [|done]. destruct (_ =s "provider"); [intros [= <- <-]; eauto|].
    destruct (elementOf _) as [[list i]|]; [|done].
    repeat match goal with
    | |- context [if list =s ?f then _ else _] => destruct (list =s f);
        [intros (x & rest & Heq)%dropAt_Some; injection Heq as -> ->; eauto|]
    end. done. }
  destruct (addRepair_registered c note s r Hr) as [? Hin]. split; [done|]. intros E. rewrite E in Hin. by apply elem_of_nil in Hin.
Qed.

Lemma dropRefused_none n inv r :
  registered r -> (rp_ordered r <> [] -> rp_ordered (dropRefused n inv r).2 <> []) /\
  (rp_ordered (dropRefused n inv r).2 = [] -> (dropRefused n inv r).1.2 = inv).
Proof.
  revert inv r. induction n as [|n IH]; intros inv r Hr; cbn; destruct (checkAdmissible inv) as [e|]; try done.
  destruct (dropElement e inv r) as [[inv' r']|] eqn:E; [|done]. destruct (dropElement_repairs _ _ _ _ _ E Hr) as [Hr' Hne].
  destruct (IH inv' r' Hr') as [H1 _]. specialize (H1 Hne). done.
Qed.

Lemma applyRepairs_notes r inv : length (applyRepairs r inv).1 = length (rp_ordered r) /\ APIUsages (applyRepairs r inv).2 = APIUsages inv.
Proof.
  unfold applyRepairs. assert (Hl : forall l acc, length (foldl (applyRepair r) acc l).1 = (length acc.1 + length l)%nat).
  { induction l as [|c l IH]; intros [lines caps]; cbn; [lia|]. rewrite IH. unfold applyRepair. destruct (repairNote _). cbn. rewrite length_app. cbn. lia. }
  specialize (Hl (rp_ordered r) ([], Capabilities inv)). by destruct (foldl _ _ _).
Qed.

Lemma CutFreeText_apis inv : map apiOf (APIUsages (CutFreeText inv).1) = map apiOf (APIUsages inv).
Proof. unfold CutFreeText. cbn. rewrite List.map_map. apply List.map_ext. intros u. unfold cutUsage. by destruct (cutAll cutRef (u_Objects u)). Qed.

(** With nothing to say of its repair, an inventory has the APIs it had. *)
Lemma Conform_apis inv err inv' : Conform inv = ([], err, inv') -> map apiOf (APIUsages inv') = map apiOf (APIUsages inv).
Proof.
  unfold Conform. destruct (conformLists_apis (CutFreeText inv).1) as [Ha Hr]. destruct (conformLists _) as [inv1 r1]. cbn [fst snd] in Ha, Hr.
  pose proof (dropRefused_none maxFallbackDrops inv1 r1 Hr) as [_ Hd]. destruct (dropRefused _ _ _) as [[err0 inv2] r2]. cbn [fst snd] in Hd.
  destruct (applyRepairs_notes r2 inv2) as [Hl Hu]. destruct (applyRepairs r2 inv2) as [notes inv3]. cbn [fst snd] in Hl, Hu.
  intros Heq. assert (inv' = (CutFreeText inv3).1 /\ notes = []) as [-> ->] by (split; congruence). rewrite CutFreeText_apis, Hu. rewrite Hd by (by destruct (rp_ordered r2)). by rewrite Ha, CutFreeText_apis.
Qed.
End Repair.

(** ** The run of the steps *)

Lemma runFrom_cons env i s ss c c' :
  runFrom env i (s :: ss) c = Some c' ->
  exists c1 err note, st_run s c = Some (c1, err) /\ runFrom env (S i) ss (with_inv (setCapability (st_cap s) (statusOf err note)) c1) = Some c'.
Proof. cbn. destruct (st_run s c) as [[c1 err]|]; [|done]. eauto 6. Qed.

(** A property of the inventory that a step, and its capability, keep. *)
Definition keeps (P : Inventory -> Prop) (s : step) : Prop :=
  forall c c1 err st, P (cn_inv c) -> st_run s c = Some (c1, err) -> P (setCapability (st_cap s) st (cn_inv c1)).

Lemma runFrom_keeps P env i ss c c' : Forall (keeps P) ss -> P (cn_inv c) -> runFrom env i ss c = Some c' -> P (cn_inv c').
Proof.
  intros Hs. revert i c. induction Hs as [|s ss Hk Hs IH]; intros i c Hc; [by intros [= <-]|].
  intros (c1 & err & note & Hr & Hrest)%runFrom_cons. eapply IH; [|exact Hrest]. by eapply Hk.
Qed.

(** An outcome the engine takes for a required gap. *)
Definition gap (err : option stepError) : Prop :=
  match err with Some (StepFailed _) => True | Some (StepPartial _ skipped) => skipped <> [] | _ => False end.

Lemma withNoNodes_gap err : gap (Some (withNoNodes err)).
Proof.
  destruct err as [[|msg skipped|]|]; try done. cbn. intros Hs.
  assert ("nodes"%string ∈ sort_strings (skipped ++ ["nodes"%string])) as Hin by (apply sort_strings_elem; set_solver).
  rewrite Hs in Hin. by apply elem_of_nil in Hin.
Qed.

Lemma foldl_nodes nodes st : foldl addNodeRow st nodes = (st.1 ++ map nodeInfo nodes, foldl addNode st.2 nodes).
Proof.
  revert st. induction nodes as [|n nodes IH]; intros [rows e]; cbn; [by rewrite app_nil_r|]. rewrite IH. cbn. by rewrite <- app_assoc.
Qed.

Lemma not_files : SourceCluster <> SourceFiles.
Proof. done. Qed.

(** Steps keep what they do not write. *)
Ltac step_keeps := let c := fresh in let c1 := fresh in let err := fresh in let st := fresh in let HP := fresh "HP" in let Hrun := fresh "Hrun" in
  intros c c1 err st; cbn [st_run st_cap];
  unfold versionsStep, helmStep, addOnsStep, apiUsageStep, crdsStep, deprecatedCallsStep, noClient, setStartTime;
  intros HP Hrun; repeat (case_match; simplify_eq/=); try done;
  unfold setCapability, setAddOns; cbn; rewrite ?lookup_insert_ne by done; naive_solver.

Section Verdict.
Context `{SemverOrder} `{KubeAware} `{Content} `{Unicode}.
Context (vps : volumePlugins) (applied : string -> option string) (parseGV : string -> option (string * string)).
Context (helm : Inventory -> option (list HelmRelease * list GitOpsChart * option stepError)).
Context (cl : clients) (api : cluster) (k : KB) (teamLabel : string) (fuel : nat) (passNow passStart : Time).

Abbreviation collect := (Collect vps applied parseGV helm cl api k teamLabel fuel passNow passStart) (only parsing).

Definition hasStatus (cap : string) (st : CapabilityStatus) (inv : Inventory) : Prop :=
  Source inv = SourceCluster /\ Capabilities inv !! cap = Some st.

Lemma versions_kept st :
  Forall (keeps (hasStatus CapVersions st))
    [mkStep CapHelm (helmStep helm cl); mkStep CapAddOns (addOnsStep vps cl api k fuel passNow passStart);
     mkStep CapAPIUsage (apiUsageStep applied parseGV cl api k fuel); mkStep CapCRDs (crdsStep applied cl api fuel);
     mkStep CapDeprecatedCalls (deprecatedCallsStep cl api)].
Proof. unfold hasStatus. do 5 (apply Forall_cons_2; [step_keeps|]). apply Forall_nil_2. Qed.

(** ** Versions that were not read *)

(** The versions of a cluster are not all known: a call or a list failed,
    no node is listed, or a control-plane pod tells no version although
    upstream's image would. *)
Inductive versionsUnread (va : versionsAPI) : Prop :=
| unread_version e : va_version va = Err e -> versionsUnread va
| unread_cluster e : va_kubeSystem va = Err e -> versionsUnread va
| unread_nodes : listed (va_nodes va) fuel 0 "" = None -> versionsUnread va
| unread_namespaces : listed (va_namespaces va) fuel 0 "" = None -> versionsUnread va
| unread_pods : listed (va_pods va) fuel 0 "" = None -> versionsUnread va
| unread_empty : listed (va_nodes va) fuel 0 "" = Some [] -> versionsUnread va
| unread_component pods p comp why : listed (va_pods va) fuel 0 "" = Some pods -> p ∈ pods -> podVersionOf p = PodUnread comp why true -> versionsUnread va.

Lemma versions_gap r : collectVersionsFrom vps teamLabel (cu_versions api) fuel = Some r -> versionsUnread (cu_versions api) -> gap (vr_error r).
Proof.
  unfold collectVersionsFrom. intros Hr Hu. destruct (va_version _) as [sv|e] eqn:Ev; [|by injection Hr as <-].
  destruct (va_kubeSystem _) as [uid|e] eqn:Ek; [|by injection Hr as <-].
  destruct (listEach addNodeRow _ _ _ _ _) as [[[rows ev] [e|]]|] eqn:En; [by injection Hr as <-| |done].
  destruct (listEach _ (va_namespaces _) _ _ _ _) as [[nss [e|]]|] eqn:Es; [by injection Hr as <-| |done].
  destruct (collectControlPlane _ _ _) as [[[cps sys] err]|] eqn:Ec; [|done]. injection Hr as <-. cbn [vr_error].
  destruct (listEach_listed _ _ _ _ _ _ _ En) as (nodes & Hn & Hrows). rewrite foldl_nodes in Hrows. injection Hrows as -> _. cbn.
  destruct (0 <? zlen (sortNodes (map nodeInfo nodes))) eqn:Ez; [|apply withNoNodes_gap].
  destruct (collectControlPlane_pods _ _ _ _ _ _ Ec) as [(e & -> & _)|(pods & Hp & _ & Herr & _)]; [done|].
  destruct Hu as [e He|e He|He|He|He|He|pods' p comp why Hp' Hin Ho]; try congruence.
  - destruct (listEach_listed _ _ _ _ _ _ _ Es) as (items & Hl & _). congruence.
  - assert (nodes = []) as -> by congruence. done.
  - assert (pods' = pods) as -> by congruence.
    destruct (control_plane_accounted vps (va_pods (cu_versions api)) fuel cps sys err pods Ec Hp) as (_ & _ & Hc).
    { intros e E. rewrite E in Herr. unfold controlPlaneOutcome in Herr. by destruct (bool_decide _). }
    destruct err as [[|msg skipped|]|]; [done| |done|by apply (Hc p comp why true Hin)]. destruct Hc as [_ Hsk]. cbn. intros Hs.
    assert (comp ∈ skipped) as Hx by (apply Hsk; eauto). rewrite Hs in Hx. by apply elem_of_nil in Hx.
Qed.

(** A status of a gap, repaired or not, is one the engine requires. *)
Lemma gap_unassessable inv inv0 err note target :
  gap err -> hasStatus CapVersions (statusOf err note) inv0 -> Source inv = Source inv0 -> capsNoMore (Capabilities inv0) (Capabilities inv) ->
  unassessable inv k target.
Proof.
  intros Hg [Hs Hc] Es Hm. destruct (Hm _ _ Hc) as (st & Hst & [Ha Hp Hk _]). assert (Hf : Source inv <> SourceFiles) by (rewrite Es, Hs; apply not_files).
  destruct err as [[msg|msg skipped|]|]; try done; cbn in *.
  - apply no_versions; [done|]. unfold notCollected. by rewrite Hst.
  - eapply some_versions; [done| |by apply Hk]. split_and!; [done|done|by apply Hp].
Qed.

Lemma collect_run env now pass notes inv pass' :
  collect env now pass = Some (notes, inv, pass') ->
  exists c err, runFrom env 0 (steps vps applied parseGV helm cl api k teamLabel fuel passNow passStart)
      (mkCollection (emptyInventory now) None (unknownSelfCalls (k_APILifecycle k) None) pass) = Some c /\ Conform (cn_inv c) = (notes, err, inv).
Proof.
  unfold Collect, runSteps. destruct (runFrom _ _ _ _) as [c|]; [|done]. destruct (Conform (cn_inv c)) as [[ns err] i] eqn:E. intros [= -> -> _]. eauto.
Qed.

(** What a collection could not read of the versions keeps the report
    from being ready: when a client is missing, the server version, the
    cluster id, the nodes, the namespaces or the kube-system pods could not
    be read, no node is listed, or a control-plane pod tells no version,
    the report of what was collected, repaired for the server as it is, is
    not ready at any target and any time. *)
Lemma collect_unread_never_ready (env : nat -> stepEnv) (now : Time) (pass pass' : passCache) (notes : list string) (inv : Inventory)
    (target : Version) (t : Time) (rep : Report) :
  collect env now pass = Some (notes, inv, pass') ->
  cl_Kube cl = false \/ cl_Discovery cl = false \/ versionsUnread (cu_versions api) ->
  kb_ok k -> Evaluate inv k target t = Some rep -> r_Ready rep = false.
Proof.
  intros (c & err & Hrun & Hconf)%collect_run Hu Hk He. apply not_true_iff_false. intros Hr.
  apply (ready_assessed inv k target t rep Hk He Hr). clear Hk He Hr.
  apply runFrom_cons in Hrun as (c1 & verr & note & Hv & Hrest). cbn [st_run st_cap] in Hv, Hrest.
  assert (Hg : gap verr /\ Source (cn_inv c1) = SourceCluster).
  { unfold versionsStep, noClient in Hv. destruct (negb (cl_Kube cl) || negb (cl_Discovery cl)) eqn:Ec; [by injection Hv as <- <-|].
    destruct (collectVersionsFrom _ _ _ _) as [r|] eqn:Er; [|done]. injection Hv as <- <-. split; [|done].
    destruct Hu as [E|[E|Hu]]; [by rewrite E in Ec|rewrite E in Ec; by destruct (cl_Kube cl)|by eapply versions_gap]. }
  destruct Hg as [Hg Hs]. eapply runFrom_keeps in Hrest; [|apply (versions_kept (statusOf verr note))|].
  - destruct (Conform_caps (cn_inv c)) as [Es Hcaps]. rewrite Hconf in Es, Hcaps. by eapply gap_unassessable.
  - split; [done|]. cbn. by rewrite lookup_insert_eq.
Qed.

(** ** An API the target removes *)

Definition hasUsages (us : list APIUsage) (st : CapabilityStatus) (inv : Inventory) : Prop := APIUsages inv = us /\ Capabilities inv !! CapAPIUsage = Some st.

Lemma usages_kept us st : Forall (keeps (hasUsages us st)) [mkStep CapCRDs (crdsStep applied cl api fuel); mkStep CapDeprecatedCalls (deprecatedCallsStep cl api)].
Proof. unfold hasUsages. do 2 (apply Forall_cons_2; [step_keeps|]). apply Forall_nil_2. Qed.

(** The name of an API as the collector writes it and the engine reads it. *)
Definition plainAPI (g v kind : string) : Prop :=
  no_byte " " g /\ no_byte " " v /\ no_byte "/" v /\ slen (apiName (gvString g v) kind) <= MaxStringBytes.

(** An API the target removes, in use or skipped, and the report. *)
Lemma reaches_not_ready inv us err note st g v kind e rv target t rep :
  reaches g v kind us err -> Capabilities inv !! CapAPIUsage = Some st -> noMoreThan (statusOf err note) st ->
  map apiOf (APIUsages inv) = map apiOf us ->
  Lookup (NewIndex (k_APILifecycle k)) g v kind = Some e -> e_Removed e = Some rv -> vle rv target -> plainAPI g v kind ->
  kb_ok k -> Evaluate inv k target t = Some rep -> r_Ready rep = true -> False.
Proof.
  intros [(u & Hu & Ha)|Herr] Hst Hn Hapis Hl Hr Hle (Hg & Hv & Hs & Hlen) Hk He Hready.
  - assert (apiOf u ∈ map apiOf (APIUsages inv)) as Hin by (rewrite Hapis; by apply list_elem_of_In, in_map, list_elem_of_In).
    rewrite Ha in Hin. apply list_elem_of_In, in_map_iff in Hin as (u' & Ea & Hu'%list_elem_of_In). injection Ea as Eg Ev Ek.
    destruct (ready_apis inv k target t rep Hk He Hready) as [Hall _]. eapply vlt_not_vle; [eapply (Hall u' e rv Hu')|]; [|done|done].
    by rewrite Eg, Ev, Ek.
  - apply (ready_assessed inv k target t rep Hk He Hready). destruct Hn as [Hav Hp _ Hsk]. destruct err as [[msg|msg skipped|]|]; try done; cbn in *.
    + apply no_api_usage. unfold notCollected. by rewrite Hst.
    + eapply (skipped_removed _ _ _ st (apiName (gvString g v) kind) e rv); [done|done|by apply Hp|by apply Hsk| |done|done].
      exists g, v, kind. split; [by apply splitAPI_roundtrip|done].
Qed.

(** No removed API in use gets past a collection: when the target
    removes an API, the cluster serves it and someone wrote an object
    through it, or discovery could not show its group, then the report of
    what was collected is not ready, whether the object was listed, its
    list failed, or discovery did, with whatever clients, at any time, as
    long as the inventory needed no repair for the server. *)
Lemma collect_removal_never_ready (env : nat -> stepEnv) (now : Time) (pass pass' : passCache) (inv : Inventory)
    (target : Version) (t : Time) (rep : Report) (g v kind : string) (e : APILifecycleEntry) (rv : Version) (m : objectMeta) :
  collect env now pass = Some ([], inv, pass') ->
  Lookup (NewIndex (k_APILifecycle k)) g v kind = Some e -> e_Removed e = Some rv -> vle rv target -> plainAPI g v kind ->
  (forall groups lists failed, cu_discovery api = Discovered groups lists failed ->
     (shown parseGV (k_APILifecycle k) (cu_meta api) fuel lists g v kind m /\ writtenThrough applied (gvString g v) m) \/ (g, v) ∈ default [] failed) ->
  kb_ok k -> Evaluate inv k target t = Some rep -> r_Ready rep = false.
Proof.
  intros (c & err & Hrun & Hconf)%collect_run Hl Hr Hle Hplain Hcase Hk He. apply not_true_iff_false. intros Hready.
  do 3 (apply runFrom_cons in Hrun as (? & ? & ? & _ & Hrun)). apply runFrom_cons in Hrun as (c1 & uerr & note & Hu & Hrest). cbn [st_run st_cap] in Hu, Hrest.
  assert (Hreach : reaches g v kind (APIUsages (cn_inv c1)) uerr).
  { unfold apiUsageStep, noClient in Hu. destruct (_ || _); [injection Hu as _ <-; by right|].
    destruct (collectAPIUsage _ _ _ _ _ _) as [[[set self] uerr']|] eqn:Ec; [|done]. injection Hu as <- <-.
    destruct (cu_discovery api) as [msg|groups lists failed] eqn:Ed; [injection Ec as <- _ <-; by right|].
    destruct (collectAPIUsage_reaches _ _ _ _ _ _ _ _ _ _ _ g v kind m e rv Ec Hl Hr (Hcase _ _ _ eq_refl)) as (us & uns & -> & Hx). exact Hx. }
  eapply (runFrom_keeps (hasUsages (APIUsages (cn_inv c1)) (statusOf uerr note))) in Hrest as [Eu Hst]; [|apply usages_kept|split; [done|by cbn; rewrite lookup_insert_eq]].
  destruct (Conform_caps (cn_inv c)) as [_ Hcaps]. rewrite Hconf in Hcaps. destruct (Hcaps _ _ Hst) as (st & Hst' & Hn).
  pose proof (Conform_apis _ _ _ Hconf) as Ha. rewrite Eu in Ha. by eapply reaches_not_ready.
Qed.
End Verdict.

(** ** Two clusters *)

#[local] Existing Instance exactSemver.
#[local] Existing Instance dottedOrder.
#[local] Existing Instance byName.
#[local] Existing Instance exampleContent.
#[local] Existing Instance exampleUnicode.

Definition onePage {A} (items : list A) (_ : nat) (_ : string) : listAnswer A := Page items "".

Definition splitGV (s : string) : option (string * string) :=
  match cut_opt s "/" with Some (g, v) => Some (g, v) | None => Some (""%string, s) end.

Definition exampleNode : node := mkNode "n1" "v1.21.3" "containerd://1.7.2" ∅ "".

(** A scheduler whose image is pinned by digest. *)
Definition pinnedScheduler : pod :=
  mkPod "kube-scheduler-cp1" "kube-system" "cp1" {["component"%string := "kube-scheduler"%string]} []
    ["registry.k8s.io/kube-scheduler@sha256:4d1f1b8d"%string] [].

(** An Ingress kubectl writes through the version Kubernetes 1.22 removed. *)
Definition oldIngress : objectMeta :=
  mkObjectMeta "prod" "web" ∅ [mkManagedFields "kubectl-client-side-apply" "Update" "extensions/v1beta1" (Some 1) ""].

Definition ingressDiscovery : discoveryAnswer :=
  Discovered [("extensions"%string, "v1beta1"%string)] [("extensions/v1beta1"%string, [mkAPIResource "ingresses" "Ingress" ["get"%string; "list"%string]])] None.

Definition exampleCluster (pods : list pod) : cluster :=
  mkCluster (mkVersionsAPI (Ok "v1.21.3"%string) (Ok "8f1c"%string) (onePage [exampleNode]) (onePage []) (onePage pods))
    (quietAPI []) ingressDiscovery (fun _ => onePage [oldIngress]) (onePage []) (Metrics None None).

Abbreviation exampleCollect pods := (Collect noVolumes (fun _ => None) splitGV (fun _ => Some ([], [], None)) (mkClients true true true true true)
  (exampleCluster pods) ingressKB "team" 2 0 0 (fun _ => mkStepEnv (Some minute) false false) 0 (NewPodPassCache 1 0)) (only parsing).

Lemma pinned_collects : match exampleCollect [pinnedScheduler] with Some _ => true | None => false end = true.
Proof. vm_compute. reflexivity. Qed.

Lemma example_unrepaired : match exampleCollect [] with Some ([], _, _) => true | _ => false end = true.
Proof. vm_compute. reflexivity. Qed.

(** The pinned scheduler keeps the report of its cluster from being ready. *)
Lemma collect_unread_never_ready_witness :
  exists notes inv pass rep, exampleCollect [pinnedScheduler] = Some (notes, inv, pass) /\
    Evaluate inv ingressKB (mkVersion 1 22) 0 = Some rep /\ r_Ready rep = false.
Proof.
  assert (Hk : kb_ok ingressKB) by apply Forall_nil_2.
  pose proof pinned_collects as Hx. destruct (exampleCollect [pinnedScheduler]) as [[[notes inv] pass]|] eqn:E; [clear Hx|discriminate Hx].
  exists notes, inv, pass. eexists. split; [reflexivity|]. split; [exact (Evaluate_eq inv ingressKB (mkVersion 1 22) 0 Hk)|].
  eapply (collect_unread_never_ready noVolumes (fun _ => None) splitGV (fun _ => Some ([], [], None)) (mkClients true true true true true)
    (exampleCluster [pinnedScheduler]) ingressKB "team" 2 0 0 (fun _ => mkStepEnv (Some minute) false false) 0 (NewPodPassCache 1 0) pass notes inv
    (mkVersion 1 22) 0).
  - exact E.
  - right. right. apply (unread_component _ _ [pinnedScheduler] pinnedScheduler "kube-scheduler"
      "kube-scheduler image registry.k8s.io/kube-scheduler@sha256:4d1f1b8d has no version tag"); [reflexivity|by left|vm_compute; reflexivity].
  - exact Hk.
  - exact (Evaluate_eq inv ingressKB (mkVersion 1 22) 0 Hk).
Defined.

(** So does the Ingress someone still writes through the removed version. *)
Lemma collect_removal_never_ready_witness :
  exists inv pass rep, exampleCollect [] = Some ([], inv, pass) /\
    Evaluate inv ingressKB (mkVersion 1 22) 0 = Some rep /\ r_Ready rep = false.
Proof.
  assert (Hk : kb_ok ingressKB) by apply Forall_nil_2.
  pose proof example_unrepaired as Hx. destruct (exampleCollect []) as [[[[|] inv] pass]|] eqn:E; [clear Hx|discriminate Hx..].
  exists inv, pass. eexists. split; [reflexivity|]. split; [exact (Evaluate_eq inv ingressKB (mkVersion 1 22) 0 Hk)|].
  eapply (collect_removal_never_ready noVolumes (fun _ => None) splitGV (fun _ => Some ([], [], None)) (mkClients true true true true true)
    (exampleCluster []) ingressKB "team" 2 0 0 (fun _ => mkStepEnv (Some minute) false false) 0 (NewPodPassCache 1 0) pass inv
    (mkVersion 1 22) 0 _ "extensions" "v1beta1" "Ingress" ingressEntry (mkVersion 1 22) oldIngress).
  - exact E.
  - vm_compute. reflexivity.
  - reflexivity.
  - by right.
  - split_and!; vm_compute; try reflexivity. discriminate.
  - intros groups lists failed [= <- <- <-]. left. split.
    + exists "ingresses"%string. split_and!.
      * exists (mkServed "v1beta1" "Ingress" true true). split_and!; [vm_compute; by left|reflexivity|reflexivity].
      * exists (mkServed "v1beta1" "Ingress" true true). split; [vm_compute; by left|reflexivity].
      * intros gvr objs _ [= <-]. by left.
    + split_and!; vm_compute; [done|reflexivity|done].
  - exact Hk.
  - exact (Evaluate_eq inv ingressKB (mkVersion 1 22) 0 Hk).
Defined.
