(* ===== verification/GitOps.v ===== *)
(** * GitOps charts: internal/collect/gitops.go and gitops_cache.go

    What Argo CD and Flux record of the charts they deploy, the helm step
    around it, and the cache of refused lists. A custom resource is a value
    of its JSON; what the apiserver answers is an argument, and so is what
    net/url makes of a destination. The clock is read as often as the code
    reads it. *)

From stdpp Require Import base list strings gmap sorting.
From Stdlib Require Import ZArith Lia Ascii.
From S2P Require Import Prelude GoStr GoTime Version Inventory KB Findings Glob Admit Conform Detect Tally PodPass ControlPlane Usage HelmStore Collector.

(** ** Repository URLs *)

Definition isLetter (a : ascii) : bool := ascii_between "a" "z" a || ascii_between "A" "Z" a.

Fixpoint schemeBytes (first : bool) (s : string) : bool :=
  match s with
  | ""%string => true
  | String a s' =>
      (isLetter a || (negb first && (is_digit a || Ascii.eqb a "+" || Ascii.eqb a "-" || Ascii.eqb a "."))) && schemeBytes false s'
  end.

Definition validScheme (s : string) : bool := schemeBytes true s && negb (s =s "").

(** [unicode.IsControl]. *)
Definition control (r : Z) : bool := (r <=? 0x1f) || ((0x7f <=? r) && (r <=? 0x9f)).

Definition replacementChar : string := bytes [239; 191; 189]%N.

(** [strings.Map] that drops the control characters; an invalid byte
    becomes the replacement character. *)
Fixpoint dropControls (fuel : nat) (s : string) : string :=
  match fuel, s with
  | S fuel', String _ _ =>
      let '(r, n) := DecodeRune s in
      (if (r =? RuneError) && (n =? 1)%nat then replacementChar
       else if control r then "" else String.substring 0 n s) +:+ dropControls fuel' (dropS n s)
  | _, _ => ""
  end.

(** The value without what surrounds it and without control characters. *)
Definition strippedURL (raw : string) : string := let s := TrimSpace raw in dropControls (String.length s) s.

Definition isHex (a : ascii) : bool := is_digit a || ascii_between "a" "f" a || ascii_between "A" "F" a.

Fixpoint allBytes (p : ascii -> bool) (s : string) : bool :=
  match s with ""%string => true | String a s' => p a && allBytes p s' end.

(** The whole of [s] is a digest suffix. *)
Definition isDigest (s : string) : bool :=
  existsb (fun algorithm =>
    match CutPrefix s ("@" +:+ algorithm +:+ ":") with
    | Some sum => (32 <=? slen sum) && allBytes isHex sum
    | None => false
    end) ["sha256"; "sha384"; "sha512"]%string.

(** [ociDigestSuffix.FindStringIndex]: what precedes the leftmost match,
    and the match. *)
Fixpoint ociDigestSuffix (s : string) : option (string * string) :=
  if isDigest s then Some (""%string, s) else
  match s with
  | ""%string => None
  | String a s' => match ociDigestSuffix s' with Some (b, d) => Some (String a b, d) | None => None end
  end.

Definition isAlnum (a : ascii) : bool := isLetter a || is_digit a.

Definition lastByte (s : string) : option ascii := last (String.list_ascii_of_string s).

(** A registry host. *)
Definition registryHost (s : string) : bool :=
  match s with
  | ""%string => false
  | String a _ =>
      isAlnum a && allBytes (fun c => isAlnum c || Ascii.eqb c "." || Ascii.eqb c "-") s &&
      match lastByte s with Some z => isAlnum z | None => false end
  end.

Definition urlBreak (a : ascii) : bool := Ascii.eqb a "?" || Ascii.eqb a "#".

(** [ociRegistryPath.MatchString]: host, port and path part at the first
    slash and the first colon, which a host cannot hold. *)
Definition ociRegistryPath (s : string) : bool :=
  match Cut s "/" with
  | (authority, path, true) =>
      negb (path =s "") && allBytes (fun c => negb (Ascii.eqb c "@" || urlBreak c)) path &&
      match Cut authority ":" with
      | (host, port, true) => registryHost host && negb (port =s "") && allBytes is_digit port
      | (host, _, false) => registryHost host
      end
  | (_, _, false) => false
  end.

(** [s[strings.LastIndex(s, "@")+1:]]. *)
Definition afterAt (s : string) : string := match cut_last s "@" with Some (_, r) => r | None => s end.

Definition redactRepoURL (raw : string) : string :=
  let s := strippedURL raw in
  let '(scheme, rest, hasScheme) := match Cut s "://" with
    | (scheme, rest, true) => if validScheme scheme then (scheme, rest, true) else (""%string, s, false)
    | (_, _, false) => (""%string, s, false)
    end in
  let '(rest, digest) := match ociDigestSuffix rest with
    | Some (before, d) => if ociRegistryPath (afterAt before) then (before, d) else (rest, ""%string)
    | None => (rest, ""%string)
    end in
  let cutAt := match cut_last rest "@" with
    | Some (before, after) => if negb ((split_at urlBreak before).2 =s "") then None else Some after
    | None => Some rest
    end in
  match cutAt with
  | None => ""
  | Some rest =>
      let rest := (split_at urlBreak rest).1 in
      if negb hasScheme then rest +:+ digest
      else if (Cut rest "/").1.1 =s "" then "" else scheme +:+ "://" +:+ rest +:+ digest
  end.

Example redact_token : redactRepoURL "https://ci:12/ab@charts.example.com:8443/stable?x=1" = "https://charts.example.com:8443/stable"%string.
Proof. reflexivity. Qed.
Example redact_query : redactRepoURL "https://charts.example.com/?user=ci@example.com&token=tok" = ""%string.
Proof. reflexivity. Qed.
Example redact_scp : redactRepoURL " git@github.com:org/repo.git" = "github.com:org/repo.git"%string.
Proof. reflexivity. Qed.
Example redact_digest : redactRepoURL "oci://u:p@ghcr.io/acme/chart@sha256:0123456789abcdef0123456789abcdef" = "oci://ghcr.io/acme/chart@sha256:0123456789abcdef0123456789abcdef"%string.
Proof. reflexivity. Qed.
Example redact_digest_host : redactRepoURL "user:pw@sha256:0123456789abcdef0123456789abcdef" = "sha256:0123456789abcdef0123456789abcdef"%string.
Proof. reflexivity. Qed.

(** ** Chart names *)

Definition maxChartNameBytes : Z := MaxObjectNameBytes.

Definition plausibleChartName (s : string) : bool := negb (s =s "") && (slen s <=? maxChartNameBytes).

(** [strings.TrimRight(s, "/")]. *)
Fixpoint trimSlashes (s : string) : string :=
  match s with
  | ""%string => ""
  | String a s' => match trimSlashes s' with ""%string => if Ascii.eqb a "/" then "" else String a "" | r => String a r end
  end.

(** [path.Base]. *)
Definition pathBase (s : string) : string :=
  if s =s "" then "."
  else
    let s := trimSlashes s in
    let s := match cut_last s "/" with Some (_, r) => r | None => s end in
    if s =s "" then "/" else s.

Definition ociChartName (repoURL : string) : option string :=
  match CutPrefix repoURL "oci://" with
  | None => None
  | Some rest =>
      let rest := trimSlashes (Cut rest "@").1.1 in
      match Cut rest "/" with
      | (_, p, hasPath) => if negb hasPath || (p =s "") then None else Some (pathBase rest)
      end
  end.

Example oci_name : ociChartName "oci://ghcr.io/acme/charts/nginx/@sha256:00" = Some "nginx"%string. Proof. reflexivity. Qed.
Example oci_no_path : ociChartName "oci://ghcr.io/" = None. Proof. reflexivity. Qed.

(** ** Custom resources *)

(** A JSON value, as far as it is read: null, booleans and numbers are
    [VOther]. The keys of an object are distinct. *)
Inductive value := VString (s : string) | VArray (l : list value) | VObject (m : list (string * value)) | VOther.

Definition object : Type := list (string * value).

Fixpoint field (m : object) (key : string) : option value :=
  match m with
  | [] => None
  | (k, v) :: m' => if k =s key then Some v else field m' key
  end.

(** [None] is the nil map. *)
Definition mapAt (m : option object) (key : string) : option object :=
  match m with
  | None => None
  | Some m => match field m key with Some (VObject o) => Some o | _ => None end
  end.

Definition stringAt (m : option object) (key : string) : string :=
  match m with
  | None => ""
  | Some m => match field m key with Some (VString s) => s | _ => "" end
  end.

Record customResource := mkCustomResource { cr_Namespace : string; cr_Name : string; cr_Object : object }.

(** What [url.Parse] makes of a destination: the scheme, whether it holds
    userinfo, [Hostname()], [Port()] and the path. *)
Record destinationURL := mkDestination { du_Scheme : string; du_User : bool; du_Hostname : string; du_Port : string; du_Path : string }.
Class Destinations := { parseDestination : string -> option destinationURL }.

Definition argoInClusterName : string := "in-cluster".
Definition argoInClusterHosts : list string := ["kubernetes.default.svc"; "kubernetes.default.svc.cluster.local"]%string.

Definition argoInCluster `{Destinations} (dest : option object) : bool :=
  let server := stringAt dest "server" in
  if server =s "" then stringAt dest "name" =s argoInClusterName
  else match parseDestination server with
  | None => false
  | Some u =>
      if negb (du_Scheme u =s "https") || du_User u || negb (allBytes (Ascii.eqb "/") (du_Path u)) then false
      else mem_str (du_Hostname u) argoInClusterHosts && ((du_Port u =s "") || (du_Port u =s "443"))
  end.

Definition plausibleTarget `{Content} (ns : string) : bool := (ns =s "") || (zlen (IsDNS1123Label ns) =? 0).

(** [cmp.Or] of strings. *)
Definition orString (l : list string) : string := default ""%string (find (fun s => negb (s =s "")) l).

Definition ociVersion (ref : option object) : string := orString [stringAt ref "digest"; stringAt ref "semver"; stringAt ref "tag"].

Record ociChart := mkOciChart { oc_chart : string; oc_url : string; oc_version : string }.

Definition ociChartOf (repo : customResource) : option ociChart :=
  let spec := mapAt (Some (cr_Object repo)) "spec" in
  let repoURL := redactRepoURL (stringAt spec "url") in
  match ociChartName repoURL with
  | None => None
  | Some chart => if plausibleChartName chart then Some (mkOciChart chart repoURL (ociVersion (mapAt spec "ref"))) else None
  end.

(** ** The tools *)

(** Group, version, resource. *)
Definition GroupVersionResource : Type := string * string * string.

Record workload := mkWorkload { wl_Labels : gmap string string; wl_Annotations : gmap string string }.

Record gitopsTool := mkTool {
  gt_id : string;
  gt_label : string;
  gt_group : string;
  gt_versions : list string;
  gt_resource : string;
  gt_tracks : workload -> bool;
  gt_rendersOnly : bool;
  gt_note : string;
}.

Definition argoGroup : string := "argoproj.io".
Definition fluxGroup : string := "helm.toolkit.fluxcd.io".
Definition fluxSource : string := "source.toolkit.fluxcd.io".
Definition fluxSourceVersion : list string := ["v1"; "v1beta2"]%string.

Definition argoTool : gitopsTool :=
  mkTool GitOpsArgoCD "Argo CD" argoGroup ["v1alpha1"]%string "applications"
    (fun m => negb (label (wl_Annotations m) "argocd.argoproj.io/tracking-id" =s "") ||
              negb (label (wl_Labels m) "argocd.argoproj.io/instance" =s ""))
    true "it renders charts with helm template and leaves no release object".

Definition fluxTool : gitopsTool :=
  mkTool GitOpsFlux "Flux" fluxGroup ["v2"; "v2beta2"; "v2beta1"]%string "helmreleases"
    (fun m => negb (label (wl_Labels m) "helm.toolkit.fluxcd.io/name" =s "")) false "".

Definition gitopsTools : list gitopsTool := [argoTool; fluxTool].

(** [gitopsToolState]; no [gvr] is the zero one. *)
Record toolState := mkToolState {
  ts_tool : gitopsTool;
  ts_gvr : option GroupVersionResource;
  ts_marked : bool;
  ts_read : Z;
  ts_seen : Z;
  ts_foreign : Z;
  ts_invalid : Z;
  ts_unresolved : Z;
  ts_unresolvedWhy : string;
  ts_failure : string;
  ts_listed : bool;
}.

Definition newToolState (t : gitopsTool) : toolState := mkToolState t None false 0 0 0 0 0 "" "" false.

Definition served (s : toolState) : bool := match ts_gvr s with Some _ => true | None => false end.

(** The version of a resource. *)
Definition gvrVersion (g : GroupVersionResource) : string := g.1.2.

Definition present (s : toolState) : option string :=
  match ts_gvr s with
  | Some g => Some (gt_resource (ts_tool s) +:+ "." +:+ gt_group (ts_tool s) +:+ "/" +:+ gvrVersion g +:+ " is served")
  | None => if ts_marked s then Some "workloads carry its tracking metadata"%string else None
  end.

Definition set_gvr (g : option GroupVersionResource) (s : toolState) : toolState :=
  let 'mkToolState t _ m r n f i u w x l := s in mkToolState t g m r n f i u w x l.
Definition set_marked (s : toolState) : toolState :=
  let 'mkToolState t g _ r n f i u w x l := s in mkToolState t g true r n f i u w x l.
Definition set_failure (e : string) (s : toolState) : toolState :=
  let 'mkToolState t g m r n f i u w _ l := s in mkToolState t g m r n f i u w e l.
Definition set_listed (read : Z) (s : toolState) : toolState :=
  let 'mkToolState t g m _ n f i u w x _ := s in mkToolState t g m read n f i u w x true.
Definition saw (s : toolState) : toolState :=
  let 'mkToolState t g m r n f i u w x l := s in mkToolState t g m r (n + 1) f i u w x l.
Definition sawForeign (s : toolState) : toolState :=
  let 'mkToolState t g m r n f i u w x l := s in mkToolState t g m r n (f + 1) i u w x l.
Definition sawInvalid (s : toolState) : toolState :=
  let 'mkToolState t g m r n f i u w x l := s in mkToolState t g m r n f (i + 1) u w x l.
Definition sawUnresolved (s : toolState) : toolState :=
  let 'mkToolState t g m r n f i u w x l := s in mkToolState t g m r n f i (u + 1) w x l.
Definition set_why (why : string) (s : toolState) : toolState :=
  let 'mkToolState t g m r n f i u _ x l := s in mkToolState t g m r n f i u why x l.

(** ** The apiserver *)

(** A page of a list of custom resources. *)
Inductive resourcePage := ResourcePage (items : list customResource) (continue : string) | ResourceError (forbidden : bool) (msg : string).

(** Discovery of a group at a version: what [IsNotFound] holds of, another
    error, or the names of the resources. *)
Inductive resourcesAnswer := ResourcesNotFound | ResourcesError (msg : string) | Resources (names : list string).

Record gitopsAPI := mkGitopsAPI {
  ga_groups : res (list (string * list string));
  ga_resources : string -> resourcesAnswer;
  ga_workloads : GroupVersionResource -> nat -> string -> listAnswer workload;
  ga_list : GroupVersionResource -> string -> nat -> string -> resourcePage;
  ga_get : GroupVersionResource -> string -> string -> res customResource;
}.

(** The versions of a group, [served] of the code. *)
Definition servedVersions (groups : list (string * list string)) (group : string) : list string :=
  flat_map (fun g => if g.1 =s group then g.2 else []) groups.

Fixpoint servedResource (api : gitopsAPI) (listed : list string) (group : string) (versions : list string) (resource : string)
    : res (option GroupVersionResource) :=
  match versions with
  | [] => Ok None
  | v :: rest =>
      if negb (mem_str v listed) then servedResource api listed group rest resource
      else match ga_resources api (group +:+ "/" +:+ v) with
      | ResourcesNotFound => servedResource api listed group rest resource
      | ResourcesError e => Err e
      | Resources names => if mem_str resource names then Ok (Some (group, v, resource)) else servedResource api listed group rest resource
      end
  end.

(** ** Workload markers *)

Definition workloadMarkerResources : list GroupVersionResource :=
  [("apps", "v1", "deployments"); ("apps", "v1", "statefulsets"); ("apps", "v1", "daemonsets")]%string.

Definition pendingTool (s : toolState) : bool := negb (served s) && negb (ts_marked s).

Definition pending (states : list toolState) : bool := existsb pendingTool states.

Definition markWorkload (states : list toolState) (m : workload) : list toolState :=
  map (fun s => if pendingTool s && gt_tracks (ts_tool s) m then set_marked s else s) states.

(** The pages of one kind of workload. [None]: not over after [fuel]
    calls. *)
Fixpoint markPages (api : gitopsAPI) (fuel k : nat) (gvr : GroupVersionResource) (cont : string) (states : list toolState)
    : option (list toolState) :=
  if negb (pending states) then Some states
  else match fuel with
  | O => None
  | S fuel' =>
      match ga_workloads api gvr k cont with
      | ListError _ _ _ => Some states
      | Page items cont' =>
          let states := foldl markWorkload states items in
          if cont' =s "" then Some states else markPages api fuel' (S k) gvr cont' states
      end
  end.

Fixpoint markWorkloads (api : gitopsAPI) (fuel : nat) (gvrs : list GroupVersionResource) (states : list toolState) : option (list toolState) :=
  match gvrs with
  | [] => Some states
  | gvr :: rest =>
      if negb (pending states) then Some states
      else match markPages api fuel 0 gvr "" states with
      | None => None
      | Some states => markWorkloads api fuel rest states
      end
  end.

(** ** Lists of custom resources *)

(** [listCustomResourcesIn]: the state [fn] leaves, and the error, with
    whether it is a refusal. *)
Fixpoint listPagesIn {S} (fn : S -> customResource -> S) (api : gitopsAPI) (gvr : GroupVersionResource) (ns : string)
    (fuel k : nat) (cont : string) (st : S) : option (S * option (bool * string)) :=
  match fuel with
  | O => None
  | Datatypes.S fuel' =>
      match ga_list api gvr ns k cont with
      | ResourceError forbidden msg => Some (st, Some (forbidden, "list " +:+ gvr.2 +:+ ": " +:+ msg))
      | ResourcePage items cont' =>
          let st := foldl fn st items in
          if cont' =s "" then Some (st, None) else listPagesIn fn api gvr ns fuel' (Datatypes.S k) cont' st
      end
  end.

Definition listCustomResourcesIn {S} (fn : S -> customResource -> S) (api : gitopsAPI) (gvr : GroupVersionResource) (ns : string)
    (fuel : nat) (st : S) : option (S * option (bool * string)) :=
  listPagesIn fn api gvr ns fuel 0 "" st.

(** ** Argo CD *)

(** The sources of an Application: [spec.sources], when it is a list that
    is not empty, replaces [spec.source]. *)
Definition argoSources (spec : option object) : list object :=
  match (match spec with Some m => field m "sources" | None => None end) with
  | Some (VArray (e :: l)) => omap (fun v => match v with VObject o => Some o | _ => None end) (e :: l)
  | _ => match mapAt spec "source" with Some src => [src] | None => [] end
  end.

(** The chart a source names, if any. *)
Definition argoChart (src : object) : string :=
  let chart := stringAt (Some src) "chart" in
  if chart =s "" then
    if negb (stringAt (Some src) "ref" =s "") then ""
    else default ""%string (ociChartName (redactRepoURL (stringAt (Some src) "repoURL")))
  else chart.

Definition argoSource `{Content} `{Destinations} (app : customResource) (dest : option object)
    (acc : toolState * list GitOpsChart) (src : object) : toolState * list GitOpsChart :=
  let '(s, out) := acc in
  let chart := argoChart src in
  if (chart =s "") || negb (plausibleChartName chart) then (s, out)
  else if negb (argoInCluster dest) then (sawForeign s, out)
  else
    let target := stringAt dest "namespace" in
    if negb (plausibleTarget target) then (sawInvalid s, out)
    else (s, out ++ [mkGitOpsChart (gt_id (ts_tool s)) (cr_Name app) (cr_Namespace app) target chart
                       (stringAt (Some src) "targetRevision") (redactRepoURL (stringAt (Some src) "repoURL"))]).

Definition argoApplication `{Content} `{Destinations} (acc : toolState * list GitOpsChart) (app : customResource)
    : toolState * list GitOpsChart :=
  let spec := mapAt (Some (cr_Object app)) "spec" in
  foldl (argoSource app (mapAt spec "destination")) (saw acc.1, acc.2) (argoSources spec).

Definition readArgoApplications `{Content} `{Destinations} (api : gitopsAPI) (fuel : nat) (gvr : GroupVersionResource) (s : toolState)
    : option (toolState * list GitOpsChart * option string) :=
  match listCustomResourcesIn argoApplication api gvr "" fuel (s, []) with
  | None => None
  | Some ((s, out), err) => Some (s, out, snd <$> err)
  end.

(** ** The cache of refused lists *)

Definition ForbiddenListRecheck : Z := hour.

(** The API version asked at, and the namespace. *)
Definition gitopsList : Type := GroupVersionResource * string.

(** When each list was last refused. *)
Definition GitOpsCache : Type := gmap gitopsList Time.

Definition NewGitOpsCache : GitOpsCache := ∅.

Definition expire (now : Time) (c : GitOpsCache) : GitOpsCache :=
  filter (fun e => Sub now e.2 < ForbiddenListRecheck) c.

Definition wasRefused (now : Time) (l : gitopsList) (c : GitOpsCache) : bool :=
  match c !! l with Some at_ => Sub now at_ <? ForbiddenListRecheck | None => false end.

(** [err]: whether it is a refusal, where there is one. *)
Definition recordList (now : Time) (l : gitopsList) (err : option bool) (c : GitOpsCache) : GitOpsCache :=
  match err with
  | Some true => <[l := now]> c
  | None => delete l c
  | Some false => c
  end.

(** ** OCIRepositories *)

Definition ociRef : Type := string * string.

(** What reading them keeps: the charts, the first reason, the cache, and
    how often the clock was read. *)
Record ociRead := mkOciRead { or_out : gmap ociRef ociChart; or_why : string; or_cache : option GitOpsCache; or_clock : nat }.

Definition keepRepo (wanted : gset ociRef) (out : gmap ociRef ociChart) (repo : customResource) : gmap ociRef ociChart :=
  let r := (cr_Namespace repo, cr_Name repo) in
  if bool_decide (r ∈ wanted) then match ociChartOf repo with Some c => <[r := c]> out | None => out end else out.

Definition because (why : string) (st : ociRead) : ociRead :=
  if or_why st =s "" then mkOciRead (or_out st) why (or_cache st) (or_clock st) else st.

Definition compareRefs (a b : ociRef) : Z := cmpOr (cmpStr a.1 b.1) (cmpStr a.2 b.2).

Definition sortRefs (refs : list ociRef) : list ociRef := isort (fun a b => compareRefs a b <=? 0) refs.

(** The namespaces of sorted refs, each once. *)
Fixpoint namespacesOf (prev : option string) (refs : list ociRef) : list string :=
  match refs with
  | [] => []
  | r :: rest =>
      if bool_decide (prev = Some r.1) then namespacesOf prev rest else r.1 :: namespacesOf (Some r.1) rest
  end.

Section Flux.
Context (clock : nat -> Time) (api : gitopsAPI) (fuel : nat) (gvr : GroupVersionResource) (wanted : gset ociRef).

(** A call of [expire]. *)
Definition expireNow (st : ociRead) : ociRead :=
  match or_cache st with
  | None => st
  | Some c => mkOciRead (or_out st) (or_why st) (Some (expire (clock (or_clock st)) c)) (S (or_clock st))
  end.

(** The clock is read for a list that was refused. *)
Definition askRefused (ns : string) (st : ociRead) : bool * ociRead :=
  match or_cache st with
  | None => (false, st)
  | Some c =>
      match c !! ((gvr, ns) : gitopsList) with
      | None => (false, st)
      | Some _ => (wasRefused (clock (or_clock st)) (gvr, ns) c, mkOciRead (or_out st) (or_why st) (Some c) (S (or_clock st)))
      end
  end.

(** The clock is read for a refusal. *)
Definition recordNow (ns : string) (err : option (bool * string)) (st : ociRead) : ociRead :=
  match or_cache st with
  | None => st
  | Some c =>
      mkOciRead (or_out st) (or_why st) (Some (recordList (clock (or_clock st)) (gvr, ns) (fst <$> err) c))
        (match err with Some (true, _) => S (or_clock st) | _ => or_clock st end)
  end.

(** [list]: whether what it lists was asked for and not refused. *)
Definition listRepos (ns : string) (st : ociRead) : option (bool * ociRead) :=
  let '(refused, st) := askRefused ns st in
  if refused then Some (false, st)
  else match listCustomResourcesIn (keepRepo wanted) api gvr ns fuel (or_out st) with
  | None => None
  | Some (out, err) =>
      let st := recordNow ns err (mkOciRead out (or_why st) (or_cache st) (or_clock st)) in
      Some match err with
      | Some (true, _) => (false, st)
      | Some (false, e) => (true, because (if ns =s "" then e +:+ " (cluster-wide)" else e +:+ " (in namespace " +:+ ns +:+ ")") st)
      | None => (true, st)
      end
  end.

Definition refName (r : ociRef) : string := r.1 +:+ "/" +:+ r.2.

(** A GET by name. *)
Definition getRepo (st : ociRead) (r : ociRef) : ociRead :=
  match ga_get api gvr r.1 r.2 with
  | Err e => because ("get ocirepository " +:+ refName r +:+ ": " +:+ e) st
  | Ok repo => mkOciRead (keepRepo wanted (or_out st) repo) (or_why st) (or_cache st) (or_clock st)
  end.

(** The namespaces in turn. *)
Fixpoint readNamespaces (refs : list ociRef) (namespaces : list string) (st : ociRead) : option ociRead :=
  match namespaces with
  | [] => Some st
  | ns :: rest =>
      match listRepos ns st with
      | None => None
      | Some (true, st) => readNamespaces refs rest st
      | Some (false, st) => readNamespaces refs rest (foldl getRepo st (List.filter (fun r => r.1 =s ns) refs))
      end
  end.

Definition missing (out : gmap ociRef ociChart) (refs : list ociRef) : option ociRef :=
  find (fun r => negb (bool_decide (is_Some (out !! r)))) refs.

(** [readOCIRepositories] of a resource that is served. *)
Definition readRepos (st : ociRead) : option ociRead :=
  let st := expireNow st in
  let refs := sortRefs (elements wanted) in
  let namespaces := namespacesOf None refs in
  let finish st := match missing (or_out st) refs with
    | Some r => because ("ocirepository " +:+ refName r +:+ " not found, or names no chart") st
    | None => st
    end in
  match namespaces with
  | [ns] => finish <$> readNamespaces refs [ns] st
  | _ =>
      match listRepos "" st with
      | None => None
      | Some (true, st) => Some (finish st)
      | Some (false, st) => finish <$> readNamespaces refs namespaces st
      end
  end.
End Flux.

Definition readOCIRepositories (clock : nat -> Time) (api : gitopsAPI) (fuel : nat) (gvr : option GroupVersionResource)
    (wanted : gset ociRef) (st : ociRead) : option ociRead :=
  match gvr with
  | None => Some st
  | Some gvr => if bool_decide (wanted = ∅) then Some st else readRepos clock api fuel gvr wanted st
  end.

(** ** Flux *)

(** The charts so far, each with the OCIRepository it awaits. *)
Definition fluxCharts : Type := list (GitOpsChart * option ociRef).

Definition orNamespace (ns : string) (hr : customResource) : string := if ns =s "" then cr_Namespace hr else ns.

(** The chart of [spec.chart.spec]. *)
Definition fluxChart (c : GitOpsChart) (hr : customResource) (cs : object) : GitOpsChart :=
  let sr := mapAt (Some cs) "sourceRef" in
  let kind := stringAt sr "kind" in
  let chart := stringAt (Some cs) "chart" in
  let repo := match sr with
    | Some _ => kind +:+ "/" +:+ orNamespace (stringAt sr "namespace") hr +:+ "/" +:+ stringAt sr "name"
    | None => g_Repo c
    end in
  let chart := if negb (kind =s "") && negb (kind =s "HelmRepository") then pathBase (trimSlashes chart) else chart in
  mkGitOpsChart (g_Tool c) (g_Name c) (g_Namespace c) (g_Target c) chart (stringAt (Some cs) "version") repo.

Definition fluxRelease `{Content} (acc : toolState * fluxCharts) (hr : customResource) : toolState * fluxCharts :=
  let '(s, out) := acc in
  let s := saw s in
  let spec := mapAt (Some (cr_Object hr)) "spec" in
  match mapAt spec "kubeConfig" with
  | Some _ => (sawForeign s, out)
  | None =>
      let target := orNamespace (stringAt spec "targetNamespace") hr in
      if negb (plausibleTarget target) then (sawInvalid s, out)
      else
        let c := mkGitOpsChart (gt_id (ts_tool s)) (cr_Name hr) (cr_Namespace hr) target "" "" "" in
        match mapAt (mapAt spec "chart") "spec" with
        | Some cs =>
            let c := fluxChart c hr cs in
            (s, if plausibleChartName (g_Chart c) then out ++ [(c, None)] else out)
        | None =>
            match mapAt spec "chartRef" with
            | None => (s, out)
            | Some cr =>
                if negb (stringAt (Some cr) "kind" =s "OCIRepository") then (sawUnresolved s, out)
                else (s, out ++ [(c, Some (orNamespace (stringAt (Some cr) "namespace") hr, stringAt (Some cr) "name"))])
            end
        end
  end.

Definition resolveChart (repos : gmap ociRef ociChart) (acc : toolState * list GitOpsChart) (x : GitOpsChart * option ociRef)
    : toolState * list GitOpsChart :=
  let '(s, resolved) := acc in
  let '(c, awaited) := x in
  match awaited with
  | None => (s, resolved ++ [c])
  | Some r =>
      match repos !! r with
      | None => (sawUnresolved s, resolved)
      | Some repo =>
          (s, resolved ++ [mkGitOpsChart (g_Tool c) (g_Name c) (g_Namespace c) (g_Target c) (oc_chart repo) (oc_version repo) (oc_url repo)])
      end
  end.

Definition readFluxHelmReleases `{Content} (clock : nat -> Time) (api : gitopsAPI) (fuel : nat) (groups : list (string * list string))
    (cache : option GitOpsCache) (gvr : GroupVersionResource) (s : toolState)
    : option (toolState * list GitOpsChart * option string * option GitOpsCache) :=
  match listCustomResourcesIn fluxRelease api gvr "" fuel (s, []) with
  | None => None
  | Some ((s, _), Some (_, e)) => Some (s, [], Some e, cache)
  | Some ((s, out), None) =>
      match omap snd out with
      | [] => Some (s, map fst out, None, cache)
      | refs =>
          let repository := match servedResource api (servedVersions groups fluxSource) fluxSource fluxSourceVersion "ocirepositories" with
            | Ok g => g
            | Err _ => None
            end in
          match readOCIRepositories clock api fuel repository (list_to_set refs) (mkOciRead ∅ (ts_unresolvedWhy s) cache 0) with
          | None => None
          | Some st =>
              let '(s, resolved) := foldl (resolveChart (or_out st)) (set_why (or_why st) s, []) out in
              Some (s, resolved, None, or_cache st)
          end
      end
  end.

(** ** The tools of a cluster *)

(** Which of the clients of the step are configured. *)
Record gitopsClients := mkGitopsClients { gc_Discovery : bool; gc_Metadata : bool; gc_Dynamic : bool }.

Definition findTool (api : gitopsAPI) (groups : list (string * list string)) (s : toolState) : toolState :=
  let t := ts_tool s in
  match servedResource api (servedVersions groups (gt_group t)) (gt_group t) (gt_versions t) (gt_resource t) with
  | Err e => set_failure (gt_label t +:+ " chart sources not read: discovery of " +:+ gt_resource t +:+ "." +:+ gt_group t +:+ ": " +:+ e) s
  | Ok gvr => set_gvr gvr s
  end.

Definition readTool `{Content} `{Destinations} (clock : nat -> Time) (api : gitopsAPI) (fuel : nat) (groups : list (string * list string))
    (cache : option GitOpsCache) (s : toolState) : option (toolState * list GitOpsChart * option GitOpsCache) :=
  match ts_gvr s with
  | None => Some (s, [], cache)
  | Some gvr =>
      let read :=
        if gt_id (ts_tool s) =s GitOpsArgoCD then
          match readArgoApplications api fuel gvr s with Some (s, charts, err) => Some (s, charts, err, cache) | None => None end
        else if gt_id (ts_tool s) =s GitOpsFlux then readFluxHelmReleases clock api fuel groups cache gvr s
        else Some (s, [], None, cache) in
      match read with
      | None => None
      | Some (s, _, Some e, cache) => Some (set_failure (gt_label (ts_tool s) +:+ " chart sources not read: " +:+ e) s, [], cache)
      | Some (s, charts, None, cache) => Some (set_listed (zlen charts) s, charts, cache)
      end
  end.

Fixpoint readTools `{Content} `{Destinations} (clock : nat -> Time) (api : gitopsAPI) (fuel : nat) (groups : list (string * list string))
    (cache : option GitOpsCache) (states : list toolState) : option (list toolState * list GitOpsChart * option GitOpsCache) :=
  match states with
  | [] => Some ([], [], cache)
  | s :: rest =>
      match readTool clock api fuel groups cache s with
      | None => None
      | Some (s, charts, cache) =>
          match readTools clock api fuel groups cache rest with
          | None => None
          | Some (rest, more, cache) => Some (s :: rest, charts ++ more, cache)
          end
      end
  end.

Definition reportable (s : toolState) : bool :=
  match present s with Some _ => true | None => negb (ts_failure s =s "") || negb (ts_read s =? 0) end.

Definition trimStates (states : list toolState) : list toolState := List.filter reportable states.

(** The states and the charts added to the inventory. *)
Definition collectGitOps `{Content} `{Destinations} (clock : nat -> Time) (api : gitopsAPI) (fuel : nat) (cl : gitopsClients) (noReleases : bool)
    (cache : option GitOpsCache) : option (list toolState * list GitOpsChart * option GitOpsCache) :=
  if negb (gc_Discovery cl) then Some ([], [], cache)
  else
    let states := map newToolState gitopsTools in
    match ga_groups api with
    | Err e =>
        Some (map (fun s => set_failure ("API discovery failed, so it is not known whether " +:+ gt_label (ts_tool s) +:+
                                         " is installed or what it deploys: " +:+ e) s) states, [], cache)
    | Ok groups =>
        let states := map (findTool api groups) states in
        match (if noReleases && gc_Metadata cl then markWorkloads api fuel workloadMarkerResources states else Some states) with
        | None => None
        | Some states =>
            if negb (gc_Dynamic cl) then Some (trimStates states, [], cache)
            else match readTools clock api fuel groups cache states with
                 | None => None
                 | Some (states, charts, cache) => Some (trimStates states, charts, cache)
                 end
        end
    end.

(** ** The outcome *)

Definition nothingDeployed (s : toolState) : bool :=
  negb (gt_rendersOnly (ts_tool s)) && ts_listed s && (ts_seen s - ts_foreign s - ts_invalid s =? 0).

Definition saysIf (b : bool) (msg : string) : list string := if b then [msg] else [].

(** What a tool adds to the messages, and whether it is a gap. *)
Definition toolGap (noReleases : bool) (s : toolState) : list string * bool :=
  let t := ts_tool s in
  let unresolved := 0 <? ts_unresolved s in
  let rendered := gt_rendersOnly t && (0 <? ts_read s) && negb noReleases in
  let absent := match present s with Some evidence => if noReleases && negb (nothingDeployed s) then Some evidence else None | None => None end in
  (saysIf (0 <? ts_foreign s) (itoa (ts_foreign s) +:+ " " +:+ gt_label t +:+ " chart source(s) deploy to other clusters, not counted") ++
   saysIf (0 <? ts_invalid s) (itoa (ts_invalid s) +:+ " " +:+ gt_label t +:+ " chart source(s) deploy to a target that is not a namespace name, not counted") ++
   saysIf (negb (ts_failure s =s "")) (ts_failure s) ++
   saysIf unresolved (itoa (ts_unresolved s) +:+ " HelmRelease chartRef(s) not resolved to a chart" +:+
                      (if ts_unresolvedWhy s =s "" then "" else " (" +:+ ts_unresolvedWhy s +:+ ")")) ++
   saysIf rendered (itoa (ts_read s) +:+ " " +:+ gt_label t +:+ " chart(s) read from Applications leave no Helm release: chart kubeVersion and stored-manifest checks were not assessed for them; " +:+ gt_note t) ++
   match absent with
   | Some evidence =>
       ["no Helm releases read, but " +:+ gt_label t +:+ " is present (" +:+ evidence +:+ "): chart kubeVersion and stored-manifest checks were not assessed for the charts it deploys" +:+
        (if gt_note t =s "" then "" else "; " +:+ gt_note t)]
   | None => []
   end,
   negb (ts_failure s =s "") || unresolved || rendered || match absent with Some _ => true | None => false end).

Definition readCounts (states : list toolState) : list string :=
  omap (fun s => if 0 <? ts_read s then Some (itoa (ts_read s) +:+ " via " +:+ gt_label (ts_tool s)) else None) states.

Definition withGitOps (pe : partialError) (states : list toolState) (noReleases : bool) : partialError :=
  let counts := readCounts states in
  let msgs := pe_msg pe ::
    match counts with [] => [] | _ => ["GitOps chart sources: " +:+ Join counts ", "] end ++
    flat_map (fun s => (toolGap noReleases s).1) states in
  let skipping := List.filter (fun s => (toolGap noReleases s).2) states in
  mkPartialError (Join msgs "; ") (pe_incomplete pe || match skipping with [] => false | _ => true end)
    (sort_strings (pe_skipped pe ++ map (fun s => gt_id (ts_tool s)) skipping)).

(** [collectHelmStep]: the releases, the charts, the outcome and the two
    caches. *)
Definition collectHelmStep `{HelmDecoders} `{Content} `{Destinations} (clock : nat -> Time) (helm : helmAPI) (api : gitopsAPI) (fuel : nat)
    (cl : gitopsClients) (lifecycle : list APILifecycleEntry) (cache : option HelmCache) (namespaces : list string) (gitops : option GitOpsCache)
    : option (list HelmRelease * list GitOpsChart * helmOutcome * (option HelmCache * option GitOpsCache)) :=
  match collectHelm helm fuel lifecycle cache namespaces with
  | None => None
  | Some (rels, out, cache) =>
      let none := match rels with [] => true | _ => false end in
      let available := match out with inr _ => true | inl _ => false end in
      match collectGitOps clock api fuel cl (available && none) gitops with
      | None => None
      | Some (states, charts, gitops) =>
          let out := match out with
            | inl e =>
                inl (if 0 <? zlen charts then e +:+ "; " +:+ itoa (zlen charts) +:+ " GitOps chart source(s) were read and still feed add-on detection" else e)
            | inr pe => inr match states with [] => pe | _ => withGitOps pe states none end
            end in
          Some (rels, charts, out, (cache, gitops))
      end
  end.

(** The helm step of a collection, whose inventory holds no chart
    before it. *)
Definition helmStepOf `{HelmDecoders} `{Content} `{Destinations} (clock : nat -> Time) (helm : helmAPI) (api : gitopsAPI) (fuel : nat)
    (cl : gitopsClients) (lifecycle : list APILifecycleEntry) (cache : option HelmCache) (namespaces : list string) (gitops : option GitOpsCache)
    (inv : Inventory) : option (list HelmRelease * list GitOpsChart * option stepError) :=
  match collectHelmStep clock helm api fuel cl lifecycle cache namespaces gitops with
  | None => None
  | Some (rels, charts, out, _) => Some (rels, GitOpsCharts inv ++ charts, Some (stepErrorOf out))
  end.
