(* ===== verification/GitOpsSpec.v ===== *)
(** * What the collection of GitOps charts promises

    No credential of a repository URL is recorded; an OCIRepository's chart
    is that of the resource named; the cache of refused lists saves requests
    and changes nothing else; and charts whose tool leaves no release, or
    could not be read, are a gap of the report. *)

From stdpp Require Import base list strings gmap sorting.
From Stdlib Require Import ZArith Lia Ascii.
From S2P Require Import Prelude GoStr GoTime Version Inventory KB Findings Calls AddOns Gaps Crd Evaluate Glob Admit Conform Detect DetectSpec ClaimSpec Tally PodPass PodPassSpec ControlPlane Usage HelmStore HelmStoreSpec Collector CollectorSpec GitOps.

(** ** Bytes of a URL *)

Definition unbroken (s : string) : Prop := allBytes (fun a => negb (urlBreak a)) s = true.

(** A query or a fragment, or nothing. *)
Definition queryOf (q : string) : Prop := match q with ""%string => True | String a _ => urlBreak a = true end.

Lemma allBytes_app p s t : allBytes p (s +:+ t) = allBytes p s && allBytes p t.
Proof. induction s as [|a s IH]; [done|]. rewrite app_cons_s. cbn [allBytes]. rewrite IH. apply andb_assoc. Qed.

Lemma allBytes_impl (p q : ascii -> bool) s : (forall a, p a = true -> q a = true) -> allBytes p s = true -> allBytes q s = true.
Proof. intros Hpq. induction s as [|a s IH]; [done|]. cbn [allBytes]. rewrite !andb_true_iff. intros [Ha Hs]. auto. Qed.

Lemma allBytes_no c (p : ascii -> bool) s : p c = false -> allBytes p s = true -> no_byte c s.
Proof.
  intros Hc. induction s as [|a s IH]; [done|]. cbn [allBytes]. rewrite andb_true_iff, no_byte_cons. intros [Ha Hs].
  split; [intros ->; congruence|auto].
Qed.

Lemma split_at_unbroken s q : unbroken s -> queryOf q -> split_at urlBreak (s +:+ q) = (s, q).
Proof.
  unfold unbroken. intros Hs Hq. induction s as [|a s IH].
  - rewrite app_nil_s. destruct q as [|a q]; [done|]. cbn in Hq |- *. by rewrite Hq.
  - cbn [allBytes] in Hs. apply andb_true_iff in Hs as [Ha Hs]. apply negb_true_iff in Ha.
    rewrite app_cons_s. cbn [split_at]. by rewrite Ha, (IH Hs).
Qed.

Lemma split_at_clean s : ((split_at urlBreak s).2 =s "") = allBytes (fun a => negb (urlBreak a)) s.
Proof.
  induction s as [|a s IH]; [done|]. cbn [split_at allBytes]. destruct (urlBreak a); [done|]. destruct (split_at urlBreak s). exact IH.
Qed.

(** ** Digests *)

Lemma isDigest_tail d : isDigest d = true -> exists t, d = String "@" t /\ no_byte "@" t /\ unbroken t /\ t <> ""%string.
Proof.
  unfold isDigest. rewrite existsb_exists. intros (alg & Halg & H).
  destruct (CutPrefix d _) as [sum|] eqn:E; [|done]. apply andb_true_iff in H as [_ Hhex].
  apply CutPrefix_spec in E as ->. exists (alg +:+ ":" +:+ sum). rewrite app_assoc_s. split; [by rewrite app_assoc_s|].
  assert (Hs : no_byte "@" sum /\ unbroken sum).
  { split; [by apply (allBytes_no _ isHex)|]. revert Hhex. apply allBytes_impl. intros [[] [] [] [] [] [] [] []]; vm_compute; congruence. }
  destruct Hs as [Hs1 Hs2]. unfold unbroken in *.
  assert (no_byte "@" alg /\ allBytes (fun a => negb (urlBreak a)) alg = true) as [Ha1 Ha2] by (repeat destruct Halg as [<-|Halg]; try done).
  split_and!.
  - apply no_byte_app. split; [done|]. apply no_byte_app. done.
  - by rewrite !allBytes_app, Ha2, Hs2.
  - by destruct alg.
Qed.

Lemma ociDigestSuffix_Some s b d : ociDigestSuffix s = Some (b, d) -> s = b +:+ d /\ isDigest d = true.
Proof.
  revert b d. induction s as [|a s IH]; intros b d; cbn [ociDigestSuffix].
  - destruct (isDigest "") eqn:E; [|done]. by intros [= <- <-].
  - destruct (isDigest (String a s)) eqn:E; [by intros [= <- <-]|].
    destruct (ociDigestSuffix s) as [[b' d']|]; [|done]. intros [= <- <-]. destruct (IH b' d' eq_refl) as [-> Hd]. done.
Qed.

Lemma ociDigestSuffix_app b d : isDigest d = true -> ociDigestSuffix (b +:+ d) = Some (b, d).
Proof.
  intros Hd. destruct (isDigest_tail d Hd) as (t & -> & _ & _ & _). induction b as [|a b IH].
  - rewrite app_nil_s. cbn [ociDigestSuffix]. by rewrite Hd.
  - rewrite app_cons_s. cbn [ociDigestSuffix]. destruct (isDigest (String a (b +:+ String "@" t))) eqn:E.
    + apply isDigest_tail in E as (t' & [= _ <-] & Ht & _). apply no_byte_app in Ht as [_ Ht]. by apply no_byte_cons in Ht as [? _].
    + by rewrite IH.
Qed.

Lemma cut_last_split s c : match cut_last s c with Some (b, r) => s = b +:+ String c r /\ no_byte c r | None => no_byte c s end.
Proof.
  induction s as [|a s IH]; [done|]. cbn [cut_last]. destruct (cut_last s c) as [[b r]|].
  - destruct IH as [-> Hr]. done.
  - destruct (Ascii.eqb a c) eqn:E; [apply Ascii.eqb_eq in E as ->; done|]. apply Ascii.eqb_neq in E. by apply no_byte_cons.
Qed.

Lemma unbroken_cases s : unbroken s \/ allBytes (fun a => negb (urlBreak a)) s = false.
Proof. unfold unbroken. destruct (allBytes _ s); auto. Qed.

Lemma registryHost_unbroken s : registryHost s = true -> unbroken s.
Proof.
  destruct s as [|a s]; [done|]. unfold registryHost, unbroken. rewrite !andb_true_iff. intros [[_ H] _]. revert H.
  apply allBytes_impl. intros [[] [] [] [] [] [] [] []]; vm_compute; congruence.
Qed.

Lemma ociRegistryPath_unbroken s : ociRegistryPath s = true -> unbroken s.
Proof.
  unfold ociRegistryPath, Cut. destruct (cut_opt s "/") as [[auth path]|] eqn:E; [|done].
  apply cut_opt_Some in E as ->. rewrite !andb_true_iff. intros [[_ Hp] Ha]. unfold unbroken. rewrite !allBytes_app, !andb_true_iff.
  split_and!; [|done|revert Hp; apply allBytes_impl; intros a; destruct (urlBreak a); [by rewrite orb_true_r|done]].
  destruct (cut_opt auth ":") as [[host port]|] eqn:E2; [|by apply registryHost_unbroken].
  apply cut_opt_Some in E2 as ->. rewrite !andb_true_iff in Ha. destruct Ha as [[Hh _] Hd]. rewrite !allBytes_app, !andb_true_iff.
  split_and!; [by apply registryHost_unbroken|done|]. revert Hd. apply allBytes_impl. intros [[] [] [] [] [] [] [] []]; vm_compute; congruence.
Qed.

(** ** What is shown of a URL *)

(** [redactRepoURL] of what follows the scheme: what is left of it, and the
    digest. *)
Definition shownRest (rest : string) : option (string * string) :=
  let '(rest, digest) := match ociDigestSuffix rest with
    | Some (before, d) => if ociRegistryPath (afterAt before) then (before, d) else (rest, ""%string)
    | None => (rest, ""%string)
    end in
  match cut_last rest "@" with
  | Some (before, after) => if negb ((split_at urlBreak before).2 =s "") then None else Some ((split_at urlBreak after).1, digest)
  | None => Some ((split_at urlBreak rest).1, digest)
  end.

Lemma validScheme_no_colon s : validScheme s = true -> no_byte ":" s.
Proof.
  unfold validScheme. rewrite andb_true_iff. intros [H _]. revert H. generalize true at 1. induction s as [|a s IH]; intros b; [done|].
  cbn [schemeBytes]. rewrite andb_true_iff, no_byte_cons. intros [Ha Hs]. split; [|by eapply IH].
  intros ->. by destruct b.
Qed.

Lemma cut_opt_here s sep : HasPrefix s sep = true -> cut_opt s sep = Some (""%string, drop_len s sep).
Proof. intros H. destruct s; cbn [cut_opt]; by rewrite H. Qed.

Lemma Cut_scheme scheme rest : no_byte ":" scheme -> Cut (scheme +:+ "://" +:+ rest) "://" = (scheme, rest, true).
Proof.
  intros Hs. unfold Cut. assert (cut_opt (scheme +:+ "://" +:+ rest) "://" = Some (scheme, rest)) as ->; [|done].
  induction scheme as [|a s IH].
  - rewrite app_nil_s, (cut_opt_here _ _ (HasPrefix_app "://" rest)). by rewrite (drop_len_app "://" rest).
  - apply no_byte_cons in Hs as [Ha Hs]. rewrite app_cons_s. cbn [cut_opt HasPrefix].
    assert (Ascii.eqb ":" a = false) as -> by (by apply Ascii.eqb_neq). cbn [andb]. by rewrite (IH Hs).
Qed.

Lemma redact_scheme raw scheme rest : validScheme scheme = true -> strippedURL raw = scheme +:+ "://" +:+ rest ->
  redactRepoURL raw = match shownRest rest with
    | None => ""%string
    | Some (r, digest) => if (Cut r "/").1.1 =s "" then ""%string else scheme +:+ "://" +:+ r +:+ digest
    end.
Proof.
  intros Hv E. unfold redactRepoURL, shownRest. rewrite E. rewrite (Cut_scheme _ _ (validScheme_no_colon _ Hv)). rewrite Hv.
  destruct (ociDigestSuffix rest) as [[before d]|].
  - destruct (ociRegistryPath (afterAt before)).
    + destruct (cut_last before "@") as [[b a]|]; [|done]. by destruct (negb _).
    + destruct (cut_last rest "@") as [[b a]|]; [|done]. by destruct (negb _).
  - destruct (cut_last rest "@") as [[b a]|]; [|done]. by destruct (negb _).
Qed.

(** A part of a URL after its userinfo. *)
Definition plainPart (s : string) : Prop := no_byte "@" s /\ unbroken s.

Lemma cut_last_at u r : no_byte "@" r -> cut_last (u +:+ String "@" r) "@" = Some (u, r).
Proof. apply cut_last_app. Qed.

(** Userinfo with its "@", or nothing. *)
Definition userinfo (p : string) : Prop := p = ""%string \/ exists u, p = u +:+ String "@" "".

Abbreviation whole s := (allBytes (fun a => negb (urlBreak a)) s) (only parsing).

Lemma broken_app u s : queryOf s -> s <> ""%string -> whole (u +:+ s) = false.
Proof. intros Hs Hne. rewrite allBytes_app. destruct s as [|a s]; [done|]. cbn in Hs |- *. rewrite Hs. apply andb_false_r. Qed.

Lemma cut_last_unique u r b t : no_byte "@" r -> no_byte "@" t -> u +:+ String "@" r = b +:+ String "@" t -> u = b /\ r = t.
Proof. intros Hr Ht E. apply (f_equal (fun s => cut_last s "@")) in E. rewrite !cut_last_app in E by done. by simplify_eq. Qed.

Lemma userinfo_cut p r : userinfo p -> no_byte "@" r ->
  cut_last (p +:+ r) "@" = None /\ p = ""%string \/ exists u, p = u +:+ String "@" "" /\ cut_last (p +:+ r) "@" = Some (u, r) /\ whole p = whole u.
Proof.
  intros [->|[u ->]] Hr; [left; by rewrite app_nil_s, cut_last_no_byte|]. right. exists u. rewrite app_assoc_s. split; [done|].
  split; [by apply cut_last_app|]. rewrite allBytes_app. apply andb_true_r.
Qed.

Lemma userinfo_after p r : userinfo p -> no_byte "@" r -> afterAt (p +:+ r) = r.
Proof.
  intros Hp Hr. unfold afterAt. destruct (userinfo_cut p r Hp Hr) as [[-> ->]|(u & _ & -> & _)]; done.
Qed.

(** An "@" of a query ends what is taken for a userinfo, and that holds the
    break the query begins with. *)
Lemma shownRest_query s q : queryOf q -> no_byte "@" q \/ ~ no_byte "@" q /\ shownRest (s +:+ q) = None.
Proof.
  intros Hq. pose proof (cut_last_split q "@") as Hc. destruct (cut_last q "@") as [[q1 q2]|] eqn:E; [right|by left].
  destruct Hc as [-> H2]. split; [intros [_ [? _]%no_byte_cons]%no_byte_app; done|]. assert (Hb : whole (s +:+ q1) = false).
  { destruct q1 as [|a q1]; [done|]. by apply broken_app. }
  assert (Hcut : forall d, match cut_last (s +:+ q1 +:+ String "@" q2) "@" with
     | Some (before, after) => if negb ((split_at urlBreak before).2 =s "") then None else Some ((split_at urlBreak after).1, d)
     | None => Some ((split_at urlBreak (s +:+ q1 +:+ String "@" q2)).1, d)
     end = (None : option (string * string))).
  { intros d. by rewrite <- app_assoc_s, cut_last_app, split_at_clean, Hb. }
  unfold shownRest. destruct (ociDigestSuffix _) as [[b d]|] eqn:Ed; [|apply Hcut].
  destruct (ociRegistryPath (afterAt b)) eqn:Er; [|apply Hcut].
  apply ociDigestSuffix_Some in Ed as [Eb Hd]. apply isDigest_tail in Hd as (t & -> & Ht & _).
  rewrite <- app_assoc_s in Eb. apply cut_last_unique in Eb as [<- _]; [|done..].
  apply ociRegistryPath_unbroken in Er. unfold afterAt in Er. pose proof (cut_last_split (s +:+ q1) "@") as Hs.
  destruct (cut_last (s +:+ q1) "@") as [[before after]|]; [|unfold unbroken in Er; congruence].
  destruct Hs as [Hs _]. rewrite Hs, allBytes_app in Hb. cbn [allBytes] in Hb. unfold unbroken in Er. rewrite Er in Hb.
  rewrite andb_true_r in Hb. by rewrite split_at_clean, Hb.
Qed.

Definition shownAfter (p r digest : string) : option (string * string) := if whole p then Some (r, digest) else None.

Lemma shownRest_cut p r q digest : userinfo p -> plainPart r -> queryOf q -> no_byte "@" q ->
  match cut_last (p +:+ r +:+ q) "@" with
  | Some (before, after) => if negb ((split_at urlBreak before).2 =s "") then None else Some ((split_at urlBreak after).1, digest)
  | None => Some ((split_at urlBreak (p +:+ r +:+ q)).1, digest)
  end = shownAfter p r digest.
Proof.
  intros Hp [Hr Hu] Hq Hn. assert (no_byte "@" (r +:+ q)) as Hrq by by apply no_byte_app.
  unfold shownAfter. destruct (userinfo_cut p (r +:+ q) Hp Hrq) as [[-> ->]|(u & _ & -> & ->)].
  - rewrite app_nil_s. by rewrite (split_at_unbroken r q Hu Hq).
  - rewrite split_at_clean, (split_at_unbroken r q Hu Hq). by destruct (whole u).
Qed.

Lemma shownRest_plain p r q : userinfo p -> plainPart r -> queryOf q -> no_byte "@" q -> isDigest (String "@" (r +:+ q)) = false ->
  shownRest (p +:+ r +:+ q) = shownAfter p r "".
Proof.
  intros Hp Hr Hq Hn Hd. unfold shownRest. destruct (ociDigestSuffix _) as [[b d]|] eqn:Ed; [exfalso|by apply shownRest_cut].
  apply ociDigestSuffix_Some in Ed as [Eb Hd']. destruct (isDigest_tail d Hd') as (t & -> & Ht & _).
  assert (no_byte "@" (r +:+ q)) as Hrq by (apply no_byte_app; split; [apply Hr|done]).
  destruct Hp as [->|[u ->]].
  - rewrite app_nil_s in Eb. rewrite Eb in Hrq. apply no_byte_app in Hrq as [_ Hrq]. by apply no_byte_cons in Hrq as [? _].
  - rewrite app_assoc_s in Eb. apply cut_last_unique in Eb as [_ E]; [|done..]. rewrite <- E in Hd'. congruence.
Qed.

Lemma shownRest_digest p r t : userinfo p -> plainPart r -> plainPart t -> isDigest (String "@" t) = true ->
  shownRest (p +:+ r +:+ String "@" t) = if ociRegistryPath r then shownAfter p r (String "@" t) else shownAfter p t "".
Proof.
  intros Hp Hr Ht Hd. unfold shownRest. rewrite <- app_assoc_s, (ociDigestSuffix_app _ _ Hd). rewrite (userinfo_after p r Hp (proj1 Hr)).
  destruct (ociRegistryPath r).
  - pose proof (shownRest_cut p r "" (String "@" t) Hp Hr I eq_refl) as H. by rewrite app_nil_r_s in H.
  - rewrite (cut_last_app _ _ _ (proj1 Ht)), split_at_clean, allBytes_app. unfold shownAfter.
    assert (whole r = true) as -> by apply Hr. rewrite andb_true_r.
    pose proof (split_at_unbroken t "" (proj2 Ht) I) as E. rewrite app_nil_r_s in E. rewrite E. by destruct (whole p).
Qed.

(** What comes before the userinfo: a scheme, or nothing where the text has
    none. *)
Definition urlHead (head rest : string) : Prop :=
  (exists scheme, head = scheme +:+ "://" /\ validScheme scheme = true) \/
  (head = ""%string /\ match Cut rest "://" with (scheme, _, true) => validScheme scheme = false | _ => True end).

(** Nothing is shown of a URL with a scheme and no host. *)
Definition hostless (head r : string) : bool := negb (head =s "") && ((Cut r "/").1.1 =s "").

Lemma redact_shown raw head rest : urlHead head rest -> strippedURL raw = head +:+ rest ->
  redactRepoURL raw = match shownRest rest with
    | None => ""%string
    | Some (r, digest) => if hostless head r then ""%string else head +:+ r +:+ digest
    end.
Proof.
  intros [(scheme & -> & Hv)|[-> Hc]] E.
  - rewrite app_assoc_s in E. rewrite (redact_scheme raw scheme rest Hv E). destruct (shownRest rest) as [[r d]|]; [|done].
    unfold hostless. assert ((scheme +:+ "://" =s "") = false) as -> by (by destruct scheme). cbn [negb andb]. by rewrite app_assoc_s.
  - rewrite app_nil_s in E. unfold redactRepoURL, shownRest, hostless. rewrite E. cbn [String.eqb negb andb].
    assert (match Cut rest "://" with
      | (scheme, rest', true) => if validScheme scheme then (scheme, rest', true) else (""%string, rest, false)
      | (_, _, false) => (""%string, rest, false)
      end = (""%string, rest, false)) as ->.
    { destruct (Cut rest "://") as [[scheme rest'] []]; [by rewrite Hc|done]. }
    destruct (ociDigestSuffix rest) as [[before d]|]; [destruct (ociRegistryPath (afterAt before))|].
    all: match goal with |- context [cut_last ?s "@"] => destruct (cut_last s "@") as [[b a]|] end; try done; by destruct (negb _).
Qed.

(** What may be shown of a URL: nothing of it depends on its userinfo or on
    its query. *)
Definition publicParts (head r d : string) : list string :=
  [""%string; head +:+ r; head +:+ r +:+ d; head +:+ TrimPrefix d "@"].

Lemma shown_public raw head rest p r digest : urlHead head rest -> strippedURL raw = head +:+ rest -> shownRest rest = shownAfter p r digest ->
  redactRepoURL raw = (if whole p && negb (hostless head r) then head +:+ r +:+ digest else "")%string.
Proof.
  intros Hh E Hs. rewrite (redact_shown raw head rest Hh E), Hs. unfold shownAfter. destruct (whole p); [|done]. by destruct (hostless head r).
Qed.

Lemma unbroken_digest s : whole s = false -> isDigest (String "@" s) = false.
Proof. intros Hs. apply not_true_iff_false. intros (t & [= <-] & _ & Hu & _)%isDigest_tail. unfold unbroken in Hu. congruence. Qed.


(** ** Lists of custom resources *)

(** The resources a list returns, and its error. *)
Fixpoint pagesIn (api : gitopsAPI) (gvr : GroupVersionResource) (ns : string) (fuel k : nat) (cont : string)
    : option (list customResource * option (bool * string)) :=
  match fuel with
  | O => None
  | S fuel' =>
      match ga_list api gvr ns k cont with
      | ResourceError forbidden msg => Some ([], Some (forbidden, "list " +:+ gvr.2 +:+ ": " +:+ msg))
      | ResourcePage items cont' =>
          if cont' =s "" then Some (items, None)
          else match pagesIn api gvr ns fuel' (S k) cont' with
               | Some (more, err) => Some (items ++ more, err)
               | None => None
               end
      end
  end.

Definition listedIn (api : gitopsAPI) (gvr : GroupVersionResource) (ns : string) (fuel : nat) : option (list customResource * option (bool * string)) :=
  pagesIn api gvr ns fuel 0 "".

Lemma listPagesIn_pages {S} (fn : S -> customResource -> S) api gvr ns fuel k cont st :
  listPagesIn fn api gvr ns fuel k cont st =
  match pagesIn api gvr ns fuel k cont with Some (items, err) => Some (foldl fn st items, err) | None => None end.
Proof.
  revert k cont st. induction fuel as [|fuel IH]; intros k cont st; [done|]. cbn [listPagesIn pagesIn].
  destruct (ga_list api gvr ns k cont) as [items cont'|]; [|done]. destruct (cont' =s ""); [done|]. rewrite IH.
  destruct (pagesIn _ _ _ _ _ _) as [[more err]|]; [|done]. by rewrite foldl_app.
Qed.

Lemma list_listed {S} (fn : S -> customResource -> S) api gvr ns fuel st :
  listCustomResourcesIn fn api gvr ns fuel st =
  match listedIn api gvr ns fuel with Some (items, err) => Some (foldl fn st items, err) | None => None end.
Proof. apply listPagesIn_pages. Qed.

(** ** The cache of refused lists *)

Section Cache.
Context (clock : nat -> Time) (api : gitopsAPI) (fuel : nat).

Definition refusedAtOnce (l : gitopsList) : Prop := exists msg, ga_list api l.1 l.2 0 "" = ResourceError true msg.

(** A list the apiserver refuses it refuses from the first page. *)
Definition refusesWhole : Prop :=
  forall gvr ns k cont msg, ga_list api gvr ns k cont = ResourceError true msg -> refusedAtOnce (gvr, ns).

(** What a cache remembers is still so, if it is less than an hour old. *)
Definition stillRefused (c : GitOpsCache) : Prop :=
  forall l at_, c !! l = Some at_ -> Sub (clock 0) at_ < ForbiddenListRecheck -> refusedAtOnce l.

Definition allRefused (c : GitOpsCache) : Prop := forall l at_, c !! l = Some at_ -> refusedAtOnce l.

Lemma expire_refused c : stillRefused c -> allRefused (expire (clock 0) c).
Proof. intros Hc l at_ [Hl Ha]%map_lookup_filter_Some. by eapply Hc. Qed.

Lemma pagesIn_refused gvr ns k cont items msg f :
  refusesWhole -> pagesIn api gvr ns f k cont = Some (items, Some (true, msg)) -> refusedAtOnce (gvr, ns).
Proof.
  intros Hw. revert k cont items. induction f as [|f IH]; intros k cont items; [done|]. cbn [pagesIn].
  destruct (ga_list api gvr ns k cont) as [its cont'|fb m] eqn:E; [|intros [= _ -> _]; by eapply Hw].
  destruct (cont' =s ""); [done|]. destruct (pagesIn _ _ _ _ _ _) as [[more err]|] eqn:E2; [|done]. intros [= _ ->]. by eapply IH.
Qed.

Lemma record_refused now l err c : (err = Some true -> refusedAtOnce l) -> allRefused c -> allRefused (recordList now l err c).
Proof.
  intros He Hc l' at_. destruct err as [[]|]; unfold recordList.
  - intros [[<- _]|[_ Hl]]%lookup_insert_Some; [by apply He|by eapply Hc].
  - apply Hc.
  - intros [_ Hl]%lookup_delete_Some. by eapply Hc.
Qed.

(** The same reading with a cache and without. *)
Definition alike (st st0 : ociRead) : Prop :=
  or_out st = or_out st0 /\ or_why st = or_why st0 /\ or_cache st0 = None /\ exists c, or_cache st = Some c /\ allRefused c.

Lemma alike_because why st st0 : alike st st0 -> alike (because why st) (because why st0).
Proof. intros (E1 & E2 & E3 & c & E4 & Hc). unfold because. rewrite <- E2. destruct (or_why st =s ""); split_and!; cbn; eauto. Qed.

Context (gvr : GroupVersionResource) (wanted : gset ociRef).

Lemma listRepos_alike ns st st0 b st0' :
  refusesWhole -> alike st st0 -> listRepos clock api fuel gvr wanted ns st0 = Some (b, st0') ->
  exists st', listRepos clock api fuel gvr wanted ns st = Some (b, st') /\ alike st' st0'.
Proof.
  intros Hw (E1 & E2 & E3 & c & E4 & Hc). unfold listRepos, askRefused, recordNow. rewrite E3, E4, list_listed.
  destruct (c !! ((gvr, ns) : gitopsList)) as [at_|] eqn:El.
  - destruct (Hc _ _ El) as [msg Hmsg]. cbn in Hmsg. destruct (wasRefused _ _ c).
    + unfold listedIn. destruct fuel as [|f]; [done|]. cbn [pagesIn]. rewrite Hmsg. cbn. rewrite E3. intros [= <- <-].
      eexists. split; [done|]. split_and!; cbn; eauto.
    + cbn [or_out or_why or_cache or_clock]. rewrite E1, list_listed. destruct (listedIn api gvr ns fuel) as [[items err]|] eqn:Ep; [|done].
      assert (Hr : fst <$> err = Some true -> refusedAtOnce (gvr, ns)) by (intros _; by exists msg).
      rewrite E2, E3. destruct err as [[[] e]|]; intros [= <- <-]; eexists; (split; [done|]); try apply alike_because; split_and!; cbn; try done; eexists; (split; [reflexivity|]); exact (record_refused (clock 0) (gvr, ns) _ c Hr Hc) || exact (record_refused _ (gvr, ns) (Some true) c Hr Hc).
  - cbn [or_out or_why or_cache or_clock]. rewrite E1, E3, list_listed. destruct (listedIn api gvr ns fuel) as [[items err]|] eqn:Ep; [|done].
    assert (Hr : fst <$> err = Some true -> refusedAtOnce (gvr, ns)).
    { destruct err as [[[] e]|]; try done. intros _. by eapply pagesIn_refused. }
    rewrite E2. destruct err as [[[] e]|]; intros [= <- <-]; eexists; (split; [done|]); try apply alike_because; split_and!; cbn; rewrite ?E4; try done; eexists; (split; [reflexivity|]); exact (record_refused (clock 0) (gvr, ns) _ c Hr Hc) || exact (record_refused _ (gvr, ns) (Some true) c Hr Hc).
Qed.

Lemma getRepo_alike st st0 r : alike st st0 -> alike (getRepo api gvr wanted st r) (getRepo api gvr wanted st0 r).
Proof.
  intros Ha. unfold getRepo. destruct (ga_get _ _ _ _) as [repo|e]; [|by apply alike_because].
  destruct Ha as (E1 & E2 & E3 & Hc). split_and!; cbn; [by rewrite E1|done..].
Qed.

Lemma getRepos_alike refs st st0 : alike st st0 -> alike (foldl (getRepo api gvr wanted) st refs) (foldl (getRepo api gvr wanted) st0 refs).
Proof. revert st st0. induction refs as [|r refs IH]; intros st st0 Ha; [done|]. cbn. by apply IH, getRepo_alike. Qed.

Lemma readNamespaces_alike refs nss st st0 st0' :
  refusesWhole -> alike st st0 -> readNamespaces clock api fuel gvr wanted refs nss st0 = Some st0' ->
  exists st', readNamespaces clock api fuel gvr wanted refs nss st = Some st' /\ alike st' st0'.
Proof.
  intros Hw. revert st st0. induction nss as [|ns nss IH]; intros st st0 Ha; cbn [readNamespaces]; [intros [= <-]; eauto|].
  destruct (listRepos clock api fuel gvr wanted ns st0) as [[b st1]|] eqn:E; [|done].
  destruct (listRepos_alike ns st st0 b st1 Hw Ha E) as (st1' & -> & Ha1). destruct b; [by apply IH|]. apply IH. by apply getRepos_alike.
Qed.

Lemma readRepos_alike st st0 st0' :
  refusesWhole -> or_out st = or_out st0 -> or_why st = or_why st0 -> or_cache st0 = None -> or_clock st = 0%nat ->
  (exists c, or_cache st = Some c /\ stillRefused c) -> readRepos clock api fuel gvr wanted st0 = Some st0' ->
  exists st', readRepos clock api fuel gvr wanted st = Some st' /\ alike st' st0'.
Proof.
  intros Hw E1 E2 E3 E0 (c & E4 & Hc). unfold readRepos.
  assert (Ha : alike (expireNow clock st) (expireNow clock st0)).
  { unfold expireNow. rewrite E3, E4, E0. split_and!; [done..|]. eexists. split; [done|]. by apply expire_refused. }
  set (refs := sortRefs _). set (finish := fun s => _).
  assert (Hf : forall s s0, alike s s0 -> alike (finish s) (finish s0)).
  { intros s s0 Hs. unfold finish. rewrite (proj1 Hs). destruct (missing _ _); [by apply alike_because|done]. }
  assert (Hn : forall nss s s0 s0', alike s s0 -> finish <$> readNamespaces clock api fuel gvr wanted refs nss s0 = Some s0' ->
    exists s', finish <$> readNamespaces clock api fuel gvr wanted refs nss s = Some s' /\ alike s' s0').
  { intros nss s s0 s0' Hs (s1 & H1 & ->)%fmap_Some. destruct (readNamespaces_alike refs nss s s0 s1 Hw Hs H1) as (s' & -> & Hs'). eauto. }
  assert (Hl : match listRepos clock api fuel gvr wanted "" (expireNow clock st0) with
      | None => None
      | Some (true, s0) => Some (finish s0)
      | Some (false, s0) => finish <$> readNamespaces clock api fuel gvr wanted refs (namespacesOf None refs) s0
      end = Some st0' ->
    exists st', match listRepos clock api fuel gvr wanted "" (expireNow clock st) with
      | None => None
      | Some (true, s) => Some (finish s)
      | Some (false, s) => finish <$> readNamespaces clock api fuel gvr wanted refs (namespacesOf None refs) s
      end = Some st' /\ alike st' st0').
  { destruct (listRepos _ _ _ _ _ "" (expireNow clock st0)) as [[b s0]|] eqn:E; [|done].
    destruct (listRepos_alike "" _ _ b s0 Hw Ha E) as (s & -> & Hs). destruct b; [|by apply Hn]. intros [= <-]. eauto. }
  destruct (namespacesOf None refs) as [|ns [|ns' nss]]; [exact Hl|by apply Hn|exact Hl].
Qed.
End Cache.

Section Transparent.
Context `{Content} `{Destinations} (clock : nat -> Time) (api : gitopsAPI) (fuel : nat) (groups : list (string * list string)).
Context (Hwhole : refusesWhole api).

Abbreviation still c := (stillRefused clock api c) (only parsing).

Lemma all_still c : allRefused api c -> still c.
Proof. intros Hc l at_ Hl _. by eapply Hc. Qed.

Lemma readOCI_transparent gvr wanted why c st0 :
  still c -> readOCIRepositories clock api fuel gvr wanted (mkOciRead ∅ why None 0) = Some st0 ->
  exists st c', readOCIRepositories clock api fuel gvr wanted (mkOciRead ∅ why (Some c) 0) = Some st /\
    or_out st = or_out st0 /\ or_why st = or_why st0 /\ or_cache st0 = None /\ or_cache st = Some c' /\ still c'.
Proof using Hwhole.
  intros Hc. unfold readOCIRepositories. destruct gvr as [gvr|]; [case_bool_decide|].
  1,3: intros [= <-]; eexists _, c; split_and!; done.
  intros E. edestruct (readRepos_alike clock api fuel gvr wanted (mkOciRead ∅ why (Some c) 0)) as (st & -> & E1 & E2 & E3 & c' & E4 & Hc');
    [done| | | | | |exact E|]; try done; [by exists c|]. exists st, c'. split_and!; try done. by apply all_still.
Qed.

Lemma readFlux_transparent gvr s c s' charts err c0 :
  still c -> readFluxHelmReleases clock api fuel groups None gvr s = Some (s', charts, err, c0) ->
  c0 = None /\ exists c', readFluxHelmReleases clock api fuel groups (Some c) gvr s = Some (s', charts, err, Some c') /\ still c'.
Proof using Hwhole.
  intros Hc. unfold readFluxHelmReleases. destruct (listCustomResourcesIn _ _ _ _ _ _) as [[[s1 out] [[f e]|]]|]; [| |done].
  { intros [= <- <- <- <-]. eauto. }
  destruct (omap snd out) as [|r refs]; [intros [= <- <- <- <-]; eauto|].
  destruct (readOCIRepositories _ _ _ _ _ (mkOciRead ∅ _ None 0)) as [st0|] eqn:E; [|done].
  destruct (readOCI_transparent _ _ _ _ _ Hc E) as (st & c' & -> & -> & -> & -> & -> & Hc').
  destruct (foldl _ _ out) as [s2 resolved]. intros [= <- <- <- <-]. eauto.
Qed.

Lemma readTool_transparent s c s' charts c0 :
  still c -> readTool clock api fuel groups None s = Some (s', charts, c0) ->
  c0 = None /\ exists c', readTool clock api fuel groups (Some c) s = Some (s', charts, Some c') /\ still c'.
Proof using Hwhole.
  intros Hc. unfold readTool. destruct (ts_gvr s) as [gvr|]; [|intros [= <- <- <-]; eauto].
  destruct (gt_id (ts_tool s) =s GitOpsArgoCD).
  { destruct (readArgoApplications api fuel gvr s) as [[[s1 ch] [e|]]|]; [| |done]; intros [= <- <- <-]; eauto. }
  destruct (gt_id (ts_tool s) =s GitOpsFlux); [|intros [= <- <- <-]; eauto].
  destruct (readFluxHelmReleases clock api fuel groups None gvr s) as [[[[s1 ch] err] c1]|] eqn:E; [|done].
  destruct (readFlux_transparent _ _ _ _ _ _ _ Hc E) as (-> & c' & -> & Hc'). destruct err as [e|]; intros [= <- <- <-]; eauto.
Qed.

Lemma readTools_transparent states c states' charts c0 :
  still c -> readTools clock api fuel groups None states = Some (states', charts, c0) ->
  c0 = None /\ exists c', readTools clock api fuel groups (Some c) states = Some (states', charts, Some c') /\ still c'.
Proof using Hwhole.
  revert c states' charts c0. induction states as [|s rest IH]; intros c states' charts c0 Hc; cbn [readTools]; [intros [= <- <- <-]; eauto|].
  destruct (readTool clock api fuel groups None s) as [[[s1 ch] c1]|] eqn:E; [|done].
  destruct (readTool_transparent _ _ _ _ _ Hc E) as (-> & c2 & -> & Hc2).
  destruct (readTools clock api fuel groups None rest) as [[[rest' more] c3]|]; [|done].
  destruct (IH _ _ _ _ Hc2 eq_refl) as (-> & c4 & -> & Hc4). intros [= <- <- <-]. eauto.
Qed.
End Transparent.

(** What the agent remembers of refused lists saves requests and changes
    nothing else. Where a list is refused from its first page, and the lists
    remembered as refused within the hour still are: a collection with the
    cache tells the same of the tools and records the same charts as one
    that asks for every list, and what the cache then remembers is refused
    again. What it remembers for an hour or longer may be granted by now:
    it is asked for. *)
Lemma gitops_cache_transparent `{Content} `{Destinations} (clock : nat -> Time) (api : gitopsAPI) (fuel : nat) (cl : gitopsClients)
    (noReleases : bool) (c : GitOpsCache) (states : list toolState) (charts : list GitOpsChart) (c0 : option GitOpsCache) :
  refusesWhole api -> stillRefused clock api c ->
  collectGitOps clock api fuel cl noReleases None = Some (states, charts, c0) ->
  exists c', collectGitOps clock api fuel cl noReleases (Some c) = Some (states, charts, Some c') /\ stillRefused clock api c'.
Proof.
  intros Hw Hc. unfold collectGitOps. destruct (negb (gc_Discovery cl)); [intros [= <- <- _]; eauto|].
  destruct (ga_groups api) as [groups|e]; [|intros [= <- <- _]; eauto]. cbv zeta.
  destruct (if noReleases && gc_Metadata cl then _ else _) as [marked|]; [|done].
  destruct (negb (gc_Dynamic cl)); [intros [= <- <- _]; eauto|].
  destruct (readTools clock api fuel groups None marked) as [[[read ch] c1]|] eqn:E; [|done].
  destruct (readTools_transparent clock api fuel groups Hw marked c read ch c1 Hc E) as (-> & c' & -> & Hc'). intros [= <- <- _]. eauto.
Qed.

(** ** What resolves a reference *)

Section Resolve.
Context (clock : nat -> Time) (api : gitopsAPI) (fuel : nat) (gvr : GroupVersionResource) (wanted : gset ociRef).

(** A repository the apiserver answered with. *)
Definition answered (repo : customResource) : Prop :=
  (exists ns items err, listedIn api gvr ns fuel = Some (items, err) /\ repo ∈ items) \/ (exists ns name, ga_get api gvr ns name = Ok repo).

Definition resolvedBy (r : ociRef) (ch : ociChart) : Prop :=
  r ∈ wanted /\ exists repo, answered repo /\ (cr_Namespace repo, cr_Name repo) = r /\ ociChartOf repo = Some ch.

Definition soundOut (out : gmap ociRef ociChart) : Prop := forall r ch, out !! r = Some ch -> resolvedBy r ch.

Lemma keepRepo_sound out repo : soundOut out -> answered repo -> soundOut (keepRepo wanted out repo).
Proof.
  intros Hs Ha. unfold keepRepo. case_bool_decide as Hw; [|done]. destruct (ociChartOf repo) as [ch|] eqn:E; [|done].
  intros r c [[<- <-]|[_ Hr]]%lookup_insert_Some; [|by apply Hs]. split; [done|]. by exists repo.
Qed.

Lemma because_out why st : or_out (because why st) = or_out st.
Proof. unfold because. by destruct (or_why st =s ""). Qed.

Lemma listRepos_sound ns st b st' : soundOut (or_out st) -> listRepos clock api fuel gvr wanted ns st = Some (b, st') -> soundOut (or_out st').
Proof.
  intros Hs. unfold listRepos. destruct (askRefused _ _ _ st) as [refused st1] eqn:Ea.
  assert (or_out st1 = or_out st) as E1.
  { unfold askRefused in Ea. destruct (or_cache st) as [c|]; [destruct (c !! _)|]; by injection Ea as _ <-. }
  destruct refused; [intros [= <- <-]; by rewrite E1|]. rewrite list_listed. destruct (listedIn api gvr ns fuel) as [[items err]|] eqn:El; [|done].
  assert (Hf : forall l out, (forall x, x ∈ l -> x ∈ items) -> soundOut out -> soundOut (foldl (keepRepo wanted) out l)).
  { induction l as [|x l IH]; intros out Hl Ho; [done|]. cbn. apply IH; [set_solver|]. apply keepRepo_sound; [done|]. left. exists ns, items, err.
    split; [done|apply Hl; left]. }
  specialize (Hf items (or_out st1) (fun _ h => h)). rewrite E1 in *. specialize (Hf Hs).
  assert (Hrec : forall s, or_out (recordNow clock gvr ns err s) = or_out s) by (intros s; unfold recordNow; by destruct (or_cache s)).
  intros Heq. destruct err as [[[] e]|]; injection Heq as _ <-; rewrite ?because_out, Hrec; exact Hf.
Qed.

Lemma getRepos_sound refs st : soundOut (or_out st) -> soundOut (or_out (foldl (getRepo api gvr wanted) st refs)).
Proof.
  revert st. induction refs as [|r refs IH]; intros st Hs; [done|]. cbn. apply IH. unfold getRepo. destruct (ga_get _ _ _ _) as [repo|e] eqn:E.
  - apply keepRepo_sound; [done|]. right. eauto.
  - by rewrite because_out.
Qed.

Lemma readNamespaces_sound refs nss st st' :
  soundOut (or_out st) -> readNamespaces clock api fuel gvr wanted refs nss st = Some st' -> soundOut (or_out st').
Proof.
  revert st. induction nss as [|ns nss IH]; intros st Hs; cbn [readNamespaces]; [by intros [= <-]|].
  destruct (listRepos _ _ _ _ _ ns st) as [[b st1]|] eqn:E; [|done]. pose proof (listRepos_sound _ _ _ _ Hs E) as H1.
  destruct b; [by apply IH|]. apply IH. by apply getRepos_sound.
Qed.

(** What is left unresolved has a reason. *)
Definition reasoned (st : ociRead) : Prop := forall r, r ∈ wanted -> or_out st !! r = None -> or_why st <> ""%string.

Lemma finish_reasoned refs st : (forall r, r ∈ wanted -> r ∈ refs) ->
  let st' := match missing (or_out st) refs with
    | Some r => because ("ocirepository " +:+ refName r +:+ " not found, or names no chart") st
    | None => st
    end in or_out st' = or_out st /\ reasoned st'.
Proof.
  intros Hrefs. cbv zeta. unfold missing. destruct (find _ refs) as [r|] eqn:E.
  - split; [apply because_out|]. intros r' _ _. unfold because. destruct (or_why st =s "") eqn:Ew; [done|]. by apply String.eqb_neq in Ew.
  - split; [done|]. intros r Hr Hn. exfalso. eapply List.find_none in E; [|by apply list_elem_of_In, Hrefs].
    rewrite Hn in E. by rewrite bool_decide_false in E by (intros [? ?]; done).
Qed.

Lemma readRepos_sound st st' : soundOut (or_out st) -> readRepos clock api fuel gvr wanted st = Some st' -> soundOut (or_out st') /\ reasoned st'.
Proof.
  intros Hs. unfold readRepos. assert (soundOut (or_out (expireNow clock st))) as H0 by (unfold expireNow; by destruct (or_cache st)).
  set (refs := sortRefs _). assert (Hrefs : forall r, r ∈ wanted -> r ∈ refs).
  { intros r Hr. unfold refs, sortRefs. rewrite isort_perm. by apply elem_of_elements. }
  set (finish := fun s => match missing _ _ with Some r => _ | None => _ end).
  assert (Hf : forall s, soundOut (or_out s) -> soundOut (or_out (finish s)) /\ reasoned (finish s)).
  { intros s Ho. destruct (finish_reasoned refs s Hrefs) as [E Hr]. split; [unfold finish; by rewrite E|exact Hr]. }
  assert (Hn : forall nss s s', soundOut (or_out s) -> finish <$> readNamespaces clock api fuel gvr wanted refs nss s = Some s' -> soundOut (or_out s') /\ reasoned s').
  { intros nss s s' Ho (s1 & H1 & ->)%fmap_Some. apply Hf. by eapply readNamespaces_sound. }
  assert (Hl : match listRepos clock api fuel gvr wanted "" (expireNow clock st) with
      | None => None
      | Some (true, s) => Some (finish s)
      | Some (false, s) => finish <$> readNamespaces clock api fuel gvr wanted refs (namespacesOf None refs) s
      end = Some st' -> soundOut (or_out st') /\ reasoned st').
  { destruct (listRepos _ _ _ _ _ "" _) as [[b s]|] eqn:E; [|done]. pose proof (listRepos_sound _ _ _ _ H0 E) as Hs1.
    destruct b; [|by apply Hn]. intros [= <-]. by apply Hf. }
  destruct (namespacesOf None refs) as [|ns [|ns' nss]]; [exact Hl|by apply Hn|exact Hl].
Qed.
End Resolve.

(** A chart reference is resolved by the resource it names, and what is
    not resolved has a reason: whatever lists are refused and whatever the
    cache remembers, a chart resolved for a reference is the one of an
    OCIRepository of that namespace and name which the apiserver answered
    with, for a reference that was asked for; and when a reference that was
    asked for is not resolved, a first reason is recorded. *)
Lemma readOCIRepositories_resolves (clock : nat -> Time) (api : gitopsAPI) (fuel : nat) (gvr : GroupVersionResource) (wanted : gset ociRef)
    (why : string) (cache : option GitOpsCache) (clocked : nat) (st : ociRead) :
  wanted <> ∅ -> readOCIRepositories clock api fuel (Some gvr) wanted (mkOciRead ∅ why cache clocked) = Some st ->
  (forall r ch, or_out st !! r = Some ch -> resolvedBy api fuel gvr wanted r ch) /\
  (forall r, r ∈ wanted -> or_out st !! r = None -> or_why st <> ""%string).
Proof.
  intros Hw. unfold readOCIRepositories. rewrite bool_decide_false by done. intros E. eapply readRepos_sound; [|exact E].
  intros r ch. cbn. by rewrite lookup_empty.
Qed.

(** ** Gaps *)

(** The tool and its resource, which reading does not change. *)
Definition sameTool (s s' : toolState) : Prop := ts_gvr s' = ts_gvr s /\ ts_tool s' = ts_tool s.

(** The resources seen that deploy to a namespace of this cluster. *)
Definition deployed (s : toolState) : Z := ts_seen s - ts_foreign s - ts_invalid s.

Definition ofTool (t : gitopsTool) (c : GitOpsChart) : Prop := g_Tool c = gt_id t.

Section Reading.
Context `{Content} `{Destinations}.

(** A HelmRelease that deploys to a namespace of this cluster. *)
Definition deploysHere (hr : customResource) : bool :=
  let spec := mapAt (Some (cr_Object hr)) "spec" in
  match mapAt spec "kubeConfig" with
  | Some _ => false
  | None => plausibleTarget (orNamespace (stringAt spec "targetNamespace") hr)
  end.

Lemma argoSource_spec app dest s out src : let acc := argoSource app dest (s, out) src in
  sameTool s acc.1 /\ (Forall (ofTool (ts_tool s)) out -> Forall (ofTool (ts_tool s)) acc.2).
Proof.
  unfold argoSource, sameTool. destruct s. cbv zeta. repeat (case_match; simplify_eq/=); split; try done;
    intros Hf; apply Forall_app; (split; [done|]); by repeat constructor.
Qed.

Lemma argoApplication_spec s out app : let acc := argoApplication (s, out) app in
  sameTool s acc.1 /\ (Forall (ofTool (ts_tool s)) out -> Forall (ofTool (ts_tool s)) acc.2).
Proof.
  unfold argoApplication. cbn [fst snd]. cbv zeta.
  assert (Hs : sameTool s (saw s)) by by destruct s. revert Hs. generalize (saw s). generalize (mapAt (mapAt (Some (cr_Object app)) "spec") "destination").
  intros dest. induction (argoSources _) as [|src srcs IH] in out |- *; intros s' [E1 E2]; [done|]. cbn [foldl].
  pose proof (argoSource_spec app dest s' out src) as [[F1 F2] F3]. destruct (argoSource _ _ _ _) as [s2 out2]. cbn [fst snd] in *.
  rewrite E2 in F3. destruct (IH out2 s2) as [G1 G2]; [split; congruence|]. auto.
Qed.

Lemma readArgo_spec api fuel gvr s s' ch err : readArgoApplications api fuel gvr s = Some (s', ch, err) ->
  sameTool s s' /\ Forall (ofTool (ts_tool s)) ch /\ exists items e, listedIn api gvr "" fuel = Some (items, e) /\ err = snd <$> e.
Proof.
  unfold readArgoApplications. rewrite list_listed. destruct (listedIn _ _ _ _) as [[items e]|]; [|done].
  destruct (foldl argoApplication (s, []) items) as [s1 out] eqn:E. intros [= <- <- <-].
  assert (Hg : forall acc, sameTool s acc.1 -> Forall (ofTool (ts_tool s)) acc.2 ->
    sameTool s (foldl argoApplication acc items).1 /\ Forall (ofTool (ts_tool s)) (foldl argoApplication acc items).2).
  { clear. induction items as [|app items IH]; intros [s1 out] [E1 E2] Ho; [done|]. cbn [foldl].
    destruct (argoApplication_spec s1 out app) as [[F1 F2] F3]. cbn [fst snd] in *. rewrite E2 in F3. apply IH; [split; congruence|auto]. }
  destruct (Hg (s, [])) as [H1 H2]; [done|constructor|]. rewrite E in H1, H2. split_and!; [done..|]. eauto.
Qed.

Lemma saw_counts s : (sameTool s (saw s) /\ deployed (saw s) = deployed s + 1) /\ (sameTool s (sawForeign s) /\ deployed (sawForeign s) = deployed s - 1) /\
  (sameTool s (sawInvalid s) /\ deployed (sawInvalid s) = deployed s - 1) /\ (sameTool s (sawUnresolved s) /\ deployed (sawUnresolved s) = deployed s).
Proof. unfold sameTool, deployed. destruct s; cbn. split_and!; lia || done. Qed.

Lemma fluxChart_tool c hr cs : g_Tool (fluxChart c hr cs) = g_Tool c.
Proof. done. Qed.

Lemma fluxRelease_spec s (out : fluxCharts) hr : let acc := fluxRelease (s, out) hr in
  sameTool s acc.1 /\ deployed acc.1 = deployed s + (if deploysHere hr then 1 else 0) /\
  (Forall (fun x => ofTool (ts_tool s) x.1) out -> Forall (fun x => ofTool (ts_tool s) x.1) acc.2).
Proof.
  unfold fluxRelease, deploysHere. cbv zeta. destruct (saw_counts s) as ([[E1 E2] E3] & _).
  destruct (saw_counts (saw s)) as (_ & [[F1 F2] F3] & [[G1 G2] G3] & [[I1 I2] I3]).
  set (spec := mapAt (Some (cr_Object hr)) "spec"). destruct (mapAt spec "kubeConfig"); [split_and!; cbn; [split; congruence|lia|done]|].
  destruct (plausibleTarget _); cbn [negb]; [|split_and!; cbn; [split; congruence|lia|done]].
  destruct (mapAt (mapAt spec "chart") "spec") as [cs|].
  { split_and!; cbn; [done|lia|]. intros Hf. destruct (plausibleChartName _); [|done]. apply Forall_app. split; [done|].
    repeat constructor. unfold ofTool. cbn. by rewrite E2. }
  destruct (mapAt spec "chartRef") as [cr|]; [|split_and!; cbn; [done|lia|done]].
  destruct (_ =s "OCIRepository"); cbn [negb]; [|split_and!; cbn; [split; congruence|lia|done]].
  split_and!; cbn; [done|lia|]. intros Hf. apply Forall_app. split; [done|]. repeat constructor. unfold ofTool. cbn. by rewrite E2.
Qed.

Definition hereOf (items : list customResource) : Z := foldr (fun hr n => (if deploysHere hr then 1 else 0) + n) 0 items.

Lemma fluxReleases_spec items s (out : fluxCharts) : let acc := foldl fluxRelease (s, out) items in
  Forall (fun x => ofTool (ts_tool s) x.1) out ->
  sameTool s acc.1 /\ deployed acc.1 = deployed s + hereOf items /\ Forall (fun x => ofTool (ts_tool s) x.1) acc.2.
Proof.
  cbv zeta. revert s out. induction items as [|hr items IH]; intros s out Ho; [cbn; split_and!; [done|lia|done]|].
  change (hereOf (hr :: items)) with ((if deploysHere hr then 1 else 0) + hereOf items). cbn [foldl].
  destruct (fluxRelease_spec s out hr) as ([E1 E2] & E3 & E4). destruct (fluxRelease (s, out) hr) as [s1 out1]. cbn [fst snd] in *.
  specialize (E4 Ho). rewrite <- E2 in E4. destruct (IH s1 out1 E4) as ([F1 F2] & F3 & F4). rewrite E2 in F4.
  split_and!; [split; congruence|lia|done].
Qed.

Lemma resolveCharts_spec repos out s acc : let r := foldl (resolveChart repos) (s, acc) out in
  Forall (fun x => ofTool (ts_tool s) x.1) out -> Forall (ofTool (ts_tool s)) acc ->
  sameTool s r.1 /\ deployed r.1 = deployed s /\ Forall (ofTool (ts_tool s)) r.2.
Proof.
  cbv zeta. revert s acc. induction out as [|[c awaited] out IH]; intros s acc Ho Ha; cbn [foldl]; [done|]. apply Forall_cons in Ho as [Hc Ho].
  assert (Hstep : let '(s1, acc1) := resolveChart repos (s, acc) (c, awaited) in
    sameTool s s1 /\ deployed s1 = deployed s /\ Forall (ofTool (ts_tool s)) acc1).
  { unfold resolveChart, sameTool, deployed. destruct awaited as [r|]; [destruct (repos !! r)|]; split_and!; try done; try (by destruct s);
      apply Forall_app; (split; [done|]); by repeat constructor. }
  destruct (resolveChart _ _ _) as [s1 acc1]. destruct Hstep as ([E1 E2] & E3 & E4). rewrite <- E2 in Ho, E4.
  destruct (IH s1 acc1 Ho E4) as ([F1 F2] & F3 & F4). rewrite E2 in F4. split_and!; [split; congruence|congruence|done].
Qed.

Lemma readFlux_spec clock api fuel groups c gvr s s' ch err c' : readFluxHelmReleases clock api fuel groups c gvr s = Some (s', ch, err, c') ->
  sameTool s s' /\ Forall (ofTool (ts_tool s)) ch /\
  exists items e, listedIn api gvr "" fuel = Some (items, e) /\ err = snd <$> e /\ deployed s' = deployed s + hereOf items.
Proof.
  unfold readFluxHelmReleases. rewrite list_listed. destruct (listedIn _ _ _ _) as [[items e]|]; [|done].
  destruct (foldl fluxRelease (s, []) items) as [s1 out] eqn:Ef.
  assert (Hs : sameTool s (s1, out).1 /\ deployed (s1, out).1 = deployed s + hereOf items /\ Forall (fun x => ofTool (ts_tool s) x.1) (s1, out).2).
  { rewrite <- Ef. apply fluxReleases_spec, Forall_nil_2. }
  cbn [fst snd] in Hs. destruct Hs as (E1 & E2 & E3). clear Ef.
  destruct e as [[fb e]|].
  { intros [= <- <- <- <-]. split; [done|]. split; [constructor|]. by exists items, (Some (fb, e)). }
  assert (Hm : Forall (ofTool (ts_tool s)) (map fst out)) by (by apply Forall_fmap).
  destruct (omap snd out) as [|r refs]; [intros [= <- <- <- <-]; split_and!; try done; exists items, None; done|].
  destruct (readOCIRepositories _ _ _ _ _ _) as [st|]; [|done].
  set (s2 := set_why _ s1). assert (Es : sameTool s1 s2 /\ deployed s2 = deployed s1) by (by destruct s1). destruct Es as [[F1 F2] F3]. destruct E1 as [E1 E1'].
  assert (Ho : Forall (fun x => ofTool (ts_tool s2) x.1) out) by (by rewrite F2, E1').
  destruct (resolveCharts_spec (or_out st) out s2 [] Ho (Forall_nil_2 _)) as ([G1 G2] & G3 & G4).
  destruct (foldl (resolveChart _) (s2, []) out) as [s3 resolved]. cbn [fst snd] in *. intros [= <- <- <- <-]. rewrite F2, E1' in G4.
  split; [split; congruence|]. split; [done|]. exists items, None. split_and!; [done..|congruence].
Qed.
End Reading.

Section Pipeline.
Context `{Content} `{Destinations} (clock : nat -> Time) (api : gitopsAPI) (fuel : nat).

Definition toolServed (groups : list (string * list string)) (t : gitopsTool) : res (option GroupVersionResource) :=
  servedResource api (servedVersions groups (gt_group t)) (gt_group t) (gt_versions t) (gt_resource t).

(** A tool before its resources are read. *)
Definition found (groups : list (string * list string)) (t : gitopsTool) (s : toolState) : Prop :=
  s = findTool api groups (newToolState t) \/ (served (findTool api groups (newToolState t)) = false /\ s = set_marked (findTool api groups (newToolState t))).

Lemma markWorkload_found groups ts states m : Forall2 (found groups) ts states -> Forall2 (found groups) ts (markWorkload states m).
Proof.
  intros Hf. unfold markWorkload. induction Hf as [|t s ts states Hs Hf IH]; cbn; constructor; [|done].
  destruct (pendingTool s && _) eqn:E; [|done]. apply andb_true_iff in E as [E _]. unfold pendingTool in E. apply andb_true_iff in E as [E _].
  apply negb_true_iff in E. destruct Hs as [->|[Hn ->]]; [by right|right; split; [done|]]. by destruct (findTool _ _ _).
Qed.

Lemma markPages_found groups ts f k gvr cont states states' :
  Forall2 (found groups) ts states -> markPages api f k gvr cont states = Some states' -> Forall2 (found groups) ts states'.
Proof.
  revert k cont states. induction f as [|f IH]; intros k cont states Hf; cbn [markPages]; (destruct (negb (pending states)); [by intros [= <-]|]); [done|].
  destruct (ga_workloads _ _ _ _) as [items cont'|]; [|by intros [= <-]].
  assert (Hf' : Forall2 (found groups) ts (foldl markWorkload states items)).
  { revert states Hf. induction items as [|m items IHi]; intros states Hf; [done|]. cbn. by apply IHi, markWorkload_found. }
  destruct (cont' =s ""); [by intros [= <-]|]. by apply IH.
Qed.

Lemma markWorkloads_found groups ts gvrs states states' :
  Forall2 (found groups) ts states -> markWorkloads api fuel gvrs states = Some states' -> Forall2 (found groups) ts states'.
Proof.
  revert states. induction gvrs as [|g gvrs IH]; intros states Hf; cbn [markWorkloads]; [by intros [= <-]|].
  destruct (negb (pending states)); [by intros [= <-]|]. destruct (markPages _ _ _ _ _ _) as [st|] eqn:E; [|done].
  apply IH. by eapply markPages_found.
Qed.

(** What a tool's resources gave. *)
Definition toolRead (groups : list (string * list string)) (s s' : toolState) (ch : list GitOpsChart) : Prop :=
  exists c c', readTool clock api fuel groups c s = Some (s', ch, c').

Lemma readTools_each groups c states states' charts c' : readTools clock api fuel groups c states = Some (states', charts, c') ->
  exists chs, Forall2 (fun s x => toolRead groups s x.1 x.2) states (zip states' chs) /\ length chs = length states' /\ charts = concat chs.
Proof.
  revert c states' charts c'. induction states as [|s rest IH]; intros c states' charts c'; cbn [readTools].
  { intros [= <- <- _]. by exists []. }
  destruct (readTool clock api fuel groups c s) as [[[s1 ch] c1]|] eqn:E; [|done].
  destruct (readTools clock api fuel groups c1 rest) as [[[rest' more] c2]|] eqn:E2; [|done]. intros [= <- <- _].
  destruct (IH _ _ _ _ E2) as (chs & Hf & Hl & ->). exists (ch :: chs). split_and!; [|cbn; by rewrite Hl|done]. constructor; [by exists c, c1|done].
Qed.

(** The states and charts of a collection that asked for its groups. *)
Lemma collectGitOps_tools cl none c groups states charts c' :
  collectGitOps clock api fuel cl none c = Some (states, charts, c') -> gc_Discovery cl = true -> ga_groups api = Ok groups ->
  exists s1 s2, found groups argoTool s1 /\ found groups fluxTool s2 /\
    (if gc_Dynamic cl
     then exists s1' s2' ch1 ch2, toolRead groups s1 s1' ch1 /\ toolRead groups s2 s2' ch2 /\ states = trimStates [s1'; s2'] /\ charts = ch1 ++ ch2
     else states = trimStates [s1; s2] /\ charts = []).
Proof.
  intros Hc Hd Hg. unfold collectGitOps in Hc. rewrite Hd, Hg in Hc. cbn [negb] in Hc. cbv zeta in Hc.
  assert (Hi : Forall2 (found groups) gitopsTools (map (findTool api groups) (map newToolState gitopsTools))).
  { repeat constructor. }
  destruct (if none && gc_Metadata cl then _ else _) as [marked|] eqn:Em; [|done].
  assert (Hm : Forall2 (found groups) gitopsTools marked).
  { destruct (none && gc_Metadata cl); [by eapply markWorkloads_found|by injection Em as <-]. }
  clear Hi Em. inversion Hm as [|? s1 ? l1 H1 Hm1]; subst. inversion Hm1 as [|? s2 ? l2 H2 Hm2]; subst. inversion Hm2; subst. clear Hm Hm1 Hm2.
  exists s1, s2. split_and!; [done..|]. destruct (gc_Dynamic cl); cbn [negb] in Hc; [|by injection Hc as <- <- _].
  destruct (readTools clock api fuel groups c [s1; s2]) as [[[states' ch] c2]|] eqn:E; [|done]. injection Hc as <- <- _.
  apply readTools_each in E as (chs & Hf & Hl & ->). pose proof (Forall2_length _ _ _ Hf) as Hlen.
  destruct states' as [|s1' [|s2' [|]]], chs as [|ch1 [|ch2 [|]]]; try done.
  apply Forall2_cons in Hf as [Hx Hf]. apply Forall2_cons in Hf as [Hy _].
  exists s1', s2', ch1, ch2. split_and!; try done. cbn. by rewrite app_nil_r.
Qed.
End Pipeline.

(** ** What is a gap *)

Section Gaps.
Context `{Content} `{Destinations} (clock : nat -> Time) (api : gitopsAPI) (fuel : nat).

(** A tool after its resources were read, or not. *)
Record readWell (s s' : toolState) (ch : list GitOpsChart) : Prop := {
  rw_tool : sameTool s s';
  rw_charts : Forall (ofTool (ts_tool s)) ch;
  rw_none : ts_gvr s = None -> s' = s /\ ch = [];
  rw_some gvr : ts_gvr s = Some gvr ->
    exists items e, listedIn api gvr "" fuel = Some (items, e) /\
      match e with
      | Some _ => ts_failure s' <> ""%string
      | None => ts_read s' = zlen ch /\ (ts_tool s = fluxTool -> deployed s' = deployed s + hereOf items)
      end;
}.

Lemma set_counts n e s : sameTool s (set_listed n s) /\ deployed (set_listed n s) = deployed s /\ ts_read (set_listed n s) = n /\
  sameTool s (set_failure e s) /\ ts_failure (set_failure e s) = e.
Proof. by destruct s. Qed.

Lemma unread_named label e : (label +:+ " chart sources not read: " +:+ e)%string <> ""%string.
Proof. by destruct label. Qed.

Lemma argo_flux : argoTool <> fluxTool.
Proof. intros E. by apply (f_equal gt_id) in E. Qed.

Lemma readTool_well groups s s' ch : (ts_tool s = argoTool \/ ts_tool s = fluxTool) -> toolRead clock api fuel groups s s' ch -> readWell s s' ch.
Proof.
  intros Ht (c & c' & Hr). unfold readTool in Hr. destruct (ts_gvr s) as [gvr|] eqn:Eg.
  2:{ injection Hr as <- <- _. split; [done|constructor|done|intros g Hg; congruence]. }
  assert (Hspec : exists s1 charts items e,
    sameTool s s1 /\ Forall (ofTool (ts_tool s)) charts /\ listedIn api gvr "" fuel = Some (items, e) /\
    (ts_tool s = fluxTool -> deployed s1 = deployed s + hereOf items) /\
    match e with
    | Some (_, m) => s' = set_failure (gt_label (ts_tool s1) +:+ " chart sources not read: " +:+ m) s1 /\ ch = []
    | None => s' = set_listed (zlen charts) s1 /\ ch = charts
    end).
  { destruct Ht as [Et|Et]; rewrite Et in Hr; cbn [gt_id argoTool fluxTool String.eqb] in Hr.
    - destruct (readArgoApplications api fuel gvr s) as [[[s1 charts] err]|] eqn:Er; [|done].
      apply readArgo_spec in Er as (H1 & H2 & items & e & H3 & ->). exists s1, charts, items, e.
      split_and!; [apply H1..|done|done|intros E; by destruct argo_flux; congruence|]. destruct e as [[f m]|]; injection Hr as <- <- _; done.
    - change (GitOpsFlux =s GitOpsArgoCD) with false in Hr. change (GitOpsFlux =s GitOpsFlux) with true in Hr. cbv iota in Hr.
      destruct (readFluxHelmReleases _ _ _ _ _ _ _) as [[[[s1 charts] err] c1]|] eqn:Er; [|done].
      apply readFlux_spec in Er as (H1 & H2 & items & e & H3 & -> & H4). exists s1, charts, items, e.
      split_and!; [apply H1..|done|done|done|]. destruct e as [[f m]|]; injection Hr as <- <- _; done. }
  destruct Hspec as (s1 & charts & items & e & [H1 H1'] & H2 & H3 & H4 & H5). destruct e as [[f m]|]; destruct H5 as [-> ->].
  - destruct (set_counts 0 (gt_label (ts_tool s1) +:+ " chart sources not read: " +:+ m) s1) as (_ & _ & _ & [E1 E2] & E3).
    split; [split; congruence|constructor|intros ?; congruence|]. intros g Hg. rewrite Eg in Hg. injection Hg as <-. exists items, (Some (f, m)). split; [done|]. rewrite E3. apply unread_named.
  - destruct (set_counts (zlen charts) "" s1) as ([E1 E2] & E3 & E4 & _). split; [split; congruence|done|intros ?; congruence|].
    intros g Hg. rewrite Eg in Hg. injection Hg as <-. exists items, None. split; [done|]. split; [done|]. intros Ef. rewrite E3. by apply H4.
Qed.

(** What leaves the charts of a cluster unassessed: it is not known which
    tools it has; a tool's resources could not be listed; or no Helm release
    was read, and Applications, or a HelmRelease that deploys here, are
    served; or a chart was read from an Application. *)
Inductive chartsUnassessed (dynamic none : bool) (charts : list GitOpsChart) : Prop :=
| groups_unknown e : ga_groups api = Err e -> chartsUnassessed dynamic none charts
| resource_unknown groups t e : ga_groups api = Ok groups -> t ∈ gitopsTools -> toolServed api groups t = Err e -> chartsUnassessed dynamic none charts
| not_listed groups t gvr items e : dynamic = true -> ga_groups api = Ok groups -> t ∈ gitopsTools -> toolServed api groups t = Ok (Some gvr) ->
    listedIn api gvr "" fuel = Some (items, Some e) -> chartsUnassessed dynamic none charts
| argo_served groups gvr : none = true -> ga_groups api = Ok groups -> toolServed api groups argoTool = Ok (Some gvr) -> chartsUnassessed dynamic none charts
| flux_served groups gvr : none = true -> ga_groups api = Ok groups -> toolServed api groups fluxTool = Ok (Some gvr) ->
    (dynamic = true -> exists items, listedIn api gvr "" fuel = Some (items, None) /\ exists hr, hr ∈ items /\ deploysHere hr = true) ->
    chartsUnassessed dynamic none charts
| argo_chart c : c ∈ charts -> g_Tool c = GitOpsArgoCD -> chartsUnassessed dynamic none charts.

Definition gapState (none : bool) (s : toolState) : Prop := ts_tool s ∈ gitopsTools /\ (toolGap none s).2 = true /\ reportable s = true.

Lemma failure_gap none s : ts_tool s ∈ gitopsTools -> ts_failure s <> ""%string -> gapState none s.
Proof.
  intros Ht Hf. apply String.eqb_neq in Hf. split_and!; [done| |].
  - unfold toolGap. cbv zeta. cbn [snd]. by rewrite Hf.
  - unfold reportable. rewrite Hf. by destruct (present s).
Qed.

Lemma served_gap s gvr : ts_tool s ∈ gitopsTools -> ts_gvr s = Some gvr -> nothingDeployed s = false -> gapState true s.
Proof.
  intros Ht Hg Hn. assert (exists e, present s = Some e) as [e Hp] by (unfold present; rewrite Hg; eauto). split_and!; [done| |].
  - unfold toolGap. cbv zeta. cbn [snd]. rewrite Hp, Hn. apply orb_true_r.
  - unfold reportable. by rewrite Hp.
Qed.

Lemma rendered_gap s gvr : ts_tool s = argoTool -> ts_gvr s = Some gvr -> 0 < ts_read s -> gapState false s.
Proof.
  intros Ht Hg Hn. assert (exists e, present s = Some e) as [e Hp] by (unfold present; rewrite Hg; eauto). split_and!; [rewrite Ht; by left| |].
  - unfold toolGap. cbv zeta. cbn [snd]. rewrite Ht. cbn [gt_rendersOnly argoTool]. assert (0 <? ts_read s = true) as -> by lia.
    rewrite orb_true_iff. left. rewrite orb_true_iff. by right.
  - unfold reportable. by rewrite Hp.
Qed.

Lemma found_tool groups t s : found api groups t s -> ts_tool s = t.
Proof.
  assert (ts_tool (findTool api groups (newToolState t)) = t) as E by (unfold findTool; by destruct (servedResource _ _ _ _ _)).
  intros [->|[_ ->]]; [done|]. by destruct (findTool _ _ _).
Qed.

Lemma found_error groups t s e : found api groups t s -> toolServed api groups t = Err e -> ts_gvr s = None /\ ts_failure s <> ""%string.
Proof.
  unfold found, findTool, toolServed. cbn [ts_tool newToolState]. intros Hf E. rewrite E in Hf. destruct Hf as [->|[_ ->]]; split; try done; cbn; by destruct (gt_label t).
Qed.

Lemma found_served groups t s gvr : found api groups t s -> toolServed api groups t = Ok (Some gvr) ->
  ts_gvr s = Some gvr /\ ts_listed s = false /\ deployed s = 0.
Proof.
  unfold found, findTool, toolServed. cbn [ts_tool newToolState]. intros Hf E. rewrite E in Hf. destruct Hf as [->|[Hs _]]; done.
Qed.

Lemma trimmed s states : s ∈ states -> reportable s = true -> s ∈ trimStates states.
Proof. intros Hin Hr. unfold trimStates. by apply list_elem_of_In, filter_In; rewrite <- list_elem_of_In. Qed.

(** A tool of a collection: as it was read, among the states if there is
    anything to report. *)
Definition accounted (dynamic : bool) (states : list toolState) (charts : list GitOpsChart) (s : toolState) : Prop :=
  if dynamic then exists s' ch, readWell s s' ch /\ (reportable s' = true -> s' ∈ states) /\ forall c, c ∈ ch -> c ∈ charts
  else reportable s = true -> s ∈ states.

Lemma tools_accounted groups cl none c states charts c' :
  collectGitOps clock api fuel cl none c = Some (states, charts, c') -> gc_Discovery cl = true -> ga_groups api = Ok groups ->
  (forall t, t ∈ gitopsTools -> exists s, found api groups t s /\ accounted (gc_Dynamic cl) states charts s) /\
  (forall c, c ∈ charts -> g_Tool c = GitOpsArgoCD -> gc_Dynamic cl = true /\
     exists s s' ch gvr, found api groups argoTool s /\ readWell s s' ch /\ (reportable s' = true -> s' ∈ states) /\ c ∈ ch /\ ts_gvr s = Some gvr).
Proof.
  intros Hc Hd Hg. destruct (collectGitOps_tools clock api fuel cl none c groups states charts c' Hc Hd Hg) as (s1 & s2 & F1 & F2 & Hr).
  pose proof (found_tool _ _ _ F1) as T1. pose proof (found_tool _ _ _ F2) as T2. unfold accounted. destruct (gc_Dynamic cl).
  - destruct Hr as (s1' & s2' & ch1 & ch2 & R1 & R2 & -> & ->).
    apply readTool_well in R1; [|by left]. apply readTool_well in R2; [|by right]. split.
    + intros t [->|[->|[]%elem_of_nil]%elem_of_cons]%elem_of_cons; [exists s1|exists s2]; (split; [done|]); eexists _, _; (split; [done|]); split;
        try (intros ? ?; apply elem_of_app; auto); intros Hrep; apply trimmed; set_solver.
    + intros x Hx Ex. split; [done|]. apply elem_of_app in Hx as [Hx|Hx].
      * destruct (ts_gvr s1) as [gvr|] eqn:E1; [|apply (rw_none _ _ _ R1) in E1 as [_ ->]; by apply elem_of_nil in Hx].
        exists s1, s1', ch1, gvr. split_and!; try done. intros Hrep. apply trimmed; set_solver.
      * exfalso. pose proof (rw_charts _ _ _ R2) as Hf. rewrite T2 in Hf. rewrite Forall_forall in Hf. specialize (Hf x Hx). unfold ofTool in Hf. rewrite Ex in Hf. discriminate Hf.
  - destruct Hr as [-> ->]. split; [|intros x Hx; by apply elem_of_nil in Hx].
    intros t [->|[->|[]%elem_of_nil]%elem_of_cons]%elem_of_cons; [exists s1|exists s2]; (split; [done|]); intros Hrep; apply trimmed; set_solver.
Qed.

Lemma here_positive items hr : hr ∈ items -> deploysHere hr = true -> 0 < hereOf items.
Proof.
  assert (Hpos : forall l, 0 <= hereOf l) by (induction l as [|x l IH]; cbn; [done|]; unfold hereOf in IH; destruct (deploysHere x); lia).
  intros Hin Hh. induction items as [|x l IH]; [by apply elem_of_nil in Hin|]. change (hereOf (x :: l)) with ((if deploysHere x then 1 else 0) + hereOf l).
  apply elem_of_cons in Hin as [->|Hin]; [rewrite Hh; specialize (Hpos l); lia|]. specialize (IH Hin). destruct (deploysHere x); lia.
Qed.

(** Charts that are not assessed leave a state that is a gap. *)
Lemma unassessed_gap cl none c states charts c' :
  collectGitOps clock api fuel cl none c = Some (states, charts, c') -> gc_Discovery cl = true ->
  chartsUnassessed (gc_Dynamic cl) none charts -> exists s, s ∈ states /\ gapState none s.
Proof.
  intros Hc Hd Hu. destruct (ga_groups api) as [groups|e] eqn:Eg.
  2:{ unfold collectGitOps in Hc. rewrite Hd, Eg in Hc. cbn [negb] in Hc. injection Hc as <- _ _. eexists. split; [left|].
      apply failure_gap; [by left|]. done. }
  destruct (tools_accounted groups cl none c states charts c' Hc Hd Eg) as [Hall Hcharts]. unfold accounted in Hall.
  assert (Hserved : forall gvr, none = true -> toolServed api groups argoTool = Ok (Some gvr) -> exists s, s ∈ states /\ gapState none s).
  { intros gvr -> Hs. destruct (Hall argoTool ltac:(by left)) as (s & Hf & Hs'). pose proof (found_tool _ _ _ Hf) as Ht.
    destruct (found_served _ _ _ _ Hf Hs) as (Hgvr & _). destruct (gc_Dynamic cl).
    - destruct Hs' as (s' & ch & [[E1 E2] _ _ _] & Hin & _). assert (Hgap : gapState true s').
      { apply (served_gap _ gvr); [rewrite E2, Ht; by left|congruence|]. unfold nothingDeployed. by rewrite E2, Ht. }
      exists s'. split; [apply Hin, Hgap|done].
    - assert (Hgap : gapState true s) by (apply (served_gap _ gvr); [rewrite Ht; by left|done|unfold nothingDeployed; by rewrite Ht]).
      exists s. split; [apply Hs', Hgap|done]. }
  destruct Hu as [e He|g t e Hg Ht Hs|g t gvr items e Hdyn Hg Ht Hs Hl|g gvr Hn Hg Hs|g gvr Hn Hg Hs Hl|x Hx Ex]; [congruence| | | | |].
  1-4: rewrite Eg in Hg; injection Hg as <-.
  - destruct (Hall t Ht) as (s & Hf & Hs'). destruct (found_error _ _ _ _ Hf Hs) as [Hgvr Hfail]. pose proof (found_tool _ _ _ Hf) as Et.
    assert (Hgap : gapState none s) by (apply failure_gap; [by rewrite Et|done]). exists s. split; [|done]. destruct (gc_Dynamic cl); [|apply Hs', Hgap].
    destruct Hs' as (s' & ch & [_ _ Hnone _] & Hin & _). destruct (Hnone Hgvr) as [-> _]. apply Hin, Hgap.
  - destruct (Hall t Ht) as (s & Hf & Hs'). destruct (found_served _ _ _ _ Hf Hs) as (Hgvr & _). pose proof (found_tool _ _ _ Hf) as Et.
    rewrite Hdyn in Hs'. destruct Hs' as (s' & ch & [[_ E2] _ _ Hsome] & Hin & _). destruct (Hsome gvr Hgvr) as (its & e' & Hl' & Hm).
    rewrite Hl in Hl'. injection Hl' as <- <-. assert (Hgap : gapState none s') by (apply failure_gap; [by rewrite E2, Et|done]).
    exists s'. split; [apply Hin, Hgap|done].
  - by eapply Hserved.
  - destruct (Hall fluxTool ltac:(right; by left)) as (s & Hf & Hs'). destruct (found_served _ _ _ _ Hf Hs) as (Hgvr & Hlisted & Hdep).
    pose proof (found_tool _ _ _ Hf) as Et. rewrite Hn in *. destruct (gc_Dynamic cl).
    + destruct Hs' as (s' & ch & [[E1 E2] _ _ Hsome] & Hin & _). destruct (Hsome gvr Hgvr) as (its & e' & Hl' & Hm).
      destruct (Hl eq_refl) as (items & Hl2 & hr & Hhr & Hhere). rewrite Hl2 in Hl'. injection Hl' as <- <-. destruct Hm as [_ Hm]. specialize (Hm Et).
      pose proof (here_positive _ _ Hhr Hhere) as Hpos. assert (Hgap : gapState true s').
      { apply (served_gap _ gvr); [rewrite E2, Et; right; by left|congruence|]. unfold nothingDeployed. unfold deployed in *.
        assert (ts_seen s' - ts_foreign s' - ts_invalid s' =? 0 = false) as -> by lia. apply andb_false_r. }
      exists s'. split; [apply Hin, Hgap|done].
    + assert (Hgap : gapState true s) by (apply (served_gap _ gvr); [rewrite Et; right; by left|done|unfold nothingDeployed; rewrite Hlisted; by rewrite andb_false_r]).
      exists s. split; [apply Hs', Hgap|done].
  - destruct (Hcharts x Hx Ex) as (Hdyn & s & s' & ch & gvr & Hf & Hw & Hin & Hxch & Hgvr). pose proof (found_tool _ _ _ Hf) as Et.
    destruct Hw as [[E1 E2] _ _ Hsome]. destruct (Hsome gvr Hgvr) as (items & e & _ & Hm).
    assert (Hgap : gapState none s').
    { destruct e; [apply failure_gap; [rewrite E2, Et; by left|done]|]. destruct Hm as [Hread _]. assert (0 < ts_read s') by (rewrite Hread; destruct ch; [by apply elem_of_nil in Hxch|unfold zlen; cbn; lia]).
      destruct none; [|by apply (rendered_gap _ gvr); [congruence|congruence|]].
      apply (served_gap _ gvr); [rewrite E2, Et; by left|congruence|]. unfold nothingDeployed. by rewrite E2, Et. }
    exists s'. split; [apply Hin, Hgap|done].
Qed.
End Gaps.

Lemma withGitOps_gap pe states none s : s ∈ states -> gapState none s ->
  pe_incomplete (withGitOps pe states none) = true /\ gt_id (ts_tool s) ∈ pe_skipped (withGitOps pe states none).
Proof.
  intros Hin (_ & Hg & _). assert (Hs : s ∈ List.filter (fun s => (toolGap none s).2) states).
  { apply list_elem_of_In, filter_In. split; [by apply list_elem_of_In|done]. }
  unfold withGitOps. cbn [pe_incomplete pe_skipped]. split.
  - destruct (List.filter _ states); [by apply elem_of_nil in Hs|]. apply orb_true_r.
  - apply sort_strings_elem, elem_of_app. right. by apply (list_elem_of_fmap_2 (fun s => gt_id (ts_tool s))).
Qed.

(** ** The helm step, and the report *)

Definition noneRead (rels : list HelmRelease) : bool := match rels with [] => true | _ => false end.

(** A failure, or a partial outcome that names a tool. *)
Definition toolGapOutcome (out : helmOutcome) : Prop :=
  match out with inl _ => True | inr pe => pe_incomplete pe = true /\ exists t, t ∈ gitopsTools /\ gt_id t ∈ pe_skipped pe end.

Lemma helmStep_gap `{HelmDecoders} `{Content} `{Destinations} clock helm api fuel clg lifecycle cache namespaces gitops rels charts out caches :
  collectHelmStep clock helm api fuel clg lifecycle cache namespaces gitops = Some (rels, charts, out, caches) ->
  gc_Discovery clg = true -> chartsUnassessed api fuel (gc_Dynamic clg) (noneRead rels) charts -> toolGapOutcome out.
Proof.
  unfold collectHelmStep. destruct (collectHelm _ _ _ _ _) as [[[rels' out'] cache']|]; [|done]. fold (noneRead rels').
  destruct (collectGitOps _ _ _ _ _ _) as [[[states charts'] gitops']|] eqn:Eg; [|done]. intros [= -> -> <- _] Hd Hu.
  destruct out' as [e|pe]; [done|]. cbn [andb] in Eg. destruct (unassessed_gap clock api fuel clg _ _ _ _ _ Eg Hd Hu) as (s & Hin & Hs).
  destruct (withGitOps_gap pe states _ s Hin Hs) as [Hi Hs']. destruct states as [|s0 states]; [by apply elem_of_nil in Hin|].
  split; [exact Hi|]. exists (ts_tool s). split; [apply Hs|exact Hs'].
Qed.

Lemma helm_kept `{SemverOrder} `{KubeAware} `{Content} `{Unicode} vps applied parseGV cl api k fuel passNow passStart st :
  Forall (keeps (hasStatus CapHelm st))
    [mkStep CapAddOns (addOnsStep vps cl api k fuel passNow passStart);
     mkStep CapAPIUsage (apiUsageStep applied parseGV cl api k fuel); mkStep CapCRDs (crdsStep applied cl api fuel);
     mkStep CapDeprecatedCalls (deprecatedCallsStep cl api)].
Proof. unfold hasStatus. do 4 (apply Forall_cons_2; [step_keeps|]). apply Forall_nil_2. Qed.

Section Verdict.
Context `{SemverOrder} `{KubeAware} `{Content} `{Unicode} `{HelmDecoders} `{Destinations}.
Context (vps : volumePlugins) (applied : string -> option string) (parseGV : string -> option (string * string)).
Context (cl : clients) (api : cluster) (k : KB) (teamLabel : string) (fuel : nat) (passNow passStart : Time).
Context (clock : nat -> Time) (helm : helmAPI) (gitops : gitopsAPI) (clg : gitopsClients) (cache : option HelmCache) (namespaces : list string)
  (refused : option GitOpsCache).

Abbreviation step := (helmStepOf clock helm gitops fuel clg (k_APILifecycle k) cache namespaces refused) (only parsing).

(** A capability that is not read, or in part. *)
Lemma helm_gap inv inv0 err note target :
  match err with Some (StepFailed _) => True | Some (StepPartial _ skipped) => exists t, t ∈ gitopsTools /\ gt_id t ∈ skipped | _ => False end ->
  hasStatus CapHelm (statusOf err note) inv0 -> capsNoMore (Capabilities inv0) (Capabilities inv) ->
  exists g, g ∈ assessmentGaps inv k target /\ g_Capability g = CapHelm /\ (g_Partial g = true -> exists t, t ∈ gitopsTools /\ gt_id t ∈ g_Skipped g).
Proof.
  intros He [_ Hc] Hm. destruct (Hm _ _ Hc) as (st & Hst & [Ha Hp _ Hk]).
  assert (Hin : forall g, capabilityGap inv k target (CapHelm, st) = Some g -> g ∈ assessmentGaps inv k target).
  { intros g Hg. apply assessmentGaps_in. unfold unsortedGaps. apply elem_of_app. right. apply elem_of_app. left.
    apply list_elem_of_omap. exists (CapHelm, st). split; [by apply elem_of_map_to_list|done]. }
  destruct err as [[msg|msg skipped|]|]; try done; cbn in Ha, Hp, Hk; unfold capabilityGap in Hin; rewrite Ha in Hin; cbn [negb] in Hin.
  - eexists. split; [apply Hin; reflexivity|]. done.
  - rewrite (Hp eq_refl) in Hin. eexists. split; [apply Hin; reflexivity|]. split; [done|]. intros _. destruct He as (t & Ht & Hs). exists t. split; [done|].
    cbn [g_Skipped]. apply sort_strings_elem, Hk; [done|]. by repeat (apply elem_of_cons in Ht as [->|Ht]; [done|]); apply elem_of_nil in Ht.
Qed.

(** Charts that leave no Helm release never read as clean. Whatever the
    apiserver answers otherwise: when the cluster serves Argo CD's
    Applications, or a Flux HelmRelease deploys to it, and no Helm release
    was read; when a chart was read from an Application; when a tool's
    resources could not be listed; or when discovery could not say which
    tools there are - the report of what was collected, repaired for the
    server as it is, tells that the Helm checks were not, or not all,
    assessed, and names a tool where they were in part. *)
Lemma collect_charts_gap (env : nat -> stepEnv) (now : Time) (pass pass' : passCache) (notes : list string) (inv : Inventory)
    (rels : list HelmRelease) (charts : list GitOpsChart) (out : helmOutcome) (caches : option HelmCache * option GitOpsCache)
    (target : Version) (t : Time) (rep : Report) :
  Collect vps applied parseGV step cl api k teamLabel fuel passNow passStart env now pass = Some (notes, inv, pass') ->
  collectHelmStep clock helm gitops fuel clg (k_APILifecycle k) cache namespaces refused = Some (rels, charts, out, caches) ->
  gc_Discovery clg = true -> chartsUnassessed gitops fuel (gc_Dynamic clg) (noneRead rels) charts ->
  kb_ok k -> Evaluate inv k target t = Some rep ->
  exists g, g ∈ r_NotAssessed rep /\ g_Capability g = CapHelm /\ (g_Partial g = true -> exists tool, tool ∈ gitopsTools /\ gt_id tool ∈ g_Skipped g).
Proof.
  intros (c & err & Hrun & Hconf)%collect_run Hstep Hd Hu Hk He.
  apply (helmStep_gap _ _ _ _ _ _ _ _ _ _ _ _ _ Hstep Hd) in Hu.
  apply runFrom_cons in Hrun as (c1 & verr & note1 & Hv & Hrun). apply runFrom_cons in Hrun as (c2 & herr & note2 & Hh & Hrest).
  cbn [st_run st_cap] in Hv, Hh, Hrest.
  assert (Hsrc : Source (cn_inv c1) = SourceCluster).
  { unfold versionsStep, noClient in Hv. destruct (negb (cl_Kube cl) || negb (cl_Discovery cl)); [by injection Hv as <- _|].
    destruct (collectVersionsFrom _ _ _ _) as [r|]; [|done]. by injection Hv as <- _. }
  assert (Hg : Source (cn_inv c2) = SourceCluster /\
    match herr with Some (StepFailed _) => True | Some (StepPartial _ skipped) => exists t, t ∈ gitopsTools /\ gt_id t ∈ skipped | _ => False end).
  { unfold helmStep, noClient in Hh. destruct (negb (cl_Kube cl) || negb (cl_Metadata cl)); [by injection Hh as <- <-|].
    unfold helmStepOf in Hh. rewrite Hstep in Hh. injection Hh as <- <-. split; [done|]. unfold toolGapOutcome in Hu.
    destruct out as [e|pe]; [done|]. destruct Hu as [Hi Hs]. unfold stepErrorOf. by rewrite Hi. }
  destruct Hg as [Hs2 Hg]. eapply runFrom_keeps in Hrest; [|apply helm_kept|].
  2:{ split; [done|]. cbn. by rewrite lookup_insert_eq. }
  destruct (Conform_caps (cn_inv c)) as [_ Hcaps]. rewrite Hconf in Hcaps. cbn [snd] in Hcaps.
  rewrite Evaluate_eq in He by done. injection He as <-. cbn [r_NotAssessed report].
  by eapply (helm_gap (judged inv)).
Qed.
End Verdict.

(** ** A cluster with an Application and a HelmRelease *)

#[local] Existing Instance exactSemver.
#[local] Existing Instance dottedOrder.
#[local] Existing Instance byName.
#[local] Existing Instance exampleContent.
#[local] Existing Instance exampleUnicode.
#[local] Existing Instance exampleDecoders.

#[local] Instance exampleDestinations : Destinations := {|
  parseDestination s := if s =s "https://kubernetes.default.svc" then Some (mkDestination "https" false "kubernetes.default.svc" "" "") else None;
|}.

Definition exampleDigest : string := "@sha256:0123456789abcdef0123456789abcdef0123456789abcdef0123456789abcdef".

(** An Application whose source carries a credential. *)
Definition nginxApplication : customResource :=
  mkCustomResource "argocd" "ingress-nginx"
    [("spec"%string, VObject
       [("destination"%string, VObject [("server"%string, VString "https://kubernetes.default.svc"); ("namespace"%string, VString "ingress")]);
        ("source"%string, VObject
           [("repoURL"%string, VString "https://user:s3/cret@charts.example.com/stable?token=s3cret"); ("chart"%string, VString "ingress-nginx");
            ("targetRevision"%string, VString "4.11.3")])])].

(** A HelmRelease of the chart of an OCIRepository. *)
Definition certManagerRelease : customResource :=
  mkCustomResource "flux-system" "cert-manager"
    [("spec"%string, VObject [("chartRef"%string, VObject [("kind"%string, VString "OCIRepository"); ("name"%string, VString "cm")])])].

Definition certManagerRepository : customResource :=
  mkCustomResource "flux-system" "cm"
    [("spec"%string, VObject [("url"%string, VString "oci://x:12/s3cret@ghcr.io/acme/charts/cert-manager"); ("ref"%string, VObject [("tag"%string, VString "1.15.3")])])].

(** OCIRepositories may be fetched and not listed. *)
Definition exampleGitops : gitopsAPI := mkGitopsAPI
  (Ok [(argoGroup, ["v1alpha1"%string]); (fluxGroup, ["v2"%string]); (fluxSource, ["v1"%string])])
  (fun gv => Resources ["applications"; "helmreleases"; "ocirepositories"]%string)
  (fun _ _ _ => Page [] "")
  (fun gvr ns _ _ =>
     if gvr.2 =s "ocirepositories" then ResourceError true "forbidden"
     else if gvr.2 =s "applications" then ResourcePage [nginxApplication] "" else ResourcePage [certManagerRelease] "")
  (fun _ _ name => if name =s "cm" then Ok certManagerRepository else Err "not found"%string).

Definition allClients : gitopsClients := mkGitopsClients true true true.

Definition refusedRepositories : gitopsList := ((fluxSource, "v1", "ocirepositories"), "flux-system")%string.

Example gitops_example :
  match collectGitOps (fun _ => 0) exampleGitops 2 allClients true (Some NewGitOpsCache) with
  | Some (_, charts, Some c) =>
      charts = [mkGitOpsChart "argocd" "ingress-nginx" "argocd" "ingress" "ingress-nginx" "4.11.3" "https://charts.example.com/stable";
                mkGitOpsChart "flux" "cert-manager" "flux-system" "flux-system" "cert-manager" "1.15.3" "oci://ghcr.io/acme/charts/cert-manager"] /\
      map_to_list c = [(refusedRepositories, 0)]
  | _ => False
  end.
Proof. vm_compute. split; reflexivity. Qed.


Lemma example_refuses : refusesWhole exampleGitops.
Proof. intros gvr ns k cont msg. cbn. unfold refusedAtOnce. cbn. destruct (gvr.2 =s "ocirepositories"); [eauto|]. by destruct (gvr.2 =s "applications"). Qed.

(** Ten minutes after the list was refused it is not asked for. *)
Lemma gitops_cache_transparent_witness :
  exists states charts c', collectGitOps (fun _ => 10 * minute) exampleGitops 2 allClients true None = Some (states, charts, None) /\
    collectGitOps (fun _ => 10 * minute) exampleGitops 2 allClients true (Some {[ refusedRepositories := 0 ]}) = Some (states, charts, Some c') /\
    stillRefused (fun _ => 10 * minute) exampleGitops c'.
Proof.
  destruct (collectGitOps (fun _ => 10 * minute) exampleGitops 2 allClients true None) as [[[states charts] c0]|] eqn:E; [|vm_compute in E; discriminate E].
  assert (c0 = None) as -> by (vm_compute in E; by injection E as _ _ <-).
  assert (Hc : stillRefused (fun _ => 10 * minute) exampleGitops {[ refusedRepositories := 0 ]}).
  { intros l at_ [<- _]%lookup_singleton_Some _. by exists "forbidden"%string. }
  destruct (gitops_cache_transparent (fun _ => 10 * minute) exampleGitops 2 allClients true _ states charts None example_refuses Hc E) as (c' & Hc' & Hs).
  exists states, charts, c'. split; [reflexivity|]. split; [exact Hc'|exact Hs].
Defined.

(** No Helm release is stored. *)
Definition noHelm : helmAPI := mkHelmAPI (fun _ _ _ _ => Page [] "") (fun _ _ => GetError true "not found") (fun _ _ => GetError true "not found").

Abbreviation gitopsStep := (helmStepOf (fun _ => 0) noHelm exampleGitops 2 allClients (k_APILifecycle ingressKB) (Some NewHelmCache) [] (Some NewGitOpsCache)) (only parsing).

Abbreviation gitopsCollect := (Collect noVolumes (fun _ => None) splitGV gitopsStep (mkClients true true true true true)
  (exampleCluster []) ingressKB "team" 2 0 0 (fun _ => mkStepEnv (Some minute) false false) 0 (NewPodPassCache 1 0)) (only parsing).

Lemma collect_charts_gap_witness :
  exists notes inv pass rep, gitopsCollect = Some (notes, inv, pass) /\ Evaluate inv ingressKB (mkVersion 1 22) 0 = Some rep /\
    exists g, g ∈ r_NotAssessed rep /\ g_Capability g = CapHelm /\ (g_Partial g = true -> exists tool, tool ∈ gitopsTools /\ gt_id tool ∈ g_Skipped g).
Proof.
  assert (Hk : kb_ok ingressKB) by apply Forall_nil_2.
  assert (Hx : match gitopsCollect with Some _ => True | None => False end) by (vm_compute; exact I).
  destruct gitopsCollect as [[[notes inv] pass]|] eqn:E; [clear Hx|destruct Hx].
  assert (Hy : match collectHelmStep (fun _ => 0) noHelm exampleGitops 2 allClients (k_APILifecycle ingressKB) (Some NewHelmCache) [] (Some NewGitOpsCache) with
    | Some ([], _, _, _) => True | _ => False end) by (vm_compute; exact I).
  destruct (collectHelmStep (fun _ => 0) noHelm exampleGitops 2 allClients (k_APILifecycle ingressKB) (Some NewHelmCache) [] (Some NewGitOpsCache))
    as [[[[[|] charts] out] caches]|] eqn:Es; [clear Hy|destruct Hy..].
  exists notes, inv, pass. eexists. split; [reflexivity|]. split; [exact (Evaluate_eq inv ingressKB (mkVersion 1 22) 0 Hk)|].
  refine (collect_charts_gap noVolumes (fun _ => None) splitGV (mkClients true true true true true) (exampleCluster []) ingressKB "team" 2 0 0
    (fun _ => 0) noHelm exampleGitops allClients (Some NewHelmCache) [] (Some NewGitOpsCache) (fun _ => mkStepEnv (Some minute) false false) 0
    (NewPodPassCache 1 0) pass notes inv [] charts out caches (mkVersion 1 22) 0 _ E Es eq_refl _ Hk (Evaluate_eq inv ingressKB (mkVersion 1 22) 0 Hk)).
  apply (argo_served _ _ _ _ _ [(argoGroup, ["v1alpha1"%string]); (fluxGroup, ["v2"%string]); (fluxSource, ["v1"%string])] (argoGroup, "v1alpha1", "applications")%string);
    reflexivity.
Defined.

(** "cm" is fetched by name and "gone" is not there. *)
Lemma readOCIRepositories_resolves_witness :
  exists st, readOCIRepositories (fun _ => 0) exampleGitops 2 (Some (fluxSource, "v1", "ocirepositories")%string)
      {[ ("flux-system", "cm"); ("flux-system", "gone") ]}%string (mkOciRead ∅ "" None 0) = Some st /\
    (exists ch, or_out st !! ("flux-system", "cm")%string = Some ch /\
       resolvedBy exampleGitops 2 (fluxSource, "v1", "ocirepositories")%string {[ ("flux-system", "cm"); ("flux-system", "gone") ]}%string ("flux-system", "cm")%string ch) /\
    or_why st <> ""%string.
Proof.
  set (wanted := {[ ("flux-system", "cm"); ("flux-system", "gone") ]}%string : gset ociRef).
  assert (Hx : match readOCIRepositories (fun _ => 0) exampleGitops 2 (Some (fluxSource, "v1", "ocirepositories")%string) wanted (mkOciRead ∅ "" None 0) with
    | Some st => or_out st !! ("flux-system", "cm")%string = Some (mkOciChart "cert-manager" "oci://ghcr.io/acme/charts/cert-manager" "1.15.3") /\
        or_out st !! ("flux-system", "gone")%string = None
    | None => False end) by (vm_compute; split; reflexivity).
  assert (Hw : wanted <> ∅) by (apply (bool_decide_unpack _); vm_compute; exact I).
  destruct (readOCIRepositories _ _ _ _ wanted _) as [st|] eqn:E; [|destruct Hx]. destruct Hx as [Hcm Hgone].
  destruct (readOCIRepositories_resolves _ _ _ _ wanted _ _ _ st Hw E) as [H1 H2]. exists st. split; [reflexivity|]. split.
  - eexists. split; [exact Hcm|]. exact (H1 _ _ Hcm).
  - apply (H2 ("flux-system", "gone")%string); [|exact Hgone]. apply (bool_decide_unpack _). vm_compute. exact I.
Defined.
