(* ===== verification/Render.v ===== *)
(** * What the CI formats share

    The helpers that internal/junit, internal/sarif and internal/codequality
    each carry a copy of. The formats are modelled as the documents their
    encoders are given; JSON and XML text is the standard library's. *)

From stdpp Require Import base list strings gmap.
From Stdlib Require Import ZArith Lia Ascii.
From S2P Require Import Prelude GoStr GoTime Version Inventory KB Findings GoSha.

(** [sentence]. *)
Definition sentence (s : string) : string :=
  let s := TrimSpace s in
  if HasSuffix s "." || HasSuffix s "!" || HasSuffix s "?" then s else s +:+ ".".

(** The key of a finding, else its category: the name of a test case, the
    id of a rule, a check name. *)
Definition ruleKey (f : Finding) : string := if f_Key f =s "" then f_Category f else f_Key f.

(** [objectName]. *)
Definition objectName (o : ObjectRef) : string :=
  let name := if o_Name o =s "" then "(unnamed)"%string else o_Name o in
  if o_Namespace o =s "" then name else o_Namespace o +:+ "/" +:+ name.

Definition maxListed : nat := 5.

(** [objectList], with what is written after an object's name. *)
Definition objectListWith (mark : ObjectRef -> string) (objs : list ObjectRef) (extra : Z) : string :=
  let names := map (fun o => objectName o +:+ mark o) (take maxListed objs) in
  let more := zlen objs - zlen names + extra in
  Join (names ++ if 0 <? more then ["and " +:+ itoa more +:+ " more"] else []) ", ".

(** The hex digest of parts joined by NUL. *)
Definition hashedText (parts : list string) : string := Join parts (String "000" "").

Definition digest (text : string) : string := EncodeToString (Sum256 text).

(** The parts of the [n]th object of an identity: the first is not
    numbered. *)
Definition occurrenceParts (parts : list string) (n : Z) : list string :=
  if 0 <? n then parts ++ [itoa n] else parts.

Definition occurrence (seen : gmap string Z) (base : string) : Z := default 0 (seen !! base).

(** "Not assessed: ...", as SARIF and Code Quality put a gap. *)
Definition gapMessage (g : CapabilityGap) : string :=
  "Not assessed: " +:+ Label g +:+ ": " +:+ sentence (g_Reason g) +:+
  match g_Skipped g with [] => ""%string | l => " Skipped: " +:+ Join l ", " +:+ "." end.
