(* ===== verification/Junit.v ===== *)
(** * JUnit reports: internal/junit/junit.go

    One test suite per category, one test case per finding, and the gaps in
    a suite of their own. The outcomes follow the gate the options give. *)

From stdpp Require Import base list strings gmap.
From Stdlib Require Import ZArith Lia Ascii.
From S2P Require Import Prelude GoStr GoTime Version Inventory KB Findings Render.

Module Junit.

Record Options := mkOptions { FailOn : string; AllowIncomplete : bool }.

Record outcome := mkOutcome { oc_Message : string; oc_Type : string; oc_Text : string }.

Record testcase := mkCase {
  tc_Name : string;
  tc_Classname : string;
  tc_Time : string;
  tc_Failure : option outcome;
  tc_Error : option outcome;
  tc_Skipped : option outcome;
  tc_SystemOut : string;
}.

Record testsuite := mkSuite {
  ts_Name : string;
  ts_Tests : Z;
  ts_Failures : Z;
  ts_Errors : Z;
  ts_Skipped : Z;
  ts_Time : string;
  ts_Cases : list testcase;
}.

Record testsuites := mkSuites {
  tss_Name : string;
  tss_Tests : Z;
  tss_Failures : Z;
  tss_Errors : Z;
  tss_Time : string;
  tss_Suites : list testsuite;
}.

Definition name : string := "upgradescope".
Definition zero : string := "0".
Definition notAssessed : string := "not-assessed".

Definition categoryOrder : list string :=
  [CatRemovedAPI; CatDeprecatedAPI; CatDeprecatedAPIInUse; CatUnknownAPI; CatEOLAddon; CatEOLApproaching;
   CatChartIncompat; CatAddOnNoData; CatVersionSkew; CatKBStale].

(** ** Text *)

Definition newLine (s : string) : string := String "010" s.

Definition objectText (o : ObjectRef) : string :=
  objectName o +:+
  (if negb (o_File o =s "") && (0 <? o_Line o) then " (" +:+ o_File o +:+ ":" +:+ itoa (o_Line o) +:+ ")"
   else if negb (o_File o =s "") then " (" +:+ o_File o +:+ ")"
   else if 0 <? o_Line o then " (line " +:+ itoa (o_Line o) +:+ ")"
   else "") +:+
  (if o_RenderedFrom o =s "" then "" else ", rendered from " +:+ o_RenderedFrom o).

Definition concatS (l : list string) : string := Join l "".

Definition findingText (f : Finding) : string :=
  sentence (f_Title f) +:+
  (if f_Detail f =s "" then ""%string else newLine (sentence (f_Detail f))) +:+
  match f_Objects f with
  | [] => ""%string
  | objs =>
      newLine "Objects:" +:+ concatS (map (fun o => newLine ("- " +:+ objectText o)) objs) +:+
      (if (0 <? f_ObjectsOmitted f) && (MaxObjectRefs <=? zlen objs) then
         newLine ("- and " +:+ itoa (f_ObjectsOmitted f) +:+ " more (at most " +:+ itoa MaxObjectRefs +:+
                  " objects are recorded per finding)")
       else if 0 <? f_ObjectsOmitted f then newLine ("- and " +:+ itoa (f_ObjectsOmitted f) +:+ " more")
       else "")
  end +:+
  match f_Teams f with [] => ""%string | l => newLine ("Teams: " +:+ Join l ", ") end +:+
  (if f_Remediation f =s "" then ""%string else newLine ("Fix: " +:+ sentence (f_Remediation f))) +:+
  match f_Citations f with
  | [] => ""%string
  | l => newLine "References:" +:+ concatS (map (fun c => newLine ("- " +:+ c)) l)
  end.

Definition gapText (g : CapabilityGap) : string :=
  Label g +:+ ": " +:+ g_Reason g +:+
  match g_Skipped g with [] => ""%string | l => " (skipped: " +:+ Join l ", " +:+ ")" end.

(** ** Outcomes *)

(** Whether a severity fails the gate. *)
Definition reaches (s failOn : string) : bool :=
  if failOn =s "never" then false
  else if failOn =s "warning" then (s =s SevBlocker) || (s =s SevWarning)
  else s =s SevBlocker.

Definition mkBare (n : string) (failure error skipped : option outcome) (out : string) : testcase :=
  mkCase n "" "" failure error skipped out.

Definition findingCase (failOn : string) (f : Finding) : testcase :=
  let out := f_Severity f +:+ ": " +:+ findingText f in
  if f_BaselineState f =s BaselineUnchanged then
    mkBare (ruleKey f) None None (Some (mkOutcome ("unchanged since the baseline: " +:+ f_Title f) "" "")) out
  else if reaches (f_Severity f) failOn then
    mkBare (ruleKey f) (Some (mkOutcome (f_Title f) (f_Severity f) (findingText f))) None None ""
  else mkBare (ruleKey f) None None None out.

Definition suppressedCase (s : SuppressedFinding) : testcase :=
  let f := sf_Finding s in
  let why := sf_Reason s +:+ (if sf_Expires s =s "" then ""%string else "; until " +:+ sf_Expires s) +:+
             (if sf_Source s =s "" then ""%string else "; by " +:+ sf_Source s) in
  mkBare (ruleKey f +:+ " (suppressed)") None None (Some (mkOutcome ("suppressed (" +:+ why +:+ "): " +:+ f_Title f) "" ""))
    (f_Severity f +:+ ": " +:+ findingText f).

(** Whether a gap is one the gate fails on. *)
Definition gapFails (failOn : string) (allowIncomplete : bool) (g : CapabilityGap) : bool :=
  g_Required g && negb (failOn =s "never") && ((g_Capability g =s GapTarget) || negb allowIncomplete).

Definition gapCase (failOn : string) (allowIncomplete : bool) (g : CapabilityGap) : testcase :=
  let msg := "not assessed: " +:+ gapText g in
  if gapFails failOn allowIncomplete g then
    mkBare (g_Capability g) None
      (Some (mkOutcome msg notAssessed
        (if g_Capability g =s GapTarget then "The verdict is unknown: the target is not an upgrade of this cluster."
         else "The verdict is unknown: a required check did not run, so a blocker may have been missed."))) None ""
  else mkBare (g_Capability g) None None (Some (mkOutcome msg "" "")) "".

(** ** Suites *)

(** The suites by name, and their order. *)
Definition building : Type := gmap string (list testcase) * list string.

Definition add (suite : string) (c : testcase) (b : building) : building :=
  let '(suites, order) := b in
  let c := mkCase (tc_Name c) (name +:+ "." +:+ suite) zero (tc_Failure c) (tc_Error c) (tc_Skipped c) (tc_SystemOut c) in
  match suites !! suite with
  | Some cases => (<[suite := cases ++ [c]]> suites, order)
  | None => (<[suite := [c]]> suites, order ++ [suite])
  end.

Definition addAll {A} (suite : A -> string) (case : A -> testcase) (l : list A) (b : building) : building :=
  foldl (fun b x => add (suite x) (case x) b) b l.

Fixpoint indexFrom (i : Z) (s : string) (l : list string) : option Z :=
  match l with
  | [] => None
  | x :: l' => if x =s s then Some i else indexFrom (i + 1) s l'
  end.

Definition rank (s : string) : Z := default (zlen categoryOrder) (indexFrom 0 s categoryOrder).

Definition compareSuites (a b : string) : Z :=
  if negb (rank a =? rank b) then rank a - rank b else cmpStr a b.

Definition sortSuites (order : list string) : list string := isort (fun a b => compareSuites a b <=? 0) order.

(** The counts of a suite: each case is of one kind. *)
Definition countCase (s : testsuite) (c : testcase) : testsuite :=
  let failed := match tc_Failure c with Some _ => 1 | None => 0 end in
  let error := match tc_Failure c, tc_Error c with None, Some _ => 1 | _, _ => 0 end in
  let skipped := match tc_Failure c, tc_Error c, tc_Skipped c with None, None, Some _ => 1 | _, _, _ => 0 end in
  mkSuite (ts_Name s) (ts_Tests s + 1) (ts_Failures s + failed) (ts_Errors s + error) (ts_Skipped s + skipped)
    (ts_Time s) (ts_Cases s).

Definition suiteOf (suites : gmap string (list testcase)) (n : string) : testsuite :=
  let cases := default [] (suites !! n) in
  foldl countCase (mkSuite n 0 0 0 0 zero cases) cases.

Definition addSuite (doc : testsuites) (s : testsuite) : testsuites :=
  mkSuites (tss_Name doc) (tss_Tests doc + ts_Tests s) (tss_Failures doc + ts_Failures s)
    (tss_Errors doc + ts_Errors s) (tss_Time doc) (tss_Suites doc ++ [s]).

Definition cleanCase (r : Report) : testcase :=
  mkBare "no findings" None None None
    ("verdict " +:+ r_Verdict r +:+ ", score " +:+ itoa (r_Score r) +:+ "/100, target " +:+ VString (r_Target r) +:+
     ", knowledge base " +:+ r_KBVersion r +:+ ": no findings, nothing suppressed, every check assessed.").

(** The document [Write] encodes. *)
Definition Write (r : Report) (opts : Options) : testsuites :=
  let failOn := if FailOn opts =s "" then "blocker"%string else FailOn opts in
  let b := addAll f_Category (findingCase failOn) (r_Findings r) (∅, []) in
  let '(suites, order) := addAll (fun s => f_Category (sf_Finding s)) suppressedCase (r_Suppressed r) b in
  let '(suites, order) := addAll (fun _ => notAssessed) (gapCase failOn (AllowIncomplete opts)) (r_NotAssessed r)
                            (suites, sortSuites order) in
  let '(suites, order) := match order with [] => add "readiness" (cleanCase r) (suites, order) | _ => (suites, order) end in
  foldl (fun doc n => addSuite doc (suiteOf suites n)) (mkSuites name 0 0 0 zero []) order.

End Junit.

(** * What a JUnit report promises

    Every finding, suppressed finding and gap is one test case, and the
    report fails exactly when the gate it was made for does. *)

From S2P Require Import Evaluate Gaps Glob Suppress Baseline.

Module JunitSpec.
Import Junit.

(** ** The cases of the suites *)

(** A case as [add] leaves it in its suite. *)
Definition stamp (suite : string) (c : testcase) : testcase :=
  mkCase (tc_Name c) (name +:+ "." +:+ suite) zero (tc_Failure c) (tc_Error c) (tc_Skipped c) (tc_SystemOut c).

Definition casesOf (suites : gmap string (list testcase)) (n : string) : list testcase := default [] (suites !! n).

Definition flat (b : building) : list testcase := b.2 ≫= casesOf b.1.

(** The order names every suite once, and no suite is empty. *)
Definition building_ok (b : building) : Prop :=
  NoDup b.2 /\ (forall n, n ∈ b.2 <-> is_Some (b.1 !! n)) /\ map_Forall (fun _ cs => cs <> []) b.1.

Lemma bind_insert_notin suites n cs (l : list string) :
  n ∉ l -> l ≫= casesOf (<[n := cs]> suites) = l ≫= casesOf suites.
Proof.
  intros Hn. induction l as [|m l IH]; [done|]. cbn. apply not_elem_of_cons in Hn as [Hm Hn].
  rewrite IH by done. unfold casesOf at 1 3. by rewrite lookup_insert_ne by done.
Qed.

Lemma add_ok s c b : building_ok b -> building_ok (add s c b) /\ flat (add s c b) ≡ₚ stamp s c :: flat b.
Proof.
  destruct b as [suites order]. intros (Hnd & Hdom & Hne). cbn [fst snd] in *. unfold add. fold (stamp s c).
  destruct (suites !! s) as [cases|] eqn:E.
  - assert (Hs : s ∈ order) by (apply Hdom; eauto).
    split.
    + split_and!; [done| |apply map_Forall_insert_2; [by destruct cases|done]].
      intros n. cbn [fst snd]. rewrite Hdom. destruct (decide (n = s)) as [->|Hn].
      * rewrite lookup_insert_eq, E. by split; eauto.
      * by rewrite lookup_insert_ne.
    + unfold flat. cbn [fst snd]. apply list_elem_of_split in Hs as (l1 & l2 & ->).
      apply NoDup_app in Hnd as (_ & Hd & [H2 _]%NoDup_cons).
      assert (s ∉ l1) as H1 by (intros H1; by apply (Hd s H1), elem_of_cons; left).
      rewrite !bind_app, !bind_cons, !bind_insert_notin by done.
      unfold casesOf at 2 5. rewrite lookup_insert_eq, E. cbn [default]. solve_Permutation.
  - assert (Hs : s ∉ order) by (rewrite Hdom, E; apply is_Some_None).
    split.
    + split_and!; [apply NoDup_app; split_and!; [done|intros x Hx ->%list_elem_of_singleton; done|apply NoDup_singleton]| |
        by apply map_Forall_insert_2].
      intros n. cbn [fst snd]. rewrite elem_of_app, list_elem_of_singleton, Hdom. destruct (decide (n = s)) as [->|Hn].
      * rewrite lookup_insert_eq, E. split; [eauto|by right].
      * rewrite lookup_insert_ne by done. naive_solver.
    + unfold flat. cbn [fst snd]. rewrite bind_app, bind_insert_notin by done. cbn.
      unfold casesOf at 2. rewrite lookup_insert_eq. cbn [default]. solve_Permutation.
Qed.

Lemma addAll_ok {A} (suite : A -> string) (case : A -> testcase) l b :
  building_ok b ->
  building_ok (addAll suite case l b) /\ flat (addAll suite case l b) ≡ₚ map (fun x => stamp (suite x) (case x)) l ++ flat b.
Proof.
  unfold addAll. revert b. induction l as [|x l IH]; intros b Hb; cbn [foldl map]; [done|].
  destruct (add_ok (suite x) (case x) b Hb) as [Hok Hp]. destruct (IH _ Hok) as [Hok' Hp']. split; [done|].
  rewrite Hp', Hp. cbn. solve_Permutation.
Qed.

Lemma sorted_ok suites order :
  building_ok (suites, order) -> building_ok (suites, sortSuites order) /\ flat (suites, sortSuites order) ≡ₚ flat (suites, order).
Proof.
  intros (Hnd & Hdom & Hne). assert (Hp : sortSuites order ≡ₚ order) by apply isort_perm. split.
  - split_and!; cbn [fst snd]; [by rewrite Hp| |done]. intros n. by rewrite Hp.
  - unfold flat. cbn [fst snd]. by rewrite Hp.
Qed.

(** ** Counts *)

Definition failed (c : testcase) : bool := bool_decide (is_Some (tc_Failure c)).
Definition errored (c : testcase) : bool := negb (failed c) && bool_decide (is_Some (tc_Error c)).

Definition count (p : testcase -> bool) (cs : list testcase) : Z := zlen (List.filter p cs).

Lemma count_app p cs cs' : count p (cs ++ cs') = count p cs + count p cs'.
Proof. unfold count, zlen. rewrite List.filter_app, length_app. lia. Qed.

Lemma count_perm p cs cs' : cs ≡ₚ cs' -> count p cs = count p cs'.
Proof. induction 1 as [|x l l' _ IH|x y l|l l' l'' _ IH _ IH']; unfold count, zlen in *; cbn; repeat case_match; cbn; lia. Qed.

Lemma countCase_fold s cs :
  let s' := foldl countCase s cs in
  ts_Tests s' = ts_Tests s + zlen cs /\ ts_Failures s' = ts_Failures s + count failed cs /\
  ts_Errors s' = ts_Errors s + count errored cs /\ ts_Cases s' = ts_Cases s.
Proof.
  cbv zeta. revert s. induction cs as [|c cs IH]; intros s; cbn [foldl]; [unfold count, zlen; cbn; split_and!; (done || lia)|].
  destruct (IH (countCase s c)) as (-> & -> & -> & ->).
  change (c :: cs) with ([c] ++ cs). rewrite !count_app. unfold count, zlen at 2, countCase, errored, failed. cbn [List.filter].
  unfold zlen. cbn [ts_Tests ts_Failures ts_Errors ts_Cases length app].
  destruct (tc_Failure c), (tc_Error c); cbn [length]; repeat (rewrite bool_decide_eq_true_2 by eauto || rewrite bool_decide_eq_false_2 by (by intros [])); cbn; split_and!; (done || lia).
Qed.

Lemma document_spec suites order doc :
  let d := foldl (fun d n => addSuite d (suiteOf suites n)) doc order in
  let cs := flat (suites, order) in
  tss_Tests d = tss_Tests doc + zlen cs /\ tss_Failures d = tss_Failures doc + count failed cs /\
  tss_Errors d = tss_Errors doc + count errored cs /\ tss_Suites d ≫= ts_Cases = (tss_Suites doc ≫= ts_Cases) ++ cs.
Proof.
  cbv zeta. unfold flat. cbn [fst snd]. revert doc. induction order as [|n order IH]; intros doc; cbn [foldl].
  { cbn. unfold count, zlen. cbn. rewrite app_nil_r. split_and!; (done || lia). }
  destruct (IH (addSuite doc (suiteOf suites n))) as (-> & -> & -> & ->).
  destruct (countCase_fold (mkSuite n 0 0 0 0 zero (casesOf suites n)) (casesOf suites n)) as (E1 & E2 & E3 & E4).
  unfold addSuite, suiteOf. fold (casesOf suites n). cbn [tss_Tests tss_Failures tss_Errors tss_Suites].
  rewrite E1, E2, E3. rewrite bind_cons, !count_app. cbn [ts_Tests ts_Failures ts_Errors].
  rewrite bind_app. cbn. rewrite E4. cbn [ts_Cases]. rewrite app_nil_r, <- app_assoc. unfold zlen. rewrite length_app. split_and!; (done || lia).
Qed.

(** The cases a report has. *)
Definition reportCases (r : Report) (opts : Options) : list testcase :=
  let failOn := if FailOn opts =s "" then "blocker"%string else FailOn opts in
  map (fun f => stamp (f_Category f) (findingCase failOn f)) (r_Findings r) ++
  map (fun s => stamp (f_Category (sf_Finding s)) (suppressedCase s)) (r_Suppressed r) ++
  map (fun g => stamp notAssessed (gapCase failOn (AllowIncomplete opts) g)) (r_NotAssessed r).

Definition documentCases (r : Report) (opts : Options) : list testcase :=
  match reportCases r opts with [] => [stamp "readiness" (cleanCase r)] | cs => cs end.

Lemma Write_cases (r : Report) (opts : Options) :
  let doc := Write r opts in
  let cs := documentCases r opts in
  tss_Suites doc ≫= ts_Cases ≡ₚ cs /\ tss_Tests doc = zlen cs /\
  tss_Failures doc = count failed cs /\ tss_Errors doc = count errored cs.
Proof.
  cbv zeta. unfold Write, documentCases, reportCases. set (failOn := if FailOn opts =s "" then _ else _).
  assert (H0 : building_ok (∅, [])).
  { split_and!; [constructor| |apply map_Forall_empty]. intros n. cbn. rewrite lookup_empty, is_Some_alt. by split; [intros ?%elem_of_nil|]. }
  destruct (addAll_ok f_Category (findingCase failOn) (r_Findings r) _ H0) as [H1 P1].
  destruct (addAll_ok (fun s => f_Category (sf_Finding s)) suppressedCase (r_Suppressed r) _ H1) as [H2 P2].
  destruct (addAll _ suppressedCase _ _) as [suites order]. cbn beta iota.
  destruct (sorted_ok _ _ H2) as [H3 P3].
  destruct (addAll_ok (fun _ => notAssessed) (gapCase failOn (AllowIncomplete opts)) (r_NotAssessed r) _ H3) as [H4 P4].
  destruct (addAll _ (gapCase _ _) _ _) as [suites' order'].
  rewrite P3, P2, P1 in P4. cbn in P4. rewrite app_nil_r in P4.
  set (cs := map _ (r_Findings r) ++ _).
  assert (P : flat (suites', order') ≡ₚ cs) by (rewrite P4; unfold cs; solve_Permutation).
  assert (Hend : forall s o, flat (s, o) ≡ₚ match cs with [] => [stamp "readiness" (cleanCase r)] | c :: l => c :: l end ->
    let d := foldl (fun d n => addSuite d (suiteOf s n)) (mkSuites name 0 0 0 zero []) o in
    let l := match cs with [] => [stamp "readiness" (cleanCase r)] | c :: l => c :: l end in
    tss_Suites d ≫= ts_Cases ≡ₚ l /\ tss_Tests d = zlen l /\ tss_Failures d = count failed l /\ tss_Errors d = count errored l).
  { intros s o Hp. cbv zeta. destruct (document_spec s o (mkSuites name 0 0 0 zero [])) as (-> & -> & -> & ->).
    cbn [tss_Tests tss_Failures tss_Errors tss_Suites]. cbn [mbind list_bind app].
    rewrite <- !(count_perm _ _ _ Hp). unfold zlen. rewrite <- Hp. split_and!; (done || lia). }
  destruct order' as [|n order'].
  - cbn in P. apply Permutation_nil in P as ->.
    destruct (add_ok "readiness" (cleanCase r) (suites', []) H4) as [_ P5].
    destruct (add "readiness" (cleanCase r) (suites', [])) as [s o]. apply Hend. rewrite P5. done.
  - apply Hend. rewrite P. destruct cs eqn:Ecs; [|done]. exfalso.
    destruct H4 as (_ & Hdom & Hne). assert (n ∈ n :: order') as [c Hc]%Hdom by apply elem_of_cons, or_introl, eq_refl.
    cbn [fst] in Hc. apply Permutation_sym, Permutation_nil in P. unfold flat in P. cbn in P. unfold casesOf at 1 in P.
    rewrite Hc in P. cbn in P. apply app_eq_nil in P as [-> _]. by apply (Hne n []).
Qed.

(** ** When a report fails *)

Lemma count_pos p cs : 0 < count p cs <-> exists c, c ∈ cs /\ p c = true.
Proof.
  unfold count, zlen. setoid_rewrite list_elem_of_In. split.
  - intros H. destruct (List.filter p cs) as [|c l] eqn:E; [cbn in H; lia|]. exists c. apply filter_In. rewrite E. by left.
  - intros (c & H). apply filter_In in H. destruct (List.filter p cs); [done|cbn; lia].
Qed.

Definition failing (c : testcase) : bool := failed c || errored c.

Lemma findingCase_failing failOn s f :
  failing (stamp s (findingCase failOn f)) = negb (f_BaselineState f =s BaselineUnchanged) && reaches (f_Severity f) failOn.
Proof. unfold findingCase. destruct (f_BaselineState f =s BaselineUnchanged); [done|]. by destruct (reaches _ _). Qed.

Lemma gapCase_failing failOn allow s g : failing (stamp s (gapCase failOn allow g)) = gapFails failOn allow g.
Proof. unfold gapCase. by destruct (gapFails _ _ _). Qed.

(** The severity a report is judged at. *)
Definition threshold (opts : Options) : string := if FailOn opts =s "" then "blocker"%string else FailOn opts.

Lemma Write_fails (r : Report) (opts : Options) :
  0 < tss_Failures (Write r opts) + tss_Errors (Write r opts) <->
  (exists f, f ∈ r_Findings r /\ f_BaselineState f <> BaselineUnchanged /\ reaches (f_Severity f) (threshold opts) = true) \/
  (exists g, g ∈ r_NotAssessed r /\ gapFails (threshold opts) (AllowIncomplete opts) g = true).
Proof.
  destruct (Write_cases r opts) as (_ & _ & -> & ->).
  transitivity (exists c, c ∈ reportCases r opts /\ failing c = true).
  { transitivity (exists c, c ∈ documentCases r opts /\ failing c = true).
    - pose proof (count_pos failed (documentCases r opts)) as Hf. pose proof (count_pos errored (documentCases r opts)) as He.
      assert (0 <= count failed (documentCases r opts) /\ 0 <= count errored (documentCases r opts)) as [??] by (unfold count, zlen; lia).
      unfold failing. setoid_rewrite orb_true_iff. split.
      + intros Hs. assert (0 < count failed (documentCases r opts) \/ 0 < count errored (documentCases r opts)) as [(c & ? & ?)%Hf|(c & ? & ?)%He] by lia; eauto.
      + intros (c & Hc & [Hp|Hp]); [enough (0 < count failed (documentCases r opts)) by lia; apply Hf|
          enough (0 < count errored (documentCases r opts)) by lia; apply He]; eauto.
    - unfold documentCases. destruct (reportCases r opts) as [|c0 cs]; [|done].
      split; [intros (c & ->%list_elem_of_singleton & Hc); done|by intros (c & ?%elem_of_nil & _)]. }
  unfold reportCases. fold (threshold opts). setoid_rewrite elem_of_app. setoid_rewrite elem_of_app.
  setoid_rewrite list_elem_of_In. setoid_rewrite in_map_iff. setoid_rewrite <- list_elem_of_In. split.
  - intros (c & [(f & <- & Hf)|[(s & <- & _)|(g & <- & Hg)]] & Hc); [left|done|right].
    + rewrite findingCase_failing in Hc. apply andb_true_iff in Hc as [Hb Hr]. exists f. split_and!; [done| |done].
      apply negb_true_iff in Hb. by apply String.eqb_neq.
    + rewrite gapCase_failing in Hc. eauto.
  - intros [(f & Hf & Hb & Hr)|(g & Hg & Hr)].
    + exists (stamp (f_Category f) (findingCase (threshold opts) f)). split; [left; eauto|].
      rewrite findingCase_failing. apply String.eqb_neq in Hb. by rewrite Hb, Hr.
    + exists (stamp notAssessed (gapCase (threshold opts) (AllowIncomplete opts) g)). split; [right; right; eauto|].
      by rewrite gapCase_failing.
Qed.

End JunitSpec.
