(* ===== verification/Sarif.v ===== *)
(** * SARIF reports: internal/sarif/sarif.go

    One result per located object of a finding, one rule per key, and a
    notification for what is not a result. *)

From stdpp Require Import base list strings gmap.
From Stdlib Require Import ZArith Lia Ascii.
From S2P Require Import Prelude GoStr GoTime Version Inventory KB Findings GoSha GoNet Render.

Module Sarif.

(** ** net/url: a path *)

(** [shouldEscape(c, encodePath)]. *)
Definition shouldEscapeInPath (a : ascii) : bool :=
  negb (is_alnum a ||
        existsb (Ascii.eqb a) ["-"; "_"; "."; "~"; "$"; "&"; "+"; ","; "/"; ":"; ";"; "="; "@"]%char).

Fixpoint escapePath (s : string) : string :=
  match s with
  | ""%string => ""%string
  | String a s' =>
      (if shouldEscapeInPath a then
         let n := Z.of_N (N_of_ascii a) in String "%" (String (upperhex (n / 16)) (String (upperhex (n mod 16)) ""))
       else String a "") +:+ escapePath s'
  end.

(** [fileURI]: [URL.String] of a path, with the scheme of an absolute
    one. *)
Definition fileURI (p : string) : string :=
  let path := if p =s "*" then "*"%string else escapePath p in
  if HasPrefix p "/" then "file://" +:+ path
  else if Contains (Cut path "/").1.1 ":" then "./" +:+ path
  else path.

Example uri_space : fileURI "charts/a b.yaml" = "charts/a%20b.yaml"%string. Proof. reflexivity. Qed.
Example uri_colon : fileURI "a:b.yaml" = "./a:b.yaml"%string. Proof. reflexivity. Qed.
Example uri_root : fileURI "/srv/x.yaml" = "file:///srv/x.yaml"%string. Proof. reflexivity. Qed.

(** ** The document *)

Record sarifNotification := mkNote { nt_Level : string; nt_Message : string; nt_Properties : gmap string string }.

Record sarifRunProperties := mkProperties {
  pr_Ready : bool;
  pr_Verdict : string;
  pr_Score : Z;
  pr_Findings : Z;
  pr_OmittedFindings : Z;
  pr_Suppressed : Z;
  pr_NotAssessed : list CapabilityGap;
}.

Record sarifRule := mkRule {
  ru_ID : string;
  ru_ShortDescription : string;
  ru_FullDescription : string;
  ru_HelpText : string;
  ru_HelpMarkdown : string;
  ru_HelpURI : string;
  ru_Level : string;
  ru_Tags : list string;
}.

Record sarifResult := mkResult {
  sr_RuleID : string;
  sr_RuleIndex : Z;
  sr_Level : string;
  sr_Message : string;
  sr_URI : string;
  sr_StartLine : Z;
  sr_Fingerprint : string;
  sr_BaselineState : string;
}.

(** The one run of a log, with the driver and the invocation in it. *)
Record sarifLog := mkLog {
  lg_DriverName : string;
  lg_InformationURI : string;
  lg_DriverVersion : string;
  lg_Rules : list sarifRule;
  lg_ExecutionSuccessful : bool;
  lg_Notes : list sarifNotification;
  lg_Results : list sarifResult;
  lg_Properties : sarifRunProperties;
}.

Definition informationURI : string := "https://github.com/abd-ulbasit/upgradescope".
Definition docsURI : string := informationURI +:+ "#readme".

Definition categoryText : list (string * (string * string)) := [
  (CatRemovedAPI, ("Removed Kubernetes API",
    "The object uses an API version that the target Kubernetes version (or the minor after it) no longer serves; applying it after the upgrade fails."));
  (CatDeprecatedAPI, ("Deprecated Kubernetes API",
    "The object uses a deprecated API version that a later Kubernetes release removes."));
  (CatDeprecatedAPIInUse, ("Deprecated Kubernetes API in use",
    "Clients still request a deprecated API version from the apiserver."));
  (CatEOLAddon, ("End-of-life add-on", "The add-on version has reached end of life upstream."));
  (CatEOLApproaching, ("Add-on approaching end of life", "The add-on version reaches end of life upstream within 90 days."));
  (CatVersionSkew, ("Kubernetes version skew", "Component versions violate the Kubernetes version-skew policy."));
  (CatChartIncompat, ("Incompatible add-on version", "The add-on version does not support the target Kubernetes version."));
  (CatKBStale, ("Knowledge base out of date", "The knowledge base does not cover the Kubernetes version being assessed."));
  (CatUnknownAPI, ("Unknown Kubernetes API",
    "The object uses a built-in API group at a version or kind the knowledge base has no lifecycle data for; the target Kubernetes version may not serve it."));
  (CatAddOnNoData, ("Add-on without knowledge-base data",
    "The add-on is running but the knowledge base has no support or compatibility data for it, so it was not assessed."));
  (CatSupportLifecycle, ("Managed Kubernetes support lifecycle",
    "The cluster's Kubernetes minor is leaving, or has left, its managed provider's standard support."));
  (CatCRDVersion, ("CustomResourceDefinition version",
    "The custom resource uses a version its CRD does not serve (the apiserver rejects it) or deprecates (an add-on upgrade may stop serving it)."));
  (CatVolumePlugin, ("In-tree volume plugin",
    "The workload or PersistentVolume names an in-tree volume plugin the target Kubernetes version removed (pods naming it do not start), serves only through a CSI driver that must be installed, or deprecates."))
]%string.

Definition anchoredAt (o : ObjectRef) : bool := negb (o_File o =s "") && (0 <? o_Line o).

(** [anchored], of the objects of a finding. *)
Definition anchored (f : Finding) : list ObjectRef := List.filter anchoredAt (f_Objects f).

Definition Unanchored (r : Report) : Z :=
  zlen (List.filter (fun f => match anchored f with [] => true | _ => false end) (r_Findings r)).

(** ** Text *)

Definition level (s : string) : string :=
  if s =s SevBlocker then "error" else if s =s SevWarning then "warning" else "note".

Definition blankLine (s : string) : string := String "010" (String "010" s).

Definition rule (id : string) (f : Finding) : sarifRule :=
  let text := default (f_Category f, f_Title f)
                (snd <$> find (fun e => e.1 =s f_Category f) categoryText) in
  let short := text.1 +:+ match CutPrefix id (f_Category f +:+ "/") with Some subject => ": " +:+ subject | None => ""%string end in
  let fix_ := if f_Remediation f =s "" then "see the references"%string else f_Remediation f in
  let refs (head : string) (line : string -> string) :=
    match f_Citations f with [] => ""%string | l => head +:+ Join (map (fun c => String "010" (line c)) l) "" end in
  mkRule id short text.2
    (f_Title f +:+ "." +:+ blankLine ("Fix: " +:+ fix_ +:+ ".") +:+
       refs (blankLine "References:") (fun c => "- " +:+ c))
    (f_Title f +:+ "." +:+ blankLine ("**Fix:** " +:+ fix_ +:+ ".") +:+
       refs (blankLine ("**References:**" +:+ String "010" "")) (fun c => "- <" +:+ c +:+ ">"))
    (match f_Citations f with c :: _ => c | [] => docsURI end)
    (level (f_Severity f)) ["kubernetes"%string; "upgrade"%string; f_Category f].

Definition message (f : Finding) (o : ObjectRef) : string :=
  f_Title f +:+ ": " +:+ objectName o +:+
  (if o_RenderedFrom o =s "" then ""%string else " (rendered from " +:+ o_RenderedFrom o +:+ ")") +:+ "." +:+
  (if f_Remediation f =s "" then ""%string else " Fix: " +:+ f_Remediation f +:+ ".").

Definition listMark (o : ObjectRef) : string :=
  if anchoredAt o then " (" +:+ o_File o +:+ ":" +:+ itoa (o_Line o) +:+ ")"
  else if 0 <? o_Line o then " (line " +:+ itoa (o_Line o) +:+ ")" else "".

Definition objectList : list ObjectRef -> Z -> string := objectListWith listMark.

Definition notification (f : Finding) (lvl msg : string) : sarifNotification :=
  mkNote lvl msg (<["findingKey" := ruleKey f]> (<["category" := f_Category f]> {["severity" := f_Severity f]})).

Definition namedObjects (objs : list ObjectRef) (omitted : Z) : string :=
  match objs with [] => ""%string | _ => " Objects: " +:+ objectList objs omitted +:+ "." end.

Definition unanchoredMessage (f : Finding) : string :=
  "Not reported as a result (no file location): " +:+ sentence (f_Title f) +:+
  (if f_Detail f =s "" then ""%string else " " +:+ sentence (f_Detail f)) +:+
  namedObjects (f_Objects f) (f_ObjectsOmitted f) +:+
  (if f_Remediation f =s "" then ""%string else " Fix: " +:+ sentence (f_Remediation f)).

Definition notUploadedMessage (n : Z) : string :=
  if n =? 1 then "1 finding accepted by ignore rules or annotations is not uploaded; see the JSON report."
  else itoa n +:+ " findings accepted by ignore rules or annotations are not uploaded; see the JSON report.".

Definition suppressedMessage (s : SuppressedFinding) : string :=
  let f := sf_Finding s in
  let why := sf_Reason s +:+ (if sf_Expires s =s "" then ""%string else "; until " +:+ sf_Expires s) in
  "Suppressed (" +:+ why +:+ "): " +:+ sentence (f_Title f) +:+ namedObjects (f_Objects f) (f_ObjectsOmitted f).

Definition unlistedMessage (f : Finding) (n : Z) : string :=
  let loose := List.filter (fun o => (o_File o =s "") || (o_Line o <? 1)) (f_Objects f) in
  f_Title f +:+ ": " +:+ itoa n +:+ " more affected object(s) are not listed as results" +:+
  match loose with
  | [] => if MaxObjectRefs <=? zlen (f_Objects f) then
            " (at most " +:+ itoa MaxObjectRefs +:+ " objects are recorded per finding)" else ""%string
  | _ => ": " +:+ objectList loose (f_ObjectsOmitted f)
  end +:+ ".".

(** ** Results *)

Definition identity (id : string) (o : ObjectRef) : list string := [id; o_File o; o_Namespace o; o_Name o].

Definition fingerprint (id : string) (o : ObjectRef) (n : Z) : string :=
  digest (hashedText (occurrenceParts (identity id o) n)).

(** What [Write] builds up. *)
Record building := mkBuilding {
  b_rules : list sarifRule;
  b_ruleIndex : gmap string Z;
  b_results : list sarifResult;
  b_notes : list sarifNotification;
  b_occurrences : gmap string Z;
  b_omitted : Z;
}.

Definition note (n : sarifNotification) (b : building) : building :=
  mkBuilding (b_rules b) (b_ruleIndex b) (b_results b) (b_notes b ++ [n]) (b_occurrences b) (b_omitted b).

(** One round of the loop of [addResults]. *)
Definition addResult (f : Finding) (id : string) (idx : Z) (b : building) (o : ObjectRef) : building :=
  let base := fingerprint id o 0 in
  let n := occurrence (b_occurrences b) base in
  let fp := if 0 <? n then fingerprint id o n else base in
  mkBuilding (b_rules b) (b_ruleIndex b)
    (b_results b ++ [mkResult id idx (level (f_Severity f)) (message f o) (fileURI (o_File o)) (o_Line o) fp (f_BaselineState f)])
    (b_notes b) (<[base := n + 1]> (b_occurrences b)) (b_omitted b).

Definition addResults (f : Finding) (objs : list ObjectRef) (b : building) : building :=
  let id := ruleKey f in
  let '(idx, b) := match b_ruleIndex b !! id with
                   | Some idx => (idx, b)
                   | None =>
                       let idx := zlen (b_rules b) in
                       (idx, mkBuilding (b_rules b ++ [rule id f]) (<[id := idx]> (b_ruleIndex b)) (b_results b) (b_notes b)
                               (b_occurrences b) (b_omitted b))
                   end in
  foldl (addResult f id idx) b objs.

Definition addFinding (b : building) (f : Finding) : building :=
  match anchored f with
  | [] =>
      let b := mkBuilding (b_rules b) (b_ruleIndex b) (b_results b) (b_notes b) (b_occurrences b) (b_omitted b + 1) in
      note (notification f (level (f_Severity f)) (unanchoredMessage f)) b
  | objs =>
      let n := f_ObjectsOmitted f + zlen (f_Objects f) - zlen objs in
      addResults f objs (if 0 <? n then note (notification f "note" (unlistedMessage f n)) b else b)
  end.

(** The notes of the suppressed findings, and how many have a location. *)
Definition addSuppressed (acc : building * Z) (s : SuppressedFinding) : building * Z :=
  match anchored (sf_Finding s) with
  | [] => (note (notification (sf_Finding s) "note" (suppressedMessage s)) acc.1, acc.2)
  | _ => (acc.1, acc.2 + 1)
  end.

Definition addGap (b : building) (g : CapabilityGap) : building :=
  if g_Required g then note (mkNote "error" (gapMessage g) {["capability" := g_Capability g]}) b
  else if g_Partial g then note (mkNote "note" (gapMessage g) {["capability" := g_Capability g]}) b
  else b.

(** The log [Write] encodes. *)
Definition Write (r : Report) (toolVersion : string) : sarifLog :=
  let b := foldl addFinding (mkBuilding [] ∅ [] [] ∅ 0) (r_Findings r) in
  let '(b, notUploaded) := foldl addSuppressed (b, 0) (r_Suppressed r) in
  let b := if 0 <? notUploaded then note (mkNote "note" (notUploadedMessage notUploaded) ∅) b else b in
  let b := foldl addGap b (r_NotAssessed r) in
  mkLog "upgradescope" informationURI toolVersion (b_rules b) true (b_notes b) (b_results b)
    (mkProperties (r_Ready r) (r_Verdict r) (r_Score r) (zlen (r_Findings r)) (b_omitted b) (zlen (r_Suppressed r)) (r_NotAssessed r)).

End Sarif.
