(* ===== verification/CodeQuality.v ===== *)
(** * GitLab Code Quality reports: internal/codequality/codequality.go

    One entry per located object of a finding, or per finding without one,
    and one per gap that matters; GitLab keys them by fingerprint. *)

From stdpp Require Import base list strings gmap.
From Stdlib Require Import ZArith Lia Ascii.
From S2P Require Import Prelude GoStr GoTime Version Inventory KB Findings GoSha Render.

Module CodeQuality.

(** An entry, with its location. *)
Record issue := mkIssue {
  is_Description : string;
  is_CheckName : string;
  is_Fingerprint : string;
  is_Severity : string;
  is_Path : string;
  is_Begin : Z;
}.

Definition VirtualPrefix : string := "upgradescope/".
Definition fingerprintVersion : string := "upgradescope/codequality/v1".

Definition severity (s : string) : string :=
  if s =s SevBlocker then "critical" else if s =s SevWarning then "minor" else "info".

Definition listMark (o : ObjectRef) : string :=
  if 0 <? o_Line o then " (line " +:+ itoa (o_Line o) +:+ ")" else "".

Definition objectList : list ObjectRef -> Z -> string := objectListWith listMark.

Definition objectMessage (f : Finding) (o : ObjectRef) : string :=
  f_Title f +:+ ": " +:+ objectName o +:+
  (if o_RenderedFrom o =s "" then ""%string else " (rendered from " +:+ o_RenderedFrom o +:+ ")") +:+ "." +:+
  (if f_Remediation f =s "" then ""%string else " Fix: " +:+ sentence (f_Remediation f)).

Definition findingMessage (f : Finding) : string :=
  sentence (f_Title f) +:+
  (if f_Detail f =s "" then ""%string else " " +:+ sentence (f_Detail f)) +:+
  match f_Objects f with [] => ""%string | objs => " Objects: " +:+ objectList objs (f_ObjectsOmitted f) +:+ "." end +:+
  (if f_Remediation f =s "" then ""%string else " Fix: " +:+ sentence (f_Remediation f)).

(** [fingerprint]. *)
Definition fingerprint (parts : list string) (n : Z) : string :=
  digest (hashedText (occurrenceParts (fingerprintVersion :: parts) n)).

(** The entries so far, and how often each identity occurred. *)
Definition building : Type := list issue * gmap string Z.

(** The closure [add]. *)
Definition add (check sev desc path : string) (line : Z) (identity : list string) (b : building) : building :=
  let '(issues, seen) := b in
  let base := fingerprint (check :: path :: identity) 0 in
  let n := occurrence seen base in
  let fp := if 0 <? n then fingerprint (check :: path :: identity) n else base in
  (issues ++ [mkIssue desc check fp sev path line], <[base := n + 1]> seen).

Definition loose (f : Finding) : list ObjectRef := List.filter (fun o => o_File o =s "") (f_Objects f).
Definition located (f : Finding) : list ObjectRef := List.filter (fun o => negb (o_File o =s "")) (f_Objects f).

Definition addObject (f : Finding) (b : building) (o : ObjectRef) : building :=
  add (ruleKey f) (severity (f_Severity f)) (objectMessage f o) (o_File o) (Z.max (o_Line o) 1) [o_Namespace o; o_Name o] b.

Definition unlistedMessage (f : Finding) : string :=
  let n := zlen (loose f) + f_ObjectsOmitted f in
  f_Title f +:+ ": " +:+ itoa n +:+ " more affected object(s) are not listed with a file and line" +:+
  match loose f with
  | [] => if MaxObjectRefs <=? zlen (f_Objects f) then
            " (at most " +:+ itoa MaxObjectRefs +:+ " objects are recorded per finding)" else ""%string
  | l => ": " +:+ objectList l (f_ObjectsOmitted f)
  end +:+ ".".

Definition addFinding (b : building) (f : Finding) : building :=
  let check := ruleKey f in
  let sev := severity (f_Severity f) in
  let b := foldl (addObject f) b (located f) in
  match located f with
  | [] => add check sev (findingMessage f) (VirtualPrefix +:+ check) 1 [] b
  | _ =>
      if 0 <? zlen (loose f) + f_ObjectsOmitted f then
        add check sev (unlistedMessage f) (VirtualPrefix +:+ check) 1 [] b
      else b
  end.

Definition gapDescription (g : CapabilityGap) : string :=
  gapMessage g +:+
  (if g_Required g then " The verdict is unknown: a blocker may have been missed." else "").

Definition addGap (b : building) (g : CapabilityGap) : building :=
  let check := "not-assessed/" +:+ g_Capability g in
  if g_Required g then add check "critical" (gapDescription g) (VirtualPrefix +:+ check) 1 [] b
  else if g_Partial g then add check "info" (gapDescription g) (VirtualPrefix +:+ check) 1 [] b
  else b.

(** The entries [Write] encodes. *)
Definition Write (r : Report) : list issue :=
  (foldl addGap (foldl addFinding ([], ∅) (r_Findings r)) (r_NotAssessed r)).1.

End CodeQuality.
