(* ===== verification/Scan.v ===== *)
(** * The scan command: internal/cli/scan.go

    From the flags to the exit code: what is read first, the scan, the
    ignore rules, the baseline, the document that is written and the gate.
    What the files, the cluster and the terminal answer is an argument. *)

From stdpp Require Import base list strings gmap.
From Stdlib Require Import ZArith Lia Ascii.
From S2P Require Import Prelude GoStr GoTime Version Inventory KB Findings Evaluate Plan Glob TextSafe Suppress Baseline Collector Render Junit Sarif CodeQuality.

(** ** The gate and the exit code *)

Inductive scanError :=
  | ErrGateFailed
  | ErrIncomplete
  | ErrTargetNotUpgrade (reason : string)
  | operational (msg : string).

Definition ExitCode (err : option scanError) : Z :=
  match err with
  | None => 0
  | Some ErrGateFailed | Some ErrIncomplete | Some (ErrTargetNotUpgrade _) => 2
  | Some (operational _) => 1
  end.

Definition counted (r : Report) (sev : string) : Z :=
  zlen (List.filter (fun f => negb (f_BaselineState f =s BaselineUnchanged) && (f_Severity f =s sev)) (r_Findings r)).

Definition findingsReach (r : Report) (failOn : string) : bool :=
  let blockers := counted r SevBlocker in
  let warnings := counted r SevWarning in
  if failOn =s "warning" then 0 <? blockers + warnings else 0 <? blockers.

Definition incomplete (r : Report) : bool := (r_Verdict r =s VerdictUnknown) || existsb g_Required (r_NotAssessed r).

Definition gate (r : Report) (failOn : string) (allowIncomplete : bool) : option scanError :=
  if failOn =s "never" then None
  else if findingsReach r failOn then Some ErrGateFailed
  else match find (fun g => g_Capability g =s GapTarget) (r_NotAssessed r) with
       | Some g => Some (ErrTargetNotUpgrade (g_Reason g))
       | None => if incomplete r && negb allowIncomplete then Some ErrIncomplete else None
       end.

(** ** Flags *)

Record scanOptions := mkScanOptions {
  so_target : string;
  so_filesDir : string;
  so_output : string;
  so_failOn : string;
  so_allowIncomplete : bool;
  so_plan : bool;
  so_from : string;
  so_requestTimeout : Z;
  so_baselineFile : string;
  so_writeBaseline : string;
  so_teamLabelChanged : bool;
}.

Definition outputs : list string := ["table"; "json"; "sarif"; "markdown"; "junit"; "gitlab-codequality"]%string.

Definition validRequestTimeout (d : Z) : option string :=
  if d <? 0 then Some ("invalid --request-timeout " +:+ durationString d +:+ " (want 0 or more; 0 = no per-request limit)") else None.

(** The parsed [--from]; [None] where there is none to parse. *)
Definition validatePlanOptions (o : scanOptions) (target : Version) : res (option Version) :=
  if negb (so_from o =s "") && negb (so_plan o) then Err "--from needs --plan"
  else if negb (so_plan o) then Ok None
  else if mem_str (so_output o) ["sarif"; "junit"; "gitlab-codequality"]%string then
    Err ("--plan renders in table, markdown and json; " +:+ so_output o +:+ " has no place for upgrade steps, so run the " +:+
         so_output o +:+ " scan without --plan")
  else if (so_filesDir o =s "") && negb (so_from o =s "") then
    Err "--from is for --files scans; a live scan plans from the version its kube-apiserver runs"
  else if so_filesDir o =s "" then Ok None
  else if so_from o =s "" then Err "--plan with --files needs --from, the minor the cluster runs now"
  else match ParseClusterVersion (so_from o) with
       | Err e => Err ("invalid --from " +:+ quote (so_from o) +:+ ": " +:+ e)
       | Ok from =>
           if 0 <=? Compare from target then Err ("--from " +:+ VString from +:+ " must be older than --target " +:+ VString target)
           else Ok (Some from)
       end.

(** [--target] and [--from], parsed. *)
Definition validateScanOptions (o : scanOptions) : res (Version * option Version) :=
  match ParseTarget (so_target o) with
  | Err e => Err ("invalid --target " +:+ quote (so_target o) +:+ ": " +:+ e)
  | Ok target =>
      if negb (mem_str (so_output o) outputs) then
        Err ("invalid --output " +:+ quote (so_output o) +:+ " (want table, json, sarif, markdown, junit, or gitlab-codequality)")
      else if negb (mem_str (so_failOn o) ["blocker"; "warning"; "never"]%string) then
        Err ("invalid --fail-on " +:+ quote (so_failOn o) +:+ " (want blocker, warning, or never)")
      else match validatePlanOptions o target with
           | Err e => Err e
           | Ok from => match validRequestTimeout (so_requestTimeout o) with Some e => Err e | None => Ok (target, from) end
           end
  end.

(** ** The scan *)

Definition plural (n : Z) (noun : string) : string := itoa n +:+ " " +:+ noun +:+ (if n =? 1 then "" else "s").

Record FileWarning := mkFileWarning { fw_File : string; fw_Line : Z; fw_Err : string; fw_Unassessed : bool }.

(** [FileWarning.String]. *)
Definition warningString (w : FileWarning) : string :=
  if fw_Line w =? 0 then fw_File w +:+ ": " +:+ fw_Err w
  else fw_File w +:+ ":" +:+ itoa (fw_Line w) +:+ ": " +:+ fw_Err w.

(** What the scan reads of a [collect.FilesSummary]. *)
Record FilesSummary := mkSummary {
  fs_Skipped : Z;
  fs_Objects : Z;
  fs_Warnings : list FileWarning;
  fs_Charts : list (string * Z);  (** directory, templates *)
  fs_Templated : Z;
}.

Definition templateFiles (sum : FilesSummary) : Z := foldl (fun n c => n + c.2) (fs_Templated sum) (fs_Charts sum).

Definition writeTemplateHints (base : string) (sum : FilesSummary) : list string :=
  map (fun c =>
    let dir := Escape (Join2 base c.1) in
    "warning: " +:+ dir +:+ " looks like an unrendered Helm chart (Chart.yaml found, " +:+ plural c.2 "template" +:+ " " +:+
    (if c.2 =? 1 then "contains" else "contain") +:+ " {{ }}); render it first: helm template NAME " +:+ dir +:+ " --output-dir rendered")
    (fs_Charts sum) ++
  (if 0 <? fs_Templated sum then
     ["warning: skipped " +:+ plural (fs_Templated sum) "file" +:+ " containing {{ }}, outside any Helm chart (Chart.yaml): unrendered templates?"]
   else []).

Definition fileWarnings (base : string) (sum : FilesSummary) : list string :=
  map (fun w =>
    let text := Escape (warningString (mkFileWarning (Join2 base (fw_File w)) (fw_Line w) (fw_Err w) (fw_Unassessed w))) in
    (if fw_Unassessed w then "warning: skipped " else "warning: ") +:+ text) (fs_Warnings sum) ++
  writeTemplateHints base sum.

Definition nothingFound (dir : string) (sum : FilesSummary) : string :=
  "no Kubernetes manifests found under " +:+ dir +:+ " (" +:+ itoa (fs_Skipped sum) +:+ " files skipped)" +:+
  (let n := templateFiles sum in
   if 0 <? n then
     "; files containing {{ }} (" +:+ itoa n +:+ ") look like unrendered Helm templates: render the chart first (helm template NAME <chart dir> --output-dir rendered) and scan the output"
   else "").

(** [strings.Fields]: the runs of bytes between spaces. *)
Fixpoint fieldsFrom (fuel : nat) (run : string) (s : string) : list string :=
  let close := if run =s "" then [] else [run] in
  match fuel, s with
  | S fuel', String a s' =>
      match cut_first CutPrefix s with
      | Some rest => close ++ fieldsFrom fuel' "" rest
      | None => fieldsFrom fuel' (run +:+ String a "") s'
      end
  | _, _ => close
  end.

Definition Fields (s : string) : list string := fieldsFrom (String.length s) "" s.

Definition readableOrder : list string := [CapVersions; CapHelm; CapAddOns; CapAPIUsage; CapDeprecatedCalls].

(** The loop over the reasons: the first, or the first that says more than
    "unknown". *)
Fixpoint bestReason (reason : string) (rs : list string) : string :=
  match rs with
  | [] => reason
  | r :: rs' =>
      let reason := if reason =s "" then r else reason in
      if negb (r =s "") && negb (HasSuffix r ": unknown") then r else bestReason reason rs'
  end.

Definition unreadableCluster (inv : Inventory) (at_ : string) : option string :=
  if bool_decide (Capabilities inv = ∅) then None
  else if existsb (fun e => cs_Available e.2) (map_to_list (Capabilities inv)) then None
  else
    let reasonOf c := Join (Fields (match Capabilities inv !! c with Some st => cs_Reason st | None => ""%string end)) " " in
    Some ("cannot read the cluster at " +:+ at_ +:+ ": " +:+ bestReason "" (map reasonOf readableOrder) +:+
          "; check the kubeconfig context, credentials and network").

(** The rules in effect. *)
Record ignoreConfig := mkIgnore { ig_rules : list Rule; ig_source : string; ig_fileBase : string }.

Definition ignoreOptions (ig : ignoreConfig) (now : Time) : Suppress.Options :=
  Suppress.mkOptions now (ig_source ig) (ig_fileBase ig).

Section Scan.
Context `{Semver} `{KubeAware}.

Definition planWarning (msg : string) : string :=
  "warning: --plan: " +:+ Escape msg +:+ ", so there is no upgrade plan; the report judges the target alone".

(** The hops and the warnings; [None]: an evaluation panics. *)
Definition planHops (inv : Inventory) (k : KB) (files : bool) (from : option Version) (target : Version) (ig : ignoreConfig) (now : Time)
    : option (list Hop * list string) :=
  match (if files then from else PlanFrom inv) with
  | None => Some ([], [planWarning "the cluster's kube-apiserver version is unknown"])
  | Some from =>
      match HopTargets k from target with
      | [] => Some ([], [planWarning ("--target " +:+ VString target +:+ " is not an upgrade of the cluster's " +:+ VString from)])
      | targets =>
          (fun reports => (PlanReports from reports, [])) <$>
          mapM (fun t => Evaluate inv k t now ≫= fun r => fst <$> Suppress.Apply r (ig_rules ig) (ignoreOptions ig now)) targets
      end
  end.

Definition set_Hops (hops : list Hop) (r : Report) : Report :=
  mkReport (r_ClusterID r) (r_Target r) (r_ServerVersion r) (r_KubeContext r) (r_APIServer r)
    (r_KBVersion r) (r_Score r) (r_Ready r) (r_Verdict r) (r_Findings r) (r_NotAssessed r) (r_Support r) (r_Suppressed r)
    (r_UnrecognizedImages r) (r_UnrecognizedImagesOmitted r) (r_AddOnEvidenceAgeSeconds r) hops.

Definition set_Cluster (context server : string) (r : Report) : Report :=
  mkReport (r_ClusterID r) (r_Target r) (r_ServerVersion r) context server
    (r_KBVersion r) (r_Score r) (r_Ready r) (r_Verdict r) (r_Findings r) (r_NotAssessed r) (r_Support r) (r_Suppressed r)
    (r_UnrecognizedImages r) (r_UnrecognizedImagesOmitted r) (r_AddOnEvidenceAgeSeconds r) (r_Hops r).

Definition evaluateScan (inv : Inventory) (k : KB) (plan files : bool) (from : option Version) (target : Version) (ig : ignoreConfig)
    (now : Time) : option (Report * list string) :=
  r ← Evaluate inv k target now;
  if plan then '(hops, ws) ← planHops inv k files from target ig now; Some (set_Hops hops r, ws)
  else Some (r, []).

(** What the world answers a scan. *)
Record scanWorld := mkWorld {
  w_targetExample : string;
  w_fileBase : string;                          (** [manifestBase] *)
  w_ignore : res ignoreConfig;                  (** [loadIgnore] *)
  w_baseline : res Baseline.Baseline;           (** [readBaseline] *)
  w_kb : res KB;                                (** [kb.LoadWithRegistry] *)
  w_files : res (Inventory * FilesSummary);     (** [collect.CollectFiles] *)
  w_clients : res (string * string);            (** [buildClients]: the context and the server *)
  w_inventory : Inventory;                      (** [collect.Collect] *)
  w_clock : nat -> Time;
  w_writeBaseline : option string;              (** the error of [writeBaselineFile] *)
  w_write : option string;                      (** the error of writing the document *)
  w_version : string;
}.

(** [runScan]: the report and its warnings, or its error after them. *)
Definition runScan (o : scanOptions) (target : Version) (from : option Version) (ig : ignoreConfig) (w : scanWorld)
    : option (list string * res Report) :=
  match w_kb w with
  | Err e => Some ([], Err ("load knowledge base: " +:+ e))
  | Ok k =>
      if negb (so_filesDir o =s "") then
        match w_files w with
        | Err e => Some ([], Err ("collect inventory: " +:+ e))
        | Ok (inv, sum) =>
            let ws := fileWarnings (w_fileBase w) sum in
            if fs_Objects sum =? 0 then Some (ws, Err (nothingFound (so_filesDir o) sum))
            else '(r, pws) ← evaluateScan inv k (so_plan o) true from target ig (w_clock w 0%nat); Some (ws ++ pws, Ok r)
        end
      else
        match w_clients w with
        | Err e => Some ([], Err e)
        | Ok (context, server) =>
            match unreadableCluster (w_inventory w) ("context " +:+ quote context +:+ " (server " +:+ server +:+ ")") with
            | Some e => Some ([], Err e)
            | None =>
                '(r, pws) ← evaluateScan (w_inventory w) k (so_plan o) false from target ig (w_clock w 0%nat);
                Some (pws, Ok (set_Cluster context server r))
            end
        end
  end.

End Scan.

(** ** The document *)

Definition withBase (base : string) (f : Finding) : Finding :=
  mkFinding (f_Category f) (f_Severity f) (f_Key f) (f_Title f) (f_Detail f) (f_Teams f) (f_Namespaces f)
    (f_NamespacesOmitted f) (f_Unnamespaced f) (f_Remediation f) (f_Citations f)
    (map (fun o => if o_File o =s "" then o
                   else mkObjectRef (o_Namespace o) (o_Name o) (Join2 base (o_File o)) (o_Line o) (o_RenderedFrom o) (o_Manager o)
                          (o_Ignore o) (o_IgnoreReason o) (o_IgnoreLegacyKey o) (o_IgnoreReasonLegacyKey o)) (f_Objects f))
    (f_ObjectsOmitted f) (f_BaselineState f) (f_Callers f).

Definition withFileBase (r : Report) (base : string) : Report :=
  if base =s "" then r
  else with_Findings (map (withBase base) (r_Findings r))
         (map (fun s => mkSuppressed (withBase base (sf_Finding s)) (sf_Reason s) (sf_Source s) (sf_Expires s)) (r_Suppressed r)) r.

(** What is encoded: the JSON, markdown and table renderings are of the
    report. *)
Inductive document :=
  | asJSON (r : Report) (filesBase : option string)
  | asSARIF (log : Sarif.sarifLog)
  | asJUnit (doc : Junit.testsuites)
  | asCodeQuality (issues : list CodeQuality.issue)
  | asMarkdown (r : Report)
  | asTable (r : Report).

(** [writeReport]. *)
Definition documentOf (o : scanOptions) (version : string) (r : Report) (filesBase : option string) : document :=
  if so_output o =s "json" then asJSON r filesBase
  else if so_output o =s "sarif" then asSARIF (Sarif.Write r version)
  else if so_output o =s "junit" then asJUnit (Junit.Write r (Junit.mkOptions (so_failOn o) (so_allowIncomplete o)))
  else if so_output o =s "gitlab-codequality" then asCodeQuality (CodeQuality.Write r)
  else if so_output o =s "markdown" then asMarkdown r
  else asTable r.

Definition IsAbs (p : string) : bool := HasPrefix p "/".

Definition outputNotes (o : scanOptions) (base : string) (r : Report) : list string :=
  (if (so_output o =s "sarif") && IsAbs base then
     ["note: --files " +:+ so_filesDir o +:+ " is outside the working directory, so SARIF locations are absolute file:// URIs that GitHub code scanning cannot place in the repository; run from the repository root"]
   else []) ++
  (if (so_output o =s "gitlab-codequality") && IsAbs base then
     ["note: --files " +:+ so_filesDir o +:+ " is outside the working directory, so Code Quality paths are absolute and GitLab cannot place them in the repository; run from the repository root"]
   else []) ++
  (if (so_output o =s "sarif") && (0 <? Sarif.Unanchored r) then
     ["note: " +:+ itoa (Sarif.Unanchored r) +:+ " finding(s) have no file location, so they are not SARIF results (GitHub rejects results without one); the SARIF lists them as tool execution notifications, and --output table or json shows them in full"]
   else []).

(** ** The command *)

Definition errTeamLabelNeedsCluster : string :=
  "--team-label needs a live cluster: team attribution reads the labels of the cluster's Namespace objects, and --files mode reads none, so every finding of a files scan is unattributed (attribute teams with a live scan, the agent, or the server's gate with ?cluster=)".

Definition errTargetRequired (example : string) : string :=
  "--target is required: the Kubernetes minor to upgrade to, e.g. --target " +:+ example +:+ " (the newest this build knows; see upgradescope version)".

(** What a scan leaves: the lines on stderr, the document, and its error. *)
Record scanRun := mkRun { sn_stderr : list string; sn_document : option document; sn_error : option scanError }.

Definition refused (msg : string) : scanRun := mkRun [] None (Some (operational msg)).

(** After the scan: the rules, the baseline, the document and the gate. *)
Definition concludeScan (o : scanOptions) (ig : ignoreConfig) (baseline : option Baseline.Baseline) (w : scanWorld) (ws : list string)
    (report : Report) : option scanRun :=
  '(report, warnings) ← Suppress.Apply report (ig_rules ig) (ignoreOptions ig (w_clock w 1%nat));
  let ws := ws ++ map (fun m => "warning: " +:+ Escape m) warnings in
  match (if so_writeBaseline o =s "" then None else w_writeBaseline w) with
  | Some e => Some (mkRun ws None (Some (operational e)))
  | None =>
      let report := match baseline with Some b => Baseline.Mark b report | None => report end in
      let base := if so_filesDir o =s "" then ""%string else w_fileBase w in
      let '(out, filesBase) :=
        if so_output o =s "json" then (report, if so_filesDir o =s "" then None else Some base)
        else (withFileBase report base, None) in
      match w_write w with
      | Some e => Some (mkRun ws None (Some (operational e)))
      | None =>
          Some (mkRun (ws ++ outputNotes o base report) (Some (documentOf o (w_version w) out filesBase))
                  (gate report (so_failOn o) (so_allowIncomplete o)))
      end
  end.

(** [PreRunE] and [RunE]. *)
Definition scan `{Semver} `{KubeAware} (o : scanOptions) (w : scanWorld) : option scanRun :=
  if so_target o =s "" then Some (refused (errTargetRequired (w_targetExample w)))
  else if negb (so_filesDir o =s "") && so_teamLabelChanged o then Some (refused errTeamLabelNeedsCluster)
  else
    match validateScanOptions o with
    | Err e => Some (refused e)
    | Ok (target, from) =>
        match w_ignore w with
        | Err e => Some (refused e)
        | Ok ig =>
            match (if so_baselineFile o =s "" then Ok None else match w_baseline w with Ok b => Ok (Some b) | Err e => Err e end) with
            | Err e => Some (refused e)
            | Ok baseline =>
                '(ws, outcome) ← runScan o target from ig w;
                match outcome with
                | Err e => Some (mkRun ws None (Some (operational e)))
                | Ok report => concludeScan o ig baseline w ws report
                end
            end
        end
    end.
