(* ===== verification/FormatSpec.v ===== *)
(** * What the CI formats promise

    Fingerprints tell entries apart, SARIF leaves nothing out without
    saying so, and every format tells a report that is ready from one that
    is not. *)

From stdpp Require Import base list strings gmap.
From Stdlib Require Import ZArith Lia Ascii.
From S2P Require Import Prelude GoStr GoTime Version Inventory KB Findings Render Sarif CodeQuality.

(** ** Numbering what shares an identity *)

Section Numbering.
Context (fp : list string -> Z -> string).

(** The fingerprints of a list of identities, as the writers number
    them. *)
Fixpoint number (seen : gmap string Z) (ids : list (list string)) : list string :=
  match ids with
  | [] => []
  | p :: ids' =>
      let base := fp p 0 in
      let n := occurrence seen base in
      (if 0 <? n then fp p n else base) :: number (<[base := n + 1]> seen) ids'
  end.

Definition occurs (p : list string) (l : list (list string)) : Z := zlen (filter (fun q => q = p) l).

(** Each identity with how often it came before. *)
Fixpoint numbered (earlier ids : list (list string)) : list (list string * Z) :=
  match ids with
  | [] => []
  | p :: ids' => (p, occurs p earlier) :: numbered (p :: earlier) ids'
  end.

Lemma occurs_cons p q l : occurs p (q :: l) = (if decide (q = p) then 1 else 0) + occurs p l.
Proof. unfold occurs, zlen. rewrite filter_cons. case_decide; cbn [length]; lia. Qed.

Lemma occurs_nonneg p l : 0 <= occurs p l.
Proof. unfold occurs, zlen. lia. Qed.

Lemma number_numbered (u : list (list string)) ids earlier seen :
  (forall p q, p ∈ u -> q ∈ u -> fp p 0 = fp q 0 -> p = q) ->
  (forall p, p ∈ ids -> p ∈ u) -> (forall p, p ∈ u -> occurrence seen (fp p 0) = occurs p earlier) ->
  number seen ids = map (fun e => fp e.1 e.2) (numbered earlier ids).
Proof.
  intros Hinj. revert earlier seen. induction ids as [|p ids IH]; intros earlier seen Hu Hs; [done|].
  assert (Hp : p ∈ u) by (apply Hu; by left). cbn [number numbered map fst snd]. rewrite (Hs p Hp). f_equal.
  - destruct (0 <? occurs p earlier) eqn:E; [done|]. pose proof (occurs_nonneg p earlier). by replace (occurs p earlier) with 0 by lia.
  - apply IH; [intros q Hq; apply Hu; by right|]. intros q Hq. rewrite occurs_cons. unfold occurrence. destruct (decide (p = q)) as [->|Hne].
    + rewrite lookup_insert_eq. cbn. lia.
    + rewrite lookup_insert_ne by (intros E; apply Hne; by apply Hinj). cbn. fold (occurrence seen (fp q 0)). rewrite (Hs q Hq). lia.
Qed.

Lemma numbered_later earlier ids p n : (p, n) ∈ numbered earlier ids -> p ∈ ids /\ occurs p earlier <= n.
Proof.
  revert earlier. induction ids as [|q ids IH]; intros earlier; cbn; [by intros ?%elem_of_nil|].
  intros [[= -> ->]|H]%elem_of_cons; [split; [by left|lia]|]. apply IH in H as [H1 H2]. rewrite occurs_cons in H2.
  split; [by right|]. case_decide; lia.
Qed.

Lemma numbered_NoDup earlier ids : NoDup (numbered earlier ids).
Proof.
  revert earlier. induction ids as [|p ids IH]; intros earlier; cbn; constructor; [|apply IH].
  intros [_ H]%numbered_later. rewrite occurs_cons, decide_True in H by done. lia.
Qed.

Lemma numbered_bound earlier ids p n : (p, n) ∈ numbered earlier ids -> n < zlen earlier + zlen ids.
Proof.
  revert earlier. induction ids as [|q ids IH]; intros earlier; cbn; [by intros ?%elem_of_nil|].
  intros [[= -> ->]|H]%elem_of_cons.
  - unfold occurs, zlen. pose proof (length_filter (fun r => r = q) earlier). cbn. lia.
  - apply IH in H. unfold zlen in *. cbn [length] in *. lia.
Qed.

(** Fingerprints that collide neither for two identities nor for two
    numbers are all different. *)
Lemma number_NoDup ids :
  (forall p q n m, p ∈ ids -> q ∈ ids -> 0 <= n < zlen ids -> 0 <= m < zlen ids -> fp p n = fp q m -> p = q /\ n = m) ->
  NoDup (number ∅ ids).
Proof.
  intros Hinj. destruct ids as [|p0 ids0] eqn:Eids; [constructor|]. rewrite <- Eids in *.
  assert (Hpos : 0 < zlen ids) by (rewrite Eids; unfold zlen; cbn; lia).
  rewrite (number_numbered ids ids []); [|intros p q Hp Hq E; by apply (Hinj p q 0 0)|done|].
  - apply NoDup_fmap_2_strong; [|apply numbered_NoDup]. intros [p n] [q m] Hp Hq E. cbn in E.
    pose proof (numbered_bound _ _ _ _ Hp) as Bn. pose proof (numbered_bound _ _ _ _ Hq) as Bm.
    apply numbered_later in Hp as [Hp Hn], Hq as [Hq Hm].
    pose proof (occurs_nonneg p []). pose proof (occurs_nonneg q []). change (zlen []) with 0 in Bn, Bm.
    destruct (Hinj p q n m) as [-> ->]; try done; lia.
  - intros p _. unfold occurrence. by rewrite lookup_empty.
Qed.
End Numbering.

(** ** The hashed texts *)

Definition NUL : ascii := "000".

Lemma hashedText_inj p q :
  p <> [] -> q <> [] -> Forall (no_byte NUL) p -> Forall (no_byte NUL) q -> hashedText p = hashedText q -> p = q.
Proof. intros Hp Hq Fp Fq E. apply (f_equal (fun s => Split s NUL)) in E. unfold hashedText in E. by rewrite !Split_Join in E. Qed.

Lemma itoa_inj n m : 0 <= n -> 0 <= m -> itoa n = itoa m -> n = m.
Proof. intros Hn Hm E. destruct (itoa_nonneg n Hn) as (_ & <- & _), (itoa_nonneg m Hm) as (_ & <- & _). by rewrite E. Qed.

Lemma itoa_no_byte n : 0 <= n -> no_byte NUL (itoa n).
Proof. intros Hn. apply all_digits_no_byte; [done|]. by apply itoa_nonneg. Qed.

Lemma occurrenceParts_ok p n :
  Forall (no_byte NUL) p -> p <> [] -> 0 <= n -> occurrenceParts p n <> [] /\ Forall (no_byte NUL) (occurrenceParts p n).
Proof.
  intros Fp Hp Hn. unfold occurrenceParts. destruct (0 <? n); [|done]. split; [by intros [_ [=]]%app_eq_nil|].
  apply Forall_app. split; [done|]. repeat constructor. by apply itoa_no_byte.
Qed.

(** Numbered or not, parts of lengths that differ by more than one are told
    apart. *)
Lemma occurrenceParts_inj p q n m :
  Forall (no_byte NUL) p -> Forall (no_byte NUL) q -> p <> [] -> q <> [] -> 0 <= n -> 0 <= m ->
  length p <> S (length q) -> length q <> S (length p) ->
  hashedText (occurrenceParts p n) = hashedText (occurrenceParts q m) -> p = q /\ n = m.
Proof.
  intros Fp Fq Hp Hq Hn Hm L1 L2 E. destruct (occurrenceParts_ok p n Fp Hp Hn), (occurrenceParts_ok q m Fq Hq Hm).
  apply hashedText_inj in E; [|done..]. unfold occurrenceParts in E.
  repeat case_match; [apply app_inj_tail in E as [-> E]; split; [done|by apply itoa_inj]| | |split; [done|lia]];
    apply (f_equal length) in E; rewrite length_app in E; cbn in E; lia.
Qed.

(** ** The identities of a report's entries *)

Section Bump.
Context (fp : list string -> Z -> string).

Definition bump1 (seen : gmap string Z) (p : list string) : gmap string Z := <[fp p 0 := occurrence seen (fp p 0) + 1]> seen.
Definition bump : gmap string Z -> list (list string) -> gmap string Z := foldl bump1.

Lemma number_app seen a b : number fp seen (a ++ b) = number fp seen a ++ number fp (bump seen a) b.
Proof. revert seen. induction a as [|p a IH]; intros seen; [done|]. cbn. by rewrite IH. Qed.

(** From what was seen and written to what is: a writer's step over some
    identities. *)
Definition advances (ids : list (list string)) (a b : list string * gmap string Z) : Prop :=
  b.1 = a.1 ++ number fp a.2 ids /\ b.2 = bump a.2 ids.

Lemma advances_nil a : advances [] a a.
Proof. split; [by rewrite app_nil_r|done]. Qed.

Lemma advances_app ids ids' a b c : advances ids a b -> advances ids' b c -> advances (ids ++ ids') a c.
Proof.
  intros [H1 H2] [H3 H4]. split; [by rewrite H3, H1, H2, number_app, app_assoc|].
  unfold bump in *. by rewrite foldl_app, H4, H2.
Qed.

Lemma advances_fold {A B} (st : B -> list string * gmap string Z) (step : B -> A -> B) (ids : A -> list (list string)) l b :
  (forall b x, advances (ids x) (st b) (st (step b x))) -> advances (l ≫= ids) (st b) (st (foldl step b l)).
Proof.
  intros Hs. revert b. induction l as [|x l IH]; intros b; cbn [foldl]; [apply advances_nil|].
  rewrite bind_cons. eapply advances_app; [apply Hs|apply IH].
Qed.
End Bump.

Arguments advances_app {fp ids ids' a b c}.

(** The fingerprint both writers use, of all the parts. *)
Definition partsDigest (parts : list string) (n : Z) : string := digest (hashedText (occurrenceParts parts n)).

(** No two of the texts have one digest. *)
Definition collisionFree (texts : list string) : Prop := forall a b, a ∈ texts -> b ∈ texts -> digest a = digest b -> a = b.

(** What is hashed for some identities, numbered up to how many they
    are. *)
Definition textsOf (ids : list (list string)) : list string :=
  ids ≫= fun p => map (fun n => hashedText (occurrenceParts p (Z.of_nat n))) (seq 0 (length ids)).

Lemma unique_digests ids :
  Forall (fun p => p <> [] /\ Forall (no_byte NUL) p) ids ->
  (forall p q, p ∈ ids -> q ∈ ids -> length p <> S (length q)) ->
  collisionFree (textsOf ids) -> NoDup (number partsDigest ∅ ids).
Proof.
  intros Hok Hlen Hcol. apply number_NoDup. intros p q n m Hp Hq Hn Hm E.
  assert (Hin : forall p n, p ∈ ids -> 0 <= n < zlen ids -> hashedText (occurrenceParts p n) ∈ textsOf ids).
  { intros x i Hx Hi. apply list_elem_of_bind. exists x. split; [|done]. apply list_elem_of_In, in_map_iff. exists (Z.to_nat i).
    rewrite Z2Nat.id by lia. split; [done|]. apply in_seq. unfold zlen in Hi. lia. }
  apply Hcol in E; [|by apply Hin..]. rewrite Forall_forall in Hok. destruct (Hok p Hp) as [Np Fp], (Hok q Hq) as [Nq Fq].
  apply occurrenceParts_inj; (done || lia || by apply Hlen).
Qed.

Module Q.
Import CodeQuality.

Definition objectId (f : Finding) (o : ObjectRef) : list string := [ruleKey f; o_File o; o_Namespace o; o_Name o].

Definition findingIds (f : Finding) : list (list string) :=
  map (objectId f) (located f) ++
  match located f with
  | [] => [[ruleKey f; VirtualPrefix +:+ ruleKey f]]
  | _ => if 0 <? zlen (loose f) + f_ObjectsOmitted f then [[ruleKey f; VirtualPrefix +:+ ruleKey f]] else []
  end.

Definition gapIds (g : CapabilityGap) : list (list string) :=
  let check := "not-assessed/" +:+ g_Capability g in
  if g_Required g || g_Partial g then [[check; VirtualPrefix +:+ check]] else [].

(** The identities of the entries, in their order. *)
Definition ids (r : Report) : list (list string) := (r_Findings r ≫= findingIds) ++ (r_NotAssessed r ≫= gapIds).

Definition view (b : building) : list string * gmap string Z := (map is_Fingerprint b.1, b.2).

Lemma add_advances check sev desc path line identity b :
  advances fingerprint [check :: path :: identity] (view b) (view (add check sev desc path line identity b)).
Proof.
  destruct b as [issues seen]. split; [|done]. unfold view, add. cbn [fst snd number]. by rewrite map_app.
Qed.

Lemma issues_advance b f : advances fingerprint (findingIds f) (view b) (view (addFinding b f)).
Proof.
  unfold findingIds, addFinding. apply (@advances_app _ _ _ _ (view (foldl (addObject f) b (located f)))).
  - replace (map (objectId f) (located f)) with (located f ≫= fun o => [objectId f o])
      by (induction (located f) as [|o l IH]; [done|]; cbn; by rewrite <- IH).
    apply (advances_fold fingerprint view). intros. apply add_advances.
  - destruct (located f); [apply add_advances|]. case_match; [apply add_advances|apply advances_nil].
Qed.

Lemma addGap_advances b g : advances fingerprint (gapIds g) (view b) (view (addGap b g)).
Proof.
  unfold gapIds, addGap. destruct (g_Required g); [apply add_advances|]. destruct (g_Partial g); [apply add_advances|apply advances_nil].
Qed.

Lemma issue_fingerprints r : map is_Fingerprint (Write r) = number fingerprint ∅ (ids r).
Proof.
  unfold Write, ids.
  destruct (advances_app (advances_fold fingerprint view addFinding findingIds (r_Findings r) ([], ∅) issues_advance)
    (advances_fold fingerprint view addGap gapIds (r_NotAssessed r) _ addGap_advances)) as [H _]. exact H.
Qed.

Lemma number_version seen l : number fingerprint seen l = number partsDigest seen (map (cons fingerprintVersion) l).
Proof. revert seen. induction l as [|p l IH]; intros seen; [done|]. cbn. by rewrite IH. Qed.
End Q.

Module S.
Import Sarif.

Definition findingIds (f : Finding) : list (list string) := map (identity (ruleKey f)) (anchored f).
Definition ids (r : Report) : list (list string) := r_Findings r ≫= findingIds.

Definition view (b : building) : list string * gmap string Z := (map sr_Fingerprint (b_results b), b_occurrences b).

Lemma addResults_advances f b : advances partsDigest (findingIds f) (view b) (view (addResults f (anchored f) b)).
Proof.
  unfold addResults, findingIds. destruct (match b_ruleIndex b !! ruleKey f with Some _ => _ | None => _ end) as [idx b'] eqn:E.
  assert (view b' = view b) as <- by (by case_match; injection E as <- <-).
  replace (map (identity (ruleKey f)) (anchored f)) with (anchored f ≫= fun o => [identity (ruleKey f) o])
    by (induction (anchored f) as [|o l IH]; [done|]; cbn; by rewrite <- IH).
  apply (advances_fold partsDigest view). intros c o. split; [|done]. unfold view, addResult. cbn [fst snd number b_results b_occurrences].
  by rewrite map_app.
Qed.

Lemma results_advance b f : advances partsDigest (findingIds f) (view b) (view (addFinding b f)).
Proof.
  unfold addFinding. pose proof (addResults_advances f) as H. unfold findingIds in *. destruct (anchored f) as [|o l].
  - apply advances_nil.
  - match goal with |- context [addResults f _ ?x] => pose proof (H x) as Hx end. by case_match.
Qed.

Lemma notes_keep {A} (step : building -> A -> building) l b :
  (forall b x, b_results (step b x) = b_results b /\ b_rules (step b x) = b_rules b /\ b_omitted (step b x) = b_omitted b) ->
  b_results (foldl step b l) = b_results b /\ b_rules (foldl step b l) = b_rules b /\ b_omitted (foldl step b l) = b_omitted b.
Proof.
  intros Hs. revert b. induction l as [|x l IH]; intros b; [done|]. cbn [foldl].
  destruct (IH (step b x)) as (-> & -> & ->). apply Hs.
Qed.

Lemma suppressed_keep l acc :
  let b' := (foldl addSuppressed acc l).1 in
  b_results b' = b_results acc.1 /\ b_rules b' = b_rules acc.1 /\ b_omitted b' = b_omitted acc.1.
Proof.
  cbv zeta. revert acc. induction l as [|s l IH]; intros acc; [done|]. cbn [foldl].
  destruct (IH (addSuppressed acc s)) as (-> & -> & ->). unfold addSuppressed. by case_match.
Qed.

(** The results, rules and the count of what is not a result are those of
    the findings. *)
Lemma Write_of_findings r v :
  let b := foldl addFinding (mkBuilding [] ∅ [] [] ∅ 0) (r_Findings r) in
  lg_Results (Write r v) = b_results b /\ lg_Rules (Write r v) = b_rules b /\ pr_OmittedFindings (lg_Properties (Write r v)) = b_omitted b.
Proof.
  cbv zeta. unfold Write. pose proof (suppressed_keep (r_Suppressed r) (foldl addFinding (mkBuilding [] ∅ [] [] ∅ 0) (r_Findings r), 0)) as H.
  destruct (foldl addSuppressed _ _) as [b n]. cbn [fst] in H. destruct H as (<- & <- & <-).
  cbn [lg_Results lg_Rules lg_Properties pr_OmittedFindings].
  destruct (notes_keep addGap (r_NotAssessed r) (if 0 <? n then note (mkNote "note" (notUploadedMessage n) ∅) b else b)) as (-> & -> & ->).
  - intros c g. unfold addGap. by repeat case_match.
  - by case_match.
Qed.

Lemma result_fingerprints r v : map sr_Fingerprint (lg_Results (Write r v)) = number partsDigest ∅ (ids r).
Proof.
  destruct (Write_of_findings r v) as [-> _].
  destruct (advances_fold partsDigest view addFinding findingIds (r_Findings r) (mkBuilding [] ∅ [] [] ∅ 0) results_advance) as [H _]. exact H.
Qed.
End S.

(** ** Fingerprints *)

(** The names and paths of a report hold no NUL byte, as no name of an
    object and no path of a file does. *)
Definition nulFree (r : Report) : Prop :=
  Forall (fun f => no_byte NUL (ruleKey f) /\
    Forall (fun o => no_byte NUL (o_File o) /\ no_byte NUL (o_Namespace o) /\ no_byte NUL (o_Name o)) (f_Objects f)) (r_Findings r) /\
  Forall (fun g => no_byte NUL (g_Capability g)) (r_NotAssessed r).

Definition set_Line (z : Z) (o : ObjectRef) : ObjectRef :=
  mkObjectRef (o_Namespace o) (o_Name o) (o_File o) z (o_RenderedFrom o) (o_Manager o) (o_Ignore o) (o_IgnoreReason o)
    (o_IgnoreLegacyKey o) (o_IgnoreReasonLegacyKey o).

Definition moveFinding (h : ObjectRef -> Z) (f : Finding) : Finding :=
  mkFinding (f_Category f) (f_Severity f) (f_Key f) (f_Title f) (f_Detail f) (f_Teams f) (f_Namespaces f)
    (f_NamespacesOmitted f) (f_Unnamespaced f) (f_Remediation f) (f_Citations f)
    (map (fun o => set_Line (h o) o) (f_Objects f)) (f_ObjectsOmitted f) (f_BaselineState f) (f_Callers f).

(** The report after its objects moved within their files. *)
Definition moveLines (h : ObjectRef -> Z) (r : Report) : Report :=
  with_Findings (map (moveFinding h) (r_Findings r)) (r_Suppressed r) r.

Lemma filter_map_move h (p : ObjectRef -> bool) l :
  (forall o, p (set_Line (h o) o) = p o) ->
  List.filter p (map (fun o => set_Line (h o) o) l) = map (fun o => set_Line (h o) o) (List.filter p l).
Proof. intros Hp. induction l as [|o l IH]; [done|]. cbn. rewrite Hp. destruct (p o); cbn; by rewrite IH. Qed.

Lemma moved_ids h r :
  (forall o, 0 < h o <-> 0 < o_Line o) ->
  Q.ids (moveLines h r) = Q.ids r /\ S.ids (moveLines h r) = S.ids r.
Proof.
  intros Hh. unfold Q.ids, S.ids, moveLines. cbn [r_Findings r_NotAssessed with_Findings]. split; [f_equal|];
    (induction (r_Findings r) as [|f fs IH]; [done|]; cbn [map]; rewrite !bind_cons, IH; f_equal).
  - unfold Q.findingIds, CodeQuality.located, CodeQuality.loose, Q.objectId. cbn [f_Objects moveFinding f_ObjectsOmitted f_Key f_Category].
    rewrite !filter_map_move by done. rewrite map_map. unfold zlen. rewrite length_map. f_equal.
    by destruct (List.filter _ (f_Objects f)).
  - unfold S.findingIds, Sarif.anchored. cbn [f_Objects moveFinding]. rewrite filter_map_move; [by rewrite map_map|].
    intros o. unfold Sarif.anchoredAt. cbn [o_File o_Line set_Line]. f_equal.
    destruct (0 <? h o) eqn:E1, (0 <? o_Line o) eqn:E2; try done; specialize (Hh o); lia.
Qed.

Lemma elem_of_located f o : o ∈ CodeQuality.located f -> o ∈ f_Objects f.
Proof. unfold CodeQuality.located. rewrite !list_elem_of_In, filter_In. tauto. Qed.

Lemma Q_ids_ok r :
  nulFree r -> Forall (fun p => (length p = 2 \/ length p = 4)%nat /\ Forall (no_byte NUL) p) (Q.ids r).
Proof.
  intros [Hf Hg]. rewrite Forall_forall in Hf. rewrite Forall_forall in Hg. apply Forall_app. split; apply Forall_forall; intros p (x & Hp & Hx)%list_elem_of_bind.
  - destruct (Hf x Hx) as [Hk Ho]. rewrite Forall_forall in Ho.
    assert (Hv : Forall (no_byte NUL) [ruleKey x; CodeQuality.VirtualPrefix +:+ ruleKey x])
      by (repeat constructor; [done|by apply no_byte_app]).
    unfold Q.findingIds in Hp. apply elem_of_app in Hp as [(o & -> & Hin)%list_elem_of_fmap|Hp].
    + destruct (Ho o (elem_of_located _ _ Hin)) as (? & ? & ?). split; [by right|]. by repeat constructor.
    + assert (p = [ruleKey x; CodeQuality.VirtualPrefix +:+ ruleKey x]) as -> by
        (repeat case_match; (by apply list_elem_of_singleton in Hp) || by apply elem_of_nil in Hp). split; [by left|done].
  - specialize (Hg x Hx). unfold Q.gapIds in Hp. case_match; [|by apply elem_of_nil in Hp]. apply list_elem_of_singleton in Hp as ->.
    split; [by left|]. repeat constructor; by rewrite ?no_byte_app.
Qed.

Lemma S_ids_ok r : nulFree r -> Forall (fun p => length p = 4%nat /\ Forall (no_byte NUL) p) (S.ids r).
Proof.
  intros [Hf _]. rewrite Forall_forall in Hf. apply Forall_forall. intros p (f & Hp & Hx)%list_elem_of_bind.
  destruct (Hf f Hx) as [Hk Ho]. rewrite Forall_forall in Ho. unfold S.findingIds in Hp. apply list_elem_of_fmap in Hp as (o & -> & Hin).
  unfold Sarif.anchored in Hin. rewrite list_elem_of_In, filter_In, <- list_elem_of_In in Hin. destruct (Ho o) as (? & ? & ?); [tauto|].
  split; [done|]. by repeat constructor.
Qed.

(** Entries keep their names. The fingerprints of a GitLab report, which
    keys its entries by them, are all different, and so are those of SARIF
    results, as long as no two of the texts that are hashed collide in
    SHA-256; and no fingerprint changes when objects move within their
    files. *)
Lemma fingerprints_identify (r : Report) (v : string) (h : ObjectRef -> Z) :
  nulFree r -> collisionFree (textsOf (map (cons CodeQuality.fingerprintVersion) (Q.ids r))) -> collisionFree (textsOf (S.ids r)) ->
  (forall o, 0 < h o <-> 0 < o_Line o) ->
  NoDup (map CodeQuality.is_Fingerprint (CodeQuality.Write r)) /\
  NoDup (map Sarif.sr_Fingerprint (Sarif.lg_Results (Sarif.Write r v))) /\
  map CodeQuality.is_Fingerprint (CodeQuality.Write (moveLines h r)) = map CodeQuality.is_Fingerprint (CodeQuality.Write r) /\
  map Sarif.sr_Fingerprint (Sarif.lg_Results (Sarif.Write (moveLines h r) v)) =
    map Sarif.sr_Fingerprint (Sarif.lg_Results (Sarif.Write r v)).
Proof.
  intros Hn Hq Hs Hh. destruct (moved_ids h r Hh) as [Eq Es]. rewrite !Q.issue_fingerprints, !S.result_fingerprints, Eq, Es.
  pose proof (Q_ids_ok r Hn) as Kq. pose proof (S_ids_ok r Hn) as Ks. split_and!; [| |done|done].
  - rewrite Q.number_version. apply unique_digests; [| |done].
    + apply Forall_fmap. eapply Forall_impl; [exact Kq|]. intros p [_ Hp]. split; [done|]. by constructor.
    + rewrite Forall_forall in Kq. intros p q (p' & -> & Hp)%list_elem_of_fmap (q' & -> & Hq')%list_elem_of_fmap.
      destruct (Kq p' Hp) as [? _], (Kq q' Hq') as [? _]. cbn. lia.
  - apply unique_digests; [| |done].
    + eapply Forall_impl; [exact Ks|]. intros p [Hl Hp]. split; [by destruct p|done].
    + rewrite Forall_forall in Ks. intros p q Hp Hq'. destruct (Ks p Hp) as [? _], (Ks q Hq') as [? _]. lia.
Qed.

Definition tellsApart (texts : list string) : bool :=
  let ds := map (fun t => (t, digest t)) texts in
  forallb (fun x => forallb (fun y => negb (x.2 =s y.2) || (x.1 =s y.1)) ds) ds.

Lemma tellsApart_spec texts : tellsApart texts = true -> collisionFree texts.
Proof.
  unfold tellsApart. intros H a b Ha%list_elem_of_In Hb%list_elem_of_In E. rewrite forallb_forall in H.
  specialize (H (a, digest a)). rewrite forallb_forall in H.
  specialize (H (in_map (fun t => (t, digest t)) _ _ Ha) (b, digest b) (in_map (fun t => (t, digest t)) _ _ Hb)). cbn [fst snd] in H.
  rewrite E, String.eqb_refl in H. by apply String.eqb_eq.
Qed.

(** ** What a writer appends *)

Lemma append_fold {A B C} (proj : B -> list C) (step : B -> A -> B) (out : A -> list C) l b :
  (forall b x, proj (step b x) = proj b ++ out x) -> proj (foldl step b l) = proj b ++ (l ≫= out).
Proof.
  intros Hs. revert b. induction l as [|x l IH]; intros b; cbn [foldl]; [by rewrite app_nil_r|].
  by rewrite IH, Hs, bind_cons, app_assoc.
Qed.

Lemma elem_of_copies {A B} (l : list A) (b x : B) : x ∈ map (fun _ => b) l <-> x = b /\ l <> [].
Proof.
  rewrite list_elem_of_In, in_map_iff. split; [intros (a & <- & Ha); by destruct l|].
  intros [-> Hl]. destruct l as [|a l]; [done|]. exists a. split; [done|by left].
Qed.

(** What makes a report other than ready. *)
Definition adverse (r : Report) : Prop :=
  (exists f, f ∈ r_Findings r /\ f_Severity f = SevBlocker) \/ (exists g, g ∈ r_NotAssessed r /\ g_Required g = true).

Lemma severity_critical s : CodeQuality.severity s = "critical"%string <-> s = SevBlocker.
Proof. unfold CodeQuality.severity. repeat case_match; to_prop; naive_solver. Qed.

Lemma level_error s : Sarif.level s = "error"%string <-> s = SevBlocker.
Proof. unfold Sarif.level. repeat case_match; to_prop; naive_solver. Qed.

Lemma codequality_severities r :
  map CodeQuality.is_Severity (CodeQuality.Write r) =
  (r_Findings r ≫= fun f => map (fun _ => CodeQuality.severity (f_Severity f)) (Q.findingIds f)) ++
  (r_NotAssessed r ≫= fun g => if g_Required g then ["critical"%string] else if g_Partial g then ["info"%string] else []).
Proof.
  unfold CodeQuality.Write. set (proj := fun b : CodeQuality.building => map CodeQuality.is_Severity b.1).
  assert (Ha : forall check sev desc path line id b, proj (CodeQuality.add check sev desc path line id b) = proj b ++ [sev])
    by (intros; destruct b; unfold proj, CodeQuality.add; cbn [fst]; by rewrite map_app).
  change (map CodeQuality.is_Severity ?x.1) with (proj x).
  rewrite (append_fold proj CodeQuality.addGap (fun g => if g_Required g then ["critical"%string] else if g_Partial g then ["info"%string] else [])).
  - f_equal. apply (append_fold proj CodeQuality.addFinding _ (r_Findings r) ([], ∅)).
    intros b f. unfold CodeQuality.addFinding, Q.findingIds. rewrite map_app, map_map, app_assoc.
    assert (Hl : proj (foldl (CodeQuality.addObject f) b (CodeQuality.located f)) =
      proj b ++ map (fun _ => CodeQuality.severity (f_Severity f)) (CodeQuality.located f)).
    { rewrite (append_fold proj (CodeQuality.addObject f) (fun _ => [CodeQuality.severity (f_Severity f)])) by (intros; apply Ha). by f_equal. }
    rewrite <- Hl. destruct (CodeQuality.located f) as [|o l]; [apply Ha|]. case_match; [apply Ha|by rewrite app_nil_r].
  - intros b g. unfold CodeQuality.addGap. destruct (g_Required g); [apply Ha|]. destruct (g_Partial g); [apply Ha|by rewrite app_nil_r].
Qed.

Lemma codequality_critical r :
  (exists i, i ∈ CodeQuality.Write r /\ CodeQuality.is_Severity i = "critical"%string) <-> adverse r.
Proof.
  transitivity ("critical"%string ∈ map CodeQuality.is_Severity (CodeQuality.Write r)).
  { rewrite list_elem_of_In, in_map_iff. setoid_rewrite list_elem_of_In. naive_solver. }
  rewrite codequality_severities, elem_of_app, !list_elem_of_bind. unfold adverse. setoid_rewrite elem_of_copies. split.
  - intros [(f & [E _] & Hf)|(g & Hg & Hin)]; [left; exists f; split; [done|by apply severity_critical]|right; exists g; split; [done|]].
    destruct (g_Required g); [done|]. destruct (g_Partial g); [by apply list_elem_of_singleton in Hg|by apply elem_of_nil in Hg].
  - intros [(f & Hf & E)|(g & Hg & E)]; [left; exists f|right; exists g].
    + split; [split; [by apply severity_critical in E|]|done]. unfold Q.findingIds. destruct (CodeQuality.located f); [done|].
      by intros [E' _]%app_eq_nil.
    + rewrite E. split; [by apply list_elem_of_singleton|done].
Qed.

(** ** SARIF *)

Section SarifWrite.
Import Sarif.

(** The results of a finding, but for their rule and fingerprint. *)
Definition resultOf (f : Finding) (o : ObjectRef) : string * string * string * string * Z * string :=
  (ruleKey f, level (f_Severity f), message f o, fileURI (o_File o), o_Line o, f_BaselineState f).

Definition shown (x : sarifResult) : string * string * string * string * Z * string :=
  (sr_RuleID x, sr_Level x, sr_Message x, sr_URI x, sr_StartLine x, sr_BaselineState x).

Lemma addResults_shown f objs b : map shown (b_results (addResults f objs b)) = map shown (b_results b) ++ map (resultOf f) objs.
Proof.
  unfold addResults. destruct (match b_ruleIndex b !! ruleKey f with Some _ => _ | None => _ end) as [idx b'] eqn:E.
  assert (b_results b' = b_results b) as <- by (by case_match; injection E as <- <-). clear E b.
  rewrite (append_fold (fun b => map shown (b_results b)) (addResult f (ruleKey f) idx) (fun o => [resultOf f o])).
  - by f_equal.
  - intros b o. unfold addResult. cbn [b_results]. by rewrite map_app.
Qed.

Lemma addFinding_shown b f : map shown (b_results (addFinding b f)) = map shown (b_results b) ++ map (resultOf f) (anchored f).
Proof.
  unfold addFinding. destruct (anchored f) as [|o l] eqn:E; [by rewrite app_nil_r|]. rewrite addResults_shown. by case_match.
Qed.

(** The notes of a finding. *)
Definition findingNotes (f : Finding) : list sarifNotification :=
  match anchored f with
  | [] => [notification f (level (f_Severity f)) (unanchoredMessage f)]
  | objs =>
      let n := f_ObjectsOmitted f + zlen (f_Objects f) - zlen objs in
      if 0 <? n then [notification f "note" (unlistedMessage f n)] else []
  end.

Lemma addResults_keeps f objs b :
  b_notes (addResults f objs b) = b_notes b /\ b_omitted (addResults f objs b) = b_omitted b.
Proof.
  unfold addResults. destruct (match b_ruleIndex b !! ruleKey f with Some _ => _ | None => _ end) as [idx b'] eqn:E.
  assert (b_notes b' = b_notes b /\ b_omitted b' = b_omitted b) as [<- <-] by (by case_match; injection E as <- <-). clear E b.
  revert b'. induction objs as [|o objs IH]; intros b; [done|]. cbn [foldl]. destruct (IH (addResult f (ruleKey f) idx b o)) as [-> ->]. done.
Qed.

Lemma addFinding_notes b f : b_notes (addFinding b f) = b_notes b ++ findingNotes f.
Proof.
  unfold addFinding, findingNotes. destruct (anchored f) as [|o l]; [done|]. cbv zeta.
  match goal with |- b_notes (addResults _ _ ?x) = _ => destruct (addResults_keeps f (o :: l) x) as [-> _] end.
  case_match; [done|by rewrite app_nil_r].
Qed.

Definition suppressedNotes (s : SuppressedFinding) : list sarifNotification :=
  match anchored (sf_Finding s) with [] => [notification (sf_Finding s) "note" (suppressedMessage s)] | _ => [] end.

Definition gapNotes (g : CapabilityGap) : list sarifNotification :=
  if g_Required g then [mkNote "error" (gapMessage g) {["capability" := g_Capability g]}]
  else if g_Partial g then [mkNote "note" (gapMessage g) {["capability" := g_Capability g]}] else [].

(** How many suppressed findings have a location. *)
Definition located (r : Report) : Z :=
  zlen (List.filter (fun s => match anchored (sf_Finding s) with [] => false | _ => true end) (r_Suppressed r)).

Lemma suppressed_notes l acc :
  b_notes (foldl addSuppressed acc l).1 = b_notes acc.1 ++ (l ≫= suppressedNotes) /\
  (foldl addSuppressed acc l).2 = acc.2 + zlen (List.filter (fun s => match anchored (sf_Finding s) with [] => false | _ => true end) l).
Proof.
  revert acc. induction l as [|s l IH]; intros acc; cbn [foldl]; [rewrite app_nil_r; unfold zlen; cbn; split; [done|lia]|].
  destruct (IH (addSuppressed acc s)) as [-> ->]. rewrite bind_cons, app_assoc. unfold addSuppressed, suppressedNotes. cbn [List.filter].
  destruct (anchored (sf_Finding s)); cbn; [done|]. rewrite app_nil_r. unfold zlen. cbn [length]. split; [done|lia].
Qed.

Lemma Write_notes r v :
  lg_Notes (Write r v) =
  (r_Findings r ≫= findingNotes) ++ (r_Suppressed r ≫= suppressedNotes) ++
  (if 0 <? located r then [mkNote "note" (notUploadedMessage (located r)) ∅] else []) ++ (r_NotAssessed r ≫= gapNotes).
Proof.
  unfold Write. destruct (suppressed_notes (r_Suppressed r) (foldl addFinding (mkBuilding [] ∅ [] [] ∅ 0) (r_Findings r), 0)) as [H1 H2].
  destruct (foldl addSuppressed _ _) as [b n]. cbn [fst snd] in H1, H2. cbn [lg_Notes]. fold (located r) in H2. rewrite Z.add_0_l in H2. subst n.
  rewrite (append_fold b_notes addGap gapNotes) by (intros c g; unfold addGap, gapNotes; repeat case_match; rewrite ?app_nil_r; done).
  assert (Hb : b_notes b = (r_Findings r ≫= findingNotes) ++ (r_Suppressed r ≫= suppressedNotes)).
  { rewrite H1. f_equal. by rewrite (append_fold b_notes addFinding findingNotes) by apply addFinding_notes. }
  case_match; cbn [note b_notes]; rewrite Hb, <- !app_assoc; done.
Qed.

(** The rules are numbered as the results name them. *)
Definition rules_ok (b : building) : Prop :=
  NoDup (map ru_ID (b_rules b)) /\
  (forall id idx, b_ruleIndex b !! id = Some idx -> 0 <= idx /\ exists ru, b_rules b !! Z.to_nat idx = Some ru /\ ru_ID ru = id) /\
  (forall ru, ru ∈ b_rules b -> is_Some (b_ruleIndex b !! ru_ID ru)) /\
  (forall x, x ∈ b_results b -> 0 <= sr_RuleIndex x /\ exists ru, b_rules b !! Z.to_nat (sr_RuleIndex x) = Some ru /\ ru_ID ru = sr_RuleID x).

Lemma results_ok f idx b objs :
  rules_ok b -> (0 <= idx /\ exists ru, b_rules b !! Z.to_nat idx = Some ru /\ ru_ID ru = ruleKey f) ->
  rules_ok (foldl (addResult f (ruleKey f) idx) b objs).
Proof.
  revert b. induction objs as [|o objs IH]; intros b Hb Hi; [done|]. cbn [foldl]. apply IH; [|done].
  destruct Hb as (H1 & H2 & H3 & H4). split_and!; [done..|]. cbn [b_results addResult b_rules].
  intros x [Hx| ->%list_elem_of_singleton]%elem_of_app; [by apply H4|done].
Qed.

Lemma addResults_ok f objs b : rules_ok b -> rules_ok (addResults f objs b).
Proof.
  intros Hb. unfold addResults. destruct (b_ruleIndex b !! ruleKey f) as [idx|] eqn:E.
  { apply results_ok; [done|]. by apply Hb. }
  destruct Hb as (H1 & H2 & H3 & H4).
  assert (Hk : forall i ru, b_rules b !! i = Some ru -> (b_rules b ++ [rule (ruleKey f) f]) !! i = Some ru) by (intros; by apply lookup_app_l_Some).
  assert (Hnew : 0 <= zlen (b_rules b) /\ exists ru, (b_rules b ++ [rule (ruleKey f) f]) !! Z.to_nat (zlen (b_rules b)) = Some ru /\ ru_ID ru = ruleKey f).
  { unfold zlen. split; [lia|]. eexists. rewrite Nat2Z.id, lookup_app_r, Nat.sub_diag by lia. done. }
  apply results_ok; [|done]. split_and!; cbn [b_rules b_ruleIndex b_results].
  - rewrite map_app. apply NoDup_app. split_and!; [done| |apply NoDup_singleton].
    intros x (ru & Ex & Hru)%list_elem_of_fmap Hx%list_elem_of_singleton. subst x.
    apply H3 in Hru. rewrite Hx in Hru. cbn in Hru. rewrite E in Hru. by destruct Hru.
  - intros id idx. destruct (decide (id = ruleKey f)) as [->|Hne].
    + rewrite lookup_insert_eq. by intros [= <-].
    + rewrite lookup_insert_ne by done. intros Hi%H2. destruct Hi as (? & ru & ? & ?). eauto.
  - intros ru [Hru| ->%list_elem_of_singleton]%elem_of_app; [|by rewrite lookup_insert_eq].
    apply H3 in Hru. destruct (decide (ru_ID ru = ruleKey f)) as [->|]; [by rewrite lookup_insert_eq|by rewrite lookup_insert_ne].
  - intros x Hi%H4. destruct Hi as (? & ru & ? & ?). eauto.
Qed.

Lemma addFinding_ok b f : rules_ok b -> rules_ok (addFinding b f).
Proof. intros Hb. unfold addFinding. destruct (anchored f); [done|]. apply addResults_ok. by case_match. Qed.

Lemma findings_ok fs b : rules_ok b -> rules_ok (foldl addFinding b fs).
Proof. revert b. induction fs as [|f fs IH]; intros b Hb; [done|]. by apply IH, addFinding_ok. Qed.

Lemma unanchored_count fs b :
  b_omitted (foldl addFinding b fs) = b_omitted b + zlen (List.filter (fun f => match anchored f with [] => true | _ => false end) fs).
Proof.
  revert b. induction fs as [|f fs IH]; intros b; cbn [foldl List.filter]; [unfold zlen; cbn; lia|]. rewrite IH. unfold addFinding.
  destruct (anchored f) as [|o l]; [unfold zlen; cbn; lia|]. cbv zeta.
  match goal with |- b_omitted (addResults _ _ ?x) + _ = _ => destruct (addResults_keeps f (o :: l) x) as [_ ->] end. by case_match.
Qed.
End SarifWrite.

Lemma sarif_errors r v :
  let log := Sarif.Write r v in
  ((exists x, x ∈ Sarif.lg_Results log /\ Sarif.sr_Level x = "error"%string) \/
   (exists n, n ∈ Sarif.lg_Notes log /\ Sarif.nt_Level n = "error"%string)) <-> adverse r.
Proof.
  cbv zeta. destruct (S.Write_of_findings r v) as (Er & _ & _).
  assert (Hr : (exists x, x ∈ Sarif.lg_Results (Sarif.Write r v) /\ Sarif.sr_Level x = "error"%string) <->
    exists f, f ∈ r_Findings r /\ f_Severity f = SevBlocker /\ Sarif.anchored f <> []).
  { transitivity (exists y, y ∈ map shown (Sarif.lg_Results (Sarif.Write r v)) /\ y.1.1.1.1.2 = "error"%string).
    { setoid_rewrite list_elem_of_fmap. split; [intros (x & Hx & E); exists (shown x); eauto|intros (y & (x & -> & Hx) & E); eauto]. }
    rewrite Er. rewrite (append_fold (fun b => map shown (Sarif.b_results b)) Sarif.addFinding (fun f => map (resultOf f) (Sarif.anchored f)))
      by apply addFinding_shown.
    cbn [Sarif.b_results map app]. setoid_rewrite list_elem_of_bind. setoid_rewrite list_elem_of_fmap. split.
    - intros (y & (f & (o & -> & Ho) & Hf) & E). exists f. split_and!; [done|by apply level_error|]. intros Hn. rewrite Hn in Ho. by apply elem_of_nil in Ho.
    - intros (f & Hf & E & Ha). destruct (Sarif.anchored f) as [|o l] eqn:Eo; [done|]. exists (resultOf f o). split; [|by apply level_error].
      exists f. rewrite Eo. split; [exists o; split; [done|by left]|done]. }
  rewrite Hr, Write_notes. setoid_rewrite elem_of_app. setoid_rewrite elem_of_app. setoid_rewrite elem_of_app. setoid_rewrite list_elem_of_bind.
  unfold adverse. split.
  - intros [(f & Hf & E & _)|(n & [(f & Hn & Hf)|[(s & Hn & _)|[Hn|(g & Hn & Hg)]]] & E)].
    + left. eauto.
    + unfold findingNotes in Hn. repeat case_match; try (by apply elem_of_nil in Hn); apply list_elem_of_singleton in Hn as ->; [|done].
      left. exists f. split; [done|by apply level_error].
    + unfold suppressedNotes in Hn. case_match; [by apply list_elem_of_singleton in Hn as ->|by apply elem_of_nil in Hn].
    + case_match; [by apply list_elem_of_singleton in Hn as ->|by apply elem_of_nil in Hn].
    + right. exists g. split; [done|]. unfold gapNotes in Hn. destruct (g_Required g); [done|].
      case_match; [by apply list_elem_of_singleton in Hn as ->|by apply elem_of_nil in Hn].
  - intros [(f & Hf & E)|(g & Hg & E)].
    + destruct (Sarif.anchored f) as [|o l] eqn:Eo; [|left; exists f; by rewrite Eo].
      right. exists (Sarif.notification f (Sarif.level (f_Severity f)) (Sarif.unanchoredMessage f)).
      split; [left; exists f; split; [unfold findingNotes; rewrite Eo; by left|done]|by apply level_error].
    + right. eexists. split; [right; right; right; exists g; split; [|done]; unfold gapNotes; rewrite E; by left|done].
Qed.

(** SARIF drops nothing in silence. Its results are, in the order of the
    report, one for each object that has a file and a line, with the
    finding's level and that place, and each names its own rule among rules
    that are all different; every finding that is not a result is a
    notification at its own level and is counted; a finding with objects
    that are not results has a note; and every required gap is an error. *)
Lemma sarif_accounts (r : Report) (v : string) :
  let log := Sarif.Write r v in
  map shown (Sarif.lg_Results log) = (r_Findings r ≫= fun f => map (resultOf f) (Sarif.anchored f)) /\
  (forall x, x ∈ Sarif.lg_Results log -> 1 <= Sarif.sr_StartLine x /\
     exists ru, Sarif.lg_Rules log !! Z.to_nat (Sarif.sr_RuleIndex x) = Some ru /\ Sarif.ru_ID ru = Sarif.sr_RuleID x) /\
  NoDup (map Sarif.ru_ID (Sarif.lg_Rules log)) /\
  Sarif.pr_OmittedFindings (Sarif.lg_Properties log) = Sarif.Unanchored r /\
  (forall f, f ∈ r_Findings r -> Sarif.anchored f = [] ->
     Sarif.notification f (Sarif.level (f_Severity f)) (Sarif.unanchoredMessage f) ∈ Sarif.lg_Notes log) /\
  (forall f, f ∈ r_Findings r -> Sarif.anchored f <> [] -> zlen (Sarif.anchored f) < zlen (f_Objects f) + f_ObjectsOmitted f ->
     exists n, n ∈ Sarif.lg_Notes log /\ Sarif.nt_Properties n !! "findingKey"%string = Some (ruleKey f)) /\
  (forall g, g ∈ r_NotAssessed r -> g_Required g = true ->
     exists n, n ∈ Sarif.lg_Notes log /\ Sarif.nt_Level n = "error"%string /\
       Sarif.nt_Properties n !! "capability"%string = Some (g_Capability g)).
Proof.
  cbv zeta. destruct (S.Write_of_findings r v) as (Er & Eru & Eo). rewrite Er, Eru, Eo, Write_notes.
  assert (Hok : rules_ok (foldl Sarif.addFinding (Sarif.mkBuilding [] ∅ [] [] ∅ 0) (r_Findings r))).
  { apply findings_ok. split_and!; [constructor|done|intros ? ?%elem_of_nil; done|intros ? ?%elem_of_nil; done]. }
  assert (Hs : map shown (Sarif.b_results (foldl Sarif.addFinding (Sarif.mkBuilding [] ∅ [] [] ∅ 0) (r_Findings r))) =
    r_Findings r ≫= fun f => map (resultOf f) (Sarif.anchored f)).
  { by rewrite (append_fold (fun b => map shown (Sarif.b_results b)) Sarif.addFinding (fun f => map (resultOf f) (Sarif.anchored f)))
      by apply addFinding_shown. }
  destruct Hok as (Hnd & _ & _ & Hx). split_and!; [done| |done|by rewrite unanchored_count| | |].
  - intros x Hin. split; [|by apply Hx]. assert (shown x ∈ r_Findings r ≫= fun f => map (resultOf f) (Sarif.anchored f)) as Hsh
      by (rewrite <- Hs; by apply list_elem_of_fmap_2).
    apply list_elem_of_bind in Hsh as (f & (o & E & Ho)%list_elem_of_fmap & _). unfold shown, resultOf in E. injection E as _ _ _ _ E _. rewrite E.
    unfold Sarif.anchored in Ho. rewrite list_elem_of_In, filter_In in Ho. destruct Ho as [_ Ho]. unfold Sarif.anchoredAt in Ho.
    apply andb_true_iff in Ho as [_ Ho]. lia.
  - intros f Hf E. apply elem_of_app. left. apply list_elem_of_bind. exists f. split; [unfold findingNotes; rewrite E; by left|done].
  - intros f Hf Ha Hn. destruct (Sarif.anchored f) as [|o l] eqn:Ef; [done|].
    exists (Sarif.notification f "note" (Sarif.unlistedMessage f (f_ObjectsOmitted f + zlen (f_Objects f) - zlen (o :: l)))).
    split; [|cbn; by rewrite lookup_insert_eq]. apply elem_of_app. left. apply list_elem_of_bind. exists f. split; [|done].
    unfold findingNotes. rewrite Ef. assert (0 <? f_ObjectsOmitted f + zlen (f_Objects f) - zlen (o :: l) = true) as -> by lia. by left.
  - intros g Hg E. eexists. split_and!; [rewrite !elem_of_app; right; right; right; apply list_elem_of_bind; exists g; split; [|done]|..].
    + unfold gapNotes. rewrite E. by left.
    + done.
    + cbn. by rewrite lookup_singleton_eq.
Qed.

(** ** Two objects of one name in a file, and a check that did not run *)

Definition twinObject (line : Z) : ObjectRef := mkObjectRef "shop" "web" "ingress.yaml" line "" "" "" "" false false.

Definition twinFinding : Finding :=
  set_Objects [twinObject 1; twinObject 9] 0
    (newFinding CatRemovedAPI SevBlocker "removed-api/extensions/v1beta1/Ingress" "Ingress is removed" "" []).

Definition twinReport : Report :=
  Rescore (mkReport "" (mkVersion 1 22) "" "" "" "test" 0 false "" [twinFinding] [mkGap CapAPIUsage "one document could not be read" true [] true]
    None [] [] 0 0 []).

Definition movedLine (o : ObjectRef) : Z := if 0 <? o_Line o then o_Line o + 5 else o_Line o.

Lemma twin_codequality : collisionFree (textsOf (map (cons CodeQuality.fingerprintVersion) (Q.ids twinReport))).
Proof. apply tellsApart_spec. vm_compute. reflexivity. Qed.

Lemma twin_sarif : collisionFree (textsOf (S.ids twinReport)).
Proof. apply tellsApart_spec. vm_compute. reflexivity. Qed.

Lemma twin_nulFree : nulFree twinReport.
Proof. repeat constructor. Qed.

Lemma movedLine_positive o : 0 < movedLine o <-> 0 < o_Line o.
Proof. unfold movedLine. case_match; lia. Qed.

Lemma fingerprints_identify_witness :
  length (Sarif.lg_Results (Sarif.Write twinReport "dev")) = 2%nat /\
  NoDup (map Sarif.sr_Fingerprint (Sarif.lg_Results (Sarif.Write twinReport "dev"))).
Proof.
  split; [reflexivity|].
  exact (proj1 (proj2 (fingerprints_identify twinReport "dev" movedLine twin_nulFree twin_codequality twin_sarif movedLine_positive))).
Defined.
