(* ===== verification/FreshSpec.v ===== *)
(** * Findings as the engine leaves them

    No check sets the baseline state of a finding; only [Mark] does. *)

From stdpp Require Import base list strings gmap.
From Stdlib Require Import ZArith Lia Ascii.
From S2P Require Import Prelude GoStr GoTime Version Inventory KB Findings APIUse Calls AddOns Skew Gaps Helm Crd Volumes Support Evaluate Glob Suppress.

Definition fresh (f : Finding) : Prop := f_BaselineState f = ""%string.

Lemma Forall_flat_map {A B} (P : B -> Prop) (g : A -> list B) l : (forall x, Forall P (g x)) -> Forall P (flat_map g l).
Proof. intros Hg. induction l as [|x l IH]; cbn; [constructor|]. by apply Forall_app. Qed.

Lemma Forall_map_fn {A B} (P : B -> Prop) (g : A -> B) l : (forall x, P (g x)) -> Forall P (map g l).
Proof. intros Hg. induction l; constructor; auto. Qed.

Lemma Forall_omap_fn {A B} (P : B -> Prop) (g : A -> option B) l : (forall x y, g x = Some y -> P y) -> Forall P (omap g l).
Proof. intros Hg. apply Forall_forall. intros y (x & _ & E)%list_elem_of_omap. eauto. Qed.

Lemma when_some_fresh {A} (l : list A) f : fresh f -> Forall fresh (when_some l f).
Proof. intros Hf. destruct l; cbn; by repeat constructor. Qed.

Create HintDb fresh_db.
#[export] Hint Resolve Forall_flat_map Forall_map_fn Forall_omap_fn when_some_fresh Forall_nil_2 : fresh_db.

(** The findings of one check: lists put together from findings that a
    constructor gives their state. *)
Ltac fresh_list :=
  repeat first
    [ done
    | progress simplify_eq
    | apply Forall_nil_2
    | apply Forall_cons_2
    | apply when_some_fresh
    | apply Forall_app_2
    | apply Forall_flat_map; intros
    | apply Forall_map_fn; intros
    | case_match ].

Section Checks.
Context `{Semver} `{KubeAware}.

Lemma usageFinding_fresh inv k idx teams target u f : usageFinding inv k idx teams target u = Some f -> fresh f.
Proof. unfold usageFinding. intros E. repeat case_match; by simplify_eq. Qed.

Lemma authorshipFinding_fresh idx teams u f : authorshipFinding idx teams u = Some f -> fresh f.
Proof. unfold authorshipFinding. intros E. repeat case_match; by simplify_eq. Qed.

Lemma callFinding_fresh removals target c : fresh (callFinding removals target c).
Proof. unfold callFinding. by repeat case_match. Qed.

Lemma evalSkew_fresh inv k target : Forall fresh (evalSkew inv k target).
Proof. unfold evalSkew. cbv zeta. fresh_list. Qed.

Lemma evalControlPlaneSkew_fresh inv k target : Forall fresh (evalControlPlaneSkew inv k target).
Proof. unfold evalControlPlaneSkew, proxyPostFindings, spreadFindings, ruleFindings. cbv zeta. fresh_list. Qed.

Lemma evalKubeProxyKubeletSkew_fresh inv k : Forall fresh (evalKubeProxyKubeletSkew inv k).
Proof. unfold evalKubeProxyKubeletSkew. cbv zeta. fresh_list. Qed.

Lemma evalKBStale_fresh inv k target : Forall fresh (evalKBStale inv k target).
Proof. unfold evalKBStale. cbv zeta. fresh_list. Qed.

Lemma evalUpgradePath_fresh inv target : Forall fresh (evalUpgradePath inv target).
Proof. unfold evalUpgradePath. cbv zeta. fresh_list. Qed.

Lemma evalSupport_fresh inv k now : Forall fresh (evalSupport inv k now).2.
Proof. unfold evalSupport. cbv zeta. repeat case_match; cbn [snd]; fresh_list. Qed.

Lemma evalChartKubeVersion_fresh rel target f : evalChartKubeVersion rel target = Some f -> fresh f.
Proof. unfold evalChartKubeVersion. intros E. repeat case_match; by simplify_eq. Qed.

Lemma bucketFinding_fresh rel target maxKnown cat sev b : Forall fresh (bucketFinding rel target maxKnown cat sev b).
Proof. unfold bucketFinding. cbv zeta. fresh_list. Qed.

Lemma releaseFindings_fresh teams idx live target maxKnown rel : Forall fresh (releaseFindings teams idx live target maxKnown rel).
Proof.
  unfold releaseFindings. case_match; [constructor|]. cbv zeta. rewrite Forall_map.
  apply Forall_app_2; [|unfold evalHelmManifest; case_match; apply Forall_app_2; apply bucketFinding_fresh].
  destruct (evalChartKubeVersion rel target) eqn:E; [|constructor]. apply evalChartKubeVersion_fresh in E. by repeat constructor.
Qed.

Lemma crdFindings_fresh inv target teams c : Forall fresh (crdFindings inv target teams c).
Proof.
  unfold crdFindings. repeat apply Forall_app_2; apply Forall_omap_fn; intros x f;
    [unfold deprecatedVersion|unfold unservedUse|unfold storedUnserved]; cbv zeta; intros E;
    repeat (case_match; try discriminate E); injection E as <-; done.
Qed.

Lemma volumeFindings_fresh inv k target : Forall fresh (volumeFindings inv k target).
Proof.
  unfold volumeFindings. apply Forall_omap_fn. intros u f E. destruct (volumeFinding _ _ _ _ u) as [[g|]|] eqn:Ev; [|done..].
  injection E as ->. unfold volumeFinding in Ev. cbv zeta in Ev. repeat (case_match; try discriminate Ev); by injection Ev as <-.
Qed.

Lemma lineEOL_fresh a s now f : lineEOL a s now = Some f -> fresh f.
Proof.
  unfold lineEOL, cycleEOL, predatesEOL. cbv zeta. intros E. repeat (case_match; try discriminate E); by injection E as <-.
Qed.

Lemma evalAddOnCompat_fresh a s target f : evalAddOnCompat a s target = Some f -> fresh f.
Proof. unfold evalAddOnCompat. cbv zeta. intros E. repeat (case_match; try discriminate E); by injection E as <-. Qed.

Lemma productFinding_fresh a all now f : productFinding a all now = Some f -> fresh f.
Proof. unfold productFinding. cbv zeta. intros E. repeat (case_match; try discriminate E); by injection E as <-. Qed.

Lemma evalInstalls_fresh a ins node target now labels : Forall fresh (evalInstalls a ins node target now labels).
Proof.
  unfold evalInstalls, evalAddOn. destruct (groupInstalls _ _ _ _) as [all groups]. apply Forall_app_2.
  { destruct (productFinding a all now) eqn:E; [|constructor]. apply productFinding_fresh in E. by repeat constructor. }
  apply Forall_flat_map. intros s. unfold evalGroup. repeat apply Forall_app_2.
  - unfold groupLine. destruct (onLine a now s && _); [|constructor]. destruct (lineEOL a s now) eqn:E; [|constructor].
    apply lineEOL_fresh in E. repeat constructor. unfold located_line. cbv zeta. by case_match.
  - unfold groupCompat. destruct (evalAddOnCompat a s target) eqn:E; [|constructor]. apply evalAddOnCompat_fresh in E. by repeat constructor.
  - unfold groupNoData. case_match; [|constructor]. repeat constructor. unfold noDataFinding. by case_match.
Qed.

Lemma evalAddOns_fresh inv k target now : Forall fresh (evalAddOns inv k target now).
Proof.
  unfold evalAddOns, evalNodeRuntimes. cbv zeta. destruct (collectInstalls _ _ _) as [ids installs].
  apply Forall_app_2; apply Forall_flat_map; intros; repeat case_match; try constructor; apply evalInstalls_fresh.
Qed.

Lemma capNamespaces_fresh f : fresh f -> fresh (capNamespaces f).
Proof. unfold capNamespaces. by case_match. Qed.

Lemma apiFindings_fresh inv k target : Forall fresh (apiFindings inv k target None).1.
Proof.
  destruct (apiFindings_holds inv k target) as (us & st & -> & Hu & Hst & _). apply Forall_app_2; apply Forall_forall; intros f Hf.
  - apply list_elem_of_lookup in Hf as [i Hi]. destruct (Forall2_lookup_r _ _ _ _ _ Hu Hi) as (g & Hg & Hc).
    apply list_elem_of_lookup_2, list_elem_of_fmap in Hg as (h & -> & Hh). unfold fresh.
    destruct Hc as (_ & _ & _ & _ & _ & _ & _ & _ & _ & _ & _ & _ & <-).
    apply capNamespaces_fresh. apply list_elem_of_omap in Hh as (u & _ & E). by eapply usageFinding_fresh.
  - apply Hst in Hf. apply list_elem_of_fmap in Hf as (h & -> & Hh). apply capNamespaces_fresh.
    unfold callFindings in Hh. apply list_elem_of_fmap in Hh as (c & -> & _). apply callFinding_fresh.
Qed.

Lemma checkFindings_fresh inv k target now : Forall (Forall fresh) (checkFindings inv k target now).
Proof.
  unfold checkFindings. cbv zeta. repeat apply Forall_cons_2; [..|apply Forall_nil_2].
  - apply Forall_omap_fn. intros u f. apply authorshipFinding_fresh.
  - apply evalAddOns_fresh.
  - case_match; [constructor|]. by apply Forall_map_fn.
  - apply Forall_flat_map. intros. apply releaseFindings_fresh.
  - apply evalSkew_fresh.
  - apply evalControlPlaneSkew_fresh.
  - apply evalKubeProxyKubeletSkew_fresh.
  - apply evalKBStale_fresh.
  - apply evalUpgradePath_fresh.
  - apply evalSupport_fresh.
  - apply Forall_flat_map. intros. apply crdFindings_fresh.
  - apply volumeFindings_fresh.
Qed.

Lemma Evaluate_fresh inv k target now r :
  kb_ok k -> Evaluate inv k target now = Some r -> Forall fresh (r_Findings r).
Proof.
  intros Hk He. rewrite Evaluate_eq in He by done. injection He as <-. cbn [report r_Findings]. unfold sortFindings. rewrite isort_perm.
  apply Forall_app_2; [apply apiFindings_fresh|]. rewrite Forall_map. eapply Forall_impl; [|apply capNamespaces_fresh].
  apply Forall_concat, checkFindings_fresh.
Qed.
End Checks.

(** ** Suppression *)

Lemma applyFinding_fresh f rules opts g : a_kept (applyFinding f rules opts) = Some g -> f_BaselineState g = f_BaselineState f.
Proof.
  unfold applyFinding. destruct (collectGroups f rules opts) as [[[[gs rem] w] ws] leg].
  destruct gs; [by intros [= <-]|]. cbv zeta. destruct (w || _); [done|]. by intros [= <-].
Qed.

Lemma Apply_fresh r rules opts r' ws :
  Suppress.Apply r rules opts = Some (r', ws) -> Forall fresh (r_Findings r) -> Forall fresh (r_Findings r').
Proof.
  intros HA Hr. destruct (Apply_spec r rules opts) as (r1 & ws1 & HA1 & Hf & _). rewrite HA in HA1. injection HA1 as <- <-.
  rewrite Hf. apply Forall_forall. intros g Hg. apply list_elem_of_In, in_concat in Hg as (l & Hl & Hg). apply in_map_iff in Hl as (f & <- & Hin).
  apply list_elem_of_In, judged_judgeable in Hin. destruct (a_kept _) as [g'|] eqn:E; [|done]. destruct Hg as [<-|[]].
  apply applyFinding_fresh in E. unfold fresh. rewrite E. rewrite Forall_forall in Hr. destruct Hin as [Hin|(h & c & _ & _ & ->)]; [by apply Hr|done].
Qed.
