(* ===== verification/ScanSpec.v ===== *)
(** * What a scan promises

    The exit code, the JUnit report and the other formats tell one story,
    and a scan that exits 0 found the upgrade ready but for what its user
    accepted. *)

From stdpp Require Import base list strings gmap.
From Stdlib Require Import ZArith Lia Ascii.
From S2P Require Import Prelude GoStr GoTime Version Inventory Collector KB Findings APIUse Calls AddOns Crd Gaps Volumes Evaluate Plan Glob TextSafe Suppress Baseline Render Junit Sarif CodeQuality Scan FormatSpec FreshSpec.

(** ** Judged reports *)

(** A report whose verdict is that of its findings and gaps. *)
Definition settled (r : Report) : Prop :=
  r_Verdict r = verdictFor (r_Findings r) (r_NotAssessed r) /\ r_Ready r = (r_Verdict r =s VerdictReady).

(** The gap of a target that is no upgrade is always required. *)
Definition targetsRequired (r : Report) : Prop :=
  forall g, g ∈ r_NotAssessed r -> g_Capability g = GapTarget -> g_Required g = true.

Lemma Evaluate_report `{Semver} `{KubeAware} inv k target now r :
  Evaluate inv k target now = Some r -> exists fs, r = report (judged inv) k target now fs.
Proof.
  unfold Evaluate, evaluate. cbv zeta. destruct (Evaluate.runSteps _ _) as [[[fs b]|e]|]; [|done..].
  destruct (exceeded _); [done|]. intros [= <-]. eauto.
Qed.

Lemma assessmentGaps_target inv k target g :
  Capabilities inv !! GapTarget = None -> g ∈ assessmentGaps inv k target -> g_Capability g = GapTarget -> g_Required g = true.
Proof.
  intros Hc Hg E. apply assessmentGaps_in in Hg. unfold unsortedGaps in Hg. rewrite !elem_of_app in Hg.
  destruct Hg as [Hg|[Hg|[Hg|[Hg|[Hg|[Hg|Hg]]]]]].
  - unfold absentGaps in Hg. by apply list_elem_of_fmap in Hg as (c & -> & _).
  - apply list_elem_of_omap in Hg as ([c st] & Hin%elem_of_map_to_list & Hs). unfold capabilityGap in Hs.
    assert (g_Capability g = c) by (repeat case_match; simplify_eq; done). congruence.
  - unfold crdsGap in Hg. case_match; [by apply elem_of_nil in Hg|]. by apply list_elem_of_singleton in Hg as ->.
  - unfold volumesGap in Hg. repeat case_match; try (by apply elem_of_nil in Hg); by apply list_elem_of_singleton in Hg as ->.
  - unfold serverVersionGap in Hg. cbv zeta in Hg. repeat case_match; try (by apply elem_of_nil in Hg); by apply list_elem_of_singleton in Hg as ->.
  - unfold coverageGap in Hg. case_match; [|by apply elem_of_nil in Hg]. by apply list_elem_of_singleton in Hg as ->.
  - unfold targetGap in Hg. repeat case_match; try (by apply elem_of_nil in Hg); by apply list_elem_of_singleton in Hg as ->.
Qed.

Lemma Evaluate_settled `{Semver} `{KubeAware} inv k target now r :
  Evaluate inv k target now = Some r -> Capabilities inv !! GapTarget = None -> settled r /\ targetsRequired r.
Proof.
  intros (fs & ->)%Evaluate_report Hc. split; [done|]. intros g Hg. by apply (assessmentGaps_target (judged inv) k target).
Qed.

Lemma Apply_settled r rules opts r' ws :
  Suppress.Apply r rules opts = Some (r', ws) -> settled r -> targetsRequired r -> settled r' /\ targetsRequired r'.
Proof.
  intros HA Hs Ht. destruct (Apply_spec r rules opts) as (r1 & ws1 & HA1 & _ & _ & Hg & Hv). rewrite HA in HA1. injection HA1 as <- <-.
  split; [|unfold targetsRequired in *; by rewrite Hg]. by destruct Hv as [->|(? & _ & ?)].
Qed.

(** A report with the same severities, baseline states and gaps, finding by
    finding. *)
Definition alike (r r' : Report) : Prop :=
  map (fun f => (f_Severity f, f_BaselineState f)) (r_Findings r) = map (fun f => (f_Severity f, f_BaselineState f)) (r_Findings r') /\
  r_NotAssessed r = r_NotAssessed r' /\ r_Verdict r = r_Verdict r' /\ r_Ready r = r_Ready r'.

Lemma withFileBase_alike r base : alike (withFileBase r base) r.
Proof. unfold withFileBase, alike. case_match; [done|]. cbn [r_Findings with_Findings]. rewrite map_map. done. Qed.

Lemma verdictFor_severities fs fs' gaps : map f_Severity fs = map f_Severity fs' -> verdictFor fs gaps = verdictFor fs' gaps.
Proof.
  intros E. unfold verdictFor. assert (existsb isBlocker fs = existsb isBlocker fs') as ->; [|done].
  revert fs' E. induction fs as [|f fs IH]; intros [|f' fs'] E; try done. cbn in *. injection E as E1 E2.
  rewrite (IH _ E2). unfold isBlocker at 1 3. by rewrite E1.
Qed.

Definition marked (baseline : option Baseline.Baseline) (r : Report) : Report :=
  match baseline with Some b => Baseline.Mark b r | None => r end.

Lemma marked_settled baseline r : settled r -> settled (marked baseline r).
Proof.
  destruct baseline as [b|]; [|done]. intros [Hv Hr]. split; [|done]. cbn. rewrite Hv. symmetry. apply verdictFor_severities. by rewrite map_map.
Qed.

Lemma marked_gaps baseline r : r_NotAssessed (marked baseline r) = r_NotAssessed r.
Proof. by destruct baseline. Qed.

(** ** The gate *)

Lemma counted_pos r sev :
  0 < counted r sev <-> exists f, f ∈ r_Findings r /\ f_BaselineState f <> BaselineUnchanged /\ f_Severity f = sev.
Proof.
  unfold counted, zlen. split.
  - intros Hc. destruct (List.filter _ _) as [|f l] eqn:E; [cbn in Hc; lia|].
    assert (In f (f :: l)) as Hf by by left. rewrite <- E in Hf. apply filter_In in Hf as [Hf Hp]. apply list_elem_of_In in Hf.
    apply andb_true_iff in Hp as [Hb Hs]. apply negb_true_iff, String.eqb_neq in Hb. apply String.eqb_eq in Hs. eauto.
  - intros (f & Hf & Hb & Hs). assert (In f (List.filter (fun f => negb (f_BaselineState f =s BaselineUnchanged) && (f_Severity f =s sev)) (r_Findings r))) as Hin.
    { apply filter_In. rewrite <- list_elem_of_In. split; [done|]. apply String.eqb_neq in Hb. apply String.eqb_eq in Hs. by rewrite Hb, Hs. }
    destruct (List.filter _ _); [done|cbn; lia].
Qed.

Lemma findingsReach_spec r failOn :
  failOn <> "never"%string ->
  findingsReach r failOn = true <->
  exists f, f ∈ r_Findings r /\ f_BaselineState f <> BaselineUnchanged /\ Junit.reaches (f_Severity f) failOn = true.
Proof.
  intros Hn. unfold findingsReach, Junit.reaches. apply String.eqb_neq in Hn. rewrite Hn.
  assert (0 <= counted r SevBlocker /\ 0 <= counted r SevWarning) as [??] by (unfold counted, zlen; lia).
  pose proof (counted_pos r SevBlocker) as Hb. pose proof (counted_pos r SevWarning) as Hw.
  destruct (failOn =s "warning"); rewrite Z.ltb_lt.
  - split.
    + intros Hs. assert (0 < counted r SevBlocker \/ 0 < counted r SevWarning) as [Hp|Hp] by lia; [apply Hb in Hp|apply Hw in Hp];
        destruct Hp as (f & ? & ? & Es); exists f; (split; [done|]); (split; [done|]); by rewrite Es.
    + intros (f & ? & ? & [E|E]%orb_true_iff); apply String.eqb_eq in E;
        [enough (0 < counted r SevBlocker) by lia; apply Hb|enough (0 < counted r SevWarning) by lia; apply Hw]; eauto.
  - rewrite Hb. by setoid_rewrite String.eqb_eq.
Qed.

Lemma gate_two r failOn allow err : gate r failOn allow = Some err -> ExitCode (Some err) = 2.
Proof. unfold gate. intros Hg. repeat case_match; by simplify_eq. Qed.

(** A JUnit report, of the report or of one alike, fails as the gate
    does. *)
Lemma junit_follows_gate r r' failOn allow :
  settled r -> targetsRequired r -> alike r' r ->
  let doc := Junit.Write r' (Junit.mkOptions failOn allow) in
  0 < Junit.tss_Failures doc + Junit.tss_Errors doc <-> gate r failOn allow <> None.
Proof.
  intros [Hv _] Ht (Ef & Eg & _ & _). cbv zeta. rewrite JunitSpec.Write_fails. cbn [Junit.AllowIncomplete].
  set (t := JunitSpec.threshold _). rewrite Eg.
  assert (Hmove : forall P : string -> string -> Prop, (exists f, f ∈ r_Findings r' /\ P (f_BaselineState f) (f_Severity f)) <->
    exists f, f ∈ r_Findings r /\ P (f_BaselineState f) (f_Severity f)).
  { intros P. transitivity (exists x, x ∈ map (fun f => (f_Severity f, f_BaselineState f)) (r_Findings r') /\ P x.2 x.1);
      [|rewrite Ef]; setoid_rewrite list_elem_of_fmap; split; [intros (f & ? & ?); eexists; eauto|intros (? & (f & -> & ?) & ?); eauto|
        intros (? & (f & -> & ?) & ?); eauto|intros (f & ? & ?); eexists; eauto]. }
  rewrite (Hmove (fun b s => b <> BaselineUnchanged /\ Junit.reaches s t = true)).
  assert (Et : (failOn =s "never") = (t =s "never") /\ forall s, Junit.reaches s t = Junit.reaches s failOn).
  { unfold t, JunitSpec.threshold. cbn [Junit.FailOn]. destruct (failOn =s "") eqn:E; [|done]. apply String.eqb_eq in E as ->. done. }
  destruct Et as [En Er]. unfold gate. rewrite En. destruct (t =s "never") eqn:Hn.
  { split; [|done]. intros [(f & _ & _ & H)|(g & _ & H)].
    - unfold Junit.reaches in H. by rewrite Hn in H.
    - unfold Junit.gapFails in H. rewrite Hn in H. by rewrite andb_false_r in H. }
  setoid_rewrite Er. rewrite <- findingsReach_spec by (apply String.eqb_neq; congruence).
  destruct (findingsReach r failOn); [by split; [|left]|].
  assert (Hgap : forall g, Junit.gapFails t allow g = g_Required g && ((g_Capability g =s GapTarget) || negb allow))
    by (intros; unfold Junit.gapFails; by rewrite Hn, andb_true_r).
  setoid_rewrite Hgap. split.
  - intros [?|(g & Hg & Hf)]; [done|]. apply andb_true_iff in Hf as [Hreq Hf]. case_match eqn:Efind; [done|].
    assert ((g_Capability g =s GapTarget) = false) as E by (eapply (find_none _ _ Efind); by apply list_elem_of_In). rewrite E in Hf. cbn in Hf.
    unfold incomplete. rewrite Hf. assert (existsb g_Required (r_NotAssessed r) = true) as ->
      by (apply existsb_exists; exists g; split; [by apply list_elem_of_In|done]). by rewrite orb_true_r.
  - case_match eqn:Efind.
    + intros _. right. apply find_some in Efind as [Hin E]. apply list_elem_of_In in Hin. exists c. split; [done|].
      rewrite E. apply String.eqb_eq in E. by rewrite (Ht c Hin E).
    + destruct allow; [by rewrite andb_false_r|]. rewrite andb_true_r. destruct (incomplete r) eqn:Ei; [|done]. intros _. right.
      assert (existsb g_Required (r_NotAssessed r) = true) as (g & Hg & Hq)%existsb_exists.
      { unfold incomplete in Ei. apply orb_true_iff in Ei as [Eu|Eu]; [|done]. rewrite Hv in Eu. unfold verdictFor in Eu. repeat case_match; done. }
      exists g. rewrite Hq, orb_true_r. split; [by apply list_elem_of_In|done].
Qed.

(** ** The command *)

(** The inventory a scan judges. *)
Definition scanned (o : scanOptions) (w : scanWorld) (inv : Inventory) : Prop :=
  (so_filesDir o <> ""%string /\ exists sum, w_files w = Ok (inv, sum) /\ fs_Objects sum <> 0) \/
  (so_filesDir o = ""%string /\ inv = w_inventory w).

(** The same judgement, with what the command adds of the plan and the
    cluster. *)
Definition sameJudgement (r r' : Report) : Prop :=
  r_Findings r = r_Findings r' /\ r_NotAssessed r = r_NotAssessed r' /\ r_Verdict r = r_Verdict r' /\ r_Ready r = r_Ready r'.

Section Scan.
Context `{Semver} `{KubeAware}.

Lemma evaluateScan_report inv k plan files from target ig now r ws :
  evaluateScan inv k plan files from target ig now = Some (r, ws) ->
  exists r0, Evaluate inv k target now = Some r0 /\ sameJudgement r r0.
Proof.
  unfold evaluateScan. destruct (Evaluate inv k target now) as [r0|]; [|done]. cbn. destruct plan.
  - destruct (planHops _ _ _ _ _ _ _) as [[hops pws]|]; [|done]. intros [= <- <-]. by exists r0.
  - intros [= <- <-]. by exists r0.
Qed.

Lemma runScan_report o target from ig w ws r :
  runScan o target from ig w = Some (ws, Ok r) ->
  exists k inv r0, w_kb w = Ok k /\ scanned o w inv /\ Evaluate inv k target (w_clock w 0%nat) = Some r0 /\ sameJudgement r r0.
Proof.
  unfold runScan, scanned. destruct (w_kb w) as [k|]; [|done]. destruct (so_filesDir o =s "") eqn:Ed; cbn [negb].
  - destruct (w_clients w) as [[context server]|]; [|done]. destruct (unreadableCluster _ _); [done|].
    destruct (evaluateScan _ _ _ _ _ _ _ _) as [[r1 pws]|] eqn:E; [|done]. intros [= _ <-]. apply evaluateScan_report in E as (r0 & E & Hs).
    apply String.eqb_eq in Ed. exists k, (w_inventory w), r0. split_and!; [done|by right|done|done].
  - destruct (w_files w) as [[inv sum]|]; [|done]. destruct (fs_Objects sum =? 0) eqn:Eo; [done|].
    destruct (evaluateScan _ _ _ _ _ _ _ _) as [[r1 pws]|] eqn:E; [|done]. intros [= _ <-]. apply evaluateScan_report in E as (r0 & E & Hs).
    apply String.eqb_neq in Ed. exists k, inv, r0. split_and!; [done|left; split; [done|exists sum; split; [done|lia]]|done|done].
Qed.

(** How a report became what a scan concludes on. *)
Record concluded (o : scanOptions) (w : scanWorld) (run : scanRun) := {
  cc_target : Version;
  cc_ignore : ignoreConfig;
  cc_baseline : option Baseline.Baseline;
  cc_kb : KB;
  cc_inv : Inventory;
  cc_evaluated : Report;
  cc_scanned : Report;
  cc_report : Report;
  cc_out : Report;
  cc_from : exists from, validateScanOptions o = Ok (cc_target, from);
  cc_rules : w_ignore w = Ok cc_ignore;
  cc_loaded : w_kb w = Ok cc_kb;
  cc_read : scanned o w cc_inv;
  cc_evaluates : Evaluate cc_inv cc_kb cc_target (w_clock w 0%nat) = Some cc_evaluated;
  cc_same : sameJudgement cc_scanned cc_evaluated;
  cc_applies : exists ws, Suppress.Apply cc_scanned (ig_rules cc_ignore) (Scan.ignoreOptions cc_ignore (w_clock w 1%nat)) = Some (cc_report, ws);
  cc_marks : cc_baseline = None /\ so_baselineFile o = ""%string \/
    so_baselineFile o <> ""%string /\ exists b, cc_baseline = Some b /\ w_baseline w = Ok b;
  cc_gate : sn_error run = gate (marked cc_baseline cc_report) (so_failOn o) (so_allowIncomplete o);
  cc_alike : alike cc_out (marked cc_baseline cc_report);
  cc_document : exists filesBase, sn_document run = Some (documentOf o (w_version w) cc_out filesBase);
}.

Lemma scan_cases o w run :
  scan o w = Some run ->
  (exists msg, sn_document run = None /\ sn_error run = Some (operational msg)) \/ exists c : concluded o w run, True.
Proof.
  intros Hrun. unfold scan in Hrun.
  assert (Hop : forall ws msg, Some (mkRun ws None (Some (operational msg))) = Some run ->
    exists msg, sn_document run = None /\ sn_error run = Some (operational msg)) by (intros ws msg [= <-]; by exists msg).
  case_match; [left; by eapply Hop|]. case_match; [left; by eapply Hop|].
  destruct (validateScanOptions o) as [[target from]|e] eqn:Ev; [|left; by eapply Hop].
  destruct (w_ignore w) as [ig|e] eqn:Ei; [|left; by eapply Hop].
  destruct (if so_baselineFile o =s "" then Ok None else _) as [baseline|e] eqn:Eb; [|left; by eapply Hop].
  destruct (runScan o target from ig w) as [[ws [r1|e]]|] eqn:Er; [| |done]; cbn in Hrun; [|left; by eapply Hop].
  apply runScan_report in Er as (k & inv & r0 & Hk & Hinv & He & Hs). unfold concludeScan in Hrun.
  destruct (Suppress.Apply r1 _ _) as [[r2 aws]|] eqn:Ea; [|done]. cbn in Hrun.
  case_match; [left; by eapply Hop|]. fold (marked baseline r2) in Hrun.
  destruct (if so_output o =s "json" then _ else _) as [out filesBase] eqn:Eo.
  destruct (w_write w); [left; by eapply Hop|]. injection Hrun as <-. right.
  unshelve eexists; [|done]. refine (Build_concluded o w _ target ig baseline k inv r0 r1 r2 out _ _ _ _ _ _ _ _ _ _ _); try done; try by eauto.
  - destruct (so_baselineFile o =s "") eqn:Ef; [injection Eb as <-; left; split; [done|by apply String.eqb_eq]|].
    destruct (w_baseline w) as [b|]; [|done]. injection Eb as <-. right. split; [by apply String.eqb_neq|eauto].
  - destruct (so_output o =s "json"); injection Eo as <- <-; [done|apply withFileBase_alike].
Qed.

Lemma concluded_settled o w run (c : concluded o w run) :
  Capabilities (cc_inv o w run c) !! GapTarget = None ->
  settled (marked (cc_baseline o w run c) (cc_report o w run c)) /\ targetsRequired (marked (cc_baseline o w run c) (cc_report o w run c)).
Proof.
  intros Hc. destruct c as [target ig baseline k inv r0 r1 r2 out c1 c2 c3 c4 He Hs Ha c5 c6 c7 c8]. cbn [cc_inv cc_baseline cc_report] in *.
  destruct Ha as [ws Ha]. clear c1 c2 c3 c4 c5 c6 c7 c8.
  apply Evaluate_settled in He as [H1 H2]; [|done]. destruct Hs as (E1 & E2 & E3 & E4).
  assert (settled r1 /\ targetsRequired r1) as [Hs1 Ht1] by (unfold settled, targetsRequired in *; by rewrite E1, E2, E3, E4).
  destruct (Apply_settled _ _ _ _ _ Ha Hs1 Ht1) as [Hs2 Ht2]. split; [by apply marked_settled|].
  unfold targetsRequired in *. by rewrite marked_gaps.
Qed.

(** The test report and the exit code agree. Whenever a scan writes a
    JUnit report, with whatever flags, ignore rules and baseline, of files
    or of a cluster: the scan exits 2 exactly when the report has a failure
    or an error, and 0 exactly when it has none. *)
Lemma scan_junit_agrees (o : scanOptions) (w : scanWorld) (run : scanRun) (doc : Junit.testsuites) :
  scan o w = Some run -> sn_document run = Some (asJUnit doc) ->
  (forall inv, scanned o w inv -> Capabilities inv !! GapTarget = None) ->
  ExitCode (sn_error run) = if 0 <? Junit.tss_Failures doc + Junit.tss_Errors doc then 2 else 0.
Proof.
  intros Hrun Hdoc Hcap. apply scan_cases in Hrun as [(msg & Hd & _)|[c _]]; [congruence|].
  destruct (concluded_settled o w run c (Hcap _ (cc_read _ _ _ c))) as [Hs Ht].
  destruct (cc_document _ _ _ c) as [fb Hd]. rewrite Hdoc in Hd. injection Hd as Hd.
  assert (doc = Junit.Write (cc_out _ _ _ c) (Junit.mkOptions (so_failOn o) (so_allowIncomplete o))) as ->
    by (unfold documentOf in Hd; repeat case_match; by simplify_eq).
  pose proof (junit_follows_gate _ _ (so_failOn o) (so_allowIncomplete o) Hs Ht (cc_alike _ _ _ c)) as Hj. cbv zeta in Hj.
  rewrite (cc_gate _ _ _ c). destruct (0 <? _) eqn:E.
  - apply Z.ltb_lt, Hj in E. destruct (gate _ _ _) as [err|] eqn:Eg; [|done]. by apply gate_two in Eg as ->.
  - apply Z.ltb_ge in E. destruct (gate _ _ _) eqn:Eg; [|done]. assert (Some s <> None) as Hne by done. apply Hj in Hne. lia.
Qed.

(** ** The formats *)

Lemma concluded_fresh o w run (c : concluded o w run) :
  kb_ok (cc_kb _ _ _ c) -> Forall fresh (r_Findings (cc_report _ _ _ c)).
Proof.
  intros Hk. destruct (cc_applies _ _ _ c) as [ws Ha]. eapply Apply_fresh; [exact Ha|].
  destruct (cc_same _ _ _ c) as (-> & _). by eapply Evaluate_fresh, (cc_evaluates _ _ _ c).
Qed.

Lemma adverse_alike r r' : alike r r' -> adverse r <-> adverse r'.
Proof.
  intros (Ef & Eg & _). unfold adverse. rewrite Eg.
  assert (Hs : forall r, (exists f, f ∈ r_Findings r /\ f_Severity f = SevBlocker) <->
    SevBlocker ∈ map fst (map (fun f => (f_Severity f, f_BaselineState f)) (r_Findings r))).
  { intros x. rewrite map_map. cbn. rewrite list_elem_of_fmap. naive_solver. }
  by rewrite (Hs r), (Hs r'), Ef.
Qed.

Lemma settled_adverse r : settled r -> adverse r <-> r_Ready r = false.
Proof.
  intros [Hv Hr]. rewrite Hr, Hv. unfold adverse, verdictFor. destruct (existsb isBlocker (r_Findings r)) eqn:Eb.
  { apply existsb_exists in Eb as (f & Hf%list_elem_of_In & Es%String.eqb_eq). split; [done|left; eauto]. }
  destruct (existsb g_Required (r_NotAssessed r)) eqn:Eg.
  { apply existsb_exists in Eg as (g & Hg%list_elem_of_In & Es). split; [done|right; eauto]. }
  split; [|done]. intros [(f & Hf & Es)|(g & Hg & Es)]; exfalso.
  - apply not_true_iff_false in Eb. apply Eb, existsb_exists. exists f. split; [by apply list_elem_of_In|by apply String.eqb_eq].
  - apply not_true_iff_false in Eg. apply Eg, existsb_exists. exists g. split; [by apply list_elem_of_In|done].
Qed.

Lemma gate_adverse r : settled r -> targetsRequired r -> Forall fresh (r_Findings r) -> gate r "blocker" false <> None <-> adverse r.
Proof.
  intros Hs Ht Hf. rewrite <- (junit_follows_gate r r "blocker" false Hs Ht) by done. rewrite JunitSpec.Write_fails. unfold adverse.
  rewrite Forall_forall in Hf. split.
  - intros [(f & Hin & _ & Hr)|(g & Hin & Hr)]; [left; exists f; split; [done|by apply String.eqb_eq]|right; exists g; split; [done|]].
    unfold Junit.gapFails in Hr. by destruct (g_Required g).
  - intros [(f & Hin & Hr)|(g & Hin & Hr)]; [left; exists f|right; exists g].
    + split_and!; [done|by rewrite (Hf f Hin)|by apply String.eqb_eq].
    + split; [done|]. unfold Junit.gapFails. by rewrite Hr, orb_true_r.
Qed.

(** What a document says of the upgrade: that something stands in its
    way. *)
Definition objects (d : document) : Prop :=
  match d with
  | asSARIF log => (exists x, x ∈ Sarif.lg_Results log /\ Sarif.sr_Level x = "error"%string) \/
                   (exists n, n ∈ Sarif.lg_Notes log /\ Sarif.nt_Level n = "error"%string)
  | asCodeQuality issues => exists i, i ∈ issues /\ CodeQuality.is_Severity i = "critical"%string
  | asJUnit doc => 0 < Junit.tss_Failures doc + Junit.tss_Errors doc
  | asJSON r _ | asMarkdown r | asTable r => r_Ready r = false
  end.

(** Every format tells what the exit code does. Under the default gate
    and without a baseline, of whatever was scanned and whatever was
    ignored: the scan exits 2 exactly when its document has, in its own
    terms, what stands in the way of the upgrade: an error among the
    results and notifications of SARIF, a critical entry for GitLab, a
    failure or an error in JUnit, a report that is not ready in JSON,
    Markdown and the table. *)
Lemma scan_formats_agree (o : scanOptions) (w : scanWorld) (run : scanRun) (d : document) :
  scan o w = Some run -> sn_document run = Some d ->
  so_failOn o = "blocker"%string -> so_allowIncomplete o = false -> so_baselineFile o = ""%string ->
  (forall k, w_kb w = Ok k -> kb_ok k) ->
  (forall inv, scanned o w inv -> Capabilities inv !! GapTarget = None) ->
  (ExitCode (sn_error run) = 2 <-> objects d) /\ (ExitCode (sn_error run) = 0 <-> ~ objects d).
Proof.
  intros Hrun Hdoc Hfail Hallow Hbase Hkb Hcap. apply scan_cases in Hrun as [(msg & Hd & _)|[c _]]; [congruence|].
  destruct (concluded_settled o w run c (Hcap _ (cc_read _ _ _ c))) as [Hs Ht].
  assert (Hfr : Forall fresh (r_Findings (cc_report _ _ _ c))) by (apply concluded_fresh, Hkb, (cc_loaded _ _ _ c)).
  pose proof (cc_alike _ _ _ c) as Hal. pose proof (cc_gate _ _ _ c) as Hg. rewrite Hfail, Hallow in Hg.
  destruct (cc_marks _ _ _ c) as [[Hb _]|[? _]]; [|done]. rewrite Hb in *. cbn [marked] in *.
  destruct (cc_document _ _ _ c) as [fb Hd]. rewrite Hdoc in Hd. injection Hd as ->.
  assert (Ho : objects (documentOf o (w_version w) (cc_out _ _ _ c) fb) <-> adverse (cc_report _ _ _ c)).
  { unfold documentOf. rewrite Hfail, Hallow. rewrite <- (adverse_alike _ _ Hal) at 1.
    assert (Hready : r_Ready (cc_out _ _ _ c) = false <-> adverse (cc_out _ _ _ c)).
    { rewrite (adverse_alike _ _ Hal), settled_adverse by done. by destruct Hal as (_ & _ & _ & ->). }
    repeat case_match; cbn [objects]; try exact Hready; [apply sarif_errors| |apply codequality_critical].
    rewrite (junit_follows_gate _ _ _ _ Hs Ht Hal), gate_adverse by done. by rewrite (adverse_alike _ _ Hal). }
  rewrite Ho, <- gate_adverse, Hg by done. destruct (gate _ _ _) as [err|] eqn:Eg.
  - apply gate_two in Eg. rewrite Eg. naive_solver.
  - naive_solver.
Qed.

(** ** A removed API *)

(** What names the finding of an API in use that the target removes. *)
Definition removal (u : APIUsage) : Finding :=
  newFinding CatRemovedAPI SevBlocker (CatRemovedAPI +:+ "/" +:+ apiKey (u_Group u) (u_Version u) (u_Kind u)) "" "" [].

(** An API in use that the target removes, that no object at it accepts
    with a reason. *)
Definition usesRemoved (k : KB) (target : Version) (inv : Inventory) (u : APIUsage) : Prop :=
  u ∈ APIUsages inv /\
  (exists e rv, Lookup (NewIndex (k_APILifecycle k)) (u_Group u) (u_Version u) (u_Kind u) = Some e /\
     e_Removed e = Some rv /\ vle rv target /\ vle (e_Introduced e) target) /\
  (forall x, x ∈ u_Objects u -> ~ (names_finding x (removal u) /\ TrimSpace (o_IgnoreReason x) <> ""%string)).

Lemma scanned_inj o w inv inv' : scanned o w inv -> scanned o w inv' -> inv = inv'.
Proof. intros [(? & s & E & _)|[? ->]] [(? & s' & E' & _)|[? ->]]; [congruence|done..]. Qed.

Lemma gate_blocker r f failOn allow :
  f ∈ r_Findings r -> f_BaselineState f <> BaselineUnchanged -> f_Severity f = SevBlocker -> failOn <> "never"%string ->
  gate r failOn allow = Some ErrGateFailed.
Proof.
  intros Hf Hb Hs Hn. unfold gate. assert (findingsReach r failOn = true) as ->.
  { apply findingsReach_spec; [done|]. exists f. split_and!; [done..|]. unfold Junit.reaches. apply String.eqb_neq in Hn. rewrite Hn, Hs. by case_match. }
  apply String.eqb_neq in Hn. by rewrite Hn.
Qed.

Lemma marked_new baseline r f :
  f ∈ r_Findings r -> fresh f -> (forall b, baseline = Some b -> b !! Baseline.findingID f = None) ->
  exists f', f' ∈ r_Findings (marked baseline r) /\ f_BaselineState f' <> BaselineUnchanged /\ f_Severity f' = f_Severity f.
Proof.
  intros Hf Hfr Hb. destruct baseline as [b|]; [|exists f; split_and!; [done|by rewrite Hfr|done]].
  exists (set_BaselineState (Baseline.stateOf b f) f). split_and!; [apply list_elem_of_fmap; by exists f| |done].
  cbn. unfold Baseline.stateOf. by rewrite (Hb b eq_refl).
Qed.

(** ** A scan ends with an answer *)

Lemma mapM_some {A B} (f : A -> option B) l : (forall x, is_Some (f x)) -> is_Some (mapM f l).
Proof.
  intros Hf. induction l as [|x l [ys Hys]]; [by eexists|]. destruct (Hf x) as [y Hy]. exists (y :: ys). simpl. by rewrite Hy, Hys.
Qed.

Lemma Apply_some r rules opts : is_Some (Suppress.Apply r rules opts).
Proof. destruct (Apply_spec r rules opts) as (r' & ws & -> & _). by eexists. Qed.

Lemma evaluateScan_total inv k plan files from target ig now : kb_ok k -> is_Some (evaluateScan inv k plan files from target ig now).
Proof.
  intros Hk. unfold evaluateScan. rewrite (Evaluate_eq inv k target now Hk). cbn [mbind option_bind]. destruct plan; [|by eexists].
  assert (Hp : is_Some (planHops inv k files from target ig now)).
  { unfold planHops. destruct (if files then from else PlanFrom inv) as [v|]; [|by eexists]. destruct (HopTargets k v target) as [|t ts]; [by eexists|].
    apply fmap_is_Some, mapM_some. intros x. rewrite (Evaluate_eq inv k x now Hk). cbn [mbind option_bind].
    apply fmap_is_Some, Apply_some. }
  destruct Hp as [[hops ws] ->]. by eexists.
Qed.

Lemma concludeScan_total o ig baseline w ws report : is_Some (concludeScan o ig baseline w ws report).
Proof.
  unfold concludeScan. destruct (Apply_some report (ig_rules ig) (ignoreOptions ig (w_clock w 1%nat))) as [[rep warns] ->].
  cbn [mbind option_bind]. destruct (if so_writeBaseline o =s "" then _ else _); [by eexists|]. cbv zeta.
  destruct (if so_output o =s "json" then _ else _) as [out fb]. destruct (w_write w); by eexists.
Qed.

Lemma scan_total o w : (forall k, w_kb w = Ok k -> kb_ok k) -> is_Some (scan o w).
Proof.
  intros Hk. assert (Hr : forall target from ig, is_Some (runScan o target from ig w)).
  { intros target from ig. unfold runScan. destruct (w_kb w) as [k|]; [|by eexists]. specialize (Hk k eq_refl).
    destruct (negb (so_filesDir o =s "")).
    - destruct (w_files w) as [[inv sum]|]; [|by eexists]. cbv zeta. destruct (fs_Objects sum =? 0); [by eexists|].
      destruct (evaluateScan_total inv k (so_plan o) true from target ig (w_clock w 0%nat) Hk) as [[r ws] ->]. by eexists.
    - destruct (w_clients w) as [[context server]|]; [|by eexists]. destruct (unreadableCluster _ _); [by eexists|].
      destruct (evaluateScan_total (w_inventory w) k (so_plan o) false from target ig (w_clock w 0%nat) Hk) as [[r ws] ->]. by eexists. }
  unfold scan. destruct (so_target o =s ""); [by eexists|]. destruct (negb (so_filesDir o =s "") && so_teamLabelChanged o); [by eexists|].
  destruct (validateScanOptions o) as [[target from]|]; [|by eexists]. destruct (w_ignore w) as [ig|]; [|by eexists].
  destruct (if so_baselineFile o =s "" then _ else _) as [baseline|]; [|by eexists].
  destruct (Hr target from ig) as [[ws outcome] ->]. cbn [mbind option_bind].
  destruct outcome; [apply concludeScan_total|by eexists].
Qed.

(** C3 A scan does not let a removed API through. When what is scanned, files
    or a cluster, uses an API the target removes, and the user accepted it
    neither by a rule in force (one that names the removal, has a reason and
    is not past its expiry), nor by an annotation with a reason, nor in the
    baseline, then the scan exits 2 in every output format, or 1
    when it could not tell or write its report, whatever else was found,
    unless it was asked never to fail. *)
Theorem scan_removed_api_fails (o : scanOptions) (w : scanWorld) (k : KB) (target : Version) (from : option Version)
    (inv : Inventory) (u : APIUsage) (ig : ignoreConfig) :
  validateScanOptions o = Ok (target, from) -> so_failOn o <> "never"%string ->
  w_kb w = Ok k -> kb_ok k -> w_ignore w = Ok ig -> scanned o w inv -> usesRemoved k target inv u ->
  (forall rule, rule ∈ ig_rules ig -> ~ inForce (w_clock w 1%nat) rule (removal u)) ->
  (forall b, w_baseline w = Ok b -> b !! f_Key (removal u) = None) ->
  exists run, scan o w = Some run /\ ExitCode (sn_error run) = match sn_document run with Some _ => 2 | None => 1 end.
Proof.
  intros Hval Hnever Hkb Hok Hig Hinv (Hu & (e & rv & Hl & Hr & Hle & Hi) & Hann) Hrules Hbase.
  destruct (scan_total o w) as [run Hrun]; [intros k' Hk'; rewrite Hkb in Hk'; by injection Hk' as <-|]. exists run. split; [done|].
  apply scan_cases in Hrun as [(msg & -> & ->)|[c _]]; [done|].
  destruct (cc_document _ _ _ c) as [fb ->]. rewrite (cc_gate _ _ _ c).
  destruct c as [target' ig' baseline k' inv' r0 r1 r2 out Hf1 Hi1 Hk1 Hs1 He Hsame Ha Hm Hg Hal Hd]. cbn [cc_baseline cc_report] in *. clear Hal Hd Hg.
  destruct Hf1 as [from' Hf1]. assert (target' = target /\ ig' = ig /\ k' = k) as (-> & -> & ->) by (split_and!; congruence).
  rewrite (scanned_inj _ _ _ _ Hs1 Hinv) in He. destruct Ha as [ws Ha].
  destruct (removed_api_finding inv k target (w_clock w 0%nat) r0 u e rv Hok He Hu Hl Hr Hle Hi) as (f & Hf & Hsev & Hcat & Hkey & Hobj).
  assert (Hfr : Forall fresh (r_Findings r2)) by (eapply Apply_fresh; [exact Ha|]; destruct Hsame as (-> & _); by eapply Evaluate_fresh).
  assert (Hf2 : f ∈ r_Findings r2).
  { apply (Apply_keeps_finding _ _ _ _ _ _ Ha); [by destruct Hsame as (-> & _)| |].
    - intros rule Hin Hv Hx. unfold ruleFor. rewrite Hkey, Hcat. by apply (not_inForce (w_clock w 1%nat) rule (removal u)); [apply Hrules|..].
    - intros x Hin Hx. apply (not_annotated x (removal u)); [apply Hann|].
      + rewrite Hobj in Hin. unfold sortedObjects in Hin. by rewrite isort_perm in Hin.
      + unfold annotated in *. by rewrite Hcat, Hkey in Hx. }
  destruct (marked_new baseline r2 f Hf2) as (f' & Hf' & Hb' & Hs'); [by rewrite Forall_forall in Hfr; apply Hfr| |].
  - intros b ->. destruct Hm as [[? _]|(_ & b' & E & Eb)]; [done|]. injection E as <-.
    replace (Baseline.findingID f) with (f_Key (removal u)); [by apply Hbase|]. unfold Baseline.findingID. by rewrite Hkey.
  - erewrite gate_blocker; [done|exact Hf'|done|congruence|done].
Qed.
End Scan.

(** ** A scan of files that still use a removed API *)

#[local] Existing Instance exactSemver.
#[local] Existing Instance byName.

Definition ciObject (line : Z) : ObjectRef := mkObjectRef "shop" "web" "ingress.yaml" line "" "" "" "" false false.

Definition ciInventory : Inventory :=
  with_APIUsages [mkAPIUsage "extensions" "v1beta1" "Ingress" 2 ∅ [ciObject 1; ciObject 9] 0] ingressInventory.

Definition ciOptions (output : string) : scanOptions :=
  mkScanOptions "1.22" "deploy" output "blocker" false false "" 0 "" "" false.

Definition ciWorld : scanWorld :=
  mkWorld "1.33" "deploy" (Ok (mkIgnore [] "" "")) (Err "no baseline") (Ok ingressKB) (Ok (ciInventory, mkSummary 0 2 [] [] 0))
    (Err "no cluster") ciInventory (fun _ => 0) None None "dev".

Abbreviation ciRun output := (default (mkRun [] None None) (scan (ciOptions output) ciWorld)).

Lemma ciScan output : mem_str output outputs = true -> scan (ciOptions output) ciWorld = Some (ciRun output).
Proof.
  intros Ho%mem_str_spec. unfold outputs in Ho. rewrite !elem_of_cons in Ho.
  destruct Ho as [->|[->|[->|[->|[->|[->|[]%elem_of_nil]]]]]]; vm_compute; reflexivity.
Qed.

Lemma ciScanned output inv : scanned (ciOptions output) ciWorld inv -> Capabilities inv !! GapTarget = None.
Proof. intros [(_ & sum & E & _)|[? _]]; [|done]. injection E as <- _. vm_compute. reflexivity. Qed.

Lemma ciKB k : w_kb ciWorld = Ok k -> kb_ok k.
Proof. intros E. injection E as <-. apply Forall_nil_2. Qed.

Lemma scan_junit_agrees_witness :
  exists doc, sn_document (ciRun "junit") = Some (asJUnit doc) /\
    ExitCode (sn_error (ciRun "junit")) = if 0 <? Junit.tss_Failures doc + Junit.tss_Errors doc then 2 else 0.
Proof.
  destruct (sn_document (ciRun "junit")) as [[| |doc| | |]|] eqn:E; try (exfalso; vm_compute in E; discriminate E).
  exists doc. split; [reflexivity|].
  exact (scan_junit_agrees (ciOptions "junit") ciWorld _ doc (ciScan "junit" eq_refl) E (ciScanned "junit")).
Defined.

Lemma scan_formats_agree_witness :
  exists d, sn_document (ciRun "sarif") = Some d /\ (ExitCode (sn_error (ciRun "sarif")) = 2 <-> objects d).
Proof.
  destruct (sn_document (ciRun "sarif")) as [d|] eqn:E; [|exfalso; vm_compute in E; discriminate E].
  exists d. split; [reflexivity|].
  exact (proj1 (scan_formats_agree (ciOptions "sarif") ciWorld _ d (ciScan "sarif" eq_refl) E eq_refl eq_refl eq_refl ciKB (ciScanned "sarif"))).
Defined.

Lemma scan_removed_api_fails_witness :
  exists run, scan (ciOptions "table") ciWorld = Some run /\ ExitCode (sn_error run) = match sn_document run with Some _ => 2 | None => 1 end.
Proof.
  refine (scan_removed_api_fails (ciOptions "table") ciWorld ingressKB (mkVersion 1 22) None ciInventory
    (mkAPIUsage "extensions" "v1beta1" "Ingress" 2 ∅ [ciObject 1; ciObject 9] 0) (mkIgnore [] "" "") _ _ eq_refl _ eq_refl _ _ _ _).
  - vm_compute. reflexivity.
  - discriminate.
  - apply Forall_nil_2.
  - left. split; [discriminate|]. exists (mkSummary 0 2 [] [] 0). split; [reflexivity|discriminate].
  - split; [by left|]. split; [|by intros x [->|[->|?%elem_of_nil]%elem_of_cons]%elem_of_cons [_ Hne]; apply Hne].
    exists ingressEntry, (mkVersion 1 22). split; [vm_compute; reflexivity|]. split; [reflexivity|]. split; [by right|left; right; cbn; lia].
  - intros rule ?%elem_of_nil. done.
  - intros b E. discriminate E.
Defined.
