(* ===== verification/GateFormats.v ===== *)
(** * The gate's CI answers

    The JUnit document a gate answers with fails exactly when the request
    does. *)

From stdpp Require Import base list strings gmap.
From Stdlib Require Import ZArith Lia Ascii.
From S2P Require Import Prelude GoStr GoTime Version Inventory KB Findings Calls AddOns Crd Skew Gaps Volumes Evaluate Limit GoUtf8 Glob Suppress Admit Heads Notify Db Store Delta Passes Views Scope Auth Gate Render Junit FreshSpec Scan ScanSpec.

(** ** What the answer holds *)

(** A manifest finding of a severity. *)
Definition introduces_sev (resp : gateResponse) (sev : string) : Prop :=
  exists x, x ∈ gr_Findings resp /\ gf_Source x = sourceManifest /\ f_Severity (gf_Finding x) = sev.

(** An answer whose verdict is that of its manifests' findings and of the
    gaps, with findings as the engine leaves them. *)
Record answers_ok (resp : gateResponse) : Prop := {
  ao_blocked : gr_Verdict resp = VerdictBlocked <-> introduces_sev resp SevBlocker;
  ao_unknown : gr_Verdict resp = VerdictUnknown <->
    ~ introduces_sev resp SevBlocker /\ exists g, g ∈ r_NotAssessed (gr_Report resp) /\ g_Required g = true;
  ao_targets : targetsRequired (gr_Report resp);
  ao_fresh : forall x, x ∈ gr_Findings resp -> fresh (gf_Finding x);
}.

Lemma gateResult_ok rep baseline introduced :
  targetsRequired rep -> Forall fresh (r_Findings rep) -> answers_ok (gateResult rep baseline introduced).
Proof.
  intros Ht Hf. set (resp := gateResult rep baseline introduced).
  assert (Hb : existsb (fun g => (gf_Source g =s sourceManifest) && Findings.isBlocker (gf_Finding g)) (gr_Findings resp) = true <->
    introduces_sev resp SevBlocker).
  { rewrite existsb_exists. unfold introduces_sev. setoid_rewrite list_elem_of_In. setoid_rewrite andb_true_iff.
    unfold Findings.isBlocker. setoid_rewrite String.eqb_eq. done. }
  assert (Hg : existsb g_Required (r_NotAssessed rep) = true <-> exists g, g ∈ r_NotAssessed rep /\ g_Required g = true).
  { rewrite existsb_exists. by setoid_rewrite list_elem_of_In. }
  assert (Hv : gr_Verdict resp = if existsb (fun g => (gf_Source g =s sourceManifest) && Findings.isBlocker (gf_Finding g)) (gr_Findings resp)
    then VerdictBlocked else if existsb g_Required (r_NotAssessed rep) then VerdictUnknown else VerdictReady) by done.
  split; [| |done|].
  - rewrite Hv, <- Hb. repeat case_match; done.
  - rewrite Hv, <- Hb. change (r_NotAssessed (gr_Report resp)) with (r_NotAssessed rep). rewrite <- Hg.
    destruct (existsb _ (gr_Findings resp)); [by split; [|intros [[] _]]|]. by destruct (existsb _ _); split; [|intros [_ ?]| |intros [_ ?]].
  - intros x (f & -> & Hin)%list_elem_of_fmap. rewrite Forall_forall in Hf. by apply Hf.
Qed.

Lemma cut_fresh k f : fresh f -> fresh (cut k f).1.
Proof. unfold cut. cbv zeta. by case_match. Qed.

Lemma trim_fresh mine f : fresh f -> fresh (trim mine f).
Proof. unfold trim. by case_match. Qed.

Lemma scopeGate_ok sc c resp : answers_ok resp -> answers_ok (scopeGate sc c resp).
Proof.
  intros [Hb Hu Ht Hf]. unfold scopeGate. destruct (fleet sc); [done|]. cbv zeta. set (resp' := mkGateResponse _ _ _ _ _ _ _ _ _).
  assert (Hs : forall sev, introduces_sev resp' sev <-> introduces_sev resp sev).
  { intros sev. unfold introduces_sev, resp'. cbn [gr_Findings]. setoid_rewrite list_elem_of_fmap. setoid_rewrite elem_of_Lfilter. split.
    - intros (x & (y & -> & Hy & _) & Hsrc & Hsev). cbn [gf_Finding gf_Source] in *. exists y.
      destruct (cut_key (gateKeep sc c) (gf_Finding y)) as (_ & _ & E). by rewrite E in Hsev.
    - intros (y & Hy & Hsrc & Hsev). eexists. split; [exists y; split_and!; [reflexivity|done|by rewrite Hsrc]|].
      cbn [gf_Finding gf_Source]. by destruct (cut_key (gateKeep sc c) (gf_Finding y)) as (_ & _ & ->). }
  assert (Hg : forall P : string -> bool -> Prop, (exists g, g ∈ r_NotAssessed (gr_Report resp') /\ P (g_Capability g) (g_Required g)) <->
    exists g, g ∈ r_NotAssessed (gr_Report resp) /\ P (g_Capability g) (g_Required g)).
  { intros P. unfold resp'. cbn [gr_Report with_Listing r_NotAssessed]. unfold scopeGaps. setoid_rewrite list_elem_of_fmap. split.
    - intros (x & (g & -> & Hin) & HP). exists g. split; [done|]. by destruct (withholds _ _).
    - intros (g & Hin & HP). eexists. split; [exists g; by split|]. by destruct (withholds _ _). }
  split.
  - by rewrite Hs.
  - rewrite Hs. rewrite (Hg (fun _ r => r = true)). done.
  - intros g Hin E. unfold resp' in Hin. cbn [gr_Report with_Listing r_NotAssessed] in Hin. unfold scopeGaps in Hin.
    apply list_elem_of_fmap in Hin as (g0 & -> & Hin). destruct (withholds _ _); cbn in *; by apply (Ht g0).
  - intros x Hx. unfold resp' in Hx. cbn [gr_Findings] in Hx. apply list_elem_of_fmap in Hx as (y & -> & [Hy _]%elem_of_Lfilter).
    by apply cut_fresh, Hf.
Qed.

Lemma warnings_ok ws resp : answers_ok resp -> answers_ok (with_Warnings ws resp).
Proof. by intros []. Qed.

(** ** The document *)

Lemma gateFails_cases resp failOn allow :
  (failOn =s "never") = false ->
  gateFails resp failOn allow = true <->
  (gr_Verdict resp = VerdictBlocked) \/
  (gr_Verdict resp = VerdictUnknown /\ (allow = false \/ exists g, g ∈ r_NotAssessed (gr_Report resp) /\ g_Capability g = GapTarget)) \/
  (failOn = "warning"%string /\ introduces_sev resp SevWarning).
Proof.
  intros Hn. unfold gateFails. rewrite Hn.
  assert (Hw : existsb (fun f => (gf_Source f =s sourceManifest) && Findings.isWarning (gf_Finding f)) (gr_Findings resp) = true <->
    introduces_sev resp SevWarning).
  { rewrite existsb_exists. unfold introduces_sev. setoid_rewrite list_elem_of_In. setoid_rewrite andb_true_iff.
    unfold Findings.isWarning. by setoid_rewrite String.eqb_eq. }
  assert (Ht : existsb (fun g => g_Capability g =s GapTarget) (r_NotAssessed (gr_Report resp)) = true <->
    exists g, g ∈ r_NotAssessed (gr_Report resp) /\ g_Capability g = GapTarget).
  { rewrite existsb_exists. setoid_rewrite list_elem_of_In. by setoid_rewrite String.eqb_eq. }
  rewrite <- Hw, <- Ht, <- !String.eqb_eq.
  destruct (gr_Verdict resp =s VerdictBlocked), (gr_Verdict resp =s VerdictUnknown), allow, (failOn =s "warning"),
    (existsb _ (r_NotAssessed _)), (existsb _ (gr_Findings _)); cbn; naive_solver.
Qed.

Lemma gateFails_spec resp failOn allow :
  answers_ok resp ->
  gateFails resp failOn allow = true <->
  0 < Junit.tss_Failures (Junit.Write (sarifReport (gr_Report resp) resp) (Junit.mkOptions failOn allow)) +
      Junit.tss_Errors (Junit.Write (sarifReport (gr_Report resp) resp) (Junit.mkOptions failOn allow)).
Proof.
  intros [Hb Hu Ht Hf]. rewrite JunitSpec.Write_fails. cbn [sarifReport r_Findings r_NotAssessed Junit.AllowIncomplete].
  set (t := JunitSpec.threshold _). assert (En : (failOn =s "never") = (t =s "never") /\ forall s, Junit.reaches s t = Junit.reaches s failOn).
  { unfold t, JunitSpec.threshold. cbn [Junit.FailOn]. destruct (failOn =s "") eqn:E; [|done]. apply String.eqb_eq in E as ->. done. }
  destruct En as [En Er]. setoid_rewrite Er.
  assert (Hin : forall f, f ∈ map gf_Finding (List.filter (fun f => gf_Source f =s sourceManifest) (gr_Findings resp)) <->
    exists x, x ∈ gr_Findings resp /\ gf_Source x = sourceManifest /\ f = gf_Finding x).
  { intros f. rewrite list_elem_of_fmap. setoid_rewrite elem_of_Lfilter. setoid_rewrite String.eqb_eq. naive_solver. }
  setoid_rewrite Hin. destruct (failOn =s "never") eqn:Hn.
  { unfold gateFails. rewrite Hn. split; [done|]. intros [(f & _ & _ & H)|(g & _ & H)].
    - unfold Junit.reaches in H. by rewrite Hn in H.
    - unfold Junit.gapFails in H. rewrite <- En in H. by rewrite andb_false_r in H. }
  rewrite gateFails_cases by done.
  assert (Hgap : forall g, Junit.gapFails t allow g = g_Required g && ((g_Capability g =s GapTarget) || negb allow))
    by (intros; unfold Junit.gapFails; by rewrite <- En, andb_true_r).
  setoid_rewrite Hgap.
  assert (Hsev : forall sev, Junit.reaches sev failOn = true <-> sev = SevBlocker \/ failOn = "warning"%string /\ sev = SevWarning).
  { intros sev. unfold Junit.reaches. rewrite Hn. destruct (failOn =s "warning") eqn:Ew.
    - rewrite orb_true_iff, !String.eqb_eq. apply String.eqb_eq in Ew. naive_solver.
    - rewrite String.eqb_eq. apply String.eqb_neq in Ew. naive_solver. }
  setoid_rewrite Hsev. split.
  - intros Hc.
    destruct Hc as [(x & Hx & Hsrc & Hs)%Hb|[[Hv Hc]|[Hw (x & Hx & Hsrc & Hs)]]].
    + left. exists (gf_Finding x). split; [eauto|]. split; [by rewrite (Hf x Hx)|by left].
    + right. apply Hu in Hv as [_ (g & Hg & Hreq)]. destruct Hc as [->|(g' & Hg' & E)].
      * exists g. by rewrite Hreq, orb_true_r.
      * exists g'. rewrite (Ht g' Hg' E), E. done.
    + left. exists (gf_Finding x). split; [eauto|]. split; [by rewrite (Hf x Hx)|by right].
  - intros H. destruct H as [(f & (x & Hx & Hsrc & ->) & _ & [Hs|[Hw Hs]])|(g & Hg & Hq)].
    + left. apply Hb. by exists x.
    + right; right. split; [done|]. by exists x.
    + destruct (decide (gr_Verdict resp = VerdictBlocked)) as [E|E]; [by left|]. right; left.
      apply andb_true_iff in Hq as [Hreq Hq]. split; [apply Hu; split; [by rewrite <- Hb|eauto]|].
      apply orb_true_iff in Hq as [Hq|Hq]; [right; exists g; split; [done|by apply String.eqb_eq]|left; by apply negb_true_iff].
Qed.

Section Answer.
Context `{Semver} `{KubeAware} `{Scheme} `{AgentSemver}.
Context (s : Server).
Context (Hkb : kb_ok (sv_KB s)).
(** The server runs the engine. *)
Context (Hengine : forall inv t now, EvaluateWithin inv (sv_KB s) t now (sv_maxReportBytes s) =
                                     Some (runEngine s inv (sv_KB s) t now (sv_maxReportBytes s))).

(** A report the gate judges from. *)
Definition judgeableReport (rep : Report) : Prop := targetsRequired rep /\ Forall fresh (r_Findings rep).

Lemma evaluateWithin_ok inv target now rep :
  evaluateWithin s inv target now = inl rep -> Capabilities inv !! GapTarget = None -> judgeableReport rep.
Proof using Hkb Hengine.
  unfold evaluateWithin. intros He Hc. pose proof (Hengine inv target now) as Hrun. case_match; [|done]. injection He as ->.
  apply EvaluateWithin_report in Hrun; [|done]. split; [by eapply Evaluate_settled|by eapply Evaluate_fresh].
Qed.

Lemma mergeManifests_target proposed manifests :
  Capabilities proposed !! GapTarget = None -> Capabilities (mergeManifests proposed manifests).1 !! GapTarget = None.
Proof.
  intros Hc. unfold mergeManifests. cbv zeta. cbn [fst with_Capabilities Capabilities].
  repeat case_match; try done; by rewrite lookup_insert_ne.
Qed.

Lemma gateEvaluation_ok clock g sc cluster manifests ev gcut :
  gateEvaluation s clock g sc cluster manifests = inl (ev, gcut) ->
  Capabilities manifests !! GapTarget = None ->
  (forall inv viewed ref, cluster = Some (inv, viewed, ref) -> Capabilities inv !! GapTarget = None) ->
  judgeableReport (ge_full ev).
Proof using Hkb Hengine.
  intros E Hm Hc. unfold gateEvaluation in E. destruct cluster as [[[inv viewed] ref]|]; cbv zeta in E.
  - destruct (gateWithin _ _ _ _ _ _ _ _) as [ev'|] eqn:Eg; [|done]. injection E as -> _. unfold gateWithin in Eg.
    destruct (evaluateWithin s _ _ (clock 0%nat)) as [base|]; [|done].
    destruct (mergeManifests _ _) as [inv' side] eqn:Emerge.
    destruct (evaluateWithin s side _ _) as [sideRep|]; [|done]. destruct (evaluateWithin s inv' _ _) as [full|] eqn:Ef; [|done].
    injection Eg as <-. cbn [ge_full]. apply evaluateWithin_ok in Ef; [done|].
    change inv' with (inv', side).1. rewrite <- Emerge. apply mergeManifests_target. cbn [proposedState with_Capabilities Capabilities].
    rewrite lookup_insert_ne by done. cbn [with_APIUsages Capabilities]. unfold clusterShare. destruct (fleet sc); by apply (Hc inv viewed ref).
  - destruct (evaluateWithin _ _ _ _) as [full|] eqn:Ef; [|done]. injection E as <- _. by apply evaluateWithin_ok in Ef.
Qed.

Lemma gateRespond_ok clock g sc ev gcut : judgeableReport (ge_full ev) -> answers_ok (gateRespond clock g sc ev gcut).
Proof.
  intros [Ht Hf]. unfold gateRespond, suppressGate.
  destruct (Apply_spec (ge_full ev) (gp_rules g) (mkOptions (clock 4%nat) gateConfigSource "")) as (rep & ws & HA & _ & _ & Hg & _). rewrite HA.
  assert (Hok : answers_ok (gateResult (capObjects rep (holdsObject (ge_mine ev))) (ge_baseline ev) (ge_introduced ev))).
  { apply gateResult_ok; [unfold targetsRequired in *; cbn [capObjects with_Findings r_NotAssessed]; by rewrite Hg|].
    cbn [capObjects with_Findings r_Findings]. rewrite Forall_map. eapply Forall_impl; [eapply Apply_fresh; [exact HA|exact Hf]|].
    intros f. apply trim_fresh. }
  apply warnings_ok. destruct gcut; [by apply scopeGate_ok|done].
Qed.

(** The gate's test report and its status agree. Whatever stream is judged,
    alone or against a cluster, for a fleet or a team token and under any
    rules and options: the request fails (422) exactly when the JUnit
    document it is answered with has a failure or an error, and is answered
    200 exactly when it has none. *)
Lemma gate_junit_agrees (bound : gateResponse -> string -> Z) (limit : Z) (clock : nat -> Time) (g : gateRequest) (sc : readScope)
    (cluster : option (Inventory * bool * string)) (manifests : Inventory) (ans : gateAnswer) :
  evaluateManifests s bound limit clock g sc cluster manifests = inl ans ->
  Capabilities manifests !! GapTarget = None ->
  (forall inv viewed ref, cluster = Some (inv, viewed, ref) -> Capabilities inv !! GapTarget = None) ->
  let doc := Junit.Write (ga_ci ans) (Junit.mkOptions (gp_failOn g) (gp_allowIncomplete g)) in
  ga_status ans = if 0 <? Junit.tss_Failures doc + Junit.tss_Errors doc then 422 else 200.
Proof using Hkb Hengine.
  intros Hans Hm Hc. unfold evaluateManifests in Hans.
  destruct (gateEvaluation s clock g sc cluster _) as [[ev gcut]|] eqn:E; [|done]. cbv zeta in Hans. case_match; [done|].
  injection Hans as <-. cbv zeta. cbn [ga_status ga_ci].
  apply gateEvaluation_ok in E as Hok; [|done|done]. apply (gateRespond_ok clock g sc ev gcut) in Hok.
  pose proof (gateFails_spec _ (gp_failOn g) (gp_allowIncomplete g) Hok) as Hspec.
  destruct (gateFails _ _ _), (0 <? _) eqn:Ej; try done; [apply Z.ltb_ge in Ej|apply Z.ltb_lt in Ej]; exfalso.
  - pose proof (proj1 Hspec eq_refl). lia.
  - by apply Hspec in Ej.
Qed.
End Answer.

(** ** A team's stream that uses a removed API *)

#[local] Existing Instance exactSemver.
#[local] Existing Instance Crd.byName.
#[local] Existing Instance dottedSemver.
#[local] Existing Instance coreScheme.

Lemma gate_junit_agrees_witness :
  exists ans, evaluateManifests (engineServer ingressKB) (fun _ _ => 0) 100 (fun _ => 0) (gate122 [elsewhere]) billingScope
    (Some (shopBefore, false, "prod"%string)) ingressStream = inl ans /\
    ga_status ans = if 0 <? Junit.tss_Failures (Junit.Write (ga_ci ans) (Junit.mkOptions "blocker" false)) +
      Junit.tss_Errors (Junit.Write (ga_ci ans) (Junit.mkOptions "blocker" false)) then 422 else 200.
Proof.
  destruct (evaluateManifests (engineServer ingressKB) (fun _ _ => 0) 100 (fun _ => 0) (gate122 [elsewhere]) billingScope
    (Some (shopBefore, false, "prod"%string)) ingressStream) as [ans|] eqn:E; [|vm_compute in E; discriminate E].
  exists ans. split; [reflexivity|].
  refine (gate_junit_agrees (engineServer ingressKB) _ _ _ _ _ (gate122 [elsewhere]) _ _ _ ans E _ _).
  - apply Forall_nil_2.
  - intros inv t now. apply engineServer_runs. apply Forall_nil_2.
  - vm_compute. reflexivity.
  - intros inv viewed r [= <- _ _]. vm_compute. reflexivity.
Defined.
